(* ===== verification/_CoqProject ===== *)
-Q . S2P
Prelude.v
Actions.v
Dispatcher.v
Domain.v
Slots.v
Layout.v
Operation.v
Planning.v
Platform.v
Executor.v
Bytecode.v
Rebuild.v
Members.v
XDPRebuild.v
TCRebuild.v
TCAttach.v
Detach.v
Lifecycle.v
StoreDb.v
Store.v
StoreTx.v
StoreSpec.v
StoreInv.v
Placed.v
StoreRefine.v
Coherent.v
Inspect.v
Manager.v
Attach.v
SimpleAttach.v
Requests.v
Removal.v
Serving.v
Load.v
LoadBatch.v
Service.v
Delete.v
SimKernel.v
Scenarios.v
ManagerScenarios.v
Lexer.v
LexerPos.v
LexerCover.v
LexerReturns.v
LexerPrint.v
Suggest.v
Literals.v
Ast.v
ExprParser.v
StmtParser.v
TokensOk.v
ParserLogic.v
ExprReturns.v
StmtReturns.v
SourceFmt.v
Format.v
PrintPieces.v
PrintStrings.v
PrintExpr.v
PrintReads.v
PrintLevels.v
PrintTerms.v
PrintParse.v
Ir.v
Lower.v
IrTyping.v
LowerLogic.v
LowerTyped.v
LowerPlaced.v
ShellScenarios.v
Floats.v
Value.v
Operands.v
World.v
Eval.v
Exec.v
ExecLogic.v
OperatorFacts.v
ExecSafe.v
ExecScenarios.v
