(* ===== verification/Prelude.v ===== *)
(** * go-bpfman: a verification of its manager, dispatchers, store and shell

    go-bpfman manages eBPF programs on a host: it loads them, pins them below a
    bpffs mount, attaches them to hooks and records all of it in a SQLite
    database. The kernel allows one XDP program per interface and gives no
    order to several TC programs, so bpfman attaches a dispatcher program
    there, whose ten slots call the user's programs in priority order and stop
    on the return codes outside of a proceed-on mask. Dispatchers are
    immutable: each attach and each detach loads a new revision, attaches every
    member to it as an extension, swaps it in, records it and drops the old
    revision. What can go wrong on that way, and what must hold after it, is the
    subject of most of this library.

    ** The parts of the program and the files that model them

    - [Prelude] (this file): Go errors and results, the state-and-error monad
      [M], fixed-width integers, inversion lemmas and the [step_ok]/[step_err]
      tactics.
    - [Actions]: the XDP and TC action tables (xdp_action.go, tc_action.go).
    - [Dispatcher]: dispatcher types and keys, the proceed-on bit-mask codec,
      the .rodata configurations, extension attach specs (dispatcher/).
    - [Domain]: link kinds and details, program types and records, load specs
      with their JSON, attach specs with their validation, tracepoint names
      (link.go, program.go, image.go, load_spec.go, attach_spec.go,
      attach_kind.go, tracepoint.go).
    - [Slots], [Members]: dispatcher snapshots and members, the slots of a
      rebuild, the in-place insertion sort that fixes the chain order, and how
      slots, attached extensions and stored members correspond
      (platform/dispatcher_types.go, manager/executor_dispatcher.go).
    - [Layout]: the paths of the bpffs and the guarded deletions
      (fs/bpffs_layout.go, fs/bpffs_ops.go). A path is the list of the segments
      of its cleaned form; [String] renders it and [Clean] is filepath.Clean.
    - [Operation]: plans of Do, Produce and Try nodes, their bindings, the
      interpreter and its reverse-order roll-back (manager/operation/,
      manager/action/executor.go), for any executor and any action type.
    - [Platform]: the interfaces the executor is written against
      (platform/interfaces.go): [KernelOps] with [KernelLaws] for the kernel
      adapter, [DispatcherStoreOps] with [DispatcherStore] for the store, and
      the world (kernel state, store state, log of warnings).
    - [Executor]: the whole of manager/executor_dispatcher.go, statement by
      statement. Its theorems are in [Rebuild] (shared steps), [XDPRebuild],
      [TCRebuild], [TCAttach], [Detach] and [Lifecycle], against the interfaces
      alone.
    - [StoreDb], [Store]: the tables of the schema with their keys, checks and
      cascades, one function per SQL statement, and the methods of
      platform/store/sqlite (sqlite.go, dispatchers.go, links.go, programs.go,
      shared_map_pins.go). Their theorems are in [StoreTx] (transactions),
      [StoreSpec] (the store implements [DispatcherStore]), [StoreInv]
      (schema invariant, round trips) and [StoreRefine] (histories of calls are
      histories of an abstract table of snapshots).
    - [Bytecode]: publishing and removing a program's bytecode (fs/runtime.go).
    - [Planning]: the pure planning functions of the manager: the reap plan, the
      order of batch deletions, the place of a TCX link, dispatcher keys.
    - [Inspect]: the correlation of store, kernel and file system and the
      listings built on it (inspect/, manager/list.go).
    - [Manager], [Attach], [Load], [Delete]: the requests. [Manager] has the
      action type, the executor that dispatches on it (manager/executor.go),
      Detach and Unload (detach.go, unload.go); [Attach] the eight attach verbs as
      the plans the source builds (attach*.go); [Load] and [Delete] the batch
      operations (load.go, delete.go). A Go panic (a missing binding, a nil
      dereference) is the outcome [Panic].
    - [Placed], [Coherent]: where the paths of the records are, and the frame
      lemmas of the requests; [SimpleAttach], [Requests], [Removal], [Serving],
      [LoadBatch], [Service]: the theorems about attaches without a dispatcher,
      Detach, Unload, all verbs, Load, and sequences of requests.
    - [SimKernel], [Scenarios], [ManagerScenarios]: an executable kernel that
      satisfies [KernelLaws], and concrete worlds on which the theorems are run.
    - [Lexer]: the tokeniser of the bpfman-shell language
      (cmd/bpfman-shell/shell/syntax/token.go, source/source.go) and the
      printing of literals and paths (sourcefmt.go). [LexerPos] has its positions,
      [LexerCover] what its tokens are, [LexerReturns] when it returns,
      [LexerPrint] the round trip.
    - [Literals], [Ast]: identifiers, white space, numbers, paths and durations
      of the shell language; its syntax tree with positions, and the walk over it
      (syntax/ast_*.go, inspect.go, path.go, time.ParseDuration).
    - [ExprParser], [StmtParser]: parse.go and matches.go, method by method, over
      cursors. [TokensOk] says what the tokeniser promises the parser, [ParserLogic]
      is a logic of pre- and postconditions for parsers, [ExprReturns] and
      [StmtReturns] prove with it that they return and lose no position.
    - [SourceFmt], [Format]: sourcefmt.go and format.go, the formatter of
      expressions and of scripts. [PrintPieces] and [PrintStrings] read what it writes
      piece by piece; [PrintExpr] has the printable expressions and their tokens,
      [PrintReads] the tokeniser on them and a logic of parsers that succeed,
      [PrintLevels] and [PrintTerms] the levels of precedence and the terms;
      [PrintParse] has the round trip.
    - [Ir], [Lower]: the instructions the shell runs (ir/) and the lowering of a
      tree to them (lower/), in a state monad over the unit under construction.
      [IrTyping] says when a unit is well formed, [LowerLogic] is a logic of
      weakest preconditions for the lowering, [LowerTyped] proves with it that its
      units are well formed, [LowerPlaced] which programs it accepts.
    - [ShellScenarios]: scripts through the tokeniser, the parser, the formatter and
      the lowering.
    - [Floats], [Value], [Operands], [World], [Eval], [Exec]: the runtime of the
      shell (cmd/bpfman-shell/shell/runtime, semantics/): doubles and their text;
      dynamic values, envelopes and paths (value.go, envelope.go, origin.go,
      typekind.go); arguments, errors, operators and rendering (arg.go, expr.go);
      the session, the Env and the hooks of the driver (session.go, trace.go,
      expr.go); evaluation, matches blocks and calls of defs (ir_expr.go,
      matches_eval.go, expr.go); the executor, with its loops, polls, defer scopes
      and jobs (ir_exec.go, expr.go). [OperatorFacts] has the theorems on operators
      and matches blocks; [ExecLogic] a logic of total correctness for
      computations that take a number of steps, the laws of a driver and the measure
      of what a unit has left to do; [ExecSafe] that executions end and end well;
      [ExecScenarios] a driver over a log and scripts from source to log.
    - [Suggest]: the edit distance and the rankings behind the suggestions for
      mistyped names (internal/strdist, manager/suggest.go).

    ** What the theorems show

    - Attach and detach ([XDPRebuild], [TCAttach], [Detach]): a failed rebuild
      leaves the store as it was, and the kernel too unless one of its own
      clean-up calls failed, which the log then records; a successful one
      changes exactly one snapshot, keeps the other members and orders the chain
      by priority; a detach removes exactly the link it was asked to.
    - Over time ([Lifecycle]): through any sequence of attaches that succeed or
      whose roll-back worked, member detaches that succeed and removals that
      succeed, every dispatcher the store records is served: its link or
      filter runs the program of the recorded revision, configured for the
      recorded members, and each member's recorded program is attached in its
      slot.
    - Requests ([SimpleAttach], [Requests], [Removal], [LoadBatch], [Service]):
      no request panics; an attach without a dispatcher happens completely or
      leaves nothing behind but possibly its own pin, and interpreting its
      plan is the direct program; Detach and Unload remove exactly what they
      name; a batch load is atomic; and the requests of [request_step] keep the
      world coherent: every dispatcher is served as in [Lifecycle] and every
      recorded path is in its place. [request_step] leaves out the requests
      after which the code does not promise that: an attach whose roll-back
      failed, a failed detach of a dispatcher member, a failed unload.
    - The store ([StoreTx], [StoreSpec], [StoreInv], [StoreRefine]): failed transactions change
      nothing, a busy database is retried with the outcome of an undisturbed
      run, snapshots, programs and pending links are read back as written,
      the schema holds after any sequence of method calls, and the snapshot
      methods refine a table that is replaced an entry at a time.
    - Plans ([Operation]): when each completed node is inverted by its undo group
      and the failing node changes nothing, a failed plan ends where it began;
      for every outcome, which nodes have run and in which order the actions of
      which undo groups; well-scoped plans never panic.
    - The shell's tokeniser ([LexerCover], [LexerReturns], [LexerPrint]): tokens
      tile the input and carry its positions; it returns on every input where
      the comment pass and the string lexer agree on the quotes, and on an
      input where they do not it never does; printed literals are read back.
    - The shell's parser ([StmtReturns], [PrintParse]): from the bytes of a script
      to its tree it returns, with fuel the length of the input, and every node of
      the tree has a complete position; an expression that the formatter prints is
      read back as the same expression, if its words, names and texts can be
      written at all ([printable] in [PrintExpr] lists the exceptions: null
      outside of calls, a negation before a word, interpolated expressions that are
      not references, records as arguments of calls).
    - The shell's lowering ([LowerTyped], [LowerPlaced]): it accepts exactly the
      programs whose statements stand where they may; and when no exit of a loop
      leaves a poll, each of its blocks has a context (the frames, defer scopes,
      loops and polls around it) in which every instruction finds what it reads
      and what it closes, and which the blocks it leaves for agree with; and its
      blocks are published so that control returns to an earlier one only through
      a loop that goes on or a poll that tries again.
    - The shell's runtime ([ExecSafe], [OperatorFacts]): a program with such
      units runs to an end, in a number of steps that no later bound changes,
      because each loop has a list and each poll a deadline, and everything else
      goes forward; it does not panic, does not end in an error about inconsistent
      IR, and leaves frames, defer scope, polls, call depth and jobs as they were.
      Arithmetic and comparison of integers are exact at every size; a matches block matches just when each of
      its rows holds.
    - The smaller components: Levenshtein is the least number of edits
      ([Suggest]); the chain order is canonical ([Slots]); no
      deletion leaves its own family of paths and no two objects share a path
      ([Layout]); the proceed-on codec and the action tables are round trips on
      their exact domains ([Dispatcher], [Actions]); the JSON of a load spec, the
      attach-spec validation and tracepoint names ([Domain]).

    ** Modelling choices

    - Errors are kept up to the text of their format and what errors.Is can
      find in them; [M W A] is a Go function on the state [W] that returns
      (A, error), and keeps the state changes of a failing run.
    - Integers are [Z] with the conversions of the source written out
      ([uint32], [int32], ...); properties that rely on a Go type's width take
      it as a hypothesis.
    - The kernel is a parameter. [KernelLaws] says what each call does to
      the pins and the TC filters when it succeeds and what little it may leave
      when it fails (a filter the kernel accepted, the pin at a link's own
      path), and that a network namespace path denotes one namespace. It
      promises nothing about which calls succeed.
    - The database driver may refuse any statement, BEGIN or COMMIT: the store
      carries a script of refusals, and theorems quantify over it. The retry
      loop of runInTx is structural in the number of retries left, which is the
      source's own bound, so no fuel is chosen anywhere in the store. The
      insertion sort and the mask loops recurse on the data or on the ten slots
      and the 32 bits.
    - Requests are serialised, as the manager's writer lock has them.
    - The tokeniser works on the bytes of its input. Its loops that do not advance
      by one byte take fuel: the inner ones the length of the input plus one,
      which is proved to be enough; the main loop any amount, and the theorems say
      from which on it returns, or that none is enough.
    - The parser's recursion takes fuel for the depth of nesting, its loops for the
      tokens left; both start from the weight of the tokens, their number and the
      length of the interpolations in them, which is proved to be enough.
    - The runtime keeps an error as its format with the errors inside, not its
      arguments; the text that a failed defer reports is asked of the driver
      ([Error]). The errors that report inconsistent IR are a constructor of
      their own, [BadIR]. A Go map of values is the list of its entries by key.
    - [Foreign] stands for the Go values of other packages that a value can come
      from, which the runtime walks by reflection; [Driver] for the function fields
      of Env, with state of its own. [DriverLaws] says that a hook which runs a
      command leaves the frames, defer scope, polls and depth as they were, and that
      the clock does not go back and moves on by at least the time slept.
    - Exec takes a bound on the blocks that one unit runs; the theorem is that some
      bound is enough. Calls of defs nest to MaxDefCallDepth, so the recursion over
      the depth does not run out; one deeper would be the panic of an overflow.
    - JSON columns hold the value they encode; Go maps are [gmap]s.

    ** What is not modelled

    The kernel adapter (cilium/ebpf and netlink calls), image pulling and
    verification, the gRPC and CSI servers, the command line, the flock-based lock,
    configuration and logging set-up, database opening and migrations, the coherency
    reports, and the single-program view of Manager.Get. Of the shell language: the
    checker (check/check.go), on which neither the lowering nor the executor
    relies; the driver with its commands, processes and jobs (driver/,
    internal/builtins/), which the runtime sees through [Driver]; the dump of the IR;
    and what serves the driver alone, as ValueFromJSON, ValueFromStruct, RenderValue
    and DefSignatures. In [Delete] the recursion over dependents is bounded by fuel,
    which stands for Go's stack; no theorem is stated about it yet. *)

From Stdlib Require Import ZArith Lia Ascii.
From stdpp Require Import base tactics list gmap strings sorting option.


(** A file-system path as the segments of its cleaned absolute form; the
    empty list is Go's empty string. *)
Abbreviation path := (list string).

(** ** Go errors

    An error value is the text of its format (the interpolated arguments are
    not kept), a sentinel or typed error of the program that callers test with
    [errors.Is], or a [%w] wrapper around another error. *)

Inductive sentinel :=
| ErrRecordNotFound          (* platform.ErrRecordNotFound *)
| ErrMapSetIDReused          (* platform.ErrMapSetIDReused *)
| ErrBusy                    (* SQLITE_BUSY / SQLITE_LOCKED *)
| ErrConstraint              (* an SQLite constraint violation *)
| ErrNotExist                (* fs.ErrNotExist *)
| ErrProgramNotFound         (* bpfman.ErrProgramNotFound *)
| ErrProgramNotManaged       (* bpfman.ErrProgramNotManaged *)
| ErrLinkNotFound            (* bpfman.ErrLinkNotFound *)
| ErrNotFound                (* inspect.ErrNotFound *)
| ErrAttachKindMismatch      (* bpfman.ErrAttachKindMismatch *)
| ErrTracepointNotFound      (* bpfman.ErrTracepointNotFound *)
| ErrMapOwnerNotFound        (* platform.ErrMapOwnerNotFound *)
| ErrImagePullerNotConfigured (* manager.ErrImagePullerNotConfigured *)
| ErrOutsideLayout           (* fs.ErrOutsideLayout *)
| ErrFinalExists             (* fs.ErrFinalExists *)
| ErrInvalidAttachSpec.      (* bpfman.ErrInvalidAttachSpec *)

#[export] Instance sentinel_eq_dec : EqDecision sentinel.
Proof. solve_decision. Defined.

Inductive error :=
| Errorf (msg : string)
| Sentinel (s : sentinel)
| Wrap (msg : string) (e : error)
| Join (e1 e2 : error).

#[export] Instance error_eq_dec : EqDecision error.
Proof. solve_decision. Defined.

(** [errors.Is], for the sentinels above. *)
Fixpoint errors_Is (e : error) (s : sentinel) : bool :=
  match e with
  | Errorf _ => false
  | Sentinel s' => bool_decide (s = s')
  | Wrap _ e' => errors_Is e' s
  | Join e1 e2 => errors_Is e1 s || errors_Is e2 s
  end.

(** ** Results: Go's [(T, error)] *)

Inductive result (A : Type) :=
| Ok (a : A)
| Err (e : error).
Arguments Ok {A} a.
Arguments Err {A} e.

Definition is_ok {A} (r : result A) : bool :=
  match r with Ok _ => true | Err _ => false end.

Definition rbind {A B} (r : result A) (f : A -> result B) : result B :=
  match r with Ok a => f a | Err e => Err e end.

(** [fmt.Errorf("...: %w", err)] on the error side. *)
Definition wrap_err {A} (msg : string) (r : result A) : result A :=
  match r with Ok a => Ok a | Err e => Err (Wrap msg e) end.

Definition result_opt {A} (e : error) (o : option A) : result A :=
  match o with Some a => Ok a | None => Err e end.

Declare Scope go_scope.
Delimit Scope go_scope with go.
Notation "'let!' x ':=' r 'in' k" := (rbind r (fun x => k))
  (at level 10, x pattern, r at level 100, k at level 200, right associativity) : go_scope.
Open Scope go_scope.

Fixpoint rmap {A B} (f : A -> result B) (l : list A) : result (list B) :=
  match l with
  | [] => Ok []
  | x :: l' => rbind (f x) (fun y => rbind (rmap f l') (fun ys => Ok (y :: ys)))
  end.

Lemma rmap_ok_length {A B} (f : A -> result B) l ys :
  rmap f l = Ok ys -> length ys = length l.
Proof.
  revert ys; induction l as [|x l IH]; intros ys; simpl; [by intros [= <-]|].
  destruct (f x); simpl; [|done]. destruct (rmap f l); simpl; [|done].
  intros [= <-]; simpl; by rewrite (IH a0).
Qed.

Lemma rmap_ok_Forall2 {A B} (f : A -> result B) l ys :
  rmap f l = Ok ys <-> Forall2 (fun x y => f x = Ok y) l ys.
Proof.
  split.
  - revert ys; induction l as [|x l IH]; intros ys; simpl; [intros [= <-]; by constructor|].
    destruct (f x) eqn:E; simpl; [|done]. destruct (rmap f l); simpl; [|done].
    intros [= <-]; constructor; auto.
  - induction 1 as [|x y l ys Hx _ IH]; simpl; [done|]. by rewrite Hx; simpl; rewrite IH.
Qed.

Lemma rmap_total {A B} (f : A -> result B) (g : A -> B) l :
  (forall x, x ∈ l -> f x = Ok (g x)) -> rmap f l = Ok (g <$> l).
Proof.
  induction l as [|x l IH]; intros H; simpl; [done|].
  rewrite (H x) by left. simpl. rewrite IH; [done|]. intros y Hy; apply H; by right.
Qed.

(** ** Stateful, fallible code: explicit state passing under a result *)

Definition M (W A : Type) : Type := W -> result A * W.

Definition ret {W A} (a : A) : M W A := fun w => (Ok a, w).
Definition throw {W A} (e : error) : M W A := fun w => (Err e, w).
Definition bind {W A B} (m : M W A) (f : A -> M W B) : M W B :=
  fun w => match m w with
           | (Ok a, w') => f a w'
           | (Err e, w') => (Err e, w')
           end.
Definition gets {W A} (f : W -> A) : M W A := fun w => (Ok (f w), w).
Definition lift {W A} (r : result A) : M W A := fun w => (r, w).

(** [if err != nil { return fmt.Errorf("...: %w", err) }] *)
Definition wrapping {W A} (msg : string) (m : M W A) : M W A :=
  fun w => let '(r, w') := m w in (wrap_err msg r, w').

(** [r, err := m()] with the error inspected by the caller. *)
Definition attempt {W A} (m : M W A) : M W (result A) :=
  fun w => let '(r, w') := m w in (Ok r, w').

(** Best-effort calls: the error is logged, not returned. *)
Definition best_effort {W A} (m : M W A) : M W unit :=
  fun w => let '(_, w') := m w in (Ok tt, w').

(** Failure-path clean-up: run [undo], return the original error. *)
Definition on_error {W A} (m : M W A) (undo : error -> M W unit) : M W A :=
  fun w => match m w with
           | (Ok a, w') => (Ok a, w')
           | (Err e, w') => (Err e, snd (undo e w'))
           end.

Notation "'let*' x ':=' m 'in' k" := (bind m (fun x => k))
  (at level 10, x pattern, m at level 100, k at level 200, right associativity) : go_scope.
Notation "m ';;;' k" := (bind m (fun _ => k))
  (at level 100, k at level 200, right associativity) : go_scope.

Fixpoint for_each {W A} (l : list A) (f : A -> M W unit) : M W unit :=
  match l with
  | [] => ret tt
  | x :: l' => bind (f x) (fun _ => for_each l' f)
  end.

(** ** Fixed-width integers *)

Local Open Scope Z_scope.
Definition uint8 (z : Z) : Z := z mod 2 ^ 8.
Definition uint16 (z : Z) : Z := z mod 2 ^ 16.
Definition uint32 (z : Z) : Z := z mod 2 ^ 32.
Definition uint64 (z : Z) : Z := z mod 2 ^ 64.
Definition int32 (z : Z) : Z := (z + 2 ^ 31) mod 2 ^ 32 - 2 ^ 31.

Definition in_uint32 (z : Z) : Prop := 0 <= z < 2 ^ 32.
Definition in_int32 (z : Z) : Prop := - 2 ^ 31 <= z < 2 ^ 31.

Lemma uint32_id z : in_uint32 z -> uint32 z = z.
Proof. unfold in_uint32, uint32. intros; apply Z.mod_small; lia. Qed.

Lemma uint32_range z : in_uint32 (uint32 z).
Proof. unfold in_uint32, uint32. apply Z.mod_pos_bound; lia. Qed.

Create HintDb go.
#[export] Hint Resolve uint32_range uint32_id : go.

Lemma int32_id z : in_int32 z -> int32 z = z.
Proof. unfold in_int32, int32. intros. rewrite Z.mod_small; lia. Qed.

Lemma uint32_high_bits z n : in_uint32 z -> 32 <= n -> Z.testbit z n = false.
Proof.
  intros [H0 H1] Hn. destruct (decide (z = 0)) as [->|]; [apply Z.bits_0|].
  apply Z.bits_above_log2; [done|]. apply Z.log2_lt_pow2; [lia|].
  eapply Z.lt_le_trans; [exact H1|]. apply Z.pow_le_mono_r; lia.
Qed.

(** ** Inversion of monadic runs *)

Lemma bind_ok {W A B} (m : M W A) (f : A -> M W B) w b w' :
  bind m f w = (Ok b, w') -> exists a w1, m w = (Ok a, w1) /\ f a w1 = (Ok b, w').
Proof. unfold bind. destruct (m w) as [[a|e] w1]; [eauto|done]. Qed.

Lemma bind_err {W A B} (m : M W A) (f : A -> M W B) w e w' :
  bind m f w = (Err e, w') ->
  m w = (Err e, w') \/ exists a w1, m w = (Ok a, w1) /\ f a w1 = (Err e, w').
Proof. unfold bind. destruct (m w) as [[a|e1] w1]; [eauto|]. intros [= -> ->]. by left. Qed.

Lemma wrapping_ok {W A} msg (m : M W A) w a w' : wrapping msg m w = (Ok a, w') -> m w = (Ok a, w').
Proof. unfold wrapping. destruct (m w) as [[]]; simpl; [|done]. by intros [= -> ->]. Qed.

Lemma wrapping_err {W A} msg (m : M W A) w e w' :
  wrapping msg m w = (Err e, w') -> exists e', e = Wrap msg e' /\ m w = (Err e', w').
Proof. unfold wrapping. destruct (m w) as [[]]; simpl; [done|]. intros [= <- ->]. eauto. Qed.

Lemma lift_ok {W A} (r : result A) (w : W) a w' : lift r w = (Ok a, w') -> r = Ok a /\ w' = w.
Proof. unfold lift. by intros [= -> ->]. Qed.

Lemma lift_err {W A} (r : result A) (w : W) e w' : lift r w = (Err e, w') -> r = Err e /\ w' = w.
Proof. unfold lift. by intros [= -> ->]. Qed.

Lemma rbind_ok {A B} (r : result A) (f : A -> result B) b :
  rbind r f = Ok b -> exists a, r = Ok a /\ f a = Ok b.
Proof. destruct r; simpl; [eauto|done]. Qed.

(** Step through the first operation of a run that ended with [Ok]. *)
Ltac step_ok H x w1 E :=
  let Hn := fresh in
  apply bind_ok in H as (x & w1 & E & Hn); rename Hn into H.

(** The same for a run that ended with [Err]: the first goal is the failure
    of the first operation, the second the failure of the rest. *)
Ltac step_err H x w1 E :=
  let Hn := fresh in
  apply bind_err in H as [H|(x & w1 & E & Hn)]; [|rename Hn into H].

Lemma uint32_succ_ne r : in_uint32 r -> uint32 (r + 1) <> r.
Proof.
  unfold in_uint32, uint32. intros Hr. destruct (decide (r = 2 ^ 32 - 1)) as [->|].
  - by vm_compute.
  - rewrite Z.mod_small; lia.
Qed.
