(* ===== verification/Actions.v ===== *)
(** * XDP and TC actions (xdp_action.go, tc_action.go)

    The value objects pairing an action name with its kernel return code, the
    lookups by name and by code, and the case-insensitive parsers. Go strings
    are byte strings here: [ToLower] and [TrimSpace] are exact on ASCII text,
    which is what every action name is. *)

From Stdlib Require Import ZArith Lia Ascii String DecimalString DecimalN DecimalNat.
From stdpp Require Import base tactics sets list strings numbers.
From S2P Require Import Prelude.

Local Open Scope string_scope.
Local Open Scope list_scope.
Local Open Scope Z_scope.

(** ** strings.ToLower and strings.TrimSpace on ASCII bytes *)

Definition lower_ascii (c : ascii) : ascii :=
  let n := N_of_ascii c in
  if (N.leb 65 n && N.leb n 90)%bool then ascii_of_N (n + 32) else c.

Fixpoint ToLower (s : string) : string :=
  match s with
  | EmptyString => EmptyString
  | String c s' => String (lower_ascii c) (ToLower s')
  end.

Definition is_space_ascii (c : ascii) : bool :=
  let n := N_of_ascii c in ((N.leb 9 n && N.leb n 13) || N.eqb n 32)%bool.

Fixpoint TrimLeft (s : string) : string :=
  match s with
  | String c s' => if is_space_ascii c then TrimLeft s' else s
  | EmptyString => EmptyString
  end.

Fixpoint TrimRight (s : string) : string :=
  match s with
  | EmptyString => EmptyString
  | String c s' =>
      match TrimRight s' with
      | EmptyString => if is_space_ascii c then EmptyString else String c EmptyString
      | t => String c t
      end
  end.

Definition TrimSpace (s : string) : string := TrimRight (TrimLeft s).

Fixpoint Join_comma (l : list string) : string :=
  match l with
  | [] => ""
  | [x] => x
  | x :: l' => x +:+ ", " +:+ Join_comma l'
  end.

(** strconv.FormatUint in base 10, and fmt's [%d]. *)
Definition FormatUint (z : Z) : string := NilZero.string_of_uint (N.to_uint (Z.to_N z)).

Definition Sprint_d (z : Z) : string :=
  if z <? 0 then "-" +:+ FormatUint (- z) else FormatUint z.

(** ** The two action tables *)

Record Action := mkAction { name : string; code : Z }.

#[export] Instance Action_eq_dec : EqDecision Action.
Proof. solve_decision. Defined.

Definition find_name (tbl : list Action) (s : string) : option Action :=
  List.find (fun a => String.eqb (name a) s) tbl.

Definition find_code (tbl : list Action) (c : Z) : option Action :=
  List.find (fun a => Z.eqb (code a) c) tbl.

Definition ToString (tbl : list Action) (c : Z) : string :=
  match find_code tbl c with
  | Some a => name a
  | None => "unknown(" +:+ Sprint_d c +:+ ")"
  end.

Definition ActionsToString (tbl : list Action) (cs : list Z) : string :=
  match cs with
  | [] => "None"
  | _ => Join_comma (ToString tbl <$> cs)
  end.

Definition XDPActionPass : Action := mkAction "pass" 2.
Definition XDPActionDispatcherReturn : Action := mkAction "dispatcher_return" 31.
Definition TCActionPipe : Action := mkAction "pipe" 3.
Definition TCActionDispatcherReturn : Action := mkAction "dispatcher_return" 30.

Definition xdpActions : list Action :=
  [ mkAction "aborted" 0; mkAction "drop" 1; XDPActionPass; mkAction "tx" 3;
    mkAction "redirect" 4; XDPActionDispatcherReturn ].

Definition allTCActions : list Action :=
  [ mkAction "unspec" (-1); mkAction "ok" 0; mkAction "reclassify" 1;
    mkAction "shot" 2; TCActionPipe; mkAction "stolen" 4;
    mkAction "queued" 5; mkAction "repeat" 6; mkAction "redirect" 7;
    mkAction "trap" 8; TCActionDispatcherReturn ].

Definition ParseXDPAction (s : string) : result Action :=
  result_opt (Errorf "unknown XDP action %q") (find_name xdpActions (TrimSpace (ToLower s))).

Definition XDPActionCodes (actions : list Action) : list Z := code <$> actions.

Definition XDPActionFromInt32 (c : Z) : result Action :=
  result_opt (Errorf "unknown XDP action code %d") (find_code xdpActions c).

Definition XDPActionToString (c : Z) : string := ToString xdpActions c.

Definition XDPActionsToString (cs : list Z) : string := ActionsToString xdpActions cs.

Definition ParseTCAction (s : string) : result Action :=
  result_opt (Errorf "unknown TC action %q") (find_name allTCActions (TrimSpace (ToLower s))).

Definition TCActionNames : list string := name <$> allTCActions.

Definition TCActionCodes (actions : list Action) : list Z := code <$> actions.

Definition TCActionFromInt32 (c : Z) : result Action :=
  result_opt (Errorf "unknown TC action code %d") (find_code allTCActions c).

Definition TCActionToString (c : Z) : string := ToString allTCActions c.

Definition TCActionsToString (cs : list Z) : string := ActionsToString allTCActions cs.

(** ** Lookup facts *)

Lemma find_code_spec tbl c a :
  find_code tbl c = Some a -> a ∈ tbl /\ code a = c.
Proof.
  unfold find_code. intros H. apply List.find_some in H as [Hin Heq].
  split; [by apply list_elem_of_In|]. by apply Z.eqb_eq.
Qed.

Lemma find_name_spec tbl s a :
  find_name tbl s = Some a -> a ∈ tbl /\ name a = s.
Proof.
  unfold find_name. intros H. apply List.find_some in H as [Hin Heq].
  split; [by apply list_elem_of_In|]. by apply String.eqb_eq.
Qed.

Lemma XDPActionFromInt32_ok c :
  is_ok (XDPActionFromInt32 c) = true <-> c ∈ [0; 1; 2; 3; 4; 31].
Proof.
  unfold XDPActionFromInt32. split.
  - destruct (find_code xdpActions c) as [a|] eqn:E; [|done].
    apply find_code_spec in E as [Ha <-]. unfold xdpActions in Ha. intros _. set_unfold in Ha.
    destruct_or!; subst; simpl; set_solver.
  - intros H. set_unfold in H. destruct_or!; subst; done.
Qed.

Lemma TCActionFromInt32_ok c :
  is_ok (TCActionFromInt32 c) = true <-> c ∈ [-1; 0; 1; 2; 3; 4; 5; 6; 7; 8; 30].
Proof.
  unfold TCActionFromInt32. split.
  - destruct (find_code allTCActions c) as [a|] eqn:E; [|done].
    apply find_code_spec in E as [Ha <-]. unfold allTCActions in Ha. intros _. set_unfold in Ha.
    destruct_or!; subst; simpl; set_solver.
  - intros H. set_unfold in H. destruct_or!; subst; done.
Qed.

Lemma lower_ascii_idem c : lower_ascii (lower_ascii c) = lower_ascii c.
Proof. destruct c as [[] [] [] [] [] [] [] []]; reflexivity. Qed.

Lemma ToLower_idem s : ToLower (ToLower s) = ToLower s.
Proof. induction s as [|c s IH]; simpl; [done|]. by rewrite lower_ascii_idem, IH. Qed.

(** Both tables determine an action by its name and by its code. *)
Lemma xdpActions_inverse a :
  a ∈ xdpActions ->
  ParseXDPAction (name a) = Ok a /\ XDPActionFromInt32 (code a) = Ok a /\
  XDPActionToString (code a) = name a.
Proof. unfold xdpActions. intros H. set_unfold in H. destruct_or!; subst; done. Qed.

Lemma allTCActions_inverse a :
  a ∈ allTCActions ->
  ParseTCAction (name a) = Ok a /\ TCActionFromInt32 (code a) = Ok a /\
  TCActionToString (code a) = name a.
Proof. unfold allTCActions. intros H. set_unfold in H. destruct_or!; subst; done. Qed.

Lemma ParseXDPAction_in s a : ParseXDPAction s = Ok a -> a ∈ xdpActions.
Proof.
  unfold ParseXDPAction. destruct (find_name _ _) as [b|] eqn:E; [|done].
  intros [= ->]. by apply find_name_spec in E as [].
Qed.

Lemma ParseTCAction_in s a : ParseTCAction s = Ok a -> a ∈ allTCActions.
Proof.
  unfold ParseTCAction. destruct (find_name _ _) as [b|] eqn:E; [|done].
  intros [= ->]. by apply find_name_spec in E as [].
Qed.

(** ** Properties *)

(** Action names and codes are two names of the same thing, for XDP and
    for TC. Whatever spelling the parser accepts, the parsed action's code
    decodes back to the same action, its printed name parses to it again, and
    lower-casing the spelling does not change the result. *)
Theorem action_codes_roundtrip (s : string) (a : Action) :
  (ParseXDPAction s = Ok a ->
     XDPActionFromInt32 (code a) = Ok a /\ ParseXDPAction (XDPActionToString (code a)) = Ok a /\
     ParseXDPAction (ToLower s) = Ok a) /\
  (ParseTCAction s = Ok a ->
     TCActionFromInt32 (code a) = Ok a /\ ParseTCAction (TCActionToString (code a)) = Ok a /\
     ParseTCAction (ToLower s) = Ok a).
Proof.
  split; intros H.
  - destruct (xdpActions_inverse a) as (Hn & Hc & Ht); [by eapply ParseXDPAction_in|].
    rewrite Ht. split; [done|]. split; [done|]. unfold ParseXDPAction in *. by rewrite ToLower_idem.
  - destruct (allTCActions_inverse a) as (Hn & Hc & Ht); [by eapply ParseTCAction_in|].
    rewrite Ht. split; [done|]. split; [done|]. unfold ParseTCAction in *. by rewrite ToLower_idem.
Qed.

Example action_codes_example :
  ParseXDPAction " Dispatcher_Return " = Ok (mkAction "dispatcher_return" 31) /\
  TCActionsToString [3; -1; 99] = "pipe, unspec, unknown(99)".
Proof. split; reflexivity. Qed.
