(* ===== verification/Dispatcher.v ===== *)
(** * The dispatcher package (dispatcher/types.go, state.go, dispatcher.go, specs.go)

    Dispatcher types and keys, the proceed-on bitmask codec, the two dispatcher
    configurations and the extension attach specifications. *)

From Stdlib Require Import ZArith Lia String Sorted.
From stdpp Require Import base tactics sets list strings numbers countable.
From S2P Require Import Prelude Actions.

Local Open Scope string_scope.
Local Open Scope list_scope.
Local Open Scope Z_scope.

(** ** Types (types.go) *)

(** [DispatcherType{v string}] with an unexported field: its inhabitants are
    the zero value and the three package variables. *)
Inductive DispatcherType :=
| DispatcherTypeZero
| DispatcherTypeXDP
| DispatcherTypeTCIngress
| DispatcherTypeTCEgress.

#[export] Instance DispatcherType_eq_dec : EqDecision DispatcherType.
Proof. solve_decision. Defined.

Definition DispatcherType_String (d : DispatcherType) : string :=
  match d with
  | DispatcherTypeZero => ""
  | DispatcherTypeXDP => "xdp"
  | DispatcherTypeTCIngress => "tc-ingress"
  | DispatcherTypeTCEgress => "tc-egress"
  end.

Definition ParseDispatcherType (s : string) : result DispatcherType :=
  if String.eqb s "xdp" then Ok DispatcherTypeXDP
  else if String.eqb s "tc-ingress" then Ok DispatcherTypeTCIngress
  else if String.eqb s "tc-egress" then Ok DispatcherTypeTCEgress
  else Err (Errorf "unknown dispatcher type %q").

(** The two handles are constants of the netlink package. *)
Definition TCParentHandle (HANDLE_MIN_INGRESS HANDLE_MIN_EGRESS : Z)
    (d : DispatcherType) : Z :=
  match d with
  | DispatcherTypeTCIngress => HANDLE_MIN_INGRESS
  | DispatcherTypeTCEgress => HANDLE_MIN_EGRESS
  | _ => 0
  end.

#[export] Program Instance DispatcherType_countable : Countable DispatcherType :=
  {| encode d := encode (DispatcherType_String d);
     decode p := s ← decode p;
       if decide (s = "") then Some DispatcherTypeZero
       else match ParseDispatcherType s with Ok d => Some d | Err _ => None end |}.
Next Obligation. intros []; rewrite decode_encode; reflexivity. Qed.

(** ** Keys (state.go) *)

Record Key := NewKey { KType : DispatcherType; KNsid : Z; KIfindex : Z }.

#[export] Instance Key_eq_dec : EqDecision Key.
Proof. solve_decision. Defined.

#[export] Instance Key_countable : Countable Key :=
  inj_countable' (fun k => (KType k, KNsid k, KIfindex k))
    (fun p => NewKey p.1.1 p.1.2 p.2) ltac:(by intros []).

Record KeyFilter := mkKeyFilter { FType : DispatcherType; FNsid : Z; FIfindex : Z }.

Definition Matches (f : KeyFilter) (k : Key) : bool :=
  if bool_decide (FType f <> DispatcherTypeZero) && bool_decide (KType k <> FType f) then false
  else if negb (FNsid f =? 0) && negb (KNsid k =? FNsid f) then false
  else if negb (FIfindex f =? 0) && negb (KIfindex k =? FIfindex f) then false
  else true.

(** ** Configurations (dispatcher.go) *)

Definition MaxPrograms : Z := 10.
Definition xdpDispatcherMagic : Z := 236.
Definition xdpDispatcherVersion : Z := 2.
Definition DispatcherRunPriority : Z := 50.

Record XDPConfig := mkXDPConfig {
  XMagic : Z;
  XDispatcherVersion : Z;
  XNumProgsEnabled : Z;
  XIsXDPFrags : Z;
  XChainCallActions : list Z;
  XRunPrios : list Z;
  XProgramFlags : list Z }.

Record TCConfig := mkTCConfig {
  TNumProgsEnabled : Z;
  TChainCallActions : list Z;
  TRunPrios : list Z }.

(** The zero value of [[MaxPrograms]uint32] and the filled run_prios array. *)
Definition zeroSlots : list Z := replicate (Z.to_nat MaxPrograms) 0.
Definition filledPrios : list Z := replicate (Z.to_nat MaxPrograms) DispatcherRunPriority.

Definition NewXDPConfig (numProgs : Z) : result XDPConfig :=
  if (numProgs <? 1) || (MaxPrograms <? numProgs)
  then Err (Errorf "numProgs %d out of range [1, %d]")
  else Ok (mkXDPConfig xdpDispatcherMagic xdpDispatcherVersion (uint8 numProgs) 0
             zeroSlots filledPrios zeroSlots).

Definition NewTCConfig (numProgs : Z) : result TCConfig :=
  if (numProgs <? 1) || (MaxPrograms <? numProgs)
  then Err (Errorf "numProgs %d out of range [1, %d]")
  else Ok (mkTCConfig (uint8 numProgs) zeroSlots filledPrios).

Definition SlotName (position : Z) : result string :=
  if (position <? 0) || (MaxPrograms <=? position)
  then Err (Errorf "position %d out of range [0, %d)")
  else Ok ("prog" +:+ Sprint_d position).

(** ** The proceed-on codec (dispatcher.go) *)

Definition proceedOnOffset (dt : DispatcherType) : result Z :=
  match dt with
  | DispatcherTypeXDP => Ok 0
  | DispatcherTypeTCIngress | DispatcherTypeTCEgress => Ok 1
  | _ => Err (Errorf "unknown dispatcher type %q")
  end.

Definition validateProceedOnCode (dt : DispatcherType) (c : Z) : result unit :=
  match dt with
  | DispatcherTypeXDP => let! _ := XDPActionFromInt32 c in Ok tt
  | DispatcherTypeTCIngress | DispatcherTypeTCEgress =>
      let! _ := TCActionFromInt32 c in Ok tt
  | _ => Err (Errorf "unknown dispatcher type %q")
  end.

Fixpoint mask_loop (dt : DispatcherType) (offset : Z) (codes : list Z) (mask : Z) : result Z :=
  match codes with
  | [] => Ok mask
  | c :: codes' =>
      let! _ := validateProceedOnCode dt c in
      let bit := int32 (c + offset) in
      if (bit <? 0) || (32 <=? bit)
      then Err (Errorf "proceed-on action code %d maps to invalid bit %d")
      else mask_loop dt offset codes' (Z.lor mask (uint32 (Z.shiftl 1 bit)))
  end.

Definition ProceedOnMask (dt : DispatcherType) (codes : list Z) : result Z :=
  let! offset := proceedOnOffset dt in
  mask_loop dt offset codes 0.

Fixpoint actions_loop (dt : DispatcherType) (offset mask : Z) (bits : list nat)
    (actions : list Z) : result (list Z) :=
  match bits with
  | [] => Ok actions
  | bit :: bits' =>
      if Z.land mask (uint32 (Z.shiftl 1 (Z.of_nat bit))) =? 0
      then actions_loop dt offset mask bits' actions
      else
        let c := int32 (Z.of_nat bit - offset) in
        let! _ := validateProceedOnCode dt c in
        actions_loop dt offset mask bits' (actions ++ [c])
  end.

Definition ProceedOnActions (dt : DispatcherType) (mask : Z) : result (list Z) :=
  let! offset := proceedOnOffset dt in
  actions_loop dt offset mask (seq 0 32) [].

(** ** Extension attach specifications (specs.go) *)

Record ExtensionAttachSpec := mkExtensionAttachSpec {
  xs_DispatcherPinPath : path;
  xs_ProgPinPath : path;
  xs_ProgramName : string;
  xs_Position : Z;
  xs_LinkPinPath : path }.

Definition validateExtensionAttachSpec (kind : string) (dispatcherPin progPin : path)
    (programName : string) (position : Z) : result unit :=
  if bool_decide (dispatcherPin = []) then Err (Errorf (kind +:+ " extension: DispatcherPinPath is required"))
  else if bool_decide (progPin = []) then Err (Errorf (kind +:+ " extension: ProgPinPath is required"))
  else if String.eqb programName "" then Err (Errorf (kind +:+ " extension: ProgramName is required"))
  else if (position <? 0) || (MaxPrograms <=? position)
  then Err (Errorf (kind +:+ " extension: Position %d out of range [0, %d)"))
  else Ok tt.

Definition XDPExtension_Validate (s : ExtensionAttachSpec) : result unit :=
  validateExtensionAttachSpec "XDP" (xs_DispatcherPinPath s) (xs_ProgPinPath s) (xs_ProgramName s)
    (xs_Position s).

Definition TCExtension_Validate (s : ExtensionAttachSpec) : result unit :=
  validateExtensionAttachSpec "TC" (xs_DispatcherPinPath s) (xs_ProgPinPath s) (xs_ProgramName s)
    (xs_Position s).

(** ** Facts about the codec *)

Definition bit_code (offset : Z) (b : nat) : Z := Z.of_nat b - offset.

Lemma validate_codes dt off c :
  proceedOnOffset dt = Ok off -> validateProceedOnCode dt c = Ok tt ->
  0 <= c + off < 32 /\ in_int32 (c + off).
Proof.
  intros Hoff Hv. unfold in_int32.
  destruct dt; simpl in *; simplify_eq;
    [pose proof (XDPActionFromInt32_ok c) as [Hc _]
    |pose proof (TCActionFromInt32_ok c) as [Hc _]
    |pose proof (TCActionFromInt32_ok c) as [Hc _]].
  1: destruct (XDPActionFromInt32 c); [|done].
  2-3: destruct (TCActionFromInt32 c); [|done].
  all: specialize (Hc eq_refl); set_unfold in Hc; lia.
Qed.

Lemma mask_bit b : 0 <= b < 32 -> uint32 (Z.shiftl 1 b) = 2 ^ b.
Proof.
  intros Hb. rewrite Z.shiftl_1_l. apply uint32_id. split; [apply Z.pow_nonneg; lia|].
  apply Z.pow_lt_mono_r; lia.
Qed.

Lemma land_bit m b :
  0 <= b < 32 -> (Z.land m (uint32 (Z.shiftl 1 b)) =? 0) = negb (Z.testbit m b).
Proof.
  intros Hb. rewrite mask_bit by done.
  destruct (Z.testbit m b) eqn:E; simpl.
  - apply Z.eqb_neq. intros H0.
    assert (Z.testbit (Z.land m (2 ^ b)) b = true) as Ht.
    { rewrite Z.land_spec, E, Z.pow2_bits_true by lia. done. }
    rewrite H0, Z.bits_0 in Ht. done.
  - apply Z.eqb_eq. apply Z.bits_inj'. intros n Hn. rewrite Z.land_spec, Z.bits_0.
    destruct (decide (n = b)) as [->|]; [by rewrite E|].
    rewrite Z.pow2_bits_false by lia. by rewrite andb_false_r.
Qed.

Lemma mask_loop_spec dt off codes : forall m r,
  proceedOnOffset dt = Ok off -> mask_loop dt off codes m = Ok r ->
  Forall (fun c => validateProceedOnCode dt c = Ok tt) codes /\
  forall b, 0 <= b -> Z.testbit r b = Z.testbit m b || bool_decide (b - off ∈ codes).
Proof.
  induction codes as [|c codes IH]; intros m r Hoff; simpl.
  { intros [= ->]. split; [constructor|]. intros b _. by rewrite orb_false_r. }
  destruct (validateProceedOnCode dt c) as [[]|] eqn:Hv; simpl; [|done].
  destruct (validate_codes dt off c Hoff Hv) as [Hr Hi]. rewrite (int32_id _ Hi).
  destruct (Z.ltb_spec (c + off) 0), (Z.leb_spec 32 (c + off)); try lia; simpl.
  intros Hrest. destruct (IH _ _ Hoff Hrest) as [Hall Hbits]. split; [by constructor|].
  intros b Hb. rewrite Hbits, Z.lor_spec, mask_bit by lia. rewrite <- orb_assoc. f_equal.
  destruct (decide (b = c + off)) as [->|Hne].
  - rewrite Z.pow2_bits_true by lia. symmetry. apply bool_decide_eq_true.
    replace (c + off - off) with c by lia. left.
  - rewrite Z.pow2_bits_false by lia. simpl. apply bool_decide_ext.
    rewrite elem_of_cons. assert (b - off <> c) by lia. tauto.
Qed.

Lemma mask_loop_nonneg dt off codes : forall m r,
  mask_loop dt off codes m = Ok r -> 0 <= m -> 0 <= r.
Proof.
  induction codes as [|c codes IH]; intros m r; simpl; [by intros [= ->]|].
  destruct (validateProceedOnCode dt c); simpl; [|done]. destruct (_ || _); [done|].
  intros Hl Hm. eapply IH; [exact Hl|]. apply Z.lor_nonneg. split; [done|]. apply uint32_range.
Qed.

Lemma mask_loop_range dt off codes r :
  proceedOnOffset dt = Ok off -> mask_loop dt off codes 0 = Ok r -> in_uint32 r.
Proof.
  intros Hoff Hm. destruct (mask_loop_spec _ _ _ _ _ Hoff Hm) as [Hall Hbits].
  rewrite list.Forall_forall in Hall.
  assert (Hpos : 0 <= r) by (by eapply mask_loop_nonneg).
  split; [done|]. destruct (decide (r = 0)) as [->|]; [lia|].
  apply Z.log2_lt_pow2; [lia|].
  assert (Hl : Z.testbit r (Z.log2 r) = true) by (apply Z.bit_log2; lia).
  rewrite Hbits, Z.bits_0 in Hl by apply Z.log2_nonneg. simpl in Hl.
  apply bool_decide_eq_true, Hall in Hl. destruct (validate_codes dt off _ Hoff Hl). lia.
Qed.

Lemma mask_loop_total dt off codes : forall m,
  proceedOnOffset dt = Ok off ->
  Forall (fun c => validateProceedOnCode dt c = Ok tt) codes ->
  exists r, mask_loop dt off codes m = Ok r.
Proof.
  induction codes as [|c codes IH]; intros m Hoff Hall; simpl; [eauto|].
  inversion Hall as [|? ? Hv Hall']; subst. rewrite Hv. simpl.
  destruct (validate_codes dt off c Hoff Hv) as [Hr Hi]. rewrite (int32_id _ Hi).
  destruct (Z.ltb_spec (c + off) 0), (Z.leb_spec 32 (c + off)); try lia; simpl. by apply IH.
Qed.

Lemma offset_range dt off : proceedOnOffset dt = Ok off -> 0 <= off <= 1.
Proof. destruct dt; simpl; intros; simplify_eq; lia. Qed.

Lemma actions_loop_spec dt off m bits : forall acc,
  proceedOnOffset dt = Ok off -> Forall (fun b => (b < 32)%nat) bits ->
  (forall b, b ∈ bits -> Z.testbit m (Z.of_nat b) = true ->
     validateProceedOnCode dt (bit_code off b) = Ok tt) ->
  actions_loop dt off m bits acc =
    Ok (acc ++ (bit_code off <$> filter (fun b => Z.testbit m (Z.of_nat b) = true) bits)).
Proof.
  induction bits as [|b bits IH]; intros acc Hoff Hlt Hv; simpl; [by rewrite app_nil_r|].
  inversion Hlt; subst. pose proof (offset_range _ _ Hoff).
  rewrite land_bit by lia. rewrite filter_cons.
  destruct (Z.testbit m (Z.of_nat b)) eqn:E; simpl.
  - rewrite int32_id by (unfold in_int32; lia). fold (bit_code off b).
    rewrite Hv by (done || left). simpl. rewrite IH; [|done..|].
    + by rewrite <- app_assoc.
    + intros b' Hb'. apply Hv. by right.
  - apply IH; [done..|]. intros b' Hb'. apply Hv. by right.
Qed.

Lemma actions_loop_sound dt off m bits : forall acc l,
  proceedOnOffset dt = Ok off -> Forall (fun b => (b < 32)%nat) bits ->
  actions_loop dt off m bits acc = Ok l ->
  forall b, b ∈ bits -> Z.testbit m (Z.of_nat b) = true ->
    validateProceedOnCode dt (bit_code off b) = Ok tt.
Proof.
  induction bits as [|b bits IH]; intros acc l Hoff Hlt; simpl; [set_solver|].
  inversion Hlt; subst. pose proof (offset_range _ _ Hoff). rewrite land_bit by lia.
  destruct (Z.testbit m (Z.of_nat b)) eqn:E; simpl.
  - rewrite int32_id by (unfold in_int32; lia). fold (bit_code off b).
    destruct (validateProceedOnCode dt (bit_code off b)) as [[]|] eqn:Hv; simpl; [|done].
    intros Hl b' Hb'. apply elem_of_cons in Hb' as [->|Hb']; [done|]. by eapply IH.
  - intros Hl b' Hb'. apply elem_of_cons in Hb' as [->|Hb']; [congruence|]. by eapply IH.
Qed.

Lemma bits32_lt : Forall (fun b => (b < 32)%nat) (seq 0 32).
Proof. apply list.Forall_forall. intros b ?%elem_of_seq. lia. Qed.

Lemma StronglySorted_seq n : forall a, StronglySorted lt (seq a n).
Proof.
  induction n as [|n IH]; intros a; simpl; constructor; [apply IH|].
  apply list.Forall_forall. intros b ?%elem_of_seq. lia.
Qed.

Lemma StronglySorted_filter {A} (R : A -> A -> Prop) (P : A -> Prop) `{!forall x, Decision (P x)} l :
  StronglySorted R l -> StronglySorted R (filter P l).
Proof.
  induction 1 as [|x l Hs IH Hall]; [constructor|]. rewrite filter_cons. case_decide; [|done].
  constructor; [done|]. apply list.Forall_forall. intros y [_ Hy]%list_elem_of_filter.
  by eapply list.Forall_forall in Hall.
Qed.

Lemma StronglySorted_bit_code off l :
  StronglySorted lt l -> StronglySorted Z.lt (bit_code off <$> l).
Proof.
  induction 1 as [|x l Hs IH Hall]; simpl; constructor; [done|].
  apply Forall_fmap. eapply list.Forall_impl; [exact Hall|]. unfold bit_code; simpl; lia.
Qed.

(** The decoder on a mask the encoder produced: the codes, ascending. *)
Lemma ProceedOnMask_decodes dt codes m :
  ProceedOnMask dt codes = Ok m ->
  in_uint32 m /\
  exists l, ProceedOnActions dt m = Ok l /\ StronglySorted Z.lt l /\ forall c, c ∈ l <-> c ∈ codes.
Proof.
  unfold ProceedOnMask, ProceedOnActions.
  destruct (proceedOnOffset dt) as [off|] eqn:Hoff; cbn [rbind]; [|done]. intros Hm.
  destruct (mask_loop_spec _ _ _ _ _ Hoff Hm) as [Hall Hbits].
  pose proof (offset_range _ _ Hoff). rewrite list.Forall_forall in Hall.
  assert (Hmem : forall b, 0 <= b -> Z.testbit m b = true <-> b - off ∈ codes).
  { intros b Hb. rewrite Hbits, Z.bits_0 by done. simpl. apply bool_decide_eq_true. }
  split; [by eapply mask_loop_range|].
  pose proof bits32_lt as Hlt. pose proof (StronglySorted_seq 32 0) as Hseq.
  assert (Hin : forall b, (b < 32)%nat -> b ∈ seq 0 32) by (intros; apply elem_of_seq; lia).
  revert Hlt Hseq Hin. generalize (seq 0 32) as bits. intros bits Hlt Hseq Hin.
  eexists. split; [eapply actions_loop_spec; [done..|]|].
  - intros b _ Hb. apply Hmem in Hb; [|lia]. by apply Hall.
  - rewrite app_nil_l. split; [by apply StronglySorted_bit_code, StronglySorted_filter|].
    intros c. rewrite list_elem_of_fmap. split.
    + intros (b & -> & [Hb _]%list_elem_of_filter). apply Hmem in Hb; [done|lia].
    + intros Hc. destruct (validate_codes dt off _ Hoff (Hall _ Hc)) as [Hr _].
      exists (Z.to_nat (c + off)). unfold bit_code. split; [lia|]. apply list_elem_of_filter.
      split; [|apply Hin; lia]. apply Hmem; [lia|].
      by replace (Z.of_nat (Z.to_nat (c + off)) - off) with c by lia.
Qed.

(** The encoder on the codes the decoder produced: the mask itself. *)
Lemma ProceedOnActions_encodes dt m l :
  in_uint32 m -> ProceedOnActions dt m = Ok l -> ProceedOnMask dt l = Ok m.
Proof.
  unfold ProceedOnMask, ProceedOnActions. intros Hm.
  destruct (proceedOnOffset dt) as [off|] eqn:Hoff; cbn [rbind]; [|done].
  pose proof (offset_range _ _ Hoff). pose proof bits32_lt as Hlt.
  assert (Hin : forall b, (b < 32)%nat -> b ∈ seq 0 32) by (intros; apply elem_of_seq; lia).
  revert Hlt Hin. generalize (seq 0 32) as bits. intros bits Hlt Hin Hl.
  pose proof (actions_loop_sound _ _ _ _ _ _ Hoff Hlt Hl) as Hv.
  rewrite (actions_loop_spec _ _ _ _ _ Hoff Hlt Hv), app_nil_l in Hl. simplify_eq.
  assert (Hall : Forall (fun c => validateProceedOnCode dt c = Ok tt)
            (bit_code off <$> filter (fun b => Z.testbit m (Z.of_nat b) = true) bits)).
  { apply Forall_fmap, list.Forall_forall. intros b [Hb Hb']%list_elem_of_filter. by apply Hv. }
  destruct (mask_loop_total dt off _ 0 Hoff Hall) as [r Hr]. rewrite Hr. f_equal.
  pose proof (mask_loop_range _ _ _ _ Hoff Hr) as Hrr.
  apply mask_loop_spec in Hr as [_ Hbits]; [|done].
  apply Z.bits_inj'. intros n Hn.
  destruct (decide (n < 32)) as [Hlt32|].
  - rewrite Hbits, Z.bits_0 by done. simpl. apply eq_true_iff_eq. rewrite bool_decide_eq_true.
    rewrite list_elem_of_fmap. unfold bit_code. split.
    + intros (b & Heq & [Hb _]%list_elem_of_filter). by replace n with (Z.of_nat b) by lia.
    + intros Hb. exists (Z.to_nat n). split; [lia|]. apply list_elem_of_filter.
      rewrite Z2Nat.id by lia. split; [done|]. apply Hin; lia.
  - by rewrite !uint32_high_bits by (done || lia).
Qed.

(** The codec reports plain errors. *)
Lemma XDPActionFromInt32_err c e : XDPActionFromInt32 c = Err e -> exists msg, e = Errorf msg.
Proof. unfold XDPActionFromInt32. destruct (find_code _ c); cbn; intros; simplify_eq; eauto. Qed.

Lemma TCActionFromInt32_err c e : TCActionFromInt32 c = Err e -> exists msg, e = Errorf msg.
Proof. unfold TCActionFromInt32. destruct (find_code _ c); cbn; intros; simplify_eq; eauto. Qed.

Lemma validateProceedOnCode_err dt c e : validateProceedOnCode dt c = Err e -> exists msg, e = Errorf msg.
Proof.
  destruct dt; cbn; [intros; simplify_eq; eauto| |..].
  - destruct (XDPActionFromInt32 c) eqn:E; cbn; intros; simplify_eq. by eapply XDPActionFromInt32_err.
  - destruct (TCActionFromInt32 c) eqn:E; cbn; intros; simplify_eq. by eapply TCActionFromInt32_err.
  - destruct (TCActionFromInt32 c) eqn:E; cbn; intros; simplify_eq. by eapply TCActionFromInt32_err.
Qed.

Lemma ProceedOnMask_err dt codes e : ProceedOnMask dt codes = Err e -> exists msg, e = Errorf msg.
Proof.
  unfold ProceedOnMask. destruct (proceedOnOffset dt) as [off|e1] eqn:Ho; cbn [rbind].
  - generalize 0 as m. induction codes as [|c codes IH]; intros m; cbn; [done|].
    destruct (validateProceedOnCode dt c) as [[]|e2] eqn:Ev; cbn.
    + case_match; [intros; simplify_eq; eauto|apply IH].
    + intros [= <-]. by eapply validateProceedOnCode_err.
  - destruct dt; cbn in Ho; intros; simplify_eq; eauto.
Qed.

(** ** Properties *)

(** C40: the proceed-on codec loses nothing. Whenever the encoder accepts a
    list of action codes, the mask fits in 32 bits and the decoder returns the
    same set of codes, strictly ascending; encoding that list again gives the
    same mask. *)
Theorem proceedOn_codes_roundtrip dt codes m :
  ProceedOnMask dt codes = Ok m ->
  in_uint32 m /\
  exists l, ProceedOnActions dt m = Ok l /\ StronglySorted Z.lt l /\
    (forall c, c ∈ l <-> c ∈ codes) /\ ProceedOnMask dt l = Ok m.
Proof.
  intros H. destruct (ProceedOnMask_decodes _ _ _ H) as (Hr & l & Hl & Hs & Hin).
  split; [done|]. exists l. repeat split; try done; [by apply Hin..|].
  by apply ProceedOnActions_encodes.
Qed.

Lemma proceedOn_codes_roundtrip_witness :
  ProceedOnMask DispatcherTypeTCIngress [30; 3; -1; 3] = Ok 2147483665 /\
  in_uint32 2147483665 /\
  exists l, ProceedOnActions DispatcherTypeTCIngress 2147483665 = Ok l /\ StronglySorted Z.lt l /\
    (forall c, c ∈ l <-> c ∈ [30; 3; -1; 3]) /\ ProceedOnMask DispatcherTypeTCIngress l = Ok 2147483665.
Proof.
  split; [reflexivity|]. apply (proceedOn_codes_roundtrip DispatcherTypeTCIngress). reflexivity.
Defined.

Lemma mask_loop_ok dt off codes m :
  proceedOnOffset dt = Ok off ->
  is_ok (mask_loop dt off codes m) = true <-> Forall (fun c => validateProceedOnCode dt c = Ok tt) codes.
Proof.
  intros Hoff. split.
  - destruct (mask_loop dt off codes m) as [r|] eqn:E; [|done]. intros _.
    by apply mask_loop_spec in E as [? _].
  - intros H. destruct (mask_loop_total dt off codes m Hoff H) as [r ->]. done.
Qed.

Lemma validateProceedOnCode_ok dt c :
  validateProceedOnCode dt c = Ok tt <->
  match dt with
  | DispatcherTypeZero => False
  | DispatcherTypeXDP => c ∈ [0; 1; 2; 3; 4; 31]
  | _ => c ∈ [-1; 0; 1; 2; 3; 4; 5; 6; 7; 8; 30]
  end.
Proof.
  destruct dt; cbn [validateProceedOnCode]; [done| |..];
    rewrite <- ?XDPActionFromInt32_ok, <- ?TCActionFromInt32_ok.
  - by destruct (XDPActionFromInt32 c).
  - by destruct (TCActionFromInt32 c).
  - by destruct (TCActionFromInt32 c).
Qed.

(** Which proceed-on lists and masks are accepted. The encoder succeeds
    exactly when the dispatcher type is known and every code is in the
    action table of that type (so a code never shifts out of the 32-bit mask);
    the decoder succeeds on a 32-bit mask exactly when every set bit is the
    bit of such a code, and then re-encoding gives the mask back bit for bit. *)
Theorem proceedOn_mask_domain dt codes m :
  (is_ok (ProceedOnMask dt codes) = true <->
     dt <> DispatcherTypeZero /\ Forall (fun c => validateProceedOnCode dt c = Ok tt) codes) /\
  (in_uint32 m ->
     (is_ok (ProceedOnActions dt m) = true <->
        exists off, proceedOnOffset dt = Ok off /\
          forall b, (b < 32)%nat -> Z.testbit m (Z.of_nat b) = true ->
            validateProceedOnCode dt (Z.of_nat b - off) = Ok tt) /\
     forall l, ProceedOnActions dt m = Ok l -> ProceedOnMask dt l = Ok m).
Proof.
  split.
  - unfold ProceedOnMask. destruct (proceedOnOffset dt) as [off|] eqn:Hoff; cbn [rbind].
    + rewrite mask_loop_ok by done. split; [|by intros [_ ?]]. intros H. split; [|done]. by intros ->.
    + split; [done|]. intros [H _]. by destruct dt.
  - intros Hm. split; [|intros l; by apply ProceedOnActions_encodes].
    unfold ProceedOnActions. destruct (proceedOnOffset dt) as [off|] eqn:Hoff; cbn [rbind];
      [|split; [done|by intros (? & ? & _)]].
    pose proof bits32_lt as Hlt.
    assert (Hin : forall b, (b < 32)%nat <-> b ∈ seq 0 32) by (intros; rewrite elem_of_seq; lia).
    revert Hlt Hin. generalize (seq 0 32) as bits. intros bits Hlt Hin. split.
    + destruct (actions_loop dt off m bits []) as [l|] eqn:E; [|done]. intros _. exists off.
      split; [done|]. intros b Hb. apply Hin in Hb. by apply (actions_loop_sound _ _ _ _ _ _ Hoff Hlt E).
    + intros (off' & [= <-] & Hv). rewrite actions_loop_spec; try done.
      intros b Hb. apply Hv. by apply Hin.
Qed.

Example proceedOn_mask_example :
  ProceedOnMask DispatcherTypeXDP [2; 31] = Ok 2147483652 /\
  is_ok (ProceedOnMask DispatcherTypeXDP [5]) = false /\
  ProceedOnActions DispatcherTypeTCEgress 1 = Ok [-1].
Proof. repeat split; reflexivity. Qed.

Lemma SlotName_inj i j s : SlotName i = Ok s -> SlotName j = Ok s -> i = j.
Proof.
  assert (Hr : forall k t, SlotName k = Ok t -> exists n : nat, (n < 10)%nat /\ k = Z.of_nat n).
  { intros k t. unfold SlotName, MaxPrograms.
    destruct (Z.ltb_spec k 0), (Z.leb_spec 10 k); cbn [orb]; try done.
    intros _. exists (Z.to_nat k). lia. }
  intros Hi Hj. destruct (Hr _ _ Hi) as (a & Ha & ->), (Hr _ _ Hj) as (b & Hb & ->).
  rewrite <- Hj in Hi. clear Hr Hj. f_equal.
  do 10 (destruct a as [|a]; [do 10 (destruct b as [|b]; [done || (exfalso; vm_compute in Hi; discriminate Hi)|]); lia|]).
  lia.
Qed.

(** Configurations a dispatcher can be loaded with. A configuration exists
    exactly for 1 to 10 programs; it enables that many programs, its slot arrays
    have one entry per slot, and the slot names of its programs are defined
    and pairwise distinct. *)
Theorem config_slots (n : Z) :
  (is_ok (NewXDPConfig n) = true <-> 1 <= n <= MaxPrograms) /\
  (is_ok (NewTCConfig n) = true <-> 1 <= n <= MaxPrograms) /\
  (forall c, NewXDPConfig n = Ok c -> XNumProgsEnabled c = n /\
     length (XChainCallActions c) = Z.to_nat MaxPrograms /\ length (XRunPrios c) = Z.to_nat MaxPrograms) /\
  (forall i j s, SlotName i = Ok s -> SlotName j = Ok s -> i = j) /\
  (forall i, is_ok (SlotName i) = true <-> 0 <= i < MaxPrograms).
Proof.
  unfold NewXDPConfig, NewTCConfig, MaxPrograms.
  split; [|split; [|split; [|split; [apply SlotName_inj|]]]].
  - destruct (Z.ltb_spec n 1), (Z.ltb_spec 10 n); cbn [orb is_ok]; split; done || lia.
  - destruct (Z.ltb_spec n 1), (Z.ltb_spec 10 n); cbn [orb is_ok]; split; done || lia.
  - intros c. destruct (Z.ltb_spec n 1), (Z.ltb_spec 10 n); cbn [orb]; try done.
    intros [= <-]. split; [|done]. apply Z.mod_small. lia.
  - intros i. unfold SlotName, MaxPrograms.
    destruct (Z.ltb_spec i 0), (Z.leb_spec 10 i); cbn [orb is_ok]; split; done || lia.
Qed.
