(* ===== verification/Domain.v ===== *)
(** * Domain types (link.go, program.go, image.go, load_spec.go, attach_spec.go,
      attach_kind.go, tracepoint.go)

    The string enums are Go strings here, as in the source: a value carries no
    proof of validity and the [Parse*]/[Valid*] functions are the boundary.
    A Go map that is only read is a [gmap]; its nil value is the empty map. *)

From Stdlib Require Import ZArith Lia Ascii String Btauto.
From stdpp Require Import base tactics sets list gmap strings numbers.
From S2P Require Import Prelude Actions.

Local Open Scope string_scope.
Local Open Scope list_scope.
Local Open Scope Z_scope.

(** ** String enums *)

Definition LinkKindTracepoint : string := "tracepoint".
Definition LinkKindKprobe : string := "kprobe".
Definition LinkKindKretprobe : string := "kretprobe".
Definition LinkKindUprobe : string := "uprobe".
Definition LinkKindUretprobe : string := "uretprobe".
Definition LinkKindFentry : string := "fentry".
Definition LinkKindFexit : string := "fexit".
Definition LinkKindXDP : string := "xdp".
Definition LinkKindTC : string := "tc".
Definition LinkKindTCX : string := "tcx".

Definition allLinkKinds : list string :=
  [LinkKindTracepoint; LinkKindKprobe; LinkKindKretprobe; LinkKindUprobe; LinkKindUretprobe;
   LinkKindFentry; LinkKindFexit; LinkKindXDP; LinkKindTC; LinkKindTCX].

Definition ParseLinkKind (s : string) : result string :=
  if bool_decide (s ∈ allLinkKinds) then Ok s else Err (Errorf "unknown link kind %q").

Definition LinkKind_Valid (k : string) : bool := is_ok (ParseLinkKind k).

Definition ProgramTypeXDP : string := "xdp".
Definition ProgramTypeTC : string := "tc".
Definition ProgramTypeTCX : string := "tcx".
Definition ProgramTypeTracepoint : string := "tracepoint".
Definition ProgramTypeKprobe : string := "kprobe".
Definition ProgramTypeKretprobe : string := "kretprobe".
Definition ProgramTypeUprobe : string := "uprobe".
Definition ProgramTypeUretprobe : string := "uretprobe".
Definition ProgramTypeFentry : string := "fentry".
Definition ProgramTypeFexit : string := "fexit".

Definition allProgramTypes : list string :=
  [ProgramTypeXDP; ProgramTypeTC; ProgramTypeTCX; ProgramTypeTracepoint; ProgramTypeKprobe;
   ProgramTypeKretprobe; ProgramTypeUprobe; ProgramTypeUretprobe; ProgramTypeFentry;
   ProgramTypeFexit].

Definition ParseProgramType (s : string) : result string :=
  if bool_decide (s ∈ allProgramTypes) then Ok s else Err (Errorf "unknown program type %q").

Definition ProgramType_Valid (t : string) : bool := is_ok (ParseProgramType t).

Definition RequiresAttachFunc (t : string) : bool :=
  String.eqb t ProgramTypeFentry || String.eqb t ProgramTypeFexit.

(** [ProgramType.KernelType]: the projection onto the kernel's taxonomy. *)
Definition KernelType (t : string) : string :=
  if bool_decide (t ∈ [ProgramTypeTC; ProgramTypeTCX]) then "schedcls"
  else if bool_decide (t ∈ [ProgramTypeKprobe; ProgramTypeKretprobe; ProgramTypeUprobe;
                            ProgramTypeUretprobe]) then "kprobe"
  else if bool_decide (t ∈ [ProgramTypeFentry; ProgramTypeFexit]) then "tracing"
  else if String.eqb t ProgramTypeXDP then "xdp"
  else if String.eqb t ProgramTypeTracepoint then "tracepoint"
  else "".

Definition TCDirectionIngress : string := "ingress".
Definition TCDirectionEgress : string := "egress".

Definition TCDirection_Valid (d : string) : bool :=
  String.eqb d TCDirectionIngress || String.eqb d TCDirectionEgress.

Definition ParseTCDirection (s : string) : result string :=
  let s := ToLower (TrimSpace s) in
  if String.eqb s "ingress" then Ok TCDirectionIngress
  else if String.eqb s "egress" then Ok TCDirectionEgress
  else Err (Errorf "invalid TC direction %q: must be 'ingress' or 'egress'").

Definition PullAlways : string := "Always".
Definition PullIfNotPresent : string := "IfNotPresent".
Definition PullNever : string := "Never".

Definition ImagePullPolicy_Valid (p : string) : bool :=
  bool_decide (p ∈ [PullAlways; PullIfNotPresent; PullNever]).

Definition ParseImagePullPolicy (s : string) : result string :=
  let s' := ToLower (TrimSpace s) in
  if String.eqb s' "" then Ok PullIfNotPresent
  else if String.eqb s' "always" then Ok PullAlways
  else if String.eqb s' "ifnotpresent" then Ok PullIfNotPresent
  else if String.eqb s' "never" then Ok PullNever
  else Err (Errorf "unknown pull policy %q").

Definition IsGPLCompatible (license : string) : bool :=
  bool_decide (license ∈ ["GPL"; "GPL v2"; "GPL and additional rights";
                          "Dual BSD/GPL"; "Dual MIT/GPL"; "Dual MPL/GPL"]).

(** ** Link details (link.go) *)

Record TracepointDetails := mkTracepointDetails { tpd_Group : string; tpd_Name : string }.
Record KprobeDetails := mkKprobeDetails { kpd_FnName : string; kpd_Offset : Z; kpd_Retprobe : bool }.
Record UprobeDetails := mkUprobeDetails {
  upd_Target : string; upd_FnName : string; upd_Offset : Z; upd_PID : Z;
  upd_Retprobe : bool; upd_ContainerPid : Z }.
Record FentryDetails := mkFentryDetails { fed_FnName : string }.
Record FexitDetails := mkFexitDetails { fxd_FnName : string }.
Record XDPDetails := mkXDPDetails {
  xdd_Interface : string; xdd_Ifindex : Z; xdd_Priority : Z; xdd_Position : Z;
  xdd_ProceedOn : list Z; xdd_Netns : string; xdd_Nsid : Z; xdd_DispatcherID : Z;
  xdd_Revision : Z }.
Record TCDetails := mkTCDetails {
  tcd_Interface : string; tcd_Ifindex : Z; tcd_Direction : string; tcd_Priority : Z;
  tcd_Position : Z; tcd_ProceedOn : list Z; tcd_Netns : string; tcd_Nsid : Z;
  tcd_DispatcherID : Z; tcd_Revision : Z }.
Record TCXDetails := mkTCXDetails {
  txd_Interface : string; txd_Ifindex : Z; txd_Direction : string; txd_Priority : Z;
  txd_Position : Z; txd_Netns : string; txd_Nsid : Z }.

Inductive LinkDetails :=
| DTracepoint (d : TracepointDetails)
| DKprobe (d : KprobeDetails)
| DUprobe (d : UprobeDetails)
| DFentry (d : FentryDetails)
| DFexit (d : FexitDetails)
| DXDP (d : XDPDetails)
| DTC (d : TCDetails)
| DTCX (d : TCXDetails).

Definition LinkDetails_Kind (d : LinkDetails) : string :=
  match d with
  | DTracepoint _ => LinkKindTracepoint
  | DKprobe d => if kpd_Retprobe d then LinkKindKretprobe else LinkKindKprobe
  | DUprobe d => if upd_Retprobe d then LinkKindUretprobe else LinkKindUprobe
  | DFentry _ => LinkKindFentry
  | DFexit _ => LinkKindFexit
  | DXDP _ => LinkKindXDP
  | DTC _ => LinkKindTC
  | DTCX _ => LinkKindTCX
  end.

Record TCXLinkInfo := mkTCXLinkInfo {
  txi_LinkID : Z; txi_KernelLinkID : Z; txi_KernelProgramID : Z; txi_Priority : Z }.

Record TCXAttachOrder := mkTCXAttachOrder { First : bool; BeforeProgID : Z; AfterProgID : Z }.
Definition TCXAttachFirst : TCXAttachOrder := mkTCXAttachOrder true 0 0.
Definition TCXAttachBefore (p : Z) : TCXAttachOrder := mkTCXAttachOrder false p 0.
Definition TCXAttachAfter (p : Z) : TCXAttachOrder := mkTCXAttachOrder false 0 p.

(** [NewLinkPath]: nil for the empty string. *)
Definition NewLinkPath (p : path) : option path := match p with [] => None | _ => Some p end.

Record LinkSpec := mkLinkSpec {
  lsp_ProgramID : Z; lsp_KernelLinkID : option Z; lsp_Kind : string;
  lsp_PinPath : option path; lsp_Details : option LinkDetails; lsp_Metadata : gmap string string }.

Record LinkRecord := mkLinkRecord {
  lr_ID : Z; lr_ProgramID : Z; lr_KernelLinkID : option Z; lr_Kind : string;
  lr_PinPath : option path; lr_Details : option LinkDetails; lr_CreatedAt : Z;
  lr_Metadata : gmap string string }.

Definition HasPin (r : LinkRecord) : bool :=
  match lr_PinPath r with Some _ => true | None => false end.

(** The kernel's view of a link is data of the kernel package; only its ID is used. *)
Record LinkStatus := mkLinkStatus {
  lst_Kernel : option Z; lst_KernelSeen : bool; lst_PinPresent : bool }.
Record Link := mkLink { l_Record : LinkRecord; l_Status : LinkStatus }.

Record AttachOutput := mkAttachOutput {
  ao_KernelLinkID : option Z; ao_KernelLink : option Z; ao_PinPath : path }.

Definition NewPinnedLinkSpec (programID : Z) (kernelLinkID : option Z) (details : LinkDetails)
    (pin : path) : LinkSpec :=
  mkLinkSpec programID kernelLinkID (LinkDetails_Kind details) (Some pin) (Some details) ∅.

Definition NewEphemeralLinkSpec (programID : Z) (kernelLinkID : option Z)
    (details : LinkDetails) : LinkSpec :=
  mkLinkSpec programID kernelLinkID (LinkDetails_Kind details) None (Some details) ∅.

(** [newLinkDetails] and [LinkAttachKindDetailsType] select a details type. *)
Inductive DetailsType := TTracepoint | TKprobe | TUprobe | TFentry | TFexit | TXDP | TTC | TTCX.

Definition newLinkDetails (kind : string) : option DetailsType :=
  if String.eqb kind LinkKindXDP then Some TXDP
  else if String.eqb kind LinkKindTC then Some TTC
  else if String.eqb kind LinkKindTCX then Some TTCX
  else if String.eqb kind LinkKindTracepoint then Some TTracepoint
  else if bool_decide (kind ∈ [LinkKindKprobe; LinkKindKretprobe]) then Some TKprobe
  else if bool_decide (kind ∈ [LinkKindUprobe; LinkKindUretprobe]) then Some TUprobe
  else if String.eqb kind LinkKindFentry then Some TFentry
  else if String.eqb kind LinkKindFexit then Some TFexit
  else None.

Definition LinkAttachKinds : list string :=
  ["xdp"; "tc"; "tcx"; "tracepoint"; "kprobe"; "uprobe"; "fentry"; "fexit"].

Definition LinkAttachKindDetailsType (k : string) : option DetailsType :=
  if String.eqb k "xdp" then Some TXDP
  else if String.eqb k "tc" then Some TTC
  else if String.eqb k "tcx" then Some TTCX
  else if String.eqb k "tracepoint" then Some TTracepoint
  else if String.eqb k "kprobe" then Some TKprobe
  else if String.eqb k "uprobe" then Some TUprobe
  else if String.eqb k "fentry" then Some TFentry
  else if String.eqb k "fexit" then Some TFexit
  else None.

Definition LinkDetails_type (d : LinkDetails) : DetailsType :=
  match d with
  | DTracepoint _ => TTracepoint | DKprobe _ => TKprobe | DUprobe _ => TUprobe
  | DFentry _ => TFentry | DFexit _ => TFexit | DXDP _ => TXDP | DTC _ => TTC | DTCX _ => TTCX
  end.

(** Link list filtering: the options fold into a filter record. *)
Record linkListOptions := mkLinkListOptions { llo_kinds : gset string; llo_programID : option Z }.

Inductive LinkListOption := WithKinds (kinds : list string) | WithProgramID (id : Z).

Definition apply_link_option (o : linkListOptions) (opt : LinkListOption) : linkListOptions :=
  match opt with
  | WithKinds ks => mkLinkListOptions (llo_kinds o ∪ list_to_set ks) (llo_programID o)
  | WithProgramID id => mkLinkListOptions (llo_kinds o) (Some id)
  end.

Definition ApplyLinkListOptions (opts : list LinkListOption) : linkListOptions :=
  foldl apply_link_option (mkLinkListOptions ∅ None) opts.

Definition matchesKind (o : linkListOptions) (l : LinkRecord) : bool :=
  if decide (llo_kinds o = ∅) then true else bool_decide (lr_Kind l ∈ llo_kinds o).

Definition matchesProgramID (o : linkListOptions) (l : LinkRecord) : bool :=
  match llo_programID o with None => true | Some id => lr_ProgramID l =? id end.

Definition linkListOptions_Matches (o : linkListOptions) (l : LinkRecord) : bool :=
  matchesKind o l && matchesProgramID o l.

(** ** Programs (program.go) and load specifications (load_spec.go) *)

Record LoadSpec := mkLoadSpec {
  objectPath : string; sourcePath : string; programName : string; programType : string;
  globalData : gmap string string; imageURL : string; imageDigest : string;
  imagePullPolicy : string; imageUsername : string; imagePassword : string;
  attachFunc : string; mapOwnerID : Z }.

Definition zeroLoadSpec : LoadSpec := mkLoadSpec "" "" "" "" ∅ "" "" "" "" "" "" 0.

Definition HasImageAuth (s : LoadSpec) : bool := negb (String.eqb (imageUsername s) "").
Definition HasImageSource (s : LoadSpec) : bool := negb (String.eqb (imageURL s) "").

Definition WithGlobalData (data : gmap string string) (s : LoadSpec) : LoadSpec :=
  mkLoadSpec (objectPath s) (sourcePath s) (programName s) (programType s) data (imageURL s)
    (imageDigest s) (imagePullPolicy s) (imageUsername s) (imagePassword s) (attachFunc s) (mapOwnerID s).
Definition WithImageProvenance (url digest policy : string) (s : LoadSpec) : LoadSpec :=
  mkLoadSpec (objectPath s) (sourcePath s) (programName s) (programType s) (globalData s) url
    digest policy (imageUsername s) (imagePassword s) (attachFunc s) (mapOwnerID s).
Definition WithMapOwnerID (id : Z) (s : LoadSpec) : LoadSpec :=
  mkLoadSpec (objectPath s) (sourcePath s) (programName s) (programType s) (globalData s) (imageURL s)
    (imageDigest s) (imagePullPolicy s) (imageUsername s) (imagePassword s) (attachFunc s) id.
Definition WithImageAuth (username password : string) (s : LoadSpec) : LoadSpec :=
  mkLoadSpec (objectPath s) (sourcePath s) (programName s) (programType s) (globalData s) (imageURL s)
    (imageDigest s) (imagePullPolicy s) username password (attachFunc s) (mapOwnerID s).
Definition WithObjectPath (p : string) (s : LoadSpec) : LoadSpec :=
  mkLoadSpec p (sourcePath s) (programName s) (programType s) (globalData s) (imageURL s)
    (imageDigest s) (imagePullPolicy s) (imageUsername s) (imagePassword s) (attachFunc s) (mapOwnerID s).
Definition WithSourcePath (p : string) (s : LoadSpec) : LoadSpec :=
  mkLoadSpec (objectPath s) p (programName s) (programType s) (globalData s) (imageURL s)
    (imageDigest s) (imagePullPolicy s) (imageUsername s) (imagePassword s) (attachFunc s) (mapOwnerID s).
Definition WithProgramName (n : string) (s : LoadSpec) : LoadSpec :=
  mkLoadSpec (objectPath s) (sourcePath s) n (programType s) (globalData s) (imageURL s)
    (imageDigest s) (imagePullPolicy s) (imageUsername s) (imagePassword s) (attachFunc s) (mapOwnerID s).
Definition WithProgramType (t : string) (s : LoadSpec) : LoadSpec :=
  mkLoadSpec (objectPath s) (sourcePath s) (programName s) t (globalData s) (imageURL s)
    (imageDigest s) (imagePullPolicy s) (imageUsername s) (imagePassword s) (attachFunc s) (mapOwnerID s).
Definition WithAttachFunc (f : string) (s : LoadSpec) : LoadSpec :=
  mkLoadSpec (objectPath s) (sourcePath s) (programName s) (programType s) (globalData s) (imageURL s)
    (imageDigest s) (imagePullPolicy s) (imageUsername s) (imagePassword s) f (mapOwnerID s).

Definition NewLoadSpec (objPath progName progType : string) : result LoadSpec :=
  if String.eqb objPath "" then Err (Errorf "objectPath is required")
  else if String.eqb progName "" then Err (Errorf "programName is required")
  else if negb (ProgramType_Valid progType) then Err (Errorf "invalid program type: %s")
  else if RequiresAttachFunc progType
  then Err (Errorf "%s requires NewAttachLoadSpec with attachFunc")
  else Ok (WithProgramType progType (WithProgramName progName (WithObjectPath objPath zeroLoadSpec))).

Definition NewAttachLoadSpec (objPath progName progType fn : string) : result LoadSpec :=
  if String.eqb objPath "" then Err (Errorf "objectPath is required")
  else if String.eqb progName "" then Err (Errorf "programName is required")
  else if negb (ProgramType_Valid progType) then Err (Errorf "invalid program type: %s")
  else if negb (RequiresAttachFunc progType)
  then Err (Errorf "%s does not require attachFunc, use NewLoadSpec")
  else if String.eqb fn "" then Err (Errorf "attachFunc is required for %s")
  else Ok (WithAttachFunc fn (WithProgramType progType
             (WithProgramName progName (WithObjectPath objPath zeroLoadSpec)))).

(** The wire struct of a LoadSpec; encoding/json itself is not modelled. *)
Record imageSourceJSON := mkImageSourceJSON { is_URL : string; is_Digest : string; is_PullPolicy : string }.
Record loadSpecJSON := mkLoadSpecJSON {
  js_ObjectPath : string; js_SourcePath : option string; js_ProgramName : string;
  js_ProgramType : string; js_GlobalData : gmap string string;
  js_ImageSource : option imageSourceJSON; js_AttachFunc : option string;
  js_MapOwnerID : option Z }.

Definition nonempty (s : string) : option string := if String.eqb s "" then None else Some s.

Definition LoadSpec_MarshalJSON (s : LoadSpec) : loadSpecJSON :=
  mkLoadSpecJSON (objectPath s) (nonempty (sourcePath s)) (programName s) (programType s)
    (globalData s)
    (if String.eqb (imageURL s) "" then None
     else Some (mkImageSourceJSON (imageURL s) (imageDigest s) (imagePullPolicy s)))
    (nonempty (attachFunc s))
    (if mapOwnerID s =? 0 then None else Some (mapOwnerID s)).

(** Assigns onto the receiver [s], as the method does. *)
Definition LoadSpec_UnmarshalJSON (s : LoadSpec) (js : loadSpecJSON) : LoadSpec :=
  mkLoadSpec (js_ObjectPath js) (default (sourcePath s) (js_SourcePath js)) (js_ProgramName js)
    (js_ProgramType js) (js_GlobalData js)
    (match js_ImageSource js with Some i => is_URL i | None => imageURL s end)
    (match js_ImageSource js with Some i => is_Digest i | None => imageDigest s end)
    (match js_ImageSource js with Some i => is_PullPolicy i | None => imagePullPolicy s end)
    (imageUsername s) (imagePassword s)
    (default (attachFunc s) (js_AttachFunc js))
    (default (mapOwnerID s) (js_MapOwnerID js)).

Record ProgramHandles := mkProgramHandles {
  ph_PinPath : path; ph_MapsDir : path; ph_MapOwnerID : option Z }.
Record ProgramMeta := mkProgramMeta {
  pm_Name : string; pm_Owner : string; pm_Description : string; pm_Metadata : gmap string string }.
Record ProgramRecord := mkProgramRecord {
  pr_ProgramID : Z; pr_Load : LoadSpec; pr_License : string; pr_GPLCompatible : bool;
  pr_Handles : ProgramHandles; pr_Meta : ProgramMeta; pr_CreatedAt : Z; pr_UpdatedAt : option Z }.

Definition WithDescription (desc : string) (p : ProgramRecord) : ProgramRecord :=
  mkProgramRecord (pr_ProgramID p) (pr_Load p) (pr_License p) (pr_GPLCompatible p) (pr_Handles p)
    (mkProgramMeta (pm_Name (pr_Meta p)) (pm_Owner (pr_Meta p)) desc (pm_Metadata (pr_Meta p)))
    (pr_CreatedAt p) (pr_UpdatedAt p).

(** What the kernel reports of a program (kernel.Program); the other fields are not used. *)
Record kernelProgram := mkKernelProgram {
  kp_ID : Z; kp_Name : string; kp_ProgramType : string; kp_MapIDs : list Z }.

Record LoadOutput := mkLoadOutput {
  lo_PinPath : path; lo_MapsDir : path; lo_Program : option kernelProgram; lo_License : string;
  lo_InferredType : string; lo_SharedMapNames : list string }.

(** ** Tracepoints (tracepoint.go) *)

Record Tracepoint := mkTracepoint { tp_group : string; tp_name : string }.

#[export] Instance Tracepoint_eq_dec : EqDecision Tracepoint.
Proof. solve_decision. Defined.

Fixpoint contains_char (c : ascii) (s : string) : bool :=
  match s with
  | EmptyString => false
  | String c' s' => Ascii.eqb c c' || contains_char c s'
  end.

(** [strings.Cut] at the first occurrence of a one-byte separator. *)
Fixpoint Cut (sep : ascii) (s : string) : option (string * string) :=
  match s with
  | EmptyString => None
  | String c s' =>
      if Ascii.eqb c sep then Some (EmptyString, s')
      else match Cut sep s' with
           | Some (a, b) => Some (String c a, b)
           | None => None
           end
  end.

Definition slash : ascii := "/"%char.

Definition ParseTracepoint (s : string) : result Tracepoint :=
  let s := TrimSpace s in
  if String.eqb s "" then Err (Errorf "tracepoint cannot be empty")
  else if contains_char " "%char s || contains_char "009"%char s || contains_char "010"%char s
  then Err (Errorf "invalid tracepoint %q: whitespace not allowed")
  else match Cut slash s with
       | None => Err (Errorf "invalid tracepoint %q: expected group/name (e.g. sched/sched_switch)")
       | Some (group, nm) =>
           if contains_char slash nm
           then Err (Errorf "invalid tracepoint %q: expected group/name (only one '/' allowed)")
           else if String.eqb group "" then Err (Errorf "invalid tracepoint %q: group cannot be empty")
           else if String.eqb nm "" then Err (Errorf "invalid tracepoint %q: name cannot be empty")
           else Ok (mkTracepoint group nm)
       end.

Definition Tracepoint_String (t : Tracepoint) : string := tp_group t +:+ "/" +:+ tp_name t.

(** ** Attach specifications (attach_spec.go, attach_kind.go) *)

Inductive AttachSpec :=
| TracepointAttachSpec (metadata : gmap string string) (programID : Z) (group nm : string)
| KprobeAttachSpec (metadata : gmap string string) (programID : Z) (fnName : string) (offset : Z)
| UprobeAttachSpec (metadata : gmap string string) (programID : Z) (target fnName : string)
    (offset pid containerPid : Z)
| FentryAttachSpec (metadata : gmap string string) (programID : Z)
| FexitAttachSpec (metadata : gmap string string) (programID : Z)
| XDPAttachSpec (metadata : gmap string string) (programID : Z) (ifname : string) (priority : Z)
    (proceedOn : list Z) (netns : string)
| TCAttachSpec (metadata : gmap string string) (programID : Z) (ifname direction : string)
    (priority : Z) (proceedOn : list Z) (netns : string)
| TCXAttachSpec (metadata : gmap string string) (programID : Z) (ifname direction : string)
    (priority : Z) (netns : string).

Definition as_ProgramID (s : AttachSpec) : Z :=
  match s with
  | TracepointAttachSpec _ p _ _ | KprobeAttachSpec _ p _ _ | UprobeAttachSpec _ p _ _ _ _ _
  | FentryAttachSpec _ p | FexitAttachSpec _ p | XDPAttachSpec _ p _ _ _ _
  | TCAttachSpec _ p _ _ _ _ _ | TCXAttachSpec _ p _ _ _ _ => p
  end.

Definition as_Metadata (s : AttachSpec) : gmap string string :=
  match s with
  | TracepointAttachSpec m _ _ _ | KprobeAttachSpec m _ _ _ | UprobeAttachSpec m _ _ _ _ _ _
  | FentryAttachSpec m _ | FexitAttachSpec m _ | XDPAttachSpec m _ _ _ _ _
  | TCAttachSpec m _ _ _ _ _ _ | TCXAttachSpec m _ _ _ _ _ => m
  end.

Definition WithMetadata (md : gmap string string) (s : AttachSpec) : AttachSpec :=
  match s with
  | TracepointAttachSpec _ p g n => TracepointAttachSpec md p g n
  | KprobeAttachSpec _ p f o => KprobeAttachSpec md p f o
  | UprobeAttachSpec _ p t f o pid c => UprobeAttachSpec md p t f o pid c
  | FentryAttachSpec _ p => FentryAttachSpec md p
  | FexitAttachSpec _ p => FexitAttachSpec md p
  | XDPAttachSpec _ p i pr po n => XDPAttachSpec md p i pr po n
  | TCAttachSpec _ p i d pr po n => TCAttachSpec md p i d pr po n
  | TCXAttachSpec _ p i d pr n => TCXAttachSpec md p i d pr n
  end.

Definition invalidAttachSpec (msg : string) : error := Wrap msg (Sentinel ErrInvalidAttachSpec).

Definition validatePriority (p : Z) : result Z :=
  if p <? 0 then Err (invalidAttachSpec "priority must be non-negative, got %d") else Ok p.

Definition NewTracepointAttachSpec (programID : Z) (tp : Tracepoint) : result AttachSpec :=
  if programID =? 0 then Err (Errorf "programID is required")
  else if decide (tp = mkTracepoint "" "") then Err (Errorf "tracepoint is required")
  else Ok (TracepointAttachSpec ∅ programID (tp_group tp) (tp_name tp)).

Definition NewTracepointAttachSpecFromString (programID : Z) (s : string) : result AttachSpec :=
  let! tp := ParseTracepoint s in NewTracepointAttachSpec programID tp.

Definition NewKprobeAttachSpec (programID : Z) (fnName : string) : result AttachSpec :=
  if programID =? 0 then Err (Errorf "programID is required")
  else if String.eqb fnName "" then Err (Errorf "fnName is required")
  else Ok (KprobeAttachSpec ∅ programID fnName 0).

Definition NewUprobeAttachSpec (programID : Z) (target : string) (pid containerPid : Z) : result AttachSpec :=
  if programID =? 0 then Err (Errorf "programID is required")
  else if String.eqb target "" then Err (Errorf "target is required")
  else if pid <? 0 then Err (invalidAttachSpec "pid must be non-negative, got %d")
  else if containerPid <? 0 then Err (invalidAttachSpec "container pid must be non-negative, got %d")
  else Ok (UprobeAttachSpec ∅ programID target "" 0 pid containerPid).

Definition NewFentryAttachSpec (programID : Z) : result AttachSpec :=
  if programID =? 0 then Err (Errorf "programID is required") else Ok (FentryAttachSpec ∅ programID).

Definition NewFexitAttachSpec (programID : Z) : result AttachSpec :=
  if programID =? 0 then Err (Errorf "programID is required") else Ok (FexitAttachSpec ∅ programID).

Definition NewXDPAttachSpec (programID : Z) (ifname : string) (priority : Z) : result AttachSpec :=
  if programID =? 0 then Err (Errorf "programID is required")
  else if String.eqb ifname "" then Err (Errorf "ifname is required")
  else let! prio := validatePriority priority in Ok (XDPAttachSpec ∅ programID ifname prio [] "").

Definition NewTCAttachSpec (programID : Z) (ifname direction : string) (priority : Z) : result AttachSpec :=
  if programID =? 0 then Err (Errorf "programID is required")
  else if String.eqb ifname "" then Err (Errorf "ifname is required")
  else if negb (TCDirection_Valid direction) then Err (Errorf "direction must be ingress or egress")
  else let! prio := validatePriority priority in
       Ok (TCAttachSpec ∅ programID ifname direction prio [] "").

Definition NewTCAttachSpecFromString (programID : Z) (ifname direction : string) (priority : Z) : result AttachSpec :=
  let! dir := ParseTCDirection direction in NewTCAttachSpec programID ifname dir priority.

Definition NewTCXAttachSpec (programID : Z) (ifname direction : string) (priority : Z) : result AttachSpec :=
  if programID =? 0 then Err (Errorf "programID is required")
  else if String.eqb ifname "" then Err (Errorf "ifname is required")
  else if negb (TCDirection_Valid direction) then Err (Errorf "direction must be ingress or egress")
  else if priority <? 0 then Err (invalidAttachSpec "priority must be non-negative, got %d")
  else Ok (TCXAttachSpec ∅ programID ifname direction priority "").

Definition NewTCXAttachSpecFromString (programID : Z) (ifname direction : string) (priority : Z) : result AttachSpec :=
  let! dir := ParseTCDirection direction in NewTCXAttachSpec programID ifname dir priority.

(** [XDPAttachSpec.WithProceedOnCodes] and its TC twin, on the spec's fields. *)
Definition XDP_WithProceedOnCodes (codes : list Z) (s : AttachSpec) : result AttachSpec :=
  let! actions := rmap XDPActionFromInt32 codes in
  match s with
  | XDPAttachSpec m p i pr _ n => Ok (XDPAttachSpec m p i pr (XDPActionCodes actions) n)
  | _ => Ok s
  end.

Definition TC_WithProceedOnCodes (codes : list Z) (s : AttachSpec) : result AttachSpec :=
  let! actions := rmap TCActionFromInt32 codes in
  match s with
  | TCAttachSpec m p i d pr _ n => Ok (TCAttachSpec m p i d pr (TCActionCodes actions) n)
  | _ => Ok s
  end.

Definition attachVerb (s : AttachSpec) : string * list string :=
  match s with
  | TracepointAttachSpec _ _ _ _ => ("tracepoint", [ProgramTypeTracepoint])
  | KprobeAttachSpec _ _ _ _ => ("kprobe", [ProgramTypeKprobe; ProgramTypeKretprobe])
  | UprobeAttachSpec _ _ _ _ _ _ _ => ("uprobe", [ProgramTypeUprobe; ProgramTypeUretprobe])
  | FentryAttachSpec _ _ => ("fentry", [ProgramTypeFentry])
  | FexitAttachSpec _ _ => ("fexit", [ProgramTypeFexit])
  | XDPAttachSpec _ _ _ _ _ _ => ("xdp", [ProgramTypeXDP])
  | TCAttachSpec _ _ _ _ _ _ _ => ("tc", [ProgramTypeTC])
  | TCXAttachSpec _ _ _ _ _ _ => ("tcx", [ProgramTypeTCX])
  end.

Definition ValidateAttachProgramType (s : AttachSpec) (progType : string) : result unit :=
  let '(_, accepts) := attachVerb s in
  if bool_decide (progType ∈ accepts) then Ok tt else Err (Sentinel ErrAttachKindMismatch).

(** ** Splitting at a separator *)

Lemma Cut_Some sep s a b :
  Cut sep s = Some (a, b) <-> s = a +:+ String sep b /\ contains_char sep a = false.
Proof.
  revert a b. induction s as [|c s IH]; intros a b; simpl.
  { split; [done|]. intros [H _]. by destruct a. }
  destruct (Ascii.eqb_spec c sep) as [->|Hne].
  - split; [by intros [= <- <-]|]. intros [H Hc]. destruct a as [|c' a]; [by injection H as <-|].
    injection H as <- _. cbn in Hc. by rewrite Ascii.eqb_refl in Hc.
  - destruct (Cut sep s) as [[x y]|].
    + destruct (proj1 (IH x y) eq_refl) as [Hs Hx]. split.
      * intros [= <- <-]. rewrite Hs. split; [done|]. cbn. rewrite Hx, orb_false_r. apply Ascii.eqb_neq. congruence.
      * intros [H Hc]. destruct a as [|c' a]; [by injection H as <- _|]. injection H as <- H. cbn in Hc.
        apply orb_false_iff in Hc as [_ Hc]. assert (Some (x, y) = Some (a, b)) as [= -> ->]; [|done].
        apply IH. done.
    + split; [done|]. intros [H Hc]. destruct a as [|c' a]; [by injection H as <- _|]. injection H as <- H. cbn in Hc.
      apply orb_false_iff in Hc as [_ Hc]. assert (None = Some (a, b)) by (by apply IH). done.
Qed.

(** Both parts of a text cut at its first separator are determined by it. *)
Lemma Cut_app sep a b a' b' :
  a +:+ String sep b = a' +:+ String sep b' ->
  contains_char sep a = false -> contains_char sep a' = false -> a = a' /\ b = b'.
Proof.
  intros H Ha Ha'. assert (H1 : Cut sep (a +:+ String sep b) = Some (a, b)) by (by apply Cut_Some).
  assert (H2 : Cut sep (a +:+ String sep b) = Some (a', b')) by (by apply Cut_Some). split; congruence.
Qed.

Lemma contains_char_app c s1 s2 : contains_char c (s1 +:+ s2) = contains_char c s1 || contains_char c s2.
Proof. induction s1 as [|c' s1 IH]; simpl; [done|]. by rewrite IH, orb_assoc. Qed.

Definition has_blank (s : string) : bool :=
  contains_char " "%char s || contains_char "009"%char s || contains_char "010"%char s.

Lemma has_blank_app s1 s2 : has_blank (s1 +:+ s2) = has_blank s1 || has_blank s2.
Proof. unfold has_blank. rewrite !contains_char_app. destruct (contains_char " "%char s1), (contains_char "009"%char s1); cbn; btauto. Qed.

(** What ParseTracepoint produces. *)
Definition tracepoint_wf (t : Tracepoint) : Prop :=
  tp_group t <> "" /\ tp_name t <> "" /\ contains_char slash (tp_group t) = false /\
  contains_char slash (tp_name t) = false /\ has_blank (tp_group t) = false /\ has_blank (tp_name t) = false.

(** ** Properties *)

(** ParseTracepoint accepts exactly the texts that print a tracepoint.
    The result is [t] iff the text without surrounding white space is [t]
    printed as group/name and both parts are non-empty, with no slash, blank,
    tab or newline; so what it accepts is printed back unchanged, and two texts
    with the same meaning differ in surrounding white space only. *)
Theorem ParseTracepoint_spec s t :
  ParseTracepoint s = Ok t <-> TrimSpace s = Tracepoint_String t /\ tracepoint_wf t.
Proof.
  unfold ParseTracepoint, Tracepoint_String, tracepoint_wf. generalize (TrimSpace s) as x. clear s. intros x.
  change (contains_char " "%char x || contains_char "009"%char x || contains_char "010"%char x) with (has_blank x).
  destruct t as [g' n']. cbn [tp_group tp_name].
  destruct (String.eqb_spec x "") as [->|Hx]. { split; [done|]. intros [H _]. by destruct g'. }
  destruct (has_blank x) eqn:Eb.
  { split; [done|]. intros [-> (_ & _ & _ & _ & H1 & H2)]. rewrite !has_blank_app, H1, H2 in Eb. done. }
  destruct (Cut slash x) as [[g n]|] eqn:Ec.
  2:{ split; [done|]. intros [-> (_ & _ & Hg & _)]. assert (None = Some (g', n')) as [=].
      rewrite <- Ec. by apply Cut_Some. }
  apply Cut_Some in Ec as [-> Hg]. change (String slash n) with ("/" +:+ n) in *. rewrite !has_blank_app in Eb.
  apply orb_false_iff in Eb as [Bg Eb]. apply orb_false_iff in Eb as [_ Bn].
  destruct (contains_char slash n) eqn:Hn; [|destruct (String.eqb_spec g ""); [|destruct (String.eqb_spec n "")]].
  all: split; [intros [=]; by simplify_eq|]; intros [H (Hge & Hne & Hg' & Hn' & _)].
  all: destruct (Cut_app slash g n g' n' H Hg Hg') as [<- <-]; congruence.
Qed.

(** A load spec survives its JSON, without its secrets. Decoding the
    encoding of a spec whose image provenance hangs on a URL gives the spec
    without registry credentials, and the encoding does not depend on the
    credentials at all. *)
Theorem LoadSpec_JSON_roundtrip s :
  (imageURL s = "" -> imageDigest s = "" /\ imagePullPolicy s = "") ->
  LoadSpec_UnmarshalJSON zeroLoadSpec (LoadSpec_MarshalJSON s) = WithImageAuth "" "" s /\
  (forall u p, LoadSpec_MarshalJSON (WithImageAuth u p s) = LoadSpec_MarshalJSON s) /\
  HasImageAuth (LoadSpec_UnmarshalJSON zeroLoadSpec (LoadSpec_MarshalJSON s)) = false.
Proof.
  intros H. split; [|done]. destruct s as [op sp pn pt gd iu idg ipp un pw af mo].
  unfold LoadSpec_MarshalJSON, LoadSpec_UnmarshalJSON, WithImageAuth, nonempty. cbn in *.
  destruct (String.eqb_spec sp ""), (String.eqb_spec af ""), (Z.eqb_spec mo 0), (String.eqb_spec iu ""); cbn;
    simplify_eq; try done; by destruct (H eq_refl) as [-> ->].
Qed.

Lemma LoadSpec_JSON_roundtrip_witness :
  let s := mkLoadSpec "/p.o" "" "p" "fentry" {[ "k" := "0a" ]} "quay.io/x" "sha256:0" "Always" "user" "secret" "do_exit" 7 in
  LoadSpec_UnmarshalJSON zeroLoadSpec (LoadSpec_MarshalJSON s) = WithImageAuth "" "" s.
Proof. apply LoadSpec_JSON_roundtrip. discriminate. Defined.

(** Every program type has exactly one way to be attached. A verb's
    program types are valid ones; for every valid program type some attach spec
    is accepted, and any two accepted specs are of the same verb; a type that is
    not valid is rejected by every spec with ErrAttachKindMismatch. *)
Theorem attach_verbs_partition t :
  (ProgramType_Valid t = true ->
     (exists s, ValidateAttachProgramType s t = Ok tt) /\
     forall s s', ValidateAttachProgramType s t = Ok tt -> ValidateAttachProgramType s' t = Ok tt ->
                  fst (attachVerb s) = fst (attachVerb s')) /\
  (ProgramType_Valid t = false ->
     forall s, ValidateAttachProgramType s t = Err (Sentinel ErrAttachKindMismatch)).
Proof.
  unfold ProgramType_Valid, ParseProgramType. split.
  - case_bool_decide as Ht; [|done]. intros _. split.
    + unfold allProgramTypes in Ht. set_unfold in Ht. destruct_or! Ht; subst t;
        [exists (XDPAttachSpec ∅ 0 "" 0 [] "")|exists (TCAttachSpec ∅ 0 "" "" 0 [] "")|exists (TCXAttachSpec ∅ 0 "" "" 0 "")
        |exists (TracepointAttachSpec ∅ 0 "" "")|exists (KprobeAttachSpec ∅ 0 "" 0)|exists (KprobeAttachSpec ∅ 0 "" 0)
        |exists (UprobeAttachSpec ∅ 0 "" "" 0 0 0)|exists (UprobeAttachSpec ∅ 0 "" "" 0 0 0)
        |exists (FentryAttachSpec ∅ 0)|exists (FexitAttachSpec ∅ 0)]; reflexivity.
    + intros s s'. destruct s, s'; unfold ValidateAttachProgramType, attachVerb; repeat case_bool_decide; try done;
        exfalso; set_unfold; naive_solver.
  - case_bool_decide as Ht; [done|]. intros _ s. unfold ValidateAttachProgramType.
    destruct s; cbn [attachVerb]; case_bool_decide as Hin; try done; exfalso; apply Ht; unfold allProgramTypes; set_solver.
Qed.

Lemma attach_verbs_partition_witness :
  ProgramType_Valid "kretprobe" = true /\ exists s, ValidateAttachProgramType s "kretprobe" = Ok tt.
Proof. split; [reflexivity|]. apply (attach_verbs_partition "kretprobe"). reflexivity. Defined.
