(* ===== verification/Slots.v ===== *)
(** * Rebuild slots (manager/executor_dispatcher.go, platform/dispatcher_types.go)

    The dispatcher snapshot types, the per-extension rebuild slots and their
    in-place insertion sort, and the construction of the snapshot members. *)

From Stdlib Require Import ZArith Lia String Sorted.
From stdpp Require Import base tactics sets list gmap strings numbers sorting.
From S2P Require Import Prelude Actions Dispatcher Domain.

Local Open Scope string_scope.
Local Open Scope list_scope.
Local Open Scope Z_scope.

(** ** Snapshot types (platform/dispatcher_types.go) *)

Record DispatcherMember := mkDispatcherMember {
  dm_ProgramID : Z; dm_ProgramName : string; dm_ProgPinPath : path; dm_LinkID : Z;
  dm_KernelLinkID : option Z; dm_LinkPinPath : path; dm_Position : Z; dm_Priority : Z;
  dm_ProceedOn : Z; dm_Ifname : string; dm_Metadata : gmap string string }.

Record DispatcherMemberSpec := mkDispatcherMemberSpec {
  ms_ExistingLinkID : option Z; ms_ProgramID : Z; ms_ProgramName : string; ms_ProgPinPath : path;
  ms_KernelLinkID : option Z; ms_LinkPinPath : path; ms_Position : Z; ms_Priority : Z;
  ms_ProceedOn : Z; ms_Ifname : string; ms_Metadata : gmap string string }.

Record DispatcherRuntime := mkDispatcherRuntime {
  rt_ProgramID : Z; rt_KernelLinkID : option Z; rt_FilterPriority : option Z;
  rt_FilterHandle : option Z; rt_NetnsPath : string }.

Record DispatcherSnapshot := mkDispatcherSnapshot {
  sn_Key : Key; sn_Revision : Z; sn_Runtime : DispatcherRuntime; sn_Members : list DispatcherMember }.

Record DispatcherSnapshotSpec := mkDispatcherSnapshotSpec {
  ss_Key : Key; ss_Revision : Z; ss_Runtime : DispatcherRuntime;
  ss_Members : list DispatcherMemberSpec }.

Record DispatcherSummary := mkDispatcherSummary {
  su_Key : Key; su_Revision : Z; su_Runtime : DispatcherRuntime; su_MemberCount : Z }.

(** ** Rebuild slots (executor_dispatcher.go) *)

Record rebuildSlot := mkRebuildSlot {
  rs_ProgPinPath : path; rs_ProgramName : string; rs_Priority : Z; rs_ProceedOn : Z;
  rs_ExistingLinkID : option Z; rs_ProgramID : Z; rs_Ifname : string;
  rs_Metadata : gmap string string }.

Record attachedExt := mkAttachedExt { ax_out : AttachOutput; ax_position : Z; ax_pinPath : path }.

Definition attached_b (s : rebuildSlot) : bool :=
  match rs_ExistingLinkID s with Some _ => true | None => false end.

(** The comparison of [sortRebuildSlots]: does [x] move in front of [y]? *)
Definition slot_less (x y : rebuildSlot) : bool :=
  let pi := rs_Priority x in
  let pj := rs_Priority y in
  let ai := attached_b x in
  let aj := attached_b y in
  (pi <? pj)
  || ((pi =? pj) && negb ai && aj)
  || ((pi =? pj) && Bool.eqb ai aj && String.ltb (rs_ProgramName x) (rs_ProgramName y)).

(** The inner loop: slot [j] sinks left while it is smaller. *)
Fixpoint sift (j : nat) (slots : list rebuildSlot) : list rebuildSlot :=
  match j with
  | O => slots
  | S j' =>
      match slots !! j, slots !! j' with
      | Some x, Some y =>
          if slot_less x y then sift j' (<[j := y]> (<[j' := x]> slots)) else slots
      | _, _ => slots
      end
  end.

(** The outer loop, for [i], [i+1], ... for [n] rounds. *)
Fixpoint sort_from (n i : nat) (slots : list rebuildSlot) : list rebuildSlot :=
  match n with
  | O => slots
  | S n' => sort_from n' (S i) (sift i slots)
  end.

Definition sortRebuildSlots (slots : list rebuildSlot) : list rebuildSlot :=
  sort_from (length slots - 1) 1 slots.

(** A rebuilt slot paired with the extension attached for it. *)
Definition slot_member (i : nat) (slot : rebuildSlot) (ext : attachedExt) : DispatcherMemberSpec :=
  mkDispatcherMemberSpec (rs_ExistingLinkID slot) (rs_ProgramID slot) (rs_ProgramName slot)
    (rs_ProgPinPath slot) (ao_KernelLinkID (ax_out ext)) (ax_pinPath ext) (Z.of_nat i)
    (rs_Priority slot) (rs_ProceedOn slot) (rs_Ifname slot) (rs_Metadata slot).

Fixpoint members_from (i : nat) (slots : list rebuildSlot) (attached : list attachedExt)
    : list DispatcherMemberSpec :=
  match slots, attached with
  | s :: slots', a :: attached' => slot_member i s a :: members_from (S i) slots' attached'
  | _, _ => []
  end.

(** [dispatcherMembers]; the callers attach one extension per slot. *)
Definition dispatcherMembers (slots : list rebuildSlot) (attached : list attachedExt)
    : list DispatcherMemberSpec := members_from 0 slots attached.

(** [cfg.ChainCallActions[i] = slot.ProceedOn] for every slot. *)
Fixpoint set_actions (i : nat) (slots : list rebuildSlot) (acts : list Z) : list Z :=
  match slots with
  | [] => acts
  | s :: slots' => set_actions (S i) slots' (<[i := rs_ProceedOn s]> acts)
  end.

(** An existing member as a slot, keeping its link ID and metadata (the attach path). *)
Definition slot_of_member (m : DispatcherMember) : rebuildSlot :=
  mkRebuildSlot (dm_ProgPinPath m) (dm_ProgramName m) (dm_Priority m) (dm_ProceedOn m)
    (Some (dm_LinkID m)) (dm_ProgramID m) (dm_Ifname m) (dm_Metadata m).

(** An existing member as a slot in the detach path, where the slot literal
    does not set Metadata. *)
Definition slot_of_member_detach (m : DispatcherMember) : rebuildSlot :=
  mkRebuildSlot (dm_ProgPinPath m) (dm_ProgramName m) (dm_Priority m) (dm_ProceedOn m)
    (Some (dm_LinkID m)) (dm_ProgramID m) (dm_Ifname m) ∅.

Fixpoint snapInterfaceName (members : list DispatcherMember) : string :=
  match members with
  | [] => ""
  | m :: ms => if String.eqb (dm_Ifname m) "" then snapInterfaceName ms else dm_Ifname m
  end.

Definition isTCDispatcherType (t : DispatcherType) : bool :=
  bool_decide (t = DispatcherTypeTCIngress) || bool_decide (t = DispatcherTypeTCEgress).

Definition isNotFound (e : error) : bool := errors_Is e ErrRecordNotFound.

(** ** The order the sort establishes *)

(** The documented order: priority, then unattached before attached, then name. *)
Definition slot_le (x y : rebuildSlot) : Prop :=
  rs_Priority x < rs_Priority y \/
  rs_Priority x = rs_Priority y /\
    (attached_b x = false /\ attached_b y = true \/
     attached_b x = attached_b y /\ String.le (rs_ProgramName x) (rs_ProgramName y)).

Lemma ltb_leb a b : String.ltb a b = negb (String.leb b a).
Proof.
  unfold String.ltb, String.leb. rewrite (String.compare_antisym a b).
  by destruct (String.compare b a).
Qed.

Lemma slot_less_le x y : slot_less x y = false <-> slot_le y x.
Proof.
  unfold slot_less, slot_le, String.le. rewrite ltb_leb.
  destruct (Z.ltb_spec (rs_Priority x) (rs_Priority y)),
    (Z.eqb_spec (rs_Priority x) (rs_Priority y)),
    (attached_b x), (attached_b y); simpl; try (split; [done|]; lia); try lia;
    destruct (String.leb _ _); simpl; split; intros; naive_solver lia.
Qed.

Lemma slot_le_total x y : slot_le x y \/ slot_le y x.
Proof.
  unfold slot_le. destruct (Z.lt_total (rs_Priority x) (rs_Priority y)) as [|[|]]; [by left; left| |by right; left].
  destruct (attached_b x), (attached_b y);
    destruct (total String.le (rs_ProgramName x) (rs_ProgramName y)); naive_solver.
Qed.

Lemma slot_le_trans : Transitive slot_le.
Proof.
  intros x y z. unfold slot_le. intros [|[E1 H1]] [|[E2 H2]]; try (left; lia). right.
  split; [lia|]. destruct H1 as [[? ?]|[? L1]], H2 as [[? ?]|[? L2]]; [congruence|left|left|right].
  - split; congruence.
  - split; congruence.
  - split; [congruence|]. by etrans.
Qed.

(** One round of the sort on a reversed sorted prefix. *)
Fixpoint insr (x : rebuildSlot) (rp : list rebuildSlot) : list rebuildSlot :=
  match rp with
  | [] => [x]
  | y :: rp' => if slot_less x y then y :: insr x rp' else x :: rp
  end.

Lemma sift_spec pre : forall x post,
  sift (length pre) (pre ++ x :: post) = rev (insr x (rev pre)) ++ post.
Proof.
  induction pre as [|y pre IH] using rev_ind; intros x post; [done|].
  rewrite length_app, Nat.add_1_r. cbn [sift].
  rewrite rev_app_distr. cbn [rev app insr].
  replace ((pre ++ [y]) ++ x :: post) with (pre ++ y :: x :: post) by (by rewrite <- app_assoc).
  rewrite (lookup_app_r pre (y :: x :: post) (S (length pre))) by lia.
  replace (S (length pre) - length pre)%nat with 1%nat by lia. cbn [lookup list_lookup].
  rewrite list_lookup_middle by done.
  destruct (slot_less x y) eqn:Hl.
  - replace (<[S (length pre):=y]> (<[length pre:=x]> (pre ++ y :: x :: post)))
      with (pre ++ x :: y :: post).
    + rewrite IH. cbn [rev]. by rewrite <- app_assoc.
    + rewrite insert_app_r_alt by lia. rewrite Nat.sub_diag. cbn [insert list_insert].
      rewrite insert_app_r_alt by lia.
      by replace (S (length pre) - length pre)%nat with 1%nat by lia.
  - cbn [rev]. rewrite rev_involutive. by rewrite <- !app_assoc.
Qed.

Lemma insr_perm x rp : insr x rp ≡ₚ x :: rp.
Proof.
  induction rp as [|y rp IH]; simpl; [done|]. destruct (slot_less x y); [|done].
  rewrite IH. apply Permutation_swap.
Qed.

Lemma insr_sorted x rp :
  StronglySorted (flip slot_le) rp -> StronglySorted (flip slot_le) (insr x rp).
Proof.
  induction 1 as [|y rp Hs IH Hall]; simpl; [by repeat constructor|].
  destruct (slot_less x y) eqn:Hl.
  - constructor; [done|]. eapply list.Forall_forall. intros z Hz.
    rewrite insr_perm, elem_of_cons in Hz. destruct Hz as [->|Hz].
    + unfold flip. destruct (slot_le_total x y) as [|Hyx]; [done|].
      apply slot_less_le in Hyx. congruence.
    + by eapply list.Forall_forall in Hall.
  - apply slot_less_le in Hl. constructor; [by constructor|]. constructor; [done|].
    eapply list.Forall_impl; [exact Hall|]. intros z Hz. unfold flip in *. simpl in *.
    by eapply slot_le_trans.
Qed.

Lemma StronglySorted_snoc {A} (R : relation A) l x :
  StronglySorted R l -> Forall (fun y => R y x) l -> StronglySorted R (l ++ [x]).
Proof.
  induction 1 as [|y l Hs IH Hall]; intros Hx; simpl; [by repeat constructor|].
  inversion Hx; subst. constructor; [by apply IH|]. apply Forall_app. split; [done|]. by constructor.
Qed.

Lemma StronglySorted_rev {A} (R : relation A) l :
  StronglySorted (flip R) l -> StronglySorted R (rev l).
Proof.
  induction 1 as [|x l Hs IH Hall]; simpl; [constructor|].
  apply StronglySorted_snoc; [done|]. by rewrite <- Permutation_rev.
Qed.

Lemma sort_from_spec post : forall pre,
  StronglySorted (flip slot_le) (rev pre) ->
  StronglySorted slot_le (sort_from (length post) (length pre) (pre ++ post)) /\
  sort_from (length post) (length pre) (pre ++ post) ≡ₚ pre ++ post.
Proof.
  induction post as [|x post IH]; intros pre Hs; cbn [length sort_from].
  - rewrite app_nil_r. split; [|done]. apply StronglySorted_rev in Hs.
    by rewrite rev_involutive in Hs.
  - rewrite sift_spec.
    assert (Hlen : length (rev (insr x (rev pre))) = S (length pre)).
    { rewrite length_rev, (Permutation_length (insr_perm x (rev pre))). simpl. by rewrite length_rev. }
    destruct (IH (rev (insr x (rev pre)))) as [Hs' Hp'].
    { rewrite rev_involutive. by apply insr_sorted. }
    rewrite Hlen in Hs', Hp'. split; [done|]. rewrite Hp'.
    rewrite <- Permutation_rev, insr_perm, <- Permutation_rev. simpl. by rewrite Permutation_middle.
Qed.

Lemma sortRebuildSlots_spec slots :
  StronglySorted slot_le (sortRebuildSlots slots) /\ sortRebuildSlots slots ≡ₚ slots.
Proof.
  unfold sortRebuildSlots. destruct slots as [|x slots]; [by split; [constructor|]|].
  simpl. rewrite Nat.sub_0_r. apply (sort_from_spec slots [x]). by repeat constructor.
Qed.

(** ** Members and configuration of a rebuild *)

Lemma length_sortRebuildSlots slots : length (sortRebuildSlots slots) = length slots.
Proof. apply Permutation_length, sortRebuildSlots_spec. Qed.

Lemma members_from_lookup slots : forall i attached j s a,
  slots !! j = Some s -> attached !! j = Some a ->
  members_from i slots attached !! j = Some (slot_member (i + j) s a).
Proof.
  induction slots as [|s0 slots IH]; intros i [|a0 attached] [|j] s a; simpl; try done.
  - intros [= ->] [= ->]. by rewrite Nat.add_0_r.
  - intros Hs Ha. rewrite (IH (S i) attached j s a Hs Ha). f_equal. f_equal. lia.
Qed.

Lemma length_members_from slots : forall i attached,
  length slots = length attached -> length (members_from i slots attached) = length slots.
Proof.
  induction slots as [|s slots IH]; intros i [|a attached]; simpl; try done.
  intros [= H]. by rewrite IH.
Qed.

Lemma length_set_actions slots : forall i acts,
  length (set_actions i slots acts) = length acts.
Proof.
  induction slots as [|s slots IH]; intros i acts; simpl; [done|].
  by rewrite IH, length_insert.
Qed.

Lemma set_actions_below slots : forall i acts j,
  (j < i)%nat -> set_actions i slots acts !! j = acts !! j.
Proof.
  induction slots as [|s slots IH]; intros i acts j Hj; simpl; [done|].
  rewrite IH by lia. by rewrite list_lookup_insert_ne by lia.
Qed.

Lemma set_actions_lookup slots : forall i acts j s,
  (i + length slots <= length acts)%nat -> slots !! j = Some s ->
  set_actions i slots acts !! (i + j)%nat = Some (rs_ProceedOn s).
Proof.
  induction slots as [|s0 slots IH]; intros i acts j s Hlen; simpl; [done|].
  destruct j as [|j]; simpl in *.
  - intros [= ->]. rewrite Nat.add_0_r, set_actions_below by lia.
    apply list_lookup_insert_eq. lia.
  - intros Hj. replace (i + S j)%nat with (S i + j)%nat by lia.
    apply IH; [rewrite length_insert; lia|done].
Qed.

(** The fields the order looks at. *)
Definition slot_rank (s : rebuildSlot) : Z * bool * string :=
  (rs_Priority s, attached_b s, rs_ProgramName s).

Lemma slot_le_antisym x y : slot_le x y -> slot_le y x -> slot_rank x = slot_rank y.
Proof.
  unfold slot_le, slot_rank. intros [|[E1 H1]] [|[E2 H2]]; try lia.
  destruct H1 as [[? ?]|[Ha L1]], H2 as [[? ?]|[Hb L2]]; try congruence.
  rewrite E1, Ha. f_equal. by apply (anti_symm String.le).
Qed.

Lemma NoDup_fmap_inj_in {A B} (f : A -> B) l x y :
  NoDup (f <$> l) -> x ∈ l -> y ∈ l -> f x = f y -> x = y.
Proof.
  intros Hnd (i & Hi)%list_elem_of_lookup (j & Hj)%list_elem_of_lookup Hf.
  assert (i = j) as ->; [|congruence].
  eapply NoDup_lookup; [exact Hnd| |]; rewrite list_lookup_fmap; [by rewrite Hi|by rewrite Hj, Hf].
Qed.

(** ** Properties *)

(** C29: the chain order of a dispatcher. The in-place sort keeps every slot
    exactly once and orders them by priority, then slots being attached before
    attached ones, then program name; when no two slots agree on all three
    the order is determined by the slots alone, whatever order the store
    returned them in. *)
Theorem chain_order_canonical (slots : list rebuildSlot) :
  sortRebuildSlots slots ≡ₚ slots /\
  StronglySorted slot_le (sortRebuildSlots slots) /\
  (NoDup (slot_rank <$> slots) ->
   forall slots', slots' ≡ₚ slots -> sortRebuildSlots slots' = sortRebuildSlots slots).
Proof.
  destruct (sortRebuildSlots_spec slots) as [Hs Hp]. split; [done|]. split; [done|].
  intros Hnd slots' Hp'. destruct (sortRebuildSlots_spec slots') as [Hs' Hp''].
  apply (StronglySorted_unique_strong slot_le); [|done|done|by rewrite Hp'', Hp', Hp].
  intros x y Hx Hy Hxy Hyx. rewrite Hp'', Hp' in Hx. rewrite Hp in Hy.
  eapply NoDup_fmap_inj_in; [exact Hnd|done|done|]. by apply slot_le_antisym.
Qed.
