(* ===== verification/Layout.v ===== *)
(** * The bpffs layout (fs/bpffs_layout.go) and its typed deletions (fs/bpffs_ops.go)

    A layout path is the list of segments of its cleaned absolute form, and
    [String] renders it. The deletion methods take a raw path string, clean
    it as filepath.Clean does, refuse it unless it is strictly under the bpffs
    mount and has the shape of the pin or directory they own, and then unlink
    it through the [Remove]/[RemoveAll] they are given (package os). *)

From Stdlib Require Import ZArith Lia Ascii String DecimalString DecimalN.
From stdpp Require Import base tactics sets list strings numbers.
From S2P Require Import Prelude Actions Dispatcher.

Local Open Scope string_scope.
Local Open Scope list_scope.
Local Open Scope Z_scope.

(** ** strings and strconv *)

(** [strings.Split] on a one-byte separator. *)
Fixpoint Split (sep : ascii) (s : string) : list string :=
  match s with
  | EmptyString => [EmptyString]
  | String c s' =>
      if Ascii.eqb c sep then EmptyString :: Split sep s'
      else match Split sep s' with
           | x :: xs => String c x :: xs
           | [] => [String c EmptyString]
           end
  end.

(** [strings.HasPrefix] with [strings.TrimPrefix]. *)
Fixpoint CutPrefix (p s : string) : option string :=
  match p, s with
  | EmptyString, _ => Some s
  | String c p', String c' s' => if Ascii.eqb c c' then CutPrefix p' s' else None
  | String _ _, EmptyString => None
  end.

Fixpoint string_rev (s acc : string) : string :=
  match s with
  | EmptyString => acc
  | String c s' => string_rev s' (String c acc)
  end.

Definition CutSuffix (p s : string) : option string :=
  match CutPrefix (string_rev p "") (string_rev s "") with
  | Some r => Some (string_rev r "")
  | None => None
  end.

(** [strconv.ParseUint(s, 10, bits)]. *)
Definition ParseUint (s : string) (bits : Z) : option Z :=
  match NilZero.uint_of_string s with
  | Some d => let n := Z.of_N (N.of_uint d) in if n <? 2 ^ bits then Some n else None
  | None => None
  end.

(** ** path/filepath on rooted paths *)

Fixpoint clean_segs (acc segs : list string) : list string :=
  match segs with
  | [] => acc
  | s :: segs' =>
      if String.eqb s "" || String.eqb s "." then clean_segs acc segs'
      else if String.eqb s ".." then clean_segs (removelast acc) segs'
      else clean_segs (acc ++ [s]) segs'
  end.

Definition slash : ascii := "/"%char.
Definition underscore : ascii := "_"%char.

(** [filepath.Clean] of a rooted path; [None] for one that is not rooted. *)
Definition Clean (s : string) : option path :=
  match s with
  | String c s' => if Ascii.eqb c slash then Some (clean_segs [] (Split slash s')) else None
  | EmptyString => None
  end.

Fixpoint String_ (p : path) : string :=
  match p with
  | [] => ""
  | x :: p' => "/" +:+ x +:+ String_ p'
  end.

Definition Base (p : path) : string := List.last p "".
Definition Dir (p : path) : path := removelast p.

(** ** The layout (bpffs_layout.go) *)

Section Layout.
Context (base : path).

Definition MountPoint : path := base ++ ["fs"].
Definition XDP : path := base ++ ["fs"; "xdp"].
Definition TCIngress : path := base ++ ["fs"; "tc-ingress"].
Definition TCEgress : path := base ++ ["fs"; "tc-egress"].
Definition Maps : path := base ++ ["fs"; "maps"].
Definition Links : path := base ++ ["fs"; "links"].
Definition SharedMapPinDir : path := MountPoint ++ ["shared"].

Definition ProgPinPath (programID : Z) : path := MountPoint ++ ["prog_" +:+ FormatUint programID].
Definition MapPinDir (programID : Z) : path := Maps ++ [FormatUint programID].
Definition LinkPinPath (linkID : Z) : path := Links ++ [FormatUint linkID].

Definition dispatcherTypeDir (dt : DispatcherType) : path :=
  MountPoint ++ [DispatcherType_String dt].

Definition DispatcherLinkPath (dt : DispatcherType) (nsid ifindex : Z) : path :=
  dispatcherTypeDir dt ++
    ["dispatcher_" +:+ Sprint_d nsid +:+ "_" +:+ Sprint_d ifindex +:+ "_link"].

Definition DispatcherRevisionDir (dt : DispatcherType) (nsid ifindex revision : Z) : path :=
  dispatcherTypeDir dt ++
    ["dispatcher_" +:+ Sprint_d nsid +:+ "_" +:+ Sprint_d ifindex +:+ "_" +:+ Sprint_d revision].

Definition DispatcherProgPath (dt : DispatcherType) (nsid ifindex revision : Z) : path :=
  DispatcherRevisionDir dt nsid ifindex revision ++ ["dispatcher"].

Definition ExtensionLinkPath (dt : DispatcherType) (nsid ifindex revision position : Z) : path :=
  DispatcherRevisionDir dt nsid ifindex revision ++ ["link_" +:+ Sprint_d position].

Definition TCXLinkPath (direction : string) (nsid ifindex programID : Z) : path :=
  MountPoint ++ ["tcx-" +:+ direction;
    "link_" +:+ Sprint_d nsid +:+ "_" +:+ Sprint_d ifindex +:+ "_" +:+ Sprint_d programID].

(** ** Validated deletions (bpffs_ops.go) *)

Definition strictly_under (dir p : path) : bool :=
  bool_decide (dir `prefix_of` p) && bool_decide (dir <> p).

Definition cleanUnderMount (s : string) : result path :=
  if String.eqb s "" then Err (Errorf "empty path")
  else match Clean s with
       | None => Err (Errorf "path escapes bpffs mount: %s")
       | Some p =>
           if bool_decide (p = MountPoint)
           then Err (Errorf "refusing to remove bpffs mount root: %s")
           else if bool_decide (MountPoint `prefix_of` p) then Ok p
           else Err (Errorf "path escapes bpffs mount: %s")
       end.

Definition isDispatcherTypeDir (p : path) : bool :=
  bool_decide (p = XDP) || bool_decide (p = TCIngress) || bool_decide (p = TCEgress).

Definition all_uint64 (parts : list string) : bool :=
  forallb (fun p => match ParseUint p 64 with Some _ => true | None => false end) parts.

Definition validateDispatcherRevDirPath (p : path) : result unit :=
  if negb (isDispatcherTypeDir (Dir p))
  then Err (Errorf "dispatcher dir not under type dir: %s")
  else match CutPrefix "dispatcher_" (Base p) with
       | None => Err (Errorf "dispatcher dir has unexpected name: %s")
       | Some rest =>
           let parts := Split underscore rest in
           if negb (Nat.eqb (length parts) 3)
           then Err (Errorf "dispatcher dir has unexpected name: %s")
           else if negb (all_uint64 parts)
           then Err (Errorf "dispatcher dir has unexpected name: %s")
           else Ok tt
       end.

Section Deletions.
Context {W : Type} (Remove RemoveAll : path -> M W unit).

Definition removePinFile (p : path) : M W unit :=
  let* p := lift (cleanUnderMount (String_ p)) in
  fun w => match Remove p w with
           | (Err e, w') => if errors_Is e ErrNotExist then (Ok tt, w')
                            else (Err (Wrap "remove pin %s: %w" e), w')
           | r => r
           end.

Definition removeDir (p : path) : M W unit :=
  let* p := lift (cleanUnderMount (String_ p)) in
  fun w => match RemoveAll p w with
           | (Err e, w') => if errors_Is e ErrNotExist then (Ok tt, w')
                            else (Err (Wrap "remove dir %s: %w" e), w')
           | r => r
           end.

Definition RemoveProgPin (s : string) : M W unit :=
  let* p := lift (cleanUnderMount s) in
  if negb (bool_decide (Dir p = MountPoint))
  then throw (Errorf "prog pin not under mount root: %s")
  else match CutPrefix "prog_" (Base p) with
       | None => throw (Errorf "prog pin has unexpected name: %s")
       | Some suffix =>
           match ParseUint suffix 32 with
           | None => throw (Errorf "prog pin has unexpected name: %s")
           | Some _ => removePinFile p
           end
       end.

Definition removeNumericChildDir (parent : path) (s : string) : M W unit :=
  let* p := lift (cleanUnderMount s) in
  if negb (bool_decide (Dir p = parent))
  then throw (Errorf "%s not directly under %s: %s")
  else match ParseUint (Base p) 32 with
       | None => throw (Errorf "%s has non-numeric name: %s")
       | Some _ => removeDir p
       end.

Definition RemoveMapDir (s : string) : M W unit := removeNumericChildDir Maps s.

Definition RemoveDispatcherProgPin (s : string) : M W unit :=
  let* p := lift (cleanUnderMount s) in
  if negb (String.eqb (Base p) "dispatcher")
  then throw (Errorf "dispatcher prog pin has unexpected name: %s")
  else let* _ := lift (validateDispatcherRevDirPath (Dir p)) in removePinFile p.

Definition RemoveDispatcherRevDir (s : string) : M W unit :=
  let* p := lift (cleanUnderMount s) in
  let* _ := lift (validateDispatcherRevDirPath p) in
  removeDir p.

Definition RemoveDispatcherLinkPin (s : string) : M W unit :=
  let* p := lift (cleanUnderMount s) in
  if negb (isDispatcherTypeDir (Dir p))
  then throw (Errorf "dispatcher link not under type dir: %s")
  else match CutPrefix "dispatcher_" (Base p), CutSuffix "_link" (Base p) with
       | Some rest, Some _ =>
           let trim := default rest (CutSuffix "_link" rest) in
           let parts := Split underscore trim in
           if negb (Nat.eqb (length parts) 2)
           then throw (Errorf "dispatcher link has unexpected name: %s")
           else if negb (all_uint64 parts)
           then throw (Errorf "dispatcher link has unexpected name: %s")
           else removePinFile p
       | _, _ => throw (Errorf "dispatcher link has unexpected name: %s")
       end.

Definition RemoveSharedMapPin (s : string) : M W unit :=
  let* p := lift (cleanUnderMount s) in
  if negb (bool_decide (Dir p = SharedMapPinDir))
  then throw (Errorf "shared map pin not inside shared directory: %s")
  else removePinFile p.
End Deletions.
End Layout.

(** ** Facts about the rendering *)

#[local] Arguments String.append !_ _ /.

Fixpoint lacks (c : ascii) (s : string) : bool :=
  match s with
  | EmptyString => true
  | String c' s' => negb (Ascii.eqb c' c) && lacks c s'
  end.

Lemma string_app_assoc a b c : (a +:+ b) +:+ c = a +:+ (b +:+ c).
Proof. induction a as [|x a IH]; simpl; [done|]. by rewrite IH. Qed.

Lemma string_app_nil_r a : a +:+ "" = a.
Proof. induction a as [|x a IH]; simpl; [done|]. by rewrite IH. Qed.

Lemma lacks_app c a b : lacks c (a +:+ b) = lacks c a && lacks c b.
Proof. induction a as [|x a IH]; simpl; [done|]. by rewrite IH, andb_assoc. Qed.

Lemma lacks_uint c d :
  lacks c "0123456789" = true -> lacks c (NilEmpty.string_of_uint d) = true.
Proof.
  intros H. cbn [lacks] in H. rewrite !andb_true_iff in H. destruct_and!.
  induction d; cbn [NilEmpty.string_of_uint lacks]; [done|..]; apply andb_true_iff; split; done.
Qed.

Lemma lacks_FormatUint c z : lacks c "0123456789" = true -> lacks c (FormatUint z) = true.
Proof.
  intros H. unfold FormatUint, NilZero.string_of_uint.
  destruct (N.to_uint (Z.to_N z)) eqn:E; [|rewrite <- E; by apply lacks_uint..].
  cbn [lacks] in H |- *. rewrite !andb_true_iff in *. tauto.
Qed.

Lemma to_uint_nonnil n : N.to_uint n <> Decimal.Nil.
Proof.
  intros H. pose proof (DecimalN.Unsigned.of_to n) as E. rewrite H in E. simpl in E.
  subst n. discriminate H.
Qed.

Lemma ParseUint_FormatUint z bits : 0 <= z < 2 ^ bits -> ParseUint (FormatUint z) bits = Some z.
Proof.
  intros Hz. unfold ParseUint, FormatUint.
  rewrite NilZero.usu by apply to_uint_nonnil.
  rewrite DecimalN.Unsigned.of_to, Z2N.id by lia.
  by destruct (Z.ltb_spec z (2 ^ bits)); [|lia].
Qed.

Lemma FormatUint_inj a b : 0 <= a -> 0 <= b -> FormatUint a = FormatUint b -> a = b.
Proof.
  intros Ha Hb H. apply (f_equal NilZero.uint_of_string) in H. unfold FormatUint in H.
  rewrite !NilZero.usu in H by apply to_uint_nonnil.
  injection H as H. apply (f_equal N.of_uint) in H.
  rewrite !DecimalN.Unsigned.of_to in H. lia.
Qed.

Lemma Sprint_d_nonneg z : 0 <= z -> Sprint_d z = FormatUint z.
Proof. intros H. unfold Sprint_d. by destruct (Z.ltb_spec z 0); [lia|]. Qed.

Lemma Split_lacks c s : lacks c s = true -> Split c s = [s].
Proof.
  induction s as [|x s IH]; cbn; [done|]. rewrite andb_true_iff, negb_true_iff.
  intros [-> Hs]. by rewrite IH.
Qed.

Lemma Split_app c a b : lacks c a = true -> Split c (a +:+ String c b) = a :: Split c b.
Proof.
  induction a as [|x a IH]; cbn.
  - intros _. by rewrite Ascii.eqb_refl.
  - rewrite andb_true_iff, negb_true_iff. intros [-> Ha]. by rewrite IH.
Qed.

(** Segments a cleaned path is made of. *)
Definition plain (s : string) : bool :=
  lacks slash s && negb (String.eqb s "") && negb (String.eqb s ".") && negb (String.eqb s "..").

Lemma Split_String_ p x :
  forallb plain p = true -> plain x = true ->
  Split slash (x +:+ String_ p) = x :: p.
Proof.
  revert x. induction p as [|y p IH]; intros x Hp Hx; cbn in *; unfold plain in Hx at 1;
    rewrite !andb_true_iff in *; destruct_and!.
  - rewrite string_app_nil_r. by apply Split_lacks.
  - rewrite Split_app by done. f_equal. by apply IH.
Qed.

Lemma clean_segs_plain p : forall acc, forallb plain p = true -> clean_segs acc p = acc ++ p.
Proof.
  induction p as [|x p IH]; intros acc; simpl; [by rewrite app_nil_r|].
  unfold plain at 1. rewrite !andb_true_iff, !negb_true_iff. intros [[[[_ ->] ->] ->] Hp]. simpl.
  rewrite IH by done. by rewrite <- app_assoc.
Qed.

Lemma Clean_String_ p : p <> [] -> forallb plain p = true -> Clean (String_ p) = Some p.
Proof.
  destruct p as [|x p]; [done|]. intros _ Hp. simpl in Hp. apply andb_true_iff in Hp as [Hx Hp].
  cbn [String_ String.append Clean]. simpl. rewrite Split_String_ by done.
  rewrite clean_segs_plain; [done|]. simpl. by rewrite Hx.
Qed.

Lemma app_neq_l {A} (l k : list A) : k <> [] -> l <> l ++ k.
Proof. intros Hk H. apply (f_equal length) in H. rewrite length_app in H. destruct k; simpl in *; [done|lia]. Qed.

Lemma cleanUnderMount_sound base s p :
  cleanUnderMount base s = Ok p -> exists q, q <> [] /\ p = MountPoint base ++ q.
Proof.
  unfold cleanUnderMount. case_match; [done|]. destruct (Clean s) as [p'|]; [|done].
  case_bool_decide as Hne; [done|]. case_bool_decide as Hpre; [|done]. destruct Hpre as [q ->].
  intros [= <-]. exists q. split; [|done]. intros ->. by rewrite app_nil_r in Hne.
Qed.

(** A path of the layout, rendered, is accepted by the mount guard as itself. *)
Lemma cleanUnderMount_layout base q :
  forallb plain base = true -> forallb plain q = true -> q <> [] ->
  cleanUnderMount base (String_ (MountPoint base ++ q)) = Ok (MountPoint base ++ q).
Proof.
  intros Hb Hq Hne. unfold cleanUnderMount.
  assert (Hp : forallb plain (MountPoint base ++ q) = true).
  { unfold MountPoint. rewrite !forallb_app, Hb, Hq. done. }
  assert (Hn : MountPoint base ++ q <> []) by (unfold MountPoint; by destruct base).
  rewrite Clean_String_ by done.
  replace (String.eqb (String_ (MountPoint base ++ q)) "") with false
    by (unfold MountPoint; by destruct base).
  rewrite bool_decide_false by (intros E; by apply (app_neq_l (MountPoint base) q)).
  rewrite bool_decide_true; [done|]. by apply prefix_app_r.
Qed.

(** What a validated revision directory looks like. *)
Definition rev_dir_shape (base p : path) : Prop :=
  exists dt a b c,
    dt <> DispatcherTypeZero /\
    p = dispatcherTypeDir base dt ++ ["dispatcher_" +:+ a +:+ "_" +:+ b +:+ "_" +:+ c] /\
    (exists x y z, ParseUint a 64 = Some x /\ ParseUint b 64 = Some y /\ ParseUint c 64 = Some z).

Lemma Split_nonempty c s : Split c s <> [].
Proof. destruct s as [|x s]; simpl; [done|]. case_match; [done|]. by case_match. Qed.

Lemma Split_join c s : forall x xs, Split c s = x :: xs ->
  s = x +:+ foldr (fun y acc => String c "" +:+ y +:+ acc) "" xs.
Proof.
  induction s as [|y s IH]; simpl; intros x xs.
  - intros [= <- <-]. done.
  - destruct (Ascii.eqb_spec y c) as [->|Hne].
    + destruct (Split c s) as [|z zs] eqn:E; [by apply Split_nonempty in E|].
      intros [= <- <-]. simpl. f_equal. by apply IH.
    + destruct (Split c s) as [|z zs] eqn:E; [by apply Split_nonempty in E|].
      intros [= <- <-]. simpl. f_equal. by apply IH.
Qed.

Lemma CutPrefix_Some p : forall s r, CutPrefix p s = Some r -> s = p +:+ r.
Proof.
  induction p as [|c p IH]; intros s r; simpl; [by intros [= ->]|].
  destruct s as [|c' s]; [done|]. destruct (Ascii.eqb_spec c c') as [->|]; [|done].
  intros ->%IH. done.
Qed.

Lemma CutPrefix_app p r : CutPrefix p (p +:+ r) = Some r.
Proof. induction p as [|c p IH]; simpl; [done|]. by rewrite Ascii.eqb_refl. Qed.

Lemma dir_base (p : path) : p <> [] -> p = Dir p ++ [Base p].
Proof. intros H. unfold Dir, Base. by apply app_removelast_last. Qed.

Lemma typeDir_cases base p :
  isDispatcherTypeDir base p = true ->
  exists dt, dt <> DispatcherTypeZero /\ p = dispatcherTypeDir base dt.
Proof.
  unfold isDispatcherTypeDir, dispatcherTypeDir, MountPoint, XDP, TCIngress, TCEgress.
  rewrite !orb_true_iff, !bool_decide_eq_true. intros [[->| ->]| ->];
    [exists DispatcherTypeXDP|exists DispatcherTypeTCIngress|exists DispatcherTypeTCEgress];
    by rewrite <- app_assoc.
Qed.

Lemma isDispatcherTypeDir_ok base dt :
  dt <> DispatcherTypeZero -> isDispatcherTypeDir base (dispatcherTypeDir base dt) = true.
Proof.
  unfold isDispatcherTypeDir, dispatcherTypeDir, MountPoint, XDP, TCIngress, TCEgress.
  rewrite <- !app_assoc. intros H. rewrite !orb_true_iff, !bool_decide_eq_true.
  destruct dt; [done|by left; left|by left; right|by right].
Qed.

Lemma validateDispatcherRevDirPath_sound base p :
  validateDispatcherRevDirPath base p = Ok tt -> rev_dir_shape base p.
Proof.
  unfold validateDispatcherRevDirPath.
  destruct (isDispatcherTypeDir base (Dir p)) eqn:Hd; [|done]. cbn [negb].
  destruct (CutPrefix "dispatcher_" (Base p)) as [rest|] eqn:Hc; [|done].
  destruct (Split underscore rest) as [|a [|b [|c [|]]]] eqn:Hs; try done.
  cbn [length Nat.eqb negb all_uint64 forallb].
  destruct (ParseUint a 64) as [x|] eqn:Ha; [|done].
  destruct (ParseUint b 64) as [y|] eqn:Hb; [|done].
  destruct (ParseUint c 64) as [z|] eqn:Hz; [|done]. intros _.
  apply typeDir_cases in Hd as (dt & Hdt & Hd). exists dt, a, b, c. split; [done|].
  split; [|by exists x, y, z].
  assert (Hp : p <> []).
  { intros ->. unfold dispatcherTypeDir, MountPoint, Dir in Hd. simpl in Hd. by destruct base. }
  rewrite (dir_base p Hp), Hd. f_equal. f_equal.
  rewrite (CutPrefix_Some _ _ _ Hc), (Split_join _ _ _ _ Hs). simpl.
  by rewrite ?string_app_assoc, string_app_nil_r.
Qed.

Lemma Split3 a b c :
  0 <= a -> 0 <= b -> 0 <= c ->
  Split underscore (Sprint_d a +:+ "_" +:+ Sprint_d b +:+ "_" +:+ Sprint_d c)
  = [FormatUint a; FormatUint b; FormatUint c].
Proof.
  intros. rewrite !Sprint_d_nonneg by done. cbn [String.append].
  rewrite Split_app by (by apply lacks_FormatUint).
  rewrite Split_app by (by apply lacks_FormatUint).
  by rewrite Split_lacks by (by apply lacks_FormatUint).
Qed.

Lemma validateDispatcherRevDirPath_layout base dt nsid ifindex rev :
  dt <> DispatcherTypeZero -> 0 <= nsid < 2 ^ 64 -> 0 <= ifindex < 2 ^ 64 -> 0 <= rev < 2 ^ 64 ->
  validateDispatcherRevDirPath base (DispatcherRevisionDir base dt nsid ifindex rev) = Ok tt.
Proof.
  intros Hdt H1 H2 H3. unfold validateDispatcherRevDirPath, DispatcherRevisionDir, Dir, Base.
  rewrite List.removelast_last, List.last_last, isDispatcherTypeDir_ok by done. cbn [negb].
  rewrite CutPrefix_app, Split3 by lia. cbn [length Nat.eqb negb all_uint64 forallb].
  by rewrite !ParseUint_FormatUint.
Qed.

(** ** Distinctness of layout paths *)

Lemma app_sing_inj {A} (l : list A) a b : l ++ [a] = l ++ [b] -> a = b.
Proof. intros H. by apply app_inv_head in H as [= ->]. Qed.

Lemma append_inj_l p a b : p +:+ a = p +:+ b -> a = b.
Proof. induction p as [|c p IH]; simpl; [done|]. intros [= H]. by apply IH. Qed.

Lemma DispatcherType_String_inj d d' :
  DispatcherType_String d = DispatcherType_String d' -> d = d'.
Proof. by destruct d, d'. Qed.

Lemma dispatcher_file_inj base dt dt' f f' :
  dispatcherTypeDir base dt ++ [f] = dispatcherTypeDir base dt' ++ [f'] -> dt = dt' /\ f = f'.
Proof.
  intros H. apply app_inj_tail in H as [H ->]. by apply app_sing_inj, DispatcherType_String_inj in H.
Qed.

Lemma DispatcherRevisionDir_inj base dt n i r dt' n' i' r' :
  0 <= n -> 0 <= i -> 0 <= r -> 0 <= n' -> 0 <= i' -> 0 <= r' ->
  DispatcherRevisionDir base dt n i r = DispatcherRevisionDir base dt' n' i' r' ->
  dt = dt' /\ n = n' /\ i = i' /\ r = r'.
Proof.
  intros ?????? H. apply dispatcher_file_inj in H as [-> H]. apply append_inj_l in H.
  apply (f_equal (Split underscore)) in H. rewrite !Split3 in H by done.
  injection H as Ha Hb Hc. apply FormatUint_inj in Ha, Hb, Hc; done.
Qed.

Lemma prefix_same_length {A} (l1 l2 k : list A) :
  length l1 = length l2 -> l1 `prefix_of` l2 ++ k -> l1 = l2.
Proof.
  intros Hl [z Hz]. apply (f_equal (take (length l1))) in Hz.
  rewrite take_app_length in Hz. by rewrite Hl, take_app_length in Hz.
Qed.

Lemma length_revdir base dt n i r :
  length (DispatcherRevisionDir base dt n i r) = (length base + 3)%nat.
Proof.
  unfold DispatcherRevisionDir, dispatcherTypeDir, MountPoint. rewrite !length_app. simpl. lia.
Qed.

(** Nothing below one revision directory is below another. *)
Lemma revdir_prefix base dt n i r dt' n' i' r' k :
  0 <= n -> 0 <= i -> 0 <= r -> 0 <= n' -> 0 <= i' -> 0 <= r' ->
  DispatcherRevisionDir base dt n i r `prefix_of` DispatcherRevisionDir base dt' n' i' r' ++ k ->
  dt = dt' /\ n = n' /\ i = i' /\ r = r'.
Proof.
  intros ?????? H. apply prefix_same_length in H; [|by rewrite !length_revdir].
  by apply DispatcherRevisionDir_inj in H.
Qed.

Lemma revdir_prefix_rev base dt n i r r' k :
  0 <= n -> 0 <= i -> 0 <= r -> 0 <= r' ->
  DispatcherRevisionDir base dt n i r `prefix_of` DispatcherRevisionDir base dt n i r' ++ k ->
  r = r'.
Proof. intros ???? H. apply revdir_prefix in H as (_ & _ & _ & ->); done. Qed.

Lemma Split_link a b :
  0 <= a -> 0 <= b ->
  Split underscore (Sprint_d a +:+ "_" +:+ Sprint_d b +:+ "_link")
  = [FormatUint a; FormatUint b; "link"].
Proof.
  intros. rewrite !Sprint_d_nonneg by done. cbn [String.append].
  rewrite Split_app by (by apply lacks_FormatUint).
  by rewrite Split_app by (by apply lacks_FormatUint).
Qed.

Lemma DispatcherLinkPath_inj base dt n i dt' n' i' :
  0 <= n -> 0 <= i -> 0 <= n' -> 0 <= i' ->
  DispatcherLinkPath base dt n i = DispatcherLinkPath base dt' n' i' -> dt = dt' /\ n = n' /\ i = i'.
Proof.
  intros ???? H. apply dispatcher_file_inj in H as [-> H]. apply append_inj_l in H.
  apply (f_equal (Split underscore)) in H. rewrite !Split_link in H by done.
  injection H as Ha Hb. apply FormatUint_inj in Ha, Hb; done.
Qed.

(** An outer link is not below any revision directory. *)
Lemma link_not_in_any_revdir base dt n i r dt' n' i' :
  0 <= n -> 0 <= i -> 0 <= r -> 0 <= n' -> 0 <= i' ->
  ~ DispatcherRevisionDir base dt n i r `prefix_of` DispatcherLinkPath base dt' n' i'.
Proof.
  intros ????? H. rewrite <- (app_nil_r (DispatcherLinkPath _ _ _ _)) in H.
  apply prefix_same_length in H.
  - apply dispatcher_file_inj in H as [-> H]. apply append_inj_l in H.
    apply (f_equal (Split underscore)) in H. rewrite Split3, Split_link in H by done.
    injection H as _ _ H. apply (f_equal (lacks "l"%char)) in H.
    by rewrite lacks_FormatUint in H.
  - unfold DispatcherRevisionDir, DispatcherLinkPath, dispatcherTypeDir. by rewrite !length_app.
Qed.

Lemma link_not_in_revdir base dt n i r :
  0 <= n -> 0 <= i -> 0 <= r ->
  ~ DispatcherRevisionDir base dt n i r `prefix_of` DispatcherLinkPath base dt n i.
Proof. intros. by apply link_not_in_any_revdir. Qed.

Lemma ext_path_inj base dt n i r p p' :
  0 <= p -> 0 <= p' ->
  ExtensionLinkPath base dt n i r p = ExtensionLinkPath base dt n i r p' -> p = p'.
Proof.
  intros Hp Hp' H. apply app_sing_inj, append_inj_l in H.
  rewrite !Sprint_d_nonneg in H by done. by apply FormatUint_inj.
Qed.

Lemma ext_neq_prog base dt n i r p :
  ExtensionLinkPath base dt n i r p <> DispatcherProgPath base dt n i r.
Proof. intros H. apply app_sing_inj in H. done. Qed.

Lemma prog_path_in_revdir base dt n i r :
  DispatcherRevisionDir base dt n i r `prefix_of` DispatcherProgPath base dt n i r.
Proof. by apply prefix_app_r. Qed.

Lemma ext_path_in_revdir base dt n i r p :
  DispatcherRevisionDir base dt n i r `prefix_of` ExtensionLinkPath base dt n i r p.
Proof. by apply prefix_app_r. Qed.

Lemma Split_all_lack c s : forallb (lacks c) (Split c s) = true.
Proof.
  induction s as [|x s IH]; cbn [Split]; [done|].
  destruct (Ascii.eqb x c) eqn:E; [cbn; exact IH|].
  destruct (Split c s) as [|y ys] eqn:Es; cbn [forallb lacks] in *; rewrite E; [done|].
  exact IH.
Qed.

Lemma forallb_removelast {A} (f : A -> bool) l : forallb f l = true -> forallb f (removelast l) = true.
Proof.
  induction l as [|x l IH]; simpl; [done|]. rewrite andb_true_iff. intros [Hx Hl].
  destruct l as [|y l]; [done|]. cbn [forallb]. rewrite Hx. by apply IH.
Qed.

Lemma clean_segs_all_plain segs : forall acc,
  forallb (lacks slash) segs = true -> forallb plain acc = true ->
  forallb plain (clean_segs acc segs) = true.
Proof.
  induction segs as [|x segs IH]; intros acc Hs Ha; [done|].
  cbn [forallb clean_segs] in *. apply andb_true_iff in Hs as [Hx Hs].
  destruct (String.eqb x "") eqn:E1; [by apply IH|].
  destruct (String.eqb x ".") eqn:E2; [by apply IH|]. cbn [orb].
  destruct (String.eqb x "..") eqn:E3; [by apply IH; [|apply forallb_removelast]|].
  apply IH; [done|]. rewrite forallb_app, Ha. cbn [forallb]. unfold plain.
  by rewrite Hx, E1, E2, E3.
Qed.

Lemma Clean_plain s p : Clean s = Some p -> forallb plain p = true.
Proof.
  destruct s as [|c s]; [done|]. cbn [Clean]. case_match; [|done]. intros [= <-].
  apply clean_segs_all_plain; [apply Split_all_lack|done].
Qed.

Lemma cleanUnderMount_idem base s p :
  cleanUnderMount base s = Ok p -> cleanUnderMount base (String_ p) = Ok p.
Proof.
  intros H. pose proof (cleanUnderMount_sound _ _ _ H) as (q & Hq & ->).
  assert (Hp : forallb plain (MountPoint base ++ q) = true).
  { revert H. unfold cleanUnderMount. case_match; [done|].
    destruct (Clean s) as [p'|] eqn:Hc; [|done]. apply Clean_plain in Hc.
    case_bool_decide; [done|]. case_bool_decide; [|done]. by intros [= <-]. }
  unfold MountPoint in Hp. rewrite !forallb_app, !andb_true_iff in Hp. destruct Hp as [[Hb _] Hq'].
  by apply cleanUnderMount_layout.
Qed.

Lemma plain_revdir dt n i r :
  0 <= n -> 0 <= i -> 0 <= r -> dt <> DispatcherTypeZero ->
  forallb plain [DispatcherType_String dt;
    "dispatcher_" +:+ Sprint_d n +:+ "_" +:+ Sprint_d i +:+ "_" +:+ Sprint_d r] = true.
Proof.
  intros Hn Hi Hr Hdt. rewrite !Sprint_d_nonneg by done. cbn [forallb].
  apply andb_true_iff. split; [by destruct dt|]. rewrite andb_true_r.
  unfold plain. by rewrite !lacks_app, !lacks_FormatUint.
Qed.

Lemma RemoveDispatcherRevDir_layout {W} base (RemoveAll : path -> M W unit) dt n i r (w : W) :
  forallb plain base = true -> dt <> DispatcherTypeZero ->
  0 <= n < 2 ^ 64 -> 0 <= i < 2 ^ 64 -> 0 <= r < 2 ^ 64 ->
  exists res, RemoveDispatcherRevDir base RemoveAll (String_ (DispatcherRevisionDir base dt n i r)) w
    = (res, snd (RemoveAll (DispatcherRevisionDir base dt n i r) w)) /\
    (fst (RemoveAll (DispatcherRevisionDir base dt n i r) w) = Ok tt -> res = Ok tt) /\
    (res = Ok tt -> fst (RemoveAll (DispatcherRevisionDir base dt n i r) w) = Ok tt \/
       exists e, fst (RemoveAll (DispatcherRevisionDir base dt n i r) w) = Err e /\ errors_Is e ErrNotExist = true).
Proof.
  intros Hb Hdt Hn Hi Hr.
  assert (Hc : cleanUnderMount base (String_ (DispatcherRevisionDir base dt n i r))
             = Ok (DispatcherRevisionDir base dt n i r)).
  { unfold DispatcherRevisionDir, dispatcherTypeDir. rewrite <- app_assoc.
    apply cleanUnderMount_layout; [done| |done]. apply plain_revdir; lia || done. }
  unfold RemoveDispatcherRevDir, removeDir, bind, lift. rewrite Hc.
  rewrite validateDispatcherRevDirPath_layout, Hc by done.
  destruct (RemoveAll _ w) as [[[]|e] w']; [by eexists; eauto|].
  destruct (errors_Is e ErrNotExist) eqn:He; eexists; (split; [done|]); split; try done.
  intros _. right. eauto.
Qed.

(** The typed deletion of a revision directory either touches nothing or
    removes exactly one directory of the validated shape. *)
Lemma RemoveDispatcherRevDir_confined {W} base (RemoveAll : path -> M W unit) s w :
  (exists e, RemoveDispatcherRevDir base RemoveAll s w = (Err e, w)) \/
  (exists p, rev_dir_shape base p /\
     snd (RemoveDispatcherRevDir base RemoveAll s w) = snd (RemoveAll p w)).
Proof.
  unfold RemoveDispatcherRevDir, removeDir, bind, lift.
  destruct (cleanUnderMount base s) as [p|e] eqn:Hc; [|left; eauto].
  destruct (validateDispatcherRevDirPath base p) as [[]|e] eqn:Hv; [|left; eauto].
  rewrite (cleanUnderMount_idem _ _ _ Hc). right. exists p.
  split; [by apply validateDispatcherRevDirPath_sound|].
  destruct (RemoveAll p w) as [[[]|e] w']; [done|]. by destruct (errors_Is e ErrNotExist).
Qed.

(** ** What each deletion may touch *)

(** A deletion either fails before touching anything or hands exactly one
    path of the given shape to the file-system call. *)
Definition confined {W} (touch : path -> M W unit) (shape : path -> Prop) (m : M W unit) : Prop :=
  forall w, (exists e, m w = (Err e, w)) \/ (exists p, shape p /\ snd (m w) = snd (touch p w)).

Definition is_uint (bits : Z) (s : string) : Prop := exists z, ParseUint s bits = Some z.

Definition prog_pin_shape (base p : path) : Prop :=
  exists n, is_uint 32 n /\ p = MountPoint base ++ ["prog_" +:+ n].
Definition map_dir_shape (base p : path) : Prop := exists n, is_uint 32 n /\ p = Maps base ++ [n].
Definition disp_prog_shape (base p : path) : Prop :=
  exists d, rev_dir_shape base d /\ p = d ++ ["dispatcher"].
Definition disp_link_shape (base p : path) : Prop :=
  exists dt a b, dt <> DispatcherTypeZero /\ is_uint 64 a /\ is_uint 64 b /\
    p = dispatcherTypeDir base dt ++ ["dispatcher_" +:+ a +:+ "_" +:+ b +:+ "_link"].
Definition shared_pin_shape (base p : path) : Prop := exists f, p = SharedMapPinDir base ++ [f].

Lemma removePinFile_touches {W} base (Remove : path -> M W unit) s p w :
  cleanUnderMount base s = Ok p ->
  snd (removePinFile base Remove p w) = snd (Remove p w).
Proof.
  intros Hc. unfold removePinFile, bind, lift. rewrite (cleanUnderMount_idem _ _ _ Hc).
  destruct (Remove p w) as [[[]|e] w']; [done|]. by destruct (errors_Is e ErrNotExist).
Qed.

Lemma removeDir_touches {W} base (RemoveAll : path -> M W unit) s p w :
  cleanUnderMount base s = Ok p ->
  snd (removeDir base RemoveAll p w) = snd (RemoveAll p w).
Proof.
  intros Hc. unfold removeDir, bind, lift. rewrite (cleanUnderMount_idem _ _ _ Hc).
  destruct (RemoveAll p w) as [[[]|e] w']; [done|]. by destruct (errors_Is e ErrNotExist).
Qed.

Lemma clean_dir_base base s p : cleanUnderMount base s = Ok p -> p = Dir p ++ [Base p].
Proof.
  intros (q & Hq & ->)%cleanUnderMount_sound. apply dir_base. unfold MountPoint.
  intros H. apply app_eq_nil in H as [_ ->]. done.
Qed.

(** Start of every confinement proof: the path is clean or nothing happens. *)
Ltac confine Hc :=
  let p := fresh "p" in let e := fresh "e" in
  intros w; unfold bind, lift;
  match goal with |- context [cleanUnderMount ?b ?s] =>
    destruct (cleanUnderMount b s) as [p|e] eqn:Hc; [|left; by eexists]
  end.

Lemma RemoveProgPin_confined {W} base (Remove : path -> M W unit) s :
  confined Remove (prog_pin_shape base) (RemoveProgPin base Remove s).
Proof.
  unfold RemoveProgPin. confine Hc. case_bool_decide as Hd; cbn [negb]; [|left; by eexists].
  destruct (CutPrefix "prog_" (Base p)) as [suffix|] eqn:Hp; [|left; by eexists].
  destruct (ParseUint suffix 32) as [z|] eqn:Hz; [|left; by eexists].
  right. exists p. split; [|by eapply removePinFile_touches].
  exists suffix. split; [by exists z|]. rewrite (clean_dir_base _ _ _ Hc), Hd.
  by rewrite (CutPrefix_Some _ _ _ Hp).
Qed.

Lemma RemoveMapDir_confined {W} base (RemoveAll : path -> M W unit) s :
  confined RemoveAll (map_dir_shape base) (RemoveMapDir base RemoveAll s).
Proof.
  unfold RemoveMapDir, removeNumericChildDir. confine Hc.
  case_bool_decide as Hd; cbn [negb]; [|left; by eexists].
  destruct (ParseUint (Base p) 32) as [z|] eqn:Hz; [|left; by eexists].
  right. exists p. split; [|by eapply removeDir_touches].
  exists (Base p). split; [by exists z|]. by rewrite <- Hd, <- (clean_dir_base _ _ _ Hc).
Qed.

Lemma RemoveDispatcherProgPin_confined {W} base (Remove : path -> M W unit) s :
  confined Remove (disp_prog_shape base) (RemoveDispatcherProgPin base Remove s).
Proof.
  unfold RemoveDispatcherProgPin. confine Hc.
  destruct (String.eqb_spec (Base p) "dispatcher") as [Hn|]; cbn [negb]; [|left; by eexists].
  destruct (validateDispatcherRevDirPath base (Dir p)) as [[]|e] eqn:Hv; [|left; by eexists].
  right. exists p. split; [|by eapply removePinFile_touches].
  exists (Dir p). split; [by apply validateDispatcherRevDirPath_sound|].
  by rewrite <- Hn, <- (clean_dir_base _ _ _ Hc).
Qed.

Lemma RemoveSharedMapPin_confined {W} base (Remove : path -> M W unit) s :
  confined Remove (shared_pin_shape base) (RemoveSharedMapPin base Remove s).
Proof.
  unfold RemoveSharedMapPin. confine Hc. case_bool_decide as Hd; cbn [negb]; [|left; by eexists].
  right. exists p. split; [|by eapply removePinFile_touches].
  exists (Base p). by rewrite <- Hd, <- (clean_dir_base _ _ _ Hc).
Qed.

Lemma string_rev_acc s : forall acc, string_rev s acc = string_rev s "" +:+ acc.
Proof.
  induction s as [|c s IH]; intros acc; simpl; [done|].
  by rewrite IH, (IH (String c "")), string_app_assoc.
Qed.

Lemma string_rev_app a : forall b acc, string_rev (a +:+ b) acc = string_rev b (string_rev a acc).
Proof. induction a as [|c a IH]; intros b acc; simpl; [done|]. apply IH. Qed.

Lemma string_rev_involutive s : forall acc acc',
  string_rev (string_rev s acc) acc' = string_rev acc (s +:+ acc').
Proof. induction s as [|c s IH]; intros acc acc'; simpl; [done|]. by rewrite IH. Qed.

Lemma CutSuffix_Some p s r : CutSuffix p s = Some r -> s = r +:+ p.
Proof.
  unfold CutSuffix. destruct (CutPrefix _ _) as [t|] eqn:E; [|done]. intros [= <-].
  apply CutPrefix_Some in E. apply (f_equal (fun x => string_rev x "")) in E.
  rewrite string_rev_app, !string_rev_involutive in E. simpl in E.
  rewrite !string_app_nil_r in E. by rewrite E, string_rev_acc.
Qed.

Lemma CutSuffix_app p r : CutSuffix p (r +:+ p) = Some r.
Proof.
  unfold CutSuffix. rewrite string_rev_app, (string_rev_acc p (string_rev r "")), CutPrefix_app.
  rewrite string_rev_involutive. simpl. by rewrite string_app_nil_r.
Qed.

Lemma is_uint_lacks c bits s :
  lacks c "0123456789" = true -> is_uint bits s -> lacks c s = true.
Proof.
  intros Hc [z Hz]. unfold ParseUint in Hz.
  destruct (NilZero.uint_of_string s) as [d|] eqn:E; [|done]. apply NilZero.sus in E as <-.
  unfold NilZero.string_of_uint. destruct d; [|by apply lacks_uint..].
  cbn [lacks] in Hc |- *. rewrite !andb_true_iff in *. tauto.
Qed.

Lemma Split2_join c s a b : Split c s = [a; b] -> s = a +:+ String c b.
Proof.
  intros H. rewrite (Split_join _ _ _ _ H). simpl. by rewrite string_app_nil_r.
Qed.

Lemma RemoveDispatcherLinkPin_confined {W} base (Remove : path -> M W unit) s :
  confined Remove (disp_link_shape base) (RemoveDispatcherLinkPin base Remove s).
Proof.
  unfold RemoveDispatcherLinkPin. confine Hc.
  destruct (isDispatcherTypeDir base (Dir p)) eqn:Hd; cbn [negb]; [|left; by eexists].
  apply typeDir_cases in Hd as (dt & Hdt & Hd).
  destruct (CutPrefix "dispatcher_" (Base p)) as [rest|] eqn:Hp; [|left; by eexists].
  destruct (CutSuffix "_link" (Base p)) as [pre|] eqn:Hs; [|left; by eexists].
  destruct (Split underscore (default rest (CutSuffix "_link" rest))) as [|a [|b [|]]] eqn:Hsp;
    try (left; by eexists). cbn [length Nat.eqb negb all_uint64 forallb].
  destruct (ParseUint a 64) as [x|] eqn:Ha; [|left; by eexists].
  destruct (ParseUint b 64) as [y|] eqn:Hb; [|left; by eexists]. cbn [andb negb].
  right. exists p. split; [|by eapply removePinFile_touches].
  exists dt, a, b. split; [done|]. split; [by exists x|]. split; [by exists y|].
  rewrite (clean_dir_base _ _ _ Hc), Hd. f_equal. f_equal. rewrite (CutPrefix_Some _ _ _ Hp). f_equal.
  destruct (CutSuffix "_link" rest) as [t|] eqn:Ht; cbn [default] in Hsp;
    apply Split2_join in Hsp.
  - rewrite (CutSuffix_Some _ _ _ Ht). cbn [from_option id] in Hsp. by rewrite Hsp, !string_app_assoc.
  - exfalso. cbn [from_option id] in Hsp. apply CutSuffix_Some in Hs. rewrite (CutPrefix_Some _ _ _ Hp), Hsp in Hs.
    apply (f_equal (lacks "k"%char)) in Hs. rewrite !lacks_app in Hs. cbn [lacks] in Hs.
    rewrite (is_uint_lacks "k" 64 a), (is_uint_lacks "k" 64 b) in Hs; [|done|by exists y|done|by exists x].
    by rewrite andb_false_r in Hs.
Qed.

(** [m] performs [touch p] and succeeds when it does. *)
Definition performs {W} (touch : path -> M W unit) (p : path) (m : M W unit) : Prop :=
  forall w, snd (m w) = snd (touch p w) /\ (fst (touch p w) = Ok tt -> fst (m w) = Ok tt).

Lemma removePinFile_performs {W} base (Remove : path -> M W unit) p :
  cleanUnderMount base (String_ p) = Ok p -> performs Remove p (removePinFile base Remove p).
Proof.
  intros Hc w. unfold removePinFile, bind, lift. rewrite Hc.
  destruct (Remove p w) as [[[]|e] w']; [done|]. by destruct (errors_Is e ErrNotExist).
Qed.

Lemma removeDir_performs {W} base (RemoveAll : path -> M W unit) p :
  cleanUnderMount base (String_ p) = Ok p -> performs RemoveAll p (removeDir base RemoveAll p).
Proof.
  intros Hc w. unfold removeDir, bind, lift. rewrite Hc.
  destruct (RemoveAll p w) as [[[]|e] w']; [done|]. by destruct (errors_Is e ErrNotExist).
Qed.

Lemma plain_numbered pre n :
  lacks slash pre = true -> pre <> "" -> lacks "." pre = true -> plain (pre +:+ FormatUint n) = true.
Proof.
  intros Hs Hne Hd. unfold plain. rewrite lacks_app, Hs, lacks_FormatUint by done.
  destruct pre as [|c pre]; [done|]. cbn [lacks] in Hd. apply andb_true_iff in Hd as [Hc _].
  cbn [String.append String.eqb]. apply negb_true_iff in Hc. by rewrite Hc.
Qed.

Lemma plain_FormatUint n : plain (FormatUint n) = true.
Proof.
  unfold plain. rewrite lacks_FormatUint by done.
  pose proof (lacks_FormatUint "." n eq_refl) as Hd.
  destruct (FormatUint n) as [|c t] eqn:E.
  - exfalso. unfold FormatUint in E. pose proof (to_uint_nonnil (Z.to_N n)).
    destruct (N.to_uint (Z.to_N n)); done.
  - cbn [lacks] in Hd. apply andb_true_iff in Hd as [Hc _]. apply negb_true_iff in Hc.
    cbn [String.eqb]. by rewrite Hc.
Qed.

Lemma Dir_snoc (p : path) x : Dir (p ++ [x]) = p.
Proof. apply List.removelast_last. Qed.

Lemma Base_snoc (p : path) x : Base (p ++ [x]) = x.
Proof. apply List.last_last. Qed.

(** [base] is a clean absolute path; the numbers fit their Go types. *)
Definition layout_ok (base : path) (dt : DispatcherType) (n i r : Z) : Prop :=
  forallb plain base = true /\ dt <> DispatcherTypeZero /\
  0 <= n < 2 ^ 64 /\ 0 <= i < 2 ^ 64 /\ 0 <= r < 2 ^ 64.

Lemma clean_revdir base dt n i r k :
  layout_ok base dt n i r -> forallb plain k = true ->
  cleanUnderMount base (String_ (DispatcherRevisionDir base dt n i r ++ k))
  = Ok (DispatcherRevisionDir base dt n i r ++ k).
Proof.
  intros (Hb & Hdt & Hn & Hi & Hr) Hk. unfold DispatcherRevisionDir, dispatcherTypeDir.
  rewrite <- !app_assoc. apply cleanUnderMount_layout; [done| |done].
  rewrite app_assoc, forallb_app, Hk, andb_true_r. by apply plain_revdir; lia || done.
Qed.

Lemma clean_link base dt n i :
  forallb plain base = true -> dt <> DispatcherTypeZero -> 0 <= n -> 0 <= i ->
  cleanUnderMount base (String_ (DispatcherLinkPath base dt n i)) = Ok (DispatcherLinkPath base dt n i).
Proof.
  intros Hb Hdt Hn Hi. unfold DispatcherLinkPath, dispatcherTypeDir.
  rewrite <- !app_assoc. apply cleanUnderMount_layout; [done| |done].
  rewrite !Sprint_d_nonneg by done. cbn [forallb app].
  apply andb_true_iff. split; [by destruct dt|]. rewrite andb_true_r.
  unfold plain. by rewrite !lacks_app, !lacks_FormatUint.
Qed.

Lemma ProgPinPath_accepted {W} base (Remove : path -> M W unit) id :
  forallb plain base = true -> 0 <= id < 2 ^ 32 ->
  performs Remove (ProgPinPath base id) (RemoveProgPin base Remove (String_ (ProgPinPath base id))).
Proof.
  intros Hb Hid. assert (Hc : cleanUnderMount base (String_ (ProgPinPath base id)) = Ok (ProgPinPath base id)).
  { apply cleanUnderMount_layout; [done| |done]. cbn [forallb]. by rewrite plain_numbered. }
  intros w. unfold RemoveProgPin, bind, lift. rewrite Hc. unfold ProgPinPath in *.
  rewrite Dir_snoc, Base_snoc, bool_decide_eq_true_2 by done. cbn [negb].
  rewrite CutPrefix_app, ParseUint_FormatUint by done. by apply removePinFile_performs.
Qed.

Lemma MapPinDir_accepted {W} base (RemoveAll : path -> M W unit) id :
  forallb plain base = true -> 0 <= id < 2 ^ 32 ->
  performs RemoveAll (MapPinDir base id) (RemoveMapDir base RemoveAll (String_ (MapPinDir base id))).
Proof.
  intros Hb Hid. assert (Hc : cleanUnderMount base (String_ (MapPinDir base id)) = Ok (MapPinDir base id)).
  { unfold MapPinDir, Maps. rewrite <- app_assoc. change (["fs"; "maps"] ++ [FormatUint id])
      with (["fs"] ++ ["maps"; FormatUint id]). rewrite app_assoc.
    apply cleanUnderMount_layout; [done| |done]. cbn [forallb]. by rewrite plain_FormatUint. }
  intros w. unfold RemoveMapDir, removeNumericChildDir, bind, lift. rewrite Hc.
  unfold MapPinDir in *.
  rewrite Dir_snoc, Base_snoc, bool_decide_eq_true_2 by done. cbn [negb].
  rewrite ParseUint_FormatUint by done. by apply removeDir_performs.
Qed.

Lemma DispatcherProgPath_accepted {W} base (Remove : path -> M W unit) dt n i r :
  layout_ok base dt n i r ->
  performs Remove (DispatcherProgPath base dt n i r)
    (RemoveDispatcherProgPin base Remove (String_ (DispatcherProgPath base dt n i r))).
Proof.
  intros Hl w. pose proof (clean_revdir _ _ _ _ _ ["dispatcher"] Hl eq_refl) as Hc.
  unfold RemoveDispatcherProgPin, bind, lift, DispatcherProgPath in *. rewrite Hc.
  rewrite Dir_snoc, Base_snoc. cbn [String.eqb negb].
  destruct Hl as (_ & Hdt & Hn & Hi & Hr). rewrite validateDispatcherRevDirPath_layout by done.
  by apply removePinFile_performs.
Qed.

Lemma DispatcherLinkPath_accepted {W} base (Remove : path -> M W unit) dt n i r :
  layout_ok base dt n i r ->
  performs Remove (DispatcherLinkPath base dt n i)
    (RemoveDispatcherLinkPin base Remove (String_ (DispatcherLinkPath base dt n i))).
Proof.
  intros (Hb & Hdt & Hn & Hi & _) w. pose proof (clean_link base dt n i Hb Hdt ltac:(lia) ltac:(lia)) as Hc.
  unfold RemoveDispatcherLinkPin, bind, lift, DispatcherLinkPath in *. rewrite Hc.
  rewrite Dir_snoc, !Base_snoc, isDispatcherTypeDir_ok by done. cbn [negb].
  assert (Hassoc : Sprint_d n +:+ "_" +:+ Sprint_d i +:+ "_link" = (Sprint_d n +:+ "_" +:+ Sprint_d i) +:+ "_link")
    by (by rewrite !string_app_assoc).
  assert (Hs : exists pre, CutSuffix "_link" ("dispatcher_" +:+ Sprint_d n +:+ "_" +:+ Sprint_d i +:+ "_link") = Some pre)
    by (rewrite Hassoc, <- string_app_assoc, CutSuffix_app; eauto).
  destruct Hs as [pre ->]. rewrite CutPrefix_app.
  assert (Ht : CutSuffix "_link" (Sprint_d n +:+ "_" +:+ Sprint_d i +:+ "_link") = Some (Sprint_d n +:+ "_" +:+ Sprint_d i))
    by (by rewrite Hassoc, CutSuffix_app).
  rewrite Ht. cbn [default from_option id].
  assert (Hsp : Split underscore (Sprint_d n +:+ "_" +:+ Sprint_d i) = [FormatUint n; FormatUint i]).
  { rewrite !Sprint_d_nonneg by lia. cbn [String.append].
    by rewrite Split_app, Split_lacks by (by apply lacks_FormatUint). }
  rewrite Hsp. cbn [length Nat.eqb negb all_uint64 forallb]. rewrite !ParseUint_FormatUint by done.
  cbn [andb negb]. by apply removePinFile_performs.
Qed.

(** ** Properties *)

(** No deletion of the bpffs layer can remove anything outside the layout.
    Whatever string each of the six typed deletions is given, with dot-dot
    segments or not, it either fails with the file system untouched or removes
    exactly one path of its own family: a numbered program pin, a numbered map
    directory, a dispatcher revision directory, the dispatcher pin inside one,
    an outer-link pin, a shared-map pin. *)
Theorem deletions_confined {W} (base : path) (Remove RemoveAll : path -> M W unit) (s : string) :
  confined Remove (prog_pin_shape base) (RemoveProgPin base Remove s) /\
  confined RemoveAll (map_dir_shape base) (RemoveMapDir base RemoveAll s) /\
  confined RemoveAll (rev_dir_shape base) (RemoveDispatcherRevDir base RemoveAll s) /\
  confined Remove (disp_prog_shape base) (RemoveDispatcherProgPin base Remove s) /\
  confined Remove (disp_link_shape base) (RemoveDispatcherLinkPin base Remove s) /\
  confined Remove (shared_pin_shape base) (RemoveSharedMapPin base Remove s).
Proof.
  split; [apply RemoveProgPin_confined|]. split; [apply RemoveMapDir_confined|].
  split; [intros w; apply RemoveDispatcherRevDir_confined|].
  split; [apply RemoveDispatcherProgPin_confined|].
  split; [apply RemoveDispatcherLinkPin_confined|apply RemoveSharedMapPin_confined].
Qed.

(** The guards of the deletion layer never get in the way of the manager:
    every path the layout itself builds for a program, its maps or a
    dispatcher passes the validation of its own deletion, which then performs
    the file-system call and succeeds when that call does. *)
Theorem layout_paths_deletable {W} (base : path) (Remove RemoveAll : path -> M W unit)
    (dt : DispatcherType) (n i r id : Z) :
  layout_ok base dt n i r -> 0 <= id < 2 ^ 32 ->
  performs Remove (ProgPinPath base id) (RemoveProgPin base Remove (String_ (ProgPinPath base id))) /\
  performs RemoveAll (MapPinDir base id) (RemoveMapDir base RemoveAll (String_ (MapPinDir base id))) /\
  performs RemoveAll (DispatcherRevisionDir base dt n i r)
    (RemoveDispatcherRevDir base RemoveAll (String_ (DispatcherRevisionDir base dt n i r))) /\
  performs Remove (DispatcherProgPath base dt n i r)
    (RemoveDispatcherProgPin base Remove (String_ (DispatcherProgPath base dt n i r))) /\
  performs Remove (DispatcherLinkPath base dt n i)
    (RemoveDispatcherLinkPin base Remove (String_ (DispatcherLinkPath base dt n i))).
Proof.
  intros Hl Hid. pose proof Hl as (Hb & Hdt & Hn & Hi & Hr).
  split; [by apply ProgPinPath_accepted|]. split; [by apply MapPinDir_accepted|].
  split; [|split; [by apply DispatcherProgPath_accepted|by eapply DispatcherLinkPath_accepted]].
  intros w. destruct (RemoveDispatcherRevDir_layout base RemoveAll dt n i r w) as (res & -> & Hres & _);
    done.
Qed.

Definition run_bpfman : path := ["run"; "bpfman"].

Lemma layout_paths_deletable_witness :
  let rm : path -> M (list path) unit := fun p w => (Ok tt, p :: w) in
  RemoveDispatcherRevDir run_bpfman rm "/run/bpfman/fs/xdp/dispatcher_4026531840_2_7" []
    = (Ok tt, [["run"; "bpfman"; "fs"; "xdp"; "dispatcher_4026531840_2_7"]]) /\
  performs rm (DispatcherLinkPath run_bpfman DispatcherTypeXDP 4026531840 2)
    (RemoveDispatcherLinkPin run_bpfman rm
       (String_ (DispatcherLinkPath run_bpfman DispatcherTypeXDP 4026531840 2))).
Proof.
  intros rm. split; [reflexivity|].
  apply (layout_paths_deletable run_bpfman rm rm DispatcherTypeXDP 4026531840 2 7 3); [|lia].
  repeat split; discriminate || reflexivity || lia.
Defined.

(** The layout never gives two objects the same bpffs path. Revision
    directories are injective in type, namespace, interface and revision and
    never nest, outer-link pins are injective in type, namespace and interface
    and lie below no revision directory, and inside a revision the dispatcher
    pin and the extension links of different positions are different files. *)
Theorem layout_paths_distinct (base : path) dt n i r dt' n' i' r' p p' :
  0 <= n -> 0 <= i -> 0 <= r -> 0 <= n' -> 0 <= i' -> 0 <= r' -> 0 <= p -> 0 <= p' ->
  (forall k, DispatcherRevisionDir base dt n i r `prefix_of` DispatcherRevisionDir base dt' n' i' r' ++ k ->
     (dt, n, i, r) = (dt', n', i', r')) /\
  (DispatcherLinkPath base dt n i = DispatcherLinkPath base dt' n' i' -> (dt, n, i) = (dt', n', i')) /\
  ~ DispatcherRevisionDir base dt n i r `prefix_of` DispatcherLinkPath base dt' n' i' /\
  (ExtensionLinkPath base dt n i r p = ExtensionLinkPath base dt' n' i' r' p' ->
     (dt, n, i, r, p) = (dt', n', i', r', p')) /\
  ExtensionLinkPath base dt n i r p <> DispatcherProgPath base dt n i r.
Proof.
  intros. assert (Hrev : forall k, DispatcherRevisionDir base dt n i r
      `prefix_of` DispatcherRevisionDir base dt' n' i' r' ++ k -> (dt, n, i, r) = (dt', n', i', r')).
  { intros k Hk. by apply revdir_prefix in Hk as (-> & -> & -> & ->). }
  split; [done|]. split; [|split; [by apply link_not_in_any_revdir|split; [|apply ext_neq_prog]]].
  - intros H'. by apply DispatcherLinkPath_inj in H' as (-> & -> & ->).
  - intros He. pose proof (ext_path_in_revdir base dt n i r p) as Hpre. rewrite He in Hpre.
    apply Hrev in Hpre. simplify_eq. by apply ext_path_inj in He as ->.
Qed.

Lemma layout_paths_distinct_witness :
  ~ DispatcherRevisionDir run_bpfman DispatcherTypeXDP 1 2 3
      `prefix_of` DispatcherLinkPath run_bpfman DispatcherTypeXDP 1 2.
Proof.
  apply (layout_paths_distinct run_bpfman DispatcherTypeXDP 1 2 3 DispatcherTypeXDP 1 2 3 0 0); lia.
Defined.
