(* ===== verification/Operation.v ===== *)
(** * The plan interpreter (manager/operation/types.go, node.go, run.go)

    A plan is an ordered list of Produce, Do and Try nodes. The interpreter is
    generic in the world [W] the closures act on, in the dynamic values [V]
    stored in the bindings (Go's [any]) and in the action type [Act] of the
    undo lists, whose executor is the [Execute] field of the [Executor] class
    (manager/action/executor.go). A Go panic is the outcome [Panic]: it
    unwinds through [Run] without rollback. *)

From Stdlib Require Import ZArith Lia String.
From stdpp Require Import base tactics sets list gmap strings.
From S2P Require Import Prelude.

Inductive outcome (A : Type) :=
| Ret (r : result A)
| Panic.
Arguments Ret {A} r.
Arguments Panic {A}.

(** [action.Executor]: one interpreter for the instruction set. *)
Class Executor (W V Act : Type) := {
  ExecuteResult : Act -> M W (option V);
}.

Definition Execute {W V Act} `{!Executor W V Act} (a : Act) : M W unit :=
  fun w => let '(r, w') := ExecuteResult a w in
           (match r with Ok _ => Ok tt | Err e => Err e end, w').

(** A Go type [T] stored in an [any]. *)
Class Dynamic (V T : Type) := {
  to_any : T -> V;
  of_any : V -> option T;
  of_to_any : forall t, of_any (to_any t) = Some t;
  zero_value : T;
}.

(** [action.Produce]: a nil result is the zero value of [T]. *)
Definition action_Produce {W V Act} `{!Executor W V Act} (T : Type) `{!Dynamic V T}
    (a : Act) : M W T :=
  fun w => match ExecuteResult a w with
           | (Err e, w') => (Err e, w')
           | (Ok None, w') => (Ok zero_value, w')
           | (Ok (Some v), w') =>
               match of_any v with
               | Some t => (Ok t, w')
               | None => (Err (Errorf "action %T produced %T, want %T"), w')
               end
           end.

(** ** Keys and bindings (types.go) *)

Record Key (T : Type) := mkKey { key_name : string }.
Arguments mkKey {T} _.
Arguments key_name {T} _.

(** [NewKey]: the registry maps a name to the type it was registered with;
    [None] is the panic on a type-confused re-registration. *)
Definition NewKey {Ty} `{EqDecision Ty} (T : Type) (t : Ty) (name : string)
    (registry : gmap string Ty) : option (Key T * gmap string Ty) :=
  match registry !! name with
  | Some existing =>
      if decide (existing = t) then Some (mkKey name, registry) else None
  | None => Some (mkKey name, <[name := t]> registry)
  end.

Definition Get {V T} `{!Dynamic V T} (b : gmap string V) (key : Key T) : option T :=
  match b !! key_name key with
  | Some v => of_any v
  | None => None
  end.

(** ** Nodes and plans (node.go) *)

Section Plans.
Context {W V Act : Type}.

Inductive node :=
| NProduce (bindKey : string) (produceFn : gmap string V -> W -> outcome V * W)
    (undoFn : option (gmap string V -> list Act))
| NDo (label : string) (execFn : gmap string V -> W -> outcome unit * W)
    (undoFn : option (gmap string V -> list Act))
| NTry (label : string) (execFn : gmap string V -> W -> outcome unit * W).

Definition Produce {T} `{!Dynamic V T} (key : Key T)
    (fn : gmap string V -> W -> outcome T * W)
    (undo : option (gmap string V -> list Act)) : node :=
  NProduce (key_name key)
    (fun b w => match fn b w with
                | (Ret (Ok t), w') => (Ret (Ok (to_any t)), w')
                | (Ret (Err e), w') => (Ret (Err e), w')
                | (Panic, w') => (Panic, w')
                end) undo.

Definition Do (label : string) := NDo label.
Definition Try (label : string) := NTry label.

Definition produce_keys (nodes : list node) : list string :=
  omap (fun n => match n with NProduce k _ _ => Some k | _ => None end) nodes.

(** [Build]'s duplicate check; [None] is its panic. *)
Fixpoint build_check (seen : gset string) (nodes : list node) : bool :=
  match nodes with
  | [] => true
  | NProduce k _ _ :: nodes' =>
      if decide (k ∈ seen) then false else build_check ({[k]} ∪ seen) nodes'
  | _ :: nodes' => build_check seen nodes'
  end.

Definition Build (nodes : list node) : option (list node) :=
  if build_check ∅ nodes then Some nodes else None.

(** ** Execution (run.go) *)

Definition appendUndos (undos : list (list Act)) (undoFn : option (gmap string V -> list Act))
    (bindings : gmap string V) : list (list Act) :=
  match undoFn with
  | Some f => match f bindings with
              | [] => undos
              | actions => undos ++ [actions]
              end
  | None => undos
  end.

Record istate := mkI { i_bindings : gmap string V; i_undos : list (list Act) }.

(** The body of [interpret]'s loop for one node. *)
Definition interpret_node (n : node) (s : istate) (w : W) : outcome istate * W :=
  let '(mkI b undos) := s in
  match n with
  | NDo _ f undo =>
      match f b w with
      | (Ret (Ok _), w') => (Ret (Ok (mkI b (appendUndos undos undo b))), w')
      | (Ret (Err e), w') => (Ret (Err e), w')
      | (Panic, w') => (Panic, w')
      end
  | NProduce k f undo =>
      match f b w with
      | (Ret (Ok v), w') =>
          let b' := <[k := v]> b in (Ret (Ok (mkI b' (appendUndos undos undo b'))), w')
      | (Ret (Err e), w') => (Ret (Err e), w')
      | (Panic, w') => (Panic, w')
      end
  | NTry _ f =>
      match f b w with
      | (Ret _, w') => (Ret (Ok s), w')
      | (Panic, w') => (Panic, w')
      end
  end.

(** [interpret]: the undo groups accumulated so far, in forward order, with
    the bindings or the first error. *)
Fixpoint interpret (nodes : list node) (s : istate) (w : W)
    : outcome (gmap string V) * list (list Act) * W :=
  match nodes with
  | [] => (Ret (Ok (i_bindings s)), i_undos s, w)
  | n :: nodes' =>
      match interpret_node n s w with
      | (Ret (Ok s'), w') => interpret nodes' s' w'
      | (Ret (Err e), w') => (Ret (Err e), i_undos s, w')
      | (Panic, w') => (Panic, i_undos s, w')
      end
  end.

Context `{!Executor W V Act}.

Definition run_actions (acts : list Act) (w : W) : W :=
  foldl (fun w a => snd (Execute a w)) w acts.

Fixpoint rollback_rev (groups : list (list Act)) (w : W) : W :=
  match groups with
  | [] => w
  | g :: gs => rollback_rev gs (run_actions g w)
  end.

(** Groups last to first, the actions of a group first to last, failures
    ignored. *)
Definition executeRollback (undos : list (list Act)) (w : W) : W :=
  rollback_rev (rev undos) w.

Definition Run (plan : list node) (w : W) : outcome (gmap string V) * W :=
  match interpret plan (mkI ∅ []) w with
  | (Ret (Ok b), _, w') => (Ret (Ok b), w')
  | (Ret (Err e), undos, w') => (Ret (Err e), executeRollback undos w')
  | (Panic, _, w') => (Panic, w')
  end.

Definition Run0 (plan : list node) (w : W) : outcome unit * W :=
  match Run plan w with
  | (Ret (Ok _), w') => (Ret (Ok tt), w')
  | (Ret (Err e), w') => (Ret (Err e), w')
  | (Panic, w') => (Panic, w')
  end.
End Plans.
Arguments node : clear implicits.
Arguments istate : clear implicits.

(** ** Plan construction *)

Section PlanFacts.
Context {W V Act : Type} `{!Executor W V Act}.
Implicit Types (n : node W V Act) (nodes : list (node W V Act)) (s : istate V Act) (w : W).

Lemma build_check_spec nodes : forall seen,
  build_check seen nodes = true <->
  NoDup (produce_keys nodes) /\ (forall k, k ∈ produce_keys nodes -> k ∉ seen).
Proof.
  induction nodes as [|n nodes IH]; intros seen; simpl.
  { split; [|done]. intros _. split; [constructor|set_solver]. }
  destruct n as [k f u|l f u|l f]; simpl; [|apply IH..].
  case_decide as Hk.
  - split; [done|]. intros [_ Hn]. exfalso. apply (Hn k); [left|done].
  - rewrite IH, NoDup_cons. set_solver.
Qed.

(** ** What a plan has run, as a relation

    Written over the nodes' own closures, without the interpreter: [completed]
    is a node that ran to its end, with the actions its undo closure gives on
    the bindings after it; [completes] a whole prefix, with one group of undo
    actions per node, in the order the nodes ran. *)
Definition undo_actions (undoFn : option (gmap string V -> list Act)) (b : gmap string V) : list Act :=
  match undoFn with Some f => f b | None => [] end.

Inductive completed : node W V Act -> gmap string V -> W -> list Act -> gmap string V -> W -> Prop :=
| completed_produce k f u b w v w' :
    f b w = (Ret (Ok v), w') ->
    completed (NProduce k f u) b w (undo_actions u (<[k := v]> b)) (<[k := v]> b) w'
| completed_do l f u b w x w' :
    f b w = (Ret (Ok x), w') -> completed (NDo l f u) b w (undo_actions u b) b w'
| completed_try l f b w r w' :
    f b w = (Ret r, w') -> completed (NTry l f) b w [] b w'.

(** A node that ended the plan: a closure's error, unless tried, or its panic. *)
Inductive ended : node W V Act -> gmap string V -> W -> option error -> W -> Prop :=
| failed_produce k f u b w e w' : f b w = (Ret (Err e), w') -> ended (NProduce k f u) b w (Some e) w'
| failed_do l f u b w e w' : f b w = (Ret (Err e), w') -> ended (NDo l f u) b w (Some e) w'
| panicked_produce k f u b w w' : f b w = (Panic, w') -> ended (NProduce k f u) b w None w'
| panicked_do l f u b w w' : f b w = (Panic, w') -> ended (NDo l f u) b w None w'
| panicked_try l f b w w' : f b w = (Panic, w') -> ended (NTry l f) b w None w'.

Inductive completes : list (node W V Act) -> gmap string V -> W -> list (list Act) -> gmap string V -> W -> Prop :=
| completes_nil b w : completes [] b w [] b w
| completes_cons n nodes b w g b1 w1 gs b2 w2 :
    completed n b w g b1 w1 -> completes nodes b1 w1 gs b2 w2 ->
    completes (n :: nodes) b w (g :: gs) b2 w2.

(** The interpreter keeps the groups that hold an action. *)
Definition nonempty (gs : list (list Act)) : list (list Act) := filter (fun g => g <> []) gs.

Lemma appendUndos_actions us u b : appendUndos us u b = us ++ nonempty [undo_actions u b].
Proof.
  unfold appendUndos, undo_actions. destruct u as [f|]; [|by rewrite app_nil_r].
  destruct (f b); [by rewrite app_nil_r|done].
Qed.

Lemma nonempty_cons us g gs : (us ++ nonempty [g]) ++ nonempty gs = us ++ nonempty (g :: gs).
Proof. rewrite <- app_assoc. f_equal. unfold nonempty. by rewrite <- filter_app. Qed.

Lemma interpret_node_cases n b us w :
  match interpret_node n (mkI b us) w with
  | (Ret (Ok s'), w') => exists g, completed n b w g (i_bindings s') w' /\ i_undos s' = us ++ nonempty [g]
  | (Ret (Err e), w') => ended n b w (Some e) w'
  | (Panic, w') => ended n b w None w'
  end.
Proof.
  destruct n as [k f u|l f u|l f]; simpl; destruct (f b w) as [[[v|e]|] w'] eqn:E; simpl;
    rewrite ?appendUndos_actions; try (by constructor); eexists;
    (split; [by econstructor|]); rewrite ?app_nil_r; done.
Qed.

Lemma interpret_cases nodes : forall b us w,
  match interpret nodes (mkI b us) w with
  | (Ret (Ok b'), us', w') => exists gs, completes nodes b w gs b' w' /\ us' = us ++ nonempty gs
  | (Ret (Err e), us', w') => exists pre n post gs b1 w1,
      nodes = pre ++ n :: post /\ completes pre b w gs b1 w1 /\ ended n b1 w1 (Some e) w' /\ us' = us ++ nonempty gs
  | (Panic, us', w') => exists pre n post gs b1 w1,
      nodes = pre ++ n :: post /\ completes pre b w gs b1 w1 /\ ended n b1 w1 None w' /\ us' = us ++ nonempty gs
  end.
Proof.
  induction nodes as [|n nodes IH]; intros b us w; cbn [interpret].
  { exists []. split; [constructor|]. by rewrite app_nil_r. }
  pose proof (interpret_node_cases n b us w) as Hn.
  destruct (interpret_node n (mkI b us) w) as [[[[b1 us1]|e]|] w1]; cbn [i_undos i_bindings] in *.
  - destruct Hn as (g & Hg & ->). specialize (IH b1 (us ++ nonempty [g]) w1).
    destruct (interpret nodes _ w1) as [[[[b'|e]|] us'] w'].
    + destruct IH as (gs & Hgs & ->). exists (g :: gs). split; [by econstructor|apply nonempty_cons].
    + destruct IH as (pre & m & post & gs & b2 & w2 & -> & Hgs & He & ->).
      exists (n :: pre), m, post, (g :: gs), b2, w2. split_and!; [done|by econstructor|done|apply nonempty_cons].
    + destruct IH as (pre & m & post & gs & b2 & w2 & -> & Hgs & He & ->).
      exists (n :: pre), m, post, (g :: gs), b2, w2. split_and!; [done|by econstructor|done|apply nonempty_cons].
  - exists [], n, nodes, [], b, w. split_and!; [done|constructor|done|by rewrite app_nil_r].
  - exists [], n, nodes, [], b, w. split_and!; [done|constructor|done|by rewrite app_nil_r].
Qed.

(** Rolling back runs the kept groups from the last to the first, each in its
    own order: one pass over their actions. *)
Lemma executeRollback_actions gs w :
  executeRollback (nonempty gs) w = foldl (fun w a => snd (Execute a w)) w (concat (reverse gs)).
Proof.
  revert w. induction gs as [|g gs IH] using rev_ind; intros w; [done|].
  unfold nonempty. rewrite filter_app, reverse_snoc. cbn [concat]. rewrite foldl_app, <- IH.
  unfold executeRollback. rewrite rev_app_distr. by destruct g.
Qed.

Lemma executeRollback_snoc us g w :
  executeRollback (us ++ [g]) w = executeRollback us (run_actions g w).
Proof. unfold executeRollback. by rewrite rev_app_distr. Qed.

(** The undo group a node contributed. *)
Definition new_group (s s' : istate V Act) : list Act :=
  concat (drop (length (i_undos s)) (i_undos s')).

Lemma interpret_node_undos n s w s' w' :
  interpret_node n s w = (Ret (Ok s'), w') ->
  i_undos s' = i_undos s /\ new_group s s' = [] \/
  i_undos s' = i_undos s ++ [new_group s s'].
Proof.
  unfold new_group. destruct s as [b us], n as [k f u|l f u|l f]; simpl;
    destruct (f b w) as [[[v|e]|] w1]; intros; simplify_eq; simpl;
    try (by left; rewrite drop_all); unfold appendUndos;
    destruct u as [g|]; try (by left; rewrite drop_all);
    destruct (g _) eqn:Hg; try (by left; rewrite drop_all);
    right; rewrite drop_app_length; simpl; by rewrite app_nil_r.
Qed.
End PlanFacts.

(** ** Rollback restores the world

    [R] is the observation the caller cares about, an equivalence coarser
    than equality of worlds. [reversible_run] says, along the execution the
    plan takes from [w], that a completed node's undo group takes every world
    equivalent to the one it left back to one equivalent to the one it
    started from, and that a failing node changes nothing observable. *)
Section Atomicity.
Context {W V Act : Type} `{!Executor W V Act}.
Context (R : relation W) `{!Equivalence R}.

Fixpoint reversible_run (nodes : list (node W V Act)) (s : istate V Act) (w : W) : Prop :=
  match nodes with
  | [] => True
  | n :: nodes' =>
      match interpret_node n s w with
      | (Ret (Ok s'), w') =>
          (forall u, R w' u -> R w (run_actions (new_group s s') u)) /\
          reversible_run nodes' s' w'
      | (Ret (Err _), w') => R w w'
      | (Panic, _) => True
      end
  end.

Lemma interpret_reversible nodes : forall s w w0 e us w',
  reversible_run nodes s w ->
  (forall u, R w u -> R w0 (executeRollback (i_undos s) u)) ->
  interpret nodes s w = (Ret (Err e), us, w') ->
  R w0 (executeRollback us w').
Proof.
  induction nodes as [|n nodes IH]; intros s w w0 e us w'; simpl; [done|].
  destruct (interpret_node n s w) as [[[s1|e1]|] w1] eqn:E; [|intros; simplify_eq; auto|done].
  intros [Hg Hrev] H0 Hi. eapply IH; [exact Hrev| |exact Hi].
  intros u Hu. specialize (Hg u Hu).
  destruct (interpret_node_undos _ _ _ _ _ E) as [[-> Hnil]| ->].
  - rewrite Hnil in Hg. by apply H0.
  - rewrite executeRollback_snoc. by apply H0.
Qed.

(** Pointwise form: undo actions respect [R] and each node is inverted by
    its own undo group. *)
Context (Hexec : forall a, Proper (R ==> R) (fun w => snd (Execute a w))).

#[local] Instance run_actions_proper acts : Proper (R ==> R) (run_actions acts).
Proof.
  unfold run_actions. induction acts as [|a acts IH]; intros w w' Hw; simpl; [done|].
  apply IH. by apply Hexec.
Qed.

Definition node_reversible (n : node W V Act) : Prop :=
  forall s w, match interpret_node n s w with
              | (Ret (Ok s'), w') => R w (run_actions (new_group s s') w')
              | (Ret (Err _), w') => R w w'
              | (Panic, _) => True
              end.

Lemma nodes_reversible_run nodes :
  Forall node_reversible nodes -> forall s w, reversible_run nodes s w.
Proof.
  induction 1 as [|n nodes Hn _ IH]; intros s w; simpl; [done|].
  specialize (Hn s w). destruct (interpret_node n s w) as [[[s1|e1]|] w1]; [|done..].
  split; [|apply IH]. intros u Hu. rewrite Hn. by apply run_actions_proper.
Qed.
End Atomicity.

(** ** Scoping: a plan whose closures only read keys produced before them *)
Section Scoping.
Context {W V Act : Type} `{!Executor W V Act}.

Definition closure_total {A} (scope : gset string) (f : gmap string V -> W -> outcome A * W) : Prop :=
  forall b w, scope ⊆ dom b -> fst (f b w) <> Panic.

Fixpoint scoped (scope : gset string) (nodes : list (node W V Act)) : Prop :=
  match nodes with
  | [] => True
  | NProduce k f _ :: nodes' => closure_total scope f /\ scoped ({[k]} ∪ scope) nodes'
  | NDo _ f _ :: nodes' | NTry _ f :: nodes' => closure_total scope f /\ scoped scope nodes'
  end.

Lemma interpret_scoped nodes : forall scope s w,
  scoped scope nodes -> scope ⊆ dom (i_bindings s) ->
  (fst (fst (interpret nodes s w)) <> Panic) /\
  (forall b us w', interpret nodes s w = (Ret (Ok b), us, w') ->
     dom b = list_to_set (produce_keys nodes) ∪ dom (i_bindings s)).
Proof.
  induction nodes as [|n nodes IH]; intros scope [b us] w Hsc Hdom; simpl in *.
  { split; [done|]. intros; simplify_eq. set_solver. }
  destruct n as [k f u|l f u|l f]; destruct Hsc as [Hf Hsc]; specialize (Hf b w Hdom);
    destruct (f b w) as [[[v|e]|] w1]; simpl in *; try done.
  - destruct (IH _ (mkI (<[k:=v]> b) (appendUndos us u (<[k:=v]> b))) w1 Hsc) as [H1 H2].
    { simpl. rewrite dom_insert_L. set_solver. }
    split; [done|]. intros b' us' w' Hb'. rewrite (H2 _ _ _ Hb'). simpl.
    rewrite dom_insert_L. set_solver.
  - apply (IH _ (mkI b _) w1 Hsc). done.
  - apply (IH _ (mkI b _) w1 Hsc). done.
  - apply (IH _ (mkI b _) w1 Hsc). done.
Qed.
End Scoping.

(** ** Properties of [Run] *)

Section RunProperties.
Context {W V Act : Type} `{!Executor W V Act}.
Implicit Types (plan : list (node W V Act)) (w : W).

(** C24: a failed reversible plan is undone. A plan is reversible from [w] for
    an observation [R] of the world when, along its run, each completed node is
    inverted by its own undo group and a failing node changes nothing [R] sees.
    Then a [Run] that returns an error leaves a world equivalent to the one it
    started from, however many nodes had completed. *)
Theorem Run_failure_restores (R : relation W) plan w e w' :
  reversible_run R plan (mkI ∅ []) w -> Run plan w = (Ret (Err e), w') -> R w w'.
Proof.
  intros Hrev. unfold Run. destruct (interpret plan (mkI ∅ []) w) as [[[[b|e1]|] us] w1] eqn:E; try done.
  intros ?; simplify_eq. by eapply interpret_reversible; [exact Hrev|intros u Hu; exact Hu|exact E].
Qed.

(** C25: what [Run] executed when it returns. Success means that every node
    completed, in order, and that no undo action ran. An error is the error of
    the first fatal node, never of a [Try] node: the nodes before it completed,
    none after it started, and from what the failing node left the undo actions
    of the completed nodes ran, the last node's first, each node's in the order
    its closure lists them, whether or not one of them fails. A panicking
    closure unwinds [Run] with nothing undone. *)
Theorem Run_outcome plan w r w' :
  Run plan w = (r, w') ->
  match r with
  | Ret (Ok b) => exists groups, completes plan ∅ w groups b w'
  | Ret (Err e) => exists pre n post groups b1 w1 w2,
      plan = pre ++ n :: post /\ completes pre ∅ w groups b1 w1 /\ ended n b1 w1 (Some e) w2 /\
      w' = foldl (fun w a => snd (Execute a w)) w2 (concat (reverse groups))
  | Panic => exists pre n post groups b1 w1,
      plan = pre ++ n :: post /\ completes pre ∅ w groups b1 w1 /\ ended n b1 w1 None w'
  end.
Proof.
  unfold Run. pose proof (interpret_cases plan ∅ [] w) as Hi.
  destruct (interpret plan (mkI ∅ []) w) as [[[[b|e]|] us] w1]; intros [= <- <-].
  - destruct Hi as (gs & Hgs & _). by exists gs.
  - destruct Hi as (pre & n & post & gs & b1 & w2 & Hp & Hgs & He & ->).
    exists pre, n, post, gs, b1, w2, w1. split_and!; try done. apply executeRollback_actions.
  - destruct Hi as (pre & n & post & gs & b1 & w2 & Hp & Hgs & He & _).
    by exists pre, n, post, gs, b1, w2.
Qed.

(** Plans do not panic. [Build] accepts exactly the node lists whose
    bind keys are pairwise distinct; a built plan in which every closure reads
    only keys bound by earlier nodes never panics, from any world, and when it
    succeeds the bindings hold exactly the plan's keys. *)
Theorem Build_Run_total nodes plan w :
  Build nodes = Some plan -> scoped ∅ plan ->
  plan = nodes /\ NoDup (produce_keys plan) /\ fst (Run plan w) <> Panic /\
  forall b w', Run plan w = (Ret (Ok b), w') -> dom b = list_to_set (produce_keys plan).
Proof.
  unfold Build. destruct (build_check ∅ nodes) eqn:Hb; [|done]. intros [= ->] Hs.
  apply build_check_spec in Hb as [Hnd _].
  destruct (interpret_scoped plan ∅ (mkI ∅ []) w Hs) as [Hp Hd]; [set_solver|].
  split; [done|]. split; [done|]. unfold Run.
  destruct (interpret plan (mkI ∅ []) w) as [[[[b|e]|] us] w1] eqn:E; simpl in *; try done.
  split; [done|]. intros b' w' [= <- <-]. rewrite (Hd _ _ _ eq_refl). set_solver.
Qed.
End RunProperties.

(** A small instance: resources numbered by [Z], undone by releasing them. *)
Module Resources.
#[export] Instance release : Executor (list Z) Z Z := {|
  ExecuteResult a := fun w => (Ok None, List.remove Z.eq_dec a w);
|}.

#[export] Instance dyn : Dynamic Z Z.
Proof. exact {| to_any t := t; of_any v := Some v; of_to_any t := eq_refl; zero_value := 0%Z |}. Defined.

Definition acquire (n : Z) : node (list Z) Z Z :=
  Produce (mkKey (T := Z) (String.String (Ascii.ascii_of_nat (Z.to_nat n)) "")%string)
    (fun _ w => (Ret (Ok n), n :: w)) (Some (fun _ => [n])).
Definition failing : node (list Z) Z Z := Do "fail" (fun _ w => (Ret (Err (Errorf "boom")), w)) None.
Definition plan : list (node (list Z) Z Z) :=
  [acquire 65; Try "optional" (fun _ w => (Ret (Err (Errorf "ignored")), w)); acquire 66; failing].
End Resources.
#[local] Existing Instances Resources.release Resources.dyn.

Lemma Run_failure_restores_witness :
  let '(r, w') := Run Resources.plan [7%Z] in r = Ret (Err (Errorf "boom")) /\ [7%Z] = w'.
Proof.
  split; [reflexivity|].
  apply (Run_failure_restores (@eq (list Z)) Resources.plan [7%Z] (Errorf "boom")); [|reflexivity].
  simpl. split; [by intros u <-|]. split; [by intros u <-|]. split; [by intros u <-|]. reflexivity.
Defined.

(** A journal: an action appends its number to it, so that the order of the
    undo actions shows. *)
Module Journal.
#[export] Instance append : Executor (list Z) Z Z := {|
  ExecuteResult a := fun w => (Ok None, w ++ [a]);
|}.

Definition plan : list (node (list Z) Z Z) :=
  [Do "first" (fun _ w => (Ret (Ok tt), w)) (Some (fun _ => [1; 2]%Z));
   Try "optional" (fun _ w => (Ret (Err (Errorf "ignored")), w));
   Do "second" (fun _ w => (Ret (Ok tt), w)) (Some (fun _ => [3]%Z));
   Do "fail" (fun _ w => (Ret (Err (Errorf "boom")), w)) (Some (fun _ => [4]%Z));
   Do "never" (fun _ w => (Ret (Ok tt), w)) None].
End Journal.

Lemma Run_outcome_witness :
  Run (Executor0 := Journal.append) Journal.plan [] = (Ret (Err (Errorf "boom")), [3; 1; 2]%Z) /\
  exists pre n post groups b1 w1 w2,
    Journal.plan = pre ++ n :: post /\ completes pre ∅ [] groups b1 w1 /\
    ended n b1 w1 (Some (Errorf "boom")) w2 /\
    [3; 1; 2]%Z = foldl (fun w a => snd (Execute (Executor0 := Journal.append) a w)) w2 (concat (reverse groups)).
Proof.
  split; [reflexivity|].
  apply (Run_outcome (Executor0 := Journal.append) Journal.plan [] (Ret (Err (Errorf "boom"))) [3; 1; 2]%Z). reflexivity.
Defined.

Lemma Build_Run_total_witness :
  Build (removelast Resources.plan) = Some (removelast Resources.plan) /\
  fst (Run (removelast Resources.plan) []) <> Panic.
Proof.
  split; [reflexivity|].
  apply (Build_Run_total (removelast Resources.plan) (removelast Resources.plan)); [reflexivity|].
  simpl. repeat split; by intros b w _.
Defined.
