(* ===== verification/Planning.v ===== *)
(** * Decisions over the set of managed programs

    The pure planning steps of the manager: which dead records to reap and in
    which order (planReap, manager/load.go), the order of a batch deletion
    (orderProgramDeletes, manager/delete.go), the place of a new TCX link
    (filterLiveTCXLinks and computeTCXAttachOrder, manager/attach_tc.go) and the
    dispatchers a set of links belongs to (manager/detach.go). *)

From Stdlib Require Import ZArith Lia String.
From stdpp Require Import base tactics sets list gmap strings numbers sorting.
From S2P Require Import Prelude Dispatcher Domain.

Local Open Scope string_scope.
Local Open Scope list_scope.
Local Open Scope Z_scope.

(** ** Reaping dead records (load.go) *)

Record reapSnapshot := mkReapSnapshot {
  storePrograms : gmap Z ProgramRecord;
  liveKernelProgram : gset Z }.

Definition map_owner (r : ProgramRecord) : option Z := ph_MapOwnerID (pr_Handles r).

(** [deps[*owner] += delta] if the record has an owner. *)
Definition bump (owner : option Z) (delta : Z) (deps : gmap Z Z) : gmap Z Z :=
  match owner with
  | None => deps
  | Some o => <[o := default 0 (deps !! o) + delta]> deps
  end.

Definition countDeps (progs : gmap Z ProgramRecord) : gmap Z Z :=
  map_fold (fun _ rec deps => bump (map_owner rec) 1 deps) ∅ progs.

Definition deadPrograms (snap : reapSnapshot) : list Z :=
  merge_sort Z.le (elements (dom (storePrograms snap) ∖ liveKernelProgram snap)).

Record reapState := mkReapState { rp_removed : gset Z; rp_deps : gmap Z Z; rp_plan : list Z }.

(** One pass over the sorted dead IDs; the flag is [progress]. *)
Fixpoint reap_pass (progs : gmap Z ProgramRecord) (ids : list Z) (progress : bool) (st : reapState)
    : bool * reapState :=
  match ids with
  | [] => (progress, st)
  | id :: ids' =>
      if bool_decide (id ∈ rp_removed st) || (0 <? default 0 (rp_deps st !! id))
      then reap_pass progs ids' progress st
      else reap_pass progs ids' true
             (mkReapState ({[id]} ∪ rp_removed st)
                (bump (progs !! id ≫= map_owner) (-1) (rp_deps st))
                (rp_plan st ++ [id]))
  end.

(** The passes until one makes no progress; [None] when [fuel] runs out. *)
Fixpoint reap_loop (fuel : nat) (progs : gmap Z ProgramRecord) (ids : list Z) (st : reapState)
    : option reapState :=
  match fuel with
  | O => None
  | S n =>
      let '(progress, st') := reap_pass progs ids false st in
      if (progress : bool) then reap_loop n progs ids st' else Some st'
  end.

(** Every pass but the last emits a program. *)
Definition planReap (snap : reapSnapshot) : option (list Z) :=
  let ids := deadPrograms snap in
  rp_plan <$> reap_loop (S (length ids)) (storePrograms snap) ids
                (mkReapState ∅ (countDeps (storePrograms snap)) []).

(** ** Batch deletion (delete.go) *)

(** [dependentsByOwner[id]], in the order programs are listed. *)
Definition add_dependent (deps : gmap Z (list Z)) (p : ProgramRecord) : gmap Z (list Z) :=
  match map_owner p with
  | None => deps
  | Some o => <[o := default [] (deps !! o) ++ [pr_ProgramID p]]> deps
  end.

Definition dependentsByOwner (programs : list ProgramRecord) : gmap Z (list Z) :=
  foldl add_dependent ∅ programs.

Abbreviation visited := (list Z * gset Z)%type.   (* [ordered] and [seen] *)

(** The loop over the dependents of a program. *)
Fixpoint visit_deps (visit : Z -> visited -> option visited) (selected : gset Z) (l : list Z)
    (st : visited) : option visited :=
  match l with
  | [] => Some st
  | d :: l' =>
      if bool_decide (d ∈ selected)
      then st' ← visit d st; visit_deps visit selected l' st'
      else visit_deps visit selected l' st
  end.

(** The depth-first [visit]; [None] when [fuel] runs out. *)
Fixpoint visit (fuel : nat) (deps : gmap Z (list Z)) (selected : gset Z) (id : Z) (st : visited)
    : option visited :=
  match fuel with
  | O => None
  | S n =>
      if bool_decide (id ∈ st.2) then Some st
      else
        st' ← visit_deps (visit n deps selected) selected (default [] (deps !! id)) (st.1, {[id]} ∪ st.2);
        Some (st'.1 ++ [id], st'.2)
  end.

Fixpoint visit_all (visit : Z -> visited -> option visited) (ids : list Z) (st : visited) : option visited :=
  match ids with
  | [] => Some st
  | id :: ids' => st' ← visit id st; visit_all visit ids' st'
  end.

(** Each nested visit marks one more selected program as seen. *)
Definition orderProgramDeletes (ids : list Z) (deps : gmap Z (list Z)) : option (list Z) :=
  if (length ids <=? 1)%nat || bool_decide (deps = ∅) then Some ids
  else fst <$> visit_all (visit (S (length ids)) deps (list_to_set ids)) ids ([], ∅).

(** ** The place of a TCX link (attach_tc.go) *)

(** [isLive] is asked once per program; its answer is kept in [checked]. *)
Fixpoint filterLive_loop {W} (isLive : Z -> M W bool) (links : list TCXLinkInfo)
    (checked : gmap Z bool) (live : list TCXLinkInfo) : M W (list TCXLinkInfo) :=
  match links with
  | [] => ret live
  | l :: links' =>
      let id := txi_KernelProgramID l in
      let* ok := match checked !! id with Some ok => ret ok | None => isLive id end in
      filterLive_loop isLive links' (<[id := ok]> checked) (if (ok : bool) then live ++ [l] else live)
  end.

Definition filterLiveTCXLinks {W} (isLive : Z -> M W bool) (links : list TCXLinkInfo)
    : M W (list TCXLinkInfo) := filterLive_loop isLive links ∅ [].

Definition computeTCXAttachOrder (existingLinks : list TCXLinkInfo) (newPriority : Z) : TCXAttachOrder :=
  match existingLinks with
  | [] => TCXAttachFirst
  | _ =>
      match List.find (fun l => newPriority <? txi_Priority l) existingLinks with
      | Some l => TCXAttachBefore (txi_KernelProgramID l)
      | None => match last existingLinks with
                | Some l => TCXAttachAfter (txi_KernelProgramID l)
                | None => TCXAttachFirst
                end
      end
  end.

(** The anchor the adapter passes to the kernel (platform/ebpf/attach_tc.go). *)
Inductive Anchor := AnchorHead | AnchorBefore (prog : Z) | AnchorAfter (prog : Z).

Definition tcxAnchor (order : TCXAttachOrder) : Anchor :=
  if First order then AnchorHead
  else if negb (BeforeProgID order =? 0) then AnchorBefore (BeforeProgID order)
  else if negb (AfterProgID order =? 0) then AnchorAfter (AfterProgID order)
  else AnchorHead.

(** ** The dispatchers of links (detach.go) *)

(** [None] is the zero dispatcher type: the link is not served by a dispatcher. *)
Definition extractDispatcherKey (details : option LinkDetails) : result (option Key) :=
  match details with
  | Some (DXDP d) => Ok (Some (NewKey DispatcherTypeXDP (xdd_Nsid d) (xdd_Ifindex d)))
  | Some (DTC d) =>
      if String.eqb (tcd_Direction d) TCDirectionIngress
      then Ok (Some (NewKey DispatcherTypeTCIngress (tcd_Nsid d) (tcd_Ifindex d)))
      else if String.eqb (tcd_Direction d) TCDirectionEgress
      then Ok (Some (NewKey DispatcherTypeTCEgress (tcd_Nsid d) (tcd_Ifindex d)))
      else Err (Errorf "unknown TC direction: %s")
  | _ => Ok None
  end.

Definition link_key (l : LinkRecord) : option Key :=
  if String.eqb (lr_Kind l) LinkKindTC || String.eqb (lr_Kind l) LinkKindXDP
  then match extractDispatcherKey (lr_Details l) with Ok k => k | Err _ => None end
  else None.

Definition collectDispatcherKeys (links : list LinkRecord) : gset Key := list_to_set (omap link_key links).

(** ** Counting dependents *)

(** The programs outside [R] that name [o] as the owner of their maps. *)
Definition pending (progs : gmap Z ProgramRecord) (R : gset Z) (o : Z) : gmap Z ProgramRecord :=
  filter (fun kv => map_owner kv.2 = Some o /\ kv.1 ∉ R) progs.

Definition dep (deps : gmap Z Z) (o : Z) : Z := default 0 (deps !! o).

Lemma dep_bump owner delta deps o :
  dep (bump owner delta deps) o = dep deps o + (if decide (owner = Some o) then delta else 0).
Proof.
  unfold dep, bump. destruct owner as [o'|]; [|rewrite decide_False by done; lia].
  destruct (decide (o = o')) as [->|Hne].
  - rewrite lookup_insert_eq, decide_True by done. done.
  - rewrite lookup_insert_ne, decide_False by congruence. lia.
Qed.

Lemma pending_lookup progs R o p r :
  pending progs R o !! p = Some r <-> progs !! p = Some r /\ map_owner r = Some o /\ p ∉ R.
Proof. unfold pending. by rewrite map_lookup_filter_Some. Qed.

Lemma countDeps_spec progs o : dep (countDeps progs) o = Z.of_nat (size (pending progs ∅ o)).
Proof.
  unfold countDeps. revert o. apply (map_fold_weak_ind (fun deps m => forall o, dep deps o = Z.of_nat (size (pending m ∅ o)))).
  - intros o. unfold pending. by rewrite map_filter_empty, map_size_empty.
  - intros id r m deps Hid IH o. rewrite dep_bump, IH. unfold pending. case_decide as Ho.
    + rewrite map_filter_insert_True by (split; [done|set_solver]).
      rewrite map_size_insert_None; [lia|]. apply map_lookup_filter_None. by left.
    + rewrite map_filter_insert_not'; [lia|intros [? _]; done|]. intros y. by rewrite Hid.
Qed.

Lemma pending_remove progs R id o : pending progs ({[id]} ∪ R) o = delete id (pending progs R o).
Proof.
  apply map_eq. intros p. apply option_eq. intros r. rewrite lookup_delete_Some, !pending_lookup. set_solver.
Qed.

Lemma pending_size progs R id o :
  id ∉ R ->
  Z.of_nat (size (pending progs ({[id]} ∪ R) o)) =
  Z.of_nat (size (pending progs R o)) + (if decide (progs !! id ≫= map_owner = Some o) then -1 else 0).
Proof.
  intros HR. rewrite pending_remove. case_decide as Ho.
  - apply bind_Some in Ho as (r & Hr & Ho). assert (Hp : pending progs R o !! id = Some r) by (by apply pending_lookup).
    rewrite map_size_delete_Some by (by eexists). assert (size (pending progs R o) <> 0%nat); [|lia].
    intros Hz%map_size_empty_inv. by rewrite Hz, lookup_empty in Hp.
  - rewrite delete_id; [lia|]. apply eq_None_not_Some. intros [r Hr]. apply pending_lookup in Hr as (Hr & Hro & _).
    apply Ho. by rewrite Hr.
Qed.

(** ** The passes of planReap *)

(** Each emitted program comes after all of its dependents. *)
Definition dependents_first (progs : gmap Z ProgramRecord) (plan : list Z) : Prop :=
  forall before id after, plan = before ++ id :: after ->
  forall p r, progs !! p = Some r -> map_owner r = Some id -> p ∈ before.

Record reap_inv (progs : gmap Z ProgramRecord) (ids : list Z) (st : reapState) : Prop := {
  ri_removed : rp_removed st = list_to_set (rp_plan st);
  ri_nodup : NoDup (rp_plan st);
  ri_dead : rp_plan st ⊆ ids;
  ri_deps o : dep (rp_deps st) o = Z.of_nat (size (pending progs (rp_removed st) o));
  ri_first : dependents_first progs (rp_plan st) }.

Lemma pending_none progs R o :
  size (pending progs R o) = 0%nat <-> forall p r, progs !! p = Some r -> map_owner r = Some o -> p ∈ R.
Proof.
  rewrite map_size_empty_iff. split.
  - intros He p r Hp Ho. destruct (decide (p ∈ R)); [done|]. exfalso.
    assert (Hl : pending progs R o !! p = Some r) by (by apply pending_lookup). by rewrite He, lookup_empty in Hl.
  - intros H. apply map_empty. intros p. apply eq_None_not_Some. intros [r Hr].
    apply pending_lookup in Hr as (Hp & Ho & HR). by eapply HR, H.
Qed.

Lemma dependents_first_snoc progs plan id :
  dependents_first progs plan ->
  (forall p r, progs !! p = Some r -> map_owner r = Some id -> p ∈ plan) ->
  dependents_first progs (plan ++ [id]).
Proof.
  intros Hf Hid before x after Heq p r Hp Ho. destruct after as [|y after] using rev_ind.
  - apply app_inj_tail in Heq as [-> ->]. by eapply Hid.
  - rewrite app_comm_cons, app_assoc in Heq. apply app_inj_tail in Heq as [-> _]. by eapply Hf.
Qed.

Lemma reap_inv_emit progs ids st id :
  reap_inv progs ids st -> id ∈ ids -> id ∉ rp_removed st -> dep (rp_deps st) id <= 0 ->
  reap_inv progs ids (mkReapState ({[id]} ∪ rp_removed st)
                        (bump (progs !! id ≫= map_owner) (-1) (rp_deps st)) (rp_plan st ++ [id])).
Proof.
  intros [H1 H2 H3 H4 H5] Hid Hn Hd. split; cbn [rp_removed rp_deps rp_plan].
  - rewrite H1, list_to_set_app_L. set_solver.
  - apply NoDup_app. split; [done|]. split; [|apply NoDup_singleton]. set_solver.
  - set_solver.
  - intros o. by rewrite dep_bump, H4, pending_size.
  - apply dependents_first_snoc; [done|]. rewrite H4 in Hd. intros p r Hp Ho.
    assert (p ∈ rp_removed st) as Hr; [|set_solver]. eapply pending_none; [|exact Hp|exact Ho]. lia.
Qed.

(** A pass either stops the loop at a fixpoint or emits something. *)
Lemma reap_pass_spec progs all ids progress st progress' st' :
  reap_inv progs all st -> ids ⊆ all -> reap_pass progs ids progress st = (progress', st') ->
  reap_inv progs all st' /\ (length (rp_plan st) <= length (rp_plan st'))%nat /\
  (progress' = true -> progress = false -> (length (rp_plan st) < length (rp_plan st'))%nat) /\
  (progress' = false -> st' = st /\ forall id, id ∈ ids -> id ∈ rp_removed st \/ 0 < dep (rp_deps st) id).
Proof.
  intros Hi Hs. assert (Htrue : forall l s b s', reap_pass progs l true s = (b, s') -> b = true).
  { induction l as [|x l IH]; intros s b s'; cbn; [by intros [= <- _]|]. case_match; apply IH. }
  revert progress st Hi. induction ids as [|id ids IH]; intros progress st Hi; cbn [reap_pass].
  { intros [= <- <-]. split; [done|]. split; [done|]. split; [congruence|]. intros _. split; [done|]. set_solver. }
  assert (Hs' : ids ⊆ all) by set_solver. fold (dep (rp_deps st) id).
  destruct (bool_decide (id ∈ rp_removed st) || (0 <? dep (rp_deps st) id)) eqn:Eb; intros H.
  - destruct (IH Hs' _ _ Hi H) as (Ha & Hb & Hc & Hd). split; [done|]. split; [done|]. split; [done|].
    intros Hf. destruct (Hd Hf) as [-> Hx]. split; [done|]. intros x [->|Hx']%elem_of_cons; [|by apply Hx].
    apply orb_true_iff in Eb as [Eb|Eb]; [left; by apply bool_decide_eq_true in Eb|right; lia].
  - apply orb_false_iff in Eb as [Eb1 Eb2]. apply bool_decide_eq_false in Eb1. apply Z.ltb_ge in Eb2.
    assert (Hid : id ∈ all) by set_solver.
    pose proof (reap_inv_emit _ _ _ _ Hi Hid Eb1 Eb2) as Hi'.
    destruct (IH Hs' _ _ Hi' H) as (Ha & Hb & _ & _). cbn [rp_plan] in Hb. rewrite length_app in Hb. cbn in Hb.
    split; [done|]. split; [lia|]. split; [lia|]. apply Htrue in H as ->. done.
Qed.

Lemma reap_loop_spec progs ids fuel st :
  NoDup ids -> reap_inv progs ids st -> (length ids < fuel + length (rp_plan st))%nat ->
  exists st', reap_loop fuel progs ids st = Some st' /\ reap_inv progs ids st' /\
    forall id, id ∈ ids -> id ∈ rp_removed st' \/ 0 < dep (rp_deps st') id.
Proof.
  intros Hnd. revert st. induction fuel as [|n IH]; intros st Hi Hlen; cbn [reap_loop].
  { pose proof (ri_dead _ _ _ Hi) as Hsub. pose proof (ri_nodup _ _ _ Hi) as Hn.
    assert (length (rp_plan st) <= length ids)%nat by (by apply submseteq_length, NoDup_submseteq). lia. }
  destruct (reap_pass progs ids false st) as [b st'] eqn:E.
  destruct (reap_pass_spec _ _ _ _ _ _ _ Hi (reflexivity _) E) as (Hi' & Hle & Hlt & Hstop).
  destruct b; [|destruct (Hstop eq_refl) as [-> Hx]; eauto].
  specialize (Hlt eq_refl eq_refl). apply IH; [done|lia].
Qed.

(** C26: the reap plan is complete, safe and ordered. planReap always
    returns: it emits each record at most once, only records whose program the
    kernel no longer has, and each after all the programs that share its maps;
    a dead record is left out exactly when some program sharing its maps is
    left out, so nothing a live program depends on is removed and nothing else
    stays. *)
Theorem planReap_correct snap :
  exists plan, planReap snap = Some plan /\ NoDup plan /\
    (forall id, id ∈ plan -> id ∈ dom (storePrograms snap) /\ id ∉ liveKernelProgram snap) /\
    dependents_first (storePrograms snap) plan /\
    (forall id, id ∈ dom (storePrograms snap) -> id ∉ liveKernelProgram snap ->
       id ∈ plan <-> forall p r, storePrograms snap !! p = Some r -> map_owner r = Some id -> p ∈ plan).
Proof.
  set (progs := storePrograms snap). set (ids := deadPrograms snap).
  assert (Hids : forall id, id ∈ ids <-> id ∈ dom progs /\ id ∉ liveKernelProgram snap).
  { intros id. unfold ids, deadPrograms. rewrite merge_sort_Permutation, elem_of_elements. set_solver. }
  assert (Hnd : NoDup ids).
  { unfold ids, deadPrograms. rewrite merge_sort_Permutation. apply NoDup_elements. }
  destruct (reap_loop_spec progs ids (S (length ids)) (mkReapState ∅ (countDeps progs) [])) as (st & Hst & [H1 H2 H3 H4 H5] & Hfix);
    [done| |cbn; lia|].
  { split; cbn; [done|constructor|set_solver|intros o; apply countDeps_spec|]. by intros [] ? ? ?. }
  exists (rp_plan st). unfold planReap. fold ids progs. rewrite Hst. split; [done|]. split; [done|].
  split; [by intros id Hid; apply Hids, H3|]. split; [done|]. intros id Hd Hl. split.
  - intros Hin p r Hp Ho. apply list_elem_of_split in Hin as (l1 & l2 & Heq).
    rewrite Heq. apply elem_of_app. left. by eapply H5.
  - intros Hall. destruct (Hfix id) as [Hr|Hpos]; [by apply Hids|set_solver|]. exfalso. rewrite H4 in Hpos.
    assert (size (pending progs (rp_removed st) id) = 0%nat); [|lia].
    apply pending_none. intros p r Hp Ho. rewrite H1. apply elem_of_list_to_set. by eapply Hall.
Qed.

(** ** The depth-first order *)

Section Order.
Context (deps : gmap Z (list Z)) (selected : gset Z) (rank : Z -> nat).

Definition deps_of (o : Z) : list Z := default [] (deps !! o).

(** Sharing has no cycles: a dependent ranks below its owner. *)
Definition ranked : Prop := forall o d, d ∈ deps_of o -> (rank d < rank o)%nat.

(** Selected dependents come before their owners. *)
Definition owners_last (out : list Z) : Prop :=
  forall before o after, out = before ++ o :: after -> forall d, d ∈ deps_of o -> d ∈ selected -> d ∈ before.

Definition visit_wf (st : visited) : Prop := NoDup st.1 /\ list_to_set st.1 ⊆ st.2 /\ st.2 ⊆ selected.

(** What was seen but not emitted is on the stack, above [n]. *)
Definition above (n : nat) (st : visited) : Prop := forall x, x ∈ st.2 -> x ∈ st.1 \/ (n < rank x)%nat.

Definition grows (st st' : visited) : Prop :=
  st.2 ⊆ st'.2 /\ exists new, st'.1 = st.1 ++ new /\ forall x, x ∈ new <-> x ∈ st'.2 /\ x ∉ st.2.

Lemma grows_refl st : grows st st.
Proof. split; [done|]. exists []. rewrite app_nil_r. split; [done|]. set_solver. Qed.

Lemma grows_trans a b c : grows a b -> grows b c -> grows a c.
Proof.
  intros [H1 (n1 & E1 & N1)] [H2 (n2 & E2 & N2)]. split; [set_solver|]. exists (n1 ++ n2).
  rewrite E2, E1, app_assoc. split; [done|]. intros x. rewrite elem_of_app, N1, N2.
  destruct (decide (x ∈ b.2)); set_solver.
Qed.

Lemma above_grows n st st' : grows st st' -> above n st -> above n st'.
Proof. intros [_ (new & E & N)] Ha x Hx. rewrite E, elem_of_app, N. destruct (decide (x ∈ st.2)) as [Hs|]; [|tauto]. destruct (Ha x Hs); tauto. Qed.

Lemma above_weaken n m st : (m <= n)%nat -> above n st -> above m st.
Proof. intros Hle Ha x Hx. destruct (Ha x Hx); [by left|right; lia]. Qed.

(** What one visit does, when fewer than [bound] selected programs are unseen. *)
Definition visit_spec (bound : nat) (v : Z -> visited -> option visited) : Prop :=
  forall id st, id ∈ selected -> visit_wf st -> (size (selected ∖ st.2) < bound)%nat ->
  exists st', v id st = Some st' /\ visit_wf st' /\ grows st st' /\ id ∈ st'.2 /\
    (ranked -> owners_last st.1 -> above (rank id) st -> owners_last st'.1 /\ id ∈ st'.1).

Lemma visit_deps_spec bound v l st n :
  visit_spec bound v -> visit_wf st -> (size (selected ∖ st.2) < bound)%nat ->
  exists st', visit_deps v selected l st = Some st' /\ visit_wf st' /\ grows st st' /\
    (forall d, d ∈ l -> d ∈ selected -> d ∈ st'.2) /\
    (ranked -> Forall (fun d => rank d <= n)%nat l -> owners_last st.1 -> above n st ->
       owners_last st'.1 /\ forall d, d ∈ l -> d ∈ selected -> d ∈ st'.1).
Proof.
  intros Hv. revert st. induction l as [|d l IH]; intros st Hwf Hsz; cbn [visit_deps].
  { exists st. split; [done|]. split; [done|]. split; [apply grows_refl|]. split; set_solver. }
  case_bool_decide as Hd.
  - destruct (Hv d st Hd Hwf Hsz) as (st1 & -> & Hwf1 & Hg1 & Hd1 & Ho1). cbn [mbind option_bind].
    assert (Hsz1 : (size (selected ∖ st1.2) < bound)%nat).
    { eapply Nat.le_lt_trans; [|exact Hsz]. apply subseteq_size. destruct Hg1. set_solver. }
    destruct (IH st1 Hwf1 Hsz1) as (st2 & -> & Hwf2 & Hg2 & Hl2 & Ho2). exists st2. split; [done|]. split; [done|].
    split; [by eapply grows_trans|].
    split. { intros x [->|Hx]%elem_of_cons Hs; [|by apply Hl2]. destruct Hg2. set_solver. }
    intros Hr [Hdn Hl]%Forall_cons Hol Ha.
    destruct (Ho1 Hr Hol (above_weaken _ _ _ Hdn Ha)) as [Hol1 Hd2].
    destruct (Ho2 Hr Hl Hol1 (above_grows _ _ _ Hg1 Ha)) as [Hol2 Hin]. split; [done|].
    intros x [->|Hx]%elem_of_cons Hs; [|by apply Hin]. destruct Hg2 as [_ (new & -> & _)]. set_solver.
  - destruct (IH st Hwf Hsz) as (st2 & -> & Hwf2 & Hg2 & Hl2 & Ho2). exists st2. split; [done|]. split; [done|].
    split; [done|]. split. { intros x [->|Hx]%elem_of_cons Hs; [done|by apply Hl2]. }
    intros Hr [_ Hl]%Forall_cons Hol Ha. destruct (Ho2 Hr Hl Hol Ha) as [Hol2 Hin]. split; [done|].
    intros x [->|Hx]%elem_of_cons Hs; [done|by apply Hin].
Qed.

Lemma owners_last_snoc out id :
  owners_last out -> (forall d, d ∈ deps_of id -> d ∈ selected -> d ∈ out) -> owners_last (out ++ [id]).
Proof.
  intros Hf Hid before x after Heq d Hd Hs. destruct after as [|y after] using rev_ind.
  - apply app_inj_tail in Heq as [-> ->]. by eapply Hid.
  - rewrite app_comm_cons, app_assoc in Heq. apply app_inj_tail in Heq as [-> _]. by eapply Hf.
Qed.

Lemma visit_ok fuel : visit_spec fuel (visit fuel deps selected).
Proof.
  induction fuel as [|n IH]; intros id st Hid Hwf Hsz; [lia|]. cbn [visit]. case_bool_decide as Hs.
  { exists st. split; [done|]. split; [done|]. split; [apply grows_refl|]. split; [done|].
    intros _ Ho Ha. split; [done|]. destruct (Ha id Hs); [done|lia]. }
  destruct Hwf as (Hn & Hsub & Hsel).
  assert (Hwf0 : visit_wf (st.1, {[id]} ∪ st.2)) by (split; [done|]; cbn; split; set_solver).
  assert (Hsz0 : (size (selected ∖ (st.1, {[id]} ∪ st.2).2) < n)%nat).
  { cbn [snd]. assert (size (selected ∖ ({[id]} ∪ st.2)) < size (selected ∖ st.2))%nat; [|lia].
    apply subset_size. set_solver. }
  destruct (visit_deps_spec n _ (deps_of id) _ (Nat.pred (rank id)) IH Hwf0 Hsz0) as (st1 & E & (Hn1 & Hsub1 & Hsel1) & [Hg1 (new & En & Hnew)] & _ & Ho1).
  unfold deps_of in E. rewrite E. cbn [mbind option_bind]. cbn [fst snd] in *. eexists. split; [reflexivity|]. cbn.
  assert (Hidn : id ∉ st1.1) by (rewrite En, elem_of_app, Hnew; set_solver).
  split; [split; [|split]; cbn|]; [apply NoDup_app; split; [done|split; [set_solver|apply NoDup_singleton]]|set_solver|done|]. split.
  { split; [set_solver|]. exists (new ++ [id]). cbn. rewrite En, app_assoc. split; [done|].
    assert (Hin : id ∈ st1.2) by set_solver. clear -Hnew Hin Hs.
    intros x. rewrite elem_of_app, Hnew, elem_of_union, elem_of_singleton, list_elem_of_singleton.
    destruct (decide (x = id)) as [->|]; tauto. }
  split; [set_solver|]. intros Hr Hol Ha. assert (Hall : Forall (fun d => rank d <= Nat.pred (rank id))%nat (deps_of id)).
  { apply Forall_forall. intros d Hd. specialize (Hr id d Hd). lia. }
  destruct (decide (deps_of id = [])) as [Hnil|Hne].
  - unfold deps_of in Hnil. rewrite Hnil in E. injection E as <-. cbn. split; [|set_solver].
    apply owners_last_snoc; [done|]. unfold deps_of. rewrite Hnil. set_solver.
  - destruct (Ho1 Hr Hall Hol) as [Hol1 Hin].
    { intros x Hx. cbn in *. destruct (deps_of id) as [|d0 l0] eqn:Ed; [done|].
      assert (rank d0 < rank id)%nat by (apply Hr; rewrite Ed; left).
      apply elem_of_union in Hx as [->%elem_of_singleton|Hx]; [right; lia|]. destruct (Ha x Hx); [by left|right; lia]. }
    split; [by apply owners_last_snoc|set_solver].
Qed.
End Order.

Lemma visit_all_deps v selected ids st :
  list_to_set ids ⊆ selected -> visit_all v ids st = visit_deps v selected ids st.
Proof.
  revert st. induction ids as [|id ids IH]; intros st Hs; cbn [visit_all visit_deps]; [done|].
  rewrite bool_decide_true by set_solver. destruct (v id st) as [st'|]; cbn; [|done]. apply IH. set_solver.
Qed.

(** C27: a batch is deleted dependents first. orderProgramDeletes always
    returns; it orders the requested programs and no others, without duplicates
    if the request has none; and when sharing has no cycles every requested
    program comes after all requested programs that share its maps. *)
Theorem orderProgramDeletes_correct ids deps :
  exists ordered, orderProgramDeletes ids deps = Some ordered /\
    (forall id, id ∈ ordered <-> id ∈ ids) /\ (NoDup ids -> ordered ≡ₚ ids) /\
    forall rank, ranked deps rank -> owners_last deps (list_to_set ids) ordered.
Proof.
  unfold orderProgramDeletes. destruct (_ || _) eqn:Eearly.
  { exists ids. split; [done|]. split; [done|]. split; [done|]. intros rank Hr before o after Heq d Hd Hsel.
    apply orb_true_iff in Eearly as [Hlen|He].
    - apply Nat.leb_le in Hlen. rewrite Heq, length_app in Hlen. cbn in Hlen.
      destruct before, after; cbn in *; try lia. subst ids. assert (d = o) as -> by set_solver.
      specialize (Hr o o Hd). lia.
    - apply bool_decide_eq_true in He. subst deps. unfold deps_of in Hd. rewrite lookup_empty in Hd. set_solver. }
  set (sel := list_to_set ids : gset Z). rewrite (visit_all_deps _ sel) by done.
  assert (Hsz : (size (sel ∖ ∅) < S (length ids))%nat).
  { rewrite difference_empty_L. apply Nat.lt_succ_r. unfold size, set_size. cbn. apply submseteq_length, NoDup_submseteq.
    - apply NoDup_elements.
    - intros x. rewrite elem_of_elements. apply elem_of_list_to_set. }
  assert (Hspec := fun rank => visit_deps_spec deps sel rank (S (length ids)) _ ids ([], ∅) (max_list (rank <$> ids))
      (visit_ok deps sel rank _) ltac:(split; [constructor|set_solver]) Hsz).
  destruct (Hspec (fun _ => O)) as (st & Hst & (Hn & _ & Hsub) & [_ (new & Hnew & Hin)] & Hall & _). cbn in Hnew, Hin.
  assert (Hiff : forall id, id ∈ st.1 <-> id ∈ ids).
  { intros id. rewrite Hnew, Hin. split; [intros [H _]; apply Hsub in H; by apply elem_of_list_to_set in H|].
    intros Hid. split; [|set_solver]. apply Hall; [done|]. by apply elem_of_list_to_set. }
  exists st.1. rewrite Hst. split; [done|]. split; [done|].
  split; [intros Hnd; by apply NoDup_Permutation|]. intros rank Hr.
  destruct (Hspec rank) as (st' & Hst' & _ & _ & _ & Hord). rewrite Hst in Hst'. injection Hst' as <-.
  apply Hord; [done| |by intros [] ? ?|by intros x Hx].
  apply Forall_forall. intros d Hd. by apply max_list_elem_of_le, list_elem_of_fmap_2.
Qed.

(** ** The TCX chain *)

(** Where the kernel puts a program: at the head, or next to a program of the
    chain; an anchor that is not in the chain is refused. *)
Fixpoint beside (after : bool) (p : Z) (x : TCXLinkInfo) (chain : list TCXLinkInfo) : option (list TCXLinkInfo) :=
  match chain with
  | [] => None
  | y :: chain' =>
      if txi_KernelProgramID y =? p
      then Some (if after then y :: x :: chain' else x :: y :: chain')
      else cons y <$> beside after p x chain'
  end.

Definition place (a : Anchor) (x : TCXLinkInfo) (chain : list TCXLinkInfo) : option (list TCXLinkInfo) :=
  match a with
  | AnchorHead => Some (x :: chain)
  | AnchorBefore p => beside false p x chain
  | AnchorAfter p => beside true p x chain
  end.

Lemma beside_split after p x l1 y l2 :
  txi_KernelProgramID y = p -> Forall (fun z => txi_KernelProgramID z <> p) l1 ->
  beside after p x (l1 ++ y :: l2) = Some (l1 ++ (if after then y :: x :: l2 else x :: y :: l2)).
Proof.
  intros <- Hl. induction Hl as [|z l1 Hz _ IH]; cbn; [by rewrite Z.eqb_refl|].
  rewrite (proj2 (Z.eqb_neq _ _) Hz), IH. done.
Qed.

(** [find] splits a list before its first hit. *)
Lemma find_split {A} (f : A -> bool) l x :
  List.find f l = Some x -> exists l1 l2, l = l1 ++ x :: l2 /\ f x = true /\ Forall (fun y => f y = false) l1.
Proof.
  induction l as [|y l IH]; cbn; [done|]. destruct (f y) eqn:Ey.
  - intros [= <-]. exists [], l. done.
  - intros H. destruct (IH H) as (l1 & l2 & -> & Hx & Hl). exists (y :: l1), l2. split; [done|]. split; [done|]. by constructor.
Qed.

(** Programs before and after a member of a chain without repetitions. *)
Lemma chain_distinct (l1 l2 : list TCXLinkInfo) y :
  NoDup (txi_KernelProgramID <$> l1 ++ y :: l2) -> Forall (fun z => txi_KernelProgramID z <> txi_KernelProgramID y) l1.
Proof.
  rewrite fmap_app, fmap_cons. intros (_ & Hd & _)%NoDup_app. apply Forall_forall. intros z Hz Heq.
  eapply Hd; [apply list_elem_of_fmap_2, Hz|]. rewrite Heq. left.
Qed.

(** A chain that runs its links in order of priority, no program twice. *)
Definition tcx_chain (chain : list TCXLinkInfo) : Prop :=
  StronglySorted (fun a b => txi_Priority a <= txi_Priority b) chain /\
  NoDup (txi_KernelProgramID <$> chain) /\ Forall (fun l => txi_KernelProgramID l <> 0) chain.

Lemma tcx_chain_filter (P : TCXLinkInfo -> Prop) `{!forall l, Decision (P l)} chain :
  tcx_chain chain -> tcx_chain (filter P chain).
Proof.
  intros (Hs & Hn & Hz). induction chain as [|x chain IH]; [done|].
  apply StronglySorted_inv in Hs as [Hs Hx]. apply NoDup_cons in Hn as [Hnx Hn]. apply Forall_cons in Hz as [Hzx Hz].
  destruct (IH Hs Hn Hz) as (Hs' & Hn' & Hz'). rewrite filter_cons. case_decide as HP; [|done]. split; [|split].
  - constructor; [done|]. apply Forall_forall. intros y [_ Hy]%list_elem_of_filter. by eapply Forall_forall in Hx.
  - rewrite fmap_cons. apply NoDup_cons. split; [|done]. intros (y & Hy & [_ Hin]%list_elem_of_filter)%list_elem_of_fmap_1.
    apply Hnx. rewrite Hy. by apply list_elem_of_fmap_2.
  - by constructor.
Qed.

(** The verdict on a program is the same for all of its links. *)
Lemma filterLive_loop_spec {W} (isLive : Z -> M W bool) links checked live w res w' :
  filterLive_loop isLive links checked live w = (Ok res, w') ->
  exists verdict : Z -> bool, (forall id ok, checked !! id = Some ok -> verdict id = ok) /\
    res = live ++ filter (fun l => verdict (txi_KernelProgramID l) = true) links.
Proof.
  revert checked live w. induction links as [|l links IH]; intros checked live w H; cbn [filterLive_loop] in H.
  { unfold ret in H. injection H as <- _. exists (fun id => default false (checked !! id)). split; [|by rewrite app_nil_r].
    by intros id ok ->. }
  step_ok H ok w1 E. destruct (IH _ _ _ H) as (verdict & Hv & ->). exists verdict.
  assert (Hok : verdict (txi_KernelProgramID l) = ok) by (apply Hv; by rewrite lookup_insert_eq). split.
  - intros id b Hb. destruct (decide (id = txi_KernelProgramID l)) as [->|Hne]; [|apply Hv; by rewrite lookup_insert_ne].
    rewrite Hb in E. unfold ret in E. congruence.
  - rewrite filter_cons, Hok. destruct ok; [|done]. by rewrite <- app_assoc.
Qed.

(** The computed anchor on a chain in order. *)
Lemma compute_place chain x :
  tcx_chain chain ->
  exists l1 l2, chain = l1 ++ l2 /\
    place (tcxAnchor (computeTCXAttachOrder chain (txi_Priority x))) x chain = Some (l1 ++ x :: l2) /\
    Forall (fun l => txi_Priority l <= txi_Priority x) l1 /\ Forall (fun l => txi_Priority x < txi_Priority l) l2.
Proof.
  intros (Hs & Hnd & Hz). unfold computeTCXAttachOrder. destruct chain as [|c0 ch] eqn:Ec; [exists [], []; auto|].
  rewrite <- Ec in *. clear Ec c0 ch. destruct (List.find _ chain) as [l|] eqn:Ef.
  - apply find_split in Ef as (l1 & l2 & -> & Hl & Hl1). exists l1, (l :: l2). split; [done|].
    assert (Hne : txi_KernelProgramID l <> 0) by (by apply Forall_app in Hz as [_ [? _]%Forall_cons]).
    unfold tcxAnchor, TCXAttachBefore. cbn [First BeforeProgID negb]. rewrite (proj2 (Z.eqb_neq _ _) Hne). cbn [negb place].
    rewrite beside_split by (done || by eapply chain_distinct). split; [done|]. split.
    { eapply Forall_impl; [exact Hl1|]. cbn. intros y Hy. lia. }
    apply StronglySorted_app in Hs as (_ & _ & Hs). apply StronglySorted_inv in Hs as [_ Hs].
    apply Z.ltb_lt in Hl. constructor; [done|]. eapply Forall_impl; [exact Hs|]. cbn. intros y Hy. lia.
  - assert (Hle : Forall (fun l => txi_Priority l <= txi_Priority x) chain).
    { apply Forall_forall. intros l Hin. apply List.find_none with (x := l) in Ef; [|by apply list_elem_of_In]. lia. }
    destruct chain as [|y l1 _] using rev_ind; [exists [], []; auto|]. rewrite last_snoc. exists (l1 ++ [y]), [].
    rewrite app_nil_r. split; [done|].
    assert (Hne : txi_KernelProgramID y <> 0) by (by apply Forall_app in Hz as [_ [? _]%Forall_cons]).
    unfold tcxAnchor, TCXAttachAfter. cbn [First BeforeProgID AfterProgID negb Z.eqb]. rewrite (proj2 (Z.eqb_neq _ _) Hne).
    cbn [negb place]. rewrite beside_split by (done || by eapply chain_distinct). rewrite <- app_assoc. done.
Qed.

(** C28: a TCX link is placed by priority. The recorded links of a hook are in
    order of priority with no program twice; those of programs the kernel no
    longer has are dropped, all or none of a program's. On the chain of the
    others the anchor computed for a new link is accepted and puts it behind
    every link of at most its priority and before every link of a greater one. *)
Theorem tcx_chain_order {W} (isLive : Z -> M W bool) links chain x w w' :
  tcx_chain links -> filterLiveTCXLinks isLive links w = (Ok chain, w') ->
  (exists verdict : Z -> bool, chain = filter (fun l => verdict (txi_KernelProgramID l) = true) links) /\
  exists l1 l2, chain = l1 ++ l2 /\
    place (tcxAnchor (computeTCXAttachOrder chain (txi_Priority x))) x chain = Some (l1 ++ x :: l2) /\
    Forall (fun l => txi_Priority l <= txi_Priority x) l1 /\ Forall (fun l => txi_Priority x < txi_Priority l) l2.
Proof.
  intros Hc Hf. apply filterLive_loop_spec in Hf as (verdict & _ & Hchain). cbn [app] in Hchain. split; [by exists verdict|].
  assert (Hc' : tcx_chain chain) by (rewrite Hchain; by apply tcx_chain_filter). by apply compute_place.
Qed.

Lemma tcx_chain_order_witness :
  let a := mkTCXLinkInfo 1 11 101 10 in let b := mkTCXLinkInfo 2 12 102 20 in let c := mkTCXLinkInfo 3 13 103 30 in
  let x := mkTCXLinkInfo 4 14 104 20 in
  filterLiveTCXLinks (fun id (n : nat) => (Ok (negb (id =? 101)), S n)) [a; b; c] O = (Ok [b; c], 3%nat) /\
  exists l1 l2, [b; c] = l1 ++ l2 /\
    place (tcxAnchor (computeTCXAttachOrder [b; c] 20)) x [b; c] = Some (l1 ++ x :: l2).
Proof.
  intros a b c x.
  destruct (tcx_chain_order (fun id (n : nat) => (Ok (negb (id =? 101)), S n)) [a; b; c] [b; c] x O 3%nat)
    as [_ (l1 & l2 & Hl & Hp & _)]; [|reflexivity|].
  - split; [repeat constructor; cbn; lia|]. split; [|repeat constructor; discriminate].
    cbn. repeat (constructor; [set_solver|]). constructor.
  - split; [reflexivity|]. exists l1, l2. split; [exact Hl|exact Hp].
Defined.

(** An owner, two dependents (one of them owning nothing) and a live dependent's owner. *)
Definition reap_record (id : Z) (owner : option Z) : Z * ProgramRecord :=
  (id, mkProgramRecord id zeroLoadSpec "GPL" true (mkProgramHandles [] [] owner) (mkProgramMeta "p" "" "" ∅) 0 None).

Example planReap_chain :
  planReap (mkReapSnapshot
    (list_to_map [reap_record 1 None; reap_record 2 (Some 1); reap_record 3 (Some 1);
                  reap_record 4 None; reap_record 5 (Some 4)]) {[ 5 ]}) = Some [2; 3; 1].
Proof. vm_compute. reflexivity. Qed.

Example orderProgramDeletes_owner_named_first :
  orderProgramDeletes [1; 4; 2; 3] (list_to_map [(1, [2; 3]); (4, [5])]) = Some [2; 3; 1; 4].
Proof. vm_compute. reflexivity. Qed.
