(* ===== verification/Platform.v ===== *)
(** * The platform interfaces (platform/interfaces.go)

    The kernel adapter and the network-namespace and os calls are outside the
    modelled code: they are the operations of the class [KernelOps] on an
    abstract state [K]. What the manager relies on is the class [KernelLaws],
    stated through [kview], the observable part of the kernel state: what is
    pinned where in the bpffs, and the TC filters. The dispatcher store is the
    class [DispatcherStore] with its laws; the SQLite model discharges it. *)

From Stdlib Require Import ZArith Lia String Sorted.
From stdpp Require Import base tactics sets list gmap strings numbers.
From S2P Require Import Prelude Actions Dispatcher Domain Slots Layout.

Local Open Scope string_scope.
Local Open Scope list_scope.
Local Open Scope Z_scope.

(** ** Results of dispatcher operations *)

Record XDPDispatcherResult := mkXDPDispatcherResult {
  xr_DispatcherID : Z; xr_KernelLinkID : Z; xr_DispatcherPin : path; xr_LinkPin : path }.

Record TCDispatcherResult := mkTCDispatcherResult {
  tr_DispatcherID : Z; tr_DispatcherPin : path; tr_Handle : Z; tr_Priority : Z }.

Record ExtensionLinkInfo := mkExtensionLinkInfo {
  xi_KernelLinkID : Z; xi_TargetProgID : Z; xi_TargetBtfID : Z; xi_AttachType : Z }.

(** ** Kernel operations (KernelOperations), package netns and package os *)

(** What os.Stat reports, and a map as the kernel reports it (kernel.Map). *)
Record FileInfo := mkFileInfo { fi_IsRegular : bool; fi_IsDir : bool }.
Record kernelMap := mkKernelMap { km_ID : Z; km_Name : string }.

(** Proof that the writer lock is held (lock.WriterScope). *)
Definition WriterScope : Type := unit.

(** The provenance written beside a published object (fs.Provenance). *)
Record Provenance := mkProvenance {
  pv_Version : Z; pv_ProgramID : Z; pv_ProgramName : string; pv_Source : string;
  pv_SourceKind : string; pv_LoadedAt : Z }.

Class KernelOps (K : Type) := {
  LoadAndPinXDPDispatcher : XDPConfig -> path -> M K Z;
  LoadAndPinTCDispatcher : TCConfig -> path -> M K Z;
  AttachXDPExtension : ExtensionAttachSpec -> M K AttachOutput;
  AttachTCExtension : ExtensionAttachSpec -> M K AttachOutput;
  GetExtensionLinkInfo : path -> M K ExtensionLinkInfo;
  CreateXDPLink : path -> Z -> path -> string -> M K XDPDispatcherResult;
  UpdateXDPDispatcherLink : path -> path -> M K unit;
  CreateTCFilter : path -> Z -> string -> string -> string -> Z -> M K TCDispatcherResult;
  DetachTCFilter : Z -> string -> Z -> Z -> Z -> string -> M K unit;
  RemoveTCClsactIfUnused : Z -> string -> string -> M K unit;
  DetachLink : path -> M K unit;
  RemovePin : path -> M K unit;
  AttachTracepoint : path -> string -> string -> path -> M K AttachOutput;
  AttachKprobe : path -> string -> Z -> bool -> path -> M K AttachOutput;
  AttachUprobeLocal : path -> string -> string -> Z -> Z -> bool -> path -> M K AttachOutput;
  AttachUprobeContainer : option WriterScope -> path -> string -> string -> Z -> Z -> bool -> path -> Z -> M K AttachOutput;
  AttachFentry : path -> string -> path -> M K AttachOutput;
  AttachFexit : path -> string -> path -> M K AttachOutput;
  AttachTCX : Z -> string -> path -> path -> string -> TCXAttachOrder -> M K AttachOutput;
  KLoad : LoadSpec -> path -> M K LoadOutput;
  KUnload : path -> M K unit;
  InterfaceByName : string -> string -> M K Z;
  ListTracepoints : M K (list string);
  NSID : string -> M K Z;                     (* netns.NSID *)
  GetProgramByID : Z -> M K kernelProgram;
  Programs : K -> list (result kernelProgram);   (* the steps of the iterator *)
  GetMapByID : Z -> M K kernelMap;
  HasPinByName : LoadSpec -> M K bool;
  acquireWriter : M K unit;                      (* package lock *)
  time_Now : K -> Z;
  os_Stat : string -> M K FileInfo;
  os_Remove : path -> M K unit;
  os_RemoveAll : path -> M K unit;
  os_MkdirAll : path -> M K unit;
  os_MkdirTemp : path -> string -> M K path;
  os_Rename : path -> path -> M K unit;
  copyFile : string -> path -> M K unit;         (* os.Open, os.OpenFile, io.Copy *)
  writeJSON : path -> Provenance -> M K unit;    (* json.MarshalIndent, os.WriteFile *)
}.

(** Constants of the netlink package. *)
Class NetConsts := {
  HANDLE_MIN_INGRESS : Z;
  HANDLE_MIN_EGRESS : Z;
}.

(** tcDispatcherPriority (platform/ebpf/attach_tc.go) *)
Definition tcDispatcherPriority : Z := 50.

(** The parent handle of a direction, as CreateTCFilter chooses it. *)
Definition dir_parent `{!NetConsts} (direction : string) : Z :=
  if String.eqb direction TCDirectionIngress then HANDLE_MIN_INGRESS else HANDLE_MIN_EGRESS.

(** internal/tcpolicy *)
Definition ReclaimClsactOnDetach : bool := false.

(** ** The observable kernel state *)

Inductive kobj :=
| KXDPDispatcher (id : Z) (cfg : XDPConfig)
| KTCDispatcher (id : Z) (cfg : TCConfig)
| KProg (id : Z)
| KOuterLink (lid prog : Z)              (* XDP link of an interface and the program it runs *)
| KExtension (lid disp pos prog : Z)     (* freplace link into slot [pos] of [disp] *)
| KOther.

Definition prog_id (o : kobj) : option Z :=
  match o with
  | KXDPDispatcher id _ | KTCDispatcher id _ | KProg id => Some id
  | _ => None
  end.

(** A TC filter is identified by namespace, ifindex, parent, priority and
    handle; it runs the program it maps to. *)
Abbreviation fkey := (Z * Z * Z * Z * Z)%type.

Record kview := mkKview { kv_pins : gmap path kobj; kv_filters : gmap (Z * Z * Z * Z * Z) Z }.

Definition pin (p : path) (o : kobj) (v : kview) : kview :=
  mkKview (<[p := o]> (kv_pins v)) (kv_filters v).
Definition unpin (p : path) (v : kview) : kview :=
  mkKview (delete p (kv_pins v)) (kv_filters v).
Definition unpin_under (d : path) (v : kview) : kview :=
  mkKview (filter (fun kv => ~ d `prefix_of` kv.1) (kv_pins v)) (kv_filters v).
Definition add_filter (f : Z * Z * Z * Z * Z) (prog : Z) (v : kview) : kview :=
  mkKview (kv_pins v) (<[f := prog]> (kv_filters v)).
Definition del_filter (f : Z * Z * Z * Z * Z) (v : kview) : kview :=
  mkKview (kv_pins v) (delete f (kv_filters v)).

(** An operation that does not change the view. *)
Definition reads {K A} (view : K -> kview) (m : M K A) : Prop := forall k, view (snd (m k)) = view k.

(** An operation whose failure does not change the view. *)
Definition fails_clean {K A} (view : K -> kview) (m : M K A) : Prop :=
  forall k e k', m k = (Err e, k') -> view k' = view k.

(** At most the pin at [p] differs. *)
Definition only_at (p : path) (v v' : kview) : Prop :=
  kv_filters v' = kv_filters v /\ forall q, q <> p -> kv_pins v' !! q = kv_pins v !! q.

(** An operation whose failure may only change the pin at [p]. *)
Definition fails_at {K A} (view : K -> kview) (p : path) (m : M K A) : Prop :=
  forall k e k', m k = (Err e, k') -> only_at p (view k) (view k').

(** Only pins in [P] differ. *)
Definition only_in (P : path -> Prop) (v v' : kview) : Prop :=
  kv_filters v' = kv_filters v /\ forall q, ~ P q -> kv_pins v' !! q = kv_pins v !! q.

(** An operation that, whether it succeeds or fails, changes only pins in [P]. *)
Definition confined_to {K A} (view : K -> kview) (P : path -> Prop) (m : M K A) : Prop :=
  forall k, only_in P (view k) (view (snd (m k))).

(** The attach of a standalone program: success pins one link at the free
    path [lp]; failure may leave something there and nothing elsewhere. *)
Definition attaches {K} (view : K -> kview) (lp : path) (m : M K AttachOutput) : Prop :=
  (forall k out k', m k = (Ok out, k') ->
     kv_pins (view k) !! lp = None /\ view k' = pin lp KOther (view k) /\ ao_PinPath out = lp) /\
  fails_at view lp m.

(** Where Load pins programs, maps and shared maps. *)
Definition load_area (base q : path) : Prop :=
  (exists id, 0 <= id /\ q = ProgPinPath base id) \/ Maps base `prefix_of` q \/ SharedMapPinDir base `prefix_of` q.

(** ** What the manager relies on

    Loading pins a fresh object and refuses an occupied path; attaching an
    extension needs both programs pinned and pins a link into the slot;
    creating and updating the outer link follow the pinned program; detaching
    and unpinning remove the pin and succeed when it is already gone; a failed
    load, create or update leaves no residue (the adapter closes the object it
    created). A failed extension attach removes whatever is pinned at the
    link path, and only logs when that fails, so the pin there is all it may
    change. A new TC filter has the fixed priority and a non-zero
    handle, the requested one if any, and never replaces another filter;
    since the adapter can fail after the kernel has accepted the filter, a failed
    creation may leave that one filter behind. Load pins the program under
    its kernel ID, refusing an occupied path, and reports the paths of the
    layout; it works in its own area of the bpffs even when it fails. Unload
    removes a pin, or a directory with its pins. The os calls on files
    outside the bpffs leave the pins elsewhere alone. *)
Class KernelLaws (K : Type) `{!KernelOps K} `{!NetConsts} := {
  view : K -> kview;
  ns_of : string -> Z;   (* the namespace a path stands for, "" being the caller's *)
  law_nsid p : reads view (NSID p);
  law_nsid_value p k n k' : NSID p k = (Ok n, k') -> n = ns_of p;
  law_ns_range p : 0 <= ns_of p < 2 ^ 64;
  law_parents : HANDLE_MIN_INGRESS <> HANDLE_MIN_EGRESS;
  law_stat p : reads view (os_Stat p);
  law_info p : reads view (GetExtensionLinkInfo p);
  law_load_xdp cfg p k id k' :
    LoadAndPinXDPDispatcher cfg p k = (Ok id, k') ->
    kv_pins (view k) !! p = None /\ view k' = pin p (KXDPDispatcher id cfg) (view k);
  law_load_xdp_err cfg p : fails_clean view (LoadAndPinXDPDispatcher cfg p);
  law_load_tc cfg p k id k' :
    LoadAndPinTCDispatcher cfg p k = (Ok id, k') ->
    kv_pins (view k) !! p = None /\ view k' = pin p (KTCDispatcher id cfg) (view k);
  law_load_tc_err cfg p : fails_clean view (LoadAndPinTCDispatcher cfg p);
  law_ext_xdp s k out k' :
    AttachXDPExtension s k = (Ok out, k') ->
    exists lid disp prog od op,
      kv_pins (view k) !! xs_DispatcherPinPath s = Some od /\ prog_id od = Some disp /\
      kv_pins (view k) !! xs_ProgPinPath s = Some op /\ prog_id op = Some prog /\
      kv_pins (view k) !! xs_LinkPinPath s = None /\
      ao_KernelLinkID out = Some lid /\
      view k' = pin (xs_LinkPinPath s) (KExtension lid disp (xs_Position s) prog) (view k);
  law_ext_xdp_err s : fails_at view (xs_LinkPinPath s) (AttachXDPExtension s);
  law_ext_tc s k out k' :
    AttachTCExtension s k = (Ok out, k') ->
    exists lid disp prog od op,
      kv_pins (view k) !! xs_DispatcherPinPath s = Some od /\ prog_id od = Some disp /\
      kv_pins (view k) !! xs_ProgPinPath s = Some op /\ prog_id op = Some prog /\
      kv_pins (view k) !! xs_LinkPinPath s = None /\
      ao_KernelLinkID out = Some lid /\
      view k' = pin (xs_LinkPinPath s) (KExtension lid disp (xs_Position s) prog) (view k);
  law_ext_tc_err s : fails_at view (xs_LinkPinPath s) (AttachTCExtension s);
  law_create_link pp ifindex lp ns k r k' :
    CreateXDPLink pp ifindex lp ns k = (Ok r, k') ->
    exists o id,
      kv_pins (view k) !! pp = Some o /\ prog_id o = Some id /\
      kv_pins (view k) !! lp = None /\
      view k' = pin lp (KOuterLink (xr_KernelLinkID r) id) (view k);
  law_create_link_err pp ifindex lp ns : fails_clean view (CreateXDPLink pp ifindex lp ns);
  law_update_link lp pp k k' :
    UpdateXDPDispatcherLink lp pp k = (Ok tt, k') ->
    exists o id lid old,
      kv_pins (view k) !! pp = Some o /\ prog_id o = Some id /\
      kv_pins (view k) !! lp = Some (KOuterLink lid old) /\
      view k' = pin lp (KOuterLink lid id) (view k);
  law_update_link_err lp pp : fails_clean view (UpdateXDPDispatcherLink lp pp);
  law_create_filter pp ifindex ifname dir ns h k r k' :
    CreateTCFilter pp ifindex ifname dir ns h k = (Ok r, k') ->
    exists o,
      kv_pins (view k) !! pp = Some o /\ prog_id o = Some (tr_DispatcherID r) /\
      tr_Priority r = tcDispatcherPriority /\ in_uint32 (tr_Handle r) /\ tr_Handle r <> 0 /\
      (h <> 0 -> tr_Handle r = h) /\
      kv_filters (view k) !! (ns_of ns, ifindex, dir_parent dir, tr_Priority r, tr_Handle r) = None /\
      view k' = add_filter (ns_of ns, ifindex, dir_parent dir, tr_Priority r, tr_Handle r)
                  (tr_DispatcherID r) (view k);
  law_create_filter_err pp ifindex ifname dir ns h k e k' :
    CreateTCFilter pp ifindex ifname dir ns h k = (Err e, k') ->
    view k' = view k \/
    exists handle prog,
      kv_filters (view k) !! (ns_of ns, ifindex, dir_parent dir, tcDispatcherPriority, handle) = None /\
      view k' = add_filter (ns_of ns, ifindex, dir_parent dir, tcDispatcherPriority, handle) prog (view k);
  law_detach_filter ifindex ifname parent prio h ns k k' :
    DetachTCFilter ifindex ifname parent prio h ns k = (Ok tt, k') ->
    view k' = del_filter (ns_of ns, ifindex, parent, prio, h) (view k);
  law_detach_filter_err ifindex ifname parent prio h ns :
    fails_clean view (DetachTCFilter ifindex ifname parent prio h ns);
  law_detach_link p k k' : DetachLink p k = (Ok tt, k') -> view k' = unpin p (view k);
  law_detach_link_err p : fails_at view p (DetachLink p);
  law_remove_pin p k k' : RemovePin p k = (Ok tt, k') -> view k' = unpin p (view k);
  law_remove_pin_err p : fails_at view p (RemovePin p);
  law_remove_all p k k' : os_RemoveAll p k = (Ok tt, k') -> view k' = unpin_under p (view k);
  law_remove_all_err p k e k' :
    os_RemoveAll p k = (Err e, k') ->
    errors_Is e ErrNotExist = false /\ kv_filters (view k') = kv_filters (view k) /\
    forall q, ~ p `prefix_of` q -> kv_pins (view k') !! q = kv_pins (view k) !! q;
  law_tracepoint pp g n lp : attaches view lp (AttachTracepoint pp g n lp);
  law_kprobe pp fn off r lp : attaches view lp (AttachKprobe pp fn off r lp);
  law_uprobe_local pp t fn off pid r lp : attaches view lp (AttachUprobeLocal pp t fn off pid r lp);
  law_uprobe_container sc pp t fn off pid r lp cp :
    attaches view lp (AttachUprobeContainer sc pp t fn off pid r lp cp);
  law_fentry pp fn lp : attaches view lp (AttachFentry pp fn lp);
  law_fexit pp fn lp : attaches view lp (AttachFexit pp fn lp);
  law_tcx i d pp lp ns o : attaches view lp (AttachTCX i d pp lp ns o);
  law_load spec base k out k' :
    KLoad spec base k = (Ok out, k') ->
    exists prog, lo_Program out = Some prog /\ 0 <= kp_ID prog /\
      lo_PinPath out = ProgPinPath base (kp_ID prog) /\
      lo_MapsDir out = MapPinDir base (if mapOwnerID spec =? 0 then kp_ID prog else mapOwnerID spec) /\
      kv_pins (view k) !! lo_PinPath out = None /\
      kv_pins (view k') !! lo_PinPath out = Some (KProg (kp_ID prog)) /\
      only_in (fun q => q = lo_PinPath out \/ lo_MapsDir out `prefix_of` q \/ SharedMapPinDir base `prefix_of` q)
        (view k) (view k');
  law_load_err spec base k e k' : KLoad spec base k = (Err e, k') -> only_in (load_area base) (view k) (view k');
  law_unload p k k' : KUnload p k = (Ok tt, k') -> view k' = unpin_under p (view k);
  law_unload_err p k e k' : KUnload p k = (Err e, k') -> only_in (fun q => p `prefix_of` q) (view k) (view k');
  law_interface n ns : reads view (InterfaceByName n ns);
  law_tracepoints : reads view ListTracepoints;
  law_get_program id : reads view (GetProgramByID id);
  law_get_map id : reads view (GetMapByID id);
  law_pin_by_name spec : reads view (HasPinByName spec);
  law_lock : reads view acquireWriter;
  law_remove p : confined_to view (fun q => q = p) (os_Remove p);
  law_mkdir_all p : reads view (os_MkdirAll p);
  law_mkdir_temp d pat : reads view (os_MkdirTemp d pat);
  law_mkdir_temp_ok d pat k t k' :
    os_MkdirTemp d pat k = (Ok t, k') -> exists n, plain n = true /\ t = d ++ [n];
  law_rename a b : confined_to view (fun q => a `prefix_of` q \/ b `prefix_of` q) (os_Rename a b);
  law_copy src dst : confined_to view (fun q => q = dst) (copyFile src dst);
  law_write_json p prov : confined_to view (fun q => q = p) (writeJSON p prov);
}.

(** ** Dispatcher store *)

Class DispatcherStoreOps (S : Type) := {
  GetDispatcherSnapshot : Key -> M S DispatcherSnapshot;
  ReplaceDispatcherSnapshot : DispatcherSnapshotSpec -> M S DispatcherSnapshot;
  DeleteDispatcherSnapshot : Key -> M S unit;
}.

(** The completed form of a requested member, given its link ID. *)
Definition complete_member (sp : DispatcherMemberSpec) (id : Z) : DispatcherMember :=
  mkDispatcherMember (ms_ProgramID sp) (ms_ProgramName sp) (ms_ProgPinPath sp) id
    (ms_KernelLinkID sp) (ms_LinkPinPath sp) (ms_Position sp) (ms_Priority sp) (ms_ProceedOn sp)
    (ms_Ifname sp) (ms_Metadata sp).

(** A member as the store reads it back: the program's name and pin come from
    its program row. *)
Definition with_program (name : string) (pin : path) (m : DispatcherMember) : DispatcherMember :=
  mkDispatcherMember (dm_ProgramID m) name pin (dm_LinkID m) (dm_KernelLinkID m)
    (dm_LinkPinPath m) (dm_Position m) (dm_Priority m) (dm_ProceedOn m) (dm_Ifname m)
    (dm_Metadata m).

(** The abstract content of the store: one snapshot per attach point, and the
    name and pin path of every managed program. *)
Record sview := mkSview { sv_snaps : gmap Key DispatcherSnapshot; sv_progs : gmap Z (string * path) }.

Definition stored_member (ps : gmap Z (string * path)) (m : DispatcherMember) : DispatcherMember :=
  match ps !! dm_ProgramID m with
  | Some (n, p) => with_program n p m
  | None => m
  end.

(** A replacement request with fields of the widths the Go types have. *)
Definition runtime_wf (rt : DispatcherRuntime) : Prop :=
  (forall p, rt_FilterPriority rt = Some p -> 0 <= p < 2 ^ 16) /\
  (forall h, rt_FilterHandle rt = Some h -> in_uint32 h).

Definition spec_wf (sp : DispatcherSnapshotSpec) : Prop :=
  Forall (fun m => in_uint32 (ms_ProceedOn m)) (ss_Members sp) /\
  in_uint32 (ss_Revision sp) /\ runtime_wf (ss_Runtime sp).

Class DispatcherStore (S : Type) `{!DispatcherStoreOps S} := {
  store_ok : S -> Prop;
  sview_of : S -> sview;
  get_ok k s snap s' :
    store_ok s -> GetDispatcherSnapshot k s = (Ok snap, s') ->
    store_ok s' /\ sview_of s' = sview_of s /\ sv_snaps (sview_of s) !! k = Some snap /\
    sn_Key snap = k /\ in_uint32 (sn_Revision snap) /\
    Forall (fun m => in_uint32 (dm_ProceedOn m)) (sn_Members snap);
  get_err k s e s' :
    store_ok s -> GetDispatcherSnapshot k s = (Err e, s') ->
    store_ok s' /\ sview_of s' = sview_of s /\
    (isNotFound e = true -> sv_snaps (sview_of s) !! k = None);
  replace_ok sp s snap s' :
    store_ok s -> spec_wf sp -> ReplaceDispatcherSnapshot sp s = (Ok snap, s') ->
    store_ok s' /\
    sn_Key snap = ss_Key sp /\ sn_Revision snap = ss_Revision sp /\ sn_Runtime snap = ss_Runtime sp /\
    Forall2 (fun sp m => m = complete_member sp (dm_LinkID m) /\
                         (forall id, ms_ExistingLinkID sp = Some id -> dm_LinkID m = id))
      (ss_Members sp) (sn_Members snap) /\
    Forall (fun m => is_ok (ProceedOnActions (KType (ss_Key sp)) (ms_ProceedOn m)) = true)
      (ss_Members sp) /\
    1 <= ss_Revision sp /\
    exists ms,
      ms ≡ₚ (stored_member (sv_progs (sview_of s)) <$> sn_Members snap) /\
      sview_of s' = mkSview
        (<[ss_Key sp := mkDispatcherSnapshot (ss_Key sp) (ss_Revision sp) (ss_Runtime sp) ms]>
           (sv_snaps (sview_of s)))
        (sv_progs (sview_of s));
  replace_err sp s e s' :
    store_ok s -> ReplaceDispatcherSnapshot sp s = (Err e, s') ->
    store_ok s' /\ sview_of s' = sview_of s;
  delete_ok k s s' :
    store_ok s -> DeleteDispatcherSnapshot k s = (Ok tt, s') ->
    store_ok s' /\
    sview_of s' = mkSview (delete k (sv_snaps (sview_of s))) (sv_progs (sview_of s));
  delete_err k s e s' :
    store_ok s -> DeleteDispatcherSnapshot k s = (Err e, s') ->
    store_ok s' /\ sview_of s' = sview_of s;
}.

(** ** The manager's world: kernel, store and the warn/error log *)

Inductive level := LevelWarn | LevelError.

Record world (K S : Type) := mkWorld {
  w_kernel : K;
  w_store : S;
  w_log : list (level * string);
}.
Arguments mkWorld {K S}.
Arguments w_kernel {K S}.
Arguments w_store {K S}.
Arguments w_log {K S}.

Definition onK {K S A} (m : M K A) : M (world K S) A :=
  fun w => let '(r, k) := m (w_kernel w) in (r, mkWorld k (w_store w) (w_log w)).
Definition onS {K S A} (m : M S A) : M (world K S) A :=
  fun w => let '(r, s) := m (w_store w) in (r, mkWorld (w_kernel w) s (w_log w)).
Definition log {K S} (l : level) (msg : string) : M (world K S) unit :=
  fun w => (Ok tt, mkWorld (w_kernel w) (w_store w) (w_log w ++ [(l, msg)])).

(** [if err := m(); err != nil { logger.<Level>(msg) }] *)
Definition or_log {K S A} (l : level) (msg : string) (m : M (world K S) A) : M (world K S) unit :=
  fun w => match m w with
           | (Ok _, w') => (Ok tt, w')
           | (Err _, w') => log l msg w'
           end.
