(* ===== verification/Executor.v ===== *)
(** * The dispatcher executor (manager/executor_dispatcher.go)

    Every change of the extension set rebuilds the dispatcher: load and pin a
    new revision with its .rodata configuration, attach every extension to it,
    swap the outer XDP link or the TC filter, persist the new snapshot in one
    store transaction, then drop the old revision. The functions below follow
    the source statement by statement on the world of [Platform]: best-effort
    calls append the source's warn or error message to the log when they fail.
    Info and debug messages are not recorded. *)

From Stdlib Require Import ZArith Lia String.
From stdpp Require Import base tactics sets list gmap strings numbers.
From S2P Require Import Prelude Actions Dispatcher Domain Slots Layout Platform.

Local Open Scope string_scope.
Local Open Scope list_scope.
Local Open Scope Z_scope.

Record xdpRebuildOps := mkXdpRebuildOps { xo_ifindex : Z; xo_ifname : string; xo_netnsPath : string }.

Record tcRebuildOps := mkTcRebuildOps {
  to_ifindex : Z; to_ifname : string; to_direction : string; to_dispType : DispatcherType;
  to_netnsPath : string }.

Record extensionResult := mkExtensionResult {
  er_link : Link; er_key : Key; er_revision : Z; er_position : Z; er_pinPath : path }.

(** Index of the slot being added: the last one without a link ID, or -1. *)
Fixpoint newSlotPosition (i : nat) (slots : list rebuildSlot) (cur : Z) : Z :=
  match slots with
  | [] => cur
  | s :: slots' =>
      newSlotPosition (S i) slots'
        (match rs_ExistingLinkID s with None => Z.of_nat i | Some _ => cur end)
  end.

(** A Go slice index; out of range is a runtime panic. *)
Definition index {A} (l : list A) (i : Z) : result A :=
  if i <? 0 then Err (Errorf "runtime error: index out of range")
  else result_opt (Errorf "runtime error: index out of range") (l !! Z.to_nat i).

Definition runtime_filter_old (rt : DispatcherRuntime) : Z * Z :=
  match rt_FilterPriority rt with
  | Some p => (default 0 (rt_FilterHandle rt), p)
  | None => (0, 0)
  end.

Section Executor.
Context {K D : Type} `{!KernelOps K} `{!DispatcherStoreOps D} `{!NetConsts}.
Context (base : path).
Abbreviation W := (world K D).

Definition TCParent (dt : DispatcherType) : Z :=
  TCParentHandle HANDLE_MIN_INGRESS HANDLE_MIN_EGRESS dt.

(** ** Shared steps of the four rebuilds *)

(** [cleanupExtensions] *)
Definition cleanupExtensions (msg : string) (attached : list attachedExt) : M W unit :=
  for_each attached (fun ext =>
    match ax_pinPath ext with
    | [] => ret tt
    | p => or_log LevelError msg (onK (DetachLink p))
    end).

(** [cleanupNewDispatcher] *)
Definition cleanupNewDispatcher (msg : string) (p : path) : M W unit :=
  or_log LevelError msg (onK (RemovePin p)).

(** The attach loop: on the first failure the extensions attached so far
    are detached and [cleanup] runs. *)
Fixpoint attachAll (attach : ExtensionAttachSpec -> M K AttachOutput) (detachMsg failMsg : string)
    (cleanup : M W unit) (dispProgPinPath : path) (linkPinPath : Z -> path)
    (slots : list rebuildSlot) (i : nat) (attached : list attachedExt)
    : M W (list attachedExt) :=
  match slots with
  | [] => ret attached
  | slot :: slots' =>
      let lp := linkPinPath (Z.of_nat i) in
      let* out := on_error
        (wrapping failMsg
           (onK (attach (mkExtensionAttachSpec dispProgPinPath (rs_ProgPinPath slot)
                           (rs_ProgramName slot) (Z.of_nat i) lp))))
        (fun _ => cleanupExtensions detachMsg attached;;; cleanup) in
      attachAll attach detachMsg failMsg cleanup dispProgPinPath linkPinPath slots' (S i)
        (attached ++ [mkAttachedExt out (Z.of_nat i) lp])
  end.

(** The diagnostic read-back: failures are logged and ignored. *)
Definition verifyExtensions (msg : string) (attached : list attachedExt) : M W unit :=
  for_each attached (fun ext =>
    or_log LevelWarn msg (onK (GetExtensionLinkInfo (ax_pinPath ext)))).

(** [bpffs.RemoveDispatcherRevDir] over os.RemoveAll. *)
Definition removeRevDir (p : path) : M W unit :=
  onK (RemoveDispatcherRevDir base os_RemoveAll (String_ p)).

Definition removeDispatcherRevisionDir (key : Key) (revision : Z) : M W unit :=
  removeRevDir (DispatcherRevisionDir base (KType key) (KNsid key) (KIfindex key) revision).

Definition removeDispatcherProgPin (key : Key) (revision : Z) : M W unit :=
  onK (RemovePin (DispatcherProgPath base (KType key) (KNsid key) (KIfindex key) revision)).

Definition deleteDispatcherSnapshot (key : Key) : M W unit := onS (DeleteDispatcherSnapshot key).

(** The snapshot lookup of the attach paths: not found means first attach. *)
Definition lookupSnapshot (key : Key) : M W (option DispatcherSnapshot) :=
  fun w => match onS (GetDispatcherSnapshot key) w with
           | (Ok snap, w') => (Ok (Some snap), w')
           | (Err e, w') =>
               if isNotFound e then (Ok None, w') else (Err (Wrap "get dispatcher: %w" e), w')
           end.

Definition snapMembers (snap : option DispatcherSnapshot) : list DispatcherMember :=
  match snap with Some s => sn_Members s | None => [] end.

(** Existing members followed by the new slot, in the sorted chain order. *)
Definition planSlots (snap : option DispatcherSnapshot) (newSlot : rebuildSlot)
    : result (list rebuildSlot) :=
  let allSlots := (slot_of_member <$> snapMembers snap) ++ [newSlot] in
  if Z.of_nat (length allSlots) >? MaxPrograms
  then Err (Errorf "no free dispatcher slots (all %d occupied)")
  else Ok (sortRebuildSlots allSlots).

Definition nextRevision (snap : option DispatcherSnapshot) : Z :=
  match snap with None => 1 | Some s => uint32 (sn_Revision s + 1) end.

Definition xdpConfig (slots : list rebuildSlot) : result XDPConfig :=
  let! cfg := NewXDPConfig (Z.of_nat (length slots)) in
  Ok (mkXDPConfig (XMagic cfg) (XDispatcherVersion cfg) (XNumProgsEnabled cfg) (XIsXDPFrags cfg)
        (set_actions 0 slots (XChainCallActions cfg)) (XRunPrios cfg) (XProgramFlags cfg)).

Definition tcConfig (slots : list rebuildSlot) : result TCConfig :=
  let! cfg := NewTCConfig (Z.of_nat (length slots)) in
  Ok (mkTCConfig (TNumProgsEnabled cfg) (set_actions 0 slots (TChainCallActions cfg))
        (TRunPrios cfg)).

(** The tail of both attach rebuilds: the link of the new extension. The source
    indexes [attached] and [Members] without a test, and an index out of range
    would be a panic; here it is an error. [buildResult_total] shows that the
    rebuilds never get there: the position is one of the new slots, and there
    are as many attached extensions and members as slots. *)
Definition buildResult (kind : string) (details : list Z -> Z -> LinkDetails) (decodeMsg : string)
    (managedProgramID : Z) (key : Key) (revision : Z) (newSlot : rebuildSlot)
    (slots : list rebuildSlot) (attached : list attachedExt) (completed : DispatcherSnapshot)
    : result extensionResult :=
  let pos0 := newSlotPosition 0 slots (-1) in
  let pos := if pos0 <? 0 then Z.of_nat (length attached) - 1 else pos0 in
  let! newExt := index attached pos in
  let! acts := wrap_err decodeMsg (ProceedOnActions (KType key) (rs_ProceedOn newSlot)) in
  let! m := index (sn_Members completed) pos in
  let kl := ao_KernelLink (ax_out newExt) in
  Ok (mkExtensionResult
        (mkLink
           (mkLinkRecord (dm_LinkID m) managedProgramID (dm_KernelLinkID m) kind
              (NewLinkPath (ax_pinPath newExt)) (Some (details acts pos)) 0 (dm_Metadata m))
           (mkLinkStatus kl (bool_decide (kl <> None)) (bool_decide (ax_pinPath newExt <> []))))
        key revision pos (ax_pinPath newExt)).

(** ** XDP attach (rebuildXDPDispatcher) *)

(** Create the outer link on first attach, otherwise update it. *)
Definition xdpSwap (cleanup : M W unit) (snap : option DispatcherSnapshot)
    (dispProgPinPath : path) (ifindex : Z) (dispLinkPinPath : path) (netnsPath : string) : M W Z :=
  match snap with
  | None =>
      let* r := on_error
        (wrapping "create XDP link: %w"
           (onK (CreateXDPLink dispProgPinPath ifindex dispLinkPinPath netnsPath)))
        (fun _ => cleanup) in
      ret (xr_KernelLinkID r)
  | Some s =>
      let* _ := on_error
        (wrapping "update XDP dispatcher link: %w"
           (onK (UpdateXDPDispatcherLink dispLinkPinPath dispProgPinPath)))
        (fun _ => cleanup) in
      ret (default 0 (rt_KernelLinkID (sn_Runtime s)))
  end.

(** The store transaction; its failure takes the outer link back and cleans up. *)
Definition xdpPersist (cleanup : M W unit) (snap : option DispatcherSnapshot) (key : Key)
    (dispLinkPinPath : path) (newSnap : DispatcherSnapshotSpec) : M W DispatcherSnapshot :=
  on_error (onS (ReplaceDispatcherSnapshot newSnap))
    (fun _ =>
       log LevelError "persist failed, rolling back XDP dispatcher";;;
       match snap with
       | None =>
           or_log LevelError "rollback: detach dispatcher link failed"
             (onK (DetachLink dispLinkPinPath))
       | Some s =>
           or_log LevelError "rollback: restore XDP dispatcher link failed"
             (onK (UpdateXDPDispatcherLink dispLinkPinPath
                     (DispatcherProgPath base (KType key) (KNsid key) (KIfindex key)
                        (sn_Revision s))))
       end;;;
       cleanup).

(** From the loaded dispatcher to the persisted snapshot. *)
Definition xdpInstall (ops : xdpRebuildOps) (key : Key) (snap : option DispatcherSnapshot)
    (slots : list rebuildSlot) (revision dispatcherID : Z)
    : M W (list attachedExt * DispatcherSnapshot) :=
  let dt := KType key in
  let dispProgPinPath := DispatcherProgPath base dt (KNsid key) (KIfindex key) revision in
  let dispLinkPinPath := DispatcherLinkPath base dt (KNsid key) (KIfindex key) in
  let cleanupNew :=
    cleanupNewDispatcher "rollback: remove new dispatcher pin failed" dispProgPinPath in
  let cleanup attached :=
    (cleanupExtensions "rollback: detach extension link failed" attached;;; cleanupNew) in
  let* attached := attachAll AttachXDPExtension "rollback: detach extension link failed"
    "attach XDP extension %s at position %d: %w" cleanupNew dispProgPinPath
    (ExtensionLinkPath base dt (KNsid key) (KIfindex key) revision) slots 0 [] in
  verifyExtensions "verify: extension link info failed" attached;;;
  let* linkID := xdpSwap (cleanup attached) snap dispProgPinPath (xo_ifindex ops)
    dispLinkPinPath (xo_netnsPath ops) in
  let newSnap := mkDispatcherSnapshotSpec key revision
    (mkDispatcherRuntime dispatcherID (Some linkID) None None (xo_netnsPath ops))
    (dispatcherMembers slots attached) in
  let* completed := xdpPersist (cleanup attached) snap key dispLinkPinPath newSnap in
  ret (attached, completed).

Definition removeOldRevision (msg : string) (key : Key) (snap : option DispatcherSnapshot) : M W unit :=
  match snap with
  | None => ret tt
  | Some s =>
      or_log LevelWarn msg
        (removeRevDir (DispatcherRevisionDir base (KType key) (KNsid key) (KIfindex key)
                         (sn_Revision s)))
  end.

(** From the loaded dispatcher to the result. *)
Definition xdpFinish (managedProgramID : Z) (ops : xdpRebuildOps) (newSlot : rebuildSlot) (key : Key)
    (snap : option DispatcherSnapshot) (slots : list rebuildSlot) (revision dispatcherID : Z)
    : M W extensionResult :=
  let* r := xdpInstall ops key snap slots revision dispatcherID in
  let '(attached, completed) := r in
  removeOldRevision "failed to remove old revision directory" key snap;;;
  lift (buildResult LinkKindXDP
          (fun acts pos => DXDP (mkXDPDetails (rs_Ifname newSlot) (xo_ifindex ops)
             (int32 (rs_Priority newSlot)) (int32 pos) acts "" (KNsid key) dispatcherID revision))
          "decode XDP proceed-on: %w" managedProgramID key revision newSlot slots attached completed).

Definition rebuildXDPDispatcher (managedProgramID : Z) (ops : xdpRebuildOps) (progPinPath : path)
    (programName : string) (priority proceedOn : Z) (metadata : gmap string string)
    : M W extensionResult :=
  let newSlot := mkRebuildSlot progPinPath programName priority proceedOn None managedProgramID
                   (xo_ifname ops) metadata in
  let* nsid := wrapping "get nsid: %w" (onK (NSID (xo_netnsPath ops))) in
  let key := NewKey DispatcherTypeXDP nsid (xo_ifindex ops) in
  let* snap := lookupSnapshot key in
  let* slots := lift (planSlots snap newSlot) in
  let* cfg := lift (wrap_err "create XDP dispatcher config: %w" (xdpConfig slots)) in
  let revision := nextRevision snap in
  let* dispatcherID := wrapping "load XDP dispatcher: %w"
    (onK (LoadAndPinXDPDispatcher cfg
            (DispatcherProgPath base DispatcherTypeXDP nsid (xo_ifindex ops) revision))) in
  xdpFinish managedProgramID ops newSlot key snap slots revision dispatcherID.

(** ** TC attach (rebuildTCDispatcher) *)

(** Drop the old filter once the new one is in place; failure is a warning. *)
Definition removeOldFilter (msg : string) (dt : DispatcherType) (ifindex : Z) (ifname : string)
    (old : Z * Z) (netnsPath : string) : M W unit :=
  if fst old =? 0 then ret tt
  else or_log LevelWarn msg
         (onK (DetachTCFilter ifindex ifname (TCParent dt) (snd old) (fst old) netnsPath)).

(** Persist; on failure remove the new filter, put the old one back under
    its recorded handle and clean up. *)
Definition tcPersist (logs removeMsg restoreMsg : string) (logFirst : bool) (cleanup : M W unit)
    (dt : DispatcherType) (ifindex : Z) (ifname direction netnsPath : string)
    (res : TCDispatcherResult) (old : Z * Z) (oldProgPinPath : path)
    (newSnap : DispatcherSnapshotSpec) : M W DispatcherSnapshot :=
  on_error (onS (ReplaceDispatcherSnapshot newSnap))
    (fun _ =>
       (if logFirst then log LevelError logs else ret tt);;;
       or_log LevelError removeMsg
         (onK (DetachTCFilter ifindex ifname (TCParent dt) (tr_Priority res) (tr_Handle res)
                 netnsPath));;;
       (if fst old =? 0 then ret tt
        else or_log LevelError restoreMsg
               (onK (CreateTCFilter oldProgPinPath ifindex ifname direction netnsPath (fst old))));;;
       cleanup).

Definition tcOld (snap : option DispatcherSnapshot) : Z * Z :=
  match snap with None => (0, 0) | Some s => runtime_filter_old (sn_Runtime s) end.

Definition tcInstall (ops : tcRebuildOps) (key : Key) (snap : option DispatcherSnapshot)
    (slots : list rebuildSlot) (revision dispatcherID : Z)
    : M W (list attachedExt * DispatcherSnapshot) :=
  let dt := KType key in
  let dispProgPinPath := DispatcherProgPath base dt (KNsid key) (KIfindex key) revision in
  let cleanupNew :=
    cleanupNewDispatcher "rollback: remove new TC dispatcher pin failed" dispProgPinPath in
  let cleanup attached :=
    (cleanupExtensions "rollback: detach TC extension link failed" attached;;; cleanupNew) in
  let* attached := attachAll AttachTCExtension "rollback: detach TC extension link failed"
    "attach TC extension %s at position %d: %w" cleanupNew dispProgPinPath
    (ExtensionLinkPath base dt (KNsid key) (KIfindex key) revision) slots 0 [] in
  verifyExtensions "verify: extension link info failed" attached;;;
  let old := tcOld snap in
  let* res := on_error
    (wrapping "create TC filter: %w"
       (onK (CreateTCFilter dispProgPinPath (to_ifindex ops) (to_ifname ops) (to_direction ops)
               (to_netnsPath ops) 0)))
    (fun _ => cleanup attached) in
  removeOldFilter "failed to remove old TC filter" dt (to_ifindex ops) (to_ifname ops) old
    (to_netnsPath ops);;;
  let newSnap := mkDispatcherSnapshotSpec key revision
    (mkDispatcherRuntime dispatcherID None (Some (tr_Priority res)) (Some (tr_Handle res))
       (to_netnsPath ops))
    (dispatcherMembers slots attached) in
  let* completed := tcPersist "persist failed, rolling back TC dispatcher"
    "rollback: remove new TC filter failed" "rollback: restore old TC filter failed" true
    (cleanup attached) dt (to_ifindex ops) (to_ifname ops) (to_direction ops) (to_netnsPath ops)
    res old
    (DispatcherProgPath base dt (KNsid key) (KIfindex key)
       (match snap with Some s => sn_Revision s | None => 0 end))
    newSnap in
  ret (attached, completed).

Definition tcFinish (managedProgramID : Z) (ops : tcRebuildOps) (newSlot : rebuildSlot) (key : Key)
    (snap : option DispatcherSnapshot) (slots : list rebuildSlot) (revision dispatcherID : Z)
    : M W extensionResult :=
  let* r := tcInstall ops key snap slots revision dispatcherID in
  let '(attached, completed) := r in
  removeOldRevision "failed to remove old TC revision directory" key snap;;;
  lift (buildResult LinkKindTC
          (fun acts pos => DTC (mkTCDetails (rs_Ifname newSlot) (to_ifindex ops) (to_direction ops)
             (int32 (rs_Priority newSlot)) (int32 pos) acts "" (KNsid key) dispatcherID revision))
          "decode TC proceed-on: %w" managedProgramID key revision newSlot slots attached completed).

Definition rebuildTCDispatcher (managedProgramID : Z) (ops : tcRebuildOps) (progPinPath : path)
    (programName : string) (priority proceedOn : Z) (metadata : gmap string string)
    : M W extensionResult :=
  let newSlot := mkRebuildSlot progPinPath programName priority proceedOn None managedProgramID
                   (to_ifname ops) metadata in
  let* nsid := wrapping "get nsid: %w" (onK (NSID (to_netnsPath ops))) in
  let key := NewKey (to_dispType ops) nsid (to_ifindex ops) in
  let* snap := lookupSnapshot key in
  let* slots := lift (planSlots snap newSlot) in
  let* cfg := lift (wrap_err "create TC dispatcher config: %w" (tcConfig slots)) in
  let revision := nextRevision snap in
  let* dispatcherID := wrapping "load TC dispatcher: %w"
    (onK (LoadAndPinTCDispatcher cfg
            (DispatcherProgPath base (to_dispType ops) nsid (to_ifindex ops) revision))) in
  tcFinish managedProgramID ops newSlot key snap slots revision dispatcherID.

(** ** Removal of an empty dispatcher *)

Definition detachXDPOuterLink (key : Key) : M W unit :=
  onK (DetachLink (DispatcherLinkPath base (KType key) (KNsid key) (KIfindex key))).

Definition detachTCDispatcherFilter (snap : DispatcherSnapshot) : M W unit :=
  let key := sn_Key snap in
  let rt := sn_Runtime snap in
  (match rt_FilterHandle rt with
   | Some h =>
       if h =? 0 then ret tt
       else onK (DetachTCFilter (KIfindex key) (snapInterfaceName (sn_Members snap))
                   (TCParent (KType key)) (default 0 (rt_FilterPriority rt)) h (rt_NetnsPath rt))
   | None => ret tt
   end);;;
  (if ReclaimClsactOnDetach
   then onK (RemoveTCClsactIfUnused (KIfindex key) (snapInterfaceName (sn_Members snap))
               (rt_NetnsPath rt))
   else ret tt).

(** Kernel detach is the point of no return; afterwards only the snapshot
    deletion can fail the call. *)
Definition removeEmptyDispatcher (snap : DispatcherSnapshot) : M W unit :=
  let key := sn_Key snap in
  (if isTCDispatcherType (KType key)
   then wrapping "detach TC dispatcher filter: %w" (detachTCDispatcherFilter snap)
   else wrapping "detach XDP outer link: %w" (detachXDPOuterLink key));;;
  or_log LevelWarn "failed to remove orphaned dispatcher program pin"
    (removeDispatcherProgPin key (sn_Revision snap));;;
  or_log LevelWarn "failed to remove orphaned dispatcher revision directory"
    (removeDispatcherRevisionDir key (sn_Revision snap));;;
  wrapping "delete dispatcher snapshot: %w" (deleteDispatcherSnapshot key).

Definition removeDispatcherIfEmpty (key : Key) : M W unit :=
  let* snap := wrapping "get dispatcher snapshot: %w" (onS (GetDispatcherSnapshot key)) in
  match sn_Members snap with
  | [] => removeEmptyDispatcher snap
  | _ => ret tt
  end.

(** ** Detach rebuilds *)

Definition rebuildXDPForDetach (snap : DispatcherSnapshot) (slots : list rebuildSlot)
    (revision : Z) (progPinPath : path) : M W unit :=
  let key := sn_Key snap in
  let* cfg := lift (wrap_err "create XDP dispatcher config for detach rebuild: %w" (xdpConfig slots)) in
  let* dispatcherID := wrapping "load XDP dispatcher for detach rebuild: %w"
    (onK (LoadAndPinXDPDispatcher cfg progPinPath)) in
  let cleanupNewRevision :=
    or_log LevelError "rollback: remove XDP detach-rebuild revision failed"
      (removeDispatcherRevisionDir key revision) in
  let cleanup attached :=
    (cleanupExtensions "rollback: detach XDP detach-rebuild extension failed" attached;;;
     cleanupNewRevision) in
  let* attached := attachAll AttachXDPExtension
    "rollback: detach XDP detach-rebuild extension failed"
    "re-attach XDP extension %s at position %d: %w" cleanupNewRevision progPinPath
    (ExtensionLinkPath base (KType key) (KNsid key) (KIfindex key) revision) slots 0 [] in
  verifyExtensions "verify: extension link info failed (detach rebuild)" attached;;;
  let linkPinPath := DispatcherLinkPath base (KType key) (KNsid key) (KIfindex key) in
  on_error (wrapping "update XDP dispatcher link: %w"
              (onK (UpdateXDPDispatcherLink linkPinPath progPinPath)))
    (fun _ => cleanup attached);;;
  let newSnap := mkDispatcherSnapshotSpec key revision
    (mkDispatcherRuntime dispatcherID (rt_KernelLinkID (sn_Runtime snap)) None None
       (rt_NetnsPath (sn_Runtime snap)))
    (dispatcherMembers slots attached) in
  let* _ := on_error (onS (ReplaceDispatcherSnapshot newSnap))
    (fun _ =>
       or_log LevelError "rollback: restore XDP detach-rebuild dispatcher link failed"
         (onK (UpdateXDPDispatcherLink linkPinPath
                 (DispatcherProgPath base (KType key) (KNsid key) (KIfindex key)
                    (sn_Revision snap))));;;
       cleanup attached) in
  removeOldRevision "failed to remove old revision directory" key (Some snap).

Definition rebuildTCForDetach (snap : DispatcherSnapshot) (slots : list rebuildSlot)
    (revision : Z) (progPinPath : path) : M W unit :=
  let key := sn_Key snap in
  let dispType := KType key in
  let netnsPath := rt_NetnsPath (sn_Runtime snap) in
  let ifname := snapInterfaceName (sn_Members snap) in
  let* cfg := lift (wrap_err "create TC dispatcher config for detach rebuild: %w" (tcConfig slots)) in
  let* dispatcherID := wrapping "load TC dispatcher for detach rebuild: %w"
    (onK (LoadAndPinTCDispatcher cfg progPinPath)) in
  let cleanupNewRevision :=
    or_log LevelError "rollback: remove TC detach-rebuild revision failed"
      (removeDispatcherRevisionDir key revision) in
  let cleanup attached :=
    (cleanupExtensions "rollback: detach TC detach-rebuild extension failed" attached;;;
     cleanupNewRevision) in
  let* attached := attachAll AttachTCExtension
    "rollback: detach TC detach-rebuild extension failed"
    "re-attach TC extension %s at position %d: %w" cleanupNewRevision progPinPath
    (ExtensionLinkPath base dispType (KNsid key) (KIfindex key) revision) slots 0 [] in
  verifyExtensions "verify: extension link info failed (detach rebuild)" attached;;;
  let old := runtime_filter_old (sn_Runtime snap) in
  let direction :=
    if bool_decide (dispType = DispatcherTypeTCIngress)
    then TCDirectionIngress else TCDirectionEgress in
  let* res := on_error
    (wrapping "create TC filter for detach rebuild: %w"
       (onK (CreateTCFilter progPinPath (KIfindex key) ifname direction netnsPath 0)))
    (fun _ => cleanup attached) in
  removeOldFilter "failed to remove old TC filter after detach rebuild" dispType (KIfindex key)
    ifname old netnsPath;;;
  let newSnap := mkDispatcherSnapshotSpec key revision
    (mkDispatcherRuntime (tr_DispatcherID res) None (Some (tr_Priority res))
       (Some (tr_Handle res)) netnsPath)
    (dispatcherMembers slots attached) in
  let* _ := tcPersist "" "rollback: remove TC detach-rebuild filter failed"
    "rollback: restore TC detach-rebuild filter failed" false (cleanup attached) dispType
    (KIfindex key) ifname direction netnsPath res old
    (DispatcherProgPath base dispType (KNsid key) (KIfindex key) (sn_Revision snap)) newSnap in
  removeOldRevision "failed to remove old TC revision directory" key (Some snap).

Definition with_members (ms : list DispatcherMember) (snap : DispatcherSnapshot) : DispatcherSnapshot :=
  mkDispatcherSnapshot (sn_Key snap) (sn_Revision snap) (sn_Runtime snap) ms.

Definition rebuildDispatcherForDetach (key : Key) (excludeLinkID : Z) : M W unit :=
  let* snap0 := wrapping "get dispatcher snapshot: %w" (onS (GetDispatcherSnapshot key)) in
  let snap := with_members
    (filter (fun m => dm_LinkID m <> excludeLinkID) (sn_Members snap0)) snap0 in
  match sn_Members snap with
  | [] => removeEmptyDispatcher snap
  | _ =>
      let* gone :=
        (if String.eqb (rt_NetnsPath (sn_Runtime snap)) "" then ret false
         else let* r := attempt (onK (os_Stat (rt_NetnsPath (sn_Runtime snap)))) in
              ret (match r with Ok _ => false | Err e => errors_Is e ErrNotExist end)) in
      if (gone : bool) then removeEmptyDispatcher snap
      else
        let slots := sortRebuildSlots (slot_of_member_detach <$> sn_Members snap) in
        let revision := uint32 (sn_Revision snap + 1) in
        let progPinPath :=
          DispatcherProgPath base (KType key) (KNsid key) (KIfindex key) revision in
        if bool_decide (KType key = DispatcherTypeXDP)
        then rebuildXDPForDetach snap slots revision progPinPath
        else rebuildTCForDetach snap slots revision progPinPath
  end.
End Executor.
