(* ===== verification/Bytecode.v ===== *)
(** * Published bytecode (fs/runtime.go, fs/helpers.go)

    A loaded program's object file is kept under <base>/programs/{id}, put
    there by renaming a staging directory, so that a reader sees either the
    complete directory or none. The directory is removed again when the
    program goes, and only below its parent. *)

From Stdlib Require Import ZArith Lia String.
From stdpp Require Import base tactics sets list gmap strings numbers.
From S2P Require Import Prelude Actions Dispatcher Domain Slots Layout Platform.

Local Open Scope string_scope.
Local Open Scope list_scope.
Local Open Scope Z_scope.

(** [filepath.Join] of a clean rooted path and a name. *)
Definition Join_ (dir : path) (name : string) : path := clean_segs dir (Split slash name).

Definition bytecodeName : string := "bytecode.o".
Definition provName : string := "provenance.json".

Section Bytecode.
Context {K : Type} `{!KernelOps K} (base : path).

Definition programsPath : path := base ++ ["programs"].
Definition stagingPath : path := base ++ [".staging"].
Definition ProgramDir (id : Z) : path := base ++ ["programs"; FormatUint id].
Definition ProgramBytecodePath (id : Z) : path := ProgramDir id ++ [bytecodeName].
Definition ProgramProvenancePath (id : Z) : path := ProgramDir id ++ [provName].

(** Both paths are clean and rooted, so [filepath.Rel] fails only on a
    target that is not rooted, and climbs unless the target is below. *)
Definition safeRemoveAll (parent : path) (target : string) : M K unit :=
  match Clean target with
  | None => throw (Sentinel ErrOutsideLayout)
  | Some t =>
      if strictly_under parent t
      then wrapping "remove_all" (os_RemoveAll t)
      else throw (Sentinel ErrOutsideLayout)
  end.

Definition validateRegularFile (p : string) : M K unit :=
  let* fi := wrapping "validate" (os_Stat p) in
  if fi_IsRegular fi then ret tt
  else throw (Wrap "validate" (Errorf "not a regular file")).

(** The part of [PublishBytecode] the deferred clean-up covers. *)
Definition stageBytecode (srcPath : string) (prov : Provenance) (tmpDir finalDir : path) : M K unit :=
  wrapping "publish" (copyFile srcPath (tmpDir ++ [bytecodeName]));;;
  wrapping "publish" (writeJSON (tmpDir ++ [provName]) prov);;;
  wrapping "publish" (os_Rename tmpDir finalDir).

Definition PublishBytecode (id : Z) (srcPath : string) (prov : Provenance) : M K unit :=
  validateRegularFile srcPath;;;
  let finalDir := ProgramDir id in
  let* st := attempt (os_Stat (String_ finalDir)) in
  match st with
  | Ok _ => throw (Wrap "%w: %s" (Sentinel ErrFinalExists))
  | Err e =>
      if negb (errors_Is e ErrNotExist) then throw (Wrap "publish" e)
      else
        wrapping "publish" (os_MkdirAll programsPath);;;
        wrapping "publish" (os_MkdirAll stagingPath);;;
        let* tmpDir := wrapping "publish" (os_MkdirTemp stagingPath "pub-*") in
        on_error (stageBytecode srcPath prov tmpDir finalDir)
          (fun _ => best_effort (safeRemoveAll stagingPath (String_ tmpDir)))
  end.

Definition RemoveProgram (id : Z) : M K unit := safeRemoveAll programsPath (String_ (ProgramDir id)).
Definition RemoveProgramDir (p : string) : M K unit := safeRemoveAll programsPath p.
Definition RemoveStagingDir (p : string) : M K unit := safeRemoveAll stagingPath p.
End Bytecode.
