(* ===== verification/Rebuild.v ===== *)
(** * Correctness of the dispatcher rebuilds

    Proved against the interfaces of [Platform]: any kernel satisfying
    [KernelLaws] and any store satisfying [DispatcherStore]. *)

From Stdlib Require Import ZArith Lia String Sorted.
From stdpp Require Import base tactics sets list gmap strings numbers.
From S2P Require Import Prelude Actions Dispatcher Domain Slots Layout Platform Executor.

Local Open Scope string_scope.
Local Open Scope list_scope.
Local Open Scope Z_scope.

(** ** The view algebra *)

Definition unpin_all (ps : list path) (v : kview) : kview := foldl (fun v p => unpin p v) v ps.

Lemma unpin_pin p o v : kv_pins v !! p = None -> unpin p (pin p o v) = v.
Proof. destruct v as [m f]; unfold unpin, pin; simpl; intros. by rewrite delete_insert_id. Qed.

Lemma unpin_comm p q v : unpin p (unpin q v) = unpin q (unpin p v).
Proof. unfold unpin; simpl. by rewrite delete_delete. Qed.

Lemma unpin_all_comm ps p v : unpin_all ps (unpin p v) = unpin p (unpin_all ps v).
Proof.
  revert v. induction ps as [|q ps IH]; intros v; simpl; [done|]. by rewrite unpin_comm, IH.
Qed.

Lemma unpin_all_app ps qs v : unpin_all (ps ++ qs) v = unpin_all qs (unpin_all ps v).
Proof. unfold unpin_all. apply foldl_app. Qed.

Lemma unpin_all_lookup ps v q : q ∉ ps -> kv_pins (unpin_all ps v) !! q = kv_pins v !! q.
Proof.
  revert v. induction ps as [|p ps IH]; intros v Hq; simpl; [done|].
  rewrite IH by set_solver. apply lookup_delete_ne. set_solver.
Qed.

Lemma unpin_all_filters ps v : kv_filters (unpin_all ps v) = kv_filters v.
Proof. revert v. induction ps as [|p ps IH]; intros v; simpl; [done|]. by rewrite IH. Qed.

Lemma only_at_refl p v : only_at p v v.
Proof. done. Qed.

Lemma only_at_unpin p q v v' : only_at p v v' -> only_at p (unpin q v) (unpin q v').
Proof.
  intros [Hf Hp]. split; [done|]. intros x Hx. cbn. destruct (decide (x = q)) as [->|].
  - by rewrite !lookup_delete_eq.
  - rewrite !lookup_delete_ne by done. by apply Hp.
Qed.

Lemma only_at_unpin_all ps p v v' : only_at p v v' -> only_at p (unpin_all ps v) (unpin_all ps v').
Proof. unfold unpin_all. revert v v'. induction ps as [|q ps IH]; intros v v' H; [done|]. cbn. by apply IH, only_at_unpin. Qed.

Lemma unpin_under_lookup d v q :
  ~ d `prefix_of` q -> kv_pins (unpin_under d v) !! q = kv_pins v !! q.
Proof.
  intros Hq. unfold unpin_under; simpl. destruct (kv_pins v !! q) as [o|] eqn:E.
  - by apply map_lookup_filter_Some.
  - apply map_lookup_filter_None. by left.
Qed.

Lemma pin_pin p o o' v : pin p o (pin p o' v) = pin p o v.
Proof. unfold pin; simpl. by rewrite insert_insert_eq. Qed.

Lemma pin_id p o v : kv_pins v !! p = Some o -> pin p o v = v.
Proof. destruct v as [m f]; unfold pin; simpl; intros. by rewrite insert_id. Qed.

Lemma pin_lookup p o v : kv_pins (pin p o v) !! p = Some o.
Proof. apply lookup_insert_eq. Qed.

Lemma pin_lookup_ne p q o v : p <> q -> kv_pins (pin p o v) !! q = kv_pins v !! q.
Proof. intros. by apply lookup_insert_ne. Qed.

Lemma pin_sub p o v : kv_pins v !! p = None -> kv_pins v ⊆ kv_pins (pin p o v).
Proof. intros. by apply insert_subseteq. Qed.

(** ** The log: rollback failures *)

Definition is_rollback (e : level * string) : bool :=
  match e with
  | (LevelError, msg) => match CutPrefix "rollback: " msg with Some _ => true | None => false end
  | _ => false
  end.

(** How many clean-up calls of a failure path have been logged as failed. *)
Definition rollbackFailures {K D} (w : world K D) : nat :=
  length (List.filter is_rollback (w_log w)).

Lemma rollbackFailures_other {K D} (w : world K D) (k : K) (s : D) e :
  is_rollback e = false -> rollbackFailures (mkWorld k s (w_log w ++ [e])) = rollbackFailures w.
Proof.
  intros He. unfold rollbackFailures. cbn [w_log]. rewrite List.filter_app. cbn [List.filter].
  by rewrite He, app_nil_r.
Qed.

Section Steps.
Context {K D : Type} `{!KernelOps K} {NC : NetConsts} `{!KernelLaws K} `{!DispatcherStoreOps D}.
Abbreviation W := (world K D).
Implicit Types (w : W).

Definition kv (w : W) : kview := view (w_kernel w).

Lemma onK_frame {A} (m : M K A) w r w' :
  onK (S:=D) m w = (r, w') -> w_store w' = w_store w /\ w_log w' = w_log w /\
    m (w_kernel w) = (r, w_kernel w').
Proof. unfold onK. destruct (m (w_kernel w)) as [r' k'] eqn:E. intros; simplify_eq. done. Qed.

(** A best-effort clean-up call of a failure path. *)
Lemma or_log_rollback {A} (msg : string) (m : M K A) (v' : kview) w r w' :
  is_rollback (LevelError, msg) = true ->
  (forall a k', m (w_kernel w) = (Ok a, k') -> view k' = v') ->
  or_log LevelError msg (onK (S:=D) m) w = (r, w') ->
  r = Ok tt /\ w_store w' = w_store w /\ (rollbackFailures w <= rollbackFailures w')%nat /\
  (rollbackFailures w' = rollbackFailures w -> kv w' = v').
Proof.
  intros Hmsg Hok. unfold or_log.
  destruct (onK m w) as [[a|e] w1] eqn:E; apply onK_frame in E as (Hs & Hl & Hm).
  - intros; simplify_eq. unfold rollbackFailures, kv. rewrite Hl. repeat split; eauto.
  - unfold log. intros; simplify_eq. unfold rollbackFailures, kv. simpl.
    rewrite Hl, List.filter_app, length_app. cbn [List.filter]. rewrite Hmsg. simpl.
    repeat split; [done|lia|]. intros. lia.
Qed.

Lemma or_log_frame {A} (msg : string) (m : M K A) w r w' :
  is_rollback (LevelError, msg) = true ->
  or_log LevelError msg (onK (S:=D) m) w = (r, w') ->
  r = Ok tt /\ w_store w' = w_store w /\ (rollbackFailures w <= rollbackFailures w')%nat.
Proof.
  intros Hmsg H. destruct (m (w_kernel w)) as [rm k'] eqn:E.
  eapply (or_log_rollback _ _ (view k')) in H as (? & ? & ? & _); [done|done|].
  intros a k'' Hk. by rewrite E in Hk; simplify_eq.
Qed.

Lemma cleanupExtensions_spec msg attached : forall w r w',
  is_rollback (LevelError, msg) = true ->
  Forall (fun a => ax_pinPath a <> []) attached ->
  cleanupExtensions (D:=D) msg attached w = (r, w') ->
  r = Ok tt /\ w_store w' = w_store w /\ (rollbackFailures w <= rollbackFailures w')%nat /\
  (rollbackFailures w' = rollbackFailures w ->
     kv w' = unpin_all (ax_pinPath <$> attached) (kv w)).
Proof.
  intros w r w' Hmsg Hne. revert w. induction Hne as [|a attached Ha _ IH]; intros w.
  { intros H. cbv [cleanupExtensions for_each ret] in H. by simplify_eq. }
  unfold cleanupExtensions. cbn [for_each]. unfold bind at 1.
  destruct (ax_pinPath a) as [|x p] eqn:Ep; [done|].
  destruct (or_log LevelError msg _ w) as [r1 w1] eqn:E.
  eapply (or_log_rollback _ _ (unpin (x :: p) (kv w))) in E as (-> & Hs & Hl & Hv);
    [|done|intros [] k' Hk'; by apply law_detach_link in Hk'].
  intros Hrest. apply IH in Hrest as (-> & Hs' & Hl' & Hv').
  split; [done|]. split; [congruence|]. split; [lia|].
  intros Heq. rewrite Hv', Hv by lia. cbn [fmap list_fmap unpin_all foldl]. by rewrite Ep.
Qed.

(** [cleanupNewDispatcher] *)
Lemma cleanupNewDispatcher_spec msg p w r w' :
  is_rollback (LevelError, msg) = true ->
  cleanupNewDispatcher (D:=D) msg p w = (r, w') ->
  r = Ok tt /\ w_store w' = w_store w /\ (rollbackFailures w <= rollbackFailures w')%nat /\
  (rollbackFailures w' = rollbackFailures w -> kv w' = unpin p (kv w)).
Proof.
  intros Hmsg H. eapply (or_log_rollback _ _ (unpin p (kv w))); [done| |exact H].
  intros [] k' Hk'. by apply law_remove_pin in Hk'.
Qed.

(** A clean-up action that, if nothing it does is logged as failed, takes
    the view through [f]. *)
Definition cleans (c : M W unit) (f : kview -> kview) : Prop :=
  forall w r w', c w = (r, w') ->
    w_store w' = w_store w /\ (rollbackFailures w <= rollbackFailures w')%nat /\
    (rollbackFailures w' = rollbackFailures w -> kv w' = f (kv w)).

Lemma cleanup_cleans msg attached cleanupNew f :
  is_rollback (LevelError, msg) = true ->
  Forall (fun a => ax_pinPath a <> []) attached ->
  cleans cleanupNew f ->
  cleans (cleanupExtensions (D:=D) msg attached;;; cleanupNew)
    (fun v => f (unpin_all (ax_pinPath <$> attached) v)).
Proof.
  intros Hmsg Hne Hc w r w'. unfold bind.
  destruct (cleanupExtensions msg attached w) as [r1 w1] eqn:E.
  apply cleanupExtensions_spec in E as (-> & Hs & Hl & Hv); [|done..].
  intros Hrest. apply Hc in Hrest as (Hs' & Hl' & Hv').
  split; [congruence|]. split; [lia|]. intros. rewrite Hv', Hv by lia. done.
Qed.

Lemma cleanupNew_cleans msg p :
  is_rollback (LevelError, msg) = true -> cleans (cleanupNewDispatcher (D:=D) msg p) (unpin p).
Proof. intros Hmsg w r w' H. apply cleanupNewDispatcher_spec in H as (_ & ? & ? & ?); auto. Qed.
End Steps.

(** ** The attach loop *)

Section AttachLoop.
Context {K D : Type} `{!KernelOps K} {NC : NetConsts} `{!KernelLaws K} `{!DispatcherStoreOps D}.
Abbreviation W := (world K D).
Implicit Types (w : W).

(** An extension attach operation: XDP or TC. *)
Context (attach : ExtensionAttachSpec -> M K AttachOutput).
Context (attach_ok : forall s k out k', attach s k = (Ok out, k') ->
  exists lid disp prog od op,
    kv_pins (view k) !! xs_DispatcherPinPath s = Some od /\ prog_id od = Some disp /\
    kv_pins (view k) !! xs_ProgPinPath s = Some op /\ prog_id op = Some prog /\
    kv_pins (view k) !! xs_LinkPinPath s = None /\
    ao_KernelLinkID out = Some lid /\
    view k' = pin (xs_LinkPinPath s) (KExtension lid disp (xs_Position s) prog) (view k)).
Context (attach_err : forall s, fails_at view (xs_LinkPinPath s) (attach s)).
Context (detachMsg failMsg : string) (cleanup : M W unit) (dpp : path) (lp : Z -> path).
Context (f : kview -> kview) (Hclean : cleans cleanup f).
Context (Hmsg : is_rollback (LevelError, detachMsg) = true) (Hlp : forall i, lp i <> []).

(** Slot [i] is served by extension [a], in the kernel state [v]. *)
Definition ext_ok (v : kview) (s : rebuildSlot) (a : attachedExt) (i : Z) : Prop :=
  ax_position a = i /\ ax_pinPath a = lp i /\
  exists lid disp prog od op,
    kv_pins v !! dpp = Some od /\ prog_id od = Some disp /\
    kv_pins v !! rs_ProgPinPath s = Some op /\ prog_id op = Some prog /\
    ao_KernelLinkID (ax_out a) = Some lid /\
    kv_pins v !! lp i = Some (KExtension lid disp i prog).

Lemma ext_ok_mono v v' s a i : kv_pins v ⊆ kv_pins v' -> ext_ok v s a i -> ext_ok v' s a i.
Proof.
  intros Hsub (Hp & Hpath & lid & disp & prog & od & op & H1 & H2 & H3 & H4 & H5 & H6).
  split; [done|]. split; [done|].
  exists lid, disp, prog, od, op.
  repeat split; try done; by eapply lookup_weaken.
Qed.

Abbreviation loop := (attachAll attach detachMsg failMsg cleanup dpp lp).

Lemma attachAll_ok slots : forall i attached w res w',
  loop slots i attached w = (Ok res, w') ->
  exists new,
    res = attached ++ new /\ w_store w' = w_store w /\ w_log w' = w_log w /\
    kv_pins (kv w) ⊆ kv_pins (kv w') /\
    unpin_all (ax_pinPath <$> new) (kv w') = kv w /\
    (ax_pinPath <$> new) = (fun j => lp (Z.of_nat j)) <$> seq i (length slots) /\
    forall j s, slots !! j = Some s ->
      exists a, new !! j = Some a /\ ext_ok (kv w') s a (Z.of_nat (i + j)).
Proof.
  induction slots as [|s slots IH]; intros i attached w res w'; cbn [attachAll].
  { intros [= <- <-]. exists []. rewrite app_nil_r. repeat split; try done. }
  unfold bind, on_error, wrapping.
  destruct (onK _ w) as [[out|e] w1] eqn:E; cbn [wrap_err]; [|done].
  apply onK_frame in E as (Hs & Hl & Hk).
  apply attach_ok in Hk as (lid & disp & prog & od & op & H1 & H2 & H3 & H4 & H5 & H6 & H7).
  cbn [xs_DispatcherPinPath xs_ProgPinPath xs_LinkPinPath xs_Position] in *.
  fold (kv w) in *. fold (kv w1) in *.
  intros (new & -> & Hs' & Hl' & Hsub & Hun & Hpins & Hexts)%IH.
  assert (Hsub1 : kv_pins (kv w) ⊆ kv_pins (kv w1)) by (rewrite H7; by apply pin_sub).
  exists (mkAttachedExt out (Z.of_nat i) (lp (Z.of_nat i)) :: new).
  split; [by rewrite <- app_assoc|]. split; [congruence|]. split; [congruence|].
  split; [by etrans|]. split; [|split].
  - rewrite fmap_cons. cbn [ax_pinPath].
    change (unpin_all (?x :: ?l) ?v) with (unpin_all l (unpin x v)).
    rewrite unpin_all_comm, Hun, H7. by apply unpin_pin.
  - cbn [fmap list_fmap ax_pinPath length seq]. by rewrite Hpins.
  - intros [|j] s'; cbn.
    + intros [= <-]. eexists. split; [done|]. rewrite Nat.add_0_r.
      split; [done|]. split; [done|]. exists lid, disp, prog, od, op.
      assert (kv_pins (kv w) ⊆ kv_pins (kv w')) by (by etrans).
      repeat split; try done; try (by eapply lookup_weaken).
      eapply lookup_weaken; [|exact Hsub]. rewrite H7. apply pin_lookup.
    + intros Hj. destruct (Hexts j s' Hj) as (a & Ha & Hok). exists a. split; [done|].
      by replace (i + S j)%nat with (S i + j)%nat by lia.
Qed.

Lemma attachAll_err slots : forall i attached w e w',
  Forall (fun a => ax_pinPath a <> []) attached ->
  loop slots i attached w = (Err e, w') ->
  w_store w' = w_store w /\ (rollbackFailures w <= rollbackFailures w')%nat /\
  (rollbackFailures w' = rollbackFailures w ->
     exists j v1, only_at (lp j) (unpin_all (ax_pinPath <$> attached) (kv w)) v1 /\ kv w' = f v1).
Proof.
  induction slots as [|s slots IH]; intros i attached w e w' Hne; cbn [attachAll]; [done|].
  unfold bind at 1, on_error, wrapping.
  destruct (onK _ w) as [[out|e1] w1] eqn:E; cbn [wrap_err];
    apply onK_frame in E as (Hs & Hl & Hk).
  - apply attach_ok in Hk as (lid & disp & prog & od & op & _ & _ & _ & _ & H5 & _ & H7).
    cbn [xs_LinkPinPath] in *. fold (kv w) in *. fold (kv w1) in *.
    intros (Hs' & Hr & Hv)%IH; [|apply Forall_app; split; [done|]; constructor; [apply Hlp|constructor]].
    unfold rollbackFailures in *. rewrite Hl in *. split; [congruence|]. split; [done|].
    intros Heq. destruct (Hv Heq) as (j & v1 & Hat & ->). exists j, v1. split; [|done].
    rewrite H7, fmap_app, unpin_all_app in Hat. cbn [fmap list_fmap ax_pinPath] in Hat.
    change (unpin_all [?x] ?v) with (unpin x v) in Hat.
    rewrite <- unpin_all_comm, unpin_pin in Hat by done. exact Hat.
  - destruct (bind _ _ w1) as [r2 w2] eqn:E2. intros; simplify_eq. simpl.
    assert (Hc : cleans (cleanupExtensions (D:=D) detachMsg attached;;; cleanup)
               (fun v => f (unpin_all (ax_pinPath <$> attached) v)))
      by (by apply cleanup_cleans).
    apply Hc in E2 as (Hs2 & Hr2 & Hv2). unfold rollbackFailures in *. rewrite Hl in *.
    split; [congruence|]. split; [done|]. intros Heq. rewrite Hv2 by done.
    apply attach_err in Hk. exists (Z.of_nat i), (unpin_all (ax_pinPath <$> attached) (kv w1)).
    split; [|done]. by apply only_at_unpin_all.
Qed.

Lemma verifyExtensions_spec msg attached : forall w r w',
  verifyExtensions (D:=D) msg attached w = (r, w') ->
  r = Ok tt /\ w_store w' = w_store w /\ kv w' = kv w /\
  rollbackFailures w' = rollbackFailures w.
Proof.
  induction attached as [|a attached IH]; intros w r w'.
  { intros H. cbv [verifyExtensions for_each ret] in H. by simplify_eq. }
  unfold verifyExtensions. cbn [for_each]. unfold bind at 1, or_log at 1.
  destruct (onK _ w) as [ri w1] eqn:E. apply onK_frame in E as (Hs & Hl & Hk).
  assert (Hv : kv w1 = kv w).
  { pose proof (law_info (ax_pinPath a) (w_kernel w)) as Hv. by rewrite Hk in Hv. }
  destruct ri as [info|e]; unfold log; cbn.
  - intros (-> & Hs' & Hv' & Hr)%IH. unfold rollbackFailures in *. by rewrite Hr, Hv', Hs', Hl.
  - intros (-> & Hs' & Hv' & Hr)%IH. unfold rollbackFailures in *. rewrite Hr, Hs', Hv'.
    cbn. rewrite Hl, List.filter_app. cbn [List.filter is_rollback]. by rewrite app_nil_r.
Qed.
End AttachLoop.

(** ** Swap and persist of the XDP rebuild *)

Section XDPSteps.
Context {K D : Type} `{!KernelOps K} {NC : NetConsts} `{!KernelLaws K} `{!DispatcherStoreOps D} `{!DispatcherStore D}.
Context (base : path).
Abbreviation W := (world K D).
Implicit Types (w : W).

Definition sv (w : W) : sview := sview_of (w_store w).

(** The outcome of a failing phase: the store is as before and, if every
    clean-up call succeeded, the kernel view is [v]. *)
Definition failed_back (w w' : W) (v : kview) : Prop :=
  store_ok (w_store w') /\ sv w' = sv w /\
  (rollbackFailures w <= rollbackFailures w')%nat /\
  (rollbackFailures w' = rollbackFailures w -> kv w' = v).

(** The same up to the pin of one extension of the new revision. *)
Definition failed_near (lp : Z -> path) (w w' : W) (v : kview) : Prop :=
  store_ok (w_store w') /\ sv w' = sv w /\
  (rollbackFailures w <= rollbackFailures w')%nat /\
  (rollbackFailures w' = rollbackFailures w -> exists i, only_at (lp i) v (kv w')).

Lemma failed_back_near lp w w' v : failed_back w w' v -> failed_near lp w w' v.
Proof. intros (? & ? & ? & Hv). repeat (split; [done|]). intros Heq. exists 0. by rewrite Hv. Qed.

(** What the outer link looks like before the swap, and after it. *)
Definition swapped (snap : option DispatcherSnapshot) (dlp : path) (id lid : Z) (v v' : kview) : Prop :=
  match snap with
  | None => kv_pins v !! dlp = None /\ v' = pin dlp (KOuterLink lid id) v
  | Some s => exists l old,
      kv_pins v !! dlp = Some (KOuterLink l old) /\ v' = pin dlp (KOuterLink l id) v /\
      lid = default 0 (rt_KernelLinkID (sn_Runtime s))
  end.

Lemma xdpSwap_ok cleanup snap dpp ifindex dlp ns w lid w' :
  xdpSwap (D:=D) cleanup snap dpp ifindex dlp ns w = (Ok lid, w') ->
  w_store w' = w_store w /\ w_log w' = w_log w /\
  exists o id, kv_pins (kv w) !! dpp = Some o /\ prog_id o = Some id /\
    swapped snap dlp id lid (kv w) (kv w').
Proof.
  unfold xdpSwap, bind, on_error, wrapping, ret. destruct snap as [s|].
  - destruct (onK _ w) as [[[]|e] w1] eqn:E; cbn [wrap_err]; [|done].
    apply onK_frame in E as (Hs & Hl & Hk). intros; simplify_eq. split; [done|]. split; [done|].
    apply law_update_link in Hk as (o & id & l & old & H1 & H2 & H3 & H4).
    exists o, id. repeat split; try done. by exists l, old.
  - destruct (onK _ w) as [[r|e] w1] eqn:E; cbn [wrap_err]; [|done].
    apply onK_frame in E as (Hs & Hl & Hk). intros; simplify_eq. split; [done|]. split; [done|].
    apply law_create_link in Hk as (o & id & H1 & H2 & H3 & H4).
    exists o, id. by repeat split.
Qed.

Lemma xdpSwap_err cleanup f snap dpp ifindex dlp ns w e w' :
  store_ok (w_store w) -> cleans cleanup f ->
  xdpSwap (D:=D) cleanup snap dpp ifindex dlp ns w = (Err e, w') ->
  failed_back w w' (f (kv w)).
Proof.
  intros Hst Hc. unfold xdpSwap, bind, on_error, wrapping, ret, failed_back, sv.
  destruct snap as [s|]; (destruct (onK _ w) as [[?|?] w1] eqn:E; cbn [wrap_err]; [done|]);
    apply onK_frame in E as (Hs & Hl & Hk);
    destruct (cleanup w1) as [r2 w2] eqn:E2; intros; simplify_eq; simpl;
    apply Hc in E2 as (Hs2 & Hr2 & Hv2);
    unfold rollbackFailures in *; rewrite Hl in *; rewrite Hs2, Hs;
    (split; [done|]; split; [done|]; split; [done|]; intros; rewrite Hv2 by done; unfold kv).
  - by rewrite (law_update_link_err _ _ _ _ _ Hk).
  - by rewrite (law_create_link_err _ _ _ _ _ _ _ Hk).
Qed.

(** The program pinned for the recorded revision is the one the link ran. *)
Definition restorable (snap : option DispatcherSnapshot) (key : Key) (dlp : path) (v : kview) : Prop :=
  match snap with
  | None => True
  | Some s =>
      let op := DispatcherProgPath base (KType key) (KNsid key) (KIfindex key) (sn_Revision s) in
      op <> dlp /\
      forall o l old, kv_pins v !! op = Some o -> kv_pins v !! dlp = Some (KOuterLink l old) ->
        prog_id o = Some old
  end.

Lemma xdpRestore snap key dlp id lid v w r w' :
  swapped snap dlp id lid v (kv w) -> restorable snap key dlp v ->
  (match snap with
   | None => or_log LevelError "rollback: detach dispatcher link failed" (onK (DetachLink dlp))
   | Some s => or_log LevelError "rollback: restore XDP dispatcher link failed"
       (onK (UpdateXDPDispatcherLink dlp
          (DispatcherProgPath base (KType key) (KNsid key) (KIfindex key) (sn_Revision s))))
   end) w = (r, w') ->
  r = Ok tt /\ w_store w' = w_store w /\ (rollbackFailures w <= rollbackFailures w')%nat /\
  (rollbackFailures w' = rollbackFailures w -> kv w' = v).
Proof.
  destruct snap as [s|]; simpl.
  - intros (l & old & Hlk & Hkv & _) (Hne & Hold) H.
    revert H. apply or_log_rollback; [done|]. intros [] k' Hk'.
    apply law_update_link in Hk' as (o & id' & l' & old' & H1 & H2 & H3 & ->).
    fold (kv w) in *. rewrite Hkv in *. rewrite pin_lookup in H3. simplify_eq.
    rewrite pin_lookup_ne in H1 by done. rewrite (Hold _ _ _ H1 Hlk) in H2. simplify_eq.
    rewrite pin_pin. by apply pin_id.
  - intros (Hlk & Hkv) _. apply or_log_rollback; [done|]. intros [] k' Hk'.
    apply law_detach_link in Hk' as ->. fold (kv w). rewrite Hkv. by apply unpin_pin.
Qed.

Lemma xdpPersist_err cleanup f snap key dlp newSnap id lid v w e w' :
  store_ok (w_store w) -> cleans cleanup f ->
  swapped snap dlp id lid v (kv w) -> restorable snap key dlp v ->
  xdpPersist base cleanup snap key dlp newSnap w = (Err e, w') ->
  failed_back w w' (f v).
Proof.
  intros Hst Hc Hsw Hre. unfold xdpPersist, on_error.
  destruct (onS _ w) as [[c|e1] w0] eqn:E; [done|]. intros [= <- Hw'].
  revert E. unfold onS. destruct (ReplaceDispatcherSnapshot newSnap (w_store w)) as [r1 s1] eqn:Er.
  intros [= -> <-].
  apply replace_err in Er as (Hst1 & Hsv1); [|done].
  unfold bind at 1, log at 1 in Hw'. cbn [w_kernel w_store w_log] in Hw'.
  set (w1 := mkWorld (w_kernel w) s1 (w_log w ++ _)) in *.
  assert (Hr1 : rollbackFailures w1 = rollbackFailures w).
  { by apply rollbackFailures_other. }
  unfold bind in Hw'.
  match type of Hw' with snd (match ?m with _ => _ end) = _ =>
    destruct m as [r2 w2] eqn:E2 end.
  eapply xdpRestore in E2 as (-> & Hs2 & Hr2 & Hv2); [|exact Hsw|done].
  destruct (cleanup w2) as [r3 w3] eqn:E3. simpl in Hw'. subst w3.
  apply Hc in E3 as (Hs3 & Hr3 & Hv3). unfold failed_back, sv. rewrite Hs3, Hs2.
  split; [done|]. split; [done|]. split; [lia|]. intros. rewrite Hv3, Hv2 by lia. done.
Qed.
End XDPSteps.

(** ** Paths of different revisions *)

Section RevisionPaths.
Context (base : path) (dt : DispatcherType) (n i : Z) (Hn : 0 <= n) (Hi : 0 <= i).

Lemma old_prog_not_new r r' k :
  0 <= r -> 0 <= r' -> r <> r' ->
  DispatcherProgPath base dt n i r <> DispatcherRevisionDir base dt n i r' ++ k.
Proof.
  intros Hr Hr' Hne H. apply Hne, (revdir_prefix_rev base dt n i r r' k); try done.
  rewrite <- H. apply prog_path_in_revdir.
Qed.

Lemma link_not_new r k : 0 <= r ->
  DispatcherLinkPath base dt n i <> DispatcherRevisionDir base dt n i r ++ k.
Proof.
  intros Hr H. apply (link_not_in_revdir base dt n i r); try done.
  rewrite H. by apply prefix_app_r.
Qed.

Lemma old_prog_not_link r : 0 <= r ->
  DispatcherProgPath base dt n i r <> DispatcherLinkPath base dt n i.
Proof. intros Hr H. symmetry in H. by apply (link_not_new r ["dispatcher"]). Qed.

Lemma not_in_exts q r m j :
  (forall k, q <> DispatcherRevisionDir base dt n i r ++ k) ->
  q ∉ (fun x => ExtensionLinkPath base dt n i r (Z.of_nat x)) <$> seq j m.
Proof. intros H (x & Hx & _)%list_elem_of_fmap. by eapply H. Qed.
End RevisionPaths.

Lemma ext_path_nonempty base dt n i r p : ExtensionLinkPath base dt n i r p <> [].
Proof. unfold ExtensionLinkPath. by destruct (DispatcherRevisionDir _ _ _ _ _). Qed.

(** ** The XDP rebuild fails atomically *)

Section XDPRebuild.
Context {K D : Type} `{!KernelOps K} {NC : NetConsts} `{!KernelLaws K} `{!DispatcherStoreOps D} `{!DispatcherStore D}.
Context (base : path).
Abbreviation W := (world K D).
Implicit Types (w : W).

(** A recorded XDP dispatcher is live: its outer link runs the program
    pinned under its recorded revision. *)
Definition xdp_live (v : kview) (key : Key) (s : DispatcherSnapshot) : Prop :=
  forall o l old,
    kv_pins v !! DispatcherProgPath base (KType key) (KNsid key) (KIfindex key) (sn_Revision s) = Some o ->
    kv_pins v !! DispatcherLinkPath base (KType key) (KNsid key) (KIfindex key) = Some (KOuterLink l old) ->
    prog_id o = Some old.

(** What a rebuild knows of the snapshot it starts from. *)
Definition snap_wf (snap : option DispatcherSnapshot) (revision : Z) : Prop :=
  0 <= revision /\
  forall s, snap = Some s -> in_uint32 (sn_Revision s) /\ sn_Revision s <> revision.

Lemma nextRevision_wf snap :
  (forall s, snap = Some s -> in_uint32 (sn_Revision s)) -> snap_wf snap (nextRevision snap).
Proof.
  intros H. split.
  - destruct snap; simpl; [apply uint32_range|lia].
  - intros s ->. split; [by apply H|]. simpl. apply not_eq_sym, uint32_succ_ne. by apply H.
Qed.

Lemma restorable_install snap key revision o v0 v2 len :
  0 <= KNsid key -> 0 <= KIfindex key -> snap_wf snap revision ->
  (forall s, snap = Some s -> xdp_live v0 key s) ->
  unpin_all ((fun x => ExtensionLinkPath base (KType key) (KNsid key) (KIfindex key) revision (Z.of_nat x)) <$> seq 0 len) v2
    = pin (DispatcherProgPath base (KType key) (KNsid key) (KIfindex key) revision) o v0 ->
  restorable base snap key (DispatcherLinkPath base (KType key) (KNsid key) (KIfindex key)) v2.
Proof.
  intros Hn Hi [Hr Hs] Hlive Hun. destruct snap as [s|]; [|done]. simpl.
  destruct (Hs s eq_refl) as [[Hs0 Hs1] Hne].
  assert (Hlk : forall q, (forall k, q <> DispatcherRevisionDir base (KType key) (KNsid key) (KIfindex key) revision ++ k) ->
            kv_pins v2 !! q = kv_pins v0 !! q).
  { intros q Hq. rewrite <- (unpin_all_lookup _ v2 q (not_in_exts base _ _ _ q revision len 0 Hq)).
    rewrite Hun. apply pin_lookup_ne. intros E. by apply (Hq ["dispatcher"]). }
  split; [by apply old_prog_not_link|]. intros o' l old.
  rewrite Hlk by (intros k; by apply old_prog_not_new).
  rewrite Hlk by (intros k; by apply link_not_new). by apply Hlive.
Qed.

Lemma xdpInstall_err ops key snap slots revision did o v0 w e w' :
  store_ok (w_store w) -> 0 <= KNsid key -> 0 <= KIfindex key -> snap_wf snap revision ->
  (forall s, snap = Some s -> xdp_live v0 key s) ->
  let dpp := DispatcherProgPath base (KType key) (KNsid key) (KIfindex key) revision in
  kv_pins v0 !! dpp = None -> kv w = pin dpp o v0 ->
  xdpInstall base ops key snap slots revision did w = (Err e, w') ->
  failed_near (ExtensionLinkPath base (KType key) (KNsid key) (KIfindex key) revision) w w' v0.
Proof.
  intros Hst Hn Hi Hwf Hlive dpp Hdpp Hkv H. unfold xdpInstall in H. fold dpp in H.
  set (lp := ExtensionLinkPath base (KType key) (KNsid key) (KIfindex key) revision) in *.
  assert (Hcn : cleans (cleanupNewDispatcher (D:=D) "rollback: remove new dispatcher pin failed" dpp) (unpin dpp))
    by (by apply cleanupNew_cleans).
  assert (Hback : unpin dpp (kv w) = v0) by (rewrite Hkv; by apply unpin_pin).
  step_err H attached w1 E1.
  { eapply attachAll_err in H as (Hs & Hr & Hv); [|apply law_ext_xdp|apply law_ext_xdp_err|exact Hcn|done
      |intros; apply ext_path_nonempty|constructor].
    unfold failed_near, sv. rewrite Hs. repeat (split; [done|]).
    intros Heq. destruct (Hv Heq) as (j & v1 & Hat & ->). exists j. rewrite <- Hback. by apply only_at_unpin. }
  apply (attachAll_ok _ law_ext_xdp) in E1 as (new & -> & Hs1 & Hl1 & Hsub & Hun & Hpins & Hexts).
  cbn [app] in *. assert (Hne : Forall (fun a => ax_pinPath a <> []) new).
  { apply list.Forall_forall. intros a Ha. apply (list_elem_of_fmap_2 ax_pinPath) in Ha.
    rewrite Hpins in Ha. apply list_elem_of_fmap in Ha as (j & -> & _). apply ext_path_nonempty. }
  assert (Hcl := cleanup_cleans "rollback: detach extension link failed" new _ _ eq_refl Hne Hcn).
  assert (Hback1 : unpin dpp (unpin_all (ax_pinPath <$> new) (kv w1)) = v0) by (by rewrite Hun).
  step_err H u w2 E2; [by apply verifyExtensions_spec in H as [? _]|].
  apply verifyExtensions_spec in E2 as (_ & Hs2 & Hv2 & Hr2).
  assert (Hr02 : rollbackFailures w2 = rollbackFailures w).
  { rewrite Hr2. unfold rollbackFailures. by rewrite Hl1. }
  assert (Hs02 : w_store w2 = w_store w) by congruence.
  assert (Hst2 : store_ok (w_store w2)) by (by rewrite Hs02).
  step_err H linkID w3 E3.
  { apply failed_back_near. eapply xdpSwap_err in H as (Ho & Hsv & Hr & Hv); [|done|exact Hcl].
    unfold failed_back, sv in *. rewrite Hsv, Hs02. repeat split; try done; [lia|].
    intros Heq. rewrite Hv, Hv2 by lia. done. }
  apply xdpSwap_ok in E3 as (Hs3 & Hl3 & o3 & id3 & _ & _ & Hsw).
  assert (Hst3 : store_ok (w_store w3)) by (by rewrite Hs3).
  assert (Hr3 : rollbackFailures w3 = rollbackFailures w2) by (unfold rollbackFailures; by rewrite Hl3).
  step_err H completed w4 E4; [|done]. apply failed_back_near.
  eapply (xdpPersist_err base) in H as (Ho & Hsv & Hr & Hv); [|done|exact Hcl|exact Hsw|].
  - unfold failed_back, sv in *. rewrite Hsv, Hs3, Hs02. repeat split; try done; [lia|].
    intros Heq. rewrite Hv, Hv2 by lia. done.
  - rewrite Hv2. eapply (restorable_install _ _ revision o v0 _ (length slots)); try done.
    rewrite Hkv, Hpins in Hun. exact Hun.
Qed.
End XDPRebuild.

(** ** The XDP rebuild on success *)

Section XDPSuccess.
Context {K D : Type} `{!KernelOps K} {NC : NetConsts} `{!KernelLaws K} `{!DispatcherStoreOps D} `{!DispatcherStore D}.
Context (base : path).
Abbreviation W := (world K D).
Implicit Types (w : W).

Lemma swapped_lookup snap dlp id lid v v' q :
  swapped snap dlp id lid v v' -> q <> dlp -> kv_pins v' !! q = kv_pins v !! q.
Proof.
  destruct snap as [s|]; simpl.
  - intros (l & old & _ & -> & _) Hq. by apply pin_lookup_ne.
  - intros (_ & ->) Hq. by apply pin_lookup_ne.
Qed.

Lemma swapped_filters snap dlp id lid v v' :
  swapped snap dlp id lid v v' -> kv_filters v' = kv_filters v.
Proof. destruct snap as [s|]; simpl; [intros (l & old & _ & -> & _)|intros (_ & ->)]; done. Qed.

Lemma swapped_prog snap dlp id lid v v' q o p :
  swapped snap dlp id lid v v' -> kv_pins v !! q = Some o -> prog_id o = Some p -> q <> dlp.
Proof.
  destruct snap as [s|]; simpl.
  - intros (l & old & Hl & _) Hq Ho ->. by simplify_eq.
  - intros (Hl & _) Hq Ho ->. by simplify_eq.
Qed.

Lemma ext_ok_swapped dpp lp snap dlp id lid v v' s a i :
  swapped snap dlp id lid v v' -> lp i <> dlp ->
  ext_ok dpp lp v s a i -> ext_ok dpp lp v' s a i.
Proof.
  intros Hsw Hne (H1 & H2 & l & disp & prog & od & op & H3 & H4 & H5 & H6 & H7 & H8).
  split; [done|]. split; [done|]. exists l, disp, prog, od, op.
  rewrite !(swapped_lookup _ _ _ _ _ _ _ Hsw); try done; by eapply swapped_prog.
Qed.

Lemma Forall_members_from slots : forall i attached (P : DispatcherMemberSpec -> Prop) (Q : rebuildSlot -> Prop),
  (forall j s a, Q s -> P (slot_member j s a)) -> Forall Q slots ->
  Forall P (members_from i slots attached).
Proof.
  induction slots as [|s slots IH]; intros i [|a attached] P Q HPQ HQ; simpl; try constructor.
  - apply HPQ. by inversion HQ.
  - eapply IH; [exact HPQ|]. by inversion HQ.
Qed.

Lemma xdpInstall_ok ops key snap slots revision did o v0 w attached completed w' :
  0 <= KNsid key -> 0 <= KIfindex key -> 0 <= revision ->
  let dpp := DispatcherProgPath base (KType key) (KNsid key) (KIfindex key) revision in
  let dlp := DispatcherLinkPath base (KType key) (KNsid key) (KIfindex key) in
  let lp := ExtensionLinkPath base (KType key) (KNsid key) (KIfindex key) revision in
  kv w = pin dpp o v0 -> prog_id o = Some did ->
  xdpInstall base ops key snap slots revision did w = (Ok (attached, completed), w') ->
  length attached = length slots /\
  (forall j s, slots !! j = Some s ->
     exists a, attached !! j = Some a /\ ext_ok dpp lp (kv w') s a (Z.of_nat j)) /\
  kv_pins (kv w') !! dpp = Some o /\
  (exists lid v2,
    ReplaceDispatcherSnapshot
      (mkDispatcherSnapshotSpec key revision
         (mkDispatcherRuntime did (Some lid) None None (xo_netnsPath ops))
         (dispatcherMembers slots attached)) (w_store w) = (Ok completed, w_store w') /\
    swapped snap dlp did lid v2 (kv w') /\ kv_pins v2 !! dlp = kv_pins v0 !! dlp) /\
  kv_filters (kv w') = kv_filters v0 /\
  (forall q, (forall k, q <> DispatcherRevisionDir base (KType key) (KNsid key) (KIfindex key) revision ++ k) ->
     q <> dlp -> kv_pins (kv w') !! q = kv_pins v0 !! q).
Proof.
  intros Hn Hi Hrev dpp dlp lp Hkv Hdid H. unfold xdpInstall in H. fold dpp dlp lp in H.
  step_ok H att w1 E1.
  apply (attachAll_ok _ law_ext_xdp) in E1 as (new & -> & Hs1 & Hl1 & Hsub & Hun & Hpins & Hexts).
  cbn [app] in *. step_ok H u w2 E2. apply verifyExtensions_spec in E2 as (_ & Hs2 & Hv2 & Hr2).
  step_ok H lid w3 E3. apply xdpSwap_ok in E3 as (Hs3 & Hl3 & o3 & id3 & Ho3 & Hid3 & Hsw).
  step_ok H comp w4 E4. unfold ret in H. simplify_eq.
  unfold xdpPersist, on_error in E4.
  destruct (onS _ w3) as [[c|e] w5] eqn:E5; [|done]. simplify_eq.
  unfold onS in E5. destruct (ReplaceDispatcherSnapshot _ (w_store w3)) as [r5 s5] eqn:E6.
  simplify_eq. rewrite Hv2 in *.
  assert (Hdpp : kv_pins (kv w1) !! dpp = Some o).
  { eapply lookup_weaken; [|exact Hsub]. rewrite Hkv. apply pin_lookup. }
  rewrite Hdpp in Ho3. injection Ho3 as <-. rewrite Hdid in Hid3. injection Hid3 as <-.
  change (kv (mkWorld (w_kernel w3) s5 (w_log w3))) with (kv w3). cbn [w_store].
  assert (Hnl : forall k, dlp <> DispatcherRevisionDir base (KType key) (KNsid key) (KIfindex key) revision ++ k)
    by (intros k; by apply link_not_new).
  assert (Hlk : forall q, (forall k, q <> DispatcherRevisionDir base (KType key) (KNsid key) (KIfindex key) revision ++ k) ->
            kv_pins (kv w1) !! q = kv_pins v0 !! q).
  { intros q Hq. rewrite <- (unpin_all_lookup (ax_pinPath <$> attached) (kv w1) q).
    - rewrite Hun, Hkv. apply pin_lookup_ne. intros E. by apply (Hq ["dispatcher"]).
    - rewrite Hpins. by apply not_in_exts. }
  split; [|split; [|split; [|split; [|split]]]].
  - apply (f_equal length) in Hpins. by rewrite !length_fmap, length_seq in Hpins.
  - intros j s Hj. destruct (Hexts j s Hj) as (a & Ha & Hok). exists a. split; [done|].
    eapply ext_ok_swapped; [exact Hsw| |exact Hok]. apply not_eq_sym, Hnl.
  - rewrite (swapped_lookup _ _ _ _ _ _ _ Hsw); [done|]. apply not_eq_sym, Hnl.
  - exists lid, (kv w1). rewrite <- Hs1, <- Hs2, <- Hs3. split; [exact E6|]. split; [exact Hsw|].
    by apply Hlk.
  - rewrite (swapped_filters _ _ _ _ _ _ Hsw), <- (unpin_all_filters (ax_pinPath <$> attached)).
    by rewrite Hun, Hkv.
  - intros q Hq Hq'. rewrite (swapped_lookup _ _ _ _ _ _ _ Hsw) by done. by apply Hlk.
Qed.
End XDPSuccess.

(** ** Phases shared by the attach rebuilds *)

Section AttachPhases.
Context {K D : Type} `{!KernelOps K} {NC : NetConsts} `{!KernelLaws K} `{!DispatcherStoreOps D} `{!DispatcherStore D}.
Context (base : path).
Abbreviation W := (world K D).
Implicit Types (w : W).

(** Nothing observable happened. *)
Definition unchanged (w w' : W) : Prop :=
  kv w' = kv w /\ w_log w' = w_log w /\ store_ok (w_store w') /\ sv w' = sv w.

Lemma unchanged_failed w w' : unchanged w w' -> failed_back w w' (kv w).
Proof.
  intros (Hk & Hl & Ho & Hs). unfold failed_back, rollbackFailures. rewrite Hl. auto.
Qed.

Lemma nsid_unchanged p w r w' :
  store_ok (w_store w) -> wrapping "get nsid: %w" (onK (NSID p)) w = (r, w') ->
  unchanged w w' /\ (forall n, r = Ok n -> n = ns_of p /\ 0 <= n < 2 ^ 64).
Proof.
  intros Hst H. unfold wrapping in H. destruct (onK _ w) as [r1 w1] eqn:E. simplify_eq.
  apply onK_frame in E as (Hs & Hl & Hk). split.
  - unfold unchanged, sv. rewrite Hs. repeat split; try done.
    pose proof (law_nsid p (w_kernel w)) as Hv. by rewrite Hk in Hv.
  - intros n Hn. destruct r1; simplify_eq/=. apply law_nsid_value in Hk as ->. split; [done|apply law_ns_range].
Qed.

Lemma lookupSnapshot_unchanged key w r w' :
  store_ok (w_store w) -> lookupSnapshot key w = (r, w') ->
  unchanged w w' /\
  (forall snap, r = Ok snap ->
     sv_snaps (sv w) !! key = snap /\
     forall s, snap = Some s -> sn_Key s = key /\ in_uint32 (sn_Revision s) /\
       Forall (fun m => in_uint32 (dm_ProceedOn m)) (sn_Members s)).
Proof.
  intros Hst. unfold lookupSnapshot, onS.
  destruct (GetDispatcherSnapshot key (w_store w)) as [[snap|e] s'] eqn:E.
  - apply get_ok in E as (Hst' & Hsv & Hlk & Hwf); [|done]. intros; simplify_eq.
    split; [by repeat split|]. intros sn [= <-]. split; [done|]. by intros s [= <-].
  - apply get_err in E as (Hst' & Hsv & Hnf); [|done].
    destruct (isNotFound e) eqn:He; intros; simplify_eq; (split; [by repeat split|]); [|done].
    intros sn [= <-]. split; [by apply Hnf|done].
Qed.

Lemma planSlots_ok snap newSlot slots :
  planSlots snap newSlot = Ok slots ->
  slots = sortRebuildSlots ((slot_of_member <$> snapMembers snap) ++ [newSlot]) /\
  (1 <= length slots <= 10)%nat.
Proof.
  unfold planSlots, MaxPrograms. rewrite Z.gtb_ltb. case_match eqn:Hlt; [done|]. intros [= <-].
  split; [done|]. apply Z.ltb_ge in Hlt. rewrite length_sortRebuildSlots.
  rewrite length_app in *. simpl in *. lia.
Qed.

Lemma planSlots_wf snap newSlot slots :
  planSlots snap newSlot = Ok slots -> in_uint32 (rs_ProceedOn newSlot) ->
  (forall s, snap = Some s -> Forall (fun m => in_uint32 (dm_ProceedOn m)) (sn_Members s)) ->
  Forall (fun s => in_uint32 (rs_ProceedOn s)) slots.
Proof.
  intros (-> & _)%planSlots_ok Hnew Hold.
  destruct (sortRebuildSlots_spec ((slot_of_member <$> snapMembers snap) ++ [newSlot])) as [_ Hp].
  rewrite Hp. apply Forall_app. split; [|by constructor].
  apply Forall_fmap. destruct snap as [s|]; [by apply Hold|constructor].
Qed.

Lemma newSlot_in snap newSlot slots : planSlots snap newSlot = Ok slots -> newSlot ∈ slots.
Proof.
  intros (-> & _)%planSlots_ok.
  destruct (sortRebuildSlots_spec ((slot_of_member <$> snapMembers snap) ++ [newSlot])) as [_ Hp].
  rewrite Hp. set_solver.
Qed.

Lemma newSlotPosition_range slots : forall i cur,
  newSlotPosition i slots cur = cur \/
  Z.of_nat i <= newSlotPosition i slots cur < Z.of_nat (i + length slots).
Proof.
  induction slots as [|s slots IH]; intros i cur; cbn [newSlotPosition length]; [by left|].
  destruct (rs_ExistingLinkID s).
  - destruct (IH (S i) cur) as [->|]; [by left|right; lia].
  - destruct (IH (S i) (Z.of_nat i)) as [->|]; right; lia.
Qed.

Lemma index_ok {A} (l : list A) i : 0 <= i < Z.of_nat (length l) -> exists x, index l i = Ok x.
Proof.
  intros Hi. unfold index. destruct (Z.ltb_spec i 0); [lia|].
  destruct (lookup_lt_is_Some_2 l (Z.to_nat i)) as [x ->]; [lia|]. by exists x.
Qed.

Lemma buildResult_total kind details msg pid key rev newSlot slots attached completed :
  (1 <= length slots)%nat -> length attached = length slots ->
  length (sn_Members completed) = length slots ->
  is_ok (ProceedOnActions (KType key) (rs_ProceedOn newSlot)) = true ->
  exists r, buildResult kind details msg pid key rev newSlot slots attached completed = Ok r /\
    er_key r = key /\ er_revision r = rev.
Proof.
  intros Hlen Ha Hm Hd. unfold buildResult. set (pos0 := newSlotPosition 0 slots (-1)).
  set (pos := if pos0 <? 0 then _ else _).
  assert (Hpos : 0 <= pos < Z.of_nat (length slots)).
  { subst pos pos0. destruct (newSlotPosition_range slots 0 (-1)) as [->|]; simpl; [lia|].
    destruct (Z.ltb_spec (newSlotPosition 0 slots (-1)) 0); lia. }
  destruct (index_ok attached pos) as [ext ->]; [lia|].
  destruct (index_ok (sn_Members completed) pos) as [m ->]; [lia|].
  destruct (ProceedOnActions (KType key) (rs_ProceedOn newSlot)); [|done]. simpl. eauto.
Qed.

(** The old revision directory goes; nothing else does. *)
Lemma removeOldRevision_frame msg key snap w r w' :
  forallb plain base = true -> KType key <> DispatcherTypeZero ->
  0 <= KNsid key < 2 ^ 64 -> 0 <= KIfindex key < 2 ^ 64 ->
  (forall s, snap = Some s -> in_uint32 (sn_Revision s)) ->
  removeOldRevision base msg key snap w = (r, w') ->
  r = Ok tt /\ w_store w' = w_store w /\ rollbackFailures w' = rollbackFailures w /\
  kv_filters (kv w') = kv_filters (kv w) /\
  (forall q, (forall s, snap = Some s ->
      ~ DispatcherRevisionDir base (KType key) (KNsid key) (KIfindex key) (sn_Revision s) `prefix_of` q) ->
    kv_pins (kv w') !! q = kv_pins (kv w) !! q).
Proof.
  intros Hb Hdt Hn Hi Hrev. destruct snap as [s|]; simpl; [|unfold ret; by intros; simplify_eq].
  specialize (Hrev s eq_refl). unfold in_uint32 in Hrev.
  destruct (RemoveDispatcherRevDir_layout base os_RemoveAll (KType key) (KNsid key) (KIfindex key)
              (sn_Revision s) (w_kernel w)) as (res & Hres & _); [done|done|lia..|].
  set (dir := DispatcherRevisionDir _ _ _ _ _) in *.
  unfold or_log, removeRevDir, onK. rewrite Hres.
  assert (Hfr : forall q, ~ dir `prefix_of` q ->
    kv_pins (view (snd (os_RemoveAll dir (w_kernel w)))) !! q = kv_pins (kv w) !! q).
  { intros q Hq. destruct (os_RemoveAll dir (w_kernel w)) as [[[]|e] k'] eqn:E; simpl.
    - rewrite (law_remove_all _ _ _ E). simpl. by apply unpin_under_lookup.
    - by apply (law_remove_all_err _ _ _ _ E). }
  assert (Hfl : kv_filters (view (snd (os_RemoveAll dir (w_kernel w)))) = kv_filters (kv w)).
  { destruct (os_RemoveAll dir (w_kernel w)) as [[[]|e] k'] eqn:E; simpl.
    - by rewrite (law_remove_all _ _ _ E).
    - by apply (law_remove_all_err _ _ _ _ E). }
  destruct res as [[]|e]; unfold log; cbn [w_kernel w_store w_log]; intros; simplify_eq; cbn [w_store].
  - repeat split; try done. intros q Hq. apply Hfr. by apply Hq.
  - split; [done|]. split; [done|]. split; [by apply (rollbackFailures_other w)|].
    split; [done|]. intros q Hq. apply Hfr. by apply Hq.
Qed.
End AttachPhases.
