(* ===== verification/Members.v ===== *)
(** * From slots to stored members

    How the slots of a rebuild, the extensions attached for them and the
    members the store completes correspond: which member keeps which link, and
    which one is new. Shared by the attach and the detach rebuilds. *)

From Stdlib Require Import ZArith Lia String Sorted.
From stdpp Require Import base tactics sets list gmap strings numbers sorting.
From S2P Require Import Prelude Actions Dispatcher Domain Slots Layout Platform Executor Rebuild.

Local Open Scope string_scope.
Local Open Scope list_scope.
Local Open Scope Z_scope.

(** A completed member, by index. *)
Lemma completed_lookup slots attached ms j s a :
  Forall2 (fun sp m => m = complete_member sp (dm_LinkID m) /\
             (forall id, ms_ExistingLinkID sp = Some id -> dm_LinkID m = id))
    (dispatcherMembers slots attached) ms ->
  slots !! j = Some s -> attached !! j = Some a ->
  exists m, ms !! j = Some m /\ m = complete_member (slot_member j s a) (dm_LinkID m) /\
    (forall id, rs_ExistingLinkID s = Some id -> dm_LinkID m = id).
Proof.
  intros HF Hs Ha. pose proof (members_from_lookup slots 0 attached j s a Hs Ha) as Hm.
  eapply Forall2_lookup_l in HF as (m & Hmj & Heq & Hid); [|exact Hm]. by exists m.
Qed.

Lemma stored_member_fields ps m :
  dm_Position (stored_member ps m) = dm_Position m /\
  dm_LinkPinPath (stored_member ps m) = dm_LinkPinPath m /\
  dm_ProceedOn (stored_member ps m) = dm_ProceedOn m /\
  dm_KernelLinkID (stored_member ps m) = dm_KernelLinkID m /\
  dm_LinkID (stored_member ps m) = dm_LinkID m /\
  dm_ProgramID (stored_member ps m) = dm_ProgramID m /\
  dm_Priority (stored_member ps m) = dm_Priority m /\
  dm_Ifname (stored_member ps m) = dm_Ifname m /\
  dm_Metadata (stored_member ps m) = dm_Metadata m.
Proof. unfold stored_member. by destruct (ps !! dm_ProgramID m) as [[]|]. Qed.

Lemma positions_seq slots attached ms :
  length attached = length slots ->
  Forall2 (fun sp m => m = complete_member sp (dm_LinkID m) /\
             (forall id, ms_ExistingLinkID sp = Some id -> dm_LinkID m = id))
    (dispatcherMembers slots attached) ms ->
  dm_Position <$> ms = Z.of_nat <$> seq 0 (length slots).
Proof.
  intros Hlen HF. assert (Hl : length ms = length slots).
  { apply Forall2_length in HF. rewrite <- HF. by apply length_members_from. }
  apply list_eq_same_length with (n := length slots);
    [by rewrite length_fmap, length_seq|by rewrite length_fmap|].
  intros j x y Hj. rewrite !list_lookup_fmap, lookup_seq_lt by done.
  destruct (lookup_lt_is_Some_2 slots j) as [s Hs]; [done|].
  destruct (lookup_lt_is_Some_2 attached j) as [a Ha]; [lia|].
  destruct (completed_lookup _ _ _ _ _ _ HF Hs Ha) as (m & -> & Hm & _).
  simpl. rewrite Hm. simpl. intros; simplify_eq. done.
Qed.

(** ** Which member a slot becomes *)

(** [m] is the member stored for [s]. *)
Definition member_of_slot (s : rebuildSlot) (m : DispatcherMember) : Prop :=
  (forall id, rs_ExistingLinkID s = Some id -> dm_LinkID m = id) /\
  dm_ProgramID m = rs_ProgramID s /\ dm_Priority m = rs_Priority s /\
  dm_ProceedOn m = rs_ProceedOn s /\ dm_Ifname m = rs_Ifname s /\ dm_Metadata m = rs_Metadata s.

(** Two stored forms of the same link. *)
Definition same_member (m m' : DispatcherMember) : Prop :=
  dm_LinkID m' = dm_LinkID m /\ dm_ProgramID m' = dm_ProgramID m /\
  dm_Priority m' = dm_Priority m /\ dm_ProceedOn m' = dm_ProceedOn m /\
  dm_Ifname m' = dm_Ifname m /\ dm_Metadata m' = dm_Metadata m.

Lemma same_member_refl_stored ps m : same_member m (stored_member ps m).
Proof. destruct (stored_member_fields ps m) as (_ & _ & ? & _ & ? & ? & ? & ? & ?). done. Qed.

Lemma members_match slots attached ms0 ps :
  length attached = length slots ->
  Forall2 (fun sp m => m = complete_member sp (dm_LinkID m) /\
             (forall id, ms_ExistingLinkID sp = Some id -> dm_LinkID m = id))
    (dispatcherMembers slots attached) ms0 ->
  Forall2 member_of_slot slots (stored_member ps <$> ms0).
Proof.
  intros Hlen HF. assert (Hl : length ms0 = length slots).
  { apply Forall2_length in HF. rewrite <- HF. by apply length_members_from. }
  apply Forall2_same_length_lookup. split; [by rewrite length_fmap|].
  intros j s m Hs Hm. destruct (lookup_lt_is_Some_2 attached j) as [a Ha].
  { rewrite Hlen. by eapply lookup_lt_Some. }
  destruct (completed_lookup _ _ _ _ _ _ HF Hs Ha) as (m0 & Hm0 & Heq & Hid).
  rewrite list_lookup_fmap, Hm0 in Hm. injection Hm as <-. unfold member_of_slot.
  destruct (same_member_refl_stored ps m0) as (-> & -> & -> & -> & -> & ->).
  split; [done|]. rewrite Heq. done.
Qed.

(** ** The slot being added *)

Lemma newSlotPosition_app l1 s l2 : forall i cur,
  rs_ExistingLinkID s = None -> Forall (fun x => rs_ExistingLinkID x <> None) l2 ->
  newSlotPosition i (l1 ++ s :: l2) cur = Z.of_nat (i + length l1).
Proof.
  induction l1 as [|x l1 IH]; intros i cur Hs Hl2; cbn [app newSlotPosition length].
  - rewrite Hs, Nat.add_0_r. clear -Hl2. generalize (S i) as j. generalize (Z.of_nat i) as c.
    induction Hl2 as [|y l2 Hy _ IH]; intros c j; cbn [newSlotPosition]; [done|].
    destruct (rs_ExistingLinkID y); [apply IH|done].
  - rewrite IH by done. f_equal. lia.
Qed.

Lemma planned_split snap ns slots :
  planSlots snap ns = Ok slots -> rs_ExistingLinkID ns = None ->
  exists l1 l2, slots = l1 ++ ns :: l2 /\ l1 ++ l2 ≡ₚ (slot_of_member <$> snapMembers snap) /\
    newSlotPosition 0 slots (-1) = Z.of_nat (length l1).
Proof.
  intros Hplan Hns. pose proof (newSlot_in _ _ _ Hplan) as Hin.
  apply planSlots_ok in Hplan as [Hs _].
  destruct (sortRebuildSlots_spec ((slot_of_member <$> snapMembers snap) ++ [ns])) as [_ Hp].
  rewrite <- Hs in Hp. apply list_elem_of_split in Hin as (l1 & l2 & ->).
  assert (Hperm : l1 ++ l2 ≡ₚ (slot_of_member <$> snapMembers snap)).
  { rewrite <- Permutation_middle in Hp. rewrite <- Permutation_cons_append in Hp.
    by apply Permutation_cons_inv in Hp. }
  exists l1, l2. split; [done|]. split; [done|].
  apply (newSlotPosition_app l1 ns l2 0 (-1)); [done|].
  assert (Hall : Forall (fun x => rs_ExistingLinkID x <> None) (l1 ++ l2)).
  { rewrite Hperm. apply Forall_fmap, list.Forall_true. done. }
  by apply Forall_app in Hall as [_ ?].
Qed.

Lemma same_member_slot m m' : member_of_slot (slot_of_member m) m' -> same_member m m'.
Proof. intros (Hid & H1 & H2 & H3 & H4 & H5). split; [by apply Hid|done]. Qed.

(** The members after an attach are the old ones, each keeping its link, and
    one for the new slot, at the new slot's index. *)
Lemma attach_members snap ns slots ms1 :
  planSlots snap ns = Ok slots -> rs_ExistingLinkID ns = None ->
  Forall2 member_of_slot slots ms1 ->
  exists i m old',
    newSlotPosition 0 slots (-1) = Z.of_nat i /\ slots !! i = Some ns /\ ms1 !! i = Some m /\
    member_of_slot ns m /\ ms1 ≡ₚ m :: old' /\ Forall2 same_member (snapMembers snap) old'.
Proof.
  intros Hplan Hns HF. destruct (planned_split _ _ _ Hplan Hns) as (l1 & l2 & -> & Hperm & Hpos).
  apply Forall2_app_inv_l in HF as (n1 & n2' & H1 & H2' & ->).
  apply Forall2_cons_inv_l in H2' as (m & n2 & Hm & H2 & ->).
  pose proof (Forall2_length _ _ _ H1) as Hl.
  assert (Hrest : Forall2 member_of_slot (l1 ++ l2) (n1 ++ n2)) by (by apply Forall2_app).
  destruct (Permutation_Forall2 Hperm Hrest) as (old' & Hp & Hold).
  exists (length l1), m, old'. split; [done|]. split; [by rewrite list_lookup_middle|].
  split; [by rewrite Hl, list_lookup_middle|]. split; [done|]. split.
  - by rewrite <- Permutation_middle, Hp.
  - apply (Forall2_fmap_l slot_of_member) in Hold. eapply Forall2_impl; [exact Hold|]. intros x y. apply same_member_slot.
Qed.

(** ** Chain order of the stored members *)

Lemma chain_priorities slots ms1 :
  StronglySorted slot_le slots -> Forall2 member_of_slot slots ms1 ->
  dm_Position <$> ms1 = Z.of_nat <$> seq 0 (length slots) ->
  forall m m', m ∈ ms1 -> m' ∈ ms1 -> dm_Position m < dm_Position m' -> dm_Priority m <= dm_Priority m'.
Proof.
  intros Hs HF Hpos m m' (i & Hi)%list_elem_of_lookup (j & Hj)%list_elem_of_lookup Hlt.
  assert (Hat : forall k x, ms1 !! k = Some x -> dm_Position x = Z.of_nat k).
  { intros k x Hk. apply (f_equal (fun l => l !! k)) in Hpos. rewrite !list_lookup_fmap, Hk in Hpos.
    pose proof (lookup_lt_Some _ _ _ Hk) as Hlk. rewrite <- (Forall2_length _ _ _ HF) in Hlk.
    rewrite lookup_seq_lt in Hpos by done. by injection Hpos. }
  rewrite (Hat _ _ Hi), (Hat _ _ Hj) in Hlt.
  destruct (Forall2_lookup_r _ _ _ _ _ HF Hi) as (s & Hsi & _ & _ & -> & _).
  destruct (Forall2_lookup_r _ _ _ _ _ HF Hj) as (s' & Hsj & _ & _ & -> & _).
  assert (Hle : slot_le s s'); [|destruct Hle as [|[]]; lia].
  clear -Hs Hsi Hsj Hlt. revert i j Hlt Hsi Hsj.
  induction Hs as [|x l Hl IH Hall]; intros i j Hlt Hsi Hsj; [done|].
  destruct i as [|i], j as [|j]; try lia; cbn in *.
  - simplify_eq. eapply Forall_lookup_1 in Hall; [exact Hall|exact Hsj].
  - apply (IH i j); [lia|done..].
Qed.

(** The result describes the member at the new slot's index. *)
Lemma buildResult_at kind details msg pid key rev ns slots attached completed r i m ps :
  length attached = length slots ->
  Forall2 (fun sp m => m = complete_member sp (dm_LinkID m) /\
             (forall id, ms_ExistingLinkID sp = Some id -> dm_LinkID m = id))
    (dispatcherMembers slots attached) (sn_Members completed) ->
  newSlotPosition 0 slots (-1) = Z.of_nat i -> slots !! i = Some ns ->
  (stored_member ps <$> sn_Members completed) !! i = Some m ->
  buildResult kind details msg pid key rev ns slots attached completed = Ok r ->
  er_key r = key /\ er_revision r = rev /\ lr_ID (l_Record (er_link r)) = dm_LinkID m /\
  er_position r = dm_Position m /\ er_pinPath r = dm_LinkPinPath m.
Proof.
  intros Hlen HF Hpos Hs Hm. unfold buildResult, index. rewrite Hpos.
  destruct (Z.ltb_spec (Z.of_nat i) 0); [lia|]. rewrite Nat2Z.id.
  destruct (Z.ltb_spec (Z.of_nat i) 0); [lia|]. intros H'.
  apply rbind_ok in H' as (a & Ha & H'). apply rbind_ok in H' as (acts & _ & H').
  apply rbind_ok in H' as (m0 & Hm0 & H'). simplify_eq. cbn.
  destruct (attached !! i) as [a'|] eqn:Ha'; [|done]. injection Ha as ->.
  destruct (sn_Members completed !! i) as [m0'|] eqn:Hm0'; [|done]. injection Hm0 as ->.
  rewrite list_lookup_fmap, Hm0' in Hm. injection Hm as <-.
  destruct (completed_lookup _ _ _ _ _ _ HF Hs Ha') as (m1 & Hm1 & Heq & _).
  rewrite Hm0' in Hm1. injection Hm1 as <-.
  destruct (stored_member_fields ps m0) as (-> & -> & _ & _ & -> & _). rewrite Heq. done.
Qed.

(** ** Replacement requests *)

Section Requests.
Context {D : Type} `{!DispatcherStoreOps D} `{!DispatcherStore D}.

Lemma spec_wf_members key rev rt slots attached :
  Forall (fun sl => in_uint32 (rs_ProceedOn sl)) slots -> in_uint32 rev -> runtime_wf rt ->
  spec_wf (mkDispatcherSnapshotSpec key rev rt (dispatcherMembers slots attached)).
Proof.
  intros Hm Hr Hrt. split; [|done]. cbn [ss_Members]. eapply Forall_members_from; [|exact Hm]. done.
Qed.

Lemma nextRevision_range snap :
  (forall s, snap = Some s -> in_uint32 (sn_Revision s)) -> in_uint32 (nextRevision snap).
Proof. destruct snap as [s|]; intros H; [apply uint32_range|]. unfold in_uint32. simpl. lia. Qed.

Lemma replace_decodes key rev rt slots attached snap s s' newSlot :
  store_ok s -> in_uint32 rev -> runtime_wf rt -> Forall (fun sl => in_uint32 (rs_ProceedOn sl)) slots ->
  length attached = length slots -> newSlot ∈ slots ->
  ReplaceDispatcherSnapshot
    (mkDispatcherSnapshotSpec key rev rt (dispatcherMembers slots attached)) s = (Ok snap, s') ->
  is_ok (ProceedOnActions (KType key) (rs_ProceedOn newSlot)) = true /\
  length (sn_Members snap) = length slots.
Proof.
  intros Hst Hrev Hrt Hwf Hlen Hin Hr.
  eapply replace_ok in Hr as (_ & _ & _ & _ & Hm & Hdec & _); [|done|].
  - cbn [ss_Key ss_Members] in *. split.
    + apply list_elem_of_lookup in Hin as [j Hj].
      destruct (lookup_lt_is_Some_2 attached j) as [a Ha].
      { rewrite Hlen. by eapply lookup_lt_Some. }
      pose proof (members_from_lookup slots 0 attached j newSlot a Hj Ha) as Hmj.
      eapply Forall_lookup_1 in Hdec; [|exact Hmj]. done.
    + apply Forall2_length in Hm. rewrite <- Hm. by apply length_members_from.
  - by apply spec_wf_members.
Qed.
End Requests.

(** ** Coherence of the kernel with the stored members *)

Section Coherence.
Context (base : path).

(** The extension of [m] is attached at its own position of the recorded
    dispatcher, whose configuration has its proceed-on mask there. *)
Definition member_coherent (v : kview) (s : DispatcherSnapshot) (acts : list Z)
    (m : DispatcherMember) : Prop :=
  let key := sn_Key s in
  0 <= dm_Position m < Z.of_nat (length (sn_Members s)) /\
  dm_LinkPinPath m =
    ExtensionLinkPath base (KType key) (KNsid key) (KIfindex key) (sn_Revision s) (dm_Position m) /\
  acts !! Z.to_nat (dm_Position m) = Some (dm_ProceedOn m) /\
  exists elid prog,
    dm_KernelLinkID m = Some elid /\
    kv_pins v !! dm_LinkPinPath m =
      Some (KExtension elid (rt_ProgramID (sn_Runtime s)) (dm_Position m) prog).

(** Extension [a] serves slot [j] of dispatcher [did]. *)
Definition served (lp : Z -> path) (did : Z) (v : kview) (a : attachedExt) (j : nat) : Prop :=
  ax_pinPath a = lp (Z.of_nat j) /\
  exists elid prog, ao_KernelLinkID (ax_out a) = Some elid /\
    kv_pins v !! lp (Z.of_nat j) = Some (KExtension elid did (Z.of_nat j) prog).

Lemma ext_ok_served dpp lp did o v s a j :
  kv_pins v !! dpp = Some o -> prog_id o = Some did ->
  ext_ok dpp lp v s a (Z.of_nat j) -> served lp did v a j.
Proof.
  intros Hd Ho (_ & Hp & elid & disp & prog & od & op & H1 & H2 & _ & _ & H5 & H6).
  simplify_eq. split; [done|]. by exists elid, prog.
Qed.

Lemma members_coherent key revision did slots attached acts ms0 ms ps v rt :
  let lp := ExtensionLinkPath base (KType key) (KNsid key) (KIfindex key) revision in
  rt_ProgramID rt = did -> length attached = length slots ->
  (forall j s, slots !! j = Some s -> acts !! j = Some (rs_ProceedOn s)) ->
  (forall j s, slots !! j = Some s -> exists a, attached !! j = Some a /\ served lp did v a j) ->
  Forall2 (fun sp m => m = complete_member sp (dm_LinkID m) /\
             (forall id, ms_ExistingLinkID sp = Some id -> dm_LinkID m = id))
    (dispatcherMembers slots attached) ms0 ->
  ms ≡ₚ (stored_member ps <$> ms0) ->
  length ms = length slots /\ NoDup (dm_Position <$> ms) /\
  Forall (member_coherent v (mkDispatcherSnapshot key revision rt ms) acts) ms.
Proof.
  intros lp Hrt Hlen Hacts Hserved HF Hperm.
  assert (Hl0 : length ms0 = length slots).
  { apply Forall2_length in HF. rewrite <- HF. by apply length_members_from. }
  assert (Hl : length ms = length slots).
  { apply Permutation_length in Hperm. by rewrite length_fmap, Hl0 in Hperm. }
  split; [done|]. split.
  - rewrite Hperm, <- list_fmap_compose.
    rewrite (list_fmap_ext _ dm_Position); [|intros; apply stored_member_fields].
    rewrite (positions_seq _ _ _ Hlen HF). apply NoDup_fmap_2; [|apply NoDup_seq].
    intros x y. lia.
  - eapply Permutation_Forall; [symmetry; exact Hperm|]. apply Forall_fmap, Forall_lookup. intros j m Hm.
    destruct (lookup_lt_is_Some_2 slots j) as [s Hs].
    { rewrite <- Hl0. by eapply lookup_lt_Some. }
    destruct (Hserved j s Hs) as (a & Ha & Hpath & elid & prog & Hout & Hpin).
    destruct (completed_lookup _ _ _ _ _ _ HF Hs Ha) as (m' & Hm' & Heq & _).
    rewrite Hm in Hm'. injection Hm' as <-.
    destruct (stored_member_fields ps m) as (E1 & E2 & E3 & E4 & _).
    unfold member_coherent. cbn [compose sn_Members sn_Key sn_Revision sn_Runtime].
    unfold compose. rewrite E1, E2, E3, E4, Heq, Hrt.
    cbn [complete_member slot_member dm_Position dm_LinkPinPath dm_ProceedOn dm_KernelLinkID
         ms_Position ms_LinkPinPath ms_ProceedOn ms_KernelLinkID].
    rewrite Hpath, Hl, Nat2Z.id. repeat split; [lia| |by apply Hacts|].
    + apply inj_lt. by eapply lookup_lt_Some.
    + by exists elid, prog.
Qed.

(** Member coherence only looks below the snapshot's revision directory. *)
Lemma member_coherent_frame v v' s acts :
  (forall q, DispatcherRevisionDir base (KType (sn_Key s)) (KNsid (sn_Key s)) (KIfindex (sn_Key s)) (sn_Revision s)
     `prefix_of` q -> kv_pins v' !! q = kv_pins v !! q) ->
  Forall (member_coherent v s acts) (sn_Members s) -> Forall (member_coherent v' s acts) (sn_Members s).
Proof.
  intros Hq H. eapply list.Forall_impl; [exact H|]. intros m (Hp & Hpath & Ha & elid & prog & Hl & Hpin).
  split; [done|]. split; [done|]. split; [done|]. exists elid, prog. split; [done|].
  rewrite Hq; [done|]. rewrite Hpath. apply ext_path_in_revdir.
Qed.

(** ** Which program an extension runs *)

(** A path no rebuild of [key] touches. *)
Definition clear_of (key : Key) (q : path) : Prop :=
  (forall rev, 0 <= rev ->
     ~ DispatcherRevisionDir base (KType key) (KNsid key) (KIfindex key) rev `prefix_of` q) /\
  q <> DispatcherLinkPath base (KType key) (KNsid key) (KIfindex key).

Lemma prog_clear key id : clear_of key (ProgPinPath base id).
Proof.
  unfold clear_of, DispatcherLinkPath, DispatcherRevisionDir, dispatcherTypeDir, ProgPinPath. split.
  - intros rev _ Hpre%prefix_length. rewrite !length_app in Hpre. cbn in Hpre. lia.
  - intros H%(f_equal length). rewrite !length_app in H. cbn in H. lia.
Qed.

Lemma ProgPinPath_inj i j : 0 <= i -> 0 <= j -> ProgPinPath base i = ProgPinPath base j -> i = j.
Proof.
  intros Hi Hj H. unfold ProgPinPath in H. apply app_inj_tail in H as [_ H]. injection H as H.
  by apply FormatUint_inj in H.
Qed.

(** Program [id] is pinned where the layout has it. *)
Definition prog_placed (id : Z) (p : path) : Prop := 0 <= id /\ p = ProgPinPath base id.

(** What is pinned at a program's path is that program. *)
Definition labelled (v : kview) : Prop :=
  forall id o, 0 <= id -> kv_pins v !! ProgPinPath base id = Some o -> prog_id o = Some id.

(** An extension at the member's link path runs the recorded program. *)
Definition runs_program (v : kview) (m : DispatcherMember) : Prop :=
  forall elid did pos prog, kv_pins v !! dm_LinkPinPath m = Some (KExtension elid did pos prog) ->
    prog = dm_ProgramID m.

Definition member_runs (v : kview) (m : DispatcherMember) : Prop :=
  prog_placed (dm_ProgramID m) (dm_ProgPinPath m) /\ runs_program v m.

Record programs_run (v : kview) (sw : sview) : Prop := {
  run_labelled : labelled v;
  run_programs : forall id n p, sv_progs sw !! id = Some (n, p) -> prog_placed id p;
  run_members : forall k s m, KType k <> DispatcherTypeZero ->
    sv_snaps sw !! k = Some s -> m ∈ sn_Members s -> member_runs v m;
}.

(** The extension in each slot runs what is pinned at the slot's path. *)
Definition slots_run (key : Key) (revision : Z) (slots : list rebuildSlot) (v : kview) : Prop :=
  forall j s, slots !! j = Some s -> clear_of key (rs_ProgPinPath s) ->
    exists elid disp prog op,
      kv_pins v !! ExtensionLinkPath base (KType key) (KNsid key) (KIfindex key) revision (Z.of_nat j)
        = Some (KExtension elid disp (Z.of_nat j) prog) /\
      kv_pins v !! rs_ProgPinPath s = Some op /\ prog_id op = Some prog.

Lemma slots_run_ext key revision slots (attached : list attachedExt) v v' :
  let dpp := DispatcherProgPath base (KType key) (KNsid key) (KIfindex key) revision in
  let lp := ExtensionLinkPath base (KType key) (KNsid key) (KIfindex key) revision in
  (forall j s, slots !! j = Some s -> exists a, attached !! j = Some a /\ ext_ok dpp lp v s a (Z.of_nat j)) ->
  (forall q, DispatcherRevisionDir base (KType key) (KNsid key) (KIfindex key) revision `prefix_of` q ->
     kv_pins v' !! q = kv_pins v !! q) ->
  (forall q, clear_of key q -> kv_pins v' !! q = kv_pins v !! q) -> slots_run key revision slots v'.
Proof.
  intros dpp lp Hexts Hin Hclear j s Hj Hq.
  destruct (Hexts j s Hj) as (a & _ & _ & _ & elid & disp & prog & od & op & _ & _ & Hop & Hid & _ & Hext).
  exists elid, disp, prog, op. rewrite Hin by apply ext_path_in_revdir. by rewrite Hclear.
Qed.

Definition slot_placed (s : rebuildSlot) : Prop := prog_placed (rs_ProgramID s) (rs_ProgPinPath s).

(** The stored members of an installation run their recorded programs. *)
Lemma installed_runs key revision slots attached ms0 ms ps v :
  length attached = length slots ->
  Forall2 (fun sp m => m = complete_member sp (dm_LinkID m) /\
             (forall id, ms_ExistingLinkID sp = Some id -> dm_LinkID m = id))
    (dispatcherMembers slots attached) ms0 ->
  ms ≡ₚ (stored_member ps <$> ms0) ->
  (forall m, m ∈ ms -> dm_LinkPinPath m =
     ExtensionLinkPath base (KType key) (KNsid key) (KIfindex key) revision (dm_Position m)) ->
  slots_run key revision slots v -> labelled v ->
  (forall id n p, ps !! id = Some (n, p) -> prog_placed id p) -> Forall slot_placed slots ->
  Forall (member_runs v) ms.
Proof.
  intros Hlen HF Hperm Hpath Hrun Hlab Hps Hpl. apply list.Forall_forall. intros m Hm. pose proof (Hpath m Hm) as Hp.
  rewrite Hperm in Hm. apply list_elem_of_fmap in Hm as (m0 & -> & [j Hj]%list_elem_of_lookup).
  destruct (lookup_lt_is_Some_2 slots j) as [s Hs].
  { apply lookup_lt_Some in Hj. apply Forall2_length in HF. rewrite <- HF in Hj.
    unfold dispatcherMembers in Hj. by rewrite length_members_from in Hj by done. }
  destruct (lookup_lt_is_Some_2 attached j) as [a Ha]; [rewrite Hlen; by eapply lookup_lt_Some|].
  destruct (completed_lookup _ _ _ _ _ _ HF Hs Ha) as (m' & Hm' & Heq & _). rewrite Hj in Hm'. injection Hm' as <-.
  eapply Forall_lookup_1 in Hpl; [|exact Hs]. pose proof Hpl as [Hid Hpp].
  destruct (stored_member_fields ps m0) as (Epos & Epath & _ & _ & _ & Eprog & _).
  assert (Hprog : dm_ProgramID m0 = rs_ProgramID s) by (by rewrite Heq).
  assert (Hposj : dm_Position m0 = Z.of_nat j) by (by rewrite Heq).
  split.
  - unfold stored_member. destruct (ps !! dm_ProgramID m0) as [[n p]|] eqn:E; [by apply Hps in E|].
    rewrite Hprog. by rewrite Heq.
  - unfold runs_program. rewrite Hp, Eprog, Epos, Hprog, Hposj. intros elid did pos prog Hext.
    destruct (Hrun j s Hs) as (elid' & disp & prog' & op & Hext' & Hop & Hpid); [rewrite Hpp; apply prog_clear|].
    rewrite Hext in Hext'. injection Hext' as -> -> -> ->. rewrite Hpp in Hop. apply Hlab in Hop; [congruence|done].
Qed.

(** An attach point is out of reach of the paths of another one. *)
Lemma other_key_frame key k rev q :
  k <> key -> 0 <= KNsid key -> 0 <= KIfindex key -> 0 <= KNsid k -> 0 <= KIfindex k -> 0 <= rev ->
  q = DispatcherLinkPath base (KType k) (KNsid k) (KIfindex k) \/
  DispatcherRevisionDir base (KType k) (KNsid k) (KIfindex k) rev `prefix_of` q ->
  (forall rev', 0 <= rev' ->
     ~ DispatcherRevisionDir base (KType key) (KNsid key) (KIfindex key) rev' `prefix_of` q) /\
  q <> DispatcherLinkPath base (KType key) (KNsid key) (KIfindex key).
Proof.
  intros Hne Hn Hi Hn' Hi' Hr [->|[z ->]]; split.
  - intros rev' Hr'. by apply link_not_in_any_revdir.
  - intros H. apply DispatcherLinkPath_inj in H as (? & ? & ?); try done.
    apply Hne. destruct k, key; simpl in *; congruence.
  - intros rev' Hr' H. apply revdir_prefix in H as (? & ? & ? & ?); try done.
    apply Hne. destruct k, key; simpl in *; congruence.
  - intros H. apply (link_not_in_any_revdir base (KType k) (KNsid k) (KIfindex k) rev (KType key) (KNsid key) (KIfindex key));
      try done. rewrite <- H. by apply prefix_app_r.
Qed.

(** The extension paths of the next revision of [key] are no part of a stored
    dispatcher. *)
Lemma stray_pins (snaps : gmap Key DispatcherSnapshot) key pos v v' k s q :
  0 <= KNsid key -> 0 <= KIfindex key -> 0 <= KNsid k -> 0 <= KIfindex k -> in_uint32 (sn_Revision s) ->
  (forall s', snaps !! key = Some s' -> in_uint32 (sn_Revision s')) ->
  only_at (ExtensionLinkPath base (KType key) (KNsid key) (KIfindex key) (nextRevision (snaps !! key)) pos) v v' ->
  snaps !! k = Some s ->
  q = DispatcherLinkPath base (KType k) (KNsid k) (KIfindex k) \/
  DispatcherRevisionDir base (KType k) (KNsid k) (KIfindex k) (sn_Revision s) `prefix_of` q ->
  kv_pins v' !! q = kv_pins v !! q.
Proof.
  intros Hn Hi Hn' Hi' Hr Hwf [_ Hat] Hs Hq. apply Hat. intros ->.
  destruct (nextRevision_wf _ Hwf) as [Hnx Hne].
  assert (Hin := ext_path_in_revdir base (KType key) (KNsid key) (KIfindex key) (nextRevision (snaps !! key)) pos).
  destruct (decide (k = key)) as [->|Hk].
  - destruct Hq as [Hq|Hq].
    + rewrite Hq in Hin. by eapply link_not_in_revdir in Hin.
    + destruct (Hne s Hs) as [_ Hne']. apply Hne'. destruct Hin as [z Hz]. rewrite Hz in Hq. by apply revdir_prefix_rev in Hq; [|done|done|apply Hr|].
  - apply (other_key_frame key) in Hq as [Hq _]; try done; [|apply Hr]. by eapply Hq.
Qed.
End Coherence.
