(* ===== verification/XDPRebuild.v ===== *)
(** * What the XDP attach rebuild guarantees

    Failure leaves the kernel and the store as they were (unless a clean-up
    call itself failed, which the log records); success leaves a dispatcher
    whose kernel state is coherent with its stored snapshot. *)

From Stdlib Require Import ZArith Lia String Sorted.
From stdpp Require Import base tactics sets list gmap strings numbers.
From S2P Require Import Prelude Actions Dispatcher Domain Slots Layout Platform Executor Rebuild Members.

Local Open Scope string_scope.
Local Open Scope list_scope.
Local Open Scope Z_scope.

Section XDPTheorems.
Context {K D : Type} `{!KernelOps K} {NC : NetConsts} `{!KernelLaws K} `{!DispatcherStoreOps D} `{!DispatcherStore D}.
Context (base : path).
Abbreviation W := (world K D).
Implicit Types (w : W).

Definition newXDPSlot (pid : Z) (ops : xdpRebuildOps) (pp : path) (name : string) (prio po : Z)
    (md : gmap string string) : rebuildSlot :=
  mkRebuildSlot pp name prio po None pid (xo_ifname ops) md.

(** A run that got as far as the loaded dispatcher: [w3] is the world there. *)
Record xdp_prepared (ops : xdpRebuildOps) (newSlot : rebuildSlot) (w : W) (key : Key)
    (snap : option DispatcherSnapshot) (slots : list rebuildSlot) (cfg : XDPConfig) (did : Z)
    (w3 : W) : Prop := {
  xp_key : exists nsid, 0 <= nsid < 2 ^ 64 /\ key = NewKey DispatcherTypeXDP nsid (xo_ifindex ops);
  xp_snap : sv_snaps (sv w) !! key = snap;
  xp_snap_wf : forall s, snap = Some s -> sn_Key s = key /\ in_uint32 (sn_Revision s);
  xp_plan : planSlots snap newSlot = Ok slots;
  xp_masks : Forall (fun sl => in_uint32 (rs_ProceedOn sl)) slots;
  xp_cfg : xdpConfig slots = Ok cfg;
  xp_free : kv_pins (kv w) !! DispatcherProgPath base (KType key) (KNsid key) (KIfindex key) (nextRevision snap) = None;
  xp_loaded : kv w3 = pin (DispatcherProgPath base (KType key) (KNsid key) (KIfindex key) (nextRevision snap))
                (KXDPDispatcher did cfg) (kv w);
  xp_store_ok : store_ok (w_store w3);
  xp_store : sv w3 = sv w;
  xp_log : rollbackFailures w3 = rollbackFailures w;
}.

Lemma unchanged_trans w1 w2 w3 : unchanged w1 w2 -> unchanged w2 w3 -> unchanged w1 w3.
Proof. unfold unchanged. intros (-> & -> & _ & ->) (-> & -> & ? & ->). done. Qed.

Lemma load_prepared ops newSlot w w2 key snap slots cfg r w3 :
  unchanged w w2 ->
  wrapping "load XDP dispatcher: %w" (onK (LoadAndPinXDPDispatcher cfg
     (DispatcherProgPath base (KType key) (KNsid key) (KIfindex key) (nextRevision snap)))) w2 = (r, w3) ->
  (exists nsid, 0 <= nsid < 2 ^ 64 /\ key = NewKey DispatcherTypeXDP nsid (xo_ifindex ops)) ->
  sv_snaps (sv w) !! key = snap ->
  (forall s, snap = Some s -> sn_Key s = key /\ in_uint32 (sn_Revision s)) ->
  planSlots snap newSlot = Ok slots -> Forall (fun sl => in_uint32 (rs_ProceedOn sl)) slots ->
  xdpConfig slots = Ok cfg ->
  match r with
  | Ok did => xdp_prepared ops newSlot w key snap slots cfg did w3
  | Err _ => failed_back w w3 (kv w)
  end.
Proof.
  intros (Hk & Hl & Ho & Hs) H Hkey Hsn Hwf Hplan Hm Hcfg. destruct r as [did|e].
  - apply wrapping_ok in H. apply onK_frame in H as (Hs3 & Hl3 & Hk3).
    apply law_load_xdp in Hk3 as [Hfree Hk3]. fold (kv w2) in *. fold (kv w3) in Hk3.
    rewrite Hk in Hfree, Hk3. constructor; try done.
    + by rewrite Hs3.
    + unfold sv in *. by rewrite Hs3.
    + unfold rollbackFailures. by rewrite Hl3, Hl.
  - apply wrapping_err in H as (e' & _ & H). apply onK_frame in H as (Hs3 & Hl3 & Hk3).
    apply law_load_xdp_err in Hk3. apply unchanged_failed. unfold unchanged, sv, kv in *.
    by rewrite Hk3, Hs3, Hl3.
Qed.

(** Every run either fails before anything was loaded, leaving nothing
    behind, or continues from a prepared state. *)
Lemma rebuildXDP_prepare pid ops pp name prio po md w r w' :
  store_ok (w_store w) -> in_uint32 po ->
  rebuildXDPDispatcher base pid ops pp name prio po md w = (r, w') ->
  let ns := newXDPSlot pid ops pp name prio po md in
  ((exists e, r = Err e) /\ failed_back w w' (kv w)) \/
  exists key snap slots cfg did w3,
    xdp_prepared ops ns w key snap slots cfg did w3 /\
    xdpFinish base pid ops ns key snap slots (nextRevision snap) did w3 = (r, w').
Proof.
  intros Hst Hpo H ns. unfold rebuildXDPDispatcher in H.
  fold (newXDPSlot pid ops pp name prio po md) in H. fold ns in H.
  unfold bind at 1 in H. destruct (wrapping "get nsid: %w" _ w) as [r1 w1] eqn:E1.
  apply nsid_unchanged in E1 as [H1 Hnsid]; [|done]. pose proof H1 as (_ & _ & Ho1 & Hs1).
  destruct r1 as [nsid|e1]; [|simplify_eq; left; split; [eauto|by apply unchanged_failed]].
  destruct (Hnsid _ eq_refl) as [_ Hrange]. clear Hnsid. rename Hrange into Hnsid. set (key := NewKey DispatcherTypeXDP nsid (xo_ifindex ops)) in *.
  unfold bind at 1 in H. destruct (lookupSnapshot key w1) as [r2 w2] eqn:E2.
  apply lookupSnapshot_unchanged in E2 as [H2 Hsn]; [|done].
  assert (H02 : unchanged w w2) by (by eapply unchanged_trans).
  destruct r2 as [snap|e2]; [|simplify_eq; left; split; [eauto|by apply unchanged_failed]].
  destruct (Hsn _ eq_refl) as [Hsnap Hwf]. rewrite Hs1 in Hsnap.
  unfold bind at 1 in H. unfold lift at 1 in H.
  destruct (planSlots snap ns) as [slots|e3] eqn:E3;
    [|simplify_eq; left; split; [eauto|by apply unchanged_failed]].
  unfold bind at 1 in H. unfold lift at 1 in H.
  destruct (xdpConfig slots) as [cfg|e4] eqn:E4;
    [|cbn [wrap_err] in H; simplify_eq; left; split; [eauto|by apply unchanged_failed]].
  cbn [wrap_err] in H. unfold bind at 1 in H.
  destruct (wrapping "load XDP dispatcher: %w" _ w2) as [r5 w3] eqn:E5.
  eapply (load_prepared ops ns w w2 key snap slots cfg r5 w3) in E5; try done; [|by exists nsid| |].
  - destruct r5 as [did|e5]; [|simplify_eq; left; split; [eauto|done]].
    right. exists key, snap, slots, cfg, did, w3. done.
  - intros s Hs'. by destruct (Hwf s Hs') as (? & ? & _).
  - eapply planSlots_wf; [exact E3|exact Hpo|]. intros s Hs'. by destruct (Hwf s Hs') as (_ & _ & ?).
Qed.

Lemma prepared_ranges ops ns w key snap slots cfg did w3 :
  0 <= xo_ifindex ops < 2 ^ 32 -> xdp_prepared ops ns w key snap slots cfg did w3 ->
  KType key = DispatcherTypeXDP /\ 0 <= KNsid key < 2 ^ 64 /\ 0 <= KIfindex key < 2 ^ 64 /\
  snap_wf snap (nextRevision snap).
Proof.
  intros Hif Hp. destruct (xp_key _ _ _ _ _ _ _ _ _ Hp) as (nsid & Hn & ->). simpl.
  split; [done|]. split; [done|]. split; [lia|]. apply nextRevision_wf.
  intros s Hs. by apply (xp_snap_wf _ _ _ _ _ _ _ _ _ Hp).
Qed.

(** Once the snapshot is persisted nothing can fail any more. *)
Lemma xdpFinish_err pid ops ns w key snap slots cfg did w3 e w' :
  forallb plain base = true -> 0 <= xo_ifindex ops < 2 ^ 32 ->
  xdp_prepared ops ns w key snap slots cfg did w3 ->
  (forall s, snap = Some s -> xdp_live base (kv w) key s) ->
  xdpFinish base pid ops ns key snap slots (nextRevision snap) did w3 = (Err e, w') ->
  failed_near (ExtensionLinkPath base (KType key) (KNsid key) (KIfindex key) (nextRevision snap)) w w' (kv w).
Proof.
  intros Hb Hif Hp Hlive H. destruct (prepared_ranges _ _ _ _ _ _ _ _ _ Hif Hp) as (Hdt & Hn & Hi & Hwf).
  destruct Hp as [_ _ Hsnwf Hplan Hmasks _ Hfree Hload Ho3 Hs3 Hr3]. unfold xdpFinish in H.
  step_err H r w4 E6.
  { eapply xdpInstall_err in H as (Hx1 & Hx2 & Hx3 & Hx4); [|done|lia|lia|exact Hwf|exact Hlive|exact Hfree|exact Hload].
    unfold failed_near. rewrite Hx2, Hs3. repeat (split; [done || lia|]). intros. apply Hx4. lia. }
  destruct r as [attached completed].
  eapply xdpInstall_ok in E6 as (Hlen & _ & _ & (lid & v2 & Hrep & _) & _); [|lia|lia|apply Hwf|exact Hload|done].
  step_err H u w5 E7.
  { apply removeOldRevision_frame in H as [? _]; try done; [by rewrite Hdt|].
    intros s Hs. by apply Hsnwf. }
  apply lift_err in H as [H _].
  apply (replace_decodes _ _ _ _ _ _ _ _ ns) in Hrep as [Hdec Hml]; try done;
    [|apply nextRevision_range; intros s Hs; by apply Hsnwf|by eapply newSlot_in].
  edestruct (buildResult_total LinkKindXDP) as (r & Hr & _); [|exact Hlen|exact Hml|exact Hdec|].
  - apply planSlots_ok in Hplan as [_ ?]. lia.
  - rewrite Hr in H. done.
Qed.

(** ** Coherence of the kernel with a stored XDP snapshot *)

(** The outer link runs the recorded dispatcher program, whose configuration
    enables exactly the members with their proceed-on masks, and every
    member's extension is attached to its own slot of that program. *)
Definition xdp_coherent (v : kview) (s : DispatcherSnapshot) : Prop :=
  let key := sn_Key s in
  exists lid cfg,
    rt_KernelLinkID (sn_Runtime s) = Some lid /\
    kv_pins v !! DispatcherLinkPath base (KType key) (KNsid key) (KIfindex key)
      = Some (KOuterLink lid (rt_ProgramID (sn_Runtime s))) /\
    kv_pins v !! DispatcherProgPath base (KType key) (KNsid key) (KIfindex key) (sn_Revision s)
      = Some (KXDPDispatcher (rt_ProgramID (sn_Runtime s)) cfg) /\
    XNumProgsEnabled cfg = Z.of_nat (length (sn_Members s)) /\
    NoDup (dm_Position <$> sn_Members s) /\
    Forall (member_coherent base v s (XChainCallActions cfg)) (sn_Members s).

Lemma coherent_live v key s : sn_Key s = key -> xdp_coherent v s -> xdp_live base v key s.
Proof.
  intros <- (lid & cfg & _ & Hl & Hp & _) o l old Ho Hlk. by simplify_eq.
Qed.

Lemma xdpConfig_spec slots cfg :
  xdpConfig slots = Ok cfg -> (length slots <= 10)%nat ->
  XNumProgsEnabled cfg = Z.of_nat (length slots) /\
  forall j s, slots !! j = Some s -> XChainCallActions cfg !! j = Some (rs_ProceedOn s).
Proof.
  unfold xdpConfig, NewXDPConfig. case_match; [done|]. cbn [rbind]. intros [= <-] Hlen.
  cbn [XNumProgsEnabled XChainCallActions]. split.
  - unfold uint8. apply Z.mod_small. lia.
  - intros j s Hj. apply (set_actions_lookup slots 0 zeroSlots j s); [|done].
    unfold zeroSlots, MaxPrograms. rewrite length_replicate. simpl. lia.
Qed.

Lemma coherent_install key revision did lid netns slots attached cfg ms0 ms ps v :
  let lp := ExtensionLinkPath base (KType key) (KNsid key) (KIfindex key) revision in
  kv_pins v !! DispatcherLinkPath base (KType key) (KNsid key) (KIfindex key)
    = Some (KOuterLink lid did) ->
  kv_pins v !! DispatcherProgPath base (KType key) (KNsid key) (KIfindex key) revision
    = Some (KXDPDispatcher did cfg) ->
  xdpConfig slots = Ok cfg -> (length slots <= 10)%nat -> length attached = length slots ->
  (forall j s, slots !! j = Some s -> exists a, attached !! j = Some a /\ served lp did v a j) ->
  Forall2 (fun sp m => m = complete_member sp (dm_LinkID m) /\
             (forall id, ms_ExistingLinkID sp = Some id -> dm_LinkID m = id))
    (dispatcherMembers slots attached) ms0 ->
  ms ≡ₚ (stored_member ps <$> ms0) ->
  xdp_coherent v (mkDispatcherSnapshot key revision
                    (mkDispatcherRuntime did (Some lid) None None netns) ms).
Proof.
  intros lp Hdlp Hdpp Hcfg H10 Hlen Hserved HF Hperm.
  destruct (xdpConfig_spec _ _ Hcfg H10) as [Hnum Hacts].
  destruct (members_coherent base key revision did slots attached (XChainCallActions cfg) ms0 ms ps v
              (mkDispatcherRuntime did (Some lid) None None netns)) as (Hl & Hnd & Hall); try done.
  exists lid, cfg. repeat (split; [done|]). split; [|done]. cbn [sn_Members]. by rewrite Hl.
Qed.

(** The outer link a snapshot records, as the swap leaves it. *)
Lemma swapped_recorded snap dlp did lid v0 v2 v' :
  swapped snap dlp did lid v2 v' -> kv_pins v2 !! dlp = kv_pins v0 !! dlp ->
  (forall s, snap = Some s ->
     exists l old, rt_KernelLinkID (sn_Runtime s) = Some l /\ kv_pins v0 !! dlp = Some (KOuterLink l old)) ->
  kv_pins v' !! dlp = Some (KOuterLink lid did).
Proof.
  destruct snap as [s|]; simpl.
  - intros (l & old & Hl & -> & ->) He Hc. destruct (Hc s eq_refl) as (l' & old' & -> & Hl').
    rewrite He, Hl' in Hl. simplify_eq. simpl. apply pin_lookup.
  - intros (_ & ->) _ _. apply pin_lookup.
Qed.

Definition xdpDetails (ops : xdpRebuildOps) (ns : rebuildSlot) (key : Key) (did revision : Z)
    (acts : list Z) (pos : Z) : LinkDetails :=
  DXDP (mkXDPDetails (rs_Ifname ns) (xo_ifindex ops) (int32 (rs_Priority ns)) (int32 pos) acts ""
          (KNsid key) did revision).

(** What a successful run leaves: [attached] extensions and the [completed]
    members of the transaction, the snapshot the store now holds, coherent
    with the kernel, and everything outside this attach point untouched. *)
Record xdp_installed (pid : Z) (ops : xdpRebuildOps) (ns : rebuildSlot) (w : W) (key : Key)
    (snap : option DispatcherSnapshot) (slots : list rebuildSlot) (did lid : Z)
    (attached : list attachedExt) (completed : DispatcherSnapshot) (ms : list DispatcherMember)
    (r : extensionResult) (w' : W) : Prop := {
  xi_ok : store_ok (w_store w');
  xi_rev : 1 <= nextRevision snap;
  xi_len : length attached = length slots;
  xi_completed : Forall2 (fun sp m => m = complete_member sp (dm_LinkID m) /\
                   (forall id, ms_ExistingLinkID sp = Some id -> dm_LinkID m = id))
                   (dispatcherMembers slots attached) (sn_Members completed);
  xi_members : ms ≡ₚ (stored_member (sv_progs (sv w)) <$> sn_Members completed);
  xi_store : sv w' = mkSview
    (<[key := mkDispatcherSnapshot key (nextRevision snap)
               (mkDispatcherRuntime did (Some lid) None None (xo_netnsPath ops)) ms]> (sv_snaps (sv w)))
    (sv_progs (sv w));
  xi_coherent : xdp_coherent (kv w') (mkDispatcherSnapshot key (nextRevision snap)
                  (mkDispatcherRuntime did (Some lid) None None (xo_netnsPath ops)) ms);
  xi_result : buildResult LinkKindXDP (xdpDetails ops ns key did (nextRevision snap))
                "decode XDP proceed-on: %w" pid key (nextRevision snap) ns slots attached completed = Ok r;
  xi_filters : kv_filters (kv w') = kv_filters (kv w);
  xi_frame : forall q,
    (forall rev, 0 <= rev -> ~ DispatcherRevisionDir base (KType key) (KNsid key) (KIfindex key) rev `prefix_of` q) ->
    q <> DispatcherLinkPath base (KType key) (KNsid key) (KIfindex key) ->
    kv_pins (kv w') !! q = kv_pins (kv w) !! q;
  xi_runs : slots_run base key (nextRevision snap) slots (kv w');
}.

(** The kernel part: everything the installation pinned survives the removal
    of the old revision. *)
Lemma removeOld_keeps msg key snap w4 w5 :
  forallb plain base = true -> KType key <> DispatcherTypeZero ->
  0 <= KNsid key < 2 ^ 64 -> 0 <= KIfindex key < 2 ^ 64 ->
  (forall s, snap = Some s -> sn_Key s = key /\ in_uint32 (sn_Revision s)) ->
  snap_wf snap (nextRevision snap) ->
  removeOldRevision base msg key snap w4 = (Ok tt, w5) ->
  w_store w5 = w_store w4 /\ kv_filters (kv w5) = kv_filters (kv w4) /\
  (forall q, DispatcherRevisionDir base (KType key) (KNsid key) (KIfindex key) (nextRevision snap) `prefix_of` q ->
     kv_pins (kv w5) !! q = kv_pins (kv w4) !! q) /\
  (forall q, (forall rev, 0 <= rev ->
       ~ DispatcherRevisionDir base (KType key) (KNsid key) (KIfindex key) rev `prefix_of` q) ->
     kv_pins (kv w5) !! q = kv_pins (kv w4) !! q).
Proof.
  intros Hb Hdt Hn Hi Hsnwf [Hr Hne] H.
  apply removeOldRevision_frame in H as (_ & Hs5 & _ & Hfl & Hfr); try done;
    [|intros s Hs; by apply Hsnwf].
  split; [done|]. split; [done|]. split.
  - intros q [k ->]. apply Hfr. intros s Hs Hpre. destruct (Hne s Hs) as [[] Hne'].
    apply Hne', (revdir_prefix_rev base (KType key) (KNsid key) (KIfindex key) _ _ k); lia || done.
  - intros q Hq. apply Hfr. intros s Hs. apply Hq. destruct (Hne s Hs) as [[] _]. lia.
Qed.

Lemma xdpFinish_ok pid ops ns w key snap slots cfg did w3 r w' :
  forallb plain base = true -> 0 <= xo_ifindex ops < 2 ^ 32 ->
  xdp_prepared ops ns w key snap slots cfg did w3 ->
  (forall s, snap = Some s -> xdp_coherent (kv w) s) ->
  xdpFinish base pid ops ns key snap slots (nextRevision snap) did w3 = (Ok r, w') ->
  exists lid attached completed ms,
    xdp_installed pid ops ns w key snap slots did lid attached completed ms r w'.
Proof.
  intros Hb Hif Hp Hcoh H. destruct (prepared_ranges _ _ _ _ _ _ _ _ _ Hif Hp) as (Hdt & Hn & Hi & Hwf).
  destruct Hp as [_ _ Hsnwf Hplan Hmasks Hcfg Hfree Hload Ho3 Hs3 Hr3]. unfold xdpFinish in H.
  step_ok H rr w4 E6. destruct rr as [attached completed].
  eapply xdpInstall_ok in E6 as (Hlen & Hexts & Hdpp & (lid & v2 & Hrep & Hsw & Hv2) & Hfl4 & Hfr4);
    [|lia|lia|apply Hwf|exact Hload|done].
  step_ok H u w5 E7. destruct u. apply lift_ok in H as [Hbuild ->].
  eapply removeOld_keeps in E7 as (Hs5 & Hfl5 & Hnew & Hfr5); [|done|by rewrite Hdt|done..].
  eapply replace_ok in Hrep as (Hok' & _ & _ & _ & HF & _ & Hge & ms & Hperm & Hsv'); [|done|].
  2:{ apply spec_wf_members; [done| |done]. apply nextRevision_range. intros s Hs. by apply Hsnwf. }
  cbn [ss_Key ss_Revision ss_Runtime ss_Members] in *.
  change (sview_of (w_store w3)) with (sv w3) in Hperm, Hsv'. rewrite Hs3 in Hperm, Hsv'.
  assert (Hdlp : forall rev, 0 <= rev -> ~ DispatcherRevisionDir base (KType key) (KNsid key) (KIfindex key) rev
      `prefix_of` DispatcherLinkPath base (KType key) (KNsid key) (KIfindex key))
    by (intros; apply link_not_in_revdir; lia).
  exists lid, attached, completed, ms. split; try done.
  - by rewrite Hs5.
  - unfold sv at 1. by rewrite Hs5.
  - eapply coherent_install; [| |exact Hcfg|apply planSlots_ok in Hplan; lia|exact Hlen| |exact HF|exact Hperm].
    + rewrite Hfr5 by done. eapply swapped_recorded; [exact Hsw|exact Hv2|]. intros s Hs.
      destruct (Hcoh s Hs) as (l & c & Hl & Hlk & _). destruct (Hsnwf s Hs) as [Hk _]. rewrite Hk in Hlk.
      by eexists l, _.
    + rewrite Hnew by apply prog_path_in_revdir. done.
    + intros j s Hj. destruct (Hexts j s Hj) as (a & Ha & Hok). exists a. split; [done|].
      eapply ext_ok_served in Hok as [Hpath (elid & prog & Hout & Hpin)]; [|exact Hdpp|done].
      split; [done|]. exists elid, prog. split; [done|]. rewrite Hnew by apply ext_path_in_revdir. done.
  - by rewrite Hfl5, Hfl4.
  - intros q Hq Hne. rewrite Hfr5 by done. apply Hfr4; [|done].
    intros k ->. destruct Hwf as [Hrev _]. by apply (Hq _ Hrev), prefix_app_r.
  - eapply slots_run_ext; [exact Hexts|exact Hnew|]. intros q [Hq _]. by apply Hfr5.
Qed.

(** ** The invariant of all XDP dispatchers *)

Definition xdp_consistent (w : W) : Prop :=
  store_ok (w_store w) /\
  forall k s, sv_snaps (sv w) !! k = Some s -> KType k = DispatcherTypeXDP ->
    sn_Key s = k /\ 0 <= KNsid k /\ 0 <= KIfindex k /\ in_uint32 (sn_Revision s) /\ xdp_coherent (kv w) s.

Lemma coherent_frame v v' s :
  (forall q, q = DispatcherLinkPath base (KType (sn_Key s)) (KNsid (sn_Key s)) (KIfindex (sn_Key s)) \/
     DispatcherRevisionDir base (KType (sn_Key s)) (KNsid (sn_Key s)) (KIfindex (sn_Key s)) (sn_Revision s) `prefix_of` q ->
     kv_pins v' !! q = kv_pins v !! q) ->
  xdp_coherent v s -> xdp_coherent v' s.
Proof.
  intros Hq (lid & cfg & H1 & H2 & H3 & H4 & H5 & H6). exists lid, cfg. split; [done|].
  split; [rewrite Hq by (by left); done|].
  split; [rewrite Hq by (right; apply prog_path_in_revdir); done|]. split; [done|]. split; [done|].
  eapply member_coherent_frame; [|exact H6]. intros q Hpre. apply Hq. by right.
Qed.

Lemma installed_consistent pid ops ns w key snap slots did lid attached completed ms r w' :
  0 <= KNsid key -> 0 <= KIfindex key -> in_uint32 (nextRevision snap) ->
  xdp_consistent w ->
  xdp_installed pid ops ns w key snap slots did lid attached completed ms r w' ->
  xdp_consistent w'.
Proof.
  intros Hn Hi Hrev [_ Hc] Hin. split; [apply Hin|]. intros k s Hs Hdt.
  rewrite (xi_store _ _ _ _ _ _ _ _ _ _ _ _ _ _ Hin) in Hs. cbn [sv_snaps] in Hs.
  apply lookup_insert_Some in Hs as [[<- <-]|[Hne Hs]].
  - repeat (split; [done|]). apply Hin.
  - destruct (Hc k s Hs Hdt) as (Hk & Hn' & Hi' & Hr & Hco). repeat (split; [done|]).
    eapply coherent_frame; [|exact Hco]. intros q Hq. rewrite Hk in Hq.
    apply (other_key_frame base key) in Hq as [H1 H2]; try done; [|apply Hr].
    by apply (xi_frame _ _ _ _ _ _ _ _ _ _ _ _ _ _ Hin).
Qed.

(** Both outcomes of a run from a consistent world. *)
Lemma rebuildXDP_cases pid ops pp name prio po md w r w' :
  forallb plain base = true -> 0 <= xo_ifindex ops < 2 ^ 32 -> in_uint32 po -> xdp_consistent w ->
  rebuildXDPDispatcher base pid ops pp name prio po md w = (r, w') ->
  let ns := newXDPSlot pid ops pp name prio po md in
  match r with
  | Err _ => exists key, KType key = DispatcherTypeXDP /\ KIfindex key = xo_ifindex ops /\ 0 <= KNsid key /\
      failed_near (ExtensionLinkPath base (KType key) (KNsid key) (KIfindex key)
                     (nextRevision (sv_snaps (sv w) !! key))) w w' (kv w)
  | Ok res => exists key snap slots did lid attached completed ms,
      KType key = DispatcherTypeXDP /\ KIfindex key = xo_ifindex ops /\ 0 <= KNsid key /\
      in_uint32 (nextRevision snap) /\ sv_snaps (sv w) !! key = snap /\ planSlots snap ns = Ok slots /\
      xdp_installed pid ops ns w key snap slots did lid attached completed ms res w'
  end.
Proof.
  intros Hb Hif Hpo [Hst Hc] H ns.
  destruct (rebuildXDP_prepare _ _ _ _ _ _ _ _ _ _ Hst Hpo H) as [[[e ->] Hf]|Hp].
  { exists (NewKey DispatcherTypeXDP 0 (xo_ifindex ops)). repeat (split; [done|]). by apply failed_back_near. }
  destruct Hp as (key & snap & slots & cfg & did & w3 & Hp & Hfin).
  destruct (prepared_ranges _ _ _ _ _ _ _ _ _ Hif Hp) as (Hdt & Hn & Hi & Hwf).
  assert (Hcoh : forall s, snap = Some s -> sn_Key s = key /\ xdp_coherent (kv w) s).
  { intros s ->. destruct (Hc key s) as (? & _ & _ & _ & ?); [apply (xp_snap _ _ _ _ _ _ _ _ _ Hp)|done|done]. }
  destruct r as [res|e].
  - eapply xdpFinish_ok in Hfin as (lid & attached & completed & ms & Hin); [|done|done|exact Hp|by intros; apply Hcoh].
    exists key, snap, slots, did, lid, attached, completed, ms.
    destruct (xp_key _ _ _ _ _ _ _ _ _ Hp) as (nsid & ? & ->). cbn [KType KIfindex KNsid].
    repeat (split; [done|]). split; [lia|]. split; [|split; [apply Hp|split; [apply Hp|done]]].
    apply nextRevision_range. intros s Hs. by apply (xp_snap_wf _ _ _ _ _ _ _ _ _ Hp).
  - exists key. destruct (xp_key _ _ _ _ _ _ _ _ _ Hp) as (nsid & ? & Hkey). rewrite (xp_snap _ _ _ _ _ _ _ _ _ Hp).
    split; [done|]. split; [by rewrite Hkey|]. split; [lia|].
    eapply xdpFinish_err; [done|done|exact Hp| |exact Hfin].
    intros s Hs. destruct (Hcoh s Hs). by apply coherent_live.
Qed.

(** ** Properties *)

(** C9: a failed XDP attach leaves nothing behind. Whichever step fails
    (namespace lookup, snapshot lookup, slot limit, configuration, dispatcher
    load, any extension attach, outer-link creation or update, the store
    transaction), the stored snapshots are as before and, unless the log
    records that a roll-back call itself failed, so are all bpffs pins, links
    and TC filters, including the outer link's program. The one exception is
    the path of an extension of the revision that was being built, where a failed
    attach can drop an old pin or leave its own; no record refers to it. *)
Theorem rebuildXDP_atomic pid ops pp name prio po md w e w' :
  forallb plain base = true -> 0 <= xo_ifindex ops < 2 ^ 32 -> in_uint32 po -> xdp_consistent w ->
  rebuildXDPDispatcher base pid ops pp name prio po md w = (Err e, w') ->
  sv w' = sv w /\
  (rollbackFailures w' = rollbackFailures w ->
   exists key pos, KType key = DispatcherTypeXDP /\ KIfindex key = xo_ifindex ops /\
     only_at (ExtensionLinkPath base (KType key) (KNsid key) (KIfindex key)
                (nextRevision (sv_snaps (sv w) !! key)) pos) (kv w) (kv w')).
Proof.
  intros Hb Hif Hpo Hc H.
  destruct (rebuildXDP_cases _ _ _ _ _ _ _ _ _ _ Hb Hif Hpo Hc H) as (key & Ht & Hi & _ & _ & Hs & _ & Hk).
  split; [done|]. intros Heq. destruct (Hk Heq) as [pos Hat]. by exists key, pos.
Qed.

(** C11: what a successful XDP attach changes in the store. Exactly the
    snapshot of one XDP attach point of the interface is replaced, under the
    next revision. Its members are the previous ones, each with the same link
    ID, program, priority, proceed-on mask and metadata, and one new member
    with the requested values, whose link ID, position and pin are the ones
    returned; a member with a smaller position never has a larger priority. *)
Theorem rebuildXDP_members pid ops pp name prio po md w res w' :
  forallb plain base = true -> 0 <= xo_ifindex ops < 2 ^ 32 -> in_uint32 po -> xdp_consistent w ->
  rebuildXDPDispatcher base pid ops pp name prio po md w = (Ok res, w') ->
  let key := er_key res in
  let snap := sv_snaps (sv w) !! key in
  KType key = DispatcherTypeXDP /\ KIfindex key = xo_ifindex ops /\ er_revision res = nextRevision snap /\
  exists rt ms m old',
    sv w' = mkSview (<[key := mkDispatcherSnapshot key (nextRevision snap) rt ms]> (sv_snaps (sv w)))
              (sv_progs (sv w)) /\
    ms ≡ₚ m :: old' /\ Forall2 same_member (snapMembers snap) old' /\
    member_of_slot (newXDPSlot pid ops pp name prio po md) m /\
    lr_ID (l_Record (er_link res)) = dm_LinkID m /\ er_position res = dm_Position m /\
    er_pinPath res = dm_LinkPinPath m /\
    (forall x y, x ∈ ms -> y ∈ ms -> dm_Position x < dm_Position y -> dm_Priority x <= dm_Priority y).
Proof.
  intros Hb Hif Hpo Hc H. destruct (rebuildXDP_cases _ _ _ _ _ _ _ _ _ _ Hb Hif Hpo Hc H)
    as (key & snap & slots & did & lid & attached & completed & ms & Hdt & Hi & Hn & Hrev & Hsnap & Hplan & Hin).
  destruct Hin as [_ _ Hlen Hcomp Hms Hsv _ Hres _ _ _].
  pose proof (members_match slots attached _ (sv_progs (sv w)) Hlen Hcomp) as Hmatch.
  destruct (attach_members _ _ _ _ Hplan eq_refl Hmatch) as (i & m & old' & Hpos & Hslot & Hm & Hnew & Hperm & Hold).
  destruct (buildResult_at _ _ _ _ _ _ _ _ _ _ _ _ _ (sv_progs (sv w)) Hlen Hcomp Hpos Hslot Hm Hres)
    as (Hk & Hr & Hid & Hp & Hpath).
  cbv zeta. rewrite Hk, Hsnap. split; [done|]. split; [done|]. split; [done|].
  eexists _, ms, m, old'. split; [exact Hsv|]. split; [by rewrite Hms|]. repeat (split; [done|]).
  intros x y Hx Hy. rewrite Hms in Hx, Hy. eapply chain_priorities; [|exact Hmatch| |done|done].
  - destruct (planSlots_ok _ _ _ Hplan) as [-> _]. apply sortRebuildSlots_spec.
  - rewrite <- list_fmap_compose. rewrite (list_fmap_ext _ dm_Position); [by eapply positions_seq|].
    intros; apply stored_member_fields.
Qed.
End XDPTheorems.
