(* ===== verification/TCRebuild.v ===== *)
(** * What the TC attach rebuild guarantees

    The TC rebuild replaces a netlink filter instead of a link: the new filter
    is created beside the old one, the old one removed, and a failing store
    transaction removes the new filter and restores the old one under its
    recorded handle. *)

From Stdlib Require Import ZArith Lia String Sorted.
From stdpp Require Import base tactics sets list gmap strings numbers sorting.
From S2P Require Import Prelude Actions Dispatcher Domain Slots Layout Platform Executor Rebuild Members.

Local Open Scope string_scope.
Local Open Scope list_scope.
Local Open Scope Z_scope.

(** ** Filters and pins are independent *)

Lemma kview_eq v v' : kv_pins v = kv_pins v' -> kv_filters v = kv_filters v' -> v = v'.
Proof. destruct v, v'; simpl. by intros -> ->. Qed.

Lemma unpin_add_filter p f prog v : unpin p (add_filter f prog v) = add_filter f prog (unpin p v).
Proof. done. Qed.

Lemma unpin_all_add_filter ps f prog v :
  unpin_all ps (add_filter f prog v) = add_filter f prog (unpin_all ps v).
Proof.
  revert v. induction ps as [|p ps IH]; intros v; [done|].
  change (unpin_all (p :: ps) ?x) with (unpin_all ps (unpin p x)).
  by rewrite unpin_add_filter, IH.
Qed.

Lemma del_add_filter f prog v : kv_filters v !! f = None -> del_filter f (add_filter f prog v) = v.
Proof. intros H. apply kview_eq; [done|]. cbn. rewrite delete_insert_eq, delete_id; done. Qed.

(** The exchange of two filters and its reversal. *)
Lemma filter_exchange_back f_new f_old p_new p_old v :
  kv_filters v !! f_old = Some p_old -> kv_filters v !! f_new = None ->
  add_filter f_old p_old (del_filter f_new (del_filter f_old (add_filter f_new p_new v))) = v.
Proof.
  intros Ho Hn. assert (f_old <> f_new) by congruence. apply kview_eq; [done|]. cbn. apply map_eq.
  intros f. destruct (decide (f = f_old)) as [->|]; [by rewrite lookup_insert_eq|].
  rewrite lookup_insert_ne by done. destruct (decide (f = f_new)) as [->|].
  - by rewrite lookup_delete_eq.
  - rewrite !lookup_delete_ne, lookup_insert_ne; done.
Qed.

Section TCSteps.
Context {K D : Type} `{!KernelOps K} {NC : NetConsts} `{!KernelLaws K} `{!DispatcherStoreOps D} `{!DispatcherStore D}.
Context (base : path).
Abbreviation W := (world K D).
Implicit Types (w : W).

(** The filter of an attach point with a given handle. *)
Definition tc_filter (key : Key) (h : Z) : fkey :=
  (KNsid key, KIfindex key, TCParent (KType key), tcDispatcherPriority, h).

(** A failed phase: as before, except that a filter the adapter could not
    account for may have been left on the attach point. *)
Definition tc_back (key : Key) (v v' : kview) : Prop :=
  v' = v \/ exists h prog, kv_filters v !! tc_filter key h = None /\ v' = add_filter (tc_filter key h) prog v.

Definition tc_failed (key : Key) (w w' : W) (v : kview) : Prop :=
  store_ok (w_store w') /\ sv w' = sv w /\ (rollbackFailures w <= rollbackFailures w')%nat /\
  (rollbackFailures w' = rollbackFailures w -> tc_back key v (kv w')).

(** The direction and the dispatcher type of a request agree. *)
Definition tc_ops_wf (ops : tcRebuildOps) : Prop :=
  to_dispType ops = DispatcherTypeTCIngress /\ to_direction ops = TCDirectionIngress \/
  to_dispType ops = DispatcherTypeTCEgress /\ to_direction ops = TCDirectionEgress.

Lemma dir_parent_ops ops : tc_ops_wf ops -> dir_parent (to_direction ops) = TCParent (to_dispType ops).
Proof. by intros [[-> ->]|[-> ->]]. Qed.

Definition tc_key (ops : tcRebuildOps) : Key :=
  NewKey (to_dispType ops) (ns_of (to_netnsPath ops)) (to_ifindex ops).

(** ** Creating the new filter *)

Lemma create_filter_ok msg cleanup pp ops w res w' :
  tc_ops_wf ops ->
  on_error (wrapping msg (onK (CreateTCFilter pp (to_ifindex ops) (to_ifname ops) (to_direction ops)
                                 (to_netnsPath ops) 0))) cleanup w = (Ok res, w') ->
  w_store w' = w_store w /\ w_log w' = w_log w /\
  exists o, kv_pins (kv w) !! pp = Some o /\ prog_id o = Some (tr_DispatcherID res) /\
    tr_Priority res = tcDispatcherPriority /\ in_uint32 (tr_Handle res) /\ tr_Handle res <> 0 /\
    kv_filters (kv w) !! tc_filter (tc_key ops) (tr_Handle res) = None /\
    kv w' = add_filter (tc_filter (tc_key ops) (tr_Handle res)) (tr_DispatcherID res) (kv w).
Proof.
  intros Hops. unfold on_error, wrapping. destruct (onK _ w) as [[r|e] w1] eqn:E; cbn [wrap_err]; [|done].
  apply onK_frame in E as (Hs & Hl & Hk). intros; simplify_eq. split; [done|]. split; [done|].
  apply law_create_filter in Hk as (o & H1 & H2 & H3 & H4 & H5 & _ & H7 & H8). exists o.
  unfold tc_filter, tc_key, kv. cbn [KType KNsid KIfindex]. rewrite <- (dir_parent_ops ops Hops), <- H3. done.
Qed.

Lemma create_filter_err msg cleanup f pp ops w e w' :
  tc_ops_wf ops -> store_ok (w_store w) -> cleans cleanup f ->
  (forall fk prog v, f (add_filter fk prog v) = add_filter fk prog (f v)) ->
  (forall v, kv_filters (f v) = kv_filters v) ->
  on_error (wrapping msg (onK (CreateTCFilter pp (to_ifindex ops) (to_ifname ops) (to_direction ops)
                                 (to_netnsPath ops) 0))) (fun _ => cleanup) w = (Err e, w') ->
  tc_failed (tc_key ops) w w' (f (kv w)).
Proof.
  intros Hops Hst Hc Hcomm Hfl. unfold on_error, wrapping.
  destruct (onK _ w) as [[r|e1] w1] eqn:E; cbn [wrap_err]; [done|].
  apply onK_frame in E as (Hs & Hl & Hk). destruct (cleanup w1) as [r2 w2] eqn:E2.
  intros; simplify_eq. simpl. apply Hc in E2 as (Hs2 & Hr2 & Hv2).
  unfold tc_failed, sv, rollbackFailures in *. rewrite Hl in *. rewrite Hs2, Hs.
  split; [done|]. split; [done|]. split; [done|]. intros Heq. rewrite Hv2 by done.
  apply law_create_filter_err in Hk as [Hk|(h & prog & Hn & Hk)]; unfold kv in *; rewrite Hk.
  - by left.
  - right. rewrite (dir_parent_ops ops Hops) in Hn |- *. exists h, prog. rewrite Hfl. split; [exact Hn|].
    by rewrite Hcomm.
Qed.

(** ** Dropping the old filter *)

(** What an existing snapshot says about the kernel: its filter is installed
    and runs the program pinned for its revision. *)
Definition tc_live (v : kview) (key : Key) (s : DispatcherSnapshot) : Prop :=
  exists h, rt_FilterPriority (sn_Runtime s) = Some tcDispatcherPriority /\
    rt_FilterHandle (sn_Runtime s) = Some h /\ h <> 0 /\
    kv_filters v !! tc_filter key h = Some (rt_ProgramID (sn_Runtime s)) /\
    exists o, kv_pins v !! DispatcherProgPath base (KType key) (KNsid key) (KIfindex key) (sn_Revision s) = Some o /\
      prog_id o = Some (rt_ProgramID (sn_Runtime s)).

(** [v'] is [v] with the old filter removed, or not. *)
Definition old_dropped (key : Key) (snap : option DispatcherSnapshot) (v v' : kview) : Prop :=
  v' = v \/ exists s h, snap = Some s /\ rt_FilterHandle (sn_Runtime s) = Some h /\
    v' = del_filter (tc_filter key h) v.

Lemma removeOldFilter_spec msg ops snap w r w' :
  (forall s, snap = Some s -> exists h, rt_FilterPriority (sn_Runtime s) = Some tcDispatcherPriority /\
     rt_FilterHandle (sn_Runtime s) = Some h) ->
  removeOldFilter msg (to_dispType ops) (to_ifindex ops) (to_ifname ops) (tcOld snap) (to_netnsPath ops) w = (r, w') ->
  r = Ok tt /\ w_store w' = w_store w /\ rollbackFailures w' = rollbackFailures w /\
  old_dropped (tc_key ops) snap (kv w) (kv w').
Proof.
  intros Hold. unfold removeOldFilter. destruct (fst (tcOld snap) =? 0) eqn:E0.
  { unfold ret. intros; simplify_eq. repeat split; try done. by left. }
  destruct snap as [s|]; [|done]. destruct (Hold s eq_refl) as (h & Hp & Hh).
  cbn [tcOld] in *. unfold runtime_filter_old in *. rewrite Hp, Hh in *. cbn [fst snd default] in *.
  unfold or_log. destruct (onK _ w) as [[[]|e] w1] eqn:E; apply onK_frame in E as (Hs & Hl & Hk).
  - intros; simplify_eq. split; [done|]. split; [done|]. unfold rollbackFailures. rewrite Hl. split; [done|].
    right. exists s, h. split; [done|]. split; [done|]. by apply law_detach_filter in Hk.
  - unfold log. intros; simplify_eq. split; [done|]. split; [done|].
    split; [rewrite rollbackFailures_other by done; unfold rollbackFailures; by rewrite Hl|].
    left. by apply law_detach_filter_err in Hk.
Qed.

(** ** The store transaction and its roll-back *)

Lemma detach_new_spec msg ops res v w r w' :
  is_rollback (LevelError, msg) = true -> tr_Priority res = tcDispatcherPriority ->
  kv w = v ->
  or_log LevelError msg (onK (DetachTCFilter (to_ifindex ops) (to_ifname ops) (TCParent (to_dispType ops))
    (tr_Priority res) (tr_Handle res) (to_netnsPath ops))) w = (r, w') ->
  r = Ok tt /\ w_store w' = w_store w /\ (rollbackFailures w <= rollbackFailures w')%nat /\
  (rollbackFailures w' = rollbackFailures w -> kv w' = del_filter (tc_filter (tc_key ops) (tr_Handle res)) v).
Proof.
  intros Hmsg Hp <-. apply or_log_rollback; [done|]. intros [] k' Hk'.
  apply law_detach_filter in Hk'. rewrite Hk', Hp. done.
Qed.

(** Restoring the old filter: when it succeeds the exchange is undone. *)
Lemma restore_old_spec msg ops res snap v v3 w r w' :
  tc_ops_wf ops -> is_rollback (LevelError, msg) = true ->
  kv_filters v !! tc_filter (tc_key ops) (tr_Handle res) = None ->
  (forall s, snap = Some s -> tc_live v (tc_key ops) s) ->
  old_dropped (tc_key ops) snap (add_filter (tc_filter (tc_key ops) (tr_Handle res)) (tr_DispatcherID res) v) v3 ->
  kv w = del_filter (tc_filter (tc_key ops) (tr_Handle res)) v3 ->
  (if fst (tcOld snap) =? 0 then ret tt
   else or_log LevelError msg
     (onK (CreateTCFilter (DispatcherProgPath base (to_dispType ops) (KNsid (tc_key ops)) (to_ifindex ops)
        (match snap with Some s => sn_Revision s | None => 0 end)) (to_ifindex ops) (to_ifname ops)
        (to_direction ops) (to_netnsPath ops) (fst (tcOld snap))))) w = (r, w') ->
  r = Ok tt /\ w_store w' = w_store w /\ (rollbackFailures w <= rollbackFailures w')%nat /\
  (rollbackFailures w' = rollbackFailures w -> kv w' = v).
Proof.
  intros Hops Hmsg Hnew Hlive Hdrop Hkv. destruct snap as [s|].
  - destruct (Hlive s eq_refl) as (h & Hp & Hh & Hh0 & Hf & o & Ho & Hid).
    cbn [tcOld]. unfold runtime_filter_old. rewrite Hp, Hh. cbn [fst default from_option]. unfold id.
    destruct (Z.eqb_spec h 0); [done|]. apply or_log_rollback; [done|]. intros res' k' Hk'.
    apply law_create_filter in Hk' as (o' & H1 & H2 & H3 & _ & _ & H6 & H7 & ->).
    specialize (H6 Hh0). rewrite H3, H6, (dir_parent_ops ops Hops) in H7 |- *.
    fold (kv w) in *. rewrite Hkv in *.
    change (ns_of (to_netnsPath ops), to_ifindex ops, TCParent (to_dispType ops), tcDispatcherPriority, h)
      with (tc_filter (tc_key ops) h) in *.
    destruct Hdrop as [->|(s' & h' & [= <-] & Hh' & ->)].
    + exfalso. cbn [kv_filters del_filter add_filter] in H7.
      rewrite lookup_delete_ne, lookup_insert_ne in H7 by congruence. congruence.
    + rewrite Hh in Hh'. injection Hh' as <-. cbn in H1. cbn [tc_key KType KNsid KIfindex] in Ho.
      rewrite H1 in Ho. injection Ho as ->. rewrite Hid in H2. injection H2 as <-. by apply filter_exchange_back.
  - cbn. unfold ret. intros; simplify_eq. split; [done|]. split; [done|]. split; [done|]. intros _.
    destruct Hdrop as [->|(s & ? & ? & _)]; [|done]. rewrite Hkv. by apply del_add_filter.
Qed.

Lemma tcPersist_err msgs m1 m2 lf cleanup f ops res snap newSnap v w e w' :
  tc_ops_wf ops -> is_rollback (LevelError, m1) = true -> is_rollback (LevelError, m2) = true ->
  is_rollback (LevelError, msgs) = false ->
  store_ok (w_store w) -> cleans cleanup f -> tr_Priority res = tcDispatcherPriority ->
  kv_filters v !! tc_filter (tc_key ops) (tr_Handle res) = None ->
  (forall s, snap = Some s -> tc_live v (tc_key ops) s) ->
  old_dropped (tc_key ops) snap (add_filter (tc_filter (tc_key ops) (tr_Handle res)) (tr_DispatcherID res) v) (kv w) ->
  tcPersist msgs m1 m2 lf cleanup (to_dispType ops) (to_ifindex ops) (to_ifname ops) (to_direction ops)
    (to_netnsPath ops) res (tcOld snap)
    (DispatcherProgPath base (to_dispType ops) (KNsid (tc_key ops)) (to_ifindex ops)
       (match snap with Some s => sn_Revision s | None => 0 end)) newSnap w = (Err e, w') ->
  failed_back w w' (f v).
Proof.
  intros Hops Hm1 Hm2 Hlog Hst Hc Hp Hnew Hlive Hdrop. unfold tcPersist, on_error.
  destruct (onS _ w) as [[c|e1] w0] eqn:E; [done|]. intros [= <- Hw'].
  unfold onS in E. destruct (ReplaceDispatcherSnapshot newSnap (w_store w)) as [r1 s1] eqn:Er.
  injection E as -> <-. apply replace_err in Er as (Hst1 & Hsv1); [|done].
  assert (Hlogged : exists w1, (if lf then log LevelError msgs else ret tt) (mkWorld (w_kernel w) s1 (w_log w)) = (Ok tt, w1) /\
            w_kernel w1 = w_kernel w /\ w_store w1 = s1 /\ rollbackFailures w1 = rollbackFailures w).
  { destruct lf; [|by eexists]. eexists. split; [reflexivity|]. split; [done|]. split; [done|].
    by apply (rollbackFailures_other w). }
  destruct Hlogged as (w1 & E1 & Hk1 & Hs1 & Hr1). unfold bind in Hw'. rewrite E1 in Hw'.
  match type of Hw' with context [or_log LevelError m1 ?x w1] => destruct (or_log LevelError m1 x w1) as [r2 w2] eqn:E2 end.
  eapply (detach_new_spec m1 ops res (kv w)) in E2 as (-> & Hs2 & Hr2 & Hv2); [|done|done|unfold kv; by rewrite Hk1].
  match type of Hw' with context [match ?x w2 with _ => _ end] => destruct (x w2) as [r3 w3] eqn:E3 end.
  assert (H3 : r3 = Ok tt /\ w_store w3 = w_store w2 /\ (rollbackFailures w2 <= rollbackFailures w3)%nat /\
            (rollbackFailures w2 = rollbackFailures w1 -> rollbackFailures w3 = rollbackFailures w2 -> kv w3 = v)).
  { destruct (decide (rollbackFailures w2 = rollbackFailures w1)) as [Heq|Hneq].
    - eapply restore_old_spec in E3 as (-> & Hs3 & Hr3 & Hv3); [|done|done|exact Hnew|done|exact Hdrop|by apply Hv2].
      done.
    - destruct (fst (tcOld snap) =? 0); [unfold ret in E3; simplify_eq; done|].
      apply or_log_frame in E3 as (? & ? & ?); done. }
  destruct H3 as (-> & Hs3 & Hr3 & Hv3). destruct (cleanup w3) as [r4 w4] eqn:E4. simpl in Hw'. subst w4.
  apply Hc in E4 as (Hs4 & Hr4 & Hv4). unfold failed_back, sv.
  rewrite Hs4, Hs3, Hs2, Hs1. split; [done|]. split; [done|]. split; [lia|]. intros.
  rewrite Hv4, Hv3 by lia. done.
Qed.

(** ** From the loaded dispatcher to the persisted snapshot *)

Lemma tc_back_refl key v : tc_back key v v.
Proof. by left. Qed.

Lemma failed_tc_failed key w w' v : failed_back w w' v -> tc_failed key w w' v.
Proof.
  intros (? & ? & ? & Hv). repeat (split; [done|]). intros Heq. rewrite (Hv Heq). apply tc_back_refl.
Qed.

(** A phase that starts where an observably unchanged one ended. *)
Lemma tc_failed_from key w w1 w' v :
  sv w1 = sv w -> rollbackFailures w1 = rollbackFailures w -> tc_failed key w1 w' v -> tc_failed key w w' v.
Proof. intros Hs Hr (H1 & H2 & H3 & H4). unfold tc_failed. by rewrite <- Hs, <- Hr. Qed.

Lemma old_filter_live v key snap :
  (forall s, snap = Some s -> tc_live v key s) ->
  forall s, snap = Some s -> exists h, rt_FilterPriority (sn_Runtime s) = Some tcDispatcherPriority /\
     rt_FilterHandle (sn_Runtime s) = Some h.
Proof. intros H s Hs. destruct (H s Hs) as (h & ? & ? & _). by exists h. Qed.

Lemma tc_live_pins v v' key s :
  kv_filters v' = kv_filters v ->
  kv_pins v' !! DispatcherProgPath base (KType key) (KNsid key) (KIfindex key) (sn_Revision s) =
  kv_pins v !! DispatcherProgPath base (KType key) (KNsid key) (KIfindex key) (sn_Revision s) ->
  tc_live v key s -> tc_live v' key s.
Proof. unfold tc_live. by intros -> ->. Qed.

(** An operation that attaches extensions. *)
Definition ext_attach (attach : ExtensionAttachSpec -> M K AttachOutput) : Prop :=
  forall s k out k', attach s k = (Ok out, k') ->
  exists lid disp prog od op,
    kv_pins (view k) !! xs_DispatcherPinPath s = Some od /\ prog_id od = Some disp /\
    kv_pins (view k) !! xs_ProgPinPath s = Some op /\ prog_id op = Some prog /\
    kv_pins (view k) !! xs_LinkPinPath s = None /\
    ao_KernelLinkID out = Some lid /\
    view k' = pin (xs_LinkPinPath s) (KExtension lid disp (xs_Position s) prog) (view k).

(** The attached extensions and the verification after them. *)
Lemma attached_phase (attach : ExtensionAttachSpec -> M K AttachOutput) detachMsg failMsg verifyMsg cleanup key slots revision o v0 w attached w1 u w2 :
  ext_attach attach -> 0 <= KNsid key -> 0 <= KIfindex key -> 0 <= revision ->
  let dpp := DispatcherProgPath base (KType key) (KNsid key) (KIfindex key) revision in
  let lp := ExtensionLinkPath base (KType key) (KNsid key) (KIfindex key) revision in
  kv w = pin dpp o v0 -> kv_pins v0 !! dpp = None ->
  attachAll attach detachMsg failMsg cleanup dpp lp slots 0 [] w = (Ok attached, w1) ->
  verifyExtensions (D:=D) verifyMsg attached w1 = (u, w2) ->
  u = Ok tt /\ length attached = length slots /\ w_store w2 = w_store w /\
  rollbackFailures w2 = rollbackFailures w /\
  Forall (fun a => ax_pinPath a <> []) attached /\
  unpin dpp (unpin_all (ax_pinPath <$> attached) (kv w2)) = v0 /\
  kv_pins (kv w2) !! dpp = Some o /\ kv_filters (kv w2) = kv_filters v0 /\
  (forall j s, slots !! j = Some s ->
     exists a, attached !! j = Some a /\ ext_ok dpp lp (kv w2) s a (Z.of_nat j)) /\
  (forall q, (forall k, q <> DispatcherRevisionDir base (KType key) (KNsid key) (KIfindex key) revision ++ k) ->
     kv_pins (kv w2) !! q = kv_pins v0 !! q).
Proof.
  intros Hlaw Hn Hi Hrev dpp lp Hkv Hfree E1 E2.
  apply (attachAll_ok _ Hlaw) in E1 as (new & -> & Hs1 & Hl1 & Hsub & Hun & Hpins & Hexts).
  cbn [app] in *. apply verifyExtensions_spec in E2 as (-> & Hs2 & Hv2 & Hr2). rewrite Hv2.
  split; [done|]. split; [|split; [congruence|split; [|split; [|split; [|split; [|split; [|split]]]]]]].
  - apply (f_equal length) in Hpins. by rewrite !length_fmap, length_seq in Hpins.
  - rewrite Hr2. unfold rollbackFailures. by rewrite Hl1.
  - apply list.Forall_forall. intros a Ha. apply (list_elem_of_fmap_2 ax_pinPath) in Ha.
    rewrite Hpins in Ha. apply list_elem_of_fmap in Ha as (j & -> & _). apply ext_path_nonempty.
  - rewrite Hun, Hkv. by apply unpin_pin.
  - eapply lookup_weaken; [|exact Hsub]. rewrite Hkv. apply pin_lookup.
  - by rewrite <- (unpin_all_filters (ax_pinPath <$> new)), Hun, Hkv.
  - exact Hexts.
  - intros q Hq. rewrite <- (unpin_all_lookup (ax_pinPath <$> new) (kv w1) q).
    + rewrite Hun, Hkv. apply pin_lookup_ne. intros E. by apply (Hq ["dispatcher"]).
    + rewrite Hpins. by apply not_in_exts.
Qed.

(** A failed TC attach rebuild: back to [v], but for an unaccounted filter or
    the pin of one extension of the new revision. *)
Definition tc_attach_failed (key : Key) (lp : Z -> path) (w w' : W) (v : kview) : Prop :=
  tc_failed key w w' v \/ failed_near lp w w' v.

Lemma tc_attach_failed_from key lp w w1 w' v :
  sv w1 = sv w -> rollbackFailures w1 = rollbackFailures w ->
  tc_attach_failed key lp w1 w' v -> tc_attach_failed key lp w w' v.
Proof.
  intros Hs Hr [H|(H1 & H2 & H3 & H4)]; [left; by eapply tc_failed_from|right].
  unfold failed_near. by rewrite <- Hs, <- Hr.
Qed.

Lemma tcInstall_err ops snap slots revision did o v0 w e w' :
  tc_ops_wf ops -> store_ok (w_store w) -> 0 <= to_ifindex ops -> snap_wf snap revision ->
  (forall s, snap = Some s -> tc_live v0 (tc_key ops) s) ->
  let key := tc_key ops in
  let dpp := DispatcherProgPath base (KType key) (KNsid key) (KIfindex key) revision in
  kv_pins v0 !! dpp = None -> kv w = pin dpp o v0 ->
  tcInstall base ops key snap slots revision did w = (Err e, w') ->
  tc_attach_failed key (ExtensionLinkPath base (KType key) (KNsid key) (KIfindex key) revision) w w' v0.
Proof.
  intros Hops Hst Hi [Hrev Hsn] Hlive key dpp Hdpp Hkv H. unfold tcInstall in H. fold dpp in H.
  assert (Hn : 0 <= KNsid key) by apply law_ns_range.
  assert (Hcn : cleans (cleanupNewDispatcher (D:=D) "rollback: remove new TC dispatcher pin failed" dpp) (unpin dpp))
    by (by apply cleanupNew_cleans).
  step_err H attached w1 E1.
  { eapply attachAll_err in H as (Hs & Hr & Hv); [|apply law_ext_tc|apply law_ext_tc_err|exact Hcn|done
      |intros; apply ext_path_nonempty|constructor].
    right. unfold failed_near, sv. rewrite Hs. repeat (split; [done|]).
    intros Heq. destruct (Hv Heq) as (j & v1 & Hat & ->). exists j.
    rewrite <- (unpin_pin dpp o v0 Hdpp), <- Hkv. by apply only_at_unpin. }
  left. step_err H u w2 E2; [by apply verifyExtensions_spec in H as [? _]|].
  destruct (attached_phase _ _ _ _ _ _ _ _ _ _ _ _ _ _ _ law_ext_tc Hn Hi Hrev Hkv Hdpp E1 E2)
    as (_ & _ & Hs2 & Hr2 & Hne & Hback & _ & Hfl & _ & Hlk).
  assert (Hcl := cleanup_cleans "rollback: detach TC extension link failed" attached _ _ eq_refl Hne Hcn).
  assert (Hst2 : store_ok (w_store w2)) by (by rewrite Hs2).
  apply (tc_failed_from key w w2); [unfold sv; by rewrite Hs2|done|].
  step_err H res w3 E3.
  { eapply create_filter_err in H; [|done|done|exact Hcl| |].
    - rewrite <- Hback. exact H.
    - intros. cbv beta. rewrite unpin_all_add_filter. apply unpin_add_filter.
    - intros v. simpl. by rewrite unpin_all_filters. }
  apply create_filter_ok in E3 as (Hs3 & Hl3 & o3 & _ & _ & Hprio & _ & _ & Hnew & Hk3); [|done].
  assert (Hr3 : rollbackFailures w3 = rollbackFailures w2) by (unfold rollbackFailures; by rewrite Hl3).
  step_err H u4 w4 E4.
  { apply removeOldFilter_spec in H as [? _]; [done|]. by eapply old_filter_live. }
  apply removeOldFilter_spec in E4 as (_ & Hs4 & Hr4 & Hdrop); [|by eapply old_filter_live].
  step_err H comp w5 E5; [|done].
  apply (tc_failed_from key w2 w4); [unfold sv; by rewrite Hs4, Hs3|lia|].
  apply failed_tc_failed. rewrite <- Hback.
  eapply (tcPersist_err _ _ _ _ _ _ ops res snap _ (kv w2)) in H;
    [exact H|done|done|done|done|by rewrite Hs4, Hs3|exact Hcl|done|exact Hnew| |by rewrite <- Hk3].
  intros s Hs. destruct (Hsn s Hs) as [[Hs0 Hs1] Hne'].
  eapply tc_live_pins; [exact Hfl| |by apply Hlive]. apply Hlk. intros k. by apply old_prog_not_new.
Qed.

(** The filters after the exchange. *)
Lemma exchanged_filters key snap h did v0 v2 v' :
  kv_filters v2 = kv_filters v0 -> kv_filters v0 !! tc_filter key h = None ->
  (forall s, snap = Some s -> tc_live v0 key s) ->
  old_dropped key snap (add_filter (tc_filter key h) did v2) v' ->
  kv_pins v' = kv_pins v2 /\ kv_filters v' !! tc_filter key h = Some did /\
  (forall f, (forall h', f <> tc_filter key h') -> kv_filters v' !! f = kv_filters v0 !! f).
Proof.
  intros Hf Hn Hlive [->|(s & h' & Hs & Hh' & ->)]; (split; [done|]).
  - cbn [kv_filters add_filter]. split; [by rewrite lookup_insert_eq|].
    intros f Hne. rewrite lookup_insert_ne by (by apply not_eq_sym). by rewrite Hf.
  - destruct (Hlive s Hs) as (h0 & _ & Hh & _ & Hold & _). rewrite Hh in Hh'. injection Hh' as <-.
    cbn [kv_filters add_filter del_filter]. split.
    + rewrite lookup_delete_ne by congruence. by rewrite lookup_insert_eq.
    + intros f Hne. rewrite lookup_delete_ne, lookup_insert_ne by (by apply not_eq_sym). by rewrite Hf.
Qed.

Lemma ext_ok_pins dpp lp v v' sl a i :
  kv_pins v' = kv_pins v -> ext_ok dpp lp v sl a i -> ext_ok dpp lp v' sl a i.
Proof. unfold ext_ok. by intros ->. Qed.

Lemma tcInstall_ok ops snap slots revision did o v0 w attached completed w' :
  tc_ops_wf ops -> 0 <= to_ifindex ops -> snap_wf snap revision ->
  (forall s, snap = Some s -> tc_live v0 (tc_key ops) s) ->
  let key := tc_key ops in
  let dpp := DispatcherProgPath base (KType key) (KNsid key) (KIfindex key) revision in
  let lp := ExtensionLinkPath base (KType key) (KNsid key) (KIfindex key) revision in
  kv_pins v0 !! dpp = None -> kv w = pin dpp o v0 -> prog_id o = Some did ->
  tcInstall base ops key snap slots revision did w = (Ok (attached, completed), w') ->
  length attached = length slots /\
  (forall j s, slots !! j = Some s ->
     exists a, attached !! j = Some a /\ ext_ok dpp lp (kv w') s a (Z.of_nat j)) /\
  kv_pins (kv w') !! dpp = Some o /\
  (exists h, in_uint32 h /\ h <> 0 /\
    ReplaceDispatcherSnapshot
      (mkDispatcherSnapshotSpec key revision
         (mkDispatcherRuntime did None (Some tcDispatcherPriority) (Some h) (to_netnsPath ops))
         (dispatcherMembers slots attached)) (w_store w) = (Ok completed, w_store w') /\
    kv_filters (kv w') !! tc_filter key h = Some did) /\
  (forall f, (forall h', f <> tc_filter key h') -> kv_filters (kv w') !! f = kv_filters v0 !! f) /\
  (forall q, (forall k, q <> DispatcherRevisionDir base (KType key) (KNsid key) (KIfindex key) revision ++ k) ->
     kv_pins (kv w') !! q = kv_pins v0 !! q).
Proof.
  intros Hops Hi [Hrev Hsn] Hlive key dpp lp Hdpp Hkv Hdid H. unfold tcInstall in H. fold dpp lp in H.
  assert (Hn : 0 <= KNsid key) by apply law_ns_range.
  step_ok H att w1 E1. step_ok H u w2 E2.
  destruct (attached_phase _ _ _ _ _ _ _ _ _ _ _ _ _ _ _ law_ext_tc Hn Hi Hrev Hkv Hdpp E1 E2)
    as (_ & Hlen & Hs2 & Hr2 & _ & _ & Hpin & Hfl & Hexts & Hlk).
  step_ok H res w3 E3.
  apply create_filter_ok in E3 as (Hs3 & Hl3 & o3 & Ho3 & Hid3 & Hprio & Hh & Hh0 & Hnew & Hk3); [|done].
  assert (tr_DispatcherID res = did) as Hd. { fold dpp in Hpin. congruence. }
  step_ok H u4 w4 E4.
  apply removeOldFilter_spec in E4 as (_ & Hs4 & _ & Hdrop); [|by eapply old_filter_live].
  step_ok H comp w5 E5. unfold ret in H. injection H as -> -> ->.
  unfold tcPersist, on_error in E5. destruct (onS _ w4) as [[c|e] w6] eqn:E6; [|done]. injection E5 as -> ->.
  unfold onS in E6. destruct (ReplaceDispatcherSnapshot _ (w_store w4)) as [r7 s7] eqn:E7. injection E6 as -> <-.
  change (kv (mkWorld (w_kernel w4) s7 (w_log w4))) with (kv w4). cbn [w_store].
  rewrite Hk3, Hd in Hdrop. fold key in Hdrop, Hnew.
  destruct (exchanged_filters key snap (tr_Handle res) did v0 (kv w2) (kv w4)) as (Hpins & Hf & Hfo);
    [done|by rewrite <- Hfl|done|done|].
  split; [done|]. split; [|split; [by rewrite Hpins|split; [|split; [done|]]]].
  - intros j s Hj. destruct (Hexts j s Hj) as (a & Ha & Hok). exists a. split; [done|].
    by eapply ext_ok_pins.
  - exists (tr_Handle res). rewrite <- Hprio, <- Hs2, <- Hs3, <- Hs4. done.
  - intros q Hq. rewrite Hpins. by apply Hlk.
Qed.
End TCSteps.
