(* ===== verification/TCAttach.v ===== *)
(** * The TC attach: atomicity, coherence and members

    The theorems about rebuildTCDispatcher (manager/executor_dispatcher.go),
    and the invariant of all dispatchers under any sequence of attaches. *)

From Stdlib Require Import ZArith Lia String Sorted.
From stdpp Require Import base tactics sets list gmap strings numbers.
From S2P Require Import Prelude Actions Dispatcher Domain Slots Layout Platform Executor Rebuild Members.
From S2P Require Import XDPRebuild TCRebuild.

Local Open Scope string_scope.
Local Open Scope list_scope.
Local Open Scope Z_scope.

Section TCTheorems.
Context {K D : Type} `{!KernelOps K} {NC : NetConsts} `{!KernelLaws K} `{!DispatcherStoreOps D} `{!DispatcherStore D}.
Context (base : path).
Abbreviation W := (world K D).
Implicit Types (w : W).

Definition newTCSlot (pid : Z) (ops : tcRebuildOps) (pp : path) (name : string) (prio po : Z)
    (md : gmap string string) : rebuildSlot :=
  mkRebuildSlot pp name prio po None pid (to_ifname ops) md.

(** A run that got as far as the loaded dispatcher: [w3] is the world there. *)
Record tc_prepared (ops : tcRebuildOps) (newSlot : rebuildSlot) (w : W)
    (snap : option DispatcherSnapshot) (slots : list rebuildSlot) (cfg : TCConfig) (did : Z)
    (w3 : W) : Prop := {
  tp_snap : sv_snaps (sv w) !! tc_key ops = snap;
  tp_snap_wf : forall s, snap = Some s -> sn_Key s = tc_key ops /\ in_uint32 (sn_Revision s);
  tp_plan : planSlots snap newSlot = Ok slots;
  tp_masks : Forall (fun sl => in_uint32 (rs_ProceedOn sl)) slots;
  tp_cfg : tcConfig slots = Ok cfg;
  tp_free : kv_pins (kv w) !! DispatcherProgPath base (KType (tc_key ops)) (KNsid (tc_key ops))
              (KIfindex (tc_key ops)) (nextRevision snap) = None;
  tp_loaded : kv w3 = pin (DispatcherProgPath base (KType (tc_key ops)) (KNsid (tc_key ops))
                (KIfindex (tc_key ops)) (nextRevision snap)) (KTCDispatcher did cfg) (kv w);
  tp_store_ok : store_ok (w_store w3);
  tp_store : sv w3 = sv w;
  tp_log : rollbackFailures w3 = rollbackFailures w;
}.

Lemma tc_load_prepared ops newSlot w w2 snap slots cfg r w3 :
  let key := tc_key ops in
  unchanged w w2 ->
  wrapping "load TC dispatcher: %w" (onK (LoadAndPinTCDispatcher cfg
     (DispatcherProgPath base (KType key) (KNsid key) (KIfindex key) (nextRevision snap)))) w2 = (r, w3) ->
  sv_snaps (sv w) !! key = snap ->
  (forall s, snap = Some s -> sn_Key s = key /\ in_uint32 (sn_Revision s)) ->
  planSlots snap newSlot = Ok slots -> Forall (fun sl => in_uint32 (rs_ProceedOn sl)) slots ->
  tcConfig slots = Ok cfg ->
  match r with
  | Ok did => tc_prepared ops newSlot w snap slots cfg did w3
  | Err _ => failed_back w w3 (kv w)
  end.
Proof.
  intros key (Hk & Hl & Ho & Hs) H Hsn Hwf Hplan Hm Hcfg. destruct r as [did|e].
  - apply wrapping_ok in H. apply onK_frame in H as (Hs3 & Hl3 & Hk3).
    apply law_load_tc in Hk3 as [Hfree Hk3]. fold (kv w2) in *. fold (kv w3) in Hk3.
    rewrite Hk in Hfree, Hk3. constructor; try done.
    + by rewrite Hs3.
    + unfold sv in *. by rewrite Hs3.
    + unfold rollbackFailures. by rewrite Hl3, Hl.
  - apply wrapping_err in H as (e' & _ & H). apply onK_frame in H as (Hs3 & Hl3 & Hk3).
    apply law_load_tc_err in Hk3. apply unchanged_failed. unfold unchanged, sv, kv in *.
    by rewrite Hk3, Hs3, Hl3.
Qed.

(** Every run fails before anything was loaded, leaving nothing behind, or
    continues from a prepared state. *)
Lemma rebuildTC_prepare pid ops pp name prio po md w r w' :
  store_ok (w_store w) -> in_uint32 po ->
  rebuildTCDispatcher base pid ops pp name prio po md w = (r, w') ->
  let ns := newTCSlot pid ops pp name prio po md in
  ((exists e, r = Err e) /\ failed_back w w' (kv w)) \/
  exists snap slots cfg did w3,
    tc_prepared ops ns w snap slots cfg did w3 /\
    tcFinish base pid ops ns (tc_key ops) snap slots (nextRevision snap) did w3 = (r, w').
Proof.
  intros Hst Hpo H ns. unfold rebuildTCDispatcher in H.
  fold (newTCSlot pid ops pp name prio po md) in H. fold ns in H.
  unfold bind at 1 in H. destruct (wrapping "get nsid: %w" _ w) as [r1 w1] eqn:E1.
  apply nsid_unchanged in E1 as [H1 Hnsid]; [|done]. pose proof H1 as (_ & _ & Ho1 & Hs1).
  destruct r1 as [nsid|e1]; [|simplify_eq; left; split; [eauto|by apply unchanged_failed]].
  destruct (Hnsid _ eq_refl) as [-> _]. clear Hnsid. fold (tc_key ops) in H.
  unfold bind at 1 in H. destruct (lookupSnapshot (tc_key ops) w1) as [r2 w2] eqn:E2.
  apply lookupSnapshot_unchanged in E2 as [H2 Hsn]; [|done].
  assert (H02 : unchanged w w2) by (by eapply unchanged_trans).
  destruct r2 as [snap|e2]; [|simplify_eq; left; split; [eauto|by apply unchanged_failed]].
  destruct (Hsn _ eq_refl) as [Hsnap Hwf]. rewrite Hs1 in Hsnap.
  unfold bind at 1 in H. unfold lift at 1 in H.
  destruct (planSlots snap ns) as [slots|e3] eqn:E3;
    [|simplify_eq; left; split; [eauto|by apply unchanged_failed]].
  unfold bind at 1 in H. unfold lift at 1 in H.
  destruct (tcConfig slots) as [cfg|e4] eqn:E4;
    [|cbn [wrap_err] in H; simplify_eq; left; split; [eauto|by apply unchanged_failed]].
  cbn [wrap_err] in H. unfold bind at 1 in H.
  destruct (wrapping "load TC dispatcher: %w" _ w2) as [r5 w3] eqn:E5.
  eapply (tc_load_prepared ops ns w w2 snap slots cfg r5 w3) in E5; try done.
  - destruct r5 as [did|e5]; [|simplify_eq; left; split; [eauto|done]].
    right. exists snap, slots, cfg, did, w3. done.
  - intros s Hs'. by destruct (Hwf s Hs') as (? & ? & _).
  - eapply planSlots_wf; [exact E3|exact Hpo|]. intros s Hs'. by destruct (Hwf s Hs') as (_ & _ & ?).
Qed.

Lemma tc_key_type ops : tc_ops_wf ops -> isTCDispatcherType (KType (tc_key ops)) = true.
Proof. by intros [[H _]|[H _]]; unfold tc_key; cbn [KType]; rewrite H. Qed.

Lemma tc_type_nonzero d : isTCDispatcherType d = true -> d <> DispatcherTypeZero.
Proof. by intros H ->. Qed.

Lemma tc_prepared_wf ops ns w snap slots cfg did w3 :
  tc_prepared ops ns w snap slots cfg did w3 -> snap_wf snap (nextRevision snap) /\ in_uint32 (nextRevision snap).
Proof.
  intros Hp. split; [apply nextRevision_wf|apply nextRevision_range];
    intros s Hs; by apply (tp_snap_wf _ _ _ _ _ _ _ _ Hp).
Qed.

Lemma tc_runtime_wf did h netns : in_uint32 h ->
  runtime_wf (mkDispatcherRuntime did None (Some tcDispatcherPriority) (Some h) netns).
Proof. intros Hh. split; cbn; [intros p [= <-]; unfold tcDispatcherPriority; lia|by intros ? [= <-]]. Qed.

Lemma tcFinish_err pid ops ns w snap slots cfg did w3 e w' :
  forallb plain base = true -> tc_ops_wf ops -> 0 <= to_ifindex ops < 2 ^ 32 ->
  tc_prepared ops ns w snap slots cfg did w3 ->
  (forall s, snap = Some s -> tc_live base (kv w) (tc_key ops) s) ->
  tcFinish base pid ops ns (tc_key ops) snap slots (nextRevision snap) did w3 = (Err e, w') ->
  tc_attach_failed (tc_key ops) (ExtensionLinkPath base (KType (tc_key ops)) (KNsid (tc_key ops))
    (KIfindex (tc_key ops)) (nextRevision snap)) w w' (kv w).
Proof.
  intros Hb Hops Hif Hp Hlive H. destruct (tc_prepared_wf _ _ _ _ _ _ _ _ Hp) as [Hwf Hrng].
  pose proof (law_ns_range (K:=K) (to_netnsPath ops)) as Hns.
  destruct Hp as [_ Hsnwf Hplan Hmasks _ Hfree Hload Ho3 Hs3 Hr3]. unfold tcFinish in H.
  apply (tc_attach_failed_from _ _ _ w3); [done|done|].
  step_err H r w4 E6.
  { eapply tcInstall_err in H; [exact H|done|done|lia|exact Hwf|done|exact Hfree|exact Hload]. }
  destruct r as [attached completed].
  eapply tcInstall_ok in E6 as (Hlen & _ & _ & (h & Hh & _ & Hrep & _) & _);
    [|done|lia|exact Hwf|exact Hlive|exact Hfree|exact Hload|done].
  step_err H u w5 E7.
  { apply removeOldRevision_frame in H as [? _]; try done; [by apply tc_type_nonzero, tc_key_type|cbn; lia|].
    intros s Hs. by apply Hsnwf. }
  apply lift_err in H as [H _].
  apply (replace_decodes _ _ _ _ _ _ _ _ ns) in Hrep as [Hdec Hml]; try done;
    [|by apply tc_runtime_wf|by eapply newSlot_in].
  edestruct (buildResult_total LinkKindTC) as (r & Hr & _); [|exact Hlen|exact Hml|exact Hdec|].
  - apply planSlots_ok in Hplan as [_ ?]. lia.
  - rewrite Hr in H. done.
Qed.

(** ** Coherence of the kernel with a stored TC snapshot *)

(** The recorded filter runs the recorded dispatcher program, whose
    configuration enables exactly the members with their proceed-on masks,
    and every member's extension is attached to its own slot of it. *)
Definition tc_coherent (v : kview) (s : DispatcherSnapshot) : Prop :=
  let key := sn_Key s in
  exists h cfg,
    rt_FilterPriority (sn_Runtime s) = Some tcDispatcherPriority /\
    rt_FilterHandle (sn_Runtime s) = Some h /\ h <> 0 /\
    ns_of (rt_NetnsPath (sn_Runtime s)) = KNsid key /\
    kv_filters v !! tc_filter key h = Some (rt_ProgramID (sn_Runtime s)) /\
    kv_pins v !! DispatcherProgPath base (KType key) (KNsid key) (KIfindex key) (sn_Revision s)
      = Some (KTCDispatcher (rt_ProgramID (sn_Runtime s)) cfg) /\
    TNumProgsEnabled cfg = Z.of_nat (length (sn_Members s)) /\
    NoDup (dm_Position <$> sn_Members s) /\
    Forall (member_coherent base v s (TChainCallActions cfg)) (sn_Members s).

Lemma tc_coherent_live v key s : sn_Key s = key -> tc_coherent v s -> tc_live base v key s.
Proof.
  intros <- (h & cfg & Hp & Hh & H0 & _ & Hf & Hpin & _). exists h. repeat (split; [done|]).
  by eexists.
Qed.

Lemma tc_coherent_frame v v' s :
  (forall q, DispatcherRevisionDir base (KType (sn_Key s)) (KNsid (sn_Key s)) (KIfindex (sn_Key s)) (sn_Revision s)
     `prefix_of` q -> kv_pins v' !! q = kv_pins v !! q) ->
  (forall h p, kv_filters v !! tc_filter (sn_Key s) h = Some p -> kv_filters v' !! tc_filter (sn_Key s) h = Some p) ->
  tc_coherent v s -> tc_coherent v' s.
Proof.
  intros Hq Hf (h & cfg & H1 & H2 & H3 & Hns & H4 & H5 & H6 & H7 & H8). exists h, cfg.
  repeat (split; [by auto|]). split; [rewrite Hq by apply prog_path_in_revdir; done|].
  repeat (split; [done|]). by eapply member_coherent_frame.
Qed.

Lemma tcConfig_spec slots cfg :
  tcConfig slots = Ok cfg -> (length slots <= 10)%nat ->
  TNumProgsEnabled cfg = Z.of_nat (length slots) /\
  forall j s, slots !! j = Some s -> TChainCallActions cfg !! j = Some (rs_ProceedOn s).
Proof.
  unfold tcConfig, NewTCConfig. case_match; [done|]. cbn [rbind]. intros [= <-] Hlen.
  cbn [TNumProgsEnabled TChainCallActions]. split.
  - unfold uint8. apply Z.mod_small. lia.
  - intros j s Hj. apply (set_actions_lookup slots 0 zeroSlots j s); [|done].
    unfold zeroSlots, MaxPrograms. rewrite length_replicate. simpl. lia.
Qed.

Lemma tc_coherent_install key revision did h netns slots attached cfg ms0 ms ps v :
  let lp := ExtensionLinkPath base (KType key) (KNsid key) (KIfindex key) revision in
  h <> 0 -> ns_of netns = KNsid key -> kv_filters v !! tc_filter key h = Some did ->
  kv_pins v !! DispatcherProgPath base (KType key) (KNsid key) (KIfindex key) revision
    = Some (KTCDispatcher did cfg) ->
  tcConfig slots = Ok cfg -> (length slots <= 10)%nat -> length attached = length slots ->
  (forall j s, slots !! j = Some s -> exists a, attached !! j = Some a /\ served lp did v a j) ->
  Forall2 (fun sp m => m = complete_member sp (dm_LinkID m) /\
             (forall id, ms_ExistingLinkID sp = Some id -> dm_LinkID m = id))
    (dispatcherMembers slots attached) ms0 ->
  ms ≡ₚ (stored_member ps <$> ms0) ->
  tc_coherent v (mkDispatcherSnapshot key revision
                   (mkDispatcherRuntime did None (Some tcDispatcherPriority) (Some h) netns) ms).
Proof.
  intros lp H0 Hns Hf Hdpp Hcfg H10 Hlen Hserved HF Hperm.
  destruct (tcConfig_spec _ _ Hcfg H10) as [Hnum Hacts].
  destruct (members_coherent base key revision did slots attached (TChainCallActions cfg) ms0 ms ps v
              (mkDispatcherRuntime did None (Some tcDispatcherPriority) (Some h) netns)) as (Hl & Hnd & Hall); try done.
  exists h, cfg. repeat (split; [done|]). split; [|done]. cbn [sn_Members]. by rewrite Hl.
Qed.

Definition tcDetails (ops : tcRebuildOps) (ns : rebuildSlot) (key : Key) (did revision : Z)
    (acts : list Z) (pos : Z) : LinkDetails :=
  DTC (mkTCDetails (rs_Ifname ns) (to_ifindex ops) (to_direction ops) (int32 (rs_Priority ns))
         (int32 pos) acts "" (KNsid key) did revision).

Definition tc_runtime (ops : tcRebuildOps) (did h : Z) : DispatcherRuntime :=
  mkDispatcherRuntime did None (Some tcDispatcherPriority) (Some h) (to_netnsPath ops).

(** What a successful run leaves. *)
Record tc_installed (pid : Z) (ops : tcRebuildOps) (ns : rebuildSlot) (w : W)
    (snap : option DispatcherSnapshot) (slots : list rebuildSlot) (did h : Z)
    (attached : list attachedExt) (completed : DispatcherSnapshot) (ms : list DispatcherMember)
    (r : extensionResult) (w' : W) : Prop := {
  ti_ok : store_ok (w_store w');
  ti_rev : 1 <= nextRevision snap;
  ti_len : length attached = length slots;
  ti_completed : Forall2 (fun sp m => m = complete_member sp (dm_LinkID m) /\
                   (forall id, ms_ExistingLinkID sp = Some id -> dm_LinkID m = id))
                   (dispatcherMembers slots attached) (sn_Members completed);
  ti_members : ms ≡ₚ (stored_member (sv_progs (sv w)) <$> sn_Members completed);
  ti_store : sv w' = mkSview
    (<[tc_key ops := mkDispatcherSnapshot (tc_key ops) (nextRevision snap) (tc_runtime ops did h) ms]>
       (sv_snaps (sv w))) (sv_progs (sv w));
  ti_coherent : tc_coherent (kv w')
    (mkDispatcherSnapshot (tc_key ops) (nextRevision snap) (tc_runtime ops did h) ms);
  ti_result : buildResult LinkKindTC (tcDetails ops ns (tc_key ops) did (nextRevision snap))
                "decode TC proceed-on: %w" pid (tc_key ops) (nextRevision snap) ns slots attached completed = Ok r;
  ti_filters : forall f, (forall h', f <> tc_filter (tc_key ops) h') ->
    kv_filters (kv w') !! f = kv_filters (kv w) !! f;
  ti_frame : forall q,
    (forall rev, 0 <= rev -> ~ DispatcherRevisionDir base (KType (tc_key ops)) (KNsid (tc_key ops))
       (KIfindex (tc_key ops)) rev `prefix_of` q) ->
    kv_pins (kv w') !! q = kv_pins (kv w) !! q;
  ti_runs : slots_run base (tc_key ops) (nextRevision snap) slots (kv w');
}.

Lemma tcFinish_ok pid ops ns w snap slots cfg did w3 r w' :
  forallb plain base = true -> tc_ops_wf ops -> 0 <= to_ifindex ops < 2 ^ 32 ->
  tc_prepared ops ns w snap slots cfg did w3 ->
  (forall s, snap = Some s -> tc_live base (kv w) (tc_key ops) s) ->
  tcFinish base pid ops ns (tc_key ops) snap slots (nextRevision snap) did w3 = (Ok r, w') ->
  exists h attached completed ms, tc_installed pid ops ns w snap slots did h attached completed ms r w'.
Proof.
  intros Hb Hops Hif Hp Hlive H. destruct (tc_prepared_wf _ _ _ _ _ _ _ _ Hp) as [Hwf Hrng].
  pose proof (law_ns_range (K:=K) (to_netnsPath ops)) as Hns.
  destruct Hp as [_ Hsnwf Hplan Hmasks Hcfg Hfree Hload Ho3 Hs3 Hr3]. unfold tcFinish in H.
  step_ok H rr w4 E6. destruct rr as [attached completed].
  eapply tcInstall_ok in E6 as (Hlen & Hexts & Hdpp & (h & Hh & Hh0 & Hrep & Hf) & Hfo & Hfr4);
    [|done|lia|exact Hwf|exact Hlive|exact Hfree|exact Hload|done].
  step_ok H u w5 E7. destruct u. apply lift_ok in H as [Hbuild ->].
  eapply removeOld_keeps in E7 as (Hs5 & Hfl5 & Hnew & Hfr5);
    [|done|by apply tc_type_nonzero, tc_key_type|done|cbn; lia|done|done].
  eapply replace_ok in Hrep as (Hok' & _ & _ & _ & HF & _ & Hge & ms & Hperm & Hsv'); [|done|].
  2:{ apply spec_wf_members; [done|done|by apply tc_runtime_wf]. }
  cbn [ss_Key ss_Revision ss_Runtime ss_Members] in *.
  change (sview_of (w_store w3)) with (sv w3) in Hperm, Hsv'. rewrite Hs3 in Hperm, Hsv'.
  exists h, attached, completed, ms. split; try done.
  - by rewrite Hs5.
  - unfold sv at 1. by rewrite Hs5.
  - eapply tc_coherent_install; [done|done| | |exact Hcfg|apply planSlots_ok in Hplan; lia|exact Hlen| |exact HF|exact Hperm].
    + by rewrite Hfl5.
    + rewrite Hnew by apply prog_path_in_revdir. done.
    + intros j s Hj. destruct (Hexts j s Hj) as (a & Ha & Hok). exists a. split; [done|].
      eapply ext_ok_served in Hok as [Hpath (elid & prog & Hout & Hpin)]; [|exact Hdpp|done].
      split; [done|]. exists elid, prog. split; [done|]. rewrite Hnew by apply ext_path_in_revdir. done.
  - intros f Hne. rewrite Hfl5. by apply Hfo.
  - intros q Hq. rewrite Hfr5 by done. apply Hfr4.
    intros k ->. destruct Hwf as [Hrev _]. by apply (Hq _ Hrev), prefix_app_r.
  - eapply slots_run_ext; [exact Hexts|exact Hnew|]. intros q [Hq _]. by apply Hfr5.
Qed.

(** ** The invariant of all dispatchers *)

(** Every stored dispatcher is served by the kernel. *)
Definition dispatchers_consistent (w : W) : Prop :=
  store_ok (w_store w) /\
  forall k s, sv_snaps (sv w) !! k = Some s ->
    sn_Key s = k /\ 0 <= KNsid k /\ 0 <= KIfindex k /\ in_uint32 (sn_Revision s) /\
    (KType k = DispatcherTypeXDP -> xdp_coherent base (kv w) s) /\
    (isTCDispatcherType (KType k) = true -> tc_coherent (kv w) s).

Lemma consistent_xdp w : dispatchers_consistent w -> xdp_consistent base w.
Proof.
  intros [Hok Hc]. split; [done|]. intros k s Hs Ht.
  destruct (Hc k s Hs) as (? & ? & ? & ? & Hx & _). repeat (split; [done|]). by apply Hx.
Qed.

Lemma tc_filter_other k key h h' :
  isTCDispatcherType (KType k) = true -> isTCDispatcherType (KType key) = true -> k <> key ->
  tc_filter k h <> tc_filter key h'.
Proof.
  pose proof (law_parents (K:=K)) as Hp. destruct k as [t n i], key as [t' n' i'].
  unfold tc_filter, TCParent, TCParentHandle. cbn. intros Ht Ht' Hne [= Hn Hi Hh _]. apply Hne. subst n' i'.
  destruct t, t'; try done; congruence.
Qed.

(** What a rebuild of [key] may touch: its own revision directories, its own
    outer link and its own filters. *)
Definition touches_only (key : Key) (v v' : kview) : Prop :=
  (forall q,
    (forall rev, 0 <= rev -> ~ DispatcherRevisionDir base (KType key) (KNsid key) (KIfindex key) rev `prefix_of` q) ->
    q <> DispatcherLinkPath base (KType key) (KNsid key) (KIfindex key) ->
    kv_pins v' !! q = kv_pins v !! q) /\
  (isTCDispatcherType (KType key) = true ->
    forall f, (forall h', f <> tc_filter key h') -> kv_filters v' !! f = kv_filters v !! f) /\
  (isTCDispatcherType (KType key) = false -> kv_filters v' = kv_filters v).

(** Dispatchers of other attach points are not disturbed. *)
Lemma touches_only_frame key k s v v' :
  touches_only key v v' -> k <> key -> sn_Key s = k ->
  0 <= KNsid key -> 0 <= KIfindex key -> 0 <= KNsid k -> 0 <= KIfindex k -> 0 <= sn_Revision s ->
  (xdp_coherent base v s -> xdp_coherent base v' s) /\
  (isTCDispatcherType (KType k) = true -> tc_coherent v s -> tc_coherent v' s).
Proof.
  intros (Hp & Hf & Hf') Hne Hk Hn Hi Hn' Hi' Hr. split.
  - apply coherent_frame. intros q Hq. rewrite Hk in Hq.
    apply (other_key_frame base key) in Hq as [H1 H2]; try done. by apply Hp.
  - intros Ht. apply tc_coherent_frame.
    + intros q Hq. rewrite Hk in Hq.
      destruct (other_key_frame base key k (sn_Revision s) q) as [H1 H2]; try done; [by right|]. by apply Hp.
    + intros h p. rewrite Hk. destruct (isTCDispatcherType (KType key)) eqn:E; [|by rewrite Hf'].
      rewrite Hf; [done|done|]. intros h'. by apply tc_filter_other.
Qed.

(** Replacing one attach point's snapshot by a coherent one keeps the whole
    invariant. *)
Lemma consistent_insert key snap' w w' :
  dispatchers_consistent w -> store_ok (w_store w') -> touches_only key (kv w) (kv w') ->
  sv_snaps (sv w') = <[key := snap']> (sv_snaps (sv w)) ->
  sn_Key snap' = key -> 0 <= KNsid key -> 0 <= KIfindex key -> in_uint32 (sn_Revision snap') ->
  (KType key = DispatcherTypeXDP -> xdp_coherent base (kv w') snap') ->
  (isTCDispatcherType (KType key) = true -> tc_coherent (kv w') snap') ->
  dispatchers_consistent w'.
Proof.
  intros [_ Hc] Hok Ht Hs Hk Hn Hi Hr Hx Htc. split; [done|]. intros k s Hl. rewrite Hs in Hl.
  apply lookup_insert_Some in Hl as [[<- <-]|[Hne Hl]]; [done|].
  destruct (Hc k s Hl) as (Hk' & Hn' & Hi' & Hr' & Hx' & Ht'). repeat (split; [done|]).
  destruct (touches_only_frame key k s _ _ Ht) as [Hxf Htf]; try done; [apply Hr'|].
  split; auto.
Qed.

(** A failure that changed nothing but a stray filter keeps the invariant. *)
Lemma consistent_back key w w' :
  dispatchers_consistent w -> store_ok (w_store w') -> sv w' = sv w -> tc_back key (kv w) (kv w') ->
  dispatchers_consistent w'.
Proof.
  intros [_ Hc] Hok Hs Hback. split; [done|]. rewrite Hs. intros k s Hl.
  destruct (Hc k s Hl) as (Hk' & Hn' & Hi' & Hr' & Hx' & Ht'). repeat (split; [done|]).
  destruct Hback as [->|(h & prog & Hnone & ->)]; [done|]. split; intros Hty.
  - eapply coherent_frame; [|by apply Hx']. done.
  - apply (tc_coherent_frame (kv w)); [done| |by apply Ht']. intros h' p Hh'. cbn [kv_filters add_filter].
    rewrite lookup_insert_ne by congruence. done.
Qed.

(** So does one that changed nothing but an extension pin of the next revision. *)
Lemma consistent_near key pos w w' :
  0 <= KNsid key -> 0 <= KIfindex key ->
  dispatchers_consistent w -> store_ok (w_store w') -> sv w' = sv w ->
  only_at (ExtensionLinkPath base (KType key) (KNsid key) (KIfindex key)
             (nextRevision (sv_snaps (sv w) !! key)) pos) (kv w) (kv w') ->
  dispatchers_consistent w'.
Proof.
  intros Hn Hi [_ Hc] Hok Hs Hat. split; [done|]. rewrite Hs. intros k s Hl.
  destruct (Hc k s Hl) as (Hk' & Hn' & Hi' & Hr' & Hx' & Ht'). repeat (split; [done|]).
  assert (Hq : forall q, q = DispatcherLinkPath base (KType k) (KNsid k) (KIfindex k) \/
             DispatcherRevisionDir base (KType k) (KNsid k) (KIfindex k) (sn_Revision s) `prefix_of` q ->
             kv_pins (kv w') !! q = kv_pins (kv w) !! q).
  { intros q Hq. eapply (stray_pins base (sv_snaps (sv w)) key pos (kv w) (kv w') k s); try done.
    intros s' Hs'. by destruct (Hc key s' Hs') as (_ & _ & _ & ? & _). }
  rewrite <- Hk' in Hq. split; intros Hty.
  - eapply coherent_frame; [exact Hq|by apply Hx'].
  - apply (tc_coherent_frame (kv w)); [|by rewrite (proj1 Hat)|by apply Ht']. intros q Hpre. apply Hq. by right.
Qed.

(** Both outcomes of a TC attach from a consistent world. *)
Lemma rebuildTC_cases pid ops pp name prio po md w r w' :
  forallb plain base = true -> tc_ops_wf ops -> 0 <= to_ifindex ops < 2 ^ 32 -> in_uint32 po ->
  dispatchers_consistent w ->
  rebuildTCDispatcher base pid ops pp name prio po md w = (r, w') ->
  let ns := newTCSlot pid ops pp name prio po md in
  match r with
  | Err _ => tc_attach_failed (tc_key ops) (ExtensionLinkPath base (KType (tc_key ops)) (KNsid (tc_key ops))
      (KIfindex (tc_key ops)) (nextRevision (sv_snaps (sv w) !! tc_key ops))) w w' (kv w)
  | Ok res => exists snap slots did h attached completed ms,
      in_uint32 (nextRevision snap) /\ sv_snaps (sv w) !! tc_key ops = snap /\ planSlots snap ns = Ok slots /\
      tc_installed pid ops ns w snap slots did h attached completed ms res w'
  end.
Proof.
  intros Hb Hops Hif Hpo [Hst Hc] H ns.
  destruct (rebuildTC_prepare _ _ _ _ _ _ _ _ _ _ Hst Hpo H) as [[[e ->] Hf]|Hp]; [left; by apply failed_tc_failed|].
  destruct Hp as (snap & slots & cfg & did & w3 & Hp & Hfin).
  assert (Hlive : forall s, snap = Some s -> tc_live base (kv w) (tc_key ops) s).
  { intros s ->. destruct (Hc (tc_key ops) s) as (Hk & _ & _ & _ & _ & Hco); [apply Hp|].
    apply tc_coherent_live; [done|]. by apply Hco, tc_key_type. }
  destruct r as [res|e]; [|rewrite (tp_snap _ _ _ _ _ _ _ _ Hp); by eapply tcFinish_err].
  eapply tcFinish_ok in Hfin as (h & attached & completed & ms & Hin); [|done|done|done|exact Hp|exact Hlive].
  exists snap, slots, did, h, attached, completed, ms. split; [by apply (tc_prepared_wf _ _ _ _ _ _ _ _ Hp)|].
  split; [apply Hp|]. split; [apply Hp|done].
Qed.

Lemma rebuildTC_keeps pid ops pp name prio po md w r w' :
  forallb plain base = true -> tc_ops_wf ops -> 0 <= to_ifindex ops < 2 ^ 32 -> in_uint32 po ->
  dispatchers_consistent w ->
  rebuildTCDispatcher base pid ops pp name prio po md w = (r, w') ->
  is_ok r = true \/ rollbackFailures w' = rollbackFailures w ->
  dispatchers_consistent w'.
Proof.
  intros Hb Hops Hif Hpo Hc H Hr. pose proof (rebuildTC_cases _ _ _ _ _ _ _ _ _ _ Hb Hops Hif Hpo Hc H) as Hcase.
  destruct r as [res|e].
  - destruct Hcase as (snap & slots & did & h & attached & completed & ms & Hrev & _ & _ & Hin).
    destruct Hin as [Hok _ _ _ _ Hsv Hco _ Hfl Hfr _].
    eapply (consistent_insert (tc_key ops)); [exact Hc|exact Hok| |by rewrite Hsv|done|apply law_ns_range|cbn; lia|done| |done].
    + split; [by auto|]. split; [done|]. intros Hty. by rewrite tc_key_type in Hty.
    + intros Hty. pose proof (tc_key_type ops Hops) as Ht. by rewrite Hty in Ht.
  - destruct Hr as [?|Hr]; [done|]. destruct Hcase as [(Hok & Hs & _ & Hk)|(Hok & Hs & _ & Hk)]; [by eapply consistent_back, Hk|].
    destruct (Hk Hr) as [pos Hat]. eapply (consistent_near (tc_key ops)); [apply law_ns_range| |exact Hc|done|done|exact Hat]. cbn. lia.
Qed.

Lemma rebuildXDP_keeps pid ops pp name prio po md w r w' :
  forallb plain base = true -> 0 <= xo_ifindex ops < 2 ^ 32 -> in_uint32 po -> dispatchers_consistent w ->
  rebuildXDPDispatcher base pid ops pp name prio po md w = (r, w') ->
  is_ok r = true \/ rollbackFailures w' = rollbackFailures w ->
  dispatchers_consistent w'.
Proof.
  intros Hb Hif Hpo Hc H Hr.
  pose proof (rebuildXDP_cases base _ _ _ _ _ _ _ _ _ _ Hb Hif Hpo (consistent_xdp _ Hc) H) as Hcase.
  destruct r as [res|e].
  - destruct Hcase as (key & snap & slots & did & lid & attached & completed & ms & Hty & Hi & Hn & Hrev & _ & _ & Hin).
    destruct Hin as [Hok _ _ _ _ Hsv Hco _ Hfl Hfr _].
    eapply (consistent_insert key); [exact Hc|exact Hok| |by rewrite Hsv|done|done|lia|done|done|].
    + split; [done|]. rewrite Hty. done.
    + by rewrite Hty.
  - destruct Hcase as (key & _ & Hi & Hn & Hok & Hs & _ & Hk). destruct Hr as [?|Hr]; [done|].
    destruct (Hk Hr) as [pos Hat]. eapply consistent_near; [exact Hn|lia|exact Hc|done|done|exact Hat].
Qed.

(** ** Properties *)

(** C10: a failed TC attach is undone. Whichever step fails, the stored
    snapshots are as before and, unless the log records that a roll-back call
    itself failed, every pin is as before and every filter too: the removed old
    filter is back under its own handle, running its own program. The
    exceptions are a filter the kernel accepted although the call that created
    it reported an error, and the path of an extension of the revision that
    was being built, where a failed attach can drop an old pin or leave its own;
    no record refers to either. *)
Theorem rebuildTC_atomic pid ops pp name prio po md w e w' :
  forallb plain base = true -> tc_ops_wf ops -> 0 <= to_ifindex ops < 2 ^ 32 -> in_uint32 po ->
  dispatchers_consistent w ->
  rebuildTCDispatcher base pid ops pp name prio po md w = (Err e, w') ->
  sv w' = sv w /\
  (rollbackFailures w' = rollbackFailures w ->
   kv_filters (kv w) ⊆ kv_filters (kv w') /\
   (kv w' = kv w \/ (exists h prog, kv w' = add_filter (tc_filter (tc_key ops) h) prog (kv w)) \/
    exists pos, only_at (ExtensionLinkPath base (KType (tc_key ops)) (KNsid (tc_key ops)) (KIfindex (tc_key ops))
                  (nextRevision (sv_snaps (sv w) !! tc_key ops)) pos) (kv w) (kv w'))).
Proof.
  intros Hb Hops Hif Hpo Hc H.
  destruct (rebuildTC_cases _ _ _ _ _ _ _ _ _ _ Hb Hops Hif Hpo Hc H) as [(_ & Hs & _ & Hk)|(_ & Hs & _ & Hk)];
    (split; [done|]); intros Heq.
  - destruct (Hk Heq) as [->|(h & prog & Hn & ->)]; [by auto|].
    split; [by apply insert_subseteq|]. right. left. by exists h, prog.
  - destruct (Hk Heq) as [pos Hat]. split; [by rewrite (proj1 Hat)|]. right. right. by exists pos.
Qed.

(** C12: what a successful TC attach changes in the store: exactly the
    snapshot of the requested direction of the interface, under the next
    revision, with the previous members, each with the same link ID, program,
    priority, proceed-on mask and metadata, and one new member with the
    requested values, whose link ID, position and pin are the ones returned; a
    member with a smaller position never has a larger priority. The stored
    filter handle is the one the kernel now holds. *)
Theorem rebuildTC_members pid ops pp name prio po md w res w' :
  forallb plain base = true -> tc_ops_wf ops -> 0 <= to_ifindex ops < 2 ^ 32 -> in_uint32 po ->
  dispatchers_consistent w ->
  rebuildTCDispatcher base pid ops pp name prio po md w = (Ok res, w') ->
  let key := tc_key ops in
  let snap := sv_snaps (sv w) !! key in
  er_key res = key /\ er_revision res = nextRevision snap /\
  exists did h ms m old',
    sv w' = mkSview (<[key := mkDispatcherSnapshot key (nextRevision snap) (tc_runtime ops did h) ms]>
              (sv_snaps (sv w))) (sv_progs (sv w)) /\
    kv_filters (kv w') !! tc_filter key h = Some did /\
    ms ≡ₚ m :: old' /\ Forall2 same_member (snapMembers snap) old' /\
    member_of_slot (newTCSlot pid ops pp name prio po md) m /\
    lr_ID (l_Record (er_link res)) = dm_LinkID m /\ er_position res = dm_Position m /\
    er_pinPath res = dm_LinkPinPath m /\
    (forall x y, x ∈ ms -> y ∈ ms -> dm_Position x < dm_Position y -> dm_Priority x <= dm_Priority y).
Proof.
  intros Hb Hops Hif Hpo Hc H. destruct (rebuildTC_cases _ _ _ _ _ _ _ _ _ _ Hb Hops Hif Hpo Hc H)
    as (snap & slots & did & h & attached & completed & ms & Hrev & Hsnap & Hplan & Hin).
  destruct Hin as [_ _ Hlen Hcomp Hms Hsv Hco Hres _ _ _].
  pose proof (members_match slots attached _ (sv_progs (sv w)) Hlen Hcomp) as Hmatch.
  destruct (attach_members _ _ _ _ Hplan eq_refl Hmatch) as (i & m & old' & Hpos & Hslot & Hm & Hnew & Hperm & Hold).
  destruct (buildResult_at _ _ _ _ _ _ _ _ _ _ _ _ _ (sv_progs (sv w)) Hlen Hcomp Hpos Hslot Hm Hres)
    as (Hk & Hr & Hid & Hp & Hpath).
  cbv zeta. rewrite Hsnap. split; [done|]. split; [done|].
  exists did, h, ms, m, old'. split; [exact Hsv|].
  destruct Hco as (h' & cfg & _ & [= <-] & _ & _ & Hf & _). split; [exact Hf|].
  split; [by rewrite Hms|]. repeat (split; [done|]).
  intros x y Hx Hy. rewrite Hms in Hx, Hy. eapply chain_priorities; [|exact Hmatch| |done|done].
  - destruct (planSlots_ok _ _ _ Hplan) as [-> _]. apply sortRebuildSlots_spec.
  - rewrite <- list_fmap_compose. rewrite (list_fmap_ext _ dm_Position); [by eapply positions_seq|].
    intros; apply stored_member_fields.
Qed.
End TCTheorems.
