(* ===== verification/Detach.v ===== *)
(** * The detach rebuilds

    What rebuildDispatcherForDetach (manager/executor_dispatcher.go)
    guarantees: the surviving members keep being served, and a failed rebuild
    leaves the old dispatcher in place. *)

From Stdlib Require Import ZArith Lia String Sorted.
From stdpp Require Import base tactics sets list gmap strings numbers.
From S2P Require Import Prelude Actions Dispatcher Domain Slots Layout Platform Executor Rebuild Members.
From S2P Require Import XDPRebuild TCRebuild TCAttach.

Local Open Scope string_scope.
Local Open Scope list_scope.
Local Open Scope Z_scope.

(** ** Removing a directory absorbs what was pinned below it *)

Lemma unpin_under_unpin d p v : d `prefix_of` p -> unpin_under d (unpin p v) = unpin_under d v.
Proof.
  intros Hp. apply kview_eq; [|done]. unfold unpin_under, unpin. cbn [kv_pins]. apply map_eq. intros q.
  destruct (decide (d `prefix_of` q)) as [Hq|Hq].
  - rewrite !map_lookup_filter_None_2 by (right; intros x _ Hx; by apply Hx). done.
  - rewrite !map_lookup_filter, lookup_delete_ne by congruence. done.
Qed.

Lemma unpin_under_only_at d p v v' : only_at p v v' -> d `prefix_of` p -> unpin_under d v' = unpin_under d v.
Proof.
  intros [Hf Hp] Hd. unfold unpin_under. f_equal; [|done]. apply map_eq. intros q. apply option_eq. intros o.
  rewrite !map_lookup_filter_Some. destruct (decide (q = p)) as [->|Hq]; [|by rewrite Hp]. split; intros [_ Hn]; by destruct Hn.
Qed.

Lemma unpin_under_pin d p o v : d `prefix_of` p -> unpin_under d (pin p o v) = unpin_under d v.
Proof.
  intros Hp. rewrite <- (unpin_under_unpin d p (pin p o v)), <- (unpin_under_unpin d p v) by done. f_equal.
  apply kview_eq; [|done]. cbn. apply delete_insert_eq.
Qed.

Section DetachSteps.
Context {K D : Type} `{!KernelOps K} {NC : NetConsts} `{!KernelLaws K} `{!DispatcherStoreOps D} `{!DispatcherStore D}.
Context (base : path) (Hbase : forallb plain base = true).
Abbreviation W := (world K D).
Implicit Types (w : W).

(** A key of a real attach point. *)
Definition key_wf (key : Key) : Prop :=
  KType key <> DispatcherTypeZero /\ 0 <= KNsid key < 2 ^ 64 /\ 0 <= KIfindex key < 2 ^ 64.

Abbreviation revdir key r := (DispatcherRevisionDir base (KType key) (KNsid key) (KIfindex key) r).

Lemma removeRevDir_spec key revision w r w' :
  key_wf key -> in_uint32 revision ->
  removeDispatcherRevisionDir base key revision w = (r, w') ->
  w_store w' = w_store w /\ w_log w' = w_log w /\
  (r = Ok tt -> kv w' = unpin_under (revdir key revision) (kv w)) /\
  kv_filters (kv w') = kv_filters (kv w) /\
  (forall q, ~ revdir key revision `prefix_of` q -> kv_pins (kv w') !! q = kv_pins (kv w) !! q).
Proof.
  intros (Hdt & Hn & Hi) Hrev. unfold in_uint32 in Hrev. unfold removeDispatcherRevisionDir, removeRevDir, onK.
  destruct (RemoveDispatcherRevDir_layout base os_RemoveAll (KType key) (KNsid key) (KIfindex key)
              revision (w_kernel w)) as (res & Hres & _ & Hok); [done|done|lia..|].
  rewrite Hres. intros [= <- <-]. split; [done|]. split; [done|]. unfold kv. cbn [w_kernel].
  destruct (os_RemoveAll _ (w_kernel w)) as [[[]|e] k'] eqn:E; cbn [snd fst] in *.
  - rewrite (law_remove_all _ _ _ E). split; [done|]. split; [done|]. intros q Hq. by apply unpin_under_lookup.
  - destruct (law_remove_all_err _ _ _ _ E) as (Hne & Hf & Hq). split; [|done].
    intros [?|(e' & [= <-] & He)]%Hok; [done|]. by rewrite Hne in He.
Qed.

Lemma cleanupRevision_cleans msg key revision :
  is_rollback (LevelError, msg) = true -> key_wf key -> in_uint32 revision ->
  cleans (K:=K) (D:=D) (or_log LevelError msg (removeDispatcherRevisionDir base key revision))
    (unpin_under (revdir key revision)).
Proof.
  intros Hmsg Hk Hr w r w'. unfold or_log. destruct (removeDispatcherRevisionDir _ _ _ w) as [r1 w1] eqn:E.
  apply removeRevDir_spec in E as (Hs & Hl & Hok & _); [|done..]. destruct r1 as [[]|e].
  - intros; simplify_eq. unfold rollbackFailures. rewrite Hl. auto.
  - unfold log. intros; simplify_eq. unfold rollbackFailures. cbn [w_log w_store].
    rewrite Hl, List.filter_app, length_app. cbn [List.filter]. rewrite Hmsg. cbn. split; [done|].
    split; [lia|]. intros. lia.
Qed.

(** The outer link of a stored XDP dispatcher runs its recorded program. *)
Definition xdp_running (v : kview) (s : DispatcherSnapshot) : Prop :=
  let key := sn_Key s in
  exists lid o,
    rt_KernelLinkID (sn_Runtime s) = Some lid /\
    kv_pins v !! DispatcherLinkPath base (KType key) (KNsid key) (KIfindex key)
      = Some (KOuterLink lid (rt_ProgramID (sn_Runtime s))) /\
    kv_pins v !! DispatcherProgPath base (KType key) (KNsid key) (KIfindex key) (sn_Revision s) = Some o /\
    prog_id o = Some (rt_ProgramID (sn_Runtime s)).

Definition detach_back (key : Key) (revision : Z) (v v' : kview) : Prop :=
  v' = v \/ v' = unpin_under (revdir key revision) v \/
  (isTCDispatcherType (KType key) = true /\ tc_back key (unpin_under (revdir key revision) v) v').

(** The outcome of a failed detach rebuild: the store is as before; if the
    clean-up worked, the kernel is as before but for the new revision's
    directory. *)
Definition detach_failed (key : Key) (revision : Z) (w w' : W) : Prop :=
  store_ok (w_store w') /\ sv w' = sv w /\ (rollbackFailures w <= rollbackFailures w')%nat /\
  (rollbackFailures w' = rollbackFailures w ->
     detach_back key revision (kv w) (kv w')).

Lemma detach_failed_from key revision w w1 w' :
  sv w1 = sv w -> rollbackFailures w1 = rollbackFailures w ->
  isTCDispatcherType (KType key) = true ->
  tc_failed key w1 w' (unpin_under (revdir key revision) (kv w)) -> detach_failed key revision w w'.
Proof.
  intros Hs Hr Ht (H1 & H2 & H3 & H4). unfold detach_failed. rewrite <- Hs, <- Hr.
  repeat (split; [done|]). intros Heq. right. right. split; [done|]. by apply H4.
Qed.

(** What a successful detach rebuild leaves of one attach point. *)
Record detach_installed (key : Key) (revision : Z) (slots : list rebuildSlot) (w w' : W)
    (rt : DispatcherRuntime) (attached : list attachedExt) (completed : DispatcherSnapshot)
    (ms : list DispatcherMember) : Prop := {
  di_ok : store_ok (w_store w');
  di_len : length attached = length slots;
  di_completed : Forall2 (fun sp m => m = complete_member sp (dm_LinkID m) /\
                   (forall id, ms_ExistingLinkID sp = Some id -> dm_LinkID m = id))
                   (dispatcherMembers slots attached) (sn_Members completed);
  di_members : ms ≡ₚ (stored_member (sv_progs (sv w)) <$> sn_Members completed);
  di_store : sv w' = mkSview (<[key := mkDispatcherSnapshot key revision rt ms]> (sv_snaps (sv w)))
               (sv_progs (sv w));
  di_touches : touches_only base key (kv w) (kv w');
  di_xdp : KType key = DispatcherTypeXDP -> xdp_coherent base (kv w') (mkDispatcherSnapshot key revision rt ms);
  di_tc : isTCDispatcherType (KType key) = true -> tc_coherent base (kv w') (mkDispatcherSnapshot key revision rt ms);
  di_runs : slots_run base key revision slots (kv w');
}.

(** ** XDP *)

(** Putting the outer link back on the program of the recorded revision. *)
Lemma restore_link msg dlp op l old o v w r w' :
  is_rollback (LevelError, msg) = true -> op <> dlp ->
  kv_pins v !! dlp = Some (KOuterLink l old) -> kv_pins v !! op = Some o -> prog_id o = Some old ->
  (exists id, kv w = pin dlp (KOuterLink l id) v) ->
  or_log LevelError msg (onK (UpdateXDPDispatcherLink dlp op)) w = (r, w') ->
  r = Ok tt /\ w_store w' = w_store w /\ (rollbackFailures w <= rollbackFailures w')%nat /\
  (rollbackFailures w' = rollbackFailures w -> kv w' = v).
Proof.
  intros Hmsg Hne Hl Ho Hid [id Hkv]. apply or_log_rollback; [done|]. intros [] k' Hk'.
  apply law_update_link in Hk' as (o' & id' & l' & old' & H1 & H2 & H3 & ->).
  fold (kv w) in *. rewrite Hkv in *. rewrite pin_lookup in H3. rewrite pin_lookup_ne in H1 by done.
  simplify_eq. rewrite pin_pin. by apply pin_id.
Qed.

Lemma outer_update_ok msg cleanup dlp pp w u w' :
  on_error (wrapping msg (onK (UpdateXDPDispatcherLink dlp pp))) cleanup w = (Ok u, w') ->
  w_store w' = w_store w /\ w_log w' = w_log w /\
  exists o id l old, kv_pins (kv w) !! pp = Some o /\ prog_id o = Some id /\
    kv_pins (kv w) !! dlp = Some (KOuterLink l old) /\ kv w' = pin dlp (KOuterLink l id) (kv w).
Proof.
  unfold on_error, wrapping. destruct (onK _ w) as [[[]|e] w1] eqn:E; cbn [wrap_err]; [|done].
  apply onK_frame in E as (Hs & Hl & Hk). intros; simplify_eq. split; [done|]. split; [done|].
  by apply law_update_link in Hk.
Qed.

Lemma outer_update_err msg cleanup f dlp pp w e w' :
  store_ok (w_store w) -> cleans cleanup f ->
  on_error (wrapping msg (onK (UpdateXDPDispatcherLink dlp pp))) (fun _ => cleanup) w = (Err e, w') ->
  failed_back w w' (f (kv w)).
Proof.
  intros Hst Hc. unfold on_error, wrapping. destruct (onK _ w) as [[[]|e1] w1] eqn:E; cbn [wrap_err]; [done|].
  apply onK_frame in E as (Hs & Hl & Hk). destruct (cleanup w1) as [r2 w2] eqn:E2.
  intros; simplify_eq. simpl. apply Hc in E2 as (Hs2 & Hr2 & Hv2). unfold failed_back, sv, rollbackFailures in *.
  rewrite Hl in *. rewrite Hs2, Hs. split; [done|]. split; [done|]. split; [done|]. intros Heq.
  rewrite Hv2 by done. unfold kv. by rewrite (law_update_link_err _ _ _ _ _ Hk).
Qed.

(** A store transaction with a roll-back action behind it. *)
Lemma persist_err newSnap undo v w e w' :
  store_ok (w_store w) ->
  (forall w1 r w2, kv w1 = kv w -> undo w1 = (r, w2) ->
     w_store w2 = w_store w1 /\ (rollbackFailures w1 <= rollbackFailures w2)%nat /\
     (rollbackFailures w2 = rollbackFailures w1 -> kv w2 = v)) ->
  on_error (onS (ReplaceDispatcherSnapshot newSnap)) (fun _ => undo) w = (Err e, w') ->
  failed_back w w' v.
Proof.
  intros Hst Hundo. unfold on_error. destruct (onS _ w) as [[c|e1] w0] eqn:E; [done|].
  unfold onS in E. destruct (ReplaceDispatcherSnapshot newSnap (w_store w)) as [r1 s1] eqn:Er.
  injection E as -> <-. apply replace_err in Er as (Hst1 & Hsv1); [|done].
  destruct (undo _) as [r2 w2] eqn:E2. intros; simplify_eq. simpl.
  apply Hundo in E2 as (Hs2 & Hr2 & Hv2); [|done]. unfold failed_back, sv. rewrite Hs2. done.
Qed.

Lemma persist_ok newSnap undo w c w' :
  on_error (onS (ReplaceDispatcherSnapshot newSnap)) undo w = (Ok c, w') ->
  w_kernel w' = w_kernel w /\ w_log w' = w_log w /\
  ReplaceDispatcherSnapshot newSnap (w_store w) = (Ok c, w_store w').
Proof.
  unfold on_error, onS. destruct (ReplaceDispatcherSnapshot newSnap (w_store w)) as [[c'|e] s'] eqn:E; [|done].
  intros [= <- <-]. done.
Qed.

(** What the clean-up closures undo: all that happened below the new
    revision's directory. *)
Lemma cleanup_below key revision (attached : list attachedExt) v v0 :
  unpin (DispatcherProgPath base (KType key) (KNsid key) (KIfindex key) revision)
    (unpin_all (ax_pinPath <$> attached) v) = v0 ->
  unpin_under (revdir key revision) (unpin_all (ax_pinPath <$> attached) v) = unpin_under (revdir key revision) v0.
Proof. intros <-. symmetry. apply unpin_under_unpin, prog_path_in_revdir. Qed.

Lemma failed_detach_failed key revision w w1 w' :
  sv w1 = sv w -> rollbackFailures w1 = rollbackFailures w ->
  failed_back w1 w' (unpin_under (revdir key revision) (kv w)) -> detach_failed key revision w w'.
Proof.
  intros Hs Hr (H1 & H2 & H3 & H4). unfold detach_failed. rewrite <- Hs, <- Hr.
  repeat (split; [done|]). intros Heq. right. left. by apply H4.
Qed.

Lemma unchanged_detach_failed key revision w w' : unchanged w w' -> detach_failed key revision w w'.
Proof.
  intros (Hk & Hl & Ho & Hs). unfold detach_failed, rollbackFailures. rewrite Hl. split; [done|].
  split; [done|]. split; [done|]. intros _. by left.
Qed.

Lemma load_xdp_ok msg cfg pp w did w' :
  wrapping msg (onK (LoadAndPinXDPDispatcher cfg pp)) w = (Ok did, w') ->
  w_store w' = w_store w /\ w_log w' = w_log w /\
  kv_pins (kv w) !! pp = None /\ kv w' = pin pp (KXDPDispatcher did cfg) (kv w).
Proof.
  intros H. apply wrapping_ok in H. apply onK_frame in H as (Hs & Hl & Hk).
  by apply law_load_xdp in Hk as [Hfree Hk].
Qed.

Lemma load_xdp_err msg cfg pp w e w' :
  store_ok (w_store w) -> wrapping msg (onK (LoadAndPinXDPDispatcher cfg pp)) w = (Err e, w') -> unchanged w w'.
Proof.
  intros Hst H. apply wrapping_err in H as (e' & _ & H). apply onK_frame in H as (Hs & Hl & Hk).
  apply law_load_xdp_err in Hk. unfold unchanged, sv, kv. by rewrite Hs, Hl, Hk.
Qed.

Lemma rebuildXDPForDetach_err snap slots revision w e w' :
  let key := sn_Key snap in
  let dpp := DispatcherProgPath base (KType key) (KNsid key) (KIfindex key) revision in
  key_wf key -> in_uint32 revision -> in_uint32 (sn_Revision snap) -> sn_Revision snap <> revision ->
  store_ok (w_store w) -> xdp_running (kv w) snap ->
  rebuildXDPForDetach base snap slots revision dpp w = (Err e, w') ->
  detach_failed key revision w w'.
Proof.
  intros key dpp Hkey Hrev Hold Hne Hst (lid & o & _ & Hdlp & Hop & Hid) H. unfold rebuildXDPForDetach in H.
  fold key in H, Hdlp, Hop. pose proof Hkey as (_ & Hn & Hi). pose proof Hrev as [Hr0 _]. pose proof Hold as [Ho0 _].
  step_err H cfg w0 E0; [by apply lift_err in H as [_ ->]; apply unchanged_detach_failed|].
  apply lift_ok in E0 as [Hcfg ->].
  step_err H did w1 E1; [apply unchanged_detach_failed; by eapply load_xdp_err|].
  apply load_xdp_ok in E1 as (Hs1 & Hl1 & Hfree & Hk1).
  assert (Hr1 : rollbackFailures w1 = rollbackFailures w) by (unfold rollbackFailures; by rewrite Hl1).
  assert (Hsv1 : sv w1 = sv w) by (unfold sv; by rewrite Hs1).
  assert (Hcn := cleanupRevision_cleans "rollback: remove XDP detach-rebuild revision failed" key revision eq_refl Hkey Hrev).
  eapply (failed_detach_failed _ _ _ w1); [done|done|].
  step_err H attached w2 E2.
  { eapply attachAll_err in H as (Hs & Hr & Hv); [|apply law_ext_xdp|apply law_ext_xdp_err|exact Hcn|done
      |intros; apply ext_path_nonempty|constructor].
    unfold failed_back, sv. rewrite Hs, Hs1. repeat (split; [done|]). intros Heq.
    destruct (Hv Heq) as (j & v1 & Hat & ->). eapply unpin_under_only_at in Hat as ->; [|apply ext_path_in_revdir].
    cbn. rewrite Hk1. apply unpin_under_pin, prog_path_in_revdir. }
  step_err H u w3 E3; [by apply verifyExtensions_spec in H as [? _]|].
  destruct (attached_phase base _ _ _ _ _ _ _ _ _ _ _ _ _ _ _ law_ext_xdp (proj1 Hn) (proj1 Hi) Hr0 Hk1 Hfree E2 E3)
    as (_ & _ & Hs3 & Hr3 & Hexne & Hback & _ & _ & _ & Hlk).
  assert (Hcl := cleanup_cleans "rollback: detach XDP detach-rebuild extension failed" attached _ _ eq_refl Hexne Hcn).
  apply cleanup_below in Hback. assert (Hst3 : store_ok (w_store w3)) by (by rewrite Hs3, Hs1).
  assert (Hfrom : forall w4 wf, w_store w4 = w_store w3 -> rollbackFailures w4 = rollbackFailures w3 ->
     failed_back w4 wf (unpin_under (revdir key revision) (kv w)) -> failed_back w1 wf (unpin_under (revdir key revision) (kv w))).
  { intros w4 wf Hs4 Hr4 (F1 & F2 & F3 & F4). unfold failed_back, sv in *. rewrite F2, Hs4, Hs3, <- Hr3, <- Hr4. done. }
  step_err H u4 w4 E4.
  { eapply outer_update_err in H; [|done|exact Hcl]. cbv beta in H. rewrite Hback in H. by apply (Hfrom w3). }
  apply outer_update_ok in E4 as (Hs4 & Hl4 & o4 & id4 & l4 & old4 & _ & _ & Hlk4 & Hk4).
  step_err H c w5 E5.
  { apply (Hfrom w4); [done|unfold rollbackFailures; by rewrite Hl4|].
    eapply persist_err; [|clear H|exact H]; [by rewrite Hs4|]. intros wa r wb Hka Hu.
    unfold bind in Hu. destruct (or_log _ _ _ wa) as [ra wc] eqn:Ea.
    eapply (restore_link _ _ _ lid (rt_ProgramID (sn_Runtime snap)) o (kv w3)) in Ea as (-> & Hsc & Hrc & Hvc);
      [|done|apply old_prog_not_link; lia| | |done|].
    - apply Hcl in Hu as (Hsb & Hrb & Hvb). split; [congruence|]. split; [lia|]. intros Heq.
      rewrite Hvb, Hvc by lia. exact Hback.
    - rewrite Hlk; [done|]. intros k. apply link_not_new; lia.
    - rewrite Hlk; [done|]. intros k. apply old_prog_not_new; lia.
    - exists id4. rewrite Hka, Hk4. rewrite Hlk in Hlk4 by (intros k; apply link_not_new; lia).
      rewrite Hdlp in Hlk4. by simplify_eq. }
  apply persist_ok in E5 as (_ & _ & _).
  apply removeOldRevision_frame in H as [? _]; try done; [apply Hkey|]. by intros s [= <-].
Qed.

Lemma xdpConfig_length slots cfg : xdpConfig slots = Ok cfg -> (1 <= length slots <= 10)%nat.
Proof.
  unfold xdpConfig, NewXDPConfig, MaxPrograms. destruct (Z.ltb_spec (Z.of_nat (length slots)) 1); [done|].
  destruct (Z.ltb_spec 10 (Z.of_nat (length slots))); [done|]. lia.
Qed.

Lemma tcConfig_length slots cfg : tcConfig slots = Ok cfg -> (1 <= length slots <= 10)%nat.
Proof.
  unfold tcConfig, NewTCConfig, MaxPrograms. destruct (Z.ltb_spec (Z.of_nat (length slots)) 1); [done|].
  destruct (Z.ltb_spec 10 (Z.of_nat (length slots))); [done|]. lia.
Qed.

(** Extensions that are served stay served when only pins outside the new
    revision's directory change. *)
Lemma served_exts key revision did o (slots : list rebuildSlot) (attached : list attachedExt) v v' :
  let dpp := DispatcherProgPath base (KType key) (KNsid key) (KIfindex key) revision in
  let lp := ExtensionLinkPath base (KType key) (KNsid key) (KIfindex key) revision in
  (forall j s, slots !! j = Some s -> exists a, attached !! j = Some a /\ ext_ok dpp lp v s a (Z.of_nat j)) ->
  kv_pins v !! dpp = Some o -> prog_id o = Some did ->
  (forall q, revdir key revision `prefix_of` q -> kv_pins v' !! q = kv_pins v !! q) ->
  forall j s, slots !! j = Some s -> exists a, attached !! j = Some a /\ served lp did v' a j.
Proof.
  intros dpp lp Hexts Hdpp Hid Hfr j s Hj. destruct (Hexts j s Hj) as (a & Ha & Hok). exists a. split; [done|].
  eapply ext_ok_served in Hok as [Hpath (elid & prog & Hout & Hpin)]; [|exact Hdpp|exact Hid].
  split; [done|]. exists elid, prog. split; [done|]. rewrite Hfr by apply ext_path_in_revdir. done.
Qed.

(** The end of both detach rebuilds: the snapshot [sp] was persisted in [w4]
    and the old revision's directory removed. *)
Lemma removeOld_after msg snap revision w4 w' :
  let key := sn_Key snap in
  key_wf key -> in_uint32 revision -> in_uint32 (sn_Revision snap) -> sn_Revision snap <> revision ->
  removeOldRevision base msg key (Some snap) w4 = (Ok tt, w') ->
  w_store w' = w_store w4 /\ kv_filters (kv w') = kv_filters (kv w4) /\
  (forall q, revdir key revision `prefix_of` q -> kv_pins (kv w') !! q = kv_pins (kv w4) !! q) /\
  (forall q, ~ revdir key (sn_Revision snap) `prefix_of` q -> kv_pins (kv w') !! q = kv_pins (kv w4) !! q).
Proof.
  intros key (Hdt & Hn & Hi) [Hr _] Ho Hne H.
  apply removeOldRevision_frame in H as (_ & Hs & _ & Hf & Hq); try done; [|by intros s [= <-]].
  assert (Hq' : forall q, ~ revdir key (sn_Revision snap) `prefix_of` q -> kv_pins (kv w') !! q = kv_pins (kv w4) !! q).
  { intros q Hnot. apply Hq. by intros s [= <-]. }
  repeat (split; [done|]). split; [|done]. intros q [k ->]. apply Hq'. intros Hpre.
  apply Hne, (revdir_prefix_rev base (KType key) (KNsid key) (KIfindex key) _ _ k); lia || done || apply Ho.
Qed.

Lemma rebuildXDPForDetach_ok snap slots revision w w' :
  let key := sn_Key snap in
  let dpp := DispatcherProgPath base (KType key) (KNsid key) (KIfindex key) revision in
  KType key = DispatcherTypeXDP ->
  key_wf key -> in_uint32 revision -> in_uint32 (sn_Revision snap) -> sn_Revision snap <> revision ->
  Forall (fun sl => in_uint32 (rs_ProceedOn sl)) slots ->
  store_ok (w_store w) -> xdp_running (kv w) snap ->
  rebuildXDPForDetach base snap slots revision dpp w = (Ok tt, w') ->
  exists rt attached completed ms, detach_installed key revision slots w w' rt attached completed ms.
Proof.
  intros key dpp Hty Hkey Hrev Hold Hne Hmasks Hst (lid & o & Hlid & Hdlp & Hop & Hid) H.
  unfold rebuildXDPForDetach in H. fold key in H, Hdlp, Hop. pose proof Hkey as (_ & Hn & Hi). pose proof Hrev as [Hr0 _].
  step_ok H cfg w0 E0. apply lift_ok in E0 as [Hcfg ->].
  destruct (xdpConfig slots) as [cfg'|] eqn:Ecfg; [|done]. cbn [wrap_err] in Hcfg. injection Hcfg as ->.
  step_ok H did w1 E1. apply load_xdp_ok in E1 as (Hs1 & Hl1 & Hfree & Hk1).
  step_ok H attached w2 E2. step_ok H u w3 E3.
  destruct (attached_phase base _ _ _ _ _ _ _ _ _ _ _ _ _ _ _ law_ext_xdp (proj1 Hn) (proj1 Hi) Hr0 Hk1 Hfree E2 E3)
    as (_ & Hlen & Hs3 & _ & _ & _ & Hpin & Hfl & Hexts & Hlk). fold dpp in Hpin.
  step_ok H u4 w4 E4. apply outer_update_ok in E4 as (Hs4 & _ & o4 & id4 & l4 & old4 & Ho4 & Hid4 & Hlk4 & Hk4).
  rewrite Hpin in Ho4. injection Ho4 as <-. cbn [prog_id] in Hid4. injection Hid4 as <-.
  assert (Hnl : forall k, DispatcherLinkPath base (KType key) (KNsid key) (KIfindex key) <> revdir key revision ++ k)
    by (intros k; apply link_not_new; lia).
  rewrite Hlk, Hdlp in Hlk4 by done. injection Hlk4 as <- _.
  step_ok H c w5 E5. apply persist_ok in E5 as (Hk5 & _ & Hrep). rewrite Hs4, Hs3, Hs1 in Hrep. rewrite Hlid in Hrep.
  apply removeOld_after with (revision := revision) in H as (Hs' & Hf' & Hnew & Hfr); try done.
  eapply replace_ok in Hrep as (Hok' & _ & _ & _ & HF & _ & _ & ms & Hperm & Hsv'); [|done|by apply spec_wf_members].
  cbn [ss_Key ss_Revision ss_Runtime ss_Members] in *. unfold kv in Hf', Hnew, Hfr. rewrite Hk5 in Hf', Hnew, Hfr. fold (kv w4) in *. fold (kv w') in *.
  assert (Hbelow : forall q, revdir key revision `prefix_of` q -> kv_pins (kv w') !! q = kv_pins (kv w3) !! q).
  { intros q Hq. rewrite Hnew, Hk4, pin_lookup_ne; [done| |done]. intros <-. destruct Hq as [k Hq]. by apply (Hnl k). }
  eexists _, attached, c, ms. split; try done.
  - by rewrite Hs'.
  - unfold sv at 1. by rewrite Hs'.
  - split; [|split; [by rewrite Hty|]].
    + intros q Hq Hq2. rewrite Hfr by (apply Hq, Hold). rewrite Hk4, pin_lookup_ne by (by apply not_eq_sym).
      apply Hlk. intros k ->. by apply (Hq _ Hr0), prefix_app_r.
    + intros _. rewrite Hf', Hk4. done.
  - intros _. eapply coherent_install; [| |exact Ecfg|by eapply xdpConfig_length|exact Hlen| |exact HF|exact Hperm].
    + rewrite Hfr, Hk4; [apply pin_lookup|]. apply link_not_in_revdir; lia || apply Hold.
    + rewrite Hbelow by apply prog_path_in_revdir. exact Hpin.
    + eapply served_exts; [exact Hexts|exact Hpin|done|exact Hbelow].
  - by rewrite Hty.
  - eapply slots_run_ext; [exact Hexts|exact Hbelow|]. intros q [Hq Hq2].
    rewrite Hfr by (apply Hq, Hold). by rewrite Hk4, pin_lookup_ne by (by apply not_eq_sym).
Qed.

(** ** TC *)

Definition tc_running (v : kview) (s : DispatcherSnapshot) : Prop :=
  ns_of (rt_NetnsPath (sn_Runtime s)) = KNsid (sn_Key s) /\ tc_live base v (sn_Key s) s.

(** The attach point of a snapshot, as the filter operations name it. *)
Definition snap_ops (snap : DispatcherSnapshot) : tcRebuildOps :=
  mkTcRebuildOps (KIfindex (sn_Key snap)) (snapInterfaceName (sn_Members snap))
    (if bool_decide (KType (sn_Key snap) = DispatcherTypeTCIngress) then TCDirectionIngress else TCDirectionEgress)
    (KType (sn_Key snap)) (rt_NetnsPath (sn_Runtime snap)).

Lemma snap_ops_key snap v : tc_running v snap -> tc_key (snap_ops snap) = sn_Key snap.
Proof.
  intros [Hns _]. unfold tc_key, snap_ops. cbn. rewrite Hns. by destruct (sn_Key snap).
Qed.

Lemma snap_ops_wf snap : isTCDispatcherType (KType (sn_Key snap)) = true -> tc_ops_wf (snap_ops snap).
Proof. unfold tc_ops_wf, snap_ops. cbn. destruct (KType (sn_Key snap)); try done; intros _; [by left|by right]. Qed.

Lemma load_tc_ok msg cfg pp w did w' :
  wrapping msg (onK (LoadAndPinTCDispatcher cfg pp)) w = (Ok did, w') ->
  w_store w' = w_store w /\ w_log w' = w_log w /\
  kv_pins (kv w) !! pp = None /\ kv w' = pin pp (KTCDispatcher did cfg) (kv w).
Proof.
  intros H. apply wrapping_ok in H. apply onK_frame in H as (Hs & Hl & Hk).
  by apply law_load_tc in Hk as [Hfree Hk].
Qed.

Lemma load_tc_err msg cfg pp w e w' :
  store_ok (w_store w) -> wrapping msg (onK (LoadAndPinTCDispatcher cfg pp)) w = (Err e, w') -> unchanged w w'.
Proof.
  intros Hst H. apply wrapping_err in H as (e' & _ & H). apply onK_frame in H as (Hs & Hl & Hk).
  apply law_load_tc_err in Hk. unfold unchanged, sv, kv. by rewrite Hs, Hl, Hk.
Qed.

Lemma rebuildTCForDetach_err snap slots revision w e w' :
  let key := sn_Key snap in
  let dpp := DispatcherProgPath base (KType key) (KNsid key) (KIfindex key) revision in
  isTCDispatcherType (KType key) = true ->
  key_wf key -> in_uint32 revision -> in_uint32 (sn_Revision snap) -> sn_Revision snap <> revision ->
  store_ok (w_store w) -> tc_running (kv w) snap ->
  rebuildTCForDetach base snap slots revision dpp w = (Err e, w') ->
  detach_failed key revision w w'.
Proof.
  intros key dpp Hty Hkey Hrev Hold Hne Hst Hrun H. unfold rebuildTCForDetach in H.
  fold key in H. pose proof (snap_ops_wf _ Hty) as Hops. pose proof (snap_ops_key _ _ Hrun) as Hkops. fold key in Hkops.
  destruct Hrun as [Hns Hlive]. fold key in Hlive.
  pose proof Hkey as (_ & Hn & Hi). pose proof Hrev as [Hr0 _]. pose proof Hold as [Ho0 _].
  step_err H cfg w0 E0; [by apply lift_err in H as [_ ->]; apply unchanged_detach_failed|].
  apply lift_ok in E0 as [Hcfg ->].
  step_err H did w1 E1; [apply unchanged_detach_failed; by eapply load_tc_err|].
  apply load_tc_ok in E1 as (Hs1 & Hl1 & Hfree & Hk1).
  assert (Hr1 : rollbackFailures w1 = rollbackFailures w) by (unfold rollbackFailures; by rewrite Hl1).
  assert (Hcn := cleanupRevision_cleans "rollback: remove TC detach-rebuild revision failed" key revision eq_refl Hkey Hrev).
  eapply (detach_failed_from _ _ _ w1); [unfold sv; by rewrite Hs1|done|done|].
  step_err H attached w2 E2.
  { eapply attachAll_err in H as (Hs & Hr & Hv); [|apply law_ext_tc|apply law_ext_tc_err|exact Hcn|done
      |intros; apply ext_path_nonempty|constructor].
    apply failed_tc_failed. unfold failed_back, sv. rewrite Hs, Hs1. repeat (split; [done|]). intros Heq.
    destruct (Hv Heq) as (j & v1 & Hat & ->). eapply unpin_under_only_at in Hat as ->; [|apply ext_path_in_revdir].
    cbn. rewrite Hk1. apply unpin_under_pin, prog_path_in_revdir. }
  step_err H u w3 E3; [by apply verifyExtensions_spec in H as [? _]|].
  destruct (attached_phase base _ _ _ _ _ _ _ _ _ _ _ _ _ _ _ law_ext_tc (proj1 Hn) (proj1 Hi) Hr0 Hk1 Hfree E2 E3)
    as (_ & _ & Hs3 & Hr3 & Hexne & Hback & _ & Hfl & _ & Hlk).
  assert (Hcl := cleanup_cleans "rollback: detach TC detach-rebuild extension failed" attached _ _ eq_refl Hexne Hcn).
  apply cleanup_below in Hback. assert (Hst3 : store_ok (w_store w3)) by (by rewrite Hs3, Hs1).
  apply (tc_failed_from key w1 w3); [unfold sv; by rewrite Hs3|done|]. rewrite <- Hback.
  step_err H res w4 E4.
  { eapply (create_filter_err _ _ _ _ (snap_ops snap)) in H; [rewrite Hkops in H; exact H|done|done|exact Hcl| |].
    - intros. cbv beta. rewrite unpin_all_add_filter. done.
    - intros v. cbn. by rewrite unpin_all_filters. }
  apply (create_filter_ok _ _ _ (snap_ops snap)) in E4 as (Hs4 & Hl4 & o3 & _ & _ & Hprio & _ & _ & Hnew & Hk4); [|done].
  assert (Hlive' : forall s, Some snap = Some s -> tc_live base (kv w3) (tc_key (snap_ops snap)) s).
  { intros s [= <-]. rewrite Hkops. eapply tc_live_pins; [exact Hfl| |exact Hlive]. apply Hlk.
    intros k. apply old_prog_not_new; lia. }
  step_err H u5 w5 E5.
  { apply (removeOldFilter_spec _ (snap_ops snap) (Some snap)) in H as [? _]; [done|]. by eapply old_filter_live. }
  apply (removeOldFilter_spec _ (snap_ops snap) (Some snap)) in E5 as (_ & Hs5 & Hr5 & Hdrop); [|by eapply old_filter_live].
  step_err H c w6 E6.
  { apply (tc_failed_from _ w3 w5); [unfold sv; by rewrite Hs5, Hs4|rewrite Hr5; unfold rollbackFailures; by rewrite Hl4|].
    apply failed_tc_failed.
    assert (HP : DispatcherProgPath base (KType key) (KNsid key) (KIfindex key) (sn_Revision snap) =
      DispatcherProgPath base (to_dispType (snap_ops snap)) (KNsid (tc_key (snap_ops snap)))
        (to_ifindex (snap_ops snap)) (sn_Revision snap)) by (by rewrite Hkops).
    rewrite HP in H.
    eapply (tcPersist_err base _ _ _ _ _ _ (snap_ops snap) res (Some snap) _ (kv w3)) in H;
      [exact H|done|done|done|done|by rewrite Hs5, Hs4|exact Hcl|done|exact Hnew|exact Hlive'|by rewrite <- Hk4]. }
  apply removeOldRevision_frame in H as [? _]; try done; [apply Hkey|]. by intros s [= <-].
Qed.

Lemma rebuildTCForDetach_ok snap slots revision w w' :
  let key := sn_Key snap in
  let dpp := DispatcherProgPath base (KType key) (KNsid key) (KIfindex key) revision in
  isTCDispatcherType (KType key) = true ->
  key_wf key -> in_uint32 revision -> in_uint32 (sn_Revision snap) -> sn_Revision snap <> revision ->
  Forall (fun sl => in_uint32 (rs_ProceedOn sl)) slots ->
  store_ok (w_store w) -> tc_running (kv w) snap ->
  rebuildTCForDetach base snap slots revision dpp w = (Ok tt, w') ->
  exists rt attached completed ms, detach_installed key revision slots w w' rt attached completed ms.
Proof.
  intros key dpp Hty Hkey Hrev Hold Hne Hmasks Hst Hrun H. unfold rebuildTCForDetach in H. fold key in H.
  pose proof (snap_ops_wf _ Hty) as Hops. pose proof (snap_ops_key _ _ Hrun) as Hkops. fold key in Hkops.
  destruct Hrun as [Hns Hlive]. fold key in Hlive, Hns.
  pose proof Hkey as (_ & Hn & Hi). pose proof Hrev as [Hr0 _].
  step_ok H cfg w0 E0. apply lift_ok in E0 as [Hcfg ->].
  destruct (tcConfig slots) as [cfg'|] eqn:Ecfg; [|done]. cbn [wrap_err] in Hcfg. injection Hcfg as ->.
  step_ok H did w1 E1. apply load_tc_ok in E1 as (Hs1 & Hl1 & Hfree & Hk1).
  step_ok H attached w2 E2. step_ok H u w3 E3.
  destruct (attached_phase base _ _ _ _ _ _ _ _ _ _ _ _ _ _ _ law_ext_tc (proj1 Hn) (proj1 Hi) Hr0 Hk1 Hfree E2 E3)
    as (_ & Hlen & Hs3 & _ & _ & _ & Hpin & Hfl & Hexts & Hlk). fold dpp in Hpin.
  step_ok H res w4 E4.
  apply (create_filter_ok _ _ _ (snap_ops snap)) in E4 as (Hs4 & _ & o4 & Ho4 & Hid4 & Hprio & Hh & Hh0 & Hnew & Hk4); [|done].
  rewrite Hpin in Ho4. injection Ho4 as <-. cbn [prog_id] in Hid4. injection Hid4 as Hid4. rewrite <- Hid4 in *.
  rewrite Hkops in Hnew, Hk4.
  step_ok H u5 w5 E5. apply (removeOldFilter_spec _ (snap_ops snap) (Some snap)) in E5 as (_ & Hs5 & _ & Hdrop).
  2:{ apply (old_filter_live base (kv w) key). by intros s [= <-]. }
  rewrite Hkops, Hk4 in Hdrop.
  destruct (exchanged_filters base key (Some snap) (tr_Handle res) did (kv w) (kv w3) (kv w5)) as (Hpins & Hf & Hfo);
    [done|by rewrite <- Hfl|by intros s [= <-]|done|].
  step_ok H c w6 E6. unfold tcPersist in E6. apply persist_ok in E6 as (Hk6 & _ & Hrep).
  rewrite Hs5, Hs4, Hs3, Hs1, Hprio in Hrep.
  apply removeOld_after with (revision := revision) in H as (Hs' & Hf' & Hbelow & Hfr); try done.
  eapply replace_ok in Hrep as (Hok' & _ & _ & _ & HF & _ & _ & ms & Hperm & Hsv');
    [|done|apply spec_wf_members; [done|done|by apply tc_runtime_wf]].
  cbn [ss_Key ss_Revision ss_Runtime ss_Members] in *.
  assert (Hk56 : kv w6 = kv w5) by (unfold kv; by rewrite Hk6). rewrite Hk56 in Hf', Hbelow, Hfr.
  eexists _, attached, c, ms. split; try done.
  - by rewrite Hs'.
  - unfold sv at 1. by rewrite Hs'.
  - split; [|split; [|by rewrite Hty]].
    + intros q Hq Hq2. rewrite Hfr by (apply Hq, Hold). rewrite Hpins.
      apply Hlk. intros k ->. by apply (Hq _ Hr0), prefix_app_r.
    + intros _ f Hne'. rewrite Hf'. by apply Hfo.
  - intros Hx. by rewrite Hx in Hty.
  - intros _. eapply tc_coherent_install; [exact Hh0|exact Hns| | |exact Ecfg|by eapply tcConfig_length|exact Hlen| |exact HF|exact Hperm].
    + by rewrite Hf'.
    + rewrite Hbelow, Hpins by apply prog_path_in_revdir. exact Hpin.
    + eapply served_exts; [exact Hexts|exact Hpin|done|]. intros q Hq. by rewrite Hbelow, Hpins.
  - eapply slots_run_ext; [exact Hexts|intros q Hq; by rewrite Hbelow, Hpins|]. intros q [Hq _].
    rewrite Hfr by (apply Hq, Hold). by rewrite Hpins.
Qed.

(** ** Removing a dispatcher *)

Lemma or_log_world {A} l msg (m : M W A) w r w' :
  or_log l msg m w = (r, w') ->
  r = Ok tt /\ exists r1 w1, m w = (r1, w1) /\ w_kernel w' = w_kernel w1 /\ w_store w' = w_store w1.
Proof.
  unfold or_log, log. destruct (m w) as [[a|e] w1]; intros; simplify_eq; (split; [done|]); by eexists _, _.
Qed.

Lemma touches_only_refl key v : touches_only base key v v.
Proof. done. Qed.

Lemma touches_only_trans key v1 v2 v3 :
  touches_only base key v1 v2 -> touches_only base key v2 v3 -> touches_only base key v1 v3.
Proof.
  intros (H1 & H2 & H3) (H1' & H2' & H3'). split; [|split].
  - intros q Hq Hq'. by rewrite H1', H1.
  - intros Ht f Hf. by rewrite H2', H2.
  - intros Ht. by rewrite H3', H3.
Qed.

(** Changes confined to a revision's directory. *)
Lemma touches_below key rev v v' :
  0 <= rev -> kv_filters v' = kv_filters v ->
  (forall q, ~ revdir key rev `prefix_of` q -> kv_pins v' !! q = kv_pins v !! q) ->
  touches_only base key v v'.
Proof. intros Hr Hf Hq. split; [|split; intros; by rewrite Hf]. intros q Hn _. by apply Hq, Hn. Qed.

Lemma removeProgPin_spec key rev w r w' :
  removeDispatcherProgPin base key rev w = (r, w') ->
  w_store w' = w_store w /\ kv_filters (kv w') = kv_filters (kv w) /\
  (forall q, ~ revdir key rev `prefix_of` q -> kv_pins (kv w') !! q = kv_pins (kv w) !! q).
Proof.
  intros H. unfold removeDispatcherProgPin in H. apply onK_frame in H as (Hs & _ & Hk). split; [done|].
  assert (Hne : forall q, ~ revdir key rev `prefix_of` q ->
     q <> DispatcherProgPath base (KType key) (KNsid key) (KIfindex key) rev).
  { intros q Hq ->. apply Hq, prog_path_in_revdir. }
  unfold kv. destruct r as [[]|e].
  - apply law_remove_pin in Hk as ->. split; [done|]. intros q Hq. apply lookup_delete_ne, not_eq_sym. by apply Hne.
  - apply law_remove_pin_err in Hk as [Hf Hq]. split; [done|]. intros q Hq'. by apply Hq, Hne.
Qed.

(** The kernel side of the removal: the outer link or the filter goes. *)
Definition kernel_detached (v : kview) (snap : DispatcherSnapshot) : Prop :=
  let key := sn_Key snap in
  if isTCDispatcherType (KType key)
  then forall h, rt_FilterHandle (sn_Runtime snap) = Some h -> h <> 0 -> kv_filters v !! tc_filter key h = None
  else kv_pins v !! DispatcherLinkPath base (KType key) (KNsid key) (KIfindex key) = None.

Definition snap_running (v : kview) (snap : DispatcherSnapshot) : Prop :=
  (KType (sn_Key snap) = DispatcherTypeXDP -> xdp_running v snap) /\
  (isTCDispatcherType (KType (sn_Key snap)) = true -> tc_running v snap).

Lemma detachKernel_spec snap w r w' :
  let key := sn_Key snap in
  key_wf key -> snap_running (kv w) snap ->
  (if isTCDispatcherType (KType key)
   then wrapping "detach TC dispatcher filter: %w" (detachTCDispatcherFilter snap)
   else wrapping "detach XDP outer link: %w" (detachXDPOuterLink base key)) w = (r, w') ->
  w_store w' = w_store w /\ touches_only base key (kv w) (kv w') /\
  (r = Ok tt -> kernel_detached (kv w') snap).
Proof.
  intros key Hk [_ Htc] H. unfold kernel_detached. fold key. fold key in Htc.
  destruct (isTCDispatcherType (KType key)) eqn:Ety.
  - destruct (Htc eq_refl) as [Hns (h & Hp & Hh & Hh0 & _)]. unfold wrapping, detachTCDispatcherFilter in H.
    rewrite Hh, Hp in H. cbn [default from_option] in H. destruct (Z.eqb_spec h 0); [done|]. unfold ReclaimClsactOnDetach in H.
    unfold bind in H. destruct (onK _ w) as [r1 w1] eqn:E. apply onK_frame in E as (Hs & _ & Hkk).
    assert (Htouch : touches_only base key (kv w) (kv w1) /\ (r1 = Ok tt -> kv_filters (kv w1) !! tc_filter key h = None)).
    { destruct r1 as [[]|e1].
      - apply law_detach_filter in Hkk. fold (kv w1) (kv w) in Hkk. fold key in Hkk. rewrite Hns in Hkk.
        fold key in Hkk. rewrite Hkk. split.
        + split; [done|]. rewrite Ety. split; [|done]. intros _ f Hf. apply lookup_delete_ne, not_eq_sym, Hf.
        + intros _. apply lookup_delete_eq.
      - apply law_detach_filter_err in Hkk. fold (kv w1) (kv w) in Hkk. rewrite Hkk. done. }
    destruct Htouch as [Ht Hok]. destruct r1 as [[]|e1]; unfold ret in H; cbn [wrap_err] in H; simplify_eq.
    + split; [done|]. split; [done|]. intros _ h' Hh' _. rewrite Hh in Hh'. injection Hh' as <-. by apply Hok.
    + split; [done|]. split; [done|]. done.
  - unfold wrapping, detachXDPOuterLink in H. destruct (onK _ w) as [r1 w1] eqn:E.
    apply onK_frame in E as (Hs & _ & Hkk). simplify_eq. destruct r1 as [[]|e1].
    + apply law_detach_link in Hkk. fold (kv w') (kv w) in Hkk. rewrite Hkk. split; [done|]. split.
      * split; [|done]. intros q _ Hq. by apply lookup_delete_ne, not_eq_sym.
      * intros _. apply lookup_delete_eq.
    + apply law_detach_link_err in Hkk as [Hf Hq]. split; [done|]. split; [|done]. split; [|by rewrite Ety].
      intros q _ Hne. by apply Hq.
Qed.

(** The teardown: a failure leaves the stored snapshot, success removes it
    once the kernel no longer runs the dispatcher. *)
Lemma removeEmptyDispatcher_spec snap w r w' :
  let key := sn_Key snap in
  key_wf key -> in_uint32 (sn_Revision snap) -> store_ok (w_store w) -> snap_running (kv w) snap ->
  removeEmptyDispatcher base snap w = (r, w') ->
  store_ok (w_store w') /\ touches_only base key (kv w) (kv w') /\
  match r with
  | Ok _ => kernel_detached (kv w') snap /\
      sv w' = mkSview (delete key (sv_snaps (sv w))) (sv_progs (sv w))
  | Err _ => sv w' = sv w
  end.
Proof.
  intros key Hkey Hrev Hst Hrun H. unfold removeEmptyDispatcher in H. fold key in H.
  unfold bind at 1 in H.
  match type of H with context [(if isTCDispatcherType (KType key) then ?a else ?b) w] =>
    destruct ((if isTCDispatcherType (KType key) then a else b) w) as [r1 w1] eqn:E1 end.
  apply detachKernel_spec in E1 as (Hs1 & Ht1 & Hd1); [|done|done].
  destruct r1 as [[]|e1]; [|simplify_eq; unfold sv; by rewrite Hs1]. specialize (Hd1 eq_refl).
  unfold bind at 1 in H. destruct (or_log _ _ _ w1) as [r2 w2] eqn:E2.
  apply or_log_world in E2 as (-> & r2' & wa & E2 & Hka & Hsa). apply removeProgPin_spec in E2 as (Hs2 & Hf2 & Hq2).
  unfold bind at 1 in H. destruct (or_log _ _ _ w2) as [r3 w3] eqn:E3.
  apply or_log_world in E3 as (-> & r3' & wb & E3 & Hkb & Hsb). apply removeRevDir_spec in E3 as (Hs3 & _ & _ & Hf3 & Hq3); [|done..].
  assert (Hva : kv w2 = kv wa) by (unfold kv; by rewrite Hka). assert (Hvb : kv w3 = kv wb) by (unfold kv; by rewrite Hkb).
  assert (Hs : w_store w3 = w_store w) by congruence. pose proof Hrev as [Hr0 _].
  assert (Hfl : kv_filters (kv w3) = kv_filters (kv w1)) by (rewrite Hvb, Hf3, Hva; done).
  assert (Hpins : forall q, ~ revdir key (sn_Revision snap) `prefix_of` q -> kv_pins (kv w3) !! q = kv_pins (kv w1) !! q).
  { intros q Hq. rewrite Hvb, Hq3, Hva by done. by apply Hq2. }
  assert (Ht : touches_only base key (kv w) (kv w3)).
  { eapply touches_only_trans; [exact Ht1|]. by eapply touches_below. }
  assert (Hd : kernel_detached (kv w3) snap).
  { unfold kernel_detached in *. fold key in Hd1 |- *. destruct (isTCDispatcherType (KType key)).
    - intros h Hh Hh0. rewrite Hfl. by apply Hd1.
    - rewrite Hpins; [done|]. destruct Hkey as (_ & ? & ?). apply link_not_in_revdir; lia. }
  unfold wrapping, deleteDispatcherSnapshot, onS in H.
  destruct (DeleteDispatcherSnapshot key (w_store w3)) as [[[]|e4] s4] eqn:E4; cbn [wrap_err] in H; simplify_eq.
  - apply delete_ok in E4 as [Hok Hsv]; [|by rewrite Hs]. rewrite Hs in Hsv. done.
  - apply delete_err in E4 as [Hok Hsv]; [|by rewrite Hs]. rewrite Hs in Hsv. done.
Qed.

(** ** The whole detach rebuild *)

(** All attach points but [key] are served; [key]'s own dispatcher need only
    be running (the extension being detached may already be gone). *)
Definition others_consistent (key : Key) (w : W) : Prop :=
  store_ok (w_store w) /\
  forall k s, sv_snaps (sv w) !! k = Some s ->
    sn_Key s = k /\ 0 <= KNsid k /\ 0 <= KIfindex k /\ in_uint32 (sn_Revision s) /\
    (k <> key -> (KType k = DispatcherTypeXDP -> xdp_coherent base (kv w) s) /\
                 (isTCDispatcherType (KType k) = true -> tc_coherent base (kv w) s)).

Definition detachable (key : Key) (w : W) : Prop :=
  others_consistent key w /\ key_wf key /\
  forall s, sv_snaps (sv w) !! key = Some s -> snap_running (kv w) s.

Lemma coherent_running v s :
  (KType (sn_Key s) = DispatcherTypeXDP -> xdp_coherent base v s) ->
  (isTCDispatcherType (KType (sn_Key s)) = true -> tc_coherent base v s) -> snap_running v s.
Proof.
  intros Hx Ht. split; intros Hty.
  - destruct (Hx Hty) as (lid & cfg & H1 & H2 & H3 & _). by eexists lid, _.
  - pose proof (Ht Hty) as Hco. destruct Hco as (h & cfg & _ & _ & _ & Hns & _). split; [done|].
    by apply tc_coherent_live, Ht.
Qed.

Lemma consistent_detachable key w : key_wf key -> dispatchers_consistent base w -> detachable key w.
Proof.
  intros Hk [Hok Hc]. split; [|split; [done|]].
  - split; [done|]. intros k s Hs. destruct (Hc k s Hs) as (? & ? & ? & ? & ? & ?). done.
  - intros s Hs. destruct (Hc key s Hs) as (<- & _ & _ & _ & Hx & Ht). by apply coherent_running.
Qed.

Lemma others_touched key w w' :
  0 <= KNsid key -> 0 <= KIfindex key ->
  others_consistent key w -> store_ok (w_store w') -> touches_only base key (kv w) (kv w') ->
  (forall k s, k <> key -> sv_snaps (sv w') !! k = Some s -> sv_snaps (sv w) !! k = Some s) ->
  (forall s, sv_snaps (sv w') !! key = Some s -> sn_Key s = key /\ in_uint32 (sn_Revision s)) ->
  others_consistent key w'.
Proof.
  intros Hn Hi [_ Hc] Hok Ht Hs Hkey. split; [done|]. intros k s Hl.
  destruct (decide (k = key)) as [->|Hne].
  - destruct (Hkey s Hl). done.
  - destruct (Hc k s (Hs k s Hne Hl)) as (Hk' & Hn' & Hi' & Hr' & Hco). repeat (split; [done|]). intros _.
    destruct (Hco Hne) as [Hx' Ht'].
    destruct (touches_only_frame base key k s _ _ Ht) as [Hxf Htf]; try done; [apply Hr'|]. split; auto.
Qed.

Lemma others_all key w :
  others_consistent key w ->
  (forall s, sv_snaps (sv w) !! key = Some s ->
     (KType key = DispatcherTypeXDP -> xdp_coherent base (kv w) s) /\
     (isTCDispatcherType (KType key) = true -> tc_coherent base (kv w) s)) ->
  dispatchers_consistent base w.
Proof.
  intros [Hok Hc] Hkey. split; [done|]. intros k s Hl. destruct (Hc k s Hl) as (Hk' & Hn' & Hi' & Hr' & Hco).
  repeat (split; [done|]). destruct (decide (k = key)) as [->|Hne]; [by apply Hkey|by apply Hco].
Qed.

(** What a failed detach rebuild touches, and that it keeps the dispatcher
    running. *)
Lemma detach_back_pins key revision v v' q :
  detach_back key revision v v' -> ~ revdir key revision `prefix_of` q -> kv_pins v' !! q = kv_pins v !! q.
Proof.
  intros [->|[->|[_ [->|(h & prog & _ & ->)]]]] Hq; [done|..]; by apply (unpin_under_lookup _ v).
Qed.

Lemma detach_back_touches key revision v v' :
  0 <= revision -> detach_back key revision v v' -> touches_only base key v v'.
Proof.
  intros Hr Hb. split; [|split].
  - intros q Hq _. by eapply detach_back_pins; [|apply Hq].
  - intros _ f Hf. destruct Hb as [->|[->|[_ [->|(h & prog & _ & ->)]]]]; [done..|].
    cbn [kv_filters add_filter]. apply lookup_insert_ne, not_eq_sym, Hf.
  - intros Ht. by destruct Hb as [->|[->|[Ht' _]]]; [| |congruence].
Qed.

Lemma detach_back_running key revision v v' snap :
  key_wf key -> sn_Key snap = key -> in_uint32 (sn_Revision snap) -> 0 <= revision -> sn_Revision snap <> revision ->
  detach_back key revision v v' -> snap_running v snap -> snap_running v' snap.
Proof.
  intros (_ & Hn & Hi) Hk [Hr _] Hrev Hne Hb [Hx Ht].
  assert (Hop : kv_pins v' !! DispatcherProgPath base (KType key) (KNsid key) (KIfindex key) (sn_Revision snap) =
                kv_pins v !! DispatcherProgPath base (KType key) (KNsid key) (KIfindex key) (sn_Revision snap)).
  { eapply detach_back_pins; [exact Hb|]. intros [k Hpre]. apply (old_prog_not_new base (KType key) (KNsid key) (KIfindex key)
      (proj1 Hn) (proj1 Hi) (sn_Revision snap) revision k); done. }
  split; intros Hty; unfold xdp_running, tc_running, tc_live in *; rewrite Hk in *.
  - rewrite Hop. destruct (Hx Hty) as (lid & o & H1 & H2 & H3). exists lid, o. split; [done|]. split; [|done].
    rewrite <- H2. eapply detach_back_pins; [exact Hb|]. apply link_not_in_revdir; lia.
  - rewrite Hop. destruct (Ht Hty) as [Hns (h & H1 & H2 & H3 & H4 & H5)]. split; [done|]. exists h.
    repeat (split; [done|]). split; [|done]. destruct Hb as [->|[->|[_ [->|(h' & prog & Hn' & ->)]]]]; [done..|].
    cbn [kv_filters add_filter unpin_under] in *. rewrite lookup_insert_ne; [done|]. congruence.
Qed.

Definition remaining (id : Z) (s : DispatcherSnapshot) : list DispatcherMember :=
  filter (fun m => dm_LinkID m <> id) (sn_Members s).

(** The network namespace recorded at [p] no longer exists: [os.Stat] reports
    so on kernel [k]. The host namespace, recorded as the empty path, is there
    always. *)
Definition namespace_gone (p : string) (k : K) : Prop :=
  p <> "" /\ exists e, fst (os_Stat p k) = Err e /\ errors_Is e ErrNotExist = true.

Definition ns_gone (snap : DispatcherSnapshot) (w : W) : Prop :=
  namespace_gone (rt_NetnsPath (sn_Runtime snap)) (w_kernel w).

(** The rebuild proper, with the slots of the survivors. *)
Definition rebuildRemaining (key : Key) (snap : DispatcherSnapshot) : M W unit :=
  let slots := sortRebuildSlots (slot_of_member_detach <$> sn_Members snap) in
  let revision := uint32 (sn_Revision snap + 1) in
  let progPinPath := DispatcherProgPath base (KType key) (KNsid key) (KIfindex key) revision in
  if bool_decide (KType key = DispatcherTypeXDP)
  then rebuildXDPForDetach base snap slots revision progPinPath
  else rebuildTCForDetach base snap slots revision progPinPath.

Lemma stat_reads p w r w' : attempt (onK (S:=D) (os_Stat p)) w = (r, w') ->
  r = Ok (fst (os_Stat p (w_kernel w))) /\ w_store w' = w_store w /\ w_log w' = w_log w /\ kv w' = kv w.
Proof.
  unfold attempt. destruct (onK (os_Stat p) w) as [r1 w1] eqn:E. apply onK_frame in E as (Hs & Hl & Hk).
  intros [= <- <-]. split; [by rewrite Hk|]. split; [done|]. split; [done|]. unfold kv.
  pose proof (law_stat p (w_kernel w)) as Hv. by rewrite Hk in Hv.
Qed.

(** A run reads the snapshot and then tears the dispatcher down, when nothing
    remains or its network namespace is gone, or rebuilds it. *)
Lemma rebuildForDetach_split key id w r w' :
  store_ok (w_store w) ->
  rebuildDispatcherForDetach base key id w = (r, w') ->
  ((exists e, r = Err e) /\ unchanged w w') \/
  exists snap0 w1, unchanged w w1 /\ sv_snaps (sv w) !! key = Some snap0 /\ sn_Key snap0 = key /\
    in_uint32 (sn_Revision snap0) /\ Forall (fun m => in_uint32 (dm_ProceedOn m)) (sn_Members snap0) /\
    let snap := with_members (remaining id snap0) snap0 in
    (removeEmptyDispatcher base snap w1 = (r, w') /\
       (remaining id snap0 = [] \/ ns_gone snap0 w)) \/
    (rebuildRemaining key snap w1 = (r, w') /\ remaining id snap0 <> [] /\ ~ ns_gone snap0 w).
Proof.
  intros Hst H. unfold rebuildDispatcherForDetach in H. unfold bind at 1, wrapping, onS in H.
  destruct (GetDispatcherSnapshot key (w_store w)) as [[snap0|e] s1] eqn:E; cbn [wrap_err] in H.
  2:{ apply get_err in E as (Hok & Hsv & _); [|done]. simplify_eq. left. split; [by eexists|]. done. }
  apply get_ok in E as (Hok & Hsv & Hlk & Hk & Hr & Hm); [|done]. right.
  set (w1 := mkWorld (w_kernel w) s1 (w_log w)) in *. assert (Hu : unchanged w w1) by done.
  change (filter (fun m => dm_LinkID m <> id) (sn_Members snap0)) with (remaining id snap0) in H.
  cbn zeta in H |- *. change (sn_Members (with_members (remaining id snap0) snap0)) with (remaining id snap0) in H at 1.
  destruct (remaining id snap0) as [|m ms] eqn:Erem.
  { exists snap0, w1. rewrite Erem. repeat (split; [done|]). left. split; [done|]. by left. }
  rewrite <- Erem in H. change (sn_Runtime (with_members _ snap0)) with (sn_Runtime snap0) in H.
  unfold bind at 1 in H. destruct (String.eqb_spec (rt_NetnsPath (sn_Runtime snap0)) "") as [Hns|Hns].
  { unfold ret in H. exists snap0, w1. repeat (split; [done|]). right. rewrite Erem in H |- *.
    split; [exact H|]. split; [done|]. by intros [? _]. }
  unfold bind at 1 in H. destruct (attempt _ w1) as [r2 w2] eqn:E2.
  apply stat_reads in E2 as (-> & Hs2 & Hl2 & Hk2). unfold ret in H. change (w_kernel w1) with (w_kernel w) in H.
  assert (Hu2 : unchanged w w2) by (unfold unchanged, sv in *; by rewrite Hs2, Hl2, Hk2).
  exists snap0, w2. repeat (split; [done|]). unfold ns_gone, namespace_gone.
  destruct (fst (os_Stat (rt_NetnsPath (sn_Runtime snap0)) (w_kernel w))) as [x|e].
  - right. rewrite Erem in H |- *. split; [exact H|]. split; [done|]. by intros (_ & e & He & _).
  - destruct (errors_Is e ErrNotExist) eqn:Ee; [left|right].
    + split; [exact H|]. right. split; [done|]. by exists e.
    + rewrite Erem in H |- *. split; [exact H|]. split; [done|]. intros (_ & e' & [= <-] & He'). congruence.
Qed.

Lemma rebuildRemaining_cases key snap w r w' :
  let slots := sortRebuildSlots (slot_of_member_detach <$> sn_Members snap) in
  let revision := uint32 (sn_Revision snap + 1) in
  key_wf key -> sn_Key snap = key -> in_uint32 (sn_Revision snap) ->
  Forall (fun m => in_uint32 (dm_ProceedOn m)) (sn_Members snap) ->
  store_ok (w_store w) -> snap_running (kv w) snap ->
  rebuildRemaining key snap w = (r, w') ->
  match r with
  | Err _ => detach_failed key revision w w'
  | Ok _ => exists rt attached completed ms, detach_installed key revision slots w w' rt attached completed ms
  end.
Proof.
  intros slots revision Hkey Hk Hr Hm Hst [Hx Ht] H. unfold rebuildRemaining in H. fold slots revision in H.
  assert (Hrev : in_uint32 revision) by apply uint32_range.
  assert (Hne : sn_Revision snap <> revision) by (apply not_eq_sym; by apply uint32_succ_ne).
  assert (Hmasks : Forall (fun sl => in_uint32 (rs_ProceedOn sl)) slots).
  { destruct (sortRebuildSlots_spec (slot_of_member_detach <$> sn_Members snap)) as [_ Hp].
    unfold slots. rewrite Hp. by apply Forall_fmap. }
  subst key. case_bool_decide as Hty.
  - destruct r as [[]|e]; [eapply rebuildXDPForDetach_ok|eapply rebuildXDPForDetach_err]; eauto.
  - assert (Htc : isTCDispatcherType (KType (sn_Key snap)) = true).
    { destruct Hkey as [Hz _]. by destruct (KType (sn_Key snap)). }
    destruct r as [[]|e]; [eapply rebuildTCForDetach_ok|eapply rebuildTCForDetach_err]; eauto.
Qed.

(** What is left of a member that survives a detach: everything but its
    metadata. *)
Definition survives (m m' : DispatcherMember) : Prop :=
  dm_LinkID m' = dm_LinkID m /\ dm_ProgramID m' = dm_ProgramID m /\
  dm_Priority m' = dm_Priority m /\ dm_ProceedOn m' = dm_ProceedOn m /\
  dm_Ifname m' = dm_Ifname m /\ dm_Metadata m' = ∅.

Lemma detach_members rest ms1 :
  Forall2 member_of_slot (sortRebuildSlots (slot_of_member_detach <$> rest)) ms1 ->
  exists ms2, ms1 ≡ₚ ms2 /\ Forall2 survives rest ms2.
Proof.
  intros HF. destruct (sortRebuildSlots_spec (slot_of_member_detach <$> rest)) as [_ Hp].
  destruct (Permutation_Forall2 Hp HF) as (ms2 & Hp2 & HF2). exists ms2. split; [done|].
  rewrite Forall2_fmap_l in HF2. eapply list.Forall2_impl; [exact HF2|].
  intros m m' (Hid & H1 & H2 & H3 & H4 & H5). split; [by apply Hid|done].
Qed.

(** Both ends of a successful run. *)
Lemma rebuildForDetach_ok key id w w' :
  detachable key w ->
  rebuildDispatcherForDetach base key id w = (Ok tt, w') ->
  dispatchers_consistent base w' /\
  exists snap, sv_snaps (sv w) !! key = Some snap /\
    ((sv w' = mkSview (delete key (sv_snaps (sv w))) (sv_progs (sv w)) /\ kernel_detached (kv w') snap /\
        (remaining id snap = [] \/ ns_gone snap w)) \/
     (remaining id snap <> [] /\ ~ ns_gone snap w /\ exists rt ms ms',
        sv w' = mkSview (<[key := mkDispatcherSnapshot key (uint32 (sn_Revision snap + 1)) rt ms]>
                           (sv_snaps (sv w))) (sv_progs (sv w)) /\
        ms ≡ₚ ms' /\ Forall2 survives (remaining id snap) ms')).
Proof.
  intros (Hoth & Hkey & Hrun) H. pose proof Hkey as (_ & [Hn _] & [Hi _]).
  apply rebuildForDetach_split in H as [[[e ?] _]|(snap0 & w1 & (Hk1 & Hl1 & Hok1 & Hsv1) & Hlk & Hk & Hr & Hm & Hcase)];
    [done| |apply Hoth]. specialize (Hrun _ Hlk). rewrite <- Hk1 in Hrun.
  assert (Hoth1 : others_consistent key w1).
  { destruct Hoth as [_ Hc]. split; [done|]. by rewrite Hsv1, Hk1. }
  destruct Hcase as [[H Hwhy]|(H & Hrest & Hlives)].
  - apply removeEmptyDispatcher_spec in H as (Hok' & Ht & Hd & Hsv'); [|cbn; by rewrite Hk|done|done|exact Hrun].
    cbn [sn_Key with_members] in *. rewrite Hk in *. rewrite Hsv1 in Hsv'. split.
    + apply (others_all key); [|intros s; by rewrite Hsv'; cbn [sv_snaps]; rewrite lookup_delete_eq].
      eapply others_touched; [done|done|exact Hoth1|done|done| |].
      * intros k s Hne. by rewrite Hsv', Hsv1; cbn [sv_snaps]; rewrite lookup_delete_ne.
      * intros s. by rewrite Hsv'; cbn [sv_snaps]; rewrite lookup_delete_eq.
    + exists snap0. split; [done|]. by left.
  - apply rebuildRemaining_cases in H as (rt & attached & completed & ms & Hin); try done.
    2:{ cbn. unfold remaining. rewrite list.Forall_forall in Hm |- *. intros m [_ Hin]%list_elem_of_filter. by apply Hm. }
    destruct Hin as [Hok' Hlen HF Hperm Hsv' Ht Hx Htc _]. cbn [sn_Revision sn_Members with_members] in *.
    rewrite Hsv1 in Hsv', Hperm. split.
    + apply (others_all key); [|intros s; rewrite Hsv'; cbn [sv_snaps]; rewrite lookup_insert_eq; by intros [= <-]].
      eapply others_touched; [done|done|exact Hoth1|done|done| |].
      * intros k s Hne. by rewrite Hsv', Hsv1; cbn [sv_snaps]; rewrite lookup_insert_ne.
      * intros s. rewrite Hsv'; cbn [sv_snaps]; rewrite lookup_insert_eq. intros [= <-]. split; [done|]. apply uint32_range.
    + exists snap0. split; [done|]. right. split; [done|]. split; [done|].
      destruct (detach_members _ _ (members_match _ _ _ (sv_progs (sv w)) Hlen HF)) as (ms2 & Hp2 & HF2).
      exists rt, ms, ms2. split; [done|]. split; [by rewrite Hperm|done].
Qed.

(** A failure leaves the records alone; what it does to the kernel. *)
Lemma rebuildForDetach_failed key id w e w' :
  detachable key w -> rebuildDispatcherForDetach base key id w = (Err e, w') ->
  sv w' = sv w /\
  forall snap, sv_snaps (sv w) !! key = Some snap ->
    remaining id snap <> [] -> ~ ns_gone snap w ->
    rollbackFailures w' = rollbackFailures w -> detachable key w'.
Proof.
  intros (Hoth & Hkey & Hrun) H. pose proof Hkey as (_ & [Hn _] & [Hi _]).
  apply rebuildForDetach_split in H as [[_ (Hk1 & Hl1 & Hok1 & Hsv1)]|
    (snap0 & w1 & (Hk1 & Hl1 & Hok1 & Hsv1) & Hlk & Hk & Hr & Hm & Hcase)]; [| |apply Hoth].
  { split; [done|]. intros snap Hl _ _ _. unfold detachable, others_consistent. rewrite Hsv1, Hk1.
    split; [|done]. split; [done|]. apply Hoth. }
  pose proof (Hrun _ Hlk) as Hrun0. rewrite <- Hk1 in Hrun0. destruct Hcase as [[H Hwhy]|[H _]].
  - apply removeEmptyDispatcher_spec in H as (Hok' & Ht & Hsv'); [|cbn; by rewrite Hk|done|done|exact Hrun0].
    split; [by rewrite Hsv'|]. intros snap Hl Hne Hns. rewrite Hlk in Hl. injection Hl as <-. by destruct Hwhy.
  - apply rebuildRemaining_cases in H as (Hok' & Hsv' & Hmono & Hback); try done.
    2:{ cbn. unfold remaining. rewrite list.Forall_forall in Hm |- *. intros m [_ Hin]%list_elem_of_filter. by apply Hm. }
    rewrite Hsv1 in Hsv'. split; [done|]. intros snap Hl _ _ Heq.
    assert (Heq1 : rollbackFailures w' = rollbackFailures w1) by (rewrite Heq; unfold rollbackFailures; by rewrite Hl1).
    specialize (Hback Heq1). rewrite Hk1 in Hback. cbn [sn_Revision with_members] in Hback.
    assert (Hrev : 0 <= uint32 (sn_Revision snap0 + 1)) by apply uint32_range.
    split; [|split; [done|]].
    + eapply others_touched; [done|done|exact Hoth|done|by eapply detach_back_touches|by intros; rewrite <- Hsv'|].
      intros s. rewrite Hsv', Hlk. by intros [= <-].
    + intros s. rewrite Hsv', Hlk. intros [= <-]. eapply detach_back_running; [done|done|done|exact Hrev| |exact Hback|by apply Hrun].
      apply not_eq_sym. by apply uint32_succ_ne.
Qed.

Lemma rebuildForDetach_keeps key id w w' :
  detachable key w -> rebuildDispatcherForDetach base key id w = (Ok tt, w') -> dispatchers_consistent base w'.
Proof. intros Hd H. by apply rebuildForDetach_ok in H as [? _]. Qed.

(** ** Properties *)

(** C13: a detach that succeeds leaves every stored dispatcher served by the
    kernel. If nothing remains of the dispatcher, or [os.Stat] reports that its
    network namespace no longer exists, the snapshot is deleted, with the
    members it may still have, and the outer link, or the TC filter, is
    detached. In every other case the snapshot is replaced under the next revision by one with exactly the
    remaining links, each with its link ID, program, priority, proceed-on mask
    and interface; their metadata is not carried over. *)
Theorem rebuildDispatcherForDetach_success key id w w' :
  detachable key w ->
  rebuildDispatcherForDetach base key id w = (Ok tt, w') ->
  dispatchers_consistent base w' /\
  exists snap, sv_snaps (sv w) !! key = Some snap /\
    ((sv w' = mkSview (delete key (sv_snaps (sv w))) (sv_progs (sv w)) /\ kernel_detached (kv w') snap /\
        (remaining id snap = [] \/ ns_gone snap w)) \/
     (remaining id snap <> [] /\ ~ ns_gone snap w /\ exists rt ms ms',
        sv w' = mkSview (<[key := mkDispatcherSnapshot key (uint32 (sn_Revision snap + 1)) rt ms]>
                           (sv_snaps (sv w))) (sv_progs (sv w)) /\
        ms ≡ₚ ms' /\ Forall2 survives (remaining id snap) ms')).
Proof. apply rebuildForDetach_ok. Qed.

(** C14: a detach that fails does not change what the store records. When
    other links remain, the network namespace still exists as far as [os.Stat]
    tells, and every roll-back call worked (none is logged as failed), the old
    dispatcher program is still the one that runs on the interface and all
    other attach points are still served. *)
Theorem rebuildDispatcherForDetach_failure key id w e w' :
  detachable key w ->
  rebuildDispatcherForDetach base key id w = (Err e, w') ->
  sv w' = sv w /\
  forall snap, sv_snaps (sv w) !! key = Some snap ->
    remaining id snap <> [] -> ~ ns_gone snap w ->
    rollbackFailures w' = rollbackFailures w -> detachable key w'.
Proof.
  apply rebuildForDetach_failed.
Qed.
End DetachSteps.
