(* ===== verification/Lifecycle.v ===== *)
(** * The dispatchers over time

    Attaches and detaches in any order and on any attach points, as the
    manager's write lock serialises them. *)

From Stdlib Require Import ZArith Lia String.
From stdpp Require Import base tactics sets list gmap strings numbers relations.
From S2P Require Import Prelude Actions Dispatcher Domain Slots Layout Platform Executor Rebuild Members.
From S2P Require Import XDPRebuild TCRebuild TCAttach Detach.

Local Open Scope string_scope.
Local Open Scope list_scope.
Local Open Scope Z_scope.

Section Lifecycle.
Context {K D : Type} `{!KernelOps K} {NC : NetConsts} `{!KernelLaws K} `{!DispatcherStoreOps D} `{!DispatcherStore D}.
Context (base : path) (Hbase : forallb plain base = true).
Abbreviation W := (world K D).
Implicit Types (w : W).

(** The outcome of a request whose roll-back calls, if any, all worked. *)
Definition settled {A} (r : result A) (w w' : W) : Prop :=
  is_ok r = true \/ rollbackFailures w' = rollbackFailures w.

(** One serialised request. The manager passes an attach the pin path of the
    program's record, where the layout has it. A detach first takes the link's extension off
    its slot (the detach-link node of Manager.detachPlan) and then rebuilds. *)
Inductive dispatcher_step (w w' : W) : Prop :=
| step_attach_xdp pid ops pp name prio po md r :
    0 <= xo_ifindex ops < 2 ^ 32 -> in_uint32 po -> prog_placed base pid pp ->
    rebuildXDPDispatcher base pid ops pp name prio po md w = (r, w') -> settled r w w' ->
    dispatcher_step w w'
| step_attach_tc pid ops pp name prio po md r :
    tc_ops_wf ops -> 0 <= to_ifindex ops < 2 ^ 32 -> in_uint32 po -> prog_placed base pid pp ->
    rebuildTCDispatcher base pid ops pp name prio po md w = (r, w') -> settled r w w' ->
    dispatcher_step w w'
| step_detach snap m w1 :
    key_wf (sn_Key snap) -> sv_snaps (sv w) !! sn_Key snap = Some snap -> m ∈ sn_Members snap ->
    onK (DetachLink (dm_LinkPinPath m)) w = (Ok tt, w1) ->
    rebuildDispatcherForDetach base (sn_Key snap) (dm_LinkID m) w1 = (Ok tt, w') ->
    dispatcher_step w w'
| step_remove_if_empty key r :
    key_wf key -> removeDispatcherIfEmpty base key w = (r, w') -> is_ok r = true -> dispatcher_step w w'.

Lemma ext_path_not_prog dt n i r pos dt' n' i' r' :
  ExtensionLinkPath base dt n i r pos <> DispatcherProgPath base dt' n' i' r'.
Proof.
  unfold ExtensionLinkPath, DispatcherProgPath. intros H. apply app_inj_tail in H as [_ H].
  done.
Qed.

(** Taking an extension off, whatever the revision its path is of, leaves
    the dispatcher itself running. *)
Lemma unpin_path_detachable key rev pos w w1 :
  key_wf key -> 0 <= rev -> dispatchers_consistent base w ->
  onK (DetachLink (ExtensionLinkPath base (KType key) (KNsid key) (KIfindex key) rev pos)) w = (Ok tt, w1) ->
  detachable base key w1.
Proof.
  intros Hkey Hr0 Hc H. apply onK_frame in H as (Hst & _ & Hk). apply law_detach_link in Hk.
  fold (kv w1) (kv w) in Hk. pose proof Hkey as (Hnz & [Hn _] & [Hi _]).
  destruct (consistent_detachable base _ _ Hkey Hc) as (Hoth & _ & Hrun).
  assert (Hsv : sv w1 = sv w) by (unfold sv; by rewrite Hst).
  assert (Hpins : forall q, ~ DispatcherRevisionDir base (KType key) (KNsid key) (KIfindex key) rev `prefix_of` q ->
            kv_pins (kv w1) !! q = kv_pins (kv w) !! q).
  { intros q Hq. rewrite Hk. apply lookup_delete_ne. intros <-. apply Hq, ext_path_in_revdir. }
  split; [|split; [done|]].
  - eapply others_touched; [done|done|exact Hoth|by rewrite Hst; apply Hc| |by rewrite Hsv|].
    + eapply (touches_below base); [exact Hr0|by rewrite Hk|exact Hpins].
    + rewrite Hsv. intros s Hs. destruct (proj2 Hc _ _ Hs) as (? & _ & _ & ? & _). done.
  - rewrite Hsv. intros s Hs. destruct (Hrun _ Hs) as [Hrx Hrt]. destruct (proj2 Hc _ _ Hs) as (Hks & _).
    assert (Hprog : forall r, kv_pins (kv w1) !! DispatcherProgPath base (KType key) (KNsid key) (KIfindex key) r =
                    kv_pins (kv w) !! DispatcherProgPath base (KType key) (KNsid key) (KIfindex key) r).
    { intros r. rewrite Hk. apply lookup_delete_ne, ext_path_not_prog. }
    split; intros Hty; unfold xdp_running, tc_running, tc_live; rewrite Hks in *; rewrite Hprog.
    + rewrite Hpins; [specialize (Hrx Hty); unfold xdp_running in Hrx; by rewrite Hks in Hrx|]. apply link_not_in_revdir; lia.
    + rewrite Hk. specialize (Hrt Hty). unfold tc_running, tc_live in Hrt. by rewrite Hks in Hrt.
Qed.

(** The pin of a member is the extension path of its position. *)
Lemma coherent_path v s m :
  KType (sn_Key s) <> DispatcherTypeZero ->
  (KType (sn_Key s) = DispatcherTypeXDP -> xdp_coherent base v s) ->
  (isTCDispatcherType (KType (sn_Key s)) = true -> tc_coherent base v s) -> m ∈ sn_Members s ->
  dm_LinkPinPath m = ExtensionLinkPath base (KType (sn_Key s)) (KNsid (sn_Key s)) (KIfindex (sn_Key s))
                       (sn_Revision s) (dm_Position m) /\
  exists elid prog, dm_KernelLinkID m = Some elid /\
    kv_pins v !! dm_LinkPinPath m = Some (KExtension elid (rt_ProgramID (sn_Runtime s)) (dm_Position m) prog).
Proof.
  intros Hz Hx Ht Hm. assert (exists acts, member_coherent base v s acts m) as (acts & _ & Hpath & _ & Hext); [|done].
  destruct (decide (KType (sn_Key s) = DispatcherTypeXDP)) as [Ety|Ety].
  - destruct (Hx Ety) as (lid & cfg & _ & _ & _ & _ & _ & Hall). rewrite list.Forall_forall in Hall. eauto.
  - destruct Ht as (h & cfg & _ & _ & _ & _ & _ & _ & _ & _ & Hall); [by destruct (KType (sn_Key s))|].
    rewrite list.Forall_forall in Hall. eauto.
Qed.

Lemma member_pin_path key snap m w :
  dispatchers_consistent base w -> sv_snaps (sv w) !! key = Some snap -> m ∈ sn_Members snap -> KType key <> DispatcherTypeZero ->
  0 <= sn_Revision snap /\ exists pos, dm_LinkPinPath m = ExtensionLinkPath base (KType key) (KNsid key) (KIfindex key) (sn_Revision snap) pos.
Proof.
  intros Hc Hs Hm Hz. destruct (proj2 Hc _ _ Hs) as (<- & _ & _ & [Hr0 _] & Hx & Ht). split; [done|].
  destruct (coherent_path _ _ _ Hz Hx Ht Hm) as [-> _]. by eexists.
Qed.

Lemma unpin_extension_detachable snap m w w1 :
  key_wf (sn_Key snap) -> dispatchers_consistent base w ->
  sv_snaps (sv w) !! sn_Key snap = Some snap -> m ∈ sn_Members snap ->
  onK (DetachLink (dm_LinkPinPath m)) w = (Ok tt, w1) -> detachable base (sn_Key snap) w1.
Proof.
  intros Hkey Hc Hs Hm H. destruct (member_pin_path _ _ _ _ Hc Hs Hm) as (Hr0 & pos & Hpath); [apply Hkey|].
  rewrite Hpath in H. by eapply unpin_path_detachable.
Qed.

Lemma delete_consistent key snap w w' :
  dispatchers_consistent base w -> store_ok (w_store w') -> touches_only base key (kv w) (kv w') ->
  sn_Key snap = key -> sv_snaps (sv w) !! key = Some snap ->
  sv w' = mkSview (delete key (sv_snaps (sv w))) (sv_progs (sv w)) -> dispatchers_consistent base w'.
Proof.
  intros Hc Hok Ht Hk Hl Hsv. destruct (proj2 Hc _ _ Hl) as (_ & Hn & Hi & _).
  split; [done|]. rewrite Hsv. cbn [sv_snaps]. intros k s [Hne Hs]%lookup_delete_Some.
  destruct (proj2 Hc k s Hs) as (Hk' & Hn' & Hi' & Hr' & Hx' & Ht'). repeat (split; [done|]).
  destruct (touches_only_frame base key k s _ _ Ht) as [Hxf Htf]; try done; [apply Hr'|]. split; auto.
Qed.

Lemma removeIfEmpty_cases key w r w' :
  key_wf key -> dispatchers_consistent base w -> removeDispatcherIfEmpty base key w = (r, w') ->
  (unchanged w w' /\ (is_ok r = true -> exists snap, sv_snaps (sv w) !! key = Some snap /\ sn_Members snap <> [])) \/
  (exists snap, sv_snaps (sv w) !! key = Some snap /\ sn_Key snap = key /\ sn_Members snap = [] /\
     store_ok (w_store w') /\ touches_only base key (kv w) (kv w') /\
     match r with
     | Ok _ => kernel_detached base (kv w') snap /\
         sv w' = mkSview (delete key (sv_snaps (sv w))) (sv_progs (sv w))
     | Err _ => sv w' = sv w
     end).
Proof.
  intros Hkey Hc H. unfold removeDispatcherIfEmpty in H. unfold bind at 1, wrapping, onS in H.
  destruct (GetDispatcherSnapshot key (w_store w)) as [[snap|e] s1] eqn:E; cbn [wrap_err] in H.
  2:{ apply get_err in E as (Hok & Hsv & _); [|apply Hc]. simplify_eq. left. done. }
  apply get_ok in E as (Hok & Hsv & Hlk & Hk & Hr & Hm); [|apply Hc].
  set (w1 := mkWorld (w_kernel w) s1 (w_log w)) in *. assert (Hu : unchanged w w1) by done.
  destruct (sn_Members snap) as [|m ms] eqn:Em.
  - right. exists snap. repeat (split; [done|]).
    destruct (consistent_detachable base _ _ Hkey Hc) as (_ & _ & Hrun).
    apply (removeEmptyDispatcher_spec base Hbase) in H as (Hok' & Ht & Hcase); [|by rewrite Hk|done|done|by apply Hrun].
    rewrite Hk in *. split; [done|]. split; [exact Ht|]. change (sv w1) with (sview_of s1) in Hcase.
    rewrite Hsv in Hcase. exact Hcase.
  - unfold ret in H. simplify_eq. left. split; [done|]. intros _. exists snap. split; [done|]. by rewrite Em.
Qed.

(** ** The recorded programs run *)

Lemma slot_placed_members v s :
  Forall (member_runs base v) (sn_Members s) -> Forall (slot_placed base) (slot_of_member <$> sn_Members s).
Proof. intros H. apply Forall_fmap. eapply list.Forall_impl; [exact H|]. by intros m [Hp _]. Qed.

Lemma planned_slots_placed v snap ns slots :
  planSlots snap ns = Ok slots -> slot_placed base ns -> Forall (member_runs base v) (snapMembers snap) ->
  Forall (slot_placed base) slots.
Proof.
  intros [-> _]%planSlots_ok Hns Hms.
  destruct (sortRebuildSlots_spec ((slot_of_member <$> snapMembers snap) ++ [ns])) as [_ ->].
  apply Forall_app. split; [|by constructor]. apply Forall_fmap. eapply list.Forall_impl; [exact Hms|]. by intros m [Hp _].
Qed.

Lemma snap_members_run w key :
  programs_run base (kv w) (sv w) -> KType key <> DispatcherTypeZero ->
  Forall (member_runs base (kv w)) (snapMembers (sv_snaps (sv w) !! key)).
Proof.
  intros Hr Hz. apply list.Forall_forall. intros m. destruct (sv_snaps (sv w) !! key) as [s|] eqn:E; [|by intros ?%not_elem_of_nil].
  intros Hm. by eapply (run_members _ _ _ Hr).
Qed.

Lemma labelled_touches key v v' : touches_only base key v v' -> labelled base v -> labelled base v'.
Proof. intros [Hpins _] Hl id o Hid. destruct (prog_clear base key id). rewrite Hpins by done. by apply Hl. Qed.

Lemma consistent_others key w : dispatchers_consistent base w -> others_consistent base key w.
Proof. intros [Hok Hc]. split; [done|]. intros k s Hs. by destruct (Hc k s Hs) as (? & ? & ? & ? & ?). Qed.

(** A request on [key] that leaves other attach points alone. *)
Lemma programs_run_step key w w' :
  others_consistent base key w -> KType key <> DispatcherTypeZero -> 0 <= KNsid key -> 0 <= KIfindex key ->
  touches_only base key (kv w) (kv w') -> sv_progs (sv w') = sv_progs (sv w) ->
  (forall k s, k <> key -> sv_snaps (sv w') !! k = Some s -> sv_snaps (sv w) !! k = Some s) ->
  (forall s, sv_snaps (sv w') !! key = Some s -> Forall (member_runs base (kv w')) (sn_Members s)) ->
  programs_run base (kv w) (sv w) -> programs_run base (kv w') (sv w').
Proof.
  intros [_ Hc] Hz Hn Hi Ht0 Hps Hsn Hkey [Hl Hp Hm]. pose proof Ht0 as [Hpins _]. split.
  - by apply (labelled_touches key (kv w)).
  - by rewrite Hps.
  - intros k s m Hzk Hs Hin. destruct (decide (k = key)) as [->|Hne].
    { specialize (Hkey s Hs). rewrite list.Forall_forall in Hkey. by apply Hkey. }
    specialize (Hsn k s Hne Hs). destruct (Hc k s Hsn) as (Hk & Hn' & Hi' & [Hr0 _] & Hco). destruct (Hco Hne) as [Hx Ht].
    rewrite <- Hk in Hx, Ht, Hzk. destruct (coherent_path _ _ _ Hzk Hx Ht Hin) as [Hpath _]. rewrite Hk in Hpath, Hzk.
    destruct (Hm k s m Hzk Hsn Hin) as [Hpl Hrun]. split; [done|]. intros elid did pos prog.
    destruct (other_key_frame base key k (sn_Revision s) (dm_LinkPinPath m)) as [H1 H2]; try done.
    { right. rewrite Hpath. apply ext_path_in_revdir. }
    rewrite Hpins by done. apply Hrun.
Qed.

(** A failed request that left, at most, something at the path of an extension
    of the next revision. *)
Lemma programs_run_near key pos w w' :
  dispatchers_consistent base w -> 0 <= KNsid key -> 0 <= KIfindex key -> sv w' = sv w ->
  only_at (ExtensionLinkPath base (KType key) (KNsid key) (KIfindex key)
             (nextRevision (sv_snaps (sv w) !! key)) pos) (kv w) (kv w') ->
  programs_run base (kv w) (sv w) -> programs_run base (kv w') (sv w').
Proof.
  intros [_ Hc] Hn Hi Hsv Hat [Hl Hp Hm]. rewrite Hsv. split; [|done|].
  - intros id o Hid. destruct Hat as [_ Hat]. rewrite Hat; [by apply Hl|]. intros E.
    destruct (prog_clear base key id) as [H1 _]. apply (H1 (nextRevision (sv_snaps (sv w) !! key))).
    + destruct (sv_snaps (sv w) !! key); cbn; [|lia]. apply uint32_range.
    + rewrite E. apply ext_path_in_revdir.
  - intros k s m Hz Hs Hin. destruct (Hm k s m Hz Hs Hin) as [Hpl Hrun]. split; [done|]. intros elid did pos' prog.
    destruct (Hc k s Hs) as (Hk & Hn' & Hi' & Hr & Hx & Ht). rewrite <- Hk in Hx, Ht, Hz.
    destruct (coherent_path _ _ _ Hz Hx Ht Hin) as [Hpath _].
    rewrite (stray_pins base (sv_snaps (sv w)) key pos (kv w) (kv w') k s); try done; [apply Hrun| |].
    + intros s' Hs'. by destruct (Hc key s' Hs') as (_ & _ & _ & ? & _).
    + right. rewrite Hpath, Hk. apply ext_path_in_revdir.
Qed.

(** The snapshot an installation stores at [key]. *)
Lemma programs_run_install key revision rt slots attached ms0 ms w w' :
  others_consistent base key w -> KType key <> DispatcherTypeZero -> 0 <= KNsid key -> 0 <= KIfindex key ->
  let s' := mkDispatcherSnapshot key revision rt ms in
  touches_only base key (kv w) (kv w') ->
  sv w' = mkSview (<[key := s']> (sv_snaps (sv w))) (sv_progs (sv w)) ->
  length attached = length slots ->
  Forall2 (fun sp m => m = complete_member sp (dm_LinkID m) /\
             (forall id, ms_ExistingLinkID sp = Some id -> dm_LinkID m = id))
    (dispatcherMembers slots attached) ms0 ->
  ms ≡ₚ (stored_member (sv_progs (sv w)) <$> ms0) ->
  (KType key = DispatcherTypeXDP -> xdp_coherent base (kv w') s') ->
  (isTCDispatcherType (KType key) = true -> tc_coherent base (kv w') s') ->
  slots_run base key revision slots (kv w') -> Forall (slot_placed base) slots ->
  programs_run base (kv w) (sv w) -> programs_run base (kv w') (sv w').
Proof.
  intros Hc Hz Hn Hi s' Ht Hsv Hlen HF Hperm Hx Htc Hrun Hpl Hr.
  eapply (programs_run_step key w w'); [done..|by rewrite Hsv| | |done].
  - intros k s Hne. rewrite Hsv. cbn [sv_snaps]. by rewrite lookup_insert_ne by done.
  - intros s. rewrite Hsv. cbn [sv_snaps]. rewrite lookup_insert_eq. intros [= <-]. cbn [sn_Members].
    eapply (installed_runs base key revision); [exact Hlen|exact HF|exact Hperm| |exact Hrun| |apply Hr|exact Hpl].
    + intros m Hm. by destruct (coherent_path (kv w') s' m) as [? _].
    + eapply labelled_touches; [exact Ht|apply Hr].
Qed.

Lemma attachXDP_runs pid ops pp name prio po md w r w' :
  0 <= xo_ifindex ops < 2 ^ 32 -> in_uint32 po -> prog_placed base pid pp -> dispatchers_consistent base w ->
  rebuildXDPDispatcher base pid ops pp name prio po md w = (r, w') -> settled r w w' ->
  programs_run base (kv w) (sv w) -> programs_run base (kv w') (sv w').
Proof.
  intros Hif Hpo Hpp Hc H Hset Hr.
  pose proof (rebuildXDP_cases base _ _ _ _ _ _ _ _ _ _ Hbase Hif Hpo (consistent_xdp _ _ Hc) H) as Hcase.
  destruct r as [res|e].
  - destruct Hcase as (key & snap & slots & did & lid & attached & completed & ms & Hty & Hi & Hn & _ & Hsn & Hplan & Hin).
    destruct Hin as [_ _ Hlen HF Hperm Hsv Hco _ Hfl Hfr Hruns].
    eapply (programs_run_install key); [by apply consistent_others|by rewrite Hty|done|lia| |exact Hsv|exact Hlen|exact HF
      |exact Hperm|done|by rewrite Hty|exact Hruns| |done].
    + split; [exact Hfr|]. by rewrite Hty.
    + eapply planned_slots_placed; [exact Hplan|exact Hpp|]. rewrite <- Hsn. apply snap_members_run; [done|by rewrite Hty].
  - destruct Hcase as (key & _ & Hi & Hn & _ & Hs & _ & Hk). destruct Hset as [?|Hset]; [done|].
    destruct (Hk Hset) as [pos Hat]. eapply programs_run_near; [done|exact Hn|lia|done|exact Hat|done].
Qed.

Lemma attachTC_runs pid ops pp name prio po md w r w' :
  tc_ops_wf ops -> 0 <= to_ifindex ops < 2 ^ 32 -> in_uint32 po -> prog_placed base pid pp -> dispatchers_consistent base w ->
  rebuildTCDispatcher base pid ops pp name prio po md w = (r, w') -> settled r w w' ->
  programs_run base (kv w) (sv w) -> programs_run base (kv w') (sv w').
Proof.
  intros Hops Hif Hpo Hpp Hc H Hset Hr. pose proof (tc_key_type ops Hops) as Hty.
  pose proof (tc_type_nonzero _ Hty) as Hz. pose proof (law_ns_range (K:=K) (to_netnsPath ops)) as Hns.
  pose proof (rebuildTC_cases base _ _ _ _ _ _ _ _ _ _ Hbase Hops Hif Hpo Hc H) as Hcase. destruct r as [res|e].
  - destruct Hcase as (snap & slots & did & h & attached & completed & ms & _ & Hsn & Hplan & Hin).
    destruct Hin as [_ _ Hlen HF Hperm Hsv Hco _ Hfl Hfr Hruns].
    eapply (programs_run_install (tc_key ops)); [by apply consistent_others|done|apply Hns|cbn; lia| |exact Hsv|exact Hlen|exact HF
      |exact Hperm|intros E; by rewrite E in Hty|done|exact Hruns| |done].
    + split; [by auto|]. split; [done|]. by rewrite Hty.
    + eapply planned_slots_placed; [exact Hplan|exact Hpp|]. rewrite <- Hsn. by apply snap_members_run.
  - destruct Hset as [?|Hset]; [done|]. destruct Hcase as [(_ & Hs & _ & Hk)|(_ & Hs & _ & Hk)].
    + rewrite Hs. assert (Hpins : kv_pins (kv w') = kv_pins (kv w)) by (by destruct (Hk Hset) as [->|(h & prog & _ & ->)]).
      destruct Hr as [Hl Hp Hm]. split; [unfold labelled; by rewrite Hpins|done|].
      unfold member_runs, runs_program. by rewrite Hpins.
    + destruct (Hk Hset) as [pos Hat]. eapply (programs_run_near (tc_key ops)); [done|apply Hns|cbn; lia|done|exact Hat|done].
Qed.

(** Taking an extension off removes a pin; the rebuild then runs what remains. *)
Lemma unpin_runs q w w1 :
  onK (DetachLink q) w = (Ok tt, w1) -> programs_run base (kv w) (sv w) -> programs_run base (kv w1) (sv w1).
Proof.
  intros (Hst & _ & Hk%law_detach_link)%onK_frame [Hl Hp Hm]. fold (kv w1) (kv w) in Hk.
  assert (Hsub : forall p o, kv_pins (kv w1) !! p = Some o -> kv_pins (kv w) !! p = Some o).
  { intros p o. rewrite Hk. cbn [unpin kv_pins]. by intros [_ ?]%lookup_delete_Some. }
  unfold sv. rewrite Hst. split; [intros id o Hid Ho; apply Hl; auto|done|].
  intros k s m Hz Hs Hin. destruct (Hm k s m Hz Hs Hin) as [Hpl Hrun]. split; [done|].
  intros elid did pos prog Hext. by eapply Hrun, Hsub.
Qed.

Lemma rebuildForDetach_runs key id w w' :
  detachable base key w -> rebuildDispatcherForDetach base key id w = (Ok tt, w') ->
  programs_run base (kv w) (sv w) -> programs_run base (kv w') (sv w').
Proof.
  intros (Hoth & Hkey & Hrun) H Hr. pose proof Hkey as (Hz & [Hn _] & [Hi _]).
  apply (rebuildForDetach_split base) in H as [[[e ?] _]|(snap & w1 & (Hk1 & _ & Hok1 & Hsv1) & Hlk & Hk & Hrev & Hm & Hcase)];
    [done| |apply Hoth]. specialize (Hrun _ Hlk). rewrite <- Hk1 in Hrun.
  assert (Hoth1 : others_consistent base key w1).
  { destruct Hoth as [_ Hc]. split; [done|]. by rewrite Hsv1, Hk1. }
  rewrite <- Hk1, <- Hsv1 in Hr. destruct Hcase as [[H _]|(H & _ & _)].
  - apply (removeEmptyDispatcher_spec base Hbase) in H as (_ & Ht & _ & Hsv'); [|cbn; by rewrite Hk|done|done|exact Hrun].
    cbn [sn_Key with_members] in *. rewrite Hk in *.
    eapply (programs_run_step key w1 w'); [done..|by rewrite Hsv'| | |done].
    + intros k s Hne. rewrite Hsv'. cbn [sv_snaps]. by rewrite lookup_delete_ne by done.
    + intros s. rewrite Hsv'. cbn [sv_snaps]. by rewrite lookup_delete_eq.
  - apply (rebuildRemaining_cases base Hbase) in H as (rt & attached & completed & ms & Hin); try done.
    2:{ cbn. unfold remaining. rewrite list.Forall_forall in Hm |- *. intros m [_ Hin]%list_elem_of_filter. by apply Hm. }
    destruct Hin as [_ Hlen HF Hperm Hsv' Ht Hx Htc Hruns].
    eapply (programs_run_install key); [done..|exact Hsv'|exact Hlen|exact HF|exact Hperm|exact Hx|exact Htc|exact Hruns| |done].
    destruct (sortRebuildSlots_spec (slot_of_member_detach <$> remaining id snap)) as [_ Hp]. cbn [sn_Members with_members].
    rewrite Hp. apply Forall_fmap, list.Forall_forall. intros m [_ Hin]%list_elem_of_filter.
    by destruct (run_members _ _ _ Hr key snap m Hz) as [? _]; [by rewrite Hsv1| |].
Qed.

(** One step keeps every dispatcher served by the recorded programs. *)
Definition served_as_recorded w : Prop := dispatchers_consistent base w /\ programs_run base (kv w) (sv w).

Lemma step_served w w' : served_as_recorded w -> dispatcher_step w w' -> served_as_recorded w'.
Proof.
  intros [Hc Hr] [pid ops pp name prio po md r Hif Hpo Hpp H Hset|pid ops pp name prio po md r Hops Hif Hpo Hpp H Hset|
             snap m w1 Hkey Hs Hm H1 H2|key r Hkey H Hok].
  - split; [by eapply rebuildXDP_keeps|by eapply attachXDP_runs].
  - split; [by eapply rebuildTC_keeps|by eapply attachTC_runs].
  - pose proof (unpin_runs _ _ _ H1 Hr) as Hr1. eapply unpin_extension_detachable in H1; [|done..].
    split; [by eapply rebuildForDetach_keeps|by eapply rebuildForDetach_runs].
  - apply removeIfEmpty_cases in H as [[(Hk & _ & Hst & Hsv) _]|(snap & Hl & Hk & _ & Hst & Ht & Hcase)]; [| |done..].
    + unfold served_as_recorded, dispatchers_consistent. rewrite Hk, Hsv. split; [|done]. split; [done|]. apply Hc.
    + destruct r; [|done]. destruct Hcase as [_ Hsv]. split; [by eapply delete_consistent|].
      destruct Hkey as (Hz & [Hn _] & [Hi _]).
      eapply (programs_run_step key w w'); [by apply consistent_others|done..|by rewrite Hsv| | |done].
      * intros k s Hne. rewrite Hsv. cbn [sv_snaps]. by rewrite lookup_delete_ne by done.
      * intros s. rewrite Hsv. cbn [sv_snaps]. by rewrite lookup_delete_eq.
Qed.

(** C8: the invariant of the dispatcher subsystem. A world is served as
    recorded when each outer link or filter runs the recorded dispatcher program,
    that program enables exactly the recorded members with their proceed-on
    masks, and each member's extension sits in its own slot of it and runs the
    member's recorded program. Starting from such a world (for instance an empty
    one), any sequence of the steps of [dispatcher_step], on any attach points,
    ends in such a world: attaches that succeed or whose roll-back calls all
    worked, detaches of a member that succeed, removals of an empty dispatcher
    that succeed. Not included are the failures that can leave a dispatcher
    unserved: an attach whose roll-back also failed, and a detach or a removal
    that failed half-way. *)
Theorem dispatchers_always_served w w' :
  served_as_recorded w -> rtc dispatcher_step w w' ->
  served_as_recorded w' /\
  forall k s m, sv_snaps (sv w') !! k = Some s -> KType k <> DispatcherTypeZero -> m ∈ sn_Members s ->
    exists elid, dm_KernelLinkID m = Some elid /\
      kv_pins (kv w') !! dm_LinkPinPath m =
        Some (KExtension elid (rt_ProgramID (sn_Runtime s)) (dm_Position m) (dm_ProgramID m)).
Proof.
  intros Hc H. assert (Hc' : served_as_recorded w').
  { induction H as [w|w w1 w' Hs _ IH]; [done|]. apply IH. by eapply step_served. }
  split; [done|]. destruct Hc' as [[_ Hc'] Hr]. intros k s m Hs Hz Hm.
  destruct (Hc' k s Hs) as (Hk & _ & _ & _ & Hx & Ht). rewrite <- Hk in Hx, Ht.
  destruct (coherent_path (kv w') s m) as (_ & elid & prog & Hid & Hext); [by rewrite Hk|done..|].
  exists elid. split; [done|]. destruct (run_members _ _ _ Hr k s m Hz Hs Hm) as [_ Hrun].
  by rewrite <- (Hrun _ _ _ _ Hext).
Qed.

(** C15: RemoveDispatcher removes only empty dispatchers. With members
    left it changes nothing; with none it deletes the snapshot once the outer
    link or filter is detached; if it fails the snapshot is still there for a
    retry. Other attach points are not touched. *)
Theorem removeDispatcherIfEmpty_contract key w r w' :
  key_wf key -> dispatchers_consistent base w -> removeDispatcherIfEmpty base key w = (r, w') ->
  (is_ok r = false -> sv w' = sv w) /\
  touches_only base key (kv w) (kv w') /\
  (forall snap, sv_snaps (sv w) !! key = Some snap -> is_ok r = true ->
     if bool_decide (sn_Members snap = [])
     then sv w' = mkSview (delete key (sv_snaps (sv w))) (sv_progs (sv w)) /\ kernel_detached base (kv w') snap
     else sv w' = sv w /\ kv w' = kv w).
Proof.
  intros Hkey Hc H.
  apply removeIfEmpty_cases in H as [[(Hk & _ & Hok & Hsv) Hne]|(snap & Hl & Hk & Hm & Hok & Ht & Hcase)]; [| |done..].
  - split; [done|]. rewrite Hk. split; [apply touches_only_refl|]. intros snap Hl Hr.
    destruct (Hne Hr) as (snap' & Hl' & Hm). rewrite Hl in Hl'. injection Hl' as <-. by rewrite bool_decide_false.
  - split; [by destruct r|]. split; [done|]. intros snap' Hl' Hr. rewrite Hl in Hl'. injection Hl' as <-.
    rewrite bool_decide_true by done. destruct r; [|done]. by destruct Hcase.
Qed.
End Lifecycle.
