(* ===== verification/StoreDb.v ===== *)
(** * The store's database (platform/store/sqlite)

    The tables of the schema as finite maps, and one function per SQL
    statement the package prepares (stmts.go, dispatchers.go,
    shared_map_pins.go) with the constraints the schema puts on it: primary and
    unique keys, foreign keys with their cascades and restrictions, CHECKs. A
    JSON column holds the value it encodes. Every statement, transaction start
    and commit may be refused by the driver: [st_faults] is the sequence of
    refusals still to come, so a statement about all stores is a statement
    about every pattern of SQLITE_BUSY and I/O errors. *)

From Stdlib Require Import ZArith Lia String.
From stdpp Require Import base tactics sets list gmap strings numbers sorting.
From S2P Require Import Prelude Actions Dispatcher Domain Slots.

Local Open Scope string_scope.
Local Open Scope list_scope.
Local Open Scope Z_scope.

(** ** Tables *)

Record mapSetRow := mkMapSetRow { ms_pin_path : path; ms_created_at : Z }.

Record programRow := mkProgramRow {
  p_program_name : string; p_program_type : string; p_object_path : string;
  p_source_path : option string; p_pin_path : path; p_attach_func : option string;
  p_global_data : gmap string string; p_map_set_id : Z; p_image_source : option imageSourceJSON;
  p_owner : option string; p_description : option string; p_license : option string;
  p_gpl_compatible : bool; p_metadata_json : gmap string string; p_created_at : Z;
  p_updated_at : option Z }.

Record linkRow := mkLinkRow {
  lk_kind : string; lk_kernel_prog_id : Z; lk_kernel_link_id : option Z; lk_pin_path : option path;
  lk_metadata_json : gmap string string; lk_created_at : Z }.

(** A row of link_xdp_details or link_tc_details; [mr_direction] is "" in the former. *)
Record memberRow := mkMemberRow {
  mr_interface : string; mr_ifindex : Z; mr_direction : string; mr_priority : Z; mr_position : Z;
  mr_proceed_on : list Z; mr_netns : string; mr_nsid : Z; mr_dispatcher_program_id : Z }.

Record dispatcherRow := mkDispatcherRow {
  dr_revision : Z; dr_program_id : Z; dr_kernel_link_id : option Z; dr_priority : option Z;
  dr_filter_handle : option Z; dr_netns : string; dr_created_at : Z; dr_updated_at : Z }.

#[export] Instance DetailsType_eq_dec : EqDecision DetailsType.
Proof. solve_decision. Defined.
#[export] Instance DetailsType_countable : Countable DetailsType.
Proof.
  apply (inj_countable
    (fun t => match t with
              | TTracepoint => 1 | TKprobe => 2 | TUprobe => 3 | TFentry => 4 | TFexit => 5
              | TXDP => 6 | TTC => 7 | TTCX => 8 end%Z)
    (fun p => match p with
              | 1 => Some TTracepoint | 2 => Some TKprobe | 3 => Some TUprobe | 4 => Some TFentry
              | 5 => Some TFexit | 6 => Some TXDP | 7 => Some TTC | 8 => Some TTCX
              | _ => None end%Z)).
  abstract (by intros []).
Defined.

(** [db_details] holds the tables of the link kinds without a dispatcher,
    keyed by table and link ID; [db_link_seq] is the AUTOINCREMENT counter. *)
Record db := mkDb {
  db_map_sets : gmap Z mapSetRow;
  db_programs : gmap Z programRow;
  db_links : gmap Z linkRow;
  db_link_seq : Z;
  db_details : gmap (DetailsType * Z) LinkDetails;
  db_xdp : gmap Z memberRow;
  db_tc : gmap Z memberRow;
  db_dispatchers : gmap Key dispatcherRow;
  db_shared_map_pins : gset (string * Z);
}.

Definition empty_db : db := mkDb ∅ ∅ ∅ 0 ∅ ∅ ∅ ∅ ∅.

Definition set_map_sets (t : gmap Z mapSetRow) (d : db) : db :=
  mkDb t (db_programs d) (db_links d) (db_link_seq d) (db_details d) (db_xdp d) (db_tc d)
    (db_dispatchers d) (db_shared_map_pins d).
Definition set_programs (t : gmap Z programRow) (d : db) : db :=
  mkDb (db_map_sets d) t (db_links d) (db_link_seq d) (db_details d) (db_xdp d) (db_tc d)
    (db_dispatchers d) (db_shared_map_pins d).
Definition set_links (t : gmap Z linkRow) (seq : Z) (d : db) : db :=
  mkDb (db_map_sets d) (db_programs d) t seq (db_details d) (db_xdp d) (db_tc d)
    (db_dispatchers d) (db_shared_map_pins d).
Definition set_details (t : gmap (DetailsType * Z) LinkDetails) (d : db) : db :=
  mkDb (db_map_sets d) (db_programs d) (db_links d) (db_link_seq d) t (db_xdp d) (db_tc d)
    (db_dispatchers d) (db_shared_map_pins d).
Definition set_members (x t : gmap Z memberRow) (d : db) : db :=
  mkDb (db_map_sets d) (db_programs d) (db_links d) (db_link_seq d) (db_details d) x t
    (db_dispatchers d) (db_shared_map_pins d).
Definition set_dispatchers (t : gmap Key dispatcherRow) (d : db) : db :=
  mkDb (db_map_sets d) (db_programs d) (db_links d) (db_link_seq d) (db_details d) (db_xdp d)
    (db_tc d) t (db_shared_map_pins d).
Definition set_shared_map_pins (t : gset (string * Z)) (d : db) : db :=
  mkDb (db_map_sets d) (db_programs d) (db_links d) (db_link_seq d) (db_details d) (db_xdp d)
    (db_tc d) (db_dispatchers d) t.

(** ** The store: database, driver refusals, clock, transaction state *)

Inductive fault := FaultBusy | FaultIO (msg : string).

Definition fault_error (f : fault) : error :=
  match f with FaultBusy => Sentinel ErrBusy | FaultIO m => Errorf m end.

Record store := mkStore {
  st_db : db;
  st_faults : list (option fault);
  st_now : Z;
  st_inTx : bool;
  st_txRetryBackoffs : nat;   (* len(txRetryBackoffs) *)
}.

Definition set_db (d : db) (s : store) : store :=
  mkStore d (st_faults s) (st_now s) (st_inTx s) (st_txRetryBackoffs s).
Definition set_faults (fs : list (option fault)) (s : store) : store :=
  mkStore (st_db s) fs (st_now s) (st_inTx s) (st_txRetryBackoffs s).
Definition set_inTx (b : bool) (s : store) : store :=
  mkStore (st_db s) (st_faults s) (st_now s) b (st_txRetryBackoffs s).

(** The driver's answer to the next request. *)
Definition driver : M store unit :=
  fun s => match st_faults s with
           | Some f :: fs => (Err (fault_error f), set_faults fs s)
           | None :: fs => (Ok tt, set_faults fs s)
           | [] => (Ok tt, s)
           end.

(** One statement: refused by the driver, rejected by a constraint (no
    change), or executed. *)
Definition stmt {A} (f : db -> result (A * db)) : M store A :=
  driver;;;
  (fun s => match f (st_db s) with
            | Ok (a, d) => (Ok a, set_db d s)
            | Err e => (Err e, s)
            end).

Definition query {A} (f : db -> A) : M store A := stmt (fun d => Ok (f d, d)).

Definition constraint {A} : result A := Err (Sentinel ErrConstraint).
Definition check {A} (b : bool) (k : result A) : result A := if b then k else constraint.

(** ** Statements on links and their details *)

Definition link_key_free (klink : option Z) (pin : option path) (links : gmap Z linkRow) : bool :=
  bool_decide (map_Forall (fun _ r =>
    (lk_kernel_link_id r = None \/ lk_kernel_link_id r <> klink) /\
    (lk_pin_path r = None \/ lk_pin_path r <> pin)) links).

(** INSERT INTO links, with an explicit ID or the next AUTOINCREMENT one. *)
Definition insert_link (id : option Z) (row : linkRow) (d : db) : result (Z * linkRow * db) :=
  let i := default (db_link_seq d + 1) id in
  check (bool_decide (lk_kind row ∈ allLinkKinds))
  (check (bool_decide (is_Some (db_programs d !! lk_kernel_prog_id row)))
  (check (bool_decide (db_links d !! i = None))
  (check (link_key_free (lk_kernel_link_id row) (lk_pin_path row) (db_links d))
     (Ok (i, row, set_links (<[i := row]> (db_links d)) (Z.max (db_link_seq d) i) d))))).

(** UPDATE links SET ... WHERE id = ? RETURNING ...; [None] is no such row. *)
Definition update_link (f : linkRow -> linkRow) (id : Z) (d : db) : result (option linkRow * db) :=
  match db_links d !! id with
  | None => Ok (None, d)
  | Some row =>
      let row' := f row in
      check (link_key_free (lk_kernel_link_id row') (lk_pin_path row') (delete id (db_links d)))
        (Ok (Some row', set_links (<[id := row']> (db_links d)) (db_link_seq d) d))
  end.

(** DELETE FROM links WHERE id IN [ids], with the cascades to every detail table. *)
Definition delete_links (ids : gset Z) (d : db) : db :=
  set_members (filter (fun kv => kv.1 ∉ ids) (db_xdp d)) (filter (fun kv => kv.1 ∉ ids) (db_tc d))
    (set_details (filter (fun kv => kv.1.2 ∉ ids) (db_details d))
       (set_links (filter (fun kv => kv.1 ∉ ids) (db_links d)) (db_link_seq d) d)).

Definition detail_check (d : LinkDetails) : bool :=
  match d with
  | DKprobe k => 0 <=? kpd_Offset k
  | DUprobe u => 0 <=? upd_Offset u
  | DTCX t => TCDirection_Valid (txd_Direction t) && (0 <=? txd_Priority t)
  | _ => true
  end.

(** INSERT INTO link_tracepoint_details, link_kprobe_details, ... *)
Definition insert_details (t : DetailsType) (id : Z) (det : LinkDetails) (d : db) : result (unit * db) :=
  check (bool_decide (db_details d !! (t, id) = None))
  (check (bool_decide (is_Some (db_links d !! id)))
  (check (detail_check det)
     (Ok (tt, set_details (<[(t, id) := det]> (db_details d)) d)))).

(** ** Statements on dispatchers and their members *)

Definition member_table (dt : DispatcherType) (d : db) : gmap Z memberRow :=
  match dt with DispatcherTypeXDP => db_xdp d | _ => db_tc d end.

Definition set_member_table (dt : DispatcherType) (t : gmap Z memberRow) (d : db) : db :=
  match dt with
  | DispatcherTypeXDP => set_members t (db_tc d) d
  | _ => set_members (db_xdp d) t d
  end.

Definition dispatcherDirection (dt : DispatcherType) : string :=
  match dt with
  | DispatcherTypeTCIngress => "ingress"
  | DispatcherTypeTCEgress => "egress"
  | _ => ""
  end.

(** The WHERE clause of the attach-point statements. *)
Definition at_point (k : Key) (r : memberRow) : bool :=
  (mr_nsid r =? KNsid k) && (mr_ifindex r =? KIfindex k) &&
  match KType k with
  | DispatcherTypeXDP => true
  | dt => String.eqb (mr_direction r) (dispatcherDirection dt)
  end.

(** DeleteXDPExtLinks and DeleteTCExtLinks *)
Definition delete_ext_links (k : Key) (d : db) : db :=
  delete_links (dom (filter (fun kv => at_point k kv.2 = true) (member_table (KType k) d))) d.

Definition known_dispatcher_program (pid : Z) (d : db) : bool :=
  negb (bool_decide (map_Forall (fun _ r => dr_program_id r <> pid) (db_dispatchers d))).

(** uq_xdp_dispatcher_position and uq_tc_dispatcher_position *)
Definition position_free (dt : DispatcherType) (row : memberRow) (t : gmap Z memberRow) : bool :=
  bool_decide (map_Forall (fun _ r =>
    ~ (mr_nsid r = mr_nsid row /\ mr_ifindex r = mr_ifindex row /\ mr_position r = mr_position row /\
       (dt = DispatcherTypeXDP \/ mr_direction r = mr_direction row))) t).

(** INSERT INTO link_xdp_details or link_tc_details *)
Definition insert_member (dt : DispatcherType) (id : Z) (row : memberRow) (d : db) : result (unit * db) :=
  check (bool_decide (member_table dt d !! id = None))
  (check (bool_decide (is_Some (db_links d !! id)))
  (check (match dt with DispatcherTypeXDP => true | _ => TCDirection_Valid (mr_direction row) end)
  (check ((0 <=? mr_priority row) && (0 <=? mr_position row) && (mr_position row <=? 9))
  (check (position_free dt row (member_table dt d))
  (check (known_dispatcher_program (mr_dispatcher_program_id row) d)
     (Ok (tt, set_member_table dt (<[id := row]> (member_table dt d)) d))))))).

Definition opt_nonneg (o : option Z) : bool := match o with Some z => 0 <=? z | None => true end.

Definition dispatcher_check (dt : DispatcherType) (row : dispatcherRow) : bool :=
  (1 <=? dr_revision row) && opt_nonneg (dr_priority row) && opt_nonneg (dr_filter_handle row) &&
  match dt, dr_kernel_link_id row, dr_priority row, dr_filter_handle row with
  | DispatcherTypeXDP, Some _, None, None => true
  | DispatcherTypeTCIngress, None, Some _, Some _ => true
  | DispatcherTypeTCEgress, None, Some _, Some _ => true
  | _, _, _, _ => false
  end.

(** No member row refers to this dispatcher program. *)
Definition unreferenced (pid : Z) (d : db) : bool :=
  bool_decide (map_Forall (fun _ r => mr_dispatcher_program_id r <> pid) (db_xdp d)) &&
  bool_decide (map_Forall (fun _ r => mr_dispatcher_program_id r <> pid) (db_tc d)).

(** INSERT INTO dispatchers ... ON CONFLICT DO UPDATE *)
Definition upsert_dispatcher (k : Key) (row : dispatcherRow) (d : db) : result (unit * db) :=
  let old := db_dispatchers d !! k in
  check (dispatcher_check (KType k) row)
  (check (bool_decide (map_Forall (fun k' r => k' = k \/ dr_program_id r <> dr_program_id row)
            (db_dispatchers d)))
  (check (match old with
          | Some o => (dr_program_id o =? dr_program_id row) || unreferenced (dr_program_id o) d
          | None => true
          end)
     (Ok (tt, set_dispatchers
        (<[k := match old with
                | Some o => mkDispatcherRow (dr_revision row) (dr_program_id row) (dr_kernel_link_id row)
                              (dr_priority row) (dr_filter_handle row) (dr_netns row)
                              (dr_created_at o) (dr_updated_at row)
                | None => row
                end]> (db_dispatchers d)) d)))).

(** DELETE FROM dispatchers; the result is the number of rows affected. *)
Definition delete_dispatcher (k : Key) (d : db) : result (Z * db) :=
  match db_dispatchers d !! k with
  | None => Ok (0, d)
  | Some o => check (unreferenced (dr_program_id o) d)
                (Ok (1, set_dispatchers (delete k (db_dispatchers d)) d))
  end.

(** ** Statements on programs, map sets and shared map pins *)

Definition image_check (i : option imageSourceJSON) : bool :=
  match i with
  | None => true
  | Some s => negb (String.eqb (is_URL s) "") && ImagePullPolicy_Valid (is_PullPolicy s)
  end.

(** INSERT INTO managed_programs ... ON CONFLICT DO UPDATE, keeping created_at. *)
Definition save_program (id : Z) (row : programRow) (d : db) : result (unit * db) :=
  check (bool_decide (p_program_type row ∈ allProgramTypes))
  (check (image_check (p_image_source row))
  (check (bool_decide (is_Some (db_map_sets d !! p_map_set_id row)))
     (Ok (tt, set_programs
        (<[id := match db_programs d !! id with
                 | Some o => mkProgramRow (p_program_name row) (p_program_type row) (p_object_path row)
                     (p_source_path row) (p_pin_path row) (p_attach_func row) (p_global_data row)
                     (p_map_set_id row) (p_image_source row) (p_owner row) (p_description row)
                     (p_license row) (p_gpl_compatible row) (p_metadata_json row) (p_created_at o)
                     (p_updated_at row)
                 | None => row
                 end]> (db_programs d)) d)))).

Definition links_of_program (id : Z) (d : db) : gset Z :=
  dom (filter (fun kv => lk_kernel_prog_id kv.2 = id) (db_links d)).

(** DELETE FROM managed_programs, cascading to links and shared map pins. *)
Definition delete_program (id : Z) (d : db) : Z * db :=
  match db_programs d !! id with
  | None => (0, d)
  | Some _ =>
      (1, set_shared_map_pins (filter (fun p => p.2 <> id) (db_shared_map_pins d))
            (set_programs (delete id (db_programs d)) (delete_links (links_of_program id d) d)))
  end.

Definition insert_map_set (id : Z) (row : mapSetRow) (d : db) : result (unit * db) :=
  check (bool_decide (db_map_sets d !! id = None))
    (Ok (tt, set_map_sets (<[id := row]> (db_map_sets d)) d)).

Definition map_set_users (id : Z) (d : db) : gmap Z programRow :=
  filter (fun kv => p_map_set_id kv.2 = id) (db_programs d).

(** DELETE FROM map_sets; restricted while a program refers to the set. *)
Definition delete_map_set (id : Z) (d : db) : result (Z * db) :=
  match db_map_sets d !! id with
  | None => Ok (0, d)
  | Some _ => check (bool_decide (map_set_users id d = ∅))
                (Ok (1, set_map_sets (delete id (db_map_sets d)) d))
  end.

(** INSERT OR IGNORE INTO shared_map_pins; IGNORE does not cover foreign keys. *)
Definition save_shared_map_pin (name : string) (id : Z) (d : db) : result (unit * db) :=
  check (bool_decide (is_Some (db_programs d !! id)))
    (Ok (tt, set_shared_map_pins ({[(name, id)]} ∪ db_shared_map_pins d) d)).

Definition delete_shared_map_pins (id : Z) (d : db) : db :=
  set_shared_map_pins (filter (fun p => p.2 <> id) (db_shared_map_pins d)) d.
