(* ===== verification/Store.v ===== *)
(** * The SQLite store's operations (platform/store/sqlite)

    The transaction runner of sqlite.go and the methods of dispatchers.go,
    links.go, programs.go and shared_map_pins.go, statement by statement over
    [StoreDb]. Debug logging is not recorded; cancellation of the context
    while a transaction waits to retry is not modelled. *)

From Stdlib Require Import ZArith Lia String.
From stdpp Require Import base tactics sets list gmap strings numbers sorting.
From S2P Require Import Prelude Actions Dispatcher Domain Slots Layout StoreDb.

Local Open Scope string_scope.
Local Open Scope list_scope.
Local Open Scope Z_scope.

(** ** Transactions (sqlite.go) *)

Definition isBusyError (e : error) : bool := errors_Is e ErrBusy.

(** BeginTx, the body, Commit; any error rolls the database back. *)
Definition runTransactionAttempt {A} (fn : M store A) : M store A :=
  fun s =>
    match driver s with
    | (Err e, s1) => (Err (Wrap "failed to begin transaction: %w" e), s1)
    | (Ok _, s1) =>
        let '(r, s2) := (let* a := fn in driver;;; ret a) (set_inTx true s1) in
        match r with
        | Ok a => (Ok a, set_inTx false s2)
        | Err e => (Err e, set_inTx false (set_db (st_db s) s2))
        end
    end.

(** The retry loop; [attempts] retries are left. *)
Fixpoint runInTx_loop {A} (fn : M store A) (attempts : nat) : M store A :=
  fun s =>
    match runTransactionAttempt fn s with
    | (Ok a, s') => (Ok a, s')
    | (Err e, s') =>
        match attempts with
        | S n => if isBusyError e then runInTx_loop fn n s' else (Err e, s')
        | O => (Err e, s')
        end
    end.

Definition runInTx {A} (fn : M store A) : M store A :=
  fun s => if st_inTx s then fn s else runInTx_loop fn (st_txRetryBackoffs s) s.

(** ** Dispatchers (dispatchers.go) *)

Definition scanDispatcherRuntime (r : dispatcherRow) : DispatcherRuntime :=
  mkDispatcherRuntime (dr_program_id r) (dr_kernel_link_id r) (uint16 <$> dr_priority r)
    (uint32 <$> dr_filter_handle r) (dr_netns r).

(** A member row joined with its link and its program. *)
Definition memberJoin : Type := memberRow * linkRow * programRow.

Definition join_member (d : db) (k : Key) (id : Z) (r : memberRow) : option memberJoin :=
  if at_point k r then
    l ← db_links d !! id; p ← db_programs d !! lk_kernel_prog_id l; Some (r, l, p)
  else None.

Definition joined (d : db) (k : Key) : gmap Z memberJoin :=
  map_imap (join_member d k) (member_table (KType k) d).

(** ORDER BY priority, program_name; the order of ties is not specified. *)
Definition member_order (x y : Z * memberJoin) : Prop :=
  mr_priority x.2.1.1 < mr_priority y.2.1.1 \/
  mr_priority x.2.1.1 = mr_priority y.2.1.1 /\
    String.le (p_program_name x.2.2) (p_program_name y.2.2).

#[export] Instance member_order_dec x y : Decision (member_order x y).
Proof. unfold member_order. apply _. Defined.

Definition get_members (k : Key) (d : db) : list (Z * memberJoin) :=
  merge_sort member_order (map_to_list (joined d k)).

(** metadata_json: the empty object reads back as nil. *)
Definition marshalLinkMetadata (m : gmap string string) : gmap string string := m.
Definition unmarshalLinkMetadata (m : gmap string string) : gmap string string := m.

Definition scan_member (k : Key) (x : Z * memberJoin) : result DispatcherMember :=
  let '(id, (r, l, p)) := x in
  let! mask := wrap_err "decode proceed_on for dispatcher member: %w"
                 (ProceedOnMask (KType k) (mr_proceed_on r)) in
  Ok (mkDispatcherMember (lk_kernel_prog_id l) (p_program_name p) (p_pin_path p) id
        (lk_kernel_link_id l) (default [] (lk_pin_path l)) (mr_position r) (mr_priority r) mask
        (mr_interface r) (unmarshalLinkMetadata (lk_metadata_json l))).

Definition GetDispatcherSnapshot (k : Key) : M store DispatcherSnapshot :=
  let* row := wrapping "get dispatcher snapshot: %w" (query (fun d => db_dispatchers d !! k)) in
  match row with
  | None => throw (Wrap "dispatcher (%s, %d, %d): %w" (Sentinel ErrRecordNotFound))
  | Some r =>
      let* rows := wrapping "get dispatcher snapshot members: %w" (query (get_members k)) in
      let* ms := lift (rmap (scan_member k) rows) in
      ret (mkDispatcherSnapshot k (dr_revision r) (scanDispatcherRuntime r) ms)
  end.

Definition count_members (d : db) (k : Key) : Z :=
  Z.of_nat (size (filter (fun kv => at_point k kv.2 = true) (member_table (KType k) d))).

Definition summary_of (d : db) (x : Key * dispatcherRow) : DispatcherSummary :=
  mkDispatcherSummary x.1 (dr_revision x.2) (scanDispatcherRuntime x.2) (count_members d x.1).

Definition ListDispatcherSummaries : M store (list DispatcherSummary) :=
  wrapping "list dispatcher summaries: %w"
    (query (fun d => summary_of d <$> map_to_list (db_dispatchers d))).

(** The mask as the JSON array of action codes the schema stores. *)
Definition proceedOnToJSON (dt : DispatcherType) (mask : Z) : result (list Z) := ProceedOnActions dt mask.

Definition member_row (k : Key) (rt : DispatcherRuntime) (sp : DispatcherMemberSpec) (codes : list Z)
    : memberRow :=
  mkMemberRow (ms_Ifname sp) (KIfindex k) (dispatcherDirection (KType k)) (ms_Priority sp)
    (ms_Position sp) codes (rt_NetnsPath rt) (KNsid k) (rt_ProgramID rt).

Definition ext_link_row (k : Key) (sp : DispatcherMemberSpec) (now : Z) : linkRow :=
  mkLinkRow (match KType k with DispatcherTypeXDP => "xdp" | _ => "tc" end) (ms_ProgramID sp)
    (ms_KernelLinkID sp) (NewLinkPath (ms_LinkPinPath sp)) (marshalLinkMetadata (ms_Metadata sp)) now.

(** One iteration of step 3: the link row, then its detail row. *)
Definition insert_ext (k : Key) (rt : DispatcherRuntime) (sp : DispatcherMemberSpec) : M store DispatcherMember :=
  let* now := gets st_now in
  let* idrow := wrapping "insert extension link: %w"
    (stmt (insert_link (ms_ExistingLinkID sp) (ext_link_row k sp now))) in
  let m := mkDispatcherMember (ms_ProgramID sp) (ms_ProgramName sp) (ms_ProgPinPath sp) (fst idrow)
             (ms_KernelLinkID sp) (ms_LinkPinPath sp) (ms_Position sp) (ms_Priority sp)
             (ms_ProceedOn sp) (ms_Ifname sp) (ms_Metadata sp) in
  let* codes := lift (wrap_err "marshal proceed_on for link %d: %w"
                        (proceedOnToJSON (KType k) (ms_ProceedOn sp))) in
  wrapping "insert detail for link %d: %w"
    (stmt (insert_member (KType k) (fst idrow) (member_row k rt sp codes)));;;
  ret m.

Fixpoint insert_exts (k : Key) (rt : DispatcherRuntime) (specs : list DispatcherMemberSpec)
    : M store (list DispatcherMember) :=
  match specs with
  | [] => ret []
  | sp :: specs' =>
      let* m := insert_ext k rt sp in
      let* ms := insert_exts k rt specs' in
      ret (m :: ms)
  end.

Definition replaceDispatcherSnapshot (snap : DispatcherSnapshotSpec) : M store DispatcherSnapshot :=
  let* now := gets st_now in
  let k := ss_Key snap in
  let rt := ss_Runtime snap in
  wrapping "delete old extension links: %w" (stmt (fun d => Ok (tt, delete_ext_links k d)));;;
  wrapping "upsert dispatcher: %w"
    (stmt (upsert_dispatcher k
       (mkDispatcherRow (ss_Revision snap) (rt_ProgramID rt) (rt_KernelLinkID rt) (rt_FilterPriority rt)
          (rt_FilterHandle rt) (rt_NetnsPath rt) now now)));;;
  let* ms := insert_exts k rt (ss_Members snap) in
  ret (mkDispatcherSnapshot k (ss_Revision snap) rt ms).

Definition ReplaceDispatcherSnapshot (snap : DispatcherSnapshotSpec) : M store DispatcherSnapshot :=
  runInTx (replaceDispatcherSnapshot snap).

Definition deleteDispatcherSnapshot (k : Key) : M store unit :=
  wrapping "delete extension links: %w" (stmt (fun d => Ok (tt, delete_ext_links k d)));;;
  let* affected := wrapping "delete dispatcher: %w" (stmt (delete_dispatcher k)) in
  if affected =? 0 then throw (Wrap "dispatcher (%s, %d, %d): %w" (Sentinel ErrRecordNotFound))
  else ret tt.

Definition DeleteDispatcherSnapshot (k : Key) : M store unit := runInTx (deleteDispatcherSnapshot k).

(** ** Links (links.go) *)

(** A row as a record without details; a missing row is ErrRecordNotFound. *)
Definition scanLinkRecord (id : Z) (row : option linkRow) : result LinkRecord :=
  match row with
  | None => Err (Sentinel ErrRecordNotFound)
  | Some l =>
      let! kind := wrap_err "invalid link kind in DB for link %d: %w" (ParseLinkKind (lk_kind l)) in
      Ok (mkLinkRecord id (lk_kernel_prog_id l) (lk_kernel_link_id l) kind (lk_pin_path l) None
            (lk_created_at l) (unmarshalLinkMetadata (lk_metadata_json l)))
  end.

Definition with_details (det : option LinkDetails) (r : LinkRecord) : LinkRecord :=
  mkLinkRecord (lr_ID r) (lr_ProgramID r) (lr_KernelLinkID r) (lr_Kind r) (lr_PinPath r) det
    (lr_CreatedAt r) (lr_Metadata r).

Definition DeleteLink (linkID : Z) : M store unit :=
  let* row := wrapping "check link kind: %w" (query (fun d => db_links d !! linkID)) in
  match row with
  | None => throw (Wrap "link %d: %w" (Sentinel ErrRecordNotFound))
  | Some l =>
      if String.eqb (lk_kind l) "xdp" || String.eqb (lk_kind l) "tc"
      then throw (Errorf "link %d is dispatcher-backed (%s): must be removed via DispatcherStore")
      else
        let* rows := wrapping "failed to delete link: %w"
          (stmt (fun d => Ok (if decide (is_Some (db_links d !! linkID)) then 1 else 0,
                              delete_links {[linkID]} d))) in
        if rows =? 0 then throw (Wrap "link %d: %w" (Sentinel ErrRecordNotFound)) else ret tt
  end.

Definition insertLinkRegistry (spec : LinkSpec) : M store LinkRecord :=
  let* now := gets st_now in
  let* idrow := wrapping "failed to insert link: %w"
    (stmt (insert_link None
       (mkLinkRow (lsp_Kind spec) (lsp_ProgramID spec) (lsp_KernelLinkID spec) (lsp_PinPath spec)
          (marshalLinkMetadata (lsp_Metadata spec)) now))) in
  let* r := lift (wrap_err "failed to insert link: %w" (scanLinkRecord (fst idrow) (Some (snd idrow)))) in
  ret (with_details (lsp_Details spec) r).

(** A TCX row has no position column. *)
Definition tcx_row (t : TCXDetails) : TCXDetails :=
  mkTCXDetails (txd_Interface t) (txd_Ifindex t) (txd_Direction t) (txd_Priority t) 0 (txd_Netns t)
    (txd_Nsid t).

Definition saveDetails (id : Z) (det : LinkDetails) : M store unit :=
  match det with
  | DTracepoint _ => wrapping "failed to insert Tracepoint details: %w" (stmt (insert_details TTracepoint id det))
  | DKprobe _ => wrapping "failed to insert Kprobe details: %w" (stmt (insert_details TKprobe id det))
  | DUprobe _ => wrapping "failed to insert Uprobe details: %w" (stmt (insert_details TUprobe id det))
  | DFentry _ => wrapping "failed to insert Fentry details: %w" (stmt (insert_details TFentry id det))
  | DFexit _ => wrapping "failed to insert Fexit details: %w" (stmt (insert_details TFexit id det))
  | DXDP x => wrapping "failed to insert XDP details: %w"
      (stmt (insert_member DispatcherTypeXDP id
         (mkMemberRow (xdd_Interface x) (xdd_Ifindex x) "" (xdd_Priority x) (xdd_Position x)
            (xdd_ProceedOn x) (xdd_Netns x) (xdd_Nsid x) (xdd_DispatcherID x))))
  | DTC x => wrapping "failed to insert TC details: %w"
      (stmt (insert_member DispatcherTypeTCIngress id
         (mkMemberRow (tcd_Interface x) (tcd_Ifindex x) (tcd_Direction x) (tcd_Priority x)
            (tcd_Position x) (tcd_ProceedOn x) (tcd_Netns x) (tcd_Nsid x) (tcd_DispatcherID x))))
  | DTCX t => wrapping "failed to insert TCX details: %w" (stmt (insert_details TTCX id (DTCX (tcx_row t))))
  end.

Definition createLink (spec : LinkSpec) : M store LinkRecord :=
  if String.eqb (lsp_Kind spec) LinkKindXDP || String.eqb (lsp_Kind spec) LinkKindTC
  then throw (Errorf "%s links are dispatcher-backed; use ReplaceDispatcherSnapshot")
  else
    let* record := insertLinkRegistry spec in
    match lsp_Details spec with
    | None => ret record
    | Some det => saveDetails (lr_ID record) det;;; ret (with_details (lsp_Details spec) record)
    end.

Definition CreateLink (spec : LinkSpec) : M store LinkRecord := runInTx (createLink spec).

(** UPDATE ... RETURNING followed by the row scan. *)
Definition update_returning (f : linkRow -> linkRow) (id : Z) : M store LinkRecord :=
  let* row := stmt (update_link f id) in lift (scanLinkRecord id row).

Definition set_pin (p : path) (l : linkRow) : linkRow :=
  mkLinkRow (lk_kind l) (lk_kernel_prog_id l) (lk_kernel_link_id l) (Some p) (lk_metadata_json l)
    (lk_created_at l).
Definition set_klink (k : option Z) (l : linkRow) : linkRow :=
  mkLinkRow (lk_kind l) (lk_kernel_prog_id l) k (lk_pin_path l) (lk_metadata_json l) (lk_created_at l).

Definition setLinkPinPath (id : Z) (linksDir : path) : M store LinkRecord :=
  wrapping "failed to set link pin path: %w"
    (update_returning (set_pin (linksDir ++ [FormatUint (uint64 id)])) id).

Definition CreatePendingLink (spec : LinkSpec) (linksDir : path) : M store LinkRecord :=
  let* record := runInTx (let* created := createLink spec in setLinkPinPath (lr_ID created) linksDir) in
  ret (with_details (lsp_Details spec) record).

Definition FinaliseLink (linkID : Z) (kernelLinkID : option Z) : M store LinkRecord :=
  fun s => match update_returning (set_klink kernelLinkID) linkID s with
           | (Ok r, s') => (Ok r, s')
           | (Err e, s') => (Err (Wrap "failed to finalise link: %w" e), s')
           end.

(** Rows that precede a TCX row in its chain: smaller priority, then smaller ID. *)
Definition tcx_rows (d : db) : list (Z * TCXDetails) :=
  omap (fun kv : DetailsType * Z * LinkDetails =>
          match kv with ((TTCX, id), DTCX t) => Some (id, t) | _ => None end)
    (map_to_list (db_details d)).

Definition tcx_before (id : Z) (t : TCXDetails) (x : Z * TCXDetails) : bool :=
  (txd_Nsid x.2 =? txd_Nsid t) && (txd_Ifindex x.2 =? txd_Ifindex t) &&
  String.eqb (txd_Direction x.2) (txd_Direction t) &&
  ((txd_Priority x.2 <? txd_Priority t) || ((txd_Priority x.2 =? txd_Priority t) && (x.1 <? id))).

Definition tcx_position (d : db) (id : Z) (t : TCXDetails) : Z :=
  Z.of_nat (length (List.filter (tcx_before id t) (tcx_rows d))).

Definition scan_tcx (d : db) (id : Z) (t : TCXDetails) : result LinkDetails :=
  let! dir := wrap_err "invalid tcx direction in DB for link %d: %w" (ParseTCDirection (txd_Direction t)) in
  Ok (DTCX (mkTCXDetails (txd_Interface t) (txd_Ifindex t) dir (txd_Priority t) (tcx_position d id t)
              (txd_Netns t) (txd_Nsid t))).

(** JOIN dispatchers ON dispatcher_program_id = program_id *)
Definition dispatcher_revision (d : db) (pid : Z) : option Z :=
  match List.find (fun x => dr_program_id x.2 =? pid) (map_to_list (db_dispatchers d)) with
  | Some x => Some (dr_revision x.2)
  | None => None
  end.

Definition scan_xdp (d : db) (r : memberRow) : option LinkDetails :=
  rev ← dispatcher_revision d (mr_dispatcher_program_id r);
  Some (DXDP (mkXDPDetails (mr_interface r) (mr_ifindex r) (mr_priority r) (mr_position r)
                (mr_proceed_on r) (mr_netns r) (mr_nsid r) (mr_dispatcher_program_id r) rev)).

Definition scan_tc (d : db) (r : memberRow) : option (result LinkDetails) :=
  rev ← dispatcher_revision d (mr_dispatcher_program_id r);
  Some (let! dir := wrap_err "invalid tc direction in DB for link %d: %w" (ParseTCDirection (mr_direction r)) in
        Ok (DTC (mkTCDetails (mr_interface r) (mr_ifindex r) dir (mr_priority r) (mr_position r)
                   (mr_proceed_on r) (mr_netns r) (mr_nsid r) (mr_dispatcher_program_id r) rev))).

(** The row of one detail table for a link, as details. *)
Definition read_details (t : DetailsType) (id : Z) (d : db) : option (result LinkDetails) :=
  match t with
  | TXDP => r ← db_xdp d !! id; det ← scan_xdp d r; Some (Ok det)
  | TTC => r ← db_tc d !! id; scan_tc d r
  | TTCX => match db_details d !! (TTCX, id) with
            | Some (DTCX t) => Some (scan_tcx d id t)
            | _ => None
            end
  | _ => det ← db_details d !! (t, id); Some (Ok det)
  end.

Definition getLinkDetails (kind : string) (linkID : Z) : M store LinkDetails :=
  match newLinkDetails kind with
  | None => throw (Errorf "unknown link kind: %s")
  | Some t =>
      let* row := query (read_details t linkID) in
      match row with
      | None => throw (Wrap "%s details for %d: %w" (Sentinel ErrRecordNotFound))
      | Some r => lift r
      end
  end.

Definition GetLink (linkID : Z) : M store LinkRecord :=
  let* row := query (fun d => db_links d !! linkID) in
  let* record := lift (scanLinkRecord linkID row) in
  let* det := getLinkDetails (lr_Kind record) (lr_ID record) in
  ret (with_details (Some det) record).

(** The eight batch queries, in the source's order. *)
Definition detail_batches : list DetailsType :=
  [TTracepoint; TKprobe; TUprobe; TFentry; TFexit; TXDP; TTC; TTCX].

Definition batchPopulateDetails (t : DetailsType) (links : list LinkRecord) : M store (list LinkRecord) :=
  let* rows := wrapping "batch fetch %s details: %w"
    (query (fun d => (fun l => (l, read_details t (lr_ID l) d)) <$> links)) in
  lift (rmap (fun x : LinkRecord * option (result LinkDetails) =>
                match snd x with
                | None => Ok (fst x)
                | Some (Ok det) => Ok (with_details (Some det) (fst x))
                | Some (Err e) => Err (Wrap "scan %s details: %w" e)
                end) rows).

Fixpoint populate (ts : list DetailsType) (links : list LinkRecord) : M store (list LinkRecord) :=
  match ts with
  | [] => ret links
  | t :: ts' => let* links' := batchPopulateDetails t links in populate ts' links'
  end.

Definition populateLinkDetails (links : list LinkRecord) : M store (list LinkRecord) :=
  match links with [] => ret [] | _ => populate detail_batches links end.

Definition list_links (P : linkRow -> bool) : M store (list LinkRecord) :=
  let* rows := query (fun d => map_to_list (filter (fun kv => P kv.2 = true) (db_links d))) in
  let* records := lift (rmap (fun x => scanLinkRecord (fst x) (Some (snd x))) rows) in
  populateLinkDetails records.

Definition ListLinks : M store (list LinkRecord) := list_links (fun _ => true).
Definition ListLinksByProgram (programID : Z) : M store (list LinkRecord) :=
  list_links (fun l => lk_kernel_prog_id l =? programID).

Definition tcx_order (x y : Z * TCXDetails) : Prop :=
  txd_Priority x.2 < txd_Priority y.2 \/ txd_Priority x.2 = txd_Priority y.2 /\ x.1 <= y.1.

#[export] Instance tcx_order_dec x y : Decision (tcx_order x y).
Proof. unfold tcx_order. apply _. Defined.

(** Scanning a NULL kernel_link_id into an int64 is an error. *)
Definition scan_tcx_info (d : db) (x : Z * TCXDetails) : result TCXLinkInfo :=
  match db_links d !! x.1 with
  | Some l =>
      match lk_kernel_link_id l with
      | Some k => Ok (mkTCXLinkInfo x.1 k (lk_kernel_prog_id l) (txd_Priority x.2))
      | None => Err (Errorf "scan TCX link info: converting NULL to int64")
      end
  | None => Err (Errorf "scan TCX link info")
  end.

Definition ListTCXLinksByInterface (nsid ifindex : Z) (direction : string) : M store (list TCXLinkInfo) :=
  let* r := query (fun d =>
    rmap (scan_tcx_info d)
      (merge_sort tcx_order
         (List.filter (fun x => (txd_Nsid x.2 =? nsid) && (txd_Ifindex x.2 =? ifindex) &&
                                String.eqb (txd_Direction x.2) direction &&
                                bool_decide (is_Some (db_links d !! x.1))) (tcx_rows d)))) in
  lift r.

(** ** Programs and map sets (programs.go) *)

Definition buildProgramRecord (id : Z) (row : programRow) (mapPinPath : path) : result ProgramRecord :=
  let! programType := wrap_err "invalid program type: %q: %w" (ParseProgramType (p_program_type row)) in
  let! img :=
    match p_image_source row with
    | None => Ok ("", "", "")
    | Some i => if ImagePullPolicy_Valid (is_PullPolicy i)
                then Ok (is_URL i, is_Digest i, is_PullPolicy i)
                else Err (Errorf "invalid image pull policy in image_source for program %q")
    end in
  let '(url, digest, policy) := img in
  Ok (mkProgramRecord id
        (WithAttachFunc (default "" (p_attach_func row))
           (WithImageProvenance url digest policy
              (WithGlobalData (p_global_data row)
                 (WithProgramType programType
                    (WithProgramName (p_program_name row)
                       (WithSourcePath (default "" (p_source_path row))
                          (WithObjectPath (p_object_path row) zeroLoadSpec)))))))
        (default "" (p_license row)) (p_gpl_compatible row)
        (mkProgramHandles (p_pin_path row) mapPinPath
           (if p_map_set_id row =? id then None else Some (p_map_set_id row)))
        (mkProgramMeta (p_program_name row) (default "" (p_owner row)) (default "" (p_description row))
           (p_metadata_json row))
        (p_created_at row) (p_updated_at row)).

(** The JOIN with map_sets. *)
Definition program_join (d : db) (id : Z) : option (programRow * path) :=
  row ← db_programs d !! id; ms ← db_map_sets d !! p_map_set_id row; Some (row, ms_pin_path ms).

Definition Get (programID : Z) : M store ProgramRecord :=
  let* row := query (fun d => program_join d programID) in
  match row with
  | None => throw (Sentinel ErrRecordNotFound)
  | Some (r, pin) => lift (buildProgramRecord programID r pin)
  end.

Definition programRecordExists (programID : Z) : M store bool :=
  query (fun d => bool_decide (is_Some (db_programs d !! programID))).

Definition MapSetExists (mapSetID : Z) : M store bool :=
  query (fun d => bool_decide (is_Some (db_map_sets d !! mapSetID))).

(** Insert-only: a collision is reported as a reused map set ID. *)
Definition insertSelfOwnedMapSet (programID : Z) (metadata : ProgramRecord) : M store unit :=
  fun s =>
    match stmt (insert_map_set programID
                  (mkMapSetRow (ph_MapsDir (pr_Handles metadata)) (pr_CreatedAt metadata))) s with
    | (Ok _, s') => (Ok tt, s')
    | (Err e, s') =>
        match MapSetExists programID s' with
        | (Ok true, s'') => (Err (Wrap "create map set %d: %w" (Sentinel ErrMapSetIDReused)), s'')
        | (_, s'') => (Err (Wrap "create map set %d: %w" e), s'')
        end
    end.

Definition program_row (metadata : ProgramRecord) (mapSetID : Z) : programRow :=
  let load := pr_Load metadata in
  mkProgramRow (pm_Name (pr_Meta metadata)) (programType load) (objectPath load)
    (nonempty (sourcePath load)) (ph_PinPath (pr_Handles metadata)) (nonempty (attachFunc load))
    (globalData load) mapSetID
    (if HasImageSource load
     then Some (mkImageSourceJSON (imageURL load) (imageDigest load) (imagePullPolicy load)) else None)
    (nonempty (pm_Owner (pr_Meta metadata))) (nonempty (pm_Description (pr_Meta metadata)))
    (nonempty (pr_License metadata)) (pr_GPLCompatible metadata) (pm_Metadata (pr_Meta metadata))
    (pr_CreatedAt metadata) (pr_UpdatedAt metadata).

Definition Save (programID : Z) (metadata : ProgramRecord) : M store unit :=
  let* mapSetID :=
    match ph_MapOwnerID (pr_Handles metadata) with
    | Some owner => ret owner
    | None =>
        let* exists_ := programRecordExists programID in
        (if (exists_ : bool) then ret tt else insertSelfOwnedMapSet programID metadata);;;
        ret programID
    end in
  wrapping "failed to insert program: %w" (stmt (save_program programID (program_row metadata mapSetID))).

Definition Delete (programID : Z) : M store unit :=
  let* rows := stmt (fun d => Ok (delete_program programID d)) in
  if rows =? 0 then throw (Wrap "program %d: %w" (Sentinel ErrRecordNotFound)) else ret tt.

Definition List_ : M store (gmap Z ProgramRecord) :=
  let* rows := query (fun d => omap (fun x : Z * programRow =>
                                match program_join d x.1 with
                                | Some (r, pin) => Some (x.1, r, pin) | None => None end)
                              (map_to_list (db_programs d))) in
  let* records := lift (rmap (fun x : Z * programRow * path =>
      let '(id, r, pin) := x in let! p := buildProgramRecord id r pin in Ok (id, p)) rows) in
  ret (list_to_map records).

Definition CountMapSets : M store Z := query (fun d => Z.of_nat (size (db_map_sets d))).
Definition CountMapSetUsers (id : Z) : M store Z := query (fun d => Z.of_nat (size (map_set_users id d))).
Definition ListMapSetUsers (id : Z) : M store (list Z) :=
  query (fun d => merge_sort Z.le (fst <$> map_to_list (map_set_users id d))).

Definition DeleteMapSet (id : Z) : M store unit :=
  let* rows := stmt (delete_map_set id) in
  if rows =? 0 then throw (Wrap "map set %d: %w" (Sentinel ErrRecordNotFound)) else ret tt.

(** ** Shared map pins (shared_map_pins.go) *)

Definition SaveSharedMapPins (programID : Z) (mapNames : list string) : M store unit :=
  for_each mapNames (fun name =>
    wrapping "save shared map pin (%s, %d): %w" (stmt (save_shared_map_pin name programID))).

Definition listSharedMapsByProgram (programID : Z) : M store (list string) :=
  wrapping "list shared maps for program %d: %w"
    (query (fun d => fst <$> elements (filter (fun p => p.2 = programID) (db_shared_map_pins d)))).

Definition count_shared_refs (name : string) (d : db) : nat :=
  size (filter (fun p => p.1 = name) (db_shared_map_pins d)).

Fixpoint orphaned_maps (names : list string) : M store (list string) :=
  match names with
  | [] => ret []
  | n :: names' =>
      let* count := wrapping "count refs for shared map %q: %w" (query (count_shared_refs n)) in
      let* rest := orphaned_maps names' in
      ret (if Nat.eqb count 0 then n :: rest else rest)
  end.

Definition DeleteSharedMapPins (programID : Z) : M store (list string) :=
  let* mapNames := listSharedMapsByProgram programID in
  match mapNames with
  | [] => ret []
  | _ =>
      wrapping "delete shared map pins for program %d: %w"
        (stmt (fun d => Ok (tt, delete_shared_map_pins programID d)));;;
      orphaned_maps mapNames
  end.

Definition ListReferencedSharedMaps : M store (list string) :=
  wrapping "list referenced shared maps: %w"
    (query (fun d => elements (set_map fst (db_shared_map_pins d) : gset string))).
