(* ===== verification/StoreTx.v ===== *)
(** * Transactions and the schema invariant

    What the transaction runner guarantees about any body, and the invariant
    the schema maintains ([db_ok]): detail rows belong to links, links to
    programs, programs to map sets; no link has rows in both member tables;
    the AUTOINCREMENT counter bounds the link IDs. *)

From Stdlib Require Import ZArith Lia String.
From stdpp Require Import base tactics sets list gmap strings numbers sorting.
From S2P Require Import Prelude Actions Dispatcher Domain Slots Layout StoreDb Store.

Local Open Scope string_scope.
Local Open Scope list_scope.
Local Open Scope Z_scope.

(** ** Transactions *)

Lemma driver_frame s r s' :
  driver s = (r, s') ->
  st_db s' = st_db s /\ st_now s' = st_now s /\ st_inTx s' = st_inTx s /\
  st_txRetryBackoffs s' = st_txRetryBackoffs s.
Proof. unfold driver. repeat case_match; intros; by simplify_eq. Qed.

Lemma stmt_ok {A} (f : db -> result (A * db)) s a s' :
  stmt f s = (Ok a, s') ->
  exists d, f (st_db s) = Ok (a, d) /\ st_db s' = d /\ st_now s' = st_now s /\ st_inTx s' = st_inTx s.
Proof.
  unfold stmt. intros H. step_ok H u s1 E. apply driver_frame in E as (E1 & E2 & E3 & _).
  rewrite E1 in H. destruct (f (st_db s)) as [[a' d]|e]; simplify_eq. exists d. done.
Qed.

Lemma stmt_err {A} (f : db -> result (A * db)) s e s' :
  stmt f s = (Err e, s') -> st_db s' = st_db s /\ st_inTx s' = st_inTx s.
Proof.
  unfold stmt. intros H. step_err H u s1 E.
  - apply driver_frame in H as (? & _ & ? & _). done.
  - apply driver_frame in E as (E1 & _ & E2 & _). rewrite E1 in H.
    destruct (f (st_db s)) as [[a' d]|]; simplify_eq. done.
Qed.

Lemma query_ok {A} (f : db -> A) s a s' :
  query f s = (Ok a, s') -> a = f (st_db s) /\ st_db s' = st_db s /\ st_inTx s' = st_inTx s.
Proof. unfold query. intros (d & Hd & <- & _ & ?)%stmt_ok. by simplify_eq. Qed.

Lemma attempt_err {A} (fn : M store A) s e s' :
  st_inTx s = false -> runTransactionAttempt fn s = (Err e, s') ->
  st_db s' = st_db s /\ st_inTx s' = false.
Proof.
  intros Htx. unfold runTransactionAttempt. destruct (driver s) as [[[]|e1] s1] eqn:E.
  - destruct (bind _ _ _) as [[a|e2] s2]; intros; by simplify_eq.
  - intros; simplify_eq. apply driver_frame in E as (? & _ & ? & _). by split; congruence.
Qed.

Lemma attempt_ok {A} (fn : M store A) s a s' :
  runTransactionAttempt fn s = (Ok a, s') ->
  exists s1 s2, st_db s1 = st_db s /\ st_inTx s1 = true /\ st_now s1 = st_now s /\
    fn s1 = (Ok a, s2) /\ st_db s' = st_db s2 /\ st_inTx s' = false.
Proof.
  unfold runTransactionAttempt. destruct (driver s) as [[[]|e1] s1] eqn:E; [|done].
  destruct (bind _ _ _) as [[a'|e2] s3] eqn:E2; [|done]. intros; simplify_eq.
  apply driver_frame in E as (Hd & Hn & _). exists (set_inTx true s1).
  apply bind_ok in E2 as (a2 & s2 & Hfn & H2). exists s2. unfold ret in H2.
  step_ok H2 u s4 E4. apply driver_frame in E4 as (E4 & _). simplify_eq. by rewrite <- E4.
Qed.

Lemma loop_err {A} (fn : M store A) n : forall s e s',
  st_inTx s = false -> runInTx_loop fn n s = (Err e, s') -> st_db s' = st_db s /\ st_inTx s' = false.
Proof.
  induction n as [|n IH]; intros s e s' Htx; cbn [runInTx_loop];
    destruct (runTransactionAttempt fn s) as [[a|e1] s1] eqn:E; intros; simplify_eq;
    pose proof (attempt_err _ _ _ _ Htx E) as [Hd Ht]; [done|].
  case_match; simplify_eq; [|done]. destruct (IH s1 e s' Ht H) as [-> ?]. done.
Qed.

Lemma loop_ok {A} (fn : M store A) n : forall s a s',
  st_inTx s = false -> runInTx_loop fn n s = (Ok a, s') ->
  exists s1 s2, st_db s1 = st_db s /\ st_inTx s1 = true /\
    fn s1 = (Ok a, s2) /\ st_db s' = st_db s2 /\ st_inTx s' = false.
Proof.
  induction n as [|n IH]; intros s a s' Htx; cbn [runInTx_loop];
    destruct (runTransactionAttempt fn s) as [[a1|e1] s1] eqn:E; intros H; simplify_eq;
    try (apply attempt_ok in E as (x1 & x2 & ? & ? & _ & ? & ? & ?); by exists x1, x2).
  pose proof (attempt_err _ _ _ _ Htx E) as [Hd Ht]. case_match; [|done].
  destruct (IH _ _ _ Ht H) as (x1 & x2 & Hx & ?). exists x1, x2. by rewrite Hx.
Qed.

(** A failed transaction changes nothing; a successful one is the effect of
    one complete run of its body on the original database. *)
Lemma runInTx_err {A} (fn : M store A) s e s' :
  st_inTx s = false -> runInTx fn s = (Err e, s') -> st_db s' = st_db s /\ st_inTx s' = false.
Proof. intros Htx. unfold runInTx. rewrite Htx. by apply loop_err. Qed.

Lemma runInTx_ok {A} (fn : M store A) s a s' :
  st_inTx s = false -> runInTx fn s = (Ok a, s') ->
  exists s1 s2, st_db s1 = st_db s /\ st_inTx s1 = true /\
    fn s1 = (Ok a, s2) /\ st_db s' = st_db s2 /\ st_inTx s' = false.
Proof. intros Htx. unfold runInTx. rewrite Htx. by apply loop_ok. Qed.

(** ** The schema invariant *)

(** A UNIQUE index on the value [f] gives for a row; rows with NULL there do
    not take part. *)
Definition unique_key {I A B} `{Countable I} (f : A -> option B) (t : gmap I A) : Prop :=
  forall i j x y b, t !! i = Some x -> t !! j = Some y -> f x = Some b -> f y = Some b -> i = j.

Lemma unique_key_sub {I A B} `{Countable I} (f : A -> option B) (t t' : gmap I A) :
  t' ⊆ t -> unique_key f t -> unique_key f t'.
Proof. intros Hs Hu i j x y b Hi Hj. apply (Hu i j x y b); by eapply lookup_weaken. Qed.

Lemma unique_key_insert {I A B} `{Countable I} (f : A -> option B) (t : gmap I A) i x :
  unique_key f t -> (forall j y b, j <> i -> t !! j = Some y -> f x = Some b -> f y <> Some b) ->
  unique_key f (<[i := x]> t).
Proof.
  intros Hu Hx j k y z b Hj Hk Hy Hz.
  apply lookup_insert_Some in Hj as [[<- <-]|[Hji Hj]], Hk as [[<- <-]|[Hki Hk]]; [done| | |by eapply Hu].
  - by destruct (Hx k z b (not_eq_sym Hki) Hk Hy).
  - by destruct (Hx j y b (not_eq_sym Hji) Hj Hz).
Qed.

Lemma map_Forall_sub {I A} `{Countable I} (P : I -> A -> Prop) (t t' : gmap I A) :
  t' ⊆ t -> map_Forall P t -> map_Forall P t'.
Proof. intros Hs Hp i x Hi. apply Hp. by eapply lookup_weaken. Qed.

Definition tc_directions : list string := ["ingress"; "egress"].

Lemma TCDirection_Valid_in d : TCDirection_Valid d = true -> d ∈ tc_directions.
Proof. intros [->%String.eqb_eq| ->%String.eqb_eq]%orb_true_iff; [left|right; left]. Qed.

(** The unique keys, the members' foreign key and the checks of the tables of
    links, details, members and dispatchers. *)
Record keys_ok (links : gmap Z linkRow) (details : gmap (DetailsType * Z) LinkDetails)
    (xdp tc : gmap Z memberRow) (disps : gmap Key dispatcherRow) : Prop := {
  key_kernel_link : unique_key lk_kernel_link_id links;
  key_pin_path : unique_key lk_pin_path links;
  key_dispatcher_program : unique_key (fun r => Some (dr_program_id r)) disps;
  key_xdp_position : unique_key (fun r => Some (mr_nsid r, mr_ifindex r, mr_position r)) xdp;
  key_tc_position : unique_key (fun r => Some (mr_nsid r, mr_ifindex r, mr_direction r, mr_position r)) tc;
  (* link_xdp_details and link_tc_details *)
  key_members : forall id r, xdp !! id = Some r \/ tc !! id = Some r ->
    0 <= mr_priority r /\ 0 <= mr_position r <= 9 /\
    exists k row, disps !! k = Some row /\ dr_program_id row = mr_dispatcher_program_id r;
  key_tc_direction : map_Forall (fun _ r => mr_direction r ∈ tc_directions) tc;
  key_details : map_Forall (fun _ det => match det with
      | DKprobe k => 0 <= kpd_Offset k
      | DUprobe u => 0 <= upd_Offset u
      | DTCX t => txd_Direction t ∈ tc_directions /\ 0 <= txd_Priority t
      | _ => True
      end) details;
  key_dispatchers : map_Forall (fun k r =>
      (forall p, dr_priority r = Some p -> 0 <= p) /\ (forall h, dr_filter_handle r = Some h -> 0 <= h) /\
      (is_Some (dr_kernel_link_id r) <-> KType k = DispatcherTypeXDP) /\
      (is_Some (dr_priority r) <-> KType k <> DispatcherTypeXDP) /\
      (is_Some (dr_filter_handle r) <-> KType k <> DispatcherTypeXDP)) disps;
}.

Record db_ok (d : db) : Prop := {
  ok_xdp : dom (db_xdp d) ⊆ dom (db_links d);
  ok_tc : dom (db_tc d) ⊆ dom (db_links d);
  ok_disjoint : dom (db_xdp d) ## dom (db_tc d);
  ok_details : forall t id det, db_details d !! (t, id) = Some det -> id ∈ dom (db_links d);
  ok_links : map_Forall (fun id l => id <= db_link_seq d /\ lk_kind l ∈ allLinkKinds /\
               is_Some (db_programs d !! lk_kernel_prog_id l)) (db_links d);
  ok_programs : map_Forall (fun _ p => is_Some (db_map_sets d !! p_map_set_id p) /\
               p_program_type p ∈ allProgramTypes /\ image_check (p_image_source p) = true)
               (db_programs d);
  ok_shared : forall n id, (n, id) ∈ db_shared_map_pins d -> is_Some (db_programs d !! id);
  ok_dispatchers : map_Forall (fun k r => in_uint32 (dr_revision r) /\ 1 <= dr_revision r /\
               KType k <> DispatcherTypeZero) (db_dispatchers d);
  ok_keys : keys_ok (db_links d) (db_details d) (db_xdp d) (db_tc d) (db_dispatchers d);
}.

Lemma check_ok {A} b (k : result A) x : check b k = Ok x -> b = true /\ k = Ok x.
Proof. unfold check. by destruct b. Qed.

(** Peel the constraint checks of a statement. *)
Ltac checks H :=
  repeat match type of H with check _ _ = Ok _ =>
    let Hc := fresh "Hc" in apply check_ok in H as [Hc H] end;
  simplify_eq.

(** ** Deletion of links, with its cascades *)

Lemma delete_links_lookup ids d id :
  db_links (delete_links ids d) !! id = (if decide (id ∈ ids) then None else db_links d !! id).
Proof.
  cbn. case_decide as Hin; [apply map_lookup_filter_None; right; intros x _ Hx; by apply Hx|].
  destruct (db_links d !! id) eqn:E.
  - apply map_lookup_filter_Some. done.
  - apply map_lookup_filter_None. by left.
Qed.

Lemma filter_notin_lookup {V} (m : gmap Z V) (ids : gset Z) id :
  filter (fun kv => kv.1 ∉ ids) m !! id = (if decide (id ∈ ids) then None else m !! id).
Proof.
  case_decide as Hin; [apply map_lookup_filter_None; right; intros x _ Hx; by apply Hx|].
  destruct (m !! id) eqn:E.
  - apply map_lookup_filter_Some. done.
  - apply map_lookup_filter_None. by left.
Qed.

Lemma dom_filter_notin {V} (m : gmap Z V) (ids : gset Z) :
  dom (filter (fun kv => kv.1 ∉ ids) m) = dom m ∖ ids.
Proof.
  apply set_eq. intros id. rewrite elem_of_difference, !elem_of_dom, filter_notin_lookup.
  case_decide; [|tauto]. split; [by intros []|tauto].
Qed.

Lemma keys_ok_empty : keys_ok ∅ ∅ ∅ ∅ ∅.
Proof.
  split; try apply map_Forall_empty; try (intros i j x y b; by rewrite lookup_empty).
  intros id r [E|E]; by rewrite lookup_empty in E.
Qed.

(** Fewer rows of the referring tables, or of links, keep the keys. *)
Lemma keys_ok_sub links details xdp tc disps links' details' xdp' tc' :
  keys_ok links details xdp tc disps ->
  links' ⊆ links -> details' ⊆ details -> xdp' ⊆ xdp -> tc' ⊆ tc -> keys_ok links' details' xdp' tc' disps.
Proof.
  intros [K1 K2 K3 K4 K5 K6 K7 K8 K9] Hl Hd Hx Ht.
  split; try done; try (eapply unique_key_sub; [eassumption|done]); try (eapply map_Forall_sub; [eassumption|done]).
  intros id r Hr. apply (K6 id r). destruct Hr as [Hr|Hr]; [left|right]; by eapply lookup_weaken.
Qed.

Lemma delete_links_ok ids d : db_ok d -> db_ok (delete_links ids d).
Proof.
  intros [H1 H2 H3 H4 H5 H6 H7 H8 H9]. split; cbn; rewrite ?dom_filter_notin; try done; try (clear -H1 H2 H3; set_solver).
  - intros t id det [Hl Hn]%map_lookup_filter_Some. cbn in Hn. apply H4 in Hl. set_solver.
  - intros id l [Hl _]%map_lookup_filter_Some. by apply H5 in Hl.
  - eapply keys_ok_sub; [exact H9|apply map_filter_subseteq..].
Qed.

Lemma link_key_free_spec klink pin links :
  link_key_free klink pin links = true ->
  forall id l, links !! id = Some l ->
    (forall n, klink = Some n -> lk_kernel_link_id l <> Some n) /\ (forall p, pin = Some p -> lk_pin_path l <> Some p).
Proof.
  intros Hf%bool_decide_eq_true id l Hl. destruct (Hf id l Hl) as [H1 H2].
  split; intros x -> Hx; [destruct H1|destruct H2]; congruence.
Qed.

Lemma keys_ok_link links details xdp tc disps i row :
  keys_ok links details xdp tc disps ->
  link_key_free (lk_kernel_link_id row) (lk_pin_path row) (delete i links) = true ->
  keys_ok (<[i := row]> links) details xdp tc disps.
Proof.
  intros [K1 K2 K3 K4 K5 K6 K7 K8 K9] Hf. split; try done; (apply unique_key_insert; [done|]);
    intros j y b Hj Hy Hb; assert (Hy' : delete i links !! j = Some y) by (by rewrite lookup_delete_ne by done);
    destruct (link_key_free_spec _ _ _ Hf j y Hy') as [Hn Hp]; auto.
Qed.

(** ** Insertions and updates *)

Lemma insert_link_spec id row d i row' d' :
  insert_link id row d = Ok (i, row', d') ->
  row' = row /\ i = default (db_link_seq d + 1) id /\ db_links d !! i = None /\
  lk_kind row ∈ allLinkKinds /\ is_Some (db_programs d !! lk_kernel_prog_id row) /\
  link_key_free (lk_kernel_link_id row) (lk_pin_path row) (db_links d) = true /\
  d' = set_links (<[i := row]> (db_links d)) (Z.max (db_link_seq d) i) d.
Proof.
  unfold insert_link. intros H. checks H.
  repeat match goal with Hb : bool_decide _ = true |- _ => apply bool_decide_eq_true in Hb end. done.
Qed.

Definition no_details (id : Z) (d : db) : Prop :=
  (id ∉ dom (db_xdp d)) /\ (id ∉ dom (db_tc d)) /\ (forall t, db_details d !! (t, id) = None).

Lemma fresh_no_details d id : db_ok d -> db_links d !! id = None -> no_details id d.
Proof.
  intros [H1 H2 _ H4 _ _ _ _ _] Hn. apply not_elem_of_dom in Hn.
  split; [set_solver|]. split; [set_solver|]. intros t.
  destruct (db_details d !! (t, id)) eqn:E; [|done]. by apply H4 in E.
Qed.

Lemma insert_link_ok id row d i row' d' :
  db_ok d -> insert_link id row d = Ok (i, row', d') -> db_ok d' /\ no_details i d'.
Proof.
  intros Hok (-> & Hi & Hn & Hk & Hp & Hf & ->)%insert_link_spec.
  pose proof (fresh_no_details _ _ Hok Hn) as Hnd. split; [|exact Hnd].
  destruct Hok as [H1 H2 H3 H4 H5 H6 H7 H8 H9]. split; cbn; try done; rewrite ?dom_insert_L.
  - set_solver.
  - set_solver.
  - intros t x det Hx. apply H4 in Hx. set_solver.
  - apply map_Forall_insert_2; [split; [lia|done]|].
    eapply map_Forall_impl; [exact H5|]. intros x l (? & ? & ?). split; [lia|done].
  - apply keys_ok_link; [done|]. by rewrite delete_id.
Qed.

Lemma update_link_ok f id d r d' :
  (forall l, lk_kind (f l) = lk_kind l /\ lk_kernel_prog_id (f l) = lk_kernel_prog_id l) ->
  db_ok d -> update_link f id d = Ok (r, d') -> db_ok d'.
Proof.
  intros Hf Hok. unfold update_link. destruct (db_links d !! id) as [row|] eqn:E; [|by intros; simplify_eq].
  intros H. checks H. destruct Hok as [H1 H2 H3 H4 H5 H6 H7 H8 H9].
  assert (Hdom : dom (<[id := f row]> (db_links d)) = dom (db_links d)).
  { rewrite dom_insert_L. apply elem_of_dom_2 in E. set_solver. }
  split; cbn; try done; rewrite ?Hdom; try done; [|by apply keys_ok_link].
  apply map_Forall_insert_2; [|done]. apply H5 in E as (? & ? & ?).
  destruct (Hf row) as [-> ->]. done.
Qed.

Lemma insert_details_ok t id det d u d' :
  db_ok d -> insert_details t id det d = Ok (u, d') -> db_ok d'.
Proof.
  intros [H1 H2 H3 H4 H5 H6 H7 H8 H9] H. unfold insert_details in H. checks H.
  apply bool_decide_eq_true in Hc0. split; cbn; try done.
  - intros t' id' det'. rewrite lookup_insert_Some. intros [[? _]|[_ Hx]]; simplify_eq.
    + by apply elem_of_dom.
    + by apply H4 in Hx.
  - destruct H9 as [K1 K2 K3 K4 K5 K6 K7 K8 K9]. split; try done. apply map_Forall_insert_2; [|done].
    destruct det; cbn in Hc1; rewrite ?andb_true_iff, ?Z.leb_le in Hc1; try done.
    destruct Hc1. split; [by apply TCDirection_Valid_in|done].
Qed.

(** What the constraints check of a new member row. *)
Definition member_keys (dt : DispatcherType) (row : memberRow) (d : db) : Prop :=
  0 <= mr_priority row /\ 0 <= mr_position row <= 9 /\
  (exists k r, db_dispatchers d !! k = Some r /\ dr_program_id r = mr_dispatcher_program_id row) /\
  (dt <> DispatcherTypeXDP -> mr_direction row ∈ tc_directions) /\
  map_Forall (fun _ r =>
    ~ (mr_nsid r = mr_nsid row /\ mr_ifindex r = mr_ifindex row /\ mr_position r = mr_position row /\
       (dt = DispatcherTypeXDP \/ mr_direction r = mr_direction row))) (member_table dt d).

Lemma insert_member_spec dt id row d u d' :
  insert_member dt id row d = Ok (u, d') ->
  member_table dt d !! id = None /\ is_Some (db_links d !! id) /\ member_keys dt row d /\
  d' = set_member_table dt (<[id := row]> (member_table dt d)) d.
Proof.
  unfold insert_member. intros H. checks H.
  apply bool_decide_eq_true in Hc, Hc0, Hc3. split; [done|]. split; [done|]. split; [|done].
  rewrite !andb_true_iff, !Z.leb_le in Hc2. destruct Hc2 as [[Hpr Hp0] Hp9]. split; [done|]. split; [lia|].
  split; [|split; [|exact Hc3]].
  - unfold known_dispatcher_program in Hc4. apply negb_true_iff, bool_decide_eq_false in Hc4.
    apply map_not_Forall in Hc4 as (k & r & Hk & Hr); [|intros; apply _]. exists k, r. split; [done|]. by apply dec_stable.
  - intros Hdt. assert (TCDirection_Valid (mr_direction row) = true) as Hv by (by destruct dt).
    by apply TCDirection_Valid_in.
Qed.

Lemma keys_ok_xdp id row d :
  member_keys DispatcherTypeXDP row d -> keys_ok (db_links d) (db_details d) (db_xdp d) (db_tc d) (db_dispatchers d) ->
  keys_ok (db_links d) (db_details d) (<[id := row]> (db_xdp d)) (db_tc d) (db_dispatchers d).
Proof.
  intros (Hpr & Hpos & Hd & _ & Hfree) [K1 K2 K3 K4 K5 K6 K7 K8 K9]. split; try done.
  - apply unique_key_insert; [done|]. intros j y b _ Hy Hb Hb'. apply (Hfree j y Hy).
    simplify_eq. split_and!; [congruence..|by left].
  - intros i r [[[_ <-]|[_ Hi]]%lookup_insert_Some|Hi]; [done|apply (K6 i r); by left|apply (K6 i r); by right].
Qed.

Lemma keys_ok_tc dt id row d :
  dt <> DispatcherTypeXDP -> member_keys dt row d ->
  keys_ok (db_links d) (db_details d) (db_xdp d) (db_tc d) (db_dispatchers d) ->
  keys_ok (db_links d) (db_details d) (db_xdp d) (<[id := row]> (db_tc d)) (db_dispatchers d).
Proof.
  intros Hdt (Hpr & Hpos & Hd & Hdir & Hfree) [K1 K2 K3 K4 K5 K6 K7 K8 K9]. split; try done.
  - apply unique_key_insert; [done|]. intros j y b _ Hy Hb Hb'.
    assert (Hmt : member_table dt d = db_tc d) by (by destruct dt). rewrite Hmt in Hfree. apply (Hfree j y Hy).
    simplify_eq. split_and!; [congruence..|right; congruence].
  - intros i r [Hi|[[_ <-]|[_ Hi]]%lookup_insert_Some]; [apply (K6 i r); by left|done|apply (K6 i r); by right].
  - apply map_Forall_insert_2; [by apply Hdir|done].
Qed.

Lemma insert_member_ok dt id row d u d' :
  db_ok d -> no_details id d -> insert_member dt id row d = Ok (u, d') -> db_ok d'.
Proof.
  intros [H1 H2 H3 H4 H5 H6 H7 H8 H9] (Hx & Ht & _) (_ & Hl & Hk & ->)%insert_member_spec.
  apply elem_of_dom in Hl. destruct dt; split; cbn; try done; rewrite ?dom_insert_L;
    first [by apply keys_ok_xdp | by eapply keys_ok_tc; [|exact Hk|] | clear -H1 H2 H3 Hl Hx Ht; set_solver].
Qed.

(** Members keep their dispatcher when another row's program goes. *)
Lemma unreferenced_spec pid d id r :
  unreferenced pid d = true -> db_xdp d !! id = Some r \/ db_tc d !! id = Some r -> mr_dispatcher_program_id r <> pid.
Proof.
  unfold unreferenced. intros [Hx%bool_decide_eq_true Ht%bool_decide_eq_true]%andb_true_iff [Hr|Hr];
    [by apply (Hx id)|by apply (Ht id)].
Qed.

Definition upserted (row : dispatcherRow) (old : option dispatcherRow) : dispatcherRow :=
  match old with
  | Some o => mkDispatcherRow (dr_revision row) (dr_program_id row) (dr_kernel_link_id row)
                (dr_priority row) (dr_filter_handle row) (dr_netns row) (dr_created_at o) (dr_updated_at row)
  | None => row
  end.

Lemma upserted_fields row old :
  dr_program_id (upserted row old) = dr_program_id row /\ dr_kernel_link_id (upserted row old) = dr_kernel_link_id row /\
  dr_priority (upserted row old) = dr_priority row /\ dr_filter_handle (upserted row old) = dr_filter_handle row.
Proof. by destruct old. Qed.

Lemma keys_ok_upsert k row d :
  keys_ok (db_links d) (db_details d) (db_xdp d) (db_tc d) (db_dispatchers d) ->
  dispatcher_check (KType k) row = true ->
  bool_decide (map_Forall (fun k' r => k' = k \/ dr_program_id r <> dr_program_id row) (db_dispatchers d)) = true ->
  match db_dispatchers d !! k with
  | Some o => (dr_program_id o =? dr_program_id row) || unreferenced (dr_program_id o) d
  | None => true
  end = true ->
  keys_ok (db_links d) (db_details d) (db_xdp d) (db_tc d)
    (<[k := upserted row (db_dispatchers d !! k)]> (db_dispatchers d)).
Proof.
  intros [K1 K2 K3 K4 K5 K6 K7 K8 K9] Hc Hu%bool_decide_eq_true Hold.
  destruct (upserted_fields row (db_dispatchers d !! k)) as (E1 & E2 & E3 & E4). split; try done.
  - apply unique_key_insert; [done|]. intros j y b Hj Hy Hb Hb'. rewrite E1 in Hb. destruct (Hu j y Hy); congruence.
  - intros id r Hr. destruct (K6 id r Hr) as (? & ? & k' & o & Ho & Hp). split; [done|]. split; [done|].
    destruct (decide (k' = k)) as [->|Hne]; [|exists k', o; by rewrite lookup_insert_ne by done].
    eexists k, _. split; [apply lookup_insert_eq|]. rewrite E1. rewrite Ho in Hold.
    apply orb_true_iff in Hold as [Heq%Z.eqb_eq|Hun]; [congruence|]. by destruct (unreferenced_spec _ _ _ _ Hun Hr).
  - apply map_Forall_insert_2; [|done]. rewrite E2, E3, E4. unfold dispatcher_check in Hc.
    rewrite !andb_true_iff in Hc. destruct Hc as (((_ & Hp) & Hh) & Hty). split_and!.
    + intros p Hpp. rewrite Hpp in Hp. by apply Z.leb_le in Hp.
    + intros h Hhh. rewrite Hhh in Hh. by apply Z.leb_le in Hh.
    + destruct (KType k), (dr_kernel_link_id row), (dr_priority row), (dr_filter_handle row); done.
    + destruct (KType k), (dr_kernel_link_id row), (dr_priority row), (dr_filter_handle row); done.
    + destruct (KType k), (dr_kernel_link_id row), (dr_priority row), (dr_filter_handle row); done.
Qed.

Lemma upsert_dispatcher_ok k row d u d' :
  in_uint32 (dr_revision row) -> db_ok d -> upsert_dispatcher k row d = Ok (u, d') -> db_ok d'.
Proof.
  intros Hr [H1 H2 H3 H4 H5 H6 H7 H8 H9] H. unfold upsert_dispatcher in H. checks H.
  split; cbn; try done; [|by apply keys_ok_upsert]. apply map_Forall_insert_2; [|done].
  unfold dispatcher_check in Hc. rewrite !andb_true_iff in Hc. destruct Hc as (((Hrev & _) & _) & Hty).
  apply Z.leb_le in Hrev. assert (KType k <> DispatcherTypeZero) by (by destruct (KType k)).
  destruct (db_dispatchers d !! k); cbn; done.
Qed.

Lemma delete_dispatcher_ok k d n d' : db_ok d -> delete_dispatcher k d = Ok (n, d') -> db_ok d'.
Proof.
  intros Hok. unfold delete_dispatcher. destruct (db_dispatchers d !! k) as [old|] eqn:E; [|by intros; simplify_eq].
  intros H. checks H. destruct Hok as [H1 H2 H3 H4 H5 H6 H7 H8 H9]. split; cbn; try done.
  { by apply map_Forall_delete. }
  destruct H9 as [K1 K2 K3 K4 K5 K6 K7 K8 K9]. split; try done; try (by apply map_Forall_delete).
  - eapply unique_key_sub; [apply delete_subseteq|done].
  - intros id r Hr. destruct (K6 id r Hr) as (? & ? & k' & o & Ho & Hp). split; [done|]. split; [done|].
    exists k', o. split; [|done]. rewrite lookup_delete_ne; [done|]. intros <-.
    rewrite E in Ho. injection Ho as <-. by destruct (unreferenced_spec _ _ _ _ Hc Hr).
Qed.

(** ** Properties *)

(** C19: transactions are all or nothing. Whatever the body does and whatever
    the driver refuses, a transaction that returns an error leaves every table
    as it was; one that returns a value has exactly the effect of one complete
    run of its body on the original tables, retries included. *)
Theorem runInTx_atomic {A} (fn : M store A) s r s' :
  st_inTx s = false -> runInTx fn s = (r, s') ->
  st_inTx s' = false /\
  match r with
  | Err _ => st_db s' = st_db s
  | Ok a => exists s1 s2, st_db s1 = st_db s /\ st_inTx s1 = true /\ fn s1 = (Ok a, s2) /\ st_db s' = st_db s2
  end.
Proof.
  intros Htx H. destruct r as [a|e].
  - apply runInTx_ok in H as (s1 & s2 & ? & ? & ? & ? & ?); [|done]. split; [done|]. by exists s1, s2.
  - by apply runInTx_err in H as [? ?].
Qed.

Lemma loop_busy {A} (fn : M store A) n : forall k fs s,
  (n <= k)%nat ->
  runInTx_loop fn k (set_faults (replicate n (Some FaultBusy) ++ fs) s) =
  runInTx_loop fn (k - n) (set_faults fs s).
Proof.
  induction n as [|n IH]; intros k fs s Hk; [by rewrite Nat.sub_0_r|].
  destruct k as [|k]; [lia|]. cbn [runInTx_loop replicate app Nat.sub].
  unfold runTransactionAttempt at 1. cbn. apply (IH k fs s). lia.
Qed.

(** a busy database delays a transaction, it does not fail it. When the
    writer lock is refused up to as many times as there are retries, the
    outcome is the one of a run in which those refusals never happened, with the
    remaining retries; one refusal more and the error is returned with the
    tables untouched. *)
Theorem runInTx_busy {A} (fn : M store A) n fs s :
  st_inTx s = false -> (n <= st_txRetryBackoffs s)%nat ->
  runInTx fn (set_faults (replicate n (Some FaultBusy) ++ fs) s) =
    runInTx_loop fn (st_txRetryBackoffs s - n) (set_faults fs s) /\
  exists e s', runInTx fn (set_faults (replicate (S (st_txRetryBackoffs s)) (Some FaultBusy) ++ fs) s) = (Err e, s') /\
    isBusyError e = true /\ st_db s' = st_db s.
Proof.
  intros Htx Hn. unfold runInTx. cbn [set_faults st_inTx st_txRetryBackoffs]. rewrite Htx.
  split; [by apply loop_busy|].
  replace (replicate (S (st_txRetryBackoffs s)) (Some FaultBusy) ++ fs)
    with (replicate (st_txRetryBackoffs s) (Some FaultBusy) ++ Some FaultBusy :: fs)
    by (rewrite replicate_S_end; by rewrite <- app_assoc).
  rewrite loop_busy, Nat.sub_diag by done. cbn. by eexists _, _.
Qed.

Definition ping : M store unit := stmt (insert_map_set 5 (mkMapSetRow [] 0)).

Lemma runInTx_atomic_witness :
  st_db (snd (runInTx (ping;;; ping) (mkStore empty_db [] 0 false 2))) = empty_db.
Proof.
  destruct (runInTx (ping;;; ping) (mkStore empty_db [] 0 false 2)) as [r s'] eqn:E.
  pose proof (runInTx_atomic (ping;;; ping) (mkStore empty_db [] 0 false 2) r s' eq_refl E) as [_ H].
  destruct r as [a|e]; [|exact H]. vm_compute in E. discriminate E.
Defined.

Lemma runInTx_busy_witness :
  runInTx ping (mkStore empty_db [Some FaultBusy; Some FaultBusy] 0 false 2) =
  runInTx_loop ping 0 (mkStore empty_db [] 0 false 2).
Proof.
  apply (runInTx_busy ping 2 [] (mkStore empty_db [] 0 false 2) eq_refl (le_n 2)).
Defined.
