(* ===== verification/StoreSpec.v ===== *)
(** * The SQLite store implements the dispatcher-store contract

    [sview_of] reads the abstract content (one snapshot per attach point, the
    name and pin of every program) off the tables; the three snapshot
    operations refine the operations of [DispatcherStore] on it, whatever the
    driver refuses. *)

From Stdlib Require Import ZArith Lia String.
From stdpp Require Import base tactics sets list gmap strings numbers sorting.
From S2P Require Import Prelude Actions Dispatcher Domain Slots Layout Platform StoreDb Store StoreTx.

Local Open Scope string_scope.
Local Open Scope list_scope.
Local Open Scope Z_scope.

(** ** The members of an attach point *)

Lemma joined_lookup d k id :
  joined d k !! id = (r ← member_table (KType k) d !! id; join_member d k id r).
Proof. unfold joined. apply map_lookup_imap. Qed.

Definition is_xdp (dt : DispatcherType) : bool := match dt with DispatcherTypeXDP => true | _ => false end.

Lemma member_table_same dt dt' d : is_xdp dt = is_xdp dt' -> member_table dt d = member_table dt' d.
Proof. by destruct dt, dt'. Qed.

Lemma at_point_unique k k' r :
  is_xdp (KType k) = is_xdp (KType k') -> at_point k r = true -> at_point k' r = true -> k = k'.
Proof.
  unfold at_point. rewrite !andb_true_iff, !Z.eqb_eq. intros Hx [[H1 H2] H3] [[H4 H5] H6].
  destruct k as [dt n i], k' as [dt' n' i']; simpl in *. subst.
  assert (dt = dt') as ->; [|done].
  destruct dt, dt'; try done; apply String.eqb_eq in H3, H6; by rewrite H3 in H6.
Qed.

(** A row at one attach point is not joined at another. *)
Lemma joined_other d k k' id r :
  db_ok d -> k' <> k -> member_table (KType k) d !! id = Some r -> at_point k r = true ->
  joined d k' !! id = None.
Proof.
  intros Hok Hne Hr Hat. rewrite joined_lookup.
  destruct (decide (is_xdp (KType k) = is_xdp (KType k'))) as [Hx|Hx].
  - rewrite <- (member_table_same _ _ d Hx), Hr. cbn. unfold join_member.
    destruct (at_point k' r) eqn:E; [|done]. destruct Hne. symmetry. by eapply at_point_unique.
  - assert (member_table (KType k') d !! id = None) as ->; [|done].
    apply elem_of_dom_2 in Hr. pose proof (ok_disjoint _ Hok). apply not_elem_of_dom.
    destruct (KType k), (KType k'); simpl in *; try done; set_solver.
Qed.

Lemma member_table_delete dt ids d :
  member_table dt (delete_links ids d) = filter (fun kv => kv.1 ∉ ids) (member_table dt d).
Proof. by destruct dt. Qed.

Lemma ext_ids_spec k d id :
  id ∈ (dom (filter (fun kv => at_point k kv.2 = true) (member_table (KType k) d)) : gset Z) <->
  exists r, member_table (KType k) d !! id = Some r /\ at_point k r = true.
Proof.
  rewrite elem_of_dom. split.
  - intros [r [Hr Ha]%map_lookup_filter_Some]. by exists r.
  - intros (r & Hr & Ha). exists r. by apply map_lookup_filter_Some.
Qed.

Lemma joined_delete_self k d : joined (delete_ext_links k d) k = ∅.
Proof.
  apply map_eq. intros id. rewrite joined_lookup, lookup_empty. unfold delete_ext_links.
  rewrite member_table_delete, filter_notin_lookup. case_decide as Hin; [done|].
  destruct (member_table (KType k) d !! id) as [r|] eqn:Hr; [|done]. cbn. unfold join_member.
  destruct (at_point k r) eqn:Ha; [|done]. destruct Hin. apply ext_ids_spec. by exists r.
Qed.

Lemma joined_delete_other k k' d : db_ok d -> k' <> k -> joined (delete_ext_links k d) k' = joined d k'.
Proof.
  intros Hok Hne. apply map_eq. intros id. unfold delete_ext_links. set (ids := dom _).
  destruct (decide (id ∈ ids)) as [Hin|Hin].
  - pose proof Hin as (r & Hr & Ha)%ext_ids_spec. rewrite (joined_other d k k' id r) by done.
    rewrite joined_lookup, member_table_delete, filter_notin_lookup, decide_True by done. done.
  - rewrite !joined_lookup, member_table_delete, filter_notin_lookup, decide_False by done.
    destruct (member_table (KType k') d !! id) as [r|]; [|done]. cbn. unfold join_member.
    by rewrite delete_links_lookup, decide_False.
Qed.

(** Inserting a link and its member row adds exactly one row to its attach point. *)
Lemma joined_insert_link id row d k seq :
  db_ok d -> db_links d !! id = None ->
  joined (set_links (<[id := row]> (db_links d)) seq d) k = joined d k.
Proof.
  intros Hok Hn. apply map_eq. intros id'. rewrite !joined_lookup.
  assert (member_table (KType k) (set_links (<[id := row]> (db_links d)) seq d) = member_table (KType k) d) as ->
    by (by destruct (KType k)).
  destruct (member_table (KType k) d !! id') as [r|] eqn:Hr; [|done]. cbn. unfold join_member. cbn.
  rewrite lookup_insert_ne; [done|]. intros ->.
  destruct (fresh_no_details _ _ Hok Hn) as (Hx & Ht & _). apply elem_of_dom_2 in Hr.
  by destruct (KType k).
Qed.

Lemma joined_insert_member k k' id row d :
  at_point k row = true -> member_table (KType k) d !! id = None ->
  joined (set_member_table (KType k) (<[id := row]> (member_table (KType k) d)) d) k' =
    (if decide (k' = k) then
       match join_member d k id row with Some x => <[id := x]> (joined d k) | None => joined d k end
     else joined d k').
Proof.
  intros Hat Hn. set (d' := set_member_table _ _ _).
  assert (Hj : forall k i r, join_member d' k i r = join_member d k i r)
    by (intros k1 i r; unfold d'; by destruct (KType k)).
  assert (Ht : forall dt, member_table dt d' =
            if decide (is_xdp dt = is_xdp (KType k)) then <[id := row]> (member_table dt d) else member_table dt d).
  { intros dt. unfold d'. by destruct dt, (KType k). }
  apply map_eq. intros i. case_decide as Hk.
  - subst k'. rewrite joined_lookup, Ht, decide_True by done.
    destruct (decide (i = id)) as [->|Hne].
    + rewrite lookup_insert_eq. cbn. rewrite Hj.
      destruct (join_member d k id row) eqn:Ej; [by rewrite lookup_insert_eq|].
      by rewrite joined_lookup, Hn.
    + rewrite lookup_insert_ne by done.
      transitivity (joined d k !! i); [rewrite joined_lookup; by destruct (_ !! i); cbn; rewrite ?Hj|].
      destruct (join_member d k id row); [by rewrite lookup_insert_ne|done].
  - rewrite !joined_lookup, Ht. case_decide as Hx.
    + destruct (decide (i = id)) as [->|Hne].
      * rewrite lookup_insert_eq. cbn. rewrite Hj, (member_table_same _ _ d Hx), Hn. cbn.
        unfold join_member. destruct (at_point k' row) eqn:E; [|done].
        destruct Hk. by eapply at_point_unique.
      * rewrite lookup_insert_ne by done. by destruct (_ !! i); cbn; rewrite ?Hj.
    + by destruct (_ !! i); cbn; rewrite ?Hj.
Qed.

(** ** The abstract view *)

Definition snaps (d : db) : gmap Key DispatcherSnapshot :=
  map_imap (fun k r => match rmap (scan_member k) (get_members k d) with
                       | Ok ms => Some (mkDispatcherSnapshot k (dr_revision r) (scanDispatcherRuntime r) ms)
                       | Err _ => None
                       end) (db_dispatchers d).

Definition prog_names (d : db) : gmap Z (string * path) :=
  (fun p => (p_program_name p, p_pin_path p)) <$> db_programs d.

Definition sqlite_view (s : store) : sview := mkSview (snaps (st_db s)) (prog_names (st_db s)).

(** Between calls the store is outside a transaction and its database is well formed. *)
Definition sqlite_ok (s : store) : Prop := st_inTx s = false /\ db_ok (st_db s).

Lemma snaps_ext d d' k :
  db_dispatchers d' !! k = db_dispatchers d !! k -> joined d' k = joined d k ->
  snaps d' !! k = snaps d !! k.
Proof.
  intros H1 H2. unfold snaps. rewrite !map_lookup_imap, H1. unfold get_members. by rewrite H2.
Qed.

(** ** Inserting the members of a snapshot *)

(** The relation between a requested member, the completed one and its row. *)
Definition completes (sp : DispatcherMemberSpec) (m : DispatcherMember) : Prop :=
  m = complete_member sp (dm_LinkID m) /\
  (forall id, ms_ExistingLinkID sp = Some id -> dm_LinkID m = id).

(** What the insertion loop leaves alone. *)
Definition same_elsewhere (k : Key) (s s' : store) : Prop :=
  st_inTx s' = st_inTx s /\ db_programs (st_db s') = db_programs (st_db s) /\
  db_dispatchers (st_db s') = db_dispatchers (st_db s) /\
  forall k', k' <> k -> joined (st_db s') k' = joined (st_db s) k'.

Lemma at_point_member_row k rt sp codes : at_point k (member_row k rt sp codes) = true.
Proof.
  unfold at_point, member_row. cbn. rewrite !Z.eqb_refl. by destruct (KType k).
Qed.

Lemma NewLinkPath_default p : default [] (NewLinkPath p) = p.
Proof. by destruct p. Qed.

Lemma scan_inserted k rt sp id codes now p d :
  in_uint32 (ms_ProceedOn sp) -> proceedOnToJSON (KType k) (ms_ProceedOn sp) = Ok codes ->
  db_programs d !! ms_ProgramID sp = Some p ->
  scan_member k (id, (member_row k rt sp codes, ext_link_row k sp now, p)) =
    Ok (stored_member (prog_names d) (complete_member sp id)).
Proof.
  intros Hm Hc Hp. unfold scan_member. cbn [member_row mr_proceed_on].
  rewrite (ProceedOnActions_encodes _ _ _ Hm Hc). cbn.
  unfold stored_member, prog_names. cbn [complete_member dm_ProgramID]. rewrite lookup_fmap, Hp. cbn.
  unfold with_program. cbn. by rewrite NewLinkPath_default.
Qed.

Lemma insert_ext_spec k rt sp s m s' :
  db_ok (st_db s) -> in_uint32 (ms_ProceedOn sp) -> insert_ext k rt sp s = (Ok m, s') ->
  db_ok (st_db s') /\ same_elsewhere k s s' /\ completes sp m /\
  is_ok (ProceedOnActions (KType k) (ms_ProceedOn sp)) = true /\
  exists x, joined (st_db s) k !! dm_LinkID m = None /\
    joined (st_db s') k = <[dm_LinkID m := x]> (joined (st_db s) k) /\
    scan_member k (dm_LinkID m, x) = Ok (stored_member (prog_names (st_db s)) m).
Proof.
  intros Hok Hmask H. unfold insert_ext in H. step_ok H now s0 E0. unfold gets in E0. injection E0 as <- <-.
  step_ok H idrow s1 E1. apply wrapping_ok, stmt_ok in E1 as (d1 & Hins & <- & _ & Htx1).
  destruct idrow as [id row]. pose proof (insert_link_ok _ _ _ _ _ _ Hok Hins) as [Hok1 Hnd].
  apply insert_link_spec in Hins as (-> & Hid & Hfree & _ & [p Hp] & _ & Hd1). cbn [fst] in H.
  step_ok H codes s2 E2. apply lift_ok in E2 as [Hcodes ->].
  destruct (proceedOnToJSON (KType k) (ms_ProceedOn sp)) as [codes'|] eqn:Hj; [|done].
  cbn in Hcodes. injection Hcodes as ->.
  step_ok H u s3 E3. apply wrapping_ok, stmt_ok in E3 as (d3 & Hmem & <- & _ & Htx3).
  injection H as <- <-. cbn [dm_LinkID].
  pose proof (insert_member_ok _ _ _ _ _ _ Hok1 Hnd Hmem) as Hok3.
  apply insert_member_spec in Hmem as (Hnone & _ & _ & Hd3).
  assert (Hj1 : forall k', joined (st_db s1) k' = joined (st_db s) k')
    by (intros k'; rewrite Hd1; by apply joined_insert_link).
  assert (Hj3 : forall k', joined (st_db s3) k' = _)
    by (intros k'; rewrite Hd3; apply joined_insert_member; [apply at_point_member_row|exact Hnone]).
  assert (Hjm : join_member (st_db s1) k id (member_row k rt sp codes) =
            Some (member_row k rt sp codes, ext_link_row k sp (st_now s), p)).
  { unfold join_member. rewrite at_point_member_row, Hd1. cbn. rewrite lookup_insert_eq. cbn.
    cbn in Hp. by rewrite Hp. }
  split; [done|]. split.
  { split; [congruence|]. rewrite Hd3, Hd1. split; [by destruct (KType k)|]. split; [by destruct (KType k)|].
    intros k' Hne. rewrite <- Hd1, <- Hd3, Hj3, decide_False by done. apply Hj1. }
  split. { split; [done|]. intros i Hi. cbn. by rewrite Hid, Hi. }
  split; [unfold proceedOnToJSON in Hj; by rewrite Hj|].
  exists (member_row k rt sp codes, ext_link_row k sp (st_now s), p).
  split; [|split].
  - rewrite <- Hj1, joined_lookup, Hnone. done.
  - rewrite Hj3, decide_True by done. by rewrite Hjm, Hj1.
  - by apply scan_inserted.
Qed.

Lemma same_elsewhere_trans k s1 s2 s3 :
  same_elsewhere k s1 s2 -> same_elsewhere k s2 s3 -> same_elsewhere k s1 s3.
Proof.
  intros (A1 & A2 & A3 & A4) (B1 & B2 & B3 & B4). repeat split; try congruence.
  intros k' Hne. rewrite B4, A4; done.
Qed.

Lemma insert_exts_spec k rt specs : forall s ms s',
  db_ok (st_db s) -> Forall (fun sp => in_uint32 (ms_ProceedOn sp)) specs ->
  insert_exts k rt specs s = (Ok ms, s') ->
  db_ok (st_db s') /\ same_elsewhere k s s' /\ Forall2 completes specs ms /\
  Forall (fun sp => is_ok (ProceedOnActions (KType k) (ms_ProceedOn sp)) = true) specs /\
  exists new,
    map_to_list (joined (st_db s') k) ≡ₚ new ++ map_to_list (joined (st_db s) k) /\
    Forall2 (fun m x => scan_member k x = Ok (stored_member (prog_names (st_db s)) m)) ms new.
Proof.
  induction specs as [|sp specs IH]; intros s ms s' Hok Hmasks H; cbn in H.
  { injection H as <- <-. split; [done|]. split; [by repeat split|]. split; [constructor|].
    split; [constructor|]. exists []. split; [done|constructor]. }
  inversion Hmasks as [|? ? Hm Hmasks']; subst.
  step_ok H m s1 E1. step_ok H ms1 s2 E2. unfold ret in H. simplify_eq.
  apply insert_ext_spec in E1 as (Hok1 & Hsame1 & Hcomp & Hdec & x & Hfree & Hj & Hscan); [|done..].
  apply IH in E2 as (Hok2 & Hsame2 & HF & Hdecs & new & Hp & Hnew); [|done..].
  split; [done|]. split; [by eapply same_elsewhere_trans|]. split; [by constructor|]. split; [by constructor|].
  exists ((dm_LinkID m, x) :: new). split.
  - rewrite Hp, Hj, map_to_list_insert by done. by rewrite <- Permutation_middle.
  - constructor; [done|]. destruct Hsame1 as (_ & Hpr & _ & _). unfold prog_names in *.
    rewrite Hpr in Hnew. done.
Qed.

(** ** The three operations *)

Lemma delete_ext_links_ok k d : db_ok d -> db_ok (delete_ext_links k d).
Proof. apply delete_links_ok. Qed.

Lemma scan_runtime k rt rev now d u d' :
  runtime_wf rt ->
  upsert_dispatcher k (mkDispatcherRow rev (rt_ProgramID rt) (rt_KernelLinkID rt) (rt_FilterPriority rt)
    (rt_FilterHandle rt) (rt_NetnsPath rt) now now) d = Ok (u, d') ->
  1 <= rev /\ (forall k', joined d' k' = joined d k') /\ db_programs d' = db_programs d /\
  exists row, db_dispatchers d' = <[k := row]> (db_dispatchers d) /\
    dr_revision row = rev /\ scanDispatcherRuntime row = rt.
Proof.
  intros [Hp Hh] H. unfold upsert_dispatcher in H. checks H. unfold dispatcher_check in Hc.
  rewrite !andb_true_iff in Hc. destruct Hc as (((Hrev & _) & _) & _). apply Z.leb_le in Hrev.
  split; [done|]. split; [done|]. split; [done|]. eexists. split; [done|].
  assert (Hrt : forall c, scanDispatcherRuntime (mkDispatcherRow rev (rt_ProgramID rt) (rt_KernelLinkID rt)
      (rt_FilterPriority rt) (rt_FilterHandle rt) (rt_NetnsPath rt) c now) = rt).
  { intros c. unfold scanDispatcherRuntime. cbn. destruct rt as [pid kl fp fh nn]; cbn in *. f_equal.
    - destruct fp as [p|]; [|done]. cbn. f_equal. apply Z.mod_small. by apply Hp.
    - destruct fh as [h|]; [|done]. cbn. f_equal. apply uint32_id. by apply Hh. }
  destruct (db_dispatchers d !! k); cbn; [by split|]. by split.
Qed.

Lemma get_members_perm k d : get_members k d ≡ₚ map_to_list (joined d k).
Proof. apply merge_sort_Permutation. Qed.

(** A snapshot scans completely when each of its rows does. *)
Lemma scan_all k d ms rows f :
  map_to_list (joined d k) ≡ₚ rows ->
  Forall2 (fun (m : DispatcherMember) x => scan_member k x = Ok (f m)) ms rows ->
  exists ms', rmap (scan_member k) (get_members k d) = Ok ms' /\ ms' ≡ₚ (f <$> ms).
Proof.
  intros Hp HF.
  assert (HF' : Forall2 (fun x m => scan_member k x = Ok m) rows (f <$> ms)).
  { apply Forall2_fmap_r, Forall2_flip. eapply Forall2_impl; [exact HF|]. done. }
  assert (Hperm : rows ≡ₚ get_members k d) by (by rewrite get_members_perm, Hp).
  destruct (Permutation_Forall2 Hperm HF') as (ms' & Hms & HF2).
  exists ms'. split; [by apply rmap_ok_Forall2|done].
Qed.

Lemma replace_spec sp s snap s' :
  db_ok (st_db s) -> spec_wf sp -> replaceDispatcherSnapshot sp s = (Ok snap, s') ->
  db_ok (st_db s') /\ sn_Key snap = ss_Key sp /\ sn_Revision snap = ss_Revision sp /\
  sn_Runtime snap = ss_Runtime sp /\ Forall2 completes (ss_Members sp) (sn_Members snap) /\
  Forall (fun m => is_ok (ProceedOnActions (KType (ss_Key sp)) (ms_ProceedOn m)) = true) (ss_Members sp) /\
  1 <= ss_Revision sp /\ prog_names (st_db s') = prog_names (st_db s) /\
  exists ms, ms ≡ₚ (stored_member (prog_names (st_db s)) <$> sn_Members snap) /\
    snaps (st_db s') = <[ss_Key sp := mkDispatcherSnapshot (ss_Key sp) (ss_Revision sp) (ss_Runtime sp) ms]>
      (snaps (st_db s)).
Proof.
  intros Hok (Hmasks & Hrev & Hrt) H. unfold replaceDispatcherSnapshot in H.
  step_ok H now s0 E0. unfold gets in E0. injection E0 as <- <-.
  step_ok H u1 s1 E1. apply wrapping_ok, stmt_ok in E1 as (d1 & [= _ Hd1] & <- & _ & _).
  pose proof (delete_ext_links_ok (ss_Key sp) _ Hok) as Hok1. rewrite Hd1 in Hok1.
  step_ok H u2 s2 E2. apply wrapping_ok, stmt_ok in E2 as (d2 & Hup & <- & _ & _).
  assert (Hok2 : db_ok (st_db s2)) by (by eapply upsert_dispatcher_ok; [|exact Hok1|exact Hup]).
  apply scan_runtime in Hup as (Hge & Hj2 & Hp2 & row & Hdis & Hrow & Hscan); [|done].
  step_ok H ms s3 E3. unfold ret in H. injection H as <- <-. cbn [sn_Key sn_Revision sn_Runtime sn_Members].
  apply insert_exts_spec in E3 as (Hok3 & (_ & Hp3 & Hdis3 & Hother) & HF & Hdec & new & Hperm & Hnew); [|done..].
  assert (Hprogs : prog_names (st_db s2) = prog_names (st_db s)).
  { unfold prog_names. by rewrite Hp2, <- Hd1. }
  repeat (split; [done|]). split; [unfold prog_names in *; by rewrite Hp3|].
  rewrite Hj2, <- Hd1, joined_delete_self, map_to_list_empty, app_nil_r in Hperm.
  rewrite Hprogs in Hnew. destruct (scan_all _ _ _ _ _ Hperm Hnew) as (ms' & Hms & Hp').
  exists ms'. split; [done|]. apply map_eq. intros k'. destruct (decide (k' = ss_Key sp)) as [->|Hne].
  - rewrite lookup_insert_eq. unfold snaps. rewrite map_lookup_imap, Hdis3, Hdis, lookup_insert_eq. cbn.
    by rewrite Hms, Hrow, Hscan.
  - rewrite lookup_insert_ne by done. apply snaps_ext.
    + rewrite Hdis3, Hdis, lookup_insert_ne by done. by rewrite <- Hd1.
    + by rewrite Hother, Hj2, <- Hd1, joined_delete_other.
Qed.

Lemma delete_spec k s s' :
  db_ok (st_db s) -> deleteDispatcherSnapshot k s = (Ok tt, s') ->
  db_ok (st_db s') /\ prog_names (st_db s') = prog_names (st_db s) /\
  snaps (st_db s') = delete k (snaps (st_db s)).
Proof.
  intros Hok H. unfold deleteDispatcherSnapshot in H.
  step_ok H u1 s1 E1. apply wrapping_ok, stmt_ok in E1 as (d1 & [= _ Hd1] & <- & _ & _).
  pose proof (delete_ext_links_ok k _ Hok) as Hok1. rewrite Hd1 in Hok1.
  step_ok H n s2 E2. apply wrapping_ok, stmt_ok in E2 as (d2 & Hdel & <- & _ & _).
  pose proof (delete_dispatcher_ok _ _ _ _ Hok1 Hdel) as Hok2.
  unfold delete_dispatcher in Hdel. destruct (db_dispatchers (st_db s1) !! k) as [o|] eqn:Ho; [|by simplify_eq].
  checks Hdel. cbn in H. unfold ret in H. simplify_eq. split; [done|].
  assert (Hd2 : st_db s' = set_dispatchers (delete k (db_dispatchers (st_db s1))) (st_db s1)) by done.
  split; [unfold prog_names; by rewrite Hd2, <- Hd1|].
  apply map_eq. intros k'. destruct (decide (k' = k)) as [->|Hne].
  - rewrite lookup_delete_eq. unfold snaps. rewrite map_lookup_imap, Hd2. cbn. by rewrite lookup_delete_eq.
  - rewrite lookup_delete_ne by done. apply snaps_ext; rewrite Hd2.
    + cbn. rewrite lookup_delete_ne by done. by rewrite <- Hd1.
    + change (joined (st_db s1) k' = joined (st_db s) k'). by rewrite <- Hd1, joined_delete_other.
Qed.

Lemma scan_mask k x m : scan_member k x = Ok m -> in_uint32 (dm_ProceedOn m).
Proof.
  destruct x as [id [[r l] p]]. unfold scan_member.
  destruct (ProceedOnMask (KType k) (mr_proceed_on r)) as [mask|] eqn:E; [|done].
  cbn. intros [= <-]. cbn. by apply ProceedOnMask_decodes in E as [? _].
Qed.

Lemma fault_not_found f : isNotFound (fault_error f) = false.
Proof. by destruct f. Qed.

Lemma driver_err_not_found s e s' : driver s = (Err e, s') -> isNotFound e = false.
Proof. unfold driver. repeat case_match; intros; simplify_eq. apply fault_not_found. Qed.

Lemma query_err_not_found {A} (f : db -> A) s e s' : query f s = (Err e, s') -> isNotFound e = false.
Proof.
  unfold query, stmt. intros H. step_err H u s1 E; [by apply driver_err_not_found in H|]. done.
Qed.

Lemma wrapped_query_err {A} msg (f : db -> A) s e s' :
  wrapping msg (query f) s = (Err e, s') ->
  isNotFound e = false /\ st_db s' = st_db s /\ st_inTx s' = st_inTx s.
Proof.
  intros (e' & -> & H)%wrapping_err. split; [by apply query_err_not_found in H|].
  by apply stmt_err in H.
Qed.

Lemma scan_err_not_found k rows e : rmap (scan_member k) rows = Err e -> isNotFound e = false.
Proof.
  induction rows as [|x rows IH] in e |- *; cbn; [done|]. destruct (scan_member k x) as [m|e1] eqn:E; cbn.
  - destruct (rmap _ rows); cbn; [done|]. intros [= <-]. by apply IH.
  - intros [= <-]. destruct x as [id [[r l] p]]. cbn in E.
    destruct (ProceedOnMask (KType k) (mr_proceed_on r)) as [|e2] eqn:Em; [done|]. cbn in E. simplify_eq.
    clear -Em. unfold isNotFound. cbn. apply ProceedOnMask_err in Em as [msg ->]. done.
Qed.

Lemma get_spec k s r s' :
  Store.GetDispatcherSnapshot k s = (r, s') ->
  st_db s' = st_db s /\ st_inTx s' = st_inTx s /\
  match r with
  | Ok snap => snaps (st_db s) !! k = Some snap /\ sn_Key snap = k /\
      Forall (fun m => in_uint32 (dm_ProceedOn m)) (sn_Members snap) /\
      exists row, db_dispatchers (st_db s) !! k = Some row /\ sn_Revision snap = dr_revision row
  | Err e => isNotFound e = true -> snaps (st_db s) !! k = None
  end.
Proof.
  unfold Store.GetDispatcherSnapshot. intros H. unfold bind at 1 in H.
  destruct (wrapping _ _ s) as [[row|e] s1] eqn:E1; cycle 1.
  { apply wrapped_query_err in E1 as (Hn & Hd & Ht). simplify_eq. by rewrite Hn. }
  apply wrapping_ok, query_ok in E1 as (Hrow & Hd1 & Ht1).
  assert (Hsn : forall x, snaps (st_db s) !! k = x <-> (r0 ← row; match rmap (scan_member k) (get_members k (st_db s)) with
      | Ok ms => Some (mkDispatcherSnapshot k (dr_revision r0) (scanDispatcherRuntime r0) ms) | Err _ => None end) = x).
  { intros x. unfold snaps. by rewrite map_lookup_imap, <- Hrow. }
  destruct row as [row|]; cycle 1.
  { unfold throw in H. simplify_eq. split; [done|]. split; [done|]. intros _. by apply Hsn. }
  unfold bind at 1 in H. destruct (wrapping _ _ s1) as [[rows|e] s2] eqn:E2; cycle 1.
  { apply wrapped_query_err in E2 as (Hn & Hd & Ht). simplify_eq. rewrite Hn.
    split; [congruence|]. split; [congruence|done]. }
  apply wrapping_ok, query_ok in E2 as (-> & Hd2 & Ht2). rewrite Hd1 in H, Hd2.
  unfold bind, lift, ret in H. destruct (rmap (scan_member k) (get_members k (st_db s))) as [ms|e] eqn:Em; simplify_eq.
  - split; [congruence|]. split; [congruence|]. split; [by apply Hsn|]. split; [done|]. split.
    + apply rmap_ok_Forall2 in Em. cbn [sn_Members]. apply Forall_lookup_2. intros i m Hm.
      eapply Forall2_lookup_r in Em as (x & _ & Hx); [|exact Hm]. by eapply scan_mask.
    + by exists row.
  - split; [congruence|]. split; [congruence|]. apply scan_err_not_found in Em. by rewrite Em.
Qed.

(** ** The store as an instance of the contract *)

#[export] Instance sqlite_dispatcher_ops : DispatcherStoreOps store := {|
  Platform.GetDispatcherSnapshot := Store.GetDispatcherSnapshot;
  Platform.ReplaceDispatcherSnapshot := Store.ReplaceDispatcherSnapshot;
  Platform.DeleteDispatcherSnapshot := Store.DeleteDispatcherSnapshot;
|}.

Lemma view_of_db s s' : st_db s' = st_db s -> sqlite_view s' = sqlite_view s.
Proof. unfold sqlite_view. by intros ->. Qed.

Lemma sqlite_err {A} (fn : M store A) s e s' :
  sqlite_ok s -> runInTx fn s = (Err e, s') -> sqlite_ok s' /\ sqlite_view s' = sqlite_view s.
Proof.
  intros [Htx Hok] [Hd Ht]%runInTx_err; [|done]. split; [|by apply view_of_db].
  split; [done|]. by rewrite Hd.
Qed.

#[export] Instance sqlite_dispatcher_store : DispatcherStore store.
Proof.
  refine {| store_ok := sqlite_ok; sview_of := sqlite_view |}.
  - intros k s snap s' [Htx Hok] (Hd & Ht & Hs & Hk & Hm & row & Hrow & Hrev)%get_spec.
    split; [split; [congruence|by rewrite Hd]|]. split; [by apply view_of_db|].
    repeat (split; [done|]). split; [|done]. rewrite Hrev. by apply (ok_dispatchers _ Hok) in Hrow as [? _].
  - intros k s e s' [Htx Hok] (Hd & Ht & Hn)%get_spec.
    split; [split; [congruence|by rewrite Hd]|]. split; [by apply view_of_db|done].
  - intros sp s snap s' [Htx Hok] Hwf (s1 & s2 & Hd1 & _ & Hfn & Hd2 & Ht)%runInTx_ok; [|done].
    apply replace_spec in Hfn as (Hok2 & Hk & Hr & Hrt & HF & Hdec & Hge & Hp & ms & Hperm & Hsn);
      [|by rewrite Hd1|done].
    split; [split; [done|by rewrite Hd2]|]. repeat (split; [done|]).
    exists ms. unfold sqlite_view. cbn [sv_progs sv_snaps]. rewrite <- Hd1. split; [done|].
    by rewrite Hd2, Hsn, Hp.
  - intros sp s e s'. by apply sqlite_err.
  - intros k s s' [Htx Hok] (s1 & s2 & Hd1 & _ & Hfn & Hd2 & Ht)%runInTx_ok; [|done].
    apply delete_spec in Hfn as (Hok2 & Hp & Hsn); [|by rewrite Hd1].
    split; [split; [done|by rewrite Hd2]|]. unfold sqlite_view. cbn [sv_progs sv_snaps].
    by rewrite <- Hd1, Hd2, Hsn, Hp.
  - intros k s e s'. by apply sqlite_err.
Defined.

(** ** Properties *)

Lemma get_faultless k s :
  st_faults s = [] -> snaps (st_db s) !! k <> None ->
  exists snap s', Store.GetDispatcherSnapshot k s = (Ok snap, s') /\ snaps (st_db s) !! k = Some snap.
Proof.
  intros Hf. unfold snaps. rewrite map_lookup_imap.
  unfold Store.GetDispatcherSnapshot, query, stmt, driver, wrapping, bind, lift, ret.
  rewrite Hf. cbn. destruct (db_dispatchers (st_db s) !! k) as [row|]; [|done]. cbn. rewrite Hf. cbn.
  destruct (rmap (scan_member k) (get_members k (st_db s))) as [ms|e]; [|done]. cbn. eauto.
Qed.

(** C16: what is stored for a dispatcher is what is read back. After a
    successful replacement, a read that the driver does not refuse succeeds
    and returns the requested key, revision and runtime facts and exactly the
    requested members, each with the requested link ID or a newly allocated one,
    its proceed-on mask unchanged by the trip through the JSON column, and the
    program's stored name and pin; every other attach point reads as before. *)
Theorem snapshot_roundtrip sp s snap s' :
  sqlite_ok s -> spec_wf sp -> st_faults s' = [] ->
  Store.ReplaceDispatcherSnapshot sp s = (Ok snap, s') ->
  (exists back s'', Store.GetDispatcherSnapshot (ss_Key sp) s' = (Ok back, s'') /\
     sn_Key back = ss_Key sp /\ sn_Revision back = ss_Revision sp /\ sn_Runtime back = ss_Runtime sp /\
     Forall2 completes (ss_Members sp) (sn_Members snap) /\
     sn_Members back ≡ₚ (stored_member (prog_names (st_db s)) <$> sn_Members snap)) /\
  (forall k, k <> ss_Key sp -> snaps (st_db s') !! k = snaps (st_db s) !! k).
Proof.
  intros Hok Hwf Hf H.
  destruct (@replace_ok store sqlite_dispatcher_ops sqlite_dispatcher_store sp s snap s' Hok Hwf H) as (_ & _ & _ & _ & HF & _ & _ & ms & Hperm & Hsv).
  cbn in Hperm, Hsv. unfold sqlite_view in Hsv. cbn in Hsv. injection Hsv as Hsn _.
  destruct (get_faultless (ss_Key sp) s' Hf) as (back & s'' & Hget & Hb).
  { by rewrite Hsn, lookup_insert_eq. }
  rewrite Hsn, lookup_insert_eq in Hb. injection Hb as <-. split.
  - eexists _, s''. by repeat (split; [done|]).
  - intros k Hne. by rewrite Hsn, lookup_insert_ne.
Qed.
