(* ===== verification/StoreInv.v ===== *)
(** * The store keeps its schema

    Every method of the SQLite store, called in any order and with any driver
    refusals, keeps the schema's foreign keys, checks and enumerations; reads
    write nothing; programs and links are read back as they were written. *)

From Stdlib Require Import ZArith Lia String.
From stdpp Require Import base tactics sets list gmap strings numbers sorting.
From S2P Require Import Prelude Actions Dispatcher Domain Slots Layout Platform StoreDb Store StoreTx StoreSpec.

Local Open Scope string_scope.
Local Open Scope list_scope.
Local Open Scope Z_scope.

(** ** Methods that keep an invariant of the database *)

(** Between calls the store is outside a transaction. *)
Definition holds (I : db -> Prop) (s : store) : Prop := st_inTx s = false /\ I (st_db s).

Definition keeps (I : db -> Prop) {A} (m : M store A) : Prop :=
  forall s r s', holds I s -> m s = (r, s') -> holds I s'.

(** The body of a transaction that keeps it when it completes. *)
Definition commits (I : db -> Prop) {A} (fn : M store A) : Prop :=
  forall s a s', I (st_db s) -> fn s = (Ok a, s') -> I (st_db s').

Create HintDb store discriminated.

Section Keeps.
Context {I : db -> Prop}.

Lemma keeps_ret {A} (a : A) : keeps I (ret a).
Proof. intros s r s' H [= <- <-]. done. Qed.

Lemma keeps_throw {A} e : keeps I (throw (A:=A) e).
Proof. intros s r s' H [= <- <-]. done. Qed.

Lemma keeps_lift {A} (x : result A) : keeps I (lift x).
Proof. intros s r s' H [= <- <-]. done. Qed.

Lemma keeps_gets {A} (f : store -> A) : keeps I (gets f).
Proof. intros s r s' H [= <- <-]. done. Qed.

Lemma keeps_bind {A B} (m : M store A) (f : A -> M store B) :
  keeps I m -> (forall a, keeps I (f a)) -> keeps I (bind m f).
Proof.
  intros Hm Hf s r s' Hok. unfold bind. destruct (m s) as [[a|e] s1] eqn:E; intros H.
  - apply Hm in E; [|done]. by apply Hf in H.
  - simplify_eq. by apply Hm in E.
Qed.

Lemma keeps_wrapping {A} msg (m : M store A) : keeps I m -> keeps I (wrapping msg m).
Proof.
  intros Hm s r s' Hok. unfold wrapping. destruct (m s) as [r1 s1] eqn:E. intros; simplify_eq. by apply Hm in E.
Qed.

Lemma keeps_stmt {A} (f : db -> result (A * db)) :
  (forall d a d', I d -> f d = Ok (a, d') -> I d') -> keeps I (stmt f).
Proof.
  intros Hf s r s' [Htx Hok] H. destruct r as [a|e].
  - apply stmt_ok in H as (d' & Hd & Hd' & _ & Ht). split; [congruence|]. rewrite Hd'. by eapply Hf.
  - apply stmt_err in H as [Hd Ht]. split; [congruence|]. by rewrite Hd.
Qed.

Lemma keeps_query {A} (f : db -> A) : keeps I (query f).
Proof. apply keeps_stmt. intros d a d' Hok H. by simplify_eq. Qed.

Lemma keeps_runInTx {A} (fn : M store A) : commits I fn -> keeps I (runInTx fn).
Proof.
  intros Hf s r s' [Htx Hok] H. destruct r as [a|e].
  - apply runInTx_ok in H as (s1 & s2 & Hd & _ & Hfn & Hd' & Ht); [|done].
    split; [done|]. rewrite Hd'. eapply Hf; [|exact Hfn]. by rewrite Hd.
  - apply runInTx_err in H as [Hd Ht]; [|done]. split; [done|]. by rewrite Hd.
Qed.

Lemma keeps_if {A} (b : bool) (m n : M store A) : keeps I m -> keeps I n -> keeps I (if b then m else n).
Proof. by destruct b. Qed.

Lemma keeps_for_each {A} (l : list A) (f : A -> M store unit) : (forall a, keeps I (f a)) -> keeps I (for_each l f).
Proof. intros Hf. induction l; cbn; [apply keeps_ret|]. by apply keeps_bind. Qed.

End Keeps.

#[export] Hint Resolve keeps_ret keeps_throw keeps_lift keeps_gets keeps_bind keeps_wrapping keeps_query
  keeps_runInTx keeps_if keeps_for_each : store.
#[export] Hint Opaque stmt query driver keeps runInTx : store.

(** Split the program text, then let the database find the parts. *)
Ltac keep :=
  repeat match goal with
  | |- forall _, _ => let x := fresh "x" in intros x
  | |- keeps _ _ => solve [eauto 3 with store]
  | |- keeps _ (bind _ _) => apply keeps_bind
  | |- keeps _ (if _ then _ else _) => apply keeps_if
  | |- keeps _ (match ?x with _ => _ end) => destruct x
  end.

(** ** Statements on programs and map sets *)

Lemma set_shared_ok t d :
  db_ok d -> (forall n id, (n, id) ∈ t -> is_Some (db_programs d !! id)) -> db_ok (set_shared_map_pins t d).
Proof. intros [H1 H2 H3 H4 H5 H6 H7 H8 H9] Ht. by split. Qed.

Lemma save_program_ok id row d u d' : db_ok d -> save_program id row d = Ok (u, d') -> db_ok d'.
Proof.
  intros [H1 H2 H3 H4 H5 H6 H7 H8 H9] H. unfold save_program in H. checks H.
  apply bool_decide_eq_true in Hc, Hc1. split; cbn; try done.
  - eapply map_Forall_impl; [exact H5|]. intros x l (? & ? & Hp). split; [done|]. split; [done|].
    by apply lookup_insert_is_Some'; right.
  - apply map_Forall_insert_2; [|done]. by destruct (db_programs d !! id).
  - intros n x Hx. apply lookup_insert_is_Some'. right. by eapply H7.
Qed.

Lemma delete_program_ok id d n d' : db_ok d -> delete_program id d = (n, d') -> db_ok d'.
Proof.
  intros Hok. unfold delete_program. destruct (db_programs d !! id) as [row|] eqn:E; [|by intros; simplify_eq].
  intros; simplify_eq. pose proof (delete_links_ok (links_of_program id d) d Hok) as [H1 H2 H3 H4 H5 H6 H7 H8 H9].
  split; try done.
  - intros x l Hx. pose proof Hx as Hx'. apply H5 in Hx as (? & ? & Hp). split; [done|]. split; [done|].
    cbn. rewrite lookup_delete_ne; [exact Hp|]. intros ->. cbn in Hx'.
    apply map_lookup_filter_Some in Hx' as [Hl Hn]. cbn in Hn. apply Hn. unfold links_of_program.
    apply elem_of_dom. exists l. by apply map_lookup_filter_Some.
  - apply map_Forall_delete. exact H6.
  - cbn. intros x y [Hy Hxy]%elem_of_filter. cbn in Hy. rewrite lookup_delete_ne by done. by eapply H7.
Qed.

Lemma insert_map_set_ok id row d u d' : db_ok d -> insert_map_set id row d = Ok (u, d') -> db_ok d'.
Proof.
  intros [H1 H2 H3 H4 H5 H6 H7 H8 H9] H. unfold insert_map_set in H. checks H. split; cbn; try done.
  eapply map_Forall_impl; [exact H6|]. intros x p (Hp & ?). split; [|done].
  by apply lookup_insert_is_Some'; right.
Qed.

Lemma delete_map_set_ok id d n d' : db_ok d -> delete_map_set id d = Ok (n, d') -> db_ok d'.
Proof.
  intros Hok. unfold delete_map_set. destruct (db_map_sets d !! id); [|by intros; simplify_eq].
  intros H. checks H. apply bool_decide_eq_true in Hc. destruct Hok as [H1 H2 H3 H4 H5 H6 H7 H8 H9].
  split; cbn; try done. intros x p Hx. pose proof (H6 _ _ Hx) as (Hp & ?). split; [|done].
  rewrite lookup_delete_ne; [done|]. intros Heq.
  assert (Hin : map_set_users id d !! x = Some p) by (by apply map_lookup_filter_Some).
  rewrite Hc in Hin. by rewrite lookup_empty in Hin.
Qed.

Lemma save_shared_ok name id d u d' : db_ok d -> save_shared_map_pin name id d = Ok (u, d') -> db_ok d'.
Proof.
  intros Hok H. unfold save_shared_map_pin in H. checks H. apply bool_decide_eq_true in Hc.
  apply set_shared_ok; [done|]. intros n x [Hx|Hx]%elem_of_union.
  - by apply elem_of_singleton in Hx as [= -> ->].
  - by eapply ok_shared.
Qed.

Lemma delete_shared_ok id d : db_ok d -> db_ok (delete_shared_map_pins id d).
Proof.
  intros Hok. apply set_shared_ok; [done|]. intros n x [_ Hx]%elem_of_filter. by eapply ok_shared.
Qed.

(** ** Links *)

Lemma ParseLinkKind_id s k : ParseLinkKind s = Ok k -> k = s /\ s ∈ allLinkKinds.
Proof. unfold ParseLinkKind. case_bool_decide; [|done]. by intros [= <-]. Qed.

Lemma insertLinkRegistry_ok spec s r s' :
  db_ok (st_db s) -> insertLinkRegistry spec s = (Ok r, s') ->
  db_ok (st_db s') /\ no_details (lr_ID r) (st_db s') /\
  exists row, st_db s' = set_links (<[lr_ID r := row]> (db_links (st_db s))) (Z.max (db_link_seq (st_db s)) (lr_ID r)) (st_db s) /\
    row = mkLinkRow (lsp_Kind spec) (lsp_ProgramID spec) (lsp_KernelLinkID spec) (lsp_PinPath spec) (lsp_Metadata spec) (st_now s) /\
    lr_ID r = db_link_seq (st_db s) + 1 /\ lsp_Kind spec ∈ allLinkKinds /\ st_now s' = st_now s /\
    r = mkLinkRecord (lr_ID r) (lsp_ProgramID spec) (lsp_KernelLinkID spec) (lsp_Kind spec) (lsp_PinPath spec)
          (lsp_Details spec) (st_now s) (lsp_Metadata spec).
Proof.
  intros Hok H. unfold insertLinkRegistry in H. step_ok H now s0 E0. injection E0 as <- <-.
  step_ok H idrow s1 E1. apply wrapping_ok, stmt_ok in E1 as (d & Hins & Hd & Hnow & _). destruct idrow as [i row].
  step_ok H rec s2 E2. apply lift_ok in E2 as [E2 ->]. cbn [fst snd] in E2.
  pose proof (insert_link_ok _ _ _ _ _ _ Hok Hins) as [Hok' Hnd].
  apply insert_link_spec in Hins as (-> & Hi & Hn & Hk & Hp & _ & ->). cbn [default] in Hi. unfold ret in H.
  cbn [scanLinkRecord] in E2. unfold marshalLinkMetadata, unmarshalLinkMetadata in *. cbn [lk_kind] in *.
  destruct (ParseLinkKind (lsp_Kind spec)) as [kind|] eqn:Ek; [|done]. cbn in E2. injection E2 as <-.
  assert (kind = lsp_Kind spec) as -> by (by apply ParseLinkKind_id in Ek as [? _]).
  injection H as <- <-. cbn [with_details lr_ID]. rewrite Hd. split; [done|]. split; [done|].
  eexists. split; [done|]. split; [done|]. cbn in Hi. done.
Qed.

Lemma saveDetails_ok id det s u s' :
  db_ok (st_db s) -> no_details id (st_db s) -> saveDetails id det s = (Ok u, s') -> db_ok (st_db s').
Proof.
  intros Hok Hnd H. destruct det; cbn [saveDetails] in H; apply wrapping_ok, stmt_ok in H as (d1 & Hd & -> & _);
    eauto using insert_details_ok, insert_member_ok.
Qed.

Lemma createLink_commits spec : commits db_ok (createLink spec).
Proof.
  intros s r s' Hok H. unfold createLink in H. case_match; [done|].
  step_ok H rec s1 E1. apply insertLinkRegistry_ok in E1 as (Hok1 & Hnd & _); [|done].
  destruct (lsp_Details spec) as [det|]; [|unfold ret in H; by simplify_eq].
  step_ok H u s2 E2. unfold ret in H. simplify_eq. by eapply saveDetails_ok.
Qed.

Lemma update_keeps f id : (forall l, lk_kind (f l) = lk_kind l /\ lk_kernel_prog_id (f l) = lk_kernel_prog_id l) ->
  keeps db_ok (update_returning f id).
Proof.
  intros Hf. unfold update_returning. apply keeps_bind; [|eauto with store].
  apply keeps_stmt. intros d a d'. by apply update_link_ok.
Qed.

Lemma update_commits f id : (forall l, lk_kind (f l) = lk_kind l /\ lk_kernel_prog_id (f l) = lk_kernel_prog_id l) ->
  commits db_ok (update_returning f id).
Proof.
  intros Hf s r s' Hok H. unfold update_returning in H. step_ok H row s1 E1. apply lift_ok in H as [_ ->].
  apply stmt_ok in E1 as (d & Hd & -> & _). by eapply update_link_ok.
Qed.

Lemma CreateLink_keeps spec : keeps db_ok (CreateLink spec).
Proof. apply keeps_runInTx, createLink_commits. Qed.

Lemma CreatePendingLink_keeps spec dir : keeps db_ok (CreatePendingLink spec dir).
Proof.
  unfold CreatePendingLink. apply keeps_bind; [|eauto with store]. apply keeps_runInTx.
  intros s r s' Hok H. step_ok H rec s1 E1. apply createLink_commits in E1; [|done].
  unfold setLinkPinPath in H. apply wrapping_ok in H. by apply update_commits in H.
Qed.

Lemma FinaliseLink_keeps id k : keeps db_ok (FinaliseLink id k).
Proof.
  intros s r s' Hok H. unfold FinaliseLink in H. destruct (update_returning _ id s) as [[x|e] s1] eqn:E;
    simplify_eq; apply update_keeps in E; done.
Qed.

Lemma DeleteLink_keeps id : keeps db_ok (DeleteLink id).
Proof.
  unfold DeleteLink. keep. apply keeps_wrapping, keeps_stmt. intros d a d' Hok Hd. simplify_eq.
  by apply delete_links_ok.
Qed.

(** ** Programs *)

Lemma insertSelfOwnedMapSet_keeps id meta : keeps db_ok (insertSelfOwnedMapSet id meta).
Proof.
  intros s r s' Hok. unfold insertSelfOwnedMapSet.
  destruct (stmt _ s) as [[u|e] s1] eqn:E;
    apply (keeps_stmt (I:=db_ok) _ (fun d a d' => insert_map_set_ok _ _ _ _ _)) in E; try done.
  - intros; by simplify_eq.
  - destruct (MapSetExists id s1) as [rm s2] eqn:E2. apply (keeps_query (I:=db_ok)) in E2; [|done].
    destruct rm as [[]|]; intros; by simplify_eq.
Qed.

Lemma Save_keeps id meta : keeps db_ok (Save id meta).
Proof.
  assert (Hrow : forall n, keeps db_ok (wrapping "failed to insert program: %w" (stmt (save_program id (program_row meta n))))).
  { intros n. apply keeps_wrapping, keeps_stmt. intros d a d'. apply save_program_ok. }
  pose proof (insertSelfOwnedMapSet_keeps id meta). unfold Save, programRecordExists. keep.
Qed.

Lemma Delete_keeps id : keeps db_ok (Delete id).
Proof.
  unfold Delete. keep. apply keeps_stmt. intros d a d' Hok Hd. destruct (delete_program id d) as [n d1] eqn:E.
  simplify_eq. by eapply delete_program_ok.
Qed.

Lemma DeleteMapSet_keeps id : keeps db_ok (DeleteMapSet id).
Proof. unfold DeleteMapSet. keep. apply keeps_stmt. intros d a d'. apply delete_map_set_ok. Qed.

Lemma SaveSharedMapPins_keeps id names : keeps db_ok (SaveSharedMapPins id names).
Proof.
  unfold SaveSharedMapPins. apply keeps_for_each. intros n. apply keeps_wrapping, keeps_stmt.
  intros d a d'. apply save_shared_ok.
Qed.

Lemma orphaned_keeps names : keeps db_ok (orphaned_maps names).
Proof. induction names; cbn [orphaned_maps]; eauto 10 with store. Qed.

Lemma DeleteSharedMapPins_keeps id : keeps db_ok (DeleteSharedMapPins id).
Proof.
  unfold DeleteSharedMapPins, listSharedMapsByProgram. keep; [|apply orphaned_keeps].
  apply keeps_wrapping, keeps_stmt. intros d a d' Hok Hd. simplify_eq. by apply delete_shared_ok.
Qed.

#[export] Hint Resolve CreateLink_keeps CreatePendingLink_keeps FinaliseLink_keeps DeleteLink_keeps Save_keeps
  Delete_keeps DeleteMapSet_keeps SaveSharedMapPins_keeps DeleteSharedMapPins_keeps : store.

(** ** The store's interface: any sequence of its writing methods *)

Inductive call :=
| CallSave (id : Z) (metadata : ProgramRecord)
| CallDelete (id : Z)
| CallDeleteMapSet (id : Z)
| CallSaveSharedMapPins (id : Z) (names : list string)
| CallDeleteSharedMapPins (id : Z)
| CallCreateLink (spec : LinkSpec)
| CallCreatePendingLink (spec : LinkSpec) (linksDir : path)
| CallFinaliseLink (id : Z) (kernelLinkID : option Z)
| CallDeleteLink (id : Z)
| CallReplaceDispatcherSnapshot (snap : DispatcherSnapshotSpec)
| CallDeleteDispatcherSnapshot (k : Key).

(** A caller's value has the widths of the Go types. *)
Definition call_wf (c : call) : Prop :=
  match c with CallReplaceDispatcherSnapshot snap => spec_wf snap | _ => True end.

Definition run_call (c : call) : M store unit :=
  match c with
  | CallSave id metadata => Save id metadata
  | CallDelete id => Delete id
  | CallDeleteMapSet id => DeleteMapSet id
  | CallSaveSharedMapPins id names => SaveSharedMapPins id names
  | CallDeleteSharedMapPins id => DeleteSharedMapPins id;;; ret tt
  | CallCreateLink spec => CreateLink spec;;; ret tt
  | CallCreatePendingLink spec dir => CreatePendingLink spec dir;;; ret tt
  | CallFinaliseLink id k => FinaliseLink id k;;; ret tt
  | CallDeleteLink id => DeleteLink id
  | CallReplaceDispatcherSnapshot snap => Store.ReplaceDispatcherSnapshot snap;;; ret tt
  | CallDeleteDispatcherSnapshot k => Store.DeleteDispatcherSnapshot k
  end.

(** Callers go on after an error. *)
Fixpoint run_calls (cs : list call) (s : store) : store :=
  match cs with [] => s | c :: cs' => run_calls cs' (snd (run_call c s)) end.

Lemma Replace_keeps snap : spec_wf snap -> keeps db_ok (Store.ReplaceDispatcherSnapshot snap).
Proof.
  intros Hwf s [r|e] s' Hok H.
  - by apply (@replace_ok store sqlite_dispatcher_ops sqlite_dispatcher_store snap s r s' Hok Hwf) in H as [? _].
  - by apply (@replace_err store sqlite_dispatcher_ops sqlite_dispatcher_store snap s e s' Hok) in H as [? _].
Qed.

Lemma DeleteSnapshot_keeps k : keeps db_ok (Store.DeleteDispatcherSnapshot k).
Proof.
  intros s [[]|e] s' Hok H.
  - by apply (@delete_ok store sqlite_dispatcher_ops sqlite_dispatcher_store k s s' Hok) in H as [? _].
  - by apply (@delete_err store sqlite_dispatcher_ops sqlite_dispatcher_store k s e s' Hok) in H as [? _].
Qed.

Lemma run_call_keeps c : call_wf c -> keeps db_ok (run_call c).
Proof.
  pose proof Replace_keeps. pose proof DeleteSnapshot_keeps. intros Hwf. destruct c; cbn [run_call]; keep; eauto with store.
Qed.

(** ** Programs are read back as written *)





Lemma stmt_faultless {A} (f : db -> result (A * db)) s :
  st_faults s = [] -> stmt f s = match f (st_db s) with Ok (a, d) => (Ok a, set_db d s) | Err e => (Err e, s) end.
Proof. intros Hf. unfold stmt, bind, driver. rewrite Hf. by destruct (f (st_db s)) as [[]|]. Qed.

Lemma query_faultless {A} (f : db -> A) s : st_faults s = [] -> query f s = (Ok (f (st_db s)), s).
Proof. intros Hf. unfold query. rewrite stmt_faultless by done. by destruct s. Qed.


(** ** Links are read back as written *)

(** The detail types [createLink] stores below the link row. *)
Definition plain_details (det : LinkDetails) : Prop :=
  match det with DXDP _ | DTC _ | DTCX _ => False | _ => True end.

Lemma saveDetails_plain id det s u s' :
  plain_details det -> saveDetails id det s = (Ok u, s') ->
  exists t, newLinkDetails (LinkDetails_Kind det) = Some t /\ t <> TXDP /\ t <> TTC /\ t <> TTCX /\
    st_db s' = set_details (<[(t, id) := det]> (db_details (st_db s))) (st_db s).
Proof.
  intros Hp H. destruct det as [x|x|x|x|x|x|x|x]; try done; cbn [saveDetails] in H;
    apply wrapping_ok, stmt_ok in H as (d1 & Hd & -> & _); unfold insert_details in Hd;
    do 3 apply check_ok in Hd as [_ Hd]; injection Hd as _ <-;
    [exists TTracepoint|exists TKprobe|exists TUprobe|exists TFentry|exists TFexit]; (split; [|done]); cbn;
    try (destruct (kpd_Retprobe x)); try (destruct (upd_Retprobe x)); vm_compute; reflexivity.
Qed.

Lemma read_plain t id det d :
  t <> TXDP -> t <> TTC -> t <> TTCX -> db_details d !! (t, id) = Some det -> read_details t id d = Some (Ok det).
Proof. intros H1 H2 H3 H. destruct t; try done; cbn; by rewrite H. Qed.

Lemma update_returning_ok f id s r s' :
  update_returning f id s = (Ok r, s') ->
  exists l, db_links (st_db s) !! id = Some l /\
    st_db s' = set_links (<[id := f l]> (db_links (st_db s))) (db_link_seq (st_db s)) (st_db s) /\
    scanLinkRecord id (Some (f l)) = Ok r.
Proof.
  intros H. unfold update_returning in H. step_ok H row s1 E. apply lift_ok in H as [Hs ->].
  apply stmt_ok in E as (d & Hd & -> & _). unfold update_link in Hd.
  destruct (db_links (st_db s) !! id) as [l|] eqn:El; [|injection Hd as <- _; done].
  apply check_ok in Hd as [_ Hd]. injection Hd as <- <-. by exists l.
Qed.

(** The body of CreatePendingLink. *)
Lemma create_pending_ok spec dir det s r s' :
  db_ok (st_db s) -> lsp_Details spec = Some det -> lsp_Kind spec = LinkDetails_Kind det -> plain_details det ->
  (let* created := createLink spec in setLinkPinPath (lr_ID created) dir) s = (Ok r, s') ->
  exists t, newLinkDetails (lsp_Kind spec) = Some t /\ t <> TXDP /\ t <> TTC /\ t <> TTCX /\
    r = mkLinkRecord (db_link_seq (st_db s) + 1) (lsp_ProgramID spec) (lsp_KernelLinkID spec) (lsp_Kind spec)
          (Some (dir ++ [FormatUint (uint64 (db_link_seq (st_db s) + 1))])) None (st_now s) (lsp_Metadata spec) /\
    db_links (st_db s') !! lr_ID r = Some (mkLinkRow (lsp_Kind spec) (lsp_ProgramID spec) (lsp_KernelLinkID spec)
          (lr_PinPath r) (lsp_Metadata spec) (st_now s)) /\
    db_details (st_db s') !! (t, lr_ID r) = Some det /\
    db_link_seq (st_db s') = lr_ID r /\
    (forall id, id <> lr_ID r -> db_links (st_db s') !! id = db_links (st_db s) !! id).
Proof.
  intros Hok Hdet Hkind Hplain H. step_ok H rec s1 E1. unfold createLink in E1. case_match eqn:Ek; [done|].
  step_ok E1 rec0 s2 E2. apply insertLinkRegistry_ok in E2 as (_ & _ & row & Hd2 & -> & Hid & Hk & Hnow & Hrec); [|done].
  rewrite Hdet in E1. step_ok E1 u s3 E3. unfold ret in E1. injection E1 as <- <-.
  apply saveDetails_plain in E3 as (t & Ht & H1 & H2 & H3 & Hd3); [|done].
  unfold setLinkPinPath in H. apply wrapping_ok, update_returning_ok in H as (l & Hl & Hd' & Hscan).
  assert (Hlr : lr_ID (with_details (Some det) rec0) = lr_ID rec0) by done. rewrite Hlr in *.
  rewrite Hd3, Hd2 in Hl. cbn [set_details set_links db_links] in Hl. rewrite lookup_insert_eq in Hl. injection Hl as <-.
  cbn [scanLinkRecord set_pin lk_kind lk_kernel_prog_id lk_kernel_link_id lk_pin_path lk_metadata_json lk_created_at] in Hscan.
  destruct (ParseLinkKind (lsp_Kind spec)) as [k|] eqn:Epk; [|done]. apply ParseLinkKind_id in Epk as [-> _].
  cbn in Hscan. injection Hscan as <-. rewrite Hid in *. exists t. split; [by rewrite Hkind|].
  split; [done|]. split; [done|]. split; [done|]. split; [reflexivity|]. cbn [lr_ID lr_PinPath]. rewrite Hd'.
  cbn [set_links db_links db_details db_link_seq]. rewrite Hd3, Hd2. cbn [set_details set_links db_links db_details db_link_seq].
  split; [by rewrite lookup_insert_eq|]. split; [by rewrite lookup_insert_eq|]. split; [lia|].
  intros id Hne. rewrite !lookup_insert_ne by (by apply not_eq_sym). done.
Qed.

(** ** Properties *)

(** C18: the schema survives every history. Whatever sequence of the store's
    writing methods is called, with whatever driver refusals and whatever
    errors, outside of calls the store is outside a transaction and its tables
    satisfy the schema ([db_ok]). Foreign keys: every detail and member row has
    its link, every member row its dispatcher by program ID, every link and
    shared pin its program, every program its map set. Unique keys: kernel link
    IDs and pin paths of links where not NULL, program IDs of dispatchers, the
    position of a member at its XDP attach point and at its TC attach point and
    direction (primary keys are the maps' own). Checks: link kinds, program
    types and image sources; priorities, positions from 0 to 9, TC and TCX
    directions, probe offsets; a dispatcher's type, revision from 1, and which of
    kernel link, priority and filter handle its type has. Beyond the schema: no
    link has both an XDP and a TC row, link IDs are below the sequence and
    revisions below 2^32. *)
Theorem store_schema_invariant cs s :
  sqlite_ok s -> Forall call_wf cs -> sqlite_ok (run_calls cs s).
Proof.
  intros Hok Hwf. revert s Hok. induction Hwf as [|c cs Hc _ IH]; intros s Hok; cbn [run_calls]; [done|].
  apply IH. destruct (run_call c s) as [r s'] eqn:E. by apply run_call_keeps in E.
Qed.


(** C23: a reused program ID never captures a leftover map set. When the
    kernel hands out an ID whose old map set is still recorded, saving a
    program that owns its maps fails with ErrMapSetIDReused and changes
    nothing. *)
Theorem Save_reused_map_set id p s :
  st_faults s = [] -> ph_MapOwnerID (pr_Handles p) = None ->
  db_programs (st_db s) !! id = None -> is_Some (db_map_sets (st_db s) !! id) ->
  exists e, Save id p s = (Err e, s) /\ errors_Is e ErrMapSetIDReused = true.
Proof.
  intros Hf Ho Hn [ms Hms]. unfold Save. rewrite Ho. unfold programRecordExists, bind. rewrite query_faultless by done.
  rewrite Hn, bool_decide_false by (by intros []). unfold insertSelfOwnedMapSet. rewrite stmt_faultless by done.
  unfold insert_map_set. rewrite Hms, bool_decide_false by done. cbn [check constraint].
  unfold MapSetExists. rewrite query_faultless by done. rewrite Hms, bool_decide_true by (by eexists).
  eexists. split; [reflexivity|]. done.
Qed.

(** C22: deleting a program takes its links, their details and its shared map
    pins with it, leaves all other programs, links and every dispatcher alone,
    and leaves its map set behind for DeleteMapSet. *)
Theorem Delete_program_cascade id s s' :
  sqlite_ok s -> Delete id s = (Ok tt, s') ->
  db_programs (st_db s') = delete id (db_programs (st_db s)) /\
  (forall lid, db_links (st_db s') !! lid =
     match db_links (st_db s) !! lid with
     | Some l => if lk_kernel_prog_id l =? id then None else Some l
     | None => None
     end) /\
  (forall name pid, (name, pid) ∈ db_shared_map_pins (st_db s') <->
     (name, pid) ∈ db_shared_map_pins (st_db s) /\ pid <> id) /\
  db_map_sets (st_db s') = db_map_sets (st_db s) /\ db_dispatchers (st_db s') = db_dispatchers (st_db s) /\
  sqlite_ok s'.
Proof.
  intros Hok H. assert (Hok' : sqlite_ok s') by (by eapply Delete_keeps).
  unfold Delete in H. step_ok H n s1 E. apply stmt_ok in E as (d & Hd & Hd' & _). injection Hd as Hd.
  unfold delete_program in Hd. destruct (db_programs (st_db s) !! id) as [row|] eqn:E.
  2:{ injection Hd as <- _. done. }
  injection Hd as <- Hd. unfold ret in H. injection H as <-. rewrite Hd', <- Hd. split; [done|]. split; [|split; [|done]].
  - intros lid. cbn [set_shared_map_pins set_programs db_links].
    change (db_links (delete_links (links_of_program id (st_db s)) (st_db s)) !! lid = 
            match db_links (st_db s) !! lid with Some l => if lk_kernel_prog_id l =? id then None else Some l | None => None end).
    rewrite delete_links_lookup. destruct (db_links (st_db s) !! lid) as [l|] eqn:El; [|by case_decide].
    destruct (Z.eqb_spec (lk_kernel_prog_id l) id) as [Heq|Hne].
    + rewrite decide_True; [done|]. apply elem_of_dom. exists l. by apply map_lookup_filter_Some.
    + rewrite decide_False; [done|]. unfold links_of_program. intros (l' & Hl')%elem_of_dom. apply map_lookup_filter_Some in Hl' as [Hl' Hp].
      rewrite El in Hl'. injection Hl' as <-. done.
  - intros name pid. cbn. rewrite elem_of_filter. cbn. tauto.
Qed.

(** C21: a pending link is pinned under its own ID and read back as created.
    CreatePendingLink allocates the next ID of the sequence (never one that
    was used before), sets the pin path to that ID below the links directory,
    and stores the details; an undisturbed GetLink then returns the record it
    returned, and no other link row changed. *)
Theorem pending_link_roundtrip spec dir det s r s' :
  sqlite_ok s -> lsp_Details spec = Some det -> lsp_Kind spec = LinkDetails_Kind det -> plain_details det ->
  CreatePendingLink spec dir s = (Ok r, s') -> st_faults s' = [] ->
  lr_ID r = db_link_seq (st_db s) + 1 /\
  lr_PinPath r = Some (dir ++ [FormatUint (uint64 (lr_ID r))]) /\
  lr_Details r = Some det /\ lr_Metadata r = lsp_Metadata spec /\ lr_KernelLinkID r = lsp_KernelLinkID spec /\
  GetLink (lr_ID r) s' = (Ok r, s') /\
  (forall id, id <> lr_ID r -> db_links (st_db s') !! id = db_links (st_db s) !! id).
Proof.
  intros [Htx Hok] Hdet Hkind Hplain H Hf. unfold CreatePendingLink in H. step_ok H rec s1 E.
  unfold ret in H. injection H as <- <-. apply runInTx_ok in E as (s2 & s3 & Hd2 & _ & Hb & Hd3 & _); [|done].
  assert (Hnow : True) by done. eapply create_pending_ok in Hb as (t & Ht & H1 & H2 & H3 & Hrec & Hl & Hdt & Hseq & Hoth);
    [|by rewrite Hd2|done|done|done].
  rewrite Hd2 in Hrec, Hoth. rewrite <- Hd3 in Hl, Hdt, Hoth. rewrite Hdet.
  assert (Hid : lr_ID rec = db_link_seq (st_db s) + 1) by (by rewrite Hrec).
  rewrite Hrec. cbn [with_details lr_ID lr_PinPath lr_Details lr_Metadata lr_KernelLinkID lr_ProgramID lr_Kind lr_CreatedAt].
  repeat (split; [done|]). rewrite Hid in *. split; [|done].
  unfold GetLink, bind. rewrite query_faultless by done. rewrite Hl. cbn [scanLinkRecord lk_kind].
  assert (Hpk : ParseLinkKind (lsp_Kind spec) = Ok (lsp_Kind spec)).
  { unfold ParseLinkKind. rewrite bool_decide_true; [done|]. rewrite Hkind. clear. destruct det as [x|x|x|x|x|x|x|x]; cbn;
      try destruct (kpd_Retprobe x); try destruct (upd_Retprobe x); set_solver. }
  rewrite Hpk. cbn. unfold getLinkDetails. cbn [lr_Kind lr_ID]. rewrite Ht. unfold bind. rewrite query_faultless by done.
  rewrite (read_plain t _ det) by done. cbn. unfold ret. by rewrite Hrec.
Qed.
