(* ===== verification/Placed.v ===== *)
(** * Where records may point

    The store records bpffs paths that the manager later removes: link pins,
    program pins, map directories. [placed] says that none of them reaches
    into the dispatcher directories unless it belongs to a dispatcher member,
    that member rows belong to a stored dispatcher and carry valid
    proceed-on codes. Every store method the manager calls keeps it, and the
    methods that are not about dispatchers leave the stored dispatchers as they
    are ([calm]). *)

From Stdlib Require Import ZArith Lia String.
From stdpp Require Import base tactics sets list gmap strings numbers sorting.
From S2P Require Import Prelude Actions Dispatcher Domain Slots Layout Platform Detach StoreDb Store StoreTx StoreSpec StoreInv.

Local Open Scope string_scope.
Local Open Scope list_scope.
Local Open Scope Z_scope.

(** ** Paths apart from the dispatchers *)

Section Paths.
Context (base : path).

Definition disp_area (q : path) : Prop :=
  exists dt, dt <> DispatcherTypeZero /\ dispatcherTypeDir base dt `prefix_of` q.

(** Removing [p] with everything below it touches no dispatcher. *)
Definition apart (p : path) : Prop := forall q, p `prefix_of` q -> ~ disp_area q.

Lemma apart_app s rest : s <> "fs" -> apart (base ++ s :: rest).
Proof.
  intros Hs q [z ->] (dt & _ & [z' H]). unfold dispatcherTypeDir, MountPoint in H.
  rewrite <- !app_assoc in H. apply app_inv_head in H. cbn in H. by injection H as ? _.
Qed.

Lemma apart_fs s rest : (forall dt, dt <> DispatcherTypeZero -> s <> DispatcherType_String dt) -> apart (base ++ "fs" :: s :: rest).
Proof.
  intros Hs q [z ->] (dt & Hz & [z' H]). unfold dispatcherTypeDir, MountPoint in H.
  rewrite <- !app_assoc in H. apply app_inv_head in H. cbn in H. injection H as H _. by apply (Hs dt).
Qed.

Lemma apart_not_disp p : apart p -> ~ disp_area p.
Proof. intros H. by apply H. Qed.

Lemma fs_path x rest : MountPoint base ++ x :: rest = base ++ "fs" :: x :: rest.
Proof. unfold MountPoint. by rewrite <- app_assoc. Qed.

Lemma apart_links x : apart (Links base ++ [x]).
Proof. unfold Links. rewrite <- app_assoc. apply apart_fs. by intros []. Qed.

Lemma apart_prog id : apart (ProgPinPath base id).
Proof. unfold ProgPinPath. rewrite fs_path. apply apart_fs. by intros []. Qed.

Lemma apart_maps id : apart (MapPinDir base id).
Proof. unfold MapPinDir, Maps. rewrite <- app_assoc. apply apart_fs. by intros []. Qed.

Lemma apart_shared rest : apart (SharedMapPinDir base ++ rest).
Proof. unfold SharedMapPinDir. rewrite <- app_assoc. cbn [app]. rewrite fs_path. apply apart_fs. by intros []. Qed.

Lemma apart_tcx dir n i id : apart (TCXLinkPath base dir n i id).
Proof. unfold TCXLinkPath. rewrite fs_path. apply apart_fs. by intros []. Qed.

Lemma disp_area_link dt n i : dt <> DispatcherTypeZero -> disp_area (DispatcherLinkPath base dt n i).
Proof. intros Hz. exists dt. split; [done|]. apply prefix_app_r, reflexivity. Qed.

Lemma disp_area_revdir dt n i r q :
  dt <> DispatcherTypeZero -> DispatcherRevisionDir base dt n i r `prefix_of` q -> disp_area q.
Proof.
  intros Hz Hq. exists dt. split; [done|]. etrans; [|exact Hq]. apply prefix_app_r, reflexivity.
Qed.
End Paths.

(** ** The invariant *)

Definition xdp_key (r : memberRow) : Key := NewKey DispatcherTypeXDP (mr_nsid r) (mr_ifindex r).

Definition tc_type (dir : string) : DispatcherType :=
  if String.eqb dir TCDirectionIngress then DispatcherTypeTCIngress else DispatcherTypeTCEgress.
Definition tc_row_key (r : memberRow) : Key := NewKey (tc_type (mr_direction r)) (mr_nsid r) (mr_ifindex r).

Definition codes_valid (dt : DispatcherType) (codes : list Z) : Prop :=
  Forall (fun c => validateProceedOnCode dt c = Ok tt) codes.

(** The dispatcher stored at [k], and the one the row refers to, are the same. *)
Definition belongs (d : db) (k : Key) (r : memberRow) : Prop :=
  exists row, db_dispatchers d !! k = Some row /\ dr_program_id row = mr_dispatcher_program_id r.

(** A link that no dispatcher has as a member. *)
Definition nonmember (id : Z) (d : db) : Prop := db_xdp d !! id = None /\ db_tc d !! id = None.

(** Details that have a table of their own (no dispatcher). *)
Definition standalone (det : LinkDetails) : Prop := match det with DXDP _ | DTC _ => False | _ => True end.

Record placed (base : path) (d : db) : Prop := {
  pl_plain : forall id l p, db_links d !! id = Some l -> db_xdp d !! id = None -> db_tc d !! id = None ->
    lk_pin_path l = Some p -> apart base p;
  pl_xdp : forall id r, db_xdp d !! id = Some r ->
    belongs d (xdp_key r) r /\ codes_valid DispatcherTypeXDP (mr_proceed_on r) /\
    (forall l, db_links d !! id = Some l -> lk_kind l = LinkKindXDP);
  pl_tc : forall id r, db_tc d !! id = Some r ->
    belongs d (tc_row_key r) r /\ codes_valid DispatcherTypeTCIngress (mr_proceed_on r) /\
    TCDirection_Valid (mr_direction r) = true /\
    (forall l, db_links d !! id = Some l -> lk_kind l = LinkKindTC);
  pl_kinds : forall id l, db_links d !! id = Some l ->
    (lk_kind l = LinkKindXDP -> is_Some (db_xdp d !! id)) /\ (lk_kind l = LinkKindTC -> is_Some (db_tc d !! id));
  pl_keys : map_Forall (fun k _ => key_wf k) (db_dispatchers d);
  pl_programs : map_Forall (fun _ p => apart base (p_pin_path p)) (db_programs d);
  pl_sets : map_Forall (fun _ m => apart base (ms_pin_path m)) (db_map_sets d);
  pl_details : forall t id det, db_details d !! (t, id) = Some det -> standalone det /\ nonmember id d;
}.

Lemma placed_empty base : placed base empty_db.
Proof. split; intros *; cbn; rewrite ?lookup_empty; try done; apply map_Forall_empty. Qed.

(** The stored dispatchers and their members are the same. *)
Definition disp_same (d0 d : db) : Prop :=
  db_dispatchers d = db_dispatchers d0 /\ forall k, joined d k = joined d0 k.

Lemma disp_same_refl d : disp_same d d.
Proof. done. Qed.

Lemma disp_same_trans d0 d1 d2 : disp_same d0 d1 -> disp_same d1 d2 -> disp_same d0 d2.
Proof. intros [H1 H2] [H3 H4]. split; [congruence|]. intros k. by rewrite H4. Qed.

Lemma disp_same_snaps d0 d : disp_same d0 d -> snaps d = snaps d0.
Proof. intros [H1 H2]. apply map_eq. intros k. apply snaps_ext; [by rewrite H1|apply H2]. Qed.

(** What the methods that are not about dispatchers keep. *)
Definition calm (base : path) (d0 d : db) : Prop := db_ok d /\ placed base d /\ disp_same d0 d.

(** ** Deleting links *)

Lemma placed_delete_links base ids d : placed base d -> placed base (delete_links ids d).
Proof.
  intros [H1 H2 H3 H6 H0 H4 H5 H7]. split; cbn; [| | | |done|done|done|].
  - intros id l p [Hl Hn]%map_lookup_filter_Some Hx Ht. cbn in Hn. eapply H1; [exact Hl| |].
    + rewrite filter_notin_lookup in Hx. by rewrite decide_False in Hx.
    + rewrite filter_notin_lookup in Ht. by rewrite decide_False in Ht.
  - intros id r [Hr Hn]%map_lookup_filter_Some. destruct (H2 _ _ Hr) as (? & ? & Hk). split; [done|]. split; [done|].
    intros l [Hl _]%map_lookup_filter_Some. by apply Hk.
  - intros id r [Hr Hn]%map_lookup_filter_Some. destruct (H3 _ _ Hr) as (? & ? & ? & Hk). do 3 (split; [done|]).
    intros l [Hl _]%map_lookup_filter_Some. by apply Hk.
  - intros id l [Hl Hn]%map_lookup_filter_Some. cbn in Hn. rewrite !filter_notin_lookup, !decide_False by done. by apply H6.
  - intros t id det [Hd _]%map_lookup_filter_Some. apply H7 in Hd as [? [Hx Ht]]. split; [done|].
    split; cbn; rewrite filter_notin_lookup; by case_decide.
Qed.

Lemma joined_delete_nonmembers ids d k :
  (forall id, id ∈ ids -> db_xdp d !! id = None /\ db_tc d !! id = None) ->
  joined (delete_links ids d) k = joined d k.
Proof.
  intros Hids. apply map_eq. intros id. rewrite !joined_lookup, member_table_delete, filter_notin_lookup.
  case_decide as Hin.
  - destruct (Hids _ Hin) as [Hx Ht]. assert (member_table (KType k) d !! id = None) as -> by (by destruct (KType k)). done.
  - destruct (member_table (KType k) d !! id) as [r|]; [|done]. cbn. unfold join_member.
    by rewrite delete_links_lookup, decide_False.
Qed.

(** ** Statements that are not about dispatchers *)

Lemma fresh_nonmember d id : db_ok d -> db_links d !! id = None -> nonmember id d.
Proof. intros Hok Hn. destruct (fresh_no_details _ _ Hok Hn) as (Hx & Ht & _). split; by apply not_elem_of_dom. Qed.

Lemma joined_ext d d' :
  db_xdp d' = db_xdp d -> db_tc d' = db_tc d ->
  (forall id, ~ nonmember id d -> db_links d' !! id = db_links d !! id) ->
  (forall id l, ~ nonmember id d -> db_links d !! id = Some l ->
     db_programs d' !! lk_kernel_prog_id l = db_programs d !! lk_kernel_prog_id l) ->
  forall k, joined d' k = joined d k.
Proof.
  intros Hx Ht Hl Hp k. apply map_eq. intros id. rewrite !joined_lookup.
  assert (member_table (KType k) d' = member_table (KType k) d) as -> by (by destruct (KType k)).
  destruct (member_table (KType k) d !! id) as [r|] eqn:Er; [|done]. cbn. unfold join_member.
  destruct (at_point k r); [|done]. assert (Hm : ~ nonmember id d).
  { intros [Hnx Hnt]. destruct (KType k); cbn in Er; congruence. }
  rewrite Hl by done. destruct (db_links d !! id) as [l|] eqn:El; [|done]. cbn. by rewrite (Hp id l).
Qed.

Lemma insert_link_calm base d0 row d i row' d' :
  calm base d0 d -> (forall p, lk_pin_path row = Some p -> apart base p) ->
  lk_kind row <> LinkKindXDP -> lk_kind row <> LinkKindTC ->
  insert_link None row d = Ok (i, row', d') -> calm base d0 d' /\ nonmember i d' /\ db_links d' !! i = Some row.
Proof.
  intros (Hok & [H1 H2 H3 H6 H0 H4 H5 H7] & Hs) Hp Hkx Hkt H. pose proof (insert_link_ok _ _ _ _ _ _ Hok H) as [Hok' _].
  apply insert_link_spec in H as (-> & _ & Hn & _ & _ & _ & ->). pose proof (fresh_nonmember _ _ Hok Hn) as Hnm.
  split; [|split; [exact Hnm|apply lookup_insert_eq]]. split; [exact Hok'|]. split.
  - split; cbn; try done.
    + intros id l p [[<- <-]|[_ Hl]]%lookup_insert_Some; [by auto|by apply H1].
    + intros id r Hr. destruct (H2 _ _ Hr) as (? & ? & Hk). do 2 (split; [done|]). intros l [[<- _]|[_ Hl]]%lookup_insert_Some; [|by apply Hk].
      destruct Hnm. congruence.
    + intros id r Hr. destruct (H3 _ _ Hr) as (? & ? & ? & Hk). do 3 (split; [done|]). intros l [[<- _]|[_ Hl]]%lookup_insert_Some; [|by apply Hk].
      destruct Hnm. congruence.
    + intros id l [[<- <-]|[_ Hl]]%lookup_insert_Some; [done|by apply H6].
  - eapply disp_same_trans; [exact Hs|]. split; [done|]. apply joined_ext; cbn; try done.
    intros id Hm. apply lookup_insert_ne. by intros <-.
Qed.

Lemma insert_details_calm base d0 t id det d u d' :
  standalone det -> nonmember id d -> calm base d0 d -> insert_details t id det d = Ok (u, d') -> calm base d0 d' /\ db_links d' = db_links d /\
  db_xdp d' = db_xdp d /\ db_tc d' = db_tc d.
Proof.
  intros Hdet Hnm (Hok & [H1 H2 H3 H6 H0 H4 H5 H7] & Hs) H. pose proof (insert_details_ok _ _ _ _ _ _ Hok H) as Hok'.
  unfold insert_details in H. checks H. split; [|done]. split; [exact Hok'|].
  split.
  { split; cbn; try done. intros t' id' det' [[[= <- <-] <-]|[_ Hd]]%lookup_insert_Some; [done|by eapply H7]. }
  eapply disp_same_trans; [exact Hs|]. split; [done|]. by apply joined_ext.
Qed.

Lemma update_link_calm base d0 f id d r d' :
  (forall l, lk_kind (f l) = lk_kind l /\ lk_kernel_prog_id (f l) = lk_kernel_prog_id l) ->
  (forall l p, db_links d !! id = Some l -> lk_pin_path (f l) = Some p -> lk_pin_path l = Some p \/ apart base p) ->
  calm base d0 d -> nonmember id d -> update_link f id d = Ok (r, d') ->
  calm base d0 d' /\ nonmember id d' /\ dom (db_links d') = dom (db_links d).
Proof.
  intros Hf Hp (Hok & [H1 H2 H3 H6 H0 H4 H5 H7] & Hs) Hnm H. pose proof (update_link_ok _ _ _ _ _ Hf Hok H) as Hok'.
  unfold update_link in H. destruct (db_links d !! id) as [row|] eqn:E; [|by simplify_eq]. checks H.
  split; [|split; [exact Hnm|]].
  2:{ cbn. rewrite dom_insert_L. apply elem_of_dom_2 in E. set_solver. }
  split; [exact Hok'|]. split.
  - split; cbn; try done.
    + intros i l p [[<- <-]|[_ Hl]]%lookup_insert_Some Hx Ht Hpin; [|by eapply H1].
      destruct (Hp _ _ eq_refl Hpin) as [Hpin'|?]; [by eapply H1|done].
    + intros i r' Hr. destruct (H2 _ _ Hr) as (? & ? & Hk). do 2 (split; [done|]). intros l [[<- _]|[_ Hl]]%lookup_insert_Some; [|by apply Hk].
      destruct Hnm. congruence.
    + intros i r' Hr. destruct (H3 _ _ Hr) as (? & ? & ? & Hk). do 3 (split; [done|]). intros l [[<- _]|[_ Hl]]%lookup_insert_Some; [|by apply Hk].
      destruct Hnm. congruence.
    + intros i l [[<- <-]|[_ Hl]]%lookup_insert_Some; [|by apply H6]. destruct (Hf row) as [-> _]. by apply H6.
  - eapply disp_same_trans; [exact Hs|]. split; [done|]. apply joined_ext; cbn; try done.
    intros i Hm. apply lookup_insert_ne. by intros <-.
Qed.

Lemma delete_links_calm base d0 ids d :
  calm base d0 d -> (forall id, id ∈ ids -> nonmember id d) -> calm base d0 (delete_links ids d).
Proof.
  intros (Hok & Hpl & Hs) Hids. split; [by apply delete_links_ok|]. split; [by apply placed_delete_links|].
  eapply disp_same_trans; [exact Hs|]. split; [done|]. intros k. by apply joined_delete_nonmembers.
Qed.

Lemma save_program_calm base d0 id row d u d' :
  calm base d0 d -> db_programs d !! id = None -> apart base (p_pin_path row) ->
  save_program id row d = Ok (u, d') -> calm base d0 d'.
Proof.
  intros (Hok & [H1 H2 H3 H6 H0 H4 H5 H7] & Hs) Hn Hp H. pose proof (save_program_ok _ _ _ _ _ Hok H) as Hok'.
  unfold save_program in H. checks H. split; [exact Hok'|]. split.
  - split; cbn; try done. apply map_Forall_insert_2; [|done]. by rewrite Hn.
  - eapply disp_same_trans; [exact Hs|]. split; [done|]. apply joined_ext; cbn; try done.
    intros i l _ Hl. apply lookup_insert_ne. intros ->. apply (ok_links _ Hok) in Hl as (_ & _ & [? Hl]). congruence.
Qed.

Lemma delete_program_calm base d0 id d n d' :
  calm base d0 d -> (forall i l, db_links d !! i = Some l -> lk_kernel_prog_id l = id -> nonmember i d) ->
  delete_program id d = (n, d') -> calm base d0 d'.
Proof.
  intros Hcalm Hnm H. pose proof (delete_program_ok _ _ _ _ (proj1 Hcalm) H) as Hok'.
  unfold delete_program in H. destruct (db_programs d !! id) as [row|] eqn:E; [|by simplify_eq]. simplify_eq.
  set (ids := links_of_program id d) in *.
  assert (Hids : forall i, i ∈ ids <-> exists l, db_links d !! i = Some l /\ lk_kernel_prog_id l = id).
  { intros i. unfold ids, links_of_program. rewrite elem_of_dom. split.
    - intros [l [Hl Hp]%map_lookup_filter_Some]. by exists l.
    - intros (l & Hl & Hp). exists l. by apply map_lookup_filter_Some. }
  destruct (delete_links_calm base d0 ids d Hcalm) as (_ & [H1 H2 H3 H6 H0 H4 H5 H7] & Hs).
  { intros i (l & Hl & Hp)%Hids. by eapply Hnm. }
  split; [exact Hok'|]. split.
  - split; cbn; try done. by apply map_Forall_delete.
  - eapply disp_same_trans; [exact Hs|]. split; [done|]. apply joined_ext; cbn; try done.
    intros i l _ [Hl Hn]%map_lookup_filter_Some. cbn in Hn. apply lookup_delete_ne. intros ->. apply Hn, Hids. by exists l.
Qed.

Lemma map_sets_calm base d0 t d d' :
  calm base d0 d -> db_ok d' -> d' = set_map_sets t d -> map_Forall (fun _ m => apart base (ms_pin_path m)) t ->
  calm base d0 d'.
Proof.
  intros (Hok & [H1 H2 H3 H6 H0 H4 H5 H7] & Hs) Hok' -> Ht. split; [done|]. split; [by split|].
  eapply disp_same_trans; [exact Hs|]. split; [done|]. by apply joined_ext.
Qed.

Lemma shared_calm base d0 t d d' :
  calm base d0 d -> db_ok d' -> d' = set_shared_map_pins t d -> calm base d0 d'.
Proof.
  intros (Hok & [H1 H2 H3 H6 H0 H4 H5 H7] & Hs) Hok' ->. split; [done|]. split; [by split|].
  eapply disp_same_trans; [exact Hs|]. split; [done|]. by apply joined_ext.
Qed.

(** ** Link methods *)

(** The specification of a link that no dispatcher backs. *)
Definition plain_spec (base : path) (spec : LinkSpec) : Prop :=
  (forall p, lsp_PinPath spec = Some p -> apart base p) /\
  (forall det, lsp_Details spec = Some det -> standalone det).

Lemma saveDetails_calm base d0 id det s u s' :
  standalone det -> nonmember id (st_db s) -> calm base d0 (st_db s) -> saveDetails id det s = (Ok u, s') ->
  calm base d0 (st_db s') /\ db_links (st_db s') = db_links (st_db s) /\
  (forall i, nonmember i (st_db s') <-> nonmember i (st_db s)).
Proof.
  intros Hd Hnm Hc H. destruct det; try done; cbn [saveDetails] in H;
    apply wrapping_ok, stmt_ok in H as (d1 & H & -> & _);
    (eapply insert_details_calm in H as (Hc' & Hl & Hx & Ht); [|done|exact Hnm|exact Hc]);
    unfold nonmember; by rewrite Hl, Hx, Ht.
Qed.

Lemma createLink_calm base d0 spec s r s' :
  plain_spec base spec -> calm base d0 (st_db s) -> createLink spec s = (Ok r, s') ->
  calm base d0 (st_db s') /\ nonmember (lr_ID r) (st_db s').
Proof.
  intros [Hpin Hdet] Hc H. unfold createLink in H. case_match eqn:Ek; [done|].
  apply orb_false_iff in Ek as [Ekx Ekt]. apply String.eqb_neq in Ekx, Ekt.
  step_ok H rec s1 E1. unfold insertLinkRegistry in E1. step_ok E1 now s0 E0. injection E0 as <- <-.
  step_ok E1 idrow s2 E2. apply wrapping_ok, stmt_ok in E2 as (d & Hins & Hd & _). destruct idrow as [i row].
  step_ok E1 rec0 s3 E3. apply lift_ok in E3 as [E3 ->]. unfold ret in E1. injection E1 as <- <-.
  assert (Hi : lr_ID rec0 = i).
  { cbn [fst snd scanLinkRecord] in E3. destruct (ParseLinkKind (lk_kind row)); [|done]. cbn in E3. by injection E3 as <-. }
  eapply insert_link_calm in Hins as (Hc2 & Hn & _); [|exact Hc|exact Hpin|exact Ekx|exact Ekt]. rewrite <- Hd, <- Hi in *.
  destruct (lsp_Details spec) as [det|]; [|unfold ret in H; by simplify_eq].
  step_ok H u s4 E4. unfold ret in H. injection H as <- <-.
  eapply saveDetails_calm in E4 as (Hc4 & _ & Hm); [|by apply Hdet|exact Hn|exact Hc2]. split; [done|]. by apply Hm.
Qed.

Lemma CreateLink_calm base d0 spec : plain_spec base spec -> keeps (calm base d0) (CreateLink spec).
Proof. intros Hs. apply keeps_runInTx. intros s r s' Hc H. by apply (createLink_calm base d0) in H as [? _]. Qed.

Lemma update_returning_calm base d0 f id s r s' :
  (forall l, lk_kind (f l) = lk_kind l /\ lk_kernel_prog_id (f l) = lk_kernel_prog_id l) ->
  (forall l p, db_links (st_db s) !! id = Some l -> lk_pin_path (f l) = Some p -> lk_pin_path l = Some p \/ apart base p) ->
  calm base d0 (st_db s) -> nonmember id (st_db s) -> update_returning f id s = (r, s') -> calm base d0 (st_db s').
Proof.
  intros Hf Hp Hc Hn H. unfold update_returning, bind in H.
  destruct (stmt (update_link f id) s) as [[row|e] s1] eqn:E; [unfold lift in H|]; injection H as _ <-.
  - apply stmt_ok in E as (d & E & -> & _). eapply update_link_calm in E as [? _]; try done.
  - apply stmt_err in E as [-> _]. done.
Qed.

Lemma CreatePendingLink_calm base d0 spec dir :
  plain_spec base spec -> (forall x, apart base (dir ++ [x])) -> keeps (calm base d0) (CreatePendingLink spec dir).
Proof.
  intros Hs Hdir. unfold CreatePendingLink. apply keeps_bind; [|eauto with store]. apply keeps_runInTx.
  intros s r s' Hc H. step_ok H rec s1 E1. apply (createLink_calm base d0) in E1 as [Hc1 Hn]; [|done..].
  unfold setLinkPinPath in H. apply wrapping_ok in H. eapply update_returning_calm; [| |exact Hc1|exact Hn|exact H]; [done|].
  intros l p _ [= <-]. by right.
Qed.

Lemma FinaliseLink_calm base d0 id k s r s' :
  holds (calm base d0) s -> nonmember id (st_db s) -> FinaliseLink id k s = (r, s') -> holds (calm base d0) s'.
Proof.
  intros [Htx Hc] Hn H. split; [eapply (FinaliseLink_keeps id k s); [split; [done|apply Hc]|exact H]|].
  unfold FinaliseLink in H. destruct (update_returning _ id s) as [[x|e] s1] eqn:E; simplify_eq;
    (eapply update_returning_calm; [| |exact Hc|exact Hn|exact E]; [done|]; intros l p _ Hl; by left).
Qed.

Lemma DeleteLink_calm base d0 id : keeps (calm base d0) (DeleteLink id).
Proof.
  intros s r s' [Htx Hc] H. split; [eapply (DeleteLink_keeps id s); [split; [done|apply Hc]|exact H]|].
  unfold DeleteLink in H. unfold bind at 1 in H.
  destruct (wrapping _ _ s) as [[row|e] s1] eqn:E1; [|injection H as _ <-; apply wrapping_err in E1 as (e' & _ & E1); by apply stmt_err in E1 as [-> _]].
  apply wrapping_ok, query_ok in E1 as (-> & Hd & _). destruct (db_links (st_db s) !! id) as [l|] eqn:El; [|unfold throw in H; injection H as _ <-; by rewrite Hd].
  case_match eqn:Ek; [unfold throw in H; injection H as _ <-; by rewrite Hd|].
  assert (Hn : nonmember id (st_db s)).
  { apply orb_false_iff in Ek as [Ex Et]. destruct Hc as (_ & Hpl & _). split.
    - destruct (db_xdp (st_db s) !! id) as [r0|] eqn:Er; [|done]. apply (pl_xdp _ _ Hpl) in Er as (_ & _ & Hk).
      rewrite (Hk _ El) in Ex. done.
    - destruct (db_tc (st_db s) !! id) as [r0|] eqn:Er; [|done]. apply (pl_tc _ _ Hpl) in Er as (_ & _ & _ & Hk).
      rewrite (Hk _ El) in Et. done. }
  unfold bind in H. destruct (wrapping _ _ s1) as [[n|e] s2] eqn:E2.
  - assert (Hs' : s' = s2) by (by repeat case_match; unfold throw, ret in *; simplify_eq). subst s'.
    apply wrapping_ok, stmt_ok in E2 as (d & E2 & -> & _). injection E2 as _ <-. rewrite Hd. apply delete_links_calm; [done|].
    by intros i ->%elem_of_singleton.
  - injection H as _ <-. apply wrapping_err in E2 as (e' & _ & E2). apply stmt_err in E2 as [-> _]. by rewrite Hd.
Qed.

(** ** Program methods *)

Lemma calm_keeps_stmt base d0 {A} (f : db -> result (A * db)) :
  (forall d a d', calm base d0 d -> f d = Ok (a, d') -> calm base d0 d') -> keeps (calm base d0) (stmt f).
Proof. apply keeps_stmt. Qed.

(** The links of [id] are not members of a dispatcher. *)
Definition no_members_of (id : Z) (d : db) : Prop :=
  forall i l, db_links d !! i = Some l -> lk_kernel_prog_id l = id -> nonmember i d.

Lemma Delete_calm base d0 id s r s' :
  holds (calm base d0) s -> no_members_of id (st_db s) -> Delete id s = (r, s') -> holds (calm base d0) s'.
Proof.
  intros [Htx Hc] Hn H. split; [eapply (Delete_keeps id s); [split; [done|apply Hc]|exact H]|].
  unfold Delete, bind in H. destruct (stmt _ s) as [[n|e] s1] eqn:E.
  - assert (s' = s1) as -> by (by repeat case_match; unfold throw, ret in *; simplify_eq).
    apply stmt_ok in E as (d & E & -> & _). injection E as E. by eapply delete_program_calm.
  - injection H as _ <-. by apply stmt_err in E as [-> _].
Qed.

Lemma insert_map_set_calm base d0 id row d u d' :
  calm base d0 d -> apart base (ms_pin_path row) -> insert_map_set id row d = Ok (u, d') -> calm base d0 d'.
Proof.
  intros Hc Hp H. pose proof (insert_map_set_ok _ _ _ _ _ (proj1 Hc) H) as Hok. unfold insert_map_set in H. checks H.
  eapply map_sets_calm; [exact Hc|exact Hok|reflexivity|]. apply map_Forall_insert_2; [done|]. apply Hc.
Qed.

Lemma DeleteMapSet_calm base d0 id : keeps (calm base d0) (DeleteMapSet id).
Proof.
  unfold DeleteMapSet. keep. apply keeps_stmt. intros d n d' Hc H.
  pose proof (delete_map_set_ok _ _ _ _ (proj1 Hc) H) as Hok. unfold delete_map_set in H.
  destruct (db_map_sets d !! id); [|by simplify_eq]. checks H.
  eapply map_sets_calm; [exact Hc|exact Hok|reflexivity|]. apply map_Forall_delete, Hc.
Qed.

Lemma save_shared_calm base d0 name id d u d' :
  calm base d0 d -> save_shared_map_pin name id d = Ok (u, d') -> calm base d0 d'.
Proof.
  intros Hc H. pose proof (save_shared_ok _ _ _ _ _ (proj1 Hc) H) as Hok. unfold save_shared_map_pin in H. checks H.
  by eapply shared_calm.
Qed.

Lemma orphaned_maps_frame names : forall s l s', orphaned_maps names s = (Ok l, s') -> st_db s' = st_db s.
Proof.
  induction names as [|n names IH]; cbn [orphaned_maps]; intros s l s' H; [by injection H as _ <-|].
  step_ok H c s1 E1. apply wrapping_ok, query_ok in E1 as (_ & Hd & _). step_ok H rest s2 E2.
  apply IH in E2. unfold ret in H. simplify_eq. congruence.
Qed.

Lemma DeleteSharedMapPins_calm base d0 id : commits (calm base d0) (DeleteSharedMapPins id).
Proof.
  intros s l s' Hc H. unfold DeleteSharedMapPins in H. step_ok H names s1 E1.
  apply wrapping_ok, query_ok in E1 as (_ & Hd & _). destruct names as [|n names]; [injection H as _ <-; by rewrite Hd|].
  step_ok H u s2 E2. apply wrapping_ok, stmt_ok in E2 as (d & E2 & Hd2 & _). injection E2 as _ <-.
  apply orphaned_maps_frame in H. rewrite H, Hd2, Hd. eapply shared_calm; [exact Hc|apply delete_shared_ok, Hc|reflexivity].
Qed.

(** A first Save, inside or outside a transaction. *)
Lemma Save_calm base d0 id p s s' :
  calm base d0 (st_db s) -> db_programs (st_db s) !! id = None ->
  apart base (ph_PinPath (pr_Handles p)) -> apart base (ph_MapsDir (pr_Handles p)) ->
  Save id p s = (Ok tt, s') -> calm base d0 (st_db s').
Proof.
  intros Hc Hn Hp Hm H. unfold Save in H. step_ok H ms s1 E1.
  assert (Hc1 : calm base d0 (st_db s1) /\ db_programs (st_db s1) = db_programs (st_db s)).
  { destruct (ph_MapOwnerID (pr_Handles p)) as [o|]; [unfold ret in E1; by simplify_eq|].
    step_ok E1 found s2 E2. apply query_ok in E2 as (-> & Hd & _). rewrite Hn in E1.
    rewrite bool_decide_false in E1 by (by intros []). step_ok E1 u s3 E3. unfold ret in E1. simplify_eq.
    unfold insertSelfOwnedMapSet in E3. destruct (stmt _ s2) as [[v|e] s4] eqn:E4; [|by repeat case_match]. simplify_eq.
    apply stmt_ok in E4 as (d & E4 & Hd4 & _). rewrite Hd in E4. pose proof E4 as E5. rewrite Hd4.
    eapply insert_map_set_calm in E4; [|exact Hc|exact Hm]. split; [done|].
    unfold insert_map_set in E5. apply check_ok in E5 as [_ E5]. injection E5 as _ <-. done. }
  destruct Hc1 as [Hc1 Hp1]. apply wrapping_ok, stmt_ok in H as (d & H & -> & _).
  eapply save_program_calm in H; [exact H|exact Hc1|by rewrite Hp1|exact Hp].
Qed.

(** ** The dispatcher methods *)

Definition sound_db (base : path) (d : db) : Prop := db_ok d /\ placed base d.

Lemma actions_valid dt off m bits : forall acc l,
  codes_valid dt acc -> actions_loop dt off m bits acc = Ok l -> codes_valid dt l.
Proof.
  induction bits as [|b bits IH]; cbn; intros acc l Hacc H; [by simplify_eq|].
  destruct (_ =? 0); [by eapply IH|]. destruct (validateProceedOnCode dt _) as [[]|] eqn:E; [|done]. cbn in H.
  eapply IH; [|exact H]. apply Forall_app_2; [done|]. by apply Forall_singleton.
Qed.

Lemma ProceedOnActions_valid dt m l : ProceedOnActions dt m = Ok l -> codes_valid dt l.
Proof.
  unfold ProceedOnActions. destruct (proceedOnOffset dt) as [off|]; [|done]. cbn [rbind]. apply actions_valid. constructor.
Qed.

Lemma codes_valid_tc dt codes : is_xdp dt = false -> dt <> DispatcherTypeZero ->
  codes_valid dt codes -> codes_valid DispatcherTypeTCIngress codes.
Proof. intros Hx Hz H. eapply Forall_impl; [exact H|]. intros c. by destruct dt. Qed.

Lemma tc_row_key_other k r :
  is_xdp (KType k) = false -> TCDirection_Valid (mr_direction r) = true -> tc_row_key r = k -> at_point k r = true.
Proof.
  intros Hx Hd <-. unfold at_point, tc_row_key, tc_type. cbn. rewrite !Z.eqb_refl. cbn.
  unfold TCDirection_Valid in Hd. apply orb_true_iff in Hd as [Hd|Hd]; apply String.eqb_eq in Hd; by rewrite Hd.
Qed.

(** Without the rows of its own members, a dispatcher is referred to by none. *)
Lemma delete_ext_elsewhere base k d :
  placed base d ->
  (forall id r, db_xdp (delete_ext_links k d) !! id = Some r -> xdp_key r <> k) /\
  (forall id r, db_tc (delete_ext_links k d) !! id = Some r -> tc_row_key r <> k).
Proof.
  intros Hpl. unfold delete_ext_links. split.
  - intros id r [Hr Hn]%map_lookup_filter_Some Heq. cbn in Hn. apply Hn, ext_ids_spec. exists r. rewrite <- Heq.
    split; [done|]. unfold at_point, xdp_key. cbn. by rewrite !Z.eqb_refl.
  - intros id r [Hr Hn]%map_lookup_filter_Some Heq. cbn in Hn. apply Hn, ext_ids_spec. exists r.
    apply (pl_tc _ _ Hpl) in Hr as Hr'. destruct Hr' as (_ & _ & Hd & _).
    assert (Hx : is_xdp (KType k) = false) by (rewrite <- Heq; unfold tc_row_key, tc_type; cbn; by destruct (_ =? _)%string).
    split; [by destruct (KType k)|]. by apply tc_row_key_other.
Qed.

Lemma belongs_ne d k k' t r row :
  belongs d k' r -> k' <> k -> db_dispatchers d = t -> belongs (set_dispatchers (<[k := row]> t) d) k' r.
Proof. intros (x & Hx & Hp) Hne <-. exists x. split; [|done]. cbn. by rewrite lookup_insert_ne. Qed.

Lemma upsert_placed base k row d u d' :
  placed base d -> key_wf k ->
  (forall id r, db_xdp d !! id = Some r -> xdp_key r <> k) -> (forall id r, db_tc d !! id = Some r -> tc_row_key r <> k) ->
  upsert_dispatcher k row d = Ok (u, d') ->
  placed base d' /\ exists row', db_dispatchers d' !! k = Some row' /\ dr_program_id row' = dr_program_id row.
Proof.
  intros [H1 H2 H3 H6 H0 H4 H5 H7] Hk Hx Ht H. unfold upsert_dispatcher in H. checks H. split.
  - split; cbn; try done.
    + intros id r Hr. destruct (H2 _ _ Hr) as (Hb & ? & ?). split; [|done]. apply belongs_ne; [done|by eapply Hx|done].
    + intros id r Hr. destruct (H3 _ _ Hr) as (Hb & ? & ?). split; [|done]. apply belongs_ne; [done|by eapply Ht|done].
    + by apply map_Forall_insert_2.
  - cbn. rewrite lookup_insert_eq. eexists. split; [done|]. by destruct (db_dispatchers d !! k).
Qed.

(** The key a new member row points at is the dispatcher's. *)
Lemma member_row_key k rt sp codes :
  KType k <> DispatcherTypeZero ->
  if is_xdp (KType k) then xdp_key (member_row k rt sp codes) = k
  else tc_row_key (member_row k rt sp codes) = k /\ TCDirection_Valid (mr_direction (member_row k rt sp codes)) = true.
Proof. destruct k as [[] n i]; cbn; by intros. Qed.

Lemma kind_of_other (t : gmap Z linkRow) id row i kind :
  i <> id -> (forall l, t !! i = Some l -> lk_kind l = kind) ->
  forall l, <[id := row]> t !! i = Some l -> lk_kind l = kind.
Proof. intros Hne Hk l. rewrite lookup_insert_ne by done. apply Hk. Qed.

Lemma placed_insert_member base k rt sp codes id now seq d :
  placed base d -> nonmember id d -> (forall t, db_details d !! (t, id) = None) -> KType k <> DispatcherTypeZero ->
  (exists row, db_dispatchers d !! k = Some row /\ dr_program_id row = rt_ProgramID rt) ->
  codes_valid (KType k) codes ->
  placed base (set_member_table (KType k) (<[id := member_row k rt sp codes]> (member_table (KType k)
    (set_links (<[id := ext_link_row k sp now]> (db_links d)) seq d)))
    (set_links (<[id := ext_link_row k sp now]> (db_links d)) seq d)).
Proof.
  intros [H1 H2 H3 H6 H0 H4 H5 H7] [Hnx Hnt] Hndet Hz Hbel Hcodes. pose proof (member_row_key k rt sp codes Hz) as Hkey.
  change (belongs d k (member_row k rt sp codes)) in Hbel.
  assert (Hox : forall i r, db_xdp d !! i = Some r -> i <> id) by congruence.
  assert (Hot : forall i r, db_tc d !! i = Some r -> i <> id) by congruence.
  assert (Hkind : lk_kind (ext_link_row k sp now) = if is_xdp (KType k) then LinkKindXDP else LinkKindTC) by (cbn; by destruct (KType k)).
  assert (Hv : is_xdp (KType k) = false -> codes_valid DispatcherTypeTCIngress codes) by (intros; by eapply codes_valid_tc).
  assert (Hold : forall id' r, db_xdp d !! id' = Some r -> belongs d (xdp_key r) r /\ codes_valid DispatcherTypeXDP (mr_proceed_on r) /\
            (forall l, <[id := ext_link_row k sp now]> (db_links d) !! id' = Some l -> lk_kind l = LinkKindXDP)).
  { intros i r Hr. destruct (H2 _ _ Hr) as (? & ? & Hk). do 2 (split; [done|]). apply kind_of_other; [by eapply Hox|done]. }
  assert (Holt : forall id' r, db_tc d !! id' = Some r -> belongs d (tc_row_key r) r /\ codes_valid DispatcherTypeTCIngress (mr_proceed_on r) /\
            TCDirection_Valid (mr_direction r) = true /\
            (forall l, <[id := ext_link_row k sp now]> (db_links d) !! id' = Some l -> lk_kind l = LinkKindTC)).
  { intros i r Hr. destruct (H3 _ _ Hr) as (? & ? & ? & Hk). do 3 (split; [done|]). apply kind_of_other; [by eapply Hot|done]. }
  assert (Hset : forall t d', set_member_table (KType k) t d' = if is_xdp (KType k) then set_members t (db_tc d') d' else set_members (db_xdp d') t d')
    by (intros; by destruct (KType k)).
  assert (Htab : forall d', member_table (KType k) d' = if is_xdp (KType k) then db_xdp d' else db_tc d') by (intros; by destruct (KType k)).
  rewrite Hset, Htab. destruct (is_xdp (KType k)) eqn:Ex; split; cbn [set_members set_links db_links db_xdp db_tc db_dispatchers db_programs db_map_sets]; try done.
  all: try (intros t i det Hd; pose proof (H7 _ _ _ Hd) as [Hst [Hix Hit]]; split; [done|];
    assert (id <> i) by (intros ->; by rewrite Hndet in Hd); split; cbn; rewrite ?lookup_insert_ne by done; done).
  1,4: intros i l p; rewrite lookup_insert_Some, lookup_insert_None; intros [[<- _]|[_ Hl]]; [tauto|]; intros Hx Ht Hp; eapply (H1 i l p); tauto.
  - intros i r [[<- <-]|[_ Hr]]%lookup_insert_Some; [|by apply Hold]. rewrite Hkey. split; [done|]. split; [by destruct (KType k)|].
    intros l. rewrite lookup_insert_eq. by intros [= <-].
  - intros i l [[<- <-]|[Hne Hl]]%lookup_insert_Some; [rewrite Hkind, lookup_insert_eq; split; [eauto|done]|].
    rewrite lookup_insert_ne by done. by apply H6.
  - intros i r [[<- <-]|[_ Hr]]%lookup_insert_Some; [|by apply Holt]. destruct Hkey as [-> Hd]. split; [done|]. split; [by apply Hv|].
    split; [done|]. intros l. rewrite lookup_insert_eq. by intros [= <-].
  - intros i l [[<- <-]|[Hne Hl]]%lookup_insert_Some; [rewrite Hkind, lookup_insert_eq; split; [done|eauto]|].
    rewrite lookup_insert_ne by done. by apply H6.
Qed.

Lemma insert_ext_placed base k rt sp s m s' :
  key_wf k -> sound_db base (st_db s) ->
  (exists row, db_dispatchers (st_db s) !! k = Some row /\ dr_program_id row = rt_ProgramID rt) ->
  insert_ext k rt sp s = (Ok m, s') ->
  sound_db base (st_db s') /\ db_dispatchers (st_db s') = db_dispatchers (st_db s).
Proof.
  intros (Hz & _) [Hok Hpl] Hrow H. unfold insert_ext in H. step_ok H now s0 E0. injection E0 as <- <-.
  step_ok H idrow s1 E1. apply wrapping_ok, stmt_ok in E1 as (d1 & Hins & Hd1 & _). destruct idrow as [id row].
  pose proof (insert_link_ok _ _ _ _ _ _ Hok Hins) as [Hok1 Hnd]. pose proof Hnd as (Hnx & Hnt & Hndet).
  apply insert_link_spec in Hins as (-> & _ & Hfree & _ & _ & _ & ->). cbn [fst] in H.
  step_ok H codes s2 E2. apply lift_ok in E2 as [Hcodes ->].
  destruct (proceedOnToJSON (KType k) (ms_ProceedOn sp)) as [codes'|] eqn:Hj; [|done].
  cbn in Hcodes. injection Hcodes as ->. apply ProceedOnActions_valid in Hj.
  step_ok H u s3 E3. apply wrapping_ok, stmt_ok in E3 as (d3 & Hmem & Hd3 & _). injection H as <- <-.
  rewrite Hd1 in Hmem. pose proof (insert_member_ok _ _ _ _ _ _ Hok1 Hnd Hmem) as Hok3.
  apply insert_member_spec in Hmem as (_ & _ & _ & ->). rewrite Hd3. cbn [set_links db_xdp db_tc] in Hnx, Hnt.
  apply not_elem_of_dom in Hnx, Hnt. split; [split; [done|]|by destruct (KType k)].
  apply placed_insert_member; [exact Hpl|by split|exact Hndet|exact Hz|exact Hrow|exact Hj].
Qed.

Lemma insert_exts_placed base k rt specs : forall s ms s',
  key_wf k -> sound_db base (st_db s) ->
  (exists row, db_dispatchers (st_db s) !! k = Some row /\ dr_program_id row = rt_ProgramID rt) ->
  insert_exts k rt specs s = (Ok ms, s') -> sound_db base (st_db s').
Proof.
  induction specs as [|sp specs IH]; intros s ms s' Hk Hs Hrow H; cbn [insert_exts] in H; [by injection H as _ <-|].
  step_ok H m s1 E1. apply (insert_ext_placed base) in E1 as [Hs1 Hd]; [|done..].
  step_ok H ms' s2 E2. injection H as _ <-. eapply IH; [done|exact Hs1| |exact E2]. by rewrite Hd.
Qed.

(** What the manager's requests put into a snapshot. *)
Definition placeable (snap : DispatcherSnapshotSpec) : Prop := key_wf (ss_Key snap) /\ in_uint32 (ss_Revision snap).

Lemma ReplaceSnapshot_placed base snap : placeable snap -> keeps (sound_db base) (Store.ReplaceDispatcherSnapshot snap).
Proof.
  intros [Hk Hr]. apply keeps_runInTx. intros s a s' [Hok Hpl] H. unfold replaceDispatcherSnapshot in H.
  step_ok H now s0 E0. injection E0 as <- <-.
  step_ok H u1 s1 E1. apply wrapping_ok, stmt_ok in E1 as (d1 & [= _ <-] & Hd1 & _).
  step_ok H u2 s2 E2. apply wrapping_ok, stmt_ok in E2 as (d2 & Hup & Hd2 & _). rewrite Hd1 in Hup.
  pose proof (delete_ext_links_ok (ss_Key snap) _ Hok) as Hok1.
  destruct (delete_ext_elsewhere base (ss_Key snap) (st_db s) Hpl) as [Hx Ht].
  assert (Hok2 : db_ok d2) by (eapply upsert_dispatcher_ok; [|exact Hok1|exact Hup]; exact Hr).
  apply (upsert_placed base) in Hup as [Hpl2 Hrow]; [|by apply placed_delete_links|done..].
  step_ok H ms s3 E3. injection H as _ <-. subst d2. by eapply insert_exts_placed in E3.
Qed.

Lemma belongs_delete d k k' r : belongs d k' r -> k' <> k -> belongs (set_dispatchers (delete k (db_dispatchers d)) d) k' r.
Proof. intros (x & Hx & Hp) Hne. exists x. split; [|done]. cbn. by rewrite lookup_delete_ne. Qed.

Lemma delete_dispatcher_placed base k d n d' :
  placed base d ->
  (forall id r, db_xdp d !! id = Some r -> xdp_key r <> k) -> (forall id r, db_tc d !! id = Some r -> tc_row_key r <> k) ->
  delete_dispatcher k d = Ok (n, d') -> placed base d'.
Proof.
  intros Hpl Hx Ht H. unfold delete_dispatcher in H. destruct (db_dispatchers d !! k) as [o|]; [|by simplify_eq]. checks H.
  destruct Hpl as [H1 H2 H3 H6 H0 H4 H5 H7]. split; cbn; try done.
  - intros id r Hr. destruct (H2 _ _ Hr) as (Hb & ? & ?). split; [|done]. apply belongs_delete; [done|]. by eapply Hx.
  - intros id r Hr. destruct (H3 _ _ Hr) as (Hb & ? & ?). split; [|done]. apply belongs_delete; [done|]. by eapply Ht.
  - by apply map_Forall_delete.
Qed.

Lemma DeleteSnapshot_placed base k : keeps (sound_db base) (Store.DeleteDispatcherSnapshot k).
Proof.
  apply keeps_runInTx. intros s a s' [Hok Hpl] H. unfold deleteDispatcherSnapshot in H.
  step_ok H u1 s1 E1. apply wrapping_ok, stmt_ok in E1 as (d1 & [= _ <-] & Hd1 & _).
  step_ok H n s2 E2. apply wrapping_ok, stmt_ok in E2 as (d2 & Hdel & Hd2 & _). rewrite Hd1 in Hdel.
  pose proof (delete_dispatcher_ok _ _ _ _ (delete_ext_links_ok k _ Hok) Hdel) as Hok2.
  destruct (delete_ext_elsewhere base k (st_db s) Hpl) as [Hx Ht].
  eapply delete_dispatcher_placed in Hdel; [|by apply placed_delete_links|done..].
  assert (s' = s2) as -> by (case_match; unfold throw, ret in H; by simplify_eq). by rewrite Hd2.
Qed.

Lemma GetSnapshot_sound base k : keeps (sound_db base) (Store.GetDispatcherSnapshot k).
Proof. unfold Store.GetDispatcherSnapshot. keep. Qed.
