(* ===== verification/StoreRefine.v ===== *)
(** * The dispatcher table the store implements

    An abstract machine: one snapshot per attach point, replaced and deleted
    as a whole, with the names and pins of the programs the members run. Any
    history of calls on the SQLite store, with any driver refusals, is a history
    of this machine: reads return what the table has, completed writes happen
    at once, refused ones not at all, and the methods that are about links,
    map sets and shared pins do not show. *)

From Stdlib Require Import ZArith Lia String.
From stdpp Require Import base tactics sets list gmap strings numbers sorting.
From S2P Require Import Prelude Actions Dispatcher Domain Slots Layout Platform Executor StoreDb Store StoreTx StoreSpec StoreInv Placed.

Local Open Scope string_scope.
Local Open Scope list_scope.
Local Open Scope Z_scope.

(** ** The abstract machine *)

Inductive tableOp :=
| TGet (k : Key)
| TReplace (sp : DispatcherSnapshotSpec)
| TDelete (k : Key)
| TOther (c : StoreInv.call).

Inductive tableReply :=
| RSnapshot (r : result DispatcherSnapshot)
| RDone (r : result unit).

(** A completed replacement: the snapshot asked for, its members with the
    link IDs asked for or new ones, read back with the programs' names and
    pins, in the order of the read. *)
Definition replaced (v : sview) (sp : DispatcherSnapshotSpec) (snap : DispatcherSnapshot) (v' : sview) : Prop :=
  sn_Key snap = ss_Key sp /\ sn_Revision snap = ss_Revision sp /\ sn_Runtime snap = ss_Runtime sp /\
  Forall2 completes (ss_Members sp) (sn_Members snap) /\
  exists ms, ms ≡ₚ (stored_member (sv_progs v) <$> sn_Members snap) /\
    v' = mkSview (<[ss_Key sp := mkDispatcherSnapshot (ss_Key sp) (ss_Revision sp) (ss_Runtime sp) ms]> (sv_snaps v)) (sv_progs v).

Inductive table_step (v : sview) : tableOp -> tableReply -> sview -> Prop :=
| table_hit k snap :
    sv_snaps v !! k = Some snap -> table_step v (TGet k) (RSnapshot (Ok snap)) v
| table_miss k e :
    sv_snaps v !! k = None -> isNotFound e = true -> table_step v (TGet k) (RSnapshot (Err e)) v
| table_get_refused k e :
    isNotFound e = false -> table_step v (TGet k) (RSnapshot (Err e)) v
| table_replace sp snap v' :
    replaced v sp snap v' -> table_step v (TReplace sp) (RSnapshot (Ok snap)) v'
| table_replace_refused sp e : table_step v (TReplace sp) (RSnapshot (Err e)) v
| table_delete k :
    table_step v (TDelete k) (RDone (Ok tt)) (mkSview (delete k (sv_snaps v)) (sv_progs v))
| table_delete_refused k e : table_step v (TDelete k) (RDone (Err e)) v
| table_other c r ps : table_step v (TOther c) (RDone r) (mkSview (sv_snaps v) ps).

Inductive table_history : sview -> list tableOp -> list tableReply -> sview -> Prop :=
| history_nil v : table_history v [] [] v
| history_cons v o r v1 os rs v2 :
    table_step v o r v1 -> table_history v1 os rs v2 -> table_history v (o :: os) (r :: rs) v2.

(** ** The store *)

Definition run_op (o : tableOp) (s : store) : tableReply * store :=
  match o with
  | TGet k => let '(r, s') := Store.GetDispatcherSnapshot k s in (RSnapshot r, s')
  | TReplace sp => let '(r, s') := Store.ReplaceDispatcherSnapshot sp s in (RSnapshot r, s')
  | TDelete k => let '(r, s') := Store.DeleteDispatcherSnapshot k s in (RDone r, s')
  | TOther c => let '(r, s') := run_call c s in (RDone r, s')
  end.

Fixpoint run_ops (os : list tableOp) (s : store) : list tableReply * store :=
  match os with
  | [] => ([], s)
  | o :: os' => let '(r, s1) := run_op o s in let '(rs, s2) := run_ops os' s1 in (r :: rs, s2)
  end.

Section Refinement.
Context (base : path).

(** Calls that do not write about dispatchers or their members. *)
Definition other_call (c : StoreInv.call) : Prop :=
  match c with
  | CallCreateLink spec => plain_spec base spec
  | CallCreatePendingLink spec dir => plain_spec base spec /\ forall x, apart base (dir ++ [x])
  | CallDeleteLink _ | CallDeleteMapSet _ => True
  | _ => False
  end.

Definition op_wf (o : tableOp) : Prop :=
  match o with
  | TGet _ | TDelete _ => True
  | TReplace sp => spec_wf sp /\ placeable sp
  | TOther c => other_call c
  end.

Lemma other_keeps c d0 : other_call c -> keeps (calm base d0) (run_call c).
Proof.
  destruct c; try done; cbn [run_call other_call]; intros Hs.
  - apply DeleteMapSet_calm.
  - apply keeps_bind; [by apply CreateLink_calm|intros; apply keeps_ret].
  - destruct Hs. apply keeps_bind; [by apply CreatePendingLink_calm|intros; apply keeps_ret].
  - apply DeleteLink_calm.
Qed.

Lemma op_simulated o s r s' :
  holds (sound_db base) s -> op_wf o -> run_op o s = (r, s') ->
  holds (sound_db base) s' /\ table_step (sqlite_view s) o r (sqlite_view s').
Proof.
  intros Hs Hwf H. pose proof Hs as (Htx & Hok & Hpl). assert (Hsq : sqlite_ok s) by done. destruct o as [k|sp|k|c]; cbn [run_op op_wf] in *.
  - destruct (Store.GetDispatcherSnapshot k s) as [x s1] eqn:E. injection H as <- <-. split; [by eapply (GetSnapshot_sound base k)|].
    apply get_spec in E as (Hd & _ & Hr). rewrite (view_of_db _ _ Hd). destruct x as [snap|e]; [apply table_hit, Hr|].
    destruct (isNotFound e) eqn:He; [by apply table_miss; [apply Hr|]|by apply table_get_refused].
  - destruct Hwf as [Hwf Hpl']. destruct (Store.ReplaceDispatcherSnapshot sp s) as [x s1] eqn:E. injection H as <- <-.
    split; [by eapply (ReplaceSnapshot_placed base sp)|]. destruct x as [snap|e].
    + apply (@replace_ok store sqlite_dispatcher_ops sqlite_dispatcher_store) in E as (_ & Hk & Hr & Hrt & HF & _ & _ & ms & Hp & Hv); [|done..].
      apply table_replace. repeat (split; [done|]). by exists ms.
    + apply (@replace_err store sqlite_dispatcher_ops sqlite_dispatcher_store) in E as [_ Hv]; [|done]. cbn in Hv. rewrite Hv. apply table_replace_refused.
  - destruct (Store.DeleteDispatcherSnapshot k s) as [x s1] eqn:E. injection H as <- <-. split; [by eapply (DeleteSnapshot_placed base k)|].
    destruct x as [[]|e].
    + apply (@delete_ok store sqlite_dispatcher_ops sqlite_dispatcher_store) in E as [_ Hv]; [|done]. cbn in Hv. rewrite Hv. apply table_delete.
    + apply (@delete_err store sqlite_dispatcher_ops sqlite_dispatcher_store) in E as [_ Hv]; [|done]. cbn in Hv. rewrite Hv. apply table_delete_refused.
  - destruct (run_call c s) as [x s1] eqn:E. injection H as <- <-. apply (other_keeps c (st_db s)) in E as (Htx' & Hok' & Hpl' & Hsame); [|done|].
    + split; [done|]. assert (sqlite_view s1 = mkSview (sv_snaps (sqlite_view s)) (sv_progs (sqlite_view s1))) as ->; [|apply table_other].
      unfold sqlite_view. cbn. by rewrite (disp_same_snaps _ _ Hsame).
    + split; [done|]. split; [done|]. split; [done|]. apply disp_same_refl.
Qed.

(** C17: the SQLite store refines the dispatcher table. Every history of
    snapshot reads, replacements and deletions, interleaved with the creation
    and deletion of links without a dispatcher and of map sets, with any
    driver refusals in between, is a history of the abstract machine: the same
    replies, and tables that stand for the machine's final state. A read
    returns the snapshot the table has, and says not-found only when it has none;
    a completed replacement or deletion changes one entry; a refused one
    changes none. *)
Theorem sqlite_refines_table os s rs s' :
  holds (sound_db base) s -> Forall op_wf os -> run_ops os s = (rs, s') ->
  holds (sound_db base) s' /\ table_history (sqlite_view s) os rs (sqlite_view s').
Proof.
  intros Hs Hwf. revert s rs Hs. induction Hwf as [|o os Ho _ IH]; intros s rs Hs H; cbn [run_ops] in H; [injection H as <- <-; split; [done|constructor]|].
  destruct (run_op o s) as [r s1] eqn:E1. destruct (run_ops os s1) as [rs1 s2] eqn:E2. injection H as <- <-.
  destruct (op_simulated _ _ _ _ Hs Ho E1) as [Hs1 Hstep]. destruct (IH _ _ Hs1 E2) as [Hs2 Hh]. split; [done|]. by econstructor.
Qed.
End Refinement.
