(* ===== verification/Coherent.v ===== *)
(** * Coherent worlds

    A world of the manager is coherent when every stored dispatcher is served
    by the kernel ([dispatchers_consistent]) and the paths the store records
    are placed as [placed] says. This file has the frame lemmas the requests are
    proved with: which operations touch the store only through the snapshot
    methods, and which leave the dispatchers alone in store and kernel. *)

From Stdlib Require Import ZArith Lia String.
From stdpp Require Import base tactics sets list gmap strings numbers sorting.
From S2P Require Import Prelude Actions Dispatcher Domain Slots Layout Operation Platform Executor Rebuild.
From S2P Require Import Members XDPRebuild TCRebuild TCAttach Detach Lifecycle StoreDb Store StoreTx StoreSpec StoreInv Placed.

Local Open Scope string_scope.
Local Open Scope list_scope.
Local Open Scope Z_scope.

(** ** Computations that move a world along a preorder *)

(** From a world with [P], every run ends in a world related by [R]. *)
Class Motion {K} (P : world K store -> Prop) (R : world K store -> world K store -> Prop) := {
  motion_refl w : P w -> R w w;
  motion_trans w1 w2 w3 : R w1 w2 -> R w2 w3 -> R w1 w3;
  motion_keeps w w' : P w -> R w w' -> P w';
  motion_log w l : P w -> R w (mkWorld (w_kernel w) (w_store w) l);
}.

Section Moves.
Context {K : Type} (P : world K store -> Prop) (R : world K store -> world K store -> Prop) `{!Motion P R}.
Abbreviation W := (world K store).

Definition moves {A} (m : M W A) : Prop := forall w r w', P w -> m w = (r, w') -> R w w'.

(** The value of a successful run has the property [Q]. *)
Definition yields {A} (m : M W A) (Q : A -> Prop) : Prop := forall w a w', m w = (Ok a, w') -> Q a.

Lemma moves_ret {A} (a : A) : moves (ret a).
Proof. intros w r w' H [= <- <-]. by apply motion_refl. Qed.

Lemma moves_throw {A} e : moves (throw (A:=A) e).
Proof. intros w r w' H [= <- <-]. by apply motion_refl. Qed.

Lemma moves_lift {A} (x : result A) : moves (lift x).
Proof. intros w r w' H [= <- <-]. by apply motion_refl. Qed.

Lemma moves_gets {A} (f : W -> A) : moves (gets f).
Proof. intros w r w' H [= <- <-]. by apply motion_refl. Qed.

Lemma moves_log l msg : moves (log l msg).
Proof. intros w r w' H [= <- <-]. by apply motion_log. Qed.

Lemma moves_bind_yields {A B} (m : M W A) (f : A -> M W B) (Q : A -> Prop) :
  moves m -> yields m Q -> (forall a, Q a -> moves (f a)) -> moves (bind m f).
Proof.
  intros Hm HQ Hf w r w' H. unfold bind. destruct (m w) as [[a|e] w1] eqn:E; intros H'.
  - pose proof (HQ _ _ _ E) as Ha. apply Hm in E; [|done]. apply (Hf a Ha) in H'; [|by eapply motion_keeps].
    by eapply motion_trans.
  - simplify_eq. by apply Hm in E.
Qed.

Lemma moves_bind {A B} (m : M W A) (f : A -> M W B) : moves m -> (forall a, moves (f a)) -> moves (bind m f).
Proof. intros Hm Hf. eapply (moves_bind_yields _ _ (fun _ => True)); [done|done|auto]. Qed.

Lemma moves_wrapping {A} msg (m : M W A) : moves m -> moves (wrapping msg m).
Proof. intros Hm w r w' H. unfold wrapping. destruct (m w) as [r1 w1] eqn:E. intros; simplify_eq. by apply Hm in E. Qed.

Lemma moves_attempt {A} (m : M W A) : moves m -> moves (attempt m).
Proof. intros Hm w r w' H. unfold attempt. destruct (m w) as [r1 w1] eqn:E. intros; simplify_eq. by apply Hm in E. Qed.

Lemma moves_or_log {A} l msg (m : M W A) : moves m -> moves (or_log l msg m).
Proof.
  intros Hm w r w' H. unfold or_log. destruct (m w) as [[a|e] w1] eqn:E; (apply Hm in E; [|done]); unfold log.
  - by intros [= <- <-].
  - intros [= <- <-]. eapply motion_trans; [exact E|]. apply motion_log. by eapply motion_keeps.
Qed.

Lemma moves_on_error {A} (m : M W A) h : moves m -> (forall e, moves (h e)) -> moves (on_error m h).
Proof.
  intros Hm Hh w r w' H. unfold on_error. destruct (m w) as [[a|e] w1] eqn:E; [intros; simplify_eq; by apply Hm in E|].
  apply Hm in E; [|done]. intros [= <- <-]. destruct (h e w1) as [r2 w2] eqn:E2. cbn [snd].
  eapply motion_trans; [exact E|]. eapply Hh; [|exact E2]. by eapply motion_keeps.
Qed.

Lemma moves_best_effort {A} (m : M W A) : moves m -> moves (best_effort m).
Proof. intros Hm w r w' H. unfold best_effort. destruct (m w) as [r1 w1] eqn:E. intros; simplify_eq. by apply Hm in E. Qed.

Lemma moves_if {A} (b : bool) (m n : M W A) : moves m -> moves n -> moves (if b then m else n).
Proof. by destruct b. Qed.

Lemma moves_for_each {A} (l : list A) (f : A -> M W unit) : (forall a, moves (f a)) -> moves (for_each l f).
Proof. intros Hf. induction l; cbn; [apply moves_ret|]. by apply moves_bind. Qed.
End Moves.

Create HintDb world discriminated.
#[export] Hint Resolve moves_ret moves_throw moves_lift moves_gets moves_log moves_bind moves_wrapping moves_attempt
  moves_or_log moves_best_effort moves_on_error moves_if moves_for_each : world.
#[export] Hint Extern 0 (Motion _ _) => apply _ : world.
#[export] Hint Opaque moves : world.

Ltac stay :=
  repeat match goal with
  | |- forall _, _ => let x := fresh "x" in intros x
  | |- moves _ _ _ => solve [eauto 3 with world]
  | |- moves _ _ (bind _ _) => apply moves_bind; [apply _|..]
  | |- moves _ _ (wrapping _ _) => apply moves_wrapping
  | |- moves _ _ (attempt _) => apply moves_attempt
  | |- moves _ _ (or_log _ _ _) => apply moves_or_log; [apply _|]
  | |- moves _ _ (on_error _ _) => apply moves_on_error; [apply _|..]
  | |- moves _ _ (for_each _ _) => apply moves_for_each; [apply _|]
  | |- moves _ _ (if _ then _ else _) => apply moves_if
  | |- moves _ _ (match ?x with _ => _ end) => destruct x
  end.

(** Invariants of the store are preorders of this kind. *)
Section Stays.
Context {K : Type} (I : store -> Prop).

#[export] Instance stays_motion : Motion (K:=K) (fun w => I (w_store w)) (fun _ w' => I (w_store w')).
Proof. by split. Qed.

Lemma stays_onK {A} (m : M K A) : moves (fun w => I (w_store w)) (fun _ w' => I (w_store w')) (onK m).
Proof. intros w r w' H. unfold onK. destruct (m (w_kernel w)). by intros [= <- <-]. Qed.

Lemma stays_onS {A} (m : M store A) : (forall s r s', I s -> m s = (r, s') -> I s') ->
  moves (K:=K) (fun w => I (w_store w)) (fun _ w' => I (w_store w')) (onS m).
Proof. intros Hm w r w' H. unfold onS. destruct (m (w_store w)) as [r1 s1] eqn:E. intros [= <- <-]. by eapply Hm. Qed.
End Stays.
#[export] Hint Resolve stays_onK : world.

(** ** The executor touches the store only through the snapshot methods *)

(** An invariant of the database that the three snapshot methods keep. *)
Class SnapshotInvariant (I : db -> Prop) := {
  si_get k : keeps I (Store.GetDispatcherSnapshot k);
  si_replace snap : placeable snap -> keeps I (Store.ReplaceDispatcherSnapshot snap);
  si_delete k : keeps I (Store.DeleteDispatcherSnapshot k);
}.

#[export] Instance sound_invariant base : SnapshotInvariant (sound_db base).
Proof. split; [apply GetSnapshot_sound|apply ReplaceSnapshot_placed|apply DeleteSnapshot_placed]. Qed.

Section ExecutorStore.
Context {K : Type} `{!KernelOps K} {NC : NetConsts} `{!KernelLaws K}.
Context (base : path) (I : db -> Prop) `{!SnapshotInvariant I}.
Abbreviation W := (world K store).
Abbreviation keeps_sound m := (moves (K:=K) (fun w => holds I (w_store w)) (fun _ w' => holds I (w_store w')) m).

Lemma keeps_stays {A} (m : M store A) : keeps I m -> keeps_sound (onS m).
Proof. intros Hm. apply stays_onS. intros s r s' H E. by eapply Hm. Qed.

Lemma get_stays k : keeps_sound (onS (Platform.GetDispatcherSnapshot k)).
Proof. apply keeps_stays, si_get. Qed.

Lemma replace_stays snap : placeable snap -> keeps_sound (onS (Platform.ReplaceDispatcherSnapshot snap)).
Proof. intros H. by apply keeps_stays, si_replace. Qed.

Lemma delete_stays k : keeps_sound (onS (Platform.DeleteDispatcherSnapshot k)).
Proof. apply keeps_stays, si_delete. Qed.

Lemma cleanupExtensions_stays msg attached : keeps_sound (cleanupExtensions msg attached).
Proof. unfold cleanupExtensions. stay. Qed.

Lemma cleanupNew_stays msg p : keeps_sound (cleanupNewDispatcher msg p).
Proof. unfold cleanupNewDispatcher. stay. Qed.

Lemma verify_stays msg attached : keeps_sound (verifyExtensions msg attached).
Proof. unfold verifyExtensions. stay. Qed.

Lemma removeRevDir_stays key rev : keeps_sound (removeDispatcherRevisionDir base key rev).
Proof. unfold removeDispatcherRevisionDir, removeRevDir. stay. Qed.

Lemma removeOldRevision_stays msg key snap : keeps_sound (removeOldRevision base msg key snap).
Proof. unfold removeOldRevision, removeRevDir. stay. Qed.

Lemma removeOldFilter_stays msg dt i n old ns : keeps_sound (removeOldFilter msg dt i n old ns).
Proof. unfold removeOldFilter. stay. Qed.

Hint Resolve get_stays replace_stays delete_stays cleanupExtensions_stays cleanupNew_stays verify_stays
  removeRevDir_stays removeOldRevision_stays removeOldFilter_stays : world.

Lemma attachAll_stays attach m1 m2 cleanup p lp slots : forall i attached,
  keeps_sound cleanup -> keeps_sound (attachAll attach m1 m2 cleanup p lp slots i attached).
Proof.
  induction slots as [|s slots IH]; intros i attached Hc; cbn [attachAll]; [stay|].
  apply moves_bind; [apply _|stay; auto|]. intros out. by apply IH.
Qed.

Lemma lookup_stays key : keeps_sound (lookupSnapshot key).
Proof.
  intros w r w' H. unfold lookupSnapshot. destruct (onS _ w) as [[s|e] w1] eqn:E; apply get_stays in E; try done;
    repeat case_match; intros; by simplify_eq.
Qed.

Hint Resolve attachAll_stays lookup_stays : world.

Lemma next_revision_uint32 snap : in_uint32 (nextRevision snap).
Proof. destruct snap; cbn; [apply uint32_range|done]. Qed.

Lemma xdpInstall_stays ops key snap slots rev did :
  key_wf key -> in_uint32 rev -> keeps_sound (xdpInstall base ops key snap slots rev did).
Proof.
  intros Hk Hr. unfold xdpInstall, xdpSwap, xdpPersist.
  stay; eauto 6 with world; try (apply replace_stays; by split).
Qed.

Lemma nsid_yields p : yields (K:=K) (wrapping "get nsid: %w" (onK (NSID p))) (fun n => 0 <= n < 2 ^ 64).
Proof.
  intros w n w' H. apply wrapping_ok, onK_frame in H as (_ & _ & H). apply law_nsid_value in H as ->. apply law_ns_range.
Qed.

Lemma rebuildXDP_stays pid ops pp name prio po md :
  0 <= xo_ifindex ops < 2 ^ 32 -> keeps_sound (rebuildXDPDispatcher base pid ops pp name prio po md).
Proof.
  intros Hi. unfold rebuildXDPDispatcher. eapply moves_bind_yields; [apply _|stay|apply nsid_yields|]. intros n Hn.
  unfold xdpFinish. stay; eauto with world. apply xdpInstall_stays; [|apply next_revision_uint32]. split; [done|]. cbn in *. lia.
Qed.

Lemma tcInstall_stays ops key snap slots rev did :
  key_wf key -> in_uint32 rev -> keeps_sound (tcInstall base ops key snap slots rev did).
Proof.
  intros Hk Hr. unfold tcInstall, tcPersist.
  stay; eauto 6 with world; try (apply replace_stays; by split).
Qed.

Lemma rebuildTC_stays pid ops pp name prio po md :
  to_dispType ops <> DispatcherTypeZero -> 0 <= to_ifindex ops < 2 ^ 32 ->
  keeps_sound (rebuildTCDispatcher base pid ops pp name prio po md).
Proof.
  intros Ht Hi. unfold rebuildTCDispatcher. eapply moves_bind_yields; [apply _|stay|apply nsid_yields|]. intros n Hn.
  unfold tcFinish. stay; eauto with world. apply tcInstall_stays; [|apply next_revision_uint32]. split; [done|]. cbn in *. lia.
Qed.

Lemma removeEmpty_stays snap : keeps_sound (removeEmptyDispatcher base snap).
Proof.
  unfold removeEmptyDispatcher, detachTCDispatcherFilter, detachXDPOuterLink, removeDispatcherProgPin, Executor.deleteDispatcherSnapshot.
  stay; eauto with world.
Qed.

Lemma removeIfEmpty_stays key : keeps_sound (removeDispatcherIfEmpty base key).
Proof. pose proof removeEmpty_stays. unfold removeDispatcherIfEmpty. stay; eauto with world. Qed.

Lemma rebuildXDPForDetach_stays snap slots rev p :
  key_wf (sn_Key snap) -> in_uint32 rev -> keeps_sound (rebuildXDPForDetach base snap slots rev p).
Proof.
  intros Hk Hr. unfold rebuildXDPForDetach. stay; eauto 6 with world; try (apply replace_stays; by split).
Qed.

Lemma rebuildTCForDetach_stays snap slots rev p :
  key_wf (sn_Key snap) -> in_uint32 rev -> keeps_sound (rebuildTCForDetach base snap slots rev p).
Proof.
  intros Hk Hr. unfold rebuildTCForDetach, tcPersist. stay; eauto 6 with world; try (apply replace_stays; by split).
Qed.

Lemma rebuildForDetach_stays key id : key_wf key -> keeps_sound (rebuildDispatcherForDetach base key id).
Proof.
  intros Hk. unfold rebuildDispatcherForDetach.
  eapply moves_bind_yields with (Q := fun snap => sn_Key snap = key); [apply _|stay; eauto with world| |].
  { intros w s w' H. apply wrapping_ok in H. unfold onS in H.
    destruct (Platform.GetDispatcherSnapshot key (w_store w)) as [r s1] eqn:E. injection H as -> _.
    apply get_spec in E as (_ & _ & _ & ? & _). done. }
  intros s Hs. pose proof removeEmpty_stays. stay; eauto with world.
  - apply rebuildXDPForDetach_stays; [by cbn; rewrite Hs|apply uint32_range].
  - apply rebuildTCForDetach_stays; [by cbn; rewrite Hs|apply uint32_range].
Qed.
End ExecutorStore.

(** ** Coherence and what leaves the dispatchers alone *)

Section Quiet.
Context {K : Type} `{!KernelOps K} {NC : NetConsts} `{!KernelLaws K}.
Context (base : path).
Abbreviation W := (world K store).
Implicit Types (w : W).

Definition coherent w : Prop := dispatchers_consistent base w /\ placed base (st_db (w_store w)).

(** The stored dispatchers and everything pinned in their directories are
    the same; the store is still well formed. *)
Definition undisturbed w w' : Prop :=
  holds (calm base (st_db (w_store w))) (w_store w') /\
  only_in (fun q => ~ disp_area base q) (kv w) (kv w').

Definition sound w : Prop := holds (sound_db base) (w_store w).

Lemma coherent_sound w : coherent w -> sound w.
Proof. intros [[[Htx Hok] _] Hp]. done. Qed.

Lemma undisturbed_refl w : sound w -> undisturbed w w.
Proof. intros (Htx & Hok & Hpl). split; [|done]. split; [done|]. split; [done|]. split; [done|apply disp_same_refl]. Qed.

Lemma undisturbed_sound w w' : undisturbed w w' -> sound w'.
Proof. intros [(Htx & Hok & Hpl & _) _]. done. Qed.

Lemma undisturbed_trans w1 w2 w3 : undisturbed w1 w2 -> undisturbed w2 w3 -> undisturbed w1 w3.
Proof.
  intros [(_ & _ & _ & Hs1) [Hf1 Hp1]] [(Htx & Hok & Hpl & Hs2) [Hf2 Hp2]]. split.
  - split; [done|]. split; [done|]. split; [done|]. by eapply disp_same_trans.
  - split; [congruence|]. intros q Hq. by rewrite Hp2, Hp1.
Qed.

Lemma undisturbed_snaps w w' : undisturbed w w' -> sv_snaps (sv w') = sv_snaps (sv w).
Proof. intros [(_ & _ & _ & Hs) _]. by apply disp_same_snaps. Qed.

Lemma undisturbed_coherent w w' : coherent w -> undisturbed w w' -> coherent w'.
Proof.
  intros [[_ Hc] _] Hu. pose proof (undisturbed_snaps _ _ Hu) as Hsn. destruct Hu as [(Htx & Hok & Hpl & Hs) [Hf Hp]].
  split; [|done]. split; [by split|]. rewrite Hsn. intros k s Hk. destruct (Hc k s Hk) as (Hkey & Hn & Hi & Hr & Hx & Ht).
  assert (Hpin : forall q, disp_area base q -> kv_pins (kv w') !! q = kv_pins (kv w) !! q) by (intros q Hq; apply Hp; tauto).
  repeat (split; [done|]). split; intros Hty.
  - eapply coherent_frame; [|by apply Hx]. intros q [->|Hq]; apply Hpin; rewrite Hkey in *.
    + apply disp_area_link. by rewrite Hty.
    + eapply disp_area_revdir; [|exact Hq]. by rewrite Hty.
  - eapply tc_coherent_frame; [| |by apply Ht].
    + intros q Hq. apply Hpin. eapply disp_area_revdir; [|exact Hq]. rewrite Hkey. by destruct (KType k).
    + intros h p. by rewrite Hf.
Qed.

(** *** On the kernel *)

Definition harmless {A} (m : M K A) : Prop := confined_to view (fun q => ~ disp_area base q) m.

Lemma only_in_mono (P Q : path -> Prop) v v' : (forall q, P q -> Q q) -> only_in P v v' -> only_in Q v v'.
Proof. intros H [Hf Hp]. split; [done|]. intros q Hq. apply Hp. intros HP. by apply Hq, H. Qed.

Lemma harmless_confined {A} (P : path -> Prop) (m : M K A) :
  confined_to view P m -> (forall q, P q -> ~ disp_area base q) -> harmless m.
Proof. intros H HP k. eapply only_in_mono; [|apply H]. exact HP. Qed.

Lemma harmless_reads {A} (m : M K A) : reads view m -> harmless m.
Proof. intros H k. pose proof (H k) as E. split; [by rewrite E|]. intros q _. by rewrite E. Qed.

(** Outcomes of both kinds, each touching only the pins below [p]. *)
Lemma harmless_under {A} p (m : M K A) :
  apart base p ->
  (forall k a k', m k = (Ok a, k') -> only_in (fun q => p `prefix_of` q) (view k) (view k')) ->
  (forall k e k', m k = (Err e, k') -> only_in (fun q => p `prefix_of` q) (view k) (view k')) -> harmless m.
Proof.
  intros Hp Hok Herr k. destruct (m k) as [[a|e] k'] eqn:E; cbn [snd]; (eapply only_in_mono; [|eauto]); exact Hp.
Qed.

Lemma only_in_unpin_under p v : only_in (fun q => p `prefix_of` q) v (unpin_under p v).
Proof. split; [done|]. intros q Hq. by apply unpin_under_lookup. Qed.

Lemma only_in_at p v v' : only_at p v v' -> only_in (fun q => p `prefix_of` q) v v'.
Proof. intros [Hf Hp]. split; [done|]. intros q Hq. apply Hp. by intros ->. Qed.

Lemma only_at_changed p v : only_at p v (unpin p v).
Proof. split; [done|]. intros q Hq. by apply lookup_delete_ne. Qed.

Lemma only_at_pinned p o v : only_at p v (pin p o v).
Proof. split; [done|]. intros q Hq. by apply lookup_insert_ne. Qed.

Lemma DetachLink_harmless p : apart base p -> harmless (DetachLink p).
Proof.
  intros Hp. apply (harmless_under p); [done| |].
  - intros k [] k' H. apply law_detach_link in H as ->. apply only_in_at, only_at_changed.
  - intros k e k' H. by apply only_in_at, (law_detach_link_err p k e).
Qed.

Lemma KUnload_harmless p : apart base p -> harmless (KUnload p).
Proof.
  intros Hp. apply (harmless_under p); [done| |].
  - intros k [] k' H. apply law_unload in H as ->. apply only_in_unpin_under.
  - intros k e k' H. by eapply law_unload_err.
Qed.

Lemma RemoveAll_harmless p : apart base p -> harmless (os_RemoveAll p).
Proof.
  intros Hp. apply (harmless_under p); [done| |].
  - intros k [] k' H. apply law_remove_all in H as ->. apply only_in_unpin_under.
  - intros k e k' H. apply law_remove_all_err in H as (_ & ? & ?). done.
Qed.

Lemma attaches_harmless lp m : apart base lp -> attaches view lp m -> harmless m.
Proof.
  intros Hp [Hok Herr]. apply (harmless_under lp); [done| |].
  - intros k out k' H. apply Hok in H as (_ & -> & _). apply only_in_at, only_at_pinned.
  - intros k e k' H. by eapply only_in_at, Herr.
Qed.

Lemma harmless_ret {A} (a : A) : harmless (ret a).
Proof. by apply harmless_reads. Qed.
Lemma harmless_throw {A} e : harmless (throw (A:=A) e).
Proof. by apply harmless_reads. Qed.
Lemma harmless_lift {A} (r : result A) : harmless (lift r).
Proof. by apply harmless_reads. Qed.

Lemma only_in_trans P v1 v2 v3 : only_in P v1 v2 -> only_in P v2 v3 -> only_in P v1 v3.
Proof. intros [Hf1 Hp1] [Hf2 Hp2]. split; [congruence|]. intros q Hq. by rewrite Hp2, Hp1. Qed.

(** The continuation only has to be harmless on the values that can come out. *)
Lemma harmless_bind_yields {A B} (m : M K A) (f : A -> M K B) (Q : A -> Prop) :
  harmless m -> (forall k a k', m k = (Ok a, k') -> Q a) -> (forall a, Q a -> harmless (f a)) -> harmless (bind m f).
Proof.
  intros Hm HQ Hf k. unfold bind. specialize (Hm k). destruct (m k) as [[a|e] k1] eqn:E; [|done].
  eapply only_in_trans; [exact Hm|]. apply Hf. by eapply HQ.
Qed.
Lemma harmless_bind {A B} (m : M K A) (f : A -> M K B) : harmless m -> (forall a, harmless (f a)) -> harmless (bind m f).
Proof. intros Hm Hf. by eapply (harmless_bind_yields _ _ (fun _ => True)). Qed.
Lemma harmless_wrapping {A} msg (m : M K A) : harmless m -> harmless (wrapping msg m).
Proof. intros Hm k. specialize (Hm k). unfold wrapping. by destruct (m k). Qed.
Lemma harmless_attempt {A} (m : M K A) : harmless m -> harmless (attempt m).
Proof. intros Hm k. specialize (Hm k). unfold attempt. by destruct (m k). Qed.
Lemma harmless_best_effort {A} (m : M K A) : harmless m -> harmless (best_effort m).
Proof. intros Hm k. specialize (Hm k). unfold best_effort. by destruct (m k). Qed.
Lemma harmless_on_error {A} (m : M K A) h : harmless m -> (forall e, harmless (h e)) -> harmless (on_error m h).
Proof.
  intros Hm Hh k. specialize (Hm k). unfold on_error. destruct (m k) as [[a|e] k1]; [done|]. cbn [snd].
  eapply only_in_trans; [exact Hm|apply Hh].
Qed.
End Quiet.
#[export] Hint Resolve harmless_ret harmless_throw harmless_lift harmless_bind harmless_wrapping harmless_attempt
  harmless_best_effort harmless_on_error DetachLink_harmless KUnload_harmless RemoveAll_harmless : world.

(** ** Quiet computations: the dispatchers stay as they are *)

Section QuietMotion.
Context {K : Type} `{!KernelOps K} {NC : NetConsts} `{!KernelLaws K} (base : path).

#[export] Instance quiet_motion : Motion (K:=K) (sound base) (undisturbed base).
Proof.
  split.
  - apply undisturbed_refl.
  - apply undisturbed_trans.
  - intros w w' _. apply undisturbed_sound.
  - intros w l H. by apply (undisturbed_refl base (mkWorld (w_kernel w) (w_store w) l)).
Qed.

Lemma quiet_onK {A} (m : M K A) : harmless base m -> moves (sound base) (undisturbed base) (onK m).
Proof.
  intros Hm w r w' Hs H. apply onK_frame in H as (Hst & _ & Hk). specialize (Hm (w_kernel w)). rewrite Hk in Hm.
  destruct (undisturbed_refl base w Hs) as [Hc _]. split; [by rewrite Hst|exact Hm].
Qed.

Lemma quiet_onS {A} (m : M store A) :
  (forall d0, keeps (calm base d0) m) -> moves (K:=K) (sound base) (undisturbed base) (onS m).
Proof.
  intros Hm w r w' Hs H. unfold onS in H. destruct (m (w_store w)) as [r1 s1] eqn:E. injection H as _ <-.
  destruct (undisturbed_refl base w Hs) as [Hc _]. split; [|done]. by eapply Hm.
Qed.

Lemma quiet_coherent {A} (m : M (world K store) A) w r w' :
  moves (sound base) (undisturbed base) m -> coherent base w -> m w = (r, w') -> coherent base w'.
Proof. intros Hm Hc H. eapply undisturbed_coherent; [exact Hc|]. eapply Hm; [|exact H]. by apply coherent_sound. Qed.
End QuietMotion.
#[export] Hint Resolve quiet_onK quiet_onS CreateLink_calm DeleteLink_calm DeleteMapSet_calm : world.

(** ** More of what the snapshot methods keep *)

#[export] Instance and_invariant I J `{!SnapshotInvariant I} `{!SnapshotInvariant J} : SnapshotInvariant (fun d => I d /\ J d).
Proof.
  assert (Hand : forall A (m : M store A), keeps I m -> keeps J m -> keeps (fun d => I d /\ J d) m).
  { intros A m HI HJ s r s' (Htx & Hi & Hj) H. split; [by eapply (HI s)|]. split; [by eapply (HI s)|by eapply (HJ s)]. }
  split; intros; apply Hand; auto using si_get, si_replace, si_delete.
Qed.

(** The rows of [P], if any, are links of dispatcher members. *)
Definition kinded (P : Z -> Prop) (d : db) : Prop :=
  forall id l, P id -> db_links d !! id = Some l -> lk_kind l = LinkKindXDP \/ lk_kind l = LinkKindTC.

(** The programs, the map sets and the shared pins are these. *)
Definition tables (t : gmap Z programRow) (ms : gmap Z mapSetRow) (sp : gset (string * Z)) (d : db) : Prop :=
  db_programs d = t /\ db_map_sets d = ms /\ db_shared_map_pins d = sp.

Section Transactions.
Context (I : db -> Prop).
Context (Hdel : forall ids d, I d -> I (delete_links ids d)) (Hdisp : forall t d, I d -> I (set_dispatchers t d)).
Context (Hins : forall k sp now i seq d, I d -> I (set_links (<[i := ext_link_row k sp now]> (db_links d)) seq d)).
Context (Hmem : forall x t d, I d -> I (set_members x t d)).

Lemma insert_exts_kept k rt specs : forall s ms s', I (st_db s) -> insert_exts k rt specs s = (Ok ms, s') -> I (st_db s').
Proof.
  induction specs as [|sp specs IH]; intros s ms s' Hs H; cbn [insert_exts] in H; [by injection H as _ <-|].
  step_ok H m s1 E1. step_ok H ms' s2 E2. injection H as _ <-. eapply IH; [|exact E2].
  unfold insert_ext in E1. step_ok E1 now s0 E0. injection E0 as <- <-. step_ok E1 idrow s3 E3.
  apply wrapping_ok, stmt_ok in E3 as (d1 & E3 & Hd1 & _). destruct idrow as [i row]. apply insert_link_spec in E3 as (_ & _ & _ & _ & _ & _ & ->).
  step_ok E1 codes s4 E4. apply lift_ok in E4 as [_ ->]. step_ok E1 u s5 E5. injection E1 as _ <-. apply wrapping_ok, stmt_ok in E5 as (d3 & E5 & -> & _).
  apply insert_member_spec in E5 as (_ & _ & _ & ->). rewrite Hd1. unfold set_member_table. destruct (KType k); by apply Hmem, Hins.
Qed.

Lemma transactions_invariant : SnapshotInvariant I.
Proof.
  split; intros x.
  - unfold Store.GetDispatcherSnapshot. keep.
  - intros _. apply keeps_runInTx. intros s a s' Hs H. unfold replaceDispatcherSnapshot in H.
    step_ok H now s0 E0. injection E0 as <- <-. step_ok H u1 s1 E1. apply wrapping_ok, stmt_ok in E1 as (d1 & [= _ <-] & Hd1 & _).
    step_ok H u2 s2 E2. apply wrapping_ok, stmt_ok in E2 as (d2 & Hup & Hd2 & _). step_ok H ms s3 E3. injection H as _ <-.
    eapply insert_exts_kept; [|exact E3]. rewrite Hd2. unfold upsert_dispatcher in Hup.
    do 3 apply check_ok in Hup as [_ Hup]. injection Hup as _ <-. apply Hdisp. rewrite Hd1. by apply Hdel.
  - apply keeps_runInTx. intros s a s' Hs H. unfold Store.deleteDispatcherSnapshot in H.
    step_ok H u1 s1 E1. apply wrapping_ok, stmt_ok in E1 as (d1 & [= _ <-] & Hd1 & _).
    step_ok H n s2 E2. apply wrapping_ok, stmt_ok in E2 as (d2 & Hd & Hd2 & _).
    assert (s' = s2) as -> by (case_match; unfold throw, ret in H; by simplify_eq). rewrite Hd2.
    assert (HI : I (st_db s1)) by (rewrite Hd1; by apply Hdel).
    unfold delete_dispatcher in Hd. destruct (db_dispatchers (st_db s1) !! x); [|by simplify_eq].
    apply check_ok in Hd as [_ Hd]. injection Hd as _ <-. by apply Hdisp.
Qed.
End Transactions.

#[export] Instance kinded_invariant P : SnapshotInvariant (kinded P).
Proof.
  apply transactions_invariant; unfold kinded.
  - intros ids d H id l Hp [Hl _]%map_lookup_filter_Some. by eapply H.
  - done.
  - intros k sp now i seq d H id l Hp. cbn [set_links db_links]. intros [[<- <-]|[_ Hl]]%lookup_insert_Some; [|by eapply H].
    cbn. destruct (KType k); auto.
  - done.
Qed.

#[export] Instance tables_invariant t ms sp : SnapshotInvariant (tables t ms sp).
Proof. by apply transactions_invariant. Qed.
