(* ===== verification/Inspect.v ===== *)
(** * Observation (package inspect, manager/list.go, program list options of program.go)

    Snapshot correlates what the store records, what the kernel enumerates
    and what the bpffs scan finds, by program ID, link ID and attach point.
    The kernel's link iterator and the scanner's findings are parameters: the
    steps of the iterators, errors included. Map iteration order is not
    specified by Go and does not show in the sorted program and dispatcher
    rows. *)

From Stdlib Require Import ZArith Lia String Sorted.
From stdpp Require Import base tactics sets list gmap strings numbers sorting.
From S2P Require Import Prelude Actions Dispatcher Domain Slots Layout Planning Platform Bytecode StoreDb Store.

Local Open Scope string_scope.
Local Open Scope list_scope.
Local Open Scope Z_scope.

(** ** What the sources yield *)

Record kernelLink := mkKernelLink { kl_ID : Z; kl_ProgramID : Z }.
Record ProgPin := mkProgPin { pp_Path : string; pp_ProgramID : Z }.
Record MapDir := mkMapDir { md_Path : string; md_ProgramID : Z }.
Record DispatcherDir := mkDispatcherDir {
  dd_DispType : string; dd_Nsid : Z; dd_Ifindex : Z; dd_Revision : Z; dd_LinkCount : Z }.
Record DispatcherLinkPin := mkDispatcherLinkPin {
  dl_Path : string; dl_DispType : string; dl_Nsid : Z; dl_Ifindex : Z }.

(** What one scan of the bpffs yields; the link-pin walk may fail late. *)
Record fsScan := mkFsScan {
  sc_LinkPins : gmap Z string; sc_LinkPinsErr : option error;
  sc_ProgPins : list (result ProgPin);
  sc_MapDirs : list (result MapDir);
  sc_DispatcherDirs : list (result DispatcherDir);
  sc_DispatcherLinkPins : list (result DispatcherLinkPin);
  sc_PathExists : string -> bool }.

(** ** Rows *)

Record Presence := mkPresence { InStore : bool; InKernel : bool; InFS : bool }.

Definition OrphanFS (p : Presence) : bool := InFS p && negb (InStore p) && negb (InKernel p).
Definition KernelOnly (p : Presence) : bool := InKernel p && negb (InStore p).

Record LinkRow := mkLinkRow_ {
  lrw_Managed : option LinkRecord; lrw_Kernel : option kernelLink; lrw_FSPinPath : string;
  lrw_Presence : Presence }.

Definition LinkRow_ID (r : LinkRow) : Z := match lrw_Managed r with Some l => lr_ID l | None => 0 end.

Definition AsLink (r : LinkRow) : option Link :=
  match lrw_Managed r with
  | None => None
  | Some l => Some (mkLink l (mkLinkStatus (kl_ID <$> lrw_Kernel r) (InKernel (lrw_Presence r)) (InFS (lrw_Presence r))))
  end.

Record ProgramView := mkProgramView {
  vw_ID : Z; vw_Managed : option ProgramRecord; vw_Kernel : option kernelProgram; vw_FSPinPath : string;
  vw_MapsPresent : bool; vw_Links : list LinkRow; vw_MapUsedBy : list Z; vw_Presence : Presence }.

(** The composite object of program.go; run statistics are not modelled. *)
Record ProgramStatus := mkProgramStatus {
  pst_Kernel : option kernelProgram; pst_ProgPin : path; pst_MapDir : path; pst_Bytecode : path;
  pst_Links : list Link; pst_Maps : list kernelMap; pst_MapUsedBy : list Z }.
Record Program_ := mkProgram_ { pg_Record : ProgramRecord; pg_Status : ProgramStatus }.

Definition AsProgram (v : ProgramView) : option Program_ :=
  match vw_Managed v with
  | None => None
  | Some r => Some (mkProgram_ r
      (mkProgramStatus (vw_Kernel v) [] [] [] (omap AsLink (vw_Links v)) [] (vw_MapUsedBy v)))
  end.

Record DispatcherRow := mkDispatcherRow_ {
  drw_DispType : string; drw_Nsid : Z; drw_Ifindex : Z; drw_Managed : option DispatcherSummary;
  drw_Revision : Z; drw_ProgramID : Z; drw_KernelLinkID : Z; drw_Priority : Z;
  drw_ProgPresence : Presence; drw_LinkPresence : Presence; drw_FSLinkCount : Z }.

Record Observation := mkObservation {
  ob_Programs : list ProgramView; ob_Links : list LinkRow; ob_Dispatchers : list DispatcherRow;
  ob_Errors : list error; ob_ProgramEnumErrors : Z; ob_LinkEnumErrors : Z }.

Definition ManagedPrograms (o : Observation) : list ProgramView :=
  List.filter (fun v => InStore (vw_Presence v)) (ob_Programs o).
Definition ManagedLinks (o : Observation) : list LinkRow :=
  List.filter (fun v => InStore (lrw_Presence v)) (ob_Links o).
Definition ManagedDispatchers (o : Observation) : list DispatcherRow :=
  List.filter (fun v => InStore (drw_ProgPresence v)) (ob_Dispatchers o).

(** ** Map sets (mapset.go) *)

Definition mapSetID (id : Z) (r : ProgramRecord) : Z := default id (ph_MapOwnerID (pr_Handles r)).

Definition bySet (records : gmap Z ProgramRecord) (set : Z) : list Z :=
  merge_sort Z.le (omap (fun x => if mapSetID x.1 x.2 =? set then Some x.1 else None) (map_to_list records)).

Definition MapSetMembers (records : gmap Z ProgramRecord) : gmap Z (list Z) :=
  map_imap (fun id r => Some (bySet records (mapSetID id r))) records.

(** ** Indexes *)

(** The index built from the steps of an iterator: the last entry of a key wins. *)
Definition index_steps {A B} {Key : Type} `{Countable Key} (key : A -> Key) (val : A -> B)
    (steps : list (result A)) : gmap Key B :=
  foldl (fun m r => match r with Ok a => <[key a := val a]> m | Err _ => m end) ∅ steps.

Definition step_errors {A} (steps : list (result A)) : list error :=
  omap (fun r => match r with Err e => Some e | Ok _ => None end) steps.

Definition dispatcherKey (dispType : string) (nsid ifindex : Z) : string :=
  dispType +:+ "/" +:+ FormatUint nsid +:+ "/" +:+ FormatUint ifindex.

(** ** Snapshot *)

Section Rows.
Context (kernelProgs : gmap Z kernelProgram) (kernelLinks : gmap Z kernelLink) (scan : fsScan).
Context (fsProgPins fsMapDirs : gmap Z string).
Context (fsDispDirs : gmap string DispatcherDir) (fsDispLinks : gmap string string).

Definition storeProgramRow (mapUsedBy : gmap Z (list Z)) (x : Z * ProgramRecord) : ProgramView :=
  let '(id, prog) := x in
  mkProgramView id (Some prog) (kernelProgs !! id) (default "" (fsProgPins !! id))
    (bool_decide (is_Some (fsMapDirs !! id))) [] (default [] (mapUsedBy !! id))
    (mkPresence true (bool_decide (is_Some (kernelProgs !! id))) (bool_decide (is_Some (fsProgPins !! id)))).

Definition kernelProgramRow (x : Z * kernelProgram) : ProgramView :=
  let '(id, kp) := x in
  mkProgramView id None (Some kp) (default "" (fsProgPins !! id)) false [] []
    (mkPresence false true (bool_decide (is_Some (fsProgPins !! id)))).

Definition fsProgramRow (x : Z * string) : ProgramView :=
  let '(id, fsPath) := x in mkProgramView id None None fsPath false [] [] (mkPresence false false true).

(** Store rows, then kernel programs not seen, then pins not seen. *)
Definition programRows (storeProgs : gmap Z ProgramRecord) : list ProgramView :=
  let mapUsedBy := MapSetMembers storeProgs in
  (storeProgramRow mapUsedBy <$> map_to_list storeProgs) ++
  (kernelProgramRow <$> map_to_list (filter (fun kv => storeProgs !! kv.1 = None) kernelProgs)) ++
  (fsProgramRow <$> map_to_list (filter (fun kv => storeProgs !! kv.1 = None /\ kernelProgs !! kv.1 = None) fsProgPins)).

Definition linkPin (link : LinkRecord) : option string :=
  match (k ← lr_KernelLinkID link; sc_LinkPins scan !! k) with
  | Some pin => if String.eqb pin ""
                then match lr_PinPath link with
                     | Some p => if sc_PathExists scan (String_ p) then Some (String_ p) else Some ""
                     | None => Some ""
                     end
                else Some pin
  | None =>
      match lr_PinPath link with
      | Some p => if sc_PathExists scan (String_ p) then Some (String_ p) else None
      | None => None
      end
  end.

Definition storeLinkRow (link : LinkRecord) : LinkRow :=
  let kernelLink := k ← lr_KernelLinkID link; kernelLinks !! k in
  mkLinkRow_ (Some link) kernelLink (default "" (linkPin link))
    (mkPresence true (bool_decide (is_Some kernelLink)) (bool_decide (is_Some (linkPin link)))).

Definition kernelLinkRow (x : Z * kernelLink) : LinkRow :=
  let '(id, kl) := x in
  mkLinkRow_ None (Some kl) (default "" (sc_LinkPins scan !! id))
    (mkPresence false true (bool_decide (is_Some (sc_LinkPins scan !! id)))).

Definition linkRows (storeLinks : list LinkRecord) : list LinkRow :=
  let seen : gset Z := list_to_set (omap lr_KernelLinkID storeLinks) in
  (storeLinkRow <$> storeLinks) ++
  (kernelLinkRow <$> map_to_list (filter (fun kv => kv.1 ∉ seen) kernelLinks)).

Definition storeDispatcherRow (disp : DispatcherSummary) : DispatcherRow :=
  let k := su_Key disp in
  let key := dispatcherKey (DispatcherType_String (KType k)) (KNsid k) (KIfindex k) in
  let linkID := default 0 (rt_KernelLinkID (su_Runtime disp)) in
  mkDispatcherRow_ (DispatcherType_String (KType k)) (KNsid k) (KIfindex k) (Some disp) (su_Revision disp)
    (rt_ProgramID (su_Runtime disp)) linkID (uint32 (default 0 (rt_FilterPriority (su_Runtime disp))))
    (mkPresence true (bool_decide (is_Some (kernelProgs !! rt_ProgramID (su_Runtime disp))))
       (bool_decide (is_Some (fsDispDirs !! key))))
    (mkPresence (negb (linkID =? 0)) (negb (linkID =? 0) && bool_decide (is_Some (kernelLinks !! linkID)))
       (bool_decide (is_Some (fsDispLinks !! key))))
    (match fsDispDirs !! key with Some d => dd_LinkCount d | None => -1 end).

Definition fsDispatcherRow (x : string * DispatcherDir) : DispatcherRow :=
  let '(key, d) := x in
  mkDispatcherRow_ (dd_DispType d) (dd_Nsid d) (dd_Ifindex d) None (dd_Revision d) 0 0 0
    (mkPresence false false true) (mkPresence false false (bool_decide (is_Some (fsDispLinks !! key))))
    (dd_LinkCount d).

Definition summaryKey (disp : DispatcherSummary) : string :=
  dispatcherKey (DispatcherType_String (KType (su_Key disp))) (KNsid (su_Key disp)) (KIfindex (su_Key disp)).

Definition dispatcherRows (storeDisps : list DispatcherSummary) : list DispatcherRow :=
  let seen : gset string := list_to_set (summaryKey <$> storeDisps) in
  (storeDispatcherRow <$> storeDisps) ++
  (fsDispatcherRow <$> map_to_list (filter (fun kv => kv.1 ∉ seen) fsDispDirs)).
End Rows.

(** The links of a program, in the order of the link rows. *)
Definition add_links (links : list LinkRow) (v : ProgramView) : ProgramView :=
  mkProgramView (vw_ID v) (vw_Managed v) (vw_Kernel v) (vw_FSPinPath v) (vw_MapsPresent v)
    (List.filter (fun r => match lrw_Managed r with Some l => lr_ProgramID l =? vw_ID v | None => false end) links)
    (vw_MapUsedBy v) (vw_Presence v).

Definition program_le (a b : ProgramView) : Prop := vw_ID a <= vw_ID b.
#[export] Instance program_le_dec a b : Decision (program_le a b).
Proof. unfold program_le. apply _. Defined.

Definition link_le (a b : LinkRow) : Prop := LinkRow_ID a <= LinkRow_ID b.
#[export] Instance link_le_dec a b : Decision (link_le a b).
Proof. unfold link_le. apply _. Defined.

Definition dispatcher_le (a b : DispatcherRow) : Prop :=
  drw_DispType a <> drw_DispType b /\ String.le (drw_DispType a) (drw_DispType b) \/
  drw_DispType a = drw_DispType b /\
    (drw_Nsid a < drw_Nsid b \/ drw_Nsid a = drw_Nsid b /\ drw_Ifindex a <= drw_Ifindex b).
#[export] Instance dispatcher_le_dec a b : Decision (dispatcher_le a b).
Proof. unfold dispatcher_le. apply _. Defined.

Section Snapshot.
Context {K : Type} `{!KernelOps K} (base : path).
Context (KernelLinks : K -> list (result kernelLink)) (Scan : K -> fsScan).
Abbreviation W := (world K store).

Definition Snapshot : M W Observation :=
  let* progSteps := gets (fun w => Programs (w_kernel w)) in
  let* linkSteps := gets (fun w => KernelLinks (w_kernel w)) in
  let* scan := gets (fun w => Scan (w_kernel w)) in
  let kernelProgs := index_steps kp_ID (fun p => p) progSteps in
  let kernelLinks := index_steps kl_ID (fun l => l) linkSteps in
  let fsProgPins := index_steps pp_ProgramID pp_Path (sc_ProgPins scan) in
  let fsMapDirs := index_steps md_ProgramID md_Path (sc_MapDirs scan) in
  let fsDispDirs := index_steps (fun d => dispatcherKey (dd_DispType d) (dd_Nsid d) (dd_Ifindex d)) (fun d => d)
                      (sc_DispatcherDirs scan) in
  let fsDispLinks := index_steps (fun d => dispatcherKey (dl_DispType d) (dl_Nsid d) (dl_Ifindex d)) dl_Path
                       (sc_DispatcherLinkPins scan) in
  let errors := step_errors progSteps ++ step_errors linkSteps ++
    match sc_LinkPinsErr scan with Some e => [e] | None => [] end ++
    step_errors (sc_ProgPins scan) ++ step_errors (sc_MapDirs scan) ++
    step_errors (sc_DispatcherDirs scan) ++ step_errors (sc_DispatcherLinkPins scan) in
  let* storeProgs := onS List_ in
  let programs := programRows kernelProgs fsProgPins fsMapDirs storeProgs in
  let* storeLinks := onS ListLinks in
  let links := linkRows kernelLinks scan storeLinks in
  let* storeDisps := onS ListDispatcherSummaries in
  let dispatchers := dispatcherRows kernelProgs kernelLinks fsDispDirs fsDispLinks storeDisps in
  ret (mkObservation (merge_sort program_le (add_links links <$> programs)) (merge_sort link_le links)
         (merge_sort dispatcher_le dispatchers) errors
         (Z.of_nat (length (step_errors progSteps))) (Z.of_nat (length (step_errors linkSteps)))).

(** [inspect.GetLink] *)
Record LinkInfo := mkLinkInfo { lin_Record : LinkRecord; lin_Kernel : option kernelLink; lin_Presence : Presence }.
Context (GetLinkByID : Z -> M K kernelLink).

Definition inspect_GetLink (linkID : Z) : M W LinkInfo :=
  fun w =>
    match onS (GetLink linkID) w with
    | (Err e, w1) =>
        if errors_Is e ErrRecordNotFound then (Err (Sentinel ErrNotFound), w1) else (Err e, w1)
    | (Ok record, w1) =>
        (let* kernel := match lr_KernelLinkID record with
                        | None => ret None
                        | Some id => let* r := attempt (onK (GetLinkByID id)) in
                                     ret (match r with Ok kl => Some kl | Err _ => None end)
                        end in
         let* inFS := gets (fun w => match lr_PinPath record with
                                     | Some p => sc_PathExists (Scan (w_kernel w)) (String_ p)
                                     | None => false
                                     end) in
         ret (mkLinkInfo record kernel (mkPresence true (bool_decide (is_Some kernel)) inFS))) w1
    end.

(** ** Program list options (program.go)

    A label selector is a predicate on labels with its emptiness. *)
Record selector := mkSelector { sel_Matches : gmap string string -> bool; sel_Empty : bool }.

Record listOptions := mkListOptions {
  lop_attached : option bool; lop_types : gset string; lop_selector : option selector;
  lop_includeUnmanaged : bool }.

Inductive ListOption :=
| WithAttached
| WithUnattached
| WithTypes (types : list string)
| MatchingSelector (sel : selector)
| WithIncludeUnmanaged.

Definition apply_list_option (o : listOptions) (opt : ListOption) : listOptions :=
  match opt with
  | WithAttached => mkListOptions (Some true) (lop_types o) (lop_selector o) (lop_includeUnmanaged o)
  | WithUnattached => mkListOptions (Some false) (lop_types o) (lop_selector o) (lop_includeUnmanaged o)
  | WithTypes ts => mkListOptions (lop_attached o) (lop_types o ∪ list_to_set ts) (lop_selector o) (lop_includeUnmanaged o)
  | MatchingSelector s => mkListOptions (lop_attached o) (lop_types o) (Some s) (lop_includeUnmanaged o)
  | WithIncludeUnmanaged => mkListOptions (lop_attached o) (lop_types o) (lop_selector o) true
  end.

Definition ApplyListOptions (opts : list ListOption) : listOptions :=
  foldl apply_list_option (mkListOptions None ∅ None false) opts.

Definition hasActiveLinks (p : Program_) : bool :=
  existsb (fun l => bool_decide (lst_Kernel (l_Status l) <> None)) (pst_Links (pg_Status p)).

Definition matchesAttachment (o : listOptions) (p : Program_) : bool :=
  match lop_attached o with
  | None => true
  | Some true => hasActiveLinks p
  | Some false => negb (hasActiveLinks p)
  end.

Definition matchesType (o : listOptions) (p : Program_) : bool :=
  bool_decide (lop_types o = ∅) || bool_decide (programType (pr_Load (pg_Record p)) ∈ lop_types o).

Definition matchesLabels (o : listOptions) (p : Program_) : bool :=
  match lop_selector o with
  | None => true
  | Some s => sel_Matches s (pm_Metadata (pr_Meta (pg_Record p)))
  end.

Definition listOptions_Matches (o : listOptions) (p : Program_) : bool :=
  matchesAttachment o p && matchesType o p && matchesLabels o p.

Definition MatchesKernelOnly (o : listOptions) (kernelType : string) : bool :=
  bool_decide (lop_attached o = None) &&
  match lop_selector o with Some s => sel_Empty s | None => true end &&
  (bool_decide (lop_types o = ∅) ||
   existsb (fun t => String.eqb (KernelType t) kernelType) (elements (lop_types o))).

(** ** Queries of the manager (manager/list.go) *)

Fixpoint kernelMaps (ids : list Z) : M W (list kernelMap) :=
  match ids with
  | [] => ret []
  | id :: ids' =>
      let* r := attempt (onK (GetMapByID id)) in
      let* rest := kernelMaps ids' in
      ret (match r with Ok km => km :: rest | Err _ => rest end)
  end.

Definition with_maps (maps : list kernelMap) (p : Program_) : Program_ :=
  let s := pg_Status p in
  mkProgram_ (pg_Record p)
    (mkProgramStatus (pst_Kernel s) (pst_ProgPin s) (pst_MapDir s) (pst_Bytecode s) (pst_Links s) maps (pst_MapUsedBy s)).

Fixpoint enrichPrograms (ps : list Program_) : M W (list Program_) :=
  match ps with
  | [] => ret []
  | p :: ps' =>
      let* p' := match pst_Kernel (pg_Status p) with
                 | None => ret p
                 | Some kp => let* maps := kernelMaps (kp_MapIDs kp) in ret (with_maps maps p)
                 end in
      let* rest := enrichPrograms ps' in
      ret (p' :: rest)
  end.

Definition string_lt (a b : string) : Prop := String.le a b /\ a <> b.

(** By program ID, then type and name. *)
Definition listed_le (a b : Program_) : Prop :=
  let (ra, rb) := (pg_Record a, pg_Record b) in
  pr_ProgramID ra < pr_ProgramID rb \/
  pr_ProgramID ra = pr_ProgramID rb /\
    (string_lt (programType (pr_Load ra)) (programType (pr_Load rb)) \/
     programType (pr_Load ra) = programType (pr_Load rb) /\
       String.le (pm_Name (pr_Meta ra)) (pm_Name (pr_Meta rb))).
#[export] Instance listed_le_dec a b : Decision (listed_le a b).
Proof. unfold listed_le, string_lt. apply _. Defined.

Definition ListPrograms (opts : list ListOption) : M W (list Program_) :=
  let filter_ := ApplyListOptions opts in
  let* obs := wrapping "snapshot: %w" Snapshot in
  let* programs := enrichPrograms
    (List.filter (listOptions_Matches filter_) (omap AsProgram (ManagedPrograms obs))) in
  ret (merge_sort listed_le programs).

Definition manager_ListLinks (opts : list LinkListOption) : M W (list LinkRecord) :=
  let* links := onS ListLinks in
  ret (List.filter (linkListOptions_Matches (ApplyLinkListOptions opts)) links).

Definition ListLinksScopedToPrograms (programOpts : list ListOption) (linkOpts : list LinkListOption)
    : M W (list LinkRecord) :=
  let* progs := ListPrograms programOpts in
  let allowed : gset Z := list_to_set ((fun p => pr_ProgramID (pg_Record p)) <$> progs) in
  let* links := manager_ListLinks linkOpts in
  ret (List.filter (fun l => bool_decide (lr_ProgramID l ∈ allowed)) links).

Definition ProgramName (programID : Z) : M W string :=
  let* rec := onS (Get programID) in ret (pm_Name (pr_Meta rec)).

Definition view_matches (key value : string) (v : ProgramView) : bool :=
  InStore (vw_Presence v) && InKernel (vw_Presence v) &&
  match vw_Managed v with
  | Some r => String.eqb (default "" (pm_Metadata (pr_Meta r) !! key)) value
  | None => false
  end.

Definition FindLoadedProgramByMetadata (key value : string) : M W (ProgramRecord * Z) :=
  let* obs := wrapping "snapshot: %w" Snapshot in
  match merge_sort program_le (List.filter (view_matches key value) (ob_Programs obs)) with
  | [] => throw (Wrap "program with %s=%s: %w" (Sentinel ErrRecordNotFound))
  | v :: _ => lift (result_opt (Errorf "runtime error: nil pointer dereference")
                      (r ← vw_Managed v; Some (r, vw_ID v)))
  end.

(** Summary entries of the program listing. *)
Record ProgramListEntry := mkProgramListEntry {
  ple_ProgramID : Z; ple_Managed : bool; ple_Application : string; ple_Type : string;
  ple_FunctionName : string; ple_Links : list Z; ple_Record : option ProgramRecord;
  ple_Kernel : option kernelProgram }.

Definition programEntryFunctionName (metaName : string) (k : option kernelProgram) : string :=
  if negb (String.eqb metaName "") then metaName
  else match k with Some kp => kp_Name kp | None => "" end.

Definition linkIDs (links : list Link) : list Z := (fun l => lr_ID (l_Record l)) <$> links.

Definition managedProgramEntry (p : Program_) : ProgramListEntry :=
  let rec := pg_Record p in
  mkProgramListEntry (pr_ProgramID rec) true
    (default "" (pm_Metadata (pr_Meta rec) !! "bpfman.io/application")) (programType (pr_Load rec))
    (programEntryFunctionName (pm_Name (pr_Meta rec)) (pst_Kernel (pg_Status p)))
    (linkIDs (pst_Links (pg_Status p))) (Some rec) (pst_Kernel (pg_Status p)).

Definition kernelOnlyProgramEntry (kp : kernelProgram) : ProgramListEntry :=
  mkProgramListEntry (kp_ID kp) false "" (kp_ProgramType kp) (kp_Name kp) [] None (Some kp).

Definition programEntry (filter_ : listOptions) (row : ProgramView) : option ProgramListEntry :=
  if InStore (vw_Presence row) then
    p ← AsProgram row;
    if listOptions_Matches filter_ p then Some (managedProgramEntry p) else None
  else if lop_includeUnmanaged filter_ && KernelOnly (vw_Presence row) then
    kp ← vw_Kernel row;
    if MatchesKernelOnly filter_ (kp_ProgramType kp) then Some (kernelOnlyProgramEntry kp) else None
  else None.

Definition entry_le (a b : ProgramListEntry) : Prop := ple_ProgramID a <= ple_ProgramID b.
#[export] Instance entry_le_dec a b : Decision (entry_le a b).
Proof. unfold entry_le. apply _. Defined.

Definition ListProgramEntries (opts : list ListOption) : M W (list ProgramListEntry) :=
  let* obs := wrapping "snapshot: %w" Snapshot in
  ret (merge_sort entry_le (omap (programEntry (ApplyListOptions opts)) (ob_Programs obs))).
End Snapshot.
