(* ===== verification/Manager.v ===== *)
(** * Manager requests (package manager, package manager/action)

    The actions the plans are made of, the executor that interprets them, and
    the requests built on both: Attach, Detach, Unload, Load and the batch
    deletions. The world is the kernel of [Platform] with the SQLite store of
    [Store]. Go panics (a nil dereference, a duplicate binding key) are the
    outcome [Panic] of [Operation]; a request is a [GoM] computation. Info and
    debug messages are not recorded, and the Context is not modelled. *)

From Stdlib Require Import ZArith Lia String.
From stdpp Require Import base tactics sets list gmap strings numbers sorting.
From S2P Require Import Prelude Actions Dispatcher Domain Slots Layout Operation Planning Platform Executor Bytecode.
From S2P Require Import StoreDb Store StoreSpec.

Local Open Scope string_scope.
Local Open Scope list_scope.
Local Open Scope Z_scope.

(** ** Computations that may panic *)

Definition GoM (W A : Type) : Type := W -> outcome A * W.

Definition gret {W A} (a : A) : GoM W A := fun w => (Ret (Ok a), w).
Definition gthrow {W A} (e : error) : GoM W A := fun w => (Ret (Err e), w).
Definition gpanic {W A} : GoM W A := fun w => (Panic, w).
Definition gbind {W A B} (m : GoM W A) (f : A -> GoM W B) : GoM W B :=
  fun w => match m w with
           | (Ret (Ok a), w') => f a w'
           | (Ret (Err e), w') => (Ret (Err e), w')
           | (Panic, w') => (Panic, w')
           end.
(** A call that cannot panic. *)
Definition call {W A} (m : M W A) : GoM W A := fun w => let '(r, w') := m w in (Ret r, w').

Definition gattempt {W A} (m : GoM W A) : GoM W (result A) :=
  fun w => match m w with
           | (Ret r, w') => (Ret (Ok r), w')
           | (Panic, w') => (Panic, w')
           end.
Definition gwrapping {W A} (msg : string) (m : GoM W A) : GoM W A :=
  fun w => match m w with
           | (Ret r, w') => (Ret (wrap_err msg r), w')
           | (Panic, w') => (Panic, w')
           end.
(** A pointer dereference. *)
Definition deref {W A} (p : option A) : GoM W A :=
  match p with Some a => gret a | None => gpanic end.

Notation "'let^' x ':=' m 'in' k" := (gbind m (fun x => k))
  (at level 10, x pattern, m at level 100, k at level 200, right associativity) : go_scope.

Fixpoint gfor_each {W A} (l : list A) (f : A -> GoM W unit) : GoM W unit :=
  match l with
  | [] => gret tt
  | x :: l' => gbind (f x) (fun _ => gfor_each l' f)
  end.

(** ** Actions (action/action.go) *)

Inductive Action :=
| ACreateLink (Spec : LinkSpec)
| ADeleteLink (LinkID : Z)
| ACreatePendingLink (Spec : LinkSpec) (LinksDir : path)
| AFinaliseLink (LinkID : Z) (KernelLinkID : option Z)
| AGetProgramFromStore (ProgramID : Z)
| ALoadProgram (Spec : LoadSpec) (BPFFS : path)
| AUnloadProgram (PinPath : path)
| ARemoveMapsPins (PinPath : path)
| AAttachTracepoint (ProgPinPath : path) (Group Name : string) (LinkPinPath : path)
| AAttachKprobe (ProgPinPath : path) (FnName : string) (Offset : Z) (Retprobe : bool) (LinkPinPath : path)
| AAttachUprobeLocal (ProgPinPath : path) (Target FnName : string) (Offset Pid : Z) (Retprobe : bool)
    (LinkPinPath : path)
| AAttachUprobeContainer (Scope : option WriterScope) (ProgPinPath : path) (Target FnName : string)
    (Offset Pid : Z) (Retprobe : bool) (LinkPinPath : path) (ContainerPid : Z)
| AAttachFentry (ProgPinPath : path) (FnName : string) (LinkPinPath : path)
| AAttachFexit (ProgPinPath : path) (FnName : string) (LinkPinPath : path)
| ADetachLink (PinPath : path)
| APublishBytecode (ProgramID : Z) (SourcePath : string) (Prov : Provenance)
| ARemoveProgramDir (Path : path)
| ARemoveDispatcherRevDir (Path : path)
| AAttachTCX (Ifindex : Z) (Direction : string) (ProgPinPath LinkPinPath : path) (NetnsPath : string)
    (Order : TCXAttachOrder)
| ARemoveDispatcher (K : Dispatcher.Key)
| ARebuildXDPDispatcher (ProgramID Ifindex : Z) (Ifname NetnsPath : string) (ProgPinPath : path)
    (ProgramName : string) (Priority ProceedOn : Z) (Metadata : gmap string string)
| ARebuildTCDispatcher (ProgramID Ifindex : Z) (Ifname Direction : string) (DispType : DispatcherType)
    (NetnsPath : string) (ProgPinPath : path) (ProgramName : string) (Priority ProceedOn : Z)
    (Metadata : gmap string string)
| ARebuildDispatcherForDetach (K : Dispatcher.Key) (ExcludeLinkID : Z).

(** ** Binding values *)

(** attach_simple.go: [attachPlan] *)
Record attachPlan := mkAttachPlan {
  ap_target : string; ap_details : LinkDetails; ap_attachAction : path -> Action }.
(** attach_dispatcher.go: [dispPrepared] *)
Record dispPrepared := mkDispPrepared { dp_prog : ProgramRecord }.

(** The dynamic types stored in an [any]. *)
Inductive any :=
| VProgramRecord (v : ProgramRecord)
| VLoadOutput (v : LoadOutput)
| VLinkRecord (v : LinkRecord)
| VAttachOutput (v : AttachOutput)
| VExtensionResult (v : extensionResult)
| VAttachPlan (v : attachPlan)
| VLink (v : Link)
| VDispPrepared (v : dispPrepared).

Definition zeroProgramRecord : ProgramRecord :=
  mkProgramRecord 0 zeroLoadSpec "" false (mkProgramHandles [] [] None) (mkProgramMeta "" "" "" ∅) 0 None.
Definition zeroLinkRecord : LinkRecord := mkLinkRecord 0 0 None "" None None 0 ∅.
Definition zeroLink : Link := mkLink zeroLinkRecord (mkLinkStatus None false false).

#[export] Instance dyn_program : Dynamic any ProgramRecord :=
  {| to_any := VProgramRecord; of_any v := match v with VProgramRecord x => Some x | _ => None end;
     of_to_any t := eq_refl; zero_value := zeroProgramRecord |}.
#[export] Instance dyn_load : Dynamic any LoadOutput :=
  {| to_any := VLoadOutput; of_any v := match v with VLoadOutput x => Some x | _ => None end;
     of_to_any t := eq_refl; zero_value := mkLoadOutput [] [] None "" "" [] |}.
#[export] Instance dyn_link_record : Dynamic any LinkRecord :=
  {| to_any := VLinkRecord; of_any v := match v with VLinkRecord x => Some x | _ => None end;
     of_to_any t := eq_refl; zero_value := zeroLinkRecord |}.
#[export] Instance dyn_attach_output : Dynamic any AttachOutput :=
  {| to_any := VAttachOutput; of_any v := match v with VAttachOutput x => Some x | _ => None end;
     of_to_any t := eq_refl; zero_value := mkAttachOutput None None [] |}.
#[export] Instance dyn_extension : Dynamic any extensionResult :=
  {| to_any := VExtensionResult; of_any v := match v with VExtensionResult x => Some x | _ => None end;
     of_to_any t := eq_refl; zero_value := mkExtensionResult zeroLink (Dispatcher.NewKey DispatcherTypeZero 0 0) 0 0 [] |}.
#[export] Instance dyn_attach_plan : Dynamic any attachPlan :=
  {| to_any := VAttachPlan; of_any v := match v with VAttachPlan x => Some x | _ => None end;
     of_to_any t := eq_refl; zero_value := mkAttachPlan "" (DTracepoint (mkTracepointDetails "" "")) ADetachLink |}.
#[export] Instance dyn_link : Dynamic any Link :=
  {| to_any := VLink; of_any v := match v with VLink x => Some x | _ => None end;
     of_to_any t := eq_refl; zero_value := zeroLink |}.
#[export] Instance dyn_prepared : Dynamic any dispPrepared :=
  {| to_any := VDispPrepared; of_any v := match v with VDispPrepared x => Some x | _ => None end;
     of_to_any t := eq_refl; zero_value := mkDispPrepared zeroProgramRecord |}.

(** Binding keys (attach_simple.go, attach_dispatcher.go, load.go) *)
Definition preparedKey : Operation.Key attachPlan := mkKey "prepared".
Definition pendingLinkKey : Operation.Key LinkRecord := mkKey "pending-link".
Definition attachOutKey : Operation.Key AttachOutput := mkKey "kernel-attach".
Definition linkKey : Operation.Key Link := mkKey "link".
Definition dispPreparedKey : Operation.Key dispPrepared := mkKey "disp-prepared".
Definition extResultKey : Operation.Key extensionResult := mkKey "extension-result".
Definition loadedKey : Operation.Key LoadOutput := mkKey "loaded".

Section Manager.
Context {K : Type} `{!KernelOps K} {NC : NetConsts}.
Context (base : path).
Abbreviation W := (world K store).

(** ** The executor (executor.go) *)

(** A nil result and an error. *)
Definition no_value (m : M W unit) : M W (option any) := m;;; ret None.
Definition value {T} `{!Dynamic any T} (m : M W T) : M W (option any) :=
  let* t := m in ret (Some (to_any t)).

Definition executeGetProgram (programID : Z) : M W ProgramRecord :=
  fun w => match onS (Store.Get programID) w with
           | (Ok rec, w') => (Ok rec, w')
           | (Err e, w') =>
               (Err (if errors_Is e ErrRecordNotFound then Sentinel ErrProgramNotFound
                     else Wrap "get program %d: %w" e), w')
           end.

Definition executor_ExecuteResult (a : Action) : M W (option any) :=
  match a with
  | AGetProgramFromStore id => value (executeGetProgram id)
  | ALoadProgram spec bpffs => value (onK (KLoad spec bpffs))
  | ACreateLink spec => value (onS (CreateLink spec))
  | ADeleteLink id => no_value (onS (Store.DeleteLink id))
  | ACreatePendingLink spec linksDir => value (onS (CreatePendingLink spec linksDir))
  | AFinaliseLink id klink => value (onS (FinaliseLink id klink))
  | AUnloadProgram p => no_value (onK (KUnload p))
  | ARemoveMapsPins p => no_value (onK (KUnload p))
  | AAttachTracepoint pp group name lp => value (onK (AttachTracepoint pp group name lp))
  | AAttachKprobe pp fn off r lp => value (onK (AttachKprobe pp fn off r lp))
  | AAttachUprobeLocal pp tgt fn off pid r lp => value (onK (AttachUprobeLocal pp tgt fn off pid r lp))
  | AAttachUprobeContainer sc pp tgt fn off pid r lp cpid =>
      value (onK (AttachUprobeContainer sc pp tgt fn off pid r lp cpid))
  | AAttachFentry pp fn lp => value (onK (AttachFentry pp fn lp))
  | AAttachFexit pp fn lp => value (onK (AttachFexit pp fn lp))
  | AAttachTCX i dir pp lp ns order => value (onK (AttachTCX i dir pp lp ns order))
  | ADetachLink p => no_value (onK (DetachLink p))
  | APublishBytecode id src prov => no_value (onK (PublishBytecode base id src prov))
  | ARemoveProgramDir p => no_value (onK (RemoveProgramDir base (String_ p)))
  | ARemoveDispatcherRevDir p => no_value (onK (RemoveDispatcherRevDir base os_RemoveAll (String_ p)))
  | ARebuildXDPDispatcher id ifindex ifname ns pp name prio po md =>
      value (rebuildXDPDispatcher base id (mkXdpRebuildOps ifindex ifname ns) pp name prio po md)
  | ARebuildTCDispatcher id ifindex ifname dir dt ns pp name prio po md =>
      value (rebuildTCDispatcher base id (mkTcRebuildOps ifindex ifname dir dt ns) pp name prio po md)
  | ARebuildDispatcherForDetach key id => no_value (rebuildDispatcherForDetach base key id)
  | ARemoveDispatcher key => no_value (removeDispatcherIfEmpty base key)
  end.

Definition manager_executor : Executor W any Action := {| ExecuteResult := executor_ExecuteResult |}.
#[local] Existing Instance manager_executor.

Abbreviation bindings := (gmap string any).
Abbreviation mnode := (node W any Action).

(** [operation.Get]: panics on an absent key or another type. *)
Definition bound {T} `{!Dynamic any T} (b : bindings) (key : Operation.Key T) : GoM W T :=
  deref (Operation.Get b key).

(** [operation.DoAction] *)
Definition DoAction (label : string) (a : Action) : mnode :=
  Do label (fun _ => call (Execute a)) None.

(** [operation.Build] and [operation.Run]; a duplicate key panics. *)
Definition run_plan (nodes : list mnode) : GoM W bindings :=
  match Build nodes with Some plan => Run plan | None => gpanic end.

(** ** Lookups (lookup.go) *)

Definition getProgram (id : Z) : M W ProgramRecord := executeGetProgram id.

Definition getLink (id : Z) : M W LinkRecord :=
  fun w => match onS (Store.GetLink id) w with
           | (Ok rec, w') => (Ok rec, w')
           | (Err e, w') =>
               (Err (if errors_Is e ErrRecordNotFound then Sentinel ErrLinkNotFound
                     else Wrap "get link %d: %w" e), w')
           end.

(** ** Detach (detach.go) *)

Definition detachPlan (record : LinkRecord) (dispKey : option Dispatcher.Key) : list mnode :=
  (match lr_PinPath record with
   | Some p => [DoAction "detach-link" (ADetachLink p)]
   | None => []
   end) ++
  (match dispKey with
   | Some k => [DoAction "dispatcher-rebuild" (ARebuildDispatcherForDetach k (lr_ID record))]
   | None => [DoAction "delete-link" (ADeleteLink (lr_ID record))]
   end).

Definition detachKey (record : LinkRecord) : result (option Dispatcher.Key) :=
  if String.eqb (lr_Kind record) LinkKindXDP || String.eqb (lr_Kind record) LinkKindTC
  then wrap_err "extract dispatcher key: %w" (extractDispatcherKey (lr_Details record))
  else Ok None.

Definition Detach (linkID : Z) : GoM W unit :=
  let^ record := call (getLink linkID) in
  let^ dispKey := call (lift (detachKey record)) in
  let^ _ := run_plan (detachPlan record dispKey) in
  gret tt.

(** The set's iteration order is not specified; it is taken as [elements] has it. *)
Definition cleanupEmptyDispatchers (dispatchers : gset Dispatcher.Key) : M W unit :=
  for_each (elements dispatchers) (fun key =>
    or_log LevelWarn "dispatcher cleanup failed" (Execute (ARemoveDispatcher key))).

(** ** Unload (unload.go) *)

Definition removeProgramMapsPins (mapsDir : path) : M W unit := onK (KUnload mapsDir).
Definition unloadKernelProgram (progPinPath : path) : M W unit := onK (KUnload progPinPath).
Definition deleteProgramRecord (programID : Z) : M W unit := onS (Delete programID).
Definition removeProgramBytecodeDir (programID : Z) : M W unit :=
  onK (RemoveProgramDir base (String_ (ProgramDir base programID))).

Definition cleanupSharedMapPins (programID : Z) : M W unit :=
  let* orphaned := onS (runInTx (DeleteSharedMapPins programID)) in
  for_each orphaned (fun mapName =>
    or_log LevelWarn "failed to remove orphaned shared map pin"
      (onK (RemoveSharedMapPin base os_Remove (String_ (Join_ (SharedMapPinDir base) mapName))))).

Definition shouldRemoveNonPersistedSelfOwnedMapPins (mapSetID : Z) : M W bool :=
  fun w => match onS (MapSetExists mapSetID) w with
           | (Ok exists_, w') => (Ok (negb exists_), w')
           | (Err _, w') =>
               let '(_, w'') := log LevelWarn "failed to check map set before rollback pin cleanup" w' in
               (Ok false, w'')
           end.

Definition gcMapSetIfUnused (mapSetID : Z) (mapsDir : path) : M W unit :=
  let* users := wrapping "count map set users for %d: %w" (onS (CountMapSetUsers mapSetID)) in
  if 0 <? users then ret tt
  else
    wrapping "remove map set pins %s: %w" (removeProgramMapsPins mapsDir);;;
    wrapping "delete map set %d: %w" (onS (DeleteMapSet mapSetID)).

(** The dispatchers rebuilt so far are returned with the error too; the
    caller drops them then. *)
Fixpoint detachAllLinks (links : list LinkRecord) (rebuilt : gset Dispatcher.Key)
    : M W (gset Dispatcher.Key) :=
  match links with
  | [] => ret rebuilt
  | link :: links' =>
      match lr_PinPath link with
      | None => detachAllLinks links' rebuilt
      | Some p =>
          wrapping "detach link %d: %w" (onK (DetachLink p));;;
          let* key := lift (wrap_err "extract dispatcher key for link %d: %w"
                              (extractDispatcherKey (lr_Details link))) in
          match key with
          | None => detachAllLinks links' rebuilt
          | Some k =>
              wrapping "rebuild dispatcher after detaching link %d: %w"
                (Execute (ARebuildDispatcherForDetach k (lr_ID link)));;;
              detachAllLinks links' ({[k]} ∪ rebuilt)
          end
      end
  end.

(** The deletion of the record, the only step after the point of no return
    whose error is returned, with the map-set collection that follows it. *)
Definition unloadRecord (programID mapSetID : Z) (mapsDir : path) (persisted : bool) : M W (result unit) :=
  if persisted then
    let* r := attempt (wrapping "delete program record: %w" (deleteProgramRecord programID)) in
    match r with
    | Err e => ret (Err e)
    | Ok _ =>
        or_log LevelWarn "failed to garbage-collect map set" (gcMapSetIfUnused mapSetID mapsDir);;;
        ret (Ok tt)
    end
  else
    (if mapSetID =? programID then
       let* own := shouldRemoveNonPersistedSelfOwnedMapPins mapSetID in
       if (own : bool)
       then or_log LevelWarn "failed to remove orphaned map pins" (removeProgramMapsPins mapsDir)
       else ret tt
     else ret tt);;;
    ret (Ok tt).

Definition record_map_set (record : ProgramRecord) : Z :=
  default (pr_ProgramID record) (ph_MapOwnerID (pr_Handles record)).

Definition unload (record : ProgramRecord) (links : list LinkRecord) (persisted : bool) : M W unit :=
  let programID := pr_ProgramID record in
  let progPinPath := ph_PinPath (pr_Handles record) in
  let mapsDir := ph_MapsDir (pr_Handles record) in
  let mapSetID := record_map_set record in
  let* rebuilt := wrapping "detach links for program %d: %w" (detachAllLinks links ∅) in
  wrapping "unload program %d: %w" (unloadKernelProgram progPinPath);;;
  or_log LevelWarn "failed to cleanup shared map pins" (cleanupSharedMapPins programID);;;
  let* err := unloadRecord programID mapSetID mapsDir persisted in
  or_log LevelWarn "failed to remove orphaned bytecode directory" (removeProgramBytecodeDir programID);;;
  cleanupEmptyDispatchers (collectDispatcherKeys links ∖ rebuilt);;;
  lift err.

Definition Unload (programID : Z) : M W unit :=
  fun w =>
    match getProgram programID w with
    | (Err e, w1) =>
        if errors_Is e ErrProgramNotFound
        then match onK (GetProgramByID programID) w1 with
             | (Ok _, w2) => (Err (Sentinel ErrProgramNotManaged), w2)
             | (Err _, w2) => (Err e, w2)
             end
        else (Err e, w1)
    | (Ok progSpec, w1) =>
        (let* links := wrapping "list links for program %d: %w" (onS (ListLinksByProgram programID)) in
         unload progSpec links true) w1
    end.
End Manager.
