(* ===== verification/Attach.v ===== *)
(** * Attach requests (manager/attach*.go)

    The plans of the eight attach verbs. Tracepoints, kprobes, uprobes, fentry
    and fexit share the four-node plan of [simpleAttachPlan]: the link row is
    created, with the pin path it will have, before the kernel attach, and
    finalised after it. XDP and TC rebuild their dispatcher; TCX attaches
    beside the programs already on the hook. *)

From Stdlib Require Import ZArith Lia String.
From stdpp Require Import base tactics sets list gmap strings numbers sorting.
From S2P Require Import Prelude Actions Dispatcher Domain Slots Layout Operation Planning Platform Executor Bytecode.
From S2P Require Import StoreDb Store StoreSpec Manager.

Local Open Scope string_scope.
Local Open Scope list_scope.
Local Open Scope Z_scope.

(** [filepath.IsAbs] *)
Definition IsAbs (s : string) : bool :=
  match s with String c _ => Ascii.eqb c slash | EmptyString => false end.

Definition link_status (out : AttachOutput) : LinkStatus :=
  mkLinkStatus (ao_KernelLink out) (bool_decide (ao_KernelLink out <> None)) (bool_decide (ao_PinPath out <> [])).

Section Attach.
Context {K : Type} `{!KernelOps K} {NC : NetConsts}.
Context (base : path).
Abbreviation W := (world K store).
Abbreviation mnode := (node W any Action).
#[local] Hint Extern 0 (Executor _ _ _) => exact (manager_executor base) : typeclass_instances.

(** ** Attaches without a dispatcher (attach_simple.go) *)

Record attachParams := mkAttachParams {
  atp_programID : Z; atp_metadata : gmap string string;
  atp_prepare : ProgramRecord -> path -> M W attachPlan }.

Definition preparedNode (p : attachParams) : mnode :=
  Produce preparedKey
    (fun _ => call (let* prog := action_Produce ProgramRecord (AGetProgramFromStore (atp_programID p)) in
                    atp_prepare p prog (ProgPinPath base (atp_programID p))))
    None.

Definition pendingLinkNode (p : attachParams) : mnode :=
  Produce pendingLinkKey
    (fun b => let^ pa := bound b preparedKey in
              let spec := mkLinkSpec (atp_programID p) None (LinkDetails_Kind (ap_details pa)) None
                            (Some (ap_details pa)) (atp_metadata p) in
              call (action_Produce LinkRecord (ACreatePendingLink spec (Links base))))
    (Some (fun b => match Operation.Get b pendingLinkKey with
                    | Some record => [ADeleteLink (lr_ID record)]
                    | None => []
                    end)).

(** The undo reads a pin path the node itself has dereferenced. *)
Definition kernelAttachNode (p : attachParams) : mnode :=
  Produce attachOutKey
    (fun b => let^ pa := bound b preparedKey in
              let^ record := bound b pendingLinkKey in
              let^ lp := deref (lr_PinPath record) in
              call (action_Produce AttachOutput (ap_attachAction pa lp)))
    (Some (fun b => match Operation.Get b pendingLinkKey with
                    | Some record => match lr_PinPath record with
                                     | Some lp => [ADetachLink lp]
                                     | None => []
                                     end
                    | None => []
                    end)).

Definition finaliseNode (p : attachParams) : mnode :=
  Produce linkKey
    (fun b => let^ pa := bound b preparedKey in
              let^ record := bound b pendingLinkKey in
              let^ out := bound b attachOutKey in
              let^ finalised := gwrapping "save link metadata: %w"
                (call (action_Produce LinkRecord (AFinaliseLink (lr_ID record) (ao_KernelLinkID out)))) in
              gret (mkLink (with_details (Some (ap_details pa)) finalised) (link_status out)))
    None.

Definition simpleAttachPlan (p : attachParams) : list mnode :=
  [preparedNode p; pendingLinkNode p; kernelAttachNode p; finaliseNode p].

Definition simpleAttach (p : attachParams) : GoM W Link :=
  let^ b := run_plan base (simpleAttachPlan p) in
  let^ _ := bound b preparedKey in
  bound b linkKey.

(** Used by the TCX plan. *)
Definition saveLinkNode (programID : Z) (metadata : gmap string string)
    (extract : gmap string any -> GoM W (LinkDetails * AttachOutput)) : mnode :=
  Produce linkKey
    (fun b => let^ r := extract b in
              let '(details, out) := r in
              let spec := mkLinkSpec programID (ao_KernelLinkID out) (LinkDetails_Kind details)
                            (NewLinkPath (ao_PinPath out)) (Some details) metadata in
              let^ record := gwrapping "save link metadata: %w"
                (call (action_Produce LinkRecord (ACreateLink spec))) in
              gret (mkLink record (link_status out)))
    None.

(** ** Tracepoints and probes (attach_tracing.go) *)

Definition validateTracepointExists (group name : string) : M W unit :=
  let* tps := wrapping "list tracepoints: %w" (onK ListTracepoints) in
  match tps with
  | [] => ret tt
  | _ => if bool_decide ((group +:+ "/" +:+ name) ∈ tps) then ret tt
         else throw (Sentinel ErrTracepointNotFound)
  end.

Definition attachTracepoint (metadata : gmap string string) (programID : Z) (group name : string) : GoM W Link :=
  simpleAttach (mkAttachParams programID metadata (fun _ progPinPath =>
    validateTracepointExists group name;;;
    ret (mkAttachPlan (group +:+ "/" +:+ name) (DTracepoint (mkTracepointDetails group name))
           (AAttachTracepoint progPinPath group name)))).

Definition attachKprobe (metadata : gmap string string) (programID : Z) (fnName : string) (offset : Z) : GoM W Link :=
  simpleAttach (mkAttachParams programID metadata (fun prog progPinPath =>
    let retprobe := String.eqb (programType (pr_Load prog)) ProgramTypeKretprobe in
    ret (mkAttachPlan fnName (DKprobe (mkKprobeDetails fnName offset retprobe))
           (AAttachKprobe progPinPath fnName offset retprobe)))).

Definition attachUprobe (scope : option WriterScope) (metadata : gmap string string) (programID : Z)
    (binaryTarget fnName : string) (offset pid containerPid : Z) : GoM W Link :=
  simpleAttach (mkAttachParams programID metadata (fun prog progPinPath =>
    let retprobe := String.eqb (programType (pr_Load prog)) ProgramTypeUretprobe in
    if String.eqb fnName "" && (offset =? 0)
    then throw (Errorf "uprobe attach requires a function name or a non-zero offset")
    else if (0 <? containerPid) && negb (IsAbs binaryTarget)
    then throw (Errorf "container uprobe target must be an absolute path (got %q)")
    else if (0 <? containerPid) && bool_decide (scope = None)
    then throw (Errorf "container uprobe requires lock scope (containerPid=%d)")
    else
      let attachFn linkPinPath :=
        if 0 <? containerPid
        then AAttachUprobeContainer scope progPinPath binaryTarget fnName offset pid retprobe linkPinPath containerPid
        else AAttachUprobeLocal progPinPath binaryTarget fnName offset pid retprobe linkPinPath in
      ret (mkAttachPlan (binaryTarget +:+ ":" +:+ fnName)
             (DUprobe (mkUprobeDetails binaryTarget fnName offset pid retprobe containerPid)) attachFn))).

Definition attachFentry (metadata : gmap string string) (programID : Z) : GoM W Link :=
  simpleAttach (mkAttachParams programID metadata (fun prog progPinPath =>
    let fnName := attachFunc (pr_Load prog) in
    if String.eqb fnName ""
    then throw (Errorf "program %d has no attach function (fentry requires attach function at load time)")
    else ret (mkAttachPlan fnName (DFentry (mkFentryDetails fnName)) (AAttachFentry progPinPath fnName)))).

Definition attachFexit (metadata : gmap string string) (programID : Z) : GoM W Link :=
  simpleAttach (mkAttachParams programID metadata (fun prog progPinPath =>
    let fnName := attachFunc (pr_Load prog) in
    if String.eqb fnName ""
    then throw (Errorf "program %d has no attach function (fexit requires attach function at load time)")
    else ret (mkAttachPlan fnName (DFexit (mkFexitDetails fnName)) (AAttachFexit progPinPath fnName)))).

(** ** Dispatcher attaches (attach_dispatcher.go, attach_xdp.go, attach_tc.go) *)

Record dispatcherAttachParams := mkDispatcherAttachParams {
  dap_programID : Z; dap_rebuildAction : ProgramRecord -> Action }.

Definition dispatcherAttachPlan (p : dispatcherAttachParams) : list mnode :=
  [Produce dispPreparedKey
     (fun _ => call (let* prog := action_Produce ProgramRecord (AGetProgramFromStore (dap_programID p)) in
                     ret (mkDispPrepared prog)))
     None;
   Produce extResultKey
     (fun b => let^ dp := bound b dispPreparedKey in
               call (action_Produce extensionResult (dap_rebuildAction p (dp_prog dp))))
     (Some (fun b => match Operation.Get b extResultKey with
                     | Some r => [ADetachLink (er_pinPath r)]
                     | None => []
                     end))].

Definition dispatcherAttach (p : dispatcherAttachParams) : GoM W Link :=
  let^ b := run_plan base (dispatcherAttachPlan p) in
  let^ r := bound b extResultKey in
  gret (er_link r).

Definition attachXDP (metadata : gmap string string) (programID : Z) (ifname : string) (priority : Z)
    (proceedOn : list Z) (netnsPath : string) : GoM W Link :=
  let^ ifindex := call (onK (InterfaceByName ifname netnsPath)) in
  let proceedOn := match proceedOn with
                   | [] => [code XDPActionPass; code XDPActionDispatcherReturn]
                   | _ => proceedOn
                   end in
  let^ proceedOnMask := call (lift (ProceedOnMask DispatcherTypeXDP proceedOn)) in
  dispatcherAttach (mkDispatcherAttachParams programID (fun prog =>
    ARebuildXDPDispatcher programID (uint32 ifindex) ifname netnsPath (ph_PinPath (pr_Handles prog))
      (pm_Name (pr_Meta prog)) priority proceedOnMask metadata)).

Definition attachTC (metadata : gmap string string) (programID : Z) (ifname direction : string)
    (priority : Z) (proceedOn : list Z) (netnsPath : string) : GoM W Link :=
  let^ ifindex := call (onK (InterfaceByName ifname netnsPath)) in
  let dispType := if String.eqb direction TCDirectionIngress
                  then DispatcherTypeTCIngress else DispatcherTypeTCEgress in
  let proceedOn := match proceedOn with
                   | [] => [code TCActionPipe; code TCActionDispatcherReturn]
                   | _ => proceedOn
                   end in
  let^ proceedOnMask := call (lift (wrap_err "encode TC proceed-on: %w" (ProceedOnMask dispType proceedOn))) in
  dispatcherAttach (mkDispatcherAttachParams programID (fun prog =>
    ARebuildTCDispatcher programID (uint32 ifindex) ifname direction dispType netnsPath
      (ph_PinPath (pr_Handles prog)) (pm_Name (pr_Meta prog)) priority proceedOnMask metadata)).

(** ** TCX (attach_tc.go) *)

(** Whether the program a link row names is still in the kernel; a lookup
    that fails otherwise keeps the link. *)
Definition tcxIsLive (id : Z) : M W bool :=
  fun w => match onK (GetProgramByID id) w with
           | (Ok _, w') => (Ok true, w')
           | (Err e, w') =>
               if errors_Is e ErrNotExist
               then (log LevelWarn "ignoring stale TCX link whose anchor program is not in the kernel";;; ret false) w'
               else (log LevelWarn "inconclusive kernel lookup for TCX anchor; keeping link";;; ret true) w'
           end.

Definition attachTCXPlan (programID : Z) (metadata : gmap string string) (ifindex : Z)
    (ifname direction : string) (priority nsid : Z) (netnsPath : string) (linkPinPath progPinPath : path)
    (order : TCXAttachOrder) : list mnode :=
  [Produce attachOutKey
     (fun _ => call (action_Produce AttachOutput
        (AAttachTCX ifindex direction progPinPath linkPinPath netnsPath order)))
     (Some (fun _ => [ADetachLink linkPinPath]));
   saveLinkNode programID metadata (fun b =>
     let^ out := bound b attachOutKey in
     gret (DTCX (mkTCXDetails ifname (uint32 ifindex) direction (int32 priority) 0 netnsPath nsid), out))].

Definition attachTCX (metadata : gmap string string) (programID : Z) (ifname direction : string)
    (priority : Z) (netnsPath : string) : GoM W Link :=
  let^ ifindex := call (onK (InterfaceByName ifname netnsPath)) in
  let^ prog := call (getProgram programID) in
  let^ nsid := call (wrapping "get nsid: %w" (onK (NSID netnsPath))) in
  let linkPinPath := TCXLinkPath base direction nsid (uint32 ifindex) programID in
  let progPinPath := ph_PinPath (pr_Handles prog) in
  let^ existingLinks := call (wrapping "list existing TCX links: %w"
    (onS (ListTCXLinksByInterface nsid (uint32 ifindex) direction))) in
  if existsb (fun l => txi_KernelProgramID l =? programID) existingLinks
  then gthrow (Errorf "program %d is already attached to %s %s as link %d; detach it first")
  else
    let^ _ := call (wrapping "detach stale TCX link %s: %w" (Execute (ADetachLink linkPinPath))) in
    let^ liveLinks := call (filterLiveTCXLinks tcxIsLive existingLinks) in
    let order := computeTCXAttachOrder liveLinks (int32 priority) in
    let^ b := run_plan base (attachTCXPlan programID metadata ifindex ifname direction priority nsid netnsPath
                          linkPinPath progPinPath order) in
    bound b linkKey.

(** ** Attach (attach.go) *)

Definition Attach (writeLock : option WriterScope) (spec : AttachSpec) : GoM W Link :=
  let^ prog := call (getProgram (as_ProgramID spec)) in
  let^ _ := call (lift (ValidateAttachProgramType spec (programType (pr_Load prog)))) in
  match spec with
  | TracepointAttachSpec md id group name => attachTracepoint md id group name
  | KprobeAttachSpec md id fn off => attachKprobe md id fn off
  | UprobeAttachSpec md id target fn off pid cpid => attachUprobe writeLock md id target fn off pid cpid
  | FentryAttachSpec md id => attachFentry md id
  | FexitAttachSpec md id => attachFexit md id
  | XDPAttachSpec md id ifname prio po ns => attachXDP md id ifname prio po ns
  | TCAttachSpec md id ifname dir prio po ns => attachTC md id ifname dir prio po ns
  | TCXAttachSpec md id ifname dir prio ns => attachTCX md id ifname dir prio ns
  end.
End Attach.
