(* ===== verification/SimpleAttach.v ===== *)
(** * Attaches without a dispatcher

    Tracepoint, kprobe, uprobe, fentry and fexit attaches run the four-node
    plan of [simpleAttachPlan]. The plan, run by the interpreter with its
    bindings and undo lists, is the direct program [simpleAttachDirect];
    from it follow what such an attach leaves in the store and the kernel, on
    success and on every failure. *)

From Stdlib Require Import ZArith Lia String.
From stdpp Require Import base tactics sets list gmap strings numbers sorting.
From S2P Require Import Prelude Actions Dispatcher Domain Slots Layout Operation Planning Platform Executor Rebuild.
From S2P Require Import StoreDb Store StoreTx StoreSpec StoreInv Placed Coherent Bytecode Manager Attach.

Local Open Scope string_scope.
Local Open Scope list_scope.
Local Open Scope Z_scope.

(** ** Bindings *)

Lemma bound_hit {W T} `{!Dynamic any T} (key : Operation.Key T) (t : T) (b : gmap string any) :
  bound (K:=W) (<[key_name key := to_any t]> b) key = gret t.
Proof. unfold bound, Operation.Get. by rewrite lookup_insert_eq, of_to_any. Qed.

Lemma bound_miss {W T} `{!Dynamic any T} (key : Operation.Key T) n v (b : gmap string any) :
  n <> key_name key -> bound (K:=W) (<[n := v]> b) key = bound b key.
Proof. intros Hn. unfold bound, Operation.Get. by rewrite lookup_insert_ne. Qed.

Lemma get_hit {T} `{!Dynamic any T} (key : Operation.Key T) (t : T) (b : gmap string any) :
  Operation.Get (<[key_name key := to_any t]> b) key = Some t.
Proof. unfold Operation.Get. by rewrite lookup_insert_eq, of_to_any. Qed.

Lemma get_miss {T} `{!Dynamic any T} (key : Operation.Key T) n v (b : gmap string any) :
  n <> key_name key -> Operation.Get (<[n := v]> b) key = Operation.Get b key.
Proof. intros Hn. unfold Operation.Get. by rewrite lookup_insert_ne. Qed.

(** ** One node of a plan *)

Section Nodes.
Context {K : Type} `{!KernelOps K} {NC : NetConsts} (base : path).
Abbreviation W := (world K store).
#[local] Hint Extern 0 (Executor _ _ _) => exact (manager_executor base) : typeclass_instances.

Lemma interpret_produce {T} `{!Dynamic any T} (key : Operation.Key T) (fn : gmap string any -> GoM W T) undo rest b us w r w1 :
  fn b w = (Ret r, w1) ->
  interpret (Act:=Action) (Produce key fn undo :: rest) (mkI b us) w =
    match r with
    | Ok t => interpret rest (mkI (<[key_name key := to_any t]> b) (appendUndos us undo (<[key_name key := to_any t]> b))) w1
    | Err e => (Ret (Err e), us, w1)
    end.
Proof. intros H. cbn. rewrite H. by destruct r. Qed.

(** [action.Produce] of an action that yields a value of the type asked for. *)
Lemma produce_value {T} `{!Dynamic any T} (a : Action) (m : M W T) w :
  executor_ExecuteResult base a = value m -> action_Produce T a w = m w.
Proof.
  intros H. unfold action_Produce. cbn. rewrite H. unfold value, bind, ret. destruct (m w) as [[t|e] w']; [|done].
  by rewrite of_to_any.
Qed.

Lemma Execute_no_value (a : Action) (m : M W unit) w :
  executor_ExecuteResult base a = no_value m -> Execute a w = m w.
Proof.
  intros H. unfold Execute. cbn. rewrite H. unfold no_value, bind, ret. by destruct (m w) as [[[]|e] w'].
Qed.
End Nodes.

(** ** The direct program *)

Section Direct.
Context {K : Type} `{!KernelOps K} {NC : NetConsts} (base : path).
Abbreviation W := (world K store).
#[local] Hint Extern 0 (Executor _ _ _) => exact (manager_executor base) : typeclass_instances.

Definition pending_spec (p : attachParams (K:=K)) (pa : attachPlan) : LinkSpec :=
  mkLinkSpec (atp_programID p) None (LinkDetails_Kind (ap_details pa)) None (Some (ap_details pa)) (atp_metadata p).

Definition undo_pending (id : Z) : M W unit := best_effort (onS (Store.DeleteLink id)).

(** From the pending row on. *)
Definition attachTail (p : attachParams (K:=K)) (pa : attachPlan) : M W Link :=
  let* record := onS (CreatePendingLink (pending_spec p pa) (Links base)) in
  let lp := default [] (lr_PinPath record) in
  let* out := on_error (action_Produce AttachOutput (ap_attachAction pa lp)) (fun _ => undo_pending (lr_ID record)) in
  let* finalised := on_error (wrapping "save link metadata: %w" (onS (FinaliseLink (lr_ID record) (ao_KernelLinkID out))))
    (fun _ => best_effort (onK (DetachLink lp));;; undo_pending (lr_ID record)) in
  ret (mkLink (with_details (Some (ap_details pa)) finalised) (link_status out)).

Definition simpleAttachDirect (p : attachParams (K:=K)) : M W Link :=
  let* prog := executeGetProgram (atp_programID p) in
  let* pa := atp_prepare p prog (ProgPinPath base (atp_programID p)) in
  attachTail p pa.

Lemma pending_pin spec dir s r s' : CreatePendingLink spec dir s = (Ok r, s') -> is_Some (lr_PinPath r).
Proof.
  intros H. unfold CreatePendingLink in H. step_ok H rec s1 E. unfold ret in H. injection H as <- <-. cbn.
  assert (Hb : forall t t', (let* created := createLink spec in setLinkPinPath (lr_ID created) dir) t = (Ok rec, t') -> is_Some (lr_PinPath rec)).
  { intros t t' Ht. step_ok Ht c t1 Ec. unfold setLinkPinPath in Ht. apply wrapping_ok, update_returning_ok in Ht as (l & _ & _ & Hs).
    cbn in Hs. destruct (ParseLinkKind (lk_kind l)); [|done]. cbn in Hs. injection Hs as <-. by eexists. }
  unfold runInTx in E. destruct (st_inTx s) eqn:Htx; [by eapply Hb|]. apply loop_ok in E as (s2 & s3 & _ & _ & Hfn & _); [|done]. by eapply Hb.
Qed.

Lemma bind_run {A B} (m : M W A) (f : A -> M W B) w r w1 :
  m w = (r, w1) -> bind m f w = match r with Ok a => f a w1 | Err e => (Err e, w1) end.
Proof. intros H. unfold bind. by rewrite H. Qed.

Lemma on_error_run {A} (m : M W A) h w r w1 :
  m w = (r, w1) -> on_error m h w = (r, match r with Ok _ => w1 | Err e => snd (h e w1) end).
Proof. intros H. unfold on_error. rewrite H. by destruct r. Qed.

Lemma call_run {A} (m : M W A) w r w1 : m w = (r, w1) -> call m w = (Ret r, w1).
Proof. intros H. unfold call. by rewrite H. Qed.

Lemma best_effort_run (m : M W unit) w : best_effort m w = (Ok tt, snd (m w)).
Proof. unfold best_effort. by destruct (m w). Qed.

Lemma run_one (a : Action) w : run_actions [a] w = snd (Execute a w).
Proof. done. Qed.

Lemma simpleAttach_run (p : attachParams (K:=K)) w :
  simpleAttach base p w = call (simpleAttachDirect p) w.
Proof.
  unfold simpleAttach, run_plan. assert (Build (simpleAttachPlan base p) = Some (simpleAttachPlan base p)) as -> by reflexivity.
  destruct (simpleAttachDirect p w) as [res w'] eqn:E. rewrite (call_run _ _ _ _ E). revert E.
  unfold simpleAttachDirect, attachTail, simpleAttachPlan, gbind at 1, Run, preparedNode.
  destruct (executeGetProgram (atp_programID p) w) as [rprog w1] eqn:E1.
  assert (E1' : action_Produce ProgramRecord (AGetProgramFromStore (atp_programID p)) w = (rprog, w1)) by (by erewrite produce_value).
  rewrite (bind_run _ _ _ _ _ E1). destruct rprog as [prog|e].
  2:{ erewrite interpret_produce; [|apply call_run; by rewrite (bind_run _ _ _ _ _ E1')]. by intros [= <- <-]. }
  destruct (atp_prepare p prog (ProgPinPath base (atp_programID p)) w1) as [rpa w2] eqn:E2.
  erewrite interpret_produce; [|apply call_run; rewrite (bind_run _ _ _ _ _ E1'); exact E2].
  rewrite (bind_run _ _ _ _ _ E2). destruct rpa as [pa|e]; [|by intros [= <- <-]].
  set (b1 := <[_ := _]> ∅). assert (Hb1 : bound (K:=K) b1 preparedKey = gret pa) by apply bound_hit.
  cbn [appendUndos].
  destruct (onS (CreatePendingLink (pending_spec p pa) (Links base)) w2) as [rrec w3] eqn:E3.
  rewrite (bind_run _ _ _ _ _ E3). unfold pendingLinkNode.
  erewrite interpret_produce; [|rewrite Hb1; unfold gbind, gret; apply call_run; erewrite produce_value by reflexivity; exact E3].
  destruct rrec as [record|e]; [|by intros [= <- <-]].
  assert (Hpin : is_Some (lr_PinPath record)).
  { unfold onS in E3. destruct (CreatePendingLink _ _ _) as [r0 s0] eqn:Ec. injection E3 as -> _. by eapply pending_pin. }
  destruct Hpin as [lp Hlp]. cbn [appendUndos]. rewrite get_hit. cbn [app]. rewrite Hlp. change (default [] (Some lp)) with lp.
  set (b2 := <[_ := _]> b1). assert (Hb2 : bound (K:=K) b2 pendingLinkKey = gret record) by apply bound_hit.
  assert (Hb2' : bound (K:=K) b2 preparedKey = gret pa) by (unfold b2; by rewrite bound_miss).
  destruct (action_Produce AttachOutput (ap_attachAction pa lp) w3) as [rout w4] eqn:E4.
  unfold kernelAttachNode.
  erewrite interpret_produce; [|rewrite Hb2', Hb2; unfold gbind, gret; rewrite Hlp; cbn [deref]; unfold gret; apply call_run; exact E4].
  rewrite (bind_run _ _ _ _ _ (on_error_run _ _ _ _ _ E4)). destruct rout as [out|e].
  2:{ intros [= <- <-]. cbn [executeRollback rev app rollback_rev]. rewrite run_one. unfold undo_pending. rewrite best_effort_run.
      by rewrite (Execute_no_value _ _ (onS (Store.DeleteLink (lr_ID record)))). }
  cbn [appendUndos]. rewrite get_miss by done. unfold b2 at 2. rewrite get_hit, Hlp. cbn [app].
  set (b3 := <[_ := _]> b2). assert (Hb3 : bound (K:=K) b3 attachOutKey = gret out) by apply bound_hit.
  assert (Hb3' : bound (K:=K) b3 preparedKey = gret pa) by (unfold b3; by rewrite bound_miss).
  assert (Hb3'' : bound (K:=K) b3 pendingLinkKey = gret record) by (unfold b3; by rewrite bound_miss).
  destruct (onS (FinaliseLink (lr_ID record) (ao_KernelLinkID out)) w4) as [rfin w5] eqn:E5.
  set (fin := fun finalised => mkLink (with_details (Some (ap_details pa)) finalised) (link_status out)).
  unfold finaliseNode.
  erewrite (interpret_produce _ _ _ _ _ _ _ (match wrap_err "save link metadata: %w" rfin with Ok x => Ok (fin x) | Err e => Err e end) w5).
  2:{ rewrite Hb3', Hb3'', Hb3. unfold gbind, gret, gwrapping. erewrite call_run by (erewrite produce_value by reflexivity; exact E5).
      by destruct rfin. }
  assert (E5' : wrapping "save link metadata: %w" (onS (FinaliseLink (lr_ID record) (ao_KernelLinkID out))) w4 =
                (wrap_err "save link metadata: %w" rfin, w5)) by (unfold wrapping; by rewrite E5).
  rewrite (bind_run _ _ _ _ _ (on_error_run _ _ _ _ _ E5')). destruct rfin as [finalised|e]; cbn [wrap_err].
  - intros [= <- <-]. cbn [interpret i_bindings]. rewrite bound_miss, Hb3' by done. unfold gbind, gret. by rewrite bound_hit.
  - intros [= <- <-]. cbn [executeRollback rev app rollback_rev]. rewrite !run_one.
    rewrite (Execute_no_value base (ADetachLink lp) (onK (DetachLink lp))) by reflexivity. unfold bind, undo_pending. rewrite !best_effort_run.
    by rewrite (Execute_no_value _ _ (onS (Store.DeleteLink (lr_ID record)))).
Qed.
End Direct.

(** ** No refusals, no surprises *)

(** A store whose driver refuses nothing goes on refusing nothing. *)
Definition undaunted {A} (m : M store A) : Prop := forall s r s', st_faults s = [] -> m s = (r, s') -> st_faults s' = [].

Section Undaunted.
Lemma undaunted_stmt {A} (f : db -> result (A * db)) : undaunted (stmt f).
Proof. intros s r s' Hf. rewrite stmt_faultless by done. repeat case_match; intros; by simplify_eq. Qed.

Lemma undaunted_bind {A B} (m : M store A) (f : A -> M store B) : undaunted m -> (forall a, undaunted (f a)) -> undaunted (bind m f).
Proof.
  intros Hm Hf s r s' Hs. unfold bind. destruct (m s) as [[a|e] s1] eqn:E; apply Hm in E; try done; [by apply Hf|].
  intros; by simplify_eq.
Qed.

Lemma undaunted_pure {A} (r : result A) : undaunted (lift r).
Proof. intros s r' s' Hs [= <- <-]. done. Qed.

Lemma undaunted_ret {A} (a : A) : undaunted (ret a).
Proof. apply undaunted_pure. Qed.

Lemma undaunted_gets {A} (f : store -> A) : undaunted (gets f).
Proof. intros s r' s' Hs [= <- <-]. done. Qed.

Lemma undaunted_wrapping {A} msg (m : M store A) : undaunted m -> undaunted (wrapping msg m).
Proof. intros Hm s r s' Hs. unfold wrapping. destruct (m s) as [r1 s1] eqn:E. apply Hm in E; [|done]. intros; by simplify_eq. Qed.

Lemma undaunted_driver : undaunted driver.
Proof. intros s r s' Hs. unfold driver. rewrite Hs. by intros [= <- <-]. Qed.

Lemma undaunted_attempt {A} (fn : M store A) : undaunted fn -> undaunted (runTransactionAttempt fn).
Proof.
  intros Hf s r s' Hs. unfold runTransactionAttempt. destruct (driver s) as [[u|e] s1] eqn:E; apply undaunted_driver in E; try done; [|by intros [= <- <-]].
  destruct ((let* a := fn in driver;;; ret a) (set_inTx true s1)) as [r2 s2] eqn:E2.
  apply undaunted_bind in E2; [|done| |done].
  - destruct r2; by intros [= <- <-].
  - intros a. apply undaunted_bind; [apply undaunted_driver|]. intros _. apply (undaunted_pure (Ok a)).
Qed.

Lemma undaunted_runInTx {A} (fn : M store A) : undaunted fn -> undaunted (runInTx fn).
Proof.
  intros Hf. assert (Hl : forall n, undaunted (runInTx_loop fn n)).
  { induction n as [|n IH]; intros s r s' Hs; cbn [runInTx_loop];
      destruct (runTransactionAttempt fn s) as [[a|e] s1] eqn:E; apply undaunted_attempt in E; try done;
      try (by intros [= <- <-]). case_match; [by apply IH|by intros [= <- <-]]. }
  intros s r s' Hs. unfold runInTx. destruct (st_inTx s); [by apply Hf|by apply Hl].
Qed.
End Undaunted.
#[export] Hint Resolve undaunted_ret undaunted_stmt undaunted_bind undaunted_pure undaunted_gets undaunted_wrapping undaunted_runInTx : store.

Lemma CreatePendingLink_undaunted spec dir : undaunted (CreatePendingLink spec dir).
Proof.
  assert (Hs : forall id det, undaunted (saveDetails id det)) by (intros id []; cbn [saveDetails]; eauto with store).
  assert (Hc : undaunted (createLink spec)).
  { unfold createLink, insertLinkRegistry. case_match; [apply (undaunted_pure (Err _))|].
    apply undaunted_bind; [|intros rec; destruct (lsp_Details spec); eauto with store].
    repeat (apply undaunted_bind; [eauto with store|intros ?]). apply undaunted_ret. }
  unfold CreatePendingLink. apply undaunted_bind; [|eauto with store]. apply undaunted_runInTx, undaunted_bind; [done|].
  intros rec. unfold setLinkPinPath, update_returning. eauto with store.
Qed.

(** ** What an attach leaves behind *)

Section Contract.
Context {K : Type} `{!KernelOps K} {NC : NetConsts} `{!KernelLaws K} (base : path).
Abbreviation W := (world K store).
Abbreviation quiet m := (moves (K:=K) (sound base) (undisturbed base) m).
#[local] Hint Extern 0 (Executor _ _ _) => exact (manager_executor base) : typeclass_instances.

(** A preparation that only reads, and plans one kernel attach pinned where it is told. *)
Record prepares (p : attachParams (K:=K)) : Prop := {
  pr_reads prog pp w r w' : atp_prepare p prog pp w = (r, w') -> w_store w' = w_store w /\ kv w' = kv w;
  pr_plan prog pp w pa w' : atp_prepare p prog pp w = (Ok pa, w') ->
    plain_details (ap_details pa) /\
    forall lp, exists m, executor_ExecuteResult base (ap_attachAction pa lp) = value (onK m) /\ attaches view lp m;
}.

(** The ID and the pin path of the next link. *)
Definition next_link (w : W) : Z := db_link_seq (st_db (w_store w)) + 1.
Definition next_pin (w : W) : path := Links base ++ [FormatUint (uint64 (next_link w))].

Definition links_of (w : W) : gmap Z linkRow := db_links (st_db (w_store w)).

Lemma getProgram_frame id w r w' :
  executeGetProgram (K:=K) id w = (r, w') -> w_kernel w' = w_kernel w /\ st_db (w_store w') = st_db (w_store w) /\
    st_inTx (w_store w') = st_inTx (w_store w) /\ st_now (w_store w') = st_now (w_store w) /\
    (st_faults (w_store w) = [] -> st_faults (w_store w') = []).
Proof.
  unfold executeGetProgram, onS. destruct (Store.Get id (w_store w)) as [r1 s1] eqn:E.
  assert (Hs : st_db s1 = st_db (w_store w) /\ st_inTx s1 = st_inTx (w_store w) /\ st_now s1 = st_now (w_store w) /\
               (st_faults (w_store w) = [] -> st_faults s1 = [])).
  { unfold Store.Get, bind, query, stmt, bind, driver, lift, throw in E. destruct (st_faults (w_store w)) as [|[f|] fs] eqn:Ef; cbn in E;
      repeat case_match; simplify_eq; cbn; try done; by rewrite Ef. }
  destruct r1; intros; simplify_eq; by split.
Qed.

Lemma DeleteLink_frame id s r s' :
  Store.DeleteLink id s = (r, s') -> forall i, i <> id -> db_links (st_db s') !! i = db_links (st_db s) !! i.
Proof.
  intros H i Hi. unfold Store.DeleteLink in H. unfold bind at 1 in H.
  destruct (wrapping _ _ s) as [[row|e] s1] eqn:E1; [|injection H as _ <-; apply wrapping_err in E1 as (? & _ & E1); by apply stmt_err in E1 as [-> _]].
  apply wrapping_ok, query_ok in E1 as (_ & Hd & _).
  destruct row as [l|]; [|injection H as _ <-; by rewrite Hd]. case_match; [injection H as _ <-; by rewrite Hd|].
  unfold bind in H. destruct (wrapping _ _ s1) as [[n|e] s2] eqn:E2.
  - assert (s' = s2) as -> by (repeat case_match; unfold throw, ret in *; by simplify_eq).
    apply wrapping_ok, stmt_ok in E2 as (d & E2 & -> & _). injection E2 as _ <-.
    rewrite delete_links_lookup, decide_False by set_solver. by rewrite Hd.
  - injection H as _ <-. apply wrapping_err in E2 as (? & _ & E2). apply stmt_err in E2 as [-> _]. by rewrite Hd.
Qed.

Lemma DeleteLink_gone id l s :
  st_faults s = [] -> db_links (st_db s) !! id = Some l -> lk_kind l <> "xdp" -> lk_kind l <> "tc" ->
  exists s', Store.DeleteLink id s = (Ok tt, s') /\ db_links (st_db s') = delete id (db_links (st_db s)).
Proof.
  intros Hf Hl Hx Ht. unfold Store.DeleteLink, bind, wrapping. rewrite query_faultless by done. cbn [wrap_err]. rewrite Hl.
  apply String.eqb_neq in Hx, Ht. rewrite Hx, Ht. cbn [orb]. rewrite stmt_faultless by done. cbn [wrap_err].
  rewrite decide_True by (by eexists). cbn. eexists. split; [done|]. cbn. apply map_eq. intros i.
  rewrite filter_notin_lookup. destruct (decide (i = id)) as [->|Hne].
  - by rewrite decide_True, lookup_delete_eq by set_solver.
  - by rewrite decide_False, lookup_delete_ne by set_solver.
Qed.

Lemma kind_nonmember d id l :
  placed base d -> db_links d !! id = Some l -> lk_kind l <> LinkKindXDP -> lk_kind l <> LinkKindTC -> nonmember id d.
Proof.
  intros Hpl Hl Hx Ht. split.
  - destruct (db_xdp d !! id) as [r|] eqn:E; [|done]. apply (pl_xdp _ _ Hpl) in E as (_ & _ & Hk). by destruct (Hx (Hk _ Hl)).
  - destruct (db_tc d !! id) as [r|] eqn:E; [|done]. apply (pl_tc _ _ Hpl) in E as (_ & _ & _ & Hk). by destruct (Ht (Hk _ Hl)).
Qed.

Lemma plain_kind det : plain_details det -> LinkDetails_Kind det <> LinkKindXDP /\ LinkDetails_Kind det <> LinkKindTC.
Proof. destruct det as [x|x|x|x|x|x|x|x]; cbn; intros []; try destruct (kpd_Retprobe x); try destruct (upd_Retprobe x); done. Qed.

Lemma fresh_link d : db_ok d -> db_links d !! (db_link_seq d + 1) = None.
Proof.
  intros Hok. destruct (db_links d !! (db_link_seq d + 1)) as [l|] eqn:E; [|done].
  apply (ok_links _ Hok) in E as [? _]. lia.
Qed.

(** The row, the details and the record of the pending link. *)
Definition pending_row (p : attachParams (K:=K)) (pa : attachPlan) (k : option Z) (now : Z) (w : W) : linkRow :=
  mkLinkRow (LinkDetails_Kind (ap_details pa)) (atp_programID p) k (Some (next_pin w)) (atp_metadata p) now.

Definition has_details (id : Z) (det : LinkDetails) (d : db) : Prop :=
  exists t, newLinkDetails (LinkDetails_Kind det) = Some t /\ t <> TXDP /\ t <> TTC /\ t <> TTCX /\
    db_details d !! (t, id) = Some det.

Lemma pending_stage p pa w r w' :
  sound base w -> plain_details (ap_details pa) ->
  onS (CreatePendingLink (pending_spec p pa) (Links base)) w = (r, w') ->
  w_kernel w' = w_kernel w /\ undisturbed base w w' /\ (st_faults (w_store w) = [] -> st_faults (w_store w') = []) /\
  match r with
  | Err _ => links_of w' = links_of w
  | Ok record => lr_ID record = next_link w /\ lr_PinPath record = Some (next_pin w) /\
      links_of w !! next_link w = None /\ nonmember (next_link w) (st_db (w_store w')) /\
      (exists now, links_of w' = <[next_link w := pending_row p pa None now w]> (links_of w)) /\
      has_details (next_link w) (ap_details pa) (st_db (w_store w'))
  end.
Proof.
  intros Hs Hp H. pose proof H as Hu. apply (quiet_onS base) in Hu; [|intros d0; apply CreatePendingLink_calm|done].
  2:{ split; [done|]. intros det [= <-]. by destruct (ap_details pa). }
  2:{ intros x. apply apart_links. }
  unfold onS in H. destruct (CreatePendingLink _ _ _) as [r1 s1] eqn:E. injection H as -> <-. split; [done|]. split; [exact Hu|].
  split; [intros Hf; by eapply CreatePendingLink_undaunted in E|].
  destruct Hs as (Htx & Hok & Hpl). destruct r as [record|e].
  - unfold CreatePendingLink in E. step_ok E rec s2 E1. unfold ret in E. injection E as <- <-.
    apply runInTx_ok in E1 as (t1 & t2 & Hd1 & _ & Hb & Hd2 & _); [|done].
    eapply create_pending_ok in Hb as (t & Ht & H1 & H2 & H3 & Hrec & Hl & Hdt & _ & Hoth); [|by rewrite Hd1|reflexivity|reflexivity|exact Hp].
    rewrite Hd1 in Hrec, Hoth. assert (Hid : lr_ID rec = next_link w) by (by rewrite Hrec). cbn [with_details lr_ID lr_PinPath].
    split; [exact Hid|]. split; [by rewrite Hrec|]. split; [by apply fresh_link|]. rewrite Hid in *. cbn [w_store] in *. rewrite <- Hd2 in *.
    split; [|split].
    + destruct Hu as [(_ & _ & Hpl' & _) _]. destruct (plain_kind _ Hp). eapply kind_nonmember; [exact Hpl'|exact Hl|done|done].
    + exists (st_now t1). unfold links_of. cbn [w_store]. apply map_eq. intros i. destruct (decide (i = next_link w)) as [->|Hne].
      * rewrite lookup_insert_eq, Hl, Hrec. done.
      * rewrite lookup_insert_ne by done. by apply Hoth.
    + exists t. by repeat (split; [done|]).
  - unfold CreatePendingLink in E. unfold bind in E. destruct (runInTx _ _) as [[x|e'] s2] eqn:E1; [done|].
    injection E as _ <-. apply runInTx_err in E1 as [Hd _]; [|done]. unfold links_of. cbn. by rewrite Hd.
Qed.

(** Deleting the pending row again. *)
Lemma undo_pending_stage id w r w' :
  sound base w -> undo_pending id w = (r, w') ->
  w_kernel w' = w_kernel w /\ undisturbed base w w' /\ (forall i, i <> id -> links_of w' !! i = links_of w !! i) /\
  (forall l, st_faults (w_store w) = [] -> links_of w !! id = Some l -> lk_kind l <> LinkKindXDP -> lk_kind l <> LinkKindTC ->
     links_of w' = delete id (links_of w)).
Proof.
  intros Hs H. unfold undo_pending, best_effort in H. destruct (onS _ w) as [r1 w1] eqn:E. injection H as <- <-.
  pose proof E as Hu. apply (quiet_onS base) in Hu; [|eauto with world|done].
  unfold onS in E. destruct (Store.DeleteLink id (w_store w)) as [r2 s2] eqn:E2. injection E as <- <-.
  split; [done|]. split; [exact Hu|]. split; [by eapply DeleteLink_frame|].
  intros l Hf Hl Hx Ht. destruct (DeleteLink_gone id l _ Hf Hl Hx Ht) as (s' & E' & Hd). rewrite E2 in E'. by simplify_eq.
Qed.

Lemma Finalise_frame id k s r s' :
  FinaliseLink id k s = (r, s') ->
  st_db s' = st_db s \/
  exists l, db_links (st_db s) !! id = Some l /\
    st_db s' = set_links (<[id := set_klink k l]> (db_links (st_db s))) (db_link_seq (st_db s)) (st_db s).
Proof.
  intros H. assert (H' : exists r', update_returning (set_klink k) id s = (r', s')).
  { unfold FinaliseLink in H. destruct (update_returning _ _ _) as [[x|e] s1]; injection H as _ <-; by eexists. }
  destruct H' as [r' H']. unfold update_returning, bind in H'.
  destruct (stmt _ s) as [[row|e] s1] eqn:E; [unfold lift in H'|]; injection H' as _ <-.
  - apply stmt_ok in E as (d & E & -> & _). unfold update_link in E. destruct (db_links (st_db s) !! id) as [l|].
    + apply check_ok in E as [_ E]. injection E as _ <-. right. by exists l.
    + injection E as _ <-. by left.
  - apply stmt_err in E as [-> _]. by left.
Qed.

Lemma Finalise_undaunted id k : undaunted (FinaliseLink id k).
Proof.
  intros s r s' Hf H. unfold FinaliseLink in H. destruct (update_returning _ _ _) as [r1 s1] eqn:E.
  assert (st_faults s1 = []) as Hs by (unfold update_returning in E; eapply undaunted_bind in E; eauto with store).
  destruct r1; by simplify_eq.
Qed.

Lemma finalise_stage id k w r w' :
  sound base w -> nonmember id (st_db (w_store w)) -> onS (FinaliseLink id k) w = (r, w') ->
  w_kernel w' = w_kernel w /\ undisturbed base w w' /\ (st_faults (w_store w) = [] -> st_faults (w_store w') = []) /\
  (links_of w' = links_of w \/ exists l, links_of w !! id = Some l /\ links_of w' = <[id := set_klink k l]> (links_of w)) /\
  forall rec, r = Ok rec -> exists l, links_of w !! id = Some l /\ links_of w' = <[id := set_klink k l]> (links_of w) /\
    db_details (st_db (w_store w')) = db_details (st_db (w_store w)) /\ scanLinkRecord id (Some (set_klink k l)) = Ok rec.
Proof.
  intros Hs Hn H. unfold onS in H. destruct (FinaliseLink id k (w_store w)) as [r1 s1] eqn:E. injection H as <- <-.
  split; [done|]. split; [|split].
  - destruct (undisturbed_refl base w Hs) as [Hc _]. split; [|done]. by eapply FinaliseLink_calm.
  - intros Hf. by eapply Finalise_undaunted.
  - split.
    + apply Finalise_frame in E as [E|(l & Hl & E)]; unfold links_of; cbn [w_store]; rewrite E; [by left|right; by exists l].
    + intros rec ->. unfold FinaliseLink in E. destruct (update_returning _ _ _) as [[x|e] s2] eqn:E2; [|done]. injection E as -> ->.
      apply update_returning_ok in E2 as (l & Hl & Hd & Hsc). exists l. unfold links_of. cbn [w_store]. by rewrite Hd.
Qed.

(** Reading a finalised link back. *)
Lemma GetLink_finalised id l det rec s :
  st_faults s = [] -> db_links (st_db s) !! id = Some l -> has_details id det (st_db s) -> lk_kind l = LinkDetails_Kind det ->
  scanLinkRecord id (Some l) = Ok rec -> Store.GetLink id s = (Ok (with_details (Some det) rec), s).
Proof.
  intros Hf Hl (t & Ht & H1 & H2 & H3 & Hd) Hk Hsc. unfold Store.GetLink, bind. rewrite query_faultless by done. rewrite Hl, Hsc.
  cbn [lift]. assert (lr_Kind rec = LinkDetails_Kind det /\ lr_ID rec = id) as [-> ->].
  { cbn in Hsc. destruct (ParseLinkKind (lk_kind l)) as [k|] eqn:Ek; [|done]. apply ParseLinkKind_id in Ek as [-> _].
    cbn in Hsc. by injection Hsc as <-. }
  unfold getLinkDetails. rewrite Ht. unfold bind. rewrite query_faultless by done. by rewrite (read_plain t _ det).
Qed.

(** What a failed attach may leave: a pin at the path of the next link, and
    its pending row only if the driver refused to delete it. *)
Definition attach_failed (w w' : W) : Prop :=
  only_at (next_pin w) (kv w) (kv w') /\
  (forall i, i <> next_link w -> links_of w' !! i = links_of w !! i) /\
  (st_faults (w_store w) = [] -> links_of w' = links_of w).

Definition attach_done (w w' : W) (link : Link) : Prop :=
  lr_ID (l_Record link) = next_link w /\ lr_PinPath (l_Record link) = Some (next_pin w) /\
  kv_pins (kv w) !! next_pin w = None /\ kv w' = pin (next_pin w) KOther (kv w) /\
  links_of w !! next_link w = None /\ delete (next_link w) (links_of w') = links_of w /\
  (st_faults (w_store w) = [] -> Store.GetLink (next_link w) (w_store w') = (Ok (l_Record link), w_store w')).

Lemma attach_failed_same w w' : kv w' = kv w -> links_of w' = links_of w -> attach_failed w w'.
Proof. intros Hk Hl. unfold attach_failed. rewrite Hk, Hl. done. Qed.

(** The kernel attach failed, or was taken back: the row goes. *)
Lemma attach_failed_undo p pa w w3 w4 r w' :
  plain_details (ap_details pa) -> undisturbed base w w4 -> only_at (next_pin w) (kv w) (kv w4) -> w_store w4 = w_store w3 ->
  (st_faults (w_store w) = [] -> st_faults (w_store w3) = []) -> links_of w !! next_link w = None ->
  (exists k now, links_of w3 = <[next_link w := pending_row p pa k now w]> (links_of w)) ->
  undo_pending (next_link w) w4 = (r, w') -> undisturbed base w w' /\ attach_failed w w'.
Proof.
  intros Hp Hu Hk Hst Hf Hfree (k & now & Hl) H. pose proof (plain_kind _ Hp) as [Hx Ht].
  apply undo_pending_stage in H as (Hk' & Hu' & Hoth & Hgone); [|by eapply undisturbed_sound].
  split; [by eapply undisturbed_trans|]. split; [unfold kv at 2; rewrite Hk'; exact Hk|].
  assert (Hl4 : links_of w4 = <[next_link w := pending_row p pa k now w]> (links_of w)) by (unfold links_of; by rewrite Hst).
  split.
  - intros i Hi. by rewrite Hoth, Hl4, lookup_insert_ne.
  - intros Hfs. rewrite (Hgone (pending_row p pa k now w)); try done.
    + rewrite Hl4. by apply delete_insert_id.
    + rewrite Hst. by apply Hf.
    + by rewrite Hl4, lookup_insert_eq.
Qed.

Lemma only_at_trans p v1 v2 v3 : only_at p v1 v2 -> only_at p v2 v3 -> only_at p v1 v3.
Proof. intros [Hf1 Hp1] [Hf2 Hp2]. split; [congruence|]. intros q Hq. by rewrite Hp2, Hp1. Qed.

(** The kernel attach itself. *)
Lemma attach_stage pa lp w r w' :
  apart base lp -> (exists m, executor_ExecuteResult base (ap_attachAction pa lp) = value (onK m) /\ attaches view lp m) ->
  sound base w -> action_Produce AttachOutput (ap_attachAction pa lp) w = (r, w') ->
  w_store w' = w_store w /\ undisturbed base w w' /\
  match r with
  | Ok _ => kv_pins (kv w) !! lp = None /\ kv w' = pin lp KOther (kv w)
  | Err _ => only_at lp (kv w) (kv w')
  end.
Proof.
  intros Hlp (m & Hex & Hatt) Hs H. rewrite (produce_value base _ (onK m)) in H by done.
  pose proof H as Hu. apply (quiet_onK base) in Hu; [|by eapply attaches_harmless|done].
  apply onK_frame in H as (Hst & _ & H). split; [done|]. split; [done|]. destruct Hatt as [Hok Herr], r as [out|e].
  - by apply Hok in H as (? & ? & _).
  - by apply Herr in H.
Qed.

Lemma attachTail_spec p pa w r w' :
  sound base w -> plain_details (ap_details pa) ->
  (forall lp, exists m, executor_ExecuteResult base (ap_attachAction pa lp) = value (onK m) /\ attaches view lp m) ->
  attachTail base p pa w = (r, w') ->
  undisturbed base w w' /\ match r with Ok link => attach_done w w' link | Err _ => attach_failed w w' end.
Proof.
  intros Hs Hp Hact H. unfold attachTail, bind in H.
  destruct (onS (CreatePendingLink _ _) w) as [rrec w3] eqn:E3.
  apply pending_stage in E3 as (Hk3 & Hu3 & Hf3 & Hrec); [|done..].
  destruct rrec as [record|e].
  2:{ injection H as <- <-. split; [done|]. apply attach_failed_same; [by unfold kv; rewrite Hk3|done]. }
  destruct Hrec as (Hid & Hpin & Hfree & Hnm & [now Hl3] & Hdet). rewrite Hpin, Hid in H. change (default [] (Some (next_pin w))) with (next_pin w) in H.
  assert (Hkv3 : kv w3 = kv w) by (unfold kv; by rewrite Hk3).
  destruct (on_error (action_Produce _ _) _ w3) as [rout w5] eqn:E4. unfold on_error in E4.
  destruct (action_Produce AttachOutput (ap_attachAction pa (next_pin w)) w3) as [rout' w4] eqn:E4'.
  apply attach_stage in E4' as (Hst4 & Hu4 & Hatt); [|apply apart_links|by apply Hact|by eapply undisturbed_sound].
  pose proof (undisturbed_trans _ _ _ _ Hu3 Hu4) as Hu. rewrite Hkv3 in Hatt. destruct rout' as [out|e]; injection E4 as <- <-.
  2:{ injection H as <- <-. destruct (undo_pending (next_link w) w4) as [r5 w5] eqn:E5. cbn [snd].
      eapply attach_failed_undo; [exact Hp|exact Hu|exact Hatt|exact Hst4|exact Hf3|exact Hfree|by exists None, now|exact E5]. }
  destruct Hatt as [Hnone Hkv4].
  destruct (on_error (wrapping _ _) _ w4) as [rfin w6] eqn:E5. unfold on_error, wrapping in E5.
  destruct (onS (FinaliseLink _ _) w4) as [rfin' w5] eqn:E5'. rewrite <- Hst4 in Hnm, Hf3, Hdet.
  assert (Hl4 : links_of w4 = links_of w3) by (unfold links_of; by rewrite Hst4).
  apply finalise_stage in E5' as (Hk5 & Hu5 & Hf5 & Hrow & Hfin); [|by eapply undisturbed_sound|done].
  pose proof (undisturbed_trans _ _ _ _ Hu Hu5) as Hu'. assert (Hkv5 : kv w5 = kv w4) by (unfold kv; by rewrite Hk5).
  destruct rfin' as [rec|e]; cbn [wrap_err] in E5; injection E5 as <- <-; injection H as <- <-.
  - destruct (Hfin _ eq_refl) as (l & Hl & Hl5 & Hd5 & Hsc). rewrite Hl4, Hl3, lookup_insert_eq in Hl. injection Hl as <-.
    rewrite Hl4, Hl3, insert_insert_eq in Hl5. split; [exact Hu'|].
    assert (Hlp : lr_ID rec = next_link w /\ lr_PinPath rec = Some (next_pin w)).
    { cbn in Hsc. destruct (ParseLinkKind _); [|done]. cbn in Hsc. by injection Hsc as <-. }
    split; [apply Hlp|]. split; [apply Hlp|]. split; [done|]. split; [by rewrite Hkv5|]. split; [done|].
    split; [rewrite Hl5; by apply delete_insert_id|]. intros Hf. cbn [l_Record].
    apply (GetLink_finalised _ (set_klink (ao_KernelLinkID out) (pending_row p pa None now w))); [by auto| | |reflexivity|exact Hsc].
    + change (links_of w5 !! next_link w = Some (set_klink (ao_KernelLinkID out) (pending_row p pa None now w))). by rewrite Hl5, lookup_insert_eq.
    + destruct Hdet as (t & Ht & H1 & H2 & H3 & Hd). exists t. by rewrite Hd5.
  - unfold bind. rewrite !best_effort_run. cbn [snd].
    destruct (onK (DetachLink (next_pin w)) w5) as [r6 w6] eqn:E6. cbn [snd].
    destruct (undo_pending (next_link w) w6) as [r7 w7] eqn:E7. cbn [snd].
    pose proof E6 as Hu6. apply (quiet_onK base) in Hu6; [|apply DetachLink_harmless, apart_links|by eapply undisturbed_sound].
    apply onK_frame in E6 as (Hst6 & _ & Hk6).
    eapply attach_failed_undo; [exact Hp|by eapply undisturbed_trans| |exact Hst6|by auto|exact Hfree| |exact E7].
    + apply (only_at_trans _ _ (kv w5)); [rewrite Hkv5, Hkv4; apply only_at_pinned|].
      destruct r6 as [[]|e6]; [apply law_detach_link in Hk6; unfold kv; rewrite Hk6; apply only_at_changed|].
      by apply law_detach_link_err in Hk6.
    + destruct Hrow as [Hr|(l & Hl & Hr)]; rewrite Hl4, Hl3 in *; [by exists None, now|].
      rewrite lookup_insert_eq in Hl. injection Hl as <-. exists (ao_KernelLinkID out), now. by rewrite Hr, insert_insert_eq.
Qed.

(** Reads before the attach change neither the tables nor the kernel. *)
Definition same_state (w w2 : W) : Prop :=
  st_db (w_store w2) = st_db (w_store w) /\ st_inTx (w_store w2) = st_inTx (w_store w) /\ kv w2 = kv w /\
  (st_faults (w_store w) = [] -> st_faults (w_store w2) = []).

Lemma same_state_trans w1 w2 w3 : same_state w1 w2 -> same_state w2 w3 -> same_state w1 w3.
Proof. intros (A1 & A2 & A3 & A4) (B1 & B2 & B3 & B4). repeat split; try congruence. auto. Qed.

Lemma getProgram_same id w r w' : executeGetProgram (K:=K) id w = (r, w') -> same_state w w'.
Proof. intros (Hk & Hd & Ht & _ & Hf)%getProgram_frame. split; [done|]. split; [done|]. split; [by unfold kv; rewrite Hk|done]. Qed.

Lemma reads_same w w' : w_store w' = w_store w -> kv w' = kv w -> same_state w w'.
Proof. intros Hs Hk. unfold same_state. by rewrite Hs. Qed.

Lemma same_sound w w2 : same_state w w2 -> sound base w -> sound base w2.
Proof. intros (Hd & Ht & _) (Htx & Hok & Hpl). split; [congruence|]. rewrite Hd. done. Qed.

Lemma same_undisturbed w w2 w' : same_state w w2 -> undisturbed base w2 w' -> undisturbed base w w'.
Proof. intros (Hd & _ & Hk & _). unfold undisturbed. by rewrite Hd, Hk. Qed.

Lemma same_failed w w2 w' : same_state w w2 -> attach_failed w2 w' -> attach_failed w w'.
Proof.
  intros (Hd & _ & Hk & Hf). unfold attach_failed, next_pin, next_link, links_of. rewrite Hd, Hk. intros (H1 & H2 & H3). auto.
Qed.

Lemma same_done w w2 w' link : same_state w w2 -> attach_done w2 w' link -> attach_done w w' link.
Proof.
  intros (Hd & _ & Hk & Hf). unfold attach_done, next_pin, next_link, links_of. rewrite Hd, Hk.
  intros (H1 & H2 & H3 & H4 & H5 & H6 & H7). auto 10.
Qed.

Lemma simpleAttach_spec p w o w' :
  prepares p -> sound base w -> simpleAttach base p w = (o, w') ->
  exists r, o = Ret r /\ undisturbed base w w' /\ match r with Ok link => attach_done w w' link | Err _ => attach_failed w w' end.
Proof.
  intros Hp Hs H. rewrite simpleAttach_run in H. unfold call in H.
  destruct (simpleAttachDirect base p w) as [r w1] eqn:E. injection H as <- <-. exists r. split; [done|].
  unfold simpleAttachDirect, bind in E. destruct (executeGetProgram _ w) as [[prog|e] w2] eqn:E2; apply getProgram_same in E2 as Hs2.
  2:{ injection E as <- <-. split; [eapply same_undisturbed; [done|]; by eapply undisturbed_refl, same_sound|].
      by apply (same_failed _ _ _ Hs2), attach_failed_same. }
  destruct (atp_prepare p prog _ w2) as [rpa w3] eqn:E3. destruct (pr_reads _ Hp _ _ _ _ _ E3) as [Hst Hk].
  pose proof (same_state_trans _ _ _ Hs2 (reads_same _ _ Hst Hk)) as Hs3. pose proof (same_sound _ _ Hs3 Hs) as Hsd. destruct rpa as [pa|e].
  2:{ injection E as <- <-. split; [eapply same_undisturbed; [done|]; by apply undisturbed_refl|].
      by apply (same_failed _ _ _ Hs3), attach_failed_same. }
  destruct (pr_plan _ Hp _ _ _ _ _ E3) as [Hpl Hact]. apply attachTail_spec in E as [Hu Hr]; [|done..].
  split; [by eapply same_undisturbed|]. destruct r; [by eapply same_done|by eapply same_failed].
Qed.
End Contract.

(** ** The five verbs *)

Section Verbs.
Context {K : Type} `{!KernelOps K} {NC : NetConsts} `{!KernelLaws K} (base : path).
Abbreviation W := (world K store).

(** The attach kinds that run this plan. *)
Definition tracing (spec : AttachSpec) : bool :=
  match spec with
  | TracepointAttachSpec _ _ _ _ | KprobeAttachSpec _ _ _ _ | UprobeAttachSpec _ _ _ _ _ _ _
  | FentryAttachSpec _ _ | FexitAttachSpec _ _ => true
  | _ => false
  end.

(** A preparation that only decides. *)
Lemma prepares_pure id md (f : ProgramRecord -> path -> M W attachPlan) :
  (forall prog pp, (exists e, f prog pp = throw e) \/ (exists pa, f prog pp = ret pa /\ plain_details (ap_details pa) /\
     forall lp, exists m, executor_ExecuteResult base (ap_attachAction pa lp) = value (onK m) /\ attaches view lp m)) ->
  prepares base (mkAttachParams (K:=K) id md f).
Proof.
  intros Hf. split; cbn [atp_prepare]; intros prog pp w; destruct (Hf prog pp) as [[e ->]|(pa & -> & Hp)]; unfold throw, ret.
  - intros r w' [= _ <-]. done.
  - intros r w' [= _ <-]. done.
  - done.
  - intros x w' [= <- _]. done.
Qed.

Lemma prepares_validated id md (v : M W unit) (pa : path -> attachPlan) :
  (forall w r w', v w = (r, w') -> w_store w' = w_store w /\ kv w' = kv w) ->
  (forall pp, plain_details (ap_details (pa pp)) /\
     forall lp, exists m, executor_ExecuteResult base (ap_attachAction (pa pp) lp) = value (onK m) /\ attaches view lp m) ->
  prepares base (mkAttachParams id md (fun _ pp => v;;; ret (pa pp))).
Proof.
  intros Hv Hp. split; cbn [atp_prepare]; intros prog pp w; unfold bind, ret.
  - intros r w'. destruct (v w) as [[u|e] w1] eqn:E; intros [= _ <-]; by eapply Hv.
  - intros x w'. destruct (v w) as [[u|e] w1]; [|done]. intros [= <- _]. apply Hp.
Qed.

Lemma validateTracepoint_reads group name w r w' :
  validateTracepointExists group name w = (r, w') -> w_store w' = w_store w /\ kv w' = kv w.
Proof.
  unfold validateTracepointExists, bind, wrapping. destruct (onK ListTracepoints w) as [r1 w1] eqn:E.
  apply onK_frame in E as (Hs & _ & Hk). pose proof (law_tracepoints (w_kernel w)) as Hr. rewrite Hk in Hr. cbn in Hr.
  destruct r1 as [[|t ts]|e]; cbn [wrap_err]; unfold ret, throw; repeat case_match; intros [= _ <-]; done.
Qed.

Lemma tracepoint_prepares md id group name :
  prepares base (mkAttachParams (K:=K) id md (fun _ pp => validateTracepointExists group name;;;
    ret (mkAttachPlan (group +:+ "/" +:+ name) (DTracepoint (mkTracepointDetails group name)) (AAttachTracepoint pp group name)))).
Proof.
  apply prepares_validated; [apply validateTracepoint_reads|]. intros pp. split; [done|]. intros lp. eexists. split; [reflexivity|].
  apply law_tracepoint.
Qed.

(** Every tracing attach is the plan with a preparation of the right kind. *)
Lemma tracing_plan lock spec :
  tracing spec = true ->
  exists p, prepares base p /\
    match spec with
    | TracepointAttachSpec md id g n => attachTracepoint base md id g n
    | KprobeAttachSpec md id fn off => attachKprobe base md id fn off
    | UprobeAttachSpec md id t fn off pid cpid => attachUprobe base lock md id t fn off pid cpid
    | FentryAttachSpec md id => attachFentry base md id
    | FexitAttachSpec md id => attachFexit base md id
    | _ => gpanic
    end = simpleAttach (K:=K) base p.
Proof.
  destruct spec as [md id g n|md id fn off|md id t fn off pid cpid|md id|md id| | |]; try done; intros _.
  - eexists. split; [apply tracepoint_prepares|reflexivity].
  - eexists. split; [|reflexivity]. apply prepares_pure. intros prog pp. right. eexists. split; [done|].
    split; [done|]. intros lp. eexists. split; [reflexivity|apply law_kprobe].
  - eexists. split; [|reflexivity]. apply prepares_pure. intros prog pp.
    destruct (_ && (off =? 0)); [left; by eexists|]. destruct (_ && negb _); [left; by eexists|].
    destruct (_ && bool_decide _); [left; by eexists|]. right. eexists. split; [done|]. split; [done|]. intros lp. cbn [ap_attachAction].
    destruct (0 <? cpid); (eexists; split; [reflexivity|apply law_uprobe_container || apply law_uprobe_local]).
  - eexists. split; [|reflexivity]. apply prepares_pure. intros prog pp. cbv zeta; case_match; [left; by eexists|].
    right. eexists. split; [done|]. split; [done|]. intros lp. eexists. split; [reflexivity|apply law_fentry].
  - eexists. split; [|reflexivity]. apply prepares_pure. intros prog pp. cbv zeta; case_match; [left; by eexists|].
    right. eexists. split; [done|]. split; [done|]. intros lp. eexists. split; [reflexivity|apply law_fexit].
Qed.

Lemma Attach_tracing lock spec w o w' :
  tracing spec = true -> sound base w -> Attach base lock spec w = (o, w') ->
  exists r, o = Ret r /\ undisturbed base w w' /\
    match r with Ok link => attach_done base w w' link | Err _ => attach_failed base w w' end.
Proof.
  intros Ht Hs H. unfold Attach, gbind, call, getProgram in H.
  destruct (executeGetProgram (as_ProgramID spec) w) as [rp w1] eqn:E. apply getProgram_same in E as Hs1.
  pose proof (same_sound base _ _ Hs1 Hs) as Hsd.
  assert (Hquit : forall e, exists r, @Ret Link (Err e) = Ret r /\ undisturbed base w w1 /\
            match r with Ok link => attach_done base w w1 link | Err _ => attach_failed base w w1 end).
  { intros e. eexists. split; [done|]. split; [eapply same_undisturbed; [done|by apply undisturbed_refl]|].
    by apply (same_failed base _ _ _ Hs1), attach_failed_same. }
  destruct rp as [prog|e]; [|injection H as <- <-; apply Hquit]. unfold lift in H.
  destruct (ValidateAttachProgramType spec _) as [u|e]; [|injection H as <- <-; apply Hquit].
  destruct (tracing_plan lock spec Ht) as (p & Hp & Hrun).
  assert (Hrun' : simpleAttach base p w1 = (o, w')) by (rewrite <- Hrun; by destruct spec).
  apply simpleAttach_spec in Hrun' as (r & -> & Hu & Hr); [|done..]. exists r. split; [done|].
  split; [by eapply same_undisturbed|]. destruct r; [by eapply same_done|by eapply same_failed].
Qed.

(** C7: an attach without a dispatcher is the direct program. Interpreting
    the plan of preparedNode, pendingLinkNode, kernelAttachNode and finaliseNode
    with its bindings and its undo lists does, on every world and for every
    outcome of the kernel and the store, exactly what the program does that
    calls the steps in order and on a failure undoes the completed ones in
    reverse; in particular no lookup of a binding and no dereference of the
    pin path panics. *)
Theorem simpleAttach_direct (p : attachParams (K:=K)) w :
  simpleAttach base p w = call (simpleAttachDirect base p) w.
Proof. apply simpleAttach_run. Qed.

(** C6: a tracepoint, kprobe, uprobe, fentry or fexit attach happens completely
    or leaves no link behind. Attach returns (it never panics) and every
    dispatcher keeps being served. When it succeeds, the link has the next
    unused ID and is pinned under that ID below the links directory, which
    was free; nothing else changed in the kernel; the other link rows are as
    before, and GetLink reads back the very record that was returned. When it
    fails, nothing changed in the kernel but possibly at that pin path, the
    other link rows are as before, and if the driver refuses no statement there
    is no row for the link either (a refused deletion leaves the pending row). *)
Theorem Attach_tracing_contract lock spec w o w' :
  tracing spec = true -> coherent base w -> Attach base lock spec w = (o, w') ->
  exists r, o = Ret r /\ coherent base w' /\
    match r with Ok link => attach_done base w w' link | Err _ => attach_failed base w w' end.
Proof.
  intros Ht Hc H. apply Attach_tracing in H as (r & -> & Hu & Hr); [|done|by apply coherent_sound].
  exists r. split; [done|]. split; [by eapply undisturbed_coherent|done].
Qed.
End Verbs.
