(* ===== verification/Requests.v ===== *)
(** * Detach and Unload

    A link row of a dispatcher member leads to the snapshot that has it as a
    member; detaching takes its extension off and rebuilds the dispatcher
    without it, any other link is unpinned and its row deleted. Unload
    detaches every link of a program, unpins it and deletes its records.
    Successful requests leave a coherent world and nothing of what they removed. *)

From Stdlib Require Import ZArith Lia String.
From stdpp Require Import base tactics sets list gmap strings numbers sorting.
From S2P Require Import Prelude Actions Dispatcher Domain Slots Layout Operation Planning Platform Executor Rebuild.
From S2P Require Import Members XDPRebuild TCRebuild TCAttach Detach Lifecycle Bytecode.
From S2P Require Import StoreDb Store StoreTx StoreSpec StoreInv Placed Coherent Manager Attach SimpleAttach.

Local Open Scope string_scope.
Local Open Scope list_scope.
Local Open Scope Z_scope.

(** ** From a member row to its snapshot *)

Lemma ProceedOnMask_total dt codes :
  dt <> DispatcherTypeZero -> codes_valid dt codes -> exists m, ProceedOnMask dt codes = Ok m.
Proof.
  intros Hz Hv. unfold ProceedOnMask. destruct (proceedOnOffset dt) as [off|] eqn:E; [|by destruct dt]. cbn [rbind].
  by apply mask_loop_total.
Qed.

Section Snapshots.
Context (base : path).

(** The attach point of a member row, by its table. *)
Definition member_at (d : db) (k : Dispatcher.Key) (id : Z) : Prop :=
  exists r, member_table (KType k) d !! id = Some r /\ at_point k r = true.

Lemma member_at_valid d k id r :
  placed base d -> KType k <> DispatcherTypeZero -> member_table (KType k) d !! id = Some r ->
  codes_valid (KType k) (mr_proceed_on r).
Proof.
  intros Hpl Hz Hr. destruct (KType k) eqn:E; try done; cbn in Hr.
  - by apply (pl_xdp _ _ Hpl) in Hr as (_ & ? & _).
  - by apply (pl_tc _ _ Hpl) in Hr as (_ & ? & _).
  - by apply (pl_tc _ _ Hpl) in Hr as (_ & ? & _).
Qed.

Lemma rmap_exists {A B} (f : A -> result B) l :
  (forall x, x ∈ l -> exists y, f x = Ok y) -> exists ys, rmap f l = Ok ys.
Proof.
  induction l as [|x l IH]; intros H; cbn; [by eexists|].
  destruct (H x) as [y ->]; [by left|]. cbn. destruct IH as [ys ->]; [intros z Hz; apply H; by right|]. cbn. by eexists.
Qed.

(** Every stored dispatcher reads back as a snapshot. *)
Lemma snapshot_exists d k row :
  placed base d -> db_dispatchers d !! k = Some row -> KType k <> DispatcherTypeZero ->
  exists ms, snaps d !! k = Some (mkDispatcherSnapshot k (dr_revision row) (scanDispatcherRuntime row) ms) /\
    rmap (scan_member k) (get_members k d) = Ok ms.
Proof.
  intros Hpl Hrow Hz. destruct (rmap_exists (scan_member k) (get_members k d)) as [ms Hms].
  - intros [id x] Hx. rewrite get_members_perm in Hx. apply elem_of_map_to_list in Hx. rewrite joined_lookup in Hx.
    destruct (member_table (KType k) d !! id) as [r|] eqn:Er; [|done]. cbn in Hx.
    pose proof (member_at_valid _ _ _ _ Hpl Hz Er) as Hv. unfold join_member in Hx. destruct (at_point k r); [|done].
    destruct (db_links d !! id) as [l|]; [|done]. cbn in Hx. destruct (db_programs d !! _) as [p|]; [|done]. cbn in Hx. injection Hx as <-.
    destruct (ProceedOnMask_total _ _ Hz Hv) as [m Hm]. unfold scan_member. rewrite Hm. by eexists.
  - exists ms. split; [|done]. unfold snaps. by rewrite map_lookup_imap, Hrow; cbn; rewrite Hms.
Qed.

(** The link of a member row is a member of the snapshot. *)
Lemma member_in_snapshot d k id l s :
  db_ok d -> member_at d k id -> db_links d !! id = Some l -> snaps d !! k = Some s ->
  exists m, m ∈ sn_Members s /\ dm_LinkID m = id /\ dm_LinkPinPath m = default [] (lk_pin_path l) /\
    dm_ProgramID m = lk_kernel_prog_id l.
Proof.
  intros Hok (r & Hr & Ha) Hl Hs. unfold snaps in Hs. rewrite map_lookup_imap in Hs.
  destruct (db_dispatchers d !! k) as [row|]; [|done]. cbn in Hs.
  destruct (rmap (scan_member k) (get_members k d)) as [ms|] eqn:Hms; [|done]. injection Hs as <-. cbn [sn_Members].
  pose proof (ok_links _ Hok) as Hlinks. destruct (Hlinks _ _ Hl) as (_ & _ & [p Hp]).
  assert (Hin : (id, (r, l, p)) ∈ get_members k d).
  { rewrite get_members_perm. apply elem_of_map_to_list. rewrite joined_lookup, Hr. cbn. unfold join_member. rewrite Ha, Hl. cbn.
    by rewrite Hp. }
  apply rmap_ok_Forall2 in Hms. apply list_elem_of_lookup_1 in Hin as [i Hi].
  eapply Forall2_lookup_l in Hms as (m & Hm & Hsc); [|exact Hi]. exists m. split; [by eapply list_elem_of_lookup_2|].
  unfold scan_member in Hsc. destruct (ProceedOnMask _ _); [|done]. cbn in Hsc. by injection Hsc as <-.
Qed.

(** Conversely the members of a snapshot are rows of its table. *)
Lemma snapshot_member_at d k s m :
  snaps d !! k = Some s -> m ∈ sn_Members s -> member_at d k (dm_LinkID m).
Proof.
  intros Hs Hm. unfold snaps in Hs. rewrite map_lookup_imap in Hs. destruct (db_dispatchers d !! k) as [row|]; [|done]. cbn in Hs.
  destruct (rmap (scan_member k) (get_members k d)) as [ms|] eqn:Hms; [|done]. injection Hs as <-. cbn [sn_Members] in Hm.
  apply rmap_ok_Forall2 in Hms. apply list_elem_of_lookup_1 in Hm as [i Hi].
  eapply Forall2_lookup_r in Hms as ([id x] & Hx & Hsc); [|exact Hi]. apply list_elem_of_lookup_2 in Hx.
  rewrite get_members_perm in Hx. apply elem_of_map_to_list in Hx. rewrite joined_lookup in Hx.
  destruct (member_table (KType k) d !! id) as [r|] eqn:Er; [|done]. cbn in Hx. unfold join_member in Hx.
  destruct (at_point k r) eqn:Ea; [|done].
  assert (dm_LinkID m = id) as ->; [|by exists r].
  destruct x as [[r' l] p]. unfold scan_member in Hsc. destruct (ProceedOnMask _ _); [|done]. cbn in Hsc. by injection Hsc as <-.
Qed.

(** and have a link row, of the program the member names. *)
Lemma snapshot_member_row d k s m :
  snaps d !! k = Some s -> m ∈ sn_Members s ->
  exists l, db_links d !! dm_LinkID m = Some l /\ lk_kernel_prog_id l = dm_ProgramID m.
Proof.
  intros Hs Hm. unfold snaps in Hs. rewrite map_lookup_imap in Hs. destruct (db_dispatchers d !! k) as [row|]; [|done]. cbn in Hs.
  destruct (rmap (scan_member k) (get_members k d)) as [ms|] eqn:Hms; [|done]. injection Hs as <-. cbn [sn_Members] in Hm.
  apply rmap_ok_Forall2 in Hms. apply list_elem_of_lookup_1 in Hm as [i Hi].
  eapply Forall2_lookup_r in Hms as ([id [[r l] p]] & Hx & Hsc); [|exact Hi]. apply list_elem_of_lookup_2 in Hx.
  rewrite get_members_perm in Hx. apply elem_of_map_to_list in Hx. rewrite joined_lookup in Hx.
  destruct (member_table (KType k) d !! id) as [r0|]; [|done]. cbn in Hx. unfold join_member in Hx.
  destruct (at_point k r0); [|done]. destruct (db_links d !! id) as [l0|] eqn:El; [|done]. cbn in Hx.
  destruct (db_programs d !! _); [|done]. injection Hx as -> -> ->.
  unfold scan_member in Hsc. destruct (ProceedOnMask _ _); [|done]. cbn in Hsc. injection Hsc as <-. by exists l.
Qed.

Lemma xdp_member_at d id r : db_xdp d !! id = Some r -> member_at d (xdp_key r) id.
Proof. intros Hr. exists r. split; [done|]. unfold at_point, xdp_key. cbn. by rewrite !Z.eqb_refl. Qed.

Lemma tc_member_at d id r :
  db_tc d !! id = Some r -> TCDirection_Valid (mr_direction r) = true -> member_at d (tc_row_key r) id.
Proof.
  intros Hr Hd. exists r. split; [unfold tc_row_key, tc_type; cbn; by destruct (_ =? _)%string|].
  apply tc_row_key_other; [|done|done]. unfold tc_row_key, tc_type. cbn. by destruct (_ =? _)%string.
Qed.

(** A link is a member of some stored snapshot, or of none and then it has no member row. *)
Lemma nonmember_or_snapshot d id l :
  sound_db base d -> db_links d !! id = Some l ->
  nonmember id d \/ exists k s m, snaps d !! k = Some s /\ m ∈ sn_Members s /\ dm_LinkID m = id /\
    dm_LinkPinPath m = default [] (lk_pin_path l) /\ dm_ProgramID m = lk_kernel_prog_id l.
Proof.
  intros [Hok Hpl] Hl.
  assert (Hk : forall k, member_at d k id -> (exists row, db_dispatchers d !! k = Some row) -> 
    exists k s m, snaps d !! k = Some s /\ m ∈ sn_Members s /\ dm_LinkID m = id /\ dm_LinkPinPath m = default [] (lk_pin_path l) /\
      dm_ProgramID m = lk_kernel_prog_id l).
  { intros k Hat [row Hrow]. pose proof (pl_keys _ _ Hpl) as Hkeys. pose proof (Hkeys _ _ Hrow) as Hwf. cbn in Hwf.
    destruct (snapshot_exists _ _ _ Hpl Hrow) as (ms & Hs & _); [apply Hwf|].
    destruct (member_in_snapshot _ _ _ _ _ Hok Hat Hl Hs) as (m & Hm & Hid & Hpin & Hpid). by eexists k, _, m. }
  destruct (db_xdp d !! id) as [r|] eqn:Ex.
  - right. apply (pl_xdp _ _ Hpl) in Ex as Hr. destruct Hr as ((row & Hrow & _) & _). eapply Hk; [by apply xdp_member_at|by exists row].
  - destruct (db_tc d !! id) as [r|] eqn:Et; [|by left].
    right. apply (pl_tc _ _ Hpl) in Et as Hr. destruct Hr as ((row & Hrow & _) & _ & Hd & _). eapply Hk; [by apply tc_member_at|by exists row].
Qed.

Lemma member_at_unique d k k' id : db_ok d -> member_at d k id -> member_at d k' id -> k = k'.
Proof.
  intros Hok (r & Hr & Ha) (r' & Hr' & Ha'). destruct (decide (is_xdp (KType k) = is_xdp (KType k'))) as [Hx|Hx].
  - rewrite (member_table_same _ _ d Hx), Hr' in Hr. injection Hr as ->. by eapply at_point_unique.
  - apply elem_of_dom_2 in Hr, Hr'. pose proof (ok_disjoint _ Hok). destruct (KType k), (KType k'); cbn in *; try done; set_solver.
Qed.

(** The dispatcher a stored link belongs to, or that it has none. *)
Lemma record_cases d id l t det :
  sound_db base d -> db_links d !! id = Some l -> newLinkDetails (lk_kind l) = Some t -> read_details t id d = Some (Ok det) ->
  (nonmember id d /\ lk_kind l <> LinkKindXDP /\ lk_kind l <> LinkKindTC /\ extractDispatcherKey (Some det) = Ok None /\
     forall p, lk_pin_path l = Some p -> apart base p) \/
  (exists k row, (lk_kind l = LinkKindXDP \/ lk_kind l = LinkKindTC) /\ extractDispatcherKey (Some det) = Ok (Some k) /\
     member_at d k id /\ db_dispatchers d !! k = Some row /\ key_wf k).
Proof.
  intros [Hok Hpl] Hl Ht Hd. pose proof (pl_keys _ _ Hpl) as Hkeys.
  destruct (decide (lk_kind l = LinkKindXDP)) as [Ex|Ex].
  { right. rewrite Ex in Ht. injection Ht as <-. cbn in Hd. destruct (db_xdp d !! id) as [r|] eqn:Er; [|done]. cbn in Hd. unfold scan_xdp in Hd.
    destruct (dispatcher_revision d _); [|done]. cbn in Hd. injection Hd as <-.
    apply (pl_xdp _ _ Hpl) in Er as Hr. destruct Hr as ((row & Hrow & _) & _). exists (xdp_key r), row.
    split; [by left|]. split; [done|]. split; [by apply xdp_member_at|]. split; [done|]. by apply (Hkeys _ _ Hrow). }
  destruct (decide (lk_kind l = LinkKindTC)) as [Et|Et].
  { right. rewrite Et in Ht. injection Ht as <-. cbn in Hd. destruct (db_tc d !! id) as [r|] eqn:Er; [|done]. cbn in Hd. unfold scan_tc in Hd.
    destruct (dispatcher_revision d _); [|done]. cbn in Hd.
    apply (pl_tc _ _ Hpl) in Er as Hr. destruct Hr as ((row & Hrow & _) & _ & Hv & _). exists (tc_row_key r), row.
    split; [by right|]. split; [|split; [by apply tc_member_at|split; [done|by apply (Hkeys _ _ Hrow)]]].
    unfold TCDirection_Valid in Hv. apply orb_true_iff in Hv. unfold tc_row_key, tc_type.
    destruct Hv as [E%String.eqb_eq|E%String.eqb_eq]; rewrite E in *; cbn in Hd; injection Hd as <-; done. }
  left. pose proof (kind_nonmember _ _ _ _ Hpl Hl Ex Et) as Hnm. split; [done|]. split; [done|]. split; [done|].
  split; [|intros p Hp; destruct Hnm; by eapply (pl_plain _ _ Hpl)].
  assert (Hst : standalone det).
  { pose proof (pl_details _ _ Hpl) as Hdet. unfold newLinkDetails in Ht. rewrite !(proj2 (String.eqb_neq _ _)) in Ht by done.
    destruct t; cbn in Hd; repeat (case_match; try done);
      try (destruct (db_details d !! _) as [x|] eqn:E; [|done]; cbn in Hd; try injection Hd as <-; by apply Hdet in E as [? _]).
    all: unfold scan_tcx in Hd; destruct (ParseTCDirection _); [|done]; cbn in Hd; by injection Hd as <-. }
  by destruct det.
Qed.
End Snapshots.

(** ** Detach *)

Section Detach.
Context {K : Type} `{!KernelOps K} {NC : NetConsts} `{!KernelLaws K}.
Context (base : path) (Hbase : forallb plain base = true).
Abbreviation W := (world K store).
Implicit Types (w : W).
#[local] Hint Extern 0 (Executor _ _ _) => exact (manager_executor base) : typeclass_instances.

(** The plan has no undo and no bindings: its nodes in order. *)
Definition detachSteps (record : LinkRecord) (dispKey : option Dispatcher.Key) : M W unit :=
  (match lr_PinPath record with Some p => onK (DetachLink p) | None => ret tt end);;;
  (match dispKey with
   | Some k => rebuildDispatcherForDetach base k (lr_ID record)
   | None => onS (Store.DeleteLink (lr_ID record))
   end).

Definition detachDirect (linkID : Z) : M W unit :=
  let* record := getLink linkID in
  let* dispKey := lift (detachKey record) in
  detachSteps record dispKey.

Lemma interpret_do label (a : Action) (m : M W unit) rest b us w :
  executor_ExecuteResult base a = no_value m ->
  interpret (DoAction base label a :: rest) (mkI b us) w =
    match m w with
    | (Ok _, w1) => interpret rest (mkI b us) w1
    | (Err e, w1) => (Ret (Err e), us, w1)
    end.
Proof.
  intros H. cbn. unfold call. rewrite (Execute_no_value base a m) by done. by destruct (m w) as [[]].
Qed.

Lemma Detach_run linkID w : Manager.Detach base linkID w = call (detachDirect linkID) w.
Proof.
  unfold Manager.Detach, detachDirect, gbind, call, bind, lift.
  destruct (getLink linkID w) as [[record|e] w1]; [|done]. destruct (detachKey record) as [key|e]; [|done].
  unfold run_plan, detachPlan, detachSteps.
  match goal with |- context [Build ?x] => assert (Build x = Some x) as -> by (by destruct (lr_PinPath record), key) end.
  unfold Run, bind.
  assert (Htail : forall w2 us, interpret (match key with
       | Some k => [DoAction base "dispatcher-rebuild" (ARebuildDispatcherForDetach k (lr_ID record))]
       | None => [DoAction base "delete-link" (ADeleteLink (lr_ID record))] end) (mkI ∅ us) w2 =
     match (match key with Some k => rebuildDispatcherForDetach base k (lr_ID record) | None => onS (Store.DeleteLink (lr_ID record)) end) w2 with
     | (Ok _, w3) => (Ret (Ok ∅), us, w3) | (Err e, w3) => (Ret (Err e), us, w3) end).
  { intros w2 us. destruct key as [k|]; by erewrite interpret_do. }
  destruct (lr_PinPath record) as [p|]; cbn [app].
  - erewrite interpret_do by reflexivity. destruct (onK (DetachLink p) w1) as [[u|e] w2]; [|done]. rewrite Htail.
    destruct key as [k|]; [destruct (rebuildDispatcherForDetach _ _ _ w2) as [[[]|e] w3]|destruct (onS _ w2) as [[[]|e] w3]]; done.
  - rewrite Htail. unfold ret. destruct key as [k|]; [destruct (rebuildDispatcherForDetach _ _ _ w1) as [[[]|e] w3]|destruct (onS _ w1) as [[[]|e] w3]]; done.
Qed.

Lemma GetLink_undaunted id : undaunted (Store.GetLink id).
Proof.
  unfold Store.GetLink, query. apply undaunted_bind; [apply undaunted_stmt|]. intros row. apply undaunted_bind; [apply undaunted_pure|].
  intros rec. apply undaunted_bind; [|intros; apply undaunted_ret]. unfold getLinkDetails. destruct (newLinkDetails _); [|apply (undaunted_pure (Err _))].
  apply undaunted_bind; [apply undaunted_stmt|]. intros [x|]; [apply undaunted_pure|apply (undaunted_pure (Err _))].
Qed.

(** Methods that only query. *)
Lemma onS_same {A} (m : M store A) w r w' :
  st_inTx (w_store w) = false -> (forall d0, keeps (eq d0) m) -> undaunted m -> onS (K:=K) m w = (r, w') -> same_state w w'.
Proof.
  intros Htx Hm Hf. unfold onS. destruct (m (w_store w)) as [r1 s1] eqn:E. intros [= _ <-].
  destruct (Hm _ _ _ _ (conj Htx eq_refl) E) as [Htx' Hd]. repeat split; cbn; [done|congruence|]. intros H0. by eapply Hf.
Qed.

Lemma getLink_same id w r w' : st_inTx (w_store w) = false -> getLink (K:=K) id w = (r, w') -> same_state w w'.
Proof.
  intros Htx. unfold getLink. destruct (onS _ w) as [r1 w1] eqn:E. apply onS_same in E; [destruct r1; by intros [= _ <-]|done| |apply GetLink_undaunted].
  intros d0. unfold Store.GetLink, getLinkDetails. keep.
Qed.

(** A link record as GetLink reads it off the tables. *)
Lemma getLink_kernel id w r w' : getLink (K:=K) id w = (r, w') -> w_kernel w' = w_kernel w.
Proof. unfold getLink, onS. destruct (Store.GetLink id (w_store w)) as [[x|e] s1]; by intros [= _ <-]. Qed.

Lemma getLink_ok id w rec w' :
  getLink id w = (Ok rec, w') ->
  same_state w w' /\ exists l t det, links_of w !! id = Some l /\ lr_ID rec = id /\ lr_PinPath rec = lk_pin_path l /\
    lr_Kind rec = lk_kind l /\ newLinkDetails (lk_kind l) = Some t /\ lr_Details rec = Some det /\
    read_details t id (st_db (w_store w)) = Some (Ok det).
Proof.
  unfold getLink, onS. destruct (Store.GetLink id (w_store w)) as [[r|e] s1] eqn:E; [|done]. intros [= <- <-].
  unfold Store.GetLink in E. step_ok E row s2 E1. apply query_ok in E1 as Hq. destruct Hq as (-> & Hd & Ht).
  step_ok E rec0 s3 E2. apply lift_ok in E2 as [E2 ->]. unfold scanLinkRecord in E2.
  destruct (db_links (st_db (w_store w)) !! id) as [l|] eqn:El; [|done].
  destruct (ParseLinkKind (lk_kind l)) as [kind|] eqn:Ek; [|done]. apply ParseLinkKind_id in Ek as [-> _]. cbn in E2. injection E2 as <-.
  step_ok E det s4 E3. cbn [lr_Kind lr_ID] in E3. unfold ret in E. injection E as <- <-. unfold getLinkDetails in E3.
  destruct (newLinkDetails (lk_kind l)) as [t|] eqn:Et; [|done]. step_ok E3 row s5 E4. apply query_ok in E4 as Hq. destruct Hq as (-> & Hd4 & Ht4).
  rewrite Hd in E3. destruct (read_details t id (st_db (w_store w))) as [rd|] eqn:Erd; [|done]. apply lift_ok in E3 as [-> <-].
  assert (Hf : st_faults (w_store w) = [] -> st_faults s4 = []).
  { intros Hf. unfold query in *. eapply undaunted_stmt in E4; [done|]. by eapply undaunted_stmt in E1. }
  split; [repeat split; cbn; [congruence|congruence|done]|]. exists l, t, det. unfold links_of. by repeat (split; [done|]).
Qed.

(** The link of a member is pinned at an extension path of its dispatcher. *)
Lemma member_pinned w k id l row :
  coherent base w -> key_wf k -> member_at (st_db (w_store w)) k id -> links_of w !! id = Some l ->
  db_dispatchers (st_db (w_store w)) !! k = Some row ->
  exists snap rev pos, sv_snaps (sv w) !! k = Some snap /\ id ∈ (dm_LinkID <$> sn_Members snap) /\ 0 <= rev /\
    lk_pin_path l = Some (ExtensionLinkPath base (KType k) (KNsid k) (KIfindex k) rev pos).
Proof.
  intros [Hc Hpl] [Hz _] Hat Hl Hrow. destruct (snapshot_exists base _ _ _ Hpl Hrow Hz) as (ms & Hs & _).
  pose proof Hc as [[_ Hok] _].
  destruct (member_in_snapshot _ _ _ _ _ Hok Hat Hl Hs) as (m & Hm & Hid & Hpin & _).
  destruct (member_pin_path base _ _ _ _ Hc Hs Hm Hz) as (Hr0 & pos & Hpath). eexists _, _, pos. split; [exact Hs|].
  split; [apply list_elem_of_fmap; by exists m|]. split; [exact Hr0|]. rewrite Hpath in Hpin. destruct (lk_pin_path l); [cbn in Hpin; by subst|].
  cbn in Hpin. by destruct base.
Qed.

(** What taking the extension at [p] off and rebuilding without [id] leaves of
    the snapshot at [k]: it is gone only if no other member remains or its
    network namespace no longer exists on the kernel [k1] the extension was
    taken off from. *)
Definition detached_from (id : Z) (k : Dispatcher.Key) (p : path) w w' : Prop :=
  exists snap k1, sv_snaps (sv w) !! k = Some snap /\ DetachLink p (w_kernel w) = (Ok tt, k1) /\
    ((sv_snaps (sv w') = delete k (sv_snaps (sv w)) /\ kernel_detached base (kv w') snap /\
       (remaining id snap = [] \/ namespace_gone (rt_NetnsPath (sn_Runtime snap)) k1)) \/
     (remaining id snap <> [] /\ ~ namespace_gone (rt_NetnsPath (sn_Runtime snap)) k1 /\ exists rt ms ms',
        sv_snaps (sv w') = <[k := mkDispatcherSnapshot k (uint32 (sn_Revision snap + 1)) rt ms]> (sv_snaps (sv w)) /\
        ms ≡ₚ ms' /\ Forall2 survives (remaining id snap) ms')).

Lemma detached_no_member id k p w w' k' s m :
  db_ok (st_db (w_store w)) -> detached_from id k p w w' -> member_at (st_db (w_store w)) k id ->
  sv_snaps (sv w') !! k' = Some s -> m ∈ sn_Members s -> dm_LinkID m <> id.
Proof.
  intros Hok (snap & k1 & Hsn & _ & Hcase) Hat Hs Hm Hid.
  assert (Hother : k' <> k -> sv_snaps (sv w) !! k' = Some s -> False).
  { intros Hne Hs'. apply Hne. eapply member_at_unique; [exact Hok| |exact Hat]. rewrite <- Hid. by eapply snapshot_member_at. }
  destruct Hcase as [(Heq & _)|(_ & _ & rt & ms & ms' & Heq & Hp & HF)]; rewrite Heq in Hs.
  - apply lookup_delete_Some in Hs as [Hne Hs]. by apply Hother.
  - apply lookup_insert_Some in Hs as [[_ <-]|[Hne Hs]]; [|by apply Hother]. cbn [sn_Members] in Hm. rewrite Hp in Hm.
    apply list_elem_of_lookup_1 in Hm as [i Hi]. eapply Forall2_lookup_r in HF as (m0 & Hm0 & (Hids & _)); [|exact Hi].
    apply list_elem_of_lookup_2, list_elem_of_filter in Hm0 as [Hm0 _]. congruence.
Qed.

(** Off its slot, and out of the dispatcher: whichever revision the pin path
    is of, and whether or not the link still is a member. *)
Lemma detach_path_ok id k rev pos w w1 w' :
  coherent base w -> key_wf k -> 0 <= rev ->
  onK (DetachLink (ExtensionLinkPath base (KType k) (KNsid k) (KIfindex k) rev pos)) w = (Ok tt, w1) ->
  rebuildDispatcherForDetach base k id w1 = (Ok tt, w') ->
  coherent base w' /\
  detached_from id k (ExtensionLinkPath base (KType k) (KNsid k) (KIfindex k) rev pos) w w'.
Proof.
  intros [Hc Hpl] Hk Hr H1 H2. pose proof H1 as Hf. apply onK_frame in Hf as (Hst & _ & Hdl).
  eapply unpin_path_detachable in H1; [|done..].
  assert (Hst' : holds (sound_db base) (w_store w')).
  { eapply (rebuildForDetach_stays base _ k id Hk); [|exact H2]. rewrite Hst. by destruct Hc as [[Htx Hok] _]. }
  apply rebuildForDetach_ok in H2 as [Hc' (snap & Hsn & Hcase)]; [|exact Hbase|done].
  assert (Hsv : sv w1 = sv w) by (unfold sv; by rewrite Hst). rewrite Hsv in *. split; [split; [done|apply Hst']|].
  exists snap, (w_kernel w1). split; [done|]. split; [done|].
  destruct Hcase as [(E & ? & ?)|(? & ? & rt & ms & ms' & E & ? & ?)]; rewrite E; [by left|right].
  split; [done|]. split; [done|]. by exists rt, ms, ms'.
Qed.

(** The detach of a member. *)
Lemma detach_member_ok id k rev pos w w1 w' :
  coherent base w -> key_wf k -> 0 <= rev -> member_at (st_db (w_store w)) k id -> kinded (eq id) (st_db (w_store w)) ->
  onK (DetachLink (ExtensionLinkPath base (KType k) (KNsid k) (KIfindex k) rev pos)) w = (Ok tt, w1) ->
  rebuildDispatcherForDetach base k id w1 = (Ok tt, w') ->
  coherent base w' /\ detached_from id k (ExtensionLinkPath base (KType k) (KNsid k) (KIfindex k) rev pos) w w' /\
  links_of w' !! id = None.
Proof.
  intros Hc Hk Hr Hat Hkind H1 H2. pose proof H1 as (Hst & _ & _)%onK_frame.
  assert (Hkind' : holds (kinded (eq id)) (w_store w')).
  { eapply (rebuildForDetach_stays base _ k id Hk); [|exact H2]. rewrite Hst. by destruct Hc as [[[Htx Hok] _] _]. }
  destruct Hkind' as [_ Hkind']. eapply (detach_path_ok id) in H2 as [Hc' Hd]; [|done|done|done|exact H1].
  split; [done|]. split; [done|]. destruct (links_of w' !! id) as [l|] eqn:El; [|done]. exfalso.
  pose proof (coherent_sound base w' Hc') as (_ & Hok' & Hpl').
  destruct (nonmember_or_snapshot base _ _ _ (conj Hok' Hpl') El) as [[Hnx Hnt]|(k' & s & m & Hs & Hm & Hid & _)].
  - pose proof (pl_kinds _ _ Hpl' _ _ El) as [Hx Ht]. destruct (Hkind' id l eq_refl El) as [E|E];
      [destruct (Hx E) as [? ?]|destruct (Ht E) as [? ?]]; congruence.
  - pose proof (coherent_sound base w Hc) as (_ & Hok & _). by eapply (detached_no_member id k _ w w' k' s m).
Qed.

Lemma DeleteLink_run id s r s' :
  Store.DeleteLink id s = (r, s') ->
  match r with
  | Ok _ => db_links (st_db s') = delete id (db_links (st_db s))
  | Err _ => st_db s' = st_db s \/ db_links (st_db s) !! id = None
  end.
Proof.
  intros H. unfold Store.DeleteLink in H. unfold bind at 1 in H.
  destruct (wrapping _ _ s) as [[row|e] s1] eqn:E1;
    [|injection H as <- <-; apply wrapping_err in E1 as (? & _ & E1); apply stmt_err in E1 as [-> _]; by left].
  apply wrapping_ok, query_ok in E1 as (-> & Hd & _).
  destruct (db_links (st_db s) !! id) as [l|] eqn:El; [|injection H as <- <-; by right]. case_match; [injection H as <- <-; by left|].
  unfold bind in H. destruct (wrapping _ _ s1) as [[n|e] s2] eqn:E2.
  - apply wrapping_ok, stmt_ok in E2 as (d & E2 & Hd2 & _). rewrite Hd, decide_True in E2 by (by eexists). injection E2 as <- <-.
    cbn in H. injection H as <- <-. rewrite Hd2. apply map_eq. intros i. rewrite delete_links_lookup.
    destruct (decide (i = id)) as [->|Hne]; [by rewrite decide_True, lookup_delete_eq by set_solver|].
    by rewrite decide_False, lookup_delete_ne by set_solver.
  - injection H as <- <-. apply wrapping_err in E2 as (? & _ & E2). apply stmt_err in E2 as [-> _]. by left.
Qed.

(** A link without a dispatcher: its pin and its row. *)
Definition detached_alone (id : Z) (l : linkRow) w w' : Prop :=
  undisturbed base w w' /\ links_of w' = delete id (links_of w) /\
  forall p, lk_pin_path l = Some p -> kv w' = unpin p (kv w).

Lemma detach_alone_run id l w r w' :
  sound base w -> links_of w !! id = Some l -> nonmember id (st_db (w_store w)) ->
  ((match lk_pin_path l with Some p => onK (DetachLink p) | None => ret tt end);;; onS (Store.DeleteLink id)) w = (r, w') ->
  undisturbed base w w' /\ match r with Ok _ => detached_alone id l w w' | Err _ => st_db (w_store w') = st_db (w_store w) end.
Proof.
  intros Hs Hl [Hnx Hnt] H.
  assert (Hap : forall p, lk_pin_path l = Some p -> apart base p) by (destruct Hs as (_ & _ & Hpl); intros p Hp; by eapply (pl_plain _ _ Hpl)).
  assert (Hu : undisturbed base w w').
  { assert (Hq : moves (sound base) (undisturbed base)
       ((match lk_pin_path l with Some p => onK (DetachLink p) | None => ret tt end);;; onS (Store.DeleteLink id))).
    { apply moves_bind; [apply _| |intros []; apply quiet_onS; intros d0; apply DeleteLink_calm].
      destruct (lk_pin_path l) as [p|]; [by apply quiet_onK, DetachLink_harmless, Hap|apply moves_ret; apply _]. }
    by eapply Hq. }
  split; [done|]. unfold bind in H.
  assert (Hfirst : forall r1 w1, (match lk_pin_path l with Some p => onK (DetachLink p) | None => ret tt end) w = (r1, w1) ->
    w_store w1 = w_store w /\ forall p, lk_pin_path l = Some p -> is_ok r1 = true -> kv w1 = unpin p (kv w)).
  { intros r1 w1 E. destruct (lk_pin_path l) as [p|]; [|by injection E as _ <-]. apply onK_frame in E as (Hst & _ & Hk). split; [done|].
    intros q [= <-] Hok. destruct r1 as [[]|]; [|done]. by apply law_detach_link in Hk. }
  destruct ((match lk_pin_path l with Some p => onK (DetachLink p) | None => ret tt end) w) as [[u|e] w1] eqn:E1;
    destruct (Hfirst _ _ eq_refl) as [Hst Hk]; [|injection H as <- <-; by rewrite Hst].
  unfold onS in H. destruct (Store.DeleteLink id (w_store w1)) as [r2 s2] eqn:E2. injection H as <- <-.
  apply DeleteLink_run in E2. rewrite Hst in E2. destruct r2 as [[]|e]; cbn [w_store].
  - split; [done|]. split; [exact E2|]. intros p Hp. by apply Hk.
  - destruct E2 as [?|E2]; [done|]. unfold links_of in Hl. congruence.
Qed.

Lemma same_coherent w w2 : same_state w w2 -> coherent base w -> coherent base w2.
Proof.
  intros Hs Hc. eapply undisturbed_coherent; [exact Hc|]. eapply same_undisturbed; [exact Hs|].
  eapply undisturbed_refl, same_sound; [exact Hs|by apply coherent_sound].
Qed.

Lemma same_sv w w2 : same_state w w2 -> sv w2 = sv w.
Proof. intros (Hd & _). unfold sv. cbn. by apply view_of_db. Qed.

Lemma kinded_row id l d :
  db_links d !! id = Some l -> lk_kind l = LinkKindXDP \/ lk_kind l = LinkKindTC -> kinded (eq id) d.
Proof. intros Hl Hk i l' <- Hl'. rewrite Hl in Hl'. by injection Hl' as <-. Qed.

(** Both steps on a record that is in the tables. *)
Lemma detachSteps_member rec k rev pos w r w' :
  coherent base w -> key_wf k -> 0 <= rev -> member_at (st_db (w_store w)) k (lr_ID rec) -> kinded (eq (lr_ID rec)) (st_db (w_store w)) ->
  lr_PinPath rec = Some (ExtensionLinkPath base (KType k) (KNsid k) (KIfindex k) rev pos) ->
  detachSteps rec (Some k) w = (r, w') ->
  match r with
  | Ok _ => coherent base w' /\ links_of w' !! lr_ID rec = None /\
      exists p, lr_PinPath rec = Some p /\ detached_from (lr_ID rec) k p w w'
  | Err _ => sv w' = sv w
  end.
Proof.
  intros Hc Hk Hr Hat Hkind Hpin H. unfold detachSteps in H. rewrite Hpin in H. unfold bind in H.
  destruct (onK _ w) as [[[]|e] w1] eqn:E1; [|injection H as <- <-; apply onK_frame in E1 as (Hst & _); unfold sv; by rewrite Hst].
  destruct r as [[]|e].
  { destruct (detach_member_ok _ _ _ _ _ _ _ Hc Hk Hr Hat Hkind E1 H) as (? & ? & ?). split_and!; [done..|]. by eexists. }
  pose proof E1 as (Hst & _)%onK_frame.
  eapply unpin_path_detachable in E1; [|done|done|apply Hc]. assert (Hsv : sv w1 = sv w) by (unfold sv; by rewrite Hst).
  destruct E1 as (Hoth & _ & Hrun). rewrite <- Hsv.
  apply (rebuildForDetach_failed base Hbase) in H as [H _]; [exact H|]. by split; [|split].
Qed.

Lemma Detach_cases id w o w' :
  coherent base w -> Manager.Detach base id w = (o, w') ->
  exists r, o = Ret r /\
    match r with
    | Ok _ => coherent base w' /\ links_of w' !! id = None /\
        exists l, links_of w !! id = Some l /\
          (detached_alone id l w w' \/
           exists k p, member_at (st_db (w_store w)) k id /\ lk_pin_path l = Some p /\ detached_from id k p w w')
    | Err _ => sv w' = sv w /\ (nonmember id (st_db (w_store w)) -> coherent base w')
    end.
Proof.
  intros Hc H. rewrite Detach_run in H. unfold call in H. destruct (detachDirect id w) as [r w1] eqn:E. injection H as <- <-.
  exists r. split; [done|]. unfold detachDirect, bind in E. destruct (getLink id w) as [[rec|e] w2] eqn:E2.
  2:{ injection E as <- <-. assert (Hs : same_state w w2) by (eapply getLink_same; [apply Hc|done]). split; [by apply same_sv|]. intros _. by eapply same_coherent. }
  assert (HK : w_kernel w2 = w_kernel w) by (by eapply getLink_kernel).
  apply getLink_ok in E2 as (Hs & l & t & det & Hl & Hid & Hpin & Hkd & Ht & Hdet & Hrd).
  pose proof (same_coherent _ _ Hs Hc) as Hc2. pose proof Hs as (Hd & Htx & Hkv & _).
  unfold lift, detachKey in E. rewrite Hkd, Hdet in E.
  destruct (record_cases base _ _ _ _ _ (proj2 (coherent_sound base w Hc)) Hl Ht Hrd) as
    [(Hnm & Hx & Htc & _ & _)|(k & row & Hkind & Hkey & Hat & Hrow & Hwf)].
  - apply String.eqb_neq in Hx, Htc. rewrite Hx, Htc in E. cbn [orb] in E. unfold detachSteps in E. rewrite Hid, Hpin in E.
    apply detach_alone_run with (l := l) in E as [Hu Hr]; [|by apply coherent_sound|unfold links_of; by rewrite Hd|by rewrite Hd].
    assert (Hc1 : coherent base w1) by (by eapply undisturbed_coherent).
    destruct r as [[]|e]; [|split; [unfold sv; cbn; apply view_of_db; congruence|done]].
    destruct Hr as (_ & Hrows & Hpins). unfold links_of in Hrows. rewrite Hd in Hrows. fold (links_of w) (links_of w1) in Hrows.
    split; [done|]. split; [rewrite Hrows; apply lookup_delete_eq|]. exists l. split; [done|]. left.
    split; [by eapply same_undisturbed|]. split; [done|]. by rewrite <- Hkv.
  - assert ((String.eqb (lk_kind l) LinkKindXDP || String.eqb (lk_kind l) LinkKindTC) = true) as Hb by (by destruct Hkind as [-> | ->]).
    rewrite Hb, Hkey in E. cbn [wrap_err] in E.
    destruct (member_pinned w k id l row Hc Hwf Hat Hl Hrow) as (snap & rev & pos & Hsn & Hin & Hr0 & Hpp).
    apply (detachSteps_member rec k rev pos) in E; [|done|done|done|by rewrite Hid, Hd|rewrite Hid, Hd; by eapply kinded_row|by rewrite Hpin].
    rewrite Hid in E. destruct r as [[]|e]; [|split; [by rewrite E; apply same_sv|]].
    + destruct E as (Hc' & Hgone & p & Hp & Hdf). split; [done|]. split; [done|]. exists l. split; [done|]. right. exists k, p.
      split; [done|]. split; [congruence|]. unfold detached_from in *. by rewrite <- (same_sv _ _ Hs), <- HK.
    + intros [Hnx Hnt]. destruct Hat as (r & Hr & _). destruct (KType k); cbn in Hr; congruence.
Qed.

(** C5: Detach takes one link away. It returns (it never panics).
    When it succeeds the row of the link is gone and every dispatcher left is
    served; a link without a dispatcher loses its pin and its row, and nothing
    else changes in the kernel or among the link rows; the dispatcher of a
    member is replaced under the next revision by one with exactly the other
    members, or removed when there are none. The one case in which more than the
    link goes is a dispatcher whose network namespace no longer exists (once the
    member's extension is off, [os.Stat] reports so): it is removed with all its
    members. When it fails, the records of
    the dispatchers are what they were, and a link without a dispatcher leaves
    the world coherent. *)
Theorem Detach_contract id w o w' :
  coherent base w -> Manager.Detach base id w = (o, w') ->
  exists r, o = Ret r /\
    match r with
    | Ok _ => coherent base w' /\ links_of w' !! id = None /\
        exists l, links_of w !! id = Some l /\
          (detached_alone id l w w' \/
           exists k p, member_at (st_db (w_store w)) k id /\ lk_pin_path l = Some p /\ detached_from id k p w w')
    | Err _ => sv w' = sv w /\ (nonmember id (st_db (w_store w)) -> coherent base w')
    end.
Proof. by apply Detach_cases. Qed.
End Detach.
