(* ===== verification/Removal.v ===== *)
(** * Unload

    Unload lists the links of a program, detaches every one of them (rebuilding
    the dispatchers they are members of), unpins the program and deletes its
    records. The records of the list are read before the first detach and are
    stale by the time the later ones are used: the revision in a member's pin
    path may be of a dispatcher program that has been replaced since. *)

From Stdlib Require Import ZArith Lia String.
From stdpp Require Import base tactics sets list gmap strings numbers sorting.
From S2P Require Import Prelude Actions Dispatcher Domain Slots Layout Operation Planning Platform Executor Rebuild.
From S2P Require Import Members XDPRebuild TCRebuild TCAttach Detach Lifecycle Bytecode.
From S2P Require Import StoreDb Store StoreTx StoreSpec StoreInv Placed Coherent Manager Attach SimpleAttach Requests.

Local Open Scope string_scope.
Local Open Scope list_scope.
Local Open Scope Z_scope.

(** ** The records of a listing *)

Definition pick (d : db) (id : Z) (acc : option LinkDetails) (t : DetailsType) : option LinkDetails :=
  match read_details t id d with Some (Ok det) => Some det | _ => acc end.

Definition details_of (d : db) (id : Z) (acc : option LinkDetails) (ts : list DetailsType) : option LinkDetails :=
  foldl (pick d id) acc ts.

Lemma batch_ok t links s links' s' :
  batchPopulateDetails t links s = (Ok links', s') ->
  st_db s' = st_db s /\ links' = (fun l => with_details (pick (st_db s) (lr_ID l) (lr_Details l) t) l) <$> links.
Proof.
  intros H. unfold batchPopulateDetails in H. step_ok H rows s1 E1. apply wrapping_ok, query_ok in E1 as (-> & Hd & _).
  apply lift_ok in H as [H ->]. split; [done|]. revert links' H. generalize (st_db s). clear. intros d.
  induction links as [|l links IH]; intros links' H; cbn in H; [by injection H as <-|].
  cbn [fmap list_fmap]. destruct (read_details t (lr_ID l) d) as [[det|e]|] eqn:E; cbn in H; try done.
  - destruct (rmap _ _) as [ls|] eqn:El; [|done]. cbn in H. injection H as <-. apply (f_equal2 cons); [|by apply IH]. unfold pick. by rewrite E.
  - destruct (rmap _ _) as [ls|] eqn:El; [|done]. cbn in H. injection H as <-. apply (f_equal2 cons); [|by apply IH]. unfold pick. rewrite E. by destruct l.
Qed.

Lemma populate_ok ts : forall links s links' s',
  populate ts links s = (Ok links', s') ->
  st_db s' = st_db s /\ links' = (fun l => with_details (details_of (st_db s) (lr_ID l) (lr_Details l) ts) l) <$> links.
Proof.
  induction ts as [|t ts IH]; intros links s links' s' H; cbn [populate] in H.
  - injection H as <- <-. split; [done|]. symmetry. apply list_eq. intros i. rewrite list_lookup_fmap. destruct (links !! i) as [[]|]; done.
  - step_ok H links1 s1 E1. apply batch_ok in E1 as [Hd ->]. apply IH in H as [Hd' ->]. split; [congruence|].
    rewrite Hd, <- list_fmap_compose. done.
Qed.

(** The record of a row. *)
Definition record_of (d : db) (id : Z) (l : linkRow) : LinkRecord :=
  mkLinkRecord id (lk_kernel_prog_id l) (lk_kernel_link_id l) (lk_kind l) (lk_pin_path l) (details_of d id None detail_batches)
    (lk_created_at l) (unmarshalLinkMetadata (lk_metadata_json l)).

Lemma list_links_ok P s recs s' :
  list_links P s = (Ok recs, s') ->
  st_db s' = st_db s /\
  forall rec, rec ∈ recs <-> exists id l, db_links (st_db s) !! id = Some l /\ P l = true /\ rec = record_of (st_db s) id l.
Proof.
  intros H. unfold list_links in H. step_ok H rows s1 E1. apply query_ok in E1 as (-> & Hd & _).
  step_ok H records s2 E2. apply lift_ok in E2 as [E2 ->].
  assert (Hpop : st_db s' = st_db s1 /\ recs = (fun l => with_details (details_of (st_db s1) (lr_ID l) (lr_Details l) detail_batches) l) <$> records).
  { unfold populateLinkDetails in H. destruct records; [by injection H as <- <-|by apply populate_ok in H]. }
  destruct Hpop as [Hd' ->]. rewrite Hd in *. split; [done|]. intros rec. rewrite list_elem_of_fmap.
  assert (Hrec : forall x y, scanLinkRecord (fst x) (Some (snd x)) = Ok y ->
    with_details (details_of (st_db s) (lr_ID y) (lr_Details y) detail_batches) y = record_of (st_db s) x.1 x.2).
  { intros [id l] y Hy. cbn in Hy. destruct (ParseLinkKind (lk_kind l)) as [k|] eqn:Ek; [|done]. apply ParseLinkKind_id in Ek as [-> _].
    cbn in Hy. by injection Hy as <-. }
  apply rmap_ok_Forall2 in E2. split.
  - intros (y & -> & Hy). apply list_elem_of_lookup_1 in Hy as [i Hi]. eapply Forall2_lookup_r in E2 as ([id l] & Hx & Hs); [|exact Hi].
    apply list_elem_of_lookup_2, elem_of_map_to_list, map_lookup_filter_Some in Hx as [Hl HP]. exists id, l. cbn in HP. by rewrite (Hrec _ _ Hs).
  - intros (id & l & Hl & HP & ->).
    assert (Hx : (id, l) ∈ map_to_list (filter (fun kv => P kv.2 = true) (db_links (st_db s)))) by (apply elem_of_map_to_list, map_lookup_filter_Some; done).
    apply list_elem_of_lookup_1 in Hx as [i Hi]. eapply Forall2_lookup_l in E2 as (y & Hy & Hs); [|exact Hi]. exists y.
    split; [symmetry; exact (Hrec _ _ Hs)|by eapply list_elem_of_lookup_2].
Qed.

Section Records.
Context (base : path).

Lemma dispatcher_revision_found d k row : db_dispatchers d !! k = Some row -> is_Some (dispatcher_revision d (dr_program_id row)).
Proof.
  intros Hrow. unfold dispatcher_revision. destruct (List.find _ _) as [x|] eqn:E; [by eexists|].
  eapply List.find_none in E; [|apply list_elem_of_In, elem_of_map_to_list, Hrow]. cbn in E. by rewrite Z.eqb_refl in E.
Qed.

Lemma read_member_none t id d :
  placed base d -> ~ nonmember id d -> t <> TXDP -> t <> TTC -> read_details t id d = None.
Proof.
  intros Hpl Hm Hx Ht. assert (Hno : forall t', db_details d !! (t', id) = None).
  { intros t'. destruct (db_details d !! (t', id)) as [det|] eqn:E; [|done]. by apply (pl_details _ _ Hpl) in E as [_ ?]. }
  destruct t; try done; cbn; by rewrite Hno.
Qed.

Lemma read_standalone t id d det :
  placed base d -> nonmember id d -> read_details t id d = Some (Ok det) -> standalone det.
Proof.
  intros Hpl [Hx Ht] H. pose proof (pl_details _ _ Hpl) as Hdet.
  destruct t; cbn in H; rewrite ?Hx, ?Ht in H; try done.
  all: destruct (db_details d !! _) as [x|] eqn:E; [|done]; cbn in H; try (injection H as <-; by apply Hdet in E as [? _]).
  destruct x; try done. unfold scan_tcx in H. destruct (ParseTCDirection _); [|done]. cbn in H. by injection H as <-.
Qed.

Lemma details_standalone d id ts : forall acc,
  placed base d -> nonmember id d -> (forall det, acc = Some det -> standalone det) ->
  forall det, details_of d id acc ts = Some det -> standalone det.
Proof.
  induction ts as [|t ts IH]; intros acc Hpl Hnm Hacc; [done|]. apply IH; [done..|]. unfold pick.
  destruct (read_details t id d) as [[x|e]|] eqn:E; [|done..]. intros det [= <-]. by eapply read_standalone.
Qed.

(** Like [record_cases], for the records of a listing. *)
Lemma listed_cases d id l :
  sound_db base d -> db_links d !! id = Some l ->
  (nonmember id d /\ extractDispatcherKey (lr_Details (record_of d id l)) = Ok None) \/
  (exists k row, extractDispatcherKey (lr_Details (record_of d id l)) = Ok (Some k) /\
     member_at d k id /\ db_dispatchers d !! k = Some row /\ key_wf k).
Proof.
  intros [Hok Hpl] Hl. pose proof (pl_keys _ _ Hpl) as Hkeys. cbn [record_of lr_Details].
  destruct (db_xdp d !! id) as [r|] eqn:Ex; [right|destruct (db_tc d !! id) as [r|] eqn:Et; [right|left]].
  - assert (Hm : ~ nonmember id d) by (intros []; congruence).
    assert (Et : db_tc d !! id = None).
    { apply not_elem_of_dom. apply elem_of_dom_2 in Ex. pose proof (ok_disjoint _ Hok). set_solver. }
    apply (pl_xdp _ _ Hpl) in Ex as Hr. destruct Hr as ((row & Hrow & Hpid) & _). exists (xdp_key r), row.
    split; [|split; [by apply xdp_member_at|split; [done|by apply (Hkeys _ _ Hrow)]]].
    destruct (dispatcher_revision_found _ _ _ Hrow) as [rev Hrev]. rewrite Hpid in Hrev.
    unfold details_of, detail_batches, pick. cbn [foldl]. rewrite !read_member_none by done. cbn [read_details]. rewrite Ex, Et. cbn.
    unfold scan_xdp. by rewrite Hrev.
  - assert (Hm : ~ nonmember id d) by (intros []; congruence).
    apply (pl_tc _ _ Hpl) in Et as Hr. destruct Hr as ((row & Hrow & Hpid) & _ & Hv & _). exists (tc_row_key r), row.
    split; [|split; [by apply tc_member_at|split; [done|by apply (Hkeys _ _ Hrow)]]].
    destruct (dispatcher_revision_found _ _ _ Hrow) as [rev Hrev]. rewrite Hpid in Hrev.
    unfold details_of, detail_batches, pick. cbn [foldl]. rewrite !read_member_none by done. cbn [read_details]. rewrite Ex, Et. cbn.
    unfold scan_tc. rewrite Hrev. unfold TCDirection_Valid in Hv. apply orb_true_iff in Hv. unfold tc_row_key, tc_type.
    destruct Hv as [E%String.eqb_eq|E%String.eqb_eq]; rewrite E; done.
  - split; [done|]. destruct (details_of d id None detail_batches) as [det|] eqn:E; [|done].
    eapply details_standalone in E; [by destruct det|done|done|done].
Qed.
End Records.

(** ** Detaching every link of a list *)

Section DetachAll.
Context {K : Type} `{!KernelOps K} {NC : NetConsts} `{!KernelLaws K}.
Context (base : path) (Hbase : forallb plain base = true).
Abbreviation W := (world K store).
Implicit Types (w : W).
#[local] Hint Extern 0 (Executor _ _ _) => exact (manager_executor base) : typeclass_instances.

(** What makes the detach of a record sound, whatever happened to the tables
    since it was read. *)
Definition fits (rec : LinkRecord) : Prop :=
  match extractDispatcherKey (lr_Details rec) with
  | Ok None => forall p, lr_PinPath rec = Some p -> apart base p
  | Ok (Some k) => key_wf k /\ exists rev pos, 0 <= rev /\
      lr_PinPath rec = Some (ExtensionLinkPath base (KType k) (KNsid k) (KIfindex k) rev pos)
  | Err _ => False
  end.

Lemma listed_fits w id l : coherent base w -> links_of w !! id = Some l -> fits (record_of (st_db (w_store w)) id l).
Proof.
  intros Hc Hl. pose proof (coherent_sound base w Hc) as (_ & Hs). unfold fits.
  destruct (listed_cases base _ _ _ Hs Hl) as [[[Hx Ht] ->]|(k & row & -> & Hat & Hrow & Hk)]; cbn [record_of lr_PinPath].
  - intros p Hp. destruct Hs as [_ Hpl]. by eapply (pl_plain _ _ Hpl).
  - split; [done|]. destruct (member_pinned base Hbase w k id l row Hc Hk Hat Hl Hrow) as (snap & rev & pos & _ & _ & Hr & Hp). eauto.
Qed.

(** Every member was one before, of the same dispatcher and program. *)
Definition fewer w w' : Prop :=
  forall k s' m', sv_snaps (sv w') !! k = Some s' -> m' ∈ sn_Members s' ->
    exists s m, sv_snaps (sv w) !! k = Some s /\ m ∈ sn_Members s /\ dm_LinkID m = dm_LinkID m' /\ dm_ProgramID m = dm_ProgramID m'.

Definition absent (id : Z) (k : Dispatcher.Key) w : Prop :=
  forall s m, sv_snaps (sv w) !! k = Some s -> m ∈ sn_Members s -> dm_LinkID m <> id.

Lemma fewer_same w w' : sv_snaps (sv w') = sv_snaps (sv w) -> fewer w w'.
Proof. intros E k s m Hs Hm. rewrite E in Hs. by exists s, m. Qed.

Lemma fewer_trans w1 w2 w3 : fewer w1 w2 -> fewer w2 w3 -> fewer w1 w3.
Proof.
  intros H1 H2 k s3 m3 Hs3 Hm3. destruct (H2 _ _ _ Hs3 Hm3) as (s2 & m2 & Hs2 & Hm2 & E1 & E2).
  destruct (H1 _ _ _ Hs2 Hm2) as (s1 & m1 & Hs1 & Hm1 & E3 & E4). exists s1, m1. repeat (split; [done|]). split; congruence.
Qed.

Lemma fewer_absent id k w w' : fewer w w' -> absent id k w -> absent id k w'.
Proof. intros Hf Ha s m Hs Hm Hid. destruct (Hf _ _ _ Hs Hm) as (s0 & m0 & Hs0 & Hm0 & E & _). apply (Ha _ _ Hs0 Hm0). congruence. Qed.

Lemma detached_fewer id k p w w' : detached_from base id k p w w' -> fewer w w' /\ absent id k w'.
Proof.
  intros (snap & k1 & Hsn & _ & Hcase).
  assert (Hsurv : forall ms ms' m', ms ≡ₚ ms' -> Forall2 survives (remaining id snap) ms' -> m' ∈ ms ->
    exists m, m ∈ sn_Members snap /\ dm_LinkID m = dm_LinkID m' /\ dm_ProgramID m = dm_ProgramID m' /\ dm_LinkID m <> id).
  { intros ms ms' m' Hp HF Hm. rewrite Hp in Hm. apply list_elem_of_lookup_1 in Hm as [i Hi].
    eapply Forall2_lookup_r in HF as (m & Hm & (E1 & E2 & _)); [|exact Hi]. apply list_elem_of_lookup_2, list_elem_of_filter in Hm as [Hne Hm].
    by exists m. }
  destruct Hcase as [(E & _)|(_ & _ & rt & ms & ms' & E & Hp & HF)].
  - split; [intros k' s m Hs Hm|intros s m Hs Hm]; rewrite E in Hs; apply lookup_delete_Some in Hs as [Hne Hs]; [|done]. by exists s, m.
  - split; [intros k' s m Hs Hm|intros s m Hs Hm]; rewrite E in Hs.
    + apply lookup_insert_Some in Hs as [[<- <-]|[Hne Hs]]; [|by exists s, m].
      destruct (Hsurv _ _ _ Hp HF Hm) as (m0 & ? & ? & ? & ?). by exists snap, m0.
    + rewrite lookup_insert_eq in Hs. injection Hs as <-. destruct (Hsurv _ _ _ Hp HF Hm) as (m0 & ? & ? & ? & ?). congruence.
Qed.

(** The programs, map sets and shared pins stay, and the database sound. *)
Definition kept_tables (d0 d : db) : Prop :=
  sound_db base d /\ tables (db_programs d0) (db_map_sets d0) (db_shared_map_pins d0) d.

Lemma kept_refl w : sound base w -> holds (kept_tables (st_db (w_store w))) (w_store w).
Proof. intros [Htx Hs]. split; [done|]. split; [done|]. by repeat split. Qed.

Lemma moves_eq {A} (P : W -> Prop) (R : W -> W -> Prop) (m n : M W A) : (forall w, n w = m w) -> moves P R m -> moves P R n.
Proof. intros E H w r w' HP Hn. rewrite E in Hn. by eapply H. Qed.

Lemma detachAll_tables d0 links : forall rebuilt, Forall fits links ->
  moves (fun w => holds (kept_tables d0) (w_store w)) (fun _ w' => holds (kept_tables d0) (w_store w')) (detachAllLinks base links rebuilt).
Proof.
  assert (SnapshotInvariant (kept_tables d0)) by (apply and_invariant; apply _).
  induction links as [|rec links IH]; intros rebuilt Hfit; cbn [detachAllLinks]; [stay|].
  apply Forall_cons in Hfit as [Hrec Hfit]. destruct (lr_PinPath rec) as [p|] eqn:Ep; [|by apply IH].
  apply moves_bind; [apply _|apply moves_wrapping, stays_onK|intros []].
  unfold fits in Hrec. destruct (extractDispatcherKey (lr_Details rec)) as [[k|]|] eqn:Ek; cbn [wrap_err]; [| |done].
  - destruct Hrec as [Hk _]. apply (moves_eq _ _ (wrapping "rebuild dispatcher after detaching link %d: %w"
      (rebuildDispatcherForDetach base k (lr_ID rec));;; detachAllLinks base links ({[k]} ∪ rebuilt))).
    { intros w. unfold bind, lift, wrapping. by rewrite (Execute_no_value base _ (rebuildDispatcherForDetach base k (lr_ID rec))). }
    apply moves_bind; [apply _|by apply moves_wrapping, rebuildForDetach_stays|]. intros []. by apply IH.
  - apply (moves_eq _ _ (detachAllLinks base links rebuilt)); [done|]. by apply IH.
Qed.

(** Stale records and all: after the loop the world is coherent, every
    dispatcher of the list was rebuilt and has none of the links left. *)
Lemma detachAll_ok links : forall rebuilt w rebuilt' w',
  coherent base w -> Forall fits links -> detachAllLinks base links rebuilt w = (Ok rebuilt', w') ->
  coherent base w' /\ fewer w w' /\ rebuilt ⊆ rebuilt' /\
  forall rec k, rec ∈ links -> extractDispatcherKey (lr_Details rec) = Ok (Some k) -> k ∈ rebuilt' /\ absent (lr_ID rec) k w'.
Proof.
  induction links as [|rec links IH]; intros rebuilt w rebuilt' w' Hc Hfit H; cbn [detachAllLinks] in H.
  { injection H as <- <-. split; [done|]. split; [by apply fewer_same|]. split; [done|]. intros rec k Hr. by apply not_elem_of_nil in Hr. }
  apply Forall_cons in Hfit as [Hrec Hfit]. unfold fits in Hrec.
  destruct (extractDispatcherKey (lr_Details rec)) as [[k|]|] eqn:Ek; [| |done].
  - destruct Hrec as (Hk & rev & pos & Hr & Hp). rewrite Hp in H. unfold bind at 1 in H.
    destruct (wrapping _ _ w) as [[[]|e] w1] eqn:E1; [|done]. apply wrapping_ok in E1. cbn [wrap_err] in H. unfold bind at 1, lift in H.
    unfold bind, wrapping at 1 in H. rewrite (Execute_no_value base _ (rebuildDispatcherForDetach base k (lr_ID rec))) in H by done.
    destruct (rebuildDispatcherForDetach base k (lr_ID rec) w1) as [[[]|e] w2] eqn:E2; cbn [wrap_err] in H; [|done].
    destruct (detach_path_ok base Hbase _ _ _ _ _ _ _ Hc Hk Hr E1 E2) as [Hc2 Hd]. apply detached_fewer in Hd as [Hf Ha].
    apply IH in H as (Hc' & Hf' & Hsub & Hall); [|done|done]. split; [done|]. split; [by eapply fewer_trans|]. split; [set_solver|].
    intros rec' k' [->|Hin]%elem_of_cons Hk'; [|by eapply Hall]. rewrite Ek in Hk'. injection Hk' as <-.
    split; [set_solver|]. by eapply fewer_absent.
  - assert (Hstep : forall w1, coherent base w1 -> sv w1 = sv w -> detachAllLinks base links rebuilt w1 = (Ok rebuilt', w') ->
      coherent base w' /\ fewer w w' /\ rebuilt ⊆ rebuilt' /\
      forall rec' k, rec' ∈ rec :: links -> extractDispatcherKey (lr_Details rec') = Ok (Some k) -> k ∈ rebuilt' /\ absent (lr_ID rec') k w').
    { intros w1 Hc1 Hsv H1. apply IH in H1 as (Hc' & Hf' & Hsub & Hall); [|done|done]. split; [done|].
      split; [eapply fewer_trans; [apply fewer_same; by rewrite Hsv|done]|]. split; [done|].
      intros rec' k [->|Hin]%elem_of_cons Hk; [congruence|by eapply Hall]. }
    destruct (lr_PinPath rec) as [p|]; [|by eapply Hstep]. unfold bind at 1 in H.
    destruct (wrapping _ _ w) as [[[]|e] w1] eqn:E1; [|done]. apply wrapping_ok in E1. cbn [wrap_err] in H. unfold bind, lift in H.
    eapply Hstep; [| |exact H].
    + eapply quiet_coherent; [|exact Hc|exact E1]. by apply quiet_onK, DetachLink_harmless, Hrec.
    + apply onK_frame in E1 as (Hst & _). unfold sv. by rewrite Hst.
Qed.
End DetachAll.

(** ** Unload *)

Section Unload.
Context {K : Type} `{!KernelOps K} {NC : NetConsts} `{!KernelLaws K}.
Context (base : path) (Hbase : forallb plain base = true).
Abbreviation W := (world K store).
Implicit Types (w : W).
#[local] Hint Extern 0 (Executor _ _ _) => exact (manager_executor base) : typeclass_instances.

Lemma RemoveSharedMapPin_harmless s : harmless (K:=K) base (RemoveSharedMapPin base os_Remove s).
Proof.
  intros k. destruct (RemoveSharedMapPin_confined base os_Remove s k) as [[e ->]|(p & [f ->] & ->)]; [done|].
  eapply only_in_mono; [|apply law_remove]. intros q ->. by apply apart_not_disp, apart_shared.
Qed.

Lemma safeRemoveAll_harmless x target : x <> "fs" -> harmless (K:=K) base (safeRemoveAll (base ++ [x]) target).
Proof.
  intros Hx. unfold safeRemoveAll. destruct (Clean target) as [t|]; [|apply harmless_throw].
  destruct (strictly_under (base ++ [x]) t) eqn:E; [|apply harmless_throw]. apply harmless_wrapping, RemoveAll_harmless.
  apply andb_true_iff in E as [[z ->]%bool_decide_eq_true _]. rewrite <- app_assoc. by apply apart_app.
Qed.

Lemma cleanupShared_quiet id : moves (K:=K) (sound base) (undisturbed base) (cleanupSharedMapPins base id).
Proof.
  unfold cleanupSharedMapPins. apply moves_bind; [apply _| |].
  - apply quiet_onS. intros d0. apply keeps_runInTx, DeleteSharedMapPins_calm.
  - intros l. apply moves_for_each; [apply _|]. intros m. apply moves_or_log; [apply _|]. apply quiet_onK, RemoveSharedMapPin_harmless.
Qed.

Lemma gc_quiet id dir : apart base dir -> moves (K:=K) (sound base) (undisturbed base) (gcMapSetIfUnused id dir).
Proof.
  intros Hd. unfold gcMapSetIfUnused, removeProgramMapsPins, CountMapSetUsers. apply moves_bind; [apply _| |].
  - apply moves_wrapping, quiet_onS. intros d0. apply keeps_query.
  - intros n. apply moves_if; [apply moves_ret; apply _|]. apply moves_bind; [apply _|by apply moves_wrapping, quiet_onK, KUnload_harmless|].
    intros []. apply moves_wrapping, quiet_onS. intros d0. apply DeleteMapSet_calm.
Qed.

Lemma bytecodeDir_quiet id : moves (K:=K) (sound base) (undisturbed base) (removeProgramBytecodeDir base id).
Proof. apply quiet_onK. by apply safeRemoveAll_harmless. Qed.

(** The rows of programs and links. *)
Definition rows_are (t : gmap Z programRow) (ls : gmap Z linkRow) (d : db) : Prop := db_programs d = t /\ db_links d = ls.

Section Rows.
Context (t : gmap Z programRow) (ls : gmap Z linkRow).
Abbreviation stays m := (moves (K:=K) (fun w => holds (rows_are t ls) (w_store w)) (fun _ w' => holds (rows_are t ls) (w_store w')) m).

Lemma rows_onS {A} (m : M store A) : keeps (rows_are t ls) m -> stays (onS m).
Proof. intros Hm. apply stays_onS. intros s r s' H E. by eapply Hm. Qed.

Lemma cleanupShared_rows id : stays (cleanupSharedMapPins base id).
Proof.
  unfold cleanupSharedMapPins. apply moves_bind; [apply _| |stay].
  apply rows_onS, keeps_runInTx. intros s l s' Hc H. unfold DeleteSharedMapPins in H. step_ok H names s1 E1.
  apply wrapping_ok, query_ok in E1 as (_ & Hd & _). destruct names as [|n names]; [injection H as _ <-; by rewrite Hd|].
  step_ok H u s2 E2. apply wrapping_ok, stmt_ok in E2 as (d & E2 & Hd2 & _). injection E2 as _ <-.
  apply orphaned_maps_frame in H. by rewrite H, Hd2, Hd.
Qed.

Lemma gc_rows id dir : stays (gcMapSetIfUnused id dir).
Proof.
  unfold gcMapSetIfUnused, removeProgramMapsPins, CountMapSetUsers. apply moves_bind; [apply _|apply moves_wrapping, rows_onS, keeps_query|].
  intros n. apply moves_if; [stay|]. apply moves_bind; [apply _|stay|]. intros []. apply moves_wrapping, rows_onS.
  unfold DeleteMapSet. keep. apply keeps_stmt. intros d n0 d' [H1 H2] H. unfold delete_map_set in H.
  destruct (db_map_sets d !! id); [|by simplify_eq]. apply check_ok in H as [_ H]. by injection H as _ <-.
Qed.
End Rows.

Lemma getProgram_ok id w rec w' :
  getProgram (K:=K) id w = (Ok rec, w') ->
  same_state w w' /\ exists row ms, db_programs (st_db (w_store w)) !! id = Some row /\
    db_map_sets (st_db (w_store w)) !! p_map_set_id row = Some ms /\ pr_ProgramID rec = id /\
    ph_PinPath (pr_Handles rec) = p_pin_path row /\ ph_MapsDir (pr_Handles rec) = ms_pin_path ms.
Proof.
  intros H. pose proof H as Hs. apply getProgram_same in Hs. split; [done|].
  unfold getProgram, executeGetProgram, onS in H. destruct (Store.Get id (w_store w)) as [[r|e] s1] eqn:E; [|done]. injection H as <- _.
  unfold Store.Get in E. step_ok E row s2 E1. apply query_ok in E1 as (-> & _). unfold program_join in E.
  destruct (db_programs (st_db (w_store w)) !! id) as [row|] eqn:Er; [|done]. cbn in E.
  destruct (db_map_sets (st_db (w_store w)) !! p_map_set_id row) as [ms|] eqn:Em; [|done]. cbn in E. apply lift_ok in E as [E ->].
  unfold buildProgramRecord in E. destruct (ParseProgramType _) as [pt|]; [|done]. cbn in E.
  exists row, ms. destruct (p_image_source row) as [i|]; cbn in E; [destruct (ImagePullPolicy_Valid _); [|done]; cbn in E|]; by injection E as <-.
Qed.

(** Every listed dispatcher was rebuilt: nothing is left for the clean-up of
    empty ones. *)
Lemma collected_rebuilt links (rebuilt : gset Dispatcher.Key) :
  (forall rec k, rec ∈ links -> extractDispatcherKey (lr_Details rec) = Ok (Some k) -> k ∈ rebuilt) ->
  collectDispatcherKeys links ∖ rebuilt = ∅.
Proof.
  intros H. apply set_eq. intros k. rewrite elem_of_difference. split; [|by intros ?%elem_of_empty]. intros [Hk Hn]. exfalso. apply Hn.
  unfold collectDispatcherKeys in Hk. rewrite elem_of_list_to_set, list_elem_of_omap in Hk. destruct Hk as (rec & Hin & Hk).
  unfold link_key in Hk. destruct (_ || _); [|done]. destruct (extractDispatcherKey (lr_Details rec)) as [o|] eqn:E; [|done]. subst o. by eapply H.
Qed.

(** The links of a program are not members any more. *)
Lemma unlisted_members id w0 w (recs : list LinkRecord) :
  coherent base w0 -> sound base w ->
  (forall rec, rec ∈ recs <-> exists i l, links_of w0 !! i = Some l /\ (lk_kernel_prog_id l =? id) = true /\ rec = record_of (st_db (w_store w0)) i l) ->
  fewer w0 w -> (forall rec k, rec ∈ recs -> extractDispatcherKey (lr_Details rec) = Ok (Some k) -> absent (lr_ID rec) k w) ->
  (forall k s m, sv_snaps (sv w) !! k = Some s -> m ∈ sn_Members s -> dm_ProgramID m <> id) /\ no_members_of id (st_db (w_store w)).
Proof.
  intros Hc0 (Htx & Hok & Hpl) Hrecs Hf Habs.
  assert (Hno : forall k s m, sv_snaps (sv w) !! k = Some s -> m ∈ sn_Members s -> dm_ProgramID m <> id).
  { intros k s m Hs Hm Hpid. destruct (Hf _ _ _ Hs Hm) as (s0 & m0 & Hs0 & Hm0 & Elink & Eprog).
    destruct (snapshot_member_row _ _ _ _ Hs0 Hm0) as (l & Hl & Hlp). pose proof (snapshot_member_at _ _ _ _ Hs0 Hm0) as Hat.
    pose proof (coherent_sound base w0 Hc0) as (_ & Hok0 & Hpl0).
    assert (Hin : record_of (st_db (w_store w0)) (dm_LinkID m0) l ∈ recs).
    { apply Hrecs. exists (dm_LinkID m0), l. split; [done|]. split; [|done]. apply Z.eqb_eq. congruence. }
    destruct (listed_cases base _ _ _ (conj Hok0 Hpl0) Hl) as [[[Hnx Hnt] _]|(k' & row & Hkey & Hat' & _)].
    - destruct Hat as (r & Hr & _). destruct (KType k); cbn in Hr; congruence.
    - assert (k' = k) as -> by (by eapply member_at_unique). apply (Habs _ _ Hin Hkey _ _ Hs Hm). cbn [record_of lr_ID]. congruence. }
  split; [done|]. intros i l Hl Hp.
  destruct (nonmember_or_snapshot base _ _ _ (conj Hok Hpl) Hl) as [?|(k & s & m & Hs & Hm & _ & _ & Hpid)]; [done|].
  destruct (Hno _ _ _ Hs Hm). congruence.
Qed.

Lemma Delete_run id s r s' :
  Delete id s = (r, s') ->
  match r with
  | Ok _ => db_programs (st_db s') = delete id (db_programs (st_db s)) /\
      forall i l, db_links (st_db s') !! i = Some l -> db_links (st_db s) !! i = Some l /\ lk_kernel_prog_id l <> id
  | Err _ => st_db s' = st_db s
  end.
Proof.
  unfold Delete, bind. destruct (stmt _ s) as [[n|e] s1] eqn:E; [|intros [= <- <-]; by apply stmt_err in E as [-> _]].
  apply stmt_ok in E as (d & E & Hd & _). injection E as E. unfold delete_program in E.
  destruct (db_programs (st_db s) !! id) as [row|] eqn:Er; injection E as <- <-; cbn [Z.eqb]; unfold throw, ret; intros [= <- <-]; [|done].
  rewrite Hd. cbn. split; [done|]. intros i l [Hl Hn]%map_lookup_filter_Some. split; [done|]. intros Hp. apply Hn. cbn.
  unfold links_of_program. apply elem_of_dom. exists l. by apply map_lookup_filter_Some.
Qed.

Lemma or_log_total {A} l msg (m : M W A) w r w' : or_log l msg m w = (r, w') -> r = Ok tt.
Proof. unfold or_log, log. destruct (m w) as [[]]; by intros [= <- _]. Qed.

Lemma deleteRecord_quiet id w r w' :
  sound base w -> no_members_of id (st_db (w_store w)) -> deleteProgramRecord (K:=K) id w = (r, w') -> undisturbed base w w'.
Proof.
  intros Hs Hn H. unfold deleteProgramRecord, onS in H. destruct (Delete id (w_store w)) as [r1 s1] eqn:E. injection H as _ <-.
  destruct (undisturbed_refl base w Hs) as [Hc _]. split; [|done]. by eapply Delete_calm.
Qed.

(** The record of a program is deleted or, on an error, still there. *)
Definition program_gone (id : Z) w w' : Prop :=
  db_programs (st_db (w_store w')) = delete id (db_programs (st_db (w_store w))) /\
  forall i l, links_of w' !! i = Some l -> lk_kernel_prog_id l <> id.

Lemma unloadRecord_spec id setid dir w r w' :
  sound base w -> no_members_of id (st_db (w_store w)) -> apart base dir ->
  unloadRecord id setid dir true w = (r, w') ->
  exists err, r = Ok err /\ undisturbed base w w' /\
    match err with Ok _ => program_gone id w w' | Err _ => db_programs (st_db (w_store w')) = db_programs (st_db (w_store w)) end.
Proof.
  intros Hs Hn Hd H. unfold unloadRecord in H. unfold bind at 1, attempt, wrapping in H.
  destruct (deleteProgramRecord id w) as [r1 w1] eqn:E1. pose proof (deleteRecord_quiet _ _ _ _ Hs Hn E1) as Hu1.
  unfold deleteProgramRecord, onS in E1. destruct (Delete id (w_store w)) as [r0 s1] eqn:E0. injection E1 as <- <-. apply Delete_run in E0.
  destruct r0 as [[]|e]; cbn [wrap_err] in H; [|injection H as <- <-; eexists; split; [done|]; split; [done|]; cbn; by rewrite E0].
  unfold bind in H. destruct (or_log _ _ _ _) as [r2 w2] eqn:E2. pose proof (or_log_total _ _ _ _ _ _ E2) as ->. injection H as <- <-.
  pose proof E2 as Hq. apply (moves_or_log _ _ _ _ _ (gc_quiet setid dir Hd)) in Hq; [|by eapply undisturbed_sound].
  assert (Hrows : holds (rows_are (db_programs (st_db s1)) (db_links (st_db s1))) (w_store w2)).
  { eapply (moves_or_log _ _ _ _ _ (gc_rows _ _ setid dir)); [|exact E2]. split; [apply Hu1|done]. }
  destruct Hrows as (_ & Ht & Hl). eexists. split; [done|]. split; [by eapply undisturbed_trans|]. destruct E0 as [Hp Hlinks]. split; [congruence|].
  unfold links_of. rewrite Hl. intros i l Hil. by apply Hlinks in Hil as [_ ?].
Qed.

Definition unloadRest (id setid : Z) (pp dir : path) (keys : gset Dispatcher.Key) : M W unit :=
  wrapping "unload program %d: %w" (unloadKernelProgram pp);;;
  or_log LevelWarn "failed to cleanup shared map pins" (cleanupSharedMapPins base id);;;
  let* err := unloadRecord id setid dir true in
  or_log LevelWarn "failed to remove orphaned bytecode directory" (removeProgramBytecodeDir base id);;;
  cleanupEmptyDispatchers base keys;;;
  lift err.

Lemma unloadRest_spec id setid pp dir w r w' :
  sound base w -> apart base pp -> apart base dir ->
  (forall w1, undisturbed base w w1 -> no_members_of id (st_db (w_store w1))) ->
  unloadRest id setid pp dir ∅ w = (r, w') ->
  undisturbed base w w' /\
  match r with Ok _ => program_gone id w w' | Err _ => db_programs (st_db (w_store w')) = db_programs (st_db (w_store w)) end.
Proof.
  intros Hs Hpp Hdir Hn H. unfold unloadRest in H. unfold bind at 1 in H.
  destruct (wrapping _ _ w) as [r1 w1] eqn:E1. pose proof E1 as Hu1.
  apply (moves_wrapping _ _ _ _ (quiet_onK base _ (KUnload_harmless base pp Hpp))) in Hu1; [|done].
  assert (Hst1 : w_store w1 = w_store w).
  { unfold wrapping, unloadKernelProgram in E1. destruct (onK _ w) as [x wx] eqn:Ex. injection E1 as _ <-. by apply onK_frame in Ex as (? & _). }
  destruct r1 as [[]|e]; [|injection H as <- <-; by rewrite Hst1]. unfold bind at 1 in H.
  destruct (or_log _ _ _ w1) as [r2 w2] eqn:E2. pose proof (or_log_total _ _ _ _ _ _ E2) as ->. pose proof E2 as Hu2.
  apply (moves_or_log _ _ _ _ _ (cleanupShared_quiet id)) in Hu2; [|by eapply undisturbed_sound].
  assert (Hrows : holds (rows_are (db_programs (st_db (w_store w))) (db_links (st_db (w_store w)))) (w_store w2)).
  { eapply (moves_or_log _ _ _ _ _ (cleanupShared_rows _ _ id)); [|exact E2]. rewrite Hst1. split; [apply Hs|done]. }
  destruct Hrows as (_ & Ht & Hl). pose proof (undisturbed_trans base _ _ _ Hu1 Hu2) as Hu. unfold bind at 1 in H.
  destruct (unloadRecord _ _ _ _ w2) as [r3 w3] eqn:E3. apply unloadRecord_spec in E3 as (err & -> & Hu3 & Herr);
    [|by eapply undisturbed_sound|by apply Hn|done]. pose proof (undisturbed_trans base _ _ _ Hu Hu3) as Hu'.
  unfold bind at 1 in H. destruct (or_log _ _ _ w3) as [r4 w4] eqn:E4. pose proof (or_log_total _ _ _ _ _ _ E4) as ->. pose proof E4 as Hu4.
  apply (moves_or_log _ _ _ _ _ (bytecodeDir_quiet id)) in Hu4; [|by eapply undisturbed_sound].
  assert (Hst4 : w_store w4 = w_store w3).
  { unfold or_log, log in E4. destruct (removeProgramBytecodeDir base id w3) as [x wx] eqn:Ex. apply onK_frame in Ex as (? & _). by destruct x; injection E4 as <-. }
  unfold bind, cleanupEmptyDispatchers in H. rewrite elements_empty in H. unfold for_each, ret, lift in H. injection H as <- <-.
  split; [by eapply undisturbed_trans|]. unfold program_gone, links_of in *. rewrite Hst4. rewrite Ht in Herr. done.
Qed.

Lemma list_keeps P d0 : keeps (eq d0) (list_links P).
Proof. unfold list_links, populateLinkDetails, detail_batches, populate, batchPopulateDetails. keep. Qed.

Lemma list_undaunted P : undaunted (list_links P).
Proof.
  assert (Hb : forall t l, undaunted (batchPopulateDetails t l)).
  { intros t l. apply undaunted_bind; [apply undaunted_wrapping, undaunted_stmt|]. intros rows. apply undaunted_pure. }
  assert (Hp : forall ts l, undaunted (populate ts l)).
  { induction ts as [|t ts IH]; intros l; [apply undaunted_ret|]. by apply undaunted_bind. }
  apply undaunted_bind; [apply undaunted_stmt|]. intros rows. apply undaunted_bind; [apply undaunted_pure|]. intros [|r rs]; [apply undaunted_ret|apply Hp].
Qed.

(** What is left of a program when Unload succeeded: nothing in the tables and
    no member in any dispatcher, while no other dispatcher gained one. *)
Definition unloaded (id : Z) w w' : Prop :=
  is_Some (db_programs (st_db (w_store w)) !! id) /\ program_gone id w w' /\ fewer w w' /\
  forall k s m, sv_snaps (sv w') !! k = Some s -> m ∈ sn_Members s -> dm_ProgramID m <> id.

Lemma unload_spec id rec row ms links w0 w r w' :
  coherent base w0 -> same_state w0 w ->
  db_programs (st_db (w_store w0)) !! id = Some row -> db_map_sets (st_db (w_store w0)) !! p_map_set_id row = Some ms ->
  pr_ProgramID rec = id -> ph_PinPath (pr_Handles rec) = p_pin_path row -> ph_MapsDir (pr_Handles rec) = ms_pin_path ms ->
  (forall r, r ∈ links <-> exists i l, links_of w0 !! i = Some l /\ (lk_kernel_prog_id l =? id) = true /\ r = record_of (st_db (w_store w0)) i l) ->
  unload base rec links true w = (r, w') ->
  match r with
  | Ok _ => coherent base w' /\ unloaded id w0 w'
  | Err _ => sound base w' /\ db_programs (st_db (w_store w')) = db_programs (st_db (w_store w0))
  end.
Proof.
  intros Hc0 Hs Hrow Hms Hid Hpin Hdir Hlinks H. pose proof (same_coherent base _ _ Hs Hc0) as Hc.
  assert (Hfit : Forall (fits base) links).
  { apply list.Forall_forall. intros rec' (i & l & Hl & _ & ->)%Hlinks. by apply listed_fits. }
  unfold unload in H. rewrite Hid, Hpin, Hdir in H. unfold bind at 1, wrapping at 1 in H.
  destruct (detachAllLinks base links ∅ w) as [r1 w1] eqn:E1. pose proof Hs as (Hd & _).
  assert (Hkept : holds (kept_tables base (st_db (w_store w0))) (w_store w1)).
  { eapply detachAll_tables; [exact Hfit| |exact E1]. rewrite <- Hd. by apply kept_refl, coherent_sound. }
  destruct Hkept as (Htx1 & Hsd1 & Hp1 & _).
  destruct r1 as [rebuilt|e]; cbn [wrap_err] in H; [|injection H as <- <-; split; [by split|exact Hp1]].
  apply (detachAll_ok base Hbase) in E1 as (Hc1 & Hf & _ & Hall); [|done..].
  rewrite collected_rebuilt in H by (intros; by eapply Hall). fold (unloadRest id (record_map_set rec) (p_pin_path row) (ms_pin_path ms) ∅) in H.
  assert (Hfew : forall w2, undisturbed base w1 w2 -> fewer w0 w2).
  { intros w2 Hu2. apply (fewer_trans _ w); [apply fewer_same; by rewrite (same_sv _ _ Hs)|].
    apply (fewer_trans _ w1 _ Hf), fewer_same. by eapply undisturbed_snaps. }
  assert (Hun : forall w2, undisturbed base w1 w2 -> (forall k s m, sv_snaps (sv w2) !! k = Some s -> m ∈ sn_Members s -> dm_ProgramID m <> id) /\
            no_members_of id (st_db (w_store w2))).
  { intros w2 Hu2. eapply (unlisted_members id w0 w2 links); [done|by eapply undisturbed_sound|done|by apply Hfew|].
    intros rec' k Hin Hk. eapply fewer_absent; [apply fewer_same; by eapply undisturbed_snaps|by eapply Hall]. }
  destruct (coherent_sound base w0 Hc0) as (_ & _ & Hpl). pose proof (pl_programs _ _ Hpl) as Hap. pose proof (pl_sets _ _ Hpl) as Hsets.
  apply unloadRest_spec in H as [Hu Hr]; [|by apply coherent_sound|by apply (Hap _ _ Hrow)|by apply (Hsets _ _ Hms)|intros; by apply Hun].
  destruct r as [[]|e]; [|split; [by eapply undisturbed_sound|by rewrite Hr]].
  split; [exact (undisturbed_coherent base _ _ Hc1 Hu)|]. split; [by eexists|]. destruct Hr as [Hg1 Hg2]. split; [split; [by rewrite Hg1, Hp1|done]|].
  split; [by apply Hfew|]. by apply Hun.
Qed.

Lemma Unload_cases id w r w' :
  coherent base w -> Unload base id w = (r, w') ->
  match r with
  | Ok _ => coherent base w' /\ unloaded id w w'
  | Err _ => sound base w' /\ db_programs (st_db (w_store w')) = db_programs (st_db (w_store w))
  end.
Proof.
  intros Hc H. unfold Unload in H. destruct (getProgram id w) as [[rec|e] w1] eqn:E1.
  2:{ apply getProgram_same in E1 as Hs. pose proof (same_sound base _ _ Hs (coherent_sound base w Hc)) as Hsd. destruct Hs as (Hd & _).
      destruct (errors_Is e ErrProgramNotFound); [|injection H as <- <-; by rewrite Hd].
      destruct (onK (GetProgramByID id) w1) as [r2 w2] eqn:E2. apply onK_frame in E2 as (Hst & _).
      assert (Hout : w' = w2 /\ is_ok r = false) by (destruct r2; by injection H as <- <-).
      destruct Hout as [-> Hr]. destruct r; [done|]. unfold sound in *. by rewrite Hst, Hd in *. }
  apply getProgram_ok in E1 as (Hs1 & row & ms & Hrow & Hms & Hid & Hpin & Hdir).
  unfold bind, wrapping in H. destruct (onS (ListLinksByProgram id) w1) as [r2 w2] eqn:E2.
  assert (Hs2 : same_state w w2).
  { eapply same_state_trans; [exact Hs1|]. eapply onS_same; [|intros d0; apply list_keeps|apply list_undaunted|exact E2].
    by apply (same_coherent base _ _ Hs1 Hc). }
  destruct r2 as [links|e]; cbn [wrap_err] in H.
  2:{ injection H as <- <-. split; [by eapply same_sound, coherent_sound|]. by destruct Hs2 as (-> & _). }
  unfold onS in E2. destruct (ListLinksByProgram id (w_store w1)) as [x s2] eqn:E3. injection E2 as -> <-.
  apply list_links_ok in E3 as [_ Hl]. destruct Hs1 as (Hd1 & _). rewrite Hd1 in Hl. by eapply unload_spec.
Qed.

(** C3: Unload removes a program with everything that runs it, or leaves it to
    be retried. When it succeeds, every dispatcher left is served by the kernel,
    the row of the program and the rows of all its links are gone and the
    other program rows are as before, no dispatcher has a member of the program
    any more, and the members the dispatchers still have were members of the
    same dispatchers before, although the records of later links were read
    before the rebuilds of the earlier ones. When it fails, at whichever
    step, every program row is still there. *)
Theorem Unload_contract id w r w' :
  coherent base w -> Unload base id w = (r, w') ->
  match r with
  | Ok _ => coherent base w' /\ unloaded id w w'
  | Err _ => sound base w' /\ db_programs (st_db (w_store w')) = db_programs (st_db (w_store w))
  end.
Proof. by apply Unload_cases. Qed.
End Unload.
