(* ===== verification/Serving.v ===== *)
(** * The manager's requests over time

    Every attach verb, Detach, Unload and the body of Load keep the world
    coherent: dispatcher attaches through the executor's rebuild, the others
    because they leave the dispatchers alone. The last theorem composes them
    over any sequence of requests, as the writer lock serialises them. *)

From Stdlib Require Import ZArith Lia String.
From stdpp Require Import base tactics sets list gmap strings numbers relations.
From S2P Require Import Prelude Actions Dispatcher Domain Slots Layout Operation Planning Platform Executor Rebuild.
From S2P Require Import Members XDPRebuild TCRebuild TCAttach Detach Lifecycle Bytecode.
From S2P Require Import StoreDb Store StoreTx StoreSpec StoreInv Placed Coherent Inspect Manager Attach SimpleAttach Requests Removal.

Local Open Scope string_scope.
Local Open Scope list_scope.
Local Open Scope Z_scope.

(** ** Requests that return and move the world along a preorder *)

Section GMoves.
Context {K : Type} (P : world K store -> Prop) (R : world K store -> world K store -> Prop) `{!Motion P R}.
Abbreviation W := (world K store).

(** No panic, and the end is related to the start. *)
Definition gmoves {A} (m : GoM W A) : Prop := forall w o w', P w -> m w = (o, w') -> (exists r, o = Ret r) /\ R w w'.
Definition gyields {A} (m : GoM W A) (Q : A -> Prop) : Prop := forall w a w', m w = (Ret (Ok a), w') -> Q a.

Lemma gmoves_call {A} (m : M W A) : moves P R m -> gmoves (call m).
Proof. intros Hm w o w' HP. unfold call. destruct (m w) as [r w1] eqn:E. intros [= <- <-]. split; [by eexists|by eapply Hm]. Qed.

Lemma gmoves_ret {A} (a : A) : gmoves (gret a).
Proof. intros w o w' HP [= <- <-]. split; [by eexists|by apply motion_refl]. Qed.

Lemma gmoves_throw {A} e : gmoves (gthrow (A:=A) e).
Proof. intros w o w' HP [= <- <-]. split; [by eexists|by apply motion_refl]. Qed.

Lemma gmoves_bind_yields {A B} (m : GoM W A) (f : A -> GoM W B) (Q : A -> Prop) :
  gmoves m -> gyields m Q -> (forall a, Q a -> gmoves (f a)) -> gmoves (gbind m f).
Proof.
  intros Hm HQ Hf w o w' HP. unfold gbind. destruct (m w) as [om w1] eqn:E. destruct (Hm _ _ _ HP E) as [[r ->] HR].
  destruct r as [a|e]; [|intros [= <- <-]; split; [by eexists|done]]. intros H.
  destruct (Hf a (HQ _ _ _ E) w1 o w') as [? HR']; [by eapply motion_keeps|done|]. split; [done|by eapply motion_trans].
Qed.

Lemma gmoves_bind {A B} (m : GoM W A) (f : A -> GoM W B) : gmoves m -> (forall a, gmoves (f a)) -> gmoves (gbind m f).
Proof. intros Hm Hf. eapply (gmoves_bind_yields _ _ (fun _ => True)); [done|done|auto]. Qed.

Lemma gmoves_attempt {A} (m : GoM W A) : gmoves m -> gmoves (gattempt m).
Proof.
  intros Hm w o w' HP. unfold gattempt. destruct (m w) as [om w1] eqn:E. destruct (Hm _ _ _ HP E) as [[r ->] HR].
  intros [= <- <-]. split; [by eexists|done].
Qed.

Lemma gmoves_if {A} (b : bool) (m n : GoM W A) : gmoves m -> gmoves n -> gmoves (if b then m else n).
Proof. by destruct b. Qed.

Lemma gmoves_eq {A} (m n : GoM W A) : (forall w, n w = m w) -> gmoves m -> gmoves n.
Proof. intros E H w o w' HP Hn. rewrite E in Hn. by eapply H. Qed.
End GMoves.

Section Dispatchers.
Context {K : Type} `{!KernelOps K} {NC : NetConsts} `{!KernelLaws K}.
Context (base : path) (Hbase : forallb plain base = true).
Abbreviation W := (world K store).
Implicit Types (w : W).
#[local] Hint Extern 0 (Executor _ _ _) => exact (manager_executor base) : typeclass_instances.

(** ** Attaches through a dispatcher *)

Definition dispatcherAttachDirect (p : dispatcherAttachParams) (rebuild : ProgramRecord -> M W extensionResult) : M W Link :=
  let* prog := executeGetProgram (dap_programID p) in
  let* r := rebuild prog in
  ret (er_link r).

Lemma dispatcherAttach_run p rebuild w :
  (forall prog, executor_ExecuteResult base (dap_rebuildAction p prog) = value (rebuild prog)) ->
  dispatcherAttach base p w = call (dispatcherAttachDirect p rebuild) w.
Proof.
  intros Hact. unfold dispatcherAttach, gbind, run_plan.
  assert (Build (dispatcherAttachPlan base p) = Some (dispatcherAttachPlan base p)) as -> by reflexivity.
  unfold Run, dispatcherAttachPlan.
  assert (Hprep : forall r w1, executeGetProgram (dap_programID p) w = (r, w1) ->
    call (let* prog := action_Produce ProgramRecord (AGetProgramFromStore (dap_programID p)) in ret (mkDispPrepared prog)) w =
      (Ret (match r with Ok prog => Ok (mkDispPrepared prog) | Err e => Err e end), w1)).
  { intros r w1 E. unfold call, bind. rewrite (produce_value base (AGetProgramFromStore (dap_programID p)) (executeGetProgram (dap_programID p))), E by done. by destruct r. }
  destruct (executeGetProgram (dap_programID p) w) as [r1 w1] eqn:E1. erewrite interpret_produce; [|exact (Hprep _ _ eq_refl)].
  destruct r1 as [prog|e]; [|erewrite call_run; [|unfold dispatcherAttachDirect, bind; rewrite E1; reflexivity]; done].
  destruct (rebuild prog w1) as [r2 w2] eqn:E2.
  erewrite interpret_produce; [|cbv beta; unfold gbind; rewrite bound_hit; unfold gret; apply call_run; rewrite (produce_value base _ _ _ (Hact prog)); exact E2].
  destruct r2 as [r|e]; (erewrite call_run; [|unfold dispatcherAttachDirect, bind; rewrite E1, E2; reflexivity]); [|done].
  cbn [interpret i_bindings]. by rewrite bound_hit.
Qed.

(** What the two dispatcher attaches have in common. *)
Definition serves (m : M W extensionResult) : Prop :=
  forall w r w', coherent base w -> m w = (r, w') -> settled r w w' -> coherent base w'.

Lemma getProgram_log id w r w' : executeGetProgram (K:=K) id w = (r, w') -> w_log w' = w_log w.
Proof. unfold executeGetProgram, onS. destruct (Store.Get _ _) as [[] s1]; by intros [= _ <-]. Qed.

Lemma dispatcherAttach_serves p rebuild w o w' :
  (forall prog, executor_ExecuteResult base (dap_rebuildAction p prog) = value (rebuild prog)) ->
  (forall prog, serves (rebuild prog)) -> coherent base w -> dispatcherAttach base p w = (o, w') ->
  exists r, o = Ret r /\ (settled r w w' -> coherent base w').
Proof.
  intros Hact Hreb Hc H. rewrite (dispatcherAttach_run p rebuild) in H by done. unfold call in H.
  destruct (dispatcherAttachDirect p rebuild w) as [r w1] eqn:E. injection H as <- <-. exists r. split; [done|].
  unfold dispatcherAttachDirect, bind in E. destruct (executeGetProgram _ w) as [[prog|e] w2] eqn:E2;
    pose proof (getProgram_same _ _ _ _ E2) as Hs; pose proof (same_coherent base _ _ Hs Hc) as Hc2;
    [|injection E as <- <-; done].
  apply getProgram_log in E2. destruct (rebuild prog w2) as [r3 w3] eqn:E3. intros Hset.
  assert (Hw : w1 = w3 /\ is_ok r = is_ok r3) by (destruct r3; by injection E as <- <-). destruct Hw as [-> Hr].
  eapply Hreb; [exact Hc2|exact E3|]. unfold settled, rollbackFailures in *. by rewrite <- Hr, E2.
Qed.

Lemma xdp_serves pid i ifname ns pp name prio po md :
  0 <= i < 2 ^ 32 -> in_uint32 po -> serves (rebuildXDPDispatcher base pid (mkXdpRebuildOps i ifname ns) pp name prio po md).
Proof.
  intros Hi Hpo w r w' [Hc Hpl] H Hset. split.
  - exact (rebuildXDP_keeps base pid (mkXdpRebuildOps i ifname ns) pp name prio po md w r w' Hbase Hi Hpo Hc H Hset).
  - destruct Hc as [[Htx Hok] _].
    destruct (rebuildXDP_stays base (sound_db base) pid (mkXdpRebuildOps i ifname ns) pp name prio po md Hi w r w' (conj Htx (conj Hok Hpl)) H) as (_ & _ & ?).
    done.
Qed.

Lemma tc_serves pid i ifname dir dt ns pp name prio po md :
  tc_ops_wf (mkTcRebuildOps i ifname dir dt ns) -> 0 <= i < 2 ^ 32 -> in_uint32 po ->
  serves (rebuildTCDispatcher base pid (mkTcRebuildOps i ifname dir dt ns) pp name prio po md).
Proof.
  intros Hops Hi Hpo w r w' [Hc Hpl] H Hset. split.
  - exact (rebuildTC_keeps base pid (mkTcRebuildOps i ifname dir dt ns) pp name prio po md w r w' Hbase Hops Hi Hpo Hc H Hset).
  - destruct Hc as [[Htx Hok] _]. assert (Hz : dt <> DispatcherTypeZero) by (destruct Hops as [[E _]|[E _]]; cbn in E; by rewrite E).
    destruct (rebuildTC_stays base (sound_db base) pid (mkTcRebuildOps i ifname dir dt ns) pp name prio po md Hz Hi w r w' (conj Htx (conj Hok Hpl)) H) as (_ & _ & ?).
    done.
Qed.

(** A step that only reads the kernel. *)
Lemma reads_step {A} (m : M K A) w r w1 :
  reads view m -> onK m w = (r, w1) -> same_state w w1 /\ w_log w1 = w_log w.
Proof.
  intros Hm H. apply onK_frame in H as (Hst & Hl & Hk). split; [|done]. specialize (Hm (w_kernel w)). rewrite Hk in Hm. by apply reads_same.
Qed.

Lemma attachXDP_serves md id ifname prio po ns w o w' :
  coherent base w -> attachXDP base md id ifname prio po ns w = (o, w') ->
  exists r, o = Ret r /\ (settled r w w' -> coherent base w').
Proof.
  intros Hc H. unfold attachXDP, gbind in H. unfold call at 1 in H. destruct (onK (InterfaceByName ifname ns) w) as [r1 w1] eqn:E1.
  apply reads_step in E1 as [Hs Hlog]; [|apply law_interface]. pose proof (same_coherent base _ _ Hs Hc) as Hc1.
  destruct r1 as [i|e]; [|injection H as <- <-; by eexists]. unfold call at 1, lift in H.
  destruct (ProceedOnMask DispatcherTypeXDP _) as [m|e] eqn:Em; [|injection H as <- <-; by eexists].
  apply ProceedOnMask_decodes in Em as [Hm _].
  eapply dispatcherAttach_serves in H as (r & -> & Hr); [| | |exact Hc1]; [|intros prog; reflexivity|intros prog; apply xdp_serves; [apply uint32_range|done]].
  exists r. split; [done|]. unfold settled, rollbackFailures in *. by rewrite <- Hlog.
Qed.

Lemma attachTC_serves md id ifname dir prio po ns w o w' :
  TCDirection_Valid dir = true -> coherent base w -> attachTC base md id ifname dir prio po ns w = (o, w') ->
  exists r, o = Ret r /\ (settled r w w' -> coherent base w').
Proof.
  intros Hdir Hc H. unfold attachTC, gbind in H. unfold call at 1 in H. destruct (onK (InterfaceByName ifname ns) w) as [r1 w1] eqn:E1.
  apply reads_step in E1 as [Hs Hlog]; [|apply law_interface]. pose proof (same_coherent base _ _ Hs Hc) as Hc1.
  destruct r1 as [i|e]; [|injection H as <- <-; by eexists]. unfold call at 1, lift in H.
  destruct (ProceedOnMask _ _) as [m|e] eqn:Em; cbn [wrap_err] in H; [|injection H as <- <-; by eexists].
  apply ProceedOnMask_decodes in Em as [Hm _].
  assert (Hops : forall i', tc_ops_wf (mkTcRebuildOps i' ifname dir (if String.eqb dir TCDirectionIngress then DispatcherTypeTCIngress else DispatcherTypeTCEgress) ns)).
  { intros i'. unfold TCDirection_Valid in Hdir. apply orb_true_iff in Hdir as [E%String.eqb_eq|E%String.eqb_eq]; rewrite E; [by left|by right]. }
  eapply dispatcherAttach_serves in H as (r & -> & Hr); [| | |exact Hc1]; [|intros prog; reflexivity|intros prog; apply tc_serves; [apply Hops|apply uint32_range|done]].
  exists r. split; [done|]. unfold settled, rollbackFailures in *. by rewrite <- Hlog.
Qed.
End Dispatchers.

(** ** TCX *)

Section TCX.
Context {K : Type} `{!KernelOps K} {NC : NetConsts} `{!KernelLaws K}.
Context (base : path).
Abbreviation W := (world K store).
Implicit Types (w : W).
#[local] Hint Extern 0 (Executor _ _ _) => exact (manager_executor base) : typeclass_instances.

Definition tcxSpec (programID : Z) (metadata : gmap string string) (det : LinkDetails) (out : AttachOutput) : LinkSpec :=
  mkLinkSpec programID (ao_KernelLinkID out) (LinkDetails_Kind det) (NewLinkPath (ao_PinPath out)) (Some det) metadata.

(** The two nodes of the TCX plan, with the undo of the first. *)
Definition tcxDirect (programID : Z) (metadata : gmap string string) (attach : M K AttachOutput) (lp : path) (det : LinkDetails) : M W Link :=
  let* out := onK attach in
  let* record := on_error (wrapping "save link metadata: %w" (onS (CreateLink (tcxSpec programID metadata det out))))
                   (fun _ => best_effort (onK (DetachLink lp))) in
  ret (mkLink record (link_status out)).

Lemma tcxPlan_run id md i ifname dir prio nsid ns lp pp order w :
  (let b := run_plan base (attachTCXPlan base id md i ifname dir prio nsid ns lp pp order) in gbind b (fun b => bound b linkKey)) w =
  call (tcxDirect id md (AttachTCX i dir pp lp ns order) lp
          (DTCX (mkTCXDetails ifname (uint32 i) dir (int32 prio) 0 ns nsid))) w.
Proof.
  set (det := DTCX _). cbv zeta. unfold run_plan.
  assert (Build (attachTCXPlan base id md i ifname dir prio nsid ns lp pp order) = Some (attachTCXPlan base id md i ifname dir prio nsid ns lp pp order))
    as -> by reflexivity.
  destruct (tcxDirect id md (AttachTCX i dir pp lp ns order) lp det w) as [res w'] eqn:E. rewrite (call_run _ _ _ _ E). revert E.
  unfold tcxDirect, gbind at 1, Run, attachTCXPlan. destruct (onK (AttachTCX i dir pp lp ns order) w) as [rout w1] eqn:E1.
  rewrite (bind_run _ _ _ _ _ E1). erewrite interpret_produce; [|apply call_run; erewrite produce_value by reflexivity; exact E1].
  destruct rout as [out|e]; [|by intros [= <- <-]]. cbn [appendUndos app].
  set (b1 := <[_ := _]> ∅). assert (Hb1 : bound (K:=K) b1 attachOutKey = gret out) by apply bound_hit.
  destruct (onS (CreateLink (tcxSpec id md det out)) w1) as [rrec w2] eqn:E2. unfold saveLinkNode.
  erewrite (interpret_produce _ _ _ _ _ _ _ (match wrap_err "save link metadata: %w" rrec with
     Ok x => Ok (mkLink x (link_status out)) | Err e => Err e end) w2).
  2:{ unfold gbind at 2. rewrite Hb1. unfold gbind, gret, gwrapping. erewrite call_run by (erewrite produce_value by reflexivity; exact E2).
      by destruct rrec. }
  assert (E2' : wrapping "save link metadata: %w" (onS (CreateLink (tcxSpec id md det out))) w1 =
                (wrap_err "save link metadata: %w" rrec, w2)) by (unfold wrapping; by rewrite E2).
  rewrite (bind_run _ _ _ _ _ (on_error_run _ _ _ _ _ E2')). destruct rrec as [rec|e]; cbn [wrap_err].
  - intros [= <- <-]. cbn [interpret i_bindings]. by rewrite bound_hit.
  - intros [= <- <-]. cbn [executeRollback rev app rollback_rev]. rewrite !run_one, best_effort_run.
    by rewrite (Execute_no_value base (ADetachLink lp) (onK (DetachLink lp))) by reflexivity.
Qed.

Lemma NewLinkPath_pin p q : NewLinkPath p = Some q -> q = p.
Proof. unfold NewLinkPath. by destruct p; intros; simplify_eq. Qed.

Lemma tcxDirect_quiet id md m lp det :
  apart base lp -> attaches view lp m -> standalone det -> moves (K:=K) (sound base) (undisturbed base) (tcxDirect id md m lp det).
Proof.
  intros Hlp Hm Hdet. eapply moves_bind_yields with (Q := fun out => ao_PinPath out = lp); [apply _|by eapply quiet_onK, attaches_harmless| |].
  - intros w out w' H. apply onK_frame in H as (_ & _ & H). by apply Hm in H as (_ & _ & ?).
  - intros out Hout. apply moves_bind; [apply _| |intros; apply moves_ret; apply _]. apply moves_on_error; [apply _| |].
    + apply moves_wrapping, quiet_onS. intros d0. apply CreateLink_calm. split; cbn.
      * intros p Hp. apply NewLinkPath_pin in Hp as ->. by rewrite Hout.
      * by intros x [= <-].
    + intros _. by apply moves_best_effort, quiet_onK, DetachLink_harmless.
Qed.

Abbreviation quiet m := (moves (K:=K) (sound base) (undisturbed base) m).
Abbreviation gquiet m := (gmoves (K:=K) (sound base) (undisturbed base) m).

Lemma quiet_reads {A} (m : M K A) : reads view m -> quiet (onK m).
Proof. intros Hm. by apply quiet_onK, harmless_reads. Qed.

Lemma quiet_query {A} (m : M store A) : (forall d0, keeps (eq d0) m) -> quiet (onS m).
Proof.
  intros Hm w r w' Hs H. unfold onS in H. destruct (m (w_store w)) as [r1 s1] eqn:E. injection H as _ <-.
  destruct (undisturbed_refl base w Hs) as [[Htx Hc] Hp]. destruct (Hm _ _ _ _ (conj Htx eq_refl) E) as [Htx' Hd].
  split; [|exact Hp]. split; [done|]. cbn. by rewrite <- Hd.
Qed.

Lemma getProgram_quiet id : quiet (getProgram id).
Proof.
  intros w r w' Hs H. apply getProgram_same in H as Hsame. eapply same_undisturbed; [exact Hsame|].
  by eapply undisturbed_refl, same_sound.
Qed.

Lemma tcxIsLive_quiet id : quiet (tcxIsLive id).
Proof.
  intros w r w' Hs H. unfold tcxIsLive in H. destruct (onK (GetProgramByID id) w) as [r1 w1] eqn:E.
  apply (quiet_reads (GetProgramByID id)) in E; [|apply law_get_program|done].
  assert (Hlog : forall l, undisturbed base w (mkWorld (w_kernel w1) (w_store w1) l)).
  { intros l. eapply undisturbed_trans; [exact E|]. by apply (motion_log (Motion:=quiet_motion base)), (undisturbed_sound base w). }
  destruct r1 as [x|e]; [by injection H as _ <-|]. unfold bind, log, ret in H. destruct (errors_Is e ErrNotExist); injection H as _ <-; apply Hlog.
Qed.

Lemma filterLive_quiet links : quiet (filterLiveTCXLinks tcxIsLive links).
Proof.
  unfold filterLiveTCXLinks. generalize (∅ : gmap Z bool) as checked, ([] : list TCXLinkInfo) as live.
  induction links as [|l links IH]; intros checked live; cbn [filterLive_loop]; [apply moves_ret; apply _|].
  apply moves_bind; [apply _| |intros ok; apply IH]. destruct (checked !! _); [apply moves_ret; apply _|apply tcxIsLive_quiet].
Qed.

Lemma attachTCX_quiet md id ifname dir prio ns : gquiet (attachTCX base md id ifname dir prio ns).
Proof.
  unfold attachTCX. apply gmoves_bind; [apply _|apply gmoves_call, quiet_reads, law_interface|]. intros i.
  apply gmoves_bind; [apply _|apply gmoves_call, getProgram_quiet|]. intros prog.
  apply gmoves_bind; [apply _|apply gmoves_call, moves_wrapping, quiet_reads, law_nsid|]. intros nsid.
  apply gmoves_bind; [apply _|apply gmoves_call, moves_wrapping, quiet_query|].
  { intros d0. unfold ListTCXLinksByInterface. keep. }
  intros links. apply gmoves_if; [apply gmoves_throw; apply _|]. apply gmoves_bind; [apply _|apply gmoves_call, moves_wrapping|].
  { apply (moves_eq _ _ (onK (DetachLink (TCXLinkPath base dir nsid (uint32 i) id)))).
    - intros w. by rewrite (Execute_no_value base _ (onK (DetachLink (TCXLinkPath base dir nsid (uint32 i) id)))).
    - apply quiet_onK, DetachLink_harmless, apart_tcx. }
  intros []. apply gmoves_bind; [apply _|apply gmoves_call, filterLive_quiet|]. intros live.
  eapply gmoves_eq; [intros w; apply (tcxPlan_run id md i ifname dir prio nsid ns)|].
  apply gmoves_call, tcxDirect_quiet; [apply apart_tcx|apply law_tcx|done].
Qed.
End TCX.

(** ** All verbs *)

Section Verbs.
Context {K : Type} `{!KernelOps K} {NC : NetConsts} `{!KernelLaws K}.
Context (base : path) (Hbase : forallb plain base = true).
Abbreviation W := (world K store).
Implicit Types (w : W).

(** What the constructors of the specifications validate. *)
Definition attach_wf (spec : AttachSpec) : Prop :=
  match spec with TCAttachSpec _ _ _ dir _ _ _ => TCDirection_Valid dir = true | _ => True end.

Lemma gquiet_serves {A} (m : GoM W A) w o w' :
  gmoves (sound base) (undisturbed base) m -> coherent base w -> m w = (o, w') -> exists r, o = Ret r /\ coherent base w'.
Proof.
  intros Hm Hc H. destruct (Hm _ _ _ (coherent_sound base w Hc) H) as [[r ->] Hu]. exists r. split; [done|]. by eapply undisturbed_coherent.
Qed.

Lemma Attach_serves lock spec w o w' :
  attach_wf spec -> coherent base w -> Attach base lock spec w = (o, w') ->
  exists r, o = Ret r /\ (settled r w w' -> coherent base w').
Proof.
  intros Hwf Hc H. destruct (tracing spec) eqn:Ht.
  { apply Attach_tracing in H as (r & -> & Hu & _); [|done|by apply coherent_sound]. exists r. split; [done|]. intros _. by eapply undisturbed_coherent. }
  unfold Attach, gbind in H. unfold call at 1 in H. destruct (getProgram (as_ProgramID spec) w) as [rp w1] eqn:E.
  pose proof (getProgram_same _ _ _ _ E) as Hs. apply getProgram_log in E. pose proof (same_coherent base _ _ Hs Hc) as Hc1.
  destruct rp as [prog|e]; [|injection H as <- <-; by eexists]. unfold call at 1, lift in H.
  destruct (ValidateAttachProgramType _ _) as [u|e]; [|injection H as <- <-; by eexists].
  assert (Hgoal : exists r, o = Ret r /\ (settled r w1 w' -> coherent base w')).
  { destruct spec; try done.
    - by eapply attachXDP_serves.
    - by eapply attachTC_serves.
    - apply gquiet_serves in H as (r & -> & Hc'); [by exists r|apply attachTCX_quiet|done]. }
  destruct Hgoal as (r & -> & Hr). exists r. split; [done|]. unfold settled, rollbackFailures in *. by rewrite <- E.
Qed.
End Verbs.
