(* ===== verification/Load.v ===== *)
(** * Load requests (manager/load.go)

    A batch is loaded program by program into the kernel and the bytecode
    directory (phase A), then committed to the store in one transaction
    (phase B); a failure of either unloads what phase A did. Before a batch
    the records of programs the kernel no longer has are reaped. The image
    puller and the program validator are parameters. *)

From Stdlib Require Import ZArith Lia String.
From stdpp Require Import base tactics sets list gmap strings numbers sorting.
From S2P Require Import Prelude Actions Dispatcher Domain Slots Layout Operation Planning Platform Executor Bytecode.
From S2P Require Import StoreDb Store StoreSpec Inspect Manager.

Local Open Scope string_scope.
Local Open Scope list_scope.
Local Open Scope Z_scope.

(** ** Requests *)

Record ImageAuth := mkImageAuth { ia_Username : string; ia_Password : string }.
Record ImageRef := mkImageRef { ir_URL : string; ir_PullPolicy : string; ir_Auth : option ImageAuth }.
Record PulledImage := mkPulledImage {
  pi_ObjectPath : string; pi_URL : string; pi_Digest : string; pi_PullPolicy : string }.

Record LoadSource := mkLoadSource { ls_FilePath : string; ls_Image : option ImageRef }.

(** [None] is a nil map of global data. *)
Record ProgramSpec := mkProgramSpec {
  ps_Name : string; ps_Type : string; ps_AttachFunc : string;
  ps_GlobalData : option (gmap string string); ps_MapOwnerID : Z }.

Record LoadOpts := mkLoadOpts {
  lop_UserMetadata : gmap string string; lop_GlobalData : option (gmap string string); lop_Owner : string }.

Record LoadRequest := mkLoadRequest {
  lq_Source : LoadSource; lq_Programs : list ProgramSpec; lq_Opts : LoadOpts }.

Record LoadRequestOpts := mkLoadRequestOpts {
  lro_UserMetadata : gmap string string; lro_GlobalData : option (gmap string string);
  lro_Application : string; lro_MapOwnerID : Z; lro_Owner : string }.

Definition ApplicationMetadataKey : string := "bpfman.io/application".

Definition loadRequestMetadata (metadata : gmap string string) (application : string) : gmap string string :=
  if bool_decide (metadata = ∅) && String.eqb application "" then ∅
  else if String.eqb application "" then metadata
  else <[ApplicationMetadataKey := application]> metadata.

Definition with_owner (owner : Z) (p : ProgramSpec) : ProgramSpec :=
  if ps_MapOwnerID p =? 0
  then mkProgramSpec (ps_Name p) (ps_Type p) (ps_AttachFunc p) (ps_GlobalData p) owner
  else p.

Definition applyLoadRequestMapOwner (programs : list ProgramSpec) (owner : Z) : list ProgramSpec :=
  if owner =? 0 then programs else with_owner owner <$> programs.

Definition NewLoadRequest (source : LoadSource) (programs : list ProgramSpec) (opts : LoadRequestOpts) : LoadRequest :=
  mkLoadRequest source (applyLoadRequestMapOwner programs (lro_MapOwnerID opts))
    (mkLoadOpts (loadRequestMetadata (lro_UserMetadata opts) (lro_Application opts))
       (lro_GlobalData opts) (lro_Owner opts)).

Definition actualTypeMetadataKey (programName : string) : string :=
  "bpfman.io/actual-type:" +:+ programName.

Definition resolveActualProgramType (programType programName : string) (metadata : gmap string string) : string :=
  match metadata !! actualTypeMetadataKey programName with
  | Some actual => match ParseProgramType actual with Ok t => t | Err _ => programType end
  | None => programType
  end.

Definition normalizeLoadProgramSpecs (programs : list ProgramSpec) (opts : LoadOpts) : list ProgramSpec :=
  if bool_decide (lop_UserMetadata opts = ∅) then programs
  else (fun p => mkProgramSpec (ps_Name p)
                   (resolveActualProgramType (ps_Type p) (ps_Name p) (lop_UserMetadata opts))
                   (ps_AttachFunc p) (ps_GlobalData p) (ps_MapOwnerID p)) <$> programs.

Definition buildLoadSpec (objectPath : string) (opts : LoadOpts) (pulled : option PulledImage) (prog : ProgramSpec)
    : result LoadSpec :=
  let! spec := wrap_err "invalid load spec for %q: %w"
    (if RequiresAttachFunc (ps_Type prog)
     then NewAttachLoadSpec objectPath (ps_Name prog) (ps_Type prog) (ps_AttachFunc prog)
     else NewLoadSpec objectPath (ps_Name prog) (ps_Type prog)) in
  let globalData := match ps_GlobalData prog with Some g => Some g | None => lop_GlobalData opts end in
  let spec := match globalData with Some g => WithGlobalData g spec | None => spec end in
  let spec := if ps_MapOwnerID prog =? 0 then spec else WithMapOwnerID (ps_MapOwnerID prog) spec in
  Ok (match pulled with
      | Some p => WithImageProvenance (pi_URL p) (pi_Digest p) (pi_PullPolicy p) spec
      | None => spec
      end).

Definition buildLoadSpecs (objectPath : string) (programs : list ProgramSpec) (opts : LoadOpts)
    (pulled : option PulledImage) : result (list LoadSpec) :=
  rmap (buildLoadSpec objectPath opts pulled) programs.

Definition sourceKindFromSpec (spec : LoadSpec) : string :=
  if HasImageSource spec then "image"
  else if negb (String.eqb (objectPath spec) "") then "file" else "unknown".

(** ** Records *)

Record loadOpts := mkloadOpts { lo_UserMetadata : gmap string string; lo_Owner : string }.

Definition buildProgramRecord (base : path) (spec : LoadSpec) (loaded : LoadOutput) (id : Z) (opts : loadOpts)
    (now : Z) : ProgramRecord :=
  mkProgramRecord id
    (WithAttachFunc (attachFunc spec)
       (WithImageProvenance (imageURL spec) (imageDigest spec) (imagePullPolicy spec)
          (WithGlobalData (globalData spec)
             (WithProgramType (lo_InferredType loaded)
                (WithProgramName (programName spec)
                   (WithSourcePath (if HasImageSource spec then "" else objectPath spec)
                      (WithObjectPath (String_ (ProgramBytecodePath base id)) zeroLoadSpec)))))))
    (lo_License loaded) (IsGPLCompatible (lo_License loaded))
    (mkProgramHandles (lo_PinPath loaded) (lo_MapsDir loaded)
       (if mapOwnerID spec =? 0 then None else Some (mapOwnerID spec)))
    (mkProgramMeta (programName spec) (lo_Owner opts) "" (lo_UserMetadata opts))
    now None.

Definition with_used_by (members : gmap Z (list Z)) (p : Program_) : Program_ :=
  let s := pg_Status p in
  mkProgram_ (pg_Record p)
    (mkProgramStatus (pst_Kernel s) (pst_ProgPin s) (pst_MapDir s) (pst_Bytecode s) (pst_Links s) (pst_Maps s)
       (default [] (members !! pr_ProgramID (pg_Record p)))).

Section Load.
Context {K : Type} `{!KernelOps K} {NC : NetConsts}.
Context (base : path).
Context (imagePuller : option (ImageRef -> M K PulledImage)).
Context (ValidatePrograms : string -> list string -> M K unit).
Abbreviation W := (world K store).
Abbreviation mnode := (node W any Action).
#[local] Hint Extern 0 (Executor _ _ _) => exact (manager_executor base) : typeclass_instances.

(** ** The per-program plan *)

Definition provenance_of (spec : LoadSpec) (id now : Z) : Provenance :=
  mkProvenance 1 id (programName spec) (objectPath spec) (sourceKindFromSpec spec) now.

(** The undo of fs-publish reads a program the node itself has dereferenced. *)
Definition loadPlan (spec : LoadSpec) (now : Z) : list mnode :=
  [Produce loadedKey
     (fun _ => call (wrapping "load program %s: %w" (action_Produce LoadOutput (ALoadProgram spec base))))
     (Some (fun b => match Operation.Get b loadedKey with
                     | Some l => [AUnloadProgram (lo_PinPath l); ARemoveMapsPins (lo_MapsDir l)]
                     | None => []
                     end));
   Do "fs-publish"
     (fun b => let^ l := bound b loadedKey in
               let^ prog := deref (lo_Program l) in
               call (Execute (APublishBytecode (kp_ID prog) (objectPath spec)
                                (provenance_of spec (kp_ID prog) now))))
     (Some (fun b => match Operation.Get b loadedKey with
                     | Some l => match lo_Program l with
                                 | Some prog => [ARemoveProgramDir (ProgramDir base (kp_ID prog))]
                                 | None => []
                                 end
                     | None => []
                     end))].

(** ** The batch *)

Record loadedItem := mkLoadedItem { li_out : LoadOutput; li_id : Z; li_record : ProgramRecord }.

Definition cleanupLoaded (loaded : list Program_) : M W unit :=
  for_each (rev loaded) (fun p =>
    or_log LevelError "failed to unload during batch rollback" (unload base (pg_Record p) [] false)).

(** One iteration of phase A. *)
Definition loadOne (opts : loadOpts) (spec : LoadSpec) : GoM W (Program_ * loadedItem) :=
  let^ now := call (gets (fun w => time_Now (w_kernel w))) in
  let^ b := run_plan base (loadPlan spec now) in
  let^ lo := bound b loadedKey in
  let^ prog := deref (lo_Program lo) in
  let id := kp_ID prog in
  let record := buildProgramRecord base spec lo id opts now in
  let^ maps := call (kernelMaps (kp_MapIDs prog)) in
  let mapOwner := default id (ph_MapOwnerID (pr_Handles record)) in
  gret (mkProgram_ record
          (mkProgramStatus (Some prog) (ProgPinPath base id) (MapPinDir base mapOwner)
             (ProgramBytecodePath base id) [] maps []),
        mkLoadedItem lo id record).

(** Phase A; an error unloads what was loaded so far, in reverse. *)
Fixpoint loadLoop (opts : loadOpts) (specs : list LoadSpec) (loaded : list Program_) (items : list loadedItem)
    : GoM W (list Program_ * list loadedItem) :=
  match specs with
  | [] => gret (loaded, items)
  | spec :: specs' =>
      let^ r := gattempt (loadOne opts spec) in
      match r with
      | Err e => let^ _ := call (cleanupLoaded loaded) in gthrow e
      | Ok (p, it) => loadLoop opts specs' (loaded ++ [p]) (items ++ [it])
      end
  end.

(** The body of the phase B transaction. *)
Definition saveItem (it : loadedItem) : M store unit :=
  let* existing := attempt (Store.Get (li_id it)) in
  match existing with
  | Ok _ => throw (Errorf "program %d already exists in database")
  | Err e =>
      if negb (errors_Is e ErrRecordNotFound)
      then throw (Wrap "check existing program %d: %w" e)
      else
        wrapping "save program %d: %w" (Save (li_id it) (li_record it));;;
        (match lo_SharedMapNames (li_out it) with
         | [] => ret tt
         | names => wrapping "save shared map pins for program %d: %w" (SaveSharedMapPins (li_id it) names)
         end)
  end.

Definition commitItems (items : list loadedItem) : M store (gmap Z (list Z)) :=
  for_each items saveItem;;;
  let* records := wrapping "list programs for map users: %w" List_ in
  ret (MapSetMembers records).

Definition loadBody (specs : list LoadSpec) (opts : LoadOpts) : GoM W (list Program_) :=
  let perProgOpts := mkloadOpts (lop_UserMetadata opts) (lop_Owner opts) in
  let^ r := loadLoop perProgOpts specs [] [] in
  let '(loaded, items) := r in
  let^ c := gattempt (call (onS (runInTx (commitItems items)))) in
  match c with
  | Err e => let^ _ := call (cleanupLoaded loaded) in gthrow e
  | Ok members => gret (with_used_by members <$> loaded)
  end.

(** ** Reaping dead records *)

(** The first enumeration error ends the loop. *)
Definition observeDeadProgramReapSnapshot : M W reapSnapshot :=
  let* progs := wrapping "list store programs: %w" (onS List_) in
  let* steps := gets (fun w => Programs (w_kernel w)) in
  let* live := lift (wrap_err "enumerate kernel programs: %w" (rmap (fun r => r) steps)) in
  ret (mkReapSnapshot progs (list_to_set (kp_ID <$> live))).

Definition executeReapDeadProgramRecord (id : Z) : M W unit :=
  or_log LevelWarn "reap: remove map pins" (removeProgramMapsPins (MapPinDir base id));;;
  or_log LevelWarn "reap: cleanup shared map pins" (cleanupSharedMapPins base id);;;
  let* r := attempt (onS (Delete id)) in
  match r with
  | Err _ => log LevelWarn "reap: delete dead program record failed"
  | Ok _ => or_log LevelWarn "reap: remove bytecode dir" (removeProgramBytecodeDir base id)
  end.

Definition executeReapPlan (plan : list Z) : M W unit := for_each plan executeReapDeadProgramRecord.

(** [planReap] always has a plan. *)
Definition reapDeadProgramRecords : M W unit :=
  let* snap := observeDeadProgramReapSnapshot in
  executeReapPlan (default [] (planReap snap)).

(** ** Load *)

Definition validateExplicitMapOwners (specs : list LoadSpec) : M W unit :=
  for_each specs (fun spec =>
    if mapOwnerID spec =? 0 then ret tt
    else
      let* ok := wrapping "validate map_owner_id %d: %w" (onS (MapSetExists (mapOwnerID spec))) in
      if (ok : bool) then ret tt
      else throw (Wrap "map_owner_id %d does not exist: %w" (Sentinel ErrMapOwnerNotFound))).

Definition resolveBatchSource (source : LoadSource) : M W (string * option PulledImage) :=
  match ls_Image source with
  | Some image =>
      if negb (String.eqb (ls_FilePath source) "")
      then throw (Errorf "exactly one of FilePath or Image must be set")
      else match imagePuller with
           | None => throw (Sentinel ErrImagePullerNotConfigured)
           | Some pull =>
               if negb (ImagePullPolicy_Valid (ir_PullPolicy image))
               then throw (Errorf "image pull policy is required")
               else let* p := wrapping "pull image %s: %w" (onK (pull image)) in
                    ret (pi_ObjectPath p, Some p)
           end
  | None =>
      if String.eqb (ls_FilePath source) ""
      then throw (Errorf "exactly one of FilePath or Image must be set")
      else wrapping "object file %s: %w" (onK (os_Stat (ls_FilePath source)));;;
           ret (ls_FilePath source, None)
  end.

Definition resolveBatchPrograms (objectPath : string) (programs : list ProgramSpec) : M W (list ProgramSpec) :=
  onK (ValidatePrograms objectPath (ps_Name <$> programs));;; ret programs.

Fixpoint needsLock (specs : list LoadSpec) : M W bool :=
  match specs with
  | [] => ret false
  | spec :: specs' =>
      if negb (mapOwnerID spec =? 0) then ret true
      else
        let* has := wrapping "pre-check pinByName: %w" (onK (HasPinByName spec)) in
        if (has : bool) then ret true else needsLock specs'
  end.

(** [lock.Run] around a body without re-entry; releasing the lock cannot fail. *)
Definition lock_Run {A} (fn : GoM W A) : GoM W A := let^ _ := call (onK acquireWriter) in fn.

Definition reapWarn (m : GoM W unit) : GoM W unit :=
  let^ r := gattempt m in
  match r with
  | Ok _ => gret tt
  | Err _ => call (log LevelWarn "reaping dead program records before load failed (continuing)")
  end.

Definition Load (source : LoadSource) (programs : list ProgramSpec) (opts : LoadOpts) : GoM W (list Program_) :=
  match programs with
  | [] => gthrow (Errorf "no programs specified: name every program to load as TYPE:NAME")
  | _ =>
      let programs := normalizeLoadProgramSpecs programs opts in
      let^ r := call (resolveBatchSource source) in
      let '(objectPath, pulled) := r in
      let^ programs := call (resolveBatchPrograms objectPath programs) in
      let^ specs := call (lift (wrap_err "build load specs: %w" (buildLoadSpecs objectPath programs opts pulled))) in
      let^ locked := call (needsLock specs) in
      if (locked : bool) then
        lock_Run (
          let^ _ := call (validateExplicitMapOwners specs) in
          let^ _ := reapWarn (call reapDeadProgramRecords) in
          loadBody specs opts)
      else
        let^ _ := reapWarn (lock_Run (call reapDeadProgramRecords)) in
        loadBody specs opts
  end.

Definition LoadFromRequest (req : LoadRequest) : GoM W (list Program_) :=
  Load (lq_Source req) (lq_Programs req) (lq_Opts req).

Definition PullBytecode (ref : ImageRef) : M W PulledImage :=
  match imagePuller with
  | None => throw (Sentinel ErrImagePullerNotConfigured)
  | Some pull => onK (pull ref)
  end.
End Load.
