(* ===== verification/LoadBatch.v ===== *)
(** * Load

    The body of a load: phase A loads and publishes the programs one by one,
    phase B records them in one transaction; a failure in either unloads what
    was loaded. The dispatchers are not touched, a failed batch leaves the
    program rows as they were, a successful one adds a row per program. *)

From Stdlib Require Import ZArith Lia String.
From stdpp Require Import base tactics sets list gmap strings numbers sorting.
From S2P Require Import Prelude Actions Dispatcher Domain Slots Layout Operation Planning Platform Executor Rebuild.
From S2P Require Import Members XDPRebuild TCRebuild TCAttach Detach Lifecycle Bytecode.
From S2P Require Import StoreDb Store StoreTx StoreSpec StoreInv Placed Coherent Inspect Manager Attach SimpleAttach Requests Removal Serving Load.

Local Open Scope string_scope.
Local Open Scope list_scope.
Local Open Scope Z_scope.

Section Publish.
Context {K : Type} `{!KernelOps K} {NC : NetConsts} `{!KernelLaws K}.
Context (base : path).

Lemma harmless_in {A} (m : M K A) (P : path -> Prop) x :
  confined_to view P m -> x <> "fs" -> (forall q, P q -> exists rest, q = base ++ x :: rest) -> harmless base m.
Proof. intros Hm Hx HP. apply (harmless_confined base P); [done|]. intros q (rest & ->)%HP. by apply apart_not_disp, apart_app. Qed.

Lemma PublishBytecode_harmless id src prov : harmless (K:=K) base (PublishBytecode base id src prov).
Proof.
  unfold PublishBytecode, validateRegularFile.
  apply harmless_bind; [apply harmless_bind; [apply harmless_wrapping, harmless_reads, law_stat|]|].
  { intros fi. destruct (fi_IsRegular fi); [apply harmless_ret|apply harmless_throw]. }
  intros []. apply harmless_bind; [apply harmless_attempt, harmless_reads, law_stat|]. intros [fi|e]; [apply harmless_throw|].
  destruct (negb _); [apply harmless_throw|].
  do 2 (apply harmless_bind; [apply harmless_wrapping, harmless_reads, law_mkdir_all|intros []]).
  eapply (harmless_bind_yields base _ _ (fun t => exists n, t = stagingPath base ++ [n])).
  { apply harmless_wrapping, harmless_reads, law_mkdir_temp. }
  { intros k t k' H. apply wrapping_ok, law_mkdir_temp_ok in H as (n & _ & ->). by exists n. }
  intros t [n ->]. apply harmless_on_error; [|intros _; by apply harmless_best_effort, safeRemoveAll_harmless].
  assert (Hst : forall x q, q = (stagingPath base ++ [n]) ++ [x] -> exists rest, q = base ++ ".staging" :: rest).
  { intros x q ->. unfold stagingPath. rewrite <- !app_assoc. by eexists. }
  unfold stageBytecode. apply harmless_bind; [|intros []; apply harmless_bind; [|intros []]]; apply harmless_wrapping.
  - eapply (harmless_in _ _ ".staging"); [apply law_copy|done|by apply Hst].
  - eapply (harmless_in _ _ ".staging"); [apply law_write_json|done|by apply Hst].
  - apply (harmless_confined base _ _ (law_rename _ _)). intros q [[z ->]|[z ->]]; apply apart_not_disp.
    + unfold stagingPath. rewrite <- !app_assoc. by apply apart_app.
    + unfold ProgramDir. rewrite <- app_assoc. by apply apart_app.
Qed.

Lemma KLoad_harmless spec : harmless (K:=K) base (KLoad spec base).
Proof.
  intros k. destruct (KLoad spec base k) as [[lo|e] k'] eqn:E; cbn [snd].
  - apply law_load in E as (prog & _ & _ & Hpin & Hdir & _ & _ & Hin). eapply only_in_mono; [|exact Hin].
    intros q [->|[[z ->]|[z ->]]]; apply apart_not_disp; rewrite ?Hpin, ?Hdir.
    + apply apart_prog.
    + intros q' Hq. eapply apart_maps. by eapply prefix_app_l.
    + apply apart_shared.
  - apply law_load_err in E. eapply only_in_mono; [|exact E]. 
    intros q [(id & _ & ->)|[[z ->]|[z ->]]]; apply apart_not_disp; [apply apart_prog| |apply apart_shared].
    unfold Maps. rewrite <- app_assoc. apply apart_fs. by intros [].
Qed.
End Publish.

(** ** One program *)

Section Program.
Context {K : Type} `{!KernelOps K} {NC : NetConsts} `{!KernelLaws K}.
Context (base : path).
Abbreviation W := (world K store).
Implicit Types (w : W).
#[local] Hint Extern 0 (Executor _ _ _) => exact (manager_executor base) : typeclass_instances.

(** What Load returns for a program. *)
Definition loaded_as (spec : LoadSpec) (lo : LoadOutput) (prog : kernelProgram) : Prop :=
  lo_Program lo = Some prog /\ lo_PinPath lo = ProgPinPath base (kp_ID prog) /\
  lo_MapsDir lo = MapPinDir base (if mapOwnerID spec =? 0 then kp_ID prog else mapOwnerID spec).

(** The two nodes of the plan and the undo of the first. *)
Definition loadDirect (spec : LoadSpec) (now : Z) : M W LoadOutput :=
  let* lo := wrapping "load program %s: %w" (onK (KLoad spec base)) in
  on_error
    (match lo_Program lo with
     | Some prog => onK (PublishBytecode base (kp_ID prog) (objectPath spec) (provenance_of spec (kp_ID prog) now))
     | None => ret tt
     end)
    (fun _ => best_effort (onK (KUnload (lo_PinPath lo)));;; best_effort (onK (KUnload (lo_MapsDir lo))));;;
  ret lo.

Lemma KLoad_loaded spec w lo w' : onK (KLoad spec base) w = (Ok lo, w') -> exists prog, loaded_as spec lo prog.
Proof. intros H. apply onK_frame in H as (_ & _ & H). apply law_load in H as (prog & ? & _ & ? & ? & _). by exists prog. Qed.

Lemma run_two (a b : Action) w : run_actions [a; b] w = snd (Execute b (snd (Execute a w))).
Proof. done. Qed.

Lemma loadPlan_run spec now w :
  gbind (run_plan base (loadPlan base spec now)) (fun b => bound b loadedKey) w = call (loadDirect spec now) w.
Proof.
  unfold run_plan. assert (Build (loadPlan base spec now) = Some (loadPlan base spec now)) as -> by reflexivity.
  destruct (loadDirect spec now w) as [res w'] eqn:E. rewrite (call_run _ _ _ _ E). revert E.
  unfold loadDirect, gbind at 1, Run, loadPlan. destruct (onK (KLoad spec base) w) as [rlo w1] eqn:E1.
  assert (E1' : wrapping "load program %s: %w" (onK (KLoad spec base)) w = (wrap_err "load program %s: %w" rlo, w1)) by (unfold wrapping; by rewrite E1).
  rewrite (bind_run _ _ _ _ _ E1'). erewrite interpret_produce; [|apply call_run; unfold wrapping; erewrite produce_value by reflexivity; rewrite E1; reflexivity].
  destruct rlo as [lo|e]; cbn [wrap_err]; [|by intros [= <- <-]]. destruct (KLoad_loaded _ _ _ _ E1) as (prog & Hp & _).
  cbn [appendUndos app]. rewrite get_hit. set (b1 := <[_ := _]> ∅).
  assert (Hb1 : bound (K:=K) b1 loadedKey = gret lo) by apply bound_hit. assert (Hg1 : Operation.Get b1 loadedKey = Some lo) by apply get_hit.
  rewrite Hp. destruct (onK (PublishBytecode base (kp_ID prog) (objectPath spec) (provenance_of spec (kp_ID prog) now)) w1) as [rp w2] eqn:E2.
  rewrite (bind_run _ _ _ _ _ (on_error_run _ _ _ _ _ E2)). unfold Do; cbn [interpret interpret_node i_bindings].
  assert (Hnode : gbind (bound b1 loadedKey) (fun l => gbind (deref (lo_Program l)) (fun p =>
     call (Execute (APublishBytecode (kp_ID p) (objectPath spec) (provenance_of spec (kp_ID p) now))))) w1 = (Ret rp, w2)).
  { rewrite Hb1. unfold gbind, gret. rewrite Hp. cbn [deref]. unfold gret. apply call_run.
    by rewrite (Execute_no_value base _ (onK (PublishBytecode base (kp_ID prog) (objectPath spec) (provenance_of spec (kp_ID prog) now)))). }
  rewrite Hnode. destruct rp as [[]|e].
  - intros [= <- <-]. cbn [i_bindings]. by rewrite Hb1.
  - intros [= <- <-]. cbn [i_undos executeRollback rev app rollback_rev]. unfold bind. rewrite !best_effort_run. cbn [snd]. rewrite run_two.
    rewrite (Execute_no_value base (AUnloadProgram (lo_PinPath lo)) (onK (KUnload (lo_PinPath lo)))) by reflexivity.
    by rewrite (Execute_no_value base (ARemoveMapsPins (lo_MapsDir lo)) (onK (KUnload (lo_MapsDir lo)))) by reflexivity.
Qed.
End Program.

(** ** The batch, along any preorder that its steps respect *)

Section Batch.
Context {K : Type} `{!KernelOps K} {NC : NetConsts} `{!KernelLaws K}.
Context (base : path).
Abbreviation W := (world K store).
Implicit Types (w : W).
#[local] Hint Extern 0 (Executor _ _ _) => exact (manager_executor base) : typeclass_instances.

(** What phase A hands to phase B for a program. *)
Record item_for (opts : loadOpts) (spec : LoadSpec) (p : Program_) (it : loadedItem) : Prop := {
  if_record : exists now, li_record it = Load.buildProgramRecord base spec (li_out it) (li_id it) opts now;
  if_program : pg_Record p = li_record it;
  if_loaded : exists prog, loaded_as base spec (li_out it) prog /\ kp_ID prog = li_id it;
}.

Lemma item_id opts spec p it : item_for opts spec p it -> pr_ProgramID (li_record it) = li_id it.
Proof. by intros [[now ->] _ _]. Qed.

Lemma item_apart opts spec p it :
  item_for opts spec p it -> apart base (ph_PinPath (pr_Handles (li_record it))) /\ apart base (ph_MapsDir (pr_Handles (li_record it))).
Proof.
  intros [[now ->] _ (prog & (_ & Hp & Hm) & _)]. cbn. rewrite Hp, Hm. split; [apply apart_prog|apply apart_maps].
Qed.

Lemma gbind_assoc {A B C} (m : GoM W A) (f : A -> GoM W B) (g : B -> GoM W C) w :
  gbind m (fun a => gbind (f a) g) w = gbind (gbind m f) g w.
Proof. unfold gbind. by destruct (m w) as [[[]|] ?]. Qed.

(** Phase A for one program, without the plan. *)
Definition loadOneDirect (opts : loadOpts) (spec : LoadSpec) : M W (Program_ * loadedItem) :=
  let* now := gets (fun w => time_Now (w_kernel w)) in
  let* lo := loadDirect base spec now in
  match lo_Program lo with
  | None => throw (Errorf "")
  | Some prog =>
      let id := kp_ID prog in
      let record := Load.buildProgramRecord base spec lo id opts now in
      let* maps := kernelMaps (kp_MapIDs prog) in
      let mapOwner := default id (ph_MapOwnerID (pr_Handles record)) in
      ret (mkProgram_ record (mkProgramStatus (Some prog) (ProgPinPath base id) (MapPinDir base mapOwner)
             (ProgramBytecodePath base id) [] maps []), mkLoadedItem lo id record)
  end.

Lemma loadDirect_loaded spec now w lo w' : loadDirect base spec now w = (Ok lo, w') -> exists prog, loaded_as base spec lo prog.
Proof.
  intros H. unfold loadDirect in H. step_ok H lo' w1 E1. apply wrapping_ok, KLoad_loaded in E1 as [prog Hp]. step_ok H u w2 E2.
  injection H as <- _. by exists prog.
Qed.

Lemma loadOne_run opts spec w : loadOne base opts spec w = call (loadOneDirect opts spec) w.
Proof.
  unfold loadOne, loadOneDirect. unfold gbind at 1, call at 1, gets at 1.
  rewrite (gbind_assoc (run_plan base (loadPlan base spec (time_Now (w_kernel w)))) (fun b => bound b loadedKey)). unfold gbind at 1.
  rewrite loadPlan_run. unfold call at 1 3. unfold bind at 1, gets, bind at 1.
  destruct (loadDirect base spec (time_Now (w_kernel w)) w) as [[lo|e] w1] eqn:E; [|done].
  apply loadDirect_loaded in E as (prog & Hp & _). rewrite Hp. cbn [deref]. unfold gbind at 1, gret at 1. unfold gbind, call, bind.
  by destruct (kernelMaps (kp_MapIDs prog) w1) as [[maps|e] w2].
Qed.

Lemma loadOne_item opts spec w p it w' : loadOneDirect opts spec w = (Ok (p, it), w') -> item_for opts spec p it.
Proof.
  intros H. unfold loadOneDirect in H. step_ok H now w0 E0. injection E0 as <- <-. step_ok H lo w1 E1. apply loadDirect_loaded in E1 as [prog Hl].
  pose proof Hl as (Hp & _). rewrite Hp in H. step_ok H maps w2 E2. injection H as <- <- _. split; [by eexists|done|by exists prog].
Qed.

Context (P : W -> Prop) (R : W -> W -> Prop) `{!Motion P R}.
Context (Hkernel : forall A (m : M K A), harmless base m -> moves P R (onK m)).
Context (Hquery : forall A (m : M store A), (forall d0, keeps (eq d0) m) -> moves P R (onS m)).
Context (Hshared : forall id, moves P R (cleanupSharedMapPins base id)).

Lemma loadDirect_moves spec now : moves P R (loadDirect base spec now).
Proof.
  unfold loadDirect. eapply moves_bind_yields with (Q := fun lo => exists prog, loaded_as base spec lo prog); [apply _| | |].
  - apply moves_wrapping, Hkernel, KLoad_harmless.
  - intros w lo w' H. apply wrapping_ok in H. by eapply KLoad_loaded.
  - intros lo (prog & Hp & Hpin & Hdir). apply moves_bind; [apply _| |intros []; apply moves_ret; apply _]. rewrite Hp.
    apply moves_on_error; [apply _|apply Hkernel, PublishBytecode_harmless|]. intros _.
    apply moves_bind; [apply _|apply moves_best_effort, Hkernel, KUnload_harmless; rewrite Hpin; apply apart_prog|]. intros [].
    apply moves_best_effort, Hkernel, KUnload_harmless. rewrite Hdir. apply apart_maps.
Qed.

Lemma kernelMaps_moves ids : moves P R (kernelMaps ids).
Proof.
  induction ids as [|id ids IH]; cbn [kernelMaps]; [apply moves_ret; apply _|].
  apply moves_bind; [apply _|apply moves_attempt, Hkernel, harmless_reads, law_get_map|]. intros r.
  apply moves_bind; [apply _|exact IH|]. intros rest. apply moves_ret. apply _.
Qed.

Lemma loadOne_moves opts spec : moves P R (loadOneDirect opts spec).
Proof.
  unfold loadOneDirect. apply moves_bind; [apply _|apply moves_gets; apply _|]. intros now. apply moves_bind; [apply _|apply loadDirect_moves|].
  intros lo. destruct (lo_Program lo) as [prog|]; [|apply moves_throw; apply _].
  apply moves_bind; [apply _|apply kernelMaps_moves|]. intros maps. apply moves_ret. apply _.
Qed.

(** Undoing a program that was not recorded. *)
Lemma unload_moves rec :
  apart base (ph_PinPath (pr_Handles rec)) -> apart base (ph_MapsDir (pr_Handles rec)) -> moves P R (unload base rec [] false).
Proof.
  intros Hp Hm. unfold unload. apply moves_bind; [apply _|apply moves_wrapping, moves_ret; apply _|]. intros rebuilt.
  apply moves_bind; [apply _|by apply moves_wrapping, Hkernel, KUnload_harmless|]. intros [].
  apply moves_bind; [apply _|apply moves_or_log; [apply _|apply Hshared]|]. intros [].
  apply moves_bind; [apply _| |intros err; apply moves_bind; [apply _| |intros []; apply moves_bind; [apply _| |intros []; apply moves_lift; apply _]]].
  - unfold unloadRecord. apply moves_bind; [apply _| |intros []; apply moves_ret; apply _]. apply moves_if; [|apply moves_ret; apply _].
    apply moves_bind; [apply _| |intros b; apply moves_if; [apply moves_or_log; [apply _|by apply Hkernel, KUnload_harmless]|apply moves_ret; apply _]].
    intros w r w' HP H. unfold shouldRemoveNonPersistedSelfOwnedMapPins in H.
    destruct (onS _ w) as [[b|e] w1] eqn:E; (apply (Hquery _ (MapSetExists _)) in E; [|intros d0; apply keeps_query|done]); [by injection H as _ <-|].
    unfold log in H. injection H as _ <-. eapply motion_trans; [exact E|]. apply motion_log. by eapply motion_keeps.
  - apply moves_or_log; [apply _|]. by apply Hkernel, safeRemoveAll_harmless.
  - assert (collectDispatcherKeys [] ∖ rebuilt = ∅) as -> by (by apply collected_rebuilt; intros ?? ?%not_elem_of_nil).
    unfold cleanupEmptyDispatchers. rewrite elements_empty. apply moves_ret. apply _.
Qed.

Definition apart_program (p : Program_) : Prop :=
  apart base (ph_PinPath (pr_Handles (pg_Record p))) /\ apart base (ph_MapsDir (pr_Handles (pg_Record p))).

Lemma cleanupLoaded_moves loaded : Forall apart_program loaded -> moves P R (cleanupLoaded base loaded).
Proof.
  intros Hl. unfold cleanupLoaded. apply Forall_rev in Hl. induction Hl as [|p ps [Hp Hm] _ IH]; cbn [for_each]; [apply moves_ret; apply _|].
  apply moves_bind; [apply _|by apply moves_or_log, unload_moves|]. by intros [].
Qed.

Lemma loadLoop_moves opts specs : forall loaded items, Forall apart_program loaded -> gmoves P R (loadLoop base opts specs loaded items).
Proof.
  induction specs as [|spec specs IH]; intros loaded items Hl; cbn [loadLoop]; [apply gmoves_ret; apply _|].
  eapply gmoves_bind_yields with (Q := fun r => forall p it, r = Ok (p, it) -> apart_program p); [apply _| | |].
  - apply gmoves_attempt, (gmoves_eq _ _ (call (loadOneDirect opts spec))); [apply loadOne_run|]. apply gmoves_call, loadOne_moves.
  - intros w r w' H p it ->. unfold gattempt in H. rewrite loadOne_run in H. unfold call in H.
    destruct (loadOneDirect opts spec w) as [r1 w1] eqn:E. injection H as -> _. apply loadOne_item in E as Hit.
    unfold apart_program. destruct Hit as [? Hp ?] eqn:Ei. rewrite Hp. by eapply item_apart.
  - intros [[p it]|e] Hp.
    + apply IH, Forall_app. split; [done|]. apply Forall_singleton. by eapply Hp.
    + apply gmoves_bind; [apply _|by apply gmoves_call, cleanupLoaded_moves|]. intros _. apply gmoves_throw. apply _.
Qed.
End Batch.

(** ** Phase A and phase B *)

Section Body.
Context {K : Type} `{!KernelOps K} {NC : NetConsts} `{!KernelLaws K}.
Context (base : path).
Abbreviation W := (world K store).
Implicit Types (w : W).
#[local] Hint Extern 0 (Executor _ _ _) => exact (manager_executor base) : typeclass_instances.

(** A completed phase A has an item per specification, and did not write to
    the store. *)
Lemma loadLoop_ok opts specs : forall loaded items w loaded' items' w',
  loadLoop base opts specs loaded items w = (Ret (Ok (loaded', items')), w') ->
  w_store w' = w_store w /\
  exists xs, Forall2 (fun spec x => item_for base opts spec x.1 x.2) specs xs /\ loaded' = loaded ++ xs.*1 /\ items' = items ++ xs.*2.
Proof.
  induction specs as [|spec specs IH]; intros loaded items w loaded' items' w' H; cbn [loadLoop] in H.
  { injection H as <- <- <-. split; [done|]. exists []. by rewrite !app_nil_r. }
  unfold gbind at 1, gattempt in H. rewrite loadOne_run in H. unfold call at 1 in H.
  destruct (loadOneDirect base opts spec w) as [[[p it]|e] w1] eqn:E.
  - assert (Hst : w_store w1 = w_store w).
    { assert (Motion (fun v : W => w_store v = w_store w) (fun _ v => w_store v = w_store w)) by (by split).
      eapply (loadOne_moves base (fun v => w_store v = w_store w) (fun _ v => w_store v = w_store w)); [|done|exact E].
      intros A m _ v r v' Hv Hm. apply onK_frame in Hm as (Hm & _). congruence. }
    apply loadOne_item in E. apply IH in H as (Hst' & xs & HF & -> & ->). split; [congruence|]. exists ((p, it) :: xs).
    split; [by constructor|]. by rewrite <- !app_assoc.
  - unfold gbind, call in H. by destruct (cleanupLoaded base loaded w1) as [[] ?].
Qed.

Definition saved_row (it : loadedItem) : programRow := program_row (li_record it) (record_map_set (li_record it)).

Lemma Get_missing id s e s' :
  db_ok (st_db s) -> Store.Get id s = (Err e, s') -> errors_Is e ErrRecordNotFound = true -> db_programs (st_db s) !! id = None.
Proof.
  intros Hok H He. destruct (db_programs (st_db s) !! id) as [row|] eqn:Er; [|done]. exfalso.
  destruct (ok_programs _ Hok _ _ Er) as ([ms Hms] & _). unfold Store.Get, bind in H.
  destruct (query _ s) as [[x|e1] s1] eqn:E1.
  - apply query_ok in E1 as (-> & _). unfold program_join in H. rewrite Er in H. cbn in H. rewrite Hms in H. cbn in H.
    unfold lift in H. injection H as H _. unfold Store.buildProgramRecord in H.
    destruct (ParseProgramType _) as [pt|e2] eqn:Ep; cbn in H.
    + destruct (p_image_source row) as [i|]; cbn in H; [destruct (ImagePullPolicy_Valid _); cbn in H|]; try done. by injection H as <-.
    + unfold ParseProgramType in Ep. case_bool_decide; [done|]. injection Ep as <-. by injection H as <-.
  - injection H as <- <-. apply query_err_not_found in E1. by unfold isNotFound in E1; rewrite He in E1.
Qed.

(** A first Save writes the row and nothing else about programs and links. *)
Lemma Save_rows id p s s' :
  db_programs (st_db s) !! id = None -> Save id p s = (Ok tt, s') ->
  db_programs (st_db s') = <[id := program_row p (default id (ph_MapOwnerID (pr_Handles p)))]> (db_programs (st_db s)) /\
  db_links (st_db s') = db_links (st_db s).
Proof.
  intros Hn H. unfold Save in H. step_ok H ms s1 E1.
  assert (Hms : ms = default id (ph_MapOwnerID (pr_Handles p)) /\ db_programs (st_db s1) = db_programs (st_db s) /\ db_links (st_db s1) = db_links (st_db s)).
  { destruct (ph_MapOwnerID (pr_Handles p)) as [o|]; [unfold ret in E1; by injection E1 as <- <-|].
    step_ok E1 found s2 E2. apply query_ok in E2 as (-> & Hd & _). rewrite Hn in E1.
    rewrite bool_decide_false in E1 by (by intros []). step_ok E1 u s3 E3. unfold ret in E1. injection E1 as <- <-.
    unfold insertSelfOwnedMapSet in E3. destruct (stmt _ s2) as [[v|e] s4] eqn:E4; [|by repeat case_match]. injection E3 as _ <-.
    apply stmt_ok in E4 as (d & E4 & Hd4 & _). unfold insert_map_set in E4. apply check_ok in E4 as [_ E4]. injection E4 as _ <-.
    rewrite Hd4, Hd. done. }
  destruct Hms as (-> & Hp & Hl). apply wrapping_ok, stmt_ok in H as (d & H & -> & _). unfold save_program in H.
  do 3 apply check_ok in H as [_ H]. injection H as <-. cbn. by rewrite Hp, Hl, Hn.
Qed.

Lemma save_shared_rows d0 id names : forall s u s',
  calm base d0 (st_db s) -> SaveSharedMapPins id names s = (Ok u, s') ->
  calm base d0 (st_db s') /\ db_programs (st_db s') = db_programs (st_db s) /\ db_links (st_db s') = db_links (st_db s).
Proof.
  unfold SaveSharedMapPins. induction names as [|n names IH]; intros s u s' Hc H; cbn [for_each] in H; [by injection H as _ <-|].
  step_ok H u1 s1 E1. apply wrapping_ok, stmt_ok in E1 as (d & E1 & Hd & _). pose proof (save_shared_calm _ _ _ _ _ _ _ Hc E1) as Hc1.
  unfold save_shared_map_pin in E1. apply check_ok in E1 as [_ E1]. injection E1 as _ <-. rewrite <- Hd in Hc1.
  apply IH in H as (Hc' & Hp & Hl); [|done]. split; [done|]. by rewrite Hp, Hl, Hd.
Qed.

(** One program of phase B. *)
Lemma saveItem_ok opts spec p it d0 s u s' :
  calm base d0 (st_db s) -> item_for base opts spec p it -> saveItem it s = (Ok u, s') ->
  calm base d0 (st_db s') /\ db_programs (st_db s) !! li_id it = None /\
  db_programs (st_db s') = <[li_id it := saved_row it]> (db_programs (st_db s)) /\ db_links (st_db s') = db_links (st_db s).
Proof.
  intros Hc Hit H. destruct (item_apart _ _ _ _ _ Hit) as [Hpin Hdir]. pose proof (item_id _ _ _ _ _ Hit) as Hid.
  unfold saveItem in H. unfold bind at 1, attempt in H. destruct (Store.Get (li_id it) s) as [[x|e] s1] eqn:E1; [done|].
  destruct (errors_Is e ErrRecordNotFound) eqn:He; [|done]. cbn [negb] in H.
  pose proof (Get_missing _ _ _ _ (proj1 Hc) E1 He) as Hn.
  assert (Hd1 : st_db s1 = st_db s).
  { unfold Store.Get, bind in E1. destruct (query _ s) as [[y|e1] s2] eqn:E2.
    - apply query_ok in E2 as (_ & Hd & _). destruct y as [[]|]; by injection E1 as _ <-.
    - injection E1 as _ <-. by apply stmt_err in E2 as [-> _]. }
  step_ok H u1 s2 E2. destruct u1. apply wrapping_ok in E2. rewrite <- Hd1 in Hc, Hn.
  pose proof (Save_rows _ _ _ _ Hn E2) as [Hp Hl]. apply (Save_calm base d0) in E2 as Hc2; [|done..].
  assert (Hset : default (li_id it) (ph_MapOwnerID (pr_Handles (li_record it))) = record_map_set (li_record it)) by (unfold record_map_set; by rewrite Hid).
  rewrite Hset, Hd1 in Hp. rewrite Hd1 in Hl, Hn. fold (saved_row it) in Hp.
  destruct (lo_SharedMapNames (li_out it)) as [|nm names]; [injection H as _ <-; done|].
  apply wrapping_ok, (save_shared_rows d0) in H as (Hc3 & Hp3 & Hl3); [|done]. by rewrite Hp3, Hl3.
Qed.

Definition save_rows (its : list loadedItem) (t : gmap Z programRow) : gmap Z programRow :=
  foldl (fun t it => <[li_id it := saved_row it]> t) t its.

(** The whole transaction: the IDs are new and distinct. *)
Lemma saveItems_ok opts d0 xs : forall specs s u s',
  calm base d0 (st_db s) -> Forall2 (fun spec x => item_for base opts spec x.1 x.2) specs xs -> for_each xs.*2 saveItem s = (Ok u, s') ->
  calm base d0 (st_db s') /\ db_programs (st_db s') = save_rows xs.*2 (db_programs (st_db s)) /\ db_links (st_db s') = db_links (st_db s) /\
  NoDup (li_id <$> xs.*2) /\ Forall (fun it => db_programs (st_db s) !! li_id it = None) xs.*2.
Proof.
  induction xs as [|x xs IH]; intros specs s u s' Hc HF H; cbn in H; [injection H as _ <-; do 3 (split; [done|]); split; [apply NoDup_nil_2|by apply Forall_nil]|].
  apply Forall2_cons_inv_r in HF as (spec & specs' & Hit & HF & ->). step_ok H u1 s1 E1.
  eapply saveItem_ok in E1 as (Hc1 & Hn & Hp & Hl); [|exact Hc|exact Hit].
  apply IH with (specs := specs') in H as (Hc' & Hp' & Hl' & Hnd & Hall); [|done|done].
  split; [done|]. cbn [fmap list_fmap save_rows foldl]. rewrite Hp', Hl', Hp, Hl. split; [done|]. split; [done|]. rewrite Hp in Hall.
  assert (Hother : Forall (fun it => li_id it <> li_id x.2 /\ db_programs (st_db s) !! li_id it = None) xs.*2).
  { eapply Forall_impl; [exact Hall|]. intros it [Hi Hne]%lookup_insert_None. done. }
  split; constructor; [|done|done|].
  - intros Hin. apply list_elem_of_fmap in Hin as (it & Hit' & Hin). rewrite list.Forall_forall in Hother. destruct (Hother _ Hin) as [Hne _]. congruence.
  - eapply Forall_impl; [exact Hother|]. by intros it [].
Qed.

Lemma commitItems_ok opts specs xs d0 s u s' :
  calm base d0 (st_db s) -> Forall2 (fun spec x => item_for base opts spec x.1 x.2) specs xs -> commitItems xs.*2 s = (Ok u, s') ->
  calm base d0 (st_db s') /\ db_programs (st_db s') = save_rows xs.*2 (db_programs (st_db s)) /\ db_links (st_db s') = db_links (st_db s) /\
  NoDup (li_id <$> xs.*2) /\ Forall (fun it => db_programs (st_db s) !! li_id it = None) xs.*2.
Proof.
  intros Hc HF H. unfold commitItems in H. step_ok H u1 s1 E1. step_ok H recs s2 E2. injection H as _ <-.
  assert (st_db s2 = st_db s1) as ->; [|by eapply saveItems_ok].
  apply wrapping_ok in E2. unfold List_ in E2. step_ok E2 rows s3 E3. apply query_ok in E3 as (_ & Hd & _). step_ok E2 rs s4 E4.
  apply lift_ok in E4 as [_ ->]. by injection E2 as _ <-.
Qed.

(** The clean-up keeps the rows. *)
Lemma batch_rows opts specs loaded items t ls : Forall (apart_program base) loaded ->
  gmoves (fun w : W => holds (rows_are t ls) (w_store w)) (fun _ w' => holds (rows_are t ls) (w_store w')) (loadLoop base opts specs loaded items) /\
  moves (fun w : W => holds (rows_are t ls) (w_store w)) (fun _ w' => holds (rows_are t ls) (w_store w')) (cleanupLoaded base loaded).
Proof.
  intros Hl.
  assert (Hq : forall A (m : M store A), (forall d0, keeps (eq d0) m) ->
    moves (fun w : W => holds (rows_are t ls) (w_store w)) (fun _ w' => holds (rows_are t ls) (w_store w')) (onS m)).
  { intros A m Hm. apply rows_onS. intros s r s' [Htx HI] H. destruct (Hm _ _ _ _ (conj Htx eq_refl) H) as [? Hd]. split; [done|]. by rewrite <- Hd. }
  split; [apply loadLoop_moves|apply cleanupLoaded_moves]; try done; try apply _; try (intros; apply stays_onK); intros; apply cleanupShared_rows.
Qed.

Lemma batch_quiet opts specs loaded items : Forall (apart_program base) loaded ->
  gmoves (sound base) (undisturbed base) (loadLoop (K:=K) base opts specs loaded items) /\
  moves (sound base) (undisturbed base) (cleanupLoaded (K:=K) base loaded).
Proof.
  intros Hl. split; [apply loadLoop_moves|apply cleanupLoaded_moves]; try done; try apply _;
    try (intros; by apply quiet_onK); try (intros; by apply quiet_query); intros; apply cleanupShared_quiet.
Qed.

(** ** The contract *)

(** A loaded program has the record its specification and the kernel's answer
    give, with the pins where the layout has them. *)
Definition loaded_program (opts : LoadOpts) (spec : LoadSpec) (p : Program_) : Prop :=
  exists lo prog now, loaded_as base spec lo prog /\
    pg_Record p = Load.buildProgramRecord base spec lo (kp_ID prog) (mkloadOpts (lop_UserMetadata opts) (lop_Owner opts)) now.

Definition with_program_rows (progs : list Program_) (t : gmap Z programRow) : gmap Z programRow :=
  foldl (fun t p => <[pr_ProgramID (pg_Record p) := program_row (pg_Record p) (record_map_set (pg_Record p))]> t) t progs.

(** A new row for every program, no other row changed. *)
Definition batch_saved (progs : list Program_) w w' : Prop :=
  db_programs (st_db (w_store w')) = with_program_rows progs (db_programs (st_db (w_store w))) /\
  NoDup ((fun p => pr_ProgramID (pg_Record p)) <$> progs) /\
  Forall (fun p => db_programs (st_db (w_store w)) !! pr_ProgramID (pg_Record p) = None) progs.

Lemma saved_programs opts specs members xs t w w' :
  Forall2 (fun spec x => item_for base (mkloadOpts (lop_UserMetadata opts) (lop_Owner opts)) spec x.1 x.2) specs xs ->
  t = db_programs (st_db (w_store w)) -> db_programs (st_db (w_store w')) = save_rows xs.*2 t ->
  NoDup (li_id <$> xs.*2) -> Forall (fun it => t !! li_id it = None) xs.*2 ->
  Forall2 (loaded_program opts) specs (with_used_by members <$> xs.*1) /\ batch_saved (with_used_by members <$> xs.*1) w w'.
Proof.
  intros HF -> Hrows Hnd Hall.
  assert (Hx : Forall (fun x => pg_Record x.1 = li_record x.2 /\ pr_ProgramID (li_record x.2) = li_id x.2) xs).
  { apply list.Forall_forall. intros x [i Hi]%list_elem_of_lookup_1. eapply Forall2_lookup_r in HF as (spec & _ & Hit); [|exact Hi].
    split; [by apply if_program in Hit|by eapply item_id]. }
  assert (Hids : (fun p => pr_ProgramID (pg_Record p)) <$> (with_used_by members <$> xs.*1) = li_id <$> xs.*2).
  { rewrite <- !list_fmap_compose. apply list_fmap_ext. intros i x Hi. cbn. rewrite list.Forall_forall in Hx.
    destruct (Hx x) as [-> ->]; [by eapply list_elem_of_lookup_2|done]. }
  split; [|split; [|split]].
  - rewrite <- list_fmap_compose, Forall2_fmap_r. eapply list.Forall2_impl; [exact HF|]. intros spec x [[now Hrec] Hp (prog & Hl & Hid)].
    exists (li_out x.2), prog, now. split; [done|]. cbn. by rewrite Hp, Hrec, Hid.
  - rewrite Hrows. clear -Hx. generalize (db_programs (st_db (w_store w))) as t. induction Hx as [|x xs [Hp Hid] _ IH]; intros t; [done|].
    unfold save_rows, with_program_rows in *. cbn [fmap list_fmap foldl] in *. rewrite IH.
    unfold saved_row. cbn [with_used_by pg_Record]. by rewrite Hp, Hid.
  - by rewrite Hids.
  - apply list.Forall_forall. intros p Hp. apply (list_elem_of_fmap_2 (fun p => pr_ProgramID (pg_Record p))) in Hp. rewrite Hids in Hp.
    apply list_elem_of_fmap in Hp as (it & -> & Hit). rewrite list.Forall_forall in Hall. by apply Hall.
Qed.

Lemma loadBody_cases specs opts w o w' :
  coherent base w -> loadBody base specs opts w = (o, w') ->
  exists r, o = Ret r /\ coherent base w' /\ links_of w' = links_of w /\
    match r with
    | Ok progs => Forall2 (loaded_program opts) specs progs /\ batch_saved progs w w'
    | Err _ => db_programs (st_db (w_store w')) = db_programs (st_db (w_store w))
    end.
Proof.
  intros Hc H. pose proof (coherent_sound base w Hc) as Hs.
  set (t := db_programs (st_db (w_store w))). set (ls := links_of w).
  assert (Hrows0 : holds (rows_are t ls) (w_store w)) by (split; [apply Hs|done]).
  unfold loadBody in H. unfold gbind at 1 in H. destruct (loadLoop base _ specs [] [] w) as [ol w1] eqn:E1.
  destruct (batch_quiet (mkloadOpts (lop_UserMetadata opts) (lop_Owner opts)) specs [] [] (Forall_nil_2 _)) as [Hq _].
  destruct (batch_rows (mkloadOpts (lop_UserMetadata opts) (lop_Owner opts)) specs [] [] t ls (Forall_nil_2 _)) as [Hr _].
  destruct (Hq _ _ _ Hs E1) as [[rl ->] Hu1]. destruct (Hr _ _ _ Hrows0 E1) as [_ Hrows1].
  destruct rl as [[loaded items]|e].
  2:{ injection H as <- <-. eexists. split; [done|]. split; [by eapply undisturbed_coherent|]. by destruct Hrows1 as (_ & ? & ?). }
  apply loadLoop_ok in E1 as (Hst1 & xs & HF & -> & ->). cbn [app] in H.
  assert (Hap : Forall (apart_program base) xs.*1).
  { apply list.Forall_forall. intros p (x & -> & [i Hi]%list_elem_of_lookup_1)%list_elem_of_fmap.
    eapply Forall2_lookup_r in HF as (spec & _ & Hit); [|exact Hi]. unfold apart_program. rewrite (if_program _ _ _ _ _ Hit). by eapply item_apart. }
  unfold gbind, gattempt, call in H. unfold onS in H. destruct (runInTx (commitItems xs.*2) (w_store w1)) as [rc s2] eqn:E2.
  destruct rc as [members|e].
  - injection H as <- <-. eexists. split; [done|]. rewrite Hst1 in E2. pose proof Hs as (Htx & Hok & Hpl).
    apply runInTx_ok in E2 as (sa & sb & Hda & _ & Hfn & Hdb & Htx2); [|done].
    destruct (undisturbed_refl base w Hs) as [[_ Hcalm] _].
    eapply (commitItems_ok _ _ _ (st_db (w_store w))) in Hfn as (Hc2 & Hp2 & Hl2 & Hnd & Hall); [|by rewrite Hda|exact HF].
    rewrite Hda in Hp2, Hl2, Hall. rewrite <- Hdb in Hc2, Hp2, Hl2.
    split; [|split; [exact Hl2|]].
    + eapply undisturbed_coherent; [exact Hc|]. destruct Hu1 as [_ Hpins]. split; [by split|exact Hpins].
    + by eapply saved_programs.
  - destruct (batch_quiet (mkloadOpts (lop_UserMetadata opts) (lop_Owner opts)) [] xs.*1 [] Hap) as [_ Hq2].
    destruct (batch_rows (mkloadOpts (lop_UserMetadata opts) (lop_Owner opts)) [] xs.*1 [] t ls Hap) as [_ Hr2].
    destruct (cleanupLoaded base xs.*1 (mkWorld (w_kernel w1) s2 (w_log w1))) as [r3 w3] eqn:E3.
    assert (Hout : (exists e', o = Ret (Err e')) /\ w' = w3) by (destruct r3; injection H as <- <-; split; eauto). destruct Hout as [[e' ->] ->].
    apply runInTx_err in E2 as [Hd2 Htx2]; [|apply Hrows1].
    assert (Hu2 : undisturbed base w (mkWorld (w_kernel w1) s2 (w_log w1))).
    { destruct Hu1 as [(Htx1 & Hcalm1) Hpins]. split; [|exact Hpins]. split; [done|]. cbn. by rewrite Hd2. }
    assert (Hrows2 : holds (rows_are t ls) s2) by (split; [done|]; rewrite Hd2; apply Hrows1).
    eexists. split; [done|]. apply Hr2 in E3 as Hrows3; [|exact Hrows2]. apply Hq2 in E3 as Hu3; [|by eapply undisturbed_sound].
    split; [|by destruct Hrows3 as (_ & ? & ?)]. eapply undisturbed_coherent; [exact Hc|]. by eapply undisturbed_trans.
Qed.

(** C4: a batch load is atomic. The body of Load returns (it never panics),
    every dispatcher keeps being served and no link row changes, whatever the
    kernel and the file system refuse and wherever it fails. When it fails the
    program rows are exactly what they were. When it succeeds there is one
    program per specification, in order, with the record built from what the
    kernel loaded; the IDs are distinct and were unused, and the rows of the
    store are the old ones plus one per program, all written in the one
    transaction. *)
Theorem loadBody_contract specs opts w o w' :
  coherent base w -> loadBody base specs opts w = (o, w') ->
  exists r, o = Ret r /\ coherent base w' /\ links_of w' = links_of w /\
    match r with
    | Ok progs => Forall2 (loaded_program opts) specs progs /\ batch_saved progs w w'
    | Err _ => db_programs (st_db (w_store w')) = db_programs (st_db (w_store w))
    end.
Proof. apply loadBody_cases. Qed.
End Body.
