(* ===== verification/Delete.v ===== *)
(** * Batch deletion (manager/delete.go)

    Programs are deleted with their links, dependents before the program
    whose maps they share; links are detached and a program left without
    links is deleted too. What a batch has already removed is shared by all
    its steps ([deleteBatch] holds Go maps), so the removed sets are threaded
    through. Recursion over dependents is bounded by [fuel]; running out of it
    stands for Go's stack overflow. *)

From Stdlib Require Import ZArith Lia String.
From stdpp Require Import base tactics sets list gmap strings numbers sorting.
From S2P Require Import Prelude Actions Dispatcher Domain Slots Layout Operation Planning Platform Executor Bytecode.
From S2P Require Import StoreDb Store StoreSpec Inspect Manager.

Local Open Scope string_scope.
Local Open Scope list_scope.
Local Open Scope Z_scope.

Record DeleteProgramsOpts := mkDeleteProgramsOpts { dpo_Recursive : bool; dpo_All : bool }.
Record DeleteProgramResult := mkDeleteProgramResult { dpr_ProgramID : Z; dpr_Err : option error }.
Record DeleteLinkResult := mkDeleteLinkResult { dlr_LinkID : Z; dlr_Err : option error }.

Record deleteOutcome := mkDeleteOutcome { do_programs : list Z; do_links : list Z }.
Definition no_deletions : deleteOutcome := mkDeleteOutcome [] [].
Definition merge_outcome (d other : deleteOutcome) : deleteOutcome :=
  mkDeleteOutcome (do_programs d ++ do_programs other) (do_links d ++ do_links other).

(** The mutable part of [deleteBatch]. *)
Record removedState := mkRemovedState { rm_programs : gset Z; rm_links : gset Z }.

(** What a deletion step returns: the outcome with an error, or none. *)
Abbreviation stepResult := (removedState * deleteOutcome * option error)%type.

Definition err_of {A} (r : result A) : option error := match r with Ok _ => None | Err e => Some e end.

Section Delete.
Context {K : Type} `{!KernelOps K} {NC : NetConsts}.
Context (base : path).
Context (KernelLinks : K -> list (result kernelLink)) (Scan : K -> fsScan).
Abbreviation W := (world K store).

Definition programDependentsByOwner (recursive : bool) : M W (gmap Z (list Z)) :=
  if recursive then
    let* result := wrapping "list programs: %w" (ListPrograms KernelLinks Scan []) in
    ret (dependentsByOwner (pg_Record <$> result))
  else ret ∅.

Definition ResolveDeleteProgramIDs (all : bool) (explicit : list Z) : M W (list Z) :=
  if negb all then ret explicit
  else
    let* result := wrapping "list programs: %w" (ListPrograms KernelLinks Scan []) in
    ret ((fun p => pr_ProgramID (pg_Record p)) <$> result).

(** The links of a program, detached one by one. *)
Fixpoint detachLinks (links : list LinkRecord) (st : removedState) (deleted : deleteOutcome)
    : GoM W stepResult :=
  match links with
  | [] => gret (st, deleted, None)
  | link :: links' =>
      let^ r := gattempt (gwrapping "detach link %d: %w" (Detach base (lr_ID link))) in
      match r with
      | Err e => gret (st, deleted, Some e)
      | Ok _ => detachLinks links' (mkRemovedState (rm_programs st) ({[lr_ID link]} ∪ rm_links st))
                  (mkDeleteOutcome (do_programs deleted) (do_links deleted ++ [lr_ID link]))
      end
  end.

(** [deleteDependents] with the recursive call as an argument. *)
Fixpoint deleteDependents (deleteProgram : Z -> removedState -> GoM W stepResult) (dependents : list Z)
    (st : removedState) (deleted : deleteOutcome) : GoM W stepResult :=
  match dependents with
  | [] => gret (st, deleted, None)
  | d :: ds =>
      if bool_decide (d ∈ rm_programs st) then deleteDependents deleteProgram ds st deleted
      else
        let^ r := deleteProgram d st in
        let '(st', dependents', err) := r in
        let deleted' := merge_outcome deleted dependents' in
        match err with
        | Some e => gret (st', deleted', Some (Wrap "delete dependent program %d: %w" e))
        | None => deleteDependents deleteProgram ds st' deleted'
        end
  end.

(** From the dependents to the unload of the program itself. *)
Definition deleteSelf (programID : Z) (st : removedState) (deleted : deleteOutcome) : GoM W stepResult :=
  let^ links := gattempt (call (wrapping "list links: %w" (onS (ListLinksByProgram programID)))) in
  match links with
  | Err e => gret (st, deleted, Some e)
  | Ok links =>
      let^ r := detachLinks links st deleted in
      let '(st', deleted', err) := r in
      match err with
      | Some e => gret (st', deleted', Some e)
      | None =>
          let^ u := gattempt (call (wrapping "unload: %w" (Unload base programID))) in
          match u with
          | Err e => gret (st', deleted', Some e)
          | Ok _ => gret (mkRemovedState ({[programID]} ∪ rm_programs st') (rm_links st'),
                          mkDeleteOutcome (do_programs deleted' ++ [programID]) (do_links deleted'), None)
          end
      end
  end.

Fixpoint deleteProgram (fuel : nat) (deps : gmap Z (list Z)) (recursive : bool) (programID : Z)
    (st : removedState) : GoM W stepResult :=
  match fuel with
  | O => gpanic
  | S n =>
      if bool_decide (programID ∈ rm_programs st) then gret (st, no_deletions, None)
      else
        let^ r := (if recursive
                   then deleteDependents (deleteProgram n deps true) (default [] (deps !! programID)) st no_deletions
                   else gret (st, no_deletions, None)) in
        let '(st', deleted, err) := r in
        match err with
        | Some e => gret (st', deleted, Some e)
        | None => deleteSelf programID st' deleted
        end
  end.

Definition deleteLink (fuel : nat) (deps : gmap Z (list Z)) (recursive : bool) (linkID : Z) (st : removedState)
    : GoM W stepResult :=
  if bool_decide (linkID ∈ rm_links st) then gret (st, no_deletions, None)
  else
    let^ link := gattempt (call (wrapping "get link: %w" (getLink linkID))) in
    match link with
    | Err e => gret (st, no_deletions, Some e)
    | Ok link =>
        let programID := lr_ProgramID link in
        let^ d := gattempt (gwrapping "detach: %w" (Detach base linkID)) in
        match d with
        | Err e => gret (st, no_deletions, Some e)
        | Ok _ =>
            let st := mkRemovedState (rm_programs st) ({[linkID]} ∪ rm_links st) in
            let^ links := gattempt (call (wrapping "list links for program %d: %w"
                                            (onS (ListLinksByProgram programID)))) in
            match links with
            | Err e => gret (st, no_deletions, Some e)
            | Ok [] =>
                let^ r := deleteProgram fuel deps recursive programID st in
                let '(st', orphaned, err) := r in
                gret (st', merge_outcome (mkDeleteOutcome [] [linkID]) orphaned,
                      Wrap "delete orphaned program %d: %w" <$> err)
            | Ok _ => gret (st, mkDeleteOutcome [] [linkID], None)
            end
        end
    end.

Fixpoint deleteProgramsLoop (fuel : nat) (deps : gmap Z (list Z)) (recursive : bool) (ids : list Z)
    (st : removedState) : GoM W (list DeleteProgramResult) :=
  match ids with
  | [] => gret []
  | id :: ids' =>
      if bool_decide (id ∈ rm_programs st) then
        let^ rest := deleteProgramsLoop fuel deps recursive ids' st in
        gret (mkDeleteProgramResult id None :: rest)
      else
        let^ r := deleteProgram fuel deps recursive id st in
        let '(st', _, err) := r in
        let^ rest := deleteProgramsLoop fuel deps recursive ids' st' in
        gret (mkDeleteProgramResult id err :: rest)
  end.

(** [orderProgramDeletes] always has an order. *)
Definition DeletePrograms (fuel : nat) (ids : list Z) (opts : DeleteProgramsOpts)
    : GoM W (list DeleteProgramResult) :=
  let expandDependents := dpo_Recursive opts || dpo_All opts in
  let orderDependentsFirst := expandDependents || (1 <? length ids)%nat in
  let^ deps := gattempt (call (programDependentsByOwner orderDependentsFirst)) in
  match deps with
  | Err e => gret ((fun id => mkDeleteProgramResult id (Some e)) <$> ids)
  | Ok deps =>
      deleteProgramsLoop fuel deps expandDependents (default ids (orderProgramDeletes ids deps))
        (mkRemovedState ∅ ∅)
  end.

Fixpoint deleteLinksLoop (fuel : nat) (deps : gmap Z (list Z)) (recursive : bool) (ids : list Z)
    (st : removedState) : GoM W (list DeleteLinkResult) :=
  match ids with
  | [] => gret []
  | id :: ids' =>
      if bool_decide (id ∈ rm_links st) then
        let^ rest := deleteLinksLoop fuel deps recursive ids' st in
        gret (mkDeleteLinkResult id None :: rest)
      else
        let^ r := deleteLink fuel deps recursive id st in
        let '(st', _, err) := r in
        let^ rest := deleteLinksLoop fuel deps recursive ids' st' in
        gret (mkDeleteLinkResult id err :: rest)
  end.

Definition DeleteLinks (fuel : nat) (ids : list Z) (recursive : bool) : GoM W (list DeleteLinkResult) :=
  let^ deps := gattempt (call (programDependentsByOwner recursive)) in
  match deps with
  | Err e => gret ((fun id => mkDeleteLinkResult id (Some e)) <$> ids)
  | Ok deps => deleteLinksLoop fuel deps recursive ids (mkRemovedState ∅ ∅)
  end.
End Delete.
