(* ===== verification/SimKernel.v ===== *)
(** * A simulated kernel

    A concrete, executable kernel state satisfying [KernelLaws]: pins and
    filters as the view has them, a counter for fresh IDs, and a script of
    refusals. It shows that the laws are satisfiable together and lets every
    theorem about the executor be run on concrete inputs. *)

From Stdlib Require Import ZArith Lia String.
From stdpp Require Import base tactics sets list gmap strings numbers.
From S2P Require Import Prelude Actions Dispatcher Domain Slots Layout Platform.

Local Open Scope string_scope.
Local Open Scope list_scope.
Local Open Scope Z_scope.

Record sim := mkSim { sim_view : kview; sim_next : Z; sim_refuse : list bool }.

Definition sim_init (pins : list (path * kobj)) (refuse : list bool) : sim :=
  mkSim (mkKview (list_to_map pins) ∅) 100 refuse.

(** The next request, unless the script refuses it. *)
Definition sim_do {A} (m : M sim A) : M sim A :=
  fun k => match sim_refuse k with
           | true :: rs => (Err (Errorf "refused"), mkSim (sim_view k) (sim_next k) rs)
           | false :: rs => m (mkSim (sim_view k) (sim_next k) rs)
           | [] => m k
           end.

Definition sim_update (f : kview -> kview) (k : sim) : sim :=
  mkSim (f (sim_view k)) (sim_next k) (sim_refuse k).

Definition sim_fresh (f : kview -> kview) (k : sim) : sim :=
  mkSim (f (sim_view k)) (sim_next k + 1) (sim_refuse k).

(** Pin a fresh object at a free path; its ID is the answer. *)
Definition sim_pin (p : path) (obj : Z -> kobj) : M sim Z :=
  sim_do (fun k =>
    match kv_pins (sim_view k) !! p with
    | Some _ => (Err (Errorf "file exists"), k)
    | None => (Ok (sim_next k), sim_fresh (pin p (obj (sim_next k))) k)
    end).

Definition pinned_prog (v : kview) (p : path) : option Z := o ← kv_pins v !! p; prog_id o.

Definition sim_extension (s : ExtensionAttachSpec) : M sim AttachOutput :=
  sim_do (fun k =>
    match pinned_prog (sim_view k) (xs_DispatcherPinPath s), pinned_prog (sim_view k) (xs_ProgPinPath s),
          kv_pins (sim_view k) !! xs_LinkPinPath s with
    | Some disp, Some prog, None =>
        (Ok (mkAttachOutput (Some (sim_next k)) (Some (sim_next k)) (xs_LinkPinPath s)),
         sim_fresh (pin (xs_LinkPinPath s) (KExtension (sim_next k) disp (xs_Position s) prog)) k)
    | _, _, _ => (Err (Errorf "attach extension"), k)
    end).

Definition sim_create_link (pp : path) (ifindex : Z) (lp : path) (ns : string) : M sim XDPDispatcherResult :=
  sim_do (fun k =>
    match pinned_prog (sim_view k) pp, kv_pins (sim_view k) !! lp with
    | Some id, None =>
        (Ok (mkXDPDispatcherResult id (sim_next k) pp lp),
         sim_fresh (pin lp (KOuterLink (sim_next k) id)) k)
    | _, _ => (Err (Errorf "create link"), k)
    end).

Definition sim_update_link (lp pp : path) : M sim unit :=
  sim_do (fun k =>
    match pinned_prog (sim_view k) pp, kv_pins (sim_view k) !! lp with
    | Some id, Some (KOuterLink lid _) => (Ok tt, sim_update (pin lp (KOuterLink lid id)) k)
    | _, _ => (Err (Errorf "update link"), k)
    end).

#[export] Instance sim_consts : NetConsts :=
  {| HANDLE_MIN_INGRESS := 4294967282; HANDLE_MIN_EGRESS := 4294967283 |}.

(** The caller's namespace is 4026531840; any other path is one other namespace. *)
Definition sim_ns (p : string) : Z := if String.eqb p "" then 4026531840 else 4026532000.

Definition sim_create_filter (pp : path) (ifindex : Z) (ifname dir ns : string) (h : Z)
    : M sim TCDispatcherResult :=
  sim_do (fun k =>
    let h' := if h =? 0 then sim_next k mod 2 ^ 32 else h in
    let f := (sim_ns ns, ifindex, dir_parent dir, tcDispatcherPriority, h') in
    match pinned_prog (sim_view k) pp, kv_filters (sim_view k) !! f with
    | Some id, None =>
        if (0 <? h') && (h' <? 2 ^ 32)
        then (Ok (mkTCDispatcherResult id pp h' tcDispatcherPriority), sim_fresh (add_filter f id) k)
        else (Err (Errorf "handle"), k)
    | _, _ => (Err (Errorf "create filter"), k)
    end).

Definition sim_drop (f : kview -> kview) : M sim unit := sim_do (fun k => (Ok tt, sim_update f k)).

Definition sim_const {A} (a : A) : M sim A := sim_do (fun k => (Ok a, k)).

(** Attach of a standalone program: its link is pinned at [lp]. *)
Definition sim_attach (pp lp : path) : M sim AttachOutput :=
  sim_do (fun k =>
    match pinned_prog (sim_view k) pp, kv_pins (sim_view k) !! lp with
    | Some _, None => (Ok (mkAttachOutput (Some (sim_next k)) (Some (sim_next k)) lp),
                       sim_fresh (pin lp KOther) k)
    | _, _ => (Err (Errorf "attach"), k)
    end).

(** The loaded programs are the pinned ones. *)
Definition sim_programs (k : sim) : list Z :=
  omap (fun x => prog_id x.2) (map_to_list (kv_pins (sim_view k))).

Definition sim_get_program (id : Z) : M sim kernelProgram :=
  sim_do (fun k => if bool_decide (id ∈ sim_programs k) then (Ok (mkKernelProgram id "" "" []), k)
                   else (Err (Sentinel ErrNotExist), k)).

(** Load pins the program under its fresh ID and, unless it shares the maps
    of an owner, one map of its own. *)
Definition sim_load (spec : LoadSpec) (base : path) : M sim LoadOutput :=
  sim_do (fun k =>
    let id := Z.abs (sim_next k) in
    let own := mapOwnerID spec =? 0 in
    let dir := MapPinDir base (if own then id else mapOwnerID spec) in
    match kv_pins (sim_view k) !! ProgPinPath base id with
    | Some _ => (Err (Errorf "failed to pin program"), k)
    | None =>
        (Ok (mkLoadOutput (ProgPinPath base id) dir (Some (mkKernelProgram id (programName spec) "" []))
               "GPL" (programType spec) []),
         sim_fresh (fun v => pin (ProgPinPath base id) (KProg id)
                               (if own then pin (dir ++ ["map"]) KOther v else v)) k)
    end).

(** No program has a bytecode directory; every other file is a regular one. *)
Definition sim_stat (p : string) : M sim FileInfo :=
  sim_do (fun k => if String.prefix "/run/bpfman/programs/" p then (Err (Sentinel ErrNotExist), k)
                   else (Ok (mkFileInfo true false), k)).

#[export] Instance sim_ops : KernelOps sim := {|
  LoadAndPinXDPDispatcher cfg p := sim_pin p (fun id => KXDPDispatcher id cfg);
  LoadAndPinTCDispatcher cfg p := sim_pin p (fun id => KTCDispatcher id cfg);
  AttachXDPExtension := sim_extension;
  AttachTCExtension := sim_extension;
  GetExtensionLinkInfo p := sim_const (mkExtensionLinkInfo 0 0 0 0);
  CreateXDPLink := sim_create_link;
  UpdateXDPDispatcherLink := sim_update_link;
  CreateTCFilter := sim_create_filter;
  DetachTCFilter ifindex _ parent prio h ns := sim_drop (del_filter (sim_ns ns, ifindex, parent, prio, h));
  RemoveTCClsactIfUnused _ _ _ := sim_const tt;
  DetachLink p := sim_drop (unpin p);
  RemovePin p := sim_drop (unpin p);
  AttachTracepoint pp _ _ lp := sim_attach pp lp;
  AttachKprobe pp _ _ _ lp := sim_attach pp lp;
  AttachUprobeLocal pp _ _ _ _ _ lp := sim_attach pp lp;
  AttachUprobeContainer _ pp _ _ _ _ _ lp _ := sim_attach pp lp;
  AttachFentry pp _ lp := sim_attach pp lp;
  AttachFexit pp _ lp := sim_attach pp lp;
  AttachTCX _ _ pp lp _ _ := sim_attach pp lp;
  KLoad := sim_load;
  KUnload p := sim_drop (unpin_under p);
  InterfaceByName name _ := sim_const 2;
  ListTracepoints := sim_const [];
  NSID p := sim_const (sim_ns p);
  GetProgramByID id := sim_get_program id;
  Programs k := (fun id => Ok (mkKernelProgram id "" "" [])) <$> sim_programs k;
  GetMapByID id := sim_const (mkKernelMap id "map");
  HasPinByName _ := sim_const false;
  acquireWriter := sim_const tt;
  time_Now _ := 1700000000;
  os_Stat := sim_stat;
  os_Remove p := sim_drop (unpin p);
  os_RemoveAll p := sim_drop (unpin_under p);
  os_MkdirAll _ := sim_const tt;
  os_MkdirTemp d _ := sim_const (d ++ ["pub-1"]);
  os_Rename _ _ := sim_const tt;
  copyFile _ _ := sim_const tt;
  writeJSON _ _ := sim_const tt;
|}.

(** ** The laws *)

Lemma sim_do_spec {A} (m : M sim A) k r k' :
  sim_do m k = (r, k') ->
  (sim_view k' = sim_view k /\ exists e, r = Err e) \/
  exists k1, sim_view k1 = sim_view k /\ m k1 = (r, k').
Proof.
  unfold sim_do. destruct (sim_refuse k) as [|[] rs]; intros H.
  - right. by exists k.
  - left. simplify_eq. eauto.
  - right. eexists. split; [|exact H]. done.
Qed.

(** Resolve a simulated request in a hypothesis. *)
Ltac sim_step H :=
  apply sim_do_spec in H as [[Hv [e' He]]|(k1 & Hv & H)];
  [try discriminate He; try (exact Hv)|rewrite <- ?Hv; cbn in H].

Lemma sim_const_reads {A} (a : A) : reads sim_view (sim_const a).
Proof.
  intros k. destruct (sim_const a k) as [r k'] eqn:E. apply sim_do_spec in E as [[Hv _]|(k1 & Hv & H)]; [done|].
  by simplify_eq.
Qed.

Lemma sim_pin_ok p obj k id k' :
  sim_pin p obj k = (Ok id, k') ->
  kv_pins (sim_view k) !! p = None /\ sim_view k' = pin p (obj id) (sim_view k).
Proof.
  intros H. sim_step H. case_match; by simplify_eq.
Qed.

Lemma sim_pin_err p obj : fails_clean sim_view (sim_pin p obj).
Proof. intros k e k' H. sim_step H. case_match; simplify_eq. done. Qed.

Lemma pinned_prog_Some v p id : pinned_prog v p = Some id -> exists o, kv_pins v !! p = Some o /\ prog_id o = Some id.
Proof. unfold pinned_prog. destruct (kv_pins v !! p) as [o|]; [|done]. by exists o. Qed.

Lemma sim_extension_ok s k out k' :
  sim_extension s k = (Ok out, k') ->
  exists lid disp prog od op,
    kv_pins (sim_view k) !! xs_DispatcherPinPath s = Some od /\ prog_id od = Some disp /\
    kv_pins (sim_view k) !! xs_ProgPinPath s = Some op /\ prog_id op = Some prog /\
    kv_pins (sim_view k) !! xs_LinkPinPath s = None /\ ao_KernelLinkID out = Some lid /\
    sim_view k' = pin (xs_LinkPinPath s) (KExtension lid disp (xs_Position s) prog) (sim_view k).
Proof.
  intros H. sim_step H.
  destruct (pinned_prog (sim_view k1) (xs_DispatcherPinPath s)) as [disp|] eqn:Ed; [|done].
  destruct (pinned_prog (sim_view k1) (xs_ProgPinPath s)) as [prog|] eqn:Ep; [|done].
  destruct (kv_pins (sim_view k1) !! xs_LinkPinPath s) eqn:El; [done|]. simplify_eq.
  apply pinned_prog_Some in Ed as (od & ? & ?), Ep as (op & ? & ?).
  by eexists _, disp, prog, od, op.
Qed.

Lemma sim_extension_err s : fails_clean sim_view (sim_extension s).
Proof. intros k e k' H. sim_step H. repeat case_match; simplify_eq; done. Qed.

Lemma sim_drop_ok f k k' : sim_drop f k = (Ok tt, k') -> sim_view k' = f (sim_view k).
Proof. intros H. sim_step H. by simplify_eq. Qed.

Lemma sim_drop_err f : fails_clean sim_view (sim_drop f).
Proof. intros k e k' H. sim_step H. done. Qed.

Lemma sim_drop_error f k e k' : sim_drop f k = (Err e, k') -> errors_Is e ErrNotExist = false.
Proof. unfold sim_drop, sim_do. destruct (sim_refuse k) as [|[] rs]; intros; by simplify_eq. Qed.

Lemma sim_filter_ok pp ifindex ifname dir ns h k r k' :
  sim_create_filter pp ifindex ifname dir ns h k = (Ok r, k') ->
  exists o,
    kv_pins (sim_view k) !! pp = Some o /\ prog_id o = Some (tr_DispatcherID r) /\
    tr_Priority r = tcDispatcherPriority /\ in_uint32 (tr_Handle r) /\ tr_Handle r <> 0 /\
    (h <> 0 -> tr_Handle r = h) /\
    kv_filters (sim_view k) !! (sim_ns ns, ifindex, dir_parent dir, tr_Priority r, tr_Handle r) = None /\
    sim_view k' = add_filter (sim_ns ns, ifindex, dir_parent dir, tr_Priority r, tr_Handle r)
                    (tr_DispatcherID r) (sim_view k).
Proof.
  intros H. sim_step H. set (h' := if h =? 0 then _ else _) in H.
  destruct (pinned_prog (sim_view k1) pp) as [id|] eqn:Ep; [|done].
  destruct (kv_filters (sim_view k1) !! _) eqn:Ef; [done|].
  match type of H with context [if ?b then _ else _] => destruct b eqn:Eh; [|done] end.
  apply andb_true_iff in Eh as [Hlo Hhi]. apply Z.ltb_lt in Hlo, Hhi. simplify_eq. cbn.
  apply pinned_prog_Some in Ep as (o & ? & ?). exists o. unfold in_uint32.
  repeat split; try done; try lia. intros Hne. subst h'. destruct (Z.eqb_spec h 0); [lia|done].
Qed.

Lemma sim_filter_err pp ifindex ifname dir ns h : fails_clean sim_view (sim_create_filter pp ifindex ifname dir ns h).
Proof. intros k e k' H. sim_step H. repeat case_match; simplify_eq; done. Qed.

Lemma sim_update_link_ok lp pp k k' :
  sim_update_link lp pp k = (Ok tt, k') ->
  exists o id lid old,
    kv_pins (sim_view k) !! pp = Some o /\ prog_id o = Some id /\
    kv_pins (sim_view k) !! lp = Some (KOuterLink lid old) /\
    sim_view k' = pin lp (KOuterLink lid id) (sim_view k).
Proof.
  intros H. sim_step H. destruct (pinned_prog (sim_view k1) pp) as [id|] eqn:Ep; [|done].
  destruct (kv_pins (sim_view k1) !! lp) as [[]|] eqn:El; try done. simplify_eq.
  apply pinned_prog_Some in Ep as (o & ? & ?). by eexists o, id, _, _.
Qed.

Lemma sim_attach_attaches pp lp : attaches sim_view lp (sim_attach pp lp).
Proof.
  split.
  - intros k out k' H. sim_step H. destruct (pinned_prog (sim_view k1) pp); [|done].
    destruct (kv_pins (sim_view k1) !! lp) eqn:El; [done|]. by simplify_eq.
  - intros k e k' H. sim_step H; [by rewrite Hv|]. repeat case_match; simplify_eq; by rewrite Hv.
Qed.

Lemma sim_load_ok spec base k out k' :
  sim_load spec base k = (Ok out, k') ->
  exists prog, lo_Program out = Some prog /\ 0 <= kp_ID prog /\
    lo_PinPath out = ProgPinPath base (kp_ID prog) /\
    lo_MapsDir out = MapPinDir base (if mapOwnerID spec =? 0 then kp_ID prog else mapOwnerID spec) /\
    kv_pins (sim_view k) !! lo_PinPath out = None /\
    kv_pins (sim_view k') !! lo_PinPath out = Some (KProg (kp_ID prog)) /\
    only_in (fun q => q = lo_PinPath out \/ lo_MapsDir out `prefix_of` q \/ SharedMapPinDir base `prefix_of` q)
      (sim_view k) (sim_view k').
Proof.
  intros H. sim_step H. set (id := Z.abs (sim_next k1)) in *.
  destruct (kv_pins (sim_view k1) !! _) eqn:Ep; [done|].
  simplify_eq. eexists. split; [done|]. cbn [kp_ID lo_PinPath lo_MapsDir]. split; [lia|]. split; [done|]. split; [by destruct (mapOwnerID spec =? 0)|].
  split; [done|]. unfold sim_fresh. cbn [sim_view pin kv_pins]. split; [apply lookup_insert_eq|].
  split; [by destruct (mapOwnerID spec =? 0)|].
  intros q Hq. cbn [kv_pins pin]. rewrite lookup_insert_ne by (intros <-; apply Hq; by left).
  destruct (mapOwnerID spec =? 0); [|done]. cbn [kv_pins pin].
  apply lookup_insert_ne. intros <-. apply Hq. right. left. by apply prefix_app_r.
Qed.

Lemma sim_const_confined {A} (a : A) P : confined_to sim_view P (sim_const a).
Proof. intros k. by rewrite sim_const_reads. Qed.

Lemma sim_unpin_confined p : confined_to sim_view (fun q => q = p) (sim_drop (unpin p)).
Proof.
  intros k. destruct (sim_drop (unpin p) k) as [r k'] eqn:E. cbn [snd]. sim_step E; [by rewrite Hv|].
  simplify_eq. split; [done|]. intros q Hq. cbn. by apply lookup_delete_ne.
Qed.

#[export] Instance sim_laws : KernelLaws sim.
Proof.
  refine {| view := sim_view; ns_of := sim_ns |}.
  - intros p. apply sim_const_reads.
  - intros p k n k' H. sim_step H. by simplify_eq.
  - intros p. unfold sim_ns. destruct (String.eqb p ""); lia.
  - done.
  - intros p k. destruct (os_Stat p k) as [r k'] eqn:E. cbn in E. sim_step E. case_match; by simplify_eq.
  - intros p. apply sim_const_reads.
  - intros cfg p k id k'. apply sim_pin_ok.
  - intros cfg p. apply sim_pin_err.
  - intros cfg p k id k'. apply sim_pin_ok.
  - intros cfg p. apply sim_pin_err.
  - apply sim_extension_ok.
  - intros s k e k' H. apply sim_extension_err in H. by rewrite H.
  - apply sim_extension_ok.
  - intros s k e k' H. apply sim_extension_err in H. by rewrite H.
  - intros pp ifindex lp ns k r k' H. sim_step H.
    destruct (pinned_prog (sim_view k1) pp) as [id|] eqn:Ep; [|done].
    destruct (kv_pins (sim_view k1) !! lp) eqn:El; [done|]. simplify_eq.
    apply pinned_prog_Some in Ep as (o & ? & ?). by exists o, id.
  - intros pp ifindex lp ns k e k' H. sim_step H. repeat case_match; simplify_eq; done.
  - apply sim_update_link_ok.
  - intros lp pp k e k' H. sim_step H. repeat case_match; simplify_eq; done.
  - apply sim_filter_ok.
  - intros pp ifindex ifname dir ns h k e k' H. left. by eapply sim_filter_err.
  - intros ifindex ifname parent prio h ns k k'. apply sim_drop_ok.
  - intros ifindex ifname parent prio h ns. apply sim_drop_err.
  - intros p k k'. apply sim_drop_ok.
  - intros p k e k' H. apply sim_drop_err in H. by rewrite H.
  - intros p k k'. apply sim_drop_ok.
  - intros p k e k' H. apply sim_drop_err in H. by rewrite H.
  - intros p k k'. apply sim_drop_ok.
  - intros p k e k' H. split; [exact (sim_drop_error _ _ _ _ H)|]. apply sim_drop_err in H. by rewrite H.
  - intros pp g n lp. apply sim_attach_attaches.
  - intros pp fn off r lp. apply sim_attach_attaches.
  - intros pp t fn off pid r lp. apply sim_attach_attaches.
  - intros sc pp t fn off pid r lp cp. apply sim_attach_attaches.
  - intros pp fn lp. apply sim_attach_attaches.
  - intros pp fn lp. apply sim_attach_attaches.
  - intros i d pp lp ns o. apply sim_attach_attaches.
  - apply sim_load_ok.
  - intros spec base k e k' H. sim_step H; [|case_match; simplify_eq]; by rewrite ?Hv.
  - intros p k k'. apply sim_drop_ok.
  - intros p k e k' H. apply sim_drop_err in H. by rewrite H.
  - intros n ns. apply sim_const_reads.
  - apply sim_const_reads.
  - intros id k. destruct (GetProgramByID id k) as [r k'] eqn:E. cbn in E. sim_step E. case_match; by simplify_eq.
  - intros id. apply sim_const_reads.
  - intros spec. apply sim_const_reads.
  - apply sim_const_reads.
  - intros p. apply sim_unpin_confined.
  - intros p. apply sim_const_reads.
  - intros d pat. apply sim_const_reads.
  - intros d pat k t k' H. sim_step H. simplify_eq. by exists "pub-1".
  - intros a b. apply sim_const_confined.
  - intros src dst. apply sim_const_confined.
  - intros p prov. apply sim_const_confined.
Defined.
