(* ===== verification/Scenarios.v ===== *)
(** * Concrete worlds

    Small worlds on the simulated kernel and the SQLite store: two managed
    XDP programs and two managed TC programs, loaded and pinned, with nothing
    attached yet. The witnesses of the executor's theorems run here. *)

From Stdlib Require Import ZArith Lia String.
From stdpp Require Import base tactics sets list gmap strings numbers sorting.
From S2P Require Import Prelude Actions Dispatcher Domain Slots Layout Platform Executor Rebuild.
From S2P Require Import Members XDPRebuild TCRebuild TCAttach Detach Lifecycle StoreDb Store StoreTx StoreSpec StoreInv SimKernel.

Local Open Scope string_scope.
Local Open Scope list_scope.
Local Open Scope Z_scope.

Definition demo_program (name ptype : string) (id : Z) : programRow :=
  mkProgramRow name ptype "/p.o" None (ProgPinPath run_bpfman id) None ∅ id None None None (Some "GPL")
    true ∅ 0 None.

Definition demo_db : db :=
  mkDb (list_to_map ((fun i => (i, mkMapSetRow (MapPinDir run_bpfman i) 0)) <$> [7; 8; 9; 10]))
    (list_to_map [(7, demo_program "firewall" "xdp" 7); (8, demo_program "counter" "xdp" 8);
                  (9, demo_program "shaper" "tc" 9); (10, demo_program "marker" "tc" 10)])
    ∅ 0 ∅ ∅ ∅ ∅ ∅.

Definition demo_store (faults : list (option fault)) : store := mkStore demo_db faults 1700000000 false 3.

Definition demo_kernel (refuse : list bool) : sim :=
  sim_init ((fun i => (ProgPinPath run_bpfman i, KProg i)) <$> [7; 8; 9; 10]) refuse.

Definition demo_world (refuse : list bool) (faults : list (option fault)) : world sim store :=
  mkWorld (demo_kernel refuse) (demo_store faults) [].

Lemma db_ok_programs ms ps :
  map_Forall (fun _ p => is_Some (ms !! p_map_set_id p) /\ p_program_type p ∈ allProgramTypes /\
                         image_check (p_image_source p) = true) ps ->
  db_ok (mkDb ms ps ∅ 0 ∅ ∅ ∅ ∅ ∅).
Proof.
  intros H. split; cbn; rewrite ?dom_empty_L; try set_solver; try by apply map_Forall_empty.
  apply keys_ok_empty.
Qed.

Lemma demo_db_ok : db_ok demo_db.
Proof.
  apply db_ok_programs. unfold demo_program. cbn [list_to_map foldr fst snd].
  repeat (apply map_Forall_insert_2; [split; [by eexists|]; split; [set_solver|done]|]).
  apply map_Forall_empty.
Qed.

Lemma demo_served refuse faults : dispatchers_consistent run_bpfman (demo_world refuse faults).
Proof.
  split; [split; [done|apply demo_db_ok]|].
  intros k s. cbn. unfold snaps. cbn. rewrite map_lookup_imap, lookup_empty. done.
Qed.

(** Programs pinned under their own IDs, and nothing else. *)
Lemma pinned_labelled base ids refuse :
  Forall (fun i => 0 <= i) ids -> labelled base (view (sim_init ((fun i => (ProgPinPath base i, KProg i)) <$> ids) refuse)).
Proof.
  intros Hids id o Hid Ho. apply elem_of_list_to_map_2, list_elem_of_fmap in Ho as (i & [= E ->] & Hi).
  rewrite list.Forall_forall in Hids. apply ProgPinPath_inj in E as ->; [done|done|by apply Hids].
Qed.

Lemma demo_runs ps ms seq refuse faults now tx n :
  map_Forall (fun id p => prog_placed run_bpfman id (p_pin_path p)) ps ->
  let w := mkWorld (demo_kernel refuse) (mkStore (mkDb ms ps ∅ seq ∅ ∅ ∅ ∅ ∅) faults now tx n) [] in
  programs_run run_bpfman (kv w) (sv w).
Proof.
  intros Hps w. split.
  - apply pinned_labelled. repeat (constructor; [lia|]). constructor.
  - intros id name p. cbn. unfold prog_names. rewrite lookup_fmap. cbn [db_programs].
    destruct (ps !! id) as [row|] eqn:E; [|done]. intros [= <- <-]. by apply (Hps id row).
  - intros k s m _. cbn. unfold snaps. cbn. by rewrite map_lookup_imap, lookup_empty.
Qed.

Lemma demo_recorded refuse faults : served_as_recorded run_bpfman (demo_world refuse faults).
Proof.
  split; [apply demo_served|]. apply demo_runs. unfold demo_program. cbn [list_to_map foldr fst snd].
  repeat (apply map_Forall_insert_2; [by split|]). apply map_Forall_empty.
Qed.

Lemma demo_consistent refuse faults : xdp_consistent run_bpfman (demo_world refuse faults).
Proof. apply consistent_xdp, demo_served. Qed.

Definition eth0 : xdpRebuildOps := mkXdpRebuildOps 2 "eth0" "".

(** Attach the XDP program [id] at priority [prio], proceeding on pass. *)
Definition attach_xdp (id : Z) (name : string) (prio : Z) : M (world sim store) extensionResult :=
  rebuildXDPDispatcher run_bpfman id eth0 (ProgPinPath run_bpfman id) name prio 4 ∅.

Example attach_twice :
  let '(r1, w1) := attach_xdp 7 "firewall" 50 (demo_world [] []) in
  let '(r2, w2) := attach_xdp 8 "counter" 10 w1 in
  is_ok r1 = true /\ is_ok r2 = true /\
  (fun s => (sn_Revision s, (fun m => (dm_LinkID m, dm_ProgramName m, dm_Position m)) <$> sn_Members s))
    <$> (sv_snaps (sqlite_view (w_store w2)) !! NewKey DispatcherTypeXDP 4026531840 2)
  = Some (2, [(2, "counter", 0); (1, "firewall", 1)]).
Proof. vm_compute. done. Qed.

(** The extension attach is refused, so the dispatcher just loaded is removed again. *)
Lemma rebuildXDP_atomic_witness :
  exists e w', attach_xdp 7 "firewall" 50 (demo_world [false; false; true] []) = (Err e, w') /\
    rollbackFailures w' = 0%nat /\ exists p, only_at p (kv (demo_world [false; false; true] [])) (kv w').
Proof.
  assert (Hr : is_ok (fst (attach_xdp 7 "firewall" 50 (demo_world [false; false; true] []))) = false)
    by (vm_compute; reflexivity).
  assert (Hf : rollbackFailures (snd (attach_xdp 7 "firewall" 50 (demo_world [false; false; true] []))) = 0%nat)
    by (vm_compute; reflexivity).
  destruct (attach_xdp 7 "firewall" 50 (demo_world [false; false; true] [])) as [[res|e] w'] eqn:E; [discriminate|].
  exists e, w'. split; [reflexivity|]. split; [exact Hf|].
  destruct (rebuildXDP_atomic run_bpfman 7 eth0 (ProgPinPath run_bpfman 7) "firewall" 50 4 ∅
              (demo_world [false; false; true] []) e w') as [_ Hk];
    [reflexivity|simpl; lia|unfold in_uint32; lia|apply demo_consistent|exact E|].
  destruct (Hk Hf) as (key & pos & _ & _ & Hat). eexists. exact Hat.
Defined.

(** A first attach whose transaction is retried once because the database is busy. *)
Lemma rebuildXDP_members_witness :
  exists res w', attach_xdp 7 "firewall" 50 (demo_world [] [None; Some FaultBusy]) = (Ok res, w') /\
    er_revision res = 1 /\ KIfindex (er_key res) = 2.
Proof.
  assert (H1 : let '(r, w) := attach_xdp 7 "firewall" 50 (demo_world [] [None; Some FaultBusy]) in
               match r with Ok x => er_revision x = 1 | Err _ => False end) by (vm_compute; reflexivity).
  destruct (attach_xdp 7 "firewall" 50 (demo_world [] [None; Some FaultBusy])) as [[res|e] w'] eqn:E; [|contradiction].
  exists res, w'. split; [reflexivity|]. split; [exact H1|].
  destruct (rebuildXDP_members run_bpfman 7 eth0 (ProgPinPath run_bpfman 7) "firewall" 50 4 ∅
              (demo_world [] [None; Some FaultBusy]) res w') as (_ & Hi & _);
    [reflexivity|simpl; lia|unfold in_uint32; lia|apply demo_consistent|exact E|exact Hi].
Defined.

Definition demo_member (pid pos : Z) : DispatcherMemberSpec :=
  mkDispatcherMemberSpec None pid "x" [] (Some (40 + pos)) (ExtensionLinkPath run_bpfman DispatcherTypeXDP 1 2 3 pos)
    pos 50 4 "eth0" {[ "team" := "net" ]}.

Definition demo_spec : DispatcherSnapshotSpec :=
  mkDispatcherSnapshotSpec (NewKey DispatcherTypeXDP 1 2) 3 (mkDispatcherRuntime 99 (Some 5) None None "")
    [demo_member 7 0; demo_member 8 1].

Lemma snapshot_roundtrip_witness :
  exists snap s', Store.ReplaceDispatcherSnapshot demo_spec (demo_store []) = (Ok snap, s') /\
  exists back s'', Store.GetDispatcherSnapshot (ss_Key demo_spec) s' = (Ok back, s'') /\ sn_Revision back = 3.
Proof.
  assert (H1 : let '(r, w) := Store.ReplaceDispatcherSnapshot demo_spec (demo_store []) in
               is_ok r = true /\ st_faults w = []) by (vm_compute; split; reflexivity).
  destruct (Store.ReplaceDispatcherSnapshot demo_spec (demo_store [])) as [[snap|e] s'] eqn:E; [|destruct H1; discriminate].
  destruct H1 as [_ Hf]. exists snap, s'. split; [reflexivity|].
  destruct (snapshot_roundtrip demo_spec (demo_store []) snap s') as [(back & s'' & Hg & _ & Hr & _) _];
    [split; [reflexivity|apply demo_db_ok]| |exact Hf|exact E|].
  - split; [repeat constructor; unfold in_uint32; simpl; lia|].
    split; [unfold in_uint32; simpl; lia|split; discriminate].
  - exists back, s''. split; [exact Hg|exact Hr].
Defined.

(** ** TC *)

Definition eth0_in : tcRebuildOps :=
  mkTcRebuildOps 2 "eth0" TCDirectionIngress DispatcherTypeTCIngress "".

(** Attach the TC program [id] at priority [prio] on ingress, proceeding on ok. *)
Definition attach_tc (id : Z) (name : string) (prio : Z) : M (world sim store) extensionResult :=
  rebuildTCDispatcher run_bpfman id eth0_in (ProgPinPath run_bpfman id) name prio 2 {[ "team" := "net" ]}.

Lemma eth0_in_wf : tc_ops_wf eth0_in.
Proof. left. done. Qed.

(** The world after one TC attach. *)
Definition tc_world (refuse : list bool) (faults : list (option fault)) : world sim store :=
  let w := snd (attach_tc 9 "shaper" 50 (demo_world [] [])) in
  mkWorld (mkSim (sim_view (w_kernel w)) (sim_next (w_kernel w)) refuse)
    (set_faults faults (w_store w)) (w_log w).

Lemma tc_world_served refuse faults : dispatchers_consistent run_bpfman (tc_world refuse faults).
Proof.
  assert (Hr : is_ok (fst (attach_tc 9 "shaper" 50 (demo_world [] []))) = true) by (vm_compute; reflexivity).
  unfold tc_world. destruct (attach_tc 9 "shaper" 50 (demo_world [] [])) as [r w] eqn:E. cbn [fst snd] in *.
  apply rebuildTC_keeps in E; [|done|apply eth0_in_wf|simpl; lia|unfold in_uint32; lia|apply demo_served|by left].
  destruct E as [[Hc Hok] Hs]. split; [|exact Hs]. split; [done|exact Hok].
Qed.

(** The database is full when the second attach commits: the new filter is
    removed and the first one is restored under its handle. *)
Lemma rebuildTC_atomic_witness :
  exists w0 e w', w0 = tc_world [] [None; None; None; None; None; Some (FaultIO "disk full")] /\
    attach_tc 10 "marker" 10 w0 = (Err e, w') /\
    rollbackFailures w' = 0%nat /\ kv_filters (kv w0) ⊆ kv_filters (kv w').
Proof.
  assert (H : exists w0, w0 = tc_world [] [None; None; None; None; None; Some (FaultIO "disk full")] /\
    dispatchers_consistent run_bpfman w0 /\ is_ok (fst (attach_tc 10 "marker" 10 w0)) = false /\
    rollbackFailures (snd (attach_tc 10 "marker" 10 w0)) = 0%nat /\ rollbackFailures w0 = 0%nat).
  { eexists. split; [reflexivity|]. split; [apply tc_world_served|].
    split; [vm_compute; reflexivity|]. split; [vm_compute; reflexivity|]. vm_compute; reflexivity. }
  destruct H as (w0 & H0 & Hc & Hr & Hf & Hf0).
  destruct (attach_tc 10 "marker" 10 w0) as [[res|e] w'] eqn:E; [discriminate|]. cbn [snd] in Hf.
  exists w0, e, w'. split; [exact H0|]. split; [exact E|]. split; [exact Hf|].
  destruct (rebuildTC_atomic run_bpfman 10 eth0_in (ProgPinPath run_bpfman 10) "marker" 10 2 {[ "team" := "net" ]}
              w0 e w') as [_ Hk];
    [reflexivity|apply eth0_in_wf|simpl; lia|unfold in_uint32; lia|exact Hc|exact E|].
  destruct (Hk (eq_trans Hf (eq_sym Hf0))) as (Hs & _). exact Hs.
Defined.

Lemma rebuildTC_members_witness :
  exists w0 res w', w0 = tc_world [] [] /\ attach_tc 10 "marker" 10 w0 = (Ok res, w') /\ er_revision res = 2 /\
    er_key res = NewKey DispatcherTypeTCIngress 4026531840 2.
Proof.
  assert (H : exists w0, w0 = tc_world [] [] /\ dispatchers_consistent run_bpfman w0 /\
    match fst (attach_tc 10 "marker" 10 w0) with Ok x => er_revision x = 2 | Err _ => False end).
  { eexists. split; [reflexivity|]. split; [apply tc_world_served|]. vm_compute; reflexivity. }
  destruct H as (w0 & H0 & Hc & H1).
  destruct (attach_tc 10 "marker" 10 w0) as [[res|e] w'] eqn:E; [|contradiction].
  exists w0, res, w'. split; [exact H0|]. split; [exact E|]. split; [exact H1|].
  destruct (rebuildTC_members run_bpfman 10 eth0_in (ProgPinPath run_bpfman 10) "marker" 10 2 {[ "team" := "net" ]}
              w0 res w') as (Hk & _);
    [reflexivity|apply eth0_in_wf|simpl; lia|unfold in_uint32; lia|exact Hc|exact E|exact Hk].
Defined.

(** ** Detach *)

Definition tc_in_key : Key := NewKey DispatcherTypeTCIngress 4026531840 2.

Lemma tc_in_key_wf : key_wf tc_in_key.
Proof. split; [done|]. simpl. lia. Qed.

(** The world after two TC attaches: links 1 and 2 of one dispatcher. *)
Definition tc_world2 (refuse : list bool) : world sim store :=
  let w := snd (attach_tc 10 "marker" 10 (tc_world [] [])) in
  mkWorld (mkSim (sim_view (w_kernel w)) (sim_next (w_kernel w)) refuse) (w_store w) (w_log w).

Lemma tc_world2_served refuse : dispatchers_consistent run_bpfman (tc_world2 refuse).
Proof.
  assert (Hr : is_ok (fst (attach_tc 10 "marker" 10 (tc_world [] []))) = true) by (vm_compute; reflexivity).
  pose proof (tc_world_served [] []) as Hc. unfold tc_world2. revert Hr Hc. generalize (tc_world [] []). intros w0 Hr Hc.
  destruct (attach_tc 10 "marker" 10 w0) as [r w] eqn:E. cbn [fst snd] in *.
  apply rebuildTC_keeps in E; [exact E|done|apply eth0_in_wf|simpl; lia|unfold in_uint32; lia|done|by left].
Qed.

(** Link 1 is detached: link 2 survives under revision 3, without its metadata. *)
Lemma rebuildDispatcherForDetach_success_witness :
  exists w0 w', w0 = tc_world2 [] /\ rebuildDispatcherForDetach run_bpfman tc_in_key 1 w0 = (Ok tt, w') /\
    dispatchers_consistent run_bpfman w' /\
    (fun s => (sn_Revision s, (fun m => (dm_LinkID m, dm_Metadata m)) <$> sn_Members s))
      <$> (sv_snaps (sv w') !! tc_in_key) = Some (3, [(2, ∅)]).
Proof.
  assert (H : exists w0, w0 = tc_world2 [] /\ dispatchers_consistent run_bpfman w0 /\
    is_ok (fst (rebuildDispatcherForDetach run_bpfman tc_in_key 1 w0)) = true /\
    (fun s => (sn_Revision s, (fun m => (dm_LinkID m, dm_Metadata m)) <$> sn_Members s))
      <$> (sv_snaps (sv (snd (rebuildDispatcherForDetach run_bpfman tc_in_key 1 w0))) !! tc_in_key) = Some (3, [(2, ∅)])).
  { eexists. split; [reflexivity|]. split; [apply tc_world2_served|]. split; vm_compute; reflexivity. }
  destruct H as (w0 & H0 & Hc & Hr & Hm).
  destruct (rebuildDispatcherForDetach run_bpfman tc_in_key 1 w0) as [[[]|e] w'] eqn:E; [|discriminate].
  exists w0, w'. split; [exact H0|]. split; [exact E|]. split; [|exact Hm].
  destruct (rebuildDispatcherForDetach_success run_bpfman eq_refl tc_in_key 1 w0 w') as [Hc' _];
    [apply consistent_detachable; [apply tc_in_key_wf|exact Hc]|exact E|exact Hc'].
Defined.

(** The surviving extension cannot be re-attached: nothing changes. *)
Lemma rebuildDispatcherForDetach_failure_witness :
  exists w0 e w', w0 = tc_world2 [false; true] /\
    rebuildDispatcherForDetach run_bpfman tc_in_key 1 w0 = (Err e, w') /\
    sv w' = sv w0 /\ detachable run_bpfman tc_in_key w'.
Proof.
  assert (H : exists w0, w0 = tc_world2 [false; true] /\ dispatchers_consistent run_bpfman w0 /\
    is_ok (fst (rebuildDispatcherForDetach run_bpfman tc_in_key 1 w0)) = false /\
    rollbackFailures (snd (rebuildDispatcherForDetach run_bpfman tc_in_key 1 w0)) = rollbackFailures w0 /\
    (fun s => (bool_decide (remaining 1 s = []), rt_NetnsPath (sn_Runtime s)))
      <$> (sv_snaps (sv w0) !! tc_in_key) = Some (false, "")).
  { eexists. split; [reflexivity|]. split; [apply tc_world2_served|].
    split; [vm_compute; reflexivity|]. split; [vm_compute; reflexivity|]. vm_compute; reflexivity. }
  destruct H as (w0 & H0 & Hc & Hr & Hf & H2).
  destruct (rebuildDispatcherForDetach run_bpfman tc_in_key 1 w0) as [[[]|e] w'] eqn:E; [discriminate|].
  exists w0, e, w'. split; [exact H0|]. split; [exact E|].
  destruct (rebuildDispatcherForDetach_failure run_bpfman eq_refl tc_in_key 1 w0 e w') as [Hs Hk];
    [apply consistent_detachable; [apply tc_in_key_wf|exact Hc]|exact E|].
  split; [exact Hs|]. destruct (sv_snaps (sv w0) !! tc_in_key) as [snap|] eqn:El; [|discriminate].
  cbn in H2. injection H2 as Hrem Hns. apply (Hk snap eq_refl); [by apply bool_decide_eq_false in Hrem|by intros [Hg _]|exact Hf].
Defined.

(** ** A history *)

(** An XDP attach, a TC attach, and a TC attach that fails for want of its pin. *)
Lemma dispatchers_always_served_witness :
  exists w1 w2 w3, dispatcher_step run_bpfman (demo_world [] []) w1 /\ dispatcher_step run_bpfman w1 w2 /\
    dispatcher_step run_bpfman w2 w3 /\ served_as_recorded run_bpfman w3.
Proof.
  assert (H1 : is_ok (fst (attach_xdp 7 "firewall" 50 (demo_world [] []))) = true) by (vm_compute; reflexivity).
  assert (H2 : is_ok (fst (attach_tc 9 "shaper" 50 (snd (attach_xdp 7 "firewall" 50 (demo_world [] []))))) = true)
    by (vm_compute; reflexivity).
  assert (H3 : let w2 := snd (attach_tc 9 "shaper" 50 (snd (attach_xdp 7 "firewall" 50 (demo_world [] [])))) in
               rollbackFailures (snd (attach_tc 11 "none" 50 w2)) = rollbackFailures w2) by (vm_compute; reflexivity).
  destruct (attach_xdp 7 "firewall" 50 (demo_world [] [])) as [r1 w1] eqn:E1. cbn [fst snd] in *.
  destruct (attach_tc 9 "shaper" 50 w1) as [r2 w2] eqn:E2. cbn [fst snd] in *.
  destruct (attach_tc 11 "none" 50 w2) as [r3 w3] eqn:E3. cbn [fst snd] in *.
  assert (S1 : dispatcher_step run_bpfman (demo_world [] []) w1).
  { eapply step_attach_xdp; [| | |exact E1|left; exact H1]; [simpl; lia|unfold in_uint32; lia|by split]. }
  assert (S2 : dispatcher_step run_bpfman w1 w2).
  { eapply step_attach_tc; [apply eth0_in_wf| | | |exact E2|left; exact H2]; [simpl; lia|unfold in_uint32; lia|by split]. }
  assert (S3 : dispatcher_step run_bpfman w2 w3).
  { eapply step_attach_tc; [apply eth0_in_wf| | | |exact E3|right; exact H3]; [simpl; lia|unfold in_uint32; lia|by split]. }
  exists w1, w2, w3. split; [exact S1|]. split; [exact S2|]. split; [exact S3|].
  apply (dispatchers_always_served run_bpfman eq_refl (demo_world [] []) w3); [apply demo_recorded|].
  eapply rtc_l; [exact S1|]. eapply rtc_l; [exact S2|]. apply rtc_once. exact S3.
Defined.

(** A dispatcher with a member is left alone. *)
Lemma removeDispatcherIfEmpty_contract_witness :
  exists w0 w', w0 = tc_world [] [] /\ removeDispatcherIfEmpty run_bpfman tc_in_key w0 = (Ok tt, w') /\
    kv w' = kv w0.
Proof.
  assert (H : exists w0, w0 = tc_world [] [] /\ dispatchers_consistent run_bpfman w0 /\
    is_ok (fst (removeDispatcherIfEmpty run_bpfman tc_in_key w0)) = true /\
    (fun s => bool_decide (sn_Members s = [])) <$> (sv_snaps (sv w0) !! tc_in_key) = Some false).
  { eexists. split; [reflexivity|]. split; [apply tc_world_served|].
    split; [vm_compute; reflexivity|]. vm_compute; reflexivity. }
  destruct H as (w0 & H0 & Hc & Hr & Hm).
  destruct (removeDispatcherIfEmpty run_bpfman tc_in_key w0) as [[[]|e] w'] eqn:E; [|discriminate].
  exists w0, w'. split; [exact H0|]. split; [exact E|].
  destruct (removeDispatcherIfEmpty_contract run_bpfman eq_refl tc_in_key w0 (Ok tt) w') as (_ & _ & Hk);
    [apply tc_in_key_wf|exact Hc|exact E|].
  destruct (sv_snaps (sv w0) !! tc_in_key) as [snap|] eqn:El; [|discriminate].
  specialize (Hk snap eq_refl eq_refl). cbn in Hm. injection Hm as Hm. rewrite Hm in Hk. exact (proj2 Hk).
Defined.

(** ** The store *)

Lemma demo_store_ok faults : sqlite_ok (demo_store faults).
Proof. split; [done|apply demo_db_ok]. Qed.

(** A program loaded from an image, as the manager records it. *)
Definition demo_record (id : Z) : ProgramRecord :=
  mkProgramRecord id
    (mkLoadSpec "/q.o" "" "tracer" "kprobe" {[ "sampling" := "0a" ]} "quay.io/x/y:v1" "sha256:00" "IfNotPresent" "" "" "" 0)
    "GPL" true (mkProgramHandles (ProgPinPath run_bpfman id) (MapPinDir run_bpfman id) None)
    (mkProgramMeta "tracer" "ops" "" {[ "team" := "obs" ]}) 1700000000 None.

Definition demo_link : LinkSpec :=
  mkLinkSpec 7 None "kprobe" None (Some (DKprobe (mkKprobeDetails "do_unlinkat" 0 false))) {[ "team" := "obs" ]}.

(** A history with a refused statement, a missing program and a used map set. *)
Lemma store_schema_invariant_witness :
  exists s', s' = run_calls [CallSave 11 (demo_record 11); CallCreatePendingLink demo_link ["run"];
                             CallDeleteMapSet 8; CallDelete 12; CallReplaceDispatcherSnapshot demo_spec;
                             CallDelete 7; CallDeleteMapSet 7] (demo_store [None; Some FaultBusy]) /\ sqlite_ok s'.
Proof.
  eexists. split; [reflexivity|]. apply store_schema_invariant; [apply demo_store_ok|].
  repeat constructor; unfold in_uint32; simpl; try lia; discriminate.
Defined.


(** Program 7 is deleted, its map set is not, and the kernel reuses the ID. *)
Lemma Save_reused_map_set_witness :
  exists s e, Delete 7 (demo_store []) = (Ok tt, s) /\ Save 7 (demo_record 7) s = (Err e, s) /\
    errors_Is e ErrMapSetIDReused = true.
Proof.
  assert (Hs : exists s, Delete 7 (demo_store []) = (Ok tt, s) /\ st_faults s = [] /\
                 db_programs (st_db s) !! 7 = None /\ is_Some (db_map_sets (st_db s) !! 7)).
  { eexists. split; [reflexivity|]. split; [reflexivity|]. split; [vm_compute; reflexivity|].
    vm_compute. eexists. reflexivity. }
  destruct Hs as (s & Hd & Hf & Hp & Hm).
  destruct (Save_reused_map_set 7 (demo_record 7) s Hf) as (e & He & Hi); [reflexivity|exact Hp|exact Hm|].
  exists s, e. split; [exact Hd|]. split; [exact He|exact Hi].
Defined.

Lemma Delete_program_cascade_witness :
  exists r s1 s', CreatePendingLink demo_link ["run"] (demo_store []) = (Ok r, s1) /\
    Delete 7 s1 = (Ok tt, s') /\ db_links (st_db s1) !! 1 <> None /\ db_links (st_db s') !! 1 = None.
Proof.
  assert (H1 : is_ok (fst (CreatePendingLink demo_link ["run"] (demo_store []))) = true) by (vm_compute; reflexivity).
  destruct (CreatePendingLink demo_link ["run"] (demo_store [])) as [[r|e] s1] eqn:E1; [|discriminate].
  pose proof (CreatePendingLink_keeps _ _ _ _ _ (demo_store_ok []) E1) as Hok.
  assert (H2 : (lk_kernel_prog_id <$> db_links (st_db s1) !! 1) = Some 7 /\ is_ok (fst (Delete 7 s1)) = true).
  { assert (Hs : s1 = snd (CreatePendingLink demo_link ["run"] (demo_store []))) by (rewrite E1; reflexivity).
    rewrite Hs. split; vm_compute; reflexivity. }
  destruct H2 as [H2 H3]. destruct (Delete 7 s1) as [[[]|e] s'] eqn:E2; [|discriminate].
  exists r, s1, s'. split; [reflexivity|]. split; [exact E2|].
  destruct (Delete_program_cascade 7 s1 s' Hok E2) as (_ & Hl & _). rewrite (Hl 1).
  destruct (db_links (st_db s1) !! 1) as [l|]; [|discriminate]. split; [discriminate|].
  cbn in H2. injection H2 as H2. rewrite H2. reflexivity.
Defined.

(** The first attempt of the transaction finds the database busy. *)
Lemma pending_link_roundtrip_witness :
  exists r s', CreatePendingLink demo_link ["run"] (demo_store [Some FaultBusy]) = (Ok r, s') /\ GetLink (lr_ID r) s' = (Ok r, s').
Proof.
  assert (H1 : is_ok (fst (CreatePendingLink demo_link ["run"] (demo_store [Some FaultBusy]))) = true) by (vm_compute; reflexivity).
  assert (Hf : st_faults (snd (CreatePendingLink demo_link ["run"] (demo_store [Some FaultBusy]))) = []) by (vm_compute; reflexivity).
  destruct (CreatePendingLink demo_link ["run"] (demo_store [Some FaultBusy])) as [[r|e] s'] eqn:E; [|discriminate].
  exists r, s'. split; [reflexivity|].
  destruct (pending_link_roundtrip demo_link ["run"] _ _ r s' (demo_store_ok _) eq_refl eq_refl I E Hf)
    as (_ & _ & _ & _ & _ & Hg & _).
  exact Hg.
Defined.
