(* ===== verification/ManagerScenarios.v ===== *)
(** * Concrete requests

    The requests of the manager on the simulated kernel and the SQLite store:
    two XDP programs, a TC program and a tracepoint program, loaded, pinned and
    recorded. The witnesses of the request theorems run here. *)

From Stdlib Require Import ZArith Lia String.
From stdpp Require Import base tactics sets list gmap strings numbers sorting relations.
From S2P Require Import Prelude Actions Dispatcher Domain Slots Layout Operation Platform Executor Rebuild.
From S2P Require Import Members XDPRebuild TCRebuild TCAttach Detach Lifecycle StoreDb Store StoreTx StoreSpec StoreInv Placed StoreRefine Coherent.
From S2P Require Import Inspect Manager Attach SimpleAttach Requests Removal Serving Load LoadBatch Service SimKernel Scenarios.

Local Open Scope string_scope.
Local Open Scope list_scope.
Local Open Scope Z_scope.

(** ** The start *)

Definition svc_db : db :=
  mkDb (list_to_map ((fun i => (i, mkMapSetRow (MapPinDir run_bpfman i) 0)) <$> [7; 8; 9; 10]))
    (list_to_map [(7, demo_program "firewall" "xdp" 7); (8, demo_program "counter" "xdp" 8);
                  (9, demo_program "shaper" "tc" 9); (10, demo_program "tracer" "tracepoint" 10)])
    ∅ 0 ∅ ∅ ∅ ∅ ∅.

Definition svc_world (refuse : list bool) (faults : list (option fault)) : world sim store :=
  mkWorld (demo_kernel refuse) (mkStore svc_db faults 1700000000 false 3) [].

Lemma placed_programs base ms ps :
  map_Forall (fun _ p => apart base (p_pin_path p)) ps -> map_Forall (fun _ m => apart base (ms_pin_path m)) ms ->
  placed base (mkDb ms ps ∅ 0 ∅ ∅ ∅ ∅ ∅).
Proof. intros Hp Hm. split; cbn; try done. Qed.

Lemma svc_coherent refuse faults : coherent run_bpfman (svc_world refuse faults).
Proof.
  split.
  - split.
    + split; [done|]. apply db_ok_programs. unfold demo_program. cbn [list_to_map foldr fst snd].
      repeat (apply map_Forall_insert_2; [split; [by eexists|]; split; [set_solver|done]|]). apply map_Forall_empty.
    + intros k s. cbn. unfold snaps. cbn. rewrite map_lookup_imap, lookup_empty. done.
  - apply placed_programs; cbn [list_to_map foldr fst snd fmap list_fmap];
      repeat (apply map_Forall_insert_2; [apply apart_prog || apply apart_maps|]); apply map_Forall_empty.
Qed.

Definition xdp_on (id prio : Z) : AttachSpec := XDPAttachSpec ∅ id "eth0" prio [] "".
Definition tp_on (id : Z) : AttachSpec := TracepointAttachSpec {[ "team" := "obs" ]} id "sched" "sched_switch".

Definition run_attach (spec : AttachSpec) (w : world sim store) : outcome Link * world sim store :=
  Attach run_bpfman None spec w.

Definition returns_ok {A} (o : outcome A) : bool := match o with Ret (Ok _) => true | _ => false end.

(** ** Attach *)

(** A tracepoint attach. *)
Lemma Attach_tracing_contract_witness :
  exists w0 link w', w0 = svc_world [] [] /\ run_attach (tp_on 10) w0 = (Ret (Ok link), w') /\ coherent run_bpfman w' /\
    attach_done run_bpfman w0 w' link.
Proof.
  assert (H : exists w0, w0 = svc_world [] [] /\ coherent run_bpfman w0 /\ returns_ok (fst (run_attach (tp_on 10) w0)) = true).
  { eexists. split; [reflexivity|]. split; [apply svc_coherent|vm_compute; reflexivity]. }
  destruct H as (w0 & H0 & Hc & Hok). destruct (run_attach (tp_on 10) w0) as [o w'] eqn:E.
  destruct (Attach_tracing_contract run_bpfman None (tp_on 10) w0 o w' eq_refl Hc E) as (r & Ho & Hc' & Hr).
  subst o. destruct r as [link|e]; [|discriminate]. exists w0, link, w'. split; [exact H0|]. split; [exact E|]. split; [exact Hc'|exact Hr].
Defined.

(** ** Two XDP links *)

Definition two_links (refuse : list bool) (faults : list (option fault)) : world sim store :=
  let w := snd (run_attach (xdp_on 8 10) (snd (run_attach (xdp_on 7 50) (svc_world [] [])))) in
  mkWorld (mkSim (sim_view (w_kernel w)) (sim_next (w_kernel w)) refuse)
    (mkStore (st_db (w_store w)) faults (st_now (w_store w)) false 3) [].

Lemma attach_coherent spec w :
  attach_wf spec -> coherent run_bpfman w -> returns_ok (fst (run_attach spec w)) = true -> coherent run_bpfman (snd (run_attach spec w)).
Proof.
  intros Hwf Hc Hok. destruct (run_attach spec w) as [o w'] eqn:E. cbn [fst snd] in *.
  apply (Attach_serves run_bpfman eq_refl) in E as (r & -> & Hr); [|done|done]. apply Hr. left. by destruct r.
Qed.

Lemma two_links_coherent refuse faults : coherent run_bpfman (two_links refuse faults).
Proof.
  assert (H : coherent run_bpfman (snd (run_attach (xdp_on 8 10) (snd (run_attach (xdp_on 7 50) (svc_world [] [])))))).
  { apply attach_coherent; [done| |vm_compute; reflexivity]. apply attach_coherent; [done|apply svc_coherent|vm_compute; reflexivity]. }
  unfold two_links. destruct (snd _) as [k s l]. destruct H as [[[_ Hok] Hs] Hpl]. split; [|exact Hpl]. split; [split; [done|exact Hok]|exact Hs].
Qed.

(** Links 1 and 2 share the dispatcher of eth0; link 1 is detached. *)
Lemma Detach_contract_witness :
  exists w0 w', w0 = two_links [] [] /\ Manager.Detach run_bpfman 1 w0 = (Ret (Ok tt), w') /\ coherent run_bpfman w' /\
    links_of w' !! 1 = None.
Proof.
  assert (H : exists w0, w0 = two_links [] [] /\ coherent run_bpfman w0 /\ returns_ok (fst (Manager.Detach run_bpfman 1 w0)) = true).
  { eexists. split; [reflexivity|]. split; [apply two_links_coherent|vm_compute; reflexivity]. }
  destruct H as (w0 & H0 & Hc & Hok). destruct (Manager.Detach run_bpfman 1 w0) as [o w'] eqn:E.
  destruct (Detach_contract run_bpfman eq_refl 1 w0 o w' Hc E) as (r & Ho & Hr). subst o. destruct r as [[]|e]; [|discriminate].
  destruct Hr as (Hc' & Hgone & _). exists w0, w'. split; [exact H0|]. split; [exact E|]. split; [exact Hc'|exact Hgone].
Defined.

(** Two links of the same program on one dispatcher: the record of the second
    is stale when its turn comes. *)
Definition stale_links : world sim store :=
  snd (run_attach (xdp_on 7 20) (snd (run_attach (xdp_on 7 50) (svc_world [] [])))).

Lemma stale_links_coherent : coherent run_bpfman stale_links.
Proof.
  apply attach_coherent; [done| |vm_compute; reflexivity]. apply attach_coherent; [done|apply svc_coherent|vm_compute; reflexivity].
Qed.

Lemma Unload_contract_witness :
  exists w0 w', w0 = stale_links /\ Unload run_bpfman 7 w0 = (Ok tt, w') /\ coherent run_bpfman w' /\ unloaded 7 w0 w'.
Proof.
  assert (H : exists w0, w0 = stale_links /\ coherent run_bpfman w0 /\ is_ok (fst (Unload run_bpfman 7 w0)) = true).
  { eexists. split; [reflexivity|]. split; [apply stale_links_coherent|vm_compute; reflexivity]. }
  destruct H as (w0 & H0 & Hc & Hok). destruct (Unload run_bpfman 7 w0) as [[[]|e] w'] eqn:E; [|discriminate].
  destruct (Unload_contract run_bpfman eq_refl 7 w0 (Ok tt) w' Hc E) as [Hc' Hu].
  exists w0, w'. split; [exact H0|]. split; [exact E|]. split; [exact Hc'|exact Hu].
Defined.

(** ** Load *)

Definition load_spec (name ptype : string) (owner : Z) : LoadSpec :=
  mkLoadSpec "/q.o" "" name ptype ∅ "" "" "" "" "" "" owner.

Definition no_opts : LoadOpts := mkLoadOpts {[ "team" := "net" ]} None "ops".

(** Two programs, the second with the maps of program 7. *)
Lemma loadBody_contract_witness :
  exists w0 progs w', w0 = svc_world [] [] /\
    loadBody run_bpfman [load_spec "a" "xdp" 0; load_spec "b" "tc" 7] no_opts w0 = (Ret (Ok progs), w') /\
    coherent run_bpfman w' /\ batch_saved progs w0 w' /\ length progs = 2%nat.
Proof.
  assert (H : exists w0, w0 = svc_world [] [] /\ coherent run_bpfman w0 /\
    returns_ok (fst (loadBody run_bpfman [load_spec "a" "xdp" 0; load_spec "b" "tc" 7] no_opts w0)) = true).
  { eexists. split; [reflexivity|]. split; [apply svc_coherent|vm_compute; reflexivity]. }
  destruct H as (w0 & H0 & Hc & Hok). destruct (loadBody run_bpfman _ no_opts w0) as [o w'] eqn:E.
  destruct (loadBody_contract run_bpfman _ no_opts w0 o w' Hc E) as (r & Ho & Hc' & _ & Hr). subst o. destruct r as [progs|e]; [|discriminate].
  destruct Hr as [HF Hs]. exists w0, progs, w'. split; [exact H0|]. split; [exact E|]. split; [exact Hc'|]. split; [exact Hs|].
  exact (eq_sym (Forall2_length _ _ _ HF)).
Defined.

(** ** A history *)


(** ** The store's table *)

Definition table_ops : list tableOp :=
  [TReplace demo_spec; TGet (ss_Key demo_spec); TOther (CallCreateLink demo_link); TDelete (ss_Key demo_spec)].

Lemma sqlite_refines_table_witness :
  exists s0 rs s', s0 = mkStore svc_db [None; Some FaultBusy] 1700000000 false 3 /\
    run_ops table_ops s0 = (rs, s') /\
    table_history (sqlite_view s0) table_ops rs (sqlite_view s').
Proof.
  assert (H : exists s0, s0 = mkStore svc_db [None; Some FaultBusy] 1700000000 false 3 /\ holds (sound_db run_bpfman) s0).
  { eexists. split; [reflexivity|]. destruct (svc_coherent [] []) as [[[_ Hok] _] Hpl]. split; [reflexivity|]. split; [exact Hok|exact Hpl]. }
  destruct H as (s0 & H0 & Hs). destruct (run_ops table_ops s0) as [rs s'] eqn:E. exists s0, rs, s'. split; [exact H0|]. split; [exact E|].
  apply (sqlite_refines_table run_bpfman table_ops s0 rs s' Hs); [|exact E].
  constructor; [split|constructor; [exact I|constructor; [split|constructor; [exact I|constructor]]]].
  - split; [repeat constructor; unfold in_uint32; simpl; lia|]. split; [unfold in_uint32; simpl; lia|split; discriminate].
  - split; [split; [discriminate|split; simpl; lia]|unfold in_uint32; simpl; lia].
  - discriminate.
  - intros det Hdet. injection Hdet as <-. exact I.
Defined.

(** ** A failed load and the maps of another program *)

(** Program 100 is loaded with a map of its own. *)
Definition owner_world (refuse : list bool) : world sim store :=
  let w := snd (loadBody run_bpfman [load_spec "owner" "xdp" 0] no_opts (svc_world [] [])) in
  mkWorld (mkSim (sim_view (w_kernel w)) (sim_next (w_kernel w)) refuse) (w_store w) [].

Definition owner_map (w : world sim store) : option kobj := kv_pins (kv w) !! (MapPinDir run_bpfman 100 ++ ["map"]).

(** A second program is to share the maps of 100, and publishing its bytecode
    is refused. The undo of its kernel load removes the maps directory the
    load reported, which is the one of 100: the map pins of a program that is
    still recorded are gone. *)
Theorem failed_load_removes_owner_maps :
  exists w0 w1 e, w0 = owner_world [false; false; false; true] /\
    bool_decide (is_Some (db_programs (st_db (w_store w0)) !! 100)) = true /\ owner_map w0 = Some KOther /\
    loadBody run_bpfman [load_spec "sharer" "xdp" 100] no_opts w0 = (Ret (Err e), w1) /\
    bool_decide (is_Some (db_programs (st_db (w_store w1)) !! 100)) = true /\ owner_map w1 = None.
Proof.
  assert (H : exists w0, w0 = owner_world [false; false; false; true] /\
    bool_decide (is_Some (db_programs (st_db (w_store w0)) !! 100)) = true /\ owner_map w0 = Some KOther /\
    let '(o, w1) := loadBody run_bpfman [load_spec "sharer" "xdp" 100] no_opts w0 in
    match o with Ret (Err _) => true | _ => false end = true /\
    bool_decide (is_Some (db_programs (st_db (w_store w1)) !! 100)) = true /\ owner_map w1 = None).
  { eexists. split; [reflexivity|]. vm_compute. done. }
  destruct H as (w0 & H0 & Hp & Hm & H). destruct (loadBody run_bpfman _ no_opts w0) as [o w1] eqn:E.
  destruct H as (Ho & Hp' & Hm'). destruct o as [[progs|e]|]; [done| |done]. exists w0, w1, e. by repeat (split; [done|]).
Qed.

(** ** Reaping and map sets *)

(** Reaping a dead program deletes its row but not its map set; when the
    kernel hands the ID out again, saving the new program is refused. *)
Theorem reaped_id_is_refused :
  exists w0 w1 e s2, w0 = svc_world [] [] /\ executeReapDeadProgramRecord run_bpfman 7 w0 = (Ok tt, w1) /\
    bool_decide (db_programs (st_db (w_store w1)) !! 7 = None) = true /\
    Save 7 (demo_record 7) (w_store w1) = (Err e, s2) /\ errors_Is e ErrMapSetIDReused = true.
Proof.
  assert (H : exists w0, w0 = svc_world [] [] /\
    let '(r, w1) := executeReapDeadProgramRecord run_bpfman 7 w0 in
    is_ok r = true /\ bool_decide (db_programs (st_db (w_store w1)) !! 7 = None) = true /\
    let '(r2, s2) := Save 7 (demo_record 7) (w_store w1) in
    match r2 with Err e => errors_Is e ErrMapSetIDReused | Ok _ => false end = true).
  { eexists. split; [reflexivity|]. vm_compute. done. }
  destruct H as (w0 & H0 & H). destruct (executeReapDeadProgramRecord run_bpfman 7 w0) as [r w1] eqn:E.
  destruct H as (Hr & Hn & H). destruct (Save 7 (demo_record 7) (w_store w1)) as [[u|e] s2] eqn:E2; [done|].
  destruct r as [[]|]; [|done]. exists w0, w1, e, s2. by repeat (split; [done|]).
Qed.
