(* ===== verification/Lexer.v ===== *)
(** * The tokeniser of the shell language

    cmd/bpfman-shell/shell/syntax/token.go in full, the positions of
    shell/source/source.go it stamps on tokens, and the functions of
    syntax/sourcefmt.go that print quoted literals and variable paths back.

    A Go string is the list of its bytes, and an offset is a [nat]: [input !! i]
    is [input[i]] together with the bounds test that guards it. The loops whose
    step is not one byte (paths of variable references, double-quoted strings,
    interpolation bodies, the main loop) take fuel and end in [OutOfFuel] when it
    is used up, so that a loop that never ends is an [OutOfFuel] at every fuel.
    Errors keep the text of their format without its arguments, as everywhere in
    this library; a double quote in such a text is written as the word. *)

From Stdlib Require Import ZArith Lia Ascii.
From stdpp Require Import base tactics list strings option.
From S2P Require Import Prelude.

Abbreviation bytes := (list ascii).

(** ** The outcome of a loop *)

Inductive outcome (E A : Type) :=
| Done (a : A)
| Failed (e : E)
| OutOfFuel.
Arguments Done {E A} a.
Arguments Failed {E A} e.
Arguments OutOfFuel {E A}.

Definition obind {E A B} (o : outcome E A) (f : A -> outcome E B) : outcome E B :=
  match o with
  | Done a => f a
  | Failed e => Failed e
  | OutOfFuel => OutOfFuel
  end.

Notation "'let?' x ':=' o 'in' k" := (obind o (fun x => k))
  (at level 10, x pattern, o at level 100, k at level 200, right associativity) : go_scope.

(** ** Bytes *)

Infix "=?" := Ascii.eqb (at level 70) : char_scope.

Definition newline : ascii := "010"%char.
Definition tab : ascii := "009"%char.
Definition return_ : ascii := "013"%char.
Definition dquote : ascii := "034"%char.
Definition squote : ascii := "039"%char.
Definition hash : ascii := "035"%char.
Definition dollar : ascii := "036"%char.
Definition backslash : ascii := "092"%char.
Definition space : ascii := " "%char.
Definition lbrace : ascii := "{"%char.
Definition rbrace : ascii := "}"%char.
Definition lbracket : ascii := "["%char.
Definition rbracket : ascii := "]"%char.

(** [c] is one of the bytes [l]. *)
Definition one_of (l : bytes) (c : ascii) : bool := existsb (Ascii.eqb c) l.

(** [lo <= c && c <= hi] on bytes. *)
Definition between (lo hi c : ascii) : bool :=
  ((N_of_ascii lo <=? N_of_ascii c) && (N_of_ascii c <=? N_of_ascii hi))%N.

(** [i < len(input) && p(input[i])] *)
Definition at_ (p : ascii -> bool) (input : bytes) (i : nat) : bool :=
  match input !! i with Some c => p c | None => false end.

(** [input[a:b]] *)
Definition slice (input : bytes) (a b : nat) : bytes := take (b - a) (drop a input).

(** The end of the loop [for i < len(input) && p(input[i]) { i++ }]. *)
Fixpoint prefix_len (p : ascii -> bool) (l : bytes) : nat :=
  match l with
  | c :: l' => if p c then S (prefix_len p l') else 0
  | [] => 0
  end.

Definition scan (p : ascii -> bool) (input : bytes) (i : nat) : nat :=
  i + prefix_len p (drop i input).

Definition isIdentStart (b : ascii) : bool :=
  between "a" "z" b || between "A" "Z" b || (b =? "_")%char.

Definition isIdentContinue (b : ascii) : bool :=
  isIdentStart b || between "0" "9" b.

(** [strings.TrimSpace(s) == ""]: every rune of [s] is one of the white-space
    runes of the unicode package, in its UTF-8 encoding. *)
Fixpoint blank (s : bytes) : bool :=
  match s with
  | [] => true
  | a :: s1 =>
    if one_of [tab; newline; "011"%char; "012"%char; return_; space] a then blank s1
    else match s1 with
    | b :: s2 =>
      if (a =? "194")%char && one_of ["133"%char; "160"%char] b then blank s2
      else match s2 with
      | c :: s3 =>
        if (a =? "225")%char && (b =? "154")%char && (c =? "128")%char
           || (a =? "226")%char && (b =? "128")%char
              && (between "128" "138" c || one_of ["168"%char; "169"%char; "175"%char] c)
           || (a =? "226")%char && (b =? "129")%char && (c =? "159")%char
           || (a =? "227")%char && (b =? "128")%char && (c =? "128")%char
        then blank s3 else false
      | [] => false
      end
    | [] => false
    end
  end.

(** ** Positions (source/source.go) *)

Record Pos := MkPos { File : string; Line : Z; Col : Z }.
Record Span := MkSpan { Start : Pos; End_ : Pos }.

Definition buildLineStarts_from : nat -> bytes -> list nat :=
  fix go i input :=
    match input with
    | [] => []
    | c :: input' => if (c =? newline)%char then S i :: go (S i) input' else go (S i) input'
    end.

Definition buildLineStarts (input : bytes) : list nat := 0 :: buildLineStarts_from 0 input.

(** The binary search of locAt. The fuel is [hi - lo], which is 0 exactly when
    the guard [lo < hi] of the loop is false. *)
Fixpoint locSearch (fuel : nat) (lineStarts : list nat) (pos lo hi : nat) : nat :=
  match fuel with
  | O => lo
  | S fuel' =>
    if lo <? hi then
      let mid := (lo + hi + 1) / 2 in
      if lineStarts !!! mid <=? pos then locSearch fuel' lineStarts pos mid hi
      else locSearch fuel' lineStarts pos lo (mid - 1)
    else lo
  end.

Definition locAt (pos : nat) (lineStarts : list nat) (base : Pos) : Pos :=
  let lo := locSearch (length lineStarts - 1) lineStarts pos 0 (length lineStarts - 1) in
  let line := (Line base + Z.of_nat lo)%Z in
  let col := (if (lo =? 0)%nat then Col base + Z.of_nat pos - Z.of_nat (lineStarts !!! lo)
              else Z.of_nat pos - Z.of_nat (lineStarts !!! lo) + 1)%Z in
  MkPos (File base) line col.

Definition normalizeStartPos (p : Pos) : Pos :=
  MkPos (File p) (if (Line p <=? 0)%Z then 1%Z else Line p)
    (if (Col p <=? 0)%Z then 1%Z else Col p).

(** ** Tokens *)

Inductive TokenKind :=
| TokenWord | TokenAssign | TokenVarRef | TokenQuoted | TokenAdapterRef
| TokenSep | TokenThread | TokenBind | TokenInterpString.

Record InterpSegment := MkInterpSegment {
  segLiteral : bytes;
  segInner : bytes;
  segSpan : Span;
  segIsLit : bool
}.

Record Token := MkToken {
  tokKind : TokenKind;
  tokText : bytes;
  tokVarName : bytes;
  tokVarPath : bytes;
  tokAdapter : bytes;
  tokSegments : list InterpSegment;
  tokSpan : Span
}.

(** The zero Span of a token literal, before [emit] stamps it. *)
Definition zeroSpan : Span := MkSpan (MkPos "" 0 0) (MkPos "" 0 0).

Definition plainToken (k : TokenKind) (text : bytes) : Token :=
  MkToken k text [] [] [] [] zeroSpan.

Definition stamp (t : Token) (s : Span) : Token :=
  MkToken (tokKind t) (tokText t) (tokVarName t) (tokVarPath t) (tokAdapter t)
    (tokSegments t) s.

(** The message of a syntax error is the text of an error ([%v]). *)
Record SyntaxError := MkSyntaxError { errSpan : Span; errMsg : error; errCause : option error }.

Definition spanErrorf (span : Span) (err : error) : SyntaxError := MkSyntaxError span err None.

(** ** Comments *)

(** The loop of stripComment. [inComment] is the inner loop, which writes spaces
    up to the newline; the newline itself is then copied by the default case. *)
Fixpoint stripComment_from (inSingle inDouble inComment : bool) (input : bytes) : bytes :=
  match input with
  | [] => []
  | ch :: rest =>
    if inComment && negb (ch =? newline)%char then
      space :: stripComment_from inSingle inDouble true rest
    else if (ch =? backslash)%char && inDouble && negb (bool_decide (rest = [])) then
      match rest with
      | c2 :: rest2 => ch :: c2 :: stripComment_from inSingle inDouble false rest2
      | [] => []
      end
    else if (ch =? squote)%char && negb inDouble then
      ch :: stripComment_from (negb inSingle) inDouble false rest
    else if (ch =? dquote)%char && negb inSingle then
      ch :: stripComment_from inSingle (negb inDouble) false rest
    else if (ch =? hash)%char && negb inSingle && negb inDouble then
      space :: stripComment_from inSingle inDouble true rest
    else ch :: stripComment_from inSingle inDouble false rest
  end.

Definition stripComment (input : bytes) : bytes := stripComment_from false false false input.

(** ** Variable references *)

(** lexPathIndex returns the offset after the closing bracket, or the offset to
    cite together with an error. Its argument [where] only occurs in the text of
    the errors. *)
Definition lexPathIndex (input : bytes) (pos : nat) : nat * option error :=
  let j := pos + 1 in
  if at_ (Ascii.eqb dollar) input j then
    let k := j + 1 in
    if negb (at_ isIdentStart input k) then
      (Nat.min (k + 1) (length input), Some (Errorf "expected identifier after '[$'%s"))
    else
      let k := scan isIdentContinue input k in
      if negb (at_ (Ascii.eqb rbracket) input k) then
        (Nat.min (k + 1) (length input), Some (Errorf "expected ']' after '[$%s'%s"))
      else (k + 1, None)
  else
    let digitStart := j in
    let j := scan (between "0" "9") input j in
    if j =? digitStart then
      (Nat.min (j + 1) (length input), Some (Errorf "expected digits or '$ident' inside '[]'%s"))
    else if negb (at_ (Ascii.eqb rbracket) input j) then
      (Nat.min (j + 1) (length input), Some (Errorf "expected ']' after index%s"))
    else (j + 1, None).

(** The path loop of lexBareVarRef, from offset [i]. *)
Fixpoint barePath (fuel : nat) (input : bytes) (i : nat) : outcome error nat :=
  match fuel with
  | O => OutOfFuel
  | S fuel' =>
    if at_ (Ascii.eqb "."%char) input i then
      if negb (at_ isIdentStart input (i + 1)) then
        Failed (Errorf "invalid variable reference %q: expected identifier after '.'")
      else barePath fuel' input (scan isIdentContinue input (i + 1))
    else if at_ (Ascii.eqb lbracket) input i then
      match lexPathIndex input i with
      | (_, Some err) => Failed (Wrap "invalid variable reference %q: %w" err)
      | (next, None) => barePath fuel' input next
      end
    else Done i
  end.

(** [if len(path) > 0 && path[0] == '.' { path = path[1:] }] *)
Definition stripDot (path : bytes) : bytes :=
  match path with
  | c :: path' => if (c =? ".")%char then path' else path
  | [] => []
  end.

Definition varToken (text name path : bytes) : Token :=
  MkToken TokenVarRef text name path [] [] zeroSpan.

(** A successful lex function returns a token and the number of bytes it
    consumed; every error return of the source has the count 0. *)
Definition lexBareVarRef (input : bytes) (pos : nat) : outcome error (Token * nat) :=
  let i := pos + 1 in
  if negb (at_ isIdentStart input i) then
    Failed (Errorf "invalid variable reference: expected identifier after $")
  else
    let nameStart := i in
    let i := scan isIdentContinue input i in
    let name := slice input nameStart i in
    let pathStart := i in
    let? i := barePath (S (length input)) input i in
    let path := stripDot (slice input pathStart i) in
    Done (varToken (slice input pos i) name path, i - pos).

(** The path loop of lexBracedVarRef: it stops at the closing brace or at the
    end of the input. *)
Fixpoint bracedPath (fuel : nat) (input : bytes) (i : nat) : outcome error nat :=
  match fuel with
  | O => OutOfFuel
  | S fuel' =>
    match input !! i with
    | None => Done i
    | Some c =>
      if (c =? rbrace)%char then Done i
      else if (c =? ".")%char then
        if negb (at_ (fun d => negb (d =? rbrace)%char && isIdentStart d) input (i + 1)) then
          Failed (Errorf "invalid variable reference: expected identifier after '.' in ${...}")
        else
          bracedPath fuel' input
            (scan (fun d => negb (d =? rbrace)%char && isIdentContinue d) input (i + 1))
      else if (c =? lbracket)%char then
        match lexPathIndex input i with
        | (_, Some err) => Failed (Wrap "invalid variable reference: %w" err)
        | (next, None) => bracedPath fuel' input next
        end
      else Failed (Errorf "invalid variable reference: unexpected character %q in ${...} path")
    end
  end.

Definition lexBracedVarRef (input : bytes) (pos : nat) : outcome error (Token * nat) :=
  let i := pos + 2 in
  if negb (at_ (fun c => negb (c =? rbrace)%char) input i) then
    Failed (Errorf "empty variable reference: ${}")
  else if negb (at_ isIdentStart input i) then
    Failed (Errorf "invalid variable reference: expected identifier after ${")
  else
    let nameStart := i in
    let i := scan isIdentContinue input i in
    let name := slice input nameStart i in
    let pathStart := i in
    let? i := bracedPath (S (length input)) input i in
    if length input <=? i then
      Failed (Errorf "unterminated variable reference: missing }")
    else
      let path := stripDot (slice input pathStart i) in
      let i := i + 1 in
      Done (varToken (slice input pos i) name path, i - pos).

Definition lexVarRef (input : bytes) (pos : nat) : outcome error (Token * nat) :=
  match input !! (pos + 1) with
  | None => Failed (Errorf "unexpected end of input after $")
  | Some c => if (c =? lbrace)%char then lexBracedVarRef input pos else lexBareVarRef input pos
  end.

(** ** Quoted strings *)

Definition lexSingleQuoted (input : bytes) (pos : nat) : outcome error (Token * nat) :=
  let i := scan (fun c => negb (c =? squote)%char) input (pos + 1) in
  if length input <=? i then
    Failed (Errorf "unterminated single-quoted string (no matching ' before end of input)")
  else Done (plainToken TokenQuoted (slice input (pos + 1) i), i + 1 - pos).

(** The loop of scanInterpBody at offset [j] and brace depth [depth]. *)
Fixpoint scanInterpBody_from (fuel : nat) (input : bytes) (depth j : nat) : outcome error nat :=
  match fuel with
  | O => OutOfFuel
  | S fuel' =>
    match input !! j with
    | None => Failed (Errorf "unterminated interpolation in string: missing '}'")
    | Some c =>
      if (c =? lbrace)%char then scanInterpBody_from fuel' input (depth + 1) (j + 1)
      else if (c =? rbrace)%char then
        if depth - 1 =? 0 then Done j
        else scanInterpBody_from fuel' input (depth - 1) (j + 1)
      else if (c =? squote)%char then
        let k := scan (fun d => negb (d =? squote)%char) input (j + 1) in
        if length input <=? k then
          Failed (Errorf "unterminated single-quoted string inside ${...}")
        else scanInterpBody_from fuel' input depth (k + 1)
      else if (c =? dquote)%char then
        Failed (Errorf "unterminated interpolation in string: missing '}' (use single quotes for strings inside ${...})")
      else scanInterpBody_from fuel' input depth (j + 1)
    end
  end.

Definition scanInterpBody (input : bytes) (pos : nat) : outcome error nat :=
  scanInterpBody_from (S (length input)) input 1 pos.

(** The escapes of a double-quoted string. *)
Definition decodeEscape (c : ascii) : option ascii :=
  if (c =? "n")%char then Some newline
  else if (c =? "t")%char then Some tab
  else if (c =? "r")%char then Some return_
  else if (c =? backslash)%char then Some backslash
  else if (c =? dquote)%char then Some dquote
  else if (c =? dollar)%char then Some dollar
  else None.

(** The literal being built: [litOpen] with [litStart] and the bytes of [lit]. *)
Abbreviation literal := (option (nat * bytes)).

(** [startLiteral(at)] followed by [lit.WriteByte(b)] *)
Definition writeLiteral (lit : literal) (at' : nat) (b : ascii) : literal :=
  match lit with
  | Some (s, l) => Some (s, l ++ [b])
  | None => Some (at', [b])
  end.

Definition flushLiteral (loc : nat -> Pos) (segments : list InterpSegment) (lit : literal)
    (at' : nat) : list InterpSegment :=
  match lit with
  | Some (s, l) => segments ++ [MkInterpSegment l [] (MkSpan (loc s) (loc at')) true]
  | None => segments
  end.

(** The token of a closed double-quoted string, [input[pos:i]]. *)
Definition closeDoubleQuoted (input : bytes) (pos i : nat) (segments : list InterpSegment) : Token :=
  match segments with
  | [] => plainToken TokenQuoted []
  | [s] => if segIsLit s then plainToken TokenQuoted (segLiteral s)
           else MkToken TokenInterpString (slice input pos i) [] [] [] segments zeroSpan
  | _ => MkToken TokenInterpString (slice input pos i) [] [] [] segments zeroSpan
  end.

Fixpoint doubleQuoted (fuel : nat) (loc : nat -> Pos) (input : bytes) (pos : nat)
    (segments : list InterpSegment) (lit : literal) (i : nat) : outcome error (Token * nat) :=
  match fuel with
  | O => OutOfFuel
  | S fuel' =>
    match input !! i with
    | None =>
      Failed (Errorf "unterminated double-quoted string (no matching quote before end of input)")
    | Some ch =>
      if (ch =? dquote)%char then
        let segments := flushLiteral loc segments lit i in
        let i := i + 1 in
        Done (closeDoubleQuoted input pos i segments, i - pos)
      else if (ch =? backslash)%char then
        match input !! (i + 1) with
        | None => Failed (Errorf "unterminated escape sequence at end of string")
        | Some e =>
          match decodeEscape e with
          | None => Failed (Errorf "unknown escape sequence '\%c' in double-quoted string; recognised escapes are \n, \t, \r, \\, \quote, \$")
          | Some decoded =>
            doubleQuoted fuel' loc input pos segments (writeLiteral lit i decoded) (i + 2)
          end
        end
      else if (ch =? dollar)%char then
        if negb (at_ (Ascii.eqb lbrace) input (i + 1)) then
          Failed (Errorf "'$' in double-quoted string must be followed by '{...}' (use single quotes or '\$' for a literal '$')")
        else
          let segments := flushLiteral loc segments lit i in
          let? innerEnd := scanInterpBody input (i + 2) in
          let inner := slice input (i + 2) innerEnd in
          if blank inner then Failed (Errorf "empty interpolation '${}' in string")
          else
            let seg := MkInterpSegment [] inner (MkSpan (loc i) (loc (innerEnd + 1))) false in
            doubleQuoted fuel' loc input pos (segments ++ [seg]) None (innerEnd + 1)
      else doubleQuoted fuel' loc input pos segments (writeLiteral lit i ch) (i + 1)
    end
  end.

Definition lexDoubleQuoted (input : bytes) (pos : nat) (base : Pos) : outcome error (Token * nat) :=
  let lineStarts := buildLineStarts input in
  doubleQuoted (S (length input)) (fun p => locAt p lineStarts base) input pos [] None (pos + 1).

Definition lexQuoted (input : bytes) (pos : nat) (base : Pos) : outcome error (Token * nat) :=
  if at_ (Ascii.eqb squote) input pos then lexSingleQuoted input pos
  else lexDoubleQuoted input pos base.

(** ** Words and adapters *)

(** The bytes that end a word. *)
Definition endsWord (ch : ascii) : bool :=
  one_of [space; tab; return_; newline; ";"%char; dollar; dquote; squote; hash;
          lbracket; rbracket; lbrace; rbrace; "("%char; ")"%char; "+"%char; "*"%char; "%"%char] ch.

Definition lexWord (input : bytes) (pos : nat) : Token * nat :=
  let i := scan (fun ch => negb (endsWord ch)) input pos in
  (plainToken TokenWord (slice input pos i), i - pos).

Definition adapterPrefixes : list bytes := ["f"; "i"; "l"; "e"]%char :: [].

(** The loop of lexAdapterRef over the known prefixes; [None] is [ok == false]. *)
Fixpoint lexAdapterRef_in (prefixes : list bytes) (input : bytes) (pos : nat)
    : outcome error (option (Token * nat)) :=
  match prefixes with
  | [] => Done None
  | prefix :: prefixes' =>
    let full := prefix ++ [":"%char] in
    if negb (bool_decide (take (length full) (drop pos input) = full)) then
      lexAdapterRef_in prefixes' input pos
    else
      let afterColon := pos + length full in
      if negb (at_ (Ascii.eqb dollar) input afterColon) then
        lexAdapterRef_in prefixes' input pos
      else
        match lexVarRef input afterColon with
        | Failed _ => Done None
        | OutOfFuel => OutOfFuel
        | Done (tok, n) =>
          Done (Some (MkToken TokenAdapterRef (slice input pos (afterColon + n))
                        (tokVarName tok) (tokVarPath tok) prefix [] zeroSpan,
                      afterColon + n - pos))
        end
  end.

Definition lexAdapterRef (input : bytes) (pos : nat) : outcome error (option (Token * nat)) :=
  lexAdapterRef_in adapterPrefixes input pos.

(** ** The main loop *)

Definition isTokenStart (tokens : list Token) : bool := negb (bool_decide (tokens = [])).

(** What one iteration does: skip [n] bytes, or emit a token of [n] bytes. *)
Inductive step :=
| Skip (n : nat)
| Emit (tok : Token) (n : nat).

Definition mapFailed {E F A} (f : E -> F) (o : outcome E A) : outcome F A :=
  match o with
  | Done a => Done a
  | Failed e => Failed (f e)
  | OutOfFuel => OutOfFuel
  end.

(** The body of the loop of tokeniseAt at offset [i], where the byte is [ch].
    The failure of lexVarRef cites one byte, the failure of lexQuoted the
    opening quote. *)
Definition tokenStep (input : bytes) (base : Pos) (tokens : list Token) (i : nat) (ch : ascii)
    : outcome SyntaxError step :=
  let loc := fun p => locAt p (buildLineStarts input) base in
  if one_of [space; tab; return_] ch then Done (Skip 1)
  else if (ch =? backslash)%char && at_ (Ascii.eqb newline) input (i + 1) then Done (Skip 2)
  else if (ch =? backslash)%char && at_ (Ascii.eqb return_) input (i + 1)
          && at_ (Ascii.eqb newline) input (i + 2) then Done (Skip 3)
  else if one_of [newline; ";"%char] ch then Done (Emit (plainToken TokenSep [ch]) 1)
  else if one_of [lbrace; rbrace; "("%char; ")"%char] ch then
    Done (Emit (plainToken TokenWord [ch]) 1)
  else if one_of ["+"%char; "*"%char; "%"%char] ch then
    Done (Emit (plainToken TokenWord [ch]) 1)
  else if (ch =? "=")%char && isTokenStart tokens then
    if at_ (Ascii.eqb "="%char) input (i + 1)
    then Done (Emit (plainToken TokenWord ["="; "="]%char) 2)
    else Done (Emit (plainToken TokenAssign ["="]%char) 1)
  else if (ch =? dollar)%char then
    let? (tok, n) := mapFailed (spanErrorf (MkSpan (loc i) (loc (i + 1)))) (lexVarRef input i) in
    Done (Emit tok n)
  else if one_of [dquote; squote] ch then
    let? (tok, n) := mapFailed (spanErrorf (MkSpan (loc i) (loc i))) (lexQuoted input i base) in
    Done (Emit tok n)
  else if one_of [lbracket; rbracket] ch then Done (Emit (plainToken TokenWord [ch]) 1)
  else if (ch =? "|")%char && at_ (Ascii.eqb ">"%char) input (i + 1) then
    Done (Emit (plainToken TokenThread ["|"; ">"]%char) 2)
  else if (ch =? "<")%char && at_ (Ascii.eqb "-"%char) input (i + 1) then
    Done (Emit (plainToken TokenBind ["<"; "-"]%char) 2)
  else
    match lexAdapterRef input i with
    | Done (Some (tok, n)) => Done (Emit tok n)
    | Done None => let '(tok, n) := lexWord input i in Done (Emit tok n)
    | Failed e => Failed (spanErrorf (MkSpan (loc i) (loc i)) e)
    | OutOfFuel => OutOfFuel
    end.

Fixpoint tokenLoop (fuel : nat) (input : bytes) (base : Pos) (tokens : list Token) (i : nat)
    : outcome SyntaxError (list Token) :=
  match fuel with
  | O => OutOfFuel
  | S fuel' =>
    match input !! i with
    | None => Done tokens
    | Some ch =>
      let? s := tokenStep input base tokens i ch in
      match s with
      | Skip n => tokenLoop fuel' input base tokens (i + n)
      | Emit tok n =>
        let span := MkSpan (locAt i (buildLineStarts input) base)
                      (locAt (i + n) (buildLineStarts input) base) in
        tokenLoop fuel' input base (tokens ++ [stamp tok span]) (i + n)
      end
    end
  end.

Definition tokeniseAt (fuel : nat) (start : Pos) (input : bytes)
    : outcome SyntaxError (list Token) :=
  let input := stripComment input in
  if blank input then Done []
  else tokenLoop fuel input (normalizeStartPos start) [] 0.

Definition Tokenise (fuel : nat) (input : bytes) : outcome SyntaxError (list Token) :=
  tokeniseAt fuel (MkPos "" 1 1) input.

(** ** Printing (sourcefmt.go) *)

Definition writeVarPathSource (path : bytes) : bytes :=
  match path with
  | [] => []
  | c :: _ => if (c =? lbracket)%char then path else "."%char :: path
  end.

(** The escape of one rune in a double-quoted string; every rune that is escaped
    is ASCII. *)
Definition escapeByte (r : ascii) : bytes :=
  if (r =? newline)%char then [backslash; "n"%char]
  else if (r =? tab)%char then [backslash; "t"%char]
  else if (r =? return_)%char then [backslash; "r"%char]
  else if (r =? backslash)%char then [backslash; backslash]
  else if (r =? dquote)%char then [backslash; dquote]
  else if (r =? dollar)%char then [backslash; dollar]
  else [r].

(** U+FFFD, which [range] yields for a byte that starts no valid rune. *)
Definition runeError : bytes := ["239"; "191"; "189"]%char.

(** The UTF-8 encodings of two, three and four bytes. *)
Definition cont (c : ascii) : bool := between "128" "191" c.
Definition rune2 (a b : ascii) : bool := between "194" "223" a && cont b.
Definition rune3 (a b c : ascii) : bool :=
  ((a =? "224")%char && between "160" "191" b
   || (between "225" "236" a || between "238" "239" a) && cont b
   || (a =? "237")%char && between "128" "159" b) && cont c.
Definition rune4 (a b c d : ascii) : bool :=
  ((a =? "240")%char && between "144" "191" b
   || between "241" "243" a && cont b
   || (a =? "244")%char && between "128" "143" b) && cont c && cont d.

(** The loop over the runes of the text. *)
Fixpoint writeDoubleQuotedContent (text : bytes) : bytes :=
  match text with
  | [] => []
  | a :: t1 =>
    if between "000" "127" a then escapeByte a ++ writeDoubleQuotedContent t1
    else match t1 with
    | b :: t2 =>
      if rune2 a b then a :: b :: writeDoubleQuotedContent t2
      else match t2 with
      | c :: t3 =>
        if rune3 a b c then a :: b :: c :: writeDoubleQuotedContent t3
        else match t3 with
        | d :: t4 =>
          if rune4 a b c d then a :: b :: c :: d :: writeDoubleQuotedContent t4
          else runeError ++ writeDoubleQuotedContent t1
        | [] => runeError ++ writeDoubleQuotedContent t1
        end
      | [] => runeError ++ writeDoubleQuotedContent t1
      end
    | [] => runeError ++ writeDoubleQuotedContent t1
    end
  end.

Definition containsAny (text cs : bytes) : bool := existsb (one_of cs) text.

Definition writeQuotedLiteralSource (text : bytes) : bytes :=
  if containsAny text [dquote; dollar] && negb (containsAny text [squote])
     && negb (containsAny text [newline; tab; return_])
  then [squote] ++ text ++ [squote]
  else [dquote] ++ writeDoubleQuotedContent text ++ [dquote].
