(* ===== verification/LexerPos.v ===== *)
(** * Offsets, slices and positions of the tokeniser

    The lemmas on scans and slices that the theorems about token.go share, the
    reference position of an offset (walk over the bytes before it) with the
    proof that the binary search of locAt computes it, and what stripComment
    leaves unchanged. *)

From Stdlib Require Import ZArith Lia Ascii.
From stdpp Require Import base tactics list strings option.
From S2P Require Import Prelude Lexer.

Create HintDb lex.

(** ** Bytes *)

Lemma eqb_true (c d : ascii) : (c =? d)%char = true <-> c = d.
Proof. apply Ascii.eqb_eq. Qed.

Lemma eqb_false (c d : ascii) : (c =? d)%char = false <-> c <> d.
Proof. apply Ascii.eqb_neq. Qed.

Lemma one_of_spec l c : one_of l c = true <-> c ∈ l.
Proof.
  unfold one_of. rewrite existsb_exists. split.
  - intros (x & Hx & E). apply eqb_true in E as ->. by apply list_elem_of_In.
  - intros Hc. exists c. split; [by apply list_elem_of_In|by apply eqb_true].
Qed.

Lemma one_of_false l c : one_of l c = false <-> c ∉ l.
Proof. rewrite <- not_true_iff_false, one_of_spec. done. Qed.

Lemma at_true p input i : at_ p input i = true <-> exists c, input !! i = Some c /\ p c = true.
Proof.
  unfold at_. destruct (input !! i); naive_solver.
Qed.

Lemma at_eqb d input i : at_ (Ascii.eqb d) input i = true <-> input !! i = Some d.
Proof.
  rewrite at_true. split; [|intros H; exists d; by rewrite eqb_true].
  intros (c & H & E). by apply eqb_true in E as ->.
Qed.

Lemma at_lt p input i : at_ p input i = true -> i < length input.
Proof. intros (c & H & _)%at_true. by apply lookup_lt_Some in H. Qed.

(** ** Scans *)

Lemma scan_ge p input i : i <= scan p input i.
Proof. unfold scan. lia. Qed.

Lemma prefix_len_le p l : prefix_len p l <= length l.
Proof. induction l as [|c l IH]; simpl; [lia|]. destruct (p c); lia. Qed.

Lemma scan_le p input i : i <= length input -> scan p input i <= length input.
Proof. intros. unfold scan. pose proof (prefix_len_le p (drop i input)). rewrite length_drop in *. lia. Qed.

Lemma prefix_len_forall p l : Forall (fun c => p c = true) (take (prefix_len p l) l).
Proof. induction l as [|c l IH]; simpl; [constructor|]. destruct (p c) eqn:E; simpl; by constructor. Qed.

Lemma prefix_len_stop p l c : l !! prefix_len p l = Some c -> p c = false.
Proof.
  induction l as [|d l IH]; simpl; [done|]. destruct (p d) eqn:E; simpl; [done|]. by intros [= <-].
Qed.

Lemma scan_forall p input i : Forall (fun c => p c = true) (slice input i (scan p input i)).
Proof.
  unfold slice, scan. replace (i + prefix_len p (drop i input) - i) with (prefix_len p (drop i input)) by lia.
  apply prefix_len_forall.
Qed.

Lemma scan_stop p input i c : input !! scan p input i = Some c -> p c = false.
Proof. unfold scan. rewrite <- lookup_drop. apply prefix_len_stop. Qed.

Lemma scan_step p input i c :
  input !! i = Some c -> p c = true -> scan p input i = scan p input (S i).
Proof.
  intros H Hp. unfold scan. rewrite (drop_S _ _ _ H). simpl. rewrite Hp. lia.
Qed.

Lemma scan_gt p input i : at_ p input i = true -> i < scan p input i.
Proof.
  intros (c & H & Hp)%at_true. rewrite (scan_step _ _ _ _ H Hp).
  pose proof (scan_ge p input (S i)). lia.
Qed.

(** The scan ends after [l] when [l] satisfies [p] and the byte after it does not. *)
Lemma prefix_len_app p l r :
  Forall (fun c => p c = true) l -> prefix_len p (l ++ r) = length l + prefix_len p r.
Proof. induction 1 as [|c l Hc _ IH]; simpl; [done|]. by rewrite Hc, IH. Qed.

(** ** Slices *)

Lemma slice_nil input a : slice input a a = [].
Proof. unfold slice. by rewrite Nat.sub_diag. Qed.

Lemma slice_length input a b : a <= b -> b <= length input -> length (slice input a b) = b - a.
Proof. intros. unfold slice. rewrite length_take, length_drop. lia. Qed.

Lemma slice_app input a b c :
  a <= b -> b <= c -> slice input a c = slice input a b ++ slice input b c.
Proof.
  intros. unfold slice.
  replace (drop b input) with (drop (b - a) (drop a input)) by (rewrite drop_drop; f_equal; lia).
  replace (c - a) with ((b - a) + (c - b)) by lia. by rewrite <- take_take_drop.
Qed.

Lemma slice_cons input a b c : input !! a = Some c -> a < b -> slice input a b = c :: slice input (S a) b.
Proof.
  intros H ?. unfold slice. rewrite (drop_S _ _ _ H).
  replace (b - a) with (S (b - S a)) by lia. done.
Qed.

Lemma slice_one input a c : input !! a = Some c -> slice input a (a + 1) = [c].
Proof.
  intros H. rewrite (slice_cons _ _ _ c H) by lia. replace (a + 1) with (S a) by lia.
  by rewrite slice_nil.
Qed.

Lemma slice_two input a c d :
  input !! a = Some c -> input !! (a + 1) = Some d -> slice input a (a + 2) = [c; d].
Proof.
  intros H1 H2. rewrite (slice_app _ _ (a + 1)) by lia.
  rewrite (slice_one _ _ _ H1). replace (a + 2) with (a + 1 + 1) by lia. by rewrite (slice_one _ _ _ H2).
Qed.

Lemma slice_lookup input a b j c :
  slice input a b !! j = Some c <-> a + j < b /\ input !! (a + j) = Some c.
Proof.
  unfold slice. rewrite lookup_take_Some, lookup_drop. intuition lia.
Qed.

Lemma slice_elem input a b c :
  c ∈ slice input a b <-> exists i, a <= i < b /\ input !! i = Some c.
Proof.
  rewrite list_elem_of_lookup. setoid_rewrite slice_lookup. split.
  - intros (j & ? & ?). exists (a + j). split; [lia|done].
  - intros (i & ? & ?). exists (i - a). replace (a + (i - a)) with i by lia. split; [lia|done].
Qed.

(** ** Reference positions *)

(** The position after one more byte. *)
Definition advance (p : Pos) (c : ascii) : Pos :=
  if (c =? newline)%char then MkPos (File p) (Line p + 1) 1
  else MkPos (File p) (Line p) (Col p + 1).

(** The position of offset [off]: walk over the bytes before it. *)
Definition posOf (base : Pos) (input : bytes) (off : nat) : Pos :=
  foldl advance base (take off input).

Lemma lineStarts_from_app i l1 l2 :
  buildLineStarts_from i (l1 ++ l2) =
  buildLineStarts_from i l1 ++ buildLineStarts_from (i + length l1) l2.
Proof.
  revert i; induction l1 as [|c l1 IH]; intros i; simpl; [by rewrite Nat.add_0_r|].
  rewrite IH. replace (S i + length l1) with (i + S (length l1)) by lia. by destruct (_ =? _)%char.
Qed.

Lemma lineStarts_from_bounds i l : Forall (fun s => i < s <= i + length l) (buildLineStarts_from i l).
Proof.
  revert i; induction l as [|c l IH]; intros i; simpl; [constructor|].
  assert (Forall (fun s => i < s <= i + S (length l)) (buildLineStarts_from (S i) l)).
  { eapply Forall_impl; [|apply IH]; simpl; lia. }
  destruct (_ =? _)%char; [constructor; [lia|]|]; done.
Qed.

(** The binary search finds the last entry that is not after [pos]. *)
Lemma locSearch_last pos A R fuel lo hi :
  Forall (fun s => s <= pos) A -> Forall (fun s => pos < s) R ->
  lo < length A -> length A <= S hi -> hi < length (A ++ R) -> hi - lo <= fuel ->
  locSearch fuel (A ++ R) pos lo hi = length A - 1.
Proof.
  intros HA HR. revert lo hi. induction fuel as [|fuel IH]; intros lo hi Hlo Hhi Hlen Hf; cbn [locSearch]; [lia|].
  destruct (Nat.ltb_spec lo hi) as [Hlt|]; [|lia].
  set (mid := (lo + hi + 1) / 2).
  assert (lo < mid <= hi) as Hmid.
  { unfold mid. split; [apply Nat.div_le_lower_bound; lia|].
    apply Nat.lt_succ_r, Nat.Div0.div_lt_upper_bound; lia. }
  assert ((A ++ R) !! mid = Some ((A ++ R) !!! mid)) as Hm.
  { apply list_lookup_lookup_total_lt. lia. }
  destruct (Nat.leb_spec ((A ++ R) !!! mid) pos) as [Hle|Hgt].
  - apply IH; try lia. destruct (decide (mid < length A)); [done|].
    rewrite lookup_app_r in Hm by lia. eapply Forall_lookup_1 in HR; [|exact Hm]. simpl in HR; lia.
  - apply IH; try lia. destruct (decide (mid < length A)) as [HltA|]; [|lia].
    rewrite lookup_app_l in Hm by done. eapply Forall_lookup_1 in HA; [|exact Hm]. simpl in HA; lia.
Qed.

Lemma buildLineStarts_snoc l c :
  buildLineStarts (l ++ [c]) =
  buildLineStarts l ++ if (c =? newline)%char then [S (length l)] else [].
Proof.
  unfold buildLineStarts. rewrite lineStarts_from_app. simpl. by destruct (_ =? _)%char.
Qed.

(** The walk in terms of the line starts of the bytes walked over. *)
Lemma walk_lineStarts base l :
  let A := buildLineStarts l in
  foldl advance base l =
  MkPos (File base) (Line base + Z.of_nat (length A - 1))
    (if (length A - 1 =? 0)%nat then Col base + Z.of_nat (length l) - Z.of_nat (A !!! (length A - 1)%nat)
     else Z.of_nat (length l) - Z.of_nat (A !!! (length A - 1)%nat) + 1)%Z.
Proof.
  cbv zeta. induction l as [|c l IH] using rev_ind; [simpl; destruct base; f_equal; simpl; lia|].
  rewrite foldl_app. cbn [foldl]. rewrite IH, buildLineStarts_snoc. clear IH.
  set (A := buildLineStarts l). assert (0 < length A) by (unfold A; simpl; lia).
  clearbody A. unfold advance. destruct (_ =? _)%char; cbn [File Line Col].
  - rewrite length_app. cbn [length]. replace (length A + 1 - 1) with (length A) by lia.
    destruct (Nat.eqb_spec (length A) 0); [lia|].
    rewrite lookup_total_app_r, Nat.sub_diag by lia. cbn. rewrite length_app. f_equal; simpl; lia.
  - rewrite app_nil_r, length_app. cbn [length]. f_equal. destruct (_ =? 0)%nat; lia.
Qed.

Lemma locAt_posOf base input off :
  off <= length input -> locAt off (buildLineStarts input) base = posOf base input off.
Proof.
  intros Hoff. unfold posOf. rewrite walk_lineStarts.
  set (l := take off input). assert (length l = off) as Hl by (unfold l; rewrite length_take; lia).
  assert (buildLineStarts input =
          buildLineStarts l ++ buildLineStarts_from (length l) (drop off input)) as Hsp.
  { rewrite <- (take_drop off input) at 1. unfold buildLineStarts. by rewrite lineStarts_from_app. }
  unfold locAt. rewrite Hsp. set (A := buildLineStarts l). set (R := buildLineStarts_from _ _).
  assert (0 < length A) by (unfold A; simpl; lia).
  rewrite locSearch_last; rewrite ?length_app; try lia.
  - rewrite lookup_total_app_l by lia. by rewrite Hl.
  - unfold A, buildLineStarts. constructor; [lia|].
    eapply Forall_impl; [|apply lineStarts_from_bounds]; simpl; lia.
  - eapply Forall_impl; [|apply lineStarts_from_bounds]; simpl; lia.
Qed.

(** ** stripComment *)

(** The stripped input has a byte for each byte: the same byte, or a space for a
    byte that is not a newline. *)
Definition covers (c s : ascii) : Prop := s = c \/ s = space /\ c <> newline.

Lemma stripComment_from_covers b1 b2 b3 input :
  Forall2 covers input (stripComment_from b1 b2 b3 input).
Proof.
  unfold covers. revert b1 b2 b3.
  revert input. induction input as [input IH] using (induction_ltof1 _ (@length ascii)); unfold ltof in IH.
  intros b1 b2 b3. destruct input as [|ch rest]; simpl; [constructor|].
  destruct (b3 && negb (ch =? newline)%char) eqn:E1.
  { apply andb_prop in E1 as [_ E1%negb_true_iff%eqb_false].
    constructor; [by right|]. apply IH; simpl; lia. }
  destruct ((ch =? backslash)%char && b2 && negb (bool_decide (rest = []))) eqn:E2.
  { destruct rest as [|c2 rest2]; [rewrite andb_false_r in E2; done|].
    constructor; [by left|]. constructor; [by left|]. apply IH; simpl; lia. }
  destruct (_ && negb b2); [constructor; [by left|apply IH; simpl; lia]|].
  destruct (_ && negb b1); [constructor; [by left|apply IH; simpl; lia]|].
  destruct ((ch =? hash)%char && negb b1 && negb b2) eqn:E3; (constructor; [|apply IH; simpl; lia]).
  - right. split; [done|]. apply andb_prop in E3 as [[E3%eqb_true _]%andb_prop _]. by subst.
  - by left.
Qed.

Lemma stripComment_covers input : Forall2 covers input (stripComment input).
Proof. apply stripComment_from_covers. Qed.

Lemma stripComment_length input : length (stripComment input) = length input.
Proof. symmetry. eapply Forall2_length, stripComment_covers. Qed.

Lemma walk_covers base l1 l2 :
  Forall2 covers l1 l2 -> foldl advance base l1 = foldl advance base l2.
Proof.
  intros H. revert base. induction H as [|c s l1 l2 [->|[-> Hc]] _ IH]; intros base; simpl; [done|done|].
  rewrite IH. f_equal. unfold advance. by apply eqb_false in Hc as ->.
Qed.

(** Positions in the stripped input are positions in the input. *)
Lemma posOf_stripComment base input off : posOf base (stripComment input) off = posOf base input off.
Proof. symmetry. apply walk_covers, Forall2_take, stripComment_covers. Qed.
