(* ===== verification/LexerCover.v ===== *)
(** * What the tokens of an input are

    The tokens of a successful run tile the input: between them lie only white
    space, line continuations and comments, each one is described by the bytes it
    spans, and carries their positions. *)

From Stdlib Require Import ZArith Lia Ascii.
From stdpp Require Import base tactics list strings option sets.
From S2P Require Import Prelude Lexer LexerPos.

(** ** The text of a token *)

Definition isName (name : bytes) : Prop :=
  match name with
  | [] => False
  | c :: r => isIdentStart c = true /\ Forall (fun d => isIdentContinue d = true) r
  end.

(** [s] is the bare or the braced reference to [name] with [path]. *)
Definition refersTo (name path s : bytes) : Prop :=
  isName name /\
  (s = [dollar] ++ name ++ writeVarPathSource path \/
   s = [dollar; lbrace] ++ name ++ writeVarPathSource path ++ [rbrace]).

(** [t] is the text between double quotes that stands for [s]. *)
Inductive unescapes : bytes -> bytes -> Prop :=
| unescapes_nil : unescapes [] []
| unescapes_plain s t c :
    c ∉ [dquote; backslash; dollar] -> unescapes s t -> unescapes (s ++ [c]) (t ++ [c])
| unescapes_escape s t c d :
    decodeEscape c = Some d -> unescapes s t -> unescapes (s ++ [backslash; c]) (t ++ [d]).

Definition segmentFor (seg : InterpSegment) (s : bytes) : Prop :=
  if segIsLit seg then unescapes s (segLiteral seg)
  else s = [dollar; lbrace] ++ segInner seg ++ [rbrace] /\ blank (segInner seg) = false.

Section input.
Context (base : Pos) (input : bytes).

Definition spanOf (i j : nat) : Span := MkSpan (posOf base input i) (posOf base input j).

(** The segments tile the bytes from [i] to the last offset. *)
Inductive segmentsAt : nat -> list InterpSegment -> nat -> Prop :=
| segmentsAt_nil i : segmentsAt i [] i
| segmentsAt_snoc i segs j k seg :
    segmentsAt i segs j -> j < k -> k <= length input ->
    segSpan seg = spanOf j k -> segmentFor seg (slice input j k) ->
    segmentsAt i (segs ++ [seg]) k.

(** The token [t] stands for the bytes from [i] to [j]. *)
Definition describes (t : Token) (i j : nat) : Prop :=
  let s := slice input i j in
  match tokKind t with
  | TokenVarRef => tokText t = s /\ refersTo (tokVarName t) (tokVarPath t) s
  | TokenAdapterRef =>
    tokText t = s /\ tokAdapter t ∈ adapterPrefixes /\
    exists r, s = tokAdapter t ++ ":"%char :: r /\ refersTo (tokVarName t) (tokVarPath t) r
  | TokenQuoted =>
    s = [squote] ++ tokText t ++ [squote] /\ squote ∉ tokText t \/
    exists body, s = [dquote] ++ body ++ [dquote] /\ unescapes body (tokText t)
  | TokenInterpString =>
    tokText t = s /\ input !! i = Some dquote /\ input !! (j - 1) = Some dquote /\
    segmentsAt (i + 1) (tokSegments t) (j - 1)
  | TokenAssign => tokText t = s /\ s = ["="%char]
  | TokenThread => tokText t = s /\ s = ["|"; ">"]%char
  | TokenBind => tokText t = s /\ s = ["<"; "-"]%char
  | TokenSep => tokText t = s /\ s ∈ [[newline]; [";"%char]]
  | TokenWord =>
    tokText t = s /\
    (s ∈ [[lbrace]; [rbrace]; ["("]; [")"]; ["+"]; ["*"]; ["%"]; ["="; "="]; [lbracket]; [rbracket]]%char
     \/ Forall (fun c => endsWord c = false) s)
  end.

(** What lies between tokens. *)
Definition skipped (s : bytes) : Prop :=
  s ∈ [[space]; [tab]; [return_]; [backslash; newline]; [backslash; return_; newline]].

(** The tokens tile the input from offset [i] to its end. *)
Inductive tiles : nat -> list Token -> Prop :=
| tiles_end : tiles (length input) []
| tiles_skip i j toks :
    i < j -> j <= length input -> skipped (slice input i j) -> tiles j toks -> tiles i toks
| tiles_token i j t toks :
    i < j -> j <= length input -> describes t i j -> tokSpan t = spanOf i j ->
    tiles j toks -> tiles i (t :: toks).
End input.

(** ** Scanned names *)

Lemma scan_name input i :
  at_ isIdentStart input i = true -> isName (slice input i (scan isIdentContinue input i)).
Proof.
  intros H. pose proof H as (c & Hc & Hs)%at_true.
  assert (isIdentContinue c = true) as Hcont by (unfold isIdentContinue; by rewrite Hs).
  pose proof (scan_gt isIdentContinue input i) as Hgt.
  rewrite (slice_cons _ _ _ c Hc) by (apply Hgt, at_true; eauto).
  simpl. split; [done|]. rewrite (scan_step _ _ _ _ Hc Hcont). apply scan_forall.
Qed.

(** No quote lies between [i] and [j]. *)
Definition quoteless (input : bytes) (i j : nat) : Prop :=
  Forall (fun c => c <> squote /\ c <> dquote) (slice input i j).

Lemma quoteless_nil input i : quoteless input i i.
Proof. unfold quoteless. rewrite slice_nil. constructor. Qed.

Lemma quoteless_app input i j k :
  i <= j -> j <= k -> quoteless input i j -> quoteless input j k -> quoteless input i k.
Proof. unfold quoteless. intros. rewrite (slice_app _ i j k) by done. by apply Forall_app. Qed.

Lemma quoteless_one input i c :
  input !! i = Some c -> one_of [squote; dquote] c = false -> quoteless input i (i + 1).
Proof.
  intros H Hc%one_of_false. unfold quoteless. rewrite (slice_one _ _ _ H).
  constructor; [set_solver|constructor].
Qed.

Lemma quoteless_at p input i :
  (forall c, p c = true -> one_of [squote; dquote] c = false) ->
  at_ p input i = true -> quoteless input i (i + 1).
Proof. intros Hp (c & H & E)%at_true. eapply quoteless_one; eauto. Qed.

Lemma quoteless_scan p input i :
  (forall c, p c = true -> one_of [squote; dquote] c = false) -> quoteless input i (scan p input i).
Proof.
  intros Hp. eapply Forall_impl; [apply scan_forall|]. simpl. intros c Hc%Hp%one_of_false.
  set_solver.
Qed.

(** Facts about single bytes are decided by computing over all of them. *)
Lemma all_bytes (p : ascii -> bool) :
  forallb (fun n => p (ascii_of_nat n)) (seq 0 256) = true -> forall c, p c = true.
Proof.
  intros H c. rewrite forallb_forall in H. rewrite <- (ascii_nat_embedding c). apply H.
  apply in_seq. pose proof (nat_ascii_bounded c). lia.
Qed.

Lemma byte_implies (p q : ascii -> bool) :
  forallb (fun n => implb (p (ascii_of_nat n)) (q (ascii_of_nat n))) (seq 0 256) = true ->
  forall c, p c = true -> q c = true.
Proof.
  intros H c Hp. pose proof (all_bytes (fun c => implb (p c) (q c)) H c) as E. simpl in E.
  by rewrite Hp in E.
Qed.

Lemma ident_quoteless c : isIdentContinue c = true -> one_of [squote; dquote] c = false.
Proof.
  intros H. apply negb_true_iff. revert c H.
  apply (byte_implies _ (fun c => negb (one_of [squote; dquote] c))). by vm_compute.
Qed.

Lemma identStart_continue c : isIdentStart c = true -> isIdentContinue c = true.
Proof. unfold isIdentContinue. by intros ->. Qed.

Lemma digit_quoteless c : between "0" "9" c = true -> one_of [squote; dquote] c = false.
Proof. intros H. apply ident_quoteless. unfold isIdentContinue. rewrite H. apply orb_true_r. Qed.

Lemma eqb_quoteless d c :
  one_of [squote; dquote] d = false -> Ascii.eqb d c = true -> one_of [squote; dquote] c = false.
Proof. intros H E. by apply eqb_true in E as <-. Qed.

#[export] Hint Resolve quoteless_nil ident_quoteless digit_quoteless eqb_quoteless identStart_continue
  scan_ge at_lt : lex.

(** ** Variable references *)

(** Where a loop that started at [i] may stop. *)
Definition advanced (input : bytes) (i j : nat) : Prop :=
  i <= j /\ j <= length input /\ quoteless input i j.

Lemma advanced_refl input i : i <= length input -> advanced input i i.
Proof. unfold advanced. eauto with lex. Qed.

Lemma advanced_trans input i j k : advanced input i j -> advanced input j k -> advanced input i k.
Proof.
  intros (? & ? & ?) (? & ? & ?). unfold advanced. split_and!; [lia|done|].
  by eapply (quoteless_app _ _ j).
Qed.

(** Compose the advances of the context. *)
Ltac chain_advanced :=
  match goal with
  | H : ?P |- ?P => exact H
  | H : advanced _ ?i _ |- advanced _ ?i _ => eapply advanced_trans; [exact H|chain_advanced]
  end.

Lemma advanced_at p input i :
  (forall c, p c = true -> one_of [squote; dquote] c = false) ->
  at_ p input i = true -> advanced input i (i + 1).
Proof.
  intros Hp H. unfold advanced. pose proof (at_lt _ _ _ H). split_and!; [lia|lia|].
  by eapply quoteless_at.
Qed.

Lemma advanced_scan p input i :
  (forall c, p c = true -> one_of [squote; dquote] c = false) ->
  i <= length input -> advanced input i (scan p input i).
Proof.
  intros Hp H. unfold advanced. split_and!; [apply scan_ge|by apply scan_le|by apply quoteless_scan].
Qed.

Lemma advanced_byte d input i :
  one_of [squote; dquote] d = false -> at_ (Ascii.eqb d) input i = true -> advanced input i (i + 1).
Proof. intros Hd. apply advanced_at. intros c. by apply eqb_quoteless. Qed.

Lemma lexPathIndex_done input i next :
  input !! i = Some lbracket -> lexPathIndex input i = (next, None) ->
  i + 1 < next /\ advanced input i next.
Proof.
  intros Hi. assert (advanced input i (i + 1)) as H0.
  { apply (advanced_byte lbracket); [done|by apply at_eqb]. }
  unfold lexPathIndex. destruct (at_ (Ascii.eqb dollar) input (i + 1)) eqn:E1.
  - destruct (at_ isIdentStart input (i + 1 + 1)) eqn:E2; [|done]. cbn [negb].
    destruct (at_ (Ascii.eqb rbracket) _ _) eqn:E3; [|done]. intros [= <-].
    apply (advanced_byte dollar) in E1; [|done]. apply (advanced_byte rbracket) in E3; [|done].
    assert (advanced input (i + 1 + 1) (scan isIdentContinue input (i + 1 + 1))) as E4.
    { apply advanced_scan; [eauto with lex|]. apply at_lt in E2. lia. }
    split; [pose proof (scan_ge isIdentContinue input (i + 1 + 1)); lia|].
    chain_advanced.
  - destruct (Nat.eqb_spec (scan (between "0" "9") input (i + 1)) (i + 1)) as [|E2]; [done|].
    destruct (at_ (Ascii.eqb rbracket) _ _) eqn:E3; [|done]. intros [= <-].
    apply (advanced_byte rbracket) in E3; [|done].
    assert (advanced input (i + 1) (scan (between "0" "9") input (i + 1))) as E4.
    { apply advanced_scan; [eauto with lex|]. by destruct H0 as (_ & ? & _). }
    split; [pose proof (scan_ge (between "0" "9") input (i + 1)); lia|].
    chain_advanced.
Qed.

(** The head of a path: what makes printing invert the removal of the dot. *)
Definition pathHead (input : bytes) (i j : nat) : Prop :=
  j = i \/ input !! i = Some lbracket /\ i < j \/
  input !! i = Some "."%char /\ at_ isIdentStart input (i + 1) = true /\ i + 1 < j.

Lemma identStart_not_bracket c : isIdentStart c = true -> (c =? lbracket)%char = false.
Proof.
  intros H. apply negb_true_iff. revert c H.
  apply (byte_implies _ (fun c => negb (c =? lbracket)%char)). by vm_compute.
Qed.

Lemma pathHead_source input i j :
  pathHead input i j -> slice input i j = writeVarPathSource (stripDot (slice input i j)).
Proof.
  intros [->|[[H ?]|(H & (c & Hc & E)%at_true & ?)]].
  - by rewrite slice_nil.
  - by rewrite (slice_cons _ _ _ _ H).
  - rewrite (slice_cons _ _ _ _ H) by lia. replace (i + 1) with (S i) in Hc by lia.
    rewrite (slice_cons _ _ _ _ Hc) by lia. cbn. by rewrite identStart_not_bracket.
Qed.

Lemma barePath_done fuel input i j :
  i <= length input -> barePath fuel input i = Done j -> advanced input i j /\ pathHead input i j.
Proof.
  revert i. induction fuel as [|fuel IH]; intros i Hi; cbn [barePath]; [done|].
  destruct (at_ (Ascii.eqb "."%char) input i) eqn:E1.
  - destruct (at_ isIdentStart input (i + 1)) eqn:E2; [|done]. cbn [negb]. intros H.
    pose proof E1 as E1'%at_eqb. apply (advanced_byte "."%char) in E1; [|done].
    pose proof (at_lt _ _ _ E2) as Hlt.
    assert (advanced input (i + 1) (scan isIdentContinue input (i + 1))) as E3.
    { apply advanced_scan; [eauto with lex|lia]. }
    apply IH in H as [H _]; [|apply E3]. split; [chain_advanced|].
    right; right. split_and!; [done|done|]. destruct H as [H _].
    enough (i + 1 < scan isIdentContinue input (i + 1)) by lia. apply scan_gt.
    apply at_true in E2 as (c & ? & ?). apply at_true. eauto with lex.
  - destruct (at_ (Ascii.eqb lbracket) input i) eqn:E2.
    + apply at_eqb in E2. destruct (lexPathIndex input i) as [next [e|]] eqn:E3; [done|]. intros H.
      apply lexPathIndex_done in E3 as [? E3]; [|done]. apply IH in H as [H _]; [|apply E3].
      split; [by eapply advanced_trans|]. right; left. split; [done|]. destruct H. lia.
    + intros [= <-]. split; [by apply advanced_refl|by left].
Qed.

Lemma bracedPath_done fuel input i j :
  i <= length input -> bracedPath fuel input i = Done j ->
  advanced input i j /\ pathHead input i j /\ (j < length input -> input !! j = Some rbrace).
Proof.
  revert i. induction fuel as [|fuel IH]; intros i Hi; cbn [bracedPath]; [done|].
  destruct (input !! i) as [c|] eqn:Hc.
  2: { intros [= <-]. split_and!; [by apply advanced_refl|by left|]. apply lookup_ge_None in Hc. lia. }
  destruct (Ascii.eqb_spec c rbrace) as [->|].
  { intros [= <-]. split_and!; [by apply advanced_refl|by left|done]. }
  destruct (Ascii.eqb_spec c ".") as [->|].
  - destruct (at_ _ input (i + 1)) eqn:E2; [|done]. cbn [negb]. intros H.
    set (p := fun d => _ && isIdentContinue d) in H.
    apply at_true in E2 as (d & Hd & [Hn Hs]%andb_prop).
    assert (advanced input i (i + 1)) as E1 by (apply (advanced_byte "."); [done|by apply at_eqb]).
    pose proof (lookup_lt_Some _ _ _ Hd) as Hlt.
    assert (advanced input (i + 1) (scan p input (i + 1))) as E3.
    { apply advanced_scan; [|lia]. intros e [_ He]%andb_prop. eauto with lex. }
    apply IH in H as (H & _ & Hend); [|apply E3].
    split_and!; [chain_advanced| |done].
    right; right. split_and!; [done|apply at_true; eauto|]. destruct H as [H _].
    enough (i + 1 < scan p input (i + 1)) by lia. apply scan_gt, at_true. exists d. unfold p.
    rewrite Hn, identStart_continue by done. done.
  - destruct (Ascii.eqb_spec c lbracket) as [->|]; [|done].
    destruct (lexPathIndex input i) as [next [e|]] eqn:E3; [done|]. intros H.
    apply lexPathIndex_done in E3 as [? E3]; [|done]. apply IH in H as (H & _ & Hend); [|apply E3].
    split_and!; [by eapply advanced_trans| |done]. right; left. split; [done|]. destruct H. lia.
Qed.

(** A variable reference describes the bytes it consumed. *)
Definition refLexed (input : bytes) (pos : nat) (tok : Token) (n : nat) : Prop :=
  0 < n /\ advanced input pos (pos + n) /\ tokKind tok = TokenVarRef /\
  tokText tok = slice input pos (pos + n) /\
  refersTo (tokVarName tok) (tokVarPath tok) (slice input pos (pos + n)).

Lemma lexBareVarRef_done input pos tok n :
  input !! pos = Some dollar -> lexBareVarRef input pos = Done (tok, n) -> refLexed input pos tok n.
Proof.
  intros Hd. unfold lexBareVarRef. destruct (at_ isIdentStart input (pos + 1)) eqn:E1; [|done].
  cbn [negb]. set (i := scan _ _ _). destruct (barePath _ input i) as [j| |] eqn:E2; [|done..].
  intros [= <- <-]. pose proof (at_lt _ _ _ E1).
  assert (advanced input (pos + 1) i) as E3 by (apply advanced_scan; [eauto with lex|lia]).
  apply barePath_done in E2 as [E2 Hh]; [|apply E3].
  assert (advanced input pos (pos + 1)) as E0 by (apply (advanced_byte dollar); [done|by apply at_eqb]).
  assert (advanced input pos j) by chain_advanced.
  destruct E3 as (? & ? & ?), E2 as (? & ? & ?).
  unfold refLexed. replace (pos + (j - pos)) with j by lia. split_and!; [lia|done|done|done|].
  simpl. split; [by apply scan_name|left].
  rewrite <- (pathHead_source _ _ _ Hh), (slice_app _ pos (pos + 1) j) by lia.
  rewrite (slice_one _ _ _ Hd). f_equal. apply slice_app; lia.
Qed.

Lemma lexBracedVarRef_done input pos tok n :
  input !! pos = Some dollar -> input !! (pos + 1) = Some lbrace ->
  lexBracedVarRef input pos = Done (tok, n) -> refLexed input pos tok n.
Proof.
  intros Hd Hb. unfold lexBracedVarRef. destruct (at_ _ input (pos + 2)); [|done]. cbn [negb].
  destruct (at_ isIdentStart input (pos + 2)) eqn:E1; [|done]. cbn [negb].
  set (i := scan _ _ _). destruct (bracedPath _ input i) as [j| |] eqn:E2; [|done..]. cbn [obind].
  destruct (Nat.leb_spec (length input) j) as [|Hj]; [done|].
  intros [= <- <-]. pose proof (at_lt _ _ _ E1).
  assert (advanced input (pos + 2) i) as E3 by (apply advanced_scan; [eauto with lex|lia]).
  apply bracedPath_done in E2 as (E2 & Hh & Hend); [|apply E3]. specialize (Hend Hj).
  assert (advanced input pos (pos + 1)) as E0 by (apply (advanced_byte dollar); [done|by apply at_eqb]).
  assert (advanced input (pos + 1) (pos + 2)) as E0'.
  { replace (pos + 2) with (pos + 1 + 1) by lia. apply (advanced_byte lbrace); [done|by apply at_eqb]. }
  assert (advanced input j (j + 1)) as E4 by (apply (advanced_byte rbrace); [done|by apply at_eqb]).
  assert (advanced input pos (j + 1)) by chain_advanced.
  destruct E3 as (? & ? & ?), E2 as (? & ? & ?).
  unfold refLexed. replace (pos + (j + 1 - pos)) with (j + 1) by lia. split_and!; [lia|done|done|done|].
  simpl. split; [by apply scan_name|right].
  rewrite <- (pathHead_source _ _ _ Hh), (slice_app _ pos (pos + 2) (j + 1)) by lia.
  rewrite (slice_two _ _ _ _ Hd Hb). f_equal.
  rewrite (slice_app _ _ i (j + 1)) by lia. f_equal.
  rewrite (slice_app _ i j (j + 1)) by lia. by rewrite (slice_one _ _ _ Hend).
Qed.

Lemma lexVarRef_done input pos tok n :
  input !! pos = Some dollar -> lexVarRef input pos = Done (tok, n) -> refLexed input pos tok n.
Proof.
  intros Hd. unfold lexVarRef. destruct (input !! (pos + 1)) as [c|] eqn:Hc; [|done].
  destruct (Ascii.eqb_spec c lbrace) as [->|].
  - by apply lexBracedVarRef_done.
  - by apply lexBareVarRef_done.
Qed.

(** ** Quoted strings *)

(** The token [tok] of [n] bytes at [pos] is one. *)
Definition lexedAt (base : Pos) (input : bytes) (pos : nat) (tok : Token) (n : nat) : Prop :=
  0 < n /\ pos + n <= length input /\ describes base input tok pos (pos + n).

Lemma scan_not_elem d input i : d ∉ slice input i (scan (fun c => negb (c =? d)%char) input i).
Proof.
  pose proof (scan_forall (fun c => negb (c =? d)%char) input i) as H. intros Hd.
  eapply Forall_forall in H; [|exact Hd]. simpl in H. by rewrite (proj2 (eqb_true d d) eq_refl) in H.
Qed.

Lemma scan_found d input i :
  scan (fun c => negb (c =? d)%char) input i < length input ->
  input !! scan (fun c => negb (c =? d)%char) input i = Some d.
Proof.
  intros [c Hc]%lookup_lt_is_Some. pose proof (scan_stop _ _ _ _ Hc) as E.
  apply negb_false_iff, eqb_true in E as ->. done.
Qed.

Lemma lexSingleQuoted_done base input pos tok n :
  input !! pos = Some squote -> lexSingleQuoted input pos = Done (tok, n) ->
  lexedAt base input pos tok n.
Proof.
  intros Hq. unfold lexSingleQuoted. set (i := scan _ _ _).
  destruct (Nat.leb_spec (length input) i) as [|Hi]; [done|]. intros [= <- <-].
  assert (pos + 1 <= i) by apply scan_ge.
  unfold lexedAt. replace (pos + (i + 1 - pos)) with (i + 1) by lia. split_and!; [lia|lia|].
  left. simpl. split; [|apply scan_not_elem].
  rewrite (slice_app _ pos (pos + 1) (i + 1)), (slice_one _ _ _ Hq) by lia. simpl. f_equal.
  rewrite (slice_app _ (pos + 1) i (i + 1)) by lia. f_equal. by apply slice_one, scan_found.
Qed.

Lemma scanInterpBody_from_done fuel input depth i j :
  scanInterpBody_from fuel input depth i = Done j -> i <= j /\ input !! j = Some rbrace.
Proof.
  revert depth i. induction fuel as [|fuel IH]; intros depth i; cbn [scanInterpBody_from]; [done|].
  destruct (input !! i) as [c|] eqn:Hc; [|done].
  destruct (Ascii.eqb_spec c lbrace) as [->|]; [intros [? ?]%IH; split; [lia|done]|].
  destruct (Ascii.eqb_spec c rbrace) as [->|].
  { destruct (_ =? 0); [by intros [= <-]|]. intros [? ?]%IH; split; [lia|done]. }
  destruct (Ascii.eqb_spec c squote) as [->|].
  { set (k := scan _ _ _). assert (i + 1 <= k) by apply scan_ge.
    destruct (_ <=? k); [done|]. intros [? ?]%IH; split; [lia|done]. }
  destruct (_ =? dquote)%char; [done|]. intros [? ?]%IH; split; [lia|done].
Qed.

Section double.
Context (base : Pos) (input : bytes) (pos : nat).
Let loc p := locAt p (buildLineStarts input) base.

Lemma loc_span i j : i <= j -> j <= length input -> MkSpan (loc i) (loc j) = spanOf base input i j.
Proof. intros. unfold loc, spanOf. by rewrite !locAt_posOf by lia. Qed.

(** The open literal, if any, extends from [m] to [i]. *)
Definition litAt (m : nat) (lit : literal) (i : nat) : Prop :=
  match lit with
  | None => m = i
  | Some (s, l) => m = s /\ s < i /\ unescapes (slice input s i) l
  end.

Lemma writeLiteral_litAt m lit i j b src :
  litAt m lit i -> i < j -> slice input i j = src ->
  (forall s t, unescapes s t -> unescapes (s ++ src) (t ++ [b])) ->
  litAt m (writeLiteral lit i b) j.
Proof.
  intros H Hij Hs Hu. destruct lit as [[s l]|]; simpl in *.
  - destruct H as (-> & ? & ?). split_and!; [done|lia|].
    rewrite (slice_app _ s i j), Hs by lia. by apply Hu.
  - subst m. split_and!; [done|lia|]. rewrite Hs. apply (Hu [] []). constructor.
Qed.

Lemma flushLiteral_segments k segs m lit i :
  segmentsAt base input k segs m -> litAt m lit i -> i <= length input ->
  segmentsAt base input k (flushLiteral loc segs lit i) i.
Proof.
  intros Hs Hl Hi. destruct lit as [[s l]|]; simpl in *; [|by subst m].
  destruct Hl as (-> & ? & ?). eapply segmentsAt_snoc; eauto. simpl. apply loc_span; lia.
Qed.

Lemma segmentsAt_none k i : segmentsAt base input k [] i -> i = k.
Proof.
  intros H. remember [] as segs' eqn:E. destruct H as [|? segs]; [done|]. by destruct segs.
Qed.

Lemma segmentsAt_one k seg i :
  segmentsAt base input k [seg] i -> segmentFor seg (slice input k i).
Proof.
  intros H. remember [seg] as segs' eqn:E. destruct H as [|k segs j i seg' Hs ? ? ? Hf]; [done|].
  apply (app_inj_tail segs []) in E as [-> ->].
  apply segmentsAt_none in Hs as ->. done.
Qed.

Lemma closeDoubleQuoted_lexed segs i :
  input !! pos = Some dquote -> pos < i -> input !! i = Some dquote ->
  segmentsAt base input (pos + 1) segs i ->
  lexedAt base input pos (closeDoubleQuoted input pos (i + 1) segs) (i + 1 - pos).
Proof.
  intros Hq Hlt Hi Hs. pose proof (lookup_lt_Some _ _ _ Hi).
  assert (slice input pos (i + 1) = [dquote] ++ slice input (pos + 1) i ++ [dquote]) as Hsl.
  { rewrite (slice_app _ pos (pos + 1) (i + 1)), (slice_one _ _ _ Hq) by lia. f_equal.
    rewrite (slice_app _ (pos + 1) i (i + 1)) by lia. f_equal. by apply slice_one. }
  unfold lexedAt. replace (pos + (i + 1 - pos)) with (i + 1) by lia. split_and!; [lia|lia|].
  assert (forall segs', segs = segs' -> describes base input
    (MkToken TokenInterpString (slice input pos (i + 1)) [] [] [] segs' zeroSpan) pos (i + 1)) as Hint.
  { intros ? <-. unfold describes; simpl. replace (i + 1 - 1) with i by lia. by split_and!. }
  unfold closeDoubleQuoted. destruct segs as [|s [|s' segs]]; [| |by apply Hint].
  - right. exists []. apply segmentsAt_none in Hs. subst i. rewrite Hsl, slice_nil.
    split; [done|constructor].
  - apply segmentsAt_one in Hs as Hf. unfold segmentFor in Hf.
    destruct (segIsLit s) eqn:E; [|by apply Hint]. right. exists (slice input (pos + 1) i). by split.
Qed.

Lemma doubleQuoted_done fuel segs m lit i tok n :
  input !! pos = Some dquote -> pos < i -> i <= length input ->
  segmentsAt base input (pos + 1) segs m -> litAt m lit i ->
  doubleQuoted fuel loc input pos segs lit i = Done (tok, n) -> lexedAt base input pos tok n.
Proof.
  intros Hq. revert segs m lit i. induction fuel as [|fuel IH]; intros segs m lit i Hlt Hle Hs Hl;
    cbn [doubleQuoted]; [done|].
  destruct (input !! i) as [c|] eqn:Hc; [|done]. pose proof (lookup_lt_Some _ _ _ Hc).
  destruct (Ascii.eqb_spec c dquote) as [->|Hnq].
  { intros [= <- <-]. apply closeDoubleQuoted_lexed; try done. by eapply flushLiteral_segments. }
  destruct (Ascii.eqb_spec c backslash) as [->|Hnb].
  { destruct (input !! (i + 1)) as [e|] eqn:He; [|done]. pose proof (lookup_lt_Some _ _ _ He).
    destruct (decodeEscape e) as [d|] eqn:Hd; [|done]. apply IH with m; [lia|lia|done|].
    apply (writeLiteral_litAt _ _ _ _ _ [backslash; e]); [done|lia|by apply slice_two|].
    intros. by apply unescapes_escape. }
  destruct (Ascii.eqb_spec c dollar) as [->|Hnd].
  - destruct (at_ (Ascii.eqb lbrace) input (i + 1)) eqn:Hb; [|done]. apply at_eqb in Hb. cbn [negb].
    unfold scanInterpBody. destruct (scanInterpBody_from _ _ _ _) as [j| |] eqn:E; [|done..]. cbn [obind].
    apply scanInterpBody_from_done in E as [? Hj]. pose proof (lookup_lt_Some _ _ _ Hj).
    destruct (blank _) eqn:Hbl; [done|]. apply IH with (j + 1); [lia|lia| |done].
    eapply segmentsAt_snoc; [by eapply flushLiteral_segments|lia|lia|apply loc_span; lia|].
    split; [|done]. simpl. rewrite (slice_app _ i (i + 2) (j + 1)), (slice_two _ _ _ _ Hc Hb) by lia.
    simpl. do 2 f_equal. rewrite (slice_app _ (i + 2) j (j + 1)) by lia. f_equal. by apply slice_one.
  - apply IH with m; [lia|lia|done|].
    apply (writeLiteral_litAt _ _ _ _ _ [c]); [done|lia|by apply slice_one|].
    intros. apply unescapes_plain; [set_solver|done].
Qed.
End double.

Lemma lexQuoted_done base input pos q tok n :
  input !! pos = Some q -> one_of [dquote; squote] q = true ->
  lexQuoted input pos base = Done (tok, n) -> lexedAt base input pos tok n.
Proof.
  intros Hq Ho. pose proof (lookup_lt_Some _ _ _ Hq). unfold lexQuoted.
  destruct (at_ (Ascii.eqb squote) input pos) eqn:E.
  - apply at_eqb in E. by apply lexSingleQuoted_done.
  - assert (q = dquote) as ->.
    { apply one_of_spec in Ho. apply not_true_iff_false in E. rewrite at_eqb in E.
      set_solver. }
    apply doubleQuoted_done with (pos + 1); try done; [lia|lia|constructor].
Qed.

(** ** Words and adapters *)

Lemma lexWord_done base input pos c :
  input !! pos = Some c -> endsWord c = false ->
  lexedAt base input pos (fst (lexWord input pos)) (snd (lexWord input pos)).
Proof.
  intros Hc He. unfold lexWord. simpl. set (p := fun ch => negb (endsWord ch)).
  assert (at_ p input pos = true) as Ha by (apply at_true; exists c; unfold p; by rewrite He).
  pose proof (scan_gt _ _ _ Ha). pose proof (scan_le p input pos).
  pose proof (lookup_lt_Some _ _ _ Hc). unfold lexedAt.
  replace (pos + (scan p input pos - pos)) with (scan p input pos) by lia.
  split_and!; [lia|lia|]. unfold describes; simpl. split; [done|right].
  eapply Forall_impl; [apply scan_forall|]. intros d. apply negb_true_iff.
Qed.

Lemma lexAdapterRef_done base input pos tok n :
  lexAdapterRef input pos = Done (Some (tok, n)) ->
  lexedAt base input pos tok n /\ advanced input pos (pos + n).
Proof.
  unfold lexAdapterRef, adapterPrefixes. cbn [lexAdapterRef_in].
  set (full := _ ++ [":"%char]). case_bool_decide as Hp; [|done]. cbn [negb].
  destruct (at_ (Ascii.eqb dollar) input _) eqn:Hd; [|done]. cbn [negb]. apply at_eqb in Hd.
  destruct (lexVarRef input (pos + length full)) as [[t k]| |] eqn:E; [|done..]. intros [= <- <-].
  change (length full) with 5 in *.
  apply lexVarRef_done in E as (? & Ha & ? & ? & Hr); [|done]. pose proof (lookup_lt_Some _ _ _ Hd).
  assert (slice input pos (pos + 5) = full) as Hsl.
  { unfold slice. by replace (pos + 5 - pos) with (5) by lia. }
  assert (advanced input pos (pos + 5)) as Ha'.
  { unfold advanced, quoteless. rewrite Hsl. split_and!; [lia|lia|]. by repeat constructor. }
  replace (pos + (pos + 5 + k - pos)) with (pos + 5 + k) by lia.
  split; [|chain_advanced]. unfold lexedAt.
  replace (pos + (pos + 5 + k - pos)) with (pos + 5 + k) by lia.
  split_and!; [lia|apply Ha|]. unfold describes; simpl. split_and!; [done|set_solver|].
  eexists. split; [|exact Hr]. rewrite (slice_app _ pos (pos + 5)), Hsl by lia. done.
Qed.

(** ** The main loop *)

(** What a step of the loop at [i] did, when the byte there was not a hash. *)
Definition stepDone (base : Pos) (input : bytes) (i : nat) (s : step) : Prop :=
  match s with
  | Skip n => 0 < n /\ i + n <= length input /\ skipped (slice input i (i + n))
  | Emit tok n => lexedAt base input i tok n
  end.

Lemma emit_one base input i ch k :
  input !! i = Some ch ->
  describes base input (plainToken k [ch]) i (i + 1) -> stepDone base input i (Emit (plainToken k [ch]) 1).
Proof. intros H%lookup_lt_Some Hd. split_and!; [lia|lia|done]. Qed.

Lemma emit_two base input i a b k :
  input !! i = Some a -> input !! (i + 1) = Some b ->
  describes base input (plainToken k [a; b]) i (i + 2) ->
  stepDone base input i (Emit (plainToken k [a; b]) 2).
Proof. intros _ H%lookup_lt_Some Hd. split_and!; [lia|lia|done]. Qed.

Lemma not_ends_word ch :
  one_of [space; tab; return_; newline; ";"%char; dollar; dquote; squote; hash;
          lbracket; rbracket; lbrace; rbrace; "("%char; ")"%char; "+"%char; "*"%char; "%"%char] ch = false ->
  endsWord ch = false.
Proof. done. Qed.

Lemma tokenStep_done base input tokens i ch s :
  input !! i = Some ch -> ch <> hash ->
  tokenStep input base tokens i ch = Done s -> stepDone base input i s.
Proof.
  intros Hc Hh. pose proof (lookup_lt_Some _ _ _ Hc) as Hlt. pose proof (slice_one _ _ _ Hc) as H1.
  unfold tokenStep.
  destruct (one_of [space; tab; return_] ch) eqn:E1.
  { intros [= <-]. split_and!; [lia|lia|]. unfold skipped. rewrite H1. apply one_of_spec in E1. set_solver. }
  destruct ((ch =? backslash)%char && _) eqn:E2.
  { apply andb_prop in E2 as [->%eqb_true E2%at_eqb]. intros [= <-].
    pose proof (lookup_lt_Some _ _ _ E2). split_and!; [lia|lia|]. unfold skipped.
    rewrite (slice_two _ _ _ _ Hc E2). set_solver. }
  destruct (_ && at_ (Ascii.eqb newline) input (i + 2)) eqn:E3.
  { apply andb_prop in E3 as [[->%eqb_true E3%at_eqb]%andb_prop E3'%at_eqb]. intros [= <-].
    pose proof (lookup_lt_Some _ _ _ E3'). split_and!; [lia|lia|]. unfold skipped.
    rewrite (slice_app _ i (i + 2) (i + 3)), (slice_two _ _ _ _ Hc E3) by lia.
    replace (i + 3) with (i + 2 + 1) by lia. rewrite (slice_one _ _ _ E3'). set_solver. }
  destruct (one_of [newline; _] ch) eqn:E4.
  { intros [= <-]. apply emit_one; [done|]. unfold describes; simpl. rewrite H1. apply one_of_spec in E4. set_solver. }
  destruct (one_of [lbrace; _; _; _] ch) eqn:E5.
  { intros [= <-]. apply emit_one; [done|]. unfold describes; simpl. rewrite H1. split; [done|left].
    apply one_of_spec in E5. set_solver. }
  destruct (one_of ["+"%char; _; _] ch) eqn:E6.
  { intros [= <-]. apply emit_one; [done|]. unfold describes; simpl. rewrite H1. split; [done|left].
    apply one_of_spec in E6. set_solver. }
  destruct ((ch =? "=")%char && _) eqn:E7.
  { apply andb_prop in E7 as [->%eqb_true _]. destruct (at_ (Ascii.eqb "="%char) input (i + 1)) eqn:E8; intros [= <-].
    - apply at_eqb in E8. apply emit_two; [done..|]. unfold describes; simpl. rewrite (slice_two _ _ _ _ Hc E8).
      split; [done|left; set_solver].
    - apply emit_one; [done|]. unfold describes; simpl. by rewrite H1. }
  destruct (Ascii.eqb_spec ch dollar) as [->|Hnd].
  { destruct (lexVarRef input i) as [[tok n]| |] eqn:E8; [|done..]. intros [= <-].
    apply lexVarRef_done in E8 as (? & Ha & Hk & ? & ?); [|done].
    split_and!; [done|apply Ha|]. unfold describes. by rewrite Hk. }
  destruct (one_of [dquote; squote] ch) eqn:E8.
  { destruct (lexQuoted input i base) as [[tok n]| |] eqn:E9; [|done..]. intros [= <-].
    by eapply lexQuoted_done. }
  destruct (one_of [lbracket; rbracket] ch) eqn:E9.
  { intros [= <-]. apply emit_one; [done|]. unfold describes; simpl. rewrite H1. split; [done|left].
    apply one_of_spec in E9. set_solver. }
  destruct ((ch =? "|")%char && _) eqn:E10.
  { apply andb_prop in E10 as [->%eqb_true E10%at_eqb]. intros [= <-]. apply emit_two; [done..|].
    unfold describes; simpl. by rewrite (slice_two _ _ _ _ Hc E10). }
  destruct ((ch =? "<")%char && _) eqn:E11.
  { apply andb_prop in E11 as [->%eqb_true E11%at_eqb]. intros [= <-]. apply emit_two; [done..|].
    unfold describes; simpl. by rewrite (slice_two _ _ _ _ Hc E11). }
  destruct (lexAdapterRef input i) as [[[tok n]|]| |] eqn:E12; [| |done..]; intros [= <-].
  - by apply lexAdapterRef_done.
  - apply (lexWord_done _ _ _ ch); [done|]. apply not_ends_word. clear -E1 E4 E5 E6 Hnd E8 E9 Hh.
    apply one_of_false. apply one_of_false in E1, E4, E5, E6, E8, E9. set_solver.
Qed.

(** On a hash outside of quotes the loop makes no progress. *)
Lemma hash_stalls fuel input base tokens i :
  input !! i = Some hash -> tokenLoop fuel input base tokens i = OutOfFuel.
Proof.
  intros Hc. revert tokens. induction fuel as [|fuel IH]; intros tokens; cbn [tokenLoop]; [done|].
  rewrite Hc. assert (tokenStep input base tokens i hash = Done (Emit (plainToken TokenWord []) 0)) as ->.
  { unfold tokenStep, lexWord. cbn [one_of existsb Ascii.eqb andb orb].
    assert (lexAdapterRef input i = Done None) as Ha.
    { unfold lexAdapterRef, adapterPrefixes. cbn [lexAdapterRef_in].
      rewrite bool_decide_false; [done|]. rewrite (drop_S _ _ _ Hc). done. }
    assert (scan (fun ch => negb (endsWord ch)) input i = i) as Hs.
    { unfold scan. rewrite (drop_S _ _ _ Hc). simpl. lia. }
    rewrite Ha, Hs, slice_nil, Nat.sub_diag. simpl. by rewrite andb_false_r || done. }
  cbn [obind]. rewrite Nat.add_0_r. apply IH.
Qed.

Lemma tokenLoop_done fuel input base tokens i out :
  i <= length input -> tokenLoop fuel input base tokens i = Done out ->
  exists toks, out = tokens ++ toks /\ tiles base input i toks.
Proof.
  revert tokens i. induction fuel as [|fuel IH]; intros tokens i Hi H; [done|].
  destruct (input !! i) as [ch|] eqn:Hc.
  2: { cbn [tokenLoop] in H. rewrite Hc in H. injection H as <-. exists []. rewrite app_nil_r.
       split; [done|]. apply lookup_ge_None in Hc. replace i with (length input) by lia. constructor. }
  destruct (decide (ch = hash)) as [->|Hh]; [by rewrite hash_stalls in H|].
  cbn [tokenLoop] in H. rewrite Hc in H.
  destruct (tokenStep _ _ _ _ _) as [s| |] eqn:E; [|done..]. cbn [obind] in H.
  apply tokenStep_done in E; [|done..]. destruct s as [n|tok n]; simpl in E.
  - destruct E as (? & ? & ?). apply IH in H as (toks & -> & Ht); [|done].
    exists toks. split; [done|]. apply tiles_skip with (i + n); [lia|done..].
  - destruct E as (? & ? & ?). apply IH in H as (toks & -> & Ht); [|done]. rewrite <- app_assoc.
    eexists. split; [done|]. apply tiles_token with (i + n); [lia|done| |apply loc_span; lia|done].
    by unfold describes, stamp in *.
Qed.

(** C30: the tokens of an input are its text. When the tokeniser succeeds, the
    tokens tile the input with its comments blanked out, byte for byte: what lies
    between two tokens is white space or a line continuation; the span of a token
    is the position, counted line by line and byte by byte from the start position
    through the input as it was given, of the bytes it stands for; a word or an
    operator has these bytes as its text, a variable or adapter reference prints
    back to them, a quoted string unescapes to its text, and the segments of an
    interpolated string tile it in turn, with their own positions. Comments only
    turn bytes other than newlines into spaces. An input that is blank after
    this has no tokens. *)
Theorem tokens_tile_input (fuel : nat) (start : Pos) (input : bytes) (toks : list Token)
  (Hrun : tokeniseAt fuel start input = Done toks) :
  Forall2 covers input (stripComment input) /\
  (forall off, posOf (normalizeStartPos start) (stripComment input) off =
               posOf (normalizeStartPos start) input off) /\
  (blank (stripComment input) = true /\ toks = [] \/
   tiles (normalizeStartPos start) (stripComment input) 0 toks).
Proof.
  split_and!; [apply stripComment_covers|intros; apply posOf_stripComment|].
  unfold tokeniseAt in Hrun. destruct (blank _); [injection Hrun as <-; by left|right].
  apply tokenLoop_done in Hrun as (toks' & -> & Ht); [done|lia].
Qed.
