(* ===== verification/LexerReturns.v ===== *)
(** * When the tokeniser returns

    Each step of the main loop consumes a byte, except on a hash. stripComment
    leaves no hash outside of quotes, as far as it and the string lexer agree on
    where a string ends; they agree when no interpolation body holds a double
    quote. An input on which they disagree, and on which the loop never ends, is
    given at the end. *)

From Stdlib Require Import ZArith Lia Ascii.
From stdpp Require Import base tactics list strings option sets.
From S2P Require Import Prelude Lexer LexerPos LexerCover.

(** ** The inner loops return *)

Lemma barePath_returns fuel input i :
  i <= length input -> length input - i < fuel -> barePath fuel input i <> OutOfFuel.
Proof.
  revert i. induction fuel as [|fuel IH]; intros i Hi Hf; [lia|]. cbn [barePath].
  destruct (at_ _ input i) eqn:E1; [|destruct (at_ (Ascii.eqb lbracket) input i) eqn:E2; [|done]].
  - destruct (at_ isIdentStart input (i + 1)) eqn:E2; [|done]. cbn [negb].
    pose proof (at_lt _ _ _ E2). pose proof (scan_ge isIdentContinue input (i + 1)).
    apply IH; [apply scan_le; lia|lia].
  - apply at_eqb in E2. destruct (lexPathIndex input i) as [next [e|]] eqn:E3; [done|].
    apply lexPathIndex_done in E3 as (? & ? & ? & _); [|done]. apply IH; lia.
Qed.

Lemma bracedPath_returns fuel input i :
  i <= length input -> length input - i < fuel -> bracedPath fuel input i <> OutOfFuel.
Proof.
  revert i. induction fuel as [|fuel IH]; intros i Hi Hf; [lia|]. cbn [bracedPath].
  destruct (input !! i) as [c|] eqn:Hc; [|done]. pose proof (lookup_lt_Some _ _ _ Hc).
  destruct (c =? rbrace)%char; [done|]. destruct (c =? ".")%char.
  - destruct (at_ _ input (i + 1)) eqn:E2; [|done]. cbn [negb]. pose proof (at_lt _ _ _ E2).
    set (p := fun d => _). pose proof (scan_ge p input (i + 1)). apply IH; [apply scan_le; lia|lia].
  - destruct (Ascii.eqb_spec c lbracket) as [->|]; [|done].
    destruct (lexPathIndex input i) as [next [e|]] eqn:E3; [done|].
    apply lexPathIndex_done in E3 as (? & ? & ? & _); [|done]. apply IH; lia.
Qed.

Lemma lexVarRef_returns input pos : lexVarRef input pos <> OutOfFuel.
Proof.
  unfold lexVarRef. destruct (input !! (pos + 1)) as [c|] eqn:Hc; [|done].
  pose proof (lookup_lt_Some _ _ _ Hc). destruct (c =? lbrace)%char.
  - unfold lexBracedVarRef. destruct (at_ _ input (pos + 2)) eqn:E1; [|done]. cbn [negb].
    pose proof (at_lt _ _ _ E1). destruct (negb _); [done|]. set (i := scan _ _ _).
    pose proof (bracedPath_returns (S (length input)) input i) as Hr.
    assert (i <= length input) by (apply scan_le; lia).
    destruct (bracedPath _ _ _); [|done|by destruct Hr; [lia|lia|]]. cbn [obind]. by destruct (_ <=? _).
  - unfold lexBareVarRef. destruct (negb _); [done|]. set (i := scan _ _ _).
    pose proof (barePath_returns (S (length input)) input i) as Hr.
    assert (i <= length input) by (apply scan_le; lia).
    destruct (barePath _ _ _); [done|done|by destruct Hr; [lia|lia|]].
Qed.

Lemma scanInterpBody_from_returns fuel input depth i :
  i <= length input -> length input - i < fuel -> scanInterpBody_from fuel input depth i <> OutOfFuel.
Proof.
  revert depth i. induction fuel as [|fuel IH]; intros depth i Hi Hf; [lia|]. cbn [scanInterpBody_from].
  destruct (input !! i) as [c|] eqn:Hc; [|done]. pose proof (lookup_lt_Some _ _ _ Hc).
  destruct (c =? lbrace)%char; [apply IH; lia|].
  destruct (c =? rbrace)%char; [destruct (_ =? 0); [done|apply IH; lia]|].
  destruct (c =? squote)%char.
  { set (k := scan _ _ _). assert (i + 1 <= k) by apply scan_ge.
    destruct (Nat.leb_spec (length input) k); [done|apply IH; lia]. }
  destruct (c =? dquote)%char; [done|apply IH; lia].
Qed.

Lemma doubleQuoted_returns fuel loc input pos segs lit i :
  i <= length input -> length input - i < fuel ->
  doubleQuoted fuel loc input pos segs lit i <> OutOfFuel.
Proof.
  revert segs lit i. induction fuel as [|fuel IH]; intros segs lit i Hi Hf; [lia|]. cbn [doubleQuoted].
  destruct (input !! i) as [c|] eqn:Hc; [|done]. pose proof (lookup_lt_Some _ _ _ Hc).
  destruct (c =? dquote)%char; [done|]. destruct (c =? backslash)%char.
  { destruct (input !! (i + 1)) as [e|] eqn:He; [|done]. pose proof (lookup_lt_Some _ _ _ He).
    destruct (decodeEscape e); [apply IH; lia|done]. }
  destruct (c =? dollar)%char; [|apply IH; lia].
  destruct (at_ _ input (i + 1)) eqn:Hb; [|done]. cbn [negb]. pose proof (at_lt _ _ _ Hb).
  unfold scanInterpBody.
  pose proof (scanInterpBody_from_returns (S (length input)) input 1 (i + 2)) as Hr.
  destruct (scanInterpBody_from _ _ _ _) as [j| |] eqn:E; [|done|by destruct Hr; [lia|lia|]]. cbn [obind].
  apply scanInterpBody_from_done in E as [? Hj]. pose proof (lookup_lt_Some _ _ _ Hj).
  destruct (blank _); [done|apply IH; lia].
Qed.

Lemma lexQuoted_returns input pos base : pos < length input -> lexQuoted input pos base <> OutOfFuel.
Proof.
  intros. unfold lexQuoted. destruct (at_ _ _ _).
  - unfold lexSingleQuoted. by destruct (_ <=? _).
  - apply doubleQuoted_returns; lia.
Qed.

Lemma lexAdapterRef_returns input pos : lexAdapterRef input pos <> OutOfFuel.
Proof.
  unfold lexAdapterRef, adapterPrefixes. cbn [lexAdapterRef_in]. set (full := _ ++ _).
  destruct (negb _); [done|]. destruct (negb _); [done|].
  pose proof (lexVarRef_returns input (pos + length full)). by destruct (lexVarRef _ _) as [[]| |].
Qed.

Lemma tokenStep_returns input base tokens i ch :
  input !! i = Some ch -> tokenStep input base tokens i ch <> OutOfFuel.
Proof.
  intros Hc%lookup_lt_Some. unfold tokenStep.
  pose proof (lexVarRef_returns input i). pose proof (lexQuoted_returns input i base Hc).
  pose proof (lexAdapterRef_returns input i).
  repeat match goal with |- context [if ?b then _ else _] => destruct b; [done|] end.
  destruct (_ && isTokenStart _); [by destruct (at_ _ _ _)|].
  destruct (ch =? dollar)%char; [by destruct (lexVarRef _ _) as [[]| |]|].
  destruct (one_of _ ch); [by destruct (lexQuoted _ _ _) as [[]| |]|].
  repeat match goal with |- context [if ?b then _ else _] => destruct b; [done|] end.
  by destruct (lexAdapterRef _ _) as [[[]|]| |].
Qed.

(** ** What stripComment and the lexer agree on *)

(** [s] is what stripComment makes of [l] outside of quotes, in a comment or not;
    within single quotes; within double quotes; and there after a backslash. *)
Definition inCode (l s : bytes) : Prop :=
  s = stripComment_from false false false l \/ s = stripComment_from false false true l.
Definition inSingle (l s : bytes) : Prop := s = stripComment_from true false false l.
Definition inDouble (l s : bytes) : Prop := s = stripComment_from false true false l.
Definition inBody (l s : bytes) : Prop :=
  inDouble l s \/ exists c l' s', l = c :: l' /\ s = c :: s' /\ inDouble l' s'.

Ltac strip_step :=
  repeat match goal with
  | H : _ :: _ = stripComment_from _ _ _ ?l |- _ => is_var l; destruct l as [|? ?]; [discriminate H|]; cbn in H
  | H : context [(?c =? ?d)%char] |- _ => destruct (Ascii.eqb_spec c d); subst; cbn in H
  | H : context [bool_decide (?l = [])] |- _ => is_var l; destruct l as [|? ?]; cbn in H
  | H : _ :: _ = _ :: _ |- _ => first [injection H as ??|injection H as ?]; subst
  end.

Lemma inCode_step c l s :
  inCode l (c :: s) -> c <> squote -> c <> dquote -> c <> hash /\ exists a l', l = a :: l' /\ inCode l' s.
Proof.
  intros [H|H] Hs Hd; strip_step; try done; (split; [done|]);
    do 2 eexists; (split; [done|]); unfold inCode; auto.
Qed.

Lemma inCode_not_hash l s : ~ inCode l (hash :: s).
Proof. intros H. apply inCode_step in H as [? _]; done. Qed.

Lemma inCode_squote l s : inCode l (squote :: s) -> exists a l', l = a :: l' /\ inSingle l' s.
Proof. intros [H|H]; strip_step; try done; by do 2 eexists. Qed.

Lemma inCode_dquote l s : inCode l (dquote :: s) -> exists a l', l = a :: l' /\ inDouble l' s.
Proof. intros [H|H]; strip_step; try done; by do 2 eexists. Qed.

Lemma inSingle_step c l s :
  inSingle l (c :: s) ->
  exists a l', l = a :: l' /\ (c = squote -> inCode l' s) /\ (c <> squote -> inSingle l' s).
Proof.
  intros H. unfold inSingle in H. unfold inCode.
  strip_step; do 2 eexists; split_and!; try done; by left.
Qed.

Lemma inDouble_step c l s :
  inDouble l (c :: s) -> c <> backslash ->
  exists a l', l = a :: l' /\ (c = dquote -> inCode l' s) /\ (c <> dquote -> inDouble l' s).
Proof.
  intros H Hb. unfold inDouble in H. unfold inCode.
  strip_step; try done; do 2 eexists; split_and!; try done; by left.
Qed.

Lemma inDouble_escape l s :
  inDouble l (backslash :: s) ->
  (exists a, l = [a] /\ s = []) \/
  exists a b l' s', l = a :: b :: l' /\ s = b :: s' /\ inDouble l' s'.
Proof.
  intros H. unfold inDouble in H. destruct l as [|a l]; [done|]. destruct l as [|b l].
  - left. exists a. cbn in H. strip_step; done.
  - right. cbn in H. strip_step; try done. by do 4 eexists.
Qed.

Lemma inBody_step c l s :
  inBody l (c :: s) -> c <> dquote ->
  exists a l', l = a :: l' /\ inBody l' s /\ (c <> backslash -> inDouble l' s).
Proof.
  intros [H|(a & l' & s' & -> & [= -> ->] & H)] Hd.
  - destruct (decide (c = backslash)) as [->|Hb].
    + apply inDouble_escape in H as [(a & -> & ->)|(a & b & l' & s' & -> & -> & H)].
      * exists a, []. split_and!; [done| |done]. by left.
      * exists a, (b :: l'). split_and!; [done| |done]. right. eauto 6.
    + apply inDouble_step in H as (a & l' & -> & _ & H); [|done]. exists a, l'.
      split_and!; [done|by left; apply H|by intros _; apply H].
  - exists a, l'. split_and!; [done|by left|done].
Qed.

(** ** Following the lexer through the stripped input *)

(** No interpolation body of the input holds a double quote: the offsets [i] of
    all the [${] are tried. *)
Definition plainBodies (input : bytes) : bool :=
  forallb (fun i =>
    if at_ (Ascii.eqb dollar) input i && at_ (Ascii.eqb lbrace) input (i + 1) then
      match scanInterpBody input (i + 2) with
      | Done j => negb (one_of (slice input (i + 2) j) dquote)
      | _ => true
      end
    else true) (seq 0 (length input)).

Lemma plainBodies_spec input i j :
  plainBodies input = true -> input !! i = Some dollar -> input !! (i + 1) = Some lbrace ->
  scanInterpBody input (i + 2) = Done j -> dquote ∉ slice input (i + 2) j.
Proof.
  unfold plainBodies. rewrite forallb_forall. intros H Hd Hb Hs.
  specialize (H i). rewrite Hs, (proj2 (at_eqb _ _ _) Hd), (proj2 (at_eqb _ _ _) Hb) in H.
  apply one_of_false, negb_true_iff, H, in_seq. apply lookup_lt_Some in Hd. lia.
Qed.

Section sync.
Context (base : Pos) (input : bytes).
Let out := stripComment input.

(** The relation [R] between what is left of the input and of its stripped form. *)
Definition atOff (R : bytes -> bytes -> Prop) (i : nat) : Prop := R (drop i input) (drop i out).

Lemma atOff_start : atOff inCode 0.
Proof. by left. Qed.

Lemma atOff_cons i c : out !! i = Some c -> drop i out = c :: drop (i + 1) out.
Proof. intros H. rewrite (drop_S _ _ _ H). by replace (i + 1) with (S i) by lia. Qed.

Lemma atOff_next (R : bytes -> bytes -> Prop) i :
  (exists a l, drop i input = a :: l /\ R l (drop (i + 1) out)) -> atOff R (i + 1).
Proof.
  intros (a & l & E & H). unfold atOff. replace (drop (i + 1) input) with l; [done|].
  rewrite <- drop_drop, E. done.
Qed.

Lemma code_next i c :
  atOff inCode i -> out !! i = Some c -> c <> squote -> c <> dquote -> atOff inCode (i + 1).
Proof.
  unfold atOff at 1. intros H Hc ??. rewrite (atOff_cons _ _ Hc) in H.
  apply inCode_step in H as [_ H]; [|done..]. by apply atOff_next.
Qed.

Lemma code_not_hash i : atOff inCode i -> out !! i <> Some hash.
Proof. unfold atOff. intros H Hc. rewrite (atOff_cons _ _ Hc) in H. by apply inCode_not_hash in H. Qed.

(** A property of offsets that every byte of a range carries on holds at its end. *)
Lemma range_ind (P : nat -> Prop) i j :
  i <= j -> P i -> (forall k, i <= k < j -> P k -> P (k + 1)) -> P j.
Proof.
  intros Hij Hi Hstep. remember (j - i) as n eqn:Hn. revert j Hij Hn Hstep.
  induction n as [|n IH]; intros j Hij Hn Hstep; [by replace j with i by lia|].
  replace j with (j - 1 + 1) by lia. apply Hstep; [lia|]. apply IH; [lia|lia|].
  intros k Hk. apply Hstep. lia.
Qed.

Lemma quoteless_lookup i j k c :
  quoteless out i j -> i <= k < j -> out !! k = Some c -> c <> squote /\ c <> dquote.
Proof.
  intros H Hk Hc. unfold quoteless in H. rewrite Forall_forall in H. apply H, slice_elem. eauto.
Qed.

Lemma code_range i j :
  i <= j -> j <= length out -> quoteless out i j -> atOff inCode i -> atOff inCode j.
Proof.
  intros Hij Hj Hq Hi. apply (range_ind (atOff inCode) i); [done..|]. intros k Hk H.
  destruct (lookup_lt_is_Some_2 out k) as [c Hc]; [lia|].
  destruct (quoteless_lookup _ _ _ _ Hq Hk Hc). by eapply code_next.
Qed.

Lemma single_range i j :
  i <= j -> j <= length out -> squote ∉ slice out i j -> atOff inSingle i -> atOff inSingle j.
Proof.
  intros Hij Hj Hq Hi. apply (range_ind (atOff inSingle) i); [done..|]. intros k Hk H.
  destruct (lookup_lt_is_Some_2 out k) as [c Hc]; [lia|]. unfold atOff in H.
  rewrite (atOff_cons _ _ Hc) in H. apply inSingle_step in H as (a & l & E & _ & H).
  apply atOff_next. exists a, l. split; [done|]. apply H. intros ->. apply Hq, slice_elem. eauto.
Qed.

Lemma body_range i j :
  i <= j -> j <= length out -> dquote ∉ slice out i j -> atOff inBody i -> atOff inBody j.
Proof.
  intros Hij Hj Hq Hi. apply (range_ind (atOff inBody) i); [done..|]. intros k Hk H.
  destruct (lookup_lt_is_Some_2 out k) as [c Hc]; [lia|]. unfold atOff in H.
  rewrite (atOff_cons _ _ Hc) in H. apply inBody_step in H as (a & l & E & H & _).
  - apply atOff_next. eauto.
  - intros ->. apply Hq, slice_elem. eauto.
Qed.

Lemma single_close pos tok n :
  out !! pos = Some squote -> atOff inCode pos -> lexSingleQuoted out pos = Done (tok, n) ->
  atOff inCode (pos + n).
Proof.
  intros Hq H. unfold lexSingleQuoted. set (i := scan _ _ _).
  destruct (Nat.leb_spec (length out) i) as [|Hi]; [done|]. intros [= <- <-].
  assert (pos + 1 <= i) by apply scan_ge. replace (pos + (i + 1 - pos)) with (i + 1) by lia.
  unfold atOff in H. rewrite (atOff_cons _ _ Hq) in H. apply inCode_squote in H as H1.
  apply (atOff_next inSingle), (single_range _ i) in H1; [|lia..|apply scan_not_elem].
  pose proof (scan_found squote out (pos + 1) Hi) as Hc. fold i in Hc.
  unfold atOff in H1. rewrite (atOff_cons _ _ Hc) in H1.
  apply inSingle_step in H1 as (a & l & E & H1 & _). apply atOff_next. eauto.
Qed.

Lemma interp_close i j :
  plainBodies out = true -> atOff inDouble i ->
  out !! i = Some dollar -> out !! (i + 1) = Some lbrace -> scanInterpBody out (i + 2) = Done j ->
  atOff inDouble (j + 1).
Proof.
  intros Hp H Hd Hb Hs. pose proof (plainBodies_spec _ _ _ Hp Hd Hb Hs) as Hn.
  apply scanInterpBody_from_done in Hs as [Hij Hj]. pose proof (lookup_lt_Some _ _ _ Hj).
  assert (atOff inBody (i + 2)) as H2.
  { replace (i + 2) with (i + 1 + 1) by lia.
    apply (body_range i); [lia| | |by left].
    - apply lookup_lt_Some in Hb. lia.
    - replace (i + 1 + 1) with (i + 2) by lia. rewrite (slice_two _ _ _ _ Hd Hb). set_solver. }
  apply (body_range _ j) in H2; [|lia..|done]. unfold atOff in H2. rewrite (atOff_cons _ _ Hj) in H2.
  apply inBody_step in H2 as (a & l & E & _ & H2); [|done]. apply atOff_next. eauto.
Qed.

Lemma double_close fuel loc pos segs lit i tok n :
  plainBodies out = true -> pos < i -> atOff inDouble i ->
  doubleQuoted fuel loc out pos segs lit i = Done (tok, n) -> atOff inCode (pos + n).
Proof.
  intros Hp. revert segs lit i. induction fuel as [|fuel IH]; intros segs lit i Hlt H; [done|].
  cbn [doubleQuoted]. destruct (out !! i) as [c|] eqn:Hc; [|done].
  pose proof H as H'. unfold atOff in H'. rewrite (atOff_cons _ _ Hc) in H'.
  destruct (Ascii.eqb_spec c dquote) as [->|Hnq].
  { intros [= <- <-]. replace (pos + (i + 1 - pos)) with (i + 1) by lia.
    apply inDouble_step in H' as (a & l & E & H' & _); [|done]. apply atOff_next. eauto. }
  destruct (Ascii.eqb_spec c backslash) as [->|Hnb].
  { destruct (out !! (i + 1)) as [e|] eqn:He; [|done]. destruct (decodeEscape e) as [d|]; [|done].
    apply IH; [lia|]. rewrite (atOff_cons _ _ He) in H'.
    apply inDouble_escape in H' as [(a & _ & [=])|(a & b & l & s' & E & [= <- <-] & H')].
    unfold atOff. replace (i + 2) with (i + 1 + 1) by lia.
    replace (drop (i + 1 + 1) input) with l; [done|]. by rewrite <- !drop_drop, E. }
  destruct (Ascii.eqb_spec c dollar) as [->|Hnd].
  - destruct (at_ (Ascii.eqb lbrace) out (i + 1)) eqn:Hb; [|done]. apply at_eqb in Hb. cbn [negb].
    destruct (scanInterpBody out (i + 2)) as [j| |] eqn:E; [|done..]. cbn [obind].
    destruct (blank _); [done|]. apply IH; [|by eapply interp_close].
    apply scanInterpBody_from_done in E as [? _]. lia.
  - apply IH; [lia|]. apply inDouble_step in H' as (a & l & E & _ & H'); [|done]. apply atOff_next. eauto.
Qed.

Lemma quoted_close pos q tok n :
  plainBodies out = true -> out !! pos = Some q -> one_of [dquote; squote] q = true ->
  atOff inCode pos -> lexQuoted out pos base = Done (tok, n) -> atOff inCode (pos + n).
Proof.
  intros Hp Hq Ho H. unfold lexQuoted. destruct (at_ (Ascii.eqb squote) out pos) eqn:E.
  - apply at_eqb in E. by apply single_close.
  - assert (q = dquote) as ->.
    { apply one_of_spec in Ho. apply not_true_iff_false in E. rewrite at_eqb in E. set_solver. }
    apply double_close; [done|lia|]. unfold atOff in H. rewrite (atOff_cons _ _ Hq) in H.
    by apply inCode_dquote, atOff_next in H.
Qed.
End sync.

(** ** The main loop *)

Definition stepLen (s : step) : nat := match s with Skip n => n | Emit _ n => n end.

Lemma quoteless_two input i c d :
  input !! i = Some c -> input !! (i + 1) = Some d ->
  one_of [squote; dquote] c = false -> one_of [squote; dquote] d = false -> quoteless input i (i + 2).
Proof.
  intros Hc Hd Ec Ed. apply (quoteless_app _ _ (i + 1)); [lia|lia|by eapply quoteless_one|].
  replace (i + 2) with (i + 1 + 1) by lia. by eapply quoteless_one.
Qed.

Lemma tokenStep_quoteless base input tokens i ch s :
  input !! i = Some ch -> one_of [dquote; squote] ch = false ->
  tokenStep input base tokens i ch = Done s -> quoteless input i (i + stepLen s).
Proof.
  intros Hc Hn. assert (one_of [squote; dquote] ch = false) as Hq.
  { apply one_of_false. apply one_of_false in Hn. set_solver. }
  pose proof (quoteless_one _ _ _ Hc Hq) as H1. unfold tokenStep. rewrite Hn.
  destruct (one_of [space; tab; return_] ch); [by intros [= <-]|].
  destruct ((ch =? backslash)%char && _) eqn:E2.
  { apply andb_prop in E2 as [_ E2%at_eqb]. intros [= <-]. by eapply quoteless_two. }
  destruct (_ && at_ (Ascii.eqb newline) input (i + 2)) eqn:E3.
  { apply andb_prop in E3 as [[_ E3%at_eqb]%andb_prop E3'%at_eqb]. intros [= <-]. cbn [stepLen].
    apply (quoteless_app _ _ (i + 2)); [lia|lia|by eapply quoteless_two|].
    replace (i + 3) with (i + 2 + 1) by lia. by eapply quoteless_one. }
  destruct (one_of [newline; _] ch); [by intros [= <-]|].
  destruct (one_of [lbrace; _; _; _] ch); [by intros [= <-]|].
  destruct (one_of ["+"%char; _; _] ch); [by intros [= <-]|].
  destruct ((ch =? "=")%char && _).
  { destruct (at_ (Ascii.eqb "="%char) input (i + 1)) eqn:E8; intros [= <-]; [|done].
    apply at_eqb in E8. by eapply quoteless_two. }
  destruct (Ascii.eqb_spec ch dollar) as [->|_].
  { destruct (lexVarRef input i) as [[tok n]| |] eqn:E8; [|done..]. intros [= <-].
    apply lexVarRef_done in E8 as (_ & (_ & _ & ?) & _); done. }
  destruct (one_of [lbracket; _] ch); [by intros [= <-]|].
  destruct ((ch =? "|")%char && _) eqn:E10.
  { apply andb_prop in E10 as [_ E10%at_eqb]. intros [= <-]. by eapply quoteless_two. }
  destruct ((ch =? "<")%char && _) eqn:E11.
  { apply andb_prop in E11 as [_ E11%at_eqb]. intros [= <-]. by eapply quoteless_two. }
  destruct (lexAdapterRef input i) as [[[tok n]|]| |] eqn:E12; [| |done..]; intros [= <-].
  - apply (lexAdapterRef_done base) in E12 as [_ (_ & _ & ?)]. done.
  - cbn [stepLen]. set (p := fun c => negb (endsWord c)). pose proof (scan_ge p input i).
    replace (i + (scan p input i - i)) with (scan p input i) by lia.
    apply quoteless_scan. intros c He%negb_true_iff. unfold endsWord in He.
    apply one_of_false in He. apply one_of_false. set_solver.
Qed.

Lemma tokenStep_code base input tokens i ch s :
  plainBodies (stripComment input) = true -> atOff input inCode i ->
  stripComment input !! i = Some ch -> tokenStep (stripComment input) base tokens i ch = Done s ->
  0 < stepLen s /\ i + stepLen s <= length (stripComment input) /\ atOff input inCode (i + stepLen s).
Proof.
  intros Hp H Hc Hs. assert (ch <> hash) as Hh.
  { intros ->. by apply (code_not_hash input i) in H. }
  pose proof (tokenStep_done _ _ _ _ _ _ Hc Hh Hs) as Hd.
  assert (0 < stepLen s /\ i + stepLen s <= length (stripComment input)) as [? ?].
  { destruct s; destruct Hd as (? & ? & _); done. }
  split_and!; [done..|]. destruct (one_of [dquote; squote] ch) eqn:E.
  - unfold tokenStep in Hs. clear Hd. apply one_of_spec in E as E'.
    assert (ch = dquote \/ ch = squote) as Hq by set_solver.
    assert (exists tok n, s = Emit tok n /\ lexQuoted (stripComment input) i base = Done (tok, n))
      as (tok & n & -> & Hl).
    { destruct Hq as [-> | ->]; cbn in Hs;
        destruct (lexQuoted _ _ _) as [[tok n]| |]; cbn in Hs; try done; injection Hs as <-; eauto. }
    by eapply quoted_close.
  - eapply code_range; [|done| |exact H]; [lia|]. by eapply tokenStep_quoteless.
Qed.

Lemma tokenLoop_returns fuel input base tokens i :
  plainBodies (stripComment input) = true -> atOff input inCode i ->
  length (stripComment input) - i < fuel ->
  tokenLoop fuel (stripComment input) base tokens i <> OutOfFuel.
Proof.
  intros Hp. revert tokens i. induction fuel as [|fuel IH]; intros tokens i H Hf; [lia|].
  cbn [tokenLoop]. destruct (stripComment input !! i) as [ch|] eqn:Hc; [|done].
  pose proof (tokenStep_returns _ base tokens _ _ Hc) as Hr.
  destruct (tokenStep _ _ _ _ _) as [s| |] eqn:Hs; [|done..]. cbn [obind].
  destruct (tokenStep_code _ _ _ _ _ _ Hp H Hc Hs) as (? & ? & ?).
  pose proof (lookup_lt_Some _ _ _ Hc). destruct s as [n|tok n]; cbn [stepLen] in *; apply IH; try done; lia.
Qed.

Lemma tokenLoop_mono fuel k input base tokens i :
  tokenLoop fuel input base tokens i <> OutOfFuel ->
  tokenLoop (fuel + k) input base tokens i = tokenLoop fuel input base tokens i.
Proof.
  revert tokens i. induction fuel as [|fuel IH]; intros tokens i; [done|]. cbn [tokenLoop Nat.add].
  destruct (input !! i) as [ch|]; [|done]. destruct (tokenStep _ _ _ _ _) as [[]| |]; cbn [obind]; auto.
Qed.

(** the tokeniser returns. On every input in which no interpolation body
    [${...}] of a double-quoted string holds a double quote, the main loop ends
    after at most one iteration for each byte, with the tokens or with an error, and
    more iterations would not change the outcome. *)
Theorem tokenise_returns (start : Pos) (input : bytes)
  (Hplain : plainBodies (stripComment input) = true) :
  exists r, r <> OutOfFuel /\ forall fuel, length input < fuel -> tokeniseAt fuel start input = r.
Proof.
  exists (tokeniseAt (S (length input)) start input). unfold tokeniseAt.
  destruct (blank _); [done|].
  assert (tokenLoop (S (length input)) (stripComment input) (normalizeStartPos start) [] 0 <> OutOfFuel).
  { apply tokenLoop_returns; [done|apply atOff_start|]. rewrite stripComment_length. lia. }
  split; [done|]. intros fuel Hf. replace fuel with (S (length input) + (fuel - S (length input))) by lia.
  by apply tokenLoop_mono.
Qed.

(** ** An input without end *)

(** An interpolated string whose body is a single-quoted double quote, then a
    space and a comment. For stripComment the double quote in the body
    closes the string and the next single quote opens one, so that it takes the
    hash for quoted. *)
Definition stall : bytes :=
  [dquote; dollar; lbrace; squote; dquote; squote; rbrace; dquote; space; hash].

Lemma stall_unstripped rest :
  stripComment (stall ++ rest) = stall ++ stripComment_from true false false rest.
Proof. done. Qed.

Lemma stall_string base tokens r :
  exists tok, tokenStep (stall ++ r) base tokens 0 dquote = Done (Emit tok 8).
Proof. eexists. vm_compute. reflexivity. Qed.

(** C38: the tokeniser does not return on an interpolated string that holds a
    quoted double quote and is followed by a comment: with every number of
    iterations the main loop is still at the hash, where it emits an empty word
    each time. *)
Theorem tokenise_stalls (fuel : nat) (start : Pos) (rest : bytes) :
  tokeniseAt fuel start (stall ++ rest) = OutOfFuel.
Proof.
  unfold tokeniseAt. rewrite stall_unstripped. set (r := stripComment_from _ _ _ rest).
  change (blank (stall ++ r)) with false. cbv iota.
  destruct fuel as [|[|fuel]]; [done|..]; cbn [tokenLoop];
    change ((stall ++ r) !! 0) with (Some dquote); cbv iota;
    destruct (stall_string (normalizeStartPos start) [] r) as [tok ->]; [done|].
  cbn [obind Nat.add]. change ((stall ++ r) !! 8) with (Some space). cbv iota.
  by apply hash_stalls.
Qed.
