(* ===== verification/LexerPrint.v ===== *)
(** * Printed literals are read back

    writeQuotedLiteralSource of sourcefmt.go against the tokeniser. The printer
    ranges over the runes of the text, so that a byte that is not part of a valid
    UTF-8 encoding is replaced; texts are valid UTF-8 here. *)

From Stdlib Require Import ZArith Lia Ascii.
From stdpp Require Import base tactics list strings option sets.
From S2P Require Import Prelude Lexer LexerPos LexerCover LexerReturns.

(** utf8.ValidString *)
Fixpoint validUTF8 (text : bytes) : bool :=
  match text with
  | [] => true
  | a :: t1 =>
    if between "000" "127" a then validUTF8 t1
    else match t1 with
    | b :: t2 =>
      if rune2 a b then validUTF8 t2
      else match t2 with
      | c :: t3 =>
        if rune3 a b c then validUTF8 t3
        else match t3 with
        | d :: t4 => if rune4 a b c d then validUTF8 t4 else false
        | [] => false
        end
      | [] => false
      end
    | [] => false
    end
  end.

(** ** The printer, byte by byte *)

Definition escaped (text : bytes) : bytes := concat (escapeByte <$> text).

Lemma escaped_cons c text : escaped (c :: text) = escapeByte c ++ escaped text.
Proof. done. Qed.

(** A byte outside of ASCII is not escaped. *)
Lemma escapeByte_high c : between "000" "127" c = false -> escapeByte c = [c].
Proof.
  intros H. apply negb_true_iff in H. apply (bool_decide_unpack (escapeByte c = [c])).
  apply Is_true_true. revert c H. apply byte_implies. by vm_compute.
Qed.

Lemma cont_high c : cont c = true -> between "000" "127" c = false.
Proof.
  intros H. apply negb_true_iff. revert c H.
  apply (byte_implies _ (fun c => negb (between "000" "127" c))). by vm_compute.
Qed.

Lemma range_high c : between "128" "255" c = true -> between "000" "127" c = false.
Proof.
  intros H. apply negb_true_iff. revert c H.
  apply (byte_implies _ (fun c => negb (between "000" "127" c))). by vm_compute.
Qed.

Lemma between_sub lo hi lo' hi' c :
  (N_of_ascii lo' <= N_of_ascii lo)%N -> (N_of_ascii hi <= N_of_ascii hi')%N ->
  between lo hi c = true -> between lo' hi' c = true.
Proof. unfold between. rewrite !andb_true_iff, !N.leb_le. lia. Qed.

Lemma rune3_high a b c :
  rune3 a b c = true -> between "000" "127" b = false /\ between "000" "127" c = false.
Proof.
  unfold rune3. rewrite !andb_true_iff, !orb_true_iff, !andb_true_iff. intros [Hb Hc%cont_high].
  split; [|done]. apply range_high.
  destruct Hb as [[[_ H]|[_ H]]|[_ H]]; eapply between_sub; try apply H; by vm_compute.
Qed.

Lemma rune4_high a b c d :
  rune4 a b c d = true ->
  between "000" "127" b = false /\ between "000" "127" c = false /\ between "000" "127" d = false.
Proof.
  unfold rune4. rewrite !andb_true_iff, !orb_true_iff, !andb_true_iff. intros [[Hb Hc%cont_high] Hd%cont_high].
  split; [|done]. apply range_high.
  destruct Hb as [[[_ H]|[_ H]]|[_ H]]; eapply between_sub; try apply H; by vm_compute.
Qed.

Lemma writeDoubleQuotedContent_escaped text :
  validUTF8 text = true -> writeDoubleQuotedContent text = escaped text.
Proof.
  induction text as [text IH] using (induction_ltof1 _ (@length ascii)). unfold ltof in IH.
  destruct text as [|a t1]; [done|]. cbn [validUTF8 writeDoubleQuotedContent].
  destruct (between "000" "127" a) eqn:Ha.
  { intros H. rewrite escaped_cons, IH; [done|simpl; lia|done]. }
  rewrite escaped_cons, (escapeByte_high a Ha). destruct t1 as [|b t2]; [done|].
  destruct (rune2 a b) eqn:E2.
  { apply andb_prop in E2 as [_ Hb%cont_high]. intros H.
    rewrite escaped_cons, (escapeByte_high b), IH by (simpl; lia || done). done. }
  destruct t2 as [|c t3]; [done|]. destruct (rune3 a b c) eqn:E3.
  { apply rune3_high in E3 as [Hb Hc]. intros H.
    rewrite !escaped_cons, (escapeByte_high b), (escapeByte_high c), IH by (simpl; lia || done). done. }
  destruct t3 as [|d t4]; [done|]. destruct (rune4 a b c d) eqn:E4; [|done].
  apply rune4_high in E4 as (Hb & Hc & Hd). intros H.
  rewrite !escaped_cons, (escapeByte_high b), (escapeByte_high c), (escapeByte_high d), IH
    by (simpl; lia || done).
  done.
Qed.

(** A byte is printed as an escape that is read back, or as itself. *)
Lemma escapeByte_cases c :
  (exists e, escapeByte c = [backslash; e] /\ decodeEscape e = Some c) \/
  escapeByte c = [c] /\ c <> dquote /\ c <> backslash /\ c <> dollar.
Proof.
  unfold escapeByte.
  repeat match goal with
  | |- context [(c =? ?d)%char] =>
    destruct (Ascii.eqb_spec c d) as [->|]; [left; eexists; split; reflexivity|]
  end.
  by right.
Qed.

(** ** Comments within the printed text *)

Lemma strip_escaped text rest :
  rest <> [] ->
  stripComment_from false true false (escaped text ++ rest) =
  escaped text ++ stripComment_from false true false rest.
Proof.
  intros Hr. induction text as [|c text IH]; [done|]. rewrite escaped_cons, <- !app_assoc.
  destruct (escapeByte_cases c) as [(e & -> & _)|(-> & Hq & Hb & _)].
  - simpl. by rewrite IH.
  - simpl. apply eqb_false in Hb, Hq. rewrite Hb, Hq. simpl. rewrite andb_false_r. simpl.
    rewrite andb_false_r. simpl. by rewrite IH.
Qed.

Lemma strip_single text rest :
  squote ∉ text ->
  stripComment_from true false false (text ++ rest) = text ++ stripComment_from true false false rest.
Proof.
  induction text as [|c text IH]; intros Hn; [done|]. simpl.
  assert ((c =? squote)%char = false) as -> by (apply eqb_false; set_solver).
  destruct (c =? backslash)%char, (c =? dquote)%char, (c =? hash)%char; simpl; rewrite IH by set_solver; done.
Qed.

(** ** Reading it back *)

Definition litText (lit : literal) : bytes := match lit with Some (_, l) => l | None => [] end.

Lemma litText_write lit i b : litText (writeLiteral lit i b) = litText lit ++ [b].
Proof. by destruct lit as [[]|]. Qed.

Lemma close_literal loc input pos lit i j :
  closeDoubleQuoted input pos j (flushLiteral loc [] lit i) = plainToken TokenQuoted (litText lit).
Proof. by destruct lit as [[]|]. Qed.

Lemma lookup_of_drop (input : bytes) i c l : drop i input = c :: l -> input !! i = Some c.
Proof. intros H. pose proof (lookup_drop input i 0) as E. rewrite H, Nat.add_0_r in E. by rewrite <- E. Qed.

Lemma drop_of_drop (input : bytes) i n l : drop i input = l -> drop (i + n) input = drop n l.
Proof. intros <-. by rewrite drop_drop. Qed.

Lemma doubleQuoted_escaped fuel loc input pos lit text rest i :
  drop i input = escaped text ++ dquote :: rest -> length text < fuel ->
  doubleQuoted fuel loc input pos [] lit i =
  Done (plainToken TokenQuoted (litText lit ++ text), i + length (escaped text) + 1 - pos).
Proof.
  revert fuel lit i. induction text as [|c text IH]; intros [|fuel] lit i Hd Hf; try (simpl in Hf; lia).
  - apply lookup_of_drop in Hd. cbn [doubleQuoted]. rewrite Hd. cbn [Ascii.eqb].
    rewrite (proj2 (eqb_true dquote dquote) eq_refl), close_literal, app_nil_r. simpl.
    by rewrite Nat.add_0_r.
  - rewrite escaped_cons, <- app_assoc in Hd. rewrite escaped_cons, length_app.
    cbn [doubleQuoted]. destruct (escapeByte_cases c) as [(e & Ee & He)|(Ee & Hq & Hb & Hdl)];
      rewrite Ee in *; cbn [app] in Hd; rewrite (lookup_of_drop _ _ _ _ Hd).
    + pose proof (drop_of_drop _ _ 1 _ Hd) as Hd1. cbn [drop] in Hd1.
      rewrite (lookup_of_drop _ _ _ _ Hd1). cbn [Ascii.eqb]. rewrite He.
      rewrite (proj2 (eqb_false backslash dquote)), (proj2 (eqb_true backslash backslash)) by done.
      rewrite IH; [|exact (drop_of_drop _ _ 2 _ Hd)|simpl in Hf; lia].
      rewrite litText_write, <- app_assoc. do 3 f_equal. simpl. lia.
    + apply eqb_false in Hq, Hb, Hdl. rewrite Hq, Hb, Hdl.
      rewrite IH; [|exact (drop_of_drop _ _ 1 _ Hd)|simpl in Hf; lia].
      rewrite litText_write, <- app_assoc. do 3 f_equal. simpl. lia.
Qed.

Lemma escaped_length text : length text <= length (escaped text).
Proof.
  induction text as [|c text IH]; [done|]. rewrite escaped_cons, length_app.
  destruct (escapeByte_cases c) as [(e & -> & _)|(-> & _)]; simpl; lia.
Qed.

Lemma containsAny_spec text cs : containsAny text cs = false <-> Forall (fun c => c ∉ cs) text.
Proof.
  unfold containsAny. induction text as [|c text IH]; simpl; [split; [constructor|done]|].
  rewrite orb_false_iff, IH, one_of_false, Forall_cons. done.
Qed.

(** The two forms of a printed literal. *)
Lemma quoted_forms text :
  validUTF8 text = true ->
  writeQuotedLiteralSource text = [squote] ++ text ++ [squote] /\ squote ∉ text \/
  writeQuotedLiteralSource text = [dquote] ++ escaped text ++ [dquote].
Proof.
  intros Hv. unfold writeQuotedLiteralSource.
  destruct (_ && _ && _) eqn:E; [left|right; by rewrite writeDoubleQuotedContent_escaped].
  split; [done|]. apply andb_prop in E as [[_ E%negb_true_iff]%andb_prop _].
  apply containsAny_spec in E. intros Hs. eapply Forall_forall in E; [|exact Hs]. set_solver.
Qed.

Lemma quoted_unstripped text :
  validUTF8 text = true ->
  stripComment (writeQuotedLiteralSource text) = writeQuotedLiteralSource text.
Proof.
  intros Hv. unfold stripComment. destruct (quoted_forms text Hv) as [[-> Hn]| ->]; simpl; f_equal.
  - by rewrite strip_single.
  - by rewrite strip_escaped.
Qed.

Lemma lexSingleQuoted_printed text rest :
  squote ∉ text ->
  lexSingleQuoted (squote :: text ++ squote :: rest) 0 =
  Done (plainToken TokenQuoted text, length text + 2).
Proof.
  intros Hn. unfold lexSingleQuoted. set (p := fun c => negb (c =? squote)%char).
  assert (scan p (squote :: text ++ squote :: rest) (0 + 1) = length text + 1) as ->.
  { unfold scan. change (drop (0 + 1) (squote :: text ++ squote :: rest)) with (text ++ squote :: rest).
    rewrite prefix_len_app; [simpl; lia|].
    apply Forall_forall. intros c Hc. apply negb_true_iff, eqb_false. set_solver. }
  rewrite (proj2 (Nat.leb_gt _ _)) by (simpl; rewrite length_app; simpl; lia).
  do 2 f_equal; [|lia]. f_equal. unfold slice. replace (length text + 1 - (0 + 1)) with (length text) by lia.
  simpl. by rewrite drop_0, take_app_length.
Qed.

Lemma lexQuoted_printed text base :
  validUTF8 text = true ->
  lexQuoted (writeQuotedLiteralSource text) 0 base =
  Done (plainToken TokenQuoted text, length (writeQuotedLiteralSource text)).
Proof.
  intros Hv. unfold lexQuoted. destruct (quoted_forms text Hv) as [[-> Hn]| ->].
  - rewrite (proj2 (at_eqb squote _ 0)) by done.
    change ([squote] ++ text ++ [squote]) with (squote :: text ++ [squote]).
    rewrite lexSingleQuoted_printed by done. do 2 f_equal. simpl. rewrite length_app. simpl. lia.
  - cbn [at_ app lookup]. change (at_ (Ascii.eqb squote) (dquote :: escaped text ++ [dquote]) 0) with false.
    unfold lexDoubleQuoted. rewrite (doubleQuoted_escaped _ _ _ _ _ text []); [|done|].
    + do 2 f_equal. simpl. rewrite length_app. simpl. lia.
    + simpl. rewrite length_app. pose proof (escaped_length text). lia.
Qed.

Lemma quoted_not_blank q rest : one_of [dquote; squote] q = true -> blank (q :: rest) = false.
Proof.
  intros H%one_of_spec. assert (q = dquote \/ q = squote) as [-> | ->] by set_solver;
    by destruct rest as [|? [|? ?]].
Qed.

(** a quoted literal is read back. The source that the formatter prints for a
    literal with a valid UTF-8 text, whatever quotes, dollars, hashes, backslashes
    or control characters are in it, is tokenised to exactly one quoted token with
    this text, which spans the whole source. *)
Theorem quoted_literal_roundtrip (fuel : nat) (start : Pos) (text : bytes)
  (Hvalid : validUTF8 text = true) (Hfuel : 1 < fuel) :
  let src := writeQuotedLiteralSource text in
  let base := normalizeStartPos start in
  tokeniseAt fuel start src =
  Done [stamp (plainToken TokenQuoted text) (spanOf base src 0 (length src))].
Proof.
  cbv zeta. unfold tokeniseAt. rewrite quoted_unstripped by done.
  set (src := writeQuotedLiteralSource text). set (base := normalizeStartPos start).
  assert (exists q l, src = q :: l /\ (q = dquote \/ q = squote)) as (q & l & Hsrc & Hq).
  { unfold src. destruct (quoted_forms text Hvalid) as [[-> _]| ->]; eauto. }
  assert (blank src = false) as -> by (rewrite Hsrc; apply quoted_not_blank, one_of_spec; set_solver).
  destruct fuel as [|[|fuel]]; [lia|lia|]. cbn [tokenLoop].
  assert (src !! 0 = Some q) as -> by (by rewrite Hsrc).
  assert (tokenStep src base [] 0 q = Done (Emit (plainToken TokenQuoted text) (length src))) as ->.
  { pose proof (lexQuoted_printed text base Hvalid) as Hl. fold src in Hl.
    destruct Hq as [-> | ->]; unfold tokenStep; cbn; by rewrite Hl. }
  cbn [obind Nat.add]. rewrite (lookup_ge_None_2 src) by lia.
  by rewrite (loc_span base src 0 (length src)) by lia.
Qed.
