(* ===== verification/Suggest.v ===== *)
(** * Suggestions for mistyped names

    The edit distance and the rankings of internal/strdist/strdist.go and of
    manager/suggest.go. The two rows of the distance table are arrays that the
    source updates in place and swaps; the theorem is that the last entry is the
    least number of single-rune edits. *)

From Stdlib Require Import ZArith Lia Ascii String Sorted.
From stdpp Require Import base tactics list strings option sorting relations.
From S2P Require Import Prelude Domain Lexer.

(** ** Runes *)

(** [[]rune(s)]: an invalid byte is U+FFFD. *)
Fixpoint decodeRunes (s : bytes) : list N :=
  match s with
  | [] => []
  | a :: t1 =>
    if between "000" "127" a then N_of_ascii a :: decodeRunes t1
    else match t1 with
    | b :: t2 =>
      if rune2 a b then
        (N_of_ascii a mod 32 * 64 + N_of_ascii b mod 64)%N :: decodeRunes t2
      else match t2 with
      | c :: t3 =>
        if rune3 a b c then
          (N_of_ascii a mod 16 * 4096 + N_of_ascii b mod 64 * 64 + N_of_ascii c mod 64)%N
          :: decodeRunes t3
        else match t3 with
        | d :: t4 =>
          if rune4 a b c d then
            (N_of_ascii a mod 8 * 262144 + N_of_ascii b mod 64 * 4096
             + N_of_ascii c mod 64 * 64 + N_of_ascii d mod 64)%N :: decodeRunes t4
          else 65533%N :: decodeRunes t1
        | [] => 65533%N :: decodeRunes t1
        end
      | [] => 65533%N :: decodeRunes t1
      end
    | [] => 65533%N :: decodeRunes t1
    end
  end.

Definition runes (s : string) : list N := decodeRunes (String.list_ascii_of_string s).

(** ** The edit distance *)

(** The inner loop, [k] iterations from column [j]: [ai] is the rune of the row. *)
Fixpoint levRow (k j : nat) (ai : N) (br : list N) (prev curr : list nat) : list nat :=
  match k with
  | O => curr
  | S k' =>
    let cost := if bool_decide (br !! (j - 1) = Some ai) then 0 else 1 in
    let v := Nat.min (prev !!! j + 1) (Nat.min (curr !!! (j - 1) + 1) (prev !!! (j - 1) + cost)) in
    levRow k' (S j) ai br prev (<[j := v]> curr)
  end.

(** The outer loop over the runes of [a] that are left, with the swap of rows. *)
Fixpoint levRows (ar : list N) (i : nat) (br : list N) (prev curr : list nat) : list nat :=
  match ar with
  | [] => prev
  | ai :: ar' =>
    let curr := levRow (length br) 1 ai br prev (<[0 := i]> curr) in
    levRows ar' (S i) br curr prev
  end.

Definition Levenshtein (a b : string) : nat :=
  let ar := runes a in
  let br := runes b in
  let m := length ar in
  let n := length br in
  if m =? 0 then n
  else if n =? 0 then m
  else levRows ar 1 br (seq 0 (n + 1)) (replicate (n + 1) 0) !!! n.

(** ** Rankings *)

(** A candidate with its score. *)
Abbreviation scored := (string * nat)%type.

(** The comparison of both sorts: by score, ties by the bytes of the string. *)
Definition scored_le (x y : scored) : Prop :=
  snd x < snd y \/ snd x = snd y /\ String.leb (fst x) (fst y) = true.

#[export] Instance scored_le_dec : RelDecision scored_le.
Proof. intros x y. unfold scored_le. apply _. Defined.

(** The loop that collects the output. *)
Fixpoint collect (limit : Z) (maxDist : nat) (scores : list scored) (out : list string) : list string :=
  match scores with
  | [] => out
  | s :: scores' =>
    if (limit <=? Z.of_nat (length out))%Z then out
    else if maxDist <? snd s then out
    else collect limit maxDist scores' (out ++ [fst s])
  end.

(** [if tight := 2 * scores[0].dist; tight < maxDist { maxDist = tight }] *)
Definition tighten (maxDist : nat) (scores : list scored) : nat :=
  match scores with
  | [] => maxDist
  | s :: _ => if 2 * snd s <? maxDist then 2 * snd s else maxDist
  end.

Definition Nearest (target : string) (candidates : list string) (limit : Z) : list string :=
  if (limit <=? 0)%Z || bool_decide (candidates = []) then []
  else
    let scores := merge_sort scored_le ((fun c => (c, Levenshtein target c)) <$> candidates) in
    let targetLen := length (runes target) in
    let maxDist := Nat.max (targetLen / 2) 3 in
    let maxDist := if targetLen <=? 3 then 1 else maxDist in
    collect limit (tighten maxDist scores) scores [].

Definition tracepointNamePrefixMin : nat := 3.

Definition tracepointDistance (tg tn candidate : string) : nat :=
  match Cut slash candidate with
  | None => Levenshtein (tg ++ String slash "" ++ tn)%string candidate
  | Some (cg, cn) =>
    let namePrefix := (tracepointNamePrefixMin <=? String.length tn) && String.prefix tn cn in
    if String.eqb cg tg && String.eqb cn tn then 0
    else if String.eqb cg tg then
      if namePrefix then 0 else Levenshtein tn cn
    else if String.eqb cn tn then Levenshtein tg cg
    else if namePrefix then Levenshtein tg cg
    else Levenshtein (tg ++ String slash "" ++ tn)%string candidate
  end.

(** The score nearestTracepoints gives to a candidate. *)
Definition tracepointScore (target c : string) : nat :=
  match Cut slash target with
  | Some (tg, tn) => tracepointDistance tg tn c
  | None =>
    Levenshtein target (match Cut slash c with Some (_, cn) => cn | None => c end)
  end.

Definition nearestTracepoints (target : string) (candidates : list string) (limit : Z)
    : list string :=
  if (limit <=? 0)%Z || bool_decide (candidates = []) then []
  else
    let scores := merge_sort scored_le ((fun c => (c, tracepointScore target c)) <$> candidates) in
    let maxDist := Nat.max (length (runes target) / 2) 5 in
    collect limit (tighten maxDist scores) scores [].

(** ** The distance by recursion *)

Fixpoint lev (a : list N) : list N -> nat :=
  match a with
  | [] => @length N
  | x :: a' =>
    fix go b :=
      match b with
      | [] => S (length a')
      | y :: b' =>
        Nat.min (lev a' (y :: b') + 1)
          (Nat.min (go b' + 1) (lev a' b' + if bool_decide (y = x) then 0 else 1))
      end
  end.

Lemma lev_cons x a y b :
  lev (x :: a) (y :: b) =
  Nat.min (lev a (y :: b) + 1)
    (Nat.min (lev (x :: a) b + 1) (lev a b + if bool_decide (y = x) then 0 else 1)).
Proof. done. Qed.

Lemma lev_nil_r a : lev a [] = length a.
Proof. by destruct a. Qed.

(** ** The table *)

Section table.
Context (a b : list N).

(** The distance of the first [i] runes of [a] and the first [j] of [b]. *)
Definition entry (i j : nat) : nat := lev (reverse (take i a)) (reverse (take j b)).

Lemma entry_0 j : j <= length b -> entry 0 j = j.
Proof. intros. unfold entry. simpl. rewrite length_reverse, length_take. lia. Qed.

Lemma entry_col i : i <= length a -> entry i 0 = i.
Proof. intros. unfold entry. simpl. rewrite lev_nil_r, length_reverse, length_take. lia. Qed.

Lemma entry_S i j x :
  a !! i = Some x -> j < length b ->
  entry (S i) (S j) =
  Nat.min (entry i (S j) + 1)
    (Nat.min (entry (S i) j + 1) (entry i j + if bool_decide (b !! j = Some x) then 0 else 1)).
Proof.
  intros Hx [y Hy]%lookup_lt_is_Some. unfold entry.
  rewrite (take_S_r _ _ _ Hx), (take_S_r _ _ _ Hy), !reverse_snoc, lev_cons.
  rewrite Hy. do 2 case_bool_decide; naive_solver.
Qed.

(** [row] holds the entries of row [i] up to column [j]. *)
Definition rowIs (i j : nat) (row : list nat) : Prop :=
  length row = length b + 1 /\ forall k, k < j -> row !! k = Some (entry i k).

Lemma rowIs_total i j row k : rowIs i j row -> k < j -> row !!! k = entry i k.
Proof. intros [_ H] Hk. by apply list_lookup_total_correct, H. Qed.

Lemma levRow_ok i x prev k : forall j curr,
  a !! i = Some x -> rowIs i (length b + 1) prev -> rowIs (S i) j curr ->
  1 <= j -> j + k = length b + 1 ->
  rowIs (S i) (length b + 1) (levRow k j x b prev curr).
Proof.
  induction k as [|k IH]; intros j curr Hx Hp Hc Hj Hk; simpl; [by replace (length b + 1) with j by lia|].
  apply IH; [done..| |lia|lia]. destruct Hc as [Hl Hc].
  split; [by rewrite length_insert|]. intros c Hlt. destruct (decide (c = j)) as [->|].
  - rewrite list_lookup_insert_eq by lia. destruct j as [|j]; [lia|].
    replace (S j - 1) with j by lia.
    rewrite (rowIs_total _ _ _ (S j) Hp), (rowIs_total _ _ _ j Hp), (rowIs_total (S i) (S j) curr j) by (done || lia).
    f_equal. by rewrite (entry_S i j x) by (done || lia).
  - rewrite list_lookup_insert_ne by done. apply Hc. lia.
Qed.

Lemma levRows_ok : forall ar i prev curr,
  drop i a = ar -> i <= length a -> rowIs i (length b + 1) prev -> length curr = length b + 1 ->
  rowIs (length a) (length b + 1) (levRows ar (S i) b prev curr).
Proof.
  induction ar as [|x ar IH]; intros i prev curr Hd Hi Hp Hc; simpl.
  - apply (f_equal length) in Hd. rewrite length_drop in Hd. simpl in Hd.
    by replace (length a) with i by lia.
  - assert (a !! i = Some x) as Hx.
    { pose proof (lookup_drop a i 0) as E. rewrite Hd, Nat.add_0_r in E. by rewrite <- E. }
    pose proof (lookup_lt_Some _ _ _ Hx). apply IH; [|lia| |apply Hp].
    + replace (S i) with (i + 1) by lia. by rewrite <- drop_drop, Hd.
    + apply levRow_ok; [done..| |lia|lia]. split; [by rewrite length_insert|].
      intros k Hk. replace k with 0 by lia. rewrite list_lookup_insert_eq by lia.
      by rewrite entry_col by lia.
Qed.
End table.

Lemma Levenshtein_lev a b : Levenshtein a b = lev (reverse (runes a)) (reverse (runes b)).
Proof.
  unfold Levenshtein. destruct (Nat.eqb_spec (length (runes a)) 0) as [Ha|].
  { apply nil_length_inv in Ha as ->. by rewrite <- length_reverse. }
  destruct (Nat.eqb_spec (length (runes b)) 0) as [Hb|].
  { apply nil_length_inv in Hb as ->. by rewrite lev_nil_r, length_reverse. }
  set (ar := runes a) in *. set (br := runes b) in *.
  assert (rowIs ar br (length ar) (length br + 1)
            (levRows ar 1 br (seq 0 (length br + 1)) (replicate (length br + 1) 0))) as H.
  { apply levRows_ok; [done|lia| |by rewrite length_replicate]. split; [by rewrite length_seq|].
    intros k Hk. rewrite lookup_seq_lt by done. by rewrite entry_0 by lia. }
  rewrite (rowIs_total _ _ _ _ _ _ H) by lia. unfold entry. by rewrite !firstn_all.
Qed.

(** ** Edits *)

(** One insertion, deletion or replacement. *)
Inductive edit : list N -> list N -> Prop :=
| edit_insert l r x : edit (l ++ r) (l ++ x :: r)
| edit_delete l r x : edit (l ++ x :: r) (l ++ r)
| edit_replace l r x y : edit (l ++ x :: r) (l ++ y :: r).

Lemma edit_cons x a b : edit a b -> edit (x :: a) (x :: b).
Proof.
  destruct 1 as [l r y|l r y|l r y z].
  - apply (edit_insert (x :: l)).
  - apply (edit_delete (x :: l)).
  - apply (edit_replace (x :: l)).
Qed.

Lemma edits_cons n x a b : nsteps edit n a b -> nsteps edit n (x :: a) (x :: b).
Proof. apply (nsteps_congruence (cons x)). intros. by apply edit_cons. Qed.

Lemma edit_reverse a b : edit a b -> edit (reverse a) (reverse b).
Proof.
  destruct 1; rewrite ?reverse_app, ?reverse_cons, <- ?app_assoc; simpl; constructor.
Qed.

Lemma edits_reverse n a b : nsteps edit n a b -> nsteps edit n (reverse a) (reverse b).
Proof. apply (nsteps_congruence reverse). intros. by apply edit_reverse. Qed.

(** The distance is reached. *)
Lemma edits_lev a b : nsteps edit (lev a b) a b.
Proof.
  revert b. induction a as [|x a IHa]; intros b.
  - induction b as [|y b IHb]; [constructor|]. change (lev [] (y :: b)) with (S (lev [] b)).
    eapply nsteps_r; [exact IHb|]. apply (edit_insert []).
  - induction b as [|y b IHb].
    + change (lev (x :: a) []) with (S (length a)). rewrite <- (lev_nil_r a).
      eapply nsteps_l; [apply (edit_delete [])|apply IHa].
    + rewrite lev_cons. destruct (Nat.min_spec_le (lev a (y :: b) + 1)
        (Nat.min (lev (x :: a) b + 1) (lev a b + if bool_decide (y = x) then 0 else 1))) as [[_ ->]|[_ ->]].
      { rewrite Nat.add_1_r. eapply nsteps_l; [apply (edit_delete [])|apply IHa]. }
      destruct (Nat.min_spec_le (lev (x :: a) b + 1) (lev a b + if bool_decide (y = x) then 0 else 1))
        as [[_ ->]|[_ ->]].
      { rewrite Nat.add_1_r. eapply nsteps_r; [apply IHb|apply (edit_insert [])]. }
      case_bool_decide as E.
      * subst y. rewrite Nat.add_0_r. apply edits_cons, IHa.
      * rewrite Nat.add_1_r. eapply nsteps_l; [apply (edit_replace [])|apply edits_cons, IHa].
Qed.

(** No edit changes the distance by more than one. *)
Lemma lev_cons_l x a c : lev (x :: a) c <= S (lev a c).
Proof. destruct c; [by rewrite !lev_nil_r|]. rewrite lev_cons. lia. Qed.

Lemma lev_cons_r a y c : lev a (y :: c) <= S (lev a c).
Proof. destruct a; [done|]. rewrite lev_cons. lia. Qed.

Lemma lev_uncons_l x a c : lev a c <= S (lev (x :: a) c).
Proof.
  induction c as [|y c IH]; [rewrite !lev_nil_r; simpl; lia|]. rewrite lev_cons.
  pose proof (lev_cons_r a y c). lia.
Qed.

Lemma lev_replace x y a c : lev (x :: a) c <= S (lev (y :: a) c).
Proof.
  induction c as [|z c IH]; [simpl; lia|]. rewrite !lev_cons.
  destruct (bool_decide _), (bool_decide _); lia.
Qed.

Lemma lev_edit a b c : edit a b -> lev a c <= S (lev b c).
Proof.
  assert (forall l a' b', (forall c, lev a' c <= S (lev b' c)) ->
          forall c, lev (l ++ a') c <= S (lev (l ++ b') c)) as Hcong.
  { clear. intros l a' b' H. induction l as [|z l IH]; [done|]. intros c. cbn [app].
    induction c as [|y c IHc].
    - specialize (IH []). rewrite !lev_nil_r in *. simpl. lia.
    - rewrite !lev_cons. pose proof (IH (y :: c)). pose proof (IH c). lia. }
  destruct 1 as [l r x|l r x|l r x y]; apply Hcong; intros.
  - apply lev_uncons_l.
  - apply lev_cons_l.
  - apply lev_replace.
Qed.

Lemma lev_self a : lev a a = 0.
Proof. induction a as [|x a IH]; [done|]. rewrite lev_cons, bool_decide_true, IH by done. lia. Qed.

Lemma lev_least n a b : nsteps edit n a b -> lev a b <= n.
Proof.
  induction 1 as [a|n a b c He _ IH]; [by rewrite lev_self|].
  pose proof (lev_edit a b c He). lia.
Qed.

(** C39: the edit distance. Levenshtein returns the least number of single-rune
    insertions, deletions and replacements that turn the runes of the one string
    into those of the other: so many edits do it, and no fewer. *)
Theorem Levenshtein_least (a b : string) :
  nsteps edit (Levenshtein a b) (runes a) (runes b) /\
  forall n, nsteps edit n (runes a) (runes b) -> Levenshtein a b <= n.
Proof.
  rewrite Levenshtein_lev. split.
  - rewrite <- (reverse_involutive (runes a)) at 2. rewrite <- (reverse_involutive (runes b)) at 2.
    apply edits_reverse, edits_lev.
  - intros n H. by apply lev_least, edits_reverse.
Qed.
