(* ===== verification/Literals.v ===== *)
(** * Words of the shell language: identifiers, numbers, durations, paths

    The predicates and conversions on single words that the parser uses:
    identifiers (token.go), JSON numbers (ast_stmt.go), paths (path.go), and from
    Go's standard library strings.TrimSpace, strconv.Atoi and time.ParseDuration,
    whose fraction arithmetic is carried out in binary64 as Go does it. The letter
    and digit tables of the unicode package beyond ASCII are a parameter, the class
    [Unicode]. *)

From Stdlib Require Import ZArith Lia Ascii SpecFloat.
From stdpp Require Import base tactics list strings option.
From S2P Require Import Prelude Lexer Suggest.

(** A string literal as bytes. *)
Definition B (s : string) : bytes := String.list_ascii_of_string s.

(** ** Identifiers *)

(** unicode.IsLetter and unicode.IsDigit for the runes from 128 on. *)
Class Unicode := {
  letterBeyondASCII : N -> bool;
  digitBeyondASCII : N -> bool
}.

Definition IsLetter `{Unicode} (r : N) : bool :=
  if (r <? 128)%N then ((65 <=? r) && (r <=? 90) || (97 <=? r) && (r <=? 122))%N
  else letterBeyondASCII r.

Definition IsDigit `{Unicode} (r : N) : bool :=
  if (r <? 128)%N then ((48 <=? r) && (r <=? 57))%N else digitBeyondASCII r.

(** [isIdent]: the loop over the runes, the first one apart. *)
Definition isIdent `{Unicode} (s : bytes) : bool :=
  match decodeRunes s with
  | [] => false
  | r :: rs =>
    (IsLetter r || (r =? 95)%N) &&
    forallb (fun r => IsLetter r || IsDigit r || (r =? 95)%N) rs
  end.

(** ** White space *)

Definition asciiSpace (a : ascii) : bool :=
  one_of [tab; newline; "011"%char; "012"%char; return_; space] a.
Definition space2 (a b : ascii) : bool := (a =? "194")%char && one_of ["133"%char; "160"%char] b.
Definition space3 (a b c : ascii) : bool :=
  (a =? "225")%char && (b =? "154")%char && (c =? "128")%char
  || (a =? "226")%char && (b =? "128")%char
     && (between "128" "138" c || one_of ["168"%char; "169"%char; "175"%char] c)
  || (a =? "226")%char && (b =? "129")%char && (c =? "159")%char
  || (a =? "227")%char && (b =? "128")%char && (c =? "128")%char.

Fixpoint trimLeft (s : bytes) : bytes :=
  match s with
  | [] => []
  | a :: s1 =>
    if asciiSpace a then trimLeft s1
    else match s1 with
    | b :: s2 =>
      if space2 a b then trimLeft s2
      else match s2 with
      | c :: s3 => if space3 a b c then trimLeft s3 else s
      | [] => s
      end
    | [] => s
    end
  end.

(** The same on the reversed text. *)
Fixpoint trimLeftRev (s : bytes) : bytes :=
  match s with
  | [] => []
  | a :: s1 =>
    if asciiSpace a then trimLeftRev s1
    else match s1 with
    | b :: s2 =>
      if space2 b a then trimLeftRev s2
      else match s2 with
      | c :: s3 => if space3 c b a then trimLeftRev s3 else s
      | [] => s
      end
    | [] => s
    end
  end.

(** [strings.TrimSpace] *)
Definition TrimSpaceBytes (s : bytes) : bytes := reverse (trimLeftRev (reverse (trimLeft s))).

(** ** Numbers *)

Definition isDigitByte (c : ascii) : bool := between "0" "9" c.
Definition digitValue (c : ascii) : Z := Z.of_N (N_of_ascii c) - 48.

(** The value of a run of digits. *)
Definition decimal (s : bytes) : Z := foldl (fun v c => 10 * v + digitValue c)%Z 0%Z s.

Definition spanDigits (s : bytes) : bytes * bytes :=
  let n := prefix_len isDigitByte s in (take n s, drop n s).

(** The parts of a JSON number: sign, integer digits, fraction digits and
    exponent; [None] when the text is not one. *)
Definition jsonNumber (text : bytes) : option (bool * bytes * bytes * Z) :=
  let '(neg, s) := match text with
                   | c :: s => if (c =? "-")%char then (true, s) else (false, text)
                   | [] => (false, []) end in
  let '(int, s) := spanDigits s in
  if bool_decide (int = []) then None
  else if bool_decide (1 < length int) && bool_decide (head int = Some "0"%char) then None
  else
    let frac := match s with
                | c :: s' => if (c =? ".")%char then
                    let '(f, s'') := spanDigits s' in
                    if bool_decide (f = []) then None else Some (f, s'')
                  else Some ([], s)
                | [] => Some ([], []) end in
    match frac with
    | None => None
    | Some (f, []) => Some (neg, int, f, 0%Z)
    | Some (f, c :: s) =>
      if one_of ["e"%char; "E"%char] c then
        let '(eneg, s) := match s with
                          | d :: s' => if (d =? "-")%char then (true, s')
                                       else if (d =? "+")%char then (false, s') else (false, s)
                          | [] => (false, []) end in
        let '(e, rest) := spanDigits s in
        if bool_decide (e = []) || negb (bool_decide (rest = [])) then None
        else Some (neg, int, f, if eneg then (- decimal e)%Z else decimal e)
      else None
    end.

(** strconv.ParseFloat has no range error: the decimal rounds to a finite binary64,
    that is, lies below the midpoint of the largest one and 2^1024. *)
Definition finiteFloat (int frac : bytes) (e : Z) : bool :=
  let m := decimal (int ++ frac) in
  let e := (e - Z.of_nat (length frac))%Z in
  let limit := (2 ^ 1024 - 2 ^ 970)%Z in
  if (0 <=? e)%Z then (m * 10 ^ e <? limit)%Z else (m <? limit * 10 ^ (- e))%Z.

Definition jsonSpace (c : ascii) : bool := one_of [space; tab; newline; return_] c.
Definition trimJSON (s : bytes) : bytes :=
  let t := drop (prefix_len jsonSpace s) s in
  reverse (drop (prefix_len jsonSpace (reverse t)) (reverse t)).

Definition IsIntegralJSONNumber (text : bytes) : bool :=
  negb (containsAny text ["."; "e"; "E"]%char).

(** The decoder reads exactly one value, and that value is a number. *)
Definition IsJSONNumber (text : bytes) : bool :=
  match jsonNumber (trimJSON text) with
  | None => false
  | Some (_, int, frac, e) => IsIntegralJSONNumber text || finiteFloat int frac e
  end.

(** [strconv.Atoi] *)
Definition Atoi (s : bytes) : option Z :=
  let '(neg, d) := match s with
                   | c :: s' => if (c =? "-")%char then (true, s')
                                else if (c =? "+")%char then (false, s') else (false, s)
                   | [] => (false, []) end in
  if bool_decide (d = []) || negb (forallb isDigitByte d) then None
  else
    let v := if neg then (- decimal d)%Z else decimal d in
    if (- 2 ^ 63 <=? v)%Z && (v <? 2 ^ 63)%Z then Some v else None.

(** ** Paths (path.go) *)

Record PathStep := MkPathStep { psField : bytes; psIndex : Z; psIsIndex : bool }.

Fixpoint parsePath_from (fuel : nat) (path : bytes) (steps : list PathStep)
    : outcome error (list PathStep) :=
  match fuel with
  | O => OutOfFuel
  | S fuel' =>
    match path with
    | [] => Done steps
    | c :: rest =>
      let path := if (c =? ".")%char then rest else path in
      match path with
      | [] => Done steps
      | c :: rest =>
        if (c =? lbracket)%char then
          let j := prefix_len (fun d => negb (d =? rbracket)%char) path in
          if length path <=? j then Failed (Errorf "unterminated [ in path %q")
          else match Atoi (take (j - 1) rest) with
               | None => Failed (Errorf "invalid index in path %q: %w")
               | Some n => parsePath_from fuel' (drop (j + 1) path) (steps ++ [MkPathStep [] n true])
               end
        else
          let j := prefix_len (fun d => negb (d =? ".")%char && negb (d =? lbracket)%char) path in
          parsePath_from fuel' (drop j path) (steps ++ [MkPathStep (take j path) 0 false])
      end
    end
  end.

Definition ParsePath (path : bytes) : outcome error (list PathStep) :=
  parsePath_from (S (length path)) path [].

Definition isValidPath (path : bytes) : bool :=
  negb (bool_decide (path = [])) &&
  match ParsePath path with
  | Done (_ :: _) => true
  | _ => false
  end.

(** ** Durations (time.ParseDuration) *)

Definition unitOf (u : bytes) : option Z :=
  if bool_decide (u = B "ns") then Some 1%Z
  else if bool_decide (u = B "us") || bool_decide (u = ["194"; "181"; "s"]%char)
          || bool_decide (u = ["206"; "188"; "s"]%char) then Some 1000%Z
  else if bool_decide (u = B "ms") then Some (10 ^ 6)%Z
  else if bool_decide (u = B "s") then Some (10 ^ 9)%Z
  else if bool_decide (u = B "m") then Some (60 * 10 ^ 9)%Z
  else if bool_decide (u = B "h") then Some (3600 * 10 ^ 9)%Z
  else None.

(** leadingInt over the digits; [None] is the overflow. *)
Fixpoint leadingInt (x : Z) (s : bytes) : option Z :=
  match s with
  | [] => Some x
  | c :: s' =>
    if (2 ^ 63 / 10 <? x)%Z then None
    else
      let y := (x * 10 + digitValue c)%Z in
      if (2 ^ 63 <? y)%Z then None else leadingInt y s'
  end.

(** binary64 *)
Definition float := spec_float.
Definition ofZ (z : Z) : float := binary_normalize 53 1024 z 0 false.
Definition fmul : float -> float -> float := SFmul 53 1024.
Definition fdiv : float -> float -> float := SFdiv 53 1024.
(** The conversion of a non-negative float to an integer. *)
Definition truncate (f : float) : Z :=
  match f with
  | S754_finite false m e => if (0 <=? e)%Z then (Zpos m * 2 ^ e)%Z else (Zpos m / 2 ^ (- e))%Z
  | _ => 0%Z
  end.

(** leadingFraction over the digits: the digits that fit and their scale. *)
Fixpoint leadingFraction (x : Z) (scale : float) (s : bytes) : Z * float :=
  match s with
  | [] => (x, scale)
  | c :: s' =>
    if ((2 ^ 63 - 1) / 10 <? x)%Z then (x, scale)
    else
      let y := (x * 10 + digitValue c)%Z in
      if (2 ^ 63 <? y)%Z then (x, scale) else leadingFraction y (fmul scale (ofZ 10)) s'
  end.

(** The loop of ParseDuration over the terms of the literal. *)
Fixpoint durationTerms (fuel : nat) (s : bytes) (d : Z) : option Z :=
  match s, fuel with
  | [], _ => Some d
  | _, O => None
  | c :: _, S fuel' =>
    if negb ((c =? ".")%char || isDigitByte c) then None
    else
      let '(int, s) := spanDigits s in
      match leadingInt 0 int with
      | None => None
      | Some v =>
        let '(frac, s) := match s with
                          | c :: s' => if (c =? ".")%char then spanDigits s' else ([], s)
                          | [] => ([], []) end in
        if bool_decide (int = []) && bool_decide (frac = []) then None
        else
          let i := prefix_len (fun c => negb ((c =? ".")%char || isDigitByte c)) s in
          if i =? 0 then None
          else match unitOf (take i s) with
          | None => None
          | Some unit =>
            if (2 ^ 63 / unit <? v)%Z then None
            else
              let '(f, scale) := leadingFraction 0 (ofZ 1) frac in
              let v := (v * unit)%Z in
              let v := if (0 <? f)%Z
                       then uint64 (v + truncate (fmul (ofZ f) (fdiv (ofZ unit) scale))) else v in
              if (2 ^ 63 <? v)%Z then None
              else
                let d := uint64 (d + v) in
                if (2 ^ 63 <? d)%Z then None else durationTerms fuel' (drop i s) d
          end
      end
  end.

(** A duration in nanoseconds. Each term takes a byte, so the length of the text
    bounds the terms. *)
Definition ParseDuration (s : bytes) : option Z :=
  let '(neg, s) := match s with
                   | c :: s' => if one_of ["-"%char; "+"%char] c then ((c =? "-")%char, s') else (false, s)
                   | [] => (false, []) end in
  if bool_decide (s = B "0") then Some 0%Z
  else if bool_decide (s = []) then None
  else match durationTerms (length s) s 0 with
       | None => None
       | Some d =>
         if neg then Some (- d)%Z
         else if (2 ^ 63 - 1 <? d)%Z then None else Some d
       end.

(** ** Duration.String *)

Definition digitChar (d : Z) : ascii := ascii_of_N (Z.to_N (48 + d)).

(** fmtInt: the decimal digits of [v], at most [fuel] of them. *)
Fixpoint fmtInt_from (fuel : nat) (v : Z) (acc : bytes) : bytes :=
  match fuel with
  | O => acc
  | S fuel' =>
    let acc := digitChar (v mod 10) :: acc in
    if (v / 10 =? 0)%Z then acc else fmtInt_from fuel' (v / 10) acc
  end.
Definition fmtInt (v : Z) : bytes := fmtInt_from 20 v [].

(** fmtFrac: the last [prec] digits of [v] as a fraction without trailing zeros,
    before [acc], and the rest of [v]. *)
Fixpoint fmtFrac_from (prec : nat) (v : Z) (print : bool) (acc : bytes) : bytes * Z :=
  match prec with
  | O => (if print then "."%char :: acc else acc, v)
  | S prec' =>
    let digit := (v mod 10)%Z in
    let print := print || negb (digit =? 0)%Z in
    fmtFrac_from prec' (v / 10) print (if print then digitChar digit :: acc else acc)
  end.
Definition fmtFrac (v : Z) (prec : nat) (acc : bytes) : bytes * Z := fmtFrac_from prec v false acc.

Definition microSign : bytes := ["194"; "181"]%char.

Definition DurationString (d : Z) : bytes :=
  let u := Z.abs d in
  let body :=
    if (u =? 0)%Z then B "0s"
    else if (u <? 1000000000)%Z then
      let '(prec, unit) :=
        if (u <? 1000)%Z then (0, B "ns")
        else if (u <? 1000000)%Z then (3, microSign ++ B "s") else (6, B "ms") in
      let '(acc, u) := fmtFrac u prec unit in fmtInt u ++ acc
    else
      let '(acc, u) := fmtFrac u 9 (B "s") in
      let acc := fmtInt (u mod 60) ++ acc in
      let u := (u / 60)%Z in
      if (u =? 0)%Z then acc
      else
        let acc := fmtInt (u mod 60) ++ B "m" ++ acc in
        let u := (u / 60)%Z in
        if (u =? 0)%Z then acc else fmtInt u ++ B "h" ++ acc in
  if (d <? 0)%Z then "-"%char :: body else body.
