(* ===== verification/Ast.v ===== *)
(** * The syntax tree of the shell language

    ast_expr.go, ast_matches.go, ast_stmt.go and assert_clause.go, and the walk of
    inspect.go over it. Where the source has a struct with two or three pointers of
    which a parsed node sets exactly one (the segments of a string, the entries of a
    matches block, the two sources of a bind), the model has one constructor for
    each. Spans are part of the nodes; [eraseExpr] forgets them. *)

From Stdlib Require Import ZArith Lia Ascii.
From stdpp Require Import base tactics list strings option.
From S2P Require Import Prelude Lexer Literals.

(** ** Expressions *)

Inductive Expr :=
| LiteralExpr (Text : bytes) (Quoted : bool) (sp : Span)
| VarRefExpr (Name Path : bytes) (sp : Span)
| AdapterExpr (Adapter Name Path : bytes) (sp : Span)
| InterpStringExpr (Segments : list InterpStringSegment) (sp : Span)
| BinaryExpr (Left : Expr) (Op : bytes) (Right : Expr) (sp : Span)
| UnaryExpr (Pred : bytes) (Operand : Expr) (sp : Span)
| ThreadExpr (LHS : Expr) (Args : list Expr) (PipePos : Pos) (sp : Span)
| LogicalExpr (Op : bytes) (Left Right : Expr) (sp : Span)
| NotExpr (Operand : Expr) (sp : Span)
| NegateExpr (Operand : Expr) (sp : Span)
| PureCallExpr (Name : bytes) (Args : list Expr) (sp : Span)
| MatchesExpr (Target : Expr) (Block : MatchesBlockExpr) (sp : Span)
| ListExpr (Elems : list Expr) (sp : Span)
| RecordExpr (Fields : list RecordField) (sp : Span)
with InterpStringSegment :=
| SegLiteral (Literal : bytes)
| SegExpr (e : Expr)
with RecordField :=
| MkRecordField (Name : bytes) (e : Expr) (sp : Span)
with MatchesBlockExpr :=
| MkMatchesBlock (Entries : list MatchEntry) (Exhaustive : bool) (sp : Span)
with MatchEntry :=
| MatchPattern (Path : bytes) (Pattern : Expr) (sp : Span)
| MatchSubBlock (Path : bytes) (SubBlock : MatchesBlockExpr) (sp : Span)
| MatchPredicate (Path : bytes) (Predicate : bytes) (sp : Span).

(** The induction principle with the nested lists. *)
Section expr_rect.
Context (P : Expr -> Prop) (PS : InterpStringSegment -> Prop) (PF : RecordField -> Prop)
  (PB : MatchesBlockExpr -> Prop) (PE : MatchEntry -> Prop).
Hypotheses
  (HLit : forall t q s, P (LiteralExpr t q s))
  (HVar : forall n p s, P (VarRefExpr n p s))
  (HAda : forall a n p s, P (AdapterExpr a n p s))
  (HInt : forall l s, Forall PS l -> P (InterpStringExpr l s))
  (HBin : forall l o r s, P l -> P r -> P (BinaryExpr l o r s))
  (HUna : forall p e s, P e -> P (UnaryExpr p e s))
  (HThr : forall e l q s, P e -> Forall P l -> P (ThreadExpr e l q s))
  (HLog : forall o l r s, P l -> P r -> P (LogicalExpr o l r s))
  (HNot : forall e s, P e -> P (NotExpr e s))
  (HNeg : forall e s, P e -> P (NegateExpr e s))
  (HPur : forall n l s, Forall P l -> P (PureCallExpr n l s))
  (HMat : forall e b s, P e -> PB b -> P (MatchesExpr e b s))
  (HLis : forall l s, Forall P l -> P (ListExpr l s))
  (HRec : forall l s, Forall PF l -> P (RecordExpr l s))
  (HSL : forall l, PS (SegLiteral l))
  (HSE : forall e, P e -> PS (SegExpr e))
  (HF : forall n e s, P e -> PF (MkRecordField n e s))
  (HB : forall l x s, Forall PE l -> PB (MkMatchesBlock l x s))
  (HEP : forall p e s, P e -> PE (MatchPattern p e s))
  (HEB : forall p b s, PB b -> PE (MatchSubBlock p b s))
  (HEQ : forall p q s, PE (MatchPredicate p q s)).

Fixpoint expr_ind' (e : Expr) : P e :=
  let fix all (l : list Expr) : Forall P l :=
    match l with [] => Forall_nil_2 P | x :: l => Forall_cons_2 P x l (expr_ind' x) (all l) end in
  match e with
  | LiteralExpr t q s => HLit t q s
  | VarRefExpr n p s => HVar n p s
  | AdapterExpr a n p s => HAda a n p s
  | InterpStringExpr l s =>
    HInt l s ((fix go l : Forall PS l :=
      match l with [] => Forall_nil_2 PS | x :: l => Forall_cons_2 PS x l (segment_ind' x) (go l) end) l)
  | BinaryExpr l o r s => HBin l o r s (expr_ind' l) (expr_ind' r)
  | UnaryExpr p e s => HUna p e s (expr_ind' e)
  | ThreadExpr e l q s => HThr e l q s (expr_ind' e) (all l)
  | LogicalExpr o l r s => HLog o l r s (expr_ind' l) (expr_ind' r)
  | NotExpr e s => HNot e s (expr_ind' e)
  | NegateExpr e s => HNeg e s (expr_ind' e)
  | PureCallExpr n l s => HPur n l s (all l)
  | MatchesExpr e b s => HMat e b s (expr_ind' e) (block_ind' b)
  | ListExpr l s => HLis l s (all l)
  | RecordExpr l s =>
    HRec l s ((fix go l : Forall PF l :=
      match l with [] => Forall_nil_2 PF | x :: l => Forall_cons_2 PF x l (field_ind' x) (go l) end) l)
  end
with segment_ind' (x : InterpStringSegment) : PS x :=
  match x with SegLiteral l => HSL l | SegExpr e => HSE e (expr_ind' e) end
with field_ind' (x : RecordField) : PF x :=
  match x with MkRecordField n e s => HF n e s (expr_ind' e) end
with block_ind' (b : MatchesBlockExpr) : PB b :=
  match b with
  | MkMatchesBlock l x s =>
    HB l x s ((fix go l : Forall PE l :=
      match l with [] => Forall_nil_2 PE | x :: l => Forall_cons_2 PE x l (entry_ind' x) (go l) end) l)
  end
with entry_ind' (x : MatchEntry) : PE x :=
  match x with
  | MatchPattern p e s => HEP p e s (expr_ind' e)
  | MatchSubBlock p b s => HEB p b s (block_ind' b)
  | MatchPredicate p q s => HEQ p q s
  end.
End expr_rect.

Definition exprSpan (e : Expr) : Span :=
  match e with
  | LiteralExpr _ _ s | VarRefExpr _ _ s | AdapterExpr _ _ _ s | InterpStringExpr _ s
  | BinaryExpr _ _ _ s | UnaryExpr _ _ s | ThreadExpr _ _ _ s | LogicalExpr _ _ _ s
  | NotExpr _ s | NegateExpr _ s | PureCallExpr _ _ s | MatchesExpr _ _ s | ListExpr _ s
  | RecordExpr _ s => s
  end.

Definition blockSpan (b : MatchesBlockExpr) : Span := match b with MkMatchesBlock _ _ s => s end.

(** ** Statements *)

Record Ident := MkIdent { idText : bytes; idSpan : Span }.

Record DefParam := MkDefParam { dpName : Ident; dpType : bytes }.

Record Command := MkCommand { cmdArgs : list Expr; cmdSpan : Span }.

Inductive AssertClause :=
| AssertExprClause (e : Expr)
| AssertCommandClause (Head : bytes) (HeadSpan : Span) (Args : list Expr) (Negate : bool).

Inductive Stmt :=
| LetStmt (Name : Ident) (RHS : Expr) (sp : Span)
| LetDestructureStmt (Names : list Ident) (RHS : Expr) (sp : Span)
| BindStmt (Target : Ident) (Source : BindSource) (Guard : bool) (sp : Span)
| DeferStmt (Cmd : Command) (sp : Span)
| IfStmt (Cond : Expr) (Then : list Stmt) (Elifs : list IfBranch) (Else : list Stmt) (sp : Span)
| CommandStmt (Cmd : Command)
| ExprStmt (e : Expr) (sp : Span)
| ForEachStmt (fe : ForEach)
| BreakStmt (sp : Span)
| ContinueStmt (sp : Span)
| PollStmt (Timeout Every : Z) (Body : list Stmt) (sp : Span)
| RetryStmt (Message Unless : option Expr) (sp : Span)
| AssertStmt (IsRequire : bool) (Clause : AssertClause) (sp : Span)
| DefStmt (Name : Ident) (Params : list DefParam) (Body : list Stmt) (sp : Span)
| ReturnStmt (e : Expr) (sp : Span)
with BindSource :=
| BindCommand (Cmd : Command)
| BindCollect (Collect : ForEach)
with ForEach :=
| MkForEach (Names : list Ident) (List_ : Expr) (Body : list Stmt) (sp : Span)
with IfBranch :=
| MkIfBranch (Cond : Expr) (Body : list Stmt) (sp : Span).

Record Program := MkProgram { progStmts : list Stmt; progSpan : Span }.

Definition forEachSpan (fe : ForEach) : Span := match fe with MkForEach _ _ _ s => s end.
Definition forEachBody (fe : ForEach) : list Stmt := match fe with MkForEach _ _ b _ => b end.

(** NodeSpan on statements (symbols.go has the same as stmtSpan). *)
Definition stmtSpan (st : Stmt) : Span :=
  match st with
  | LetStmt _ _ s | LetDestructureStmt _ _ s | BindStmt _ _ _ s | DeferStmt _ s
  | IfStmt _ _ _ _ s | ExprStmt _ s | BreakStmt s | ContinueStmt s | PollStmt _ _ _ s
  | RetryStmt _ _ s | AssertStmt _ _ s | DefStmt _ _ _ s | ReturnStmt _ s => s
  | CommandStmt c => cmdSpan c
  | ForEachStmt fe => forEachSpan fe
  end.

(** ** The walk of inspect.go

    The spans of the nodes below a node, in pre-order, the node's own first. *)

Fixpoint walkExpr (e : Expr) : list Span :=
  exprSpan e ::
  match e with
  | LiteralExpr _ _ _ | VarRefExpr _ _ _ | AdapterExpr _ _ _ _ => []
  | InterpStringExpr l _ =>
    (fix go l := match l with
                 | [] => []
                 | SegLiteral _ :: l => go l
                 | SegExpr e :: l => walkExpr e ++ go l
                 end) l
  | BinaryExpr l _ r _ | LogicalExpr _ l r _ => walkExpr l ++ walkExpr r
  | UnaryExpr _ e _ | NotExpr e _ | NegateExpr e _ => walkExpr e
  | ThreadExpr e l _ _ => walkExpr e ++ concat (map walkExpr l)
  | PureCallExpr _ l _ | ListExpr l _ => concat (map walkExpr l)
  | MatchesExpr e b _ => walkExpr e ++ walkBlock b
  | RecordExpr l _ =>
    (fix go l := match l with [] => [] | MkRecordField _ e _ :: l => walkExpr e ++ go l end) l
  end
with walkBlock (b : MatchesBlockExpr) : list Span :=
  match b with
  | MkMatchesBlock l _ s =>
    s :: (fix go l := match l with
                      | [] => []
                      | MatchPattern _ e _ :: l => walkExpr e ++ go l
                      | MatchSubBlock _ b _ :: l => walkBlock b ++ go l
                      | MatchPredicate _ _ _ :: l => go l
                      end) l
  end.

Definition walkCommand (c : Command) : list Span := cmdSpan c :: concat (map walkExpr (cmdArgs c)).

Definition walkOption (e : option Expr) : list Span :=
  match e with Some e => walkExpr e | None => [] end.

Definition walkClause (c : AssertClause) : list Span :=
  match c with
  | AssertExprClause e => walkExpr e
  | AssertCommandClause _ _ args _ => concat (map walkExpr args)
  end.

Fixpoint walkStmt (st : Stmt) : list Span :=
  stmtSpan st ::
  match st with
  | LetStmt _ e _ | LetDestructureStmt _ e _ | ExprStmt e _ | ReturnStmt e _ => walkExpr e
  | BindStmt _ (BindCommand c) _ _ | DeferStmt c _ => walkCommand c
  | BindStmt _ (BindCollect fe) _ _ => walkForEach fe
  | IfStmt c th el els _ =>
    walkExpr c ++ concat (map walkStmt th) ++ concat (map walkIfBranch el) ++ concat (map walkStmt els)
  | CommandStmt c => concat (map walkExpr (cmdArgs c))
  | ForEachStmt (MkForEach _ e b _) => walkExpr e ++ concat (map walkStmt b)
  | BreakStmt _ | ContinueStmt _ => []
  | PollStmt _ _ b _ | DefStmt _ _ b _ => concat (map walkStmt b)
  | RetryStmt m u _ => walkOption m ++ walkOption u
  | AssertStmt _ c _ => walkClause c
  end
with walkForEach (fe : ForEach) : list Span :=
  match fe with MkForEach _ e b s => s :: walkExpr e ++ concat (map walkStmt b) end
with walkIfBranch (br : IfBranch) : list Span :=
  match br with MkIfBranch c b s => s :: walkExpr c ++ concat (map walkStmt b) end.

Definition walkProgram (p : Program) : list Span :=
  match progStmts p with
  | [] => []
  | l => progSpan p :: concat (map walkStmt l)
  end.

(** ** Forgetting the spans *)

Fixpoint eraseExpr (e : Expr) : Expr :=
  match e with
  | LiteralExpr t q _ => LiteralExpr t q zeroSpan
  | VarRefExpr n p _ => VarRefExpr n p zeroSpan
  | AdapterExpr a n p _ => AdapterExpr a n p zeroSpan
  | InterpStringExpr l _ => InterpStringExpr (map eraseSegment l) zeroSpan
  | BinaryExpr l o r _ => BinaryExpr (eraseExpr l) o (eraseExpr r) zeroSpan
  | UnaryExpr p e _ => UnaryExpr p (eraseExpr e) zeroSpan
  | ThreadExpr e l _ _ => ThreadExpr (eraseExpr e) (map eraseExpr l) (Start zeroSpan) zeroSpan
  | LogicalExpr o l r _ => LogicalExpr o (eraseExpr l) (eraseExpr r) zeroSpan
  | NotExpr e _ => NotExpr (eraseExpr e) zeroSpan
  | NegateExpr e _ => NegateExpr (eraseExpr e) zeroSpan
  | PureCallExpr n l _ => PureCallExpr n (map eraseExpr l) zeroSpan
  | MatchesExpr e b _ => MatchesExpr (eraseExpr e) (eraseBlock b) zeroSpan
  | ListExpr l _ => ListExpr (map eraseExpr l) zeroSpan
  | RecordExpr l _ => RecordExpr (map eraseField l) zeroSpan
  end
with eraseSegment (x : InterpStringSegment) : InterpStringSegment :=
  match x with SegLiteral l => SegLiteral l | SegExpr e => SegExpr (eraseExpr e) end
with eraseField (x : RecordField) : RecordField :=
  match x with MkRecordField n e _ => MkRecordField n (eraseExpr e) zeroSpan end
with eraseBlock (b : MatchesBlockExpr) : MatchesBlockExpr :=
  match b with MkMatchesBlock l x _ => MkMatchesBlock (map eraseEntry l) x zeroSpan end
with eraseEntry (x : MatchEntry) : MatchEntry :=
  match x with
  | MatchPattern p e _ => MatchPattern p (eraseExpr e) zeroSpan
  | MatchSubBlock p b _ => MatchSubBlock p (eraseBlock b) zeroSpan
  | MatchPredicate p q _ => MatchPredicate p q zeroSpan
  end.
