(* ===== verification/ExprParser.v ===== *)
(** * The expression parser

    The exprParser of parse.go, the matches blocks of matches.go and the command
    arguments, method by method. A parser is a function of a cursor: the tokens
    that are left, and the end of the token consumed last, which is all that
    spanFrom reads of the others. Recursion goes through parseTerm alone: every
    other method is written against the parser [rec] for the terms nested in it,
    and [parseTerm] ties the knot with fuel for the depth of nesting. The loops
    take fuel too, more than there are tokens left. *)

From Stdlib Require Import ZArith Lia Ascii.
From stdpp Require Import base tactics list strings option.
From S2P Require Import Prelude Lexer Literals Ast.

#[export] Instance TokenKind_eq_dec : EqDecision TokenKind.
Proof. solve_decision. Defined.

(** ** Errors *)

(** An error with a position, or a plain one. *)
Inductive perror :=
| Located (se : SyntaxError)
| Bare (e : error).

Definition spanErr (sp : Span) (msg : string) : perror := Located (spanErrorf sp (Errorf msg)).
Definition LocErrorf (loc : Pos) (msg : string) : perror := spanErr (MkSpan loc loc) msg.

Definition WrapError (prefix : string) (err : perror) : perror :=
  match err with
  | Located se => Located (MkSyntaxError (errSpan se) (Wrap prefix (errMsg se)) (errCause se))
  | Bare e => Bare (Wrap prefix e)
  end.

(** [%v] of an error. *)
Definition messageOf (err : perror) : error :=
  match err with Located se => errMsg se | Bare e => e end.

(** ** Cursors *)

Record cursor := MkCursor { last : option Pos; rest : list Token }.

Definition zeroToken : Token := plainToken TokenWord [].

Definition P (A : Type) : Type := cursor -> outcome perror (A * cursor).

Definition pret {A} (a : A) : P A := fun c => Done (a, c).
Definition pfail {A} (e : perror) : P A := fun _ => Failed e.
Definition pbind {A B} (m : P A) (f : A -> P B) : P B :=
  fun c => match m c with
           | Done (a, c') => f a c'
           | Failed e => Failed e
           | OutOfFuel => OutOfFuel
           end.
Definition lift {A} (o : outcome perror A) : P A :=
  fun c => match o with
           | Done a => Done (a, c)
           | Failed e => Failed e
           | OutOfFuel => OutOfFuel
           end.
(** [if err != nil { return nil, WrapError(prefix, err) }] *)
Definition pwrap {A} (prefix : string) (m : P A) : P A :=
  fun c => mapFailed (WrapError prefix) (m c).

Notation "'let%' x ':=' m 'in' k" := (pbind m (fun x => k))
  (at level 10, x pattern, m at level 100, k at level 200, right associativity) : go_scope.
Notation "m '>>>' k" := (pbind m (fun _ => k))
  (at level 100, k at level 200, right associativity) : go_scope.

Definition eof : P bool := fun c => Done (bool_decide (rest c = []), c).
Definition peek : P Token := fun c => Done (default zeroToken (head (rest c)), c).

Definition advance : P Token := fun c =>
  match rest c with
  | [] => Done (zeroToken, c)
  | t :: r => Done (t, MkCursor (Some (End_ (tokSpan t))) r)
  end.

Definition spanFrom (start : Pos) : P Span := fun c =>
  Done (MkSpan start (default start (last c)), c).

(** The span of an infix node starts where its left operand does. *)
Definition spanFromNodeStart (e : Expr) : P Span := spanFrom (Start (exprSpan e)).

(** What a token can hold: itself and the bodies of its interpolations. *)
Definition tokenWeight (t : Token) : nat :=
  S (sum_list_with (fun s => 2 + length (segInner s)) (tokSegments t)).
Definition weight (tokens : list Token) : nat := sum_list_with tokenWeight tokens.

(** A loop with more fuel than there are tokens left. *)
Definition looping {A} (loop : nat -> P A) : P A := fun c => loop (S (weight (rest c))) c.

(** ** Token tests *)

Definition kindIs (t : Token) (k : TokenKind) : bool := bool_decide (tokKind t = k).
Definition isKeywordWord (t : Token) (kw : string) : bool :=
  kindIs t TokenWord && bool_decide (tokText t = B kw).
Definition wordIn (t : Token) (l : list string) : bool := existsb (isKeywordWord t) l.

Definition isBinaryOp (s : bytes) : bool :=
  existsb (fun o => bool_decide (s = B o)) ["=="; "!="; "<"; "<="; ">"; ">="]%string.
Definition isUnaryPred (s : bytes) : bool := bool_decide (s = B "not-empty").

Definition binaryOpFromToken (t : Token) : bool := kindIs t TokenWord && isBinaryOp (tokText t).
Definition unaryPredFromToken (t : Token) : bool := kindIs t TokenWord && isUnaryPred (tokText t).
Definition isArithmeticOp (t : Token) : bool := wordIn t ["+"; "-"; "*"; "/"; "%"]%string.

(** The registry of purebuiltin.go. *)
Definition pureBuiltinRegistry : list (string * nat) :=
  [("jq", 2); ("u32le", 1); ("u64le", 1); ("range", 1); ("zip", 2); ("path-exists", 1);
   ("contains", 2); ("null", 1); ("present", 1); ("missing", 1); ("empty", 1)]%string.

Definition lookupPureBuiltin (name : bytes) : option nat :=
  snd <$> find (fun p => bool_decide (B (fst p) = name)) pureBuiltinRegistry.

(** [strings.ContainsRune(s, c)] for an ASCII [c]. *)
Definition containsByte (c : ascii) (s : bytes) : bool := existsb (Ascii.eqb c) s.
Definition hasPrefixByte (c : ascii) (s : bytes) : bool :=
  match s with d :: _ => (d =? c)%char | [] => false end.
Definition hasSuffixByte (c : ascii) (s : bytes) : bool := hasPrefixByte c (reverse s).
Definition dropLast (s : bytes) : bytes := take (length s - 1) s.

Definition startsNumericLiteral (text : bytes) : bool :=
  match text with
  | [] => false
  | a :: r =>
    isDigitByte a ||
    one_of ["-"; "+"]%char a && match r with b :: _ => isDigitByte b | [] => false end
  end.

(** The JSON grammar without the range test: json.Valid, on a text that starts
    like a number. *)
Definition validJSONNumber (text : bytes) : bool := match jsonNumber (trimJSON text) with Some _ => true | None => false end.

Definition validateExpressionWordLiteral (t : Token) : option perror :=
  if negb (kindIs t TokenWord) then None
  else if containsByte "," (tokText t) then
    Some (spanErr (tokSpan t) "unquoted comma in expression literal %q; quote it for string text or remove the comma")
  else if startsNumericLiteral (tokText t) && negb (IsJSONNumber (tokText t)) then
    if validJSONNumber (tokText t)
    then Some (spanErr (tokSpan t) "numeric literal %q exceeds the representable range")
    else Some (spanErr (tokSpan t) "invalid numeric literal %q; quote it as %q for string text")
  else None.

Definition canStartPureCallArgToken (t : Token) : bool :=
  if wordIn t ["("; "["]%string then true
  else match tokKind t with
  | TokenQuoted | TokenVarRef | TokenAdapterRef | TokenInterpString => true
  | TokenWord =>
    negb (binaryOpFromToken t) && negb (isArithmeticOp t) && negb (wordIn t ["and"; "or"; "not"]%string)
  | _ => false
  end.

Definition smushedArithmeticHint (t : Token) : bool :=
  kindIs t TokenWord &&
  match tokText t with
  | c :: next :: _ =>
    one_of ["-"; "/"]%char c &&
    (isDigitByte next || one_of ["."; "$"; "_"]%char next || between "a" "z" next || between "A" "Z" next)
  | _ => false
  end.

(** Separators go, except those within braces. *)
Fixpoint stripSeps_from (braceDepth : nat) (tokens : list Token) : list Token :=
  match tokens with
  | [] => []
  | t :: ts =>
    if kindIs t TokenSep && (braceDepth =? 0) then stripSeps_from braceDepth ts
    else if isKeywordWord t "{" then t :: stripSeps_from (S braceDepth) ts
    else if isKeywordWord t "}" then t :: stripSeps_from (braceDepth - 1) ts
    else t :: stripSeps_from braceDepth ts
  end.
Definition stripSeps (tokens : list Token) : list Token := stripSeps_from 0 tokens.

(** ** Primaries *)

Definition advancePos (start : Pos) (s : bytes) : Pos :=
  foldl (fun pos c => if (c =? newline)%char then MkPos (File pos) (Line pos + 1) 1
                      else MkPos (File pos) (Line pos) (Col pos + 1))
    (normalizeStartPos start) s.

(** The tokens of the body of an interpolation; an error with its position. *)
Definition tokeniseInner (start : Pos) (text : bytes) : outcome SyntaxError (list Token) :=
  tokeniseAt (S (length text)) start text.

Section grammar.
Context `{Unicode}.

Section primary.
(** The parser of whole expressions, for the bodies of interpolations. *)
Context (parseExpression : list Token -> outcome perror Expr).

Definition parseInterpBody (inner : bytes) (sp : Span) : outcome perror Expr :=
  let trimmed := TrimSpaceBytes inner in
  match trimmed with
  | [] => Failed (spanErr sp "empty interpolation")
  | c :: _ =>
    let p := Start sp in
    let bodyStart := MkPos (File p) (Line p) (Col p + 2) in
    let leadingWS := take (prefix_len (fun c => one_of [space; tab; newline; return_] c) inner) inner in
    let trimmedStart := advancePos bodyStart leadingWS in
    let general :=
      match tokeniseInner trimmedStart trimmed with
      | OutOfFuel => OutOfFuel
      | Failed err =>
        Failed (Located (spanErrorf sp (Wrap "string interpolation ${%s}: %v" (errMsg err))))
      | Done tokens =>
        match parseExpression tokens with
        | OutOfFuel => OutOfFuel
        | Failed _ => Failed (spanErr sp "string interpolation ${%s}: not a valid expression")
        | Done e => Done e
        end
      end in
    if (c =? dollar)%char then general
    else
      let synthStart := MkPos (File trimmedStart) (Line trimmedStart) (Col trimmedStart - 1) in
      match tokeniseInner synthStart (dollar :: trimmed) with
      | OutOfFuel => OutOfFuel
      | Done [t] =>
        if kindIs t TokenVarRef then
          Done (VarRefExpr (tokVarName t) (tokVarPath t)
                  (MkSpan trimmedStart (advancePos trimmedStart trimmed)))
        else general
      | _ => general
      end
  end.

(** The segments of an interpolated string. *)
Fixpoint parseSegments (segs : list InterpSegment) : outcome perror (list InterpStringSegment) :=
  match segs with
  | [] => Done []
  | s :: segs' =>
    if segIsLit s then
      let? l := parseSegments segs' in Done (SegLiteral (segLiteral s) :: l)
    else
      let? e := parseInterpBody (segInner s) (segSpan s) in
      let? l := parseSegments segs' in
      Done (SegExpr e :: l)
  end.

Definition parsePrimary (t : Token) : outcome perror Expr :=
  match tokKind t with
  | TokenWord =>
    if bool_decide (tokText t = B "nil") then
      Failed (spanErr (tokSpan t) "nil has been removed; use null")
    else Done (LiteralExpr (tokText t) false (tokSpan t))
  | TokenQuoted => Done (LiteralExpr (tokText t) true (tokSpan t))
  | TokenVarRef => Done (VarRefExpr (tokVarName t) (tokVarPath t) (tokSpan t))
  | TokenAdapterRef => Done (AdapterExpr (tokAdapter t) (tokVarName t) (tokVarPath t) (tokSpan t))
  | TokenInterpString =>
    let? segs := parseSegments (tokSegments t) in Done (InterpStringExpr segs (tokSpan t))
  | _ => Failed (spanErr (tokSpan t) "unexpected %q")
  end.
End primary.

(** ** Matches blocks (matches.go) *)

Definition isMatchesPredicate (s : bytes) : bool :=
  existsb (fun o => bool_decide (s = B o)) ["not-empty"; "null"; "empty"]%string.

Definition isMatchesSep (t : Token) : bool :=
  kindIs t TokenSep && bool_decide (tokText t = [newline]).
Definition isSemi (t : Token) : bool := kindIs t TokenSep && bool_decide (tokText t = B ";").

(** [for !p.atEOF() && p(p.peek()) { p.pos++ }] *)
Fixpoint skipWhile_from (p : Token -> bool) (l : option Pos) (ts : list Token) : cursor :=
  match ts with
  | t :: ts' => if p t then skipWhile_from p (Some (End_ (tokSpan t))) ts' else MkCursor l ts
  | [] => MkCursor l []
  end.
Definition skipWhile (p : Token -> bool) : P unit := fun c => Done (tt, skipWhile_from p (last c) (rest c)).

(** [p.tokens[p.pos] = tok] *)
Definition setHead (t : Token) : P unit := fun c =>
  match rest c with
  | [] => Done (tt, c)
  | _ :: r => Done (tt, MkCursor (last c) (t :: r))
  end.

Definition withText (t : Token) (text : bytes) : Token :=
  MkToken (tokKind t) text (tokVarName t) (tokVarPath t) (tokAdapter t) (tokSegments t) (tokSpan t).

(** The loop that reads the rest of a path whose first word has no colon. *)
Fixpoint matchPathLoop (fuel : nat) (pathTok : Token) (pathText : bytes) : P bytes :=
  match fuel with
  | O => fun _ => OutOfFuel
  | S fuel' =>
    let% e := eof in
    if (e : bool) then pfail (spanErr (tokSpan pathTok) "matches entry: missing ':' after path %q")
    else
    let% next := peek in
    let text := tokText next in
    if isKeywordWord next ":" then advance >>> pret pathText
    else if kindIs next TokenWord && hasPrefixByte ":" text then
      setHead (withText next (tail text)) >>> pret pathText
    else if isKeywordWord next "[" then
      advance >>>
      (let% e := eof in
       let% t := peek in
       if e || negb (kindIs t TokenWord) then
         pfail (spanErr (tokSpan pathTok) "matches entry: invalid path %q")
       else
       advance >>>
       (let% e := eof in
        let% t' := peek in
        if e || negb (isKeywordWord t' "]") then
          pfail (spanErr (tokSpan pathTok) "matches entry: invalid path %q")
        else
          advance >>>
          matchPathLoop fuel' pathTok (pathText ++ text ++ tokText t ++ tokText t')))
    else if kindIs next TokenWord && hasPrefixByte "." text && hasSuffixByte ":" text then
      advance >>> pret (pathText ++ dropLast text)
    else if kindIs next TokenWord && hasPrefixByte "." text then
      advance >>> matchPathLoop fuel' pathTok (pathText ++ text)
    else pfail (spanErr (tokSpan pathTok) "matches entry: missing ':' between path and pattern")
  end.

(** The tokens of a pattern: up to the newline or the closing brace. *)
Fixpoint patternTokens_from (buf : list Token) (l : option Pos) (ts : list Token)
    : outcome perror (list Token * cursor) :=
  match ts with
  | [] => Done (buf, MkCursor l [])
  | t :: ts' =>
    if isMatchesSep t then Done (buf, MkCursor l ts)
    else if isSemi t then
      Failed (spanErr (tokSpan t) "matches: ';' is not a valid entry separator; entries are separated by newlines")
    else if isKeywordWord t "}" then Done (buf, MkCursor l ts)
    else if isKeywordWord t "," then
      Failed (spanErr (tokSpan t) "matches: ',' is not a valid entry separator; entries are separated by newlines")
    else if kindIs t TokenWord && (1 <? length (tokText t)) && hasSuffixByte "," (tokText t) then
      Failed (spanErr (tokSpan t) "matches: trailing ',' on %q is not allowed; entries are separated by newlines")
    else patternTokens_from (buf ++ [t]) (Some (End_ (tokSpan t))) ts'
  end.
Definition patternTokens : P (list Token) := fun c => patternTokens_from [] (last c) (rest c).

Section matches.
Context (parseExpression : list Token -> outcome perror Expr).
(** The parser of nested blocks. *)
Context (subBlock : Pos -> bool -> P MatchesBlockExpr).

(** The path of an entry with its colon. *)
Definition parseMatchPath : P (Token * bytes) :=
  let% e := eof in
  let% pathTok := peek in
  let text := tokText pathTok in
  if e || negb (kindIs pathTok TokenWord) then
    pfail (spanErr (tokSpan pathTok) "matches entry: path must be a word, got %q")
  else if isKeywordWord pathTok "{" then
    pfail (spanErr (tokSpan pathTok) "matches entry: missing path before '{'")
  else if hasSuffixByte ":" text && negb (isKeywordWord pathTok ":") then
    advance >>> pret (pathTok, dropLast text)
  else if isKeywordWord pathTok ":" then
    pfail (spanErr (tokSpan pathTok) "matches entry: missing path before ':'")
  else
    advance >>>
    (let% pathText := looping (fun n => matchPathLoop n pathTok text) in pret (pathTok, pathText)).

Definition parseMatchEntry (inExhaustive : bool) : P MatchEntry :=
  let% (pathTok, pathText) := parseMatchPath in
  let start := Start (tokSpan pathTok) in
  if bool_decide (pathText = []) then pfail (spanErr (tokSpan pathTok) "matches entry: empty path")
  else if negb (isValidPath pathText) then
    pfail (spanErr (tokSpan pathTok) "matches entry: invalid path %q")
  else if inExhaustive && containsAny pathText ["."; "["]%char then
    pfail (spanErr (tokSpan pathTok) "matches exhaustive: dotted or indexed path %q is not allowed; use a nested 'matches [exhaustive] { ... }' sub-block instead")
  else
  let% e := eof in
  if (e : bool) then pfail (spanErr (tokSpan pathTok) "matches entry %q: missing pattern after ':'")
  else
  let% t := peek in
  if isKeywordWord t "matches" then
    let% matchesTok := advance in
    let% x := peek in
    let subExhaustive := isKeywordWord x "exhaustive" in
    (if subExhaustive then advance else pret zeroToken) >>>
    (let% sub := subBlock (Start (tokSpan matchesTok)) subExhaustive in
     let% sp := spanFrom start in
     pret (MatchSubBlock pathText sub sp))
  else
  let% toks := patternTokens in
  match toks with
  | [] => pfail (spanErr (tokSpan pathTok) "matches entry %q: missing pattern after ':'")
  | t :: ts =>
    let entrySpan := MkSpan start (End_ (tokSpan (List.last ts t))) in
    if bool_decide (ts = []) && kindIs t TokenWord && isMatchesPredicate (tokText t) then
      pret (MatchPredicate pathText (tokText t) entrySpan)
    else
      match parseExpression toks with
      | Done pattern => pret (MatchPattern pathText pattern entrySpan)
      | Failed err =>
        pfail (Located (spanErrorf (tokSpan pathTok) (Wrap "matches entry %q: %v" (messageOf err))))
      | OutOfFuel => fun _ => OutOfFuel
      end
  end.

(** The loop over the entries, up to the closing brace. *)
Fixpoint matchEntries (fuel : nat) (openTok : Token) (exhaustive : bool) (entries : list MatchEntry)
    : P MatchesBlockExpr :=
  match fuel with
  | O => fun _ => OutOfFuel
  | S fuel' =>
    skipWhile isMatchesSep >>>
    (let% e := eof in
     if (e : bool) then pfail (spanErr (tokSpan openTok) "unterminated matches block: missing '}'")
     else
     let% t := peek in
     if isSemi t then
       pfail (LocErrorf (Start (tokSpan t)) "matches: ';' is not a valid entry separator; entries are separated by newlines")
     else if isKeywordWord t "," then
       pfail (LocErrorf (Start (tokSpan t)) "matches: ',' is not a valid entry separator; entries are separated by newlines")
     else if isKeywordWord t "}" then
       let% closeTok := advance in
       pret (MkMatchesBlock entries exhaustive
               (MkSpan (Start (tokSpan openTok)) (End_ (tokSpan closeTok))))
     else
       let% entry := parseMatchEntry exhaustive in
       matchEntries fuel' openTok exhaustive (entries ++ [entry]))
  end.

Definition matchesBlockBody (matchesLoc : Pos) (exhaustive : bool) : P MatchesBlockExpr :=
  let% t := peek in
  if negb (isKeywordWord t "{") then pfail (LocErrorf matchesLoc "expected '{' after matches")
  else
    let% openTok := advance in
    looping (fun n => matchEntries n openTok exhaustive []).
End matches.

(** Nested blocks: each takes its braces from the tokens left. *)
Fixpoint parseMatchesBlock_from (fuel : nat) (parseExpression : list Token -> outcome perror Expr)
    (matchesLoc : Pos) (exhaustive : bool) : P MatchesBlockExpr :=
  match fuel with
  | O => fun _ => OutOfFuel
  | S fuel' =>
    matchesBlockBody parseExpression (parseMatchesBlock_from fuel' parseExpression) matchesLoc exhaustive
  end.

Definition parseMatchesBlock (parseExpression : list Token -> outcome perror Expr)
    (matchesLoc : Pos) (exhaustive : bool) : P MatchesBlockExpr :=
  looping (fun n => parseMatchesBlock_from n parseExpression matchesLoc exhaustive).

(** ** The levels of precedence *)

Section levels.
Context (rec : P Expr).
Context (parseExpression : list Token -> outcome perror Expr).

(** The arguments of a threaded command, up to the end of the expression. *)
Fixpoint threadArgs (fuel : nat) (args : list Expr) : P (list Expr) :=
  match fuel with
  | O => fun _ => OutOfFuel
  | S fuel' =>
    let% e := eof in
    let% t := peek in
    if e || kindIs t TokenThread || binaryOpFromToken t || isArithmeticOp t
       || wordIn t ["and"; "or"; ")"; "]"; "}"]%string then pret args
    else
      advance >>>
      (let% a := lift (parsePrimary parseExpression t) in
       threadArgs fuel' (args ++ [a]))
  end.

Definition parseThreadRHS (threadLoc : Pos) : P (list Expr) :=
  let% args := looping (fun n => threadArgs n []) in
  match args with
  | [] => pfail (LocErrorf threadLoc "thread requires a command on the right-hand side")
  | _ => pret args
  end.

Fixpoint threadLoop (fuel : nat) (lhs : Expr) : P Expr :=
  match fuel with
  | O => fun _ => OutOfFuel
  | S fuel' =>
    let% e := eof in
    let% t := peek in
    if negb e && kindIs t TokenThread then
      let% threadTok := advance in
      let% args := parseThreadRHS (Start (tokSpan threadTok)) in
      let% sp := spanFromNodeStart lhs in
      threadLoop fuel' (ThreadExpr lhs args (Start (tokSpan threadTok)) sp)
    else pret lhs
  end.

Definition parseThread : P Expr :=
  let% lhs := rec in looping (fun n => threadLoop n lhs).

Fixpoint parseNegate_from (fuel : nat) : P Expr :=
  match fuel with
  | O => fun _ => OutOfFuel
  | S fuel' =>
    let% t := peek in
    if isKeywordWord t "-" then
      let% negTok := advance in
      let% operand := parseNegate_from fuel' in
      let% sp := spanFrom (Start (tokSpan negTok)) in
      pret (NegateExpr operand sp)
    else parseThread
  end.
Definition parseNegate : P Expr := looping parseNegate_from.

Definition operandFollowsPred : P bool := fun c =>
  Done (match rest c with
        | _ :: next :: _ =>
          negb (kindIs next TokenThread) && negb (binaryOpFromToken next)
          && negb (isArithmeticOp next) && negb (wordIn next ["and"; "or"; ")"]%string)
        | _ => false
        end, c).

Definition parsePredicate : P Expr :=
  let% t := peek in
  let% follows := operandFollowsPred in
  if unaryPredFromToken t && follows then
    let% predTok := advance in
    let% operand := rec in
    let% sp := spanFrom (Start (tokSpan predTok)) in
    pret (UnaryExpr (tokText t) operand sp)
  else parseNegate.

(** A left-associative chain: operands [next], operators [ops], nodes [mk]. *)
Fixpoint chain (fuel : nat) (ops : list string) (next : P Expr)
    (mk : Expr -> bytes -> Expr -> Span -> Expr) (lhs : Expr) : P Expr :=
  match fuel with
  | O => fun _ => OutOfFuel
  | S fuel' =>
    let% e := eof in
    let% t := peek in
    if negb e && wordIn t ops then
      let% opTok := advance in
      let% rhs := next in
      let% sp := spanFromNodeStart lhs in
      chain fuel' ops next mk (mk lhs (tokText opTok) rhs sp)
    else pret lhs
  end.

Definition chained (ops : list string) (next : P Expr)
    (mk : Expr -> bytes -> Expr -> Span -> Expr) : P Expr :=
  let% lhs := next in looping (fun n => chain n ops next mk lhs).

Definition parseMultiplicative : P Expr := chained ["*"; "/"; "%"]%string parsePredicate BinaryExpr.
Definition parseAdditive : P Expr := chained ["+"; "-"]%string parseMultiplicative BinaryExpr.

Definition parseComparison : P Expr :=
  let% lhs := parseAdditive in
  let% e := eof in
  let% t := peek in
  if (e : bool) then pret lhs
  else if isKeywordWord t "matches" then
    let% matchesTok := advance in
    let% x := peek in
    let exhaustive := isKeywordWord x "exhaustive" in
    (if exhaustive then advance else pret zeroToken) >>>
    (let% b := peek in
     if negb (isKeywordWord b "{") then
       pfail (spanErr (tokSpan matchesTok) "matches requires a block: %s { ... }")
     else
       let% block := parseMatchesBlock parseExpression (Start (tokSpan matchesTok)) exhaustive in
       let% sp := spanFromNodeStart lhs in
       pret (MatchesExpr lhs block sp))
  else if binaryOpFromToken t then
    advance >>>
    (let% rhs := parseAdditive in
     let% sp := spanFromNodeStart lhs in
     pret (BinaryExpr lhs (tokText t) rhs sp))
  else pret lhs.

Fixpoint parseNot_from (fuel : nat) : P Expr :=
  match fuel with
  | O => fun _ => OutOfFuel
  | S fuel' =>
    let% t := peek in
    if isKeywordWord t "not" then
      let% notTok := advance in
      let% operand := parseNot_from fuel' in
      let% sp := spanFrom (Start (tokSpan notTok)) in
      pret (NotExpr operand sp)
    else parseComparison
  end.
Definition parseNot : P Expr := looping parseNot_from.

Definition logical (lhs : Expr) (op : bytes) (rhs : Expr) (sp : Span) : Expr :=
  LogicalExpr op lhs rhs sp.
Definition parseAnd : P Expr := chained ["and"]%string parseNot logical.
Definition parseOr : P Expr := chained ["or"]%string parseAnd logical.

(** ** Terms *)

(** A parenthesised expression, from the opening parenthesis on. *)
Definition parseParens : P Expr :=
  let% openTok := advance in
  let% t := peek in
  if isKeywordWord t ")" then pfail (spanErr (tokSpan openTok) "empty parenthesised expression")
  else
    let% inner := parseOr in
    let% t' := peek in
    if negb (isKeywordWord t' ")") then
      pfail (spanErr (tokSpan openTok) "missing ')' to close parenthesised expression")
    else advance >>> pret inner.

Definition isSepToken (t : Token) : bool := kindIs t TokenSep.

Fixpoint listElems (fuel : nat) (openTok : Token) (elems : list Expr) : P Expr :=
  match fuel with
  | O => fun _ => OutOfFuel
  | S fuel' =>
    skipWhile isSepToken >>>
    (let% e := eof in
     let% t := peek in
     if (e : bool) then pfail (spanErr (tokSpan openTok) "missing ']' to close list literal")
     else if isKeywordWord t "]" then
       advance >>>
       (let% sp := spanFrom (Start (tokSpan openTok)) in pret (ListExpr elems sp))
     else if binaryOpFromToken t then
       pfail (spanErr (tokSpan t) "unexpected %q between list elements; wrap a compound element in parens, e.g. [($x + 1) $y]")
     else if isArithmeticOp t then
       pfail (spanErr (tokSpan t) "unexpected %q between list elements; wrap a compound element in parens, e.g. [($x + 1) $y]")
     else if kindIs t TokenThread then
       pfail (spanErr (tokSpan t) "unexpected '|>' between list elements; wrap a threaded element in parens, e.g. [($x |> jq .id) $y]")
     else if wordIn t ["and"; "or"]%string then
       pfail (spanErr (tokSpan t) "unexpected %q between list elements; wrap a compound element in parens")
     else if kindIs t TokenWord && containsByte "," (tokText t) then
       pfail (spanErr (tokSpan t) "unquoted comma in list literal; elements are whitespace-separated (try [1 2 3] not [1, 2, 3])")
     else
       let% elem := rec in
       listElems fuel' openTok (elems ++ [elem]))
  end.

Definition parseListLiteral : P Expr :=
  let% openTok := advance in looping (fun n => listElems n openTok []).

Fixpoint recordFields (fuel : nat) (recordTok openTok : Token) (fields : list RecordField)
    (seen : list bytes) : P Expr :=
  match fuel with
  | O => fun _ => OutOfFuel
  | S fuel' =>
    skipWhile isSepToken >>>
    (let% e := eof in
     let% t := peek in
     if (e : bool) then pfail (spanErr (tokSpan openTok) "missing '}' to close record literal")
     else if isKeywordWord t "}" then
       advance >>>
       (let% sp := spanFrom (Start (tokSpan recordTok)) in pret (RecordExpr fields sp))
     else if kindIs t TokenWord && containsByte "," (tokText t) then
       pfail (spanErr (tokSpan t) "record fields are whitespace-separated; commas are not record separators")
     else if negb (kindIs t TokenWord) || negb (hasSuffixByte ":" (tokText t)) then
       pfail (spanErr (tokSpan t) "record field must be written as name:")
     else
       let name := dropLast (tokText t) in
       if negb (isIdent name) then pfail (spanErr (tokSpan t) "invalid record field name %q")
       else if bool_decide (name ∈ seen) then pfail (spanErr (tokSpan t) "duplicate record field %q")
       else
         let% nameTok := advance in
         let% e := eof in
         if (e : bool) then pfail (spanErr (tokSpan nameTok) "record field %q requires a value")
         else
           let% value := rec in
           let% sp := spanFrom (Start (tokSpan nameTok)) in
           recordFields fuel' recordTok openTok (fields ++ [MkRecordField name value sp]) (name :: seen))
  end.

Definition parseRecordLiteral : P Expr :=
  let% recordTok := advance in
  skipWhile isSepToken >>>
  (let% t := peek in
   if negb (isKeywordWord t "{") then pfail (spanErr (tokSpan recordTok) "record literal requires '{'")
   else
     let% openTok := advance in
     looping (fun n => recordFields n recordTok openTok [] [])).

Definition parsePureCallArg : P Expr :=
  let% t := peek in
  if isKeywordWord t "(" then parseParens
  else if isKeywordWord t "[" then parseListLiteral
  else
    let unexpected := pfail (spanErr (tokSpan t) "%s: unexpected %q in argument position") in
    let primary := advance >>> lift (parsePrimary parseExpression t) in
    match tokKind t with
    | TokenWord =>
      if binaryOpFromToken t || isArithmeticOp t || wordIn t ["and"; "or"; "not"]%string then unexpected
      else match validateExpressionWordLiteral t with
           | Some err => pfail err
           | None => primary
           end
    | TokenQuoted | TokenVarRef | TokenAdapterRef | TokenInterpString => primary
    | _ => unexpected
    end.

Fixpoint pureCallArgs (arity : nat) (nameTok : Token) (args : list Expr) : P (list Expr) :=
  match arity with
  | O => pret args
  | S n =>
    let% e := eof in
    if (e : bool) then pfail (spanErr (tokSpan nameTok) "%s: expected %d argument(s), got %d")
    else
      let% arg := parsePureCallArg in
      pureCallArgs n nameTok (args ++ [arg])
  end.

Definition parsePureCall (arity : nat) : P Expr :=
  let% nameTok := advance in
  let% args := pureCallArgs arity nameTok [] in
  let% sp := spanFrom (Start (tokSpan nameTok)) in
  pret (PureCallExpr (tokText nameTok) args sp).

(** The token after the next one can start an argument of a pure call. *)
Definition secondStartsArg : P bool := fun c =>
  Done (match rest c with _ :: t :: _ => canStartPureCallArgToken t | _ => false end, c).

Definition termBody : P Expr :=
  let% e := eof in
  let% t := peek in
  if (e : bool) then pfail (Bare (Errorf "expected expression, got end of input"))
  else if isKeywordWord t "(" then parseParens
  else if isKeywordWord t "[" then parseListLiteral
  else if isKeywordWord t "record" then parseRecordLiteral
  else
    let primary := advance >>> lift (parsePrimary parseExpression t) in
    match (if kindIs t TokenWord then lookupPureBuiltin (tokText t) else None) with
    | Some arity =>
      let% follows := secondStartsArg in
      if bool_decide (tokText t = B "null") && negb follows then primary else parsePureCall arity
    | None =>
      match validateExpressionWordLiteral t with
      | Some err => pfail err
      | None => primary
      end
    end.
End levels.

(** ** Whole expressions *)

(** parseExpression, with the parser of terms as an argument. *)
Definition parseExpressionWith (term : P Expr) (sub : list Token -> outcome perror Expr)
    (tokens : list Token) : outcome perror Expr :=
  match stripSeps tokens with
  | [] => Failed (Bare (Errorf "empty expression"))
  | tokens =>
    match parseOr term sub (MkCursor None tokens) with
    | OutOfFuel => OutOfFuel
    | Failed e => Failed e
    | Done (e, c) =>
      match rest c with
      | [] => Done e
      | t :: _ =>
        if smushedArithmeticHint t then
          Failed (spanErr (tokSpan t) "unexpected %q after expression; %s")
        else Failed (spanErr (tokSpan t) "unexpected %q after expression")
      end
    end
  end.

(** The parser of terms and, one level of nesting further in, of the expressions
    within a term. *)
Fixpoint parseTerm (fuel : nat) : P Expr :=
  match fuel with
  | O => fun _ => OutOfFuel
  | S fuel' => termBody (parseTerm fuel') (parseSub fuel')
  end
with parseSub (fuel : nat) (tokens : list Token) : outcome perror Expr :=
  match fuel with
  | O => OutOfFuel
  | S fuel' => parseExpressionWith (parseTerm fuel') (parseSub fuel') tokens
  end.

Definition parseExpression (tokens : list Token) : outcome perror Expr :=
  parseSub (2 + 2 * weight tokens) tokens.

(** ** Command arguments *)

(** findMatchingParen and findMatchingBracket: the tokens up to the closing one,
    and those after it. *)
Fixpoint findMatching (open_ close_ : string) (depth : nat) (tokens : list Token)
    : option (list Token * list Token) :=
  match tokens with
  | [] => None
  | t :: ts =>
    if isKeywordWord t close_ && (depth =? 1) then Some ([], ts)
    else
      let depth := if isKeywordWord t open_ then S depth
                   else if isKeywordWord t close_ then depth - 1 else depth in
      match findMatching open_ close_ depth ts with
      | Some (inner, after) => Some (t :: inner, after)
      | None => None
      end
  end.

Fixpoint commandArgs_from (fuel : nat) (tokens : list Token) (exprs : list Expr)
    : outcome perror (list Expr) :=
  match fuel with
  | O => OutOfFuel
  | S fuel' =>
    match tokens with
    | [] => Done exprs
    | t :: ts =>
      if kindIs t TokenAssign then
        Failed (spanErr (tokSpan t) "unexpected '='; use let <name> = <value...> for assignment")
      else if isKeywordWord t "(" then
        match findMatching "(" ")" 1 ts with
        | None => Failed (spanErr (tokSpan t) "unmatched '(' in command argument")
        | Some (inner, after) =>
          if forallb isSepToken inner then
            Failed (spanErr (tokSpan t) "empty parenthesised expression in argument position")
          else
            let? e := parseExpression inner in commandArgs_from fuel' after (exprs ++ [e])
        end
      else if isKeywordWord t ")" then Failed (spanErr (tokSpan t) "unmatched ')' in command argument")
      else if isKeywordWord t "[" then
        match findMatching "[" "]" 1 ts with
        | None => Failed (spanErr (tokSpan t) "unmatched '[' in command argument")
        | Some (inner, after) =>
          let close := take 1 (drop (length inner) ts) in
          let? e := parseExpression (t :: inner ++ close) in commandArgs_from fuel' after (exprs ++ [e])
        end
      else if isKeywordWord t "]" then Failed (spanErr (tokSpan t) "unmatched ']' in command argument")
      else
        let? e := parsePrimary parseExpression t in commandArgs_from fuel' ts (exprs ++ [e])
    end
  end.

Definition parseCommandArgs (tokens : list Token) : outcome perror (list Expr) :=
  commandArgs_from (S (length tokens)) tokens [].
End grammar.
