(* ===== verification/StmtParser.v ===== *)
(** * The statement parser

    The parser of parse.go: one definition for each method, over the cursors of
    [ExprParser]. The six loops that collect the tokens of a clause differ in what
    ends them and in what they reject; they are one loop, [collect], under a
    [policy]. Recursion goes through blocks alone: a statement is parsed against the
    parser [block] for the blocks in it, and [parseBlock_from] ties the knot. *)

From Stdlib Require Import ZArith Lia Ascii.
From stdpp Require Import base tactics list strings option.
From S2P Require Import Prelude Lexer Literals Ast ExprParser.

(** ** Collecting tokens *)

Definition lastIs (buf : list Token) (kw : string) : bool :=
  match reverse buf with t :: _ => isKeywordWord t kw | [] => false end.

Definition recordLiteralTail (buf : list Token) : bool := lastIs buf "record".

Definition matchesBlockTail (buf : list Token) : bool :=
  match reverse buf with
  | t1 :: t2 :: _ =>
    isKeywordWord t2 "matches" && isKeywordWord t1 "exhaustive" || isKeywordWord t1 "matches"
  | [t1] => isKeywordWord t1 "matches"
  | [] => false
  end.

(** appendRecordBlockTokens and appendMatchesBlockTokens: the tokens up to the
    brace that closes the block the cursor is at. *)
Fixpoint blockTokens_from (err : perror) (buf : list Token) (depth : Z) (l : option Pos)
    (ts : list Token) : outcome perror (list Token * cursor) :=
  match ts with
  | [] => Failed err
  | t :: ts' =>
    let buf := buf ++ [t] in
    let l := Some (End_ (tokSpan t)) in
    if isKeywordWord t "{" then blockTokens_from err buf (depth + 1) l ts'
    else if isKeywordWord t "}" then
      if (depth - 1 =? 0)%Z then Done (buf, MkCursor l ts')
      else blockTokens_from err buf (depth - 1) l ts'
    else blockTokens_from err buf depth l ts'
  end.

Definition appendBlockTokens (msg : string) (buf : list Token) : P (list Token) := fun c =>
  let openTok := default zeroToken (head (rest c)) in
  blockTokens_from (spanErr (tokSpan openTok) msg) buf 0 (last c) (rest c).

Record policy := MkPolicy {
  sepEnds : bool;                 (* a separator ends the run, or is skipped *)
  foldsBlocks : bool;             (* record and matches blocks belong to it *)
  assignError : option string;    (* '=' is rejected *)
  bindError : option string       (* '<-' is rejected *)
}.

(** The loop: the tokens, and the depth of parentheses and brackets at the end. *)
Fixpoint collect (fuel : nat) (pol : policy) (buf : list Token) (depth : nat)
    : P (list Token * nat) :=
  match fuel with
  | O => fun _ => OutOfFuel
  | S fuel' =>
    let% e := eof in
    let% t := peek in
    let keep depth := advance >>> collect fuel' pol (buf ++ [t]) depth in
    if (e : bool) then pret (buf, depth)
    else if kindIs t TokenSep then
      if 0 <? depth then keep depth
      else if sepEnds pol then pret (buf, depth)
      else advance >>> collect fuel' pol buf depth
    else if wordIn t ["{"; "}"]%string then
      if 0 <? depth then keep depth
      else if isKeywordWord t "{" && foldsBlocks pol && recordLiteralTail buf then
        let% buf := appendBlockTokens "missing '}' to close record literal" buf in
        collect fuel' pol buf depth
      else if isKeywordWord t "{" && foldsBlocks pol && matchesBlockTail buf then
        let% buf := appendBlockTokens "unterminated matches block: missing '}'" buf in
        collect fuel' pol buf depth
      else pret (buf, depth)
    else
      match (if kindIs t TokenAssign then assignError pol
             else if kindIs t TokenBind then bindError pol else None) with
      | Some msg => pfail (spanErr (tokSpan t) msg)
      | None =>
        if wordIn t ["("; "["]%string then keep (S depth)
        else if wordIn t [")"; "]"]%string then keep (depth - 1)
        else keep depth
      end
  end.

Definition collecting (pol : policy) : P (list Token * nat) :=
  looping (fun n => collect n pol [] 0).

Definition useLet : string := "unexpected '='; use let <name> = <value...> for assignment".

Definition takeStmtTokens (rejectAssign : bool) : P (list Token) :=
  let% (buf, _) :=
    collecting (MkPolicy true true (if rejectAssign then Some "unexpected '=' in let RHS"%string else None) None) in
  pret buf.

Definition takeBindRHSTokens (bindTok : Token) : P (list Token) :=
  let% (buf, _) := collecting (MkPolicy true false
    (Some "unexpected '=' on bind RHS; the right of '<-' must be a command form"%string)
    (Some "unexpected '<-' on bind RHS; chain via separate let/guard statements"%string)) in
  match buf with
  | [] => pfail (spanErr (tokSpan bindTok) "bind requires a command after '<-'")
  | _ => pret buf
  end.

Definition takeUntilOpenBrace : P (list Token) :=
  let% (buf, _) := collecting (MkPolicy false true None None) in
  let% e := eof in
  let% t := peek in
  if (e : bool) then pfail (Bare (Errorf "expected '{' after expression"))
  else if isKeywordWord t "}" then pfail (spanErr (tokSpan t) "unexpected '}' before '{'")
  else pret buf.

Section statements.
Context `{Unicode}.

(** parseCondition: the tokens up to the next '{' as an expression. *)
Definition parseCondition : P Expr :=
  let% (buf, depth) := collecting (MkPolicy false true None None) in
  let% t := peek in
  if 0 <? depth then
    pfail (Bare (Errorf "unmatched '(' in condition; expected matching ')' before '{'"))
  else if negb (isKeywordWord t "{") then pfail (Bare (Errorf "expected '{' after condition"))
  else match buf with
       | [] => pfail (Bare (Errorf "expected condition before '{'"))
       | _ => lift (parseExpression buf)
       end.

(** ** Names *)

Definition identFromToken (t : Token) : Ident := MkIdent (tokText t) (tokSpan t).
Definition isUnderscore (s : bytes) : bool := bool_decide (s = B "_").
Definition allUnderscore (names : list Ident) : bool := forallb (fun n => isUnderscore (idText n)) names.

(** The loop of parseParenNameList. *)
Fixpoint parenNames (fuel : nat) (openTok : Token) (names : list Ident) (seen : list bytes)
    : P (list Ident) :=
  match fuel with
  | O => fun _ => OutOfFuel
  | S fuel' =>
    skipWhile isSepToken >>>
    (let% e := eof in
     let% t := peek in
     if (e : bool) then pfail (spanErr (tokSpan openTok) "%s: unterminated name list (missing ')')")
     else if isKeywordWord t ")" then advance >>> pret names
     else if negb (kindIs t TokenWord) then pfail (spanErr (tokSpan t) "%s: expected name, got %q")
     else if containsByte "," (tokText t) then
       pfail (spanErr (tokSpan t) "%s: comma is not a separator; use whitespace (got %q)")
     else if negb (isUnderscore (tokText t)) && negb (isIdent (tokText t)) then
       pfail (spanErr (tokSpan t) "%s: invalid name %q")
     else if negb (isUnderscore (tokText t)) && bool_decide (tokText t ∈ seen) then
       pfail (spanErr (tokSpan t) "%s: duplicate name %q")
     else
       advance >>>
       parenNames fuel' openTok (names ++ [identFromToken t])
         (if isUnderscore (tokText t) then seen else tokText t :: seen))
  end.

Definition parseParenNameList : P (list Ident * Token) :=
  let% openTok := advance in
  let% names := looping (fun n => parenNames n openTok [] []) in
  if length names <? 2 then
    pfail (spanErr (tokSpan openTok) "%s: parenthesised name list requires at least two names; the single-name spelling drops the parens")
  else pret (names, openTok).

Definition parseForEachNameToken (feTok : Token) : P Ident :=
  let% e := eof in
  let% t := peek in
  if e || negb (kindIs t TokenWord) then
    pfail (spanErr (tokSpan feTok) "foreach: expected variable name, got end of input")
  else
    advance >>>
    (if containsByte "," (tokText t) then
       pfail (spanErr (tokSpan t) "foreach: comma is not a separator; use whitespace and wrap multi-var lists in parens (got %q)")
     else if isKeywordWord t "in" then
       pfail (spanErr (tokSpan t) "foreach requires a variable name before 'in'")
     else if isUnderscore (tokText t) then pret (identFromToken t)
     else if negb (isIdent (tokText t)) then pfail (spanErr (tokSpan t) "invalid variable name: %q")
     else pret (identFromToken t)).

Fixpoint forEachNames (fuel : nat) (feTok openTok : Token) (names : list Ident) (seen : list bytes)
    : P (list Ident) :=
  match fuel with
  | O => fun _ => OutOfFuel
  | S fuel' =>
    skipWhile isSepToken >>>
    (let% e := eof in
     let% t := peek in
     if (e : bool) then pfail (spanErr (tokSpan openTok) "foreach: unterminated name list (missing ')')")
     else if isKeywordWord t ")" then advance >>> pret names
     else
       let% name := parseForEachNameToken feTok in
       if negb (isUnderscore (idText name)) && bool_decide (idText name ∈ seen) then
         pfail (spanErr (tokSpan t) "foreach: duplicate name %q")
       else
         forEachNames fuel' feTok openTok (names ++ [name])
           (if isUnderscore (idText name) then seen else idText name :: seen))
  end.

Definition parseForEachDestructureNames (feTok : Token) : P (list Ident) :=
  let% openTok := advance in
  let% names := looping (fun n => forEachNames n feTok openTok [] []) in
  if length names <? 2 then
    pfail (spanErr (tokSpan openTok) "foreach: parenthesised name list requires at least two names; use 'foreach x in ...' for single-var iteration")
  else if allUnderscore names then
    pfail (spanErr (tokSpan feTok) "foreach: all loop variables are '_'; at least one must bind")
  else pret names.

Definition parseForEachNames (feTok : Token) : P (list Ident) :=
  let% e := eof in
  let% t := peek in
  if e || negb (kindIs t TokenWord) then
    pfail (spanErr (tokSpan feTok) "foreach requires: foreach <name> in <expr> { ... }  |  foreach (<name1> <name2> ...) in <expr> { ... }")
  else if isKeywordWord t "(" then parseForEachDestructureNames feTok
  else let% name := parseForEachNameToken feTok in pret [name].

(** ** Parameters of a def *)

Definition DefParamTypes : list string := ["number"; "string"; "bool"]%string.

(** A parameter token: its name, and whether an annotation follows. *)
Definition paramName (t : Token) : outcome perror (bytes * bool) :=
  let name := tokText t in
  if containsByte ":" name then
    if negb (hasSuffixByte ":" name) || negb (length (filter (fun c => c = ":"%char) name) =? 1) then
      Failed (spanErr (tokSpan t) "def: parameter annotation needs a space after the colon; write it as %q")
    else Done (dropLast name, true)
  else Done (name, false).

Fixpoint defParams (fuel : nat) (defLoc : Pos) (params : list DefParam) (seen : list bytes)
    : P (list DefParam) :=
  match fuel with
  | O => fun _ => OutOfFuel
  | S fuel' =>
    skipWhile isSepToken >>>
    (let% e := eof in
     let% t := peek in
     if (e : bool) then pfail (LocErrorf defLoc "def: unterminated parameter list (missing ')')")
     else if isKeywordWord t ")" then advance >>> pret params
     else if negb (kindIs t TokenWord) then
       pfail (spanErr (tokSpan t) "def: expected parameter name, got %q")
     else if containsByte "," (tokText t) then
       pfail (spanErr (tokSpan t) "def: comma is not a parameter separator; use whitespace (got %q)")
     else
       let% (name, annotated) := lift (paramName t) in
       if negb (isIdent name) then pfail (spanErr (tokSpan t) "def: invalid parameter name %q")
       else if isUnderscore name then
         pfail (spanErr (tokSpan t) "def parameters cannot bind '_'; use a real name or drop the slot")
       else if bool_decide (name ∈ seen) then
         pfail (spanErr (tokSpan t) "def: duplicate parameter name %q")
       else
         let% nameTok := advance in
         let param type := MkDefParam (MkIdent name (tokSpan nameTok)) type in
         if (annotated : bool) then
           skipWhile isSepToken >>>
           (let% e := eof in
            let% typeTok := peek in
            if e || negb (kindIs typeTok TokenWord) || isKeywordWord typeTok ")" then
              pfail (spanErr (tokSpan nameTok) "def: parameter %q: annotation requires a type (number, string, bool)")
            else if negb (wordIn typeTok DefParamTypes) then
              pfail (spanErr (tokSpan typeTok) "def: parameter %q: unknown parameter type %q (expected one of: number, string, bool)")
            else
              advance >>>
              defParams fuel' defLoc (params ++ [param (tokText typeTok)]) (name :: seen))
         else defParams fuel' defLoc (params ++ [param []]) (name :: seen))
  end.

Definition parseDefParams (defLoc : Pos) : P (list DefParam) :=
  looping (fun n => defParams n defLoc [] []).

Definition reservedDefNames : list string :=
  ["def"; "defer"; "let"; "guard"; "if"; "elif"; "else"; "foreach"; "in"; "retry"; "poll";
   "return"; "break"; "continue"; "assert"; "require"; "and"; "or"; "not"; "matches"; "true"; "false"]%string.

(** ** Statements without blocks *)

Definition commandOf (toks : list Token) (args : list Expr) : P Command :=
  let% sp := spanFrom (Start (tokSpan (default zeroToken (head toks)))) in pret (MkCommand args sp).

Definition isAssertCommandHead (t : Token) : bool := wordIn t ["ok"; "fail"]%string.

Definition parseAssertClause (keywordTok : Token) : P AssertClause :=
  let% (buf, _) := collecting (MkPolicy true true (Some useLet) None) in
  match buf with
  | [] => pfail (spanErr (tokSpan keywordTok) "%s requires an assertion target")
  | t :: ts =>
    let negate := isKeywordWord t "not" in
    if negate && bool_decide (ts = []) then
      pfail (spanErr (tokSpan t) "expected a form after not")
    else
      let body := if negate then ts else buf in
      match body with
      | h :: args =>
        if isAssertCommandHead h then
          let% args := lift (parseCommandArgs args) in
          pret (AssertCommandClause (tokText h) (tokSpan h) args negate)
        else
          let% e := pwrap "%s" (lift (parseExpression buf)) in pret (AssertExprClause e)
      | [] => let% e := pwrap "%s" (lift (parseExpression buf)) in pret (AssertExprClause e)
      end
  end.

Definition parseAssertStmt (isRequire : bool) : P Stmt :=
  let% keywordTok := advance in
  let% clause := parseAssertClause keywordTok in
  let% sp := spanFrom (Start (tokSpan keywordTok)) in
  pret (AssertStmt isRequire clause sp).

Definition leadsExpression (t : Token) : bool :=
  match tokKind t with
  | TokenVarRef | TokenQuoted | TokenInterpString | TokenAdapterRef => true
  | TokenWord => wordIn t ["("; "not"; "not-empty"; "true"; "false"]%string
  | _ => false
  end.

Definition parseExprStmt : P Stmt :=
  let% t := peek in
  let startLoc := Start (tokSpan t) in
  let% tokens := takeStmtTokens false in
  match tokens with
  | [] => pfail (LocErrorf startLoc "empty expression statement")
  | _ =>
    let% e := lift (parseExpression tokens) in
    let% sp := spanFrom startLoc in
    pret (ExprStmt e sp)
  end.

Definition rejectTrailingArgs : P unit :=
  let% e := eof in
  let% t := peek in
  if e || kindIs t TokenSep || wordIn t ["{"; "}"]%string then pret tt
  else pfail (spanErr (tokSpan t) "%s takes no arguments; got %q").

(** parseBreakStmt and parseContinueStmt. *)
Definition parseBareStmt (mk : Span -> Stmt) : P Stmt :=
  let% t := advance in
  rejectTrailingArgs >>>
  (let% sp := spanFrom (Start (tokSpan t)) in pret (mk sp)).

Definition parseDeferStmt : P Stmt :=
  let% deferTok := advance in
  let% toks := takeStmtTokens false in
  match toks with
  | [] => pfail (spanErr (tokSpan deferTok) "defer requires a command form")
  | _ =>
    let% args := lift (parseCommandArgs toks) in
    let% cmd := commandOf toks args in
    let% sp := spanFrom (Start (tokSpan deferTok)) in
    pret (DeferStmt cmd sp)
  end.

Definition parseReturnStmt : P Stmt :=
  let% retTok := advance in
  let% toks := takeStmtTokens false in
  match toks with
  | [] => pfail (spanErr (tokSpan retTok) "return requires an expression: return EXPR")
  | _ =>
    let% e := pwrap "return" (lift (parseExpression toks)) in
    let% sp := spanFrom (Start (tokSpan retTok)) in
    pret (ReturnStmt e sp)
  end.

(** The tokens before and after the first [unless]. *)
Fixpoint splitUnless (toks : list Token) : list Token * option (list Token) :=
  match toks with
  | [] => ([], None)
  | t :: ts =>
    if isKeywordWord t "unless" then ([], Some ts)
    else let '(m, u) := splitUnless ts in (t :: m, u)
  end.

Definition parseRetryStmt : P Stmt :=
  let% retryTok := advance in
  let% toks := takeStmtTokens false in
  let '(msgTokens, unlessTokens) := splitUnless toks in
  let% message := match msgTokens with
                  | [] => pret None
                  | _ => let% e := pwrap "retry" (lift (parseExpression msgTokens)) in pret (Some e)
                  end in
  let% unless := match unlessTokens with
                 | None => pret None
                 | Some [] =>
                   pfail (spanErr (tokSpan retryTok) "retry unless requires a condition expression")
                 | Some toks => let% e := pwrap "retry" (lift (parseExpression toks)) in pret (Some e)
                 end in
  let% sp := spanFrom (Start (tokSpan retryTok)) in
  pret (RetryStmt message unless sp).

Definition parseCommandStmt : P (option Stmt) :=
  let% first := peek in
  if wordIn first ["{"; "}"]%string then
    pfail (spanErr (tokSpan first) "unexpected %q at statement start")
  else
    let% (buf, _) := collecting (MkPolicy true false (Some useLet) None) in
    match buf with
    | [] => pret None
    | _ =>
      let% args := lift (parseCommandArgs buf) in
      let% sp := spanFrom (Start (tokSpan first)) in
      pret (Some (CommandStmt (MkCommand args sp)))
    end.

Definition parseDurationWord (ownerTok : Token) : P Z :=
  let% e := eof in
  let% t := peek in
  if e || negb (kindIs t TokenWord) then
    pfail (spanErr (tokSpan ownerTok) "%s %s requires a duration literal (e.g. 5s, 100ms)")
  else
    advance >>>
    match ParseDuration (tokText t) with
    | None => pfail (spanErr (tokSpan t) "%s %s: %v")
    | Some d => if (d <=? 0)%Z then pfail (spanErr (tokSpan t) "%s %s: %q is not a positive duration")
                else pret d
    end.

Definition parsePollClauses (pollTok : Token) : P (Z * Z) :=
  let% t := peek in
  if negb (isKeywordWord t "timeout") then
    pfail (spanErr (tokSpan pollTok) "poll requires 'timeout DUR every DUR' (e.g. 'poll timeout 5s every 100ms { ... }')")
  else
    advance >>>
    (let% timeout := parseDurationWord pollTok in
     let% t := peek in
     if negb (isKeywordWord t "every") then
       pfail (spanErr (tokSpan pollTok) "poll requires 'every DUR' after timeout")
     else
       advance >>>
       (let% every := parseDurationWord pollTok in pret (timeout, every))).

(** ** Statements with blocks *)

Section blocks.
Context (block : P (list Stmt)).

Definition parseForEach : P ForEach :=
  let% feTok := advance in
  let% names := parseForEachNames feTok in
  let% t := peek in
  if negb (isKeywordWord t "in") then
    pfail (spanErr (tokSpan feTok) "foreach requires 'in' after the loop variable")
  else
    advance >>>
    (let% listTokens := takeUntilOpenBrace in
     match listTokens with
     | [] => pfail (spanErr (tokSpan feTok) "foreach requires: foreach <name> in <expr> { ... }")
     | _ =>
       let% list := lift (parseExpression listTokens) in
       let% body := block in
       let% sp := spanFrom (Start (tokSpan feTok)) in
       pret (MkForEach names list body sp)
     end).

Definition parseForEachStmt : P Stmt := let% fe := parseForEach in pret (ForEachStmt fe).

Definition parseBindRHS (stmtLoc : Pos) (target : Ident) (guard : bool) : P Stmt :=
  let% bindTok := advance in
  let% t := peek in
  if isKeywordWord t "foreach" then
    let% fe := parseForEach in
    match reverse (forEachBody fe) with
    | [] => pfail (spanErr (tokSpan bindTok) "bind-collect: foreach body must produce a command at its last statement")
    | CommandStmt _ :: _ =>
      let% sp := spanFrom stmtLoc in pret (BindStmt target (BindCollect fe) guard sp)
    | st :: _ =>
      pfail (spanErr (stmtSpan st) "bind-collect: foreach body's last statement must be a command (got %s); the last statement is the iteration's producer")
    end
  else
    let% toks := takeBindRHSTokens bindTok in
    let% args := lift (parseCommandArgs toks) in
    let% cmd := commandOf toks args in
    let% sp := spanFrom stmtLoc in
    pret (BindStmt target (BindCommand cmd) guard sp).

(** The right-hand side of [let ... =]. *)
Definition parseLetRHS (letTok : Token) (msg : string) : P Expr :=
  advance >>>
  (let% toks := takeStmtTokens true in
   match toks with
   | [] => pfail (spanErr (tokSpan letTok) msg)
   | _ => lift (parseExpression toks)
   end).

Definition parseLetDestructure (letTok : Token) : P Stmt :=
  let% (names, openTok) := parseParenNameList in
  let% e := eof in
  let% t := peek in
  if (e : bool) then pfail (spanErr (tokSpan openTok) "let: expected '=' or '<-' after name list")
  else match tokKind t with
  | TokenAssign =>
    if allUnderscore names then
      pfail (spanErr (tokSpan openTok) "let: all destructure slots are '_'; at least one must bind")
    else
      let% rhs := parseLetRHS letTok "let requires: let (<names>) = <value...>" in
      let% sp := spanFrom (Start (tokSpan letTok)) in
      pret (LetDestructureStmt names rhs sp)
  | TokenBind =>
    pfail (spanErr (tokSpan openTok) "tuple bind after '<-' is no longer supported; bind a single outcome name and use named fields")
  | _ => pfail (spanErr (tokSpan openTok) "let: expected '=' or '<-' after name list, got %q")
  end.

Definition parseLetStmt : P Stmt :=
  let% letTok := advance in
  let% e := eof in
  let% t := peek in
  if (e : bool) then
    pfail (spanErr (tokSpan letTok) "let requires: let <name> = <expr> or let <name> <- <command...> or let (<a> <b> ...) = <expr>")
  else if isKeywordWord t "(" then parseLetDestructure letTok
  else if negb (kindIs t TokenWord) then
    pfail (spanErr (tokSpan letTok) "let requires an identifier, got %q")
  else
    let% nameTok := advance in
    let name := identFromToken nameTok in
    if negb (isIdent (idText name)) then
      pfail (spanErr (tokSpan nameTok) "invalid variable name: %q")
    else
      let% e := eof in
      let% t := peek in
      if (e : bool) then pfail (spanErr (tokSpan letTok) "let requires '=' or '<-' after the name")
      else match tokKind t with
      | TokenAssign =>
        if isUnderscore (idText name) then
          pfail (spanErr (tokSpan nameTok) "single-name let cannot bind '_'; use a real name")
        else
          let% rhs := parseLetRHS letTok "let requires: let <name> = <value...>" in
          let% sp := spanFrom (Start (tokSpan letTok)) in
          pret (LetStmt name rhs sp)
      | TokenBind => parseBindRHS (Start (tokSpan letTok)) name false
      | _ => pfail (spanErr (tokSpan letTok) "let requires '=' or '<-' after the name, got %q")
      end.

Definition parseGuardStmt : P Stmt :=
  let% guardTok := advance in
  let% e := eof in
  let% t := peek in
  if (e : bool) then pfail (spanErr (tokSpan guardTok) "guard requires: guard <name> <- <command...>")
  else if isKeywordWord t "(" then
    pfail (spanErr (tokSpan t) "tuple bind after '<-' is no longer supported; bind a single outcome name and use named fields")
  else if negb (kindIs t TokenWord) then
    pfail (spanErr (tokSpan guardTok) "guard requires an identifier, got %q")
  else
    let% nameTok := advance in
    let name := identFromToken nameTok in
    if negb (isIdent (idText name)) then
      pfail (spanErr (tokSpan nameTok) "invalid variable name: %q")
    else
      let% e := eof in
      let% t := peek in
      if e || negb (kindIs t TokenBind) then
        pfail (spanErr (tokSpan guardTok) "guard requires: guard <name> <- <command...> (missing '<-')")
      else parseBindRHS (Start (tokSpan guardTok)) name true.

Definition parseDefStmt : P Stmt :=
  let% defTok := advance in
  let% e := eof in
  let% t := peek in
  if e || negb (kindIs t TokenWord) then
    pfail (spanErr (tokSpan defTok) "def requires: def <name>(<params>) { ... }")
  else if isKeywordWord t "(" then pfail (spanErr (tokSpan defTok) "def requires a name before '('")
  else
    let% nameTok := advance in
    let name := identFromToken nameTok in
    if negb (isIdent (idText name)) then pfail (spanErr (tokSpan nameTok) "invalid def name: %q")
    else if wordIn nameTok reservedDefNames then
      pfail (spanErr (tokSpan nameTok) "cannot use reserved word %q as a def name")
    else
      let% t := peek in
      if negb (isKeywordWord t "(") then
        pfail (spanErr (tokSpan defTok) "def requires '(' after the name")
      else
        advance >>>
        (let% params := parseDefParams (Start (tokSpan defTok)) in
         skipWhile isSepToken >>>
         (let% body := pwrap "def %s" block in
          let% sp := spanFrom (Start (tokSpan defTok)) in
          pret (DefStmt name params body sp))).

Definition parsePollStmt : P Stmt :=
  let% pollTok := advance in
  let% (timeout, every) := parsePollClauses pollTok in
  let% body := pwrap "poll" block in
  let% sp := spanFrom (Start (tokSpan pollTok)) in
  pret (PollStmt timeout every body sp).

(** The loop over elif and else. [end_] is the end of the last block. *)
Fixpoint ifBranches (fuel : nat) (ifTok : Token) (cond : Expr) (then_ : list Stmt)
    (elifs : list IfBranch) (end_ : Pos) : P Stmt :=
  match fuel with
  | O => fun _ => OutOfFuel
  | S fuel' =>
    let start := Start (tokSpan ifTok) in
    skipWhile isSepToken >>>
    (let% t := peek in
     if isKeywordWord t "elif" then
       let% elifTok := advance in
       let% ec := pwrap "elif" parseCondition in
       let% eb := pwrap "elif" block in
       let% branch := spanFrom (Start (tokSpan elifTok)) in
       ifBranches fuel' ifTok cond then_ (elifs ++ [MkIfBranch ec eb branch]) (End_ branch)
     else if isKeywordWord t "else" then
       advance >>>
       (let% els := pwrap "else" block in
        let% sp := spanFrom start in
        pret (IfStmt cond then_ elifs els sp))
     else pret (IfStmt cond then_ elifs [] (MkSpan start end_)))
  end.

Definition parseIfStmt : P Stmt :=
  let% ifTok := advance in
  let% cond := pwrap "if" parseCondition in
  let% then_ := pwrap "if" block in
  let% sp := spanFrom (Start (tokSpan ifTok)) in
  looping (fun n => ifBranches n ifTok cond then_ [] (End_ sp)).

Definition parseStmt : P (option Stmt) :=
  let some (p : P Stmt) : P (option Stmt) := let% st := p in pret (Some st) in
  let% t := peek in
  if isKeywordWord t "if" then some parseIfStmt
  else if isKeywordWord t "let" then some parseLetStmt
  else if isKeywordWord t "foreach" then some parseForEachStmt
  else if isKeywordWord t "retry" then some parseRetryStmt
  else if isKeywordWord t "poll" then some parsePollStmt
  else if isKeywordWord t "return" then some parseReturnStmt
  else if isKeywordWord t "break" then some (parseBareStmt BreakStmt)
  else if isKeywordWord t "continue" then some (parseBareStmt ContinueStmt)
  else if isKeywordWord t "guard" then some parseGuardStmt
  else if isKeywordWord t "defer" then some parseDeferStmt
  else if isKeywordWord t "def" then some parseDefStmt
  else if wordIn t ["assert"; "require"]%string then some (parseAssertStmt (isKeywordWord t "require"))
  else if leadsExpression t then some parseExprStmt
  else if isKeywordWord t "[" then
    pfail (spanErr (tokSpan t) "list literal at statement position is not allowed")
  else parseCommandStmt.

Definition remaining : P nat := fun c => Done (length (rest c), c).

(** The statements up to the end of the input or, in a block, the closing brace.
    A statement that is absent must have consumed something. *)
Fixpoint parseStmts (fuel : nat) (inBlock : bool) (stmts : list Stmt) : P (list Stmt) :=
  match fuel with
  | O => fun _ => OutOfFuel
  | S fuel' =>
    skipWhile isSepToken >>>
    (let% e := eof in
     let% t := peek in
     if e || inBlock && isKeywordWord t "}" then pret stmts
     else
       let% before := remaining in
       let% stmt := parseStmt in
       let% after := remaining in
       match stmt with
       | Some st => parseStmts fuel' inBlock (stmts ++ [st])
       | None =>
         if after =? before then
           let% t := peek in pfail (spanErr (tokSpan t) "unexpected %q")
         else parseStmts fuel' inBlock stmts
       end)
  end.

Definition blockBody : P (list Stmt) :=
  let% t := peek in
  if negb (isKeywordWord t "{") then pfail (Bare (Errorf "expected '{'"))
  else
    advance >>>
    (let% stmts := looping (fun n => parseStmts n true []) in
     let% t' := peek in
     if negb (isKeywordWord t' "}") then pfail (Bare (Errorf "unterminated block: missing '}'"))
     else advance >>> pret stmts).
End blocks.

Fixpoint parseBlock_from (fuel : nat) : P (list Stmt) :=
  match fuel with
  | O => fun _ => OutOfFuel
  | S fuel' => blockBody (parseBlock_from fuel')
  end.

(** ** Programs *)

(** A span whose start or end has no line or column. *)
Definition incompleteSpan (s : Span) : bool :=
  ((Line (Start s) =? 0) || (Col (Start s) =? 0) || (Line (End_ s) =? 0) || (Col (End_ s) =? 0))%Z.

Definition validateLocs (prog : Program) : option error :=
  if existsb incompleteSpan (walkProgram prog)
  then Some (Errorf "internal: AST node(s) with incomplete source spans: %s") else None.

(** The statements of the input as a program, before its positions are checked. *)
Definition parseProgram (tokens : list Token) : outcome perror Program :=
  let start := match tokens with t :: _ => Start (tokSpan t) | [] => MkPos "" 0 0 end in
  let parse :=
    let% stmts := looping (fun n => parseStmts (parseBlock_from n) n false []) in
    let% sp := spanFrom start in
    pret (MkProgram stmts sp) in
  let? (prog, _) := parse (MkCursor None tokens) in Done prog.

Definition Parse (tokens : list Token) : outcome perror Program :=
  let? prog := parseProgram tokens in
  match validateLocs prog with
  | Some e => Failed (Bare e)
  | None => Done prog
  end.

(** Tokenise and Parse: what the shell does with a script. *)
Definition parseScript (fuel : nat) (start : Pos) (src : bytes) : outcome perror Program :=
  match tokeniseAt fuel start src with
  | OutOfFuel => OutOfFuel
  | Failed e => Failed (Located e)
  | Done tokens => Parse tokens
  end.
End statements.
