(* ===== verification/TokensOk.v ===== *)
(** * The tokens a parser is given

    What the parser relies on in the tokens of tokeniseAt: every span is complete,
    no interpolation body holds a double quote, so that it can be tokenised in turn
    and holds no further interpolation, and there are no more tokens than bytes. *)

From Stdlib Require Import ZArith Lia Ascii.
From stdpp Require Import base tactics list strings option sets.
From S2P Require Import Prelude Lexer LexerPos LexerCover LexerReturns Literals Ast ExprParser.

(** A line and a column are counted from one. *)
Definition posOk (p : Pos) : Prop := (0 < Line p)%Z /\ (0 < Col p)%Z.
Definition spanOk (s : Span) : Prop := posOk (Start s) /\ posOk (End_ s).
Definition segOk (s : InterpSegment) : Prop := spanOk (segSpan s) /\ dquote ∉ segInner s.
Definition tokOk (t : Token) : Prop := spanOk (tokSpan t) /\ Forall segOk (tokSegments t).

Lemma normalizeStartPos_ok p : posOk (normalizeStartPos p).
Proof.
  unfold posOk, normalizeStartPos; simpl.
  destruct (Z.leb_spec (Line p) 0), (Z.leb_spec (Col p) 0); lia.
Qed.

Lemma posOf_ok base input off : posOk base -> posOk (posOf base input off).
Proof.
  unfold posOf. generalize (take off input). intros l. revert base.
  induction l as [|c l IH]; intros base Hb; simpl; [done|]. apply IH. unfold LexerPos.advance, posOk in *.
  destruct (_ =? _)%char; simpl; lia.
Qed.

Lemma advancePos_ok p s : posOk (advancePos p s).
Proof.
  unfold advancePos. generalize (normalizeStartPos_ok p). generalize (normalizeStartPos p).
  induction s as [|c s IH]; intros q Hq; simpl; [done|]. apply IH.
  unfold posOk in *. destruct (_ =? _)%char; simpl; lia.
Qed.

Lemma spanOf_ok base input i j : posOk base -> spanOk (spanOf base input i j).
Proof. intros. split; by apply posOf_ok. Qed.

(** ** Segments *)

Section double.
Context (base : Pos) (input : bytes) (pos : nat).
Let loc := fun p => locAt p (buildLineStarts input) base.
Hypotheses (Hbase : posOk base) (Hplain : plainBodies input = true).

Lemma loc_ok i : i <= length input -> posOk (loc i).
Proof. intros. unfold loc. rewrite locAt_posOf by done. by apply posOf_ok. Qed.

Definition litOk (lit : literal) (i : nat) : Prop :=
  match lit with Some (s, _) => s <= length input | None => True end.

Lemma flushLiteral_ok segs lit i :
  Forall segOk segs -> litOk lit i -> i <= length input -> Forall segOk (flushLiteral loc segs lit i).
Proof.
  intros Hs Hl Hi. destruct lit as [[s l]|]; simpl in *; [|done]. apply Forall_app. split; [done|].
  constructor; [|done]. split; simpl; [|apply not_elem_of_nil]. split; by apply loc_ok.
Qed.

Lemma doubleQuoted_ok fuel segs lit i tok n :
  i <= length input -> Forall segOk segs -> litOk lit i ->
  doubleQuoted fuel loc input pos segs lit i = Done (tok, n) -> Forall segOk (tokSegments tok).
Proof.
  revert segs lit i. induction fuel as [|fuel IH]; intros segs lit i Hi Hs Hl; cbn [doubleQuoted]; [done|].
  destruct (input !! i) as [c|] eqn:Hc; [|done]. pose proof (lookup_lt_Some _ _ _ Hc).
  assert (forall b, litOk (writeLiteral lit i b) i) as Hw
    by (intros b; destruct lit as [[]|]; simpl in *; [done|lia]).
  destruct (c =? dquote)%char.
  { intros [= <- <-]. pose proof (flushLiteral_ok segs lit i Hs Hl Hi) as Hf.
    unfold closeDoubleQuoted. destruct (flushLiteral _ _ _ _) as [|s [|]]; simpl; [done| |done].
    by destruct (segIsLit s). }
  destruct (c =? backslash)%char.
  { destruct (input !! (i + 1)) as [e|] eqn:He; [|done]. pose proof (lookup_lt_Some _ _ _ He).
    destruct (decodeEscape e); [|done]. apply IH; [lia|done|apply Hw]. }
  destruct (Ascii.eqb_spec c dollar) as [->|]; [|apply IH; [lia|done|apply Hw]].
  destruct (at_ _ input (i + 1)) eqn:Hb; [|done]. apply at_eqb in Hb. cbn [negb].
  destruct (scanInterpBody input (i + 2)) as [j| |] eqn:E; [|done..]. cbn [obind].
  pose proof (plainBodies_spec _ _ _ Hplain Hc Hb E) as Hq.
  unfold scanInterpBody in E. apply scanInterpBody_from_done in E as [? Hj].
  pose proof (lookup_lt_Some _ _ _ Hj). destruct (blank _); [done|]. apply IH; [lia| |done].
  apply Forall_app. split; [by apply flushLiteral_ok|]. constructor; [|done].
  split; [split; apply loc_ok; simpl; lia|done].
Qed.
End double.

(** A token with segments starts with a double quote. *)
Definition segmentsFrom (input : bytes) (i : nat) (tok : Token) : Prop :=
  tokSegments tok = [] \/ input !! i = Some dquote.

Lemma lexVarRef_segments input pos tok n : lexVarRef input pos = Done (tok, n) -> tokSegments tok = [].
Proof.
  unfold lexVarRef. destruct (input !! (pos + 1)); [|done]. destruct (_ =? _)%char.
  - unfold lexBracedVarRef. destruct (negb (at_ _ _ _)); [done|]. destruct (negb _); [done|].
    destruct (bracedPath _ _ _); [|done..]. cbn [obind]. destruct (_ <=? _); [done|]. by intros [= <- _].
  - unfold lexBareVarRef. destruct (negb _); [done|]. destruct (barePath _ _ _); [|done..].
    cbn [obind]. by intros [= <- _].
Qed.

Lemma lexAdapterRef_segments input pos tok n :
  lexAdapterRef input pos = Done (Some (tok, n)) -> tokSegments tok = [].
Proof.
  unfold lexAdapterRef, adapterPrefixes. cbn [lexAdapterRef_in]. destruct (negb _); [done|].
  destruct (negb _); [done|]. destruct (lexVarRef _ _) as [[t m]| |]; [|done..]. by intros [= <- _].
Qed.

Lemma tokenStep_segments base input tokens i ch tok n :
  posOk base -> plainBodies input = true -> input !! i = Some ch ->
  tokenStep input base tokens i ch = Done (Emit tok n) ->
  Forall segOk (tokSegments tok) /\ segmentsFrom input i tok.
Proof.
  intros Hb Hp Hc. pose proof (lookup_lt_Some _ _ _ Hc) as Hlt. unfold tokenStep.
  assert (tokSegments tok = [] -> Forall segOk (tokSegments tok) /\ segmentsFrom input i tok) as Hnil.
  { intros E. rewrite E. split; [done|by left]. }
  repeat match goal with
  | |- context [if ?b then Done (Skip _) else _] => destruct b; [done|]
  | |- context [if ?b then Done (Emit (plainToken _ _) _) else _] => destruct b; [by intros [= <- _]; apply Hnil|]
  end.
  destruct (_ && isTokenStart _); [destruct (at_ _ _ _); by intros [= <- _]; apply Hnil|].
  destruct (ch =? dollar)%char.
  { destruct (lexVarRef _ _) as [[t m]| |] eqn:E; [|done..]. intros [= <- _].
    apply Hnil. by eapply lexVarRef_segments. }
  destruct (one_of [dquote; squote] ch) eqn:Eq.
  { destruct (lexQuoted _ _ _) as [[t m]| |] eqn:E; [|done..]. intros [= <- _].
    unfold lexQuoted in E. destruct (at_ _ input i) eqn:Es.
    - unfold lexSingleQuoted in E. destruct (_ <=? _); [done|]. injection E as <- _. by apply Hnil.
    - apply doubleQuoted_ok in E; [|done|done|lia|done|done]. split; [done|]. right.
      apply one_of_spec in Eq. apply not_true_iff_false in Es. rewrite at_eqb, Hc in Es. set_solver. }
  repeat match goal with
  | |- context [if ?b then Done (Emit (plainToken _ _) _) else _] => destruct b; [by intros [= <- _]; apply Hnil|]
  end.
  destruct (lexAdapterRef _ _) as [[[t m]|]| |] eqn:E; [| |done..]; intros [= <- _]; apply Hnil.
  - by eapply lexAdapterRef_segments.
  - done.
Qed.

Lemma tokenLoop_segments fuel input base tokens i out :
  posOk base -> plainBodies input = true ->
  tokenLoop fuel input base tokens i = Done out ->
  exists toks, out = tokens ++ toks /\
    Forall (fun t => Forall segOk (tokSegments t) /\ (tokSegments t = [] \/ dquote ∈ input)) toks.
Proof.
  intros Hb Hp. revert tokens i. induction fuel as [|fuel IH]; intros tokens i H; [done|].
  cbn [tokenLoop] in H. destruct (input !! i) as [ch|] eqn:Hc.
  2: { injection H as <-. exists []. by rewrite app_nil_r. }
  destruct (tokenStep _ _ _ _ _) as [[n|tok n]| |] eqn:E; [..|done|done]; cbn [obind] in H.
  - by apply IH in H.
  - apply IH in H as (toks & -> & Ht). rewrite <- app_assoc. eexists. split; [done|].
    apply tokenStep_segments in E as [? [?|Hd]]; [| |done..]; (constructor; [|done]; simpl; split; [done|]);
      [by left|right; by eapply list_elem_of_lookup_2].
Qed.

(** ** Tokens *)

Lemma tiles_spans base input i toks :
  posOk base -> tiles base input i toks -> Forall (fun t => spanOk (tokSpan t)) toks.
Proof.
  intros Hb. induction 1 as [| |i j t toks _ _ _ Hs _ IH]; [done..|]. constructor; [|done].
  rewrite Hs. by apply spanOf_ok.
Qed.

Lemma tiles_length base input i toks : tiles base input i toks -> length toks + i <= length input.
Proof. induction 1; simpl; lia. Qed.

Lemma tokeniseAt_tiles fuel start input toks :
  tokeniseAt fuel start input = Done toks ->
  toks = [] \/ tiles (normalizeStartPos start) (stripComment input) 0 toks.
Proof.
  unfold tokeniseAt. destruct (blank _); [intros [= <-]; by left|]. intros H. right.
  by apply tokenLoop_done in H as (toks' & -> & Ht); [|lia].
Qed.

Lemma tokeniseAt_ok fuel start input toks :
  plainBodies (stripComment input) = true -> tokeniseAt fuel start input = Done toks -> Forall tokOk toks.
Proof.
  intros Hp Hrun. pose proof (normalizeStartPos_ok start) as Hb.
  destruct (tokeniseAt_tiles _ _ _ _ Hrun) as [->|Ht]; [done|].
  unfold tokeniseAt in Hrun. destruct (blank _); [by injection Hrun as <-|].
  apply tokenLoop_segments in Hrun as (toks' & E & Hs); [|done..]. simpl in E. subst toks'.
  apply tiles_spans in Ht; [|done]. apply Forall_forall. intros t Hin.
  rewrite Forall_forall in Ht, Hs. split; [by apply Ht|by apply Hs].
Qed.

Lemma tokeniseAt_length fuel start input toks :
  tokeniseAt fuel start input = Done toks -> length toks <= length input.
Proof.
  intros [->|Ht%tiles_length]%tokeniseAt_tiles; simpl; [lia|]. rewrite stripComment_length in Ht. lia.
Qed.

Lemma tokeniseAt_returns start input :
  plainBodies (stripComment input) = true -> tokeniseAt (S (length input)) start input <> OutOfFuel.
Proof.
  intros Hp. unfold tokeniseAt. destruct (blank _); [done|].
  apply tokenLoop_returns; [done|apply atOff_start|]. rewrite stripComment_length. lia.
Qed.

Lemma tokeniseAt_mono k start input :
  tokeniseAt (S (length input)) start input <> OutOfFuel ->
  tokeniseAt (S (length input) + k) start input = tokeniseAt (S (length input)) start input.
Proof. unfold tokeniseAt. destruct (blank _); [done|]. apply tokenLoop_mono. Qed.

(** ** The body of an interpolation *)

Lemma stripComment_quoteless input : dquote ∉ input -> dquote ∉ stripComment input.
Proof.
  intros Hn Hin. apply list_elem_of_lookup_1 in Hin as [i Hi].
  pose proof (Forall2_lookup_r _ _ _ _ _ (stripComment_covers input) Hi) as (c & Hc & [<-|[? _]]); [|done].
  by apply Hn, list_elem_of_lookup_2 with i.
Qed.

Lemma plainBodies_quoteless input : dquote ∉ input -> plainBodies (stripComment input) = true.
Proof.
  intros Hn%stripComment_quoteless. unfold plainBodies. apply forallb_forall. intros i _.
  destruct (_ && _); [|done]. destruct (scanInterpBody _ _); [|done..].
  apply negb_true_iff, one_of_false. intros Hin. apply Hn. unfold slice in Hin.
  apply elem_of_take in Hin as (k & Hk & _). rewrite lookup_drop in Hk.
  by eapply list_elem_of_lookup_2.
Qed.

Lemma weight_nil : weight [] = 0.
Proof. done. Qed.
Lemma weight_cons t ts : weight (t :: ts) = tokenWeight t + weight ts.
Proof. done. Qed.
Lemma weight_app ts ts' : weight (ts ++ ts') = weight ts + weight ts'.
Proof. apply sum_list_with_app. Qed.

Lemma weight_plain ts : Forall (fun t => tokSegments t = []) ts -> weight ts = length ts.
Proof.
  induction 1 as [|t ts Ht _ IH]; [done|]. rewrite weight_cons, IH. unfold tokenWeight. by rewrite Ht.
Qed.

(** A body without double quotes gives tokens without segments, no heavier than
    the body is long. *)
Lemma tokeniseInner_ok start text :
  dquote ∉ text ->
  match tokeniseInner start text with
  | Done toks => Forall tokOk toks /\ weight toks <= length text
  | Failed _ => True
  | OutOfFuel => False
  end.
Proof.
  intros Hn. pose proof (plainBodies_quoteless _ Hn) as Hp. unfold tokeniseInner.
  pose proof (tokeniseAt_returns start text Hp) as Hr.
  destruct (tokeniseAt _ _ _) as [toks| |] eqn:E; [|done..].
  split; [by eapply tokeniseAt_ok|]. rewrite weight_plain; [by eapply tokeniseAt_length|].
  unfold tokeniseAt in E. destruct (blank _); [by injection E as <-|].
  apply tokenLoop_segments in E as (toks' & -> & Hs); [|apply normalizeStartPos_ok|done].
  eapply Forall_impl; [exact Hs|]. intros t [_ [?|Hd]]; [done|]. by apply stripComment_quoteless in Hn.
Qed.
