(* ===== verification/ParserLogic.v ===== *)
(** * A program logic for parsers

    [wp p Q c]: the parser [p] returns on the cursor [c], and when it succeeds its
    result and the cursor it leaves satisfy [Q]. The weight of the tokens left
    bounds what loops and nested parsers can consume. *)

From Stdlib Require Import ZArith Lia Ascii.
From stdpp Require Import base tactics list strings option.
From S2P Require Import Prelude Lexer Literals Ast ExprParser TokensOk.

Definition owp {A} (o : outcome perror A) (Q : A -> Prop) : Prop :=
  match o with Done a => Q a | Failed _ => True | OutOfFuel => False end.

Definition wp {A} (p : P A) (Q : A -> cursor -> Prop) (c : cursor) : Prop :=
  owp (p c) (fun ac => Q ac.1 ac.2).

(** ** Cursors over good tokens *)

Definition lastOk (l : option Pos) : Prop := match l with Some p => posOk p | None => True end.
Definition cok (c : cursor) : Prop := Forall tokOk (rest c) /\ lastOk (last c).

(** The result satisfies [Q], and the cursor has not grown; or has shrunk. *)
Definition post {A} (Q : A -> Prop) (c : cursor) (a : A) (c' : cursor) : Prop :=
  Q a /\ cok c' /\ weight (rest c') <= weight (rest c).
Definition postS {A} (Q : A -> Prop) (c : cursor) (a : A) (c' : cursor) : Prop :=
  Q a /\ cok c' /\ weight (rest c') < weight (rest c).

Lemma tokenWeight_pos t : 0 < tokenWeight t.
Proof. unfold tokenWeight. lia. Qed.

Lemma lastOk_default start l : posOk start -> lastOk l -> posOk (default start l).
Proof. intros. by destruct l. Qed.

Lemma cok_last c : cok c -> lastOk (last c).
Proof. by intros []. Qed.

Lemma cok_rest c : cok c -> Forall tokOk (rest c).
Proof. by intros []. Qed.

Lemma lastOk_end t : tokOk t -> lastOk (Some (End_ (tokSpan t))).
Proof. intros [[? ?] ?]. done. Qed.

Lemma tokOk_start t : tokOk t -> posOk (Start (tokSpan t)).
Proof. intros [[? ?] ?]. done. Qed.

Lemma tokOk_end t : tokOk t -> posOk (End_ (tokSpan t)).
Proof. intros [[? ?] ?]. done. Qed.

Lemma tokOk_span t : tokOk t -> spanOk (tokSpan t).
Proof. intros []. done. Qed.

(** ** Rules *)

Section rules.
Context {A B : Type}.

Lemma wp_mono (p : P A) (Q Q' : A -> cursor -> Prop) c :
  wp p Q c -> (forall a c', Q a c' -> Q' a c') -> wp p Q' c.
Proof. unfold wp, owp. destruct (p c) as [[a c']| |]; naive_solver. Qed.

Lemma owp_mono (o : outcome perror A) (Q Q' : A -> Prop) :
  owp o Q -> (forall a, Q a -> Q' a) -> owp o Q'.
Proof. unfold owp. destruct o; naive_solver. Qed.

Lemma wp_bind (p : P A) (k : A -> P B) Q c : wp p (fun a => wp (k a) Q) c -> wp (pbind p k) Q c.
Proof. unfold wp, owp, pbind. by destruct (p c) as [[a c']| |]. Qed.

Lemma owp_bind (o : outcome perror A) (k : A -> outcome perror B) Q :
  owp o (fun a => owp (k a) Q) -> owp (obind o k) Q.
Proof. by destruct o. Qed.

Lemma wp_ret (a : A) (Q : A -> cursor -> Prop) c : Q a c -> wp (pret a) Q c.
Proof. done. Qed.

Lemma wp_fail e (Q : A -> cursor -> Prop) c : wp (pfail e) Q c.
Proof. done. Qed.

Lemma wp_lift (o : outcome perror A) (Q : A -> cursor -> Prop) c :
  owp o (fun a => Q a c) -> wp (lift o) Q c.
Proof. unfold wp, owp, lift. by destruct o. Qed.

Lemma wp_wrap prefix (p : P A) Q c : wp p Q c -> wp (pwrap prefix p) Q c.
Proof. unfold wp, owp, pwrap. by destruct (p c). Qed.

Lemma wp_looping (loop : nat -> P A) Q c : wp (loop (S (weight (rest c)))) Q c -> wp (looping loop) Q c.
Proof. done. Qed.
End rules.

Lemma wp_eof_nil (Q : bool -> cursor -> Prop) l : Q true (MkCursor l []) -> wp eof Q (MkCursor l []).
Proof. done. Qed.
Lemma wp_eof_cons (Q : bool -> cursor -> Prop) l t ts :
  Q false (MkCursor l (t :: ts)) -> wp eof Q (MkCursor l (t :: ts)).
Proof. done. Qed.

Lemma wp_peek_nil (Q : Token -> cursor -> Prop) l :
  Q zeroToken (MkCursor l []) -> wp peek Q (MkCursor l []).
Proof. done. Qed.
Lemma wp_peek_cons (Q : Token -> cursor -> Prop) l t ts :
  Q t (MkCursor l (t :: ts)) -> wp peek Q (MkCursor l (t :: ts)).
Proof. done. Qed.

Lemma wp_advance (Q : Token -> cursor -> Prop) l t ts :
  Q t (MkCursor (Some (End_ (tokSpan t))) ts) -> wp ExprParser.advance Q (MkCursor l (t :: ts)).
Proof. done. Qed.

Lemma wp_spanFrom start (Q : Span -> cursor -> Prop) c :
  Q (MkSpan start (default start (last c))) c -> wp (spanFrom start) Q c.
Proof. done. Qed.

Lemma skipWhile_from_ok p l ts :
  Forall tokOk ts -> lastOk l ->
  cok (skipWhile_from p l ts) /\ weight (rest (skipWhile_from p l ts)) <= weight ts.
Proof.
  intros Hts. revert l. induction Hts as [|t ts Ht Hts IH]; intros l Hl; cbn [skipWhile_from]; [by split|].
  destruct (p t).
  - destruct (IH (Some (End_ (tokSpan t)))) as [? ?]; [by apply lastOk_end|].
    split; [done|]. rewrite weight_cons. lia.
  - split; [|done]. split; [by constructor|done].
Qed.

Lemma wp_skipWhile p c : cok c -> wp (skipWhile p) (post (fun _ => True) c) c.
Proof.
  intros [Hts Hl]. unfold wp, skipWhile; simpl. destruct (skipWhile_from_ok p _ _ Hts Hl). by split_and!.
Qed.

(** ** Trees with complete spans *)

Definition sound (e : Expr) : Prop := Forall spanOk (walkExpr e).
Definition blockSound (b : MatchesBlockExpr) : Prop := Forall spanOk (walkBlock b).
Definition segmentSound (s : InterpStringSegment) : Prop :=
  match s with SegLiteral _ => True | SegExpr e => sound e end.
Definition fieldSound (f : RecordField) : Prop := match f with MkRecordField _ e _ => sound e end.
Definition entrySound (x : MatchEntry) : Prop :=
  match x with
  | MatchPattern _ e _ => sound e
  | MatchSubBlock _ b _ => blockSound b
  | MatchPredicate _ _ _ => True
  end.

Lemma sound_span e : sound e -> spanOk (exprSpan e).
Proof. unfold sound. destruct e; intros H; by inversion H. Qed.

Lemma Forall_walk {A B} (f : A -> list B) (R : B -> Prop) l :
  Forall (fun a => Forall R (f a)) l -> Forall R (concat (map f l)).
Proof. induction 1; simpl; [done|]. by apply Forall_app. Qed.

Lemma sound_interp l s : Forall segmentSound l -> spanOk s -> sound (InterpStringExpr l s).
Proof.
  intros Hl Hs. constructor; [done|]. simpl.
  induction Hl as [|[t|e] l Hx Hl IH]; [done|done|]. by apply Forall_app.
Qed.

Lemma sound_record l s : Forall fieldSound l -> spanOk s -> sound (RecordExpr l s).
Proof.
  intros Hl Hs. constructor; [done|]. simpl.
  induction Hl as [|[n e s'] l Hx Hl IH]; [done|]. by apply Forall_app.
Qed.

Lemma sound_block l x s : Forall entrySound l -> spanOk s -> blockSound (MkMatchesBlock l x s).
Proof.
  intros Hl Hs. constructor; [done|].
  induction Hl as [|[p e s'|p b s'|p q s'] l Hx Hl IH]; [done| | |done]; by apply Forall_app.
Qed.

Lemma sound_leaf e s : walkExpr e = [s] -> spanOk s -> sound e.
Proof. unfold sound. intros ->. by constructor. Qed.

Lemma sound_list l s : Forall sound l -> spanOk s -> sound (ListExpr l s).
Proof. intros. constructor; [done|]. by apply Forall_walk. Qed.

Lemma sound_call n l s : Forall sound l -> spanOk s -> sound (PureCallExpr n l s).
Proof. intros. constructor; [done|]. by apply Forall_walk. Qed.

Lemma sound_thread e l q s : sound e -> Forall sound l -> spanOk s -> sound (ThreadExpr e l q s).
Proof. intros. constructor; [done|]. apply Forall_app. split; [done|by apply Forall_walk]. Qed.

Lemma sound_binary l o r s : sound l -> sound r -> spanOk s -> sound (BinaryExpr l o r s).
Proof. intros. constructor; [done|]. by apply Forall_app. Qed.

Lemma sound_logical o l r s : sound l -> sound r -> spanOk s -> sound (LogicalExpr o l r s).
Proof. intros. constructor; [done|]. by apply Forall_app. Qed.

Lemma sound_matches e b s : sound e -> blockSound b -> spanOk s -> sound (MatchesExpr e b s).
Proof. intros. constructor; [done|]. by apply Forall_app. Qed.

Lemma sound_unary p e s : sound e -> spanOk s -> sound (UnaryExpr p e s).
Proof. intros. by constructor. Qed.
Lemma sound_not e s : sound e -> spanOk s -> sound (NotExpr e s).
Proof. intros. by constructor. Qed.
Lemma sound_negate e s : sound e -> spanOk s -> sound (NegateExpr e s).
Proof. intros. by constructor. Qed.

Create HintDb parser discriminated.
#[export] Hint Resolve sound_interp sound_record sound_block sound_list sound_call sound_thread
  sound_binary sound_logical sound_matches sound_unary sound_not sound_negate : parser.
#[export] Hint Resolve lastOk_default cok_last cok_rest lastOk_end tokOk_start tokOk_end tokOk_span : parser.
#[export] Hint Extern 1 (spanOk (MkSpan _ _)) => split; cbn [Start End_] : parser.
#[export] Hint Extern 1 (posOk (Start (exprSpan _))) => apply sound_span : parser.
#[export] Hint Extern 2 (cok (MkCursor _ _)) => split; cbn [rest last] : parser.
#[export] Hint Extern 1 (entrySound _) => progress cbn [entrySound] : parser.
#[export] Hint Extern 1 (fieldSound _) => progress cbn [fieldSound] : parser.
#[export] Hint Extern 1 (Forall _ (_ :: _)) => constructor : parser.
#[export] Hint Extern 1 (Forall _ []) => constructor : parser.
#[export] Hint Extern 1 (Forall _ (_ ++ _)) => apply Forall_app; split : parser.
#[export] Hint Extern 1 True => exact I : parser.

(** ** Symbolic execution *)

(** Opens [cok] and the case of the tokens left. *)
Ltac open_cursor c :=
  let l := fresh "l" in let ts := fresh "ts" in let t := fresh "t" in
  lazymatch c with
  | MkCursor _ ?ts0 => is_var ts0; destruct ts0 as [|t ts]
  | _ => is_var c; destruct c as [l [|t ts]]
  end;
  repeat match goal with
  | H : cok (MkCursor _ _) |- _ => destruct H as [H ?]; cbn [rest last] in *
  | H : Forall tokOk (_ :: _) |- _ => apply Forall_cons_1 in H as [? H]
  end.

(** The next token of an empty cursor is no keyword and has no kind but the first. *)
Ltac eval_bool b :=
  lazymatch b with
  | true => idtac
  | false => idtac
  | orb true _ => change b with true
  | orb false ?x => change b with x
  | andb (negb true) _ => change b with false
  | andb (negb false) ?x => change b with x
  | context [zeroToken] =>
    let v := eval vm_compute in b in
    lazymatch v with true => change b with true | false => change b with false end
  end.

Ltac wp_step :=
  lazymatch goal with
  | |- wp (pbind _ _) _ _ => apply wp_bind
  | |- wp (pret _) _ _ => apply wp_ret
  | |- wp (pfail _) _ _ => exact I
  | |- wp (pwrap _ _) _ _ => apply wp_wrap
  | |- wp (lift _) _ _ => apply wp_lift
  | |- wp (looping _) _ _ => apply wp_looping
  | |- wp (spanFrom _) _ _ => apply wp_spanFrom
  | |- wp (spanFromNodeStart _) _ _ => apply wp_spanFrom
  | |- wp eof _ ?c => first [open_cursor c|apply wp_eof_cons|apply wp_eof_nil]
  | |- wp peek _ ?c => first [open_cursor c|apply wp_peek_cons|apply wp_peek_nil]
  | |- wp ExprParser.advance _ ?c => first [open_cursor c|apply wp_advance]
  | |- wp (if ?b then _ else _) _ _ => first [eval_bool b; cbv iota|destruct b eqn:?]
  | |- wp (let _ := _ in _) _ _ => progress cbv zeta
  | |- owp (obind _ _) _ => apply owp_bind
  | |- owp (if ?b then _ else _) _ => destruct b eqn:?
  | |- owp (Done _) _ => cbn [owp]
  | |- owp (Failed _) _ => exact I
  end.

Ltac weights :=
  cbn [rest] in *; rewrite ?weight_app, ?weight_cons, ?weight_nil in *;
  repeat match goal with
  | H : context [tokenWeight ?t] |- _ =>
    lazymatch goal with _ : 0 < tokenWeight t |- _ => fail | _ => pose proof (tokenWeight_pos t) end
  | |- context [tokenWeight ?t] =>
    lazymatch goal with _ : 0 < tokenWeight t |- _ => fail | _ => pose proof (tokenWeight_pos t) end
  end; lia.

(** Ends a branch that has returned. *)
Ltac wp_done :=
  cbn [rest last] in *; unfold post, postS; split_and!; cbn [rest last];
  first [weights | solve [eauto 20 with parser]].

Ltac wps := repeat wp_step; try done.

(** Uses what is known of a parser that is called. *)
Ltac wp_call H :=
  eapply wp_mono; [apply H; first [weights|solve [eauto 20 with parser]]|];
  let a := fresh "a" in let c := fresh "c" in intros a c (? & ? & ?).
