(* ===== verification/ExprReturns.v ===== *)
(** * The expression parser returns

    By induction on the weight of the tokens: every parser of ExprParser returns on
    every cursor over good tokens, and what it builds has complete spans. *)

From Stdlib Require Import ZArith Lia Ascii.
From stdpp Require Import base tactics list strings option sets.
From S2P Require Import Prelude Lexer LexerPos Literals Ast ExprParser TokensOk ParserLogic.

(** ** Trimmed text *)

Ltac trim_cases IH :=
  match goal with
  | |- ?f (?a :: ?s1) `suffix_of` _ =>
    cbn [trimLeft trimLeftRev]; destruct (asciiSpace a); [apply suffix_cons_r, IH; simpl in *; lia|];
    destruct s1 as [|b s2]; [done|];
    match goal with |- (if ?x then _ else _) `suffix_of` _ => destruct x end;
      [apply suffix_cons_r, suffix_cons_r, IH; simpl in *; lia|];
    destruct s2 as [|c s3]; [done|];
    match goal with |- (if ?x then _ else _) `suffix_of` _ => destruct x end;
      [do 3 apply suffix_cons_r; apply IH; simpl in *; lia|done]
  end.


Lemma trimLeft_suffix n s : length s <= n -> trimLeft s `suffix_of` s.
Proof. revert s. induction n as [|n IH]; intros [|a s1] Hn; [done|simpl in Hn; lia|done|trim_cases IH]. Qed.

Lemma trimLeftRev_suffix n s : length s <= n -> trimLeftRev s `suffix_of` s.
Proof. revert s. induction n as [|n IH]; intros [|a s1] Hn; [done|simpl in Hn; lia|done|trim_cases IH]. Qed.

Lemma suffix_sub (s t : bytes) : s `suffix_of` t -> s `sublist_of` t.
Proof. intros [k ->]. by apply sublist_inserts_l. Qed.

Lemma TrimSpaceBytes_sublist s : TrimSpaceBytes s `sublist_of` s.
Proof.
  unfold TrimSpaceBytes. trans (trimLeft s); [|by apply suffix_sub, trimLeft_suffix with (length s)].
  destruct (trimLeftRev_suffix _ (reverse (trimLeft s)) ltac:(done)) as [k Hk].
  apply (f_equal reverse) in Hk. rewrite reverse_involutive, reverse_app in Hk. rewrite Hk at 2.
  by apply sublist_inserts_r.
Qed.

Lemma trim_dquote s : dquote ∉ s -> dquote ∉ TrimSpaceBytes s.
Proof. intros Hn Hin. apply Hn. by eapply elem_of_sublist; [|apply TrimSpaceBytes_sublist]. Qed.

Section grammar.
Context `{Unicode}.

(** The parser of expressions is good on tokens lighter than [m]. *)
Definition goodSub (m : nat) (sub : list Token -> outcome perror Expr) : Prop :=
  forall ts, Forall tokOk ts -> weight ts < m -> owp (sub ts) sound.

Definition good (m : nat) (p : P Expr) : Prop :=
  forall c, cok c -> weight (rest c) <= m -> wp p (postS sound c) c.

Lemma goodSub_mono m m' sub : m' <= m -> goodSub m sub -> goodSub m' sub.
Proof. intros ? Hs ts ??. apply Hs; [done|lia]. Qed.
Lemma good_mono m m' p : m' <= m -> good m p -> good m' p.
Proof. intros ? Hs ts ??. apply Hs; [done|lia]. Qed.

(** ** Primaries *)

Section primary.
Context (sub : list Token -> outcome perror Expr) (m : nat) (Hsub : goodSub m sub).

Lemma parseInterpBody_ok inner sp :
  spanOk sp -> dquote ∉ inner -> length inner < m -> owp (parseInterpBody sub inner sp) sound.
Proof.
  intros Hsp Hq Hm. unfold parseInterpBody. pose proof (trim_dquote _ Hq) as Ht.
  pose proof (sublist_length _ _ (TrimSpaceBytes_sublist inner)) as Hl.
  destruct (TrimSpaceBytes inner) as [|c text] eqn:E; [done|]. cbv zeta. set (start := advancePos _ _).
  match goal with |- owp (if _ then ?g else _) _ => assert (owp g sound) as Hg end.
  { pose proof (tokeniseInner_ok start (c :: text) Ht) as Hi. destruct (tokeniseInner _ _) as [toks| |]; [|done..].
    destruct Hi as [Hok Hw]. assert (owp (sub toks) sound) as Hs by (apply Hsub; [done|lia]).
    by destruct (sub toks). }
  destruct (c =? dollar)%char; [done|]. set (synth := MkPos _ _ _).
  pose proof (tokeniseInner_ok synth (dollar :: c :: text)) as Hi.
  destruct (tokeniseInner synth _) as [[|t [|]]| |]; [done| |done..|].
  - destruct (kindIs _ _); [|done]. eapply sound_leaf; [done|]. split; apply advancePos_ok.
  - apply Hi. rewrite not_elem_of_cons. by split.
Qed.

Lemma parseSegments_ok segs :
  Forall segOk segs -> sum_list_with (fun s => 2 + length (segInner s)) segs <= m ->
  owp (parseSegments sub segs) (Forall segmentSound).
Proof.
  induction 1 as [|s segs [Hs Hq] Hsegs IH]; intros Hm; cbn [parseSegments]; [by apply Forall_nil_2|]. cbn [sum_list_with] in Hm.
  destruct (segIsLit s).
  - apply owp_bind. eapply owp_mono; [apply IH; lia|]. intros l Hl. by apply Forall_cons_2.
  - apply owp_bind. eapply owp_mono; [apply parseInterpBody_ok; [done|done|lia]|]. intros e He.
    apply owp_bind. eapply owp_mono; [apply IH; lia|]. intros l Hl. by apply Forall_cons_2.
Qed.

Lemma parsePrimary_ok t : tokOk t -> tokenWeight t <= S m -> owp (parsePrimary sub t) sound.
Proof.
  intros [Hs Hsegs] Hm. unfold parsePrimary. unfold tokenWeight in Hm.
  destruct (tokKind t); try done; try by eapply sound_leaf.
  - destruct (bool_decide _); [done|by eapply sound_leaf].
  - apply owp_bind. eapply owp_mono; [apply parseSegments_ok; [done|lia]|]. intros l Hl.
    by apply sound_interp.
Qed.
End primary.
(** ** Matches blocks *)

Lemma withText_ok t text : tokOk t -> tokOk (withText t text).
Proof. done. Qed.

Lemma wp_setHead t' (Q : unit -> cursor -> Prop) l t ts :
  Q tt (MkCursor l (t' :: ts)) -> wp (setHead t') Q (MkCursor l (t :: ts)).
Proof. done. Qed.

Lemma matchPathLoop_ok fuel pathTok text c :
  cok c -> weight (rest c) < fuel -> wp (matchPathLoop fuel pathTok text) (post (fun _ => True) c) c.
Proof.
  revert text c. induction fuel as [|fuel IH]; intros text c Hc Hf; [lia|]. cbn [matchPathLoop].
  wps; try wp_done.
  - apply wp_setHead, wp_ret. split_and!; [done| |done]. split; [by constructor|done].
  - wp_call IH. wp_done.
  - wp_call IH. wp_done.
Qed.

Lemma patternTokens_ok c :
  cok c -> wp patternTokens
    (fun toks c' => Forall tokOk toks /\ cok c' /\ weight toks + weight (rest c') <= weight (rest c)) c.
Proof.
  destruct c as [l ts]. intros [Hts Hl]. unfold wp, patternTokens. cbn [rest last] in *.
  enough (forall buf, Forall tokOk buf -> owp (patternTokens_from buf l ts) (fun ac =>
    Forall tokOk ac.1 /\ cok ac.2 /\ weight ac.1 + weight (rest ac.2) <= weight buf + weight ts)) as Hg
    by (by apply (Hg [])).
  revert l Hl. induction Hts as [|t ts Ht Hts IH]; intros l Hl buf Hb; cbn [patternTokens_from].
  - split_and!; [done|done|simpl; lia].
  - wps; try (split_and!; [done|split; [by constructor|done]|simpl; lia]).
    eapply owp_mono; [apply IH; eauto with parser|]. intros [b c'] (? & ? & ?). cbn [fst snd] in *.
    split_and!; [done..|]. weights.
Qed.

Section matches.
Context (sub : list Token -> outcome perror Expr) (m : nat) (Hsub : goodSub m sub).

Lemma parseMatchPath_ok c :
  cok c -> wp parseMatchPath (postS (fun r => tokOk r.1) c) c.
Proof.
  intros Hc. unfold parseMatchPath. wps; try wp_done.
  wp_call matchPathLoop_ok. wps. wp_done.
Qed.

Lemma last_ok ts t : tokOk t -> Forall tokOk ts -> tokOk (List.last ts t).
Proof. intros Ht Hts. induction Hts as [|x [|y l] ? ? IH]; simpl in *; auto. Qed.

Section entry.
Context (block : Pos -> bool -> P MatchesBlockExpr) (n : nat).
Hypothesis (Hblock : forall loc x c, posOk loc -> cok c -> weight (rest c) < n ->
  wp (block loc x) (postS blockSound c) c).

Lemma parseMatchEntry_ok x c :
  cok c -> weight (rest c) <= n -> weight (rest c) <= m ->
  wp (parseMatchEntry sub block x) (postS entrySound c) c.
Proof.
  intros Hc Hn Hm. unfold parseMatchEntry. wps. wp_call parseMatchPath_ok.
  destruct a as [pathTok text]. simpl in *. wps.
  1-3: wp_call Hblock; wps; wp_done.
  - eapply wp_mono; [apply patternTokens_ok; eauto with parser|]. intros toks c' (Htoks & Hc' & Hw).
    destruct toks as [|t' toks]; [done|]. apply Forall_cons_1 in Htoks as [Ht' Htoks].
    pose proof (last_ok _ _ Ht' Htoks). wps; [wp_done|].
    assert (owp (sub (t' :: toks)) sound) as Hs by (apply Hsub; [by constructor|weights]).
    destruct (sub _); [|done..]. cbn [owp] in Hs. wps. wp_done.
Qed.

Lemma matchEntries_ok fuel openTok x entries c :
  tokOk openTok -> Forall entrySound entries ->
  cok c -> weight (rest c) <= n -> weight (rest c) <= m -> weight (rest c) < fuel ->
  wp (matchEntries sub block fuel openTok x entries) (post blockSound c) c.
Proof.
  intros Ho. revert entries c. induction fuel as [|fuel IH]; intros entries c He Hc Hn Hm Hf; [lia|].
  cbn [matchEntries]. wps. wp_call wp_skipWhile. wps.
  - wp_done.
  - wp_call parseMatchEntry_ok. wp_call IH. wp_done.
Qed.

Lemma matchesBlockBody_ok loc x c :
  cok c -> weight (rest c) <= S n -> weight (rest c) <= m ->
  wp (matchesBlockBody sub block loc x) (postS blockSound c) c.
Proof.
  intros Hc Hn Hm. unfold matchesBlockBody. wps. wp_call matchEntries_ok. wp_done.
Qed.
End entry.

Lemma parseMatchesBlock_from_ok fuel loc x c :
  cok c -> weight (rest c) < fuel -> weight (rest c) <= m ->
  wp (parseMatchesBlock_from fuel sub loc x) (postS blockSound c) c.
Proof.
  revert loc x c. induction fuel as [|fuel IH]; intros loc x c Hc Hf Hm; [lia|]. cbn [parseMatchesBlock_from].
  destruct (decide (weight (rest c) = 0)).
  - unfold matchesBlockBody. open_cursor c; [wps|weights].
  - apply matchesBlockBody_ok with (weight (rest c) - 1); [|done|lia|done].
    intros. apply IH; [done|lia..].
Qed.

Lemma parseMatchesBlock_ok loc x c :
  cok c -> weight (rest c) <= m -> wp (parseMatchesBlock sub loc x) (postS blockSound c) c.
Proof. intros. apply wp_looping, parseMatchesBlock_from_ok; [done|lia..]. Qed.
End matches.

(** ** The levels *)

Section levels.
Context (rec : P Expr) (sub : list Token -> outcome perror Expr) (m : nat).
Hypotheses (Hrec : good m rec) (Hsub : goodSub m sub).

Lemma threadArgs_ok fuel args c :
  Forall sound args -> cok c -> weight (rest c) <= m -> weight (rest c) < fuel ->
  wp (threadArgs sub fuel args) (post (Forall sound) c) c.
Proof.
  revert args c. induction fuel as [|fuel IH]; intros args c Ha Hc Hm Hf; [lia|]. cbn [threadArgs].
  wps; try wp_done. eapply owp_mono; [apply (parsePrimary_ok _ m); [done..|weights]|].
  intros e He. wp_call IH. wp_done.
Qed.

Lemma threadLoop_ok fuel lhs c :
  sound lhs -> cok c -> weight (rest c) <= m -> weight (rest c) < fuel ->
  wp (threadLoop sub fuel lhs) (post sound c) c.
Proof.
  revert lhs c. induction fuel as [|fuel IH]; intros lhs c Hs Hc Hm Hf; [lia|]. cbn [threadLoop].
  wps; try wp_done. unfold parseThreadRHS. wps. wp_call threadArgs_ok.
  destruct a; wps. wp_call IH. wp_done.
Qed.

Lemma parseThread_ok : good m (parseThread rec sub).
Proof.
  intros c Hc Hm. unfold parseThread. wps. wp_call Hrec. wps. wp_call threadLoop_ok. wp_done.
Qed.

Lemma parseNegate_from_ok fuel c :
  cok c -> weight (rest c) <= m -> weight (rest c) < fuel ->
  wp (parseNegate_from rec sub fuel) (postS sound c) c.
Proof.
  revert c. induction fuel as [|fuel IH]; intros c Hc Hm Hf; [lia|]. cbn [parseNegate_from]. wps.
  - apply parseThread_ok; eauto with parser.
  - wp_call IH. wps. wp_done.
  - apply parseThread_ok; eauto with parser.
Qed.

Lemma parseNegate_ok : good m (parseNegate rec sub).
Proof. intros c Hc Hm. apply wp_looping, parseNegate_from_ok; [done|lia..]. Qed.

Lemma wp_operandFollowsPred (Q : bool -> cursor -> Prop) c :
  (forall b, Q b c) -> wp operandFollowsPred Q c.
Proof. unfold wp, operandFollowsPred. simpl. intros HQ. apply HQ. Qed.

Lemma parsePredicate_ok : good m (parsePredicate rec sub).
Proof.
  intros c Hc Hm. unfold parsePredicate. wps; apply wp_operandFollowsPred; intros b; wps.
  - apply parseNegate_ok; eauto with parser.
  - wp_call Hrec. wps. wp_done.
  - apply parseNegate_ok; eauto with parser.
Qed.

Lemma chain_ok fuel ops next mk lhs c :
  good m next -> (forall l o r s, sound l -> sound r -> spanOk s -> sound (mk l o r s)) ->
  sound lhs -> cok c -> weight (rest c) <= m -> weight (rest c) < fuel ->
  wp (chain fuel ops next mk lhs) (post sound c) c.
Proof.
  intros Hnext Hmk. revert lhs c. induction fuel as [|fuel IH]; intros lhs c Hs Hc Hm Hf; [lia|].
  cbn [chain]. wps; try wp_done. wp_call Hnext. wps. wp_call IH. wp_done.
Qed.

Lemma chained_ok ops next mk :
  good m next -> (forall l o r s, sound l -> sound r -> spanOk s -> sound (mk l o r s)) ->
  good m (chained ops next mk).
Proof. intros Hnext Hmk c Hc Hm. unfold chained. wps. wp_call Hnext. wps. wp_call chain_ok. wp_done. Qed.

Lemma parseAdditive_ok : good m (parseAdditive rec sub).
Proof. repeat (apply chained_ok; [|apply sound_binary]). apply parsePredicate_ok. Qed.

Lemma parseComparison_ok : good m (parseComparison rec sub).
Proof.
  intros c Hc Hm. unfold parseComparison. wps. wp_call parseAdditive_ok. wps.
  - wp_call (parseMatchesBlock_ok _ _ Hsub). wps. wp_done.
  - wp_call (parseMatchesBlock_ok _ _ Hsub). wps. wp_done.
  - wp_call parseAdditive_ok. wps. wp_done.
  - wp_done.
Qed.

Lemma parseNot_from_ok fuel c :
  cok c -> weight (rest c) <= m -> weight (rest c) < fuel ->
  wp (parseNot_from rec sub fuel) (postS sound c) c.
Proof.
  revert c. induction fuel as [|fuel IH]; intros c Hc Hm Hf; [lia|]. cbn [parseNot_from]. wps.
  - apply parseComparison_ok; eauto with parser.
  - wp_call IH. wps. wp_done.
  - apply parseComparison_ok; eauto with parser.
Qed.

Lemma parseOr_ok : good m (parseOr rec sub).
Proof.
  apply chained_ok; [|intros; by apply sound_logical]. apply chained_ok; [|intros; by apply sound_logical].
  intros c Hc Hm. apply wp_looping, parseNot_from_ok; [done|lia..].
Qed.

(** ** Terms *)

(** What follows is read one token into the term. *)
Lemma parseParens_ok l t ts :
  cok (MkCursor l (t :: ts)) -> weight ts <= m ->
  wp (parseParens rec sub) (postS sound (MkCursor l (t :: ts))) (MkCursor l (t :: ts)).
Proof.
  intros Hc Hm. unfold parseParens. destruct Hc as [Hts Hl]. cbn [rest last] in *.
  apply Forall_cons_1 in Hts as [Ht Hts]. wps; wp_call parseOr_ok; wps; wp_done.
Qed.

Lemma listElems_ok fuel openTok elems c :
  tokOk openTok -> Forall sound elems -> cok c -> weight (rest c) <= m -> weight (rest c) < fuel ->
  wp (listElems rec fuel openTok elems) (post sound c) c.
Proof.
  intros Ho. revert elems c. induction fuel as [|fuel IH]; intros elems c He Hc Hm Hf; [lia|].
  cbn [listElems]. wps. wp_call wp_skipWhile. wps.
  - wp_done.
  - wp_call Hrec. wp_call IH. wp_done.
Qed.

Lemma parseListLiteral_ok l t ts :
  cok (MkCursor l (t :: ts)) -> weight ts <= m ->
  wp (parseListLiteral rec) (postS sound (MkCursor l (t :: ts))) (MkCursor l (t :: ts)).
Proof.
  intros [Hts Hl] Hm. cbn [rest last] in *. apply Forall_cons_1 in Hts as [Ht Hts].
  unfold parseListLiteral. wps; wp_call listElems_ok; wp_done.
Qed.

Lemma recordFields_ok fuel recordTok openTok fields seen c :
  tokOk recordTok -> Forall fieldSound fields -> cok c -> weight (rest c) <= m -> weight (rest c) < fuel ->
  wp (recordFields rec fuel recordTok openTok fields seen) (post sound c) c.
Proof.
  intros Hr. revert fields seen c. induction fuel as [|fuel IH]; intros fields seen c He Hc Hm Hf; [lia|].
  cbn [recordFields]. wps. wp_call wp_skipWhile. wps.
  - wp_done.
  - wp_call Hrec. wps. wp_call IH. wp_done.
Qed.

Lemma parseRecordLiteral_ok l t ts :
  cok (MkCursor l (t :: ts)) -> weight ts <= m ->
  wp (parseRecordLiteral rec) (postS sound (MkCursor l (t :: ts))) (MkCursor l (t :: ts)).
Proof.
  intros [Hts Hl] Hm. cbn [rest last] in *. apply Forall_cons_1 in Hts as [Ht Hts].
  unfold parseRecordLiteral. wps; wp_call wp_skipWhile; wps; wp_call recordFields_ok; wp_done.
Qed.

Lemma primary_ok l t ts :
  cok (MkCursor l (t :: ts)) -> tokenWeight t <= S m ->
  owp (parsePrimary sub t) (fun e =>
    postS sound (MkCursor l (t :: ts)) e (MkCursor (Some (End_ (tokSpan t))) ts)).
Proof.
  intros [Hts Hl] Hm. cbn [rest last] in *. apply Forall_cons_1 in Hts as [Ht Hts].
  eapply owp_mono; [by apply (parsePrimary_ok _ m)|]. intros e He. wp_done.
Qed.

Lemma parsePureCallArg_ok l t ts :
  cok (MkCursor l (t :: ts)) -> weight (t :: ts) <= S m ->
  wp (parsePureCallArg rec sub) (postS sound (MkCursor l (t :: ts))) (MkCursor l (t :: ts)).
Proof.
  intros Hc Hm. unfold parsePureCallArg. wps.
  - apply parseParens_ok; [eauto with parser|weights].
  - apply parseListLiteral_ok; [eauto with parser|weights].
  - destruct (tokKind t); wps; [destruct (validateExpressionWordLiteral t); wps|..];
      (apply primary_ok; [eauto with parser|weights]).
Qed.

Lemma pureCallArgs_ok n nameTok args c :
  Forall sound args -> cok c -> weight (rest c) <= S m ->
  wp (pureCallArgs rec sub n nameTok args) (post (Forall sound) c) c.
Proof.
  revert args c. induction n as [|n IH]; intros args c Ha Hc Hm; cbn [pureCallArgs]; wps; try wp_done.
  wp_call parsePureCallArg_ok. wp_call IH. wp_done.
Qed.

Lemma parsePureCall_ok n l t ts :
  cok (MkCursor l (t :: ts)) -> weight ts <= m ->
  wp (parsePureCall rec sub n) (postS sound (MkCursor l (t :: ts))) (MkCursor l (t :: ts)).
Proof.
  intros [Hts Hl] Hm. cbn [rest last] in *. apply Forall_cons_1 in Hts as [Ht Hts].
  unfold parsePureCall. wps; wp_call pureCallArgs_ok; wps; wp_done.
Qed.

Lemma wp_secondStartsArg (Q : bool -> cursor -> Prop) c : (forall b, Q b c) -> wp secondStartsArg Q c.
Proof. unfold wp, secondStartsArg. simpl. intros HQ. apply HQ. Qed.

Lemma termBody_ok : good (S m) (termBody rec sub).
Proof.
  intros c Hc Hm. unfold termBody. wps.
  - apply parseParens_ok; [eauto with parser|weights].
  - apply parseListLiteral_ok; [eauto with parser|weights].
  - apply parseRecordLiteral_ok; [eauto with parser|weights].
  - destruct (if kindIs t TokenWord then lookupPureBuiltin (tokText t) else None) as [n|].
    + wps. apply wp_secondStartsArg. intros b. wps.
      * apply primary_ok; [eauto with parser|weights].
      * apply parsePureCall_ok; [eauto with parser|weights].
    + destruct (validateExpressionWordLiteral t); wps. apply primary_ok; [eauto with parser|weights].
Qed.
End levels.

(** ** Whole expressions *)

Lemma stripSeps_ok ts : Forall tokOk ts -> Forall tokOk (stripSeps ts) /\ weight (stripSeps ts) <= weight ts.
Proof.
  unfold stripSeps. generalize 0 as d. intros d Hts. revert d.
  induction Hts as [|t ts Ht Hts IH]; intros d; cbn [stripSeps_from]; [done|].
  rewrite weight_cons.
  destruct (_ && _); [destruct (IH d); split; [done|lia]|].
  destruct (isKeywordWord t "{"); [destruct (IH (S d))|destruct (isKeywordWord t "}");
    [destruct (IH (d - 1))|destruct (IH d)]]; rewrite weight_cons; (split; [by constructor|lia]).
Qed.

Lemma parseExpressionWith_ok term sub m :
  good m term -> goodSub m sub -> goodSub (S m) (parseExpressionWith term sub).
Proof.
  intros Hterm Hsub ts Hts Hw. unfold parseExpressionWith. destruct (stripSeps_ok ts Hts) as [Hs Hl].
  destruct (stripSeps ts) as [|t ts'] eqn:E; [done|].
  pose proof (parseOr_ok term sub m Hterm Hsub (MkCursor None (t :: ts'))) as Hp.
  unfold wp, owp in Hp. destruct (parseOr _ _ _) as [[e c]| |]; [|done|].
  - destruct Hp as (He & _); [done|cbn [rest]; lia|]. destruct (rest c); [done|].
    by destruct (smushedArithmeticHint _).
  - apply Hp; [done|cbn [rest]; lia].
Qed.

Lemma parsers_ok m :
  (forall fuel, 2 * m < fuel -> good m (parseTerm fuel)) /\
  (forall fuel, S (2 * m) < fuel -> goodSub (S m) (parseSub fuel)).
Proof.
  induction m as [|m [IHt IHs]].
  - assert (forall fuel, 0 < fuel -> good 0 (parseTerm fuel)) as Hterm.
    { intros [|fuel] Hf c Hc Hm; [lia|]. open_cursor c; [done|weights]. }
    split; [intros; apply Hterm; lia|]. intros [|fuel] Hf; [lia|]. cbn [parseSub].
    apply parseExpressionWith_ok; [apply Hterm; lia|]. intros ts _ Hw. lia.
  - assert (forall fuel, 2 * S m < fuel -> good (S m) (parseTerm fuel)) as Hterm.
    { intros [|fuel] Hf; [lia|]. cbn [parseTerm]. apply termBody_ok.
      - apply IHt. lia.
      - apply goodSub_mono with (S m); [lia|]. apply IHs. lia. }
    split; [done|]. intros [|fuel] Hf; [lia|]. cbn [parseSub].
    apply parseExpressionWith_ok; [apply Hterm; lia|apply IHs; lia].
Qed.

Lemma parseExpression_ok ts : Forall tokOk ts -> owp (parseExpression ts) sound.
Proof.
  intros Hts. unfold parseExpression. destruct (parsers_ok (weight ts)) as [_ Hs].
  apply Hs; [lia|done|lia].
Qed.

Lemma parsePrimary_top t : tokOk t -> owp (parsePrimary parseExpression t) sound.
Proof.
  intros Ht. apply (parsePrimary_ok _ (tokenWeight t)); [|done|lia]. intros ts Hts _. by apply parseExpression_ok.
Qed.

(** ** Command arguments *)

Lemma findMatching_ok o cl d ts inner after :
  findMatching o cl d ts = Some (inner, after) ->
  exists close, ts = inner ++ close :: after.
Proof.
  revert d inner after. induction ts as [|t ts IH]; intros d inner after; cbn [findMatching]; [done|].
  destruct (_ && _); [intros [= <- <-]; by exists t|]. cbv zeta.
  destruct (findMatching _ _ _ ts) as [[inner' after']|] eqn:E; [|done]. intros [= <- <-].
  apply IH in E as [close ->]. by exists close.
Qed.

Lemma commandArgs_from_ok fuel ts exprs :
  Forall tokOk ts -> Forall sound exprs -> length ts < fuel ->
  owp (commandArgs_from fuel ts exprs) (Forall sound).
Proof.
  revert ts exprs. induction fuel as [|fuel IH]; intros ts exprs Hts He Hf; [lia|]. cbn [commandArgs_from].
  destruct ts as [|t ts]; [done|]. apply Forall_cons_1 in Hts as [Ht Hts]. simpl in Hf.
  assert (forall e after, sound e -> Forall tokOk after -> length after < fuel ->
    owp (commandArgs_from fuel after (exprs ++ [e])) (Forall sound)) as Hnext.
  { intros. apply IH; eauto with parser. }
  wps.
  - destruct (findMatching _ _ _ _) as [[inner after]|] eqn:E; [|done].
    apply findMatching_ok in E as [close ->]. apply Forall_app in Hts as [Hi [Hcl Ha]%Forall_cons_1].
    rewrite length_app in Hf. simpl in Hf. wps.
    eapply owp_mono; [by apply parseExpression_ok|]. intros e Hse. apply Hnext; [done..|lia].
  - destruct (findMatching _ _ _ _) as [[inner after]|] eqn:E; [|done].
    apply findMatching_ok in E as [close ->]. apply Forall_app in Hts as [Hi [Hcl Ha]%Forall_cons_1].
    rewrite length_app in Hf. simpl in Hf. cbv zeta. rewrite drop_app_length. wps.
    eapply owp_mono; [apply parseExpression_ok; simpl; eauto with parser|].
    intros e Hse. apply Hnext; [done..|lia].
  - eapply owp_mono; [by apply parsePrimary_top|]. intros e Hse. apply Hnext; [done..|lia].
Qed.

Lemma parseCommandArgs_ok ts : Forall tokOk ts -> owp (parseCommandArgs ts) (Forall sound).
Proof. intros. apply commandArgs_from_ok; [done|done|lia]. Qed.
End grammar.
