(* ===== verification/StmtReturns.v ===== *)
(** * The statement parser returns

    Over ExprReturns: every parser of StmtParser returns on good tokens, what it
    builds has complete spans, and a statement takes at least one token. At the end
    the two theorems about a script from its bytes to its tree. *)

From Stdlib Require Import ZArith Lia Ascii.
From stdpp Require Import base tactics list strings option sets.
From S2P Require Import Prelude Lexer LexerReturns Literals Ast ExprParser StmtParser TokensOk ParserLogic ExprReturns.

(** ** Trees with complete spans *)

Definition stmtSound (st : Stmt) : Prop := Forall spanOk (walkStmt st).
Definition forEachSound (fe : ForEach) : Prop := Forall spanOk (walkForEach fe).
Definition branchSound (br : IfBranch) : Prop := Forall spanOk (walkIfBranch br).
Definition commandSound (c : Command) : Prop := Forall spanOk (walkCommand c).
Definition clauseSound (c : AssertClause) : Prop := Forall spanOk (walkClause c).
Definition optionSound (e : option Expr) : Prop := Forall spanOk (walkOption e).

Lemma forEach_stmt fe : forEachSound fe -> stmtSound (ForEachStmt fe).
Proof. by destruct fe. Qed.
Lemma command_stmt c : commandSound c -> stmtSound (CommandStmt c).
Proof. done. Qed.
Lemma none_sound : optionSound None.
Proof. constructor. Qed.
Lemma some_sound e : sound e -> optionSound (Some e).
Proof. done. Qed.
Lemma stmtSound_span st : stmtSound st -> spanOk (stmtSpan st).
Proof. unfold stmtSound. destruct st; intros H; by inversion H. Qed.

Ltac tree_sound :=
  cbn [walkStmt walkForEach walkIfBranch walkClause walkOption stmtSpan];
  repeat lazymatch goal with
  | |- Forall _ (_ :: _) => apply Forall_cons_2
  | |- Forall _ (_ ++ _) => apply Forall_app_2
  | |- Forall _ (concat _) => apply Forall_walk
  end; cbn [cmdSpan cmdArgs].

#[export] Hint Resolve forEach_stmt command_stmt none_sound some_sound : parser.
#[export] Hint Extern 2 (stmtSound _) => unfold stmtSound; tree_sound : parser.
#[export] Hint Extern 2 (forEachSound (MkForEach _ _ _ _)) => unfold forEachSound; tree_sound : parser.
#[export] Hint Extern 2 (branchSound (MkIfBranch _ _ _)) => unfold branchSound; tree_sound : parser.
#[export] Hint Extern 2 (commandSound (MkCommand _ _)) => unfold commandSound, walkCommand; tree_sound : parser.
#[export] Hint Extern 2 (clauseSound _) => unfold clauseSound; tree_sound : parser.
#[export] Hint Extern 1 (Forall spanOk (walkExpr ?e)) => change (sound e) : parser.
#[export] Hint Extern 1 (Forall spanOk (walkCommand ?e)) => change (commandSound e) : parser.
#[export] Hint Extern 1 (Forall spanOk (walkForEach ?e)) => change (forEachSound e) : parser.
#[export] Hint Extern 1 (Forall spanOk (walkClause ?e)) => change (clauseSound e) : parser.
#[export] Hint Extern 1 (Forall spanOk (walkOption ?e)) => change (optionSound e) : parser.
#[export] Hint Extern 1 (Forall (fun a => Forall spanOk (walkExpr a)) ?l) => change (Forall sound l) : parser.
#[export] Hint Extern 1 (Forall (fun a => Forall spanOk (walkStmt a)) ?l) => change (Forall stmtSound l) : parser.
#[export] Hint Extern 1 (Forall (fun a => Forall spanOk (walkIfBranch a)) ?l) =>
  change (Forall branchSound l) : parser.

#[export] Hint Extern 1 (posOk (End_ (MkSpan _ _))) => cbn [End_] : parser.

(** ** Collecting tokens *)

Lemma blockTokens_from_ok err buf depth l ts :
  Forall tokOk buf -> Forall tokOk ts -> lastOk l ->
  owp (blockTokens_from err buf depth l ts) (fun r =>
    Forall tokOk r.1 /\ cok r.2 /\ weight r.1 + weight (rest r.2) <= weight buf + weight ts /\
    weight (rest r.2) < weight ts /\ length buf < length r.1).
Proof.
  intros Hb Hts. revert buf depth l Hb. induction Hts as [|t ts Ht Hts IH]; intros buf depth l Hb Hl;
    cbn [blockTokens_from]; [done|]. cbv zeta.
  assert (forall d, owp (blockTokens_from err (buf ++ [t]) d (Some (End_ (tokSpan t))) ts) (fun r =>
    Forall tokOk r.1 /\ cok r.2 /\ weight r.1 + weight (rest r.2) <= weight buf + weight (t :: ts) /\
    weight (rest r.2) < weight (t :: ts) /\ length buf < length r.1)) as Hnext.
  { intros d. eapply owp_mono; [apply IH; eauto with parser|]. intros [b c] (? & ? & ? & ? & Hlen).
    cbn [fst snd] in *. rewrite length_app in Hlen. simpl in Hlen. split_and!; [done|done|weights|weights|lia]. }
  wps. cbn [fst snd]. split_and!; [eauto with parser..|weights|weights|rewrite length_app; simpl; lia].
Qed.

(** What a loop that collects tokens leaves. *)
Definition collected (ends : bool) (buf : list Token) (c : cursor) (r : list Token) (c' : cursor) : Prop :=
  Forall tokOk r /\ cok c' /\ weight r + weight (rest c') <= weight buf + weight (rest c) /\
  length buf <= length r /\ weight (rest c') <= weight (rest c) /\
  (ends = true -> length r <= length buf -> rest c' = rest c).

Lemma collect_ok fuel pol buf depth c :
  Forall tokOk buf -> cok c -> weight (rest c) < fuel ->
  wp (collect fuel pol buf depth) (fun r => collected (sepEnds pol) buf c r.1) c.
Proof.
  revert buf depth c. induction fuel as [|fuel IH]; intros buf depth c Hb Hc Hf; [lia|].
  cbn [collect]. open_cursor c; [wps; by split_and!|]. do 4 wp_step. cbv beta zeta iota.
  assert (forall d, wp (ExprParser.advance >>> collect fuel pol (buf ++ [t]) d)
    (fun r => collected (sepEnds pol) buf (MkCursor l (t :: ts)) r.1) (MkCursor l (t :: ts))) as Hkeep.
  { intros d. wps. eapply wp_mono; [apply IH; [eauto with parser..|weights]|].
    intros [b d'] c' (? & ? & ? & Hlen & ? & _). cbn [fst] in *. rewrite length_app in Hlen. simpl in Hlen.
    split_and!; [done|done|weights|lia|weights|lia]. }
  assert (collected (sepEnds pol) buf (MkCursor l (t :: ts)) buf (MkCursor l (t :: ts))) as Hstop
    by (split_and!; eauto with parser).
  assert (forall msg d, wp (let% b := appendBlockTokens msg buf in collect fuel pol b d)
    (fun r => collected (sepEnds pol) buf (MkCursor l (t :: ts)) r.1) (MkCursor l (t :: ts))) as Hfold.
  { intros msg d. wps. unfold wp at 1, appendBlockTokens. cbn [rest last].
    eapply owp_mono; [apply blockTokens_from_ok; eauto with parser|]. intros [b c'] (? & ? & ? & ? & ?).
    cbn [fst snd] in *. eapply wp_mono; [apply IH; [done|done|weights]|].
    intros [b' d'] c'' (? & ? & ? & ? & ? & _). cbn [fst] in *.
    split_and!; [done|done|weights|lia|weights|lia]. }
  destruct (kindIs t TokenSep); [|destruct (wordIn t ["{"; "}"]%string)].
  - destruct (0 <? depth); [apply Hkeep|]. destruct (sepEnds pol) eqn:E; [by apply wp_ret|].
    wps. eapply wp_mono; [apply IH; [eauto with parser..|weights]|].
    intros [b d'] c' (? & ? & ? & ? & ? & _). cbn [fst] in *. split_and!; [done|done|weights|lia|weights|done].
  - destruct (0 <? depth); [apply Hkeep|]. destruct (_ && _); [apply Hfold|].
    destruct (_ && _); [apply Hfold|by apply wp_ret].
  - match goal with |- wp (match ?o with _ => _ end) _ _ => destruct o end; [done|].
    destruct (wordIn t ["("; "["]%string); [apply Hkeep|]. destruct (wordIn t _); apply Hkeep.
Qed.

Lemma collecting_ok pol c :
  cok c -> wp (collecting pol) (fun r => collected (sepEnds pol) [] c r.1) c.
Proof. intros. apply wp_looping, collect_ok; [done|done|lia]. Qed.

(** The tokens taken are good; when there are any, the cursor has moved. *)
Definition taken (c : cursor) (r : list Token) (c' : cursor) : Prop :=
  Forall tokOk r /\ cok c' /\ weight r + weight (rest c') <= weight (rest c).

Lemma takeStmtTokens_ok b c : cok c -> wp (takeStmtTokens b) (taken c) c.
Proof.
  intros Hc. unfold takeStmtTokens. wps. eapply wp_mono; [by apply collecting_ok|].
  intros [r d] c' (? & ? & ? & _). cbn [fst] in *. wps; (split_and!; [done|done|weights]).
Qed.

Lemma takeBindRHSTokens_ok t c :
  cok c -> wp (takeBindRHSTokens t) (fun r c' => taken c r c' /\ r <> []) c.
Proof.
  intros Hc. unfold takeBindRHSTokens. wps. eapply wp_mono; [by apply collecting_ok|].
  intros [r d] c' (? & ? & ? & _). cbn [fst] in *. destruct r; wps; by (split; [split_and!|]).
Qed.

Lemma takeUntilOpenBrace_ok c : cok c -> wp takeUntilOpenBrace (taken c) c.
Proof.
  intros Hc. unfold takeUntilOpenBrace. wps. eapply wp_mono; [by apply collecting_ok|].
  intros [r d] c' (? & ? & ? & _). cbn [fst] in *. wps; (split_and!; [done|eauto with parser|weights]).
Qed.

Section statements.
Context `{Unicode}.

(** The expression or the arguments that a clause's tokens make up. *)
Lemma owp_expression ts (Q : Expr -> Prop) :
  Forall tokOk ts -> (forall e, sound e -> Q e) -> owp (parseExpression ts) Q.
Proof. intros Hts HQ. eapply owp_mono; [by apply parseExpression_ok|]. intros e He. by apply HQ. Qed.

Lemma owp_commandArgs ts (Q : list Expr -> Prop) :
  Forall tokOk ts -> (forall l, Forall sound l -> Q l) -> owp (parseCommandArgs ts) Q.
Proof. intros Hts HQ. eapply owp_mono; [by apply parseCommandArgs_ok|]. intros e He. by apply HQ. Qed.

Lemma parseCondition_ok c : cok c -> wp parseCondition (post sound c) c.
Proof.
  intros Hc. unfold parseCondition. wps. eapply wp_mono; [by apply collecting_ok|].
  intros [r d] c' (? & ? & ? & _). cbn [fst sepEnds] in *. wps. destruct r; wps.
  apply owp_expression; [done|]. intros e He. wp_done.
Qed.

(** ** Names and parameters *)

Lemma parenNames_ok fuel openTok names seen c :
  cok c -> weight (rest c) < fuel -> wp (parenNames fuel openTok names seen) (post (fun _ => True) c) c.
Proof.
  revert names seen c. induction fuel as [|fuel IH]; intros names seen c Hc Hf; [lia|]. cbn [parenNames].
  wps. wp_call wp_skipWhile. wps; [wp_done|]. wp_call IH. wp_done.
Qed.

Lemma parseParenNameList_ok l t ts :
  cok (MkCursor l (t :: ts)) ->
  wp parseParenNameList (postS (fun r => tokOk r.2) (MkCursor l (t :: ts))) (MkCursor l (t :: ts)).
Proof.
  intros [Hts Hl]. cbn [rest last] in *. apply Forall_cons_1 in Hts as [Ht Hts].
  unfold parseParenNameList. wps. wp_call parenNames_ok. wps; wp_done.
Qed.

Lemma parseForEachNameToken_ok t0 c : cok c -> wp (parseForEachNameToken t0) (postS (fun _ => True) c) c.
Proof. intros Hc. unfold parseForEachNameToken. wps; wp_done. Qed.

Lemma forEachNames_ok fuel feTok openTok names seen c :
  cok c -> weight (rest c) < fuel ->
  wp (forEachNames fuel feTok openTok names seen) (post (fun _ => True) c) c.
Proof.
  revert names seen c. induction fuel as [|fuel IH]; intros names seen c Hc Hf; [lia|]. cbn [forEachNames].
  wps. wp_call wp_skipWhile. wps; [wp_done|]. wp_call parseForEachNameToken_ok. wps. wp_call IH. wp_done.
Qed.

Lemma parseForEachNames_ok feTok c : cok c -> wp (parseForEachNames feTok) (postS (fun _ => True) c) c.
Proof.
  intros Hc. unfold parseForEachNames, parseForEachDestructureNames. wps.
  - wp_call forEachNames_ok. wps; wp_done.
  - wp_call parseForEachNameToken_ok. wps; wp_done.
Qed.

Lemma paramName_ok t : owp (paramName t) (fun _ => True).
Proof. unfold paramName. by wps. Qed.

Lemma defParams_ok fuel loc params seen c :
  cok c -> weight (rest c) < fuel -> wp (defParams fuel loc params seen) (post (fun _ => True) c) c.
Proof.
  revert params seen c. induction fuel as [|fuel IH]; intros params seen c Hc Hf; [lia|]. cbn [defParams].
  wps. wp_call wp_skipWhile. wps; [wp_done|]. eapply owp_mono; [apply paramName_ok|].
  intros [name annotated] _. wps.
  - wp_call wp_skipWhile. wps. wp_call IH. wp_done.
  - wp_call IH. wp_done.
Qed.

(** ** Statements without blocks *)

(** A parser of a statement, at its first token. *)
Definition stmtGood (p : P Stmt) : Prop :=
  forall l t ts, cok (MkCursor l (t :: ts)) ->
  wp p (postS stmtSound (MkCursor l (t :: ts))) (MkCursor l (t :: ts)).

Ltac stmt_start :=
  let Hts := fresh "Hts" in let Ht := fresh "Ht" in let Hl := fresh "Hl" in
  intros l t ts [Hts Hl]; cbn [rest last] in *; apply Forall_cons_1 in Hts as [Ht Hts].

Ltac take H :=
  eapply wp_mono; [apply H; eauto with parser|];
  let toks := fresh "toks" in let c := fresh "c" in intros toks c (? & ? & ?); cbn [rest] in *.

Lemma commandOf_ok toks args c :
  Forall tokOk toks -> toks <> [] -> Forall sound args -> cok c ->
  wp (commandOf toks args) (post commandSound c) c.
Proof.
  intros Htoks Hne Ha Hc. destruct toks as [|t toks]; [done|]. apply Forall_cons_1 in Htoks as [Ht _].
  unfold commandOf. change (default zeroToken (head (t :: toks))) with t. wps; wp_done.
Qed.

Lemma parseAssertClause_ok kw c : cok c -> wp (parseAssertClause kw) (post clauseSound c) c.
Proof.
  intros Hc. unfold parseAssertClause. wps. eapply wp_mono; [by apply collecting_ok|].
  intros [r d] c' (Hr & ? & ? & _). cbn [fst sepEnds] in *. destruct r as [|t ts]; wps.
  assert (wp (let% e := pwrap "%s" (lift (parseExpression (t :: ts))) in pret (AssertExprClause e))
            (post clauseSound c) c') as Hexpr.
  { wps. apply owp_expression; [done|]. intros e He. wps; wp_done. }
  destruct (if isKeywordWord t "not" then ts else t :: ts) as [|h args] eqn:E; [apply Hexpr|].
  assert (Forall tokOk (h :: args)) as Hh.
  { rewrite <- E. destruct (isKeywordWord t "not"); [by apply Forall_cons_1 in Hr as [_ ?]|done]. }
  destruct (isAssertCommandHead h); [|apply Hexpr]. apply Forall_cons_1 in Hh as [? ?]. wps.
  apply owp_commandArgs; [done|]. intros l Hl. wps; wp_done.
Qed.

Lemma parseAssertStmt_ok b : stmtGood (parseAssertStmt b).
Proof. stmt_start. unfold parseAssertStmt. wps. wp_call parseAssertClause_ok. wps; wp_done. Qed.

Lemma parseExprStmt_ok : stmtGood parseExprStmt.
Proof.
  stmt_start. unfold parseExprStmt. wps. take takeStmtTokens_ok. destruct toks; wps.
  apply owp_expression; [done|]. intros e He. wps; wp_done.
Qed.

Lemma parseBareStmt_ok mk : (forall s, spanOk s -> stmtSound (mk s)) -> stmtGood (parseBareStmt mk).
Proof. intros Hmk. stmt_start. unfold parseBareStmt, rejectTrailingArgs. wps; wp_done. Qed.

Lemma parseDeferStmt_ok : stmtGood parseDeferStmt.
Proof.
  stmt_start. unfold parseDeferStmt. wps. take takeStmtTokens_ok. destruct toks; wps.
  apply owp_commandArgs; [done|]. intros args Ha. wps. wp_call commandOf_ok. wps; wp_done.
Qed.

Lemma parseReturnStmt_ok : stmtGood parseReturnStmt.
Proof.
  stmt_start. unfold parseReturnStmt. wps. take takeStmtTokens_ok. destruct toks; wps.
  apply owp_expression; [done|]. intros e He. wps; wp_done.
Qed.

Lemma splitUnless_ok toks :
  Forall tokOk toks -> Forall tokOk (splitUnless toks).1 /\
  match (splitUnless toks).2 with Some u => Forall tokOk u | None => True end.
Proof.
  induction 1 as [|t toks Ht Hts IH]; cbn [splitUnless]; [done|].
  destruct (isKeywordWord t "unless"); [done|]. destruct (splitUnless toks) as [m u]. simpl in *.
  destruct IH. split; [by constructor|done].
Qed.

Lemma parseRetryStmt_ok : stmtGood parseRetryStmt.
Proof.
  stmt_start. unfold parseRetryStmt. wps. take takeStmtTokens_ok.
  pose proof (splitUnless_ok toks) as [Hm Hu]; [done|]. destruct (splitUnless toks) as [m u]. simpl in Hm, Hu.
  assert (forall o, optionSound o -> wp match u with
    | None => pret None
    | Some [] => pfail (spanErr (tokSpan t) "retry unless requires a condition expression")
    | Some us => let% e := pwrap "retry" (lift (parseExpression us)) in pret (Some e)
    end (fun a => wp (let% sp := spanFrom (Start (tokSpan t)) in pret (RetryStmt o a sp))
          (postS stmtSound (MkCursor l (t :: ts)))) c) as Hunless.
  { intros o Ho. destruct u as [[|t' u]|]; [done| |wps].
    - wps. apply owp_expression; [done|]. intros e He. wps; wp_done.
    - wp_done. }
  wps; [by apply Hunless, none_sound|]. apply owp_expression; [done|]. intros e He. wps. by apply Hunless.
Qed.

Lemma parseDurationWord_ok t0 c : cok c -> wp (parseDurationWord t0) (postS (fun _ => True) c) c.
Proof. intros Hc. unfold parseDurationWord. wps. destruct (ParseDuration _); wps; wp_done. Qed.

Lemma parsePollClauses_ok t0 c : cok c -> wp (parsePollClauses t0) (postS (fun _ => True) c) c.
Proof.
  intros Hc. unfold parsePollClauses. wps. wp_call parseDurationWord_ok. wps.
  wp_call parseDurationWord_ok. wps; wp_done.
Qed.

(** ** Statements with blocks *)

Section blocks.
Context (block : P (list Stmt)) (n : nat).
Hypothesis (Hblock : forall c, cok c -> weight (rest c) < n -> wp block (postS (Forall stmtSound) c) c).

(** A parser of a statement that fits within [n]. *)
Definition goodWithin {A} (Q : A -> Prop) (p : P A) : Prop :=
  forall l t ts, cok (MkCursor l (t :: ts)) -> weight (t :: ts) <= n ->
  wp p (postS Q (MkCursor l (t :: ts))) (MkCursor l (t :: ts)).

Lemma parseForEach_ok : goodWithin forEachSound (parseForEach block).
Proof.
  stmt_start. intros Hn. unfold parseForEach. wps. wp_call parseForEachNames_ok. wps.
  take takeUntilOpenBrace_ok. wps. apply owp_expression; [done|]. intros e He. wps.
  wp_call Hblock. wps; wp_done.
Qed.

Lemma parseForEachStmt_ok : goodWithin stmtSound (parseForEachStmt block).
Proof. stmt_start. intros Hn. unfold parseForEachStmt. wps. wp_call parseForEach_ok. wps; wp_done. Qed.

Lemma bindCommand_ok bindTok loc target guard l t ts c :
  posOk loc -> cok c -> weight (rest c) <= weight ts ->
  wp (takeBindRHSTokens bindTok) (fun toks => wp
     (let% args := lift (parseCommandArgs toks) in
      let% cmd := commandOf toks args in
      let% sp := spanFrom loc in
      pret (BindStmt target (BindCommand cmd) guard sp)) (postS stmtSound (MkCursor l (t :: ts)))) c.
Proof.
  intros Hloc Hc Hw. eapply wp_mono; [by apply takeBindRHSTokens_ok|]. intros toks c' [(Htoks & Hc' & Hw') Hne].
  wps. apply owp_commandArgs; [done|]. intros args Ha. wps. wp_call commandOf_ok. wps; wp_done.
Qed.

Lemma parseBindRHS_ok loc target guard :
  posOk loc -> goodWithin stmtSound (parseBindRHS block loc target guard).
Proof.
  intros Hloc. stmt_start. intros Hn. unfold parseBindRHS. wps.
  - wp_call parseForEach_ok. destruct (reverse (forEachBody a)) as [|[]]; wps; wp_done.
  - apply bindCommand_ok; eauto with parser.
Qed.

Lemma parseLetRHS_ok letTok msg l t ts :
  cok (MkCursor l (t :: ts)) ->
  wp (parseLetRHS letTok msg) (postS sound (MkCursor l (t :: ts))) (MkCursor l (t :: ts)).
Proof.
  intros [Hts Hl]. cbn [rest last] in *. apply Forall_cons_1 in Hts as [Ht Hts]. unfold parseLetRHS. wps.
  take takeStmtTokens_ok. wps. apply owp_expression; [done|]. intros e He. wp_done.
Qed.

Lemma parseLetDestructure_ok letTok : tokOk letTok -> stmtGood (parseLetDestructure letTok).
Proof.
  intros Hlet. stmt_start. unfold parseLetDestructure. wps. wp_call parseParenNameList_ok.
  destruct a as [names openTok]. cbn [snd] in *. wps. destruct (tokKind t0); wps.
  wp_call parseLetRHS_ok. wps; wp_done.
Qed.

Lemma parseLetStmt_ok : goodWithin stmtSound (parseLetStmt block).
Proof.
  stmt_start. intros Hn. unfold parseLetStmt. wps.
  - wp_call parseLetDestructure_ok. wp_done.
  - destruct (tokKind t1); wps.
    + wp_call parseLetRHS_ok. wps; wp_done.
    + wp_call parseBindRHS_ok. wp_done.
Qed.

Lemma parseGuardStmt_ok : goodWithin stmtSound (parseGuardStmt block).
Proof. stmt_start. intros Hn. unfold parseGuardStmt. wps. wp_call parseBindRHS_ok. wp_done. Qed.

Lemma parseDefStmt_ok : goodWithin stmtSound (parseDefStmt block).
Proof.
  stmt_start. intros Hn. unfold parseDefStmt, parseDefParams. wps. wp_call defParams_ok. wps.
  wp_call wp_skipWhile. wps. wp_call Hblock. wps; wp_done.
Qed.

Lemma parsePollStmt_ok : goodWithin stmtSound (parsePollStmt block).
Proof.
  stmt_start. intros Hn. unfold parsePollStmt. wps. wp_call parsePollClauses_ok. destruct a. wps.
  wp_call Hblock. wps; wp_done.
Qed.

Lemma ifBranches_ok fuel ifTok cond then_ elifs end_ c :
  tokOk ifTok -> posOk end_ -> sound cond -> Forall stmtSound then_ -> Forall branchSound elifs ->
  cok c -> weight (rest c) < n -> weight (rest c) < fuel ->
  wp (ifBranches block fuel ifTok cond then_ elifs end_) (post stmtSound c) c.
Proof.
  intros Hif He Hcond Hthen. revert elifs end_ He c.
  induction fuel as [|fuel IH]; intros elifs end_ He c Helifs Hc Hn Hf; [lia|]. cbn [ifBranches].
  wps. wp_call wp_skipWhile. wps.
  - wp_done.
  - wp_call parseCondition_ok. wps. wp_call Hblock. wps. wp_call IH. wp_done.
  - wp_call Hblock. wps; wp_done.
  - wp_done.
Qed.

Lemma parseIfStmt_ok : goodWithin stmtSound (parseIfStmt block).
Proof.
  stmt_start. intros Hn. unfold parseIfStmt. wps. wp_call parseCondition_ok. wps. wp_call Hblock. wps.
  wp_call ifBranches_ok. wp_done.
Qed.

(** A statement, or nothing when nothing was taken. *)
Definition stmtPost (c : cursor) (o : option Stmt) (c' : cursor) : Prop :=
  match o with
  | Some st => postS stmtSound c st c'
  | None => rest c' = rest c
  end.

Lemma parseCommandStmt_ok l t ts :
  cok (MkCursor l (t :: ts)) ->
  wp parseCommandStmt (stmtPost (MkCursor l (t :: ts))) (MkCursor l (t :: ts)).
Proof.
  intros Hc. assert (tokOk t) as Ht by (destruct Hc as [Hts _]; by apply Forall_cons_1 in Hts as [? _]).
  unfold parseCommandStmt. wps. eapply wp_mono; [by apply collecting_ok|].
  intros [r d] c' (Hr & Hc' & Hw & _ & _ & Hsame). cbn [fst sepEnds rest] in *. destruct r as [|t' r]; wps.
  - by apply Hsame.
  - apply owp_commandArgs; [done|]. intros args Ha. wps. unfold stmtPost. wp_done.
Qed.

Lemma parseStmt_ok l t ts :
  cok (MkCursor l (t :: ts)) -> weight (t :: ts) <= n ->
  wp (parseStmt block) (stmtPost (MkCursor l (t :: ts))) (MkCursor l (t :: ts)).
Proof.
  intros Hc Hn. unfold parseStmt. do 2 wp_step. cbv zeta.
  assert (forall p, wp p (postS stmtSound (MkCursor l (t :: ts))) (MkCursor l (t :: ts)) ->
    wp (let% st := p in pret (Some st)) (stmtPost (MkCursor l (t :: ts))) (MkCursor l (t :: ts))) as Hsome.
  { intros p Hp. apply wp_bind. eapply wp_mono; [exact Hp|]. done. }
  repeat match goal with
  | |- wp (if isKeywordWord t ?kw then _ else _) _ _ => destruct (isKeywordWord t kw); [try apply Hsome|]
  end;
  [by apply parseIfStmt_ok|by apply parseLetStmt_ok|by apply parseForEachStmt_ok|by apply parseRetryStmt_ok
  |by apply parsePollStmt_ok|by apply parseReturnStmt_ok| | |by apply parseGuardStmt_ok|by apply parseDeferStmt_ok
  |by apply parseDefStmt_ok|].
  1-2: apply parseBareStmt_ok; [|done]; intros s Hs; apply Forall_cons_2; [exact Hs|constructor].
  destruct (wordIn t ["assert"; "require"]%string); [by apply Hsome, parseAssertStmt_ok|].
  destruct (leadsExpression t); [by apply Hsome, parseExprStmt_ok|].
  destruct (isKeywordWord t "["); [done|]. by apply parseCommandStmt_ok.
Qed.

Lemma wp_remaining (Q : nat -> cursor -> Prop) c : Q (length (rest c)) c -> wp remaining Q c.
Proof. done. Qed.

Lemma parseStmts_ok fuel inBlock stmts c :
  Forall stmtSound stmts -> cok c -> weight (rest c) <= n -> weight (rest c) < fuel ->
  wp (parseStmts block fuel inBlock stmts) (post (Forall stmtSound) c) c.
Proof.
  revert stmts c. induction fuel as [|fuel IH]; intros stmts c Hs Hc Hn Hf; [lia|]. cbn [parseStmts].
  wps. wp_call wp_skipWhile. wps; [wp_done..|]. apply wp_remaining. wps.
  eapply wp_mono; [apply parseStmt_ok; [eauto with parser|weights]|]. intros [st|] c' Hst; cbn [stmtPost] in Hst.
  - destruct Hst as (? & ? & ?). wps. apply wp_remaining. wp_call IH. wp_done.
  - wps. apply wp_remaining. rewrite Hst. rewrite Nat.eqb_refl. wps.
Qed.

Lemma blockBody_ok c :
  cok c -> weight (rest c) <= n -> wp (blockBody block) (postS (Forall stmtSound) c) c.
Proof. intros Hc Hn. unfold blockBody. wps. wp_call parseStmts_ok. wps; wp_done. Qed.
End blocks.

Lemma parseBlock_from_ok fuel c :
  cok c -> weight (rest c) < fuel -> wp (parseBlock_from fuel) (postS (Forall stmtSound) c) c.
Proof.
  revert c. induction fuel as [|fuel IH]; intros c Hc Hf; [lia|]. cbn [parseBlock_from].
  apply blockBody_ok with fuel; [|done|lia]. intros. by apply IH.
Qed.

(** ** Programs *)

Lemma parseProgram_ok tokens :
  Forall tokOk tokens -> owp (parseProgram tokens) (fun prog => Forall spanOk (walkProgram prog)).
Proof.
  intros Hts. unfold parseProgram. cbv zeta. set (start := match tokens with [] => _ | _ => _ end).
  set (n := S (weight tokens)).
  assert (wp (looping (fun n => parseStmts (parseBlock_from n) n false [])) (fun stmts c =>
    Forall stmtSound stmts /\ cok c /\ (tokens = [] -> stmts = [])) (MkCursor None tokens)) as Hp.
  { destruct tokens as [|t ts]; [by split_and!|]. apply wp_looping. cbn [rest].
    eapply wp_mono; [apply (parseStmts_ok (parseBlock_from n) n)|].
    - intros c Hc Hw. by apply parseBlock_from_ok.
    - done.
    - by split.
    - unfold n. cbn [rest]. lia.
    - cbn [rest]. lia.
    - intros stmts c (? & ? & _). by split_and!. }
  unfold wp, pbind, spanFrom, pret in *. destruct (looping _ _) as [[stmts c]| |]; [|done..].
  cbn [owp obind fst snd] in *. destruct Hp as (Hs & Hc & Hnil). unfold walkProgram. cbn [progStmts progSpan].
  destruct stmts as [|st stmts]; [constructor|].
  destruct tokens as [|t ts]; [by specialize (Hnil eq_refl)|]. apply Forall_cons_1 in Hts as [Ht Hts].
  constructor; [unfold start; eauto 20 with parser|by apply Forall_walk].
Qed.

Lemma spanOk_complete s : spanOk s -> incompleteSpan s = false.
Proof. intros [[? ?] [? ?]]. unfold incompleteSpan. rewrite !orb_false_iff, !Z.eqb_neq. lia. Qed.

Lemma validateLocs_ok prog : Forall spanOk (walkProgram prog) -> validateLocs prog = None.
Proof.
  intros Hs. unfold validateLocs. assert (existsb incompleteSpan (walkProgram prog) = false) as ->; [|done].
  induction Hs as [|s l Hs _ IH]; [done|]. cbn [existsb]. by rewrite spanOk_complete.
Qed.

Lemma Parse_ok tokens : Forall tokOk tokens -> Parse tokens = parseProgram tokens /\ Parse tokens <> OutOfFuel.
Proof.
  intros Hts. unfold Parse. pose proof (parseProgram_ok tokens Hts) as Hp.
  destruct (parseProgram tokens) as [prog| |]; [|done..]. cbn [owp obind] in *. by rewrite validateLocs_ok.
Qed.

(** C32: a script is parsed in finite time. On every input in which no interpolation
    body holds a double quote, tokenising and parsing return: with a program or with
    an error, the same whatever the number of iterations the tokeniser is allowed
    beyond one for each byte. No loop of the parser stalls, and no recursion through
    parentheses, lists, records, matches blocks, interpolations or statement blocks
    goes deeper than the tokens allow. *)
Theorem script_parse_returns (start : Pos) (input : bytes)
  (Hplain : plainBodies (stripComment input) = true) :
  exists r, r <> OutOfFuel /\ forall fuel, length input < fuel -> parseScript fuel start input = r.
Proof.
  exists (parseScript (S (length input)) start input).
  pose proof (tokeniseAt_returns start input Hplain) as Hr. unfold parseScript. split.
  - destruct (tokeniseAt _ _ _) as [toks| |] eqn:E; [|done..]. apply Parse_ok. by eapply tokeniseAt_ok.
  - intros fuel Hf. replace fuel with (S (length input) + (fuel - S (length input))) by lia.
    by rewrite tokeniseAt_mono.
Qed.

(** C33: positions are never lost. For every input in which no interpolation body
    holds a double quote (the comment pass and the string lexer then agree on where
    its strings end) and that is tokenised, every node of the parsed program has a complete span: the
    line and column of its start and of its end, counted from one. So Parse never
    returns its internal error about incomplete source spans. *)
Theorem script_spans_complete (fuel : nat) (start : Pos) (input : bytes) (tokens : list Token)
  (Hplain : plainBodies (stripComment input) = true)
  (Hlex : tokeniseAt fuel start input = Done tokens) :
  Parse tokens = parseProgram tokens /\
  forall prog, Parse tokens = Done prog ->
    Forall (fun s => (0 < Line (Start s) /\ 0 < Col (Start s) /\ 0 < Line (End_ s) /\ 0 < Col (End_ s))%Z)
      (walkProgram prog).
Proof.
  pose proof (tokeniseAt_ok _ _ _ _ Hplain Hlex) as Hts. destruct (Parse_ok tokens Hts) as [Heq _].
  split; [done|]. intros prog. rewrite Heq. intros Hp. pose proof (parseProgram_ok tokens Hts) as Hs.
  rewrite Hp in Hs. eapply Forall_impl; [exact Hs|]. intros s [[? ?] [? ?]]. done.
Qed.
End statements.
