(* ===== verification/SourceFmt.v ===== *)
(** * The expression formatter

    sourcefmt.go: how an expression is written back as source. A writer appends to
    a strings.Builder; here it is the bytes it appends. *)

From Stdlib Require Import ZArith Lia Ascii.
From stdpp Require Import base tactics list strings option.
From S2P Require Import Prelude Lexer Literals Ast.

Definition indentUnit : bytes := B "    ".

Definition writeSourceIndent (indent : nat) : bytes := concat (repeat indentUnit indent).

Definition parens (s : bytes) : bytes := "("%char :: s ++ [")"%char].

(** [for i, x := range l { if i > 0 { WriteByte(' ') }; write(x) }] *)
Fixpoint spaced (l : list bytes) : bytes :=
  match l with
  | [] => []
  | [s] => s
  | s :: l => s ++ [space] ++ spaced l
  end.

(** [for _, x := range l { WriteByte(' '); write(x) }] *)
Definition eachSpaced (l : list bytes) : bytes := concat (map (cons space) l).

(** The cases of writeExprAtomSource, writePureCallArgSource and writeListElemSource
    that are written between parentheses. *)
Definition atomParens (e : Expr) : bool :=
  match e with
  | BinaryExpr _ _ _ _ | LogicalExpr _ _ _ _ | ThreadExpr _ _ _ _ | UnaryExpr _ _ _ | NotExpr _ _
  | NegateExpr _ _ | MatchesExpr _ _ _ => true
  | _ => false
  end.
Definition argParens (e : Expr) : bool :=
  match e with
  | LiteralExpr _ _ _ | VarRefExpr _ _ _ | AdapterExpr _ _ _ _ | InterpStringExpr _ _ | ListExpr _ _
  | RecordExpr _ _ => false
  | _ => true
  end.
Definition elemParens (e : Expr) : bool :=
  match e with PureCallExpr _ _ _ => false | _ => argParens e end.

Definition parensIf (b : bool) (s : bytes) : bytes := if b then parens s else s.

Definition entryPath (ent : MatchEntry) : bytes :=
  match ent with MatchPattern p _ _ | MatchSubBlock p _ _ | MatchPredicate p _ _ => p end.

Definition matchesHead (exhaustive : bool) : bytes :=
  B "matches" ++ (if exhaustive then B " exhaustive" else []).

(** The loop over the entries of a block, with the value of an entry as [value]. *)
Fixpoint writeEntries (value : MatchEntry -> bytes) (first : bool) (entries : list MatchEntry) : bytes :=
  match entries with
  | [] => []
  | ent :: entries' =>
    (if first then [] else [newline]) ++ [space] ++ entryPath ent ++ B ": " ++ value ent ++
    writeEntries value false entries'
  end.

Fixpoint writeExprSource (e : Expr) : bytes :=
  let atom e := parensIf (atomParens e) (writeExprSource e) in
  let elem e := parensIf (elemParens e) (writeExprSource e) in
  match e with
  | LiteralExpr text quoted _ => if quoted then writeQuotedLiteralSource text else text
  | VarRefExpr name path _ => dollar :: name ++ writeVarPathSource path
  | AdapterExpr adapter name path _ => adapter ++ [":"%char; dollar] ++ name ++ writeVarPathSource path
  | InterpStringExpr segments _ =>
    [dquote] ++ concat (map (fun seg =>
      match seg with
      | SegLiteral text => writeDoubleQuotedContent text
      | SegExpr e =>
        [dollar; lbrace] ++
        match e with
        | VarRefExpr name path _ => name ++ writeVarPathSource path
        | AdapterExpr adapter name path _ => adapter ++ [":"%char] ++ name ++ writeVarPathSource path
        | _ => writeExprSource e
        end ++ [rbrace]
      end) segments) ++ [dquote]
  | BinaryExpr l op r _ | LogicalExpr op l r _ => atom l ++ [space] ++ op ++ [space] ++ atom r
  | UnaryExpr pred e _ => pred ++ [space] ++ atom e
  | ThreadExpr lhs args _ _ => atom lhs ++ B " |>" ++ eachSpaced (map writeExprSource args)
  | NotExpr e _ => B "not " ++ atom e
  | NegateExpr e _ => "-"%char :: atom e
  | PureCallExpr name args _ =>
    name ++ eachSpaced (map (fun a => parensIf (argParens a) (writeExprSource a)) args)
  | MatchesExpr target block _ => atom target ++ [space] ++ writeMatchesBlockSource block
  | ListExpr elems _ => [lbracket] ++ spaced (map elem elems) ++ [rbracket]
  | RecordExpr fields _ =>
    B "record {" ++
    spaced (map (fun f => match f with MkRecordField name e _ => name ++ B ": " ++ elem e end) fields) ++
    [rbrace]
  end
with writeMatchesBlockSource (m : MatchesBlockExpr) : bytes :=
  match m with
  | MkMatchesBlock entries exhaustive _ =>
    matchesHead exhaustive ++ B " {" ++
    writeEntries (fun ent =>
      match ent with
      | MatchPredicate _ pred _ => pred
      | MatchSubBlock _ sub _ => writeMatchesBlockSource sub
      | MatchPattern _ e _ => writeExprSource e
      end) true entries ++
    (if bool_decide (entries = []) then [] else [space]) ++ [rbrace]
  end.

Definition writeExprAtomSource (e : Expr) : bytes := parensIf (atomParens e) (writeExprSource e).
Definition writePureCallArgSource (e : Expr) : bytes := parensIf (argParens e) (writeExprSource e).
Definition writeListElemSource (e : Expr) : bytes := parensIf (elemParens e) (writeExprSource e).

Definition FormatExprSource (e : Expr) : bytes := writeExprSource e.

(** ** Matches blocks over several lines *)

Definition matchesPathWidth (entries : list MatchEntry) : nat :=
  foldl (fun width ent => if width <? length (entryPath ent) then length (entryPath ent) else width) 0 entries.

Definition writeMatchesValuePadding (ent : MatchEntry) (width : nat) : bytes :=
  repeat space (width - length (entryPath ent)).

Fixpoint writeMatchesBlockSourceIndented (m : MatchesBlockExpr) (indent : nat) : bytes :=
  match m with
  | MkMatchesBlock [] exhaustive _ => matchesHead exhaustive ++ B " { }"
  | MkMatchesBlock entries exhaustive _ =>
    matchesHead exhaustive ++ B " {" ++ [newline] ++
    concat (map (fun ent =>
      writeSourceIndent (S indent) ++ entryPath ent ++ B ": " ++
      match ent with
      | MatchPredicate _ pred _ => writeMatchesValuePadding ent (matchesPathWidth entries) ++ pred
      | MatchSubBlock _ sub _ => writeMatchesBlockSourceIndented sub (S indent)
      | MatchPattern _ e _ => writeMatchesValuePadding ent (matchesPathWidth entries) ++ writeExprSource e
      end ++ [newline]) entries) ++
    writeSourceIndent indent ++ [rbrace]
  end.

Definition FormatExprSourceIndented (e : Expr) (indent : nat) : bytes :=
  match e with
  | MatchesExpr target block _ =>
    writeExprAtomSource target ++ [space] ++ writeMatchesBlockSourceIndented block indent
  | _ => writeExprSource e
  end.
