(* ===== verification/Format.v ===== *)
(** * The source formatter

    format.go: a program written back in canonical form, with the comments and the
    blank lines of the source it was parsed from. The formatter reads the source's
    lines and appends to a strings.Builder; its methods are the bytes they append. *)

From Stdlib Require Import ZArith Lia Ascii.
From stdpp Require Import base tactics list strings option.
From S2P Require Import Prelude Lexer Literals Ast SourceFmt.

(** ** Lines *)

(** ReplaceAll of [\r\n] by [\n] and then of [\r] by [\n]. *)
Fixpoint unixLines (src : bytes) : bytes :=
  match src with
  | [] => []
  | c :: src' =>
    if (c =? return_)%char then
      newline :: match src' with
                 | d :: src'' => if (d =? newline)%char then unixLines src'' else unixLines src'
                 | [] => []
                 end
    else c :: unixLines src'
  end.

(** [strings.Split(src, "\n")] *)
Fixpoint splitNewlines (src : bytes) : list bytes :=
  match src with
  | [] => [[]]
  | c :: src' =>
    if (c =? newline)%char then [] :: splitNewlines src'
    else match splitNewlines src' with
         | line :: lines => (c :: line) :: lines
         | [] => [[c]]
         end
  end.

Definition splitSourceLines (src : bytes) : list bytes :=
  let lines := splitNewlines (unixLines src) in
  match reverse lines with
  | [] :: init => reverse init
  | _ => lines
  end.

Definition isCommentOnlyLine (line : bytes) : bool :=
  match TrimSpaceBytes line with c :: _ => (c =? hash)%char | [] => false end.

(** The text from the first hash that stripComment blanks out. *)
Fixpoint lineComment_from (line stripped : bytes) : bytes :=
  match line, stripped with
  | c :: line', s :: stripped' =>
    if (c =? hash)%char && (s =? space)%char then TrimSpaceBytes line else lineComment_from line' stripped'
  | _, _ => []
  end.
Definition lineComment (line : bytes) : bytes :=
  let stripped := stripComment line in
  if bool_decide (stripped = line) then [] else lineComment_from line stripped.

Definition trimRightBlanks (s : bytes) : bytes :=
  reverse (drop (prefix_len (one_of [space; tab]) (reverse s)) (reverse s)).
Definition endsInBackslash (s : bytes) : bool :=
  match reverse (trimRightBlanks s) with c :: _ => (c =? backslash)%char | [] => false end.

(** ** Parts of a statement *)

Definition joinIdentTexts (idents : list Ident) : bytes := spaced (map idText idents).

Definition joinDefParams (params : list DefParam) : bytes :=
  spaced (map (fun p =>
    match dpType p with
    | [] => idText (dpName p)
    | type => idText (dpName p) ++ B ": " ++ type
    end) params).

Definition formatCommandArg (e : Expr) : bytes :=
  match e with
  | LiteralExpr _ _ _ | VarRefExpr _ _ _ | AdapterExpr _ _ _ _ | InterpStringExpr _ _ | ListExpr _ _ =>
    FormatExprSource e
  | _ => parens (FormatExprSource e)
  end.

Definition writeCommandStmt (args : list Expr) : bytes := spaced (map formatCommandArg args).
Definition writeCommandArgGroup (args : list Expr) : bytes := spaced (map formatCommandArg args).
Definition writeCommandArgs (args : list Expr) : bytes := eachSpaced (map formatCommandArg args).

(** The arguments by the line they start on: runs of equal lines. *)
Fixpoint groupLines (currentLine : Z) (group : list Expr) (args : list Expr) : list (list Expr) :=
  match args with
  | [] => [group]
  | arg :: args' =>
    let line := Line (Start (exprSpan arg)) in
    if (line =? currentLine)%Z then groupLines currentLine (group ++ [arg]) args'
    else group :: groupLines line [arg] args'
  end.
Definition commandArgLineGroups (args : list Expr) : list (list Expr) :=
  match args with
  | [] => []
  | arg :: args' => groupLines (Line (Start (exprSpan arg))) [arg] args'
  end.

Definition writeContinuedCommand (prefix : bytes) (args : list Expr) (indent : nat) : bytes :=
  match commandArgLineGroups args with
  | [] => reverse (drop (prefix_len (one_of [space]) (reverse prefix)) (reverse prefix))
  | [group] => prefix ++ writeCommandArgGroup group
  | group :: groups =>
    prefix ++ writeCommandArgGroup group ++ [space; backslash] ++
    (fix go groups :=
       match groups with
       | [] => []
       | [group] => [newline] ++ writeSourceIndent (S indent) ++ writeCommandArgGroup group
       | group :: groups =>
         [newline] ++ writeSourceIndent (S indent) ++ writeCommandArgGroup group ++ [space; backslash] ++ go groups
       end) groups
  end.

Definition assertKeyword (isRequire : bool) : bytes := if isRequire then B "require " else B "assert ".

Definition writeAssertClause (clause : AssertClause) (indent : nat) : bytes :=
  match clause with
  | AssertExprClause e => FormatExprSourceIndented e indent
  | AssertCommandClause head _ args negate =>
    (if negate then B "not " else []) ++ head ++ eachSpaced (map formatCommandArg args)
  end.

Definition bindPrefix (guard : bool) (target : Ident) : bytes :=
  (if guard then B "guard " else B "let ") ++ idText target ++ B " <- ".

Definition writeForEachHeader (fe : ForEach) : bytes :=
  match fe with
  | MkForEach names list _ _ =>
    B "foreach " ++
    match names with
    | [name] => idText name
    | _ => parens (joinIdentTexts names)
    end ++ B " in " ++ FormatExprSource list
  end.

Definition pollHeader (timeout every : Z) : bytes :=
  B "poll timeout " ++ DurationString timeout ++ B " every " ++ DurationString every ++ B " {".
Definition defHeader (name : Ident) (params : list DefParam) : bytes :=
  B "def " ++ idText name ++ ["("%char] ++ joinDefParams params ++ B ") {".

(** ** Without the source *)

(** A body from the newline after its opening brace to its closing brace. *)
Definition writeBody (write : Stmt -> bytes) (indent : nat) (stmts : list Stmt) : bytes :=
  [newline] ++ concat (map (fun st => writeSourceIndent (S indent) ++ write st ++ [newline]) stmts) ++
  writeSourceIndent indent ++ [rbrace].

Fixpoint writeStmt (st : Stmt) (indent : nat) : bytes :=
  let body := writeBody (fun st => writeStmt st (S indent)) indent in
  match st with
  | LetStmt name rhs _ => B "let " ++ idText name ++ B " = " ++ FormatExprSourceIndented rhs indent
  | LetDestructureStmt names rhs _ =>
    B "let (" ++ joinIdentTexts names ++ B ") = " ++ FormatExprSourceIndented rhs indent
  | BindStmt target (BindCollect fe) guard _ => bindPrefix guard target ++ writeForEachStmt fe indent
  | BindStmt target (BindCommand cmd) guard _ => bindPrefix guard target ++ writeCommandStmt (cmdArgs cmd)
  | DeferStmt cmd _ => B "defer" ++ writeCommandArgs (cmdArgs cmd)
  | IfStmt cond then_ elifs els _ =>
    B "if " ++ FormatExprSource cond ++ B " {" ++ body then_ ++
    concat (map (fun br => writeIfBranch br indent) elifs) ++
    (if bool_decide (els = []) then [] else B " else {" ++ body els)
  | CommandStmt cmd => writeCommandStmt (cmdArgs cmd)
  | ExprStmt e _ => parens (FormatExprSource e)
  | ForEachStmt fe => writeForEachStmt fe indent
  | BreakStmt _ => B "break"
  | ContinueStmt _ => B "continue"
  | PollStmt timeout every stmts _ => pollHeader timeout every ++ body stmts
  | RetryStmt message unless _ =>
    B "retry" ++ match message with Some e => space :: FormatExprSource e | None => [] end ++
    match unless with Some e => B " unless " ++ FormatExprSource e | None => [] end
  | DefStmt name params stmts _ => defHeader name params ++ body stmts
  | ReturnStmt e _ => B "return " ++ FormatExprSourceIndented e indent
  | AssertStmt isRequire clause _ => assertKeyword isRequire ++ writeAssertClause clause indent
  end
with writeForEachStmt (fe : ForEach) (indent : nat) : bytes :=
  match fe with
  | MkForEach _ _ stmts _ =>
    writeForEachHeader fe ++ B " {" ++ writeBody (fun st => writeStmt st (S indent)) indent stmts
  end
with writeIfBranch (br : IfBranch) (indent : nat) : bytes :=
  match br with
  | MkIfBranch cond stmts _ =>
    B " elif " ++ FormatExprSource cond ++ B " {" ++ writeBody (fun st => writeStmt st (S indent)) indent stmts
  end.

(** ** With the source *)

Section source.
Context (lines : list bytes).

Definition lineRange (startLine endLine : Z) : list bytes :=
  let lo := (if startLine <? 1 then 1 else startLine)%Z in
  let hi := (if Z.of_nat (length lines) <? endLine then Z.of_nat (length lines) else endLine)%Z in
  take (Z.to_nat (hi - lo + 1)) (drop (Z.to_nat (lo - 1)) lines).

Definition writeTrivia (startLine endLine : Z) : bytes :=
  concat (map (fun text =>
    if bool_decide (TrimSpaceBytes text = []) || isCommentOnlyLine text then text ++ [newline] else [])
    (lineRange startLine endLine)).

Definition writeInteriorComments (startLine endLine : Z) (indent : nat) : bytes :=
  concat (map (fun text =>
    match lineComment text with
    | [] => []
    | comment => writeSourceIndent indent ++ comment ++ [newline]
    end) (lineRange startLine endLine)).

Definition writeLineComment (line : Z) : bytes :=
  match (if (line <? 1)%Z then None else lines !! Z.to_nat (line - 1)) with
  | None => []
  | Some text =>
    if isCommentOnlyLine text then []
    else match lineComment text with
         | [] => []
         | comment => space :: comment
         end
  end.

Definition hasContinuation (startLine endLine : Z) : bool :=
  let hi := (if Z.of_nat (length lines) <? endLine then Z.of_nat (length lines) else endLine)%Z in
  existsb endsInBackslash (lineRange startLine (hi - 1)).

Definition elseLine (els : list Stmt) (sp : Span) : Z :=
  match els with
  | [] => Line (End_ sp)
  | st :: _ =>
    let first := Line (Start (stmtSpan st)) in
    if (1 <? first)%Z then (first - 1)%Z else Line (End_ sp)
  end.

Definition isBlockStmt (st : Stmt) : bool :=
  match st with
  | IfStmt _ _ _ _ _ | ForEachStmt _ | PollStmt _ _ _ _ | DefStmt _ _ _ _ | BindStmt _ (BindCollect _) _ _ => true
  | _ => false
  end.

Definition spanContinues (sp : Span) : bool := hasContinuation (Line (Start sp)) (Line (End_ sp)).
Definition oneLine (sp : Span) : bool := (Line (Start sp) =? Line (End_ sp))%Z.

(** The loop of writeStmtsSource. *)
Fixpoint stmtsSource (write : Stmt -> bytes) (indent : nat) (endLine nextLine : Z) (stmts : list Stmt) : bytes :=
  match stmts with
  | [] => writeTrivia nextLine endLine
  | st :: stmts' =>
    let sp := stmtSpan st in
    writeTrivia nextLine (Line (Start sp) - 1) ++
    (if negb (isBlockStmt st) && negb (spanContinues sp)
     then writeInteriorComments (Line (Start sp) + 1) (Line (End_ sp) - 1) indent else []) ++
    writeSourceIndent indent ++ write st ++ writeLineComment (Line (End_ sp)) ++ [newline] ++
    stmtsSource write indent endLine (Line (End_ sp) + 1) stmts'
  end.

(** A body from after its opening brace: the comment on that line, the statements
    from line [startLine + 1] to [endLine], the closing brace. *)
Definition bodySource (write : Stmt -> bytes) (indent : nat) (startLine endLine : Z) (stmts : list Stmt) : bytes :=
  writeLineComment startLine ++ [newline] ++
  stmtsSource write (S indent) endLine (startLine + 1) stmts ++
  writeSourceIndent indent ++ [rbrace].

(** The line before the next elif or else. *)
Definition branchEnd (elifs : list IfBranch) (els : list Stmt) (sp : Span) (own : Z) : Z :=
  match elifs with
  | MkIfBranch _ _ s :: _ => (Line (Start s) - 1)%Z
  | [] => match els with [] => own | _ => (elseLine els sp - 1)%Z end
  end.

Fixpoint writeStmtSource (st : Stmt) (indent : nat) : bytes :=
  let body := bodySource (fun st => writeStmtSource st (S indent)) indent in
  match st with
  | IfStmt cond then_ elifs els sp =>
    if oneLine sp then writeStmt st indent
    else
      B "if " ++ FormatExprSource cond ++ B " {" ++
      body (Line (Start sp)) (branchEnd elifs els sp (Line (End_ sp) - 1)) then_ ++
      (fix go elifs :=
         match elifs with
         | [] => []
         | MkIfBranch cond stmts s :: elifs =>
           B " elif " ++ FormatExprSource cond ++ B " {" ++
           body (Line (Start s)) (branchEnd elifs els sp (Line (End_ s) - 1)) stmts ++ go elifs
         end) elifs ++
      (if bool_decide (els = []) then []
       else B " else {" ++ body (elseLine els sp) (Line (End_ sp) - 1)%Z els)
  | ForEachStmt fe => writeForEachStmtSource fe indent
  | PollStmt timeout every stmts sp =>
    if oneLine sp then writeStmt st indent
    else pollHeader timeout every ++ body (Line (Start sp)) (Line (End_ sp) - 1)%Z stmts
  | DefStmt name params stmts sp =>
    if oneLine sp then writeStmt st indent
    else defHeader name params ++ body (Line (Start sp)) (Line (End_ sp) - 1)%Z stmts
  | BindStmt target (BindCollect fe) guard sp =>
    if oneLine sp then writeStmt st indent
    else bindPrefix guard target ++ writeForEachStmtSource fe indent
  | BindStmt target (BindCommand cmd) guard sp =>
    if spanContinues sp then writeContinuedCommand (bindPrefix guard target) (cmdArgs cmd) indent
    else writeStmt st indent
  | DeferStmt cmd sp =>
    if spanContinues sp then writeContinuedCommand (B "defer ") (cmdArgs cmd) indent else writeStmt st indent
  | CommandStmt cmd =>
    if spanContinues (cmdSpan cmd) then writeContinuedCommand [] (cmdArgs cmd) indent else writeStmt st indent
  | AssertStmt isRequire (AssertCommandClause head _ args negate) sp =>
    if spanContinues sp then
      assertKeyword isRequire ++ (if negate then B "not " else []) ++ head ++ [space] ++
      writeContinuedCommand [] args indent
    else writeStmt st indent
  | _ => writeStmt st indent
  end
with writeForEachStmtSource (fe : ForEach) (indent : nat) : bytes :=
  match fe with
  | MkForEach _ _ stmts sp =>
    if oneLine sp then writeForEachStmt fe indent
    else
      writeForEachHeader fe ++ B " {" ++
      bodySource (fun st => writeStmtSource st (S indent)) indent (Line (Start sp)) (Line (End_ sp) - 1) stmts
  end.

Definition writeStmtsSource (stmts : list Stmt) (indent : nat) (startLine endLine : Z) : bytes :=
  stmtsSource (fun st => writeStmtSource st indent) indent endLine startLine stmts.
End source.

Definition FormatSource (src : bytes) (prog : Program) : bytes :=
  let lines := splitSourceLines src in
  match progStmts prog with
  | [] => writeTrivia lines 1 (Z.of_nat (length lines))
  | stmts => writeStmtsSource lines stmts 0 1 (Z.of_nat (length lines))
  end.
