(* ===== verification/PrintPieces.v ===== *)
(** * Reading back the pieces of a printed expression

    What tokeniseAt makes of each piece the expression formatter writes, wherever
    the piece stands in the source: a word, an operator, a reference, a quoted
    literal. Pieces are composed by [lexes_app]. *)

From Stdlib Require Import ZArith Lia Ascii.
From stdpp Require Import base tactics list strings option sets.
From S2P Require Import Prelude Lexer LexerPos LexerCover LexerPrint Literals Ast ExprParser SourceFmt.

(** ** Tokens without their positions *)

Definition forgetSeg (s : InterpSegment) : InterpSegment :=
  MkInterpSegment (segLiteral s) (segInner s) zeroSpan (segIsLit s).

(** A token as far as the parser reads it, without its positions. *)
Definition forget (t : Token) : Token :=
  match tokKind t with
  | TokenVarRef => MkToken TokenVarRef [] (tokVarName t) (tokVarPath t) [] [] zeroSpan
  | TokenAdapterRef => MkToken TokenAdapterRef [] (tokVarName t) (tokVarPath t) (tokAdapter t) [] zeroSpan
  | TokenInterpString => MkToken TokenInterpString [] [] [] [] (map forgetSeg (tokSegments t)) zeroSpan
  | k => plainToken k (tokText t)
  end.

Definition word (text : bytes) : Token := plainToken TokenWord text.
Definition W (s : string) : Token := word (B s).

Lemma drop_tail (input : bytes) i c l : drop i input = c :: l -> drop (i + 1) input = l.
Proof. intros H. rewrite (drop_of_drop _ _ 1 _ H). apply drop_0. Qed.

(** ** Pieces *)

(** [stripComment] leaves [s] alone, outside of quotes before and after it. *)
Definition strips (s : bytes) : Prop :=
  forall rest, stripComment_from false false false (s ++ rest) =
               s ++ stripComment_from false false false rest.

(** Wherever the input goes on with [s] and [rest], the main loop reads [s] as
    [toks], in at most one iteration for each byte; when [b], after some token. *)
Definition lexes (b : bool) (s : bytes) (toks : list Token) (rest : bytes) : Prop :=
  forall input base pre i, drop i input = s ++ rest -> (b = true -> pre <> []) ->
  exists ts n, map forget ts = toks /\ n <= length s /\
    forall fuel, tokenLoop (n + fuel) input base pre i =
                 tokenLoop fuel input base (pre ++ ts) (i + length s).

Lemma strips_nil : strips [].
Proof. done. Qed.
Lemma strips_app s s' : strips s -> strips s' -> strips (s ++ s').
Proof. intros H1 H2 rest. by rewrite <- !app_assoc, H1, H2. Qed.

Lemma lexes_nil rest : lexes false [] [] rest.
Proof.
  intros input base pre i _ _. exists [], 0. split_and!; [done|lia|]. intros fuel.
  by rewrite app_nil_r, Nat.add_0_r.
Qed.

Lemma lexes_weaken s toks rest : lexes false s toks rest -> lexes true s toks rest.
Proof. intros H input base pre i Hd _. by apply H. Qed.

Lemma lexes_app b b' s1 t1 s2 t2 rest :
  lexes b s1 t1 (s2 ++ rest) -> lexes b' s2 t2 rest -> (b' = true -> b = true \/ t1 <> []) ->
  lexes b (s1 ++ s2) (t1 ++ t2) rest.
Proof.
  intros H1 H2 Hb input base pre i Hd Hpre. rewrite <- app_assoc in Hd.
  destruct (H1 input base pre i Hd Hpre) as (ts1 & n1 & <- & Hn1 & E1).
  apply (f_equal (drop (length s1))) in Hd. rewrite drop_drop, drop_app_length in Hd.
  destruct (H2 input base (pre ++ ts1) (i + length s1) Hd) as (ts2 & n2 & <- & Hn2 & E2).
  { intros Hb'. destruct (Hb Hb') as [Hbt|Hne]; [by intros [? _]%app_eq_nil; apply Hpre|].
    intros [_ ->]%app_eq_nil. done. }
  exists (ts1 ++ ts2), (n1 + n2). rewrite map_app, length_app. split_and!; [done|lia|]. intros fuel.
  rewrite <- Nat.add_assoc, E1, E2, <- app_assoc. f_equal. lia.
Qed.

(** One iteration that emits a token. *)
Lemma lexes_emit b s tok rest :
  s <> [] ->
  (forall input base pre i ch, drop i input = s ++ rest -> input !! i = Some ch -> (b = true -> pre <> []) ->
     exists tok', forget tok' = tok /\ tokenStep input base pre i ch = Done (Emit tok' (length s))) ->
  lexes b s [tok] rest.
Proof.
  intros Hs Hstep input base pre i Hd Hpre. destruct s as [|c s]; [done|].
  pose proof (lookup_of_drop _ _ _ _ Hd) as Hc. destruct (Hstep _ base pre i c Hd Hc Hpre) as (tok' & <- & E).
  eexists [stamp tok' _], 1. split_and!; [|simpl; lia|].
  - unfold forget, stamp; simpl. by destruct (tokKind tok').
  - intros fuel. cbn [Nat.add tokenLoop]. rewrite Hc, E. done.
Qed.

(** ** Bytes after a piece *)

(** What the formatter writes after a word or a reference. *)
Definition delim (rest : bytes) : Prop :=
  match rest with
  | [] => True
  | c :: _ => c ∈ [space; ")"%char; rbracket; rbrace; newline]
  end.

Lemma delim_false (p : ascii -> bool) rest c :
  forallb (fun c => negb (p c)) [space; ")"%char; rbracket; rbrace; newline] = true ->
  delim rest -> head rest = Some c -> p c = false.
Proof.
  intros Hp Hd Hc. destruct rest as [|d rest]; [done|]. injection Hc as ->.
  rewrite forallb_forall in Hp. apply negb_true_iff, Hp. by apply list_elem_of_In.
Qed.

Section local.
Context (input s rest : bytes) (pos : nat).
Hypothesis (Hd : drop pos input = s ++ rest).

Lemma lookup_local i : i < length s -> input !! (pos + i) = s !! i.
Proof. intros Hi. rewrite <- lookup_drop, Hd. by rewrite lookup_app_l. Qed.

Lemma lookup_after : input !! (pos + length s) = head rest.
Proof.
  rewrite <- lookup_drop, Hd, lookup_app_r, Nat.sub_diag by lia. by destruct rest.
Qed.

Lemma at_local p i : i < length s -> at_ p input (pos + i) = at_ p s i.
Proof. intros. unfold at_. by rewrite lookup_local. Qed.

Lemma at_true_local p i : at_ p s i = true -> at_ p input (pos + i) = true.
Proof. intros H. rewrite at_local; [done|by eapply at_lt]. Qed.

Lemma at_false_local p i :
  (forall c, head rest = Some c -> p c = false) -> i <= length s -> at_ p s i = false -> at_ p input (pos + i) = false.
Proof.
  intros Hr Hi Ha. destruct (decide (i = length s)) as [->|]; [|by rewrite at_local by lia].
  unfold at_. rewrite lookup_after. destruct (head rest) eqn:E; [by apply Hr|done].
Qed.

Lemma prefix_len_local p l r :
  (forall c, head r = Some c -> p c = false) -> prefix_len p (l ++ r) = prefix_len p l.
Proof.
  intros Hr. induction l as [|c l IH]; simpl.
  - destruct r as [|c r]; simpl; [done|]. by rewrite Hr.
  - by rewrite IH.
Qed.

Lemma scan_local p i :
  (forall c, head rest = Some c -> p c = false) -> i <= length s -> scan p input (pos + i) = pos + scan p s i.
Proof.
  intros Hr Hi. unfold scan. rewrite <- drop_drop, Hd, drop_app_le by done.
  rewrite prefix_len_local by done. lia.
Qed.

Lemma slice_local i j : i <= j -> j <= length s -> slice input (pos + i) (pos + j) = slice s i j.
Proof.
  intros Hi Hj. unfold slice. rewrite <- drop_drop, Hd, drop_app_le by lia.
  replace (pos + j - (pos + i)) with (j - i) by lia. rewrite take_app_le; [done|]. rewrite length_drop. lia.
Qed.

(** ** References *)

Hypothesis (Hrest : delim rest).

Ltac sharp := intros ? ?; eapply delim_false; [|exact Hrest|eassumption]; done.

Lemma lexPathIndex_local i next :
  lexPathIndex s i = (next, None) -> i < length s ->
  lexPathIndex input (pos + i) = (pos + next, None) /\ next <= length s.
Proof.
  unfold lexPathIndex. intros Hl Hi. rewrite <- !Nat.add_assoc.
  destruct (at_ (Ascii.eqb dollar) s (i + 1)) eqn:E1.
  - rewrite (at_true_local _ _ E1).
    destruct (at_ isIdentStart s (i + 1 + 1)) eqn:E2; [|done]. cbn [negb] in *.
    rewrite <- !Nat.add_assoc in *. rewrite (at_true_local _ _ E2). cbn [negb].
    pose proof (at_lt _ _ _ E2). rewrite scan_local; [|sharp|lia].
    destruct (at_ (Ascii.eqb rbracket) s _) eqn:E3; [|done]. cbn [negb] in *.
    rewrite (at_true_local _ _ E3). cbn [negb]. injection Hl as <-. apply at_lt in E3. change (1 + 1) with 2 in *. split; [f_equal|]; lia.
  - rewrite at_false_local; [|sharp|lia|done]. rewrite scan_local; [|sharp|lia].
    destruct (scan _ s (i + 1) =? i + 1) eqn:E2; [done|]. apply Nat.eqb_neq in E2.
    rewrite (proj2 (Nat.eqb_neq _ _)) by lia.
    destruct (at_ (Ascii.eqb rbracket) s _) eqn:E3; [|done]. cbn [negb] in *.
    rewrite (at_true_local _ _ E3). cbn [negb]. injection Hl as <-. apply at_lt in E3. split; [f_equal|]; lia.
Qed.

Lemma barePath_local fuel fuel' i j :
  i <= length s -> barePath fuel s i = Done j -> fuel <= fuel' -> barePath fuel' input (pos + i) = Done (pos + j).
Proof.
  revert fuel' i. induction fuel as [|fuel IH]; intros [|fuel'] i Hi Hb Hf; try done; [lia|].
  cbn [barePath] in *. destruct (at_ (Ascii.eqb "."%char) s i) eqn:E1.
  - rewrite (at_true_local _ _ E1). rewrite <- Nat.add_assoc.
    destruct (at_ isIdentStart s (i + 1)) eqn:E2; [|done]. cbn [negb] in *. rewrite (at_true_local _ _ E2).
    cbn [negb]. pose proof (at_lt _ _ _ E2). rewrite scan_local; [|sharp|lia].
    apply IH; [apply scan_le; lia|done|lia].
  - rewrite at_false_local; [|sharp|done|done]. destruct (at_ (Ascii.eqb lbracket) s i) eqn:E2.
    + rewrite (at_true_local _ _ E2). destruct (lexPathIndex s i) as [next [e|]] eqn:E3; [done|].
      apply at_lt in E2. apply lexPathIndex_local in E3 as [-> Hn]; [|done]. apply IH; [done|done|lia].
    + rewrite at_false_local; [|sharp|done|done]. by injection Hb as ->.
Qed.

Lemma lexBareVarRef_local tok :
  lexBareVarRef s 0 = Done (tok, length s) -> lexBareVarRef input pos = Done (tok, length s).
Proof.
  unfold lexBareVarRef. cbn [Nat.add]. destruct (at_ isIdentStart s 1) eqn:E1; [|done]. cbn [negb].
  rewrite (at_true_local _ _ E1). cbn [negb]. pose proof (at_lt _ _ _ E1) as H1.
  rewrite scan_local; [|sharp|lia]. set (n := scan isIdentContinue s 1).
  assert (n <= length s) as Hn by (apply scan_le; lia). assert (1 <= n) by apply scan_ge.
  destruct (barePath _ s n) as [j| |] eqn:E2; [|done..]. cbn [obind]. intros [= Ht Hj].
  assert (length s <= length input) as Hlen.
  { apply (f_equal length) in Hd. rewrite length_drop, length_app in Hd. lia. }
  rewrite (barePath_local _ _ _ _ Hn E2) by lia. cbn [obind].
  assert (j = length s) as -> by lia. do 2 f_equal; [|lia]. rewrite <- Ht. pose proof (slice_local 0 (length s)) as Hs0. rewrite Nat.add_0_r in Hs0.
  rewrite Hs0, !slice_local by lia. done.
Qed.
End local.

(** ** Words *)

(** A text that the lexer reads as one word. *)
Definition wordOk (text : bytes) : bool :=
  match text with
  | [] => false
  | c :: text' =>
    between "033" "126" c && negb (one_of [backslash; "="%char] c) && forallb (fun c => negb (endsWord c)) text &&
    negb ((c =? "|")%char && at_ (Ascii.eqb ">"%char) text 1) &&
    negb ((c =? "<")%char && at_ (Ascii.eqb "-"%char) text 1)
  end.

Lemma wordOk_plain text : wordOk text = true -> Forall (fun c => endsWord c = false) text.
Proof.
  destruct text as [|c text]; [done|]. unfold wordOk. intros H. repeat apply andb_prop in H as [H ?].
  apply Forall_forall. intros d Hd. apply negb_true_iff.
  match goal with Hf : forallb _ _ = true |- _ => rewrite forallb_forall in Hf; apply Hf end.
  by apply list_elem_of_In.
Qed.

Lemma endsWord_false c :
  endsWord c = false -> c ∉ [space; tab; return_; newline; ";"%char; dollar; dquote; squote; hash;
          lbracket; rbracket; lbrace; rbrace; "("%char; ")"%char; "+"%char; "*"%char; "%"%char].
Proof. unfold endsWord. by rewrite one_of_false. Qed.

Lemma strips_plain s : Forall (fun c => c <> hash /\ c <> squote /\ c <> dquote) s -> strips s.
Proof.
  intros Hs rest. induction Hs as [|c s (H1 & H2 & H3) _ IH]; [done|]. cbn [app stripComment_from andb].
  apply eqb_false in H1, H2, H3. rewrite H1, H2, H3, andb_false_r. cbn [andb]. by rewrite IH.
Qed.

Lemma strips_word text : Forall (fun c => endsWord c = false) text -> strips text.
Proof.
  intros H. apply strips_plain. eapply Forall_impl; [exact H|]. intros c Hc%endsWord_false. set_solver.
Qed.

Lemma delim_ends rest c : delim rest -> head rest = Some c -> endsWord c = true.
Proof. destruct rest as [|d rest]; [done|]. simpl. intros Hd [= ->]. apply one_of_spec. set_solver. Qed.

(** A byte that starts a token on its own. *)
Lemma lexes_byte b c rest :
  one_of [lbrace; rbrace; "("%char; ")"%char; "+"%char; "*"%char; "%"%char; lbracket; rbracket] c = true ->
  lexes b [c] [word [c]] rest.
Proof.
  intros Hc. apply lexes_emit; [done|]. intros input base pre i ch Hd Hch _.
  rewrite (lookup_of_drop _ _ _ _ Hd) in Hch. injection Hch as <-. exists (word [c]). split; [done|].
  unfold tokenStep. apply one_of_spec in Hc. unfold word.
  repeat (apply elem_of_cons in Hc as [->|Hc]; [reflexivity|]). set_solver.
Qed.

Lemma lexes_newline b rest : lexes b [newline] [plainToken TokenSep [newline]] rest.
Proof.
  apply lexes_emit; [done|]. intros input base pre i ch Hd Hch _.
  rewrite (lookup_of_drop _ _ _ _ Hd) in Hch. injection Hch as <-. by exists (plainToken TokenSep [newline]).
Qed.

Lemma lexes_space rest : lexes false [space] [] rest.
Proof.
  intros input base pre i Hd _. exists [], 1. split_and!; [done|simpl; lia|]. intros fuel.
  cbn [Nat.add tokenLoop]. by rewrite (lookup_of_drop _ _ _ _ Hd), app_nil_r.
Qed.

Lemma lexes_thread b rest : lexes b (B "|>") [plainToken TokenThread (B "|>")] rest.
Proof.
  apply lexes_emit; [done|]. intros input base pre i ch Hd Hch _.
  rewrite (lookup_of_drop _ _ _ _ Hd) in Hch. injection Hch as <-.
  pose proof (drop_tail _ _ _ _ Hd) as Hd1. apply lookup_of_drop in Hd1.
  exists (plainToken TokenThread (B "|>")). split; [done|]. unfold tokenStep. cbn.
  unfold at_. by rewrite Hd1.
Qed.

Lemma lexes_equal rest : lexes true (B "==") [W "=="] rest.
Proof.
  apply lexes_emit; [done|]. intros input base pre i ch Hd Hch Hpre.
  rewrite (lookup_of_drop _ _ _ _ Hd) in Hch. injection Hch as <-.
  pose proof (drop_tail _ _ _ _ Hd) as Hd1. apply lookup_of_drop in Hd1.
  exists (W "=="). split; [done|]. unfold tokenStep, isTokenStart.
  rewrite bool_decide_false by (by apply Hpre). cbn. unfold at_. by rewrite Hd1.
Qed.

Lemma lexWord_local input text rest pos :
  drop pos input = text ++ rest -> Forall (fun c => endsWord c = false) text ->
  (forall c, head rest = Some c -> endsWord c = true) ->
  lexWord input pos = (word text, length text).
Proof.
  intros Hd Ht Hr. unfold lexWord, scan. rewrite Hd.
  rewrite prefix_len_local by (intros c Hc; by rewrite (Hr c Hc)).
  assert (prefix_len (fun ch => negb (endsWord ch)) text = length text) as ->.
  { clear Hd. induction Ht as [|c text Hc _ IH]; [done|]. simpl. by rewrite Hc, IH. }
  f_equal; [|lia]. unfold word. f_equal. unfold slice. rewrite Hd.
  replace (pos + length text - pos) with (length text) by lia. by rewrite take_app_length.
Qed.

Lemma not_adapter input text rest pos :
  drop pos input = text ++ rest -> Forall (fun c => endsWord c = false) text ->
  (forall c, head rest = Some c -> endsWord c = true) -> (text <> B "file:" \/ head rest <> Some dollar) ->
  lexAdapterRef input pos = Done None.
Proof.
  intros Hd Ht Hr Hf. unfold lexAdapterRef, adapterPrefixes. cbn [lexAdapterRef_in].
  set (full := _ ++ _). destruct (bool_decide _) eqn:E; cbn [negb]; [|done].
  apply bool_decide_eq_true in E. rewrite Hd in E.
  destruct (at_ (Ascii.eqb dollar) input (pos + length full)) eqn:Ea; cbn [negb]; [|done]. exfalso.
  apply at_eqb in Ea. rewrite <- lookup_drop, Hd in Ea.
  assert (Forall (fun c => endsWord c = false) full) as Hfull by (repeat constructor).
  destruct (decide (length text < length full)) as [Hl|Hl].
  - assert (full !! length text = head rest) as Hh.
    { rewrite <- E, lookup_take_lt by done. rewrite lookup_app_r, Nat.sub_diag by lia. by destruct rest. }
    destruct (head rest) as [c|] eqn:Ec; [|apply lookup_ge_None in Hh; lia].
    pose proof (Forall_lookup_1 _ _ _ _ Hfull Hh) as Hc. cbv beta in Hc. by rewrite (Hr c eq_refl) in Hc.
  - destruct (decide (length text = length full)) as [He|He].
    + rewrite take_app_length' in E by done. rewrite lookup_app_r in Ea by lia.
      rewrite He, Nat.sub_diag in Ea. destruct Hf as [Hf|Hf]; [done|]. by destruct rest.
    + rewrite lookup_app_l in Ea by lia. pose proof (Forall_lookup_1 _ _ _ _ Ht Ea) as Hc. done.
Qed.

Lemma lexes_word_gen b text rest :
  wordOk text = true -> (forall c, head rest = Some c -> endsWord c = true) ->
  (text <> B "file:" \/ head rest <> Some dollar) -> (forall c, head rest = Some c -> c <> ">"%char /\ c <> "-"%char) ->
  lexes b text [word text] rest.
Proof.
  intros Hw Hr Hf Hx. pose proof (wordOk_plain _ Hw) as Ht. apply lexes_emit; [by destruct text|].
  intros input base pre i ch Hd Hch _. exists (word text). split; [done|].
  destruct text as [|c text]; [done|]. pose proof (lookup_of_drop _ _ _ _ Hd) as Hc.
  rewrite Hc in Hch. injection Hch as <-.
  pose proof (endsWord_false c) as Hn. specialize (Hn (Forall_inv Ht)).
  unfold wordOk in Hw. repeat apply andb_prop in Hw as [Hw ?].
  repeat match goal with H : negb _ = true |- _ => apply negb_true_iff in H end.
  assert (forall p q, (c =? p)%char && at_ (Ascii.eqb q) (c :: text) 1 = false ->
    (forall d, head rest = Some d -> d <> q) -> (c =? p)%char && at_ (Ascii.eqb q) input (i + 1) = false) as Htwo.
  { intros p q Hpq Hq. apply andb_false_iff in Hpq as [Hp|Hp]; [by rewrite Hp|]. apply andb_false_iff. right.
    apply (at_false_local _ _ _ _ Hd); [|simpl; lia|done]. intros d Hdd. apply not_true_iff_false.
    rewrite eqb_true. intros ->. by eapply Hq. }
  unfold tokenStep.
  assert (forall l, forallb endsWord l = true -> one_of l c = false) as Hone.
  { intros l Hl. apply one_of_false. intros Hin%list_elem_of_In. rewrite forallb_forall in Hl.
    apply Hl in Hin. by rewrite (Forall_inv Ht) in Hin. }
  match goal with H : one_of [backslash; _] c = false |- _ =>
    apply one_of_false in H; rewrite (proj2 (eqb_false c backslash)) by (intros ->; set_solver);
    rewrite (proj2 (eqb_false c "="%char)) by (intros ->; set_solver) end.
  cbn [andb]. rewrite !Hone by done.
  rewrite (proj2 (eqb_false c dollar)) by (intros ->; by inversion Ht).
  rewrite !Htwo by (done || (intros d Hdd; apply Hx in Hdd; tauto)).
  rewrite (not_adapter _ _ _ _ Hd Ht Hr Hf), (lexWord_local _ _ _ _ Hd Ht Hr). done.
Qed.

Lemma lexes_word b text rest : wordOk text = true -> delim rest -> lexes b text [word text] rest.
Proof.
  intros Hw Hd. apply lexes_word_gen; [done| | |].
  - intros c. by apply delim_ends.
  - right. intros Hc. by pose proof (delim_false (Ascii.eqb dollar) rest dollar eq_refl Hd Hc).
  - intros c Hc. split; intros ->;
      [pose proof (delim_false (Ascii.eqb ">"%char) rest _ eq_refl Hd Hc)
      |pose proof (delim_false (Ascii.eqb "-"%char) rest _ eq_refl Hd Hc)]; done.
Qed.

(** A dash before a reference, a bracket or a quote. *)
Lemma lexes_dash b rest :
  match rest with c :: _ => c ∈ ["("%char; lbracket; dollar; dquote; squote] | [] => False end ->
  lexes b ["-"%char] [W "-"] rest.
Proof.
  intros Hr. destruct rest as [|c rest]; [done|]. apply (lexes_word_gen b ["-"%char]); [done| |by left|];
    intros d [= <-]; [apply one_of_spec|split]; set_solver.
Qed.

(** ** References *)

Definition refBody (name path : bytes) : bytes := name ++ writeVarPathSource path.
Definition refSource (name path : bytes) : bytes := dollar :: refBody name path.

Definition refByte (c : ascii) : bool :=
  between "033" "126" c && negb (one_of [hash; squote; dquote; lbrace; rbrace; backslash] c).

(** A name and a path that a reference can be spelled with. *)
Definition refOk (name path : bytes) : bool :=
  match lexBareVarRef (refSource name path) 0 with
  | Done (tok, n) =>
    bool_decide (n = length (refSource name path)) && bool_decide (tokVarName tok = name)
    && bool_decide (tokVarPath tok = path) && forallb refByte (refBody name path)
  | _ => false
  end.

Definition varShape (name path : bytes) : Token := MkToken TokenVarRef [] name path [] [] zeroSpan.
Definition adapterShape (adapter name path : bytes) : Token :=
  MkToken TokenAdapterRef [] name path adapter [] zeroSpan.

Lemma refOk_lexed name path :
  refOk name path = true ->
  exists text, lexBareVarRef (refSource name path) 0 = Done (varToken text name path, length (refSource name path)).
Proof.
  unfold refOk. destruct (lexBareVarRef _ _) as [[tok n]| |] eqn:E; [|done..]. intros H.
  repeat apply andb_prop in H as [H ?]. repeat match goal with
    H : bool_decide _ = true |- _ => apply bool_decide_eq_true in H end.
  assert (tok = varToken (tokText tok) (tokVarName tok) (tokVarPath tok)) as Ht.
  { clear -E. unfold lexBareVarRef in E. destruct (negb _); [done|]. destruct (barePath _ _ _); [|done..].
    cbn [obind] in E. by injection E as <- _. }
  exists (tokText tok). congruence.
Qed.

Lemma refOk_bytes name path : refOk name path = true -> Forall (fun c => refByte c = true) (refBody name path).
Proof.
  unfold refOk. destruct (lexBareVarRef _ _) as [[tok n]| |]; [|done..]. intros [_ H]%andb_prop.
  apply Forall_forall. intros c Hc%list_elem_of_In. rewrite forallb_forall in H. by apply H.
Qed.

Lemma refOk_head name path :
  refOk name path = true -> exists c r, refBody name path = c :: r /\ isIdentStart c = true.
Proof.
  intros H. destruct (refOk_lexed _ _ H) as [text E]. unfold lexBareVarRef in E. cbn [Nat.add] in E.
  destruct (at_ isIdentStart (refSource name path) 1) eqn:E1; [|done].
  apply at_true in E1 as (c & Hc & Hi). unfold refSource in Hc. simpl in Hc.
  destruct (refBody name path) as [|d r]; [done|]. injection Hc as ->. eauto.
Qed.

Lemma refByte_spec c :
  refByte c = true -> between "033" "126" c = true /\ c ∉ [hash; squote; dquote; lbrace; rbrace; backslash].
Proof. intros [H1 H2%negb_true_iff]%andb_prop. by rewrite one_of_false in H2. Qed.

Lemma strips_ref name path : refOk name path = true -> strips (refSource name path).
Proof.
  intros H%refOk_bytes. apply strips_plain. constructor; [done|]. eapply Forall_impl; [exact H|].
  intros c [_ Hc]%refByte_spec. set_solver.
Qed.

Lemma lexVarRef_local input name path rest pos :
  drop pos input = refSource name path ++ rest -> refOk name path = true -> delim rest ->
  exists text, lexVarRef input pos = Done (varToken text name path, length (refSource name path)).
Proof.
  intros Hd Hr Hrest. destruct (refOk_lexed _ _ Hr) as [text E]. destruct (refOk_head _ _ Hr) as (c & r & Hc & Hi).
  exists text. unfold lexVarRef. pose proof (drop_tail _ _ _ _ Hd) as Hd1. rewrite Hc in Hd1.
  rewrite (lookup_of_drop _ _ _ _ Hd1). assert ((c =? lbrace)%char = false) as ->.
  { apply eqb_false. intros ->. done. }
  by apply (lexBareVarRef_local _ _ _ _ Hd Hrest).
Qed.

Lemma lexes_ref b name path rest :
  refOk name path = true -> delim rest -> lexes b (refSource name path) [varShape name path] rest.
Proof.
  intros Hr Hrest. apply lexes_emit; [done|]. intros input base pre i ch Hd Hch _.
  rewrite (lookup_of_drop _ _ _ _ Hd) in Hch. injection Hch as <-.
  destruct (lexVarRef_local _ _ _ _ _ Hd Hr Hrest) as [text E]. exists (varToken text name path).
  split; [done|]. unfold tokenStep. cbn. by rewrite E.
Qed.

Definition adapterSource (adapter name path : bytes) : bytes := adapter ++ ":"%char :: refSource name path.

Lemma strips_adapter name path : refOk name path = true -> strips (adapterSource (B "file") name path).
Proof.
  intros H. change (adapterSource _ _ _) with (B "file:" ++ refSource name path).
  apply strips_app; [apply strips_word; repeat constructor|by apply strips_ref].
Qed.

Lemma lexes_adapter b name path rest :
  refOk name path = true -> delim rest ->
  lexes b (adapterSource (B "file") name path) [adapterShape (B "file") name path] rest.
Proof.
  intros Hr Hrest. apply lexes_emit; [done|]. intros input base pre i ch Hd Hch _.
  rewrite (lookup_of_drop _ _ _ _ Hd) in Hch. injection Hch as <-.
  pose proof (drop_of_drop _ _ 5 _ Hd) as Hd5. simpl in Hd5.
  destruct (lexVarRef_local _ _ _ _ _ Hd5 Hr Hrest) as [text E].
  assert (exists tok, forget tok = adapterShape (B "file") name path /\
    lexAdapterRef input i = Done (Some (tok, length (adapterSource (B "file") name path)))) as (tok & Hf & Ha).
  { unfold lexAdapterRef, adapterPrefixes. cbn [lexAdapterRef_in app length].
    rewrite bool_decide_true by (by rewrite Hd). cbn [negb].
    rewrite (proj2 (at_eqb dollar input (i + 5))) by (by eapply lookup_of_drop). cbn [negb]. rewrite E.
    eexists. split; [|do 3 f_equal; simpl; lia]. done. }
  exists tok. split; [done|]. unfold tokenStep. cbn -[lexAdapterRef]. by rewrite Ha.
Qed.

(** ** Quoted literals *)

Lemma strips_quoted text : validUTF8 text = true -> strips (writeQuotedLiteralSource text).
Proof.
  intros Hv rest. destruct (quoted_forms text Hv) as [[-> Hn]| ->]; simpl; rewrite <- app_assoc; f_equal.
  - rewrite strip_single by done. by rewrite <- app_assoc.
  - rewrite strip_escaped by done. by rewrite <- app_assoc.
Qed.

Lemma lexSingleQuoted_local input text rest pos :
  drop pos input = squote :: text ++ squote :: rest -> squote ∉ text ->
  lexSingleQuoted input pos = Done (plainToken TokenQuoted text, length text + 2).
Proof.
  intros Hd Hn. unfold lexSingleQuoted. set (p := fun c => negb (c =? squote)%char).
  pose proof (drop_tail _ _ _ _ Hd) as Hd1.
  assert (scan p input (pos + 1) = pos + 1 + length text) as ->.
  { unfold scan. rewrite Hd1, prefix_len_app; [simpl; lia|].
    apply Forall_forall. intros c Hc. apply negb_true_iff, eqb_false. set_solver. }
  assert (length input >= pos + length text + 2) as Hl.
  { apply (f_equal length) in Hd. rewrite length_drop in Hd. simpl in Hd. rewrite length_app in Hd. simpl in Hd. lia. }
  rewrite (proj2 (Nat.leb_gt _ _)) by lia. do 2 f_equal; [|lia]. f_equal. unfold slice.
  replace (pos + 1 + length text - (pos + 1)) with (length text) by lia. by rewrite Hd1, take_app_length.
Qed.

Lemma lexes_quoted b text rest :
  validUTF8 text = true -> lexes b (writeQuotedLiteralSource text) [plainToken TokenQuoted text] rest.
Proof.
  intros Hv. apply lexes_emit.
  { by destruct (quoted_forms text Hv) as [[-> _]| ->]. }
  intros input base pre i ch Hd Hch _. exists (plainToken TokenQuoted text). split; [done|].
  assert (one_of [dquote; squote] ch = true /\
    lexQuoted input i base = Done (plainToken TokenQuoted text, length (writeQuotedLiteralSource text))) as [Hq Hl].
  { unfold lexQuoted. destruct (quoted_forms text Hv) as [[E Hn]|E]; rewrite E in *; cbn [app] in Hd;
      rewrite <- app_assoc in Hd; cbn [app] in Hd; pose proof (lookup_of_drop _ _ _ _ Hd) as Hc;
      rewrite Hc in Hch; injection Hch as <-; (split; [done|]).
    - rewrite (proj2 (at_eqb _ _ _) Hc), (lexSingleQuoted_local _ _ _ _ Hd Hn). do 2 f_equal.
      simpl. rewrite length_app. simpl. lia.
    - assert (at_ (Ascii.eqb squote) input i = false) as -> by (unfold at_; by rewrite Hc).
      pose proof (drop_tail _ _ _ _ Hd) as Hd1. unfold lexDoubleQuoted.
      rewrite (doubleQuoted_escaped _ _ _ _ _ text rest); [|exact Hd1|].
      + do 2 f_equal. simpl. rewrite length_app. simpl. lia.
      + apply (f_equal length) in Hd1. rewrite length_drop, length_app in Hd1.
        pose proof (escaped_length text). simpl in Hd1. lia. }
  apply one_of_spec in Hq. assert (ch = dquote \/ ch = squote) as [->| ->] by set_solver;
    unfold tokenStep; cbn; by rewrite Hl.
Qed.
