(* ===== verification/PrintStrings.v ===== *)
(** * Reading back interpolated strings

    A double-quoted string as the formatter writes it, of literal segments and of
    interpolated references, is read as one token with the same segments. *)

From Stdlib Require Import ZArith Lia Ascii.
From stdpp Require Import base tactics list strings option sets.
From S2P Require Import Prelude Lexer LexerPos LexerCover LexerPrint Literals Ast ExprParser SourceFmt PrintPieces.

(** ** Segments that can be printed *)

Definition segSource (seg : InterpStringSegment) : bytes :=
  match seg with
  | SegLiteral text => writeDoubleQuotedContent text
  | SegExpr (VarRefExpr name path _) => [dollar; lbrace] ++ refBody name path ++ [rbrace]
  | SegExpr _ => []
  end.

Definition segShape (seg : InterpStringSegment) : InterpSegment :=
  match seg with
  | SegLiteral text => MkInterpSegment text [] zeroSpan true
  | SegExpr (VarRefExpr name path _) => MkInterpSegment [] (refBody name path) zeroSpan false
  | SegExpr _ => MkInterpSegment [] [] zeroSpan false
  end.

(** Literal segments are not empty and do not follow each other; the interpolated
    expressions are references. *)
Fixpoint segmentsOk (afterLiteral : bool) (segs : list InterpStringSegment) : bool :=
  match segs with
  | [] => true
  | SegLiteral text :: segs' =>
    negb afterLiteral && negb (bool_decide (text = [])) && validUTF8 text && segmentsOk true segs'
  | SegExpr (VarRefExpr name path _) :: segs' => refOk name path && segmentsOk false segs'
  | SegExpr _ :: _ => false
  end.

Definition isSegExpr (seg : InterpStringSegment) : bool := match seg with SegExpr _ => true | _ => false end.

Definition interpOk (segs : list InterpStringSegment) : bool := segmentsOk false segs && existsb isSegExpr segs.

Definition interpSource (segs : list InterpStringSegment) : bytes :=
  [dquote] ++ concat (map segSource segs) ++ [dquote].
Definition interpShape (segs : list InterpStringSegment) : Token :=
  MkToken TokenInterpString [] [] [] [] (map segShape segs) zeroSpan.

(** ** The lexer on them *)

Section lexing.
Context (input : bytes) (loc : nat -> Pos) (pos : nat).

(** Reading the bytes of a literal adds its text. *)
Lemma doubleQuoted_text text : forall fuel segs lit i r,
  drop i input = escaped text ++ r ->
  exists lit', litText lit' = litText lit ++ text /\ (text <> [] -> lit' <> None) /\ (lit <> None -> lit' <> None) /\
  doubleQuoted (length text + fuel) loc input pos segs lit i =
  doubleQuoted fuel loc input pos segs lit' (i + length (escaped text)).
Proof.
  induction text as [|c text IH]; intros fuel segs lit i r Hd.
  { exists lit. rewrite app_nil_r. cbn. by rewrite Nat.add_0_r. }
  rewrite escaped_cons, <- app_assoc in Hd. rewrite escaped_cons, length_app. cbn [length Nat.add doubleQuoted].
  destruct (escapeByte_cases c) as [(e & Ee & He)|(Ee & Hq & Hb & Hdl)]; rewrite Ee in *; cbn [app] in Hd;
    rewrite (lookup_of_drop _ _ _ _ Hd).
  - pose proof (drop_tail _ _ _ _ Hd) as Hd1. rewrite (lookup_of_drop _ _ _ _ Hd1). cbn [Ascii.eqb]. rewrite He.
    rewrite (proj2 (eqb_false backslash dquote)), (proj2 (eqb_true backslash backslash)) by done.
    destruct (IH fuel segs (writeLiteral lit i c) (i + 2) r) as (lit' & Hl & _ & Hs & E).
    { apply drop_tail in Hd1. by rewrite <- Nat.add_assoc in Hd1. }
    exists lit'. rewrite litText_write, <- app_assoc in Hl. split_and!; [done| | |].
    1-2: intros _; apply Hs; by destruct lit as [[]|]. rewrite E. f_equal. simpl. lia.
  - apply eqb_false in Hq, Hb, Hdl. rewrite Hq, Hb, Hdl.
    destruct (IH fuel segs (writeLiteral lit i c) (i + 1) r) as (lit' & Hl & _ & Hs & E).
    { by apply drop_tail in Hd. }
    exists lit'. rewrite litText_write, <- app_assoc in Hl. split_and!; [done| | |].
    1-2: intros _; apply Hs; by destruct lit as [[]|]. rewrite E. f_equal. simpl. lia.
Qed.

Lemma scanInterpBody_ref inner r fuel j :
  Forall (fun c => refByte c = true) inner -> drop j input = inner ++ rbrace :: r -> length inner < fuel ->
  scanInterpBody_from fuel input 1 j = Done (j + length inner).
Proof.
  intros Hi. revert fuel j. induction Hi as [|c inner Hc _ IH]; intros [|fuel] j Hd Hf; try (simpl in Hf; lia).
  - cbn [scanInterpBody_from]. rewrite (lookup_of_drop _ _ _ _ Hd). cbn. by rewrite Nat.add_0_r.
  - cbn [scanInterpBody_from]. rewrite (lookup_of_drop _ _ _ _ Hd). apply refByte_spec in Hc as [_ Hc].
    rewrite !(proj2 (eqb_false c _)) by (intros ->; set_solver).
    rewrite (IH fuel (j + 1)); [f_equal; simpl; lia|by apply drop_tail in Hd|simpl in Hf; lia].
Qed.

Lemma blank_ref c r : isIdentStart c = true -> blank (c :: r) = false.
Proof.
  intros H. cbn [blank].
  assert (between "065" "122" c = true) as Hb.
  { revert H. apply (byte_implies isIdentStart (between "065" "122")). vm_compute. reflexivity. }
  assert (forall d, between "065" "122" d = false -> (c =? d)%char = false) as Hne.
  { intros d Hd. apply eqb_false. intros ->. by rewrite Hb in Hd. }
  unfold one_of. cbn [existsb]. rewrite !Hne by done. cbn. by destruct r as [|? [|? ?]].
Qed.

Lemma doubleQuoted_body fuel segs lit i name path r :
  refOk name path = true ->
  drop i input = [dollar; lbrace] ++ refBody name path ++ rbrace :: r ->
  exists sp, doubleQuoted (S fuel) loc input pos segs lit i =
  doubleQuoted fuel loc input pos
    (flushLiteral loc segs lit i ++ [MkInterpSegment [] (refBody name path) sp false]) None
    (i + length (refBody name path) + 3).
Proof.
  intros Hr Hd. eexists. cbn [doubleQuoted]. rewrite (lookup_of_drop _ _ _ _ Hd).
  pose proof (drop_tail _ _ _ _ Hd) as Hd1. pose proof (drop_tail _ _ _ _ Hd1) as Hd2.
  rewrite <- Nat.add_assoc in Hd2. change (1 + 1) with 2 in Hd2.
  rewrite (proj2 (at_eqb lbrace input (i + 1))) by (by eapply lookup_of_drop).
  assert (length (refBody name path) < S (length input)) as Hl.
  { apply (f_equal length) in Hd2. rewrite length_drop, length_app in Hd2. lia. }
  unfold scanInterpBody. rewrite (scanInterpBody_ref _ _ _ _ (refOk_bytes _ _ Hr) Hd2 Hl). cbn [obind].
  assert (slice input (i + 2) (i + 2 + length (refBody name path)) = refBody name path) as ->.
  { unfold slice. rewrite Hd2. replace (_ - _) with (length (refBody name path)) by lia. by rewrite take_app_length. }
  destruct (refOk_head _ _ Hr) as (c & r' & Hc & Hi). rewrite Hc, blank_ref by done. rewrite <- Hc.
  cbn. replace (i + 2 + length (refBody name path) + 1) with (i + length (refBody name path) + 3) by lia.
  reflexivity.
Qed.

Definition litShape (lit : literal) : list InterpSegment :=
  match lit with Some (_, l) => [MkInterpSegment l [] zeroSpan true] | None => [] end.

Lemma flushLiteral_shape segs lit i :
  map forgetSeg (flushLiteral loc segs lit i) = map forgetSeg segs ++ litShape lit.
Proof. destruct lit as [[st l]|]; simpl; [by rewrite map_app|by rewrite app_nil_r]. Qed.

Lemma doubleQuoted_segments segs : forall fuel segs0 lit i r,
  drop i input = concat (map segSource segs) ++ dquote :: r ->
  segmentsOk (bool_decide (lit <> None)) segs = true -> length (concat (map segSource segs)) < fuel ->
  exists segs', map forgetSeg segs' = map forgetSeg segs0 ++ litShape lit ++ map segShape segs /\
  doubleQuoted fuel loc input pos segs0 lit i =
  Done (closeDoubleQuoted input pos (i + length (concat (map segSource segs)) + 1) segs',
        i + length (concat (map segSource segs)) + 1 - pos).
Proof.
  induction segs as [|seg segs IH]; intros fuel segs0 lit i r Hd Hok Hf.
  { destruct fuel as [|fuel]; [simpl in Hf; lia|]. exists (flushLiteral loc segs0 lit i).
    rewrite flushLiteral_shape, app_nil_r. split; [done|]. cbn [doubleQuoted].
    rewrite (lookup_of_drop _ _ _ _ Hd). cbn. by rewrite Nat.add_0_r. }
  cbn [map concat] in *. rewrite <- app_assoc in Hd. rewrite length_app in *.
  destruct seg as [text|e]; cbn [segmentsOk] in Hok.
  - repeat apply andb_prop in Hok as [Hok ?]. apply negb_true_iff, bool_decide_eq_false in Hok.
    destruct lit; [exfalso; by apply Hok|].
    match goal with H : negb _ = true |- _ => apply negb_true_iff, bool_decide_eq_false in H end.
    cbn [segSource] in *. rewrite writeDoubleQuotedContent_escaped in * by done. pose proof (escaped_length text).
    destruct (doubleQuoted_text text (fuel - length text) segs0 None i _ Hd) as (lit' & Hl & Hs & _ & E).
    specialize (Hs ltac:(done)). replace (length text + (fuel - length text)) with fuel in E by lia. rewrite E.
    apply (f_equal (drop (length (escaped text)))) in Hd. rewrite drop_drop, drop_app_length in Hd.
    destruct (IH (fuel - length text) segs0 lit' _ _ Hd) as (segs' & Hsh & E').
    + by rewrite bool_decide_true.
    + lia.
    + exists segs'. rewrite Hsh, E'. split.
      * destruct lit' as [[st l]|]; [|done]. simpl in Hl. by subst l.
      * do 3 f_equal; lia.
  - destruct e; try done. apply andb_prop in Hok as [Hr Hok]. cbn [segSource segShape] in *.
    rewrite !length_app in *. cbn [length] in *. destruct fuel as [|fuel]; [lia|].
    replace (([dollar; lbrace] ++ refBody Name Path ++ [rbrace]) ++ concat (map segSource segs) ++ dquote :: r)
      with ([dollar; lbrace] ++ refBody Name Path ++ rbrace :: concat (map segSource segs) ++ dquote :: r) in Hd
      by (by rewrite <- !app_assoc).
    destruct (doubleQuoted_body fuel segs0 lit i Name Path _ Hr Hd) as [sp' ->].
    apply (f_equal (drop (length (refBody Name Path) + 3))) in Hd. rewrite drop_drop in Hd.
    replace (drop (length (refBody Name Path) + 3) ([dollar; lbrace] ++ _ ++ rbrace :: _))
      with (concat (map segSource segs) ++ dquote :: r) in Hd.
    2: { replace (length (refBody Name Path) + 3) with (2 + (length (refBody Name Path) + 1)) by lia.
         rewrite <- drop_drop. change (drop 2 ([dollar; lbrace] ++ ?l)) with (drop 0 l). rewrite drop_0.
         rewrite <- drop_drop, drop_app_length. done. }
    destruct (IH fuel (flushLiteral loc segs0 lit i ++ [MkInterpSegment [] (refBody Name Path) sp' false]) None
      (i + (length (refBody Name Path) + 3)) r Hd) as (segs' & Hsh & E'); [done|lia|].
    exists segs'. split.
    + rewrite Hsh, map_app, flushLiteral_shape. simpl. by rewrite <- !app_assoc.
    + rewrite <- Nat.add_assoc, E'. do 3 f_equal; lia.
Qed.
End lexing.

Lemma close_interp input pos j segs :
  existsb (fun s => negb (segIsLit s)) segs = true ->
  closeDoubleQuoted input pos j segs = MkToken TokenInterpString (slice input pos j) [] [] [] segs zeroSpan.
Proof. destruct segs as [|s [|s' segs]]; simpl; [done| |done]. by destruct (segIsLit s). Qed.

Lemma shapes_interp segs segs' :
  map forgetSeg segs' = map segShape segs -> segmentsOk false segs = true -> existsb isSegExpr segs = true ->
  existsb (fun s => negb (segIsLit s)) segs' = true.
Proof.
  intros E _ He. apply existsb_exists in He as (seg & Hin & Hs). apply existsb_exists.
  assert (segShape seg ∈ map forgetSeg segs') as Hm.
  { rewrite E. by apply list_elem_of_fmap_2, list_elem_of_In. }
  apply list_elem_of_fmap in Hm as (s' & Hs' & Hin'). exists s'. split; [by apply list_elem_of_In|].
  assert (segIsLit s' = segIsLit (segShape seg)) as -> by (by rewrite Hs'). by destruct seg as [|[]].
Qed.

Lemma lexes_interp b segs rest : interpOk segs = true -> lexes b (interpSource segs) [interpShape segs] rest.
Proof.
  intros [Hok He]%andb_prop. apply lexes_emit; [done|]. intros input base pre i ch Hd Hch _.
  unfold interpSource in Hd. cbn [app] in Hd. rewrite <- app_assoc in Hd. cbn [app] in Hd.
  pose proof (lookup_of_drop _ _ _ _ Hd) as Hc. rewrite Hc in Hch. injection Hch as <-.
  pose proof (drop_tail _ _ _ _ Hd) as Hd1.
  assert (length (concat (map segSource segs)) < S (length input)) as Hl.
  { apply (f_equal length) in Hd1. rewrite length_drop, length_app in Hd1. lia. }
  destruct (doubleQuoted_segments input (fun p => locAt p (buildLineStarts input) base) i segs _ [] None (i + 1) rest
    Hd1 Hok Hl) as (segs' & Hsh & E). simpl in Hsh.
  rewrite close_interp in E by (by eapply shapes_interp). eexists. split.
  2: { unfold tokenStep. cbn -[lexQuoted interpSource]. unfold lexQuoted, lexDoubleQuoted.
       assert (at_ (Ascii.eqb squote) input i = false) as -> by (unfold at_; by rewrite Hc).
       rewrite E. cbn [obind mapFailed]. do 2 f_equal. unfold interpSource. simpl. rewrite length_app. simpl. lia. }
  unfold forget, interpShape. simpl. by rewrite Hsh.
Qed.

Lemma strip_ref_body inner rest :
  Forall (fun c => refByte c = true) inner ->
  stripComment_from false true false (inner ++ rest) = inner ++ stripComment_from false true false rest.
Proof.
  induction 1 as [|c inner Hc _ IH]; [done|]. apply refByte_spec in Hc as [_ Hc]. cbn [app stripComment_from andb].
  rewrite !(proj2 (eqb_false c _)) by (intros ->; set_solver). cbn. by rewrite IH.
Qed.

Lemma strips_interp segs : interpOk segs = true -> strips (interpSource segs).
Proof.
  intros [Hok _]%andb_prop rest. unfold interpSource. cbn [app]. rewrite <- app_assoc.
  assert (stripComment_from false true false (concat (map segSource segs) ++ [dquote] ++ rest) =
          concat (map segSource segs) ++ [dquote] ++ stripComment_from false false false rest) as E.
  { revert Hok. generalize false at 1 as a. induction segs as [|seg segs IH]; intros a Hok; [done|].
    cbn [map concat]. rewrite <- !app_assoc. destruct seg as [text|e]; cbn [segmentsOk] in Hok.
    - repeat apply andb_prop in Hok as [Hok ?]. cbn [segSource]. rewrite writeDoubleQuotedContent_escaped by done.
      rewrite strip_escaped by (by destruct (concat _)). by erewrite IH.
    - destruct e; try done. apply andb_prop in Hok as [Hr Hok]. cbn [segSource]. rewrite <- !app_assoc. cbn [app].
      cbn [stripComment_from andb]. cbn. do 2 f_equal. rewrite strip_ref_body by (by apply refOk_bytes).
      f_equal. cbn. f_equal. exact (IH _ Hok). }
  cbn [app] in *. cbn [stripComment_from andb]. cbn -[stripComment_from]. by rewrite E, <- app_assoc.
Qed.
