(* ===== verification/PrintExpr.v ===== *)
(** * Printed expressions and their tokens

    Which expressions the formatter writes back as source that denotes them,
    [printable], and the tokens of that source, [exprTokens]. By induction on the
    expression, tokeniseAt reads the source as these tokens. *)

From Stdlib Require Import ZArith Lia Ascii.
From stdpp Require Import base tactics list strings option sets.
From S2P Require Import Prelude Lexer LexerPos LexerCover LexerPrint Literals Ast ExprParser SourceFmt PrintPieces PrintStrings.

(** ** Tokens *)

Definition parenToks (b : bool) (toks : list Token) : list Token :=
  if b then W "(" :: toks ++ [W ")"] else toks.

Definition matchesToks (exhaustive : bool) : list Token :=
  W "matches" :: (if exhaustive then [W "exhaustive"] else []) ++ [W "{"].

Definition sepToken : Token := plainToken TokenSep [newline].
Definition labelOf (name : bytes) : bytes := name ++ B ":".

Fixpoint entriesTokens (value : MatchEntry -> list Token) (first : bool) (entries : list MatchEntry) : list Token :=
  match entries with
  | [] => []
  | ent :: entries' =>
    (if first then [] else [sepToken]) ++ word (labelOf (entryPath ent)) :: value ent ++
    entriesTokens value false entries'
  end.

Fixpoint exprTokens (e : Expr) : list Token :=
  let atom e := parenToks (atomParens e) (exprTokens e) in
  let elem e := parenToks (elemParens e) (exprTokens e) in
  match e with
  | LiteralExpr text quoted _ => [if quoted then plainToken TokenQuoted text else word text]
  | VarRefExpr name path _ => [varShape name path]
  | AdapterExpr adapter name path _ => [adapterShape adapter name path]
  | InterpStringExpr segments _ => [interpShape segments]
  | BinaryExpr l op r _ | LogicalExpr op l r _ => atom l ++ word op :: atom r
  | UnaryExpr pred e _ => word pred :: atom e
  | ThreadExpr lhs args _ _ => atom lhs ++ plainToken TokenThread (B "|>") :: concat (map exprTokens args)
  | NotExpr e _ => W "not" :: atom e
  | NegateExpr e _ => W "-" :: atom e
  | PureCallExpr name args _ =>
    word name :: concat (map (fun a => parenToks (argParens a) (exprTokens a)) args)
  | MatchesExpr target block _ => atom target ++ blockTokens block
  | ListExpr elems _ => W "[" :: concat (map elem elems) ++ [W "]"]
  | RecordExpr fields _ =>
    W "record" :: W "{" ::
    concat (map (fun f => match f with MkRecordField name e _ => word (labelOf name) :: elem e end) fields) ++
    [W "}"]
  end
with blockTokens (m : MatchesBlockExpr) : list Token :=
  match m with
  | MkMatchesBlock entries exhaustive _ =>
    matchesToks exhaustive ++
    entriesTokens (fun ent =>
      match ent with
      | MatchPredicate _ pred _ => [word pred]
      | MatchSubBlock _ sub _ => blockTokens sub
      | MatchPattern _ e _ => exprTokens e
      end) true entries ++ [W "}"]
  end.

(** ** Printable expressions *)

Definition among (text : bytes) (l : list string) : bool := existsb (fun s => bool_decide (text = B s)) l.

Definition comparisonOps : list string := ["=="; "!="; "<"; "<="; ">"; ">="]%string.
Definition arithmeticOps : list string := ["+"; "-"; "*"; "/"; "%"]%string.
Definition operators : list string := comparisonOps ++ arithmeticOps.

Definition noError (text : bytes) : bool :=
  match validateExpressionWordLiteral (word text) with Some _ => false | None => true end.

(** Words that stand for themselves as a term, as an argument of a call, and after
    a thread. *)
Definition literalOk (text : bytes) : bool :=
  wordOk text && noError text &&
  negb (among text (["and"; "or"; "not"; "not-empty"; "matches"; "record"; "nil"]%string ++ operators
                    ++ map fst pureBuiltinRegistry)).
Definition argLiteralOk (text : bytes) : bool :=
  wordOk text && noError text && negb (among text (["and"; "or"; "not"; "nil"]%string ++ operators)).
Definition threadLiteralOk (text : bytes) : bool :=
  wordOk text && negb (among text (["and"; "or"; "nil"]%string ++ operators)).

(** The operands before which a dash stays a token of its own. *)
Definition dashOk (e : Expr) : bool :=
  match e with
  | LiteralExpr _ quoted _ => quoted
  | VarRefExpr _ _ _ | InterpStringExpr _ _ | ListExpr _ _ => true
  | _ => atomParens e
  end.

Definition threadArgOk (e : Expr) : bool :=
  match e with
  | LiteralExpr text quoted _ => if quoted then validUTF8 text else threadLiteralOk text
  | VarRefExpr name path _ => refOk name path
  | AdapterExpr adapter name path _ => bool_decide (adapter = B "file") && refOk name path
  | InterpStringExpr segments _ => interpOk segments
  | _ => false
  end.

(** A token that does not end the pattern of an entry. *)
Definition patternToken (t : Token) : bool :=
  negb (kindIs t TokenSep) && negb (isKeywordWord t "}") && negb (isKeywordWord t ",") &&
  negb (kindIs t TokenWord && (1 <? length (tokText t)) && hasSuffixByte "," (tokText t)).

Definition pathOk (exhaustive : bool) (path : bytes) : bool :=
  negb (bool_decide (path = [])) && wordOk (labelOf path) && isValidPath path &&
  negb (exhaustive && containsAny path ["."; "["]%char).

Section printable.
Context `{Unicode}.

Definition fieldName (f : RecordField) : bytes := match f with MkRecordField name _ _ => name end.

Definition fieldNameOk (name : bytes) : bool :=
  wordOk (labelOf name) && isIdent name && negb (containsByte "," name).

Fixpoint printable (e : Expr) : bool :=
  match e with
  | LiteralExpr text quoted _ => if quoted then validUTF8 text else literalOk text
  | VarRefExpr name path _ => refOk name path
  | AdapterExpr adapter name path _ => bool_decide (adapter = B "file") && refOk name path
  | InterpStringExpr segments _ => interpOk segments
  | BinaryExpr l op r _ => among op operators && printable l && printable r
  | UnaryExpr pred e _ => bool_decide (pred = B "not-empty") && printable e
  | ThreadExpr lhs args _ _ => printable lhs && negb (bool_decide (args = [])) && forallb threadArgOk args
  | LogicalExpr op l r _ => among op ["and"; "or"]%string && printable l && printable r
  | NotExpr e _ => printable e
  | NegateExpr e _ => dashOk e && printable e
  | PureCallExpr name args _ =>
    bool_decide (lookupPureBuiltin name = Some (length args)) &&
    forallb (fun a =>
      match a with
      | LiteralExpr text false _ => argLiteralOk text
      | RecordExpr _ _ => false
      | _ => printable a
      end) args
  | MatchesExpr target block _ => printable target && blockPrintable block
  | ListExpr elems _ => forallb printable elems
  | RecordExpr fields _ =>
    bool_decide (NoDup (map fieldName fields)) &&
    forallb (fun f => match f with MkRecordField name e _ => fieldNameOk name && printable e end) fields
  end
with blockPrintable (m : MatchesBlockExpr) : bool :=
  match m with
  | MkMatchesBlock entries exhaustive _ =>
    forallb (fun ent =>
      pathOk exhaustive (entryPath ent) &&
      match ent with
      | MatchPredicate _ pred _ => isMatchesPredicate pred
      | MatchSubBlock _ sub _ => blockPrintable sub
      | MatchPattern _ e _ => printable e && forallb patternToken (exprTokens e)
      end) entries
  end.
End printable.
