(* ===== verification/PrintReads.v ===== *)
(** * The source of a printable expression is read as its tokens

    Piece by piece and as a whole; and a logic for parsers that succeed: [yields p
    toks k Q], the parser [p] reads exactly [toks], up to their positions, before
    the tokens [k], and returns a result in [Q]. *)

From Stdlib Require Import ZArith Lia Ascii.
From stdpp Require Import base tactics list strings option sets.
From S2P Require Import Prelude Lexer LexerPos LexerCover LexerReturns LexerPrint Literals Ast ExprParser SourceFmt PrintPieces PrintStrings PrintExpr.

(** ** Pieces in sequence *)

(** A piece after which a delimiter has to follow, at the start or after a token. *)
Definition readsAfter (s : bytes) (toks : list Token) : Prop :=
  strips s /\ forall rest, delim rest -> lexes true s toks rest.
Definition firstOk (s : bytes) : Prop := match s with c :: _ => between "033" "126" c = true | [] => False end.
Definition reads (s : bytes) (toks : list Token) : Prop :=
  strips s /\ firstOk s /\ toks <> [] /\ forall rest, delim rest -> lexes false s toks rest.

Lemma reads_after s toks : reads s toks -> readsAfter s toks.
Proof. intros (? & _ & _ & Hl). split; [done|]. intros rest Hr. by apply lexes_weaken, Hl. Qed.

Lemma readsAfter_nil : readsAfter [] [].
Proof. split; [apply strips_nil|]. intros. apply lexes_weaken, lexes_nil. Qed.

(** What comes next starts with a delimiter. *)
Definition delimited (s : bytes) : Prop := forall rest, delim rest -> delim (s ++ rest).

Lemma delimited_nil : delimited [].
Proof. by intros rest. Qed.
Lemma delimited_cons c s : c ∈ [space; ")"%char; rbracket; rbrace; newline] -> delimited (c :: s).
Proof. by intros Hc rest _. Qed.
Lemma delimited_app s s' : delimited s -> delimited s' -> delimited (s ++ s').
Proof. intros H1 H2 rest Hr. rewrite <- app_assoc. by apply H1, H2. Qed.

Lemma readsAfter_app s1 t1 s2 t2 :
  readsAfter s1 t1 -> readsAfter s2 t2 -> delimited s2 -> readsAfter (s1 ++ s2) (t1 ++ t2).
Proof.
  intros [S1 L1] [S2 L2] Hd. split; [by apply strips_app|]. intros rest Hr.
  apply lexes_app with true; [by apply L1, Hd|by apply L2|auto].
Qed.

Lemma reads_app s1 t1 s2 t2 :
  reads s1 t1 -> readsAfter s2 t2 -> delimited s2 -> reads (s1 ++ s2) (t1 ++ t2).
Proof.
  intros (S1 & F1 & N1 & L1) [S2 L2] Hd. split_and!; [by apply strips_app|by destruct s1|by destruct t1|].
  intros rest Hr. apply lexes_app with true; [by apply L1, Hd|by apply L2|auto].
Qed.

Lemma strips_byte c : c <> hash -> c <> squote -> c <> dquote -> strips [c].
Proof. intros. apply strips_plain. by constructor. Qed.

(** A byte that is a token needs no delimiter after it. *)
Definition bracketByte (c : ascii) : bool :=
  one_of [lbrace; rbrace; "("%char; ")"%char; "+"%char; "*"%char; "%"%char; lbracket; rbracket] c.

Lemma strips_bracket c : bracketByte c = true -> strips [c].
Proof. intros H%one_of_spec. apply strips_byte; intros ->; set_solver. Qed.

Lemma readsAfter_byte c s toks :
  bracketByte c = true -> readsAfter s toks -> readsAfter (c :: s) (word [c] :: toks).
Proof.
  intros Hc [Hs Hl]. split; [by apply (strips_app [c]); [apply strips_bracket|]|]. intros rest Hr.
  apply (lexes_app true true [c] [word [c]] s); [by apply lexes_byte|by apply Hl|auto].
Qed.

Lemma reads_byte c s toks :
  bracketByte c = true -> readsAfter s toks -> reads (c :: s) (word [c] :: toks).
Proof.
  intros Hc [Hs Hl]. split_and!; [by apply (strips_app [c]); [apply strips_bracket|]| |done|].
  - apply one_of_spec in Hc. repeat (apply elem_of_cons in Hc as [->|Hc]; [done|]). set_solver.
  - intros rest Hr. apply (lexes_app false true [c] [word [c]] s); [by apply lexes_byte|by apply Hl|auto].
Qed.

Lemma readsAfter_space s toks : readsAfter s toks -> readsAfter (space :: s) toks.
Proof.
  intros [Hs Hl]. split; [by apply (strips_app [space]); [apply strips_byte|]|]. intros rest Hr.
  apply (lexes_app true true [space] [] s); [apply lexes_weaken, lexes_space|by apply Hl|auto].
Qed.

Lemma readsAfter_newline s toks : readsAfter s toks -> readsAfter (newline :: s) (sepToken :: toks).
Proof.
  intros [Hs Hl]. split; [by apply (strips_app [newline]); [apply strips_byte|]|]. intros rest Hr.
  apply (lexes_app true true [newline] [sepToken] s); [apply lexes_newline|by apply Hl|auto].
Qed.

Lemma readsAfter_close c : bracketByte c = true -> readsAfter [c] [word [c]].
Proof. intros. by apply readsAfter_byte, readsAfter_nil. Qed.

Lemma reads_word text : wordOk text = true -> reads text [word text].
Proof.
  intros Hw. split_and!; [by apply strips_word, wordOk_plain| |done|intros; by apply lexes_word].
  destruct text; [done|]. unfold wordOk in Hw. do 4 apply andb_prop in Hw as [Hw _]. done.
Qed.

Lemma reads_parens s toks : reads s toks -> reads (parens s) (W "(" :: toks ++ [W ")"]).
Proof.
  intros H. apply reads_byte; [done|]. apply readsAfter_app; [by apply reads_after|by apply readsAfter_close|].
  apply delimited_cons. set_solver.
Qed.

Lemma reads_parensIf b s toks : reads s toks -> reads (parensIf b s) (parenToks b toks).
Proof. destruct b; [apply reads_parens|done]. Qed.

(** [s], a space, and more. *)
Lemma reads_then s1 t1 s2 t2 : reads s1 t1 -> readsAfter s2 t2 -> reads (s1 ++ [space] ++ s2) (t1 ++ t2).
Proof.
  intros H1 H2. apply reads_app; [done|by apply readsAfter_space|]. apply delimited_cons. set_solver.
Qed.
Lemma readsAfter_then s1 t1 s2 t2 :
  readsAfter s1 t1 -> readsAfter s2 t2 -> readsAfter (s1 ++ [space] ++ s2) (t1 ++ t2).
Proof.
  intros H1 H2. apply readsAfter_app; [done|by apply readsAfter_space|]. apply delimited_cons. set_solver.
Qed.

Lemma eachSpaced_delimited l : delimited (eachSpaced l).
Proof. destruct l; [apply delimited_nil|]. apply delimited_cons. set_solver. Qed.

Lemma readsAfter_eachSpaced {A} (src : A -> bytes) (toks : A -> list Token) l :
  Forall (fun a => reads (src a) (toks a)) l -> readsAfter (eachSpaced (map src l)) (concat (map toks l)).
Proof.
  induction 1 as [|a l Ha Hl IH]; [apply readsAfter_nil|]. unfold eachSpaced. cbn [map concat app].
  apply readsAfter_space. apply readsAfter_app; [by apply reads_after|done|apply eachSpaced_delimited].
Qed.

Lemma readsAfter_spaced {A} (src : A -> bytes) (toks : A -> list Token) l s t :
  Forall (fun a => reads (src a) (toks a)) l -> readsAfter s t -> delimited s ->
  readsAfter (spaced (map src l) ++ s) (concat (map toks l) ++ t).
Proof.
  intros Hl Hs Hd. induction Hl as [|a [|b l] Ha Hl IH]; [done| |].
  - cbn [map concat spaced]. rewrite app_nil_r. apply readsAfter_app; [by apply reads_after|done|done].
  - change (spaced (map src (a :: b :: l))) with (src a ++ [space] ++ spaced (map src (b :: l))).
    change (concat (map toks (a :: b :: l))) with (toks a ++ concat (map toks (b :: l))).
    rewrite <- !app_assoc. apply readsAfter_then; [by apply reads_after|done].
Qed.

(** ** Operators, dashes and threads *)

Lemma readsAfter_op op : among op operators = true -> readsAfter op [word op].
Proof.
  intros Ho. apply existsb_exists in Ho as (s & Hin & ->%bool_decide_eq_true).
  unfold operators, comparisonOps, arithmeticOps in Hin. cbn [app In] in Hin.
  repeat destruct Hin as [<-|Hin];
    try first [done | by apply readsAfter_close | by apply reads_after, reads_word].
  split; [by apply strips_word; repeat constructor|]. intros. apply lexes_equal.
Qed.

Lemma readsAfter_thread s toks :
  readsAfter s toks -> readsAfter (B "|>" ++ s) (plainToken TokenThread (B "|>") :: toks).
Proof.
  intros [Hs Hl]. split; [by apply strips_app; [apply strips_word; repeat constructor|]|]. intros rest Hr.
  apply (lexes_app true true (B "|>") [_] s); [apply lexes_thread|by apply Hl|auto].
Qed.

Lemma reads_dash s toks :
  match s with c :: _ => c ∈ ["("%char; lbracket; dollar; dquote; squote] | [] => False end ->
  reads s toks -> reads ("-"%char :: s) (W "-" :: toks).
Proof.
  intros Hc (Hs & _ & _ & Hl). split_and!; [|done|done|].
  - apply (strips_app ["-"%char]); [by apply strips_byte|done].
  - intros rest Hr. apply (lexes_app false false ["-"%char] [W "-"] s); [|by apply Hl|done].
    apply lexes_dash. by destruct s.
Qed.

(** ** Terms without parts *)

Lemma reads_quoted text :
  validUTF8 text = true -> reads (writeQuotedLiteralSource text) [plainToken TokenQuoted text].
Proof.
  intros Hv. split_and!; [by apply strips_quoted| |done|intros; by apply lexes_quoted].
  by destruct (quoted_forms text Hv) as [[-> _]| ->].
Qed.

Lemma reads_ref name path : refOk name path = true -> reads (refSource name path) [varShape name path].
Proof. intros Hr. split_and!; [by apply strips_ref|done|done|intros; by apply lexes_ref]. Qed.

Lemma reads_adapter name path :
  refOk name path = true -> reads (adapterSource (B "file") name path) [adapterShape (B "file") name path].
Proof. intros Hr. split_and!; [by apply strips_adapter|done|done|intros; by apply lexes_adapter]. Qed.

Lemma reads_interp segs : interpOk segs = true -> reads (interpSource segs) [interpShape segs].
Proof. intros Hr. split_and!; [by apply strips_interp|done|done|intros; by apply lexes_interp]. Qed.

Lemma interp_source segs sp :
  interpOk segs = true -> writeExprSource (InterpStringExpr segs sp) = interpSource segs.
Proof.
  intros [Hok _]%andb_prop. cbn [writeExprSource]. unfold interpSource. f_equal. f_equal.
  remember false as b eqn:Hb in Hok at 1. clear Hb. revert b Hok. induction segs as [|seg segs IH]; intros b Hok; [done|]. cbn [map concat].
  destruct seg as [text|[]]; cbn [segmentsOk] in Hok; try done.
  - apply andb_prop in Hok as [_ Hok]. f_equal. by eapply IH.
  - apply andb_prop in Hok as [_ Hok]. f_equal. by eapply IH.
Qed.

Lemma reads_primary e :
  match e with LiteralExpr text false _ => wordOk text | _ => threadArgOk e end = true ->
  reads (writeExprSource e) (exprTokens e).
Proof.
  destruct e; intros He; try done; cbn [exprTokens].
  - destruct Quoted; [by apply reads_quoted|by apply reads_word].
  - by apply reads_ref.
  - apply andb_prop in He as [->%bool_decide_eq_true He]. by apply reads_adapter.
  - rewrite interp_source by done. by apply reads_interp.
Qed.

(** ** Expressions *)

Lemma readsAfter_head exhaustive s toks :
  readsAfter s toks -> readsAfter (matchesHead exhaustive ++ B " {" ++ s) (matchesToks exhaustive ++ toks).
Proof.
  intros Hs. assert (readsAfter (B " {" ++ s) (W "{" :: toks)) as Hb
    by (by apply readsAfter_space, readsAfter_byte).
  assert (delimited (B " {" ++ s)) as Hd by (apply delimited_cons; set_solver).
  unfold matchesHead, matchesToks. rewrite <- !app_assoc. destruct exhaustive; cbn [app].
  - apply (readsAfter_app (B "matches") [_]); [by apply reads_after, reads_word| |apply delimited_cons; set_solver].
    apply readsAfter_space, (readsAfter_app (B "exhaustive") [_]); [by apply reads_after, reads_word|done|done].
  - by apply (readsAfter_app (B "matches") [_]); [apply reads_after, reads_word|..].
Qed.

Lemma readsAfter_label name s toks :
  wordOk (labelOf name) = true -> readsAfter s toks ->
  readsAfter (name ++ B ": " ++ s) (word (labelOf name) :: toks).
Proof.
  intros Hn Hs. change (B ": " ++ s) with (B ":" ++ [space] ++ s). rewrite app_assoc.
  apply (readsAfter_then _ [_]); [by apply reads_after, reads_word|done].
Qed.

Lemma reads_label name s toks :
  wordOk (labelOf name) = true -> reads s toks ->
  reads (name ++ B ": " ++ s) (word (labelOf name) :: toks).
Proof.
  intros Hn Hs. change (B ": " ++ s) with (B ":" ++ [space] ++ s). rewrite app_assoc.
  apply (reads_then _ [_]); [by apply reads_word|by apply reads_after].
Qed.

Lemma readsAfter_entries src toks exhaustive entries s t : forall first,
  forallb (fun ent => pathOk exhaustive (entryPath ent)) entries = true ->
  Forall (fun ent => readsAfter (src ent) (toks ent)) entries -> readsAfter s t -> delimited s ->
  readsAfter (writeEntries src first entries ++ s) (entriesTokens toks first entries ++ t).
Proof.
  intros first Hp Hl Hs Hd. revert first Hp. induction Hl as [|ent entries He _ IH]; intros first Hp; [done|].
  cbn [forallb] in Hp. apply andb_prop in Hp as [Hp Hps]. cbn [writeEntries entriesTokens].
  assert (readsAfter ([space] ++ entryPath ent ++ B ": " ++ src ent ++ writeEntries src false entries ++ s)
    (word (labelOf (entryPath ent)) :: toks ent ++ entriesTokens toks false entries ++ t)) as He'.
  { apply readsAfter_space, readsAfter_label.
    - unfold pathOk in Hp. by repeat apply andb_prop in Hp as [Hp ?].
    - apply readsAfter_app; [done|by apply IH|]. destruct entries; [done|]. apply delimited_cons. set_solver. }
  rewrite <- !app_assoc. destruct first; cbn [app] in *; rewrite <- ?app_assoc; [done|].
  by apply readsAfter_newline.
Qed.

Section printed.
Context `{Unicode}.

Definition printsRead (e : Expr) : Prop := printable e = true -> reads (writeExprSource e) (exprTokens e).

Definition entrySource (ent : MatchEntry) : bytes :=
  match ent with
  | MatchPredicate _ pred _ => pred
  | MatchSubBlock _ sub _ => writeMatchesBlockSource sub
  | MatchPattern _ e _ => writeExprSource e
  end.
Definition entryTokens (ent : MatchEntry) : list Token :=
  match ent with
  | MatchPredicate _ pred _ => [word pred]
  | MatchSubBlock _ sub _ => blockTokens sub
  | MatchPattern _ e _ => exprTokens e
  end.
Definition entryValueOk (ent : MatchEntry) : bool :=
  match ent with
  | MatchPredicate _ pred _ => isMatchesPredicate pred
  | MatchSubBlock _ sub _ => blockPrintable sub
  | MatchPattern _ e _ => printable e && forallb patternToken (exprTokens e)
  end.

Lemma reads_atoms (p : Expr -> bool) (prints : Expr -> bool) l :
  Forall (fun e => prints e = true -> reads (writeExprSource e) (exprTokens e)) l -> forallb prints l = true ->
  Forall (fun e => reads (parensIf (p e) (writeExprSource e)) (parenToks (p e) (exprTokens e))) l.
Proof.
  induction 1; [constructor|]. cbn [forallb]. intros [? ?]%andb_prop. constructor; [|auto].
  apply reads_parensIf. auto.
Qed.

Lemma reads_infix l op r :
  readsAfter op [word op] -> reads (writeExprAtomSource l) (parenToks (atomParens l) (exprTokens l)) ->
  reads (writeExprAtomSource r) (parenToks (atomParens r) (exprTokens r)) ->
  reads (writeExprAtomSource l ++ [space] ++ op ++ [space] ++ writeExprAtomSource r)
        (parenToks (atomParens l) (exprTokens l) ++ word op :: parenToks (atomParens r) (exprTokens r)).
Proof.
  intros Ho Hl Hr. apply reads_then; [done|]. apply (readsAfter_then _ [_]); [done|by apply reads_after].
Qed.

Lemma reads_prefix op e :
  wordOk op = true -> reads (writeExprSource e) (exprTokens e) ->
  reads (op ++ [space] ++ writeExprAtomSource e) (word op :: parenToks (atomParens e) (exprTokens e)).
Proof.
  intros Ho He. apply (reads_then _ [_]); [by apply reads_word|]. by apply reads_after, reads_parensIf.
Qed.

Lemma reads_negate e :
  dashOk e = true -> reads (writeExprSource e) (exprTokens e) ->
  reads ("-"%char :: writeExprAtomSource e) (W "-" :: parenToks (atomParens e) (exprTokens e)).
Proof.
  intros Hd He. apply reads_dash; [|by apply reads_parensIf].
  assert (forall s, hd_error s ∈ Some <$> ["("%char; lbracket; dollar; dquote; squote] ->
    match s with c :: _ => c ∈ ["("%char; lbracket; dollar; dquote; squote] | [] => False end) as Hs.
  { intros [|c s] Hc; [|set_solver]. set_solver. }
  apply Hs. unfold writeExprAtomSource. destruct e; try done; try (cbn; set_solver).
  cbn in *. subst. unfold writeQuotedLiteralSource. destruct (_ && _); cbn; set_solver.
Qed.

Lemma reads_thread lhs args :
  reads (writeExprSource lhs) (exprTokens lhs) -> args <> [] -> forallb threadArgOk args = true ->
  reads (writeExprAtomSource lhs ++ B " |>" ++ eachSpaced (map writeExprSource args))
        (parenToks (atomParens lhs) (exprTokens lhs) ++ plainToken TokenThread (B "|>") :: concat (map exprTokens args)).
Proof.
  intros Hl Hne Ha. change (B " |>" ++ ?s) with ([space] ++ B "|>" ++ s). apply reads_then; [by apply reads_parensIf|].
  apply readsAfter_thread, readsAfter_eachSpaced. apply Forall_forall. intros a Hin%list_elem_of_In.
  rewrite forallb_forall in Ha. specialize (Ha a Hin). apply reads_primary.
  destruct a as [text [|]| | | | | | | | | | | | |]; try done. cbn [threadArgOk] in Ha. by apply andb_prop in Ha as [? _].
Qed.

Lemma reads_call name args :
  wordOk name = true ->
  Forall (fun a => reads (parensIf (argParens a) (writeExprSource a)) (parenToks (argParens a) (exprTokens a))) args ->
  reads (name ++ eachSpaced (map (fun a => parensIf (argParens a) (writeExprSource a)) args))
        (word name :: concat (map (fun a => parenToks (argParens a) (exprTokens a)) args)).
Proof.
  intros Hn Ha. apply (reads_app _ [_]); [by apply reads_word| |apply eachSpaced_delimited].
  by apply readsAfter_eachSpaced.
Qed.

Lemma readsAfter_block entries exhaustive sp :
  forallb (fun ent => pathOk exhaustive (entryPath ent)) entries = true ->
  Forall (fun ent => readsAfter (entrySource ent) (entryTokens ent)) entries ->
  readsAfter (writeMatchesBlockSource (MkMatchesBlock entries exhaustive sp))
             (blockTokens (MkMatchesBlock entries exhaustive sp)).
Proof.
  intros Hp He. apply readsAfter_head. apply (readsAfter_entries entrySource entryTokens exhaustive); [done|done| |].
  - case_bool_decide; [by apply readsAfter_close|]. by apply readsAfter_space, readsAfter_close.
  - case_bool_decide; apply delimited_cons; set_solver.
Qed.

Lemma pureBuiltin_word name n : lookupPureBuiltin name = Some n -> wordOk name = true.
Proof.
  unfold lookupPureBuiltin. destruct (find _ _) as [p|] eqn:E; [|done]. intros _.
  apply find_some in E as [Hin ->%bool_decide_eq_true%symmetry]. revert p Hin. apply List.Forall_forall.
  repeat constructor.
Qed.

Lemma matchesPredicate_word pred : isMatchesPredicate pred = true -> wordOk pred = true.
Proof.
  intros (s & Hin & ->%bool_decide_eq_true)%existsb_exists. revert s Hin. apply List.Forall_forall. repeat constructor.
Qed.

Lemma logical_word op : among op ["and"; "or"]%string = true -> wordOk op = true.
Proof.
  intros (s & Hin & ->%bool_decide_eq_true)%existsb_exists. revert s Hin. apply List.Forall_forall. repeat constructor.
Qed.

(** The arguments of a call: a word may be one that is not a term of its own. *)
Lemma reads_args args :
  Forall printsRead args ->
  forallb (fun a => match a with LiteralExpr text false _ => argLiteralOk text | RecordExpr _ _ => false
                    | _ => printable a end) args = true ->
  Forall (fun a => reads (parensIf (argParens a) (writeExprSource a)) (parenToks (argParens a) (exprTokens a))) args.
Proof.
  intros IH. apply reads_atoms. eapply Forall_impl; [exact IH|]. intros a Ha.
  destruct a as [text [|]| | | | | | | | | | | | |]; try done; try exact Ha.
  intros Hw. apply reads_word. unfold argLiteralOk in Hw. by repeat apply andb_prop in Hw as [Hw ?].
Qed.

Lemma reads_fields fields :
  Forall (fun f => match f with MkRecordField _ e _ => printsRead e end) fields ->
  forallb (fun f => match f with MkRecordField name e _ => fieldNameOk name && printable e end) fields = true ->
  Forall (fun f => match f with MkRecordField name e _ =>
    reads (name ++ B ": " ++ writeListElemSource e) (word (labelOf name) :: parenToks (elemParens e) (exprTokens e)) end)
    fields.
Proof.
  induction 1 as [|[name e sp] fields He _ IH]; [constructor|]. cbn [forallb].
  intros [[Hn Hp]%andb_prop Hf]%andb_prop. constructor; [|by apply IH]. apply reads_label.
  - unfold fieldNameOk in Hn. by repeat apply andb_prop in Hn as [Hn ?].
  - by apply reads_parensIf, He.
Qed.

Lemma reads_record fields sp :
  Forall (fun f => match f with MkRecordField name e _ =>
    reads (name ++ B ": " ++ writeListElemSource e) (word (labelOf name) :: parenToks (elemParens e) (exprTokens e)) end)
    fields ->
  reads (writeExprSource (RecordExpr fields sp)) (exprTokens (RecordExpr fields sp)).
Proof.
  intros Hf. cbn [writeExprSource exprTokens]. change (B "record {" ++ ?s) with (B "record" ++ [space] ++ lbrace :: s).
  apply (reads_then _ [_]); [by apply reads_word|]. apply readsAfter_byte; [done|]. apply readsAfter_spaced.
  - eapply Forall_impl; [exact Hf|]. by intros [name e sp'].
  - by apply readsAfter_close.
  - apply delimited_cons. set_solver.
Qed.

(** The formatter's source of a printable expression is read as its tokens. *)
Lemma printable_reads e : printsRead e.
Proof.
  revert e. apply (expr_ind' printsRead (fun _ => True) (fun f => match f with MkRecordField _ e _ => printsRead e end)
    (fun b => blockPrintable b = true -> readsAfter (writeMatchesBlockSource b) (blockTokens b))
    (fun ent => entryValueOk ent = true -> readsAfter (entrySource ent) (entryTokens ent)));
    try done; unfold printsRead; cbn [printable].
  - intros text [|] sp Hp; [by apply reads_quoted|]. apply reads_word. unfold literalOk in Hp.
    by repeat apply andb_prop in Hp as [Hp ?].
  - intros name path sp. apply reads_ref.
  - intros a name path sp [->%bool_decide_eq_true Hr]%andb_prop. by apply reads_adapter.
  - intros segs sp _ Hs. rewrite interp_source by done. by apply reads_interp.
  - intros l op r sp Hl Hr [[Ho%readsAfter_op Pl]%andb_prop Pr]%andb_prop.
    apply reads_infix; [done|by apply reads_parensIf, Hl|by apply reads_parensIf, Hr].
  - intros pred e sp He [->%bool_decide_eq_true Hp]%andb_prop. by apply reads_prefix; [|apply He].
  - intros lhs args pp sp Hl _ [[Pl Hne%negb_true_iff%bool_decide_eq_false]%andb_prop Ha]%andb_prop.
    apply reads_thread; auto.
  - intros op l r sp Hl Hr [[Ho%logical_word Pl]%andb_prop Pr]%andb_prop.
    apply reads_infix; [by apply reads_after, reads_word|by apply reads_parensIf, Hl|by apply reads_parensIf, Hr].
  - intros e sp He Hp. apply (reads_prefix (B "not")); [done|by apply He].
  - intros e sp He [Hd Hp]%andb_prop. apply reads_negate; [done|by apply He].
  - intros name args sp IH [Hn%bool_decide_eq_true%pureBuiltin_word Ha]%andb_prop.
    apply reads_call; [done|by apply reads_args].
  - intros e b sp He Hb [Pe Pb]%andb_prop. apply reads_then; [by apply reads_parensIf, He|by apply Hb].
  - intros l sp IH Hl. apply reads_byte; [done|]. apply readsAfter_spaced; [by apply reads_atoms with printable|by apply readsAfter_close|].
    apply delimited_cons. set_solver.
  - intros fields sp IH [_ Hf]%andb_prop. by apply reads_record, reads_fields.
  - intros entries exhaustive sp IH Hb. cbn [blockPrintable] in Hb. apply readsAfter_block.
    + rewrite forallb_forall in Hb |- *. intros ent Hin. by apply Hb, andb_prop in Hin as [? _].
    + rewrite forallb_forall in Hb. apply Forall_forall. intros ent Hin. rewrite Forall_forall in IH.
      apply IH; [done|]. by apply list_elem_of_In, Hb, andb_prop in Hin as [_ ?].
  - intros path e sp He [Hp _]%andb_prop. by apply reads_after, He.
  - intros path pred sp Hp. by apply reads_after, reads_word, matchesPredicate_word.
Qed.
End printed.

(** ** Tokenising *)

Lemma strips_whole s : strips s -> stripComment s = s.
Proof. intros H. unfold stripComment. rewrite <- (app_nil_r s) at 1. rewrite H. by rewrite app_nil_r. Qed.

(** A printing byte neither is white space nor starts or ends a white-space rune. *)
Lemma printing_byte c :
  between "033" "126" c = true ->
  asciiSpace c = false /\ (forall b, space2 c b = false /\ space2 b c = false) /\
  (forall a b, space3 c a b = false /\ space3 a b c = false).
Proof.
  intros Hc. unfold asciiSpace, space2, space3. assert (forall d, between "033" "126" d = false -> (c =? d)%char = false) as Hn.
  { intros d Hd. apply eqb_false. intros ->. congruence. }
  assert (forall l, forallb (fun d => negb (between "033" "126" d)) l = true -> one_of l c = false) as Ho.
  { intros l Hl. apply one_of_false. intros Hin%list_elem_of_In. rewrite forallb_forall in Hl.
    apply Hl in Hin. by rewrite Hc in Hin. }
  assert (between "128" "138" c = false) as Hb.
  { unfold between in *. apply andb_prop in Hc as [_ Hc%N.leb_le]. apply andb_false_iff. left. apply N.leb_gt.
    eapply N.le_lt_trans; [exact Hc|done]. }
  split_and!; [by apply Ho|..]; intros; rewrite ?Hb, !Hn, ?Ho by done; simpl;
    rewrite ?andb_false_r; simpl; rewrite ?andb_false_r; done.
Qed.

Lemma printing_not_blank c s : between "033" "126" c = true -> blank (c :: s) = false.
Proof.
  intros (H1 & H2 & H3)%printing_byte. cbn [blank]. unfold asciiSpace in H1. rewrite H1.
  destruct s as [|b [|d s]]; [done| |]; (destruct (H2 b) as [E _]; unfold space2 in E; rewrite E); [done|].
  destruct (H3 b d) as [E' _]. unfold space3 in E'. by rewrite E'.
Qed.

Lemma printing_untrimmed s : Forall (fun c => between "033" "126" c = true) s -> TrimSpaceBytes s = s.
Proof.
  intros Hs. unfold TrimSpaceBytes. assert (trimLeft s = s) as ->.
  { destruct Hs as [|c s (H1 & H2 & H3)%printing_byte _]; [done|]. cbn [trimLeft]. rewrite H1.
    destruct s as [|b [|d s]]; [done| |]; rewrite (proj1 (H2 _)); [done|]. by rewrite (proj1 (H3 _ _)). }
  assert (trimLeftRev (reverse s) = reverse s) as ->; [|apply reverse_involutive].
  apply Forall_reverse in Hs. destruct Hs as [|c r (H1 & H2 & H3)%printing_byte _]; [done|]. cbn [trimLeftRev]. rewrite H1.
  destruct r as [|b [|d r]]; [done| |]; rewrite (proj2 (H2 _)); [done|]. by rewrite (proj2 (H3 _ _)).
Qed.

Lemma reads_tokens s toks start fuel :
  reads s toks -> length s < fuel ->
  exists ts, tokeniseAt fuel start s = Done ts /\ map forget ts = toks.
Proof.
  intros (Hs & Hf & _ & Hl) Hfuel. unfold tokeniseAt. rewrite strips_whole by done.
  assert (blank s = false) as ->.
  { destruct s as [|c s]; [done|]. by apply printing_not_blank. }
  destruct (Hl [] I s (normalizeStartPos start) [] 0) as (ts & n & Hts & Hn & E); [by rewrite app_nil_r|done|].
  exists ts. split; [|done]. replace fuel with (n + S (fuel - n - 1)) by lia. rewrite E. cbn [tokenLoop].
  by rewrite (proj2 (lookup_ge_None s (0 + length s))) by lia.
Qed.

(** ** Tests of tokens do not read positions *)

Lemma kind_forget t : tokKind (forget t) = tokKind t.
Proof. unfold forget. by destruct (tokKind t). Qed.
Lemma kindIs_forget t k : kindIs (forget t) k = kindIs t k.
Proof. unfold kindIs. by rewrite kind_forget. Qed.
Lemma text_forget t : kindIs t TokenWord || kindIs t TokenSep = true -> tokText (forget t) = tokText t.
Proof. unfold forget, kindIs. by destruct (tokKind t). Qed.

Lemma wordTest_forget t (p : bytes -> bool) :
  kindIs (forget t) TokenWord && p (tokText (forget t)) = kindIs t TokenWord && p (tokText t).
Proof.
  rewrite kindIs_forget. destruct (kindIs t TokenWord) eqn:E; [|done]. by rewrite text_forget by (by rewrite E).
Qed.

Lemma isKeywordWord_forget t kw : isKeywordWord (forget t) kw = isKeywordWord t kw.
Proof.
  unfold isKeywordWord. rewrite kindIs_forget. destruct (kindIs t TokenWord) eqn:E; [|done].
  by rewrite text_forget by (by rewrite E).
Qed.
Lemma wordIn_forget t l : wordIn (forget t) l = wordIn t l.
Proof. unfold wordIn. induction l as [|kw l IH]; [done|]. cbn [existsb]. by rewrite isKeywordWord_forget, IH. Qed.
Lemma binaryOp_forget t : binaryOpFromToken (forget t) = binaryOpFromToken t.
Proof. apply (wordTest_forget t isBinaryOp). Qed.
Lemma unaryPred_forget t : unaryPredFromToken (forget t) = unaryPredFromToken t.
Proof. apply (wordTest_forget t isUnaryPred). Qed.
Lemma arithmetic_forget t : isArithmeticOp (forget t) = isArithmeticOp t.
Proof. apply wordIn_forget. Qed.

Lemma forget_word t w : forget t = word w -> tokKind t = TokenWord /\ tokText t = w.
Proof. unfold forget, word, plainToken. destruct (tokKind t); by intros [= <-]. Qed.

(** ** Parsers that succeed *)

Definition yields {A} (p : P A) (toks k : list Token) (Q : A -> Prop) : Prop :=
  forall ts l, map forget ts = toks -> exists a l', p (MkCursor l (ts ++ k)) = Done (a, MkCursor l' k) /\ Q a.

Lemma yields_ret {A} (a : A) k (Q : A -> Prop) : Q a -> yields (pret a) [] k Q.
Proof. intros Ha [|t ts] l Hts; [|done]. by exists a, l. Qed.

Lemma yields_weaken {A} (p : P A) toks k (Q Q' : A -> Prop) :
  yields p toks k Q -> (forall a, Q a -> Q' a) -> yields p toks k Q'.
Proof. intros Hp HQ ts l Hts. destruct (Hp ts l Hts) as (a & l' & E & Ha). eauto. Qed.

Lemma yields_bind {A B} (m : P A) (f : A -> P B) t1 t2 k Qm Q :
  (forall ts2, map forget ts2 = t2 -> yields m t1 (ts2 ++ k) Qm) -> (forall a, Qm a -> yields (f a) t2 k Q) ->
  yields (pbind m f) (t1 ++ t2) k Q.
Proof.
  intros Hm Hf ts l Hts. apply map_eq_app in Hts as (ts1 & ts2 & -> & H1 & H2). rewrite <- app_assoc.
  destruct (Hm ts2 H2 ts1 l H1) as (a & l' & E & Ha). unfold pbind. rewrite E. by apply Hf.
Qed.

(** The last step of a parser. *)
Lemma yields_last {A B} (m : P A) (f : A -> P B) toks k Qm Q :
  yields m toks k Qm -> (forall a, Qm a -> yields (f a) [] k Q) -> yields (pbind m f) toks k Q.
Proof.
  intros Hm Hf. rewrite <- (app_nil_r toks). eapply yields_bind; [|exact Hf]. by intros [|] E.
Qed.

Lemma yields_peek {B} (f : Token -> P B) t0 toks k Q :
  (forall t, forget t = t0 -> yields (f t) (t0 :: toks) k Q) -> yields (pbind peek f) (t0 :: toks) k Q.
Proof. intros Hf [|t ts] l [= Ht Hts]. subst. by apply (Hf t eq_refl). Qed.

Lemma yields_peek_end {B} (f : Token -> P B) k Q :
  yields (f (default zeroToken (head k))) [] k Q -> yields (pbind peek f) [] k Q.
Proof. intros Hf [|t ts] l Hts; [|done]. by apply Hf. Qed.

Lemma yields_advance {B} (f : Token -> P B) t0 toks k Q :
  (forall t, forget t = t0 -> yields (f t) toks k Q) -> yields (pbind advance f) (t0 :: toks) k Q.
Proof. intros Hf [|t ts] l [= Ht Hts]. subst. by apply (Hf t eq_refl). Qed.

Lemma yields_eof {B} (f : bool -> P B) t0 toks k Q :
  yields (f false) (t0 :: toks) k Q -> yields (pbind eof f) (t0 :: toks) k Q.
Proof. intros Hf [|t ts] l Hts; [done|]. by apply Hf. Qed.

Lemma yields_eof_end {B} (f : bool -> P B) k Q :
  yields (f (bool_decide (k = []))) [] k Q -> yields (pbind eof f) [] k Q.
Proof. intros Hf [|t ts] l Hts; [|done]. by apply Hf. Qed.

Lemma yields_span {B} start (f : Span -> P B) toks k Q :
  (forall sp, yields (f sp) toks k Q) -> yields (pbind (spanFrom start) f) toks k Q.
Proof. intros Hf ts l Hts. by apply Hf. Qed.

Lemma yields_lift {A B} (o : outcome perror A) (f : A -> P B) a toks k Q :
  o = Done a -> yields (f a) toks k Q -> yields (pbind (lift o) f) toks k Q.
Proof. intros ->. done. Qed.

Lemma length_weight tokens : length tokens <= weight tokens.
Proof. induction tokens as [|t ts IH]; [done|]. unfold weight, tokenWeight in *. cbn [sum_list_with length]. lia. Qed.

Lemma yields_looping {A} (loop : nat -> P A) toks k Q :
  (forall n, length toks < n -> yields (loop n) toks k Q) -> yields (looping loop) toks k Q.
Proof.
  intros Hl ts l Hts. unfold looping. cbn [rest]. apply Hl; [|done].
  pose proof (length_weight (ts ++ k)) as Hw. rewrite length_app in Hw. apply (f_equal length) in Hts.
  rewrite length_map in Hts. lia.
Qed.

Lemma yields_skip {B} (p : Token -> bool) (f : unit -> P B) t0 toks k Q :
  (forall t, forget t = t0 -> p t = false) -> yields (f tt) (t0 :: toks) k Q ->
  yields (pbind (skipWhile p) f) (t0 :: toks) k Q.
Proof.
  intros Hp Hf [|t ts] l [= Ht Hts]. unfold pbind, skipWhile. cbn [app rest last skipWhile_from].
  rewrite (Hp t Ht). apply (Hf (t :: ts)). cbn [map]. congruence.
Qed.

(** Parsers of expressions, up to positions. *)
Definition reading (e e' : Expr) : Prop := eraseExpr e' = eraseExpr e.
Definition accepts (p : P Expr) (toks k : list Token) (e : Expr) : Prop := yields p toks k (reading e).
