(* ===== verification/PrintLevels.v ===== *)
(** * Reading printed tokens, level by level

    What each level of precedence of the expression parser makes of a term, and of
    one operator between two terms, given that the parser of terms reads them. *)

From Stdlib Require Import ZArith Lia Ascii.
From stdpp Require Import base tactics list strings option sets.
From S2P Require Import Prelude Lexer Literals Ast ExprParser SourceFmt PrintPieces PrintStrings PrintExpr PrintReads.

(** One step of a parser; and the tests on the tokens it looks at. *)
Ltac ystep :=
  first
  [ apply yields_peek; intros ? ?
  | apply yields_peek_end
  | apply yields_eof
  | apply yields_eof_end
  | apply yields_advance; intros ? ?
  | apply yields_span; intros ?
  | apply yields_looping; intros ? ? ].

Ltac ytests :=
  repeat match goal with
  | H : forget ?t = _ |- context [isKeywordWord ?t _] => rewrite <- (isKeywordWord_forget t), H
  | H : forget ?t = _ |- context [kindIs ?t _] => rewrite <- (kindIs_forget t), H
  | H : forget ?t = _ |- context [wordIn ?t _] => rewrite <- (wordIn_forget t), H
  | H : forget ?t = _ |- context [binaryOpFromToken ?t] => rewrite <- (binaryOp_forget t), H
  | H : forget ?t = _ |- context [unaryPredFromToken ?t] => rewrite <- (unaryPred_forget t), H
  | H : forget ?t = _ |- context [isArithmeticOp ?t] => rewrite <- (arithmetic_forget t), H
  end;
  repeat match goal with
  | |- context [isKeywordWord (W ?s) ?kw] =>
    let b := eval vm_compute in (isKeywordWord (W s) kw) in change (isKeywordWord (W s) kw) with b
  | |- context [kindIs (W ?s) ?k] =>
    let b := eval vm_compute in (kindIs (W s) k) in change (kindIs (W s) k) with b
  | |- context [wordIn (W ?s) ?l] =>
    let b := eval vm_compute in (wordIn (W s) l) in change (wordIn (W s) l) with b
  end; cbn [negb andb orb].

(** ** What stops a level *)

(** The level at which a token goes on with an expression before it. *)
Definition contLevel (t : Token) : nat :=
  if kindIs t TokenThread then 0
  else if wordIn t ["*"; "/"; "%"]%string then 1
  else if wordIn t ["+"; "-"]%string then 2
  else if isKeywordWord t "matches" || binaryOpFromToken t then 3
  else if wordIn t ["and"]%string then 4
  else if wordIn t ["or"]%string then 5
  else 6.

(** No level up to [n] goes on with [k]. *)
Definition after (n : nat) (k : list Token) : Prop := match k with [] => True | t :: _ => n < contLevel t end.

Lemma after_le m n k : after n k -> m <= n -> after m k.
Proof. destruct k; simpl; lia. Qed.

Ltac stops := eapply after_le; [eassumption|lia].

Lemma contLevel_forget t : contLevel (forget t) = contLevel t.
Proof. unfold contLevel. by rewrite kindIs_forget, !wordIn_forget, isKeywordWord_forget, binaryOp_forget. Qed.

Lemma after_stops n t :
  n < contLevel t ->
  kindIs t TokenThread = false /\
  (1 <= n -> wordIn t ["*"; "/"; "%"]%string = false) /\ (2 <= n -> wordIn t ["+"; "-"]%string = false) /\
  (3 <= n -> isKeywordWord t "matches" = false /\ binaryOpFromToken t = false) /\
  (4 <= n -> wordIn t ["and"]%string = false) /\ (5 <= n -> wordIn t ["or"]%string = false).
Proof.
  unfold contLevel. intros Hn.
  repeat match type of Hn with context [if ?b then _ else _] => destruct b eqn:? end; split_and!; try done; try lia;
    intros; try match goal with H : _ || _ = false |- _ => apply orb_false_iff in H as [? ?] end; split_and?; done || lia.
Qed.

(** A token that starts a term, as none of the levels takes it. *)
Definition startOk (t : Token) : bool :=
  negb (kindIs t TokenSep) && negb (kindIs t TokenThread) &&
  negb (wordIn t [")"; "]"; "}"; "not"; "not-empty"; "and"; "or"; "matches"]%string) &&
  negb (binaryOpFromToken t) && negb (isArithmeticOp t) && negb (kindIs t TokenWord && containsByte "," (tokText t)).

Section levels.
Context `{Unicode} (rec : P Expr) (sub : list Token -> outcome perror Expr).

Definition starts (toks : list Token) : Prop := match toks with t :: _ => startOk t = true | [] => False end.

Lemma pass_thread toks k e : accepts rec toks k e -> after 0 k -> accepts (parseThread rec sub) toks k e.
Proof.
  intros Hr Hk. eapply yields_last; [exact Hr|]. intros a Ha. ystep. destruct n; [lia|]. cbn [threadLoop].
  do 2 ystep. destruct k as [|t k]; cbn; [by apply yields_ret|].
  rewrite (proj1 (after_stops 0 t Hk)). by apply yields_ret.
Qed.

Lemma startOk_not t :
  startOk t = true ->
  isKeywordWord t "-" = false /\ isKeywordWord t "not" = false /\ unaryPredFromToken t = false /\
  isKeywordWord t ")" = false.
Proof.
  unfold startOk. intros Hs. repeat apply andb_prop in Hs as [Hs ?].
  repeat match goal with H : negb _ = true |- _ => apply negb_true_iff in H end.
  unfold isArithmeticOp, wordIn in *. cbn [existsb] in *.
  repeat match goal with H : _ || _ = false |- _ => apply orb_false_iff in H as [? ?] end. done.
Qed.

Lemma pass_predicate toks k e :
  accepts rec toks k e -> starts toks -> after 0 k -> accepts (parsePredicate rec sub) toks k e.
Proof.
  intros Hr Hs Hk. destruct toks as [|t0 toks]; [done|]. destruct (startOk_not _ Hs) as (Hm & _ & Hu & _).
  unfold parsePredicate. ystep. ytests. rewrite Hu. intros ts l Hts. unfold operandFollowsPred, pbind at 1. cbn [andb].
  revert ts l Hts. fold (yields (parseNegate rec sub) (t0 :: toks) k (reading e)).
  unfold parseNegate. ystep. destruct n; [lia|]. cbn [parseNegate_from]. ystep. ytests. rewrite Hm.
  by apply pass_thread.
Qed.

Lemma pass_chained ops next mk toks k e :
  accepts next toks k e -> match k with [] => True | t :: _ => wordIn t ops = false end ->
  accepts (chained ops next mk) toks k e.
Proof.
  intros Hr Hk. eapply yields_last; [exact Hr|]. intros a Ha. ystep. destruct n; [lia|]. cbn [chain].
  do 2 ystep. destruct k as [|t k]; cbn; [by apply yields_ret|]. rewrite Hk. by apply yields_ret.
Qed.
(** One operator of a chain. *)
Lemma chained_one ops next mk l0 l op r0 r k :
  wordIn (word op) ops = true ->
  (forall ts, map forget ts = word op :: r0 -> accepts next l0 (ts ++ k) l) -> accepts next r0 k r ->
  (forall a b sp, reading l a -> reading r b -> eraseExpr (mk a op b sp) = eraseExpr (mk l op r zeroSpan)) ->
  match k with [] => True | t :: _ => wordIn t ops = false end ->
  accepts (chained ops next mk) (l0 ++ word op :: r0) k (mk l op r zeroSpan).
Proof.
  intros Ho Hl Hr Hmk Hk. eapply yields_bind; [exact Hl|]. intros a Ha. ystep. destruct n; [lia|]. cbn [chain].
  do 2 ystep. ytests. rewrite Ho. ystep. eapply yields_last; [exact Hr|]. intros b Hb. unfold spanFromNodeStart.
  ystep. destruct n; [simpl in *; lia|]. cbn [chain]. do 2 ystep. destruct (forget_word _ _ H2) as [_ ->].
  destruct k as [|t' k]; cbn; [|rewrite Hk]; (apply yields_ret; by apply Hmk).
Qed.

(** ** Up the levels *)

Lemma after_forget n t0 r0 ts k : map forget ts = t0 :: r0 -> n < contLevel t0 -> after n (ts ++ k).
Proof. destruct ts as [|t ts]; [done|]. intros [= <- _]. by rewrite contLevel_forget. Qed.

Lemma after_ops n k (ops : list string) :
  after n k -> (forall t, n < contLevel t -> wordIn t ops = false) ->
  match k with [] => True | t :: _ => wordIn t ops = false end.
Proof. destruct k; [done|]. simpl. auto. Qed.

Lemma up_multiplicative toks k e :
  accepts (parsePredicate rec sub) toks k e -> after 1 k -> accepts (parseMultiplicative rec sub) toks k e.
Proof.
  intros Hp Hk. apply pass_chained; [done|]. eapply after_ops; [exact Hk|]. intros t Ht.
  destruct (after_stops 1 t Ht) as (_ & H1 & _). auto.
Qed.
Lemma up_additive toks k e :
  accepts (parseMultiplicative rec sub) toks k e -> after 2 k -> accepts (parseAdditive rec sub) toks k e.
Proof.
  intros Hp Hk. apply pass_chained; [done|]. eapply after_ops; [exact Hk|]. intros t Ht.
  destruct (after_stops 2 t Ht) as (_ & _ & H2 & _). auto.
Qed.
Lemma up_comparison toks k e :
  accepts (parseAdditive rec sub) toks k e -> after 3 k -> accepts (parseComparison rec sub) toks k e.
Proof.
  intros Hp Hk. eapply yields_last; [exact Hp|]. intros a Ha. do 2 ystep. destruct k as [|t k].
  { by apply yields_ret. }
  destruct (after_stops 3 t Hk) as (_ & _ & _ & [Hm Hb] & _); [lia|]. cbn [bool_decide head default]. cbn.
  rewrite Hm, Hb. by apply yields_ret.
Qed.
Lemma up_not toks k e :
  accepts (parseComparison rec sub) toks k e -> match toks with t :: _ => isKeywordWord t "not" = false | [] => False end ->
  accepts (parseNot rec sub) toks k e.
Proof.
  intros Hp Hn. destruct toks as [|t0 toks]; [done|]. unfold parseNot. ystep. destruct n; [lia|].
  cbn [parseNot_from]. ystep. ytests. by rewrite Hn.
Qed.
Lemma up_and toks k e :
  accepts (parseNot rec sub) toks k e -> after 4 k -> accepts (parseAnd rec sub) toks k e.
Proof.
  intros Hp Hk. apply pass_chained; [done|]. eapply after_ops; [exact Hk|]. intros t Ht.
  destruct (after_stops 4 t Ht) as (_ & _ & _ & _ & H4 & _). auto.
Qed.
Lemma up_or toks k e :
  accepts (parseAnd rec sub) toks k e -> after 5 k -> accepts (parseOr rec sub) toks k e.
Proof.
  intros Hp Hk. apply pass_chained; [done|]. eapply after_ops; [exact Hk|]. intros t Ht.
  destruct (after_stops 5 t Ht) as (_ & _ & _ & _ & _ & H5). auto.
Qed.

Definition notNot (toks : list Token) : Prop :=
  match toks with t :: _ => isKeywordWord t "not" = false | [] => False end.

Lemma starts_notNot toks : starts toks -> notNot toks.
Proof. destruct toks; [done|]. intros Ht%startOk_not. naive_solver. Qed.
Lemma notNot_app toks toks' : notNot toks -> notNot (toks ++ toks').
Proof. by destruct toks. Qed.

Lemma comparison_or toks k e :
  accepts (parseComparison rec sub) toks k e -> notNot toks -> after 5 k -> accepts (parseOr rec sub) toks k e.
Proof. intros. apply up_or; [|done]. apply up_and; [|stops]. by apply up_not. Qed.

Lemma predicate_or toks k e :
  accepts (parsePredicate rec sub) toks k e -> notNot toks -> after 5 k -> accepts (parseOr rec sub) toks k e.
Proof.
  intros Hp Hn Hk. apply comparison_or; [|done|done].
  apply up_comparison; [|stops]. apply up_additive; [|stops].
  apply up_multiplicative; [done|stops].
Qed.

(** ** Terms and operators *)

(** The parser of terms reads [toks] as [e], whatever follows. *)
Definition isTerm (toks : list Token) (e : Expr) : Prop := starts toks /\ forall k, accepts rec toks k e.

Lemma term_predicate toks k e : isTerm toks e -> after 0 k -> accepts (parsePredicate rec sub) toks k e.
Proof. intros [Hs Ht] Hk. by apply pass_predicate. Qed.
Lemma term_multiplicative toks k e : isTerm toks e -> after 1 k -> accepts (parseMultiplicative rec sub) toks k e.
Proof. intros. apply up_multiplicative; [apply term_predicate; [done|stops]|done]. Qed.
Lemma term_additive toks k e : isTerm toks e -> after 2 k -> accepts (parseAdditive rec sub) toks k e.
Proof. intros. apply up_additive; [apply term_multiplicative; [done|stops]|done]. Qed.
Lemma term_not toks k e : isTerm toks e -> after 3 k -> accepts (parseNot rec sub) toks k e.
Proof.
  intros Ht Hk. apply up_not; [|by apply starts_notNot, Ht]. apply up_comparison; [|done].
  apply term_additive; [done|stops].
Qed.
Lemma term_and toks k e : isTerm toks e -> after 4 k -> accepts (parseAnd rec sub) toks k e.
Proof. intros. apply up_and; [apply term_not; [done|stops]|done]. Qed.
Lemma term_or toks k e : isTerm toks e -> after 5 k -> accepts (parseOr rec sub) toks k e.
Proof. intros. apply up_or; [apply term_and; [done|stops]|done]. Qed.

Lemma reads_multiplicative l0 l op r0 r sp k :
  wordIn (word op) ["*"; "/"; "%"]%string = true -> isTerm l0 l -> isTerm r0 r -> after 5 k ->
  accepts (parseOr rec sub) (l0 ++ word op :: r0) k (BinaryExpr l op r sp).
Proof.
  intros Ho Hl Hr Hk. apply comparison_or; [|by apply notNot_app, starts_notNot, Hl|done].
  apply up_comparison; [|stops]. apply up_additive; [|stops].
  refine (chained_one _ _ BinaryExpr l0 l op r0 r k Ho _ _ _ _).
  - intros ts Hts. apply term_predicate; [done|]. eapply after_forget; [exact Hts|].
    unfold contLevel. rewrite Ho. by destruct (kindIs _ _) eqn:E; [|lia].
  - apply term_predicate; [done|stops].
  - intros a b sp' Ha Hb. cbn [eraseExpr]. by rewrite Ha, Hb.
  - eapply after_ops; [exact Hk|]. intros t Ht. destruct (after_stops 5 t Ht) as (_ & H1 & _). apply H1. lia.
Qed.

Lemma reads_additive l0 l op r0 r sp k :
  wordIn (word op) ["+"; "-"]%string = true -> 1 < contLevel (word op) -> isTerm l0 l -> isTerm r0 r -> after 5 k ->
  accepts (parseOr rec sub) (l0 ++ word op :: r0) k (BinaryExpr l op r sp).
Proof.
  intros Ho Hc Hl Hr Hk. apply comparison_or; [|by apply notNot_app, starts_notNot, Hl|done].
  apply up_comparison; [|stops]. refine (chained_one _ _ BinaryExpr l0 l op r0 r k Ho _ _ _ _).
  - intros ts Hts. apply term_multiplicative; [done|]. by eapply after_forget.
  - apply term_multiplicative; [done|stops].
  - intros a b sp' Ha Hb. cbn [eraseExpr]. by rewrite Ha, Hb.
  - eapply after_ops; [exact Hk|]. intros t Ht. destruct (after_stops 5 t Ht) as (_ & _ & H2 & _). apply H2. lia.
Qed.

Lemma reads_comparison l0 l op r0 r sp k :
  isBinaryOp op = true -> op <> B "matches" -> 2 < contLevel (word op) -> isTerm l0 l -> isTerm r0 r -> after 5 k ->
  accepts (parseOr rec sub) (l0 ++ word op :: r0) k (BinaryExpr l op r sp).
Proof.
  intros Ho Hm Hc Hl Hr Hk. apply comparison_or; [|by apply notNot_app, starts_notNot, Hl|done].
  eapply yields_bind.
  { intros ts Hts. apply term_additive; [exact Hl|]. by eapply after_forget. }
  intros a Ha. do 2 ystep. ytests. unfold isKeywordWord, binaryOpFromToken, kindIs, word. cbn [tokKind tokText plainToken].
  rewrite (bool_decide_false _ Hm), Ho. cbn [andb bool_decide]. cbn. ystep.
  eapply yields_last; [apply term_additive; [exact Hr|stops]|]. intros b Hb. unfold spanFromNodeStart. ystep.
  apply yields_ret. destruct (forget_word t op) as [_ ->]; [done|]. unfold reading. cbn [eraseExpr]. by rewrite Ha, Hb.
Qed.

Lemma reads_binary l0 l op r0 r sp k :
  among op operators = true -> isTerm l0 l -> isTerm r0 r -> after 5 k ->
  accepts (parseOr rec sub) (l0 ++ word op :: r0) k (BinaryExpr l op r sp).
Proof.
  intros (s & Hin & ->%bool_decide_eq_true)%existsb_exists Hl Hr Hk.
  unfold operators, comparisonOps, arithmeticOps in Hin. cbn [app In] in Hin.
  repeat destruct Hin as [<-|Hin]; try done;
    first [ apply reads_comparison; [done|done|vm_compute; lia|done..]
          | apply reads_additive; [done|vm_compute; lia|done..]
          | by apply reads_multiplicative ].
Qed.

Lemma reads_logical l0 l op r0 r sp k :
  among op ["and"; "or"]%string = true -> isTerm l0 l -> isTerm r0 r -> after 5 k ->
  accepts (parseOr rec sub) (l0 ++ word op :: r0) k (LogicalExpr op l r sp).
Proof.
  intros (s & Hin & ->%bool_decide_eq_true)%existsb_exists Hl Hr Hk.
  assert (forall a b sp', reading l a -> reading r b ->
    eraseExpr (logical a (B s) b sp') = eraseExpr (logical l (B s) r zeroSpan)) as Hmk.
  { intros a b sp' Ha Hb. cbn [eraseExpr logical]. by rewrite Ha, Hb. }
  destruct Hin as [<-|[<-|[]]].
  - apply up_or; [|done]. refine (chained_one ["and"]%string _ logical l0 l (B "and") r0 r k eq_refl _ _ Hmk _).
    + intros ts Hts. apply term_not; [done|]. eapply after_forget; [exact Hts|vm_compute; lia].
    + apply term_not; [done|stops].
    + eapply after_ops; [exact Hk|]. intros t Ht. destruct (after_stops 5 t Ht) as (_ & _ & _ & _ & H4 & _). apply H4. lia.
  - refine (chained_one ["or"]%string _ logical l0 l (B "or") r0 r k eq_refl _ _ Hmk _).
    + intros ts Hts. apply term_and; [done|]. eapply after_forget; [exact Hts|vm_compute; lia].
    + apply term_and; [done|stops].
    + eapply after_ops; [exact Hk|]. intros t Ht. destruct (after_stops 5 t Ht) as (_ & _ & _ & _ & _ & H5). apply H5. lia.
Qed.

(** ** Prefixes and threads *)

Lemma reads_not toks e sp k :
  isTerm toks e -> after 5 k -> accepts (parseOr rec sub) (W "not" :: toks) k (NotExpr e sp).
Proof.
  intros Ht Hk. apply up_or; [|done]. apply up_and; [|stops]. unfold parseNot. ystep.
  destruct n as [|[|n]]; [simpl in *; lia..|]. cbn [parseNot_from]. ystep. ytests. ystep.
  pose proof (starts_notNot _ (proj1 Ht)) as Hn. destruct toks as [|t1 toks]; [done|].
  eapply yields_last.
  - ystep. ytests. rewrite Hn. apply up_comparison; [apply term_additive; [exact Ht|stops]|stops].
  - intros a Ha. ystep. apply yields_ret. unfold reading. cbn [eraseExpr]. by rewrite Ha.
Qed.

Lemma negate_thread toks k e :
  accepts (parseNegate rec sub) toks k e ->
  match toks with t :: _ => unaryPredFromToken t = false | [] => False end -> accepts (parsePredicate rec sub) toks k e.
Proof.
  intros Hp Hu. destruct toks as [|t0 toks]; [done|]. unfold parsePredicate. ystep. ytests. rewrite Hu. exact Hp.
Qed.

Lemma reads_negate_tokens toks e sp k :
  isTerm toks e -> after 5 k -> accepts (parseOr rec sub) (W "-" :: toks) k (NegateExpr e sp).
Proof.
  intros Ht Hk. apply predicate_or; [|done|done]. apply negate_thread; [|done]. unfold parseNegate. ystep.
  destruct n as [|[|n]]; [simpl in *; lia..|]. cbn [parseNegate_from]. ystep. ytests. ystep. destruct Ht as [Hs Ht].
  destruct toks as [|t1 toks]; [done|]. destruct (startOk_not _ Hs) as (Hm & _). eapply yields_last.
  - ystep. ytests. rewrite Hm. apply pass_thread; [apply Ht|stops].
  - intros a Ha. ystep. apply yields_ret. unfold reading. cbn [eraseExpr]. by rewrite Ha.
Qed.

Lemma startOk_operand t :
  startOk t = true ->
  negb (kindIs t TokenThread) && negb (binaryOpFromToken t) && negb (isArithmeticOp t) &&
  negb (wordIn t ["and"; "or"; ")"]%string) = true.
Proof.
  unfold startOk, wordIn. cbn [existsb]. intros Hs. repeat apply andb_prop in Hs as [Hs ?].
  repeat match goal with H : negb _ = true |- _ => apply negb_true_iff in H end.
  repeat match goal with H : _ || _ = false |- _ => apply orb_false_iff in H as [? ?] end.
  repeat match goal with H : _ = false |- _ => rewrite H; clear H end. done.
Qed.

Lemma startOk_forget t : startOk (forget t) = startOk t.
Proof.
  unfold startOk. rewrite !kindIs_forget, wordIn_forget, binaryOp_forget, arithmetic_forget.
  destruct (kindIs t TokenWord) eqn:E; [|done]. by rewrite text_forget by (by rewrite E).
Qed.

Lemma yields_follows {B} (f : bool -> P B) t0 t1 toks k Q :
  startOk t1 = true -> yields (f true) (t0 :: t1 :: toks) k Q ->
  yields (pbind operandFollowsPred f) (t0 :: t1 :: toks) k Q.
Proof.
  intros Hs Hf [|u [|u' us]] l [= <- <- Hus]. rewrite startOk_forget in Hs.
  unfold pbind, operandFollowsPred. cbn [rest app]. rewrite startOk_operand by done.
  apply (Hf (u :: u' :: us)). cbn [map]. by rewrite Hus.
Qed.

Lemma reads_unary toks e sp k :
  isTerm toks e -> after 5 k -> accepts (parseOr rec sub) (W "not-empty" :: toks) k (UnaryExpr (B "not-empty") e sp).
Proof.
  intros [Hs Ht] Hk. apply predicate_or; [|done|done]. destruct toks as [|t1 toks]; [done|].
  unfold parsePredicate. ystep. ytests. apply yields_follows; [done|]. cbn. ystep.
  eapply yields_last; [apply Ht|]. intros a Ha. ystep. apply yields_ret.
  destruct (forget_word t (B "not-empty")) as [_ ->]; [done|]. unfold reading. cbn [eraseExpr]. by rewrite Ha.
Qed.

(** The arguments of a thread are primaries. *)
Definition isPrimary (t0 : Token) (e : Expr) : Prop :=
  forall t, forget t = t0 -> exists e', parsePrimary sub t = Done e' /\ reading e e'.

Definition threadEnds (t : Token) : bool :=
  kindIs t TokenThread || binaryOpFromToken t || isArithmeticOp t || wordIn t ["and"; "or"; ")"; "]"; "}"]%string.

Lemma reads_threadArgs k : (match k with [] => True | t :: _ => threadEnds t = true end) ->
  forall toks args acc n, length toks < n ->
  Forall2 (fun t0 e => threadEnds t0 = false /\ isPrimary t0 e) toks args ->
  yields (threadArgs sub n acc) toks k (fun l => exists l', l = acc ++ l' /\ map eraseExpr l' = map eraseExpr args).
Proof.
  intros Hk toks args acc n Hn Hp. revert acc n Hn. induction Hp as [|t0 e toks args [He Hp] _ IH]; intros acc n Hn;
    (destruct n as [|n]; [simpl in Hn; lia|]); cbn [threadArgs]; do 2 ystep.
  - assert (yields (pret acc) [] k (fun l => exists l', l = acc ++ l' /\ map eraseExpr l' = [])) as Hr.
    { apply yields_ret. exists []. by rewrite app_nil_r. }
    destruct k as [|t k]; [exact Hr|]. rewrite bool_decide_false by done. change (default zeroToken (head (t :: k))) with t.
    unfold threadEnds in Hk. cbn [orb]. by rewrite Hk.
  - ytests. unfold threadEnds in He. rewrite He. ystep. destruct (Hp t) as (e' & E & Hr); [done|].
    apply yields_lift with e'; [done|]. eapply yields_weaken; [apply IH; simpl in Hn; lia|].
    intros l (l' & -> & Hl). exists (e' :: l'). rewrite <- app_assoc. split; [done|]. cbn [map]. by rewrite Hl, Hr.
Qed.

Lemma reads_thread_tokens lhs0 lhs toks args pp sp k :
  isTerm lhs0 lhs -> args <> [] -> Forall2 (fun t0 e => threadEnds t0 = false /\ isPrimary t0 e) toks args ->
  after 5 k -> (match k with [] => True | t :: _ => threadEnds t = true end) ->
  accepts (parseOr rec sub) (lhs0 ++ plainToken TokenThread (B "|>") :: toks) k (ThreadExpr lhs args pp sp).
Proof.
  intros [Hs Ht] Hne Hp Hk Hk'. apply predicate_or; [|by apply notNot_app, starts_notNot|done].
  destruct lhs0 as [|t0 lhs0]; [done|]. destruct (startOk_not _ Hs) as (Hm & _ & Hu & _). cbn [app].
  apply negate_thread; [|done]. unfold parseNegate. ystep. destruct n; [lia|]. cbn [parseNegate_from].
  ystep. ytests. rewrite Hm. unfold parseThread. apply (yields_bind _ _ (t0 :: lhs0) (_ :: toks)) with (Qm := reading lhs).
  { intros. apply Ht. }
  intros a Ha. ystep. destruct n0 as [|[|n0]]; [simpl in *; lia..|]. cbn [threadLoop]. do 2 ystep. ytests.
  change (kindIs (plainToken TokenThread (B "|>")) TokenThread) with true. cbn [andb]. ystep. unfold parseThreadRHS.
  apply (yields_last _ _ _ _ (fun l => map eraseExpr l = map eraseExpr args)).
  - eapply yields_last; [ystep; by apply reads_threadArgs|]. intros l (l' & -> & Hl). cbn [app].
    destruct l' as [|x l']; [by destruct args|]. apply yields_ret. exact Hl.
  - intros l Hl. unfold spanFromNodeStart. ystep. do 2 ystep.
    assert (negb (bool_decide (k = [])) && kindIs (default zeroToken (head k)) TokenThread = false) as ->.
    { destruct k as [|t' k]; [done|]. rewrite bool_decide_false by done. apply (after_stops 5 t' Hk). }
    apply yields_ret. unfold reading. cbn [eraseExpr]. by rewrite Ha, Hl.
Qed.
End levels.
