(* ===== verification/PrintTerms.v ===== *)
(** * Reading printed tokens: terms and matches blocks

    And: stripSeps leaves the tokens of a printed expression as they are. *)

From Stdlib Require Import ZArith Lia Ascii.
From stdpp Require Import base tactics list strings option sets.
From S2P Require Import Prelude Lexer LexerPos LexerPrint Literals Ast ExprParser SourceFmt PrintPieces PrintStrings PrintExpr PrintReads PrintLevels.

(** ** Primaries *)

Section primaries.
Context `{Unicode} (sub : list Token -> outcome perror Expr).

Lemma primary_word text sp : text <> B "nil" -> isPrimary sub (word text) (LiteralExpr text false sp).
Proof.
  intros Hn t [Hk Ht]%forget_word. unfold parsePrimary. rewrite Hk, Ht, bool_decide_false by done. by eexists.
Qed.

Lemma primary_quoted text sp : isPrimary sub (plainToken TokenQuoted text) (LiteralExpr text true sp).
Proof.
  intros t Ht. pose proof (kind_forget t) as Hk. rewrite Ht in Hk. unfold forget in Ht. unfold parsePrimary.
  rewrite <- Hk in *. simpl in *. injection Ht as <-. by eexists.
Qed.

Lemma primary_ref name path sp : isPrimary sub (varShape name path) (VarRefExpr name path sp).
Proof.
  intros t Ht. pose proof (kind_forget t) as Hk. rewrite Ht in Hk. unfold forget in Ht. unfold parsePrimary.
  rewrite <- Hk in *. simpl in *. injection Ht as <- <-. by eexists.
Qed.

Lemma primary_adapter adapter name path sp :
  isPrimary sub (adapterShape adapter name path) (AdapterExpr adapter name path sp).
Proof.
  intros t Ht. pose proof (kind_forget t) as Hk. rewrite Ht in Hk. unfold forget in Ht. unfold parsePrimary.
  rewrite <- Hk in *. simpl in *. injection Ht as <- <- <-. by eexists.
Qed.

(** The body of an interpolated reference. *)
Lemma interpBody_ref name path sp :
  refOk name path = true ->
  exists sp', parseInterpBody sub (refBody name path) sp = Done (VarRefExpr name path sp').
Proof.
  intros Hr. unfold parseInterpBody.
  rewrite printing_untrimmed.
  2: { eapply Forall_impl; [by apply refOk_bytes|]. by intros c [? _]%refByte_spec. }
  destruct (refOk_head _ _ Hr) as (c & r & Hb & Hc).
  destruct (refBody name path) as [|c' r'] eqn:E; [done|]. injection Hb as -> ->.
  assert ((c =? dollar)%char = false) as -> by (apply eqb_false; intros ->; done).
  cbv zeta. unfold tokeniseInner. match goal with |- context [tokeniseAt _ ?st (dollar :: _)] =>
    destruct (reads_tokens _ _ st (S (length (dollar :: c :: r))) (reads_ref _ _ Hr)) as (ts & Et & Hts) end.
  { unfold refSource. rewrite E. simpl. lia. }
  unfold refSource in Et. rewrite E in Et. rewrite Et. destruct ts as [|t [|t' ts]]; [done| |done].
  injection Hts as Ht. rewrite <- (kindIs_forget t), Ht.
  destruct (primary_ref name path zeroSpan t Ht) as (e' & Ee & _). unfold forget in Ht.
  destruct (tokKind t); try done. injection Ht as -> ->. by eexists.
Qed.

Lemma segments_read segs : forall b toks,
  segmentsOk b segs = true -> map forgetSeg toks = map segShape segs ->
  exists segs', parseSegments sub toks = Done segs' /\ map eraseSegment segs' = map eraseSegment segs.
Proof.
  induction segs as [|seg segs IH]; intros b [|tok toks] Hok [=]; [by exists []|].
  destruct tok as [lit inner sp isLit]. cbn [parseSegments segIsLit segInner segLiteral segSpan].
  destruct seg as [text|[]]; cbn [segmentsOk segShape forgetSeg] in *; try done.
  - apply andb_prop in Hok as [_ Hok]. destruct (IH _ toks Hok) as (segs' & E & Hs); [done|].
    unfold forgetSeg in *. simplify_eq/=. rewrite E. eexists. split; [reflexivity|]. simpl. by rewrite Hs.
  - apply andb_prop in Hok as [Hr Hok]. destruct (IH _ toks Hok) as (segs' & E & Hs); [done|].
    unfold forgetSeg in *. simplify_eq/=. destruct (interpBody_ref Name Path sp Hr) as (sp' & Eb).
    rewrite Eb, E. eexists. split; [reflexivity|]. simpl. by rewrite Hs.
Qed.

Lemma primary_interp segs sp : interpOk segs = true -> isPrimary sub (interpShape segs) (InterpStringExpr segs sp).
Proof.
  intros [Hok _]%andb_prop t Ht. pose proof (kind_forget t) as Hk. rewrite Ht in Hk. unfold forget in Ht.
  unfold parsePrimary. rewrite <- Hk in *. simpl in *. injection Ht as Ht.
  destruct (segments_read _ _ _ Hok Ht) as (segs' & E & Hs). rewrite E. eexists. split; [reflexivity|].
  unfold reading. cbn [eraseExpr]. by rewrite Hs.
Qed.
End primaries.

(** ** Parentheses, lists, records and calls *)

(** An expression ends here: at the end of the input or at a closing parenthesis. *)
Definition ends (k : list Token) : Prop := match k with [] => True | t :: _ => isKeywordWord t ")" = true end.

Lemma keyword_word t kw : isKeywordWord t kw = true -> tokKind t = TokenWord /\ tokText t = B kw.
Proof. intros [Hk%bool_decide_eq_true Ht%bool_decide_eq_true]%andb_prop. done. Qed.

Lemma ends_after k : ends k -> after 5 k.
Proof.
  destruct k as [|t k]; [done|]. intros [Hk Ht]%keyword_word. unfold after, contLevel, wordIn, isKeywordWord, kindIs,
    binaryOpFromToken, kindIs. rewrite Hk, Ht. vm_compute. lia.
Qed.

Lemma ends_thread k : ends k -> match k with [] => True | t :: _ => threadEnds t = true end.
Proof.
  destruct k as [|t k]; [done|]. intros [Hk Ht]%keyword_word. unfold threadEnds, wordIn, isKeywordWord, kindIs,
    isArithmeticOp, wordIn, isKeywordWord, binaryOpFromToken, kindIs. by rewrite Hk, Ht.
Qed.

Section terms.
Context `{Unicode} (rec : P Expr) (sub : list Token -> outcome perror Expr).

Definition isExpr (toks : list Token) (e : Expr) : Prop :=
  match toks with t :: _ => isKeywordWord t ")" = false | [] => False end /\
  forall k, ends k -> accepts (parseOr rec sub) toks k e.

Lemma reads_parens_tokens toks k e :
  isExpr toks e -> accepts (parseParens rec sub) (W "(" :: toks ++ [W ")"]) k e.
Proof.
  intros [Hh Ht]. unfold parseParens. ystep. destruct toks as [|t0 toks]; [done|]. cbn [app]. ystep. ytests. rewrite Hh.
  eapply (yields_bind _ _ (t0 :: toks) [_]).
  - intros ts2 H2. apply Ht. destruct ts2 as [|t2 ts2]; [done|]. injection H2 as H2 _. cbn [app ends].
    by rewrite <- isKeywordWord_forget, H2.
  - intros a Ha. ystep. ytests. ystep. by apply yields_ret.
Qed.

(** The tests of the list loop. *)
Lemma startOk_list t :
  startOk t = true ->
  isKeywordWord t "]" = false /\ binaryOpFromToken t = false /\ isArithmeticOp t = false /\
  kindIs t TokenThread = false /\ wordIn t ["and"; "or"]%string = false /\
  kindIs t TokenWord && containsByte "," (tokText t) = false /\ isSepToken t = false.
Proof.
  unfold startOk, wordIn, isSepToken. cbn [existsb]. intros Hs. repeat apply andb_prop in Hs as [Hs ?].
  repeat match goal with H : negb _ = true |- _ => apply negb_true_iff in H end.
  repeat match goal with H : _ || _ = false |- _ => apply orb_false_iff in H as [? ?] end.
  split_and!; try done. by repeat match goal with H : _ = false |- _ => rewrite H; clear H end.
Qed.

Lemma concat_length_le (l : list (list Token)) : Forall (fun x => x <> []) l -> length l <= length (concat l).
Proof.
  induction 1 as [|x l Hx _ IH]; [done|]. cbn [concat length]. rewrite length_app. destruct x; [done|]. simpl. lia.
Qed.

Lemma isTerm_nonempty toks e : isTerm rec toks e -> toks <> [].
Proof. intros [Hs _] ->. done. Qed.

Lemma reads_listElems openTok k toks elems :
  Forall2 (isTerm rec) toks elems -> forall acc n, length toks < n ->
  yields (listElems rec n openTok acc) (concat toks ++ [W "]"]) k
    (fun e => exists l sp, e = ListExpr (acc ++ l) sp /\ map eraseExpr l = map eraseExpr elems).
Proof.
  induction 1 as [|x e toks elems [Hs Ht] _ IH]; intros acc n Hn; (destruct n as [|n]; [simpl in Hn; lia|]);
    cbn [listElems concat app].
  - apply yields_skip. { intros t Ht. unfold isSepToken. by ytests. }
    do 2 ystep. ytests. ystep. ystep. apply yields_ret. exists [], sp. by rewrite app_nil_r.
  - destruct x as [|t0 x]; [done|]. destruct (startOk_list _ Hs) as (H1 & H2 & H3 & H4 & H5 & H6 & H7). cbn [app].
    apply yields_skip. { intros t Htt. unfold isSepToken in *. ytests. done. }
    do 2 ystep. assert (kindIs t TokenWord && containsByte "," (tokText t) = false) as ->.
    { rewrite <- (wordTest_forget t (containsByte ",")), H0. exact H6. }
    ytests. rewrite H1, H2, H3, H4, H5. rewrite <- app_assoc.
    eapply (yields_bind _ _ (t0 :: x)); [intros; apply Ht|]. intros a Ha.
    eapply yields_weaken; [apply IH; simpl in Hn; lia|]. intros e' (l & sp & -> & Hl). exists (a :: l), sp.
    rewrite <- app_assoc. split; [done|]. cbn [map]. by rewrite Hl, Ha.
Qed.

Lemma reads_listLiteral toks elems sp k :
  Forall2 (isTerm rec) toks elems ->
  accepts (parseListLiteral rec) (W "[" :: concat toks ++ [W "]"]) k (ListExpr elems sp).
Proof.
  intros Hl. unfold parseListLiteral. ystep. ystep. eapply yields_weaken; [apply reads_listElems; [exact Hl|]|].
  - assert (length toks <= length (concat toks)).
    { apply concat_length_le. clear -Hl. induction Hl; constructor; [by eapply isTerm_nonempty|done]. }
    rewrite length_app in *. simpl in *. lia.
  - intros e (l & sp' & -> & E). unfold reading. cbn [eraseExpr app]. by rewrite E.
Qed.

(** Fields of a record. *)
Lemma hasSuffix_label name : hasSuffixByte ":" (labelOf name) = true.
Proof. unfold hasSuffixByte, labelOf. by rewrite reverse_app. Qed.
Lemma dropLast_label name : dropLast (labelOf name) = name.
Proof.
  unfold dropLast, labelOf. rewrite length_app. simpl. replace (length name + 1 - 1) with (length name) by lia.
  apply take_app_length.
Qed.
Lemma label_not_keyword name kw : reverse (B kw) !! 0 <> Some ":"%char -> isKeywordWord (word (labelOf name)) kw = false.
Proof.
  intros Hk. apply andb_false_iff. right. apply bool_decide_eq_false. cbn [tokText word plainToken]. intros E.
  apply Hk. rewrite <- E. unfold labelOf. by rewrite reverse_app.
Qed.

Definition fieldToks (f : bytes * list Token) : list Token := word (labelOf (fst f)) :: snd f.

Lemma reads_recordFields recordTok openTok k fs fields :
  Forall2 (fun f field => match field with MkRecordField name e _ => fst f = name /\ fieldNameOk name = true /\ isTerm rec (snd f) e end)
    fs fields ->
  forall acc seen n, length fs < n -> NoDup (map fst fs) -> (forall f, f ∈ fs -> fst f ∉ seen) ->
  yields (recordFields rec n recordTok openTok acc seen) (concat (map fieldToks fs) ++ [W "}"]) k
    (fun e => exists l sp, e = RecordExpr (acc ++ l) sp /\ map eraseField l = map eraseField fields).
Proof.
  induction 1 as [|[name x] [name' e spf] fs fields (Hname & Hok & Hs & Ht) _ IH]; intros acc seen n Hn Hd Hseen;
    (destruct n as [|n]; [simpl in Hn; lia|]); cbn [recordFields concat map app].
  - apply yields_skip. { intros t Ht. unfold isSepToken. by ytests. }
    do 2 ystep. ytests. ystep. ystep. apply yields_ret. exists [], sp. by rewrite app_nil_r.
  - cbn [fst snd] in *. subst name'. unfold fieldToks at 1. cbn [fst snd app].
    apply yields_skip. { intros t Htt. unfold isSepToken. by ytests. }
    do 2 ystep. destruct (forget_word _ _ H0) as [Hk Htext]. ytests. rewrite label_not_keyword by done.
    change (kindIs (word (labelOf name)) TokenWord) with true. cbn [andb negb orb].
    unfold fieldNameOk in Hok. apply andb_prop in Hok as [[Hw Hi]%andb_prop Hc%negb_true_iff].
    rewrite Htext, hasSuffix_label, dropLast_label, Hi. cbn [negb].
    assert (containsByte "," (labelOf name) = false) as ->.
    { unfold containsByte, labelOf in *. by rewrite existsb_app, Hc. }
    rewrite bool_decide_false by (apply (Hseen (name, x)); set_solver). ystep.
    destruct x as [|x0 x]; [done|]. cbn [app]. ystep. rewrite <- app_assoc. cbn iota.
    eapply (yields_bind _ _ (x0 :: x)); [intros; apply Ht|]. intros a Ha. ystep.
    cbn [map fst] in Hd. apply NoDup_cons in Hd as [Hnin Hd].
    eapply yields_weaken; [apply IH; [simpl in Hn; lia|done|]|].
    + intros f Hf. apply not_elem_of_cons. split; [|apply Hseen; set_solver].
      intros E. apply Hnin. rewrite <- E. by apply list_elem_of_fmap_2.
    + intros e' (l & sp' & -> & Hl). exists (MkRecordField name a sp :: l), sp'. rewrite <- app_assoc. split; [done|].
      cbn [map eraseField]. by rewrite Hl, Ha.
Qed.

Lemma reads_recordLiteral fs fields sp k :
  Forall2 (fun f field => match field with MkRecordField name e _ => fst f = name /\ fieldNameOk name = true /\ isTerm rec (snd f) e end)
    fs fields ->
  NoDup (map fst fs) ->
  accepts (parseRecordLiteral rec) (W "record" :: W "{" :: concat (map fieldToks fs) ++ [W "}"]) k (RecordExpr fields sp).
Proof.
  intros Hf Hd. unfold parseRecordLiteral. ystep. apply yields_skip. { intros u Hu. unfold isSepToken. by ytests. }
  ystep. ytests. ystep. ystep. eapply yields_weaken; [apply reads_recordFields; [exact Hf| |done|set_solver]|].
  - assert (length fs <= length (concat (map fieldToks fs))).
    { rewrite <- (length_map fieldToks fs) at 1. apply concat_length_le. apply Forall_forall.
      intros x Hx. apply list_elem_of_fmap in Hx as (f & -> & _). done. }
    rewrite length_app in *. simpl in *. lia.
  - intros e (l & sp' & -> & E). unfold reading. cbn [eraseExpr app]. by rewrite E.
Qed.

(** Arguments of pure calls. *)
Definition isArg (toks : list Token) (e : Expr) : Prop :=
  match toks with t :: _ => canStartPureCallArgToken t = true | [] => False end /\
  forall k, accepts (parsePureCallArg rec sub) toks k e.

Lemma arg_parens toks e : isExpr toks e -> isArg (W "(" :: toks ++ [W ")"]) e.
Proof.
  intros He. split; [done|]. intros k. unfold parsePureCallArg. ystep. ytests. by apply reads_parens_tokens.
Qed.

Lemma arg_list toks elems sp :
  Forall2 (isTerm rec) toks elems -> isArg (W "[" :: concat toks ++ [W "]"]) (ListExpr elems sp).
Proof.
  intros He. split; [done|]. intros k. unfold parsePureCallArg. ystep. ytests. by apply reads_listLiteral.
Qed.

Lemma noError_valid t text : forget t = word text -> noError text = true -> validateExpressionWordLiteral t = None.
Proof.
  intros [Hk Ht]%forget_word. unfold noError, validateExpressionWordLiteral, kindIs. rewrite Hk, Ht.
  cbn [tokKind tokText word plainToken]. destruct (negb _); [done|]. destruct (containsByte _ _); [done|].
  destruct (_ && _); [|done]. by destruct (validJSONNumber _).
Qed.

Lemma yields_primary t0 e t k :
  forget t = t0 -> isPrimary sub t0 e -> accepts (advance >>> lift (parsePrimary sub t)) [t0] k e.
Proof.
  intros Ht Hp. destruct (Hp t Ht) as (e' & E & Hr). ystep. rewrite E. intros [|] l' Hl; [|done]. by exists e', l'.
Qed.

Lemma arg_primary t0 e :
  isPrimary sub t0 e -> (exists k, k ∈ [TokenQuoted; TokenVarRef; TokenAdapterRef; TokenInterpString] /\ tokKind t0 = k) ->
  isArg [t0] e.
Proof.
  intros Hp (kd & Hin & Hkd). assert (forall kw, isKeywordWord t0 kw = false) as Hw.
  { intros kw. unfold isKeywordWord, kindIs. rewrite Hkd. rewrite bool_decide_false; [done|]. intros ->. set_solver. }
  split.
  - unfold canStartPureCallArgToken. destruct (wordIn _ _); [done|]. rewrite Hkd. clear -Hin.
    repeat (apply elem_of_cons in Hin as [->|Hin]; [done|]). set_solver.
  - intros k. unfold parsePureCallArg. ystep. ytests. rewrite !Hw. rewrite <- (kind_forget t), H0, Hkd. clear Hkd Hw.
    repeat (apply elem_of_cons in Hin as [->|Hin]; [by apply yields_primary|]). set_solver.
Qed.

Lemma among_keyword text l kw :
  among text l = false -> bool_decide (kw ∈ l) = true -> isKeywordWord (word text) kw = false.
Proof.
  intros Ha Hin%bool_decide_eq_true. apply andb_false_iff. right. apply bool_decide_eq_false. cbn. intros ->.
  assert (among (B kw) l = true); [|congruence]. apply existsb_exists. exists kw.
  split; [by apply list_elem_of_In|by apply bool_decide_eq_true].
Qed.

Lemma among_sublist text l l' : among text l = false -> forallb (fun s => bool_decide (s ∈ l)) l' = true -> among text l' = false.
Proof.
  intros Ha Hs. apply not_true_iff_false. intros (s & Hin & E)%existsb_exists.
  rewrite forallb_forall in Hs. apply Hs, bool_decide_eq_true in Hin.
  assert (among text l = true); [|congruence]. apply existsb_exists. exists s. split; [by apply list_elem_of_In|done].
Qed.

Lemma among_wordIn text l : wordIn (word text) l = among text l.
Proof. done. Qed.

Lemma wordOk_not text kw : wordOk text = true -> wordOk (B kw) = false -> isKeywordWord (word text) kw = false.
Proof.
  intros Hw Hk. apply andb_false_iff. right. apply bool_decide_eq_false. cbn. intros ->. congruence.
Qed.

Lemma arg_word text sp : argLiteralOk text = true -> isArg [word text] (LiteralExpr text false sp).
Proof.
  unfold argLiteralOk. intros [[Hw He]%andb_prop Ha%negb_true_iff]%andb_prop.
  assert (among text comparisonOps = false) as Hb by (by refine (among_sublist _ _ _ Ha _)).
  assert (among text arithmeticOps = false) as Har by (by refine (among_sublist _ _ _ Ha _)).
  assert (among text ["and"; "or"; "not"]%string = false) as Hl by (by refine (among_sublist _ _ _ Ha _)).
  assert (isKeywordWord (word text) "(" = false /\ isKeywordWord (word text) "[" = false) as [H1 H2]
    by (split; by apply wordOk_not).
  assert (binaryOpFromToken (word text) = false) as Hb' by exact Hb.
  assert (isArithmeticOp (word text) = false) as Har' by exact Har.
  split.
  - unfold canStartPureCallArgToken. rewrite Hb', Har', (among_wordIn text ["and"; "or"; "not"]%string), Hl.
    by destruct (wordIn _ _).
  - intros k. unfold parsePureCallArg. ystep. ytests. rewrite H1, H2, Hb', Har', (among_wordIn text _), Hl.
    cbn [orb]. rewrite <- (kind_forget t), H0. cbn [tokKind word plainToken].
    rewrite (noError_valid t text) by done. apply yields_primary; [done|]. apply primary_word. intros ->. done.
Qed.

Lemma reads_pureCallArgs nameTok k toks args :
  Forall2 isArg toks args -> forall acc,
  yields (pureCallArgs rec sub (length args) nameTok acc) (concat toks) k
    (fun l => exists l', l = acc ++ l' /\ map eraseExpr l' = map eraseExpr args).
Proof.
  induction 1 as [|x e toks args [Hs Ht] _ IH]; intros acc; cbn [length pureCallArgs concat].
  - apply yields_ret. exists []. by rewrite app_nil_r.
  - destruct x as [|t0 x]; [done|]. cbn [app]. ystep. cbn iota.
    eapply (yields_bind _ _ (t0 :: x)); [intros; apply Ht|]. intros a Ha.
    eapply yields_weaken; [apply IH|]. intros l (l' & -> & Hl). exists (a :: l'). rewrite <- app_assoc. split; [done|].
    cbn [map]. by rewrite Hl, Ha.
Qed.

Lemma reads_pureCall name toks args sp k :
  Forall2 isArg toks args ->
  accepts (parsePureCall rec sub (length args)) (word name :: concat toks) k (PureCallExpr name args sp).
Proof.
  intros Ha. unfold parsePureCall. ystep. eapply yields_last; [by apply reads_pureCallArgs|].
  intros l (l' & -> & Hl). ystep. apply yields_ret. destruct (forget_word t name) as [_ ->]; [done|].
  unfold reading. cbn [eraseExpr app]. by rewrite Hl.
Qed.

(** ** Terms *)

Lemma term_parens toks e : isExpr toks e -> isTerm (termBody rec sub) (W "(" :: toks ++ [W ")"]) e.
Proof.
  intros He. split; [done|]. intros k. unfold termBody. do 2 ystep. ytests. by apply reads_parens_tokens.
Qed.

Lemma term_list toks elems sp :
  Forall2 (isTerm rec) toks elems -> isTerm (termBody rec sub) (W "[" :: concat toks ++ [W "]"]) (ListExpr elems sp).
Proof.
  intros He. split; [done|]. intros k. unfold termBody. do 2 ystep. ytests. by apply reads_listLiteral.
Qed.

Lemma term_record fs fields sp :
  Forall2 (fun f field => match field with MkRecordField name e _ => fst f = name /\ fieldNameOk name = true /\ isTerm rec (snd f) e end)
    fs fields ->
  NoDup (map fst fs) ->
  isTerm (termBody rec sub) (W "record" :: W "{" :: concat (map fieldToks fs) ++ [W "}"]) (RecordExpr fields sp).
Proof.
  intros He Hd. split; [done|]. intros k. unfold termBody. do 2 ystep. ytests. by apply reads_recordLiteral.
Qed.

Lemma term_primary t0 e :
  isPrimary sub t0 e -> (exists k, k ∈ [TokenQuoted; TokenVarRef; TokenAdapterRef; TokenInterpString] /\ tokKind t0 = k) ->
  isTerm (termBody rec sub) [t0] e.
Proof.
  intros Hp (kd & Hin & Hkd).
  assert (kindIs t0 TokenWord = false /\ kindIs t0 TokenSep = false /\ kindIs t0 TokenThread = false) as (Hk1 & Hk2 & Hk3).
  { unfold kindIs. rewrite Hkd. split_and!; apply bool_decide_eq_false; intros ->; set_solver. }
  split.
  - unfold starts, startOk, isArithmeticOp, wordIn, isKeywordWord, binaryOpFromToken. by rewrite Hk1, Hk2, Hk3.
  - intros k. unfold termBody. do 2 ystep. unfold validateExpressionWordLiteral. ytests.
    unfold isKeywordWord. rewrite Hk1. cbn. by apply yields_primary.
Qed.

Lemma not_builtin text :
  among text (map fst pureBuiltinRegistry) = false -> lookupPureBuiltin text = None.
Proof.
  intros Ha. unfold lookupPureBuiltin. destruct (find _ _) as [p|] eqn:E; [|done].
  apply find_some in E as [Hin E%bool_decide_eq_true]. exfalso.
  assert (among text (map fst pureBuiltinRegistry) = true); [|congruence].
  apply existsb_exists. exists (fst p). split; [by apply in_map|by apply bool_decide_eq_true].
Qed.

Lemma term_word text sp : literalOk text = true -> isTerm (termBody rec sub) [word text] (LiteralExpr text false sp).
Proof.
  unfold literalOk. intros [[Hw He]%andb_prop Ha%negb_true_iff]%andb_prop.
  assert (among text comparisonOps = false) as Hb by (by refine (among_sublist _ _ _ Ha _)).
  assert (among text arithmeticOps = false) as Har by (by refine (among_sublist _ _ _ Ha _)).
  assert (among text ["not"; "not-empty"; "and"; "or"; "matches"]%string = false) as Hl by (by refine (among_sublist _ _ _ Ha _)).
  assert (lookupPureBuiltin text = None) as Hnb by (apply not_builtin; by refine (among_sublist _ _ _ Ha _)).
  split.
  - unfold starts, startOk. change (isArithmeticOp (word text)) with (among text arithmeticOps).
    change (binaryOpFromToken (word text)) with (among text comparisonOps). rewrite Hb, Har. cbn [negb andb].
    change (kindIs (word text) TokenWord) with true. cbn [andb].
    assert (containsByte "," text = false) as Hc.
    { unfold noError, validateExpressionWordLiteral in He. cbn [kindIs tokText word plainToken] in He.
      by destruct (containsByte "," text). }
    cbn [tokText word plainToken]. rewrite Hc. cbn [wordIn existsb] in *. unfold wordIn. cbn [existsb].
    rewrite !wordOk_not by done. cbn [orb].
    change (negb (among text ["not"; "not-empty"; "and"; "or"; "matches"]%string) && true && true && true = true).
    by rewrite Hl.
  - intros k. unfold termBody. do 2 ystep. rewrite (noError_valid t text) by done.
    destruct (forget_word _ _ H0) as [Hk Ht]. unfold kindIs at 1. rewrite Hk, Ht, Hnb.
    ytests. rewrite !wordOk_not by done. rewrite (among_keyword text _ "record" Ha) by done.
    cbn. apply yields_primary; [done|]. apply primary_word. intros ->. done.
Qed.

Lemma canStart_forget t : canStartPureCallArgToken (forget t) = canStartPureCallArgToken t.
Proof.
  unfold canStartPureCallArgToken. by rewrite !wordIn_forget, binaryOp_forget, arithmetic_forget, kind_forget.
Qed.

Lemma yields_second {B} (f : bool -> P B) t0 t1 toks k Q :
  canStartPureCallArgToken t1 = true -> yields (f true) (t0 :: t1 :: toks) k Q ->
  yields (pbind secondStartsArg f) (t0 :: t1 :: toks) k Q.
Proof.
  intros Hs Hf [|u [|u' us]] l [= <- <- Hus]. rewrite canStart_forget in Hs.
  unfold pbind, secondStartsArg. cbn [rest app]. rewrite Hs. apply (Hf (u :: u' :: us)). cbn [map]. by rewrite Hus.
Qed.

(** A name of the registry starts a term and is none of its keywords. *)
Lemma builtin_spec name n :
  lookupPureBuiltin name = Some n ->
  startOk (word name) = true /\ wordIn (word name) ["("; "["; "record"]%string = false /\ (n <> 0)%nat.
Proof.
  unfold lookupPureBuiltin. destruct (find _ _) as [p|] eqn:E; [|done]. intros [= <-].
  apply find_some in E as [Hin <-%bool_decide_eq_true]. revert p Hin. apply List.Forall_forall.
  repeat constructor; done.
Qed.

Lemma term_call name toks args sp :
  lookupPureBuiltin name = Some (length args) -> Forall2 isArg toks args ->
  isTerm (termBody rec sub) (word name :: concat toks) (PureCallExpr name args sp).
Proof.
  intros Hn Ha. destruct (builtin_spec _ _ Hn) as (Hs & Hk & Hz). split; [done|]. intros k. unfold termBody. do 2 ystep.
  unfold wordIn in Hk. cbn [existsb] in Hk. repeat apply orb_false_iff in Hk as [? Hk].
  destruct (forget_word _ _ H0) as [Hkd Ht]. unfold kindIs at 1. rewrite Hkd, Ht. ytests.
  repeat match goal with H : isKeywordWord _ _ = false |- _ => rewrite H; clear H end.
  rewrite bool_decide_true by done. rewrite Hn. destruct Ha as [|x e toks args Hx Ha]; [done|].
  destruct x as [|t1 x]; [by destruct Hx|]. cbn [concat app]. apply yields_second; [by destruct Hx|].
  rewrite andb_false_r. apply (reads_pureCall name ((t1 :: x) :: toks) (e :: args)). by constructor.
Qed.
End terms.

(** ** Matches blocks *)

Section blocks.
Context `{Unicode} (rec : P Expr) (sub : list Token -> outcome perror Expr).

(** The tokens of a block after its keywords. *)
Definition bracesOf (m : MatchesBlockExpr) : list Token :=
  match m with
  | MkMatchesBlock entries _ _ => W "{" :: entriesTokens entryTokens true entries ++ [W "}"]
  end.

Lemma blockTokens_braces entries exhaustive sp :
  blockTokens (MkMatchesBlock entries exhaustive sp) =
  W "matches" :: (if exhaustive then [W "exhaustive"] else []) ++ bracesOf (MkMatchesBlock entries exhaustive sp).
Proof. cbn [blockTokens]. unfold matchesToks. cbn [bracesOf]. by destruct exhaustive. Qed.

Definition exhaustiveOf (m : MatchesBlockExpr) : bool := match m with MkMatchesBlock _ x _ => x end.

(** A parser of blocks reads the braces of [m]. *)
Definition readsBlock (p : Pos -> bool -> P MatchesBlockExpr) (m : MatchesBlockExpr) : Prop :=
  forall loc k, yields (p loc (exhaustiveOf m)) (bracesOf m) k (fun m' => eraseBlock m' = eraseBlock m).

(** A parser of whole expressions reads [e]. *)
Definition readsWhole (e : Expr) : Prop :=
  forall ts, map forget ts = exprTokens e -> exists e', sub ts = Done e' /\ reading e e'.

Lemma reads_patternTokens toks k :
  forallb patternToken toks = true ->
  match k with [] => True | t :: _ => isMatchesSep t || isKeywordWord t "}" = true end ->
  yields patternTokens toks k (fun ts => map forget ts = toks).
Proof.
  intros Hp Hk ts l Hts. unfold patternTokens. cbn [rest last].
  assert (forall buf l ts, forallb patternToken (map forget ts) = true ->
    exists l', patternTokens_from buf l (ts ++ k) = Done (buf ++ ts, MkCursor l' k)) as Hgen.
  { clear -Hk. intros buf l ts. revert buf l. induction ts as [|t ts IH]; intros buf l Ht.
    - rewrite app_nil_r. exists l. destruct k as [|t k]; [done|]. cbn [app patternTokens_from].
      destruct (isMatchesSep t) eqn:E1; [done|]. cbn [orb] in Hk.
      assert (isSemi t = false) as ->.
      { apply keyword_word in Hk as [Hk _]. unfold isSemi, kindIs. by rewrite Hk. }
      by rewrite Hk.
    - cbn [map forallb] in Ht. apply andb_prop in Ht as [Hp Ht]. cbn [app patternTokens_from].
      unfold patternToken in Hp. repeat apply andb_prop in Hp as [Hp ?].
      repeat match goal with H : negb _ = true |- _ => apply negb_true_iff in H end.
      rewrite kindIs_forget in Hp. unfold isMatchesSep, isSemi. rewrite Hp. cbn [andb].
      rewrite !isKeywordWord_forget in *. repeat match goal with H : isKeywordWord _ _ = false |- _ => rewrite H; clear H end.
      assert (kindIs t TokenWord && (1 <? length (tokText t)) && hasSuffixByte "," (tokText t) = false) as ->.
      { match goal with H : _ && hasSuffixByte _ _ = false |- _ => revert H end. rewrite kindIs_forget.
        destruct (kindIs t TokenWord) eqn:E; [|done]. by rewrite text_forget by (by rewrite E). }
      destruct (IH (buf ++ [t]) (Some (End_ (tokSpan t))) Ht) as (l' & ->). exists l'. by rewrite <- app_assoc. }
  destruct (Hgen [] l ts) as (l' & ->); [by rewrite Hts|]. by exists ts, l'.
Qed.

Lemma reads_matchPath path k :
  path <> [] -> yields parseMatchPath [word (labelOf path)] k (fun r => snd r = path).
Proof.
  intros Hp. unfold parseMatchPath. do 2 ystep. destruct (forget_word _ _ H0) as [_ Ht]. ytests.
  change (kindIs (word (labelOf path)) TokenWord) with true. cbn [negb orb]. rewrite label_not_keyword by done.
  rewrite Ht, hasSuffix_label, dropLast_label.
  assert (isKeywordWord (word (labelOf path)) ":" = false) as ->.
  { apply andb_false_iff. right. apply bool_decide_eq_false. cbn. intros E. apply (f_equal length) in E.
    unfold labelOf in E. rewrite length_app in E. simpl in E. destruct path; [done|]. simpl in E. lia. }
  cbn [negb andb]. ystep. by apply yields_ret.
Qed.

(** What follows an entry. *)
Definition entryEnds (k : list Token) : Prop :=
  match k with [] => False | t :: _ => isMatchesSep t || isKeywordWord t "}" = true end.

(** What an entry is made of is read. *)
Definition entryReads (subBlock : Pos -> bool -> P MatchesBlockExpr) (exhaustive : bool) (ent : MatchEntry) : Prop :=
  pathOk exhaustive (entryPath ent) = true /\
  match ent with
  | MatchPredicate _ pred _ => isMatchesPredicate pred = true
  | MatchSubBlock _ m _ => readsBlock subBlock m
  | MatchPattern _ e _ =>
    readsWhole e /\ forallb patternToken (exprTokens e) = true /\
    match exprTokens e with
    | [] => False
    | t :: ts => isKeywordWord t "matches" = false /\ (ts = [] -> kindIs t TokenWord && isMatchesPredicate (tokText t) = false)
    end
  end.

Lemma predicate_not pred kw :
  isMatchesPredicate pred = true -> isMatchesPredicate (B kw) = false -> isKeywordWord (word pred) kw = false.
Proof. intros Hp Hk. apply andb_false_iff. right. apply bool_decide_eq_false. cbn. intros ->. congruence. Qed.

Lemma predicate_no_comma pred : isMatchesPredicate pred = true -> hasSuffixByte "," pred = false.
Proof.
  intros (s & Hin & ->%bool_decide_eq_true)%existsb_exists. revert s Hin. apply List.Forall_forall. repeat constructor.
Qed.

Lemma reads_patternOf toks k :
  forallb patternToken toks = true -> entryEnds k -> yields patternTokens toks k (fun ts => map forget ts = toks).
Proof. intros Hp Hk. apply reads_patternTokens; [done|]. by destruct k. Qed.

Lemma reads_entry subBlock exhaustive ent k :
  entryReads subBlock exhaustive ent -> entryEnds k ->
  yields (parseMatchEntry sub subBlock exhaustive) (word (labelOf (entryPath ent)) :: entryTokens ent) k
    (fun ent' => eraseEntry ent' = eraseEntry ent).
Proof.
  intros [Hp He] Hk. unfold parseMatchEntry. unfold pathOk in Hp.
  apply andb_prop in Hp as [[[Hne%negb_true_iff%bool_decide_eq_false Hw]%andb_prop Hv]%andb_prop Hx%negb_true_iff].
  eapply (yields_bind _ _ [_]); [intros; by apply reads_matchPath|]. intros [pathTok path] Hpath. cbn [snd] in Hpath.
  subst path. cbv zeta. rewrite bool_decide_false by done. rewrite Hv, Hx. cbn [negb].
  destruct ent as [path e sp|path m sp|path pred sp]; cbn [entryTokens entryPath] in *.
  - destruct He as (Hr & Hpt & Hh). destruct (exprTokens e) as [|t0 toks] eqn:Et; [done|]. destruct Hh as [Hm Hsingle].
    ystep. cbn iota. ystep. ytests. rewrite Hm. eapply yields_last; [by apply reads_patternOf|].
    intros [|t' ts] Hts; [done|].
    injection Hts as Ht' Hts. destruct (Hr (t' :: ts)) as (e' & E & Hre); [by rewrite Et, <- Ht', <- Hts|].
    assert (bool_decide (ts = []) && kindIs t' TokenWord && isMatchesPredicate (tokText t') = false) as ->.
    { case_bool_decide as Hd; [|done]. subst ts. cbn [andb].
      rewrite <- (wordTest_forget t' isMatchesPredicate), Ht'. by apply Hsingle. }
    cbv zeta. rewrite E. apply yields_ret. cbn [eraseEntry]. by rewrite Hre.
  - destruct m as [entries x msp]. rewrite blockTokens_braces. ystep. cbn iota. ystep. ytests. ystep.
    specialize (He (Start (tokSpan t0)) k). cbn [exhaustiveOf] in He. destruct x; cbn [app].
    + ystep. ytests. ystep. eapply yields_last; [exact He|]. intros m' Hm'. ystep. apply yields_ret. cbn [eraseEntry]. by rewrite Hm'.
    + cbn [bracesOf] in *. ystep. ytests. change (pret zeroToken >>> ?m) with m. cbn iota.
      eapply yields_last; [exact He|]. intros m' Hm'. ystep. apply yields_ret. cbn [eraseEntry]. by rewrite Hm'.
  - ystep. cbn iota. ystep. ytests. rewrite predicate_not by done. eapply yields_last; [apply reads_patternOf; [|done]|].
    + cbn [forallb]. unfold patternToken. rewrite !predicate_not by done. cbn [word plainToken tokText tokKind].
      by rewrite predicate_no_comma, andb_false_r by done.
    + intros [|t' [|t'' ts]] Hts; [done| |done]. injection Hts as Ht'. destruct (forget_word _ _ Ht') as [Hkd Htx].
      unfold kindIs. rewrite Hkd, Htx, He. rewrite !bool_decide_true by done. by apply yields_ret.
Qed.

Lemma yields_skip_sep {B} (f : unit -> P B) t0 toks k Q :
  isMatchesSep t0 = false -> yields (f tt) (t0 :: toks) k Q ->
  yields (pbind (skipWhile isMatchesSep) f) (sepToken :: t0 :: toks) k Q.
Proof.
  intros Hp Hf [|s [|t ts]] l [= Hs Ht Hts]. unfold pbind, skipWhile. cbn [app rest last skipWhile_from].
  assert (forall u, isMatchesSep (forget u) = isMatchesSep u) as Hm.
  { intros u. unfold isMatchesSep. rewrite kindIs_forget. destruct (kindIs u TokenSep) eqn:E; [|done].
    by rewrite text_forget by (by rewrite E, orb_true_r). }
  rewrite <- (Hm s), Hs, <- (Hm t), Ht, Hp. change (isMatchesSep sepToken) with true. cbn iota.
  apply (Hf (t :: ts)). cbn [map]. congruence.
Qed.

Lemma entries_end entries ts2 k :
  map forget ts2 = entriesTokens entryTokens false entries ++ [W "}"] -> entryEnds (ts2 ++ k).
Proof.
  destruct ts2 as [|t ts2]; [by destruct entries|]. destruct entries as [|ent entries]; cbn [entriesTokens app]; intros [= Ht _].
  - cbn [app entryEnds]. rewrite <- isKeywordWord_forget, Ht. apply orb_true_r.
  - cbn [app entryEnds]. unfold isMatchesSep. assert (tokText t = [newline]) as ->.
    { rewrite <- text_forget, Ht; [done|]. by rewrite <- (kindIs_forget t TokenWord), <- (kindIs_forget t TokenSep), Ht. }
    by rewrite <- kindIs_forget, Ht.
Qed.

Lemma reads_matchEntries subBlock openTok exhaustive k entries :
  Forall (entryReads subBlock exhaustive) entries -> forall first acc n, length entries < n ->
  yields (matchEntries sub subBlock n openTok exhaustive acc) (entriesTokens entryTokens first entries ++ [W "}"]) k
    (fun m => exists l sp, m = MkMatchesBlock (acc ++ l) exhaustive sp /\ map eraseEntry l = map eraseEntry entries).
Proof.
  induction 1 as [|ent entries He _ IH]; intros first acc n Hn; (destruct n as [|n]; [simpl in Hn; lia|]); cbn [matchEntries].
  - cbn [entriesTokens app]. apply yields_skip. { intros t Ht. unfold isMatchesSep. by ytests. }
    do 2 ystep. cbn iota. unfold isSemi. ytests. ystep. apply yields_ret. eexists [], _. by rewrite app_nil_r.
  - cbn [entriesTokens]. rewrite <- app_assoc. cbn [app].
    assert (forall t, forget t = word (labelOf (entryPath ent)) -> isMatchesSep t = false /\ isSemi t = false) as Hsep.
    { intros t [Hk _]%forget_word. unfold isMatchesSep, isSemi, kindIs. by rewrite Hk. }
    assert (yields (let% e := eof in
       if (e : bool) then pfail (spanErr (tokSpan openTok) "unterminated matches block: missing '}'")
       else let% t := peek in
       if isSemi t then
         pfail (LocErrorf (Start (tokSpan t)) "matches: ';' is not a valid entry separator; entries are separated by newlines")
       else if isKeywordWord t "," then
         pfail (LocErrorf (Start (tokSpan t)) "matches: ',' is not a valid entry separator; entries are separated by newlines")
       else if isKeywordWord t "}" then
         let% closeTok := advance in
         pret (MkMatchesBlock acc exhaustive (MkSpan (Start (tokSpan openTok)) (End_ (tokSpan closeTok))))
       else
         let% entry := parseMatchEntry sub subBlock exhaustive in
         matchEntries sub subBlock n openTok exhaustive (acc ++ [entry]))
      (word (labelOf (entryPath ent)) :: (entryTokens ent ++ entriesTokens entryTokens false entries) ++ [W "}"]) k
      (fun m => exists l sp, m = MkMatchesBlock (acc ++ l) exhaustive sp /\
                 map eraseEntry l = map eraseEntry (ent :: entries))) as Hbody.
    { ystep. cbn iota. ystep. rewrite (proj2 (Hsep t H0)). ytests. rewrite !label_not_keyword by done.
      rewrite <- app_assoc. eapply (yields_bind _ _ (word _ :: entryTokens ent)).
      { intros ts2 H2. apply reads_entry; [done|]. by eapply entries_end. }
      intros ent' Hent. eapply yields_weaken; [apply IH; simpl in Hn; lia|].
      intros m (l & sp & -> & Hl). exists (ent' :: l), sp. rewrite <- app_assoc. split; [done|]. cbn [map]. by rewrite Hl, Hent. }
    destruct first; cbn [app].
    + apply yields_skip; [|exact Hbody]. intros t Ht. by apply Hsep.
    + apply yields_skip_sep; [done|exact Hbody].
Qed.

Lemma entries_length f first entries : length entries <= length (entriesTokens f first entries).
Proof.
  revert first. induction entries as [|ent entries IH]; intros first; [done|]. cbn [entriesTokens length].
  rewrite length_app. cbn [length]. rewrite length_app. specialize (IH false). lia.
Qed.

Lemma reads_blockBody subBlock m :
  (match m with MkMatchesBlock entries exhaustive _ => Forall (entryReads subBlock exhaustive) entries end) ->
  readsBlock (matchesBlockBody sub subBlock) m.
Proof.
  destruct m as [entries exhaustive sp]. intros He loc k. unfold matchesBlockBody. cbn [bracesOf exhaustiveOf].
  ystep. ytests. ystep. ystep. eapply yields_weaken; [apply reads_matchEntries; [exact He|]|].
  - rewrite length_app in *. pose proof (entries_length entryTokens true entries). lia.
  - intros m (l & sp' & -> & Hl). cbn [app eraseBlock]. by rewrite Hl.
Qed.

(** The matches expression. *)
Lemma reads_matches toks e m sp k :
  isTerm rec toks e -> (forall n, length (bracesOf m) < n -> readsBlock (parseMatchesBlock_from n sub) m) -> after 5 k ->
  accepts (parseOr rec sub) (toks ++ blockTokens m) k (MatchesExpr e m sp).
Proof.
  intros Ht Hm Hk. apply comparison_or; [|by apply notNot_app, starts_notNot, Ht|done]. destruct m as [entries x msp].
  rewrite blockTokens_braces. eapply yields_bind.
  { intros ts Hts. apply term_additive; [exact Ht|]. eapply after_forget; [exact Hts|vm_compute; lia]. }
  intros a Ha. ystep. ystep. ytests. ystep.
  assert (forall loc, yields (parseMatchesBlock sub loc x) (bracesOf (MkMatchesBlock entries x msp)) k
    (fun m' => eraseBlock m' = eraseBlock (MkMatchesBlock entries x msp))) as Hb.
  { intros loc. unfold parseMatchesBlock. apply yields_looping. intros n Hn. by apply (Hm n Hn). }
  assert (forall t1 : Token, yields (let% block := parseMatchesBlock sub (Start (tokSpan t1)) x in
       let% sp := spanFromNodeStart a in pret (MatchesExpr a block sp)) (bracesOf (MkMatchesBlock entries x msp)) k
       (reading (MatchesExpr e (MkMatchesBlock entries x msp) sp))) as Hend.
  { intros t1. eapply yields_last; [apply Hb|]. intros m' Hm'. unfold spanFromNodeStart. ystep. apply yields_ret.
    unfold reading. cbn [eraseExpr]. by rewrite Ha, Hm'. }
  destruct x; cbn [app bracesOf] in *.
  - ystep. ytests. ystep. ystep. ytests. apply Hend.
  - ystep. ytests. change (pret zeroToken >>> ?m) with m. ystep. ytests. apply Hend.
Qed.
End blocks.

(** ** Separators stand between braces *)

(** At the depth [d0] or deeper, the separators of [toks] stay. *)
Definition keeps (d0 : nat) (toks : list Token) : Prop :=
  forall d ts rest, d0 <= d -> map forget ts = toks -> stripSeps_from d (ts ++ rest) = ts ++ stripSeps_from d rest.

Lemma keeps_nil d0 : keeps d0 [].
Proof. by intros d [|] rest Hd Hts. Qed.

Lemma keeps_app d0 t1 t2 : keeps d0 t1 -> keeps d0 t2 -> keeps d0 (t1 ++ t2).
Proof.
  intros H1 H2 d ts rest Hd (ts1 & ts2 & -> & E1 & E2)%map_eq_app.
  by rewrite <- !app_assoc, H1, H2.
Qed.

Lemma keeps_weaken d0 d1 toks : d0 <= d1 -> keeps d0 toks -> keeps d1 toks.
Proof. intros Hle Hk d ts rest Hd. apply Hk. lia. Qed.

Definition plain (t : Token) : bool :=
  negb (kindIs t TokenSep) && negb (isKeywordWord t "{") && negb (isKeywordWord t "}").

Lemma keeps_plain d0 t toks : plain t = true -> keeps d0 toks -> keeps d0 (t :: toks).
Proof.
  intros [[H1%negb_true_iff H2%negb_true_iff]%andb_prop H3%negb_true_iff]%andb_prop Hk d [|u us] rest Hd [= Hu Hus].
  cbn [app stripSeps_from]. rewrite <- (kindIs_forget u), <- (isKeywordWord_forget u "{"), <- (isKeywordWord_forget u "}").
  rewrite Hu, H1, H2, H3. cbn [andb]. f_equal. by apply Hk.
Qed.

Lemma keeps_sep toks : keeps 1 toks -> keeps 1 (sepToken :: toks).
Proof.
  intros Hk d [|u us] rest Hd [= Hu Hus]. cbn [app stripSeps_from].
  rewrite <- (kindIs_forget u), <- (isKeywordWord_forget u "{"), <- (isKeywordWord_forget u "}"), Hu.
  assert ((d =? 0) = false) as -> by (apply Nat.eqb_neq; lia). rewrite andb_false_r. cbn. f_equal. by apply Hk.
Qed.

Lemma keeps_braces d0 toks : keeps 1 toks -> keeps d0 (W "{" :: toks ++ [W "}"]).
Proof.
  intros Hk d [|u us] rest Hd [= Hu Hus]. apply map_eq_app in Hus as (us1 & us2 & -> & E1 & E2).
  destruct us2 as [|v [|]]; [done| |done]. injection E2 as Hv. cbn [app stripSeps_from].
  rewrite <- (kindIs_forget u), <- (isKeywordWord_forget u "{"), Hu. cbn. f_equal. rewrite <- !app_assoc.
  rewrite (Hk (S d)) by (done || lia). f_equal. cbn [app stripSeps_from].
  rewrite <- (kindIs_forget v), <- (isKeywordWord_forget v "{"), <- (isKeywordWord_forget v "}"), Hv. cbn.
  by rewrite Nat.sub_0_r.
Qed.

Lemma keeps_parens d0 b toks : keeps d0 toks -> keeps d0 (parenToks b toks).
Proof.
  destruct b; [|done]. intros Hk. apply keeps_plain; [done|]. apply keeps_app; [done|].
  apply keeps_plain; [done|apply keeps_nil].
Qed.

Lemma keeps_concat {A} d0 (f : A -> list Token) l : Forall (fun a => keeps d0 (f a)) l -> keeps d0 (concat (map f l)).
Proof. induction 1; [apply keeps_nil|]. cbn [map concat]. by apply keeps_app. Qed.

Lemma plain_word text : wordOk text = true -> plain (word text) = true.
Proof. intros Hw. unfold plain. by rewrite !wordOk_not by done. Qed.
Lemma plain_label name : plain (word (labelOf name)) = true.
Proof. unfold plain. by rewrite !label_not_keyword by done. Qed.

Lemma plain_op op : among op operators = true -> plain (word op) = true.
Proof.
  intros (s & Hin & ->%bool_decide_eq_true)%existsb_exists. revert s Hin. apply List.Forall_forall. repeat constructor.
Qed.

Lemma keeps_word d0 text : plain (word text) = true -> keeps d0 [word text].
Proof. intros. apply keeps_plain; [done|apply keeps_nil]. Qed.

Lemma keeps_entries value entries : forall first,
  Forall (fun ent => keeps 1 (value ent)) entries -> keeps 1 (entriesTokens value first entries).
Proof.
  intros first Hl. revert first. induction Hl as [|ent entries He _ IH]; intros first; [apply keeps_nil|].
  cbn [entriesTokens]. assert (keeps 1 (word (labelOf (entryPath ent)) :: value ent ++ entriesTokens value false entries)).
  { apply keeps_plain; [apply plain_label|]. by apply keeps_app. }
  destruct first; [done|]. by apply keeps_sep.
Qed.

Section printed.
Context `{Unicode}.

Definition printsKeep (e : Expr) : Prop := printable e = true -> keeps 0 (exprTokens e).

Lemma keeps_threadArg a : threadArgOk a = true -> keeps 0 (exprTokens a).
Proof.
  destruct a; intros Ha; try done; cbn [exprTokens]; try (apply keeps_plain; [done|apply keeps_nil]).
  destruct Quoted; apply keeps_plain; try apply keeps_nil; [done|]. apply plain_word. cbn [threadArgOk] in Ha.
  by apply andb_prop in Ha as [? _].
Qed.

Lemma keeps_atoms (p : Expr -> bool) (prints : Expr -> bool) l :
  Forall (fun e => prints e = true -> keeps 0 (exprTokens e)) l -> forallb prints l = true ->
  keeps 0 (concat (map (fun e => parenToks (p e) (exprTokens e)) l)).
Proof.
  intros Hl Hp. apply keeps_concat. apply Forall_forall. intros e Hin. apply keeps_parens.
  rewrite Forall_forall in Hl. rewrite forallb_forall in Hp. apply Hl; [done|]. by apply Hp, list_elem_of_In.
Qed.

Lemma printable_keeps e : printsKeep e.
Proof.
  revert e. apply (expr_ind' printsKeep (fun _ => True) (fun f => match f with MkRecordField _ e _ => printsKeep e end)
    (fun b => blockPrintable b = true -> keeps 0 (blockTokens b))
    (fun ent => entryValueOk ent = true -> keeps 0 (entryTokens ent)));
    try done; unfold printsKeep; cbn [printable exprTokens].
  - intros text [|] sp Hp; [apply keeps_plain; [done|apply keeps_nil]|]. apply keeps_word, plain_word.
    unfold literalOk in Hp. by repeat apply andb_prop in Hp as [Hp ?].
  - intros. apply keeps_plain; [done|apply keeps_nil].
  - intros. apply keeps_plain; [done|apply keeps_nil].
  - intros. apply keeps_plain; [done|apply keeps_nil].
  - intros l op r sp Hl Hr [[Ho Pl]%andb_prop Pr]%andb_prop. apply keeps_app; [by apply keeps_parens, Hl|].
    apply keeps_plain; [by apply plain_op|]. by apply keeps_parens, Hr.
  - intros pred e sp He [->%bool_decide_eq_true Hp]%andb_prop. apply keeps_plain; [done|]. by apply keeps_parens, He.
  - intros lhs args pp sp Hl _ [[Pl _]%andb_prop Ha]%andb_prop. apply keeps_app; [by apply keeps_parens, Hl|].
    apply keeps_plain; [done|]. apply keeps_concat, Forall_forall. intros a Hin%list_elem_of_In.
    rewrite forallb_forall in Ha. by apply keeps_threadArg, Ha.
  - intros op l r sp Hl Hr [[Ho Pl]%andb_prop Pr]%andb_prop. apply keeps_app; [by apply keeps_parens, Hl|].
    apply keeps_plain; [by apply plain_word, logical_word|]. by apply keeps_parens, Hr.
  - intros e sp He Hp. apply keeps_plain; [done|]. by apply keeps_parens, He.
  - intros e sp He [_ Hp]%andb_prop. apply keeps_plain; [done|]. by apply keeps_parens, He.
  - intros name args sp IH [Hn%bool_decide_eq_true%pureBuiltin_word Ha]%andb_prop. apply keeps_plain; [by apply plain_word|].
    eapply keeps_atoms; [|exact Ha]. eapply Forall_impl; [exact IH|]. intros a Hk.
    destruct a as [text [|]| | | | | | | | | | | | |]; try done; try exact Hk. intros Hw. apply keeps_word, plain_word.
    unfold argLiteralOk in Hw. by repeat apply andb_prop in Hw as [Hw ?].
  - intros e b sp He Hb [Pe Pb]%andb_prop. apply keeps_app; [by apply keeps_parens, He|by apply Hb].
  - intros l sp IH Hl. apply keeps_plain; [done|]. apply keeps_app; [by eapply keeps_atoms|by apply keeps_word].
  - intros fields sp IH [_ Hf]%andb_prop. apply keeps_plain; [done|]. apply keeps_braces, keeps_concat, Forall_forall.
    intros [name e fsp] Hin. rewrite Forall_forall in IH. rewrite forallb_forall in Hf. specialize (IH _ Hin). cbn in IH.
    apply list_elem_of_In, Hf, andb_prop in Hin as [_ Hp]. apply keeps_plain; [apply plain_label|].
    apply keeps_parens. eapply keeps_weaken; [|by apply IH]. lia.
  - intros entries exhaustive sp IH Hb. cbn [blockPrintable] in Hb. rewrite blockTokens_braces.
    apply keeps_plain; [done|]. apply keeps_app; [destruct exhaustive; [by apply keeps_word|apply keeps_nil]|].
    apply keeps_braces, keeps_entries, Forall_forall. intros ent Hin. rewrite Forall_forall in IH. rewrite forallb_forall in Hb.
    specialize (IH _ Hin). apply list_elem_of_In, Hb, andb_prop in Hin as [_ Hp]. eapply keeps_weaken; [|by apply IH]. lia.
  - intros path e sp He [Hp _]%andb_prop. by apply He.
  - intros path pred sp Hp. by apply keeps_word, plain_word, matchesPredicate_word.
Qed.

Lemma printable_stripped e ts : printable e = true -> map forget ts = exprTokens e -> stripSeps ts = ts.
Proof.
  intros Hp Hts. unfold stripSeps. rewrite <- (app_nil_r ts) at 1.
  rewrite (printable_keeps e Hp 0 ts [] (le_n _) Hts). apply app_nil_r.
Qed.
End printed.
