(* ===== verification/PrintParse.v ===== *)
(** * The parser undoes the formatter on printable expressions

    By induction on the expression: the tokens of its printed source are parsed as
    the expression again, at every level of nesting that the fuel of
    parseExpression is enough for. *)

From Stdlib Require Import ZArith Lia Ascii.
From stdpp Require Import base tactics list strings option sets.
From S2P Require Import Prelude Lexer LexerPos LexerPrint Literals Ast ExprParser SourceFmt PrintPieces PrintStrings PrintExpr PrintReads PrintLevels PrintTerms.

Section parse.
Context `{Unicode}.

Definition atomToks (e : Expr) : list Token := parenToks (atomParens e) (exprTokens e).

Lemma parseTerm_S f : parseTerm (S f) = termBody (parseTerm f) (parseSub f).
Proof. reflexivity. Qed.

Lemma elemParens_atom e : elemParens e = atomParens e.
Proof. by destruct e. Qed.

(** How printed tokens begin. *)
Definition headOk (toks : list Token) : Prop :=
  match toks with
  | [] => False
  | t :: ts =>
    isKeywordWord t ")" = false /\ isKeywordWord t "matches" = false /\
    (ts = [] -> kindIs t TokenWord && isMatchesPredicate (tokText t) = false)
  end.

(** The parsers with fuel [f] read the tokens of [e]. *)
Definition exprAt (f : nat) (e : Expr) : Prop :=
  forall k, ends k -> accepts (parseOr (parseTerm f) (parseSub f)) (exprTokens e) k e.
Definition termAt (f : nat) (e : Expr) : Prop := isTerm (parseTerm f) (atomToks e) e.

Definition parses (e : Expr) : Prop :=
  printable e = true ->
  headOk (exprTokens e) /\ (forall f, length (exprTokens e) <= f -> exprAt f e) /\
  (forall f, length (atomToks e) <= f -> termAt f e).

Lemma startOk_head t ts :
  startOk t = true -> (ts = [] -> kindIs t TokenWord && isMatchesPredicate (tokText t) = false) -> headOk (t :: ts).
Proof.
  intros Hs Hp. destruct (startOk_not _ Hs) as (_ & _ & _ & Hc). split_and!; [done| |done].
  unfold startOk, wordIn in Hs. cbn [existsb] in Hs. repeat apply andb_prop in Hs as [Hs ?].
  repeat match goal with H : negb _ = true |- _ => apply negb_true_iff in H end.
  repeat match goal with H : _ || _ = false |- _ => apply orb_false_iff in H as [? ?] end. done.
Qed.

(** An expression written as a term: printed parentheses are not around it. *)
Lemma parses_term e :
  atomParens e = false ->
  (printable e = true -> forall f, length (exprTokens e) <= S f ->
    isTerm (termBody (parseTerm f) (parseSub f)) (exprTokens e) e) ->
  (printable e = true -> forall t, exprTokens e = [t] -> kindIs t TokenWord && isMatchesPredicate (tokText t) = false) ->
  parses e.
Proof.
  intros Ha Ht Hs Hp. specialize (Ht Hp). assert (forall f, length (exprTokens e) <= f -> termAt f e) as Hterm.
  { intros f Hf. unfold termAt, atomToks. rewrite Ha. destruct f as [|f]; [|rewrite parseTerm_S; by apply Ht].
    destruct (Ht 0) as [Hst _]; [lia|]. destruct (exprTokens e); [done|simpl in Hf; lia]. }
  split_and!.
  - destruct (Hterm _ (le_n _)) as [Hst _]. unfold atomToks in Hst. rewrite Ha in Hst. cbn [parenToks] in Hst.
    destruct (exprTokens e) as [|t ts] eqn:E; [done|]. apply startOk_head; [done|]. intros ->. by apply Hs.
  - intros f Hf k Hk. destruct (Hterm f Hf) as [Hst Hacc]. unfold atomToks in *. rewrite Ha in *.
    apply term_or; [by split|by apply ends_after].
  - intros f. unfold atomToks. rewrite Ha. apply Hterm.
Qed.

(** An expression with operators: as a term it is in parentheses. *)
Lemma parses_or e :
  atomParens e = true ->
  (printable e = true -> headOk (exprTokens e)) ->
  (printable e = true -> forall f, length (exprTokens e) <= f -> exprAt f e) -> parses e.
Proof.
  intros Ha Hh He Hp. split_and!; [by apply Hh|by apply He|]. intros f. unfold termAt, atomToks. rewrite Ha.
  cbn [parenToks length]. rewrite length_app. intros Hf. destruct f as [|f]; [lia|].
  rewrite parseTerm_S. apply term_parens. split.
  - specialize (Hh Hp). destruct (exprTokens e); [done|]. by destruct Hh as [? _].
  - apply He; [done|]. simpl in Hf. lia.
Qed.

(** Whole expressions: separators stand between braces only. *)
Lemma sub_whole f e ts :
  exprAt f e -> exprTokens e <> [] -> map forget ts = exprTokens e -> stripSeps ts = ts ->
  exists e', parseSub (S f) ts = Done e' /\ reading e e'.
Proof.
  intros He Hne Hts Hs. cbn [parseSub]. unfold parseExpressionWith. rewrite Hs.
  destruct (He [] I ts None Hts) as (e' & l' & E & Hr). rewrite app_nil_r in E.
  destruct ts as [|t ts]; [by destruct (exprTokens e)|]. rewrite E. by exists e'.
Qed.

(** ** The arguments of calls, lists and records *)

Lemma concat_member {A} (x : list A) (l : list (list A)) : In x l -> length x <= length (concat l).
Proof.
  induction l as [|y l IH]; [done|]. cbn [In concat]. rewrite length_app. intros [->|Hin]; [lia|].
  specialize (IH Hin). lia.
Qed.

Lemma terms_at f l :
  Forall parses l -> forallb printable l = true -> length (concat (map atomToks l)) <= f ->
  Forall2 (isTerm (parseTerm f)) (map atomToks l) l.
Proof.
  induction 1 as [|e l He _ IH]; [constructor|]. cbn [forallb map concat]. rewrite length_app.
  intros [Hp Hl]%andb_prop Hf. constructor; [|apply IH; [done|lia]]. apply He; [done|lia].
Qed.

Lemma arg_of_list rec sub toks k e :
  accepts (termBody rec sub) (W "[" :: toks) k e -> accepts (parsePureCallArg rec sub) (W "[" :: toks) k e.
Proof.
  intros Ht [|t ts] l Hts; [done|]. specialize (Ht (t :: ts) l Hts). injection Hts as Ht0 _.
  assert (isKeywordWord t "(" = false /\ isKeywordWord t "[" = true) as [H1 H2] 
    by (by rewrite <- (isKeywordWord_forget t "("), <- (isKeywordWord_forget t "["), Ht0).
  assert (termBody rec sub (MkCursor l ((t :: ts) ++ k)) = parseListLiteral rec (MkCursor l ((t :: ts) ++ k))) as E1.
  { unfold termBody. change (pbind eof ?g (MkCursor l ((t :: ts) ++ k))) with (g false (MkCursor l ((t :: ts) ++ k))).
    cbv beta. change (pbind peek ?g (MkCursor l ((t :: ts) ++ k))) with (g t (MkCursor l ((t :: ts) ++ k))).
    cbv beta iota. by rewrite H1, H2. }
  assert (parsePureCallArg rec sub (MkCursor l ((t :: ts) ++ k)) = parseListLiteral rec (MkCursor l ((t :: ts) ++ k))) as E2.
  { unfold parsePureCallArg. change (pbind peek ?g (MkCursor l ((t :: ts) ++ k))) with (g t (MkCursor l ((t :: ts) ++ k))).
    cbv beta iota. by rewrite H1, H2. }
  by rewrite E2, <- E1.
Qed.

Definition argToks (a : Expr) : list Token := parenToks (argParens a) (exprTokens a).

Definition argPrintable (a : Expr) : bool :=
  match a with
  | LiteralExpr text false _ => argLiteralOk text
  | RecordExpr _ _ => false
  | _ => printable a
  end.

(** The arguments of a call. *)
Lemma arg_at f a :
  parses a -> argPrintable a = true -> length (argToks a) <= f -> isArg (parseTerm f) (parseSub f) (argToks a) a.
Proof.
  intros Ha Hp Hf. destruct (argParens a) eqn:Hpar.
  - assert (printable a = true) as Hpa by (by destruct a as [? []| | | | | | | | | | | | |]).
    unfold argToks in *. rewrite Hpar in *. cbn [parenToks] in *. apply arg_parens.
    destruct (Ha Hpa) as (Hh & Ho & _). split; [by destruct (exprTokens a); [|destruct Hh]|].
    apply Ho. simpl in Hf. rewrite length_app in Hf. lia.
  - unfold argToks in *. rewrite Hpar in *. cbn [parenToks] in *. destruct a; try done; cbn [argPrintable exprTokens] in *.
    + destruct Quoted; [|by apply arg_word]. apply arg_primary; [apply primary_quoted|]. eexists. split; [|done]. set_solver.
    + apply arg_primary; [apply primary_ref|]. eexists. split; [|done]. set_solver.
    + apply arg_primary; [apply primary_adapter|]. eexists. split; [|done]. set_solver.
    + apply arg_primary; [by apply primary_interp|]. eexists. split; [|done]. set_solver.
    + split; [done|]. intros k. apply arg_of_list. rewrite <- parseTerm_S.
      destruct (Ha Hp) as (_ & _ & Ht). apply (Ht (S f)). unfold atomToks. cbn [atomParens parenToks exprTokens]. lia.
Qed.

Lemma args_at f l :
  Forall parses l -> forallb argPrintable l = true -> length (concat (map argToks l)) <= f ->
  Forall2 (isArg (parseTerm f) (parseSub f)) (map argToks l) l.
Proof.
  induction 1 as [|e l He _ IH]; [constructor|]. cbn [forallb map concat]. rewrite length_app.
  intros [Hp Hl]%andb_prop Hf. constructor; [|apply IH; [done|lia]]. apply arg_at; [done|done|lia].
Qed.

Lemma fields_at f l :
  Forall (fun x => match x with MkRecordField _ e _ => parses e end) l ->
  forallb (fun x => match x with MkRecordField name e _ => fieldNameOk name && printable e end) l = true ->
  length (concat (map (fun x => match x with MkRecordField name e _ => word (labelOf name) :: atomToks e end) l)) <= f ->
  Forall2 (fun x field => match field with MkRecordField name e _ =>
      fst x = name /\ fieldNameOk name = true /\ isTerm (parseTerm f) (snd x) e end)
    (map (fun x => match x with MkRecordField name e _ => (name, atomToks e) end) l) l.
Proof.
  induction 1 as [|[name e sp] l He _ IH]; [constructor|]. cbn [forallb map concat app length]. rewrite length_app.
  intros [[Hn Hp]%andb_prop Hl]%andb_prop Hf. constructor; [|apply IH; [done|lia]]. split_and!; [done|done|].
  apply He; [done|cbn [snd]; lia].
Qed.

(** ** Operators and matches blocks *)

(** A term with something after it begins as it should. *)
Lemma headOk_term f e toks : termAt f e -> toks <> [] -> headOk (atomToks e ++ toks).
Proof.
  intros [Hs _] Hne. destruct (atomToks e) as [|t ts]; [done|]. cbn [app]. apply startOk_head; [done|].
  intros E. by apply app_eq_nil in E as [_ ?].
Qed.

Lemma headOk_prefix t ts :
  isKeywordWord t ")" = false -> isKeywordWord t "matches" = false -> ts <> [] -> headOk (t :: ts).
Proof. intros H1 H2 Hne. unfold headOk. split_and!; [done|done|]. intros ->. done. Qed.

Lemma term_of e : parses e -> printable e = true -> termAt (length (atomToks e)) e.
Proof. intros He Hp. by apply He. Qed.

Lemma atomToks_nonempty e : parses e -> printable e = true -> atomToks e <> [].
Proof. intros He Hp. destruct (term_of e He Hp) as [Hs _]. by destruct (atomToks e). Qed.

Lemma parses_infix l op r (mk : Expr) :
  atomParens mk = true -> exprTokens mk = atomToks l ++ word op :: atomToks r -> parses l -> parses r ->
  (printable mk = true -> printable l = true /\ printable r = true) ->
  (printable mk = true -> forall f, termAt f l -> termAt f r -> exprAt f mk) -> parses mk.
Proof.
  intros Ha Et Hl Hr Hp Hmk. apply parses_or; [done|..]; intros Hpm; destruct (Hp Hpm) as [Pl Pr]; rewrite Et.
  - eapply headOk_term; [by apply term_of|done].
  - intros f Hf. rewrite length_app in Hf. simpl in Hf. apply Hmk; [done|apply Hl|apply Hr]; done || lia.
Qed.

Lemma parses_prefix t e (mk : Expr) :
  atomParens mk = true -> exprTokens mk = t :: atomToks e -> isKeywordWord t ")" = false ->
  isKeywordWord t "matches" = false -> parses e -> (printable mk = true -> printable e = true) ->
  (printable mk = true -> forall f, termAt f e -> exprAt f mk) -> parses mk.
Proof.
  intros Ha Et H1 H2 He Hp Hmk. apply parses_or; [done|..]; intros Hpm; specialize (Hp Hpm); rewrite Et.
  - apply headOk_prefix; [done|done|by apply atomToks_nonempty].
  - intros f Hf. simpl in Hf. apply Hmk; [done|]. apply He; [done|lia].
Qed.

(** The arguments of a thread, token by token. *)
Lemma threadArg_token sub a :
  threadArgOk a = true ->
  exists t, exprTokens a = [t] /\ threadEnds t = false /\ isPrimary sub t a.
Proof.
  destruct a; intros Ha; try done; cbn [exprTokens threadArgOk] in *.
  - destruct Quoted; [eexists; split_and!; [done|done|apply primary_quoted]|]. eexists. split_and!; [done| |].
    + unfold threadLiteralOk in Ha. apply andb_prop in Ha as [Hw Ha%negb_true_iff]. unfold threadEnds.
      assert (among Text comparisonOps = false) as Hb by (by refine (among_sublist _ _ _ Ha _)).
      assert (among Text arithmeticOps = false) as Har by (by refine (among_sublist _ _ _ Ha _)).
      change (binaryOpFromToken (word Text)) with (among Text comparisonOps).
      change (isArithmeticOp (word Text)) with (among Text arithmeticOps). rewrite Hb, Har.
      unfold wordIn. cbn [existsb kindIs tokKind word plainToken]. rewrite (among_keyword Text _ "and" Ha), (among_keyword Text _ "or" Ha) by done.
      by rewrite !(wordOk_not Text) by done.
    + apply primary_word. intros ->. done.
  - eexists. split_and!; [done|done|apply primary_ref].
  - eexists. split_and!; [done|done|apply primary_adapter].
  - eexists. split_and!; [done|done|by apply primary_interp].
Qed.

Lemma threadArgs_tokens sub args :
  forallb threadArgOk args = true ->
  Forall2 (fun t a => threadEnds t = false /\ isPrimary sub t a) (concat (map exprTokens args)) args.
Proof.
  induction args as [|a args IH]; [constructor|]. cbn [forallb map concat]. intros [Ha Hl]%andb_prop.
  destruct (threadArg_token sub a Ha) as (t & -> & H1 & H2). constructor; [by split|by apply IH].
Qed.

(** A block is read, its patterns by the parser of whole expressions. *)
Definition blockParses (b : MatchesBlockExpr) : Prop :=
  blockPrintable b = true -> forall f n, length (bracesOf b) <= f -> length (bracesOf b) <= n ->
  readsBlock (parseMatchesBlock_from n (parseSub f)) b.

Definition entryParses (ent : MatchEntry) : Prop :=
  forall exhaustive f n, pathOk exhaustive (entryPath ent) = true -> entryValueOk ent = true ->
  length (entryTokens ent) < f -> length (entryTokens ent) <= n ->
  entryReads (parseSub f) (parseMatchesBlock_from n (parseSub f)) exhaustive ent.

Lemma pattern_parses path e sp : parses e -> entryParses (MatchPattern path e sp).
Proof.
  intros He exhaustive f n Hp Hv Hf _. cbn [entryValueOk entryTokens] in *. apply andb_prop in Hv as [Pe Hpt].
  destruct (He Pe) as (Hh & Ho & _). split; [done|]. split_and!; [|done|].
  - intros ts Hts. destruct f as [|f]; [lia|]. apply sub_whole; [apply Ho; lia|by destruct (exprTokens e)|done|].
    by eapply printable_stripped.
  - destruct (exprTokens e); [done|]. by destruct Hh as (_ & ? & ?).
Qed.

Lemma bracesOf_length b : length (bracesOf b) < length (blockTokens b).
Proof. destruct b. rewrite blockTokens_braces. cbn [length]. rewrite length_app. lia. Qed.

Lemma entry_length f first entries ent :
  In ent entries -> length (f ent) < length (entriesTokens f first entries).
Proof.
  revert first. induction entries as [|ent' entries IH]; intros first; [done|]. cbn [In entriesTokens].
  rewrite length_app. cbn [length]. rewrite length_app. intros [->|Hin]; [lia|]. specialize (IH false Hin). lia.
Qed.

Lemma block_parses entries exhaustive sp :
  Forall entryParses entries -> blockParses (MkMatchesBlock entries exhaustive sp).
Proof.
  intros He Hp f n Hf Hn. cbn [bracesOf length] in *. rewrite length_app in *. destruct n as [|n]; [lia|].
  cbn [parseMatchesBlock_from]. apply reads_blockBody, Forall_forall. intros ent Hin.
  rewrite Forall_forall in He. cbn [blockPrintable] in Hp. rewrite forallb_forall in Hp.
  pose proof (proj1 (list_elem_of_In _ _) Hin) as Hin'.
  pose proof (Hp _ Hin') as [Hpath Hval]%andb_prop. pose proof (entry_length entryTokens true _ _ Hin').
  apply He; [done|done|done|lia|lia].
Qed.

(** ** Every printable expression *)

Lemma binary_parses l op r sp : parses l -> parses r -> parses (BinaryExpr l op r sp).
Proof.
  intros Hl Hr. apply (parses_infix l op r); [done..| |]; cbn [printable]; intros [[Ho Pl]%andb_prop Pr]%andb_prop; [done|].
  intros f Tl Tr k Hk. by apply reads_binary; [| | |apply ends_after].
Qed.

Lemma logical_parses op l r sp : parses l -> parses r -> parses (LogicalExpr op l r sp).
Proof.
  intros Hl Hr. apply (parses_infix l op r); [done..| |]; cbn [printable]; intros [[Ho Pl]%andb_prop Pr]%andb_prop; [done|].
  intros f Tl Tr k Hk. by apply reads_logical; [| | |apply ends_after].
Qed.

Lemma unary_parses pred e sp : parses e -> parses (UnaryExpr pred e sp).
Proof.
  intros He Hp. pose proof Hp as [->%bool_decide_eq_true _]%andb_prop. revert Hp.
  apply (parses_prefix (W "not-empty") e); [done..| |]; cbn [printable]; intros [_ Pe]%andb_prop; [done|].
  intros f Te k Hk. by apply reads_unary, ends_after.
Qed.

Lemma not_parses e sp : parses e -> parses (NotExpr e sp).
Proof.
  intros He. apply (parses_prefix (W "not") e); [done..|]. intros _ f Te k Hk. by apply reads_not, ends_after.
Qed.

Lemma negate_parses e sp : parses e -> parses (NegateExpr e sp).
Proof.
  intros He. apply (parses_prefix (W "-") e); [done..| |]; cbn [printable]; intros [_ Pe]%andb_prop; [done|].
  intros f Te k Hk. by apply reads_negate_tokens, ends_after.
Qed.

Lemma thread_parses lhs args pp sp : parses lhs -> parses (ThreadExpr lhs args pp sp).
Proof.
  intros Hl. apply parses_or; [done|..]; cbn [printable exprTokens];
    intros [[Pl Hne%negb_true_iff%bool_decide_eq_false]%andb_prop Ha]%andb_prop.
  - eapply headOk_term; [by apply term_of|done].
  - intros f Hf k Hk. apply reads_thread_tokens; [|done|by apply threadArgs_tokens|by apply ends_after|by apply ends_thread].
    rewrite length_app in Hf. apply Hl; [done|]. unfold atomToks. lia.
Qed.

Lemma matches_parses e b sp : parses e -> blockParses b -> parses (MatchesExpr e b sp).
Proof.
  intros He Hb. apply parses_or; [done|..]; cbn [printable exprTokens]; intros [Pe Pb]%andb_prop.
  - eapply headOk_term; [by apply term_of|]. pose proof (bracesOf_length b). by destruct (blockTokens b); [simpl in *; lia|].
  - intros f Hf k Hk. rewrite length_app in Hf. pose proof (bracesOf_length b). apply reads_matches; [| |by apply ends_after].
    + apply He; [done|]. unfold atomToks. lia.
    + intros n Hn. apply Hb; [done|lia|lia].
Qed.

Lemma call_parses name args sp : Forall parses args -> parses (PureCallExpr name args sp).
Proof.
  intros Ha. apply parses_term; [done|..]; cbn [printable exprTokens]; intros [Hn%bool_decide_eq_true Pa]%andb_prop.
  - intros f Hf. cbn [length] in Hf. apply (term_call _ _ name (map argToks args)); [done|].
    apply args_at; [done|exact Pa|]. unfold argToks. lia.
  - intros t [= <- Hnil]. exfalso. destruct args as [|a args].
    + by apply builtin_spec in Hn as (_ & _ & ?).
    + cbn [forallb map concat] in *. apply andb_prop in Pa as [Pa _]. apply app_eq_nil in Hnil as [Hnil _].
      apply Forall_cons_1 in Ha as [Ha _]. destruct (arg_at (length (argToks a)) a Ha Pa) as [Hs _]; [done|].
      unfold argToks in Hs. by rewrite Hnil in Hs.
Qed.

Lemma list_parses elems sp : Forall parses elems -> parses (ListExpr elems sp).
Proof.
  intros He. assert (exprTokens (ListExpr elems sp) = W "[" :: concat (map atomToks elems) ++ [W "]"]) as Et.
  { cbn [exprTokens]. do 3 f_equal. apply map_ext. intros e. unfold atomToks. by rewrite elemParens_atom. }
  apply parses_term; [done|..]; rewrite Et; cbn [printable]; intros Pe.
  - intros f Hf. cbn [length] in Hf. rewrite length_app in Hf. apply term_list. apply terms_at; [done|done|lia].
  - intros t [= <- Hnil]. by apply app_eq_nil in Hnil as [_ ?].
Qed.

Lemma record_parses fields sp :
  Forall (fun x => match x with MkRecordField _ e _ => parses e end) fields -> parses (RecordExpr fields sp).
Proof.
  intros He.
  set (toks := map (fun x => match x with MkRecordField name e _ => (name, atomToks e) end) fields).
  assert (exprTokens (RecordExpr fields sp) = W "record" :: W "{" :: concat (map fieldToks toks) ++ [W "}"]) as Et.
  { cbn [exprTokens]. do 4 f_equal. unfold toks. rewrite map_map. apply map_ext. intros [name e fsp].
    unfold fieldToks, atomToks. cbn [fst snd]. by rewrite elemParens_atom. }
  assert (map fst toks = map fieldName fields) as En by (unfold toks; rewrite map_map; by apply map_ext; intros []).
  apply parses_term; [done|..]; rewrite Et; cbn [printable]; intros [Hd%bool_decide_eq_true Pe]%andb_prop.
  - intros f Hf. cbn [length] in Hf. rewrite length_app in Hf. apply term_record; [|by rewrite En].
    apply fields_at; [done|done|]. assert (concat (map fieldToks toks) =
      concat (map (fun x => match x with MkRecordField name e _ => word (labelOf name) :: atomToks e end) fields)) as <-; [|lia].
    f_equal. unfold toks. rewrite map_map. apply map_ext. by intros [].
  - intros t [= ].
Qed.

Lemma leaf_parses e t :
  atomParens e = false -> exprTokens e = [t] ->
  (exists k, k ∈ [TokenQuoted; TokenVarRef; TokenAdapterRef; TokenInterpString] /\ tokKind t = k) ->
  (printable e = true -> forall sub, isPrimary sub t e) -> parses e.
Proof.
  intros Ha Et Hk Hp. apply parses_term; [done|..]; rewrite Et; intros Pe.
  - intros f Hf. apply term_primary; [by apply Hp|done].
  - intros t' [= <-]. destruct Hk as (kd & Hin & Hkd). unfold kindIs. rewrite Hkd, bool_decide_false; [done|].
    intros ->. set_solver.
Qed.

Lemma literal_parses text quoted sp : parses (LiteralExpr text quoted sp).
Proof.
  destruct quoted.
  - apply (leaf_parses _ (plainToken TokenQuoted text)); [done|done| |intros; apply primary_quoted].
    eexists. split; [|done]. set_solver.
  - apply parses_term; [done|..]; cbn [printable exprTokens]; intros Hl.
    + intros f _. by apply term_word.
    + intros t [= <-]. unfold literalOk in Hl. apply andb_prop in Hl as [_ Hl%negb_true_iff].
      change (among text ["not-empty"; "null"; "empty"]%string = false). by refine (among_sublist _ _ _ Hl _).
Qed.

Lemma printable_parses e : parses e.
Proof.
  revert e. apply (expr_ind' parses (fun _ => True) (fun f => match f with MkRecordField _ e _ => parses e end)
    blockParses entryParses); try done.
  - apply literal_parses.
  - intros. apply (leaf_parses _ (varShape n p)); [done|done| |intros; apply primary_ref]. eexists. split; [|done]. set_solver.
  - intros. apply (leaf_parses _ (adapterShape a n p)); [done|done| |intros; apply primary_adapter].
    eexists. split; [|done]. set_solver.
  - intros l s _. apply (leaf_parses _ (interpShape l)); [done|done| |intros Hp; by intros; apply primary_interp].
    eexists. split; [|done]. set_solver.
  - intros. by apply binary_parses.
  - intros. by apply unary_parses.
  - intros. by apply thread_parses.
  - intros. by apply logical_parses.
  - intros. by apply not_parses.
  - intros. by apply negate_parses.
  - intros. by apply call_parses.
  - intros. by apply matches_parses.
  - intros. by apply list_parses.
  - intros. by apply record_parses.
  - intros. by apply block_parses.
  - intros. by apply pattern_parses.
  - intros path b s Hb exhaustive f n Hp Hv Hf Hn. split; [done|]. cbn [entryTokens entryValueOk] in *.
    pose proof (bracesOf_length b). apply Hb; [done|lia|lia].
Qed.

(** ** Formatting and reading back *)

(** The formatter does not look at positions. *)
Lemma map_erased {A} (erase : A -> A) (write : A -> bytes) (l : list A) :
  Forall (fun a => write (erase a) = write a) l -> map write (map erase l) = map write l.
Proof. induction 1 as [|a l Ha _ IH]; [done|]. cbn [map]. by rewrite Ha, IH. Qed.

Lemma parens_erased e :
  atomParens (eraseExpr e) = atomParens e /\ argParens (eraseExpr e) = argParens e /\ elemParens (eraseExpr e) = elemParens e.
Proof. by destruct e. Qed.

Lemma entryPath_erased ent : entryPath (eraseEntry ent) = entryPath ent.
Proof. by destruct ent. Qed.

Lemma writeEntries_erased value entries : forall first,
  Forall (fun ent => value (eraseEntry ent) = value ent) entries ->
  writeEntries value first (map eraseEntry entries) = writeEntries value first entries.
Proof.
  intros first Hl. revert first. induction Hl as [|ent l He _ IH]; intros first; [done|]. cbn [map writeEntries].
  by rewrite entryPath_erased, He, IH.
Qed.

Definition erases (e : Expr) : Prop := writeExprSource (eraseExpr e) = writeExprSource e.

Lemma writeExprSource_erased e : erases e.
Proof.
  revert e. apply (expr_ind' erases (fun s => match s with SegLiteral _ => True | SegExpr e => erases e end)
    (fun f => match f with MkRecordField _ e _ => erases e end)
    (fun b => writeMatchesBlockSource (eraseBlock b) = writeMatchesBlockSource b)
    (fun ent => entrySource (eraseEntry ent) = entrySource ent)); try done; unfold erases;
    try (intros; cbn [eraseExpr writeExprSource];
         repeat match goal with
         | |- context [atomParens (eraseExpr ?e)] => rewrite (proj1 (parens_erased e))
         | H : writeExprSource (eraseExpr ?e) = _ |- _ => rewrite H; clear H
         | H : writeMatchesBlockSource (eraseBlock ?b) = _ |- _ => rewrite H; clear H
         end; done).
  - intros l sp Hl. cbn [eraseExpr writeExprSource]. do 3 f_equal. rewrite map_map. apply map_ext_Forall.
    eapply Forall_impl; [exact Hl|]. intros [text|e] He; [done|]. cbn [eraseSegment]. unfold erases in He. rewrite <- He.
    by destruct e.
  - intros e l q sp He Hl. cbn [eraseExpr writeExprSource]. rewrite (proj1 (parens_erased e)), He.
    by rewrite map_erased.
  - intros n l sp Hl. cbn [eraseExpr writeExprSource]. f_equal. f_equal. rewrite map_map. apply map_ext_Forall.
    eapply Forall_impl; [exact Hl|]. intros e He. cbn. by rewrite (proj1 (proj2 (parens_erased e))), He.
  - intros l sp Hl. cbn [eraseExpr writeExprSource]. do 3 f_equal. rewrite map_map. apply map_ext_Forall.
    eapply Forall_impl; [exact Hl|]. intros e He. cbn. by rewrite (proj2 (proj2 (parens_erased e))), He.
  - intros l sp Hl. cbn [eraseExpr writeExprSource]. do 3 f_equal. rewrite map_map. apply map_ext_Forall.
    eapply Forall_impl; [exact Hl|]. intros [n e fsp] He. cbn [eraseField]. cbn. by rewrite (proj2 (proj2 (parens_erased e))), He.
  - intros l x sp Hl. cbn [eraseBlock writeMatchesBlockSource]. f_equal. f_equal.
    change (writeEntries _ true (map eraseEntry l)) with (writeEntries entrySource true (map eraseEntry l)).
    change (writeEntries _ true l) with (writeEntries entrySource true l). rewrite writeEntries_erased by done.
    f_equal. f_equal. by destruct l.
Qed.

(** C31: formatting a printable expression and reading it back. What
    FormatExprSource writes is tokenised without an error, the tokens are parsed
    to the end, and the result is the expression again, up to positions: it has the
    same operators with the same operands, whatever parentheses the formatter has
    put in; and formatting it once more gives the same source. *)
Theorem FormatExprSource_reads_back (e : Expr) (Hp : printable e = true) :
  exists tokens e',
    Tokenise (S (length (FormatExprSource e))) (FormatExprSource e) = Done tokens /\
    parseExpression tokens = Done e' /\
    eraseExpr e' = eraseExpr e /\
    FormatExprSource e' = FormatExprSource e.
Proof.
  destruct (reads_tokens _ _ (MkPos "" 1 1) (S (length (FormatExprSource e))) (printable_reads e Hp)) as (ts & Et & Hts);
    [unfold FormatExprSource; lia|]. exists ts.
  destruct (printable_parses e Hp) as (Hh & Ho & _).
  destruct (sub_whole (S (2 * weight ts)) e ts) as (e' & Ep & Hr).
  - apply Ho. rewrite <- Hts, length_map. pose proof (length_weight ts). lia.
  - by destruct (exprTokens e).
  - done.
  - by eapply printable_stripped.
  - exists e'. split_and!; [exact Et|exact Ep|exact Hr|]. unfold FormatExprSource.
    by rewrite <- (writeExprSource_erased e'), Hr, writeExprSource_erased.
Qed.
End parse.
