(* ===== verification/Ir.v ===== *)
(** * The executable IR of the shell

    ir/expr.go, ir/assert.go and ir/model.go: what the lowering produces and the
    executor runs. A basic block is known by its place in the order of allocation,
    where the source has a pointer; the blocks of a unit (the body of the program,
    or of a def) are kept with it. A Temp is a number that does not wrap: a unit
    with 2^32 temporaries does not fit in memory. *)

From Stdlib Require Import ZArith.
From stdpp Require Import base list.
From S2P Require Import Prelude Lexer.

Module ir.

(** ** Expressions *)

Inductive Expr :=
| LiteralExpr (Text : bytes) (Quoted : bool) (sp : Span)
| VarRefExpr (Name Path : bytes) (sp : Span)
| AdapterExpr (Adapter Name Path : bytes) (sp : Span)
| ListExpr (Elems : list Expr) (sp : Span)
| RecordExpr (Fields : list RecordField) (sp : Span)
| InterpStringExpr (Segments : list InterpStringSegment) (sp : Span)
| ThreadExpr (LHS : Expr) (Args : list Expr) (PipePos : Pos) (sp : Span)
| BinaryExpr (Left : Expr) (Op : bytes) (Right : Expr) (sp : Span)
| UnaryExpr (Pred : bytes) (Operand : Expr) (sp : Span)
| LogicalExpr (Op : bytes) (Left Right : Expr) (sp : Span)
| NotExpr (Operand : Expr) (sp : Span)
| NegateExpr (Operand : Expr) (sp : Span)
| PureCallExpr (Name : bytes) (Args : list Expr) (sp : Span)
| MatchesExpr (Target : Expr) (Block : MatchesBlockExpr) (sp : Span)
with RecordField :=
| MkRecordField (Name : bytes) (e : Expr) (sp : Span)
with InterpStringSegment :=
| SegLiteral (Literal : bytes)
| SegExpr (e : Expr)
with MatchesBlockExpr :=
| MkMatchesBlock (Entries : list MatchEntry) (Exhaustive : bool) (sp : Span)
with MatchEntry :=
| MatchPattern (Path : bytes) (Pattern : Expr) (sp : Span)
| MatchSubBlock (Path : bytes) (SubBlock : MatchesBlockExpr) (sp : Span)
| MatchPredicate (Path : bytes) (Predicate : bytes) (sp : Span).

Inductive AssertClause :=
| AssertExprClause (e : Expr)
| AssertCommandClause (Head : bytes) (HeadSpan : Span) (Args : list Expr) (Negate : bool).

(** ** Instructions *)

Abbreviation Temp := nat.
Abbreviation block := nat.

Inductive FrameKind := FrameDef | FrameIfBranch | FrameForEachIter | FramePollAttempt.
Inductive DeferScopeKind := DeferScopeProgram | DeferScopeDef | DeferScopePollAttempt.
Inductive RunDefersPolicy := RunDefersProgram | RunDefersDefLocal | RunDefersAttemptFatal.
Inductive DispatchPolicy := DispatchPolicyDefThenExecBind | DispatchPolicyDefThenExecCommand.

Record Param := MkParam { paName : bytes; paType : bytes }.

Inductive Instr :=
| EnterFrame (Kind : FrameKind) (sp : Span)
| ExitFrame (sp : Span)
| EnterDeferScope (Kind : DeferScopeKind) (sp : Span)
| RegisterDefer (Argv : Temp) (Policy : DispatchPolicy) (Trace : bool) (sp : Span)
| RunDefers (Policy : RunDefersPolicy) (sp : Span)
| Eval (Dst : Temp) (e : Expr) (sp : Span)
| BuildArgs (Dst : Temp) (Args : list Expr) (sp : Span)
| DispatchBind (Dst Argv : Temp) (CallPos : Pos) (Policy : DispatchPolicy) (TraceHeader : bytes) (sp : Span)
| DispatchCommand (Argv : Temp) (Policy : DispatchPolicy) (Trace : bool) (sp : Span)
| ApplyBind (Src Argv : Temp) (Target : bytes) (Guard : bool) (OnFail : option block) (sp : Span)
| BindName (Name : bytes) (Src : Temp) (TracePrefix : bytes) (sp : Span)
| BindDestructure (Names : list bytes) (Src : Temp) (Trace : bool) (sp : Span)
| BuildEnvelope (Dst : Temp) (ExitCode : Z) (Err : bytes) (sp : Span)
| EmitBindResult (Rc Primary : option Temp) (sp : Span)
| EmitResult (Src : Temp) (Trace : bool) (sp : Span)
| TraceNote (Msg : bytes) (sp : Span)
| Assert (IsRequire : bool) (Clause : AssertClause) (sp : Span)
| RegisterDef (D : Def) (sp : Span)
(* terminators *)
| Stop (sp : Span)
| Jump (Target : block) (sp : Span)
| Branch (Cond : Temp) (True_ False_ : block) (sp : Span)
| ReturnValue (Src : Temp) (To : block) (Trace : bool) (sp : Span)
| PropagateError (sp : Span)
| PropagateGuardFailure (Primary Head : bytes) (ArgSpan : Span) (ExitCode : Z) (Stdout Stderr : bytes)
    (Killed : bool) (Signal : bytes) (PID : option Z) (sp : Span)
| BeginPoll (Timeout Every : Z) (Attempt OnTimeout OnSuccess : block) (sp : Span)
| RetryPoll (Message : option Temp) (sp : Span)
| Fail (Msg : bytes) (sp : Span)
| ForEach (List_ : Temp) (Names : list bytes) (Body Exit : block) (sp : Span)
| ForEachContinue (sp : Span)
| ExitLoop (sp : Span)
| ForEachCollect (List_ : Temp) (Names : list bytes) (Target : bytes) (Guard : bool) (Body Exit : block) (sp : Span)
| CollectProduce (Result : Temp) (FrameSpan : Span) (sp : Span)
with BasicBlock :=
| MkBlock (Instrs : list Instr) (sp : Span)
with Def :=
| MkDef (Name : bytes) (Params : list Param) (HasReturn : bool) (Entry : block) (Blocks : list block)
    (NumTemps : nat) (Memory : list BasicBlock) (sp : Span).

Definition instrs (b : BasicBlock) : list Instr := match b with MkBlock l _ => l end.

Definition dfName (d : Def) : bytes := match d with MkDef n _ _ _ _ _ _ _ => n end.
Definition dfParams (d : Def) : list Param := match d with MkDef _ p _ _ _ _ _ _ => p end.
Definition dfHasReturn (d : Def) : bool := match d with MkDef _ _ h _ _ _ _ _ => h end.
Definition dfEntry (d : Def) : block := match d with MkDef _ _ _ e _ _ _ _ => e end.
Definition dfBlocks (d : Def) : list block := match d with MkDef _ _ _ _ b _ _ _ => b end.
Definition dfNumTemps (d : Def) : nat := match d with MkDef _ _ _ _ _ n _ _ => n end.
Definition dfMemory (d : Def) : list BasicBlock := match d with MkDef _ _ _ _ _ _ m _ => m end.

(** The program: its defs and the unit of its body. *)
Record Program := MkProgram {
  prDefs : list Def;
  prBody : block;
  prBlocks : list block;
  prNumTemps : nat;
  prMemory : list BasicBlock;
  prSpan : Span
}.

End ir.
