(* ===== verification/Lower.v ===== *)
(** * Lowering scripts to the IR

    lower/lower.go and lower/expr.go. A lowerer is the state of one unit; the defs
    collected so far are shared. A block is allocated in the unit's memory, where
    the source creates a *BasicBlock; [blocks] is the emission list. Bodies that
    are nil and empty ones are the same list, as the parser never produces an empty
    body that is not nil. *)

From Stdlib Require Import ZArith Lia Ascii.
From stdpp Require Import base tactics list strings option.
From S2P Require Import Prelude Lexer Literals Ast ExprParser Ir.

(** ** Expressions (expr.go) *)

Fixpoint lowerIRExpr (e : Expr) : ir.Expr :=
  match e with
  | LiteralExpr text quoted sp => ir.LiteralExpr text quoted sp
  | VarRefExpr name path sp => ir.VarRefExpr name path sp
  | AdapterExpr adapter name path sp => ir.AdapterExpr adapter name path sp
  | ListExpr elems sp => ir.ListExpr (map lowerIRExpr elems) sp
  | RecordExpr fields sp =>
    ir.RecordExpr (map (fun f => match f with MkRecordField name e sp => ir.MkRecordField name (lowerIRExpr e) sp end) fields) sp
  | InterpStringExpr segs sp =>
    ir.InterpStringExpr (map (fun s => match s with
      | SegLiteral text => ir.SegLiteral text
      | SegExpr e => ir.SegExpr (lowerIRExpr e)
      end) segs) sp
  | ThreadExpr lhs args pipe sp => ir.ThreadExpr (lowerIRExpr lhs) (map lowerIRExpr args) pipe sp
  | BinaryExpr l op r sp => ir.BinaryExpr (lowerIRExpr l) op (lowerIRExpr r) sp
  | UnaryExpr pred e sp => ir.UnaryExpr pred (lowerIRExpr e) sp
  | LogicalExpr op l r sp => ir.LogicalExpr op (lowerIRExpr l) (lowerIRExpr r) sp
  | NotExpr e sp => ir.NotExpr (lowerIRExpr e) sp
  | NegateExpr e sp => ir.NegateExpr (lowerIRExpr e) sp
  | PureCallExpr name args sp => ir.PureCallExpr name (map lowerIRExpr args) sp
  | MatchesExpr target block sp => ir.MatchesExpr (lowerIRExpr target) (lowerIRMatchesBlock block) sp
  end
with lowerIRMatchesBlock (m : MatchesBlockExpr) : ir.MatchesBlockExpr :=
  match m with
  | MkMatchesBlock entries exhaustive sp =>
    ir.MkMatchesBlock (map (fun ent => match ent with
      | MatchPattern path e sp => ir.MatchPattern path (lowerIRExpr e) sp
      | MatchSubBlock path sub sp => ir.MatchSubBlock path (lowerIRMatchesBlock sub) sp
      | MatchPredicate path pred sp => ir.MatchPredicate path pred sp
      end) entries) exhaustive sp
  end.

Definition lowerIRExprs (exprs : list Expr) : list ir.Expr := map lowerIRExpr exprs.

(** ** The lowerer *)

Record lowerCtx := MkCtx {
  deferPolicy : ir.RunDefersPolicy;
  returnTo : option ir.block;
  attempt : option ir.block;
  fatal : option ir.block;
  nonTopLevel : bool
}.

Record lowerer := MkLowerer {
  ctx : lowerCtx;
  memory : list ir.BasicBlock;
  blocks : list ir.block;
  cur : ir.block;
  nextTemp : ir.Temp;
  loops : list ir.block    (* the exits of the enclosing loops, innermost first *)
}.

Definition newLowerer (c : lowerCtx) : lowerer := MkLowerer c [] [] 0 0 [].

(** The lowerState and the lowerer of the unit. *)
Record lstate := MkState { defs : list ir.Def; unit_ : lowerer }.

Definition L (A : Type) : Type := lstate -> outcome perror (A * lstate).

Definition lret {A} (a : A) : L A := fun s => Done (a, s).
Definition lfail {A} (e : perror) : L A := fun _ => Failed e.
Definition lbind {A C} (m : L A) (f : A -> L C) : L C :=
  fun s => match m s with
           | Done (a, s') => f a s'
           | Failed e => Failed e
           | OutOfFuel => OutOfFuel
           end.

Notation "'let&' x ':=' m 'in' k" := (lbind m (fun x => k))
  (at level 10, x pattern, m at level 100, k at level 200, right associativity) : go_scope.
Notation "m ';&' k" := (lbind m (fun _ => k))
  (at level 100, k at level 200, right associativity) : go_scope.

Definition get {A} (f : lowerer -> A) : L A := fun s => Done (f (unit_ s), s).
Definition modify (f : lowerer -> lowerer) : L unit := fun s => Done (tt, MkState (defs s) (f (unit_ s))).

Definition setCtx (c : lowerCtx) : L unit :=
  modify (fun l => MkLowerer c (memory l) (blocks l) (cur l) (nextTemp l) (loops l)).
Definition setCur (b : ir.block) : L unit :=
  modify (fun l => MkLowerer (ctx l) (memory l) (blocks l) b (nextTemp l) (loops l)).
Definition setLoops (ls : list ir.block) : L unit :=
  modify (fun l => MkLowerer (ctx l) (memory l) (blocks l) (cur l) (nextTemp l) ls).

Definition reserveBlock (sp : Span) : L ir.block := fun s =>
  let l := unit_ s in
  Done (length (memory l),
        MkState (defs s) (MkLowerer (ctx l) (memory l ++ [ir.MkBlock [] sp]) (blocks l) (cur l) (nextTemp l) (loops l))).

Definition publishBlock (b : ir.block) : L unit :=
  modify (fun l => MkLowerer (ctx l) (memory l) (blocks l ++ [b]) (cur l) (nextTemp l) (loops l)).

Definition newBlock (sp : Span) : L ir.block := let& b := reserveBlock sp in publishBlock b ;& lret b.

Definition addInstr (i : ir.Instr) (b : ir.BasicBlock) : ir.BasicBlock :=
  match b with ir.MkBlock l sp => ir.MkBlock (l ++ [i]) sp end.

Definition emit (i : ir.Instr) : L unit :=
  modify (fun l => MkLowerer (ctx l) (alter (addInstr i) (cur l) (memory l)) (blocks l) (cur l) (nextTemp l) (loops l)).

Definition alloc : L ir.Temp := fun s =>
  let l := unit_ s in
  Done (nextTemp l, MkState (defs s) (MkLowerer (ctx l) (memory l) (blocks l) (cur l) (S (nextTemp l)) (loops l))).

(** [saved := l.ctx; l.ctx = ...; body; l.ctx = saved] *)
Definition withCtx (f : lowerCtx -> lowerCtx) (body : L unit) : L unit :=
  let& saved := get ctx in setCtx (f saved) ;& body ;& setCtx saved.

Definition nested (c : lowerCtx) : lowerCtx := MkCtx (deferPolicy c) (returnTo c) (attempt c) (fatal c) true.

(** ** Helpers *)

Definition identTexts (idents : list Ident) : list bytes := map idText idents.

Definition named (s : bytes) : bytes := match s with [] => B "_" | _ => s end.

Definition bindTraceHeader (target : Ident) (guard : bool) : bytes :=
  (if guard then B "guard " else B "let ") ++ named (idText target).

Definition irDefParams (params : list DefParam) : list ir.Param :=
  map (fun p => ir.MkParam (idText (dpName p)) (dpType p)) params.

Fixpoint stmtHasReturn (st : Stmt) : bool :=
  match st with
  | ReturnStmt _ _ => true
  | IfStmt _ then_ elifs els _ =>
    existsb stmtHasReturn then_ ||
    existsb (fun br => match br with MkIfBranch _ body _ => existsb stmtHasReturn body end) elifs ||
    existsb stmtHasReturn els
  | ForEachStmt (MkForEach _ _ body _) => existsb stmtHasReturn body
  | PollStmt _ _ body _ => existsb stmtHasReturn body
  | BindStmt _ (BindCollect (MkForEach _ _ body _)) _ _ => existsb stmtHasReturn body
  | _ => false
  end.
Definition bodyHasReturn (stmts : list Stmt) : bool := existsb stmtHasReturn stmts.

Definition lowerAssertClause (c : AssertClause) : ir.AssertClause :=
  match c with
  | AssertExprClause e => ir.AssertExprClause (lowerIRExpr e)
  | AssertCommandClause head headSpan args negate => ir.AssertCommandClause head headSpan (lowerIRExprs args) negate
  end.

(** ** Statements without a body *)

Definition lowerCommandStmt (cmd : Command) : L unit :=
  let& argv := alloc in
  emit (ir.BuildArgs argv (lowerIRExprs (cmdArgs cmd)) (cmdSpan cmd)) ;&
  emit (ir.DispatchCommand argv ir.DispatchPolicyDefThenExecCommand true (cmdSpan cmd)).

Definition lowerExprStmt (e : Expr) (sp : Span) : L unit :=
  let& v := alloc in
  emit (ir.Eval v (lowerIRExpr e) sp) ;& emit (ir.EmitResult v true sp).

Definition lowerLetStmt (name : Ident) (rhs : Expr) (sp : Span) : L unit :=
  let& v := alloc in
  emit (ir.Eval v (lowerIRExpr rhs) sp) ;&
  emit (ir.BindName (idText name) v (B "let " ++ idText name ++ B " = ") sp).

Definition lowerLetDestructureStmt (names : list Ident) (rhs : Expr) (sp : Span) : L unit :=
  let& src := alloc in
  emit (ir.Eval src (lowerIRExpr rhs) sp) ;& emit (ir.BindDestructure (identTexts names) src true sp).

Definition lowerDeferStmt (cmd : Command) (sp : Span) : L unit :=
  let& argv := alloc in
  emit (ir.BuildArgs argv (lowerIRExprs (cmdArgs cmd)) (cmdSpan cmd)) ;&
  emit (ir.RegisterDefer argv ir.DispatchPolicyDefThenExecBind true sp).

Definition lowerAssertStmt (isRequire : bool) (clause : AssertClause) (sp : Span) : L unit :=
  emit (ir.Assert isRequire (lowerAssertClause clause) sp).

Definition lowerBreakStmt (sp : Span) : L unit :=
  let& ls := get loops in
  match ls with
  | [] => lfail (Bare (Errorf "lower: break at %d:%d outside any loop"))
  | _ =>
    emit (ir.TraceNote (B "break") sp) ;& emit (ir.ExitLoop sp) ;&
    (let& b := newBlock sp in setCur b)
  end.

Definition lowerContinueStmt (sp : Span) : L unit :=
  let& ls := get loops in
  match ls with
  | [] => lfail (Bare (Errorf "lower: continue at %d:%d outside any loop"))
  | _ =>
    emit (ir.TraceNote (B "continue") sp) ;& emit (ir.ForEachContinue sp) ;&
    (let& b := newBlock sp in setCur b)
  end.

Definition emitRetryStmt (message : option Expr) (sp : Span) : L unit :=
  let& msg :=
    match message with
    | None => lret None
    | Some e => let& temp := alloc in emit (ir.Eval temp (lowerIRExpr e) sp) ;& lret (Some temp)
    end in
  emit (ir.RunDefers ir.RunDefersAttemptFatal sp) ;& emit (ir.ExitFrame sp) ;& emit (ir.RetryPoll msg sp) ;&
  (let& b := newBlock sp in setCur b).

Definition lowerRetryStmt (message unless : option Expr) (sp : Span) : L unit :=
  let& c := get ctx in
  if bool_decide (attempt c = None) && bool_decide (returnTo c = None) then
    lfail (spanErr sp "retry outside any poll or helper def")
  else
    match unless with
    | None => emitRetryStmt message sp
    | Some e =>
      let& cond := alloc in
      emit (ir.Eval cond (lowerIRExpr e) sp) ;&
      (let& continueBlock := newBlock sp in
       let& retryBlock := newBlock sp in
       emit (ir.Branch cond continueBlock retryBlock sp) ;&
       setCur retryBlock ;& emitRetryStmt message sp ;& setCur continueBlock)
    end.

Definition lowerReturnStmt (e : Expr) (sp : Span) : L unit :=
  let& c := get ctx in
  match returnTo c with
  | None => lfail (Bare (Errorf "lower: return at %d:%d outside any def"))
  | Some to =>
    let& src := alloc in
    emit (ir.Eval src (lowerIRExpr e) sp) ;& emit (ir.ReturnValue src to true sp) ;&
    (let& b := newBlock sp in setCur b)
  end.

Definition buildGuardFailBlock (sp : Span) : L ir.block :=
  let& saved := get cur in
  let& fb := newBlock sp in
  setCur fb ;&
  (let& c := get ctx in
   match attempt c with
   | Some _ => emit (ir.RunDefers ir.RunDefersAttemptFatal sp) ;& emit (ir.ExitFrame sp) ;& emit (ir.PropagateError sp)
   | None =>
     emit (ir.RunDefers (deferPolicy c) sp) ;&
     match returnTo c with Some _ => emit (ir.ExitFrame sp) | None => lret tt end ;&
     emit (ir.PropagateError sp)
   end) ;&
  setCur saved ;& lret fb.

Definition lowerBindCmd (target : Ident) (cmd : Command) (guard : bool) (sp : Span) : L unit :=
  let& argv := alloc in
  emit (ir.BuildArgs argv (lowerIRExprs (cmdArgs cmd)) (cmdSpan cmd)) ;&
  (let& result := alloc in
   emit (ir.DispatchBind result argv (Start (cmdSpan cmd)) ir.DispatchPolicyDefThenExecBind
           (bindTraceHeader target guard) sp) ;&
   (let& onFail := if guard then let& fb := buildGuardFailBlock sp in lret (Some fb) else lret None in
    emit (ir.ApplyBind result argv (idText target) guard onFail sp))).

(** ** Statements with bodies *)

Section bodies.
Context (lowerStmt : Stmt -> L unit).

(** [for _, st := range body { if err := l.lowerStmt(st); err != nil { return err } }] *)
Fixpoint walk (stmts : list Stmt) : L unit :=
  match stmts with
  | [] => lret tt
  | st :: stmts' => lowerStmt st ;& walk stmts'
  end.

(** The same over [body[:len(body)-1]]. *)
Fixpoint walkInit (stmts : list Stmt) : L unit :=
  match stmts with
  | [] | [_] => lret tt
  | st :: stmts' => lowerStmt st ;& walkInit stmts'
  end.

Definition lowerIfBranchBody (blk : ir.block) (body : list Stmt) (span traceSpan : Span) (merge : ir.block)
    (traceMsg : bytes) : L unit :=
  setCur blk ;&
  emit (ir.TraceNote traceMsg traceSpan) ;&
  emit (ir.EnterFrame ir.FrameIfBranch span) ;&
  withCtx nested (walk body) ;&
  emit (ir.ExitFrame span) ;&
  emit (ir.Jump merge span).

(** One conditional of the chain; its result is the block of the false side, which
    gets the span of the next elif. *)
Definition lowerIfTaken (span traceSpan : Span) (cond : Expr) (then_ : list Stmt) (elifs : list IfBranch)
    (merge : ir.block) (takenTrace : bytes) : L ir.block :=
  let& condTemp := alloc in
  emit (ir.Eval condTemp (lowerIRExpr cond) span) ;&
  (let& thenBlock := newBlock span in
   let& nextBlock := newBlock (match elifs with MkIfBranch _ _ s :: _ => s | [] => span end) in
   emit (ir.Branch condTemp thenBlock nextBlock span) ;&
   lowerIfBranchBody thenBlock then_ span traceSpan merge takenTrace ;&
   lret nextBlock).

(** The continuation on the false side of a conditional. *)
Section chain.
Context (traceSpan : Span) (els : list Stmt) (merge : ir.block).

Fixpoint lowerIfElse (span : Span) (nextBlock : ir.block) (elifs : list IfBranch) : L unit :=
  match elifs with
  | MkIfBranch cond body s :: elifs' =>
    setCur nextBlock ;&
    (let& nextBlock' := lowerIfTaken s traceSpan cond body elifs' merge (B "if elif") in
     lowerIfElse s nextBlock' elifs')
  | [] =>
    match els with
    | [] => setCur nextBlock ;& emit (ir.TraceNote (B "if skip") traceSpan) ;& emit (ir.Jump merge traceSpan)
    | _ => lowerIfBranchBody nextBlock els span traceSpan merge (B "if else")
    end
  end.

Definition lowerIfChain (span : Span) (cond : Expr) (then_ : list Stmt) (elifs : list IfBranch)
    (takenTrace : bytes) : L unit :=
  let& nextBlock := lowerIfTaken span traceSpan cond then_ elifs merge takenTrace in
  lowerIfElse span nextBlock elifs.
End chain.

Definition lowerIfStmt (cond : Expr) (then_ : list Stmt) (elifs : list IfBranch) (els : list Stmt) (sp : Span) : L unit :=
  let& merge := reserveBlock sp in
  lowerIfChain sp els merge sp cond then_ elifs (B "if then") ;&
  publishBlock merge ;& setCur merge.

(** The body of a loop, with its exit on the loop stack. *)
Definition inLoop (exit : ir.block) (body : L unit) : L unit :=
  let& ls := get loops in setLoops (exit :: ls) ;& body ;& setLoops ls.

Definition lowerForEachStmt (names : list Ident) (list_ : Expr) (body : list Stmt) (sp : Span) : L unit :=
  let& listTemp := alloc in
  emit (ir.Eval listTemp (lowerIRExpr list_) sp) ;&
  (let& bodyBlock := newBlock sp in
   let& exit := newBlock sp in
   emit (ir.ForEach listTemp (identTexts names) bodyBlock exit sp) ;&
   inLoop exit (
     setCur bodyBlock ;& withCtx nested (walk body) ;& emit (ir.ForEachContinue sp) ;& setCur exit)).

Definition pollCtx (attempt fatal : ir.block) (c : lowerCtx) : lowerCtx :=
  MkCtx ir.RunDefersAttemptFatal (returnTo c) (Some attempt) (Some fatal) true.

Definition lowerPollStmt (timeout every : Z) (body : list Stmt) (sp : Span) : L unit :=
  let& attempt := newBlock sp in
  let& timeoutBlock := newBlock sp in
  let& done := newBlock sp in
  emit (ir.BeginPoll timeout every attempt timeoutBlock done sp) ;&
  withCtx (pollCtx attempt timeoutBlock) (
    setCur attempt ;&
    emit (ir.TraceNote (B "poll attempt") sp) ;&
    emit (ir.EnterFrame ir.FramePollAttempt sp) ;&
    emit (ir.EnterDeferScope ir.DeferScopePollAttempt sp) ;&
    walk body ;&
    emit (ir.RunDefers ir.RunDefersAttemptFatal sp) ;&
    emit (ir.ExitFrame sp) ;&
    emit (ir.Jump done sp)) ;&
  setCur timeoutBlock ;&
  emit (ir.TraceNote (B "poll timeout") sp) ;&
  emit (ir.PropagateError sp) ;&
  setCur done.

(** The unit of a def: a lowerer of its own, whose defs stay. *)
Definition defCtx (epilogue : option ir.block) : lowerCtx :=
  MkCtx ir.RunDefersDefLocal epilogue None None false.

Fixpoint bindParams (i : nat) (params : list DefParam) (sp : Span) : L unit :=
  match params with
  | [] => lret tt
  | p :: params' => emit (ir.BindName (idText (dpName p)) i [] sp) ;& bindParams (S i) params' sp
  end.

Definition lowerDefBody (params : list DefParam) (body : list Stmt) (sp : Span) : L ir.block :=
  let& epilogue := reserveBlock sp in
  setCtx (defCtx (Some epilogue)) ;&
  (let& entry := newBlock sp in
   setCur entry ;&
   emit (ir.EnterFrame ir.FrameDef sp) ;&
   emit (ir.EnterDeferScope ir.DeferScopeDef sp) ;&
   bindParams 0 params sp ;&
   walk body ;&
   emit (ir.Jump epilogue sp) ;&
   publishBlock epilogue ;&
   setCur epilogue ;&
   emit (ir.RunDefers ir.RunDefersDefLocal sp) ;&
   emit (ir.ExitFrame sp) ;&
   emit (ir.EmitBindResult None None sp) ;&
   lret entry).

Definition defLowerer (params : list DefParam) : lowerer :=
  MkLowerer (defCtx None) [] [] 0 (length params) [].

Definition lowerDefStmt (name : Ident) (params : list DefParam) (body : list Stmt) (sp : Span) : L unit :=
  let& c := get ctx in
  if negb (bool_decide (returnTo c = None)) || nonTopLevel c then
    lfail (spanErr sp "def %q must be declared at top level")
  else fun s =>
    match lowerDefBody params body sp (MkState (defs s) (defLowerer params)) with
    | Failed e => Failed e
    | OutOfFuel => OutOfFuel
    | Done (entry, s') =>
      let l := unit_ s' in
      let def := ir.MkDef (idText name) (irDefParams params) (bodyHasReturn body) entry (blocks l)
                   (nextTemp l) (memory l) sp in
      Done (tt, MkState (defs s' ++ [def]) (unit_ s))
    end.

Definition lowerBindCollect (target : Ident) (fe : ForEach) (guard : bool) (sp : Span) : L unit :=
  match fe with
  | MkForEach names list_ body feSpan =>
    match head (reverse body) with
    | None => lfail (Bare (Errorf "lower: bind-collect at %d:%d has empty body"))
    | Some (CommandStmt finalCmd) =>
      let& listTemp := alloc in
      emit (ir.Eval listTemp (lowerIRExpr list_) feSpan) ;&
      (let& bodyBlock := newBlock feSpan in
       let& exit := newBlock feSpan in
       emit (ir.ForEachCollect listTemp (identTexts names) (idText target) guard bodyBlock exit feSpan) ;&
       inLoop exit (
         setCur bodyBlock ;&
         walkInit body ;&
         (let& argv := alloc in
          emit (ir.BuildArgs argv (lowerIRExprs (cmdArgs finalCmd)) (cmdSpan finalCmd)) ;&
          (let& res := alloc in
           emit (ir.DispatchBind res argv (Start (cmdSpan finalCmd)) ir.DispatchPolicyDefThenExecBind
                   (bindTraceHeader target guard) (cmdSpan finalCmd)) ;&
           emit (ir.CollectProduce res sp (cmdSpan finalCmd)) ;&
           setCur exit))))
    | Some _ => lfail (Bare (Errorf "lower: bind-collect at %d:%d body does not end in a command"))
    end
  end.
End bodies.

Fixpoint lowerStmt (st : Stmt) : L unit :=
  match st with
  | CommandStmt cmd => lowerCommandStmt cmd
  | ExprStmt e sp => lowerExprStmt e sp
  | LetStmt name rhs sp => lowerLetStmt name rhs sp
  | LetDestructureStmt names rhs sp => lowerLetDestructureStmt names rhs sp
  | BindStmt target (BindCollect fe) guard sp => lowerBindCollect lowerStmt target fe guard sp
  | BindStmt target (BindCommand cmd) guard sp => lowerBindCmd target cmd guard sp
  | DeferStmt cmd sp => lowerDeferStmt cmd sp
  | AssertStmt isRequire clause sp => lowerAssertStmt isRequire clause sp
  | IfStmt cond then_ elifs els sp => lowerIfStmt lowerStmt cond then_ elifs els sp
  | ForEachStmt (MkForEach names list_ body sp) => lowerForEachStmt lowerStmt names list_ body sp
  | BreakStmt sp => lowerBreakStmt sp
  | ContinueStmt sp => lowerContinueStmt sp
  | PollStmt timeout every body sp => lowerPollStmt lowerStmt timeout every body sp
  | RetryStmt message unless sp => lowerRetryStmt message unless sp
  | DefStmt name params body sp => lowerDefStmt lowerStmt name params body sp
  | ReturnStmt e sp => lowerReturnStmt e sp
  end.

(** ** Programs *)

Definition lowerBody (stmts : list Stmt) (span : Span) : L ir.block :=
  let& entry := newBlock span in
  setCur entry ;&
  emit (ir.EnterDeferScope ir.DeferScopeProgram span) ;&
  walk lowerStmt stmts ;&
  emit (ir.RunDefers ir.RunDefersProgram span) ;&
  emit (ir.Stop span) ;&
  lret entry.

Definition programLowerer : lowerer := newLowerer (MkCtx ir.RunDefersProgram None None None false).

Definition Lower (prog : Program) : outcome perror ir.Program :=
  match lowerBody (progStmts prog) (progSpan prog) (MkState [] programLowerer) with
  | Failed e => Failed e
  | OutOfFuel => OutOfFuel
  | Done (body, s) =>
    let l := unit_ s in
    Done (ir.MkProgram (defs s) body (blocks l) (nextTemp l) (memory l) (progSpan prog))
  end.
