(* ===== verification/IrTyping.v ===== *)
(** * Well-formed units

    What the executor relies on and the lowering has to establish: a context for
    each block of a unit, with the frames and defer scopes that are open at least,
    the loops and the polls around it. A unit is well formed when each block fits
    its context and leaves for blocks whose contexts agree. The test is
    executable. *)

From Stdlib Require Import ZArith Lia.
From stdpp Require Import base tactics list gmap option.
From S2P Require Import Prelude Lexer Ir.

#[export] Instance DeferScopeKind_eq_dec : EqDecision ir.DeferScopeKind.
Proof. solve_decision. Defined.
#[export] Instance RunDefersPolicy_eq_dec : EqDecision ir.RunDefersPolicy.
Proof. solve_decision. Defined.
#[export] Instance DispatchPolicy_eq_dec : EqDecision ir.DispatchPolicy.
Proof. solve_decision. Defined.

(** ** Contexts *)

(** A loop around a block: its body, its exit, whether it collects, and the frames
    and scopes open where it was entered. *)
Record sloop := MkSloop {
  slBody : ir.block; slExit : ir.block; slCollect : bool; slFrames : nat; slScopes : nat
}.

(** A poll around a block: its blocks, and what was open where it began. *)
Record spoll := MkSpoll {
  spAttempt : ir.block; spTimeout : ir.block; spDone : ir.block;
  spFrames : nat; spScopes : nat; spLoops : list sloop
}.

Record sctx := MkSctx { sFrames : nat; sScopes : nat; sLoops : list sloop; sPolls : list spoll }.

#[export] Instance sloop_eq_dec : EqDecision sloop.
Proof. solve_decision. Defined.
#[export] Instance spoll_eq_dec : EqDecision spoll.
Proof. solve_decision. Defined.
#[export] Instance sctx_eq_dec : EqDecision sctx.
Proof. solve_decision. Defined.

(** How a block is entered: in a context, with the values of the first temporaries
    given; with a failed guard pending; when a poll has timed out; at the end of a
    def; or never, as the one after the retry of an [unless]. *)
Inductive bctx :=
| Normal (c : sctx) (given : nat)
| GuardFails (frames scopes : nat)
| TimesOut
| Epilogue
| Unused.

#[export] Instance bctx_eq_dec : EqDecision bctx.
Proof. solve_decision. Defined.

(** What a temporary holds. *)
Inductive tempType := TyValue | TyArgv | TyBind.
#[export] Instance tempType_eq_dec : EqDecision tempType.
Proof. solve_decision. Defined.

Abbreviation tenv := (gmap ir.Temp tempType).

Fixpoint given (n : nat) : tenv := match n with O => ∅ | S n' => <[n' := TyValue]> (given n') end.

(** ** The test *)

Section unit_.
Context (isDef : bool) (Psi : list bctx) (numTemps : nat).

Definition has (G : tenv) (t : ir.Temp) (ty : tempType) : bool := bool_decide (G !! t = Some ty).

Definition enters (b : ir.block) (k : bctx) : bool := bool_decide (Psi !! b = Some k).

Definition framesTo (c : sctx) (n : nat) : sctx := MkSctx n (sScopes c) (sLoops c) (sPolls c).
Definition scopesTo (c : sctx) (n : nat) : sctx := MkSctx (sFrames c) n (sLoops c) (sPolls c).

(** The scopes of a program that a driver may hold open around it. *)
Definition base : nat := if isDef then 0 else 1.

Definition guardOk (c : sctx) (onFail : option ir.block) : bool :=
  match onFail with
  | None => false
  | Some b =>
    match Psi !! b with
    | Some (GuardFails f s) => (f <=? sFrames c) && (s <=? sScopes c)
    | _ => false
    end
  end.

(** A retry can drain to the attempt of the innermost poll. *)
Definition pollDrains (c : sctx) : bool :=
  match sPolls c with
  | [] => true
  | p :: _ =>
    (spFrames p <=? sFrames c) && (spScopes p <=? sScopes c) && bool_decide (spLoops p `suffix_of` sLoops c)
  end.

(** An instruction that falls through. *)
Definition stepOk (c : sctx) (G : tenv) (i : ir.Instr) : option (sctx * tenv) :=
  match i with
  | ir.EnterFrame _ _ => Some (framesTo c (S (sFrames c)), G)
  | ir.ExitFrame _ => if 1 <=? sFrames c then Some (framesTo c (sFrames c - 1), G) else None
  | ir.EnterDeferScope k _ =>
    if bool_decide (k = ir.DeferScopeProgram)
    then if negb isDef && (sScopes c =? 0) then Some (scopesTo c 1, G) else None
    else if base <=? sScopes c then Some (scopesTo c (S (sScopes c)), G) else None
  | ir.RegisterDefer argv _ _ _ => if has G argv TyArgv && (1 <=? sScopes c) then Some (c, G) else None
  | ir.RunDefers policy _ =>
    if bool_decide (policy = ir.RunDefersProgram)
    then if negb isDef && (sScopes c =? 1) then Some (scopesTo c 0, G) else None
    else if base <? sScopes c then Some (scopesTo c (sScopes c - 1), G) else None
  | ir.Eval dst _ _ | ir.BuildEnvelope dst _ _ _ =>
    if dst <? numTemps then Some (c, <[dst := TyValue]> G) else None
  | ir.BuildArgs dst _ _ => if dst <? numTemps then Some (c, <[dst := TyArgv]> G) else None
  | ir.DispatchBind dst argv _ policy _ _ =>
    if has G argv TyArgv && (dst <? numTemps) && bool_decide (policy = ir.DispatchPolicyDefThenExecBind) && pollDrains c
    then Some (c, <[dst := TyBind]> G) else None
  | ir.DispatchCommand argv policy _ _ =>
    if has G argv TyArgv && bool_decide (policy = ir.DispatchPolicyDefThenExecCommand) && pollDrains c
    then Some (c, G) else None
  | ir.ApplyBind src argv _ guard onFail _ =>
    if has G src TyBind && has G argv TyArgv && (negb guard || guardOk c onFail) then Some (c, G) else None
  | ir.BindName _ src _ _ | ir.BindDestructure _ src _ _ | ir.EmitResult src _ _ =>
    if has G src TyValue then Some (c, G) else None
  | ir.TraceNote _ _ | ir.Assert _ _ _ | ir.EmitBindResult _ _ _ => Some (c, G)
  | _ => None
  end.

Fixpoint stepsOk (c : sctx) (G : tenv) (l : list ir.Instr) : option (sctx * tenv) :=
  match l with
  | [] => Some (c, G)
  | i :: l' => match stepOk c G i with Some (c', G') => stepsOk c' G' l' | None => None end
  end.

(** The contexts of the blocks of a loop and of a poll. *)
Definition bodyCtx (l : sloop) (rest : list sloop) (polls : list spoll) : sctx :=
  MkSctx (S (slFrames l)) (slScopes l) (l :: rest) polls.
Definition exitCtx (l : sloop) (rest : list sloop) (polls : list spoll) : sctx :=
  MkSctx (slFrames l) (slScopes l) rest polls.
Definition attemptCtx (p : spoll) (rest : list spoll) : sctx :=
  MkSctx (spFrames p) (spScopes p) (spLoops p) (p :: rest).

Definition loopsBack (c : sctx) (collect : bool) : bool :=
  match sLoops c with
  | [] => false
  | l :: rest =>
    (negb collect || slCollect l) && (slFrames l <=? sFrames c) && (slScopes l <=? sScopes c) &&
    enters (slBody l) (Normal (bodyCtx l rest (sPolls c)) 0) && enters (slExit l) (Normal (exitCtx l rest (sPolls c)) 0)
  end.

(** The terminator of a block. *)
Definition endOk (c : sctx) (G : tenv) (i : ir.Instr) : bool :=
  match i with
  | ir.Stop _ => true
  | ir.Jump t _ =>
    enters t (Normal c 0) ||
    match sPolls c with
    | p :: rest =>
      (spDone p =? t) && enters t (Normal (MkSctx (sFrames c) (sScopes c) (sLoops c) rest) 0)
    | [] => false
    end ||
    (isDef && enters t Epilogue && (1 <=? sFrames c) && (1 <=? sScopes c))
  | ir.Branch cond t f _ => has G cond TyValue && enters t (Normal c 0) && enters f (Normal c 0)
  | ir.ReturnValue src to _ _ =>
    has G src TyValue && isDef && enters to Epilogue && (1 <=? sFrames c) && (1 <=? sScopes c)
  | ir.BeginPoll _ _ a o d _ =>
    let p := MkSpoll a o d (sFrames c) (sScopes c) (sLoops c) in
    enters a (Normal (attemptCtx p (sPolls c)) 0) && enters o TimesOut && enters d (Normal c 0)
  | ir.RetryPoll msg _ =>
    match msg with Some t => has G t TyValue | None => true end && (isDef || negb (bool_decide (sPolls c = []))) &&
    pollDrains c
  | ir.Fail _ _ | ir.PropagateGuardFailure _ _ _ _ _ _ _ _ _ _ => true
  | ir.ForEach list_ _ body exit _ =>
    let l := MkSloop body exit false (sFrames c) (sScopes c) in
    has G list_ TyValue && enters body (Normal (bodyCtx l (sLoops c) (sPolls c)) 0) && enters exit (Normal c 0)
  | ir.ForEachCollect list_ _ _ _ body exit _ =>
    let l := MkSloop body exit true (sFrames c) (sScopes c) in
    has G list_ TyValue && enters body (Normal (bodyCtx l (sLoops c) (sPolls c)) 0) && enters exit (Normal c 0)
  | ir.ForEachContinue _ | ir.ExitLoop _ => loopsBack c false
  | ir.CollectProduce res _ _ => has G res TyBind && loopsBack c true
  | _ => false
  end.

Fixpoint instrsOk (c : sctx) (G : tenv) (l : list ir.Instr) : bool :=
  match l with
  | [] => false
  | [i] => endOk c G i
  | i :: l' => match stepOk c G i with Some (c', G') => instrsOk c' G' l' | None => false end
  end.

(** The clean-up after a failed guard. *)
Fixpoint failOk (frames scopes : nat) (l : list ir.Instr) : bool :=
  match l with
  | [ir.PropagateError _] => true
  | ir.ExitFrame _ :: l' => (1 <=? frames) && failOk (frames - 1) scopes l'
  | ir.RunDefers policy _ :: l' =>
    (if bool_decide (policy = ir.RunDefersProgram) then negb isDef && (scopes =? 1) else base <? scopes) &&
    failOk frames (scopes - 1) l'
  | _ => false
  end.

Definition blockOk (k : bctx) (l : list ir.Instr) : bool :=
  match k with
  | Normal c n => instrsOk c (given n) l
  | GuardFails f s => failOk f s l
  | TimesOut => match l with [ir.TraceNote _ _; ir.PropagateError _] => true | _ => false end
  | Epilogue =>
    match l with
    | [ir.RunDefers ir.RunDefersDefLocal _; ir.ExitFrame _; ir.EmitBindResult _ _ _] => isDef
    | _ => false
    end
  | Unused => true
  end.

(** The polls of a context have blocks of their own. *)
Fixpoint pollsOk (polls : list spoll) : bool :=
  match polls with
  | [] => true
  | p :: rest =>
    enters (spAttempt p) (Normal (attemptCtx p rest) 0) && enters (spTimeout p) TimesOut && pollsOk rest
  end.

Definition ctxOk (b : ir.block) (k : bctx) : bool :=
  match k with
  | Normal c _ =>
    pollsOk (sPolls c) && match sPolls c with p :: _ => negb (spDone p =? b) | [] => true end
  | _ => true
  end.

Fixpoint blocksOk (b : ir.block) (ks : list bctx) (mem : list ir.BasicBlock) : bool :=
  match ks, mem with
  | [], [] => true
  | k :: ks', blk :: mem' => ctxOk b k && blockOk k (ir.instrs blk) && blocksOk (S b) ks' mem'
  | _, _ => false
  end.

Definition unitOk (entry : ir.block) (params : nat) (mem : list ir.BasicBlock) : bool :=
  enters entry (Normal (MkSctx 0 0 [] []) params) && (params <=? numTemps) && blocksOk 0 Psi mem.
End unit_.

(** ** The order of the blocks

    What makes a unit end: outside the two ways back, the next iteration of a loop
    and the next attempt of a poll, control goes on in the order in which the blocks
    were published. *)

Fixpoint position (b : ir.block) (order : list ir.block) : nat :=
  match order with [] => 0 | x :: order' => if b =? x then 0 else S (position b order') end.

Section order.
Context (order : list ir.block) (Psi : list bctx).

Definition precedes (b t : ir.block) : bool := position b order <? position t order.

(** From a block at [c] into [t]: within the same loops and polls, or to the end of
    the innermost poll, from the loops where it began. *)
Definition goesForward (b : ir.block) (c : sctx) (t : ir.block) : bool :=
  match Psi !! t with
  | Some (Normal c' _) =>
    if bool_decide (sPolls c' = sPolls c) then precedes b t
    else match sPolls c with p :: _ => length (sLoops c) =? length (spLoops p) | [] => false end
  | Some _ => true
  | None => false
  end.

(** The innermost loop is inside the innermost poll; the loops around that are among
    those around the block. *)
Definition loopInPoll (c : sctx) : bool :=
  match sPolls c with p :: _ => length (spLoops p) <? length (sLoops c) | [] => true end.
Definition pollInLoops (c : sctx) : bool :=
  match sPolls c with p :: _ => length (spLoops p) <=? length (sLoops c) | [] => true end.

Definition endOrdered (b : ir.block) (c : sctx) (i : ir.Instr) : bool :=
  match i with
  | ir.Jump t _ => goesForward b c t
  | ir.Branch _ t f _ => goesForward b c t && goesForward b c f
  | ir.ForEach _ _ _ exit _ | ir.ForEachCollect _ _ _ _ _ exit _ => precedes b exit && pollInLoops c
  | ir.BeginPoll _ every _ _ done _ => (0 <? every)%Z && precedes b done
  | ir.ForEachContinue _ | ir.ExitLoop _ | ir.CollectProduce _ _ _ => loopInPoll c
  | _ => true
  end.

Definition blockOrdered (b : ir.block) (k : bctx) (l : list ir.Instr) : bool :=
  match k, list.last l with Normal c _, Some i => endOrdered b c i | _, _ => true end.

Fixpoint ordered (b : ir.block) (ks : list bctx) (mem : list ir.BasicBlock) : bool :=
  match ks, mem with
  | k :: ks', blk :: mem' => blockOrdered b k (ir.instrs blk) && ordered (S b) ks' mem'
  | _, _ => true
  end.
End order.

Lemma position_le b l : position b l <= length l.
Proof. induction l as [|x l IH]; cbn; [done|]. destruct (b =? x); lia. Qed.

Lemma position_app_in b l l' : position b l < length l -> position b (l ++ l') = position b l.
Proof.
  induction l as [|x l IH]; cbn; [lia|]. destruct (b =? x); [done|]. intros Hl. rewrite IH by lia. done.
Qed.

Lemma position_app b l l' : position b l <= position b (l ++ l').
Proof. induction l as [|x l IH]; cbn; [lia|]. destruct (b =? x); lia. Qed.

Lemma precedes_grows R R' b t : R `prefix_of` R' -> precedes R b t = true -> precedes R' b t = true.
Proof.
  intros [l ->]. unfold precedes. rewrite !Nat.ltb_lt. intros Hp. pose proof (position_le t R). pose proof (position_app t R l).
  rewrite position_app_in by lia. lia.
Qed.

Lemma position_in b l : b ∈ l -> position b l < length l.
Proof.
  induction 1 as [b l|b x l _ IH]; cbn; [rewrite Nat.eqb_refl; lia|]. destruct (b =? x); lia.
Qed.

Lemma position_notin b l l' : b ∉ l -> length l <= position b (l ++ l').
Proof.
  induction l as [|x l IH]; cbn; [lia|]. intros [Hn Hb]%not_elem_of_cons.
  rewrite (proj2 (Nat.eqb_neq _ _)) by done. specialize (IH Hb). lia.
Qed.

Lemma precedes_fresh R0 R b t : b ∈ R0 -> R0 `prefix_of` R -> t ∉ R0 -> precedes R b t = true.
Proof.
  intros Hb [l ->] Ht. unfold precedes. apply Nat.ltb_lt. pose proof (position_in b R0 Hb).
  pose proof (position_notin t R0 l Ht). rewrite position_app_in by done. lia.
Qed.

(** An instruction that falls through stays in its loops and polls. *)
Lemma stepOk_around D Psi nt c G i c' G' :
  stepOk D Psi nt c G i = Some (c', G') -> sLoops c' = sLoops c /\ sPolls c' = sPolls c.
Proof.
  destruct i; cbn -[Nat.ltb Nat.leb]; try done; repeat case_match; try done; by intros [= <- <-].
Qed.

Lemma endOrdered_around order Psi b c c' i :
  sLoops c' = sLoops c -> sPolls c' = sPolls c -> endOrdered order Psi b c' i = endOrdered order Psi b c i.
Proof.
  intros Hl Hp. destruct i; try done; cbn; unfold goesForward, pollInLoops, loopInPoll; by rewrite ?Hl, ?Hp.
Qed.

(** The units of a program. *)
Definition defOk (Psi : list bctx) (d : ir.Def) : bool :=
  unitOk true Psi (ir.dfNumTemps d) (ir.dfEntry d) (length (ir.dfParams d)) (ir.dfMemory d) &&
  ordered (ir.dfBlocks d) Psi 0 Psi (ir.dfMemory d).

Definition bodyOk (Psi : list bctx) (p : ir.Program) : bool :=
  unitOk false Psi (ir.prNumTemps p) (ir.prBody p) 0 (ir.prMemory p) && ordered (ir.prBlocks p) Psi 0 Psi (ir.prMemory p).

Definition wellFormed (p : ir.Program) : Prop :=
  (exists Psi, bodyOk Psi p = true) /\ Forall (fun d => exists Psi, defOk Psi d = true) (ir.prDefs p).
