(* ===== verification/LowerLogic.v ===== *)
(** * A program logic for the lowering

    Weakest preconditions of lowering actions, the state of a unit under
    construction (the contexts given to its blocks so far, the blocks that are not
    finished and what they hold) and a rule per action of the lowerer. *)

From Stdlib Require Import ZArith Lia.
From stdpp Require Import base tactics list gmap option.
From S2P Require Import Prelude Lexer Literals Ast ExprParser Ir Lower IrTyping.

#[local] Open Scope go_scope.

(** ** Growth: a test that succeeds keeps succeeding *)

Section growth.
Context (D : bool) (Psi Psi' : list bctx) (nt nt' : nat).
Hypothesis grows : Psi `prefix_of` Psi'.
Hypothesis more : nt <= nt'.

Lemma enters_grows b k : enters Psi b k = true -> enters Psi' b k = true.
Proof using grows. unfold enters. rewrite !bool_decide_eq_true. intros E. by eapply prefix_lookup_Some. Qed.

Lemma guardOk_grows c f : guardOk Psi c f = true -> guardOk Psi' c f = true.
Proof using grows.
  unfold guardOk. destruct f as [b|]; [|done]. destruct (Psi !! b) as [k|] eqn:E; [|done].
  rewrite (prefix_lookup_Some _ _ _ _ E grows). done.
Qed.

Lemma stepOk_grows c G i r : stepOk D Psi nt c G i = Some r -> stepOk D Psi' nt' c G i = Some r.
Proof using grows more.
  destruct i; cbn -[Nat.ltb]; try done.
  all: try (destruct (Nat.ltb_spec Dst nt); [|rewrite ?andb_false_r; done];
            rewrite (proj2 (Nat.ltb_lt Dst nt')) by lia; done).
  pose proof (guardOk_grows c OnFail) as Hg. revert Hg.
  destruct (guardOk Psi c OnFail), Guard; cbn; rewrite ?andb_false_r; try done. by intros ->.
Qed.

Lemma stepsOk_grows l : forall c G r, stepsOk D Psi nt c G l = Some r -> stepsOk D Psi' nt' c G l = Some r.
Proof using grows more.
  induction l as [|i l IH]; intros c G r; cbn; [done|].
  destruct (stepOk D Psi nt c G i) as [[c' G']|] eqn:E; [|done].
  rewrite (stepOk_grows _ _ _ _ E). apply IH.
Qed.

Lemma pollsOk_grows ps : pollsOk Psi ps = true -> pollsOk Psi' ps = true.
Proof using grows.
  induction ps as [|p ps IH]; cbn; [done|]. rewrite !andb_true_iff. intros [[? ?] ?].
  repeat split; auto using enters_grows.
Qed.

Lemma ctxOk_grows b k : ctxOk Psi b k = true -> ctxOk Psi' b k = true.
Proof using grows.
  destruct k; cbn; try done. rewrite !andb_true_iff. intros [? ?]. auto using pollsOk_grows.
Qed.

Lemma loopsBack_grows c b : loopsBack Psi c b = true -> loopsBack Psi' c b = true.
Proof using grows.
  unfold loopsBack. destruct (sLoops c); [done|]. rewrite !andb_true_iff. intros [[[[? ?] ?] ?] ?].
  repeat split; auto using enters_grows.
Qed.

Lemma endOk_grows c G i : endOk D Psi c G i = true -> endOk D Psi' c G i = true.
Proof using grows.
  destruct i; cbn; try done; rewrite ?andb_true_iff, ?orb_true_iff; 
    try (intuition auto using enters_grows, loopsBack_grows; fail).
  intros [[H|H]|H]; [left; left|left; right|right].
  - by apply enters_grows.
  - destruct (sPolls c); [done|]. rewrite andb_true_iff in *. intuition auto using enters_grows.
  - rewrite !andb_true_iff in *. intuition auto using enters_grows.
Qed.

Lemma instrsOk_grows l : forall c G, instrsOk D Psi nt c G l = true -> instrsOk D Psi' nt' c G l = true.
Proof using grows more.
  induction l as [|i l IH]; intros c G; [done|]. destruct l as [|j l].
  - apply endOk_grows.
  - change (match stepOk D Psi nt c G i with Some (c', G') => instrsOk D Psi nt c' G' (j :: l) | None => false end = true ->
            match stepOk D Psi' nt' c G i with Some (c', G') => instrsOk D Psi' nt' c' G' (j :: l) | None => false end = true).
    destruct (stepOk D Psi nt c G i) as [[c' G']|] eqn:E; [|done].
    rewrite (stepOk_grows _ _ _ _ E). apply IH.
Qed.

Lemma blockOk_grows k l : blockOk D Psi nt k l = true -> blockOk D Psi' nt' k l = true.
Proof using grows more. destruct k; cbn; try done. apply instrsOk_grows. Qed.


Lemma goesForward_grows R R' b c t :
  R `prefix_of` R' -> goesForward R Psi b c t = true -> goesForward R' Psi' b c t = true.
Proof using grows.
  intros Hr. unfold goesForward. destruct (Psi !! t) as [k|] eqn:E; [|done]. rewrite (prefix_lookup_Some _ _ _ _ E grows).
  destruct k; try done. destruct (bool_decide _); [by apply precedes_grows|done].
Qed.

Lemma blockOrdered_grows R R' b k l :
  R `prefix_of` R' -> blockOrdered R Psi b k l = true -> blockOrdered R' Psi' b k l = true.
Proof using grows.
  intros Hr. clear more. destruct k as [c n| | | |]; try done. cbn. destruct (list.last l) as [i|]; [|done].
  destruct i; try done; cbn; rewrite ?andb_true_iff; intuition eauto using goesForward_grows, precedes_grows.
Qed.

Lemma unitBlocksOk_grows R R' b k l : R `prefix_of` R' ->
  ctxOk Psi b k && blockOk D Psi nt k l && blockOrdered R Psi b k l = true ->
  ctxOk Psi' b k && blockOk D Psi' nt' k l && blockOrdered R' Psi' b k l = true.
Proof using grows more.
  intros Hr. rewrite !andb_true_iff. intros [[? ?] ?].
  split; [split; [by apply ctxOk_grows|by apply blockOk_grows]|by apply blockOrdered_grows with R].
Qed.
End growth.

(** ** Blocks under construction *)

Section block.
Context (D : bool) (Psi : list bctx) (nt : nat).

Lemma stepsOk_app l i c G c' G' r :
  stepsOk D Psi nt c G l = Some (c', G') -> stepOk D Psi nt c' G' i = Some r ->
  stepsOk D Psi nt c G (l ++ [i]) = Some r.
Proof.
  revert c G. induction l as [|j l IH]; intros c G; cbn.
  - intros [= -> ->] ->. by destruct r.
  - destruct (stepOk D Psi nt c G j) as [[c1 G1]|]; [|done]. apply IH.
Qed.

Lemma stepsOk_around l : forall c G c' G', stepsOk D Psi nt c G l = Some (c', G') -> sLoops c' = sLoops c /\ sPolls c' = sPolls c.
Proof.
  induction l as [|i l IH]; intros c G c' G'; cbn; [by intros [= -> ->]|].
  destruct (stepOk D Psi nt c G i) as [[c1 G1]|] eqn:E; [|done]. intros Hs.
  destruct (IH _ _ _ _ Hs) as [-> ->]. by apply (stepOk_around _ _ _ _ _ _ _ _ E).
Qed.

Lemma instrsOk_app l i c G c' G' :
  stepsOk D Psi nt c G l = Some (c', G') -> endOk D Psi c' G' i = true ->
  instrsOk D Psi nt c G (l ++ [i]) = true.
Proof.
  revert c G. induction l as [|j l IH]; intros c G; [by intros [= -> ->]|].
  intros Hs He. cbn in Hs. destruct (stepOk D Psi nt c G j) as [[c1 G1]|] eqn:E; [|done].
  specialize (IH _ _ Hs He). destruct l as [|j' l]; cbn [app instrsOk] in *; by rewrite E.
Qed.
End block.

(** ** Defs of a program *)

Definition goodDef (d : ir.Def) : Prop := exists Psi, defOk Psi d = true.

(** ** The state of a unit *)

Definition content (u : lowerer) (b : ir.block) : option (list ir.Instr) := ir.instrs <$> memory u !! b.

(** The unit has a context for each of its blocks; the blocks in [P] hold what is
    written beside them and are not finished, all the others are right; those in [R]
    are published, in that order. *)
Record inv (D : bool) (Psi : list bctx) (R : list ir.block) (nt : nat) (P : list (ir.block * list ir.Instr)) (lc : lowerCtx)
    (ls : list ir.block) (s : lstate) : Prop := MkInv {
  inv_ctx : ctx (unit_ s) = lc;
  inv_loops : loops (unit_ s) = ls;
  inv_temps : nextTemp (unit_ s) = nt;
  inv_length : length (memory (unit_ s)) = length Psi;
  inv_nodup : NoDup P.*1;
  inv_pending : forall b l, (b, l) ∈ P -> content (unit_ s) b = Some l;
  inv_done : forall b k l, Psi !! b = Some k -> content (unit_ s) b = Some l -> b ∉ P.*1 ->
    ctxOk Psi b k && blockOk D Psi nt k l && blockOrdered R Psi b k l = true;
  inv_blocks : blocks (unit_ s) = R;
  inv_published : Forall (fun b => b < length Psi) R;
  inv_defs : Forall goodDef (defs s)
}.

(** Writing into block [b], which holds [l]. *)
Definition writing D Psi R nt P lc ls b l s : Prop := inv D Psi R nt ((b, l) :: P) lc ls s /\ cur (unit_ s) = b.

(** Writing into a block whose context is now [c], with the temporaries [G]; it is one
    of [R0], the first that were published. *)
Definition open D Psi R0 R nt P lc ls (c : sctx) (G : tenv) s : Prop :=
  exists b l c0 n, writing D Psi R nt P lc ls b l s /\ Psi !! b = Some (Normal c0 n) /\
    ctxOk Psi b (Normal c0 n) = true /\ stepsOk D Psi nt c0 (given n) l = Some (c, G) /\
    b ∈ R0 /\ R0 `prefix_of` R.

(** The blocks published since are new. *)
Definition extends (Psi : list bctx) (R R' : list ir.block) : Prop :=
  exists N, R' = R ++ N /\ Forall (fun b => length Psi <= b) N.

(** What holds after an action: the unit has grown and is at [c] again. *)
Definition later D Psi R nt P lc ls c s : Prop :=
  exists Psi' R0 R' nt' G, Psi `prefix_of` Psi' /\ extends Psi R R' /\ nt <= nt' /\ open D Psi' R0 R' nt' P lc ls c G s.

Lemma extends_refl Psi R : extends Psi R R.
Proof. exists []. by rewrite app_nil_r. Qed.

Lemma extends_snoc Psi R R' b : extends Psi R R' -> length Psi <= b -> extends Psi R (R' ++ [b]).
Proof.
  intros (N & -> & HN) Hb. exists (N ++ [b]). rewrite app_assoc. split; [done|]. apply Forall_app. auto.
Qed.

Lemma extends_trans Psi Psi' R R' R'' : extends Psi R R' -> Psi `prefix_of` Psi' -> extends Psi' R' R'' -> extends Psi R R''.
Proof.
  intros (N & -> & HN) Hp (N' & -> & HN'). exists (N ++ N'). rewrite app_assoc. split; [done|]. apply Forall_app. split; [done|].
  apply prefix_length in Hp. eapply List.Forall_impl; [|exact HN']. cbn. lia.
Qed.

Lemma extends_in Psi R R' b : extends Psi R R' -> b ∈ R -> b ∈ R'.
Proof. intros (N & -> & _) Hb. apply elem_of_app. by left. Qed.

(** A block that was reserved and is not published has not been published since. *)
Lemma extends_notin Psi R R' b : extends Psi R R' -> b < length Psi -> b ∉ R -> b ∉ R'.
Proof.
  intros (N & -> & HN) Hb Hn. rewrite elem_of_app. intros [?|Hin]; [done|]. rewrite list.Forall_forall in HN. specialize (HN b Hin). lia.
Qed.

(** ** Weakest preconditions *)

Definition wp {A} (m : L A) (Q : A -> lstate -> Prop) (s : lstate) : Prop :=
  match m s with
  | Done (a, s') => Q a s'
  | Failed _ => True
  | OutOfFuel => False
  end.

Lemma wpl_mono {A} (m : L A) (Q Q' : A -> lstate -> Prop) s :
  wp m Q s -> (forall a s', Q a s' -> Q' a s') -> wp m Q' s.
Proof. unfold wp. destruct (m s) as [[a s']| |]; auto. Qed.

Lemma wpl_bind {A C} (m : L A) (f : A -> L C) (Q : C -> lstate -> Prop) s :
  wp m (fun a s' => wp (f a) Q s') s -> wp (lbind m f) Q s.
Proof. unfold wp, lbind. by destruct (m s) as [[a s']| |]. Qed.

Lemma wpl_ret {A} (a : A) Q s : Q a s -> wp (lret a) Q s.
Proof. done. Qed.

Lemma wpl_fail {A} e (Q : A -> lstate -> Prop) s : wp (lfail e) Q s.
Proof. exact I. Qed.

Lemma wp_get {A} (f : lowerer -> A) Q s : Q (f (unit_ s)) s -> wp (get f) Q s.
Proof. done. Qed.

(** ** Rules for a unit with no block being written *)

#[local] Ltac inv_split := intros []; split; cbn; try assumption.

Lemma inv_perm D Psi R nt P P' lc ls s : P ≡ₚ P' -> inv D Psi R nt P lc ls s -> inv D Psi R nt P' lc ls s.
Proof.
  intros HP. inv_split.
  - by rewrite <- HP.
  - intros b l. rewrite <- HP. auto.
  - intros b k l. rewrite <- HP. auto.
Qed.

Lemma inv_bound D Psi R nt P lc ls s b : inv D Psi R nt P lc ls s -> b ∈ P.*1 -> b < length Psi.
Proof.
  intros Hi ((b' & l) & -> & Hb)%list_elem_of_fmap. apply (inv_pending _ _ _ _ _ _ _ _ Hi) in Hb.
  unfold content in Hb. apply fmap_Some in Hb as (blk & Hb & _). apply lookup_lt_Some in Hb.
  by rewrite <- (inv_length _ _ _ _ _ _ _ _ Hi).
Qed.

Lemma inv_close D Psi R nt P lc ls s b k l :
  inv D Psi R nt ((b, l) :: P) lc ls s -> Psi !! b = Some k -> ctxOk Psi b k = true ->
  blockOk D Psi nt k l = true -> blockOrdered R Psi b k l = true -> inv D Psi R nt P lc ls s.
Proof.
  intros Hi Hb Hc Hk Ho. pose proof (inv_pending _ _ _ _ _ _ _ _ Hi b l ltac:(left)) as Hl.
  revert Hi. inv_split.
  - cbn in inv_nodup0. by apply list.NoDup_cons in inv_nodup0 as [_ ?].
  - intros b' l' Hp. apply inv_pending0. by right.
  - intros b' k' l' Hb' Hl' Hn. destruct (decide (b' = b)) as [->|Hne].
    + simplify_eq. by rewrite Hc, Hk, Ho.
    + eapply inv_done0; eauto. cbn. rewrite elem_of_cons. tauto.
Qed.

Lemma wp_reserveBlock D Psi R nt P lc ls k sp (Q : ir.block -> lstate -> Prop) s :
  inv D Psi R nt P lc ls s ->
  (forall s', inv D (Psi ++ [k]) R nt ((length Psi, []) :: P) lc ls s' -> cur (unit_ s') = cur (unit_ s) ->
     Q (length Psi) s') ->
  wp (reserveBlock sp) Q s.
Proof.
  intros Hi HQ. unfold wp, reserveBlock. pose proof (inv_length _ _ _ _ _ _ _ _ Hi) as Hlen. rewrite Hlen.
  apply HQ; [|done]. pose proof (fun b => inv_bound _ _ _ _ _ _ _ _ b Hi) as Hbound. revert Hi. inv_split.
  - rewrite !length_app, Hlen. done.
  - apply list.NoDup_cons. split; [|done]. intros Hin. apply Hbound in Hin. lia.
  - intros b l [[= -> ->]|Hp]%elem_of_cons; unfold content; cbn.
    + by rewrite <- Hlen, lookup_app_r, Nat.sub_diag by lia.
    + rewrite lookup_app_l; [by apply inv_pending0|]. rewrite Hlen. apply Hbound.
      by apply (list_elem_of_fmap_2 fst _ _ Hp).
  - intros b k' l Hb Hl Hn. apply not_elem_of_cons in Hn as [Hne Hn].
    assert (b < length Psi) as Hlt.
    { apply lookup_lt_Some in Hb. rewrite length_app in Hb. cbn in Hb. cbn in Hne. lia. }
    rewrite lookup_app_l in Hb by done. unfold content in Hl. cbn in Hl.
    rewrite lookup_app_l in Hl by lia.
    eapply unitBlocksOk_grows; [by apply prefix_app_r|done|reflexivity|]. by eapply inv_done0.
  - eapply List.Forall_impl; [|exact inv_published0]. intros b Hb. cbn in Hb |- *. rewrite length_app. lia.
Qed.

Lemma wp_publishBlock D Psi R nt P lc ls b (Q : unit -> lstate -> Prop) s :
  inv D Psi R nt P lc ls s -> b < length Psi ->
  (forall s', inv D Psi (R ++ [b]) nt P lc ls s' -> cur (unit_ s') = cur (unit_ s) -> Q tt s') ->
  wp (publishBlock b) Q s.
Proof.
  intros Hi Hb HQ. apply HQ; [|done]. revert Hi. inv_split.
  - intros b' k l Hb' Hl Hn. eapply unitBlocksOk_grows; [reflexivity|done|by apply prefix_app_r|]. by eapply inv_done0.
  - by rewrite inv_blocks0.
  - apply Forall_app. auto.
Qed.

Lemma wp_newBlock D Psi R nt P lc ls k sp (Q : ir.block -> lstate -> Prop) s :
  inv D Psi R nt P lc ls s ->
  (forall s', inv D (Psi ++ [k]) (R ++ [length Psi]) nt ((length Psi, []) :: P) lc ls s' -> cur (unit_ s') = cur (unit_ s) ->
     Q (length Psi) s') ->
  wp (newBlock sp) Q s.
Proof.
  intros Hi HQ. apply wpl_bind. eapply wp_reserveBlock; [done|]. intros s1 H1 C1.
  apply wpl_bind. eapply wp_publishBlock; [done|rewrite length_app; cbn; lia|]. intros s2 H2 C2. apply wpl_ret. apply HQ; [done|congruence].
Qed.

Lemma wp_setCur D Psi R nt P lc ls b l (Q : unit -> lstate -> Prop) s :
  inv D Psi R nt ((b, l) :: P) lc ls s ->
  (forall s', writing D Psi R nt P lc ls b l s' -> Q tt s') -> wp (setCur b) Q s.
Proof. intros Hi HQ. apply HQ. split; [|done]. revert Hi. inv_split. Qed.

Lemma wp_emit D Psi R nt P lc ls b l i (Q : unit -> lstate -> Prop) s :
  writing D Psi R nt P lc ls b l s ->
  (forall s', writing D Psi R nt P lc ls b (l ++ [i]) s' -> Q tt s') -> wp (emit i) Q s.
Proof.
  intros [Hi Hc] HQ. apply HQ. split; [|done].
  pose proof (inv_pending _ _ _ _ _ _ _ _ Hi b l ltac:(left)) as Hl.
  assert (forall b', b' <> b -> content (unit_ s) b' =
    ir.instrs <$> alter (addInstr i) (cur (unit_ s)) (memory (unit_ s)) !! b') as Hother.
  { intros b' Hb'. by rewrite Hc, list_lookup_alter_ne. }
  revert Hi. inv_split.
  - by rewrite length_alter.
  - intros b' l' [[= -> ->]|Hp]%elem_of_cons; unfold content in *; cbn.
    + rewrite Hc, list_lookup_alter_eq. apply fmap_Some in Hl as (blk & -> & ->). cbn. by destruct blk.
    + rewrite <- Hother; [apply inv_pending0; by right|]. intros ->.
      apply list.NoDup_cons in inv_nodup0 as [Hn _]. apply Hn. by apply (list_elem_of_fmap_2 fst _ _ Hp).
  - intros b' k l' Hb' Hl' Hn. unfold content in Hl'. cbn in Hl'.
    eapply inv_done0; [done| |done]. rewrite Hother; [done|]. intros ->. apply Hn. left.
Qed.

(** What does not touch the blocks. *)

Lemma wp_setCtx D Psi R nt P lc ls lc' (Q : unit -> lstate -> Prop) s :
  inv D Psi R nt P lc ls s ->
  (forall s', inv D Psi R nt P lc' ls s' -> cur (unit_ s') = cur (unit_ s) -> Q tt s') -> wp (setCtx lc') Q s.
Proof. intros Hi HQ. apply HQ; [|done]. revert Hi. inv_split. done. Qed.

Lemma wp_setLoops D Psi R nt P lc ls ls' (Q : unit -> lstate -> Prop) s :
  inv D Psi R nt P lc ls s ->
  (forall s', inv D Psi R nt P lc ls' s' -> cur (unit_ s') = cur (unit_ s) -> Q tt s') -> wp (setLoops ls') Q s.
Proof. intros Hi HQ. apply HQ; [|done]. revert Hi. inv_split. done. Qed.

Lemma wp_alloc D Psi R nt P lc ls (Q : ir.Temp -> lstate -> Prop) s :
  inv D Psi R nt P lc ls s ->
  (forall s', inv D Psi R (S nt) P lc ls s' -> cur (unit_ s') = cur (unit_ s) -> Q nt s') -> wp alloc Q s.
Proof.
  intros Hi HQ. unfold wp, alloc. rewrite (inv_temps _ _ _ _ _ _ _ _ Hi). apply HQ; [|done].
  revert Hi. inv_split; [congruence|]. intros b k l Hb Hl Hn.
  eapply unitBlocksOk_grows; [done| |reflexivity|by eapply inv_done0]. lia.
Qed.

(** ** Rules for a unit at a context *)

(** What is being written can be left and taken up again when the unit has grown. *)
Lemma open_suspend D Psi R0 R nt P lc ls c G s :
  open D Psi R0 R nt P lc ls c G s ->
  exists b l, writing D Psi R nt P lc ls b l s /\
    forall Psi' R' nt' P' lc' ls' s', Psi `prefix_of` Psi' -> R `prefix_of` R' -> nt <= nt' ->
      writing D Psi' R' nt' P' lc' ls' b l s' -> open D Psi' R0 R' nt' P' lc' ls' c G s'.
Proof.
  intros (b & l & c0 & n & Hw & Hb & Hc & Hs & Hin & Hr). exists b, l. split; [done|].
  intros Psi' R' nt' P' lc' ls' s' Hp Hr' Hn Hw'. exists b, l, c0, n. split; [done|]. split; [|split; [|split; [|split]]].
  - by eapply prefix_lookup_Some.
  - by eapply ctxOk_grows.
  - by eapply stepsOk_grows.
  - done.
  - by etrans.
Qed.

Lemma writing_open D Psi R nt P lc ls b c n s :
  writing D Psi R nt P lc ls b [] s -> Psi !! b = Some (Normal c n) -> ctxOk Psi b (Normal c n) = true -> b ∈ R ->
  open D Psi R R nt P lc ls c (given n) s.
Proof. intros. by exists b, [], c, n. Qed.

(** The blocks that were published before the current one went on are older than a
    new one. *)
Lemma open_fresh D Psi R0 R nt P lc ls c G s t : open D Psi R0 R nt P lc ls c G s -> length Psi <= t -> t ∉ R0.
Proof.
  intros (b & l & c0 & n & [Hi _] & _ & _ & _ & _ & [N ->]) Ht Hin. pose proof (inv_published _ _ _ _ _ _ _ _ Hi) as Hf.
  rewrite list.Forall_forall in Hf. specialize (Hf t). rewrite elem_of_app in Hf. specialize (Hf (or_introl Hin)). lia.
Qed.

Lemma inv_fresh D Psi R nt P lc ls s t : inv D Psi R nt P lc ls s -> length Psi <= t -> t ∉ R.
Proof.
  intros Hi Ht Hin. pose proof (inv_published _ _ _ _ _ _ _ _ Hi) as Hf. rewrite list.Forall_forall in Hf. specialize (Hf t Hin). lia.
Qed.

Lemma open_fresh' D Psi R0 R nt P lc ls c G s t : open D Psi R0 R nt P lc ls c G s -> length Psi <= t -> t ∉ R.
Proof. intros (b & l & c0 & n & [Hi _] & _). by eapply inv_fresh. Qed.

(** Into a block that was not published before the current one went on. *)
Lemma forward_fresh R0 R Psi b c c' n t :
  Psi !! t = Some (Normal c' n) -> sPolls c' = sPolls c -> b ∈ R0 -> R0 `prefix_of` R -> t ∉ R0 ->
  goesForward R Psi b c t = true.
Proof.
  intros Ht Hp Hb Hr Hn. unfold goesForward. rewrite Ht, bool_decide_true by done. by eapply precedes_fresh.
Qed.

Lemma notin_prefix (R0 R : list ir.block) t : R0 `prefix_of` R -> t ∉ R -> t ∉ R0.
Proof. intros [l ->]. rewrite elem_of_app. tauto. Qed.

Lemma wp_step D Psi R0 R nt P lc ls c G c' G' i (Q : unit -> lstate -> Prop) s :
  open D Psi R0 R nt P lc ls c G s -> stepOk D Psi nt c G i = Some (c', G') ->
  (forall s', open D Psi R0 R nt P lc ls c' G' s' -> Q tt s') -> wp (emit i) Q s.
Proof.
  intros (b & l & c0 & n & Hw & Hb & Hc & Hs & Hin) Hi HQ. eapply wp_emit; [done|]. intros s' Hw'. apply HQ.
  exists b, (l ++ [i]), c0, n. eauto 10 using stepsOk_app.
Qed.

Lemma wp_end D Psi R0 R nt P lc ls c G i (Q : unit -> lstate -> Prop) s :
  open D Psi R0 R nt P lc ls c G s -> endOk D Psi c G i = true ->
  (forall b, b ∈ R0 -> R0 `prefix_of` R -> endOrdered R Psi b c i = true) ->
  (forall s', inv D Psi R nt P lc ls s' -> Q tt s') -> wp (emit i) Q s.
Proof.
  intros (b & l & c0 & n & Hw & Hb & Hc & Hs & Hin & Hr) Hi Ho HQ. eapply wp_emit; [done|]. intros s' [Hw' _]. apply HQ.
  destruct (stepsOk_around _ _ _ _ _ _ _ _ Hs) as [Hl Hp].
  eapply inv_close; [done..|by eapply instrsOk_app|]. cbn. rewrite list.last_snoc, <- (endOrdered_around _ _ _ c0 c) by done.
  by apply Ho.
Qed.

Lemma wp_temp D Psi R0 R nt P lc ls c G (Q : ir.Temp -> lstate -> Prop) s :
  open D Psi R0 R nt P lc ls c G s ->
  (forall s', open D Psi R0 R (S nt) P lc ls c G s' -> Q nt s') -> wp alloc Q s.
Proof.
  intros (b & l & [Hi Hc] & Ho)%open_suspend HQ. eapply wp_alloc; [done|]. intros s' Hi' Hc'. apply HQ.
  eapply Ho; [done|done|lia|]. split; [done|congruence].
Qed.

#[local] Ltac new_block rule :=
  intros (b & l & [Hi Hc] & Ho)%open_suspend HQ; eapply rule; [done|]; intros s' Hi' Hc'; apply HQ;
  eapply Ho; [by apply prefix_app_r|first [done|by apply prefix_app_r]|done|]; split; [|congruence];
  eapply inv_perm; [|done]; apply perm_swap.

Lemma wp_new D Psi R0 R nt P lc ls c G k sp (Q : ir.block -> lstate -> Prop) s :
  open D Psi R0 R nt P lc ls c G s ->
  (forall s', open D (Psi ++ [k]) R0 (R ++ [length Psi]) nt ((length Psi, []) :: P) lc ls c G s' -> Q (length Psi) s') ->
  wp (newBlock sp) Q s.
Proof. new_block wp_newBlock. Qed.

Lemma wp_reserve D Psi R0 R nt P lc ls c G k sp (Q : ir.block -> lstate -> Prop) s :
  open D Psi R0 R nt P lc ls c G s ->
  (forall s', open D (Psi ++ [k]) R0 R nt ((length Psi, []) :: P) lc ls c G s' -> Q (length Psi) s') ->
  wp (reserveBlock sp) Q s.
Proof. new_block wp_reserveBlock. Qed.

(** Going on in a block that holds nothing yet. *)
Lemma wp_enter D Psi R nt P P' lc ls b c n (Q : unit -> lstate -> Prop) s :
  inv D Psi R nt P lc ls s -> P ≡ₚ (b, []) :: P' -> Psi !! b = Some (Normal c n) ->
  ctxOk Psi b (Normal c n) = true -> b ∈ R ->
  (forall s', open D Psi R R nt P' lc ls c (given n) s' -> Q tt s') -> wp (setCur b) Q s.
Proof.
  intros Hi HP Hb Hc Hin HQ. eapply wp_setCur; [by eapply inv_perm|]. intros s' Hw. apply HQ.
  by eapply writing_open.
Qed.

Lemma wp_ctx D Psi R0 R nt P lc ls c G (Q : lowerCtx -> lstate -> Prop) s :
  open D Psi R0 R nt P lc ls c G s -> Q lc s -> wp (get ctx) Q s.
Proof. intros (b & l & [Hi _] & _)%open_suspend HQ. unfold wp, get. by rewrite (inv_ctx _ _ _ _ _ _ _ _ Hi). Qed.

Lemma wp_loops D Psi R0 R nt P lc ls c G (Q : list ir.block -> lstate -> Prop) s :
  open D Psi R0 R nt P lc ls c G s -> Q ls s -> wp (get loops) Q s.
Proof. intros (b & l & [Hi _] & _)%open_suspend HQ. unfold wp, get. by rewrite (inv_loops _ _ _ _ _ _ _ _ Hi). Qed.

Lemma wp_openCtx D Psi R0 R nt P lc lc' ls c G (Q : unit -> lstate -> Prop) s :
  open D Psi R0 R nt P lc ls c G s ->
  (forall s', open D Psi R0 R nt P lc' ls c G s' -> Q tt s') -> wp (setCtx lc') Q s.
Proof.
  intros (b & l & [Hi Hc] & Ho)%open_suspend HQ. eapply wp_setCtx; [done|]. intros s' Hi' Hc'. apply HQ.
  eapply Ho; [done|done|done|]. split; [done|congruence].
Qed.

Lemma wp_openLoops D Psi R0 R nt P lc ls ls' c G (Q : unit -> lstate -> Prop) s :
  open D Psi R0 R nt P lc ls c G s ->
  (forall s', open D Psi R0 R nt P lc ls' c G s' -> Q tt s') -> wp (setLoops ls') Q s.
Proof.
  intros (b & l & [Hi Hc] & Ho)%open_suspend HQ. eapply wp_setLoops; [done|]. intros s' Hi' Hc'. apply HQ.
  eapply Ho; [done|done|done|]. split; [done|congruence].
Qed.

Lemma open_later D Psi R0 R nt P lc ls c G s : open D Psi R0 R nt P lc ls c G s -> later D Psi R nt P lc ls c s.
Proof. intros. exists Psi, R0, R, nt, G. auto using extends_refl. Qed.

Lemma later_grows D Psi Psi' R R' nt nt' P lc ls c s :
  Psi `prefix_of` Psi' -> extends Psi R R' -> nt <= nt' -> later D Psi' R' nt' P lc ls c s -> later D Psi R nt P lc ls c s.
Proof.
  intros Hp He Hn (Psi2 & R0 & R2 & nt2 & G & Hp2 & He2 & Hn2 & Ho). exists Psi2, R0, R2, nt2, G.
  split; [by etrans|]. split; [by eapply extends_trans|]. split; [lia|done].
Qed.
