(* ===== verification/LowerTyped.v ===== *)
(** * The lowering produces well-formed units

    Each action of the lowerer keeps the state of the unit under construction
    right, so that a program without an exit of a loop across a poll is lowered to
    a well-formed one. *)

From Stdlib Require Import ZArith Lia.
From stdpp Require Import base tactics list gmap option.
From S2P Require Import Prelude Lexer Literals Ast ExprParser Ir Lower IrTyping LowerLogic.

#[local] Open Scope go_scope.

(** ** Exits of loops

    No break or continue stands outside every loop of its poll or def, and polls have
    the positive interval that the parser asks for. *)
Fixpoint closedStmt (inLoop : bool) (st : Stmt) : bool :=
  match st with
  | BreakStmt _ | ContinueStmt _ => inLoop
  | IfStmt _ then_ elifs els _ =>
    forallb (closedStmt inLoop) then_ &&
    forallb (fun br => match br with MkIfBranch _ body _ => forallb (closedStmt inLoop) body end) elifs &&
    forallb (closedStmt inLoop) els
  | ForEachStmt (MkForEach _ _ body _) => forallb (closedStmt true) body
  | BindStmt _ (BindCollect (MkForEach _ _ body _)) _ _ => forallb (closedStmt true) body
  | PollStmt _ every body _ => (0 <? every)%Z && forallb (closedStmt false) body
  | DefStmt _ _ body _ => forallb (closedStmt false) body
  | _ => true
  end.

(** ** The context of the lowerer and the context of the block *)

Record agrees (D : bool) (Psi : list bctx) (lc : lowerCtx) (ls : list ir.block) (inl : bool) (c : sctx) : Prop := MkAgrees {
  ag_return : if D then (exists e, returnTo lc = Some e /\ enters Psi e Epilogue = true) /\ 1 <= sFrames c
              else returnTo lc = None;
  ag_scopes : sScopes c = S (length (sPolls c));
  ag_attempt : match attempt lc with
               | Some _ => sPolls c <> [] /\ 1 <= sFrames c
               | None => sPolls c = [] /\ deferPolicy lc = (if D then ir.RunDefersDefLocal else ir.RunDefersProgram)
               end;
  ag_polls : pollsOk Psi (sPolls c) = true;
  ag_done : match sPolls c with p :: _ => spDone p < length Psi | [] => True end;
  ag_drain : match sPolls c with
             | p :: _ => S (spFrames p) <= sFrames c /\ S (spScopes p) <= sScopes c /\ spLoops p `suffix_of` sLoops c
             | [] => True
             end;
  ag_loop : inl = true -> ls <> [] /\ loopsBack Psi c false = true /\ loopInPoll c = true
}.

Lemma agrees_grows D Psi Psi' lc ls inl c :
  Psi `prefix_of` Psi' -> agrees D Psi lc ls inl c -> agrees D Psi' lc ls inl c.
Proof.
  intros Hp []. split; try done.
  - destruct D; [|done]. destruct ag_return0 as [(e & ? & ?) ?]. split; [|done]. exists e.
    split; [done|]. by eapply enters_grows.
  - by eapply pollsOk_grows.
  - destruct (sPolls c); [done|]. apply prefix_length in Hp. lia.
  - intros Hin. destruct (ag_loop0 Hin) as (? & ? & ?). split; [done|]. split; [by eapply loopsBack_grows|done].
Qed.

Lemma loopsBack_frame Psi c b : loopsBack Psi c b = true -> loopsBack Psi (framesTo c (S (sFrames c))) b = true.
Proof.
  unfold loopsBack. cbn -[Nat.leb enters]. destruct (sLoops c) as [|l ls]; [done|].
  rewrite !andb_true_iff, !Nat.leb_le. intuition lia.
Qed.

Lemma agrees_drains D Psi lc ls inl c : agrees D Psi lc ls inl c -> pollDrains c = true.
Proof.
  intros []. unfold pollDrains. destruct (sPolls c) as [|p ps]; [done|]. destruct ag_drain0 as (? & ? & ?).
  rewrite !andb_true_iff, !Nat.leb_le, bool_decide_eq_true. split; [lia|done].
Qed.

Lemma agrees_frame D Psi lc ls inl c :
  agrees D Psi lc ls inl c -> agrees D Psi (nested lc) ls inl (framesTo c (S (sFrames c))).
Proof.
  intros []. split; cbn; try done.
  - destruct D; [|done]. split; [|lia]. tauto.
  - destruct (attempt lc); [|done]. split; [tauto|lia].
  - destruct (sPolls c); [done|]. split; [lia|tauto].
  - intros Hin. destruct (ag_loop0 Hin) as (? & Hl & ?). split; [done|]. split; [by apply loopsBack_frame|done].
Qed.

Lemma agrees_nested D Psi lc ls inl c : agrees D Psi (nested lc) ls inl c <-> agrees D Psi lc ls inl c.
Proof. split; intros []; by split. Qed.

Lemma agrees_base D Psi lc ls inl c : agrees D Psi lc ls inl c -> base D <= sScopes c.
Proof. intros []. rewrite ag_scopes0. destruct D; cbn; lia. Qed.

(** A block that is new where the context holds fits it, whatever its frames. *)
Lemma agrees_ctxOk D Psi Psi' lc ls inl c b f n :
  agrees D Psi lc ls inl c -> Psi `prefix_of` Psi' -> length Psi <= b ->
  ctxOk Psi' b (Normal (framesTo c f) n) = true.
Proof.
  intros [] Hp Hb. cbn. rewrite (pollsOk_grows _ _ Hp _ ag_polls0). destruct (sPolls c) as [|p ps]; [done|].
  cbn. apply negb_true_iff, Nat.eqb_neq. lia.
Qed.

Lemma framesTo_id c : framesTo c (sFrames c) = c.
Proof. by destruct c. Qed.

Lemma agrees_ctxOk' D Psi Psi' lc ls inl c b n :
  agrees D Psi lc ls inl c -> Psi `prefix_of` Psi' -> length Psi <= b -> ctxOk Psi' b (Normal c n) = true.
Proof. rewrite <- (framesTo_id c) at 2. apply agrees_ctxOk. Qed.

Lemma step_exit D Psi nt c G sp : stepOk D Psi nt (framesTo c (S (sFrames c))) G (ir.ExitFrame sp) = Some (c, G).
Proof. destruct c. cbn. by rewrite Nat.sub_0_r. Qed.

Lemma eta_ctx c : c = MkSctx (sFrames c) (sScopes c) (sLoops c) (sPolls c).
Proof. by destruct c. Qed.

(** ** Automation *)

Lemma length_snoc {A} (l : list A) x : length (l ++ [x]) = S (length l).
Proof. rewrite length_app. cbn. lia. Qed.

Lemma lookup_snoc {A} (l : list A) x n : n = length l -> (l ++ [x]) !! n = Some x.
Proof. intros ->. by apply list_lookup_middle. Qed.

Lemma agrees_pollInLoops D Psi lc ls inl c : agrees D Psi lc ls inl c -> pollInLoops c = true.
Proof.
  intros []. unfold pollInLoops. destruct (sPolls c) as [|p ps]; [done|]. destruct ag_drain0 as (_ & _ & [k ->]).
  apply Nat.leb_le. rewrite length_app. lia.
Qed.

Ltac grows :=
  lazymatch goal with
  | |- extends ?Psi ?R ?R => apply extends_refl
  | |- extends _ _ (_ ++ [_]) => apply extends_snoc; [grows|rewrite ?length_app; cbn; lia]
  | He : extends ?P1 ?R1 ?R' |- extends ?Psi ?R ?R' =>
    first [exact He | apply (extends_trans Psi P1 R R1 R'); [grows|grows|exact He]]
  | |- _ `prefix_of` _ =>
    first [eassumption | reflexivity | apply prefix_app_r; grows | etrans; [|eassumption]; grows]
  | |- _ <= _ => rewrite ?length_app; cbn; lia
  end.

Ltac published := repeat rewrite elem_of_app; rewrite ?list_elem_of_singleton; auto.

Ltac look :=
  first [ eassumption
        | apply lookup_snoc; rewrite ?length_app; cbn; lia
        | apply lookup_app_l_Some; look
        | eapply prefix_lookup_Some; [look|eassumption] ].

Ltac enter := unfold enters; apply bool_decide_eq_true; look.

Lemma has_new G t ty : has (<[t := ty]> G) t ty = true.
Proof. apply bool_decide_eq_true, lookup_insert_eq. Qed.

Lemma has_old G t t' ty ty' : t <> t' -> has (<[t := ty]> G) t' ty' = has G t' ty'.
Proof. intros. unfold has. by rewrite lookup_insert_ne. Qed.

Ltac temps :=
  repeat first [rewrite has_new | rewrite has_old by lia | rewrite (proj2 (Nat.ltb_lt _ _)) by lia].

(** ** What the lowering of a statement does *)

Definition lowersWell (inl : bool) (m : L unit) : Prop :=
  forall D Psi R0 R nt P lc ls c G s,
    agrees D Psi lc ls inl c -> open D Psi R0 R nt P lc ls c G s -> wp m (fun _ => later D Psi R nt P lc ls c) s.

(** Its use in the middle of something else. *)
Lemma wp_well inl m D Psi R0 R nt P lc ls c G (Q : unit -> lstate -> Prop) s :
  lowersWell inl m -> agrees D Psi lc ls inl c -> open D Psi R0 R nt P lc ls c G s ->
  (forall Psi' R0' R' nt' G' s', Psi `prefix_of` Psi' -> extends Psi R R' -> nt <= nt' ->
     open D Psi' R0' R' nt' P lc ls c G' s' -> Q tt s') ->
  wp m Q s.
Proof.
  intros Hm Ha Ho HQ. eapply wpl_mono; [by eapply Hm|].
  intros [] s' (Psi' & R0' & R' & nt' & G' & Hp & He & Hn & Ho'). by eapply HQ.
Qed.

Lemma well_ret inl : lowersWell inl (lret tt).
Proof. intros D Psi R0 R nt P lc ls c G s _ Ho. apply wpl_ret. by eapply open_later. Qed.

Lemma well_seq inl m1 m2 : lowersWell inl m1 -> lowersWell inl m2 -> lowersWell inl (m1 ;& m2).
Proof.
  intros H1 H2 D Psi R0 R nt P lc ls c G s Ha Ho. apply wpl_bind. eapply wp_well; [exact H1|done..|].
  intros Psi' R0' R' nt' G' s' Hp He Hn Ho'. eapply wpl_mono; [eapply H2; [by eapply agrees_grows|done]|].
  intros [] s2. by apply later_grows.
Qed.

(** The block after an instruction that leaves. *)
Lemma wp_fresh inl D Psi R nt P lc ls c sp s :
  agrees D Psi lc ls inl c -> inv D Psi R nt P lc ls s ->
  wp (let& b := newBlock sp in setCur b) (fun _ => later D Psi R nt P lc ls c) s.
Proof.
  intros Ha Hi. apply wpl_bind. eapply (wp_newBlock _ _ _ _ _ _ _ (Normal c 0)); [done|]. intros s1 H1 _.
  eapply wp_enter; [done|reflexivity|look| |published|].
  - eapply agrees_ctxOk'; [done|grows|done].
  - intros s2 H2. eapply later_grows; [| | |by eapply open_later]; grows.
Qed.

(** A program of instructions that keep the context. *)
Ltac bind1 := eapply wpl_bind.
Ltac alloc1 := bind1; eapply wp_temp; [eassumption|]; intros ? ?.
Ltac step :=
  eapply wp_step;
    [eassumption|cbn -[Nat.ltb Nat.leb has pollDrains]; temps; try (erewrite agrees_drains by eassumption); reflexivity
    |intros ? ?].
Ltac step1 := bind1; step.
Ltac finish := eapply later_grows; [| | |by eapply open_later]; grows.

(** ** Statements without a body *)

Section simple.
Context (inl : bool).

Ltac simple := intros D Psi R0 R nt P lc ls c G s Ha Ho.

Lemma well_command cmd : lowersWell inl (lowerCommandStmt cmd).
Proof. simple. unfold lowerCommandStmt. alloc1. step1. step. finish. Qed.

Lemma well_expr e sp : lowersWell inl (lowerExprStmt e sp).
Proof. simple. unfold lowerExprStmt. alloc1. step1. step. finish. Qed.

Lemma well_let name rhs sp : lowersWell inl (lowerLetStmt name rhs sp).
Proof. simple. unfold lowerLetStmt. alloc1. step1. step. finish. Qed.

Lemma well_destructure names rhs sp : lowersWell inl (lowerLetDestructureStmt names rhs sp).
Proof. simple. unfold lowerLetDestructureStmt. alloc1. step1. step. finish. Qed.

Lemma well_defer cmd sp : lowersWell inl (lowerDeferStmt cmd sp).
Proof.
  simple. unfold lowerDeferStmt. alloc1. step1.
  eapply wp_step; [eassumption| |intros ? ?; finish].
  cbn -[Nat.leb has]. temps. by rewrite (ag_scopes _ _ _ _ _ _ Ha).
Qed.

Lemma well_assert r clause sp : lowersWell inl (lowerAssertStmt r clause sp).
Proof. simple. unfold lowerAssertStmt. step. finish. Qed.

(** The instructions that leave a loop. *)
Lemma well_exit D Psi R0 R nt P lc ls c G s i msg sp :
  agrees D Psi lc ls true c -> open D Psi R0 R nt P lc ls c G s -> i = ir.ExitLoop sp \/ i = ir.ForEachContinue sp ->
  wp (emit (ir.TraceNote msg sp) ;& emit i ;& (let& b := newBlock sp in setCur b))
     (fun _ => later D Psi R nt P lc ls c) s.
Proof.
  intros Ha Ho Hi. step1. bind1. eapply wp_end; [eassumption| | |].
  - destruct (ag_loop _ _ _ _ _ _ Ha eq_refl) as (_ & Hl & _). by destruct Hi as [-> | ->].
  - destruct (ag_loop _ _ _ _ _ _ Ha eq_refl) as (_ & _ & Hl). intros b Hb _. by destruct Hi as [-> | ->].
  - intros s2 H2. by eapply wp_fresh.
Qed.

Lemma well_break sp : lowersWell true (lowerBreakStmt sp).
Proof.
  simple. unfold lowerBreakStmt. bind1. eapply wp_loops; [eassumption|].
  destruct ls; [apply wpl_fail|]. eapply well_exit; eauto.
Qed.

Lemma well_continue sp : lowersWell true (lowerContinueStmt sp).
Proof.
  simple. unfold lowerContinueStmt. bind1. eapply wp_loops; [eassumption|].
  destruct ls; [apply wpl_fail|]. eapply well_exit; eauto.
Qed.

Lemma well_return e sp : lowersWell inl (lowerReturnStmt e sp).
Proof.
  simple. unfold lowerReturnStmt. bind1. eapply wp_ctx; [eassumption|].
  destruct (returnTo lc) as [to|] eqn:Er; [|apply wpl_fail].
  alloc1. step1. bind1. eapply wp_end; [eassumption| | |].
  - pose proof (ag_return _ _ _ _ _ _ Ha) as Hr. destruct D; [|congruence].
    destruct Hr as [(e' & He & Hen) Hf]. assert (e' = to) as -> by congruence.
    cbn -[has Nat.leb]. temps. rewrite Hen, (ag_scopes _ _ _ _ _ _ Ha).
    by rewrite (proj2 (Nat.leb_le _ _) Hf).
  - done.
  - intros s2 H2. eapply wpl_mono; [by eapply wp_fresh|]. intros [] s3. apply later_grows; grows.
Qed.
End simple.

(** ** Retries *)

(** What a retry or a failed guard of the context may drain. *)
Lemma agrees_drain D Psi lc ls inl c :
  agrees D Psi lc ls inl c -> attempt lc <> None \/ returnTo lc <> None ->
  (base D <? sScopes c) = true /\ (1 <=? sFrames c) = true /\ D || negb (bool_decide (sPolls c = [])) = true.
Proof.
  intros [] Hr. rewrite Nat.ltb_lt, Nat.leb_le. destruct D; cbn in *.
  - split; [lia|tauto].
  - destruct (attempt lc) as [a|]; [|destruct Hr; congruence]. destruct ag_attempt0 as [Hp Hf].
    rewrite bool_decide_false by done. rewrite ag_scopes0. destruct (sPolls c); [done|]. cbn. split; [lia|done].
Qed.

Lemma agrees_drained D Psi lc ls inl c :
  agrees D Psi lc ls inl c -> pollDrains (framesTo (scopesTo c (sScopes c - 1)) (sFrames c - 1)) = true.
Proof.
  intros []. unfold pollDrains. cbn -[Nat.leb]. destruct (sPolls c) as [|p ps]; [done|]. destruct ag_drain0 as (? & ? & ?).
  rewrite !andb_true_iff, !Nat.leb_le, bool_decide_eq_true. split; [lia|done].
Qed.

(** Leaves for the attempt, in a new block with the context [k]. *)
Lemma wp_retry k D Psi R0 R nt P lc ls inl c G message sp (Q : unit -> lstate -> Prop) s :
  agrees D Psi lc ls inl c -> open D Psi R0 R nt P lc ls c G s -> attempt lc <> None \/ returnTo lc <> None ->
  (forall nt' s', nt <= nt' -> writing D (Psi ++ [k]) (R ++ [length Psi]) nt' P lc ls (length Psi) [] s' -> Q tt s') ->
  wp (emitRetryStmt message sp) Q s.
Proof.
  intros Ha Ho Hr HQ. destruct (agrees_drain _ _ _ _ _ _ Ha Hr) as (Hs & Hf & Hp).
  assert (forall nt' G' msg s', nt <= nt' -> open D Psi R0 R nt' P lc ls c G' s' ->
    match msg with Some t => has G' t TyValue | None => true end = true ->
    wp (emit (ir.RunDefers ir.RunDefersAttemptFatal sp) ;& emit (ir.ExitFrame sp) ;& emit (ir.RetryPoll msg sp) ;&
        (let& b := newBlock sp in setCur b)) Q s') as Hrest.
  { intros nt' G' msg s' Hn Ho' Hm. bind1. eapply wp_step; [eassumption|cbn -[Nat.ltb]; by rewrite Hs|].
    intros s1 H1. bind1. eapply wp_step; [eassumption|cbn -[Nat.leb]; by rewrite Hf|]. intros s2 H2. bind1.
    eapply wp_end; [eassumption|cbn -[has pollDrains]; by rewrite Hm, Hp, (agrees_drained _ _ _ _ _ _ Ha)|done|]. intros s3 H3.
    bind1. eapply (wp_newBlock _ _ _ _ _ _ _ k); [done|]. intros s4 H4 _. eapply wp_setCur; [done|].
    intros s5 H5. by eapply HQ. }
  unfold emitRetryStmt. bind1. destruct message as [e|].
  - alloc1. step1. apply wpl_ret. eapply Hrest; [|eassumption|]; [lia|by temps].
  - apply wpl_ret. by eapply Hrest.
Qed.

Lemma well_retry inl message unless sp : lowersWell inl (lowerRetryStmt message unless sp).
Proof.
  intros D Psi R0 R nt P lc ls c G s Ha Ho. unfold lowerRetryStmt. bind1. eapply wp_ctx; [eassumption|].
  destruct (bool_decide (attempt lc = None) && bool_decide (returnTo lc = None)) eqn:E; [apply wpl_fail|].
  assert (attempt lc <> None \/ returnTo lc <> None) as Hr.
  { apply andb_false_iff in E. rewrite !bool_decide_eq_false in E. done. }
  destruct unless as [e|].
  - alloc1. step1. bind1. eapply (wp_new _ _ _ _ _ _ _ _ _ _ (Normal c 0)); [eassumption|]. intros s2 H2.
    bind1. eapply (wp_new _ _ _ _ _ _ _ _ _ _ (Normal c 0)); [eassumption|]. rewrite length_snoc. intros s3 H3.
    bind1. eapply wp_end; [eassumption| | |].
    { cbn -[has]. temps. rewrite !andb_true_iff. repeat split; enter. }
    { intros b Hb Hr'. cbn. apply andb_true_iff.
      split; (eapply forward_fresh; [look|reflexivity|exact Hb|exact Hr'|eapply open_fresh; [exact Ho|lia]]). }
    intros s4 H4. bind1. eapply wp_enter; [eassumption|reflexivity|look| |published|].
    { eapply agrees_ctxOk'; [done|grows|lia]. }
    intros s5 H5. bind1. eapply (wp_retry Unused); [|eassumption|done|].
    { eapply agrees_grows; [|done]. grows. }
    rewrite !length_snoc. intros nt' s6 Hn [H6 _].
    eapply wp_enter; [eapply inv_close; [exact H6|look|done|done|done]|reflexivity|look| |published|].
    { eapply agrees_ctxOk'; [done|grows|done]. }
    intros s7 H7. finish.
  - eapply (wp_retry (Normal c 0)); [done..|]. intros nt' s1 Hn H1. 
    eapply later_grows; [| | |eapply open_later, writing_open; [exact H1|look| |published]]; [grows|grows|exact Hn|].
    eapply agrees_ctxOk'; [done|grows|done].
Qed.

(** ** Guards *)

Lemma wp_guardFail D Psi R0 R nt P lc ls inl c G sp (Q : ir.block -> lstate -> Prop) s :
  agrees D Psi lc ls inl c -> open D Psi R0 R nt P lc ls c G s ->
  (forall s', open D (Psi ++ [GuardFails (sFrames c) (sScopes c)]) R0 (R ++ [length Psi]) nt P lc ls c G s' ->
     Q (length Psi) s') ->
  wp (buildGuardFailBlock sp) Q s.
Proof.
  intros Ha (b & l & [Hi Hc] & Ho)%open_suspend HQ. unfold buildGuardFailBlock.
  bind1. apply wp_get. rewrite Hc. bind1.
  eapply (wp_newBlock _ _ _ _ _ _ _ (GuardFails (sFrames c) (sScopes c))); [done|]. intros s1 H1 _.
  bind1. eapply wp_setCur; [done|]. intros s2 H2. bind1.
  assert (forall s' l', writing D (Psi ++ [GuardFails (sFrames c) (sScopes c)]) (R ++ [length Psi]) nt ((b, l) :: P) lc ls (length Psi) l' s' ->
    failOk D (sFrames c) (sScopes c) l' = true ->
    wp (setCur b ;& lret (length Psi)) Q s') as Hrest.
  { intros s' l' [Hw _] Hf. bind1. eapply wp_setCur; [eapply inv_close; [exact Hw|look|done|done|done]|].
    intros s3 H3. apply wpl_ret, HQ. eapply Ho; [grows|by apply prefix_app_r|done|done]. }
  bind1. apply wp_get. rewrite (inv_ctx _ _ _ _ _ _ _ _ (proj1 H2)).
  pose proof (agrees_drain _ _ _ _ _ _ Ha) as Hd.
  destruct (attempt lc) as [a|] eqn:Ea.
  - destruct Hd as (Hs & Hf & _); [by left|].
    bind1. eapply wp_emit; [eassumption|]. intros s3 H3. bind1. eapply wp_emit; [eassumption|]. intros s4 H4.
    eapply wp_emit; [eassumption|]. intros s5 H5. eapply Hrest; [done|].
    cbn -[Nat.ltb Nat.leb base]. by rewrite Hs, Hf.
  - destruct Ha as [Hr Hsc Hat _ _ _]. rewrite Ea in Hat. destruct Hat as [Hpo Hpol].
    bind1. eapply wp_emit; [eassumption|]. intros s3 H3. bind1.
    destruct (returnTo lc) as [e|] eqn:Er.
    + destruct Hd as (Hs & Hf & _); [by right|]. eapply wp_emit; [eassumption|]. intros s4 H4.
      eapply wp_emit; [eassumption|]. intros s5 H5. eapply Hrest; [done|]. destruct D; [|done].
      cbn -[Nat.ltb Nat.leb base]. rewrite Hpol. cbn -[Nat.ltb Nat.leb base]. by rewrite Hs, Hf.
    + apply wpl_ret. eapply wp_emit; [eassumption|]. intros s5 H5. eapply Hrest; [done|].
      destruct D; [destruct Hr as [(? & ? & _) _]; congruence|]. cbn. by rewrite Hpol, Hsc, Hpo.
Qed.

Lemma well_bindCmd inl target cmd guard sp : lowersWell inl (lowerBindCmd target cmd guard sp).
Proof.
  intros D Psi R0 R nt P lc ls c G s Ha Ho. unfold lowerBindCmd. alloc1. step1. alloc1. step1. bind1.
  destruct guard.
  - bind1. eapply wp_guardFail; [done|eassumption|]. intros s4 H4. apply wpl_ret.
    eapply wp_step; [eassumption| |intros; finish].
    cbn -[has]. temps. rewrite lookup_snoc by done. by rewrite !Nat.leb_refl.
  - apply wpl_ret. step. finish.
Qed.

(** ** Statements with bodies *)

Section bodies.
Context (lower : Stmt -> L unit).

Lemma well_walk inl stmts :
  Forall (fun st => lowersWell inl (lower st)) stmts -> lowersWell inl (walk lower stmts).
Proof. induction 1; [apply well_ret|]. by apply well_seq. Qed.

Lemma well_walkInit inl stmts :
  Forall (fun st => lowersWell inl (lower st)) stmts -> lowersWell inl (walkInit lower stmts).
Proof.
  induction 1 as [|st stmts Hst _ IH]; [apply well_ret|]. destruct stmts; [apply well_ret|].
  by apply well_seq.
Qed.

(** The lowering of a body in a nested context, at other frames perhaps. *)
Lemma wp_nested inl D Psi R0 R nt P lc ls c G (body : L unit) (Q : unit -> lstate -> Prop) s :
  lowersWell inl body -> agrees D Psi lc ls inl c -> open D Psi R0 R nt P lc ls (framesTo c (S (sFrames c))) G s ->
  (forall Psi' R0' R' nt' G' s', Psi `prefix_of` Psi' -> extends Psi R R' -> nt <= nt' ->
     open D Psi' R0' R' nt' P lc ls (framesTo c (S (sFrames c))) G' s' -> Q tt s') ->
  wp (withCtx nested body) Q s.
Proof.
  intros Hb Ha Ho HQ. unfold withCtx. bind1. eapply wp_ctx; [eassumption|]. bind1.
  eapply wp_openCtx; [eassumption|]. intros s1 H1. bind1.
  eapply wp_well; [exact Hb|by apply agrees_frame|eassumption|]. intros Psi' R0' R' nt' G' s2 Hp He Hn H2.
  eapply wp_openCtx; [eassumption|]. intros s3 H3. by eapply HQ.
Qed.

(** All the blocks are finished, but for those of [P]. *)
Definition parted D Psi R nt P lc ls s : Prop :=
  exists Psi' R' nt', Psi `prefix_of` Psi' /\ extends Psi R R' /\ nt <= nt' /\ inv D Psi' R' nt' P lc ls s.

Lemma parted_grows D Psi Psi' R R' nt nt' P lc ls s :
  Psi `prefix_of` Psi' -> extends Psi R R' -> nt <= nt' -> parted D Psi' R' nt' P lc ls s -> parted D Psi R nt P lc ls s.
Proof.
  intros Hp He Hn (Psi2 & R2 & nt2 & Hp2 & He2 & Hn2 & Hi). exists Psi2, R2, nt2. split; [by etrans|].
  split; [by eapply extends_trans|]. split; [lia|done].
Qed.

Section conditional.
Context (inl : bool) (D : bool) (lc : lowerCtx) (ls : list ir.block) (c : sctx) (merge : ir.block).

(** A block of the conditional, at its context. *)
Definition side (Psi : list bctx) (b : ir.block) : Prop :=
  Psi !! b = Some (Normal c 0) /\ ctxOk Psi b (Normal c 0) = true.

Lemma side_grows Psi Psi' b : Psi `prefix_of` Psi' -> side Psi b -> side Psi' b.
Proof. intros Hp [? ?]. split; [by eapply prefix_lookup_Some|by eapply ctxOk_grows]. Qed.

Lemma side_enters Psi b : side Psi b -> enters Psi b (Normal c 0) = true.
Proof. intros [? _]. by apply bool_decide_eq_true. Qed.

Lemma wp_branchBody Psi R nt P blk body sp tsp msg s :
  Forall (fun st => lowersWell inl (lower st)) body -> agrees D Psi lc ls inl c -> side Psi merge -> side Psi blk ->
  merge ∉ R -> blk ∈ R -> inv D Psi R nt ((blk, []) :: P) lc ls s ->
  wp (lowerIfBranchBody lower blk body sp tsp merge msg) (fun _ => parted D Psi R nt P lc ls) s.
Proof.
  intros Hb Ha Hm [Hk Hc] Hmr Hbr Hi. unfold lowerIfBranchBody. bind1. eapply wp_enter; [done|reflexivity|done..|].
  intros s1 H1. step1. step1. bind1. eapply wp_nested; [by apply well_walk|done|eassumption|].
  intros Psi' R0' R' nt' G' s4 Hp He Hn H4. bind1.
  eapply wp_step; [eassumption|apply step_exit|]. intros s5 H5. pose proof (side_grows _ _ _ Hp Hm) as Hm'.
  eapply wp_end; [eassumption| | |].
  - cbn. by rewrite (side_enters _ _ Hm').
  - intros b Hb' Hr. eapply forward_fresh; [apply Hm'|reflexivity|exact Hb'|exact Hr|]. eapply notin_prefix; [exact Hr|].
    eapply extends_notin; [exact He| |exact Hmr]. eapply lookup_lt_Some, Hm.
  - intros s6 H6. by exists Psi', R', nt'.
Qed.

Lemma wp_taken Psi R0 R nt P G sp tsp cond body elifs msg (Q : ir.block -> lstate -> Prop) s :
  Forall (fun st => lowersWell inl (lower st)) body -> agrees D Psi lc ls inl c -> side Psi merge ->
  merge ∉ R -> open D Psi R0 R nt P lc ls c G s ->
  (forall Psi' R' nt' next s', Psi `prefix_of` Psi' -> extends Psi R R' -> nt <= nt' -> side Psi' next -> next ∈ R' ->
     inv D Psi' R' nt' ((next, []) :: P) lc ls s' -> Q next s') ->
  wp (lowerIfTaken lower sp tsp cond body elifs merge msg) Q s.
Proof.
  intros Hb Ha Hm Hmr Ho HQ. unfold lowerIfTaken. alloc1. step1.
  bind1. eapply (wp_new _ _ _ _ _ _ _ _ _ _ (Normal c 0)); [eassumption|]. intros s2 H2.
  bind1. eapply (wp_new _ _ _ _ _ _ _ _ _ _ (Normal c 0)); [eassumption|]. rewrite length_snoc. intros s3 H3.
  set (Psi2 := (Psi ++ [Normal c 0]) ++ [Normal c 0]) in *.
  assert (Psi `prefix_of` Psi2) as Hp2 by (unfold Psi2; grows).
  assert (side Psi2 (length Psi)) as Hthen.
  { split; [unfold Psi2; look|eapply agrees_ctxOk'; [done|done|lia]]. }
  assert (side Psi2 (S (length Psi))) as Helse.
  { split; [unfold Psi2; look|eapply agrees_ctxOk'; [done|done|lia]]. }
  set (R2 := (R ++ [length Psi]) ++ [S (length Psi)]) in *.
  assert (extends Psi R R2) as He2 by (unfold R2; grows).
  bind1. eapply wp_end; [eassumption| | |].
  { cbn -[has]. temps. by rewrite (side_enters _ _ Hthen), (side_enters _ _ Helse). }
  { intros b Hb' Hr. cbn. apply andb_true_iff.
    split; (eapply forward_fresh; [first [apply Hthen|apply Helse]|reflexivity|exact Hb'|exact Hr|eapply open_fresh; [exact Ho|lia]]). }
  intros s4 H4. bind1. eapply wpl_mono.
  { eapply (wp_branchBody Psi2 R2 _ ((S (length Psi), []) :: P));
      [done|by eapply agrees_grows|by eapply side_grows|exact Hthen| |unfold R2; published|].
    - eapply extends_notin; [exact He2| |done]. eapply lookup_lt_Some, Hm.
    - eapply inv_perm; [apply perm_swap|exact H4]. }
  intros [] s5 (Psi3 & R3 & nt3 & Hp3 & He3 & Hn3 & H5). apply wpl_ret. eapply HQ; [| | | | |exact H5].
  - by etrans.
  - by eapply extends_trans.
  - lia.
  - by eapply side_grows.
  - destruct He3 as (N & -> & _). unfold R2. published.
Qed.

Lemma wp_ifElse tsp els elifs : 
  Forall (fun st => lowersWell inl (lower st)) els ->
  Forall (fun br => match br with MkIfBranch _ body _ => Forall (fun st => lowersWell inl (lower st)) body end) elifs ->
  forall Psi R nt P sp next s, agrees D Psi lc ls inl c -> side Psi merge -> side Psi next -> merge ∉ R -> next ∈ R ->
  inv D Psi R nt ((next, []) :: P) lc ls s ->
  wp (lowerIfElse lower tsp els merge sp next elifs) (fun _ => parted D Psi R nt P lc ls) s.
Proof.
  intros Hels. induction 1 as [|[cond body bsp] elifs Hb _ IH]; intros Psi R nt P sp next s Ha Hm Hn Hmr Hnr Hi.
  - destruct els as [|st els].
    + cbn [lowerIfElse]. destruct Hn as [Hk Hc]. bind1. eapply wp_enter; [done|reflexivity|done..|]. intros s1 H1.
      step1. eapply wp_end; [eassumption| | |].
      * cbn. by rewrite (side_enters _ _ Hm).
      * intros b Hb Hr. eapply forward_fresh; [apply Hm|reflexivity|exact Hb|exact Hr|done].
      * intros s3 H3. exists Psi, R, nt. auto using extends_refl.
    + by eapply wp_branchBody.
  - cbn [lowerIfElse]. pose proof Hn as [Hk Hc]. bind1. eapply wp_enter; [done|reflexivity|done..|]. intros s1 H1.
    bind1. eapply wp_taken; [exact Hb|done|done|exact Hmr|eassumption|]. intros Psi' R' nt' next' s2 Hp He Hn' Hs' Hin H2.
    eapply wpl_mono; [eapply IH; [by eapply agrees_grows|by eapply side_grows|exact Hs'| |exact Hin|exact H2]|].
    { eapply extends_notin; [exact He| |exact Hmr]. eapply lookup_lt_Some, Hm. }
    intros [] s3. by apply parted_grows.
Qed.
End conditional.

Lemma well_if inl cond then_ elifs els sp :
  Forall (fun st => lowersWell inl (lower st)) then_ ->
  Forall (fun br => match br with MkIfBranch _ body _ => Forall (fun st => lowersWell inl (lower st)) body end) elifs ->
  Forall (fun st => lowersWell inl (lower st)) els ->
  lowersWell inl (lowerIfStmt lower cond then_ elifs els sp).
Proof.
  intros Ht He Hels D Psi R0 R nt P lc ls c G s Ha Ho. unfold lowerIfStmt, lowerIfChain.
  bind1. eapply (wp_reserve _ _ _ _ _ _ _ _ _ _ (Normal c 0)); [eassumption|]. intros s1 H1.
  assert (side c (Psi ++ [Normal c 0]) (length Psi)) as Hm.
  { split; [look|eapply agrees_ctxOk'; [done|grows|done]]. }
  assert (agrees D (Psi ++ [Normal c 0]) lc ls inl c) as Ha'
    by (eapply agrees_grows; [|exact Ha]; grows).
  assert (length Psi ∉ R) as Hmr by (eapply open_fresh'; [exact Ho|done]).
  bind1. bind1. eapply wp_taken; [exact Ht|done|done|exact Hmr|eassumption|].
  intros Psi2 R2 nt2 next s2 Hp2 He2 Hn2 Hs2 Hin2 H2.
  eapply wpl_mono.
  { eapply (wp_ifElse inl); [done|done|by eapply agrees_grows|by eapply side_grows|exact Hs2| |exact Hin2|exact H2].
    eapply extends_notin; [exact He2|rewrite length_snoc; lia|done]. }
  intros [] s3 (Psi3 & R3 & nt3 & Hp3 & He3 & Hn3 & H3).
  destruct (side_grows _ _ _ _ (transitivity Hp2 Hp3) Hm) as [Hk Hc].
  bind1. eapply wp_publishBlock; [done|by eapply lookup_lt_Some|]. intros s4 H4 _.
  eapply wp_enter; [done|reflexivity|done|done|published|]. intros s5 H5.
  assert (Psi `prefix_of` Psi ++ [Normal c 0]) as Hp1 by grows.
  eapply later_grows; [| | |by eapply open_later]; [|apply extends_snoc; [|lia]|lia].
  - etrans; [exact Hp1|]. by etrans.
  - eapply extends_trans; [apply extends_refl|exact Hp1|]. by eapply extends_trans.
Qed.
End bodies.

(** ** Loops and polls *)

Section loops.
Context (lower : Stmt -> L unit).

(** In the body of a loop: it can be left, and its context agrees. *)
Lemma loopsBack_body Psi l rest polls collect :
  enters Psi (slBody l) (Normal (bodyCtx l rest polls) 0) = true ->
  enters Psi (slExit l) (Normal (exitCtx l rest polls) 0) = true ->
  negb collect || slCollect l = true ->
  loopsBack Psi (bodyCtx l rest polls) collect = true.
Proof. intros Hb Hx Hc. unfold loopsBack. cbn -[enters Nat.leb].
  by rewrite Hb, Hx, Hc, Nat.leb_refl, (proj2 (Nat.leb_le _ _) (Nat.le_succ_diag_r _)). Qed.

Lemma agrees_body D Psi lc ls inl c l exit :
  agrees D Psi lc ls inl c -> slFrames l = sFrames c -> slScopes l = sScopes c ->
  loopsBack Psi (bodyCtx l (sLoops c) (sPolls c)) false = true ->
  agrees D Psi lc (exit :: ls) true (bodyCtx l (sLoops c) (sPolls c)).
Proof.
  intros [] Hf Hs Hl. split; cbn; try done.
  - destruct D; [|done]. split; [tauto|lia].
  - lia.
  - destruct (attempt lc); [|done]. split; [tauto|lia].
  - destruct (sPolls c); [done|]. split; [lia|]. split; [lia|]. apply suffix_cons_r. tauto.
  - intros _. split; [done|]. split; [done|]. unfold loopInPoll. cbn -[Nat.ltb]. destruct (sPolls c) as [|p ps]; [done|].
    destruct ag_drain0 as (_ & _ & [k ->]). apply Nat.ltb_lt. rewrite length_app. lia.
Qed.

Lemma exitCtx_entry c body exit b :
  exitCtx (MkSloop body exit b (sFrames c) (sScopes c)) (sLoops c) (sPolls c) = c.
Proof. by destruct c. Qed.

Lemma wp_inLoop D Psi R nt P P' lc ls exit c (body : L unit) s :
  inv D Psi R nt P lc ls s ->
  (forall s', inv D Psi R nt P lc (exit :: ls) s' ->
     wp body (fun _ => later D Psi R nt P' lc (exit :: ls) c) s') ->
  wp (inLoop exit body) (fun _ => later D Psi R nt P' lc ls c) s.
Proof.
  intros Hi Hb. unfold inLoop. bind1. apply wp_get. rewrite (inv_loops _ _ _ _ _ _ _ _ Hi). bind1.
  eapply wp_setLoops; [done|]. intros s1 H1 _. bind1. eapply wpl_mono; [by apply Hb|].
  intros [] s2 (Psi2 & R0 & R2 & nt2 & G2 & Hp2 & He2 & Hn2 & H2). eapply wp_openLoops; [exact H2|]. intros s3 H3.
  eapply later_grows; [exact Hp2|exact He2|exact Hn2|by eapply open_later].
Qed.

(** A loop: the instruction that opens it, and the blocks of its body and exit. *)
Lemma wp_loop D Psi R0 R nt P lc ls c G collect mk (body : ir.block -> ir.block -> L unit) sp inl s :
  agrees D Psi lc ls inl c -> open D Psi R0 R nt P lc ls c G s ->
  (forall b x Psi', let l := MkSloop b x collect (sFrames c) (sScopes c) in
     enters Psi' b (Normal (bodyCtx l (sLoops c) (sPolls c)) 0) = true ->
     enters Psi' x (Normal c 0) = true -> endOk D Psi' c G (mk b x) = true) ->
  (forall b x Psi' R' here, precedes R' here x && pollInLoops c = true -> endOrdered R' Psi' here c (mk b x) = true) ->
  (forall b x Psi' R' s', let l := MkSloop b x collect (sFrames c) (sScopes c) in
     agrees D Psi' lc (x :: ls) true (bodyCtx l (sLoops c) (sPolls c)) ->
     loopsBack Psi' (bodyCtx l (sLoops c) (sPolls c)) collect = true ->
     side c Psi' x -> x ∈ R' ->
     open D Psi' R' R' nt ((x, []) :: P) lc (x :: ls) (bodyCtx l (sLoops c) (sPolls c)) ∅ s' ->
     wp (body b x) (fun _ => later D Psi' R' nt P lc (x :: ls) c) s') ->
  wp (let& b := newBlock sp in let& x := newBlock sp in emit (mk b x) ;& inLoop x (setCur b ;& body b x))
     (fun _ => later D Psi R nt P lc ls c) s.
Proof.
  intros Ha Ho Hmk Hor Hbody.
  set (l := MkSloop (length Psi) (S (length Psi)) collect (sFrames c) (sScopes c)).
  set (k := Normal (bodyCtx l (sLoops c) (sPolls c)) 0).
  bind1. eapply (wp_new _ _ _ _ _ _ _ _ _ _ k); [eassumption|]. intros s1 H1.
  bind1. eapply (wp_new _ _ _ _ _ _ _ _ _ _ (Normal c 0)); [eassumption|]. rewrite length_snoc. intros s2 H2.
  set (Psi2 := (Psi ++ [k]) ++ [Normal c 0]) in *.
  assert (Psi `prefix_of` Psi2) as Hp2 by (unfold Psi2; grows).
  assert (Psi2 !! length Psi = Some k) as Hb by (unfold Psi2; look).
  assert (side c Psi2 (S (length Psi))) as Hx.
  { split; [unfold Psi2; look|]. eapply agrees_ctxOk'; [exact Ha|done|lia]. }
  assert (enters Psi2 (length Psi) k = true) as Heb by (by apply bool_decide_eq_true).
  pose proof (side_enters _ _ _ Hx) as Hex.
  assert (forall b, negb b || collect = true ->
    loopsBack Psi2 (bodyCtx l (sLoops c) (sPolls c)) b = true) as Hback.
  { intros b Hc. apply loopsBack_body; [exact Heb| |exact Hc]. unfold l. by rewrite exitCtx_entry. }
  set (R2 := (R ++ [length Psi]) ++ [S (length Psi)]) in *.
  assert (extends Psi R R2) as He2 by (unfold R2; grows).
  bind1. eapply wp_end; [eassumption|by apply Hmk| |].
  { intros b Hb' Hr. apply Hor. rewrite (agrees_pollInLoops _ _ _ _ _ _ Ha), andb_true_r.
    eapply precedes_fresh; [exact Hb'|exact Hr|eapply open_fresh; [exact Ho|lia]]. }
  intros s3 H3.
  apply (wpl_mono _ (fun _ => later D Psi2 R2 nt P lc ls c)).
  2: { intros [] s6. by apply later_grows. }
  eapply wp_inLoop; [exact H3|]. intros s4 H4. bind1.
  eapply wp_enter; [exact H4|apply perm_swap|exact Hb| |unfold R2; published|].
  { by apply (agrees_ctxOk D Psi Psi2 lc ls inl c (length Psi) (S (sFrames c)) 0 Ha Hp2). }
  intros s5 H5. eapply Hbody; [| |exact Hx|unfold R2; published|exact H5].
  - eapply agrees_body; [|done|done|by apply Hback]. eapply agrees_grows; [exact Hp2|exact Ha].
  - apply Hback. by destruct collect.
Qed.

Lemma well_forEach inl names list_ body sp :
  Forall (fun st => lowersWell true (lower st)) body ->
  lowersWell inl (lowerForEachStmt lower names list_ body sp).
Proof.
  intros Hb D Psi R0 R nt P lc ls c G s Ha Ho. unfold lowerForEachStmt. alloc1. step1.
  apply (wpl_mono _ (fun _ => later D Psi R (S nt) P lc ls c)).
  2: { intros [] s3. apply later_grows; [reflexivity|apply extends_refl|lia]. }
  eapply (wp_loop _ _ _ _ _ _ _ _ _ _ false (fun b x => ir.ForEach nt (identTexts names) b x sp)
    (fun b x => withCtx nested (walk lower body) ;& emit (ir.ForEachContinue sp) ;& setCur x)); [done|eassumption| |done|].
  - intros b x Psi' l Hb' Hx. subst l. cbn -[has bodyCtx enters]. temps. by rewrite Hb', Hx.
  - intros b x Psi' R' s3 l Ha' Hl [Hx Hc] Hxr H3. bind1. unfold withCtx. bind1. eapply wp_ctx; [eassumption|].
    bind1. eapply wp_openCtx; [eassumption|]. intros s4 H4. bind1.
    eapply wp_well; [by apply well_walk|by apply agrees_nested|eassumption|]. intros Psi2 R02 R2 nt2 G2 s5 Hp He Hn H5.
    eapply wp_openCtx; [eassumption|]. intros s6 H6. bind1.
    eapply wp_end; [eassumption|by eapply loopsBack_grows|by intros; apply (ag_loop _ _ _ _ _ _ Ha')|]. intros s7 H7.
    eapply wp_enter; [exact H7|reflexivity|by eapply prefix_lookup_Some|by eapply ctxOk_grows| |].
    { by eapply extends_in. }
    intros s8 H8. eapply later_grows; [exact Hp|exact He|exact Hn|by eapply open_later].
Qed.

Lemma well_bindCollect inl target fe guard sp :
  Forall (fun st => lowersWell true (lower st)) (forEachBody fe) ->
  lowersWell inl (lowerBindCollect lower target fe guard sp).
Proof.
  destruct fe as [names list_ body feSpan]. intros Hb D Psi R0 R nt P lc ls c G s Ha Ho. unfold lowerBindCollect.
  destruct (head (reverse body)) as [[]|]; try apply wpl_fail. alloc1. step1.
  apply (wpl_mono _ (fun _ => later D Psi R (S nt) P lc ls c)).
  2: { intros [] s3. apply later_grows; [reflexivity|apply extends_refl|lia]. }
  eapply (wp_loop _ _ _ _ _ _ _ _ _ _ true
    (fun b x => ir.ForEachCollect nt (identTexts names) (idText target) guard b x feSpan)
    (fun b x => walkInit lower body ;& _)); [done|eassumption| |done|].
  - intros b x Psi' l Hb' Hx. subst l. cbn -[has bodyCtx enters]. temps. by rewrite Hb', Hx.
  - intros b x Psi' R' s3 l Ha' Hl [Hx Hc] Hxr H3. bind1.
    eapply wp_well; [by apply well_walkInit|exact Ha'|eassumption|]. intros Psi2 R02 R2 nt2 G2 s5 Hp He Hn H5.
    alloc1. step1. alloc1. step1. bind1.
    eapply wp_end; [eassumption| |by intros; apply (ag_loop _ _ _ _ _ _ Ha')|].
    { cbn -[has loopsBack]. temps. by eapply loopsBack_grows. }
    intros s7 H7. eapply wp_enter; [exact H7|reflexivity|by eapply prefix_lookup_Some|by eapply ctxOk_grows| |].
    { by eapply extends_in. }
    intros s8 H8. eapply later_grows; [exact Hp|exact He| |by eapply open_later]. grows.
Qed.

(** The context in an attempt of a poll. *)
Lemma agrees_attempt D Psi lc ls inl c p a f :
  agrees D Psi lc ls inl c -> spFrames p = sFrames c -> spScopes p = sScopes c -> spDone p < length Psi ->
  pollsOk Psi (p :: sPolls c) = true ->
  agrees D Psi (pollCtx a f lc) ls false
    (scopesTo (framesTo (attemptCtx p (sPolls c)) (S (sFrames c))) (S (sScopes c))).
Proof.
  intros [] Hf Hs Hd Hp. split; cbn -[pollsOk]; try done.
  - destruct D; [|done]. split; [tauto|lia].
  - lia.
  - split; [done|lia].
  - split; [lia|]. split; [lia|done].
Qed.

Lemma well_poll inl timeout every body sp :
  (0 <? every)%Z = true -> Forall (fun st => lowersWell false (lower st)) body ->
  lowersWell inl (lowerPollStmt lower timeout every body sp).
Proof.
  intros Hev Hb D Psi R0 R nt P lc ls c G s Ha Ho. unfold lowerPollStmt.
  set (p := MkSpoll (length Psi) (S (length Psi)) (S (S (length Psi))) (sFrames c) (sScopes c) (sLoops c)).
  set (k := Normal (attemptCtx p (sPolls c)) 0).
  bind1. eapply (wp_new _ _ _ _ _ _ _ _ _ _ k); [eassumption|]. intros s1 H1.
  bind1. eapply (wp_new _ _ _ _ _ _ _ _ _ _ TimesOut); [eassumption|]. rewrite length_snoc. intros s2 H2.
  bind1. eapply (wp_new _ _ _ _ _ _ _ _ _ _ (Normal c 0)); [eassumption|]. rewrite !length_snoc. intros s3 H3.
  set (Psi3 := ((Psi ++ [k]) ++ [TimesOut]) ++ [Normal c 0]) in *.
  assert (Psi `prefix_of` Psi3) as Hp3 by (unfold Psi3; grows).
  assert (Psi3 !! length Psi = Some k) as Hk by (unfold Psi3; look).
  assert (Psi3 !! S (length Psi) = Some TimesOut) as Ht by (unfold Psi3; look).
  assert (side c Psi3 (S (S (length Psi)))) as Hd.
  { split; [unfold Psi3; look|]. eapply agrees_ctxOk'; [exact Ha|done|lia]. }
  assert (agrees D Psi3 lc ls inl c) as Ha3 by (eapply agrees_grows; [exact Hp3|exact Ha]).
  assert (pollsOk Psi3 (p :: sPolls c) = true) as Hpolls.
  { cbn -[enters]. rewrite (ag_polls _ _ _ _ _ _ Ha3), !andb_true_iff. repeat split; by apply bool_decide_eq_true. }
  assert (S (S (length Psi)) < length Psi3) as Hlt by (unfold Psi3; rewrite !length_snoc; lia).
  set (R3 := ((R ++ [length Psi]) ++ [S (length Psi)]) ++ [S (S (length Psi))]) in *.
  assert (extends Psi R R3) as He3 by (unfold R3; grows).
  bind1. eapply wp_end; [eassumption| | |].
  { cbn -[enters]. rewrite (side_enters _ _ _ Hd), !andb_true_iff. repeat split; by apply bool_decide_eq_true. }
  { intros b Hb' Hr. cbn. rewrite Hev. cbn. eapply precedes_fresh; [exact Hb'|exact Hr|eapply open_fresh; [exact Ho|lia]]. }
  intros s4 H4. bind1. unfold withCtx. bind1. apply wp_get. rewrite (inv_ctx _ _ _ _ _ _ _ _ H4).
  bind1. eapply wp_setCtx; [exact H4|]. intros s5 H5 _. bind1. bind1.
  eapply wp_enter; [exact H5| |exact Hk| |unfold R3; published|].
  { symmetry. apply (Permutation_middle [_; _]). }
  { cbn -[pollsOk Nat.eqb]. rewrite Hpolls. by rewrite (proj2 (Nat.eqb_neq _ _)) by lia. }
  intros s6 H6. step1. step1. bind1.
  eapply (wp_step _ _ _ _ _ _ _ _ _ _ (scopesTo (framesTo (attemptCtx p (sPolls c)) (S (sFrames c))) (S (sScopes c))));
    [eassumption| |intros s9 H9].
  { cbn -[Nat.leb base]. change (spScopes p) with (sScopes c).
    rewrite (proj2 (Nat.leb_le _ _) (agrees_base _ _ _ _ _ _ Ha)). reflexivity. }
  bind1. eapply wp_well; [by apply well_walk| |exact H9|];
    [exact (agrees_attempt _ _ _ _ _ _ p _ _ Ha3 eq_refl eq_refl Hlt Hpolls)|].
  intros Psi4 R04 R4 nt4 G4 s10 Hp4 He4 Hn4 H10. bind1. pose proof (side_grows _ _ _ _ Hp4 Hd) as Hd4.
  eapply (wp_step _ _ _ _ _ _ _ _ _ _ (framesTo (attemptCtx p (sPolls c)) (S (sFrames c)))); [eassumption| |intros s11 H11].
  { cbn -[Nat.ltb base]. pose proof (agrees_base _ _ _ _ _ _ Ha).
    rewrite (proj2 (Nat.ltb_lt _ _)) by lia. by rewrite Nat.sub_0_r. }
  bind1. eapply wp_step; [eassumption|exact (step_exit _ _ _ (attemptCtx p (sPolls c)) _ _)|intros s12 H12].
  eapply wp_end; [eassumption| | |intros s13 H13].
  { cbn -[enters Nat.eqb]. rewrite Nat.eqb_refl. pose proof (side_enters _ _ _ (side_grows _ _ _ _ Hp4 Hd)) as He.
    rewrite (eta_ctx c) in He. rewrite He. by rewrite orb_true_r. }
  { intros b Hb' Hr. cbn. unfold goesForward. rewrite (proj1 Hd4). cbn.
    rewrite bool_decide_false by (intros E; apply (f_equal length) in E; cbn in E; lia). apply Nat.eqb_refl. }
  eapply wp_setCtx; [exact H13|]. intros s14 H14 _. bind1.
  eapply wp_setCur; [eapply inv_perm; [apply perm_swap|exact H14]|]. intros s15 H15.
  bind1. eapply wp_emit; [eassumption|]. intros s16 H16. bind1. eapply wp_emit; [eassumption|]. intros s17 [H17 _].
  eapply wp_enter; [|reflexivity| | | |].
  { eapply inv_close; [exact H17|by eapply prefix_lookup_Some|done|done|done]. }
  { eapply prefix_lookup_Some; [|exact Hp4]. apply Hd. }
  { eapply ctxOk_grows; [exact Hp4|]. apply Hd. }
  { destruct He4 as (N & -> & _). unfold R3. published. }
  intros s18 H18. eapply later_grows; [| | |by eapply open_later]; [by etrans|by eapply extends_trans|lia].
Qed.
End loops.

(** ** Units *)

Lemma blocksOk_forall D Psi nt ks mem : forall b,
  length mem = length ks ->
  (forall i k blk, ks !! i = Some k -> mem !! i = Some blk ->
     ctxOk Psi (b + i) k && blockOk D Psi nt k (ir.instrs blk) = true) ->
  blocksOk D Psi nt b ks mem = true.
Proof.
  revert mem. induction ks as [|k ks IH]; intros [|blk mem] b Hl Hall; try done.
  cbn -[ctxOk blockOk]. pose proof (Hall 0 k blk eq_refl eq_refl) as H0. rewrite Nat.add_0_r in H0. rewrite H0.
  apply IH; [by injection Hl|]. intros i k' blk' Hk Hb. specialize (Hall (S i) k' blk' Hk Hb).
  by rewrite Nat.add_succ_r in Hall.
Qed.

Lemma inv_blocksOk D Psi R nt lc ls s : inv D Psi R nt [] lc ls s -> blocksOk D Psi nt 0 Psi (memory (unit_ s)) = true.
Proof.
  intros Hi. apply blocksOk_forall; [apply Hi|]. intros i k blk Hk Hb.
  assert (content (unit_ s) i = Some (ir.instrs blk)) as Hc by (unfold content; by rewrite Hb).
  pose proof (inv_done _ _ _ _ _ _ _ _ Hi i k _ Hk Hc ltac:(set_solver)) as Hd. by apply andb_true_iff in Hd as [Hd _].
Qed.

Lemma ordered_forall order Psi ks mem : forall b,
  (forall i k blk, ks !! i = Some k -> mem !! i = Some blk -> blockOrdered order Psi (b + i) k (ir.instrs blk) = true) ->
  ordered order Psi b ks mem = true.
Proof.
  revert mem. induction ks as [|k ks IH]; intros [|blk mem] b Hall; try done. cbn [ordered]. apply andb_true_iff.
  pose proof (Hall 0 k blk eq_refl eq_refl) as H0. rewrite Nat.add_0_r in H0. split; [done|].
  apply IH. intros i k' blk' Hk Hb. specialize (Hall (S i) k' blk' Hk Hb). by rewrite Nat.add_succ_r in Hall.
Qed.

Lemma inv_ordered D Psi R nt lc ls s : inv D Psi R nt [] lc ls s -> ordered (blocks (unit_ s)) Psi 0 Psi (memory (unit_ s)) = true.
Proof.
  intros Hi. rewrite (inv_blocks _ _ _ _ _ _ _ _ Hi). apply ordered_forall. intros i k blk Hk Hb.
  assert (content (unit_ s) i = Some (ir.instrs blk)) as Hc by (unfold content; by rewrite Hb).
  pose proof (inv_done _ _ _ _ _ _ _ _ Hi i k _ Hk Hc ltac:(set_solver)) as Hd. by apply andb_true_iff in Hd as [_ Hd].
Qed.

(** A unit of which no block is written. *)
Lemma inv_start D ds lc nt ls : Forall goodDef ds -> inv D [] [] nt [] lc ls (MkState ds (MkLowerer lc [] [] 0 nt ls)).
Proof. intros. split; try done; [constructor|set_solver]. Qed.

Lemma has_given n i : i < n -> has (given n) i TyValue = true.
Proof.
  intros. apply bool_decide_eq_true. induction n as [|n IH]; [lia|]. cbn.
  destruct (decide (i = n)) as [->|]; [apply lookup_insert_eq|].
  rewrite lookup_insert_ne by lia. apply IH. lia.
Qed.

Lemma wp_bindParams D Psi R0 R nt P lc ls c n params sp : forall i (Q : unit -> lstate -> Prop) s,
  i + length params <= n -> open D Psi R0 R nt P lc ls c (given n) s ->
  (forall s', open D Psi R0 R nt P lc ls c (given n) s' -> Q tt s') -> wp (bindParams i params sp) Q s.
Proof.
  induction params as [|p params IH]; intros i Q s Hi Ho HQ; [by apply wpl_ret, HQ|]. cbn in Hi. cbn [bindParams].
  bind1. eapply wp_step; [eassumption|cbn -[has]; by rewrite has_given by lia|]. intros s1 H1.
  eapply IH; [lia|done|done].
Qed.

Section units.
Context (lower : Stmt -> L unit).

Lemma entryCtxOk Psi b n : ctxOk Psi b (Normal (MkSctx 0 0 [] []) n) = true.
Proof. done. Qed.

(** The context after the frame and the scope of a def are entered. *)
Definition defBodyCtx : sctx := MkSctx 1 1 [] [].

Lemma agrees_def Psi e :
  enters Psi e Epilogue = true -> agrees true Psi (defCtx (Some e)) [] false defBodyCtx.
Proof. intros He. split; try done. split; [by exists e|]. done. Qed.

Lemma wp_defBody params body sp ds name hasReturn defSpan :
  Forall (fun st => lowersWell false (lower st)) body -> Forall goodDef ds ->
  wp (lowerDefBody lower params body sp)
     (fun entry s => Forall goodDef (defs s) /\
        goodDef (ir.MkDef name (irDefParams params) hasReturn entry (blocks (unit_ s)) (nextTemp (unit_ s))
                   (memory (unit_ s)) defSpan))
     (MkState ds (defLowerer params)).
Proof.
  intros Hb Hds. unfold lowerDefBody. set (n := length params).
  pose proof (inv_start true ds (defCtx None) n [] Hds) as Hi.
  bind1. eapply (wp_reserveBlock _ _ _ _ _ _ _ Epilogue); [exact Hi|]. intros s1 H1 _.
  bind1. eapply wp_setCtx; [exact H1|]. intros s2 H2 _.
  bind1. eapply (wp_newBlock _ _ _ _ _ _ _ (Normal (MkSctx 0 0 [] []) n)); [exact H2|]. intros s3 H3 _.
  bind1. eapply wp_enter; [exact H3|reflexivity|reflexivity|done|cbn; published|]. intros s4 H4.
  step1. bind1. eapply (wp_step _ _ _ _ _ _ _ _ _ _ defBodyCtx); [eassumption|reflexivity|]. intros s6 H6.
  bind1. eapply wp_bindParams; [|exact H6|]; [done|]. intros s7 H7.
  bind1. eapply wp_well; [by apply well_walk| |exact H7|]; [by apply agrees_def|].
  intros Psi' R0' R' nt' G' s8 Hp Hx Hn H8. 
  assert (Psi' !! 0 = Some Epilogue) as He by (eapply prefix_lookup_Some; [|exact Hp]; reflexivity).
  bind1. eapply wp_end; [exact H8| | |].
  { cbn -[enters]. rewrite (proj2 (bool_decide_eq_true _) He : enters Psi' 0 Epilogue = true). by rewrite orb_true_r. }
  { intros b Hb' Hr. cbn. unfold goesForward. by rewrite He. }
  intros s9 H9. bind1. eapply wp_publishBlock; [exact H9|by eapply lookup_lt_Some|]. intros s10 H10 _.
  bind1. eapply wp_setCur; [exact H10|]. intros s11 H11.
  bind1. eapply wp_emit; [exact H11|]. intros s12 H12.
  bind1. eapply wp_emit; [exact H12|]. intros s13 H13.
  bind1. eapply wp_emit; [exact H13|]. intros s14 [H14 _].
  apply wpl_ret. assert (inv true Psi' (R' ++ [0]) nt' [] (defCtx (Some 0)) [] s14) as Hf
    by (eapply inv_close; [exact H14|exact He|reflexivity..]).
  split; [apply Hf|]. exists Psi'. unfold defOk, unitOk. cbn -[enters blocksOk ordered Nat.leb].
  rewrite (inv_temps _ _ _ _ _ _ _ _ Hf), (inv_blocksOk _ _ _ _ _ _ _ Hf), (inv_ordered _ _ _ _ _ _ _ Hf), !andb_true_r, andb_true_iff. split.
  - apply bool_decide_eq_true. unfold irDefParams. rewrite length_map.
    eapply prefix_lookup_Some; [|exact Hp]. reflexivity.
  - apply Nat.leb_le. unfold irDefParams. rewrite length_map. exact Hn.
Qed.

Lemma well_def inl name params body sp :
  Forall (fun st => lowersWell false (lower st)) body -> lowersWell inl (lowerDefStmt lower name params body sp).
Proof.
  intros Hb D Psi R0 R nt P lc ls c G s Ha Ho. unfold lowerDefStmt. bind1. eapply wp_ctx; [eassumption|].
  match goal with |- wp (if ?b then _ else _) _ _ => destruct b; [apply wpl_fail|] end.
  pose proof Ho as (b & l & [Hi Hc] & Hback)%open_suspend.
  pose proof (wp_defBody params body sp (defs s) (idText name) (bodyHasReturn body) sp Hb
    (inv_defs _ _ _ _ _ _ _ _ Hi)) as Hdef.
  unfold wp in Hdef |- *. destruct (lowerDefBody lower params body sp _) as [[entry s']| |]; [|done|done].
  destruct Hdef as [Hds Hd]. eapply open_later. eapply Hback; [done|done|done|]. split; [|done].
  destruct Hi. split; cbn; try done. apply Forall_app. by split; [|constructor].
Qed.
End units.

(** ** Statements *)

(** Induction on a statement, with the statements of its bodies. *)
Section stmt_ind.
Context (P : Stmt -> Prop).
Hypothesis simple_case : forall st,
  match st with
  | IfStmt _ _ _ _ _ | ForEachStmt _ | PollStmt _ _ _ _ | DefStmt _ _ _ _ | BindStmt _ (BindCollect _) _ _ => False
  | _ => True
  end -> P st.
Hypothesis if_case : forall cond then_ elifs els sp,
  Forall P then_ -> Forall (fun br => match br with MkIfBranch _ body _ => Forall P body end) elifs -> Forall P els ->
  P (IfStmt cond then_ elifs els sp).
Hypothesis forEach_case : forall fe, Forall P (forEachBody fe) -> P (ForEachStmt fe).
Hypothesis collect_case : forall target fe guard sp, Forall P (forEachBody fe) -> P (BindStmt target (BindCollect fe) guard sp).
Hypothesis poll_case : forall timeout every body sp, Forall P body -> P (PollStmt timeout every body sp).
Hypothesis def_case : forall name params body sp, Forall P body -> P (DefStmt name params body sp).

Fixpoint stmt_ind' (st : Stmt) : P st :=
  let all := fix all (l : list Stmt) : Forall P l :=
    match l with [] => Forall_nil_2 P | x :: l => Forall_cons_2 P x l (stmt_ind' x) (all l) end in
  match st with
  | IfStmt cond then_ elifs els sp =>
    if_case cond then_ elifs els sp (all then_)
      ((fix go (l : list IfBranch) : Forall (fun br => match br with MkIfBranch _ body _ => Forall P body end) l :=
        match l with
        | [] => Forall_nil_2 _
        | MkIfBranch c body s :: l => Forall_cons_2 _ (MkIfBranch c body s) l (all body) (go l)
        end) elifs) (all els)
  | ForEachStmt (MkForEach names list_ body sp) => forEach_case (MkForEach names list_ body sp) (all body)
  | BindStmt target (BindCollect (MkForEach names list_ body s)) guard sp =>
    collect_case target (MkForEach names list_ body s) guard sp (all body)
  | PollStmt timeout every body sp => poll_case timeout every body sp (all body)
  | DefStmt name params body sp => def_case name params body sp (all body)
  | st => simple_case st I
  end.
End stmt_ind.

Definition lowersStmt (st : Stmt) : Prop := forall inl, closedStmt inl st = true -> lowersWell inl (lowerStmt st).

Lemma lowersStmt_body inl body :
  Forall lowersStmt body -> forallb (closedStmt inl) body = true ->
  Forall (fun st => lowersWell inl (lowerStmt st)) body.
Proof.
  intros HF Hc. rewrite List.forallb_forall in Hc. rewrite Forall_forall in *. intros st Hst.
  apply HF; [done|]. by apply Hc.
Qed.

Lemma well_stmt st : lowersStmt st.
Proof.
  induction st using stmt_ind'; intros inl.
  - destruct st as [| |? [] | | | | | | | | | | | |]; try done; intros Hc; cbn [lowerStmt].
    + apply well_let.
    + apply well_destructure.
    + apply well_bindCmd.
    + apply well_defer.
    + apply well_command.
    + apply well_expr.
    + cbn in Hc. subst. apply well_break.
    + cbn in Hc. subst. apply well_continue.
    + apply well_retry.
    + apply well_assert.
    + apply well_return.
  - cbn [closedStmt]. rewrite !andb_true_iff. intros [[Ht He] Hels]. apply well_if; [by apply lowersStmt_body| |by apply lowersStmt_body].
    rewrite List.forallb_forall in He. rewrite Forall_forall in *. intros [c body s] Hbr.
    apply lowersStmt_body; [by apply (H0 _ Hbr)|]. by apply (He _ Hbr).
  - destruct fe. intros Hc. apply well_forEach. by apply lowersStmt_body.
  - destruct fe. intros Hc. apply well_bindCollect. by apply lowersStmt_body.
  - cbn [closedStmt]. rewrite andb_true_iff. intros [He Hc]. apply well_poll; [done|]. by apply lowersStmt_body.
  - intros Hc. apply well_def. by apply lowersStmt_body.
Qed.

(** ** Programs *)

Lemma wp_body stmts sp :
  forallb (closedStmt false) stmts = true ->
  wp (lowerBody stmts sp)
     (fun entry s => Forall goodDef (defs s) /\ exists Psi,
        unitOk false Psi (nextTemp (unit_ s)) entry 0 (memory (unit_ s)) && ordered (blocks (unit_ s)) Psi 0 Psi (memory (unit_ s)) = true)
     (MkState [] programLowerer).
Proof.
  intros Hc. unfold lowerBody.
  pose proof (inv_start false [] (MkCtx ir.RunDefersProgram None None None false) 0 [] ltac:(constructor)) as Hi.
  bind1. eapply (wp_newBlock _ _ _ _ _ _ _ (Normal (MkSctx 0 0 [] []) 0)); [exact Hi|]. intros s1 H1 _.
  bind1. eapply wp_enter; [exact H1|reflexivity|reflexivity|done|cbn; published|]. intros s2 H2.
  bind1. eapply (wp_step _ _ _ _ _ _ _ _ _ _ (MkSctx 0 1 [] [])); [eassumption|reflexivity|]. intros s3 H3.
  bind1. eapply wp_well; [apply well_walk, lowersStmt_body; [|exact Hc]| |exact H3|].
  { apply Forall_forall. intros st _. apply well_stmt. }
  { by split. }
  intros Psi R0 R nt G s4 Hp Hx Hn H4.
  bind1. eapply (wp_step _ _ _ _ _ _ _ _ _ _ (MkSctx 0 0 [] [])); [exact H4|reflexivity|]. intros s5 H5.
  bind1. eapply wp_end; [exact H5|reflexivity|done|]. intros s6 H6.
  apply wpl_ret. split; [apply H6|]. exists Psi. unfold unitOk.
  rewrite (inv_temps _ _ _ _ _ _ _ _ H6), (inv_blocksOk _ _ _ _ _ _ _ H6), (inv_ordered _ _ _ _ _ _ _ H6), !andb_true_r.
  apply bool_decide_eq_true. eapply prefix_lookup_Some; [|exact Hp]. reflexivity.
Qed.

(** C34: Lowering a program in which no break or continue leaves a poll or a def and
    polls have positive intervals gives a well-formed one: the body and every def have
    contexts for their blocks in which each instruction finds the temporaries it reads
    (a value, an argv or a bind result), the frames and defer scopes it closes, the
    loop it advances or exits and the poll it retries, every block ends in a
    terminator (a def's epilogue in its result), and every jump enters a block of its
    own context. Apart from the next iteration of a loop and the next attempt of a
    poll, control goes forward in the order in which the blocks are published. *)
Theorem Lower_wellFormed prog p :
  forallb (closedStmt false) (progStmts prog) = true -> Lower prog = Done p -> wellFormed p.
Proof.
  intros Hc. unfold Lower. pose proof (wp_body (progStmts prog) (progSpan prog) Hc) as Hw. unfold wp in Hw.
  destruct (lowerBody _ _ _) as [[entry s]| |]; [|done|done]. intros [= <-]. destruct Hw as [Hd Hb]. by split.
Qed.
