(* ===== verification/LowerPlaced.v ===== *)
(** * Which programs the lowering accepts

    The lowering reports an error exactly for a statement where it cannot stand: an
    exit outside every loop, a return outside every def, a retry outside every poll
    and def, a def inside another body, a collecting foreach that does not end in a
    command. *)

From Stdlib Require Import ZArith Lia.
From stdpp Require Import base tactics list strings option.
From S2P Require Import Prelude Lexer Literals Ast ExprParser Ir Lower LowerTyped.

#[local] Open Scope go_scope.

(** ** Where statements may stand *)

Definition endsInCommand (body : list Stmt) : bool :=
  match head (reverse body) with Some (CommandStmt _) => true | _ => false end.

Fixpoint placed (inDef inPoll inBody inLoop : bool) (st : Stmt) : bool :=
  match st with
  | BreakStmt _ | ContinueStmt _ => inLoop
  | ReturnStmt _ _ => inDef
  | RetryStmt _ _ _ => inPoll || inDef
  | IfStmt _ then_ elifs els _ =>
    forallb (placed inDef inPoll true inLoop) then_ &&
    forallb (fun br => match br with MkIfBranch _ body _ => forallb (placed inDef inPoll true inLoop) body end) elifs &&
    forallb (placed inDef inPoll true inLoop) els
  | ForEachStmt (MkForEach _ _ body _) => forallb (placed inDef inPoll true true) body
  | BindStmt _ (BindCollect (MkForEach _ _ body _)) _ _ =>
    endsInCommand body && forallb (placed inDef inPoll inBody true) body
  | PollStmt _ _ body _ => forallb (placed inDef true true inLoop) body
  | DefStmt _ _ body _ => negb inDef && negb inBody && forallb (placed true false false false) body
  | _ => true
  end.

(** ** Actions that succeed when their statements may stand *)

Definition same (s s' : lstate) : Prop := ctx (unit_ s') = ctx (unit_ s) /\ loops (unit_ s') = loops (unit_ s).

(** The action succeeds from [s] just when [b], and then keeps the context and the
    loops. *)
Definition succeeds {A} (m : L A) (b : bool) (s : lstate) : Prop :=
  match m s with
  | Done (_, s') => b = true /\ same s s'
  | Failed _ => b = false
  | OutOfFuel => False
  end.

Definition obeys {A} (m : L A) (f : lowerCtx -> list ir.block -> bool) : Prop :=
  forall s, succeeds m (f (ctx (unit_ s)) (loops (unit_ s))) s.

Definition always {A} (m : L A) : Prop := forall s, succeeds m true s.

Lemma succeeds_seq {A C} (m : L A) (k : A -> L C) b1 b2 s :
  succeeds m b1 s -> (forall a s', same s s' -> succeeds (k a) b2 s') -> succeeds (lbind m k) (b1 && b2) s.
Proof.
  unfold succeeds, lbind. destruct (m s) as [[a s']| |]; [|by intros ->|done].
  intros [-> Hs] Hk. specialize (Hk a s' Hs). destruct (k a s') as [[c s2]| |]; [|done|done].
  destruct Hk as [-> Hs2]. split; [done|]. destruct Hs, Hs2. by split; etrans.
Qed.

Lemma always_bind {A C} (m : L A) (k : A -> L C) f :
  always m -> (forall a, obeys (k a) f) -> obeys (lbind m k) f.
Proof.
  intros Hm Hk s. apply (succeeds_seq _ _ true); [apply Hm|]. intros a s' [<- <-]. apply Hk.
Qed.

Lemma obeys_seq {A C} (m : L A) (k : A -> L C) f g :
  obeys m f -> (forall a, obeys (k a) g) -> obeys (lbind m k) (fun c l => f c l && g c l).
Proof. intros Hm Hk s. apply succeeds_seq; [apply Hm|]. intros a s' [<- <-]. apply Hk. Qed.

Lemma obeys_last {A C} (m : L A) (k : A -> L C) f :
  obeys m f -> (forall a, always (k a)) -> obeys (lbind m k) f.
Proof. intros Hm Hk s. rewrite <- (andb_true_r (f _ _)). apply succeeds_seq; [apply Hm|]. intros a s' _. apply Hk. Qed.

Lemma always_obeys {A} (m : L A) : obeys m (fun _ _ => true) -> always m.
Proof. intros H s. apply (H s). Qed.

Lemma obeys_ext {A} (m : L A) f g : (forall c l, f c l = g c l) -> obeys m f -> obeys m g.
Proof. intros Hfg H s. rewrite <- Hfg. apply H. Qed.

Lemma obeys_get {A C} (p : lowerer -> A) (k : A -> L C) f :
  (forall s, succeeds (k (p (unit_ s))) (f (ctx (unit_ s)) (loops (unit_ s))) s) -> obeys (lbind (get p) k) f.
Proof. intros H s. apply H. Qed.

Lemma always_ret {A} (a : A) : always (lret a).
Proof. done. Qed.

Lemma always_emit i : always (emit i).
Proof. done. Qed.

Lemma always_alloc : always alloc.
Proof. done. Qed.

Lemma always_setCur b : always (setCur b).
Proof. done. Qed.

Lemma always_reserve sp : always (reserveBlock sp).
Proof. done. Qed.

Lemma always_publish b : always (publishBlock b).
Proof. done. Qed.

Lemma always_new sp : always (newBlock sp).
Proof. done. Qed.

Create HintDb places.
#[local] Hint Resolve always_ret always_emit always_alloc always_setCur always_reserve always_publish always_new : places.

Lemma always_then {A C} (m : L A) (k : A -> L C) : always m -> (forall a, always (k a)) -> always (lbind m k).
Proof. intros Hm Hk s. apply (succeeds_seq _ _ true true); [apply Hm|]. intros. apply Hk. Qed.

(** A run of actions that always succeed. *)
Ltac run := repeat first [eauto with places; fail | apply always_then; [|intros ?] | progress case_match].

(** Reads [ctx] or [loops] first. *)
Lemma always_get {A C} (p : lowerer -> A) (k : A -> L C) : (forall a, always (k a)) -> always (lbind (get p) k).
Proof. intros H s. apply H. Qed.

Lemma obeys_withCtx g body f : obeys body f -> obeys (withCtx g body) (fun c l => f (g c) l).
Proof.
  intros Hb s. unfold succeeds, withCtx, lbind, get, setCtx, modify. cbn.
  specialize (Hb (MkState (defs s) (MkLowerer (g (ctx (unit_ s))) (memory (unit_ s)) (blocks (unit_ s)) (cur (unit_ s))
    (nextTemp (unit_ s)) (loops (unit_ s))))). unfold succeeds in Hb. cbn in Hb.
  destruct (body _) as [[[] s']| |]; [|done|done]. destruct Hb as [-> [_ Hl]]. cbn in Hl. by split.
Qed.

Lemma obeys_inLoop x body f : obeys body f -> obeys (inLoop x body) (fun c l => f c (x :: l)).
Proof.
  intros Hb s. unfold succeeds, inLoop, lbind, get, setLoops, modify. cbn.
  specialize (Hb (MkState (defs s) (MkLowerer (ctx (unit_ s)) (memory (unit_ s)) (blocks (unit_ s)) (cur (unit_ s))
    (nextTemp (unit_ s)) (x :: loops (unit_ s))))). unfold succeeds in Hb. cbn in Hb.
  destruct (body _) as [[[] s']| |]; [|done|done]. destruct Hb as [-> [Hc _]]. cbn in Hc. by split.
Qed.

(** ** Statements *)

(** The four facts about the context that decide. *)
Definition isSome {A} (o : option A) : bool := match o with Some _ => true | None => false end.
Definition isCons {A} (l : list A) : bool := match l with [] => false | _ => true end.

Definition placedIn (st : Stmt) (c : lowerCtx) (l : list ir.block) : bool :=
  placed (isSome (returnTo c)) (isSome (attempt c)) (nonTopLevel c) (isCons l) st.

Lemma always_command cmd : always (lowerCommandStmt cmd).
Proof. unfold lowerCommandStmt. run. Qed.

Lemma always_expr e sp : always (lowerExprStmt e sp).
Proof. unfold lowerExprStmt. run. Qed.

Lemma always_let name e sp : always (lowerLetStmt name e sp).
Proof. unfold lowerLetStmt. run. Qed.

Lemma always_destructure names e sp : always (lowerLetDestructureStmt names e sp).
Proof. unfold lowerLetDestructureStmt. run. Qed.

Lemma always_defer cmd sp : always (lowerDeferStmt cmd sp).
Proof. unfold lowerDeferStmt. run. Qed.

Lemma always_assert r clause sp : always (lowerAssertStmt r clause sp).
Proof. unfold lowerAssertStmt. run. Qed.

Lemma always_guardFail sp : always (buildGuardFailBlock sp).
Proof.
  unfold buildGuardFailBlock. apply always_get. intros saved. apply always_then; [run|]. intros fb. run.
Qed.

Lemma always_bindCmd target cmd guard sp : always (lowerBindCmd target cmd guard sp).
Proof. pose proof always_guardFail. unfold lowerBindCmd. run. Qed.

Lemma always_emitRetry message sp : always (emitRetryStmt message sp).
Proof. unfold emitRetryStmt. run. Qed.

Lemma always_exit i msg sp :
  always (emit (ir.TraceNote msg sp) ;& emit i ;& (let& b := newBlock sp in setCur b)).
Proof. run. Qed.

Lemma obeys_break sp : obeys (lowerBreakStmt sp) (fun _ l => isCons l).
Proof. apply obeys_get. intros s. destruct (loops (unit_ s)); [done|]. apply always_exit. Qed.

Lemma obeys_continue sp : obeys (lowerContinueStmt sp) (fun _ l => isCons l).
Proof. apply obeys_get. intros s. destruct (loops (unit_ s)); [done|]. apply always_exit. Qed.

Lemma obeys_return e sp : obeys (lowerReturnStmt e sp) (fun c _ => isSome (returnTo c)).
Proof.
  apply obeys_get. intros s. destruct (returnTo (ctx (unit_ s))) as [to|]; [|done]. cbn [isSome].
  assert (always (let& src := alloc in emit (ir.Eval src (lowerIRExpr e) sp) ;&
    emit (ir.ReturnValue src to true sp) ;& (let& b := newBlock sp in setCur b))) as Ha by run. apply Ha.
Qed.

Lemma obeys_retry message unless sp :
  obeys (lowerRetryStmt message unless sp) (fun c _ => isSome (attempt c) || isSome (returnTo c)).
Proof.
  apply obeys_get. intros s. pose proof (always_emitRetry message sp) as He.
  assert (bool_decide (attempt (ctx (unit_ s)) = None) && bool_decide (returnTo (ctx (unit_ s)) = None) =
          negb (isSome (attempt (ctx (unit_ s))) || isSome (returnTo (ctx (unit_ s))))) as ->
    by (destruct (attempt _), (returnTo _); reflexivity).
  destruct (isSome _ || isSome _); cbn [negb]; [|done]. destruct unless as [e|]; [|apply He].
  assert (always (let& cond := alloc in emit (ir.Eval cond (lowerIRExpr e) sp) ;&
      (let& continueBlock := newBlock sp in let& retryBlock := newBlock sp in
       emit (ir.Branch cond continueBlock retryBlock sp) ;&
       setCur retryBlock ;& emitRetryStmt message sp ;& setCur continueBlock))) as Ha by run.
  apply Ha.
Qed.

(** ** Bodies *)

Section bodies.
Context (lower : Stmt -> L unit).

(** A body whose statements all obey their own conditions. *)
Definition allPlaced (stmts : list Stmt) (c : lowerCtx) (l : list ir.block) : bool :=
  forallb (fun st => placedIn st c l) stmts.

Lemma obeys_walk stmts :
  Forall (fun st => obeys (lower st) (placedIn st)) stmts -> obeys (walk lower stmts) (allPlaced stmts).
Proof.
  induction 1 as [|st stmts Hst _ IH]; [exact (always_ret tt)|]. cbn [walk]. by apply (obeys_seq _ _ (placedIn st)).
Qed.

Lemma obeys_walkInit stmts :
  Forall (fun st => obeys (lower st) (placedIn st)) stmts -> endsInCommand stmts = true ->
  obeys (walkInit lower stmts) (allPlaced stmts).
Proof.
  induction 1 as [|st stmts Hst _ IH]; [done|]. destruct stmts as [|st2 stmts].
  - intros He. by destruct st.
  - intros He. cbn [walkInit]. apply (obeys_seq _ _ (placedIn st)); [done|]. intros _. apply IH.
    unfold endsInCommand in *. rewrite reverse_cons in He.
    destruct (reverse (st2 :: stmts)) eqn:E; [|done]. by apply (f_equal length) in E; rewrite length_reverse in E.
Qed.

Lemma obeys_branchBody blk body sp tsp merge msg :
  Forall (fun st => obeys (lower st) (placedIn st)) body ->
  obeys (lowerIfBranchBody lower blk body sp tsp merge msg) (fun c l => allPlaced body (nested c) l).
Proof.
  intros Hb. unfold lowerIfBranchBody. do 3 (apply always_bind; [run|intros _]).
  apply obeys_last; [apply obeys_withCtx; by apply obeys_walk|]. run.
Qed.

Lemma obeys_taken sp tsp cond body elifs merge msg :
  Forall (fun st => obeys (lower st) (placedIn st)) body ->
  obeys (lowerIfTaken lower sp tsp cond body elifs merge msg) (fun c l => allPlaced body (nested c) l).
Proof.
  intros Hb. unfold lowerIfTaken. do 5 (apply always_bind; [run|intros ?]).
  apply obeys_last; [by apply obeys_branchBody|]. run.
Qed.

Definition elifsPlaced (elifs : list IfBranch) (c : lowerCtx) (l : list ir.block) : bool :=
  forallb (fun br => match br with MkIfBranch _ body _ => allPlaced body c l end) elifs.

Lemma obeys_ifElse tsp els merge elifs :
  Forall (fun st => obeys (lower st) (placedIn st)) els ->
  Forall (fun br => match br with MkIfBranch _ body _ => Forall (fun st => obeys (lower st) (placedIn st)) body end) elifs ->
  forall sp next, obeys (lowerIfElse lower tsp els merge sp next elifs)
    (fun c l => elifsPlaced elifs (nested c) l && allPlaced els (nested c) l).
Proof.
  intros Hels. induction 1 as [|[cond body bsp] elifs Hb _ IH]; intros sp next; cbn [lowerIfElse].
  - destruct els as [|st els]; [|by apply obeys_branchBody].
    assert (always (setCur next ;& emit (ir.TraceNote (B "if skip") tsp) ;& emit (ir.Jump merge tsp))) as Ha by run.
    exact Ha.
  - apply always_bind; [run|intros _]. eapply obeys_ext; [|apply obeys_seq; [by apply obeys_taken|intros ?; apply IH]].
    intros c l. cbn. by rewrite andb_assoc.
Qed.

Lemma obeys_if cond then_ elifs els sp :
  Forall (fun st => obeys (lower st) (placedIn st)) then_ ->
  Forall (fun br => match br with MkIfBranch _ body _ => Forall (fun st => obeys (lower st) (placedIn st)) body end) elifs ->
  Forall (fun st => obeys (lower st) (placedIn st)) els ->
  obeys (lowerIfStmt lower cond then_ elifs els sp) (placedIn (IfStmt cond then_ elifs els sp)).
Proof.
  intros Ht He Hels. unfold lowerIfStmt, lowerIfChain. apply always_bind; [run|intros merge].
  apply (obeys_ext _ (fun c l => allPlaced then_ (nested c) l && (elifsPlaced elifs (nested c) l && allPlaced els (nested c) l))).
  { intros c l. by rewrite andb_assoc. }
  apply obeys_last; [|run]. apply obeys_seq; [by apply obeys_taken|]. intros next. by apply obeys_ifElse.
Qed.

Lemma obeys_forEach names list_ body sp :
  Forall (fun st => obeys (lower st) (placedIn st)) body ->
  obeys (lowerForEachStmt lower names list_ body sp) (placedIn (ForEachStmt (MkForEach names list_ body sp))).
Proof.
  intros Hb. unfold lowerForEachStmt. do 3 (apply always_bind; [run|intros ?]). apply always_bind; [run|intros exit].
  apply always_bind; [run|intros _].
  apply (obeys_ext _ (fun c l => allPlaced body (nested c) (exit :: l))); [done|].
  apply (obeys_inLoop _ _ (fun c l => allPlaced body (nested c) l)).
  apply always_bind; [run|intros _]. apply obeys_last; [|run]. apply obeys_withCtx. by apply obeys_walk.
Qed.

Lemma obeys_collect target names list_ body sp guard span :
  Forall (fun st => obeys (lower st) (placedIn st)) body ->
  obeys (lowerBindCollect lower target (MkForEach names list_ body sp) guard span)
    (placedIn (BindStmt target (BindCollect (MkForEach names list_ body sp)) guard span)).
Proof.
  intros Hb. unfold lowerBindCollect, placedIn. cbn [placed].
  pose proof (obeys_walkInit _ Hb) as Hi. unfold endsInCommand in *.
  destruct (head (reverse body)) as [[]|]; try done. specialize (Hi eq_refl).
  do 3 (apply always_bind; [run|intros ?]). apply always_bind; [run|intros exit].
  apply always_bind; [run|intros _].
  apply (obeys_ext _ (fun c l => allPlaced body c (exit :: l))); [done|].
  apply (obeys_inLoop _ _ (allPlaced body)).
  apply always_bind; [run|intros _]. apply obeys_last; [exact Hi|]. run.
Qed.

Lemma obeys_poll timeout every body sp :
  Forall (fun st => obeys (lower st) (placedIn st)) body ->
  obeys (lowerPollStmt lower timeout every body sp) (placedIn (PollStmt timeout every body sp)).
Proof.
  intros Hb. unfold lowerPollStmt. apply always_bind; [run|intros attempt]. apply always_bind; [run|intros timeoutBlock].
  do 2 (apply always_bind; [run|intros ?]). apply obeys_last; [|run].
  apply (obeys_ext _ (fun c l => allPlaced body (pollCtx attempt timeoutBlock c) l)); [done|].
  apply (obeys_withCtx _ _ (allPlaced body)). do 4 (apply always_bind; [run|intros ?]).
  apply obeys_last; [by apply obeys_walk|]. run.
Qed.

Lemma defBody_succeeds params body sp ds :
  Forall (fun st => obeys (lower st) (placedIn st)) body ->
  match lowerDefBody lower params body sp (MkState ds (defLowerer params)) with
  | Done _ => forallb (placed true false false false) body = true
  | Failed _ => forallb (placed true false false false) body = false
  | OutOfFuel => False
  end.
Proof.
  intros Hb. unfold lowerDefBody, lbind at 1 2. cbn [reserveBlock setCtx modify].
  match goal with |- match ?m ?s with _ => _ end =>
    assert (obeys m (allPlaced body)) as Hm; [|specialize (Hm s); unfold succeeds in Hm]
  end.
  { apply always_bind; [run|intros entry]. do 3 (apply always_bind; [run|intros ?]).
    assert (forall l i, always (bindParams i l sp)) as Hp by (induction l; intros i; cbn [bindParams]; run).
    apply always_bind; [apply Hp|intros _]. apply obeys_last; [by apply obeys_walk|]. run. }
  destruct (lbind (newBlock sp) _ _) as [[e s']| |]; [by destruct Hm|done|done].
Qed.

Lemma obeys_def name params body sp :
  Forall (fun st => obeys (lower st) (placedIn st)) body ->
  obeys (lowerDefStmt lower name params body sp) (placedIn (DefStmt name params body sp)).
Proof.
  intros Hb. apply obeys_get. intros s. unfold placedIn. cbn [placed].
  replace (negb (bool_decide (returnTo (ctx (unit_ s)) = None)) || nonTopLevel (ctx (unit_ s)))
    with (negb (negb (isSome (returnTo (ctx (unit_ s)))) && negb (nonTopLevel (ctx (unit_ s)))))
    by (destruct (returnTo _), (nonTopLevel _); reflexivity).
  destruct (negb (isSome _) && negb _); cbn [negb andb]; [|done].
  pose proof (defBody_succeeds params body sp (defs s) Hb) as Hd. unfold succeeds.
  by destruct (lowerDefBody lower params body sp _) as [[entry s']| |].
Qed.
End bodies.

Lemma obeys_stmt st : obeys (lowerStmt st) (placedIn st).
Proof.
  induction st using stmt_ind'.
  - destruct st as [| |? [] | | | | | | | | | | | |]; try contradiction; cbn [lowerStmt].
    + apply always_let.
    + apply always_destructure.
    + apply always_bindCmd.
    + apply always_defer.
    + apply always_command.
    + apply always_expr.
    + apply obeys_break.
    + apply obeys_continue.
    + apply obeys_retry.
    + apply always_assert.
    + apply obeys_return.
  - by apply obeys_if.
  - destruct fe. by apply obeys_forEach.
  - destruct fe. by apply obeys_collect.
  - by apply obeys_poll.
  - by apply obeys_def.
Qed.

(** C35: The lowering succeeds exactly on the programs in which every break and
    continue stands in a foreach, every return in a def, every retry in a poll or a
    def, every def at top level (or directly in the body of collecting foreachs
    there) and every collecting foreach ends in a command; on all others it reports
    an error. *)
Theorem Lower_accepts prog :
  if forallb (placed false false false false) (progStmts prog)
  then exists p, Lower prog = Done p
  else exists e, Lower prog = Failed e.
Proof.
  assert (obeys (lowerBody (progStmts prog) (progSpan prog)) (allPlaced (progStmts prog))) as Hb.
  { unfold lowerBody. do 3 (apply always_bind; [run|intros ?]). apply obeys_last; [|run].
    apply obeys_walk. apply Forall_forall. intros st _. apply obeys_stmt. }
  specialize (Hb (MkState [] programLowerer)). unfold succeeds in Hb.
  change (allPlaced _ _ _) with (forallb (placed false false false false) (progStmts prog)) in Hb.
  unfold Lower. destruct (lowerBody _ _ _) as [[body s]|e|]; [| |done].
  - destruct Hb as [-> _]. by eexists.
  - rewrite Hb. by eexists.
Qed.
