(* ===== verification/ShellScenarios.v ===== *)
(** * Scripts through the shell language

    Concrete scripts through the tokeniser, the parser, the formatter and the
    lowering, on which the theorems about them are run, and what these make of
    sources that their comments do not expect. *)

From Stdlib Require Import ZArith Lia Ascii.
From stdpp Require Import base tactics list strings option.
From S2P Require Import Prelude Lexer LexerPos LexerCover LexerReturns LexerPrint Literals Ast ExprParser StmtParser StmtReturns.
From S2P Require Import SourceFmt Format PrintPieces PrintStrings PrintExpr PrintParse Ir Lower IrTyping LowerLogic LowerTyped LowerPlaced.

(** ** The tokeniser

    A script with comments, references, strings and operators. *)

Definition ofString (s : string) : bytes := String.list_ascii_of_string s.

Definition start1 : Pos := MkPos "demo.bpfman" 0 0.

(** The second line holds an interpolated string with two literal segments. *)
Definition script : bytes :=
  ofString "let r <- bpfman get ${prog.maps[0].id} # it's here
 echo " ++ [dquote] ++ ofString "id ${$r.id + 1}\t#" ++ [dquote] ++ ofString " 'a # b' \
  file:$p[$i].path |> x=1; y == [2]
".

Definition tokens_of (o : outcome SyntaxError (list Token)) : list Token :=
  match o with Done l => l | _ => [] end.

Lemma script_tokens :
  tokeniseAt 200 start1 script = Done (tokens_of (tokeniseAt 200 start1 script)).
Proof. vm_compute. reflexivity. Qed.

(** What the tokens are: kinds, texts, and the lines and columns they start at. *)
Example script_reads :
  map (fun t => (tokKind t, String.string_of_list_ascii (tokText t), Line (Start (tokSpan t)),
                 Col (Start (tokSpan t))))
    (take 6 (drop 4 (tokens_of (tokeniseAt 200 start1 script)))) =
  [(TokenWord, "get", 1, 17); (TokenVarRef, "${prog.maps[0].id}", 1, 21);
   (TokenSep, String.String newline "", 1, 51); (TokenWord, "echo", 2, 2);
   (TokenInterpString, String.String dquote ("id ${$r.id + 1}\t#" +:+ String.String dquote ""), 2, 7);
   (TokenQuoted, "a # b", 2, 28)]%Z.
Proof. vm_compute. reflexivity. Qed.

Lemma tokens_tile_input_witness :
  exists toks, tokeniseAt 200 start1 script = Done toks /\ length toks = 20 /\
  Forall2 covers script (stripComment script) /\
  (forall off, posOf (normalizeStartPos start1) (stripComment script) off =
               posOf (normalizeStartPos start1) script off) /\
  (blank (stripComment script) = true /\ toks = [] \/
   tiles (normalizeStartPos start1) (stripComment script) 0 toks).
Proof.
  exists (tokens_of (tokeniseAt 200 start1 script)). split; [exact script_tokens|].
  split; [vm_compute; reflexivity|].
  exact (tokens_tile_input 200 start1 script _ script_tokens).
Defined.

Lemma tokenise_returns_witness :
  plainBodies (stripComment script) = true /\
  exists r, r <> OutOfFuel /\
  forall fuel, length script < fuel -> tokeniseAt fuel start1 script = r.
Proof.
  assert (plainBodies (stripComment script) = true) as H by (vm_compute; reflexivity).
  split; [exact H|]. exact (tokenise_returns start1 script H).
Defined.

(** A text with every kind of character that is special to the lexer, and an
    e-acute in its two bytes. *)
Definition text1 : bytes :=
  ofString "it's $5 # \ " ++ [dquote; newline; "195"%char; "169"%char; lbrace].

Lemma quoted_literal_roundtrip_witness :
  validUTF8 text1 = true /\
  tokeniseAt 2 start1 (writeQuotedLiteralSource text1) =
  Done [stamp (plainToken TokenQuoted text1)
          (spanOf (normalizeStartPos start1) (writeQuotedLiteralSource text1) 0
             (length (writeQuotedLiteralSource text1)))].
Proof.
  assert (validUTF8 text1 = true) as H by (vm_compute; reflexivity).
  split; [exact H|]. exact (quoted_literal_roundtrip 2 start1 text1 H (le_n 2)).
Defined.

(** ** The parser

    A script with most of the statements and expressions of the language. The letter
    and digit tables beyond ASCII are taken to be empty. *)

Definition asciiOnly : Unicode := {| letterBeyondASCII := fun _ => false; digitBeyondASCII := fun _ => false |}.

Definition program1 : bytes :=
  ofString "def check(id want: number) {
  guard p <- bpfman get $id
  if $p.record.id == $want and not ($p.tags |> jq .n > 2) { assert ok bpfman ls }
  elif not-empty $p { retry 'later' unless $p.ready }
  else { return record {id: $id ok: [1 -2 $id]} }
}
foreach (a _) in zip $xs [1 2] { defer echo " ++ [dquote] ++ ofString "${a} ${2 * $a.n}" ++ [dquote] ++ ofString " }
poll timeout 1m0.5s every 100ms { require $r matches exhaustive {
  name: not-empty
  sub: matches { x[0].y: 1 + 2 }
} }
".

Definition run1 : outcome perror Program := @parseScript asciiOnly 1000 start1 program1.

Definition kindOf (st : Stmt) : string :=
  match st with
  | DefStmt _ _ _ _ => "def" | ForEachStmt _ => "foreach" | PollStmt _ _ _ _ => "poll" | _ => "other"
  end.

(** It parses, to three statements with 58 nodes; the poll's durations are in
    nanoseconds. *)
Example program1_parses :
  match run1 with
  | Done prog =>
    map kindOf (progStmts prog) = ["def"; "foreach"; "poll"]%string /\ length (walkProgram prog) = 58 /\
    match progStmts prog with
    | [_; _; PollStmt timeout every _ _] => timeout = 60500000000%Z /\ every = 100000000%Z
    | _ => False
    end
  | _ => False
  end.
Proof. vm_compute. auto. Qed.

Lemma script_parse_returns_witness :
  plainBodies (stripComment program1) = true /\
  exists r, r <> OutOfFuel /\
  forall fuel, length program1 < fuel -> @parseScript asciiOnly fuel start1 program1 = r.
Proof.
  assert (plainBodies (stripComment program1) = true) as H by (vm_compute; reflexivity).
  split; [exact H|]. exact (script_parse_returns (H := asciiOnly) start1 program1 H).
Defined.

Lemma program1_tokens :
  tokeniseAt 1000 start1 program1 = Done (tokens_of (tokeniseAt 1000 start1 program1)).
Proof. vm_compute. reflexivity. Qed.

Lemma script_spans_complete_witness :
  exists tokens, tokeniseAt 1000 start1 program1 = Done tokens /\ length tokens = 114 /\
  @Parse asciiOnly tokens = @parseProgram asciiOnly tokens /\
  forall prog, @Parse asciiOnly tokens = Done prog ->
    Forall (fun s => (0 < Line (Start s) /\ 0 < Col (Start s) /\ 0 < Line (End_ s) /\ 0 < Col (End_ s))%Z)
      (walkProgram prog).
Proof.
  assert (plainBodies (stripComment program1) = true) as H by (vm_compute; reflexivity).
  exists (tokens_of (tokeniseAt 1000 start1 program1)). split; [exact program1_tokens|].
  split; [vm_compute; reflexivity|].
  exact (script_spans_complete (H := asciiOnly) 1000 start1 program1 _ H program1_tokens).
Defined.

(** A null literal before a closing bracket takes the bracket for its argument. *)
Definition messageOfRun (src : string) : option error :=
  match @parseScript asciiOnly 1000 start1 (ofString src) with
  | Failed e => Some (messageOf e)
  | _ => None
  end.

Example null_takes_the_bracket :
  messageOfRun "let x = [1 null]" = Some (Errorf "missing ']' to close list literal") /\
  messageOfRun "let x = (null)" = Some (Errorf "missing ')' to close parenthesised expression") /\
  messageOfRun "let x = record {a: null}" = Some (Errorf "missing '}' to close record literal") /\
  messageOfRun "let x = null" = None.
Proof. vm_compute. auto. Qed.

(** ** The formatter of expressions

    An expression with every kind of node through the formatter and back. *)

Definition at0 : Span := zeroSpan.
Definition lit (s : string) : Expr := LiteralExpr (ofString s) false at0.
Definition ref (s p : string) : Expr := VarRefExpr (ofString s) (ofString p) at0.

Definition expression1 : Expr :=
  LogicalExpr (B "or")
    (NotExpr (MatchesExpr (ref "r" "items[0].id")
      (MkMatchesBlock
        [MatchPredicate (B "name") (B "not-empty") at0;
         MatchSubBlock (B "sub") (MkMatchesBlock
           [MatchPattern (B "x") (BinaryExpr (lit "1") (B "+") (NegateExpr (ref "n" "") at0) at0) at0] true at0) at0;
         MatchPattern (B "y") (PureCallExpr (B "zip") [lit "null"; ListExpr [lit "1"; lit "-2.5"] at0] at0) at0]
        false at0) at0) at0)
    (BinaryExpr
      (ThreadExpr (PureCallExpr (B "jq") [LiteralExpr (B ".a b") true at0; NotExpr (ref "x" "") at0] at0)
        [lit "jq"; AdapterExpr (B "file") (B "p") [] at0;
         InterpStringExpr [SegLiteral (B "a$"); SegExpr (ref "v" "w")] at0] (Start at0) at0)
      (B "<=")
      (RecordExpr [MkRecordField (B "a") (UnaryExpr (B "not-empty") (ref "y" "") at0) at0;
                   MkRecordField (B "b") (ListExpr [] at0) at0] at0) at0) at0.

Example expression1_source :
  FormatExprSource expression1 =
  ofString "(not ($r.items[0].id matches { name: not-empty
 sub: matches exhaustive { x: 1 + (-$n) }
 y: zip null [1 -2.5] })) or ((jq " ++ [dquote] ++ ofString ".a b" ++ [dquote] ++
  ofString " (not $x) |> jq file:$p " ++ [dquote] ++ ofString "a\$${v.w}" ++ [dquote] ++
  ofString ") <= record {a: (not-empty $y) b: []})".
Proof. vm_compute. reflexivity. Qed.

Lemma FormatExprSource_reads_back_witness :
  @printable asciiOnly expression1 = true /\
  exists tokens e',
    Tokenise (S (length (FormatExprSource expression1))) (FormatExprSource expression1) = Done tokens /\
    @parseExpression asciiOnly tokens = Done e' /\
    eraseExpr e' = eraseExpr expression1 /\ FormatExprSource e' = FormatExprSource expression1.
Proof.
  assert (@printable asciiOnly expression1 = true) as H by (vm_compute; reflexivity).
  split; [exact H|]. exact (FormatExprSource_reads_back (H := asciiOnly) expression1 H).
Defined.

Example empty_block :
  FormatExprSource (MatchesExpr (ref "x" "") (MkMatchesBlock [] false at0) at0) = ofString "$x matches {}".
Proof. vm_compute. reflexivity. Qed.

(** ** The formatter of scripts *)

Definition formatted (src : string) : option string :=
  match @parseScript asciiOnly (S (String.length src)) start1 (ofString src) with
  | Done prog => Some (String.string_of_list_ascii (FormatSource (ofString src) prog))
  | _ => None
  end.

Example format_script :
  formatted "let  x = 1 # one

if $x == 1 { # two
  a   b \
 d
# three
}
poll timeout 90s every 1500ms { let r <- x ; y (1 + 2) }
" = Some "let x = 1 # one

if $x == 1 { # two
    a b \
        d
# three
}
poll timeout 1m30s every 1.5s {
    let r <- x
    y (1 + 2)
}
"%string.
Proof. vm_compute. reflexivity. Qed.

(** A comment between [else] and the first statement after it is dropped: the line
    of [else] is taken to be the one before that statement. *)
Example else_comment_dropped :
  formatted "if $a {
    b
} else {
    # note
    c
}
" = Some "if $a {
    b
} else {
    c
}
"%string.
Proof. vm_compute. reflexivity. Qed.

(** The comment on the line that opens a list of several lines is dropped, and so is
    one between a closing brace and [elif]. *)
Example opening_comment_dropped :
  formatted "let xs = [ # first
  1 # one
  2 ] # two
if $a { b
} # u
elif $c { d
}
" = Some "# one
let xs = [1 2] # two
if $a {
    b
} elif $c {
    d
}
"%string.
Proof. vm_compute. reflexivity. Qed.

(** The comment of a line with two statements is written after each of them. *)
Example shared_comment_repeated :
  formatted "a; b # c
" = Some "a # c
b # c
"%string.
Proof. vm_compute. reflexivity. Qed.

(** Formatting changes what is written: a negation before a word is glued to it, and
    the parentheses put around a null test keep it from being parsed again. *)
Example negation_glued :
  formatted "let x = - 5
let y = - -3
" = Some "let x = -5
let y = --3
"%string.
Proof. vm_compute. reflexivity. Qed.

Example null_test_unreadable :
  formatted "assert $x == null and $y
" = Some "assert ($x == null) and $y
"%string /\
  formatted "assert ($x == null) and $y
" = None.
Proof. vm_compute. auto. Qed.

(** ** The lowering

    A script with every statement that has a body, from its source to the blocks,
    and what the lowering accepts that its comments refuse. *)

Definition script1 : bytes := ofString "def ready(id want: number) {
  guard p <- bpfman get $id
  defer bpfman release $id
  if $p.n == $want { return $p.record }
  elif not $p.up { retry 'down' }
  poll timeout 1s every 10ms { guard q <- bpfman get $p.id
    retry 'more' unless $q.done
    if $q.bad { return $q } }
  foreach a in $p.links { if $a.up { continue } else { break } }
}
foreach (a b) in zip $xs $ys {
  let r <- ready $a 3
  poll timeout 1m every 1s { foreach c in $r { if $c == 1 { break }
    retry unless $c.ok } }
}
guard all <- foreach a in $xs { if $a == 2 { continue }
  bpfman get $a }
let s <- bpfman list
require $s.ok
".

Definition parsed (src : bytes) : Program :=
  match @parseScript asciiOnly 2000 start1 src with
  | Done prog => prog
  | _ => MkProgram [] zeroSpan
  end.

Definition lowered (src : bytes) : ir.Program :=
  match Lower (parsed src) with
  | Done p => p
  | _ => ir.MkProgram [] 0 [] 0 [] zeroSpan
  end.

(** The blocks of the body and of the def, and the temporaries they use. *)
Example script1_blocks :
  (length (ir.prMemory (lowered script1)), ir.prNumTemps (lowered script1),
   map (fun d => (length (ir.dfMemory d), ir.dfNumTemps d)) (ir.prDefs (lowered script1))) = (21, 12, [(28, 17)]).
Proof. vm_compute. reflexivity. Qed.

Lemma Lower_wellFormed_witness :
  forallb (closedStmt false) (progStmts (parsed script1)) = true /\
  Lower (parsed script1) = Done (lowered script1) /\ wellFormed (lowered script1).
Proof.
  assert (forallb (closedStmt false) (progStmts (parsed script1)) = true) as Hc by (vm_compute; reflexivity).
  assert (Lower (parsed script1) = Done (lowered script1)) as Hl by (vm_compute; reflexivity).
  split; [exact Hc|]. split; [exact Hl|]. exact (Lower_wellFormed _ _ Hc Hl).
Defined.

(** A def in the body of a collecting foreach is lowered, and one in a foreach is
    not. *)
Example nested_defs :
  (map ir.dfName (ir.prDefs (lowered (ofString "guard r <- foreach a in [1] { def f() { print 1 }
    bpfman get $a }"))),
   match Lower (parsed (ofString "foreach a in [1] { def f() { print 1 }
    bpfman get $a }")) with Failed _ => true | _ => false end) = ([ofString "f"], true).
Proof. vm_compute. reflexivity. Qed.

(** What may stand where: the script above, an exit of a loop across a poll, and a
    retry in an if of the program. *)
Example placements :
  (map (fun src => forallb (placed false false false false) (progStmts (parsed src)))
     [script1; ofString "foreach a in [1] { poll timeout 1s every 1s { break } }";
      ofString "if 1 == 1 { retry }"],
   forallb (closedStmt false) (progStmts (parsed (ofString "foreach a in [1] { poll timeout 1s every 1s { break } }"))))
  = ([true; true; false], false).
Proof. vm_compute. reflexivity. Qed.
