(* ===== verification/Floats.v ===== *)
(** * Numbers of the shell: binary64 and decimal text

    What the runtime of the shell uses of Go's standard library for numbers:
    strconv.ParseFloat and FormatFloat(x, 'f', -1, 64), the operations of float64
    and math.Mod, on the floats of [SpecFloat]; big.Int is [Z]. *)

From Stdlib Require Import ZArith Lia Ascii SpecFloat.
From stdpp Require Import base tactics list strings option.
From S2P Require Import Prelude Lexer Literals.

#[local] Open Scope Z_scope.

Definition fadd : float -> float -> float := SFadd 53 1024.
Definition fsub : float -> float -> float := SFsub 53 1024.

(** ** Decimal text to binary64

    [num / den], correctly rounded: the quotient is computed to more than 64 bits,
    and an inexact one is made odd. *)
Definition quotient (num den : Z) : float :=
  let k := Z.max 0 (66 + Z.log2 den - Z.log2 num) in
  let q := Z.shiftl num k / den in
  let sticky := if Z.shiftl num k mod den =? 0 then 0 else 1 in
  binary_normalize 53 1024 (2 * q + sticky) (- (k + 1)) false.

(** [m * 10^e] *)
Definition ofDecimal (m e : Z) : float :=
  if m =? 0 then S754_zero false
  else if 0 <=? e then ofZ (m * 10 ^ e) else quotient m (10 ^ (- e)).

(** strconv.ParseFloat on the text of a JSON number; [None] is the range error. *)
Definition ParseFloat (text : bytes) : option float :=
  match jsonNumber text with
  | None => None
  | Some (neg, int, frac, e) =>
    if finiteFloat int frac e then
      let f := ofDecimal (decimal (int ++ frac)) (e - Z.of_nat (length frac)) in
      Some (if neg : bool then SFopp f else f)
    else None
  end.

(** ** binary64 to decimal text *)

(** The decimal digits of a natural number, as many as it has. *)
Definition digits (n : Z) : bytes := fmtInt_from (S (Z.to_nat (Z.log2 n))) n [].

Definition Itoa (n : Z) : bytes := if n <? 0 then "-"%char :: digits (- n) else digits n.

(** [10^d <= m * 2^e < 10^(d+1)], searched from an estimate. *)
Fixpoint magnitude (fuel : nat) (num den d : Z) : Z :=
  match fuel with
  | O => d
  | S fuel' =>
    let above := if 0 <=? d then num <? den * 10 ^ d else num * 10 ^ (- d) <? den in
    if above then magnitude fuel' num den (d - 1) else d
  end.

(** The multiples of [10^p] at and above the value; the nearer first. *)
Definition candidates (num den p : Z) : list Z :=
  let '(n, d) := if 0 <=? p then (num, den * 10 ^ p) else (num * 10 ^ (- p), den) in
  let q := n / d in
  let r := n mod d in
  if (2 * r <? d) || ((2 * r =? d) && Z.even q) then [q; q + 1] else [q + 1; q].

(** The least number of digits that reads back as the float: [digits * 10^p]. *)
Fixpoint shortest (fuel : nat) (f : float) (num den p : Z) : Z * Z :=
  match fuel with
  | O => (num, 0)
  | S fuel' =>
    match List.find (fun m => match SFcompare (ofDecimal m p) f with Some Eq => true | _ => false end)
            (candidates num den p) with
    | Some m => (m, p)
    | None => shortest fuel' f num den (p - 1)
    end
  end.

(** A positive finite float as [num / den]. *)
Definition ratio (m : positive) (e : Z) : Z * Z :=
  if 0 <=? e then (Zpos m * 2 ^ e, 1) else (Zpos m, 2 ^ (- e)).

(** Digits with a decimal point, without an exponent. *)
Definition plainDecimal (m p : Z) : bytes :=
  if 0 <=? p then digits m ++ repeat "0"%char (Z.to_nat p)
  else
    let k := Z.to_nat (- p) in
    let s := digits m in
    let s := repeat "0"%char (S k - length s) ++ s in
    take (length s - k) s ++ "."%char :: drop (length s - k) s.

(** A shortest decimal has no trailing zero after its point. *)
Definition shortestDecimal (m : positive) (e : Z) : Z * Z :=
  let '(num, den) := ratio m e in
  let top := magnitude 700 num den ((Z.log2 num - Z.log2 den + 4) * 3 / 10 + 2) in
  shortest 20 (S754_finite false m e) num den top.

(** strconv.FormatFloat(x, 'f', -1, 64) *)
Definition FormatFloat (f : float) : bytes :=
  let sign s := if (s : bool) then B "-" else [] in
  match f with
  | S754_zero s => sign s ++ B "0"
  | S754_infinity s => (if s then B "-" else B "+") ++ B "Inf"
  | S754_nan => B "NaN"
  | S754_finite s m e => let '(d, p) := shortestDecimal m e in sign s ++ plainDecimal d p
  end.

Definition isInf (f : float) : bool := match f with S754_infinity _ => true | _ => false end.
Definition isNaN (f : float) : bool := match f with S754_nan => true | _ => false end.
Definition isZero (f : float) : bool := match f with S754_zero _ => true | _ => false end.

(** math.Mod of finite floats, exactly: the sign is the dividend's. *)
Definition fmod (x y : float) : float :=
  match x, y with
  | S754_finite s m e, S754_finite _ n k =>
    let lo := Z.min e k in
    let r := (Zpos m * 2 ^ (e - lo)) mod (Zpos n * 2 ^ (k - lo)) in
    if r =? 0 then S754_zero s
    else let f := binary_normalize 53 1024 r lo false in if s then SFopp f else f
  | S754_zero s, S754_finite _ _ _ => x
  | _, S754_infinity _ => match x with S754_nan => x | S754_infinity _ => S754_nan | _ => x end
  | _, _ => S754_nan
  end.

(** math.Trunc(x) == x, and the integer. *)
Definition integralFloat (f : float) : option Z :=
  match f with
  | S754_zero _ => Some 0
  | S754_finite s m e =>
    let '(num, den) := ratio m e in
    if num mod den =? 0 then Some (if s then - (num / den) else num / den) else None
  | _ => None
  end.

(** big.Float.Float64 of an integer. *)
Definition floatOfInt (z : Z) : float := ofZ z.

Example float_texts :
  map (fun t => match ParseFloat (B t) with Some f => FormatFloat f | None => [] end)
    ["0.1"; "1e21"; "-2.50"; "123456789012345678901234567890"; "5e-324"; "0.30000000000000004"; "1e400";
     "9007199254740993"; "2.2250738585072014e-308"; "100"]%string =
  [B "0.1"; B "1000000000000000000000"; B "-2.5"; B "123456789012345680000000000000"; 
   B "0." ++ repeat "0"%char 323 ++ B "5"; B "0.30000000000000004"; []; B "9007199254740992";
   B "0." ++ repeat "0"%char 307 ++ B "22250738585072014"; B "100"].
Proof. vm_compute. reflexivity. Qed.
