(* ===== verification/Value.v ===== *)
(** * Values of the shell

    runtime/value.go, envelope.go: the dynamic tree of a value, the Go
    value it came from, its kind; path look-ups; result envelopes; rendering. From
    semantics/: the kinds (origin.go) and the walk through an origin (typekind.go),
    where reflection on the types of other packages is a parameter, the class
    [Foreign]. A Go map is the list of its entries in the order of its keys. *)

From Stdlib Require Import ZArith Lia Ascii SpecFloat.
From stdpp Require Import base tactics list strings option.
From S2P Require Import Prelude Lexer Suggest Literals Floats.

#[local] Open Scope go_scope.

(** ** Kinds (origin.go) *)

Inductive OriginKind :=
| OriginUnknown | OriginScalar | OriginBool | OriginProgram | OriginLink | OriginDispatcher | OriginMap
| OriginEnvelope | OriginJob | OriginNull | OriginNetPair | OriginKfunc | OriginNetnsVethPair
| OriginNetnsVethEndpoint | OriginLinkInfo | OriginProgInfo.

#[export] Instance OriginKind_eq_dec : EqDecision OriginKind.
Proof. solve_decision. Defined.

Definition kindString (k : OriginKind) : bytes :=
  match k with
  | OriginUnknown => B "unknown"
  | OriginScalar => B "scalar"
  | OriginBool => B "boolean"
  | OriginProgram => B "program"
  | OriginLink => B "link"
  | OriginDispatcher => B "dispatcher"
  | OriginMap => B "map"
  | OriginEnvelope => B "result"
  | OriginJob => B "job"
  | OriginNull => B "null"
  | OriginNetPair => B "net pair"
  | OriginKfunc => B "kernel function"
  | OriginNetnsVethPair => B "netns-veth-pair"
  | OriginNetnsVethEndpoint => B "netns-veth-pair endpoint"
  | OriginLinkInfo => B "link info"
  | OriginProgInfo => B "program info"
  end.

(** ** Dynamic trees *)

Inductive raw :=
| RNil
| RString (s : bytes)
| RNumber (text : bytes)     (* json.Number *)
| RFloat (f : float)
| RBool (b : bool)
| RList (l : list raw)
| RMap (m : list (bytes * raw)).

(** The order of Go strings, by byte. *)
Fixpoint bytes_lt (a b : bytes) : bool :=
  match a, b with
  | _, [] => false
  | [], _ :: _ => true
  | x :: a, y :: b =>
    if (x =? y)%char then bytes_lt a b else (N_of_ascii x <? N_of_ascii y)%N
  end.

(** [m[k]] *)
Fixpoint mapGet {A} (k : bytes) (m : list (bytes * A)) : option A :=
  match m with
  | [] => None
  | (k', a) :: m => if bool_decide (k = k') then Some a else mapGet k m
  end.

(** [m[k] = a] *)
Fixpoint mapSet {A} (k : bytes) (a : A) (m : list (bytes * A)) : list (bytes * A) :=
  match m with
  | [] => [(k, a)]
  | (k', a') :: m' =>
    if bool_decide (k = k') then (k, a) :: m'
    else if bytes_lt k k' then (k, a) :: m else (k', a') :: mapSet k a m'
  end.

(** ** Envelopes *)

Record Envelope := MkEnvelope {
  ExitCode : Z; Stdout : bytes; Stderr : bytes; Killed : bool; Signal : bytes; HasPID : bool; PID : Z
}.

Definition OK (e : Envelope) : bool := (ExitCode e =? 0)%Z.

Definition OkEnvelope : Envelope := MkEnvelope 0 [] [] false [] false 0.
Definition FailEnvelope : Envelope := MkEnvelope 1 [] [] false [] false 0.

(** ** Origins *)

(** Go values of other packages, their fields and their kinds. *)
Class Foreign := {
  foreign : Type;
  (* walkOrigin by one step *)
  foreignStep : foreign -> PathStep -> option foreign;
  foreignKind : foreign -> OriginKind
}.

Section values.
Context `{Foreign}.

(** A non-nil [any]: a list of origins, an envelope, an outcomeOrigin, one of the
    basic values an envelope holds, or a value of another package. *)
Inductive origin :=
| OList (l : list (option origin))
| OEnvelope (e : Envelope)
| OOutcome (value : option origin)
| OBasic (x : raw)
| OForeign (x : foreign).

Definition numFromInt (n : Z) : raw := RNumber (Itoa n).

(** WalkSuborigin by the single step that value.go passes. *)
Definition WalkSuborigin (o : origin) (step : PathStep) : option (origin * OriginKind) :=
  match o with
  | OList l =>
    if psIsIndex step && (0 <=? psIndex step)%Z then
      match l !! Z.to_nat (psIndex step) with
      | Some (Some o') => Some (o', match o' with OForeign x => foreignKind x | _ => OriginUnknown end)
      | _ => None
      end
    else None
  | OEnvelope e =>
    if psIsIndex step then None
    else
      let f := psField step in
      if bool_decide (f = B "ExitCode") then Some (OBasic (numFromInt (ExitCode e)), OriginUnknown)
      else if bool_decide (f = B "Stdout") then Some (OBasic (RString (Stdout e)), OriginUnknown)
      else if bool_decide (f = B "Stderr") then Some (OBasic (RString (Stderr e)), OriginUnknown)
      else if bool_decide (f = B "Killed") then Some (OBasic (RBool (Killed e)), OriginUnknown)
      else if bool_decide (f = B "Signal") then Some (OBasic (RString (Signal e)), OriginUnknown)
      else if bool_decide (f = B "HasPID") then Some (OBasic (RBool (HasPID e)), OriginUnknown)
      else if bool_decide (f = B "PID") then Some (OBasic (numFromInt (PID e)), OriginUnknown)
      else None
  | OOutcome v =>
    if psIsIndex step then None
    else if bool_decide (psField step = B "value") then
      match v with
      | Some o' => Some (o', match o' with OForeign x => foreignKind x | _ => OriginUnknown end)
      | None => None
      end
    else None
  | OBasic _ => None
  | OForeign x =>
    match foreignStep x step with
    | Some y => Some (OForeign y, foreignKind y)
    | None => None
    end
  end.

(** ** Values *)

Inductive Value :=
| MkValue (v : raw) (o : option origin) (k : OriginKind) (recordFields : option (list (bytes * Value))).

Definition Raw (v : Value) : raw := match v with MkValue r _ _ _ => r end.
Definition Origin (v : Value) : option origin := match v with MkValue _ o _ _ => o end.
Definition Kind (v : Value) : OriginKind := match v with MkValue _ _ k _ => k end.
Definition recordFields (v : Value) : option (list (bytes * Value)) := match v with MkValue _ _ _ f => f end.

Definition WithKind (v : Value) (k : OriginKind) : Value := MkValue (Raw v) (Origin v) k (recordFields v).
Definition withOrigin (v : Value) (o : option origin) (k : OriginKind) : Value := MkValue (Raw v) o k (recordFields v).

Definition absent : Value := MkValue RNil None OriginUnknown None.
Definition ValueFromAny (x : raw) : Value := MkValue x None OriginUnknown None.
Definition StringValue (s : bytes) : Value := MkValue (RString s) None OriginScalar None.
Definition BoolValue (b : bool) : Value := MkValue (RBool b) None OriginBool None.
Definition NullValue : Value := MkValue RNil None OriginNull None.

(** A record from its fields; a later field of a name replaces an earlier one. *)
Definition ValueFromRecord (fields : list (bytes * Value)) : Value :=
  let copied := foldl (fun m f => mapSet f.1 f.2 m) [] fields in
  MkValue (RMap (map (fun f => (f.1, Raw f.2)) copied)) None OriginUnknown (Some copied).

Definition isRNil (r : raw) : bool := match r with RNil => true | _ => false end.

Definition IsNil (v : Value) : bool := isRNil (Raw v) && negb (bool_decide (Kind v = OriginNull)).
Definition IsNull (v : Value) : bool := bool_decide (Kind v = OriginNull).
Definition IsScalar (v : Value) : bool :=
  IsNull v || match Raw v with RString _ | RNumber _ | RFloat _ | RBool _ => true | _ => false end.
Definition IsStructured (v : Value) : bool := match Raw v with RMap _ | RList _ => true | _ => false end.

Definition boolText (b : bool) : bytes := if b then B "true" else B "false".

(** [Scalar]; the error is its text. *)
Definition Scalar (v : Value) : outcome error bytes :=
  if IsNull v then Done (B "null")
  else match Raw v with
  | RString s => Done s
  | RNumber t => Done t
  | RFloat f => Done (FormatFloat f)
  | RBool b => Done (boolText b)
  | RNil => Failed (Errorf "value is null")
  | RList _ | RMap _ => Failed (Errorf "value is not a scalar")
  end.

(** ** Paths *)

Definition indexStep (i : Z) : PathStep := MkPathStep [] i true.

Definition withSuborigin (v : Value) (out : Value) (step : PathStep) : Value :=
  match Origin v with
  | None => out
  | Some o => match WalkSuborigin o step with
              | Some (o', k) => withOrigin out (Some o') k
              | None => out
              end
  end.

Definition IndexValue (v : Value) (i : Z) : Value :=
  match Raw v with
  | RList l =>
    if (i <? 0)%Z then absent
    else match l !! Z.to_nat i with
         | Some x => withSuborigin v (MkValue x None OriginUnknown None) (indexStep i)
         | None => absent
         end
  | _ => absent
  end.

(** ErrFieldMissing is the only error that callers look for. *)
Inductive pathError := FieldMissing | PathError (e : error).

Definition stepValue (v : Value) (step : PathStep) : outcome pathError Value :=
  if psIsIndex step then
    match Raw v with
    | RList l =>
      if (psIndex step <? 0)%Z || (Z.of_nat (length l) <=? psIndex step)%Z
      then Failed (PathError (Errorf "index %d out of range for variable %s (length %d)"))
      else Done (IndexValue v (psIndex step))
    | _ => Failed (PathError (Errorf "cannot index non-array in variable %s"))
    end
  else match recordFields v with
  | Some fields =>
    match mapGet (psField step) fields with
    | Some f => Done f
    | None => Failed FieldMissing
    end
  | None =>
    match Raw v with
    | RMap m =>
      match mapGet (psField step) m with
      | Some r =>
        Done (withSuborigin v (MkValue r None (if isRNil r then OriginNull else OriginUnknown) None) step)
      | None => Failed FieldMissing
      end
    | RNil => Failed (PathError (Errorf "variable %s is null"))
    | _ => Failed (PathError (Errorf "cannot access field %s on non-object in variable %s"))
    end
  end.

Fixpoint walkSteps (v : Value) (steps : list PathStep) : outcome pathError Value :=
  match steps with
  | [] => Done v
  | step :: steps => let? v' := stepValue v step in walkSteps v' steps
  end.

Definition lookupPath (v : Value) (path : bytes) : outcome pathError Value :=
  match path with
  | [] => Done v
  | _ => match ParsePath path with
         | Done steps => walkSteps v steps
         | Failed e => Failed (PathError e)
         | OutOfFuel => OutOfFuel
         end
  end.

Definition LookupValue (v : Value) (path : bytes) : outcome pathError Value := lookupPath v path.

Inductive Presence := Missing | PresentNull (v : Value) | Present (v : Value).

Definition presenceValue (p : Presence) : Value :=
  match p with Missing => absent | PresentNull v | Present v => v end.

Definition LookupPresence (v : Value) (path : bytes) : outcome error Presence :=
  match lookupPath v path with
  | Done current => Done (if IsNil current || IsNull current then PresentNull current else Present current)
  | Failed FieldMissing => Done Missing
  | Failed (PathError e) => Failed e
  | OutOfFuel => OutOfFuel
  end.

(** ** Envelopes as values *)

Definition mirror (e : Envelope) : list (bytes * raw) :=
  foldl (fun m f => mapSet f.1 f.2 m) []
    ([(B "ok", RBool (OK e)); (B "exit_code", numFromInt (ExitCode e)); (B "stdout", RString (Stdout e));
      (B "stderr", RString (Stderr e)); (B "killed", RBool (Killed e)); (B "signal", RString (Signal e))] ++
     (if HasPID e then [(B "pid", numFromInt (PID e))] else [])).

Definition ValueFromEnvelope (e : Envelope) : Value := MkValue (RMap (mirror e)) (Some (OEnvelope e)) OriginEnvelope None.

Record BindResult := MkBindResult { Rc : Envelope; Primary : Value }.

Definition envelopeFields (e : Envelope) : list (bytes * Value) :=
  [(B "ok", BoolValue (OK e)); (B "exit_code", WithKind (ValueFromAny (numFromInt (ExitCode e))) OriginScalar);
   (B "stdout", StringValue (Stdout e)); (B "stderr", StringValue (Stderr e));
   (B "killed", BoolValue (Killed e)); (B "signal", StringValue (Signal e))] ++
  (if HasPID e then [(B "pid", WithKind (ValueFromAny (numFromInt (PID e))) OriginScalar)] else []).

Definition hasDistinctPrimary (v : Value) : bool := negb (IsNil v) && negb (bool_decide (Kind v = OriginEnvelope)).

Definition ValueFromOutcome (result : BindResult) : Value :=
  let fields := envelopeFields (Rc result) in
  let '(fields, valueOrigin) :=
    if hasDistinctPrimary (Primary result)
    then (fields ++ [(B "value", Primary result)], Origin (Primary result)) else (fields, None) in
  withOrigin (ValueFromRecord fields) (Some (OOutcome valueOrigin)) OriginEnvelope.

Definition valueList (values : list Value) : Value :=
  withOrigin (ValueFromAny (RList (map Raw values))) (Some (OList (map Origin values))) OriginUnknown.

Definition ValueFromCollectOutcome (ok : bool) (results values : list Value) : Value :=
  WithKind (ValueFromRecord [(B "ok", BoolValue ok); (B "results", valueList results); (B "values", valueList values)])
    OriginEnvelope.
End values.
