(* ===== verification/Operands.v ===== *)
(** * Errors, arguments and operators of the shell's runtime

    runtime/arg.go and the parts of runtime/expr.go that compute on values: rendering,
    comparison, arithmetic, conversions between values and arguments. *)

From Stdlib Require Import ZArith Lia Ascii SpecFloat.
From stdpp Require Import base tactics list strings option.
From S2P Require Import Prelude Lexer Suggest Literals Floats Value Ir.

#[local] Open Scope go_scope.

(** ** Arguments (arg.go) *)

Section arguments.
Context `{Foreign}.

Inductive Arg :=
| WordArg (Text : bytes) (sp : Span)
| NilArg (sp : Span)
| MissingArg (Name Path : bytes) (sp : Span)
| QuotedArg (Text : bytes) (sp : Span)
| ScalarValueArg (Text : bytes) (v : Value) (HasValue : bool) (sp : Span)
| StructuredValueArg (Name : bytes) (v : Value) (sp : Span)
| AdapterArg (Adapter Name Path : bytes) (v : Value) (sp : Span).

Definition ArgSpan (a : Arg) : Span :=
  match a with
  | WordArg _ sp | NilArg sp | MissingArg _ _ sp | QuotedArg _ sp | ScalarValueArg _ _ _ sp
  | StructuredValueArg _ _ sp | AdapterArg _ _ _ _ sp => sp
  end.

Definition commandHeadName (a : Arg) : option bytes :=
  match a with WordArg text _ => Some text | _ => None end.

(** ** Errors

    A *SyntaxError with its cause and the annotation of the def it escaped from, the
    typed errors of the runtime, a plain error, and an error of the driver, which is
    a spanCarrier or not. An error that is framed keeps the text of the one inside.
    [BadIR] is a *SyntaxError too: the ones with which the executor reports that the
    IR is inconsistent are kept apart, also under a format around their text. A format
    is shortened where the text of the code has quotation marks. *)
Inductive rerror :=
| SynError (sp : Span) (inDef : option (bytes * Pos)) (msg : error) (cause : option rerror)
| BadIR (sp : Span) (inDef : option (bytes * Pos)) (msg : error)
| GuardFailure (sp : Span) (primary : bytes) (args : list Arg) (env : Envelope)
| PollTimeout (timeout every : Z) (attempts : nat) (lastRetry : bytes)
| PollRetry (lastRetry : bytes)
| PlainError (msg : error)
| DriverError (carriesSpan : bool) (msg : error).

Definition SpanErrorf (sp : Span) (format : string) : rerror := SynError sp None (Errorf format) None.
Definition AtPos (loc : Pos) (format : string) : rerror := SpanErrorf (MkSpan loc loc) format.

(** The text without a part that is empty. *)
Definition errorText (e : rerror) : error :=
  match e with
  | SynError _ _ msg _ | BadIR _ _ msg | PlainError msg | DriverError _ msg => msg
  | GuardFailure _ _ _ env =>
    Errorf (if bool_decide (Stderr env = []) then "guard %s: command failed (exit %d)"
            else "guard %s: command failed (exit %d): %s")
  | PollTimeout _ _ _ lastRetry =>
    Errorf (if bool_decide (lastRetry = []) then "poll timed out after %s across %d attempt(s)"
            else "poll timed out after %s across %d attempt(s): %s")
  | PollRetry lastRetry => Errorf (if bool_decide (lastRetry = []) then "poll retry" else "poll retry: %s")
  end.

(** A format around the text of an error: [%v]. *)
Definition wrapText (sp : Span) (format : string) (e : rerror) : rerror :=
  match e with
  | BadIR _ _ msg => BadIR sp None (Wrap format msg)
  | _ => SynError sp None (Wrap format (errorText e)) None
  end.
Definition wrapMsg (sp : Span) (format : string) (e : error) : rerror := SynError sp None (Wrap format e) None.

(** frameAtSpan *)
Definition FrameAt (sp : Span) (e : rerror) : rerror :=
  match e with
  | SynError _ _ _ _ | BadIR _ _ _ => e
  | DriverError true _ => e
  | _ => SynError sp None (errorText e) (Some e)
  end.

(** errors.As for *pollRetrySignal. *)
Fixpoint asRetry (e : rerror) : option bytes :=
  match e with
  | PollRetry r => Some r
  | SynError _ _ _ (Some c) => asRetry c
  | _ => None
  end.

(** ** Rendering *)

Definition structuredShape (v : Value) : bytes :=
  if negb (bool_decide (Kind v = OriginUnknown)) && negb (bool_decide (Kind v = OriginScalar)) then kindString (Kind v)
  else match Raw v with
  | RMap _ => B "object"
  | RList _ => B "array"
  | _ => B "structured"
  end.
End arguments.

(** json.Marshal of a string: HTML characters, controls and the two line separators
    are escaped, an invalid byte is the replacement character. *)
Definition hexDigit (n : N) : ascii := if (n <? 10)%N then ascii_of_N (48 + n) else ascii_of_N (87 + n).

Definition escapeUnit (n : N) : bytes :=
  backslash :: "u"%char :: hexDigit (n / 4096) :: hexDigit (n / 256 mod 16) :: hexDigit (n / 16 mod 16) :: [hexDigit (n mod 16)].

Definition jsonByte (c : ascii) : bytes :=
  if (c =? dquote)%char || (c =? backslash)%char then [backslash; c]
  else if (c =? "008")%char then [backslash; "b"%char]
  else if (c =? "012")%char then [backslash; "f"%char]
  else if (c =? newline)%char then [backslash; "n"%char]
  else if (c =? return_)%char then [backslash; "r"%char]
  else if (c =? tab)%char then [backslash; "t"%char]
  else if (N_of_ascii c <? 32)%N || (c =? "<")%char || (c =? ">")%char || (c =? "&")%char
  then escapeUnit (N_of_ascii c)
  else [c].

Fixpoint jsonString_from (s : bytes) : bytes :=
  match s with
  | [] => []
  | a :: t1 =>
    if between "000" "127" a then jsonByte a ++ jsonString_from t1
    else match t1 with
    | b :: t2 =>
      if rune2 a b then a :: b :: jsonString_from t2
      else match t2 with
      | c :: t3 =>
        if rune3 a b c then
          (if bool_decide ([a; b; c] = ["226"; "128"; "168"]%char) then escapeUnit 8232
           else if bool_decide ([a; b; c] = ["226"; "128"; "169"]%char) then escapeUnit 8233
           else [a; b; c]) ++ jsonString_from t3
        else match t3 with
        | d :: t4 =>
          if rune4 a b c d then a :: b :: c :: d :: jsonString_from t4
          else escapeUnit 65533 ++ jsonString_from t1
        | [] => escapeUnit 65533 ++ jsonString_from t1
        end
      | [] => escapeUnit 65533 ++ jsonString_from t1
      end
    | [] => escapeUnit 65533 ++ jsonString_from t1
    end
  end.
Definition jsonString (s : bytes) : bytes := dquote :: jsonString_from s ++ [dquote].

(** A float in JSON: with an exponent when it is very small or very large. *)
Definition jsonFloat (f : float) : bytes :=
  match f with
  | S754_finite s m e =>
    let '(d, p) := shortestDecimal m e in
    let k := (Z.of_nat (length (digits d)) - 1 + p)%Z in
    if (k <? -6)%Z || (21 <=? k)%Z then
      let ds := digits d in
      (if s then B "-" else []) ++ take 1 ds ++ (if 1 <? length ds then "."%char :: drop 1 ds else []) ++
      "e"%char :: (if (k <? 0)%Z then "-"%char else "+"%char) :: digits (Z.abs k)
    else FormatFloat f
  | _ => FormatFloat f
  end.

(** fmt.Sprint of a float: %v. *)
Definition sprintFloat (f : float) : bytes :=
  match f with
  | S754_finite s m e =>
    let '(d, p) := shortestDecimal m e in
    let k := (Z.of_nat (length (digits d)) - 1 + p)%Z in
    if (k <? -4)%Z || (21 <=? k)%Z then
      let ds := digits d in
      let es := digits (Z.abs k) in
      (if s then B "-" else []) ++ take 1 ds ++ (if 1 <? length ds then "."%char :: drop 1 ds else []) ++
      "e"%char :: (if (k <? 0)%Z then "-"%char else "+"%char) :: (if length es <? 2 then "0"%char :: es else es)
    else FormatFloat f
  | _ => FormatFloat f
  end.

Fixpoint joinBytes (sep : bytes) (l : list bytes) : bytes :=
  match l with
  | [] => []
  | [x] => x
  | x :: l => x ++ sep ++ joinBytes sep l
  end.

(** json.Marshal of a tree; [None] is its error. *)
Fixpoint jsonRaw (r : raw) : option bytes :=
  match r with
  | RNil => Some (B "null")
  | RString s => Some (jsonString s)
  | RNumber [] => Some (B "0")
  | RNumber t => if bool_decide (jsonNumber t = None) then None else Some t
  | RFloat f => if isInf f || isNaN f then None else Some (jsonFloat f)
  | RBool b => Some (boolText b)
  | RList l =>
    match (fix go l := match l with
           | [] => Some []
           | x :: l => match jsonRaw x, go l with Some b, Some bs => Some (b :: bs) | _, _ => None end
           end) l with
    | Some bs => Some (B "[" ++ joinBytes (B ",") bs ++ B "]")
    | None => None
    end
  | RMap m =>
    match (fix go m := match m with
           | [] => Some []
           | (k, x) :: m => match jsonRaw x, go m with
                            | Some b, Some bs => Some ((jsonString k ++ B ":" ++ b) :: bs) | _, _ => None end
           end) m with
    | Some bs => Some (B "{" ++ joinBytes (B ",") bs ++ B "}")
    | None => None
    end
  end.

Section rendering.
Context `{Foreign}.

Definition RenderCompact (v : Value) : outcome error bytes :=
  if IsNil v then Done (B "null")
  else if IsStructured v then
    match jsonRaw (Raw v) with
    | Some b => Done b
    | None => Failed (Errorf "render %s: %v")
    end
  else Scalar v.

(** With a fall-back that is never used for the trees of scripts. *)
Definition rendered (v : Value) (fallback : bytes) : bytes :=
  match RenderCompact v with Done b => b | _ => fallback end.
Definition unrenderable (v : Value) : bytes := B "<unrenderable " ++ kindString (Kind v) ++ B ">".

Definition argTraceText (a : Arg) : bytes :=
  match a with
  | WordArg text _ | QuotedArg text _ | ScalarValueArg text _ _ _ => text
  | StructuredValueArg name v _ => rendered v (dollar :: name)
  | AdapterArg adapter name path _ _ =>
    adapter ++ B ":$" ++ name ++ match path with [] => [] | _ => B "." ++ path end
  | NilArg _ | MissingArg _ _ _ => []
  end.

Definition renderArgvTrace (args : list Arg) : bytes := joinBytes (B " ") (map argTraceText args).

(** ParamList and defTraceText *)
Definition ParamString (p : ir.Param) : bytes :=
  match ir.paType p with [] => ir.paName p | t => ir.paName p ++ B ": " ++ t end.
Definition ParamList (params : list ir.Param) : bytes := joinBytes (B " ") (map ParamString params).
Definition defTraceText (name : bytes) (params : list ir.Param) : bytes :=
  B "def " ++ name ++ B "(" ++ ParamList params ++ B ")".

Definition renderPollRetryMessage (v : Value) : bytes :=
  if IsNil v then []
  else if IsScalar v && negb (isRNil (Raw v)) then
    match Raw v with
    | RString s => s
    | RNumber t => t
    | RFloat f => sprintFloat f
    | RBool b => boolText b
    | _ => []
    end
  else if IsScalar v && IsNull v then B "null"
  else rendered v (B "<unrenderable retry message>").

(** ** Conversions *)

Definition AsBool (v : Value) : outcome error bool :=
  match Raw v with
  | RBool b => Done b
  | _ =>
    if bool_decide (Kind v = OriginBool)
    then Failed (Errorf "condition has boolean origin but non-boolean value %T")
    else Failed (Errorf "condition is a %s; use a comparison like '$x == 5' or a check like 'not-empty $x' to produce a boolean")
  end.

Definition valueToArg (v : Value) (sp : Span) : outcome error Arg :=
  if IsNil v || IsNull v then Done (NilArg sp)
  else if IsStructured v then Done (StructuredValueArg [] v sp)
  else let? s := Scalar v in Done (ScalarValueArg s v true sp).

Definition argToValue (a : Arg) : Value :=
  match a with
  | WordArg text _ | QuotedArg text _ => StringValue text
  | ScalarValueArg text v hasValue _ => if hasValue then v else StringValue text
  | StructuredValueArg _ v _ | AdapterArg _ _ _ v _ => v
  | NilArg _ | MissingArg _ _ _ => absent
  end.

Definition scalarKind (v : Value) : bytes :=
  match Raw v with
  | RString _ => B "string"
  | RNumber _ | RFloat _ => B "number"
  | RBool _ => B "bool"
  | _ => []
  end.

(** The text is in the declared type; an unknown type is a string. *)
Definition parseWordAs (typ text : bytes) : option Value :=
  if bool_decide (typ = B "number") then
    if IsJSONNumber text then Some (ValueFromAny (RNumber text)) else None
  else if bool_decide (typ = B "bool") then
    if bool_decide (text = B "true") then Some (BoolValue true)
    else if bool_decide (text = B "false") then Some (BoolValue false) else None
  else Some (StringValue text).

Definition bindDefArg (p : ir.Param) (a : Arg) : outcome rerror Value :=
  let fail := Failed (SpanErrorf (ArgSpan a) "def %s: parameter %q: expected %s, got %s") in
  match ir.paType p with
  | [] => Done (argToValue a)
  | typ =>
    match a with
    | WordArg text _ => match parseWordAs typ text with Some v => Done v | None => fail end
    | QuotedArg text _ => if bool_decide (typ = B "string") then Done (StringValue text) else fail
    | _ =>
      let v := argToValue a in
      if bool_decide (scalarKind v = typ) then Done v else fail
    end
  end.

(** Indices: the integer, or [None] for the errors. *)
Definition valueToIndex (v : Value) : option Z :=
  match Raw v with
  | RNumber t => Atoi t
  | RFloat f => integralFloat f
  | RString s => Atoi s
  | _ => None
  end.

(** ** Operators *)

Definition compareKind (v : Value) : bytes :=
  if IsNull v then B "null"
  else match Raw v with
  | RNumber _ | RFloat _ => B "number"
  | RString _ => B "string"
  | RBool _ => B "bool"
  | _ => []
  end.

Inductive shellNumber := Integral (i : Z) | Fractional (f : float).

Definition integerOf (text : bytes) : Z := default 0%Z (
  match text with
  | c :: s => if (c =? "-")%char then Some (- decimal s)%Z else Some (decimal text)
  | [] => None
  end).

Definition parseShellNumber (text : bytes) : outcome error shellNumber :=
  if negb (IsJSONNumber text) then Failed (Errorf "%s operand %q is not numeric")
  else if IsIntegralJSONNumber text then
    (if bool_decide (jsonNumber text = None) then Failed (Errorf "%s operand %q is not numeric")
     else Done (Integral (integerOf text)))
  else match ParseFloat text with
  | Some f => Done (Fractional f)
  | None => Failed (Errorf "%s operand %q exceeds the representable range")
  end.

Definition toFloat (n : shellNumber) : outcome error float :=
  match n with
  | Fractional f => Done f
  | Integral i =>
    let f := floatOfInt i in
    if isInf f then Failed (Errorf "%s operand %q exceeds the representable range") else Done f
  end.

Definition numericValueFromInt (i : Z) : Value := MkValue (RNumber (Itoa i)) None OriginScalar None.
Definition numericValue (x : float) : Value := MkValue (RNumber (FormatFloat x)) None OriginScalar None.

Definition isArithmeticOpText (op : bytes) : bool :=
  bool_decide (op = B "+") || bool_decide (op = B "-") || bool_decide (op = B "*") ||
  bool_decide (op = B "/") || bool_decide (op = B "%").

Definition arithmeticError (e : error) : error := Wrap "arithmetic %s: %w" e.

Definition evalArithmetic (op left_ right_ : bytes) : outcome error Value :=
  let wrap {A} (o : outcome error A) := match o with Failed e => Failed (arithmeticError e) | o => o end in
  let? a := wrap (parseShellNumber left_) in
  let? b := wrap (parseShellNumber right_) in
  match a, b, bool_decide (op = B "/") with
  | Integral a, Integral b, false =>
    if bool_decide (op = B "%") && (b =? 0)%Z then Failed (Errorf "division by zero")
    else if bool_decide (op = B "+") then Done (numericValueFromInt (a + b))
    else if bool_decide (op = B "-") then Done (numericValueFromInt (a - b))
    else if bool_decide (op = B "*") then Done (numericValueFromInt (a * b))
    else if bool_decide (op = B "%") then Done (numericValueFromInt (Z.rem a b))
    else Failed (Errorf "unknown arithmetic operator %q")
  | _, _, _ =>
    let? af := wrap (toFloat a) in
    let? bf := wrap (toFloat b) in
    let? r :=
      if bool_decide (op = B "+") then Done (fadd af bf)
      else if bool_decide (op = B "-") then Done (fsub af bf)
      else if bool_decide (op = B "*") then Done (fmul af bf)
      else if bool_decide (op = B "/") then
        if isZero bf then Failed (Errorf "division by zero") else Done (fdiv af bf)
      else if bool_decide (op = B "%") then
        if isZero bf then Failed (Errorf "division by zero") else Done (fmod af bf)
      else Failed (Errorf "unknown arithmetic operator %q") in
    if isInf r || isNaN r then Failed (Errorf "arithmetic %s: result exceeds the representable range")
    else Done (numericValue r)
  end.

(** The six operators on the result of a three-way comparison. *)
Definition ordered (op : bytes) (c : comparison) : option bool :=
  if bool_decide (op = B "==") then Some (match c with Eq => true | _ => false end)
  else if bool_decide (op = B "!=") then Some (match c with Eq => false | _ => true end)
  else if bool_decide (op = B "<") then Some (match c with Lt => true | _ => false end)
  else if bool_decide (op = B "<=") then Some (match c with Gt => false | _ => true end)
  else if bool_decide (op = B ">") then Some (match c with Gt => true | _ => false end)
  else if bool_decide (op = B ">=") then Some (match c with Lt => false | _ => true end)
  else None.

Definition compareBytes (a b : bytes) : comparison :=
  if bool_decide (a = b) then Eq else if bytes_lt a b then Lt else Gt.

Definition evalSymbolicTextComparison (op left_ right_ : bytes) : outcome error Value :=
  match ordered op (compareBytes left_ right_) with
  | Some b => Done (BoolValue b)
  | None => Failed (Errorf "unknown textual operator %q")
  end.

Definition evalNumericComparison (op left_ right_ : bytes) : outcome error Value :=
  let? a := parseShellNumber left_ in
  let? b := parseShellNumber right_ in
  let? c :=
    match a, b with
    | Integral a, Integral b => Done (a ?= b)%Z
    | _, _ =>
      let? af := toFloat a in
      let? bf := toFloat b in
      Done (match SFcompare af bf with Some Lt => Lt | Some Gt => Gt | _ => Eq end)
    end in
  match ordered op c with
  | Some b => Done (BoolValue b)
  | None => Failed (Errorf "unknown numeric operator %q")
  end.

Definition evalCompare (op : bytes) (l r : Value) (sp : Span) : outcome rerror Value :=
  let lk := compareKind l in
  let rk := compareKind r in
  let equality := bool_decide (op = B "==") || bool_decide (op = B "!=") in
  let framed {A} (o : outcome error A) : outcome rerror A :=
    match o with Done a => Done a | Failed e => Failed (SynError sp None e None) | OutOfFuel => OutOfFuel end in
  if bool_decide (lk = []) then
    Failed (SpanErrorf sp "%s: left side is a %s; only scalars (numbers, strings, booleans) can be compared with %s")
  else if bool_decide (rk = []) then
    Failed (SpanErrorf sp "%s: right side is a %s; only scalars (numbers, strings, booleans) can be compared with %s")
  else if bool_decide (lk = B "null") || bool_decide (rk = B "null") then
    if negb equality then Failed (SpanErrorf sp "binary %s: null supports only == and != (no ordering)")
    else
      let bothNull := bool_decide (lk = B "null") && bool_decide (rk = B "null") in
      Done (BoolValue (Bool.eqb (bool_decide (op = B "==")) bothNull))
  else if negb (bool_decide (lk = rk)) then
    Failed (SpanErrorf sp "binary %s: cannot compare %s to %s; coerce explicitly")
  else
    match Scalar l, Scalar r with
    | Done left_, Done right_ =>
      if bool_decide (lk = B "number") then framed (evalNumericComparison op left_ right_)
      else if bool_decide (lk = B "bool") && negb equality
      then Failed (SpanErrorf sp "binary %s: booleans support only == and !=")
      else framed (evalSymbolicTextComparison op left_ right_)
    | Failed e, _ => Failed (wrapMsg sp "binary %s: left: %v" e)
    | _, Failed e => Failed (wrapMsg sp "binary %s: right: %v" e)
    | _, _ => OutOfFuel
    end.

(** ** Literals *)

Definition looksNumeric (text : bytes) : bool :=
  match text with
  | [] => false
  | c :: rest =>
    isDigitByte c ||
    ((c =? "-")%char || (c =? "+")%char) && match rest with d :: _ => isDigitByte d | [] => false end
  end.

Definition literalValueParts (text : bytes) (quoted : bool) : outcome error Value :=
  if quoted then Done (StringValue text)
  else if bool_decide (text = B "true") then Done (BoolValue true)
  else if bool_decide (text = B "false") then Done (BoolValue false)
  else if bool_decide (text = B "null") then Done NullValue
  else if IsJSONNumber text then Done (MkValue (RNumber text) None OriginScalar None)
  else if looksNumeric text then
    (if bool_decide (jsonNumber (trimJSON text) = None)
     then Failed (Errorf "numeric literal %q is not a valid JSON number; quote it if you meant a string")
     else Failed (Errorf "numeric literal %q exceeds the representable range"))
  else Done (StringValue text).

(** json.Number.Float64: a text that is no number, or out of range, is an error. *)
Definition numberFloat (t : bytes) : option float := ParseFloat t.

Definition evalNotEmpty (operand : Value) (sp : Span) : outcome rerror Value :=
  if IsNil operand || IsNull operand then Done (BoolValue false)
  else match Raw operand with
  | RString s => Done (BoolValue (negb (bool_decide (s = []))))
  | RList l => Done (BoolValue (match l with [] => false | _ => true end))
  | RMap m => Done (BoolValue (match m with [] => false | _ => true end))
  | RNumber t => match numberFloat t with
                 | Some f => Done (BoolValue (negb (isZero f)))
                 | None => Failed (SpanErrorf sp "not-empty: %v")
                 end
  | RFloat f => Done (BoolValue (negb (isZero f)))
  | RBool b => Done (BoolValue b)
  | RNil => Failed (SpanErrorf sp "not-empty: %v")
  end.
End rendering.
