(* ===== verification/World.v ===== *)
(** * Sessions, environments and drivers of the shell's runtime

    runtime/session.go, the Env of runtime/expr.go and runtime/trace.go. What the
    callbacks of an Env do is the driver's; they are the class [Driver], over types
    of its own ([DriverTypes]). A computation keeps what it did to the state also
    when it fails; a Go panic and the end of the fuel are outcomes of their own. *)

From Stdlib Require Import ZArith Lia Ascii.
From stdpp Require Import base tactics list gmap strings option.
From S2P Require Import Prelude Lexer Literals Value Operands Ir.

(** ** Computations *)

Section monad.
Context `{Foreign}.

Inductive res (A : Type) :=
| Ok (a : A)
| Err (e : rerror)
| Panics
| NoFuel.

Definition X (S A : Type) : Type := S -> res A * S.

End monad.
Arguments Ok {_ A} a.
Arguments Err {_ A} e.
Arguments Panics {_ A}.
Arguments NoFuel {_ A}.

Section combinators.
Context `{Foreign} {S : Type}.

Definition xret {A} (a : A) : X S A := fun s => (Ok a, s).
Definition xfail {A} (e : rerror) : X S A := fun s => (Err e, s).
Definition xpanic {A} : X S A := fun s => (Panics, s).
Definition xbind {A C} (m : X S A) (f : A -> X S C) : X S C :=
  fun s => match m s with
           | (Ok a, s') => f a s'
           | (Err e, s') => (Err e, s')
           | (Panics, s') => (Panics, s')
           | (NoFuel, s') => (NoFuel, s')
           end.
Definition xget {A} (f : S -> A) : X S A := fun s => (Ok (f s), s).
Definition xmodify (f : S -> S) : X S unit := fun s => (Ok tt, f s).

(** The error of [m], if any, is a value. *)
Definition xtry {A} (m : X S A) : X S (A + rerror) :=
  fun s => match m s with
           | (Ok a, s') => (Ok (inl a), s')
           | (Err e, s') => (Ok (inr e), s')
           | (Panics, s') => (Panics, s')
           | (NoFuel, s') => (NoFuel, s')
           end.

Definition xlift {A} (o : outcome rerror A) : X S A :=
  match o with Done a => xret a | Failed e => xfail e | OutOfFuel => fun s => (NoFuel, s) end.

(** A pure result whose error is framed. *)
Definition xliftWith {E A} (f : E -> rerror) (o : outcome E A) : X S A :=
  match o with Done a => xret a | Failed e => xfail (f e) | OutOfFuel => fun s => (NoFuel, s) end.
End combinators.

Declare Scope shell_scope.
Delimit Scope shell_scope with shell.
Notation "'let*' x ':=' m 'in' k" := (xbind m (fun x => k))
  (at level 10, x pattern, m at level 100, k at level 200, right associativity) : shell_scope.
Notation "m ';*' k" := (xbind m (fun _ => k))
  (at level 100, k at level 200, right associativity) : shell_scope.
#[local] Open Scope shell_scope.

(** ** The state *)

Class DriverTypes := {
  dState : Type;    (* what the driver keeps *)
  tracer : Type;    (* a trace callback *)
  Job : Type        (* a started job *)
}.

Section world.
Context `{Foreign} `{DriverTypes}.

(** A user-defined command; its blocks are kept with it. *)
Record defValue := MkDefValue {
  dvName : bytes; dvParams : list ir.Param; dvHasReturn : bool; dvEntry : option ir.block;
  dvMemory : list ir.BasicBlock; dvNumTemps : nat; dvSpan : Span
}.

Record deferEntry := MkDeferEntry {
  deSpan : Span; deArgs : list Arg; dePolicy : ir.DispatchPolicy; deTrace : option tracer
}.

(** The Session and the Env. The frames are innermost first; [defers] and [jobs] are
    what their pointers point to: nothing else refers to a scope while it is active. *)
Record world := MkWorld {
  frames : list (gmap bytes Value);
  sdefs : gmap bytes defValue;
  assertFailures : nat;
  deferFailures : nat;
  jobLeaks : nat;
  traceEnabled : bool;
  draining : bool;
  defers : option (list deferEntry);
  jobs : option (list Job);
  trace : option tracer;
  defCallDepth : nat;
  activePolls : nat;
  drv : dState
}.

Definition setFrames (f : list (gmap bytes Value)) (w : world) : world :=
  MkWorld f (sdefs w) (assertFailures w) (deferFailures w) (jobLeaks w) (traceEnabled w) (draining w) (defers w) (jobs w)
    (trace w) (defCallDepth w) (activePolls w) (drv w).
Definition setDefs (d : gmap bytes defValue) (w : world) : world :=
  MkWorld (frames w) d (assertFailures w) (deferFailures w) (jobLeaks w) (traceEnabled w) (draining w) (defers w) (jobs w)
    (trace w) (defCallDepth w) (activePolls w) (drv w).
Definition setDraining (b : bool) (w : world) : world :=
  MkWorld (frames w) (sdefs w) (assertFailures w) (deferFailures w) (jobLeaks w) (traceEnabled w) b (defers w) (jobs w)
    (trace w) (defCallDepth w) (activePolls w) (drv w).
Definition setDefers (d : option (list deferEntry)) (w : world) : world :=
  MkWorld (frames w) (sdefs w) (assertFailures w) (deferFailures w) (jobLeaks w) (traceEnabled w) (draining w) d (jobs w)
    (trace w) (defCallDepth w) (activePolls w) (drv w).
Definition setJobs (j : option (list Job)) (w : world) : world :=
  MkWorld (frames w) (sdefs w) (assertFailures w) (deferFailures w) (jobLeaks w) (traceEnabled w) (draining w) (defers w) j
    (trace w) (defCallDepth w) (activePolls w) (drv w).
Definition setDepth (n : nat) (w : world) : world :=
  MkWorld (frames w) (sdefs w) (assertFailures w) (deferFailures w) (jobLeaks w) (traceEnabled w) (draining w) (defers w) (jobs w)
    (trace w) n (activePolls w) (drv w).
Definition setPolls (n : nat) (w : world) : world :=
  MkWorld (frames w) (sdefs w) (assertFailures w) (deferFailures w) (jobLeaks w) (traceEnabled w) (draining w) (defers w) (jobs w)
    (trace w) (defCallDepth w) n (drv w).
Definition setDrv (d : dState) (w : world) : world :=
  MkWorld (frames w) (sdefs w) (assertFailures w) (deferFailures w) (jobLeaks w) (traceEnabled w) (draining w) (defers w) (jobs w)
    (trace w) (defCallDepth w) (activePolls w) d.

Definition NewSession (t : option tracer) (d : dState) : world :=
  MkWorld [∅] ∅ 0 0 0 false false None None t 0 0 d.

Definition W (A : Type) : Type := X world A.

(** ** Sessions (session.go) *)

Definition RecordAssertFailure : W unit := xmodify (fun w =>
  MkWorld (frames w) (sdefs w) (S (assertFailures w)) (deferFailures w) (jobLeaks w) (traceEnabled w) (draining w) (defers w)
    (jobs w) (trace w) (defCallDepth w) (activePolls w) (drv w)).
Definition RecordDeferFailure : W unit := xmodify (fun w =>
  MkWorld (frames w) (sdefs w) (assertFailures w) (S (deferFailures w)) (jobLeaks w) (traceEnabled w) (draining w) (defers w)
    (jobs w) (trace w) (defCallDepth w) (activePolls w) (drv w)).
Definition RecordJobLeak : W unit := xmodify (fun w =>
  MkWorld (frames w) (sdefs w) (assertFailures w) (deferFailures w) (S (jobLeaks w)) (traceEnabled w) (draining w) (defers w)
    (jobs w) (trace w) (defCallDepth w) (activePolls w) (drv w)).

Definition setDef (d : defValue) : W unit := xmodify (fun w => setDefs (<[dvName d := d]> (sdefs w)) w).
Definition getDef (name : bytes) : W (option defValue) := xget (fun w => sdefs w !! name).

(** Indexing the last of no frames panics. *)
Definition SessionSet (name : bytes) (v : Value) : W unit := fun w =>
  match frames w with
  | [] => (Panics, w)
  | f :: fs => (Ok tt, setFrames (<[name := v]> f :: fs) w)
  end.

Fixpoint lookupFrames (name : bytes) (fs : list (gmap bytes Value)) : option Value :=
  match fs with
  | [] => None
  | f :: fs => match f !! name with Some v => Some v | None => lookupFrames name fs end
  end.
Definition SessionGet (name : bytes) : W (option Value) := xget (fun w => lookupFrames name (frames w)).

Definition FrameDepth : W nat := xget (fun w => length (frames w)).
Definition PushFrame : W unit := xmodify (fun w => setFrames (∅ :: frames w) w).
Definition PopFrame : W unit := fun w =>
  match frames w with
  | _ :: (_ :: _) as fs => (Ok tt, setFrames fs w)
  | _ => (Panics, w)
  end.

(** [for FrameDepth() > target { PopFrame() }], [n] frames. *)
Fixpoint popFrames (n : nat) : W unit :=
  match n with O => xret tt | S n => PopFrame ;* popFrames n end.
Definition popToDepth (target : nat) : W unit :=
  let* depth := FrameDepth in popFrames (depth - target).

(** ** The environment *)

Definition enterPoll : W unit := xmodify (fun w => setPolls (S (activePolls w)) w).
Definition exitPoll : W unit := xmodify (fun w => setPolls (activePolls w - 1) w).
Definition InPoll : W bool := xget (fun w => 0 <? activePolls w).

(** ** The driver

    The hooks of Env. Those that run commands may change the session and the
    environment as well, the others only what the driver keeps; an absent hook is a
    nil function. *)
Class Driver := {
  ExecCommand : option (list Arg -> Span -> W Value);
  ExecBind : option (list Arg -> Span -> W BindResult);
  ExecAssert : option (bool -> ir.AssertClause -> Span -> W unit);
  PrintResult : option (Value -> dState -> option rerror * dState);
  RenderDeferFailure : option (Pos -> list Arg -> Envelope -> dState -> dState);
  RenderDeferOutput : option (list Arg -> Envelope -> dState -> dState);
  HandleJobLeak : option (Job -> W unit);
  IsManaged : Job -> dState -> bool;
  Trace : tracer -> Pos -> bytes -> dState -> dState;
  RenderPollFailure : option (Span -> Z -> Z -> nat -> bytes -> dState -> dState);
  Now : dState -> Z * dState;
  Sleep : Z -> dState -> dState;
  (* the text of an error: its arguments are not kept in the model *)
  Error : rerror -> bytes
}.
End world.

Section hooks.
Context `{Foreign} `{!DriverTypes} `{!Driver}.

(** A hook that only acts on the driver's state; nothing when it is absent. *)
Definition driverHook (h : option (dState -> dState)) : W unit :=
  xmodify (fun w => match h with Some f => setDrv (f (drv w)) w | None => w end).

Definition now : W Z := fun w => let '(t, d) := Now (drv w) in (Ok t, setDrv d w).
Definition sleep (d : Z) : W unit := driverHook (Some (Sleep d)).

Definition traceRendered (pos : Pos) (text : bytes) : W unit := fun w =>
  match trace w with
  | Some t => (Ok tt, setDrv (Trace t pos text (drv w)) w)
  | None => (Ok tt, w)
  end.
Definition traceNote (sp : Span) (text : bytes) : W unit := traceRendered (Start sp) text.
Definition traceValue (sp : Span) (prefix : bytes) (v : Value) : W unit :=
  traceRendered (Start sp) (prefix ++ rendered v (unrenderable v)).
End hooks.
