(* ===== verification/Eval.v ===== *)
(** * Evaluation of lowered expressions

    runtime/ir_expr.go, the parts of runtime/expr.go that resolve variables and
    dispatch a command to a def or to the driver, and runtime/matches_eval.go. What
    runs the body of a def is a parameter here. A mismatch of a matches block is its
    position and the format of its message. *)

From Stdlib Require Import ZArith Lia Ascii SpecFloat.
From stdpp Require Import base tactics list gmap strings option.
From S2P Require Import Prelude Lexer Literals Floats Value Operands Ir World.

#[local] Open Scope shell_scope.

#[export] Instance Pos_eq_dec : EqDecision Pos.
Proof. solve_decision. Defined.

(** ** Spans (ir_expr.go) *)

Definition irExprSpan (e : ir.Expr) : Span :=
  match e with
  | ir.LiteralExpr _ _ sp | ir.VarRefExpr _ _ sp | ir.AdapterExpr _ _ _ sp | ir.ListExpr _ sp | ir.RecordExpr _ sp
  | ir.InterpStringExpr _ sp | ir.ThreadExpr _ _ _ sp | ir.BinaryExpr _ _ _ sp | ir.UnaryExpr _ _ sp
  | ir.LogicalExpr _ _ _ sp | ir.NotExpr _ sp | ir.NegateExpr _ sp | ir.PureCallExpr _ _ sp | ir.MatchesExpr _ _ sp => sp
  end.

Definition threadDiagSpan (pipePos : Pos) (sp : Span) : Span :=
  if bool_decide (pipePos = Start zeroSpan) then sp else MkSpan pipePos pipePos.
Definition irThreadDiagSpan (e : ir.Expr) : Span :=
  match e with ir.ThreadExpr _ _ pipePos sp => threadDiagSpan pipePos sp | _ => irExprSpan e end.

(** ** Matches (matches_eval.go) *)

Section matches.
Context `{Foreign}.

(** What a row holds is a value, a block or the name of a predicate. *)
Inductive resolvedMatchEntry :=
| EntryValue (path : bytes) (v : Value) (sp : Span)
| EntrySubBlock (path : bytes) (entries : list resolvedMatchEntry) (exhaustive : bool) (blockSpan sp : Span)
| EntryPredicate (path : bytes) (predicate : bytes) (sp : Span).

Record resolvedMatchesBlock := MkResolvedBlock {
  rbEntries : list resolvedMatchEntry; rbExhaustive : bool; rbSpan : Span
}.

Record MatchMismatch := MkMismatch { mmPos : Pos; mmMessage : error }.
Record MatchesResult := MkMatchesResult { Matched : bool; Mismatches : list MatchMismatch }.

Definition isNullish (v : Value) : bool := IsNil v || IsNull v.

Definition isMatchesEmpty (v : Value) : bool :=
  isNullish v ||
  match Raw v with
  | RString s => bool_decide (s = [])
  | RList l => match l with [] => true | _ => false end
  | RMap m => match m with [] => true | _ => false end
  | RNumber t => match numberFloat t with Some f => isZero f | None => false end
  | RFloat f => isZero f
  | RBool b => negb b
  | RNil => false
  end.

(** reflect.DeepEqual on trees: a NaN is not equal to itself. Two of its cases
    are out of reach of a tree: it tells a nil slice or map from an empty one,
    and takes two that share their storage as equal without looking inside, also
    when there is a NaN in them. *)
Fixpoint rawEqual (a b : raw) : bool :=
  match a, b with
  | RNil, RNil => true
  | RString s, RString t => bool_decide (s = t)
  | RNumber s, RNumber t => bool_decide (s = t)
  | RFloat f, RFloat g => match SFcompare f g with Some Eq => true | _ => false end
  | RBool b, RBool c => Bool.eqb b c
  | RList l, RList l' =>
    (fix go l l' := match l, l' with
     | [], [] => true
     | x :: l, y :: l' => rawEqual x y && go l l'
     | _, _ => false
     end) l l'
  | RMap m, RMap m' =>
    (fix go m m' := match m, m' with
     | [], [] => true
     | (k, x) :: m, (k', y) :: m' => bool_decide (k = k') && rawEqual x y && go m m'
     | _, _ => false
     end) m m'
  | _, _ => false
  end.

Definition matchesValueEqual (actual expected : Value) : bool :=
  if isNullish actual || isNullish expected then isNullish actual && isNullish expected
  else if IsStructured actual || IsStructured expected then rawEqual (Raw actual) (Raw expected)
  else match Scalar actual, Scalar expected with
  | Done a, Done e => bool_decide (a = e)
  | _, _ => rawEqual (Raw actual) (Raw expected)
  end.

(** The predicate of a row on the value there. *)
Definition predicateMismatch (predicate : bytes) (actual : Value) : option string :=
  if bool_decide (predicate = B "not-empty") then
    if isMatchesEmpty actual then Some "%s: expected non-empty, got %s"%string else None
  else if bool_decide (predicate = B "null") then
    if negb (isNullish actual) then Some "%s: expected null, got %s"%string else None
  else if bool_decide (predicate = B "empty") then
    if isNullish actual then Some "%s: expected empty (... / [] / {}), got null"%string
    else if negb (isMatchesEmpty actual) then Some "%s: expected empty (... / [] / {}), got %s"%string else None
  else if negb (matchesValueEqual actual absent) then Some "%s: expected %s, got %s"%string else None.

(** The keys of an exhaustive block's target; those not claimed follow the other
    mismatches, in an order that Go leaves open. *)
Definition unclaimed (exhaustive : bool) (pos : Pos) (target : Value) (claimed : list bytes) : list MatchMismatch :=
  if negb exhaustive then []
  else match Raw target with
  | RMap m =>
    map (fun _ => MkMismatch pos (Errorf "%s: present in value but unclaimed in exhaustive block"))
      (filter (fun f => f.1 ∉ claimed) m)
  | _ => []
  end.

Definition notObject (exhaustive : bool) (pos : Pos) (target : Value) : list MatchMismatch :=
  if negb exhaustive then []
  else match Raw target with
  | RMap _ => []
  | _ => [MkMismatch pos (Errorf "%s: matches exhaustive: expected object, got %s")]
  end.

Definition entryPath (e : resolvedMatchEntry) : bytes :=
  match e with EntryValue p _ _ | EntrySubBlock p _ _ _ _ | EntryPredicate p _ _ => p end.

Definition pathMismatch (pos : Pos) (e : pathError) : MatchMismatch :=
  MkMismatch pos match e with
                 | FieldMissing => Errorf "%s: field %s not found in variable %s"
                 | PathError e => Wrap "%s: %v" e
                 end.

Fixpoint evalMatchesEntry (target : Value) (e : resolvedMatchEntry) : list MatchMismatch :=
  match e with
  | EntryValue path v sp =>
    match LookupValue target path with
    | Done actual =>
      if negb (matchesValueEqual actual v) then [MkMismatch (Start sp) (Errorf "%s: expected %s, got %s")] else []
    | Failed err => [pathMismatch (Start sp) err]
    | OutOfFuel => []
    end
  | EntryPredicate path predicate sp =>
    match LookupValue target path with
    | Done actual =>
      match predicateMismatch predicate actual with Some m => [MkMismatch (Start sp) (Errorf m)] | None => [] end
    | Failed err => [pathMismatch (Start sp) err]
    | OutOfFuel => []
    end
  | EntrySubBlock path entries exhaustive blockSpan sp =>
    match LookupValue target path with
    | Done actual =>
      notObject exhaustive (Start blockSpan) actual ++ concat (map (evalMatchesEntry actual) entries) ++
      unclaimed exhaustive (Start blockSpan) actual (map entryPath entries)
    | Failed err => [pathMismatch (Start sp) err]
    | OutOfFuel => []
    end
  end.

Definition evalMatchesAgainst (target : Value) (block : resolvedMatchesBlock) : list MatchMismatch :=
  notObject (rbExhaustive block) (Start (rbSpan block)) target ++
  concat (map (evalMatchesEntry target) (rbEntries block)) ++
  unclaimed (rbExhaustive block) (Start (rbSpan block)) target (map entryPath (rbEntries block)).

Definition evalMatchesTarget (target : Value) (block : resolvedMatchesBlock) : outcome rerror MatchesResult :=
  if negb (IsStructured target) then
    Failed (PlainError (Errorf "matches requires a structured value as the target (got %s)"))
  else if bool_decide (rbEntries block = []) && negb (rbExhaustive block) then
    Failed (PlainError (Errorf "matches block must contain at least one entry"))
  else
    let mismatches := evalMatchesAgainst target block in
    Done (MkMatchesResult (bool_decide (mismatches = [])) mismatches).
End matches.

(** ** Variables and calls (expr.go) *)

Section evaluation.
Context `{Foreign} `{!DriverTypes} `{!Driver}.

(** [resolveDynamicPath]: ["[$name]"] becomes ["[N]"]; [skip] bytes are done with. *)
Definition startsDynamic (l : bytes) : bool :=
  match l with a :: b :: _ => (a =? "[")%char && (b =? "$")%char | _ => false end.

Fixpoint containsDynamic (path : bytes) : bool :=
  match path with [] => false | _ :: rest => startsDynamic path || containsDynamic rest end.

Definition identText (l : bytes) : bytes :=
  match l with
  | c :: rest => if isIdentStart c then c :: take (prefix_len isIdentContinue rest) rest else []
  | [] => []
  end.

Fixpoint resolveSegments (span : Span) (skip : nat) (path : bytes) : W bytes :=
  match path with
  | [] => xret []
  | c :: rest =>
    match skip with
    | S k => resolveSegments span k rest
    | O =>
      if negb (startsDynamic path) then let* l := resolveSegments span 0 rest in xret (c :: l)
      else
        let name := identText (drop 1 rest) in
        if bool_decide (name = []) || negb (bool_decide (rest !! S (length name) = Some "]"%char)) then
          xfail (SpanErrorf span "malformed dynamic index in path %q")
        else
          let* ov := SessionGet name in
          match ov with
          | None => xfail (SpanErrorf span "index variable $%s is not defined")
          | Some v =>
            match valueToIndex v with
            | None => xfail (SpanErrorf span "index variable $%s: %v")
            | Some n => let* l := resolveSegments span (2 + length name) rest in xret (B "[" ++ Itoa n ++ B "]" ++ l)
            end
          end
    end
  end.

Definition resolveDynamicPath (path : bytes) (span : Span) : W bytes :=
  if negb (containsDynamic path) then xret path else resolveSegments span 0 path.

Definition pathErrorAt (span : Span) (e : pathError) : rerror :=
  match e with
  | FieldMissing => SpanErrorf span "field %s not found in variable %s: %w"
  | PathError e => wrapMsg span "%v" e
  end.

Definition resolveVarRefValueParts (name path : bytes) (span : Span) : W Value :=
  let* ov := SessionGet name in
  match ov with
  | None => xfail (SpanErrorf span "undefined variable %q")
  | Some v =>
    if bool_decide (path = []) then xret v
    else let* path := resolveDynamicPath path span in xliftWith (pathErrorAt span) (LookupValue v path)
  end.

Definition resolveVarRefArgParts (name path : bytes) (span : Span) : W Arg :=
  let* ov := SessionGet name in
  match ov with
  | None => xfail (SpanErrorf span "undefined variable: %s")
  | Some v =>
    let done (resolved : Value) : W Arg :=
      if IsNil resolved || IsNull resolved then xret (NilArg span)
      else if IsStructured resolved then xret (StructuredValueArg name resolved span)
      else
        let* s := xliftWith (wrapMsg span "variable %s: %v") (Scalar resolved) in
        xret (ScalarValueArg s resolved true span) in
    if bool_decide (path = []) then done v
    else
      let* path := resolveDynamicPath path span in
      let* presence := xliftWith (wrapMsg span "%v") (LookupPresence v path) in
      match presence with
      | Missing => xret (MissingArg name path span)
      | _ => done (presenceValue presence)
      end
  end.

Definition resolveAdapterArgParts (adapter name path : bytes) (span : Span) : W Arg :=
  let* ov := SessionGet name in
  match ov with
  | None => xfail (SpanErrorf span "undefined variable: %s")
  | Some v =>
    let done (path : bytes) (resolved : Value) : W Arg :=
      if IsNil resolved || IsNull resolved then xfail (SpanErrorf span "adapter %s: variable %s is null")
      else xret (AdapterArg adapter name path resolved span) in
    if bool_decide (path = []) then done [] v
    else
      let* path := resolveDynamicPath path span in
      let* lv := xliftWith (pathErrorAt span) (LookupValue v path) in
      done path lv
  end.

Definition MaxDefCallDepth : nat := 256.

Definition LocErrorf (loc : Pos) (format : string) : rerror := AtPos loc format.

(** An annotation with a def is the prefix ["in def "] of the text. *)
Fixpoint startsInDef (e : error) : bool :=
  match e with
  | Errorf s => String.prefix "in def " s
  | Wrap s e => if String.eqb s "%v" then startsInDef e else String.prefix "in def " s
  | _ => false
  end.

Definition annotate (inDef : option (bytes * Pos)) (msg : error) (def : defValue) (callLoc : Pos) : option (bytes * Pos) :=
  match inDef with
  | Some _ => inDef
  | None => if startsInDef msg then None else Some (dvName def, callLoc)
  end.

Definition decorateDefError (e : rerror) (def : defValue) (callLoc : Pos) : rerror :=
  match e with
  | SynError sp inDef msg cause => SynError sp (annotate inDef msg def callLoc) msg cause
  | BadIR sp inDef msg => BadIR sp (annotate inDef msg def callLoc) msg
  | _ => e
  end.

Definition lookupDefHead (args : list Arg) : W (option defValue) :=
  match args with
  | [] => xret None
  | a :: _ => match commandHeadName a with
              | None => xret None
              | Some name => getDef name
              end
  end.

Definition OnError {S A} (f : rerror -> rerror) (m : X S A) : X S A :=
  let* r := xtry m in match r with inl a => xret a | inr e => xfail (f e) end.

Definition failEnvelopeFromError (e : rerror) : Envelope := MkEnvelope 1 [] (Error e) false [] false 0.

(** What runs the lowered body of a def: the returned value, whether there was one,
    and the failures of the def's own defers. *)
Variable runLoweredDefCall : defValue -> ir.block -> list Arg -> W (Value * bool * nat).

Definition runDefCall (def : defValue) (args : list Arg) (callLoc : Pos) : W (Value * bool * nat) :=
  if negb (length args =? length (dvParams def)) then
    xfail (LocErrorf callLoc "%s: expected %d argument(s), got %d (def declared at %d:%d)")
  else
    let* depth := xget defCallDepth in
    if MaxDefCallDepth <=? depth then
      xfail (LocErrorf callLoc "in def %s: recursion depth limit exceeded (%d)")
    else
      xmodify (fun w => setDepth (S (defCallDepth w)) w) ;*
      (let* r := xtry (match dvEntry def with
                       | None => xfail (BadIR (MkSpan callLoc callLoc) None (Errorf "def %s has no IR body"))
                       | Some entry => runLoweredDefCall def entry args
                       end) in
       xmodify (fun w => setDepth (defCallDepth w - 1) w) ;*
       match r with inl a => xret a | inr e => xfail e end).

Definition callDef (def : defValue) (args : list Arg) (callLoc : Pos) : W unit :=
  OnError (fun e => decorateDefError e def callLoc) (runDefCall def args callLoc) ;* xret tt.

Definition callDefAsBind (def : defValue) (args : list Arg) (callLoc : Pos) : W BindResult :=
  let* r := OnError (fun e => decorateDefError e def callLoc) (runDefCall def args callLoc) in
  let '(returned, hasReturn, localDeferFailures) := r in
  let rc := if 0 <? localDeferFailures then FailEnvelope else OkEnvelope in
  xret (MkBindResult rc (if hasReturn then returned else ValueFromEnvelope rc)).

(** A nil ExecBind panics. *)
Definition execBind (args : list Arg) (span : Span) : W BindResult :=
  match ExecBind with Some f => f args span | None => xpanic end.

Definition dispatchBindByPolicy (policy : ir.DispatchPolicy) (args : list Arg) (callLoc : Pos) (span : Span) : W BindResult :=
  match policy with
  | ir.DispatchPolicyDefThenExecBind =>
    let* def := lookupDefHead args in
    match def with
    | Some def => callDefAsBind def (drop 1 args) callLoc
    | None => execBind args span
    end
  | _ => xfail (BadIR span None (Errorf "unsupported bind dispatch policy %s"))
  end.

Definition dispatchCommandByPolicy (policy : ir.DispatchPolicy) (args : list Arg) (callLoc : Pos) (span : Span) : W unit :=
  match policy with
  | ir.DispatchPolicyDefThenExecCommand =>
    let* def := lookupDefHead args in
    match def with
    | Some def => callDef def (drop 1 args) callLoc
    | None =>
      match ExecCommand with
      | None => xfail (SpanErrorf span "command execution is not configured")
      | Some f => OnError (FrameAt span) (f args span) ;* xret tt
      end
    end
  | _ => xfail (BadIR span None (Errorf "unsupported command dispatch policy %s"))
  end.

(** ** Expressions (ir_expr.go) *)

(** [evalArg], over the evaluation of expressions. *)
Definition evalArgWith (eval : ir.Expr -> W Value) (e : ir.Expr) : W Arg :=
  match e with
  | ir.LiteralExpr text quoted sp => xret (if quoted then QuotedArg text sp else WordArg text sp)
  | ir.VarRefExpr name path sp => resolveVarRefArgParts name path sp
  | ir.AdapterExpr adapter name path sp => resolveAdapterArgParts adapter name path sp
  | ir.ThreadExpr _ _ _ sp =>
    let* v := eval e in
    if IsNil v then xfail (SpanErrorf (irThreadDiagSpan e) "thread produced no value")
    else xliftWith PlainError (valueToArg v sp)
  | _ =>
    let* v := eval e in
    if IsNil v then xfail (SpanErrorf (irExprSpan e) "parenthesised expression produced no value")
    else xliftWith PlainError (valueToArg v (irExprSpan e))
  end.

(** The result of a command in an expression. *)
Definition primaryOf (sp : Span) (withStderr format : string) (result : BindResult) : W Value :=
  if negb (OK (Rc result)) then
    if negb (bool_decide (Stderr (Rc result) = [])) then xfail (SpanErrorf sp withStderr) else xfail (SpanErrorf sp format)
  else xret (Primary result).

Definition evalBinary (op : bytes) (leftV rightV : Value) (sp : Span) : W Value :=
  if isArithmeticOpText op then
    let* l := xliftWith (wrapMsg sp "binary %s: left: %v") (Scalar leftV) in
    let* r := xliftWith (wrapMsg sp "binary %s: right: %v") (Scalar rightV) in
    xliftWith (wrapMsg sp "%v") (evalArithmetic op l r)
  else xlift (evalCompare op leftV rightV sp).

Definition evalNegate (v : Value) (sp : Span) : W Value :=
  let* s := xliftWith (wrapMsg sp "negate: %v") (Scalar v) in
  match ParseFloat s with
  | Some x => xret (numericValue (SFopp x))
  | None => xfail (SpanErrorf sp "negate: operand %q is not numeric")
  end.

Definition listOf (vs : list Value) : Value :=
  if existsb (fun v => match Origin v with Some _ => true | None => false end) vs then valueList vs else ValueFromAny (RList (map Raw vs)).

Fixpoint evalExpr (e : ir.Expr) : W Value :=
  match e with
  | ir.LiteralExpr text quoted sp => xliftWith (wrapMsg sp "%v") (literalValueParts text quoted)
  | ir.VarRefExpr name path sp => resolveVarRefValueParts name path sp
  | ir.AdapterExpr _ _ _ sp => xfail (SpanErrorf sp "adapter %s:$%s cannot be used as an expression operand")
  | ir.ListExpr elems _ =>
    let* vs := (fix go l := match l with
      | [] => xret []
      | x :: l => let* v := evalExpr x in let* vs := go l in xret (v :: vs)
      end) elems in
    xret (listOf vs)
  | ir.RecordExpr fields _ =>
    let* vs := (fix go l := match l with
      | [] => xret []
      | ir.MkRecordField name x _ :: l => let* v := evalExpr x in let* vs := go l in xret ((name, v) :: vs)
      end) fields in
    xret (ValueFromRecord vs)
  | ir.InterpStringExpr segments _ =>
    let* s := (fix go l := match l with
      | [] => xret []
      | ir.SegLiteral text :: l => let* rest := go l in xret (text ++ rest)
      | ir.SegExpr x :: l =>
        let* v := evalExpr x in
        let* s := xliftWith (wrapMsg (irExprSpan x) "interpolation: %v") (RenderCompact v) in
        let* rest := go l in xret (s ++ rest)
      end) segments in
    xret (StringValue s)
  | ir.ThreadExpr lhs args pipePos sp =>
    let threadSpan := threadDiagSpan pipePos sp in
    match ExecBind with
    | None => xfail (SpanErrorf threadSpan "'|>' is only valid where commands can run; not available in this context")
    | Some _ =>
      let* as_ := (fix go l := match l with
        | [] => xret []
        | x :: l => let* a := evalArgWith evalExpr x in let* rest := go l in xret (a :: rest)
        end) args in
      let* lhsArg := OnError (wrapText threadSpan "thread: %v") (evalArgWith evalExpr lhs) in
      let callLoc := if (Line pipePos =? 0)%Z then Start sp else pipePos in
      let* result := OnError (FrameAt threadSpan)
        (dispatchBindByPolicy ir.DispatchPolicyDefThenExecBind (as_ ++ [lhsArg]) callLoc sp) in
      primaryOf threadSpan "thread: command failed (exit %d): %s" "thread: command failed (exit %d)" result
    end
  | ir.BinaryExpr l op r sp =>
    let* leftV := evalExpr l in let* rightV := evalExpr r in evalBinary op leftV rightV sp
  | ir.UnaryExpr pred operand sp =>
    let* v := evalExpr operand in
    if bool_decide (pred = B "not-empty") then xlift (evalNotEmpty v sp)
    else xfail (SpanErrorf sp "unknown unary predicate %q")
  | ir.LogicalExpr op l r sp =>
    let* leftV := evalExpr l in
    let* leftB := xliftWith (wrapMsg sp "%s: left: %v") (AsBool leftV) in
    let right_ : W Value :=
      let* rightV := evalExpr r in
      let* rightB := xliftWith (wrapMsg sp "%s: right: %v") (AsBool rightV) in
      xret (BoolValue rightB) in
    if bool_decide (op = B "and") then (if negb leftB then xret (BoolValue false) else right_)
    else if bool_decide (op = B "or") then (if leftB then xret (BoolValue true) else right_)
    else xfail (SpanErrorf sp "unknown logical operator %q")
  | ir.NotExpr operand sp =>
    let* v := evalExpr operand in
    let* b := xliftWith (wrapMsg sp "not: %v") (AsBool v) in
    xret (BoolValue (negb b))
  | ir.NegateExpr operand sp => let* v := evalExpr operand in evalNegate v sp
  | ir.PureCallExpr name args sp =>
    match ExecBind with
    | None => xfail (SpanErrorf sp "%s: pure-builtin calls require an active command dispatcher")
    | Some f =>
      let* as_ := (fix go l := match l with
        | [] => xret []
        | x :: l =>
          let* a := OnError (wrapText (irExprSpan x) "%s: %v") (evalArgWith evalExpr x) in
          let* rest := go l in xret (a :: rest)
        end) args in
      let* result := OnError (FrameAt sp) (f (WordArg name sp :: as_) sp) in
      primaryOf sp "%s: %s" "%s: call failed (exit %d)" result
    end
  | ir.MatchesExpr target block _ =>
    let* v := evalExpr target in
    let* b := evalMatchesBlock block in
    let* r := xlift (evalMatchesTarget v b) in
    xret (BoolValue (Matched r))
  end
with evalMatchesBlock (b : ir.MatchesBlockExpr) : W resolvedMatchesBlock :=
  match b with
  | ir.MkMatchesBlock entries exhaustive sp =>
    let* es := (fix go l := match l with
      | [] => xret []
      | x :: l => let* e := evalMatchEntry x in let* es := go l in xret (e :: es)
      end) entries in
    xret (MkResolvedBlock es exhaustive sp)
  end
with evalMatchEntry (e : ir.MatchEntry) : W resolvedMatchEntry :=
  match e with
  | ir.MatchPattern path pattern sp =>
    let* v := OnError (wrapText sp "matches entry %q: %v") (evalExpr pattern) in xret (EntryValue path v sp)
  | ir.MatchSubBlock path sub sp =>
    let* b := evalMatchesBlock sub in
    xret (EntrySubBlock path (rbEntries b) (rbExhaustive b) (rbSpan b) sp)
  | ir.MatchPredicate path predicate sp => xret (EntryPredicate path predicate sp)
  end.

Definition evalMatchesExprDetails (target : ir.Expr) (block : ir.MatchesBlockExpr) : W MatchesResult :=
  let* v := evalExpr target in
  let* b := evalMatchesBlock block in
  xlift (evalMatchesTarget v b).

Definition EvalExpr (e : ir.Expr) : W Value := evalExpr e.

Definition evalArg (e : ir.Expr) : W Arg := evalArgWith evalExpr e.

Fixpoint evalArgs (es : list ir.Expr) : W (list Arg) :=
  match es with
  | [] => xret []
  | e :: es => let* a := evalArg e in let* rest := evalArgs es in xret (a :: rest)
  end.

(** The first failed matches of an expression that is false, and whether there is
    one; the children that are not evaluated are passed by. *)
Definition noMatches : MatchesResult * bool := (MkMatchesResult false [], false).

Fixpoint FindFailedMatchesExpr (e : ir.Expr) : W (MatchesResult * bool) :=
  let fix children (l : list ir.Expr) : W (MatchesResult * bool) :=
    match l with
    | [] => xret noMatches
    | x :: l => let* r := FindFailedMatchesExpr x in if r.2 then xret r else children l
    end in
  match e with
  | ir.MatchesExpr target block _ =>
    let* r := evalMatchesExprDetails target block in xret (r, negb (Matched r))
  | ir.LogicalExpr op l r _ =>
    let* leftV := evalExpr l in
    let* leftB := xliftWith PlainError (AsBool leftV) in
    let rightIs : W bool := let* rightV := evalExpr r in xliftWith PlainError (AsBool rightV) in
    if bool_decide (op = B "and") then
      if negb leftB then FindFailedMatchesExpr l
      else let* rightB := rightIs in if negb rightB then FindFailedMatchesExpr r else xret noMatches
    else if bool_decide (op = B "or") then
      if leftB then xret noMatches
      else
        let* rightB := rightIs in
        if negb rightB then
          let* f := FindFailedMatchesExpr l in if f.2 then xret f else FindFailedMatchesExpr r
        else xret noMatches
    else xret noMatches
  | ir.NotExpr _ _ => xret noMatches
  | ir.BinaryExpr l _ r _ =>
    let* f := FindFailedMatchesExpr l in if f.2 then xret f else FindFailedMatchesExpr r
  | ir.UnaryExpr _ x _ | ir.NegateExpr x _ => FindFailedMatchesExpr x
  | ir.PureCallExpr _ args _ => children args
  | ir.ThreadExpr lhs args _ _ =>
    let* f := FindFailedMatchesExpr lhs in if f.2 then xret f else children args
  | ir.ListExpr elems _ => children elems
  | ir.InterpStringExpr segments _ =>
    (fix go l := match l with
     | [] => xret noMatches
     | ir.SegLiteral _ :: l => go l
     | ir.SegExpr x :: l => let* f := FindFailedMatchesExpr x in if f.2 then xret f else go l
     end) segments
  | _ => xret noMatches
  end.
End evaluation.
