(* ===== verification/Exec.v ===== *)
(** * The executor of the IR

    runtime/ir_exec.go and the parts of runtime/expr.go it calls: deferred commands,
    jobs, calls of defs. An executor runs one unit; its temporaries, loops, polls and
    saved defer scopes are local, the session and the environment are shared. Loops,
    polls and scopes are innermost first, the entries of a defer scope newest first.
    [steps] bounds the blocks that a unit runs. *)

From Stdlib Require Import ZArith Lia Ascii.
From stdpp Require Import base tactics list gmap strings option.
From S2P Require Import Prelude Lexer Literals Value Operands Ir World Eval.

#[local] Open Scope shell_scope.

(** ** The state of a unit *)

Section state.
Context `{Foreign} `{!DriverTypes}.

(** A slot of [temps]; it starts as nil. *)
Inductive slot := SNil | SValue (v : Value) | SArgs (args : list Arg) | SBind (r : BindResult).

Record pendingGuardFail := MkPending { pgEnvelope : Envelope; pgPrimary : bytes; pgArgs : list Arg; pgSpan : Span }.

Record pollState := MkPollState {
  plTimeout : Z; plEvery : Z; plDeadline : Z; plAttempt : ir.block; plOnSuccess : ir.block; plOnTimeout : ir.block;
  plStartTime : Z; plAttemptCount : nat; plLastRetry : bytes; plSpan : Span;
  plAttemptFrameDepth : nat; plAttemptScopeDepth : nat; plAttemptLoopDepth : nat;
  plFailed : bool; plTimedOut : bool
}.

Record loopState := MkLoopState {
  lpList : list raw; lpIndex : nat; lpNames : list bytes; lpBody : ir.block; lpExit : ir.block;
  lpEntryFrameDepth : nat; lpOrigin : Value; lpSpan : Span;
  lpCollect : bool; lpPrimary : bytes; lpGuard : bool; lpResults : list Value; lpValues : list Value; lpCollectOK : bool
}.

Record executor := MkExecutor {
  temps : list slot;
  bindArgs : gmap ir.Temp (list Arg);
  pending : option pendingGuardFail;
  loops : list loopState;
  scopes : list (option (list deferEntry));
  polls : list pollState;
  returnValue : Value;
  hasReturn : bool;
  localDeferFailures : nat;
  entryFrameDepth : nat;
  inDef : bool;
  skipProgramScope : bool
}.

Definition newExecutor (depth numTemps : nat) (inDef skip : bool) : executor :=
  MkExecutor (replicate numTemps SNil) ∅ None [] [] [] absent false 0 depth inDef skip.

Definition setTemp (t : ir.Temp) (s : slot) (e : executor) : executor :=
  MkExecutor (<[t := s]> (temps e)) (bindArgs e) (pending e) (loops e) (scopes e) (polls e) (returnValue e) (hasReturn e)
    (localDeferFailures e) (entryFrameDepth e) (inDef e) (skipProgramScope e).
Definition setBindArgs (t : ir.Temp) (a : list Arg) (e : executor) : executor :=
  MkExecutor (temps e) (<[t := a]> (bindArgs e)) (pending e) (loops e) (scopes e) (polls e) (returnValue e) (hasReturn e)
    (localDeferFailures e) (entryFrameDepth e) (inDef e) (skipProgramScope e).
Definition setPending (p : option pendingGuardFail) (e : executor) : executor :=
  MkExecutor (temps e) (bindArgs e) p (loops e) (scopes e) (polls e) (returnValue e) (hasReturn e)
    (localDeferFailures e) (entryFrameDepth e) (inDef e) (skipProgramScope e).
Definition setLoops (l : list loopState) (e : executor) : executor :=
  MkExecutor (temps e) (bindArgs e) (pending e) l (scopes e) (polls e) (returnValue e) (hasReturn e)
    (localDeferFailures e) (entryFrameDepth e) (inDef e) (skipProgramScope e).
Definition setScopes (s : list (option (list deferEntry))) (e : executor) : executor :=
  MkExecutor (temps e) (bindArgs e) (pending e) (loops e) s (polls e) (returnValue e) (hasReturn e)
    (localDeferFailures e) (entryFrameDepth e) (inDef e) (skipProgramScope e).
Definition setPollStates (p : list pollState) (e : executor) : executor :=
  MkExecutor (temps e) (bindArgs e) (pending e) (loops e) (scopes e) p (returnValue e) (hasReturn e)
    (localDeferFailures e) (entryFrameDepth e) (inDef e) (skipProgramScope e).
Definition setReturn (v : Value) (e : executor) : executor :=
  MkExecutor (temps e) (bindArgs e) (pending e) (loops e) (scopes e) (polls e) v true
    (localDeferFailures e) (entryFrameDepth e) (inDef e) (skipProgramScope e).
Definition addLocalFailures (n : nat) (e : executor) : executor :=
  MkExecutor (temps e) (bindArgs e) (pending e) (loops e) (scopes e) (polls e) (returnValue e) (hasReturn e)
    (localDeferFailures e + n) (entryFrameDepth e) (inDef e) (skipProgramScope e).

Definition retried (last : bytes) (p : pollState) : pollState :=
  MkPollState (plTimeout p) (plEvery p) (plDeadline p) (plAttempt p) (plOnSuccess p) (plOnTimeout p) (plStartTime p)
    (plAttemptCount p) last (plSpan p) (plAttemptFrameDepth p) (plAttemptScopeDepth p) (plAttemptLoopDepth p)
    (plFailed p) (plTimedOut p).
Definition anotherAttempt (p : pollState) : pollState :=
  MkPollState (plTimeout p) (plEvery p) (plDeadline p) (plAttempt p) (plOnSuccess p) (plOnTimeout p) (plStartTime p)
    (S (plAttemptCount p)) (plLastRetry p) (plSpan p) (plAttemptFrameDepth p) (plAttemptScopeDepth p) (plAttemptLoopDepth p)
    (plFailed p) (plTimedOut p).
Definition pollFailed (timedOut : bool) (p : pollState) : pollState :=
  MkPollState (plTimeout p) (plEvery p) (plDeadline p) (plAttempt p) (plOnSuccess p) (plOnTimeout p) (plStartTime p)
    (plAttemptCount p) (plLastRetry p) (plSpan p) (plAttemptFrameDepth p) (plAttemptScopeDepth p) (plAttemptLoopDepth p)
    true timedOut.

Definition nextIndex (l : loopState) : loopState :=
  MkLoopState (lpList l) (S (lpIndex l)) (lpNames l) (lpBody l) (lpExit l) (lpEntryFrameDepth l) (lpOrigin l) (lpSpan l)
    (lpCollect l) (lpPrimary l) (lpGuard l) (lpResults l) (lpValues l) (lpCollectOK l).
Definition produced (r : BindResult) (l : loopState) : loopState :=
  MkLoopState (lpList l) (lpIndex l) (lpNames l) (lpBody l) (lpExit l) (lpEntryFrameDepth l) (lpOrigin l) (lpSpan l)
    (lpCollect l) (lpPrimary l) (lpGuard l) (lpResults l ++ [ValueFromOutcome r])
    (if OK (Rc r) then lpValues l ++ [Primary r] else lpValues l) (lpCollectOK l && OK (Rc r)).

(** What an instruction does to the control: falls through, enters a block or ends
    the unit. *)
Inductive flow := Falls | Next (b : ir.block) | Halts.

Definition M (A : Type) : Type := X (executor * world) A.

Definition onWorld {A} (m : W A) : M A := fun '(ex, w) => let '(r, w') := m w in (r, (ex, w')).
Definition ofEx {A} (f : executor -> A) : M A := xget (fun s => f s.1).
Definition modifyEx (f : executor -> executor) : M unit := xmodify (fun s => (f s.1, s.2)).

(** A computation of an executor of its own. *)
Definition withExecutor {A} (ex : executor) (m : M A) : W A := fun w => let '(r, (_, w')) := m (ex, w) in (r, w').
End state.

(** ** Jobs (expr.go) *)

Section jobs.
Context `{Foreign} `{!DriverTypes} `{!Driver}.

Definition RegisterJob (j : Job) : W unit := xmodify (fun w =>
  match jobs w with Some js => setJobs (Some (js ++ [j])) w | None => w end).
Definition ActiveJobs : W (list Job) := xget (fun w => default [] (jobs w)).
Definition ReapJobs (shouldReap : Job -> bool) : W unit := xmodify (fun w =>
  match jobs w with Some js => setJobs (Some (filter (fun j => shouldReap j = false) js)) w | None => w end).

Fixpoint reportJobLeaks (js : list Job) : W unit :=
  match HandleJobLeak with
  | None => xret tt
  | Some handle =>
    match js with
    | [] => xret tt
    | j :: js =>
      let* managed := xget (fun w => IsManaged j (drv w)) in
      (if managed then xret tt else handle j) ;* reportJobLeaks js
    end
  end.

Definition withJobScope {A} (fn : W A) : W A :=
  let* saved := xget jobs in
  xmodify (setJobs (Some [])) ;*
  (let* r := xtry fn in
   let* js := xget jobs in
   xmodify (setJobs saved) ;*
   reportJobLeaks (default [] js) ;*
   match r with inl a => xret a | inr e => xfail e end).
End jobs.

(** ** Instructions *)

Section exec.
Context `{Foreign} `{!DriverTypes} `{!Driver}.

(** What runs the body of a def, one call deeper. *)
Variable run : defValue -> ir.block -> list Arg -> W (Value * bool * nat).

(** [runDefers]: the entries, newest first, with the draining flag up. *)
Definition renderFailure (e : deferEntry) (rc : Envelope) : W unit :=
  driverHook (option_map (fun f => f (Start (deSpan e)) (deArgs e) rc) RenderDeferFailure) ;* RecordDeferFailure.

Definition traceFire (e : deferEntry) : W unit := fun w =>
  match (match deTrace e with Some t => Some t | None => trace w end) with
  | Some t => (Ok tt, setDrv (Trace t (Start (deSpan e)) (B "defer fire: " ++ renderArgvTrace (deArgs e)) (drv w)) w)
  | None => (Ok tt, w)
  end.

Definition fireDefer (e : deferEntry) : W bool :=
  traceFire e ;*
  (let* r := xtry (dispatchBindByPolicy run (dePolicy e) (deArgs e) (Start (deSpan e)) (deSpan e)) in
   match r with
   | inr err => renderFailure e (failEnvelopeFromError err) ;* xret true
   | inl result =>
     if OK (Rc result)
     then driverHook (option_map (fun f => f (deArgs e) (Rc result)) RenderDeferOutput) ;* xret false
     else renderFailure e (Rc result) ;* xret true
   end).

Fixpoint drainDefers (stack : list deferEntry) : W nat :=
  match stack with
  | [] => xret 0
  | e :: stack =>
    let* failed := fireDefer e in
    let* n := drainDefers stack in
    xret (if failed then S n else n)
  end.

Definition runDefers (stack : list deferEntry) : W nat :=
  match ExecBind with
  | None => xret 0
  | Some _ =>
    let* prev := xget draining in
    xmodify (setDraining true) ;*
    (let* n := drainDefers stack in xmodify (setDraining prev) ;* xret n)
  end.

(** The active defer scope, if there is one. *)
Definition runActiveDefers : W nat :=
  let* d := xget defers in match d with Some stack => runDefers stack | None => xret 0 end.

(** ** Leaving scopes *)

Definition restoreScope : M unit :=
  let* ss := ofEx scopes in
  match ss with
  | s :: rest => onWorld (xmodify (setDefers s)) ;* modifyEx (setScopes rest)
  | [] => onWorld (xmodify (setDefers None))
  end.

Fixpoint drainScopes (n : nat) : M unit :=
  match n with
  | O => xret tt
  | S n => onWorld runActiveDefers ;* restoreScope ;* drainScopes n
  end.

Definition drainScopesTo (target : nat) : M unit :=
  let* ss := ofEx scopes in drainScopes (length ss - target).

Definition drainToAttemptStart (state : pollState) : M unit :=
  modifyEx (fun ex => setLoops (drop (length (loops ex) - plAttemptLoopDepth state) (loops ex)) ex) ;*
  drainScopesTo (plAttemptScopeDepth state) ;*
  onWorld (popToDepth (plAttemptFrameDepth state)).

Fixpoint exitPolls (n : nat) : W unit := match n with O => xret tt | S n => exitPoll ;* exitPolls n end.

Definition unwindOnExit : M unit :=
  modifyEx (setLoops []) ;*
  (let* ps := ofEx polls in
   onWorld (exitPolls (length ps)) ;*
   modifyEx (setPollStates []) ;*
   drainScopesTo 0 ;*
   (let* depth := ofEx entryFrameDepth in onWorld (popToDepth depth))).

(** ** Polls *)

(** The innermost poll is [top :: rest]. *)
Definition continueOrTimeout (top : pollState) (rest : list pollState) : M flow :=
  drainToAttemptStart top ;*
  (let* t := onWorld now in
   if negb (t <? plDeadline top)%Z then
     modifyEx (setPollStates (pollFailed true top :: rest)) ;* xret (Next (plOnTimeout top))
   else
     modifyEx (setPollStates (anotherAttempt top :: rest)) ;*
     onWorld (traceNote (plSpan top) (B "poll retry")) ;*
     (if (0 <? plEvery top)%Z then onWorld (sleep (plEvery top)) else xret tt) ;*
     xret (Next (plAttempt top))).

(** A retry, with its message, from a def called in an attempt or in the attempt
    itself. *)
Definition retryPoll (last : bytes) (top : pollState) (rest : list pollState) : M flow :=
  modifyEx (setPollStates (retried last top :: rest)) ;* continueOrTimeout (retried last top) rest.

(** The retry that an error carries is taken by the innermost poll, if any;
    otherwise the error goes on. *)
Definition orRetry (frame : rerror -> rerror) {A} (ok : A -> M flow) (m : M A) : M flow :=
  let* r := xtry m in
  match r with
  | inl a => ok a
  | inr e =>
    let* ps := ofEx polls in
    match asRetry e, ps with
    | Some last, top :: rest => retryPoll last top rest
    | _, _ => xfail (frame e)
    end
  end.

(** Entering a block: the poll whose end it is has succeeded. *)
Definition enterBlock (b : ir.block) : M unit :=
  let* ps := ofEx polls in
  match ps with
  | top :: rest =>
    if (b =? plOnSuccess top) && negb (plFailed top) then
      onWorld (traceNote (plSpan top) (B "poll success")) ;* onWorld exitPoll ;* modifyEx (setPollStates rest)
    else xret tt
  | [] => xret tt
  end.

(** ** Slots *)

Definition tempAt (t : ir.Temp) : M slot :=
  let* s := ofEx (fun ex => temps ex !! t) in match s with Some s => xret s | None => xpanic end.

Definition store (t : ir.Temp) (s : slot) : M unit := fun '(ex, w) =>
  if t <? length (temps ex) then (Ok tt, (setTemp t s ex, w)) else (Panics, (ex, w)).

Definition badIR {A} (sp : Span) (format : string) : M A := xfail (BadIR sp None (Errorf format)).

Definition valueAt (t : ir.Temp) (sp : Span) : M Value :=
  let* s := tempAt t in match s with SValue v => xret v | _ => badIR sp "exec: t%d expected Value, got %T" end.
Definition argvAt (t : ir.Temp) (sp : Span) : M (list Arg) :=
  let* s := tempAt t in match s with SArgs a => xret a | _ => badIR sp "exec: t%d expected argv, got %T" end.
Definition bindAt (t : ir.Temp) (sp : Span) (format : string) : M BindResult :=
  let* s := tempAt t in match s with SBind r => xret r | _ => badIR sp format end.

(** ** Bindings and traces *)

Definition bindable (name : bytes) : bool := negb (bool_decide (name = [])) && negb (bool_decide (name = B "_")).

Fixpoint setNames (skipEmpty : bool) (names : list bytes) (v : Value) (i : nat) : W unit :=
  match names with
  | [] => xret tt
  | name :: names =>
    (if bool_decide (name = B "_") || skipEmpty && bool_decide (name = []) then xret tt
     else SessionSet name (IndexValue v (Z.of_nat i))) ;*
    setNames skipEmpty names v (S i)
  end.

Definition goType (r : raw) : bytes :=
  match r with
  | RNil => B "<nil>"
  | RString _ => B "string"
  | RNumber _ => B "json.Number"
  | RFloat _ => B "float64"
  | RBool _ => B "bool"
  | RList _ => B "[]interface {}"
  | RMap _ => B "map[string]interface {}"
  end.
Definition untypable (r : raw) : bytes := B "<unrenderable " ++ goType r ++ B ">".

Fixpoint nameParts (fallback : Value -> bytes) (names : list bytes) (v : Value) (i : nat) : list bytes :=
  match names with
  | [] => []
  | name :: names =>
    let sub := IndexValue v (Z.of_nat i) in
    (name ++ B "=" ++ rendered sub (fallback sub)) :: nameParts fallback names v (S i)
  end.

Definition emitDestructureTrace (names : list bytes) (v : Value) (sp : Span) : W unit :=
  traceNote sp (B "let " ++ joinBytes (B " ") (nameParts (fun _ => untypable (Raw v)) names v 0)).

Definition emitForEachTrace (state : loopState) (elem : Value) : W unit :=
  match lpNames state with
  | [name] =>
    traceNote (lpSpan state)
      (B "foreach " ++ name ++ B " = " ++ rendered elem (untypable (default RNil (lpList state !! lpIndex state))))
  | names =>
    traceNote (lpSpan state) (B "foreach " ++ joinBytes (B " ") (nameParts (fun sub => untypable (Raw sub)) names elem 0))
  end.

Definition bindDestructure (names : list bytes) (v : Value) (sp : Span) : W unit :=
  if IsNil v then xfail (SpanErrorf sp "let: destructure RHS produced no result")
  else match Raw v with
  | RList l =>
    if negb (length l =? length names)
    then xfail (SpanErrorf sp "let: destructure RHS has %d elements, cannot bind %d names")
    else setNames true names v 0
  | _ => xfail (SpanErrorf sp "let: destructure RHS is not a list, cannot bind %d names")
  end.

(** ** Loops *)

Definition bindForEachNames (state : loopState) (elem : Value) : W unit :=
  match lpNames state with
  | [name] => if negb (bool_decide (name = B "_")) then SessionSet name elem else xret tt
  | names =>
    match Raw elem with
    | RList l =>
      if negb (length l =? length names)
      then xfail (SpanErrorf (lpSpan state) "foreach: element %d has %d sub-elements, cannot destructure into %d names")
      else setNames false names elem 0
    | _ => xfail (SpanErrorf (lpSpan state) "foreach: element %d is not a list, cannot destructure into %d names")
    end
  end.

Definition beginIteration (state : loopState) : W unit :=
  PushFrame ;*
  (let elem := IndexValue (lpOrigin state) (Z.of_nat (lpIndex state)) in
   bindForEachNames state elem ;* emitForEachTrace state elem).

Definition finaliseCollect (state : loopState) : W unit :=
  if bindable (lpPrimary state) then
    if lpGuard state then SessionSet (lpPrimary state) (valueList (lpValues state))
    else SessionSet (lpPrimary state) (ValueFromCollectOutcome (lpCollectOK state) (lpResults state) (lpValues state))
  else xret tt.

Definition finish (state : loopState) : W unit := if lpCollect state then finaliseCollect state else xret tt.

(** The innermost loop is [state :: rest]. *)
Definition advanceLoop (state : loopState) (rest : list loopState) : M flow :=
  onWorld (popToDepth (lpEntryFrameDepth state)) ;*
  (let state := nextIndex state in
   if length (lpList state) <=? lpIndex state then
     modifyEx (setLoops rest) ;* onWorld (finish state) ;* xret (Next (lpExit state))
   else
     modifyEx (setLoops (state :: rest)) ;* onWorld (beginIteration state) ;* xret (Next (lpBody state))).

Definition openLoop (v : Value) (mk : list raw -> nat -> loopState) (sp : Span) (isNull notList : string) : M flow :=
  if IsNil v then xfail (SpanErrorf sp isNull)
  else match Raw v with
  | RList l =>
    let* depth := onWorld FrameDepth in
    let state := mk l depth in
    match l with
    | [] => onWorld (finish state) ;* xret (Next (lpExit state))
    | _ =>
      modifyEx (fun ex => setLoops (state :: loops ex) ex) ;* onWorld (beginIteration state) ;* xret (Next (lpBody state))
    end
  | _ => xfail (SpanErrorf sp notList)
  end.

Definition execForEach (list_ : ir.Temp) (names : list bytes) (body exit : ir.block) (sp : Span) : M flow :=
  let* v := valueAt list_ sp in
  openLoop v (fun l depth => MkLoopState l 0 names body exit depth v sp false [] false [] [] false) sp
    "foreach: list expression is null" "foreach: expected a list, got %s".

Definition execForEachCollect (list_ : ir.Temp) (names : list bytes) (target : bytes) (guard : bool) (body exit : ir.block)
    (sp : Span) : M flow :=
  let* v := valueAt list_ sp in
  openLoop v (fun l depth => MkLoopState l 0 names body exit depth v sp true target guard [] [] true) sp
    "bind-collect: list expression is null" "bind-collect: expected a list, got %s".

Definition execForEachContinue (sp : Span) : M flow :=
  let* ls := ofEx loops in
  match ls with
  | state :: rest => advanceLoop state rest
  | [] => badIR sp "foreach-continue: outside any loop"
  end.

Definition execExitLoop (sp : Span) : M flow :=
  let* ls := ofEx loops in
  match ls with
  | state :: rest =>
    onWorld (popToDepth (lpEntryFrameDepth state)) ;* modifyEx (setLoops rest) ;* onWorld (finish state) ;*
    xret (Next (lpExit state))
  | [] => badIR sp "exit-loop: outside any loop"
  end.

Definition execCollectProduce (result : ir.Temp) (frameSpan sp : Span) : M flow :=
  let* ls := ofEx loops in
  match ls with
  | [] => badIR sp "collect-produce: outside any loop"
  | state :: rest =>
    if negb (lpCollect state) then badIR sp "collect-produce: not in a bind-collect"
    else
      let* res := bindAt result sp "collect-produce: t%d expected BindResult, got %T" in
      let state := produced res state in
      modifyEx (setLoops (state :: rest)) ;*
      (if lpGuard state && negb (OK (Rc res)) then
         let* args := ofEx (fun ex => default [] (bindArgs ex !! result)) in
         let* inDef := ofEx inDef in
         let gf := GuardFailure sp (lpPrimary state) args (Rc res) in
         xfail (if inDef then gf else FrameAt (if (Line (Start frameSpan) =? 0)%Z then sp else frameSpan) gf)
       else advanceLoop state rest)
  end.

(** ** Defers and errors *)

Definition execRegisterDefer (argv : ir.Temp) (policy : ir.DispatchPolicy) (traced : bool) (sp : Span) : M flow :=
  let* d := onWorld (xget defers) in
  match d with
  | None => badIR sp "defer outside any defer scope"
  | Some stack =>
    let* args := argvAt argv sp in
    (if traced then onWorld (traceNote sp (B "defer " ++ renderArgvTrace args)) else xret tt) ;*
    (let* t := onWorld (xget trace) in
     onWorld (xmodify (fun w => setDefers (option_map (cons (MkDeferEntry sp args policy t)) (defers w)) w)) ;*
     xret Falls)
  end.

Definition enterDeferScope (kind : ir.DeferScopeKind) : M flow :=
  let* skip := ofEx skipProgramScope in
  match kind, skip with
  | ir.DeferScopeProgram, true => xret Falls
  | _, _ =>
    let* d := onWorld (xget defers) in
    modifyEx (fun ex => setScopes (d :: scopes ex) ex) ;*
    onWorld (xmodify (setDefers (Some []))) ;* xret Falls
  end.

Definition execRunDefers (policy : ir.RunDefersPolicy) (sp : Span) : M flow :=
  let* skip := ofEx skipProgramScope in
  match policy, skip with
  | ir.RunDefersProgram, true => xret Falls
  | _, _ =>
    let* failed := onWorld runActiveDefers in
    match policy with ir.RunDefersDefLocal => modifyEx (addLocalFailures failed) | _ => xret tt end ;*
    restoreScope ;*
    match policy with
    | ir.RunDefersAttemptFatal =>
      if 0 <? failed then
        let* ps := ofEx polls in
        match ps with
        | top :: rest =>
          modifyEx (setPollStates (pollFailed (plTimedOut top) top :: rest)) ;*
          onWorld (traceNote (plSpan top) (B "poll fatal")) ;*
          xfail (SpanErrorf (plSpan top)
            "poll: attempt-local defer failed during unwind (%d cleanup failure(s)); halting the construct")
        | [] =>
          let* inDef := ofEx inDef in
          let* inPoll := onWorld InPoll in
          if inDef && inPoll then
            xfail (SpanErrorf sp
              "poll: helper defer failed during retry unwind (%d cleanup failure(s)); halting the construct")
          else xret Falls
        end
      else xret Falls
    | _ => xret Falls
    end
  end.

Definition propagateError (sp : Span) : M flow :=
  let* p := ofEx pending in
  match p with
  | Some p =>
    modifyEx (setPending None) ;* xfail (GuardFailure (pgSpan p) (pgPrimary p) (pgArgs p) (pgEnvelope p))
  | None =>
    let* ps := ofEx polls in
    match ps with
    | top :: rest =>
      if plFailed top && plTimedOut top then
        onWorld (driverHook (option_map
          (fun f => f sp (plTimeout top) (plEvery top) (plAttemptCount top) (plLastRetry top)) RenderPollFailure)) ;*
        (let e := PollTimeout (plTimeout top) (plEvery top) (plAttemptCount top) (plLastRetry top) in
         onWorld exitPoll ;* modifyEx (setPollStates rest) ;*
         (let* inDef := ofEx inDef in xfail (if inDef then e else FrameAt sp e)))
      else badIR sp "propagated error"
    | [] => badIR sp "propagated error"
    end
  end.

Definition applyBind (src argv : ir.Temp) (target : bytes) (guard : bool) (onFail : option ir.block) (sp : Span) : M flow :=
  let* res := bindAt src sp "exec: t%d expected BindResult, got %T" in
  if guard && negb (OK (Rc res)) then
    match onFail with
    | None => badIR sp "exec: guard fail has no OnFail block"
    | Some fail =>
      let* s := tempAt argv in
      let args := match s with SArgs a => a | _ => [] end in
      modifyEx (setPending (Some (MkPending (Rc res) target args sp))) ;* xret (Next fail)
    end
  else
    (if bindable target
     then onWorld (SessionSet target (if guard then Primary res else ValueFromOutcome res)) else xret tt) ;*
    xret Falls.

(** ** Polls and defs *)

Definition beginPoll (timeout every : Z) (attempt onTimeout onSuccess : ir.block) (sp : Span) : M flow :=
  let* start := onWorld now in
  let* depth := onWorld FrameDepth in
  modifyEx (fun ex => setPollStates
    (MkPollState timeout every (start + timeout) attempt onSuccess onTimeout start 1 [] sp
       depth (length (scopes ex)) (length (loops ex)) false false :: polls ex) ex) ;*
  onWorld enterPoll ;* xret (Next attempt).

Definition execRetryPoll (message : option ir.Temp) (sp : Span) : M flow :=
  let* last := match message with
               | Some t => let* v := valueAt t sp in xret (renderPollRetryMessage v)
               | None => xret []
               end in
  let* ps := ofEx polls in
  match ps with
  | top :: rest => retryPoll last top rest
  | [] =>
    let* inDef := ofEx inDef in
    let* inPoll := onWorld InPoll in
    if inDef && inPoll then xfail (PollRetry last) else xfail (SpanErrorf sp "retry: outside any poll")
  end.

Definition defValueOf (d : ir.Def) : defValue :=
  MkDefValue (ir.dfName d) (ir.dfParams d) (ir.dfHasReturn d) (Some (ir.dfEntry d)) (ir.dfMemory d) (ir.dfNumTemps d)
    match d with ir.MkDef _ _ _ _ _ _ _ sp => sp end.

Definition registerDef (d : ir.Def) : W unit :=
  setDef (defValueOf d) ;*
  traceNote match d with ir.MkDef _ _ _ _ _ _ _ sp => sp end (defTraceText (ir.dfName d) (ir.dfParams d)).

Fixpoint registerLoweredDefs (defs : list ir.Def) : W unit :=
  match defs with [] => xret tt | d :: defs => registerDef d ;* registerLoweredDefs defs end.

(** ** The interpreter *)

Definition execInstr (i : ir.Instr) : M flow :=
  match i with
  | ir.EnterFrame _ _ => onWorld PushFrame ;* xret Falls
  | ir.ExitFrame _ => onWorld PopFrame ;* xret Falls
  | ir.EnterDeferScope kind _ => enterDeferScope kind
  | ir.RegisterDefer argv policy traced sp => execRegisterDefer argv policy traced sp
  | ir.RegisterDef d _ => onWorld (registerDef d) ;* xret Falls
  | ir.RunDefers policy sp => execRunDefers policy sp
  | ir.Eval dst e _ => let* v := onWorld (evalExpr run e) in store dst (SValue v) ;* xret Falls
  | ir.BuildArgs dst es _ => let* a := onWorld (evalArgs run es) in store dst (SArgs a) ;* xret Falls
  | ir.DispatchCommand argv policy traced sp =>
    let* args := argvAt argv sp in
    (if traced then onWorld (traceNote sp (renderArgvTrace args)) else xret tt) ;*
    (let* inDef := ofEx inDef in
     orRetry (if inDef then id else FrameAt sp) (fun _ => xret Falls)
       (onWorld (dispatchCommandByPolicy run policy args (Start sp) sp)))
  | ir.DispatchBind dst argv callPos policy header sp =>
    let* args := argvAt argv sp in
    (if negb (bool_decide (header = []))
     then onWorld (traceNote sp (header ++ B " <- " ++ renderArgvTrace args)) else xret tt) ;*
    match ExecBind with
    | None => xfail (SpanErrorf sp "no bind handler installed")
    | Some _ =>
      let callPos := if (Line callPos =? 0)%Z then Start sp else callPos in
      orRetry (FrameAt sp) (fun result => modifyEx (setBindArgs dst args) ;* store dst (SBind result) ;* xret Falls)
        (onWorld (dispatchBindByPolicy run policy args callPos sp))
    end
  | ir.BindName name src tracePrefix sp =>
    let* v := valueAt src sp in
    (if negb (bool_decide (tracePrefix = [])) then onWorld (traceValue sp tracePrefix v) else xret tt) ;*
    onWorld (SessionSet name v) ;* xret Falls
  | ir.ApplyBind src argv target guard onFail sp => applyBind src argv target guard onFail sp
  | ir.BindDestructure names src traced sp =>
    let* v := valueAt src sp in
    onWorld (bindDestructure names v sp) ;*
    (if traced then onWorld (emitDestructureTrace names v sp) else xret tt) ;* xret Falls
  | ir.BuildEnvelope dst code err _ =>
    store dst (SValue (ValueFromEnvelope (MkEnvelope code [] err false [] false 0))) ;* xret Falls
  | ir.EmitBindResult _ _ _ => xret Falls
  | ir.EmitResult src traced sp =>
    let* v := valueAt src sp in
    (if traced then onWorld (traceValue sp (B "expr ") v) else xret tt) ;*
    match PrintResult with
    | None => xret Falls
    | Some print =>
      let* e := onWorld (fun w => let '(e, d) := print v (drv w) in (Ok e, setDrv d w)) in
      match e with Some e => xfail e | None => xret Falls end
    end
  | ir.TraceNote msg sp => onWorld (traceNote sp msg) ;* xret Falls
  | ir.Branch cond t f sp =>
    let* v := valueAt cond sp in
    let* b := xliftWith (wrapMsg sp "exec: branch condition: %v") (AsBool v) in
    xret (Next (if b then t else f))
  | ir.Jump t _ => xret (Next t)
  | ir.Stop _ => xret Halts
  | ir.ReturnValue src to traced sp =>
    let* v := valueAt src sp in
    (if traced then onWorld (traceValue sp (B "return ") v) else xret tt) ;*
    modifyEx (setReturn v) ;* xret (Next to)
  | ir.PropagateError sp => propagateError sp
  | ir.PropagateGuardFailure primary head argSpan code out err killed signal pid sp =>
    xfail (GuardFailure sp primary [WordArg head argSpan]
      (MkEnvelope code out err killed signal (match pid with Some _ => true | None => false end) (default 0%Z pid)))
  | ir.Fail msg sp => xfail (SpanErrorf sp "%s")
  | ir.Assert isRequire clause sp =>
    match ExecAssert with
    | None => xfail (SpanErrorf sp "assert: handler not installed")
    | Some f => onWorld (f isRequire clause sp) ;* xret Falls
    end
  | ir.ForEach list_ names body exit sp => execForEach list_ names body exit sp
  | ir.ForEachContinue sp => execForEachContinue sp
  | ir.ExitLoop sp => execExitLoop sp
  | ir.BeginPoll timeout every attempt onTimeout onSuccess sp => beginPoll timeout every attempt onTimeout onSuccess sp
  | ir.RetryPoll message sp => execRetryPoll message sp
  | ir.ForEachCollect list_ names target guard body exit sp => execForEachCollect list_ names target guard body exit sp
  | ir.CollectProduce result frameSpan sp => execCollectProduce result frameSpan sp
  end.

Fixpoint runBlock (l : list ir.Instr) : M flow :=
  match l with
  | [] => xret Falls
  | i :: l => let* f := execInstr i in match f with Falls => runBlock l | _ => xret f end
  end.

(** A block is there: Go has a pointer to it. *)
Fixpoint runUnit (memory : list ir.BasicBlock) (steps : nat) (cur : ir.block) : M unit :=
  match steps with
  | O => fun s => (NoFuel, s)
  | S n =>
    enterBlock cur ;*
    match memory !! cur with
    | None => xpanic
    | Some blk =>
      let* f := runBlock (ir.instrs blk) in
      match f with Next b => runUnit memory n b | _ => xret tt end
    end
  end.

(** The unit, and the clean-up after it. *)
Definition runAndUnwind (memory : list ir.BasicBlock) (steps : nat) (entry : ir.block) (frame : rerror -> rerror) : M unit :=
  let* r := xtry (runUnit memory steps entry) in
  unwindOnExit ;* match r with inl _ => xret tt | inr e => xfail (frame e) end.

Fixpoint bindArgsFrom (params : list ir.Param) (args : list Arg) (i : nat) : M unit :=
  match args with
  | [] => xret tt
  | a :: args =>
    match params with
    | [] => xpanic
    | p :: params =>
      let* v := xlift (bindDefArg p a) in store i (SValue v) ;* bindArgsFrom params args (S i)
    end
  end.

Definition runLoweredDefCall (steps : nat) (def : defValue) (entry : ir.block) (args : list Arg) : W (Value * bool * nat) :=
  let* depth := FrameDepth in
  withExecutor (newExecutor depth (dvNumTemps def) true false)
    (bindArgsFrom (dvParams def) args 0 ;*
     runAndUnwind (dvMemory def) steps entry id ;*
     ofEx (fun ex => (returnValue ex, hasReturn ex, localDeferFailures ex))).

(** A guard failure that no dispatch has framed is framed at its own span. *)
Definition frameGuard (e : rerror) : rerror :=
  match e with GuardFailure sp _ _ _ => FrameAt sp e | _ => e end.

Definition execProgram (steps : nat) (lp : ir.Program) (skip : bool) : W unit :=
  registerLoweredDefs (ir.prDefs lp) ;*
  (let* depth := FrameDepth in
   withExecutor (newExecutor depth (ir.prNumTemps lp) false skip)
     (runAndUnwind (ir.prMemory lp) steps (ir.prBody lp) frameGuard)).
End exec.

(** Calls of defs nest to [MaxDefCallDepth] at most, so that [calls] does not run out;
    what comes after is an overflow of Go's stack. *)
Section knot.
Context `{Foreign} `{!DriverTypes} `{!Driver}.

Fixpoint runCalls (steps calls : nat) (def : defValue) (entry : ir.block) (args : list Arg) : W (Value * bool * nat) :=
  match calls with
  | O => xpanic
  | S n => runLoweredDefCall (runCalls steps n) steps def entry args
  end.

Definition Exec (steps : nat) (lp : ir.Program) : W unit :=
  withJobScope (execProgram (runCalls steps MaxDefCallDepth) steps lp false).
End knot.
