(* ===== verification/ExecLogic.v ===== *)
(** * A program logic for the executor

    Weakest preconditions of computations that may fail, what a computation on the
    session and the environment has to leave as it was, the laws of a driver, and the
    evaluation of expressions and arguments, which keeps them. At the end, the
    measure with which the runs of a unit end: for each enclosing loop or poll the
    iterations or the time it has left and how far its exit is from the end of the
    unit, and how far the current block is. *)

From Stdlib Require Import ZArith Lia Ascii Wellfounded.
From stdpp Require Import base tactics list gmap strings option.
From S2P Require Import Prelude Lexer Literals Floats Value Operands Ir IrTyping World Eval Exec.

#[local] Open Scope shell_scope.

(** ** Weakest preconditions

    A computation comes with the number of steps it may make. It is run with enough
    of them: from some number on it gives one result, which is not the end of the
    steps. [Q] is for a value and [E] for an error; a panic is excluded. *)

Section wp.
Context `{Foreign}.

Definition xwp {S A} (m : nat -> X S A) (Q : A -> S -> Prop) (E : rerror -> S -> Prop) (s : S) : Prop :=
  exists k r s', (forall k', k <= k' -> m k' s = (r, s')) /\
    match r with
    | Ok a => Q a s'
    | Err e => E e s'
    | Panics | NoFuel => False
    end.

Section rules.
Context {S : Type}.
Implicit Types s : S.

Lemma xwp_result {A} (m : nat -> X S A) r s' Q E s :
  (forall k, m k s = (r, s')) -> match r with Ok a => Q a s' | Err e => E e s' | Panics | NoFuel => False end -> xwp m Q E s.
Proof. intros Hm Hr. exists 0, r, s'. auto. Qed.

Lemma xwp_mono {A} (m : nat -> X S A) Q Q' (E E' : rerror -> S -> Prop) s :
  xwp m Q E s -> (forall a s', Q a s' -> Q' a s') -> (forall e s', E e s' -> E' e s') -> xwp m Q' E' s.
Proof. intros (k & r & s' & Hm & Hr) HQ HE. exists k, r, s'. split; [done|]. destruct r; auto. Qed.

Lemma xwp_bind {A C} (m : nat -> X S A) (f : nat -> A -> X S C) Q E s :
  xwp m (fun a => xwp (fun k => f k a) Q E) E s -> xwp (fun k => xbind (m k) (f k)) Q E s.
Proof.
  intros (k & [a|e| |] & s' & Hm & Hr); [|exists k, (Err e), s'|done..].
  - destruct Hr as (k2 & r2 & s2 & Hm2 & Hr2). exists (Nat.max k k2), r2, s2. split; [|done].
    intros k' Hk. unfold xbind. rewrite Hm by lia. apply Hm2. lia.
  - split; [|done]. intros k' Hk. unfold xbind. by rewrite Hm.
Qed.

Lemma xwp_ret {A} (a : A) Q E s : Q a s -> xwp (fun _ => xret a) Q E s.
Proof. intros HQ. by apply (xwp_result _ (Ok a) s). Qed.

Lemma xwp_fail {A} e (Q : A -> S -> Prop) E s : E e s -> xwp (fun _ => xfail e) Q E s.
Proof. intros HE. by apply (xwp_result _ (Err e) s). Qed.

Lemma xwp_get {A} (f : S -> A) Q E s : Q (f s) s -> xwp (fun _ => xget f) Q E s.
Proof. intros HQ. by apply (xwp_result _ (Ok (f s)) s). Qed.

Lemma xwp_modify (f : S -> S) Q E s : Q tt (f s) -> xwp (fun _ => xmodify f) Q E s.
Proof. intros HQ. by apply (xwp_result _ (Ok tt) (f s)). Qed.

Lemma xwp_try {A} (m : nat -> X S A) (Q : A + rerror -> S -> Prop) E s :
  xwp m (fun a => Q (inl a)) (fun e => Q (inr e)) s -> xwp (fun k => xtry (m k)) Q E s.
Proof.
  intros (k & r & s' & Hm & Hr). exists k, (match r with Ok a => Ok (inl a) | Err e => Ok (inr e) | Panics => Panics | NoFuel => NoFuel end), s'.
  split; [|by destruct r]. intros k' Hk. unfold xtry. rewrite Hm by done. by destruct r.
Qed.

Lemma xwp_lift {A} (o : outcome rerror A) Q E s :
  o <> OutOfFuel -> (forall a, o = Done a -> Q a s) -> (forall e, o = Failed e -> E e s) -> xwp (fun _ => xlift o) Q E s.
Proof. destruct o; intros Ho HQ HE; [apply xwp_ret|apply xwp_fail|]; auto; done. Qed.

Lemma xwp_liftWith {A F} (f : F -> rerror) (o : outcome F A) Q E s :
  o <> OutOfFuel -> (forall a, Q a s) -> (forall e, E (f e) s) -> xwp (fun _ => xliftWith f o) Q E s.
Proof. destruct o; intros Ho HQ HE; [apply xwp_ret|apply xwp_fail|]; auto; done. Qed.
End rules.

Lemma xwp_onWorld `{!DriverTypes} {A} (m : nat -> W A) Q E ex w :
  xwp m (fun a w' => Q a (ex, w')) (fun e w' => E e (ex, w')) w -> xwp (fun k => onWorld (m k)) Q E (ex, w).
Proof.
  intros (k & r & w' & Hm & Hr). exists k, r, (ex, w'). split; [|done]. intros k' Hk. unfold onWorld. by rewrite Hm.
Qed.

Lemma xwp_withExecutor `{!DriverTypes} {A} ex (m : nat -> M A) Q E w :
  xwp m (fun a s => Q a s.2) (fun e s => E e s.2) (ex, w) -> xwp (fun k => withExecutor ex (m k)) Q E w.
Proof.
  intros (k & r & [ex' w'] & Hm & Hr). exists k, r, w'. split; [|done]. intros k' Hk. unfold withExecutor. by rewrite Hm.
Qed.

(** An error that does not report inconsistent IR. *)
Definition consistent (e : rerror) : Prop := match e with BadIR _ _ _ => False | _ => True end.

Lemma consistent_wrap sp f e : consistent e -> consistent (wrapText sp f e).
Proof. by destruct e. Qed.
Lemma consistent_frame sp e : consistent e -> consistent (FrameAt sp e).
Proof. by destruct e as [| | | | | |[]]. Qed.
Lemma consistent_path sp e : consistent (pathErrorAt sp e).
Proof. by destruct e. Qed.
End wp.

(** ** Pure steps return *)

Lemma parsePath_returns fuel : forall path steps, length path < fuel -> parsePath_from fuel path steps <> OutOfFuel.
Proof.
  induction fuel as [|fuel IH]; intros path steps Hf; [lia|]. cbn [parsePath_from]. destruct path as [|c path]; [done|].
  cbn in Hf. destruct (c =? ".")%char eqn:Ec; [destruct path as [|d path]; [done|]|].
  - destruct (d =? lbracket)%char.
    + destruct (_ <=? _); [done|]. destruct (Atoi _); [|done]. apply IH. rewrite length_drop. cbn in *. lia.
    + apply IH. rewrite length_drop. cbn in *. lia.
  - destruct (c =? lbracket)%char eqn:Eb.
    + destruct (_ <=? _); [done|]. destruct (Atoi _); [|done]. apply IH. rewrite length_drop. cbn in *. lia.
    + apply IH. cbn [prefix_len]. rewrite Ec, Eb. cbn. rewrite length_drop. lia.
Qed.

Section pure.
Context `{Foreign}.

Lemma stepValue_returns v step : stepValue v step <> OutOfFuel.
Proof. unfold stepValue. by repeat case_match. Qed.

Lemma walkSteps_returns steps : forall v, walkSteps v steps <> OutOfFuel.
Proof.
  induction steps as [|step steps IH]; intros v; [done|]. cbn [walkSteps].
  pose proof (stepValue_returns v step). destruct (stepValue v step); cbn; [apply IH|done|done].
Qed.

Lemma LookupValue_returns v path : LookupValue v path <> OutOfFuel.
Proof.
  unfold LookupValue, lookupPath. destruct path as [|c path]; [done|].
  pose proof (parsePath_returns (S (length (c :: path))) (c :: path) [] ltac:(lia)) as Hp. unfold ParsePath.
  destruct (parsePath_from _ _ _); [apply walkSteps_returns|done|done].
Qed.

Lemma LookupPresence_returns v path : LookupPresence v path <> OutOfFuel.
Proof.
  unfold LookupPresence. pose proof (LookupValue_returns v path) as Hp. unfold LookupValue in Hp.
  by destruct (lookupPath v path) as [|[]|].
Qed.

Lemma Scalar_returns v : Scalar v <> OutOfFuel.
Proof. unfold Scalar. by repeat case_match. Qed.

Lemma RenderCompact_returns v : RenderCompact v <> OutOfFuel.
Proof. unfold RenderCompact. repeat case_match; try done. apply Scalar_returns. Qed.

Lemma AsBool_returns v : AsBool v <> OutOfFuel.
Proof. unfold AsBool. by repeat case_match. Qed.

Lemma valueToArg_returns v sp : valueToArg v sp <> OutOfFuel.
Proof.
  unfold valueToArg. repeat case_match; try done. pose proof (Scalar_returns v). by destruct (Scalar v).
Qed.

Lemma literalValueParts_returns text quoted : literalValueParts text quoted <> OutOfFuel.
Proof. unfold literalValueParts. by repeat case_match. Qed.

Lemma parseShellNumber_returns text : parseShellNumber text <> OutOfFuel.
Proof. unfold parseShellNumber. by repeat case_match. Qed.

Lemma toFloat_returns x : toFloat x <> OutOfFuel.
Proof. unfold toFloat. by repeat case_match. Qed.

(** An outcome of two parts. *)
Lemma obind_returns {E A C} (o : outcome E A) (f : A -> outcome E C) :
  o <> OutOfFuel -> (forall a, f a <> OutOfFuel) -> obind o f <> OutOfFuel.
Proof. by destruct o; cbn. Qed.

Lemma wrapped_returns {E A} (f : E -> E) (o : outcome E A) :
  o <> OutOfFuel -> match o with Failed e => Failed (f e) | o' => o' end <> OutOfFuel.
Proof. by destruct o. Qed.

Lemma evalArithmetic_returns op l r : evalArithmetic op l r <> OutOfFuel.
Proof.
  unfold evalArithmetic. do 2 (apply obind_returns; [apply wrapped_returns, parseShellNumber_returns|intros ?]).
  repeat first [done | by exfalso; eapply toFloat_returns | apply toFloat_returns | apply obind_returns; [|intros ?] | case_match].
Qed.

Lemma evalNumericComparison_returns op l r : evalNumericComparison op l r <> OutOfFuel.
Proof.
  unfold evalNumericComparison. do 2 (apply obind_returns; [apply parseShellNumber_returns|intros ?]).
  repeat first [done | by exfalso; eapply toFloat_returns | apply toFloat_returns | apply obind_returns; [|intros ?] | case_match].
Qed.

Lemma evalCompare_returns op l r sp : evalCompare op l r sp <> OutOfFuel.
Proof.
  unfold evalCompare. pose proof (Scalar_returns l). pose proof (Scalar_returns r).
  pose proof (evalNumericComparison_returns op).
  assert (forall a b, evalSymbolicTextComparison op a b <> OutOfFuel) by (intros; unfold evalSymbolicTextComparison; by case_match).
  repeat first [done | case_match]; try congruence; naive_solver.
Qed.

Lemma evalNotEmpty_returns v sp : evalNotEmpty v sp <> OutOfFuel.
Proof. unfold evalNotEmpty. by repeat case_match. Qed.

Lemma evalMatchesTarget_returns v b : evalMatchesTarget v b <> OutOfFuel.
Proof. unfold evalMatchesTarget. by repeat case_match. Qed.

Lemma bindDefArg_returns p a : bindDefArg p a <> OutOfFuel.
Proof. unfold bindDefArg. by repeat case_match. Qed.
End pure.

Create HintDb returns discriminated.
#[export] Hint Resolve LookupValue_returns LookupPresence_returns Scalar_returns RenderCompact_returns AsBool_returns
  valueToArg_returns literalValueParts_returns evalArithmetic_returns evalCompare_returns evalNotEmpty_returns
  evalMatchesTarget_returns bindDefArg_returns : returns.


(** ** What stays *)

Section stable.
Context `{Foreign} `{!DriverTypes} `{!Driver}.

(** A def whose body is a well-formed unit with its blocks in order. *)
Definition goodDefValue (d : defValue) : Prop :=
  exists Psi order entry, dvEntry d = Some entry /\
    unitOk true Psi (dvNumTemps d) entry (length (dvParams d)) (dvMemory d) = true /\ ordered order Psi 0 Psi (dvMemory d) = true.

Definition goodDefs (w : world) : Prop := map_Forall (fun _ d => goodDefValue d) (sdefs w).

(** What the clock shows, and an action of the driver that does not set it back. *)
Definition time (d : dState) : Z := (Now d).1.
Definition onward (f : dState -> dState) : Prop := forall d, (time d <= time (f d))%Z.

(** The frames by their number, the defer scope, the polls, the depth of the calls
    and the draining flag; the defs stay well formed and the time goes on. *)
Record stable (w w' : world) : Prop := MkStable {
  st_frames : length (frames w') = length (frames w);
  st_defers : defers w' = defers w;
  st_polls : activePolls w' = activePolls w;
  st_depth : defCallDepth w' = defCallDepth w;
  st_draining : draining w' = draining w;
  st_defs : goodDefs w -> goodDefs w';
  st_time : (time (drv w) <= time (drv w'))%Z
}.

#[export] Instance stable_preorder : PreOrder stable.
Proof.
  split.
  - by intros w.
  - intros w1 w2 w3 [] []. split; [congruence..|auto|lia].
Qed.

Lemma stable_drv w f : onward f -> stable w (setDrv (f (drv w)) w).
Proof. intros Hf. by split. Qed.

(** A state in which [n] more calls of defs may nest. *)
Record okWorld (n : nat) (w : world) : Prop := MkOk {
  ok_frames : 1 <= length (frames w);
  ok_defs : goodDefs w;
  ok_depth : defCallDepth w <= MaxDefCallDepth;
  ok_calls : MaxDefCallDepth < n + defCallDepth w
}.

Lemma okWorld_stable n w w' : okWorld n w -> stable w w' -> okWorld n w'.
Proof. intros [] []. split; [lia|auto|lia|lia]. Qed.

(** A computation that keeps all that. *)
Definition keeps {A} (n : nat) (m : nat -> W A) : Prop :=
  forall w, okWorld n w -> xwp m (fun _ => stable w) (fun e w' => stable w w' /\ consistent e) w.

Section rules.
Context {n : nat}.

Lemma kept_ret {A} (a : A) : keeps n (fun _ => xret a).
Proof. intros w _. apply xwp_ret. reflexivity. Qed.

Lemma keeps_fail {A} e : consistent e -> keeps n (fun _ => xfail (A := A) e).
Proof. intros He w _. apply xwp_fail. split; [reflexivity|done]. Qed.

Lemma keeps_get {A} (f : world -> A) : keeps n (fun _ => xget f).
Proof. intros w _. apply xwp_get. reflexivity. Qed.

Lemma keeps_modify f : (forall w, okWorld n w -> stable w (f w)) -> keeps n (fun _ => xmodify f).
Proof. intros Hf w Hw. apply xwp_modify. by apply Hf. Qed.

Lemma kept_bind {A C} (m : nat -> W A) (f : nat -> A -> W C) :
  keeps n m -> (forall a, keeps n (fun k => f k a)) -> keeps n (fun k => xbind (m k) (f k)).
Proof.
  intros Hm Hf w Hw. apply xwp_bind. eapply xwp_mono; [by apply Hm| |done].
  intros a w1 Hs1. eapply xwp_mono; [apply Hf; by eapply okWorld_stable| |].
  - intros c w2 Hs2. by transitivity w1.
  - intros e w2 [Hs2 He]. split; [by transitivity w1|done].
Qed.

Lemma keeps_onError {A} f (m : nat -> W A) :
  (forall e, consistent e -> consistent (f e)) -> keeps n m -> keeps n (fun k => OnError f (m k)).
Proof.
  intros Hf Hm w Hw. apply xwp_bind, xwp_try. eapply xwp_mono; [by apply Hm| |].
  - intros a w1 Hs1. by apply xwp_ret.
  - intros e w1 [Hs1 He]. apply xwp_fail. split; [done|by apply Hf].
Qed.

Lemma keeps_try {A} (m : nat -> W A) : keeps n m -> keeps n (fun k => xtry (m k)).
Proof. intros Hm w Hw. apply xwp_try. eapply xwp_mono; [by apply Hm|done|by intros ? ? []]. Qed.

Lemma keeps_liftWith {A F} (f : F -> rerror) (o : outcome F A) :
  o <> OutOfFuel -> (forall e, consistent (f e)) -> keeps n (fun _ => xliftWith f o).
Proof. intros Ho Hf w _. apply xwp_liftWith; [done|reflexivity|]. split; [reflexivity|done]. Qed.

Lemma kept_lift {A} (o : outcome rerror A) :
  o <> OutOfFuel -> (forall e, o = Failed e -> consistent e) -> keeps n (fun _ => xlift o).
Proof. intros Ho He w _. apply xwp_lift; [done|reflexivity|]. intros e Hf. split; [reflexivity|by apply He]. Qed.

Lemma kept_if {A} (b : bool) (m1 m2 : nat -> W A) :
  keeps n m1 -> keeps n m2 -> keeps n (fun k => if b then m1 k else m2 k).
Proof. by destruct b. Qed.
End rules.

Lemma keeps_set n name v : keeps n (fun _ => SessionSet name v).
Proof.
  intros w [Hf _ _ _]. destruct (frames w) as [|f fs] eqn:E; [cbn in Hf; lia|].
  apply (xwp_result _ (Ok tt) (setFrames (<[name := v]> f :: fs) w)).
  - intros k. unfold SessionSet. by rewrite E.
  - split; cbn; try done. by rewrite E.
Qed.
End stable.

(** ** Drivers *)

(** What the hooks of a driver have to respect: they leave the frames, the defer
    scope, the polls, the depth of the calls and the draining flag as they were and
    the defs well formed, do not panic and make no errors about the IR. The handler
    of leaked jobs leaves the job registry, too. The clock does not go back, and a
    sleep lasts as long as it was asked for. *)
Class DriverLaws `{Foreign} `{!DriverTypes} `{!Driver} := {
  law_command : forall n f, ExecCommand = Some f -> forall args sp, keeps n (fun _ => f args sp);
  law_bind : forall n f, ExecBind = Some f -> forall args sp, keeps n (fun _ => f args sp);
  law_assert : forall n f, ExecAssert = Some f -> forall r c sp, keeps n (fun _ => f r c sp);
  law_print : forall f, PrintResult = Some f -> forall v d,
    (time d <= time (f v d).2)%Z /\ forall e, (f v d).1 = Some e -> consistent e;
  law_leak : forall n f, HandleJobLeak = Some f -> forall j, keeps n (fun _ => f j);
  law_leak_jobs : forall f, HandleJobLeak = Some f -> forall j w, jobs (f j w).2 = jobs w;
  law_deferFailure : forall f, RenderDeferFailure = Some f -> forall p a e, onward (f p a e);
  law_deferOutput : forall f, RenderDeferOutput = Some f -> forall a e, onward (f a e);
  law_pollFailure : forall f, RenderPollFailure = Some f -> forall sp t e n l, onward (f sp t e n l);
  law_trace : forall t p text, onward (Trace t p text);
  law_now : forall d, (time d <= time (Now d).2)%Z;
  law_sleep : forall t d, (0 < t)%Z -> (time d + t <= time (Sleep t d))%Z
}.

Section hooks.
Context `{Foreign} `{!DriverTypes} `{!Driver} `{!DriverLaws}.

Lemma keeps_driverHook n h : (forall f, h = Some f -> onward f) -> keeps n (fun _ => driverHook h).
Proof. intros Hh. apply keeps_modify. intros w _. destruct h as [f|]; [|reflexivity]. by apply stable_drv, Hh. Qed.

Lemma keeps_traceRendered n pos text : keeps n (fun _ => traceRendered pos text).
Proof.
  intros w _. destruct (trace w) as [t|] eqn:E.
  - apply (xwp_result _ (Ok tt) (setDrv (Trace t pos text (drv w)) w)).
    + intros k. unfold traceRendered. by rewrite E.
    + apply stable_drv, law_trace.
  - apply (xwp_result _ (Ok tt) w); [|reflexivity]. intros k. unfold traceRendered. by rewrite E.
Qed.

Lemma keeps_now n : keeps n (fun _ => now).
Proof.
  intros w _. apply (xwp_result _ (Ok (time (drv w))) (setDrv (Now (drv w)).2 w)).
  - intros k. unfold now, time. by destruct (Now (drv w)).
  - apply (stable_drv w (fun d => (Now d).2)). intros d. apply law_now.
Qed.
End hooks.

Create HintDb keeps discriminated.
#[export] Hint Resolve kept_ret keeps_get keeps_set keeps_traceRendered keeps_now : keeps.
#[export] Hint Extern 1 (keeps _ (fun _ => xfail _)) => apply keeps_fail; exact I : keeps.

(** One step through the shape of a computation. *)
Ltac keeps1 :=
  match goal with
  | |- keeps _ (fun k => xbind _ _) => apply kept_bind; [|intros ?]
  | |- keeps _ (fun k => OnError _ _) => apply keeps_onError; [intros ? ?|]
  | |- keeps _ (fun k => xtry _) => apply keeps_try
  | |- keeps _ (fun k => if _ then _ else _) => apply kept_if
  | |- keeps _ (fun k => xliftWith _ _) => apply keeps_liftWith; [auto with returns|intros ?; try exact I]
  | |- keeps _ (fun k => match ?x with _ => _ end) => destruct x
  | |- keeps _ (fun k => let '(_, _) := ?x in _) => destruct x
  | |- keeps _ _ => solve [eauto 2 with keeps]
  | |- consistent _ => solve [exact I | assumption | eauto using consistent_wrap, consistent_frame, consistent_path]
  end.
Ltac keeps_tac := repeat keeps1.

(** ** Calls *)

Section evaluation.
Context `{Foreign} `{!DriverTypes} `{!Driver} `{!DriverLaws}.
Context (n : nat) (run : nat -> defValue -> ir.block -> list Arg -> W (Value * bool * nat)).

Definition runOk : Prop := forall def entry args,
  goodDefValue def -> dvEntry def = Some entry -> length args = length (dvParams def) -> keeps n (fun k => run k def entry args).
Context (Hrun : runOk).

Lemma runDefCall_keeps def args loc : goodDefValue def -> keeps (S n) (fun k => runDefCall (run k) def args loc).
Proof.
  intros Hd w Hw. unfold runDefCall. destruct (Nat.eqb_spec (length args) (length (dvParams def))) as [Hl|Hl].
  2: { apply xwp_fail. split; [reflexivity|exact I]. }
  cbn [negb]. apply xwp_bind, xwp_get. destruct (Nat.leb_spec MaxDefCallDepth (defCallDepth w)) as [Hm|Hm].
  { apply xwp_fail. split; [reflexivity|exact I]. }
  apply xwp_bind, xwp_modify, xwp_bind, xwp_try.
  pose proof Hd as (Psi & order & entry & He & Hu & _). rewrite He.
  assert (okWorld n (setDepth (S (defCallDepth w)) w)) as Hw'.
  { destruct Hw. split; cbn; [done|done|lia|lia]. }
  assert (forall w', stable (setDepth (S (defCallDepth w)) w) w' -> stable w (setDepth (defCallDepth w' - 1) w')) as Hback.
  { intros w' []. split; cbn in *; try done. lia. }
  eapply xwp_mono; [by apply Hrun| |].
  - intros a w' Hs. apply xwp_bind, xwp_modify, xwp_ret. by apply Hback.
  - intros e w' [Hs Hc]. apply xwp_bind, xwp_modify, xwp_fail. split; [by apply Hback|done].
Qed.

Lemma consistent_decorate e def loc : consistent e -> consistent (decorateDefError e def loc).
Proof. by destruct e. Qed.

(** A def that a head names is well formed. *)
Lemma keeps_head {A} args (f : nat -> option defValue -> W A) :
  (forall def, goodDefValue def -> keeps (S n) (fun k => f k (Some def))) -> keeps (S n) (fun k => f k None) ->
  keeps (S n) (fun k => xbind (lookupDefHead args) (f k)).
Proof.
  intros Hs Hn w Hw. apply xwp_bind. unfold lookupDefHead.
  destruct args as [|a args]; [by apply xwp_ret, Hn|]. destruct (commandHeadName a) as [name|]; [|by apply xwp_ret, Hn].
  apply xwp_get. destruct (sdefs w !! name) as [d|] eqn:E; [|by apply Hn]. apply Hs; [|done].
  by apply (map_Forall_lookup_1 _ _ _ _ (ok_defs _ _ Hw) E).
Qed.

Lemma dispatchBind_keeps args loc sp : ExecBind <> None ->
  keeps (S n) (fun k => dispatchBindByPolicy (run k) ir.DispatchPolicyDefThenExecBind args loc sp).
Proof.
  intros Hb. cbn [dispatchBindByPolicy]. apply keeps_head.
  - intros def Hd. unfold callDefAsBind. apply kept_bind.
    + apply keeps_onError; [auto using consistent_decorate|by apply runDefCall_keeps].
    + intros [[v b] k]. apply kept_ret.
  - unfold execBind. destruct ExecBind as [f|] eqn:E; [|done]. by eapply law_bind.
Qed.

Lemma dispatchCommand_keeps args loc sp :
  keeps (S n) (fun k => dispatchCommandByPolicy (run k) ir.DispatchPolicyDefThenExecCommand args loc sp).
Proof.
  cbn [dispatchCommandByPolicy]. apply keeps_head.
  - intros def Hd. unfold callDef. apply kept_bind; [|intros; apply kept_ret].
    apply keeps_onError; [auto using consistent_decorate|by apply runDefCall_keeps].
  - destruct ExecCommand as [f|] eqn:E; [|keeps_tac]. apply kept_bind; [|intros; apply kept_ret].
    apply keeps_onError; [auto using consistent_frame|]. by eapply law_command.
Qed.

(** ** Variables *)

Lemma resolveSegments_keeps sp path : forall k, keeps (S n) (fun _ => resolveSegments sp k path).
Proof.
  induction path as [|c path IH]; intros k; [apply kept_ret|]. cbn [resolveSegments]. destruct k; [|apply IH].
  repeat first [apply IH | keeps1].
Qed.

Lemma resolveDynamicPath_keeps path sp : keeps (S n) (fun _ => resolveDynamicPath path sp).
Proof. unfold resolveDynamicPath. apply kept_if; [apply kept_ret|apply resolveSegments_keeps]. Qed.
End evaluation.
#[export] Hint Resolve resolveDynamicPath_keeps : keeps.
#[export] Hint Extern 1 (keeps _ (fun _ => SessionGet _)) => apply keeps_get : keeps.

Section operands.
Context `{Foreign} `{!DriverTypes} `{!Driver} (n : nat).

Lemma resolveVarRefValueParts_keeps name path sp : keeps (S n) (fun _ => resolveVarRefValueParts name path sp).
Proof. unfold resolveVarRefValueParts. keeps_tac. Qed.

Lemma resolveVarRefArgParts_keeps name path sp : keeps (S n) (fun _ => resolveVarRefArgParts name path sp).
Proof. unfold resolveVarRefArgParts. keeps_tac. Qed.

Lemma resolveAdapterArgParts_keeps adapter name path sp : keeps (S n) (fun _ => resolveAdapterArgParts adapter name path sp).
Proof. unfold resolveAdapterArgParts. keeps_tac. Qed.

Lemma evalArgWith_keeps (ev : nat -> ir.Expr -> W Value) e :
  keeps (S n) (fun k => ev k e) -> keeps (S n) (fun k => evalArgWith (ev k) e).
Proof.
  intros He. destruct e; cbn [evalArgWith];
    first [apply kept_ret | apply resolveVarRefArgParts_keeps | apply resolveAdapterArgParts_keeps
          | apply kept_bind; [exact He|intros v; keeps_tac]].
Qed.

Lemma primaryOf_keeps sp f g r : keeps (S n) (fun _ => primaryOf sp f g r).
Proof. unfold primaryOf. keeps_tac. Qed.

Lemma evalCompare_consistent op l r sp e : evalCompare op l r sp = Failed e -> consistent e.
Proof.
  unfold evalCompare. repeat case_match; try done; try (intros [= <-]; exact I).
Qed.

Lemma evalBinary_keeps op l r sp : keeps (S n) (fun _ => evalBinary op l r sp).
Proof. unfold evalBinary. keeps_tac. apply kept_lift; [auto with returns|]. intros e. apply evalCompare_consistent. Qed.

Lemma evalNotEmpty_keeps v sp : keeps (S n) (fun _ => xlift (evalNotEmpty v sp)).
Proof.
  apply kept_lift; [auto with returns|]. intros e. unfold evalNotEmpty. repeat case_match; try done; by intros [= <-].
Qed.

Lemma evalNegate_keeps v sp : keeps (S n) (fun _ => evalNegate v sp).
Proof. unfold evalNegate. keeps_tac. Qed.

Lemma evalMatchesTarget_keeps v b : keeps (S n) (fun _ => xlift (evalMatchesTarget v b)).
Proof.
  apply kept_lift; [auto with returns|]. intros e. unfold evalMatchesTarget. repeat case_match; try done; by intros [= <-].
Qed.
End operands.
#[export] Hint Resolve resolveVarRefValueParts_keeps resolveVarRefArgParts_keeps resolveAdapterArgParts_keeps
  evalArgWith_keeps primaryOf_keeps evalBinary_keeps evalNotEmpty_keeps evalNegate_keeps evalMatchesTarget_keeps : keeps.

(** ** Expressions *)

Section expressions.
Context `{Foreign} `{!DriverTypes} `{!Driver} `{!DriverLaws}.
Context (n : nat) (run : nat -> defValue -> ir.block -> list Arg -> W (Value * bool * nat)) (Hrun : runOk n run).

Lemma pureCall_keeps args sp f : ExecBind = Some f -> keeps (S n) (fun _ => f args sp).
Proof. intros E. by apply law_bind. Qed.

Ltac elems IH := repeat first [assumption | apply IH | keeps1].

Fixpoint evalExpr_keeps (e : ir.Expr) {struct e} : keeps (S n) (fun k => evalExpr (run k) e)
with evalMatchesBlock_keeps (b : ir.MatchesBlockExpr) {struct b} : keeps (S n) (fun k => evalMatchesBlock (run k) b)
with evalMatchEntry_keeps (e : ir.MatchEntry) {struct e} : keeps (S n) (fun k => evalMatchEntry (run k) e).
Proof.
  - destruct e as [| | |elems|fields|segments|lhs args| | | | | |name args|]; cbn [evalExpr].
    4: { apply kept_bind; [|intros; apply kept_ret]. induction elems; [apply kept_ret|elems evalExpr_keeps]. }
    4: { apply kept_bind; [|intros; apply kept_ret]. induction fields as [|[]]; [apply kept_ret|elems evalExpr_keeps]. }
    4: { apply kept_bind; [|intros; apply kept_ret]. induction segments as [|[]]; [apply kept_ret|elems evalExpr_keeps..]. }
    4: { destruct ExecBind as [f|] eqn:E; [|keeps_tac]. apply kept_bind.
         - induction args as [|x args IHa]; [apply kept_ret|].
           apply kept_bind; [apply evalArgWith_keeps, evalExpr_keeps|intros a].
           apply kept_bind; [exact IHa|intros; apply kept_ret].
         - intros as_. apply kept_bind; [apply keeps_onError; [apply consistent_wrap|apply evalArgWith_keeps, evalExpr_keeps]|].
           intros a. apply kept_bind; [|intros; apply primaryOf_keeps].
           apply keeps_onError; [apply consistent_frame|]. apply dispatchBind_keeps; [exact Hrun|by rewrite E]. }
    9: { destruct ExecBind as [f|] eqn:E; [|keeps_tac]. apply kept_bind.
         - induction args as [|x args IHa]; [apply kept_ret|].
           apply kept_bind; [apply keeps_onError; [apply consistent_wrap|apply evalArgWith_keeps, evalExpr_keeps]|intros a].
           apply kept_bind; [exact IHa|intros; apply kept_ret].
         - intros as_. apply kept_bind; [|intros; apply primaryOf_keeps].
           apply keeps_onError; [apply consistent_frame|]. by apply pureCall_keeps. }
    all: repeat first [apply evalExpr_keeps | apply evalMatchesBlock_keeps | keeps1].
  - destruct b as [entries]. cbn [evalMatchesBlock]. apply kept_bind; [|intros; apply kept_ret].
    induction entries as [|x entries IHe]; [apply kept_ret|].
    apply kept_bind; [apply evalMatchEntry_keeps|intros a]. apply kept_bind; [exact IHe|intros; apply kept_ret].
  - destruct e; cbn [evalMatchEntry].
    + apply kept_bind; [|intros; apply kept_ret]. apply keeps_onError; [apply consistent_wrap|apply evalExpr_keeps].
    + apply kept_bind; [apply evalMatchesBlock_keeps|intros; apply kept_ret].
    + apply kept_ret.
Qed.

Lemma evalArgs_keeps es : keeps (S n) (fun k => evalArgs (run k) es).
Proof.
  induction es as [|e es IH]; [apply kept_ret|]. cbn [evalArgs].
  apply kept_bind; [apply evalArgWith_keeps, evalExpr_keeps|intros a].
  apply kept_bind; [exact IH|intros; apply kept_ret].
Qed.
End expressions.

(** ** A well-founded order on lists

    A list gets lower when some entry does; those before it, the inner ones, may
    change, those after it may not grow. *)

Definition lowers (l' l : list nat) : Prop :=
  exists pre' x' rest' pre x rest, l' = pre' ++ x' :: rest' /\ l = pre ++ x :: rest /\ x' < x /\ Forall2 le rest' rest.

(** On lists of bounded length. *)
Definition lowersTo (bound : nat) (l' l : list nat) : Prop := lowers l' l /\ length l <= bound.

(** The same from the outer end. *)
Fixpoint lex (bound : nat) (l' l : list nat) : Prop :=
  match bound, l', l with
  | S k, x' :: l', x :: l => x' < x \/ x' = x /\ lex k l' l
  | _, _, _ => False
  end.

Lemma lex_wf bound : well_founded (lex bound).
Proof.
  induction bound as [|k IH]; [by constructor|]. intros [|x l]; [constructor; by intros []|].
  revert l. induction (lt_wf x) as [x _ IHx]. intros l. induction (IH l) as [l _ IHl].
  constructor. intros [|x' l']; [done|]. intros [Hx|[-> Hl]]; [by apply IHx|by apply IHl].
Qed.

Lemma lex_app outer' outer k l' l :
  Forall2 le outer' outer -> lex k l' l -> lex (length outer + k) (outer' ++ l') (outer ++ l).
Proof.
  induction 1 as [|x' x outer' outer Hx _ IH]; intros Hl; [done|]. cbn. destruct (Nat.eq_dec x' x); [right; auto|left; lia].
Qed.

Lemma lex_more k k' l' l : k <= k' -> lex k l' l -> lex k' l' l.
Proof.
  revert k' l' l. induction k as [|k IH]; intros [|k'] [|x' l'] [|x l] Hk; try done; try lia.
  cbn. intros [?|[? ?]]; [by left|right]. split; [done|]. apply IH; [lia|done].
Qed.

Lemma lowersTo_wf bound : well_founded (lowersTo bound).
Proof.
  eapply (wf_incl _ _ (fun l' l => lex bound (reverse l') (reverse l))); [|apply wf_inverse_image, lex_wf].
  intros l' l [(pre' & x' & rest' & pre & x & rest & -> & -> & Hx & Hr) Hb].
  rewrite !reverse_app, !reverse_cons, <- !app_assoc. rewrite length_app in Hb. cbn in Hb.
  apply (lex_more (length (reverse rest) + 1)); [rewrite length_reverse; lia|].
  apply lex_app; [by apply Forall2_reverse|]. by left.
Qed.

Lemma lowers_le l' l m : lowers l' l -> Forall2 le l m -> lowers l' m.
Proof.
  intros (pre' & x' & rest' & pre & x & rest & -> & -> & Hx & Hr) Hm.
  apply Forall2_app_inv_l in Hm as (mp & mr & _ & Hm & ->). apply Forall2_cons_inv_l in Hm as (y & mr' & Hy & Hm & ->).
  exists pre', x', rest', mp, y, mr'. split; [done|]. split; [done|]. split; [lia|]. by etrans.
Qed.

Lemma le_lowers l'' l' l : Forall2 le l'' l' -> lowers l' l -> lowers l'' l.
Proof.
  intros Hl (pre' & x' & rest' & pre & x & rest & -> & -> & Hx & Hr).
  apply Forall2_app_inv_r in Hl as (p1 & r1 & _ & Hl & ->). apply Forall2_cons_inv_r in Hl as (y & r2 & Hy & Hl & ->).
  exists p1, y, r2, pre, x, rest. split; [done|]. split; [done|]. split; [lia|]. by etrans.
Qed.

(** ** Loops and polls *)

Section levels.
Context `{Foreign} `{!DriverTypes}.
Context (order : list ir.block).

Definition toEnd (b : ir.block) : nat := 2 * (length order - position b order).

Lemma toEnd_precedes b t : precedes order b t = true -> S (toEnd t) < toEnd b.
Proof.
  unfold precedes, toEnd. rewrite Nat.ltb_lt. pose proof (position_le t order). lia.
Qed.

Definition loopLevel (l : loopState) : list nat := [length (lpList l) - lpIndex l; S (toEnd (lpExit l))].
Definition pollLevel (t : Z) (p : pollState) : list nat := [Z.to_nat (plDeadline p - t); S (toEnd (plOnSuccess p))].

(** Innermost first: a poll is inside the loops that were there when it began. *)
Fixpoint levels (t : Z) (ls : list loopState) (ps : list pollState) : list nat :=
  match ps with
  | [] => concat (map loopLevel ls)
  | p :: ps =>
    let inside := length ls - plAttemptLoopDepth p in
    concat (map loopLevel (take inside ls)) ++ pollLevel t p ++ levels t (drop inside ls) ps
  end.

Definition levelsOf `{!Driver} (s : executor * world) : list nat :=
  levels (Now (drv s.2)).1 (loops s.1) (polls s.1).

(** What is left at the start of a block. *)
Definition left_ (b : ir.block) (l : list nat) : list nat := toEnd b :: l.

Lemma length_loops ls : length (concat (map loopLevel ls)) = 2 * length ls.
Proof. induction ls; cbn; [done|lia]. Qed.

Lemma length_levels t ps : forall ls, length (levels t ls ps) = 2 * (length ls + length ps).
Proof.
  induction ps as [|p ps IH]; intros ls; cbn [levels].
  - rewrite length_loops. cbn. lia.
  - rewrite !length_app, length_loops, IH, length_take, length_drop. cbn. lia.
Qed.

Lemma levels_later t t' ps : forall ls, (t <= t')%Z -> Forall2 le (levels t' ls ps) (levels t ls ps).
Proof.
  induction ps as [|p ps IH]; intros ls Ht; cbn [levels]; [reflexivity|].
  apply Forall2_app; [reflexivity|]. apply Forall2_app; [|by apply IH]. constructor; [lia|]. constructor; [done|constructor].
Qed.

Lemma levels_ext t ps : forall ls ls', map loopLevel ls = map loopLevel ls' -> levels t ls ps = levels t ls' ps.
Proof.
  induction ps as [|p ps IH]; intros ls ls' Hl; cbn [levels]; [by rewrite Hl|].
  assert (length ls = length ls') as Hlen by (by rewrite <- (length_map loopLevel ls), Hl, length_map).
  rewrite Hlen. f_equal; [by rewrite <- !firstn_map, Hl|]. f_equal. apply IH. by rewrite <- !skipn_map, Hl.
Qed.

(** The innermost loop comes first when it is inside the innermost poll. *)
Definition depthBelow (k : nat) (ps : list pollState) : Prop :=
  match ps with p :: _ => plAttemptLoopDepth p <= k | [] => True end.

Lemma levels_loop t l ls ps : depthBelow (length ls) ps -> levels t (l :: ls) ps = loopLevel l ++ levels t ls ps.
Proof.
  destruct ps as [|p ps]; cbn -[Nat.sub loopLevel]; [done|]. intros Hp. by rewrite Nat.sub_succ_l by done.
Qed.

Lemma levels_poll t p ls ps : plAttemptLoopDepth p = length ls -> levels t ls (p :: ps) = pollLevel t p ++ levels t ls ps.
Proof. intros Hp. cbn [levels]. by rewrite Hp, Nat.sub_diag. Qed.

Lemma levels_attempt t p ls ps :
  exists pre, levels t ls (p :: ps) =
    pre ++ pollLevel t p ++ levels t (drop (length ls - plAttemptLoopDepth p) ls) ps.
Proof. eexists. reflexivity. Qed.

(** ** What gets lower *)

Lemma lowers_jump b t l' l : precedes order b t = true -> Forall2 le l' l -> lowers (left_ t l') (left_ b l).
Proof.
  intros Hp%toEnd_precedes Hl. exists [], (toEnd t), l', [], (toEnd b), l. repeat split; [lia|done].
Qed.

(** A loop or a poll is entered; [exit] is where it ends. *)
Lemma lowers_enter b body exit x l' l :
  precedes order b exit = true -> Forall2 le l' l -> lowers (left_ body (x :: S (toEnd exit) :: l')) (left_ b l).
Proof.
  intros Hp%toEnd_precedes Hl. exists [toEnd body; x], (S (toEnd exit)), l', [], (toEnd b), l. repeat split; [lia|done].
Qed.

(** Another iteration, or another attempt. *)
Lemma lowers_again b body x' x l' l pre :
  x' < x -> Forall2 le l' l -> lowers (left_ body (x' :: l')) (left_ b (pre ++ x :: l)).
Proof. intros Hx Hl. by exists [toEnd body], x', l', (toEnd b :: pre), x, l. Qed.

Lemma lowers_exit b exit x l' l :
  Forall2 le l' l -> lowers (left_ exit l') (left_ b (x :: S (toEnd exit) :: l)).
Proof. intros Hl. exists [], (toEnd exit), l', [toEnd b; x], (S (toEnd exit)), l. repeat split; [lia|done]. Qed.
End levels.
