(* ===== verification/OperatorFacts.v ===== *)
(** * What operators promise

    Arithmetic and comparison of integers are exact at every size, as their decimal
    text is read back; a matches block holds when each of its rows does. *)

From Stdlib Require Import ZArith Lia Ascii SpecFloat.
From stdpp Require Import base tactics sets list strings option.
From S2P Require Import Prelude Lexer Literals Floats Value Operands Ir World Eval ExecLogic.

#[local] Open Scope Z_scope.

(** ** Decimal text *)

Lemma digitChar_value d : 0 <= d < 10 -> isDigitByte (digitChar d) = true /\ digitValue (digitChar d) = d.
Proof.
  intros Hd. assert (d = 0 \/ d = 1 \/ d = 2 \/ d = 3 \/ d = 4 \/ d = 5 \/ d = 6 \/ d = 7 \/ d = 8 \/ d = 9) as Hc by lia.
  repeat destruct Hc as [-> | Hc]; try (by split); subst; by split.
Qed.

Lemma digitChar_zero d : 0 <= d < 10 -> digitChar d = "0"%char -> d = 0.
Proof. intros Hd E. destruct (digitChar_value d Hd) as [_ Hv]. rewrite E in Hv. by cbn in Hv. Qed.

Lemma decimal_snoc s c : decimal (s ++ [c]) = 10 * decimal s + digitValue c.
Proof. unfold decimal. by rewrite foldl_app. Qed.

(** The digits of a number: that many, all digits, without a leading zero. *)
Record numeral (v : Z) (ds : bytes) : Prop := MkNumeral {
  nu_digits : Forall (fun c => isDigitByte c = true) ds;
  nu_value : decimal ds = v;
  nu_some : ds <> [];
  nu_head : head ds = Some "0"%char -> length ds = 1%nat
}.

Lemma fmtInt_from_numeral fuel : forall v acc, 0 <= v < 10 ^ Z.of_nat fuel -> (0 < fuel)%nat ->
  exists ds, fmtInt_from fuel v acc = ds ++ acc /\ numeral v ds.
Proof.
  induction fuel as [|fuel IH]; intros v acc Hv Hf; [lia|]. cbn [fmtInt_from].
  pose proof (Z.mod_pos_bound v 10 ltac:(lia)) as Hm. destruct (digitChar_value _ Hm) as [Hd Hval].
  pose proof (Z.div_mod v 10 ltac:(lia)) as Hdm.
  destruct (Z.eqb_spec (v / 10) 0) as [E|E].
  - exists [digitChar (v mod 10)]. split; [done|]. split; [by constructor| |done|done].
    unfold decimal. cbn -[Z.mul]. rewrite Hval. lia.
  - assert (0 <= v / 10 < 10 ^ Z.of_nat fuel) as Hq.
    { split; [apply Z.div_pos; lia|]. apply Z.div_lt_upper_bound; [lia|]. rewrite <- Z.pow_succ_r by lia.
      rewrite <- Nat2Z.inj_succ. lia. }
    assert (0 < fuel)%nat as Hf' by (destruct fuel; [cbn in Hq; lia|lia]).
    destruct (IH (v / 10) (digitChar (v mod 10) :: acc) Hq Hf') as (ds & -> & Hds). exists (ds ++ [digitChar (v mod 10)]).
    rewrite <- app_assoc. split; [done|]. destruct Hds as [H1 H2 H3 H4]. split.
    + apply Forall_app. split; [done|by constructor].
    + rewrite decimal_snoc, H2, Hval. lia.
    + by destruct ds.
    + destruct ds as [|c ds]; [done|]. cbn. intros Hh. specialize (H4 Hh). destruct ds; [|done]. injection Hh as ->.
      by exfalso; apply E; rewrite <- H2.
Qed.

Lemma digits_numeral v : 0 <= v -> numeral v (digits v).
Proof.
  intros Hv. unfold digits. destruct (fmtInt_from_numeral (S (Z.to_nat (Z.log2 v))) v []) as (ds & -> & Hds); [|lia|].
  - split; [done|]. rewrite Nat2Z.inj_succ, Z2Nat.id by apply Z.log2_nonneg.
    destruct (decide (v = 0)) as [->|Hn]; [done|]. pose proof (Z.log2_spec v ltac:(lia)) as [_ Hl].
    eapply Z.lt_le_trans; [exact Hl|]. apply Z.pow_le_mono_l. lia.
  - by rewrite app_nil_r.
Qed.

(** ** Integers as JSON numbers *)

Definition numberByte (c : ascii) : Prop := c = "-"%char \/ isDigitByte c = true.

Lemma numberByte_plain c : numberByte c -> jsonSpace c = false /\ c <> "."%char /\ c <> "e"%char /\ c <> "E"%char.
Proof. intros [-> |Hd]; [by repeat split|]. destruct c as [[] [] [] [] [] [] [] []]; by repeat split. Qed.

Lemma spanDigits_all ds : Forall (fun c => isDigitByte c = true) ds -> spanDigits ds = (ds, []).
Proof.
  intros Hd. unfold spanDigits. assert (prefix_len isDigitByte ds = length ds) as ->.
  { induction Hd as [|c ds Hc _ IH]; [done|]. cbn. by rewrite Hc, IH. }
  by rewrite firstn_all, skipn_all.
Qed.

Lemma trimJSON_id s : Forall numberByte s -> trimJSON s = s.
Proof.
  intros Hs. unfold trimJSON.
  assert (forall l, Forall numberByte l -> drop (prefix_len jsonSpace l) l = l) as Hdrop.
  { intros [|c l] Hl; [done|]. apply Forall_cons_1 in Hl as [Hc _]. cbn [prefix_len]. by rewrite (proj1 (numberByte_plain c Hc)). }
  rewrite (Hdrop s Hs). cbv zeta. rewrite Hdrop by (by apply Forall_reverse). apply reverse_involutive.
Qed.

Lemma Itoa_bytes z : Forall numberByte (Itoa z).
Proof.
  assert (forall v, 0 <= v -> Forall numberByte (digits v)) as Hd.
  { intros v Hv. eapply List.Forall_impl; [|apply (digits_numeral v Hv)]. by right. }
  unfold Itoa. destruct (Z.ltb_spec z 0); [constructor; [by left|]|]; apply Hd; lia.
Qed.

Lemma integral_Itoa z : IsIntegralJSONNumber (Itoa z) = true.
Proof.
  unfold IsIntegralJSONNumber, containsAny. apply negb_true_iff, not_true_is_false. intros Hex.
  apply List.existsb_exists in Hex as (c & Hin & Hc). pose proof (Itoa_bytes z) as Hb. rewrite List.Forall_forall in Hb.
  destruct (numberByte_plain c (Hb c Hin)) as (_ & H1 & H2 & H3). unfold one_of in Hc. cbn in Hc.
  rewrite !orb_true_iff, !Ascii.eqb_eq in Hc. naive_solver.
Qed.

Lemma jsonNumber_digits (neg : bool) v : 0 <= v ->
  jsonNumber ((if neg then ["-"%char] else []) ++ digits v) = Some (neg, digits v, [], 0).
Proof.
  intros Hv. destruct (digits_numeral v Hv) as [Hd _ Hs Hh]. unfold jsonNumber.
  assert ((match (if neg then ["-"%char] else []) ++ digits v with
           | c :: s => if (c =? "-")%char then (true, s) else (false, (if neg then ["-"%char] else []) ++ digits v)
           | [] => (false, []) end) = (neg, digits v)) as ->.
  { destruct neg; [done|]. cbn [app]. destruct (digits v) as [|c ds]; [done|]. apply Forall_cons_1 in Hd as [Hc _].
    destruct (Ascii.eqb_spec c "-"); [by subst|done]. }
  rewrite spanDigits_all by done. rewrite bool_decide_false by done.
  destruct (bool_decide (head (digits v) = Some "0"%char)) eqn:E.
  - apply bool_decide_eq_true in E. rewrite (Hh E). done.
  - by rewrite andb_false_r.
Qed.

Lemma Itoa_sign z : Itoa z = (if z <? 0 then ["-"%char] else []) ++ digits (Z.abs z).
Proof.
  unfold Itoa. destruct (Z.ltb_spec z 0); [by rewrite Z.abs_neq by lia|by rewrite Z.abs_eq by lia].
Qed.

Lemma jsonNumber_Itoa z : jsonNumber (Itoa z) = Some (z <? 0, digits (Z.abs z), [], 0).
Proof. rewrite Itoa_sign. apply jsonNumber_digits. lia. Qed.

Lemma integerOf_Itoa z : integerOf (Itoa z) = z.
Proof.
  destruct (digits_numeral (Z.abs z) ltac:(lia)) as [Hd Hv Hs _]. rewrite Itoa_sign. unfold integerOf.
  destruct (Z.ltb_spec z 0); cbn [app].
  - rewrite Hv. cbn. lia.
  - destruct (digits (Z.abs z)) as [|c ds] eqn:E; [done|]. apply Forall_cons_1 in Hd as [Hc _].
    destruct (Ascii.eqb_spec c "-"); [by subst|]. unfold default, id. lia.
Qed.

Lemma parseShellNumber_Itoa z : parseShellNumber (Itoa z) = Done (Integral z).
Proof.
  unfold parseShellNumber, IsJSONNumber. rewrite trimJSON_id by apply Itoa_bytes.
  rewrite jsonNumber_Itoa, integral_Itoa, integerOf_Itoa. done.
Qed.

Section operators.
Context `{Foreign}.

Lemma evalNumericComparison_Itoa op a b :
  evalNumericComparison op (Itoa a) (Itoa b) =
  match ordered op (a ?= b) with
  | Some r => Done (BoolValue r)
  | None => Failed (Errorf "unknown numeric operator %q")
  end.
Proof. unfold evalNumericComparison. by rewrite !parseShellNumber_Itoa. Qed.

(** The six operators on a comparison of integers are the six tests. *)
Lemma ordered_Z a b :
  ordered (B "==") (a ?= b) = Some (a =? b) /\ ordered (B "!=") (a ?= b) = Some (negb (a =? b)) /\
  ordered (B "<") (a ?= b) = Some (a <? b) /\ ordered (B "<=") (a ?= b) = Some (a <=? b) /\
  ordered (B ">") (a ?= b) = Some (b <? a) /\ ordered (B ">=") (a ?= b) = Some (b <=? a).
Proof.
  unfold Z.ltb, Z.leb. rewrite (Z.compare_antisym a b), Z.eqb_compare.
  by destruct (a ?= b).
Qed.

Lemma ordered_unknown op c :
  op ∉ [B "=="; B "!="; B "<"; B "<="; B ">"; B ">="] -> ordered op c = None.
Proof.
  rewrite !not_elem_of_cons. intros (H1 & H2 & H3 & H4 & H5 & H6 & _). unfold ordered.
  by rewrite !bool_decide_false by done.
Qed.

(** C36: Integers of scripts have no width: the four operators that keep integers are
    exact on them at every size and a remainder by zero is the error; each of the six
    comparisons is that of the numbers and any other operator is the error; the
    decimal text of a result is read back to the number itself. *)
Theorem integers_exact a b :
  evalArithmetic (B "+") (Itoa a) (Itoa b) = Done (numericValueFromInt (a + b)) /\
  evalArithmetic (B "-") (Itoa a) (Itoa b) = Done (numericValueFromInt (a - b)) /\
  evalArithmetic (B "*") (Itoa a) (Itoa b) = Done (numericValueFromInt (a * b)) /\
  evalArithmetic (B "%") (Itoa a) (Itoa b) =
    (if b =? 0 then Failed (Errorf "division by zero") else Done (numericValueFromInt (Z.rem a b))) /\
  evalNumericComparison (B "==") (Itoa a) (Itoa b) = Done (BoolValue (a =? b)) /\
  evalNumericComparison (B "!=") (Itoa a) (Itoa b) = Done (BoolValue (negb (a =? b))) /\
  evalNumericComparison (B "<") (Itoa a) (Itoa b) = Done (BoolValue (a <? b)) /\
  evalNumericComparison (B "<=") (Itoa a) (Itoa b) = Done (BoolValue (a <=? b)) /\
  evalNumericComparison (B ">") (Itoa a) (Itoa b) = Done (BoolValue (b <? a)) /\
  evalNumericComparison (B ">=") (Itoa a) (Itoa b) = Done (BoolValue (b <=? a)) /\
  (forall op, op ∉ [B "=="; B "!="; B "<"; B "<="; B ">"; B ">="] ->
     evalNumericComparison op (Itoa a) (Itoa b) = Failed (Errorf "unknown numeric operator %q")) /\
  Scalar (numericValueFromInt a) = Done (Itoa a).
Proof.
  unfold evalArithmetic. destruct (ordered_Z a b) as (E1 & E2 & E3 & E4 & E5 & E6).
  rewrite !evalNumericComparison_Itoa, !parseShellNumber_Itoa, E1, E2, E3, E4, E5, E6. cbn [obind].
  split_and!; try done. intros op Hop. by rewrite evalNumericComparison_Itoa, ordered_unknown.
Qed.

(** ** What a matches block says *)

(** The predicates of rows. *)
Definition predicateHolds (predicate : bytes) (v : Value) : Prop :=
  if decide (predicate = B "not-empty") then isMatchesEmpty v = false
  else if decide (predicate = B "empty") then isMatchesEmpty v = true /\ isNullish v = false
  else isNullish v = true.

(** Every key of the object is one that a row names. *)
Definition claimsAll (v : Value) (entries : list resolvedMatchEntry) : Prop :=
  exists m, Raw v = RMap m /\ forall f, f ∈ m -> f.1 ∈ map entryPath entries.

(** A row holds: its path leads to a value that is equal to its own, of which its
    predicate holds, or of which all the rows of its block hold. *)
Fixpoint holds (target : Value) (e : resolvedMatchEntry) : Prop :=
  match e with
  | EntryValue path v _ => exists actual, LookupValue target path = Done actual /\ matchesValueEqual actual v = true
  | EntryPredicate path predicate _ => exists actual, LookupValue target path = Done actual /\ predicateHolds predicate actual
  | EntrySubBlock path entries exhaustive _ _ =>
    exists actual, LookupValue target path = Done actual /\
      foldr (fun e P => holds actual e /\ P) True entries /\ (exhaustive = true -> claimsAll actual entries)
  end.

Definition blockHolds (target : Value) (block : resolvedMatchesBlock) : Prop :=
  (forall e, e ∈ rbEntries block -> holds target e) /\ (rbExhaustive block = true -> claimsAll target (rbEntries block)).

Lemma predicateMismatch_none p v : predicateMismatch p v = None <-> predicateHolds p v.
Proof.
  unfold predicateMismatch, predicateHolds.
  destruct (decide (p = B "not-empty")) as [->|H1]; [by destruct (isMatchesEmpty v)|].
  rewrite bool_decide_false by done. destruct (decide (p = B "empty")) as [->|H2].
  - cbn. destruct (isNullish v), (isMatchesEmpty v); naive_solver.
  - rewrite (bool_decide_false (p = B "empty")) by done. unfold matchesValueEqual. cbn -[isNullish].
    change (isNullish absent) with true. rewrite orb_true_r, andb_true_r.
    destruct (bool_decide _); by destruct (isNullish v).
Qed.

Lemma notObject_nil exhaustive pos v :
  notObject exhaustive pos v = [] <-> (exhaustive = true -> exists m, Raw v = RMap m).
Proof. unfold notObject. destruct exhaustive; [|by split]. destruct (Raw v); naive_solver. Qed.

Lemma filter_nil_iff {A} (P : A -> Prop) `{!forall x, Decision (P x)} (l : list A) : filter P l = [] <-> forall x, x ∈ l -> ~ P x.
Proof.
  split.
  - intros E x Hx HP. assert (x ∈ filter P l) as Hin by (by apply list_elem_of_filter). rewrite E in Hin. set_solver.
  - intros Hn. destruct (filter P l) as [|x l'] eqn:E; [done|]. assert (x ∈ filter P l) as Hin by (rewrite E; left).
    apply list_elem_of_filter in Hin as [HP Hx]. by destruct (Hn x Hx).
Qed.

Lemma object_nil exhaustive pos v entries :
  notObject exhaustive pos v = [] /\ unclaimed exhaustive pos v (map entryPath entries) = [] <->
  (exhaustive = true -> claimsAll v entries).
Proof.
  rewrite notObject_nil. unfold unclaimed, claimsAll. destruct exhaustive; [|naive_solver]. cbn [negb]. split.
  - intros [Hm Hu] _. destruct (Hm eq_refl) as [m E]. rewrite E in Hu. exists m. split; [done|]. intros f Hf.
    apply map_eq_nil in Hu. rewrite filter_nil_iff in Hu. destruct (decide (f.1 ∈ map entryPath entries)); [done|].
    by destruct (Hu f Hf).
  - intros Hc. destruct (Hc eq_refl) as (m & E & Hm). split; [eauto|]. rewrite E.
    cut (filter (fun f => f.1 ∉ map entryPath entries) m = []); [by intros ->|].
    apply filter_nil_iff. intros f Hf Hn. by apply Hn, Hm.
Qed.

Lemma concat_empty {A} (l : list (list A)) : concat l = [] <-> Forall (fun x => x = []) l.
Proof.
  induction l as [|x l IH]; cbn; [by split|]. rewrite list.Forall_cons, <- IH. split; [apply app_eq_nil|by intros [-> ->]].
Qed.

Lemma foldr_and {A} (P : A -> Prop) l : foldr (fun e Q => P e /\ Q) True l <-> forall e, e ∈ l -> P e.
Proof. induction l as [|x l IH]; cbn; [set_solver|]. rewrite IH. set_solver. Qed.

(** Induction on rows. *)
Fixpoint entry_ind' (P : resolvedMatchEntry -> Prop)
    (hv : forall path v sp, P (EntryValue path v sp)) (hp : forall path p sp, P (EntryPredicate path p sp))
    (hb : forall path entries ex bsp sp, Forall P entries -> P (EntrySubBlock path entries ex bsp sp))
    (e : resolvedMatchEntry) : P e :=
  match e with
  | EntryValue path v sp => hv path v sp
  | EntryPredicate path p sp => hp path p sp
  | EntrySubBlock path entries ex bsp sp =>
    hb path entries ex bsp sp ((fix all l : Forall P l := match l with
      | [] => Forall_nil_2 P
      | x :: l => Forall_cons_2 P x l (entry_ind' P hv hp hb x) (all l)
      end) entries)
  end.

Lemma evalMatchesEntry_nil e : forall target, evalMatchesEntry target e = [] <-> holds target e.
Proof.
  induction e as [path v sp|path p sp|path entries ex bsp sp IH] using entry_ind'; intros target; cbn [evalMatchesEntry holds];
    pose proof (LookupValue_returns target path) as Hr; destruct (LookupValue target path) as [actual|err|]; try done;
    try (split; [done|naive_solver]).
  - destruct (matchesValueEqual actual v) eqn:E; cbn; (split; [|intros (x & [= <-] & Hx)]); [by eauto|done|done|congruence].
  - pose proof (predicateMismatch_none p actual) as Hp. destruct (predicateMismatch p actual) as [m|].
    + split; [done|]. intros (x & [= <-] & Hx). apply Hp in Hx. done.
    + split; [|done]. intros _. exists actual. split; [done|by apply Hp].
  - pose proof (object_nil ex (Start bsp) actual entries) as Ho.
    assert (concat (map (evalMatchesEntry actual) entries) = [] <-> forall e, e ∈ entries -> holds actual e) as Hc.
    { rewrite concat_empty, Forall_map, list.Forall_forall. rewrite list.Forall_forall in IH.
      split; intros He e Hin; by apply IH, He. }
    split.
    + intros [H1 [H2 H3]%app_eq_nil]%app_eq_nil. exists actual. split; [done|]. rewrite foldr_and.
      split; [by apply Hc|by apply Ho].
    + intros (x & [= <-] & Hf & Hx). rewrite foldr_and in Hf. apply Hc in Hf. apply Ho in Hx as [Ha Hb].
      by rewrite Ha, Hf, Hb.
Qed.

(** C37: A matches block does what it says: evaluated on a target that is an object or
    a list, with at least a row or the exhaustive mark, it matches just when every row
    holds (its path leads to a value that is equal to the one written, has the
    predicate, or for which the rows of the sub-block hold) and, for an exhaustive
    block, the target is an object each of whose keys a row names, and likewise in
    exhaustive sub-blocks; it lists mismatches just when it does not match. On any
    other target and for an empty block it is an error. *)
Theorem evalMatchesTarget_holds target block :
  match evalMatchesTarget target block with
  | Done r => IsStructured target = true /\ (rbEntries block <> [] \/ rbExhaustive block = true) /\
              (Matched r = true <-> blockHolds target block) /\ (Matched r = true <-> Mismatches r = [])
  | Failed e => IsStructured target = false \/ rbEntries block = [] /\ rbExhaustive block = false
  | OutOfFuel => False
  end.
Proof.
  unfold evalMatchesTarget. destruct (IsStructured target) eqn:Es; cbn [negb]; [|by left].
  destruct (bool_decide (rbEntries block = []) && negb (rbExhaustive block)) eqn:Ee.
  - right. apply andb_true_iff in Ee as [->%bool_decide_eq_true Hx%negb_true_iff]. done.
  - split; [done|]. apply andb_false_iff in Ee. rewrite bool_decide_eq_false, negb_false_iff in Ee. split; [tauto|].
    cbn [Matched Mismatches]. rewrite bool_decide_eq_true. split; [|done]. unfold evalMatchesAgainst, blockHolds.
    pose proof (object_nil (rbExhaustive block) (Start (rbSpan block)) target (rbEntries block)) as Ho.
    assert (concat (map (evalMatchesEntry target) (rbEntries block)) = [] <->
            forall e, e ∈ rbEntries block -> holds target e) as Hc.
    { rewrite concat_empty, Forall_map, list.Forall_forall. split; intros He e Hin; by apply evalMatchesEntry_nil, He. }
    split.
    + intros [H1 [H2 H3]%app_eq_nil]%app_eq_nil. split; [by apply Hc|by apply Ho].
    + intros [Hf Hx]. apply Hc in Hf. apply Ho in Hx as [Ha Hb]. by rewrite Ha, Hf, Hb.
Qed.
End operators.
