(* ===== verification/ExecSafe.v ===== *)
(** * The executor is safe on well-formed units

    The state of a unit against the context of the block it runs; every instruction
    that fits its context keeps the two together. *)

From Stdlib Require Import ZArith Lia Ascii.
From stdpp Require Import base tactics list gmap strings option.
From S2P Require Import Prelude Lexer Literals Value Operands Ir IrTyping World Eval Exec ExecLogic.

#[local] Open Scope shell_scope.

Section unit_.
Context `{Foreign} `{!DriverTypes} `{!Driver} `{!DriverLaws}.
Context (n : nat) (run : nat -> defValue -> ir.block -> list Arg -> W (Value * bool * nat)) (Hrun : runOk n run).
Context (D : bool) (Psi : list bctx) (nt : nat) (order : list ir.block) (w0 : world).

Abbreviation state := (executor * world)%type.

(** ** Invariants *)

(** The saved defer scopes lead back to the one at the start of the unit. *)
Fixpoint scopesLead (d : option (list deferEntry)) (ss : list (option (list deferEntry))) : Prop :=
  match ss with
  | [] => d = defers w0
  | s :: rest => is_Some d /\ scopesLead s rest
  end.

(** What holds of a unit also when it fails: [unwindOnExit] needs no more. *)
Record inv (s : state) : Prop := MkInv {
  i_ok : okWorld (S n) s.2;
  i_entry : entryFrameDepth s.1 = length (frames w0);
  i_base : 1 <= length (frames w0);
  i_frames : length (frames w0) <= length (frames s.2);
  i_scopes : scopesLead (defers s.2) (scopes s.1);
  i_polls : activePolls s.2 = activePolls w0 + length (polls s.1);
  i_depth : defCallDepth s.2 = defCallDepth w0;
  i_draining : draining s.2 = draining w0;
  i_skip : skipProgramScope s.1 = false;
  i_def : inDef s.1 = D;
  i_temps : length (temps s.1) = nt;
  i_time : (time (drv w0) <= time (drv s.2))%Z;
  i_done : Forall (fun p => exists c k, Psi !! plOnSuccess p = Some (Normal c k)) (polls s.1)
}.

Record loopFits (base : nat) (l : sloop) (d : loopState) : Prop := MkLoopFits {
  lf_body : lpBody d = slBody l;
  lf_exit : lpExit d = slExit l;
  lf_collect : lpCollect d = slCollect l;
  lf_frames : slFrames l + base <= lpEntryFrameDepth d
}.

Record pollFits (base : nat) (p : spoll) (d : pollState) : Prop := MkPollFits {
  pf_attempt : plAttempt d = spAttempt p;
  pf_timeout : plOnTimeout d = spTimeout p;
  pf_success : plOnSuccess d = spDone p;
  pf_frames : spFrames p + base <= plAttemptFrameDepth d;
  pf_scopes : spScopes p <= plAttemptScopeDepth d;
  pf_loops : plAttemptLoopDepth d = length (spLoops p);
  pf_every : (0 < plEvery d)%Z;
  pf_failed : plFailed d = false
}.

Definition slotFits (ty : tempType) (s : slot) : Prop :=
  match ty, s with
  | TyValue, SValue _ | TyArgv, SArgs _ | TyBind, SBind _ => True
  | _, _ => False
  end.

Definition tempsFit (G : tenv) (l : list slot) : Prop :=
  forall t ty, G !! t = Some ty -> exists s, l !! t = Some s /\ slotFits ty s.

(** The unit is at a context, with no more left to do than [L] says. *)
Record fitsAt (L : list nat) (c : sctx) (G : tenv) (s : state) : Prop := MkFits {
  f_frames : sFrames c + length (frames w0) <= length (frames s.2);
  f_scopes : sScopes c <= length (scopes s.1);
  f_loops : Forall2 (loopFits (length (frames w0))) (sLoops c) (loops s.1);
  f_polls : Forall2 (pollFits (length (frames w0))) (sPolls c) (polls s.1);
  f_static : pollsOk Psi (sPolls c) = true;
  f_pending : pending s.1 = None;
  f_temps : tempsFit G (temps s.1);
  f_levels : Forall2 le (levelsOf order s) L
}.

Definition Fails (e : rerror) (s : state) : Prop := inv s /\ consistent e.

(** How a block finds the unit. *)
Definition ready (k : bctx) (s : state) : Prop :=
  match k with
  | Normal c m => fitsAt (levelsOf order s) c (given m) s
  | GuardFails f sc =>
    f + length (frames w0) <= length (frames s.2) /\ sc <= length (scopes s.1) /\ is_Some (pending s.1)
  | TimesOut =>
    pending s.1 = None /\
    match polls s.1 with top :: _ => plFailed top = true /\ plTimedOut top = true | [] => False end
  | Epilogue => 1 + length (frames w0) <= length (frames s.2) /\ 1 <= length (scopes s.1)
  | Unused => False
  end.

(** The same before its poll is left, when the block is the end of one. *)
Definition leaving (b : ir.block) (k : bctx) (s : state) : Prop :=
  exists c p, k = Normal c 0 /\ spDone p = b /\ length (sLoops c) = length (spLoops p) /\
    fitsAt (levelsOf order s) (MkSctx (sFrames c) (sScopes c) (sLoops c) (p :: sPolls c)) ∅ s.

Definition normal (k : bctx) : Prop := match k with Normal _ _ => True | _ => False end.

(** ** What the world may do *)

Lemma inv_stable ex w w' : inv (ex, w) -> stable w w' -> inv (ex, w').
Proof.
  intros [] Hs. pose proof Hs as []. split; cbn in *; try congruence; try done.
  - by eapply okWorld_stable.
  - lia.
Qed.

Lemma levels_stable ex w w' : stable w w' -> Forall2 le (levelsOf order (ex, w')) (levelsOf order (ex, w)).
Proof. intros Hs. apply levels_later, Hs. Qed.

Lemma fits_stable L c G ex w w' : fitsAt L c G (ex, w) -> stable w w' -> fitsAt L c G (ex, w').
Proof.
  intros [] Hs. pose proof (levels_stable ex _ _ Hs). destruct Hs. split; cbn [fst snd] in *; try congruence; try done.
  by etrans.
Qed.

Lemma fits_relevel L c G s : fitsAt L c G s -> fitsAt (levelsOf order s) c G s.
Proof. intros []. by split. Qed.

(** A computation on the world that keeps what it has to. *)
Lemma xwp_keeps {A} (m : nat -> W A) (Q : A -> state -> Prop) ex w :
  keeps (S n) m -> inv (ex, w) -> (forall a w', stable w w' -> inv (ex, w') -> Q a (ex, w')) ->
  xwp (fun k => onWorld (m k)) Q Fails (ex, w).
Proof.
  intros Hm Hi HQ. apply xwp_onWorld. eapply xwp_mono; [apply Hm; apply Hi| |].
  - intros a w' Hs. apply HQ; [done|]. by eapply inv_stable.
  - intros e w' [Hs He]. split; [by eapply inv_stable|done].
Qed.

(** A computation on the world that keeps the state and does not fail. *)
Definition surely {A} (m : nat -> W A) : Prop := forall w, okWorld (S n) w -> xwp m (fun _ => stable w) (fun _ _ => False) w.

Lemma xwp_surely {A} (m : nat -> W A) (Q : A -> state -> Prop) E ex w :
  surely m -> inv (ex, w) -> (forall a w', stable w w' -> inv (ex, w') -> Q a (ex, w')) ->
  xwp (fun k => onWorld (m k)) Q E (ex, w).
Proof.
  intros Hm Hi HQ. apply xwp_onWorld. eapply xwp_mono; [apply Hm; apply Hi| |done].
  intros a w' Hs. apply HQ; [done|]. by eapply inv_stable.
Qed.

(** ** Slots *)

Lemma xwp_tempAt G t ty (Q : slot -> state -> Prop) s :
  has G t ty = true -> tempsFit G (temps s.1) -> (forall x, slotFits ty x -> Q x s) -> xwp (fun _ => tempAt t) Q Fails s.
Proof.
  intros Ht%bool_decide_eq_true HG HQ. destruct (HG _ _ Ht) as (x & Hx & Hf).
  unfold tempAt. apply xwp_bind, xwp_get. rewrite Hx. apply xwp_ret. by apply HQ.
Qed.

Lemma xwp_valueAt G t sp (Q : Value -> state -> Prop) s :
  has G t TyValue = true -> tempsFit G (temps s.1) -> (forall v, Q v s) -> xwp (fun _ => valueAt t sp) Q Fails s.
Proof. intros Ht HG HQ. apply xwp_bind. eapply xwp_tempAt; [done..|]. intros [] Hx; try done. by apply xwp_ret. Qed.

Lemma xwp_argvAt G t sp (Q : list Arg -> state -> Prop) s :
  has G t TyArgv = true -> tempsFit G (temps s.1) -> (forall a, Q a s) -> xwp (fun _ => argvAt t sp) Q Fails s.
Proof. intros Ht HG HQ. apply xwp_bind. eapply xwp_tempAt; [done..|]. intros [] Hx; try done. by apply xwp_ret. Qed.

Lemma xwp_bindAt G t sp f (Q : BindResult -> state -> Prop) s :
  has G t TyBind = true -> tempsFit G (temps s.1) -> (forall r, Q r s) -> xwp (fun _ => bindAt t sp f) Q Fails s.
Proof. intros Ht HG HQ. apply xwp_bind. eapply xwp_tempAt; [done..|]. intros [] Hx; try done. by apply xwp_ret. Qed.

Lemma tempsFit_empty l : tempsFit ∅ l.
Proof. intros t ty Ht. by rewrite lookup_empty in Ht. Qed.

Lemma tempsFit_insert G l t x ty :
  t < length l -> slotFits ty x -> tempsFit G l -> tempsFit (<[t := ty]> G) (<[t := x]> l).
Proof.
  intros Ht Hx HG t' ty'. destruct (decide (t = t')) as [<-|Hn].
  - rewrite lookup_insert_eq. intros [= <-]. exists x. split; [by apply list_lookup_insert_eq|done].
  - rewrite lookup_insert_ne by done. intros Ht'. destruct (HG _ _ Ht') as (y & Hy & Hf). exists y.
    by rewrite list_lookup_insert_ne.
Qed.

Lemma xwp_store L c G t x ty (Q : unit -> state -> Prop) s :
  t < nt -> slotFits ty x -> inv s -> fitsAt L c G s ->
  (forall s', inv s' -> fitsAt L c (<[t := ty]> G) s' -> Q tt s') -> xwp (fun _ => store t x) Q Fails s.
Proof.
  intros Ht Hx Hi Hf HQ. destruct s as [ex w]. pose proof (i_temps _ Hi) as Hl. cbn in Hl.
  apply (xwp_result _ (Ok tt) (setTemp t x ex, w)); [intros k; unfold store; by rewrite (proj2 (Nat.ltb_lt _ _)) by lia|].
  apply HQ.
  - destruct Hi. split; cbn in *; try done. by rewrite length_insert.
  - destruct Hf. split; cbn in *; try done. apply tempsFit_insert; [lia|done|done].
Qed.

(** ** Frames *)

Lemma popFrames_drop k : forall w, k < length (frames w) -> popFrames k w = (Ok tt, setFrames (drop k (frames w)) w).
Proof.
  induction k as [|k IH]; intros w Hk; cbn [popFrames].
  - by destruct w.
  - unfold xbind, PopFrame. destruct (frames w) as [|f [|g fs]] eqn:E; cbn in Hk; [lia|lia|].
    rewrite IH; [done|cbn; lia].
Qed.

Lemma inv_setFrames ex w fs : inv (ex, w) -> length (frames w0) <= length fs -> inv (ex, setFrames fs w).
Proof. intros [] Hf. split; cbn in *; try done. destruct i_ok0. split; cbn in *; try done. lia. Qed.

Lemma xwp_popToDepth target (Q : unit -> state -> Prop) E ex w :
  inv (ex, w) -> length (frames w0) <= target ->
  (forall fs, length fs = Nat.min (length (frames w)) target -> inv (ex, setFrames fs w) -> Q tt (ex, setFrames fs w)) ->
  xwp (fun _ => onWorld (popToDepth target)) Q E (ex, w).
Proof.
  intros Hi Ht HQ. apply xwp_onWorld. pose proof (i_base _ Hi) as Hb. pose proof (i_frames _ Hi) as Hfr. cbn in Hb, Hfr.
  eapply (xwp_result _ (Ok tt)).
  { intros k. unfold popToDepth, xbind, FrameDepth, xget. by rewrite popFrames_drop by lia. }
  assert (length (drop (length (frames w) - target) (frames w)) = Nat.min (length (frames w)) target) as Hl
    by (rewrite length_drop; lia).
  apply HQ; [done|]. apply inv_setFrames; [done|]. rewrite Hl. lia.
Qed.

Lemma fits_push L c G ex w f :
  fitsAt L c G (ex, w) -> fitsAt L (framesTo c (S (sFrames c))) G (ex, setFrames (f :: frames w) w).
Proof. intros []. split; cbn in *; try done. lia. Qed.

(** ** Defer scopes *)

Lemma surely_keeps {A} (m : nat -> W A) : surely m -> keeps (S n) m.
Proof. intros Hm w Hw. by eapply xwp_mono; [apply Hm| |]. Qed.

Lemma surely_bind {A C} (m : nat -> W A) (f : nat -> A -> W C) :
  surely m -> (forall a, surely (fun k => f k a)) -> surely (fun k => xbind (m k) (f k)).
Proof.
  intros Hm Hf w Hw. apply xwp_bind. eapply xwp_mono; [by apply Hm| |done].
  intros a w1 Hs1. eapply xwp_mono; [apply Hf; by eapply okWorld_stable| |done].
  intros c w2 Hs2. by transitivity w1.
Qed.

Lemma surely_ret {A} (a : A) : surely (fun _ => xret a).
Proof. intros w _. apply xwp_ret. reflexivity. Qed.

Lemma surely_try {A} (m : nat -> W A) : keeps (S n) m -> surely (fun k => xtry (m k)).
Proof. intros Hm w Hw. apply xwp_try. eapply xwp_mono; [by apply Hm|done|by intros ? ? []]. Qed.

Lemma surely_modify f : (forall w, stable w (f w)) -> surely (fun _ => xmodify f).
Proof. intros Hf w _. apply xwp_modify, Hf. Qed.

Lemma surely_driverHook h : (forall f, h = Some f -> onward f) -> surely (fun _ => driverHook h).
Proof. intros Hh. apply surely_modify. intros w. destruct h as [f|]; [|reflexivity]. by apply stable_drv, Hh. Qed.

Lemma surely_renderFailure e rc : surely (fun _ => renderFailure e rc).
Proof.
  apply surely_bind; [|intros _; apply surely_modify; intros w; by split].
  apply surely_driverHook. intros f. destruct RenderDeferFailure as [g|] eqn:E; [|done]. intros [= <-]. by apply law_deferFailure.
Qed.

Lemma surely_renderOutput args rc : surely (fun _ => driverHook (option_map (fun f => f args rc) RenderDeferOutput)).
Proof.
  apply surely_driverHook. intros f. destruct RenderDeferOutput as [g|] eqn:E; [|done]. intros [= <-]. by apply law_deferOutput.
Qed.

Lemma surely_traceFire e : surely (fun _ => traceFire e).
Proof.
  intros w _. destruct (match deTrace e with Some t => Some t | None => trace w end) as [t|] eqn:E.
  - eapply (xwp_result _ (Ok tt)); [intros k; unfold traceFire; by rewrite E|].
    apply (stable_drv w (Trace t _ _)), law_trace.
  - eapply (xwp_result _ (Ok tt)); [intros k; unfold traceFire; by rewrite E|]. reflexivity.
Qed.

Lemma surely_fireDefer e : ExecBind <> None -> surely (fun k => fireDefer (run k) e).
Proof.
  intros Hb. apply surely_bind; [apply surely_traceFire|intros _; apply surely_bind].
  - destruct (dePolicy e) eqn:E; [apply surely_try; by apply dispatchBind_keeps|].
    intros w _. apply xwp_try, xwp_fail. reflexivity.
  - intros [r|err].
    + destruct (OK _); apply surely_bind; intros; auto using surely_renderOutput, surely_renderFailure, surely_ret.
    + apply surely_bind; intros; auto using surely_renderFailure, surely_ret.
Qed.

Lemma surely_drainDefers stack : ExecBind <> None -> surely (fun k => drainDefers (run k) stack).
Proof.
  intros Hb. induction stack as [|e stack IH]; [apply surely_ret|]. cbn [drainDefers].
  apply surely_bind; [by apply surely_fireDefer|intros b]. apply surely_bind; [exact IH|intros; apply surely_ret].
Qed.

Lemma surely_runDefers stack : surely (fun k => runDefers (run k) stack).
Proof.
  unfold runDefers. destruct ExecBind as [f|] eqn:E; [|apply surely_ret]. intros w Hw.
  apply xwp_bind, xwp_get, xwp_bind, xwp_modify, xwp_bind.
  assert (okWorld (S n) (setDraining true w)) as Hw1 by (destruct Hw; by split).
  eapply xwp_mono; [apply surely_drainDefers; [by rewrite E|exact Hw1]| |done].
  intros k w' []. apply xwp_bind, xwp_modify, xwp_ret. by split.
Qed.

Lemma surely_runActiveDefers : surely (fun k => runActiveDefers (run k)).
Proof.
  intros w Hw. apply xwp_bind, xwp_get. destruct (defers w); [by apply surely_runDefers|by apply surely_ret].
Qed.

(** Leaving defer scopes, from a state that the invariant describes. *)
Lemma xwp_restoreScope (Q : unit -> state -> Prop) E ex w s rest :
  scopes ex = s :: rest -> inv (ex, w) ->
  (inv (setScopes rest ex, setDefers s w) -> Q tt (setScopes rest ex, setDefers s w)) ->
  xwp (fun _ => restoreScope) Q E (ex, w).
Proof.
  intros Hs Hi HQ. apply xwp_bind, xwp_get. cbn. rewrite Hs. apply xwp_bind, xwp_onWorld, xwp_modify, xwp_modify. apply HQ.
  destruct Hi. cbn in *. rewrite Hs in i_scopes0. destruct i_scopes0. split; cbn; try done. by destruct i_ok0.
Qed.

(** What is left of a state when [k] scopes are closed and [stable] steps are made. *)
Record closed (k : nat) (s s' : state) : Prop := MkClosed {
  cl_ex : s'.1 = setScopes (drop k (scopes s.1)) s.1;
  cl_frames : length (frames s'.2) = length (frames s.2);
  cl_time : (time (drv s.2) <= time (drv s'.2))%Z;
  cl_inv : inv s'
}.

Lemma xwp_drainScopes k (Q : unit -> state -> Prop) E s :
  k <= length (scopes s.1) -> inv s -> (forall s', closed k s s' -> Q tt s') -> xwp (fun i => drainScopes (run i) k) Q E s.
Proof.
  revert s Q E. induction k as [|k IH]; intros [ex w] Q E Hk Hi HQ; cbn [drainScopes].
  - apply xwp_ret, HQ. split; [by destruct ex|done|done|done].
  - cbn in Hk. destruct (scopes ex) as [|s rest] eqn:Es; [cbn in Hk; lia|].
    apply xwp_bind. eapply xwp_surely; [apply surely_runActiveDefers|done|]. intros m w1 Hs1 Hi1.
    apply xwp_bind. eapply xwp_restoreScope; [exact Es|exact Hi1|]. intros Hi2.
    apply IH; [cbn in *; lia|exact Hi2|]. intros s' []. apply HQ. split; [|by rewrite cl_frames0; apply Hs1| |done].
    + rewrite cl_ex0. cbn. by rewrite Es.
    + pose proof (st_time _ _ Hs1). cbn in *. lia.
Qed.

Lemma xwp_drainScopesTo target (Q : unit -> state -> Prop) E s :
  inv s -> (forall s', closed (length (scopes s.1) - target) s s' -> Q tt s') ->
  xwp (fun k => drainScopesTo (run k) target) Q E s.
Proof. intros Hi HQ. apply xwp_bind, xwp_get, xwp_drainScopes; [lia|done|done]. Qed.

(** ** Updates of the executor *)

Lemma inv_setLoops l ex w : inv (ex, w) -> inv (setLoops l ex, w).
Proof. intros []. by split. Qed.
Lemma inv_setPending p ex w : inv (ex, w) -> inv (setPending p ex, w).
Proof. intros []. by split. Qed.
Lemma inv_setReturn v ex w : inv (ex, w) -> inv (setReturn v ex, w).
Proof. intros []. by split. Qed.
Lemma inv_addLocalFailures k ex w : inv (ex, w) -> inv (addLocalFailures k ex, w).
Proof. intros []. by split. Qed.
Lemma inv_setBindArgs t a ex w : inv (ex, w) -> inv (setBindArgs t a ex, w).
Proof. intros []. by split. Qed.

(** Another state of the innermost poll. *)
Lemma inv_setTop top top' rest ex w :
  polls ex = top :: rest -> plOnSuccess top' = plOnSuccess top -> inv (ex, w) -> inv (setPollStates (top' :: rest) ex, w).
Proof.
  intros Hp Hs []. cbn in *. rewrite Hp in *. split; cbn in *; try done.
  inversion_clear i_done0 as [|? ? Hd Hr]. constructor; [by rewrite Hs|done].
Qed.

(** ** Polls *)

(** The block that runs and what was left to do at its start. *)
Section block.
Context (here : ir.block) (L : list nat).

Abbreviation fits := (fitsAt L).

Definition lessLeft (b : ir.block) (l : list nat) : Prop := lowers (left_ order b l) (left_ order here L).

(** The next block, from which there is less left. *)
Definition entered (b : ir.block) (s : state) : Prop :=
  inv s /\ exists k, Psi !! b = Some k /\
    (ready k s /\ (normal k -> lessLeft b (levelsOf order s)) \/ leaving b k s /\ lessLeft b (drop 2 (levelsOf order s))).

Definition goesOn (f : flow) (s : state) : Prop := exists b, f = Next b /\ entered b s.

Lemma enters_lookup b k : enters Psi b k = true -> Psi !! b = Some k.
Proof. by intros ?%bool_decide_eq_true. Qed.

Lemma goesOn_normal b c s :
  inv s -> Psi !! b = Some (Normal c 0) -> fitsAt (levelsOf order s) c ∅ s -> lessLeft b (levelsOf order s) -> goesOn (Next b) s.
Proof. intros Hi Hb Hf Hl. exists b. split; [done|]. split; [done|]. exists (Normal c 0). eauto. Qed.

Lemma fits_forget c G s : fits c G s -> fitsAt (levelsOf order s) c ∅ s.
Proof. intros []. by split. Qed.

(** The clock. *)
Lemma xwp_now (Q : Z -> state -> Prop) E ex w :
  inv (ex, w) -> (forall w', stable w w' -> inv (ex, w') -> Q (time (drv w)) (ex, w')) ->
  xwp (fun _ => onWorld now) Q E (ex, w).
Proof.
  intros Hi HQ. apply (xwp_result _ (Ok (time (drv w))) (ex, setDrv (Now (drv w)).2 w)).
  - intros k. unfold onWorld, now, time. by destruct (Now (drv w)).
  - assert (stable w (setDrv (Now (drv w)).2 w)) as Hs by (apply (stable_drv w (fun d => (Now d).2)); intros d; apply law_now).
    apply HQ; [done|by eapply inv_stable].
Qed.

Lemma xwp_sleep d (Q : unit -> state -> Prop) E ex w :
  (0 < d)%Z -> inv (ex, w) ->
  (forall w', stable w w' -> inv (ex, w') -> (time (drv w) + d <= time (drv w'))%Z -> Q tt (ex, w')) ->
  xwp (fun _ => onWorld (sleep d)) Q E (ex, w).
Proof.
  intros Hd Hi HQ. apply xwp_onWorld, xwp_modify. pose proof (law_sleep d (drv w) Hd) as Ht.
  assert (stable w (setDrv (Sleep d (drv w)) w)) as Hs by (split; cbn; try done; lia).
  apply HQ; [done|by eapply inv_stable|done].
Qed.

Lemma xwp_drainToAttempt top (Q : unit -> state -> Prop) ex w :
  inv (ex, w) -> length (frames w0) <= plAttemptFrameDepth top ->
  (forall w', let ex' := setScopes (drop (length (scopes ex) - plAttemptScopeDepth top) (scopes ex))
                (setLoops (drop (length (loops ex) - plAttemptLoopDepth top) (loops ex)) ex) in
     inv (ex', w') -> length (frames w') = Nat.min (length (frames w)) (plAttemptFrameDepth top) ->
     (time (drv w) <= time (drv w'))%Z -> Q tt (ex', w')) ->
  xwp (fun k => drainToAttemptStart (run k) top) Q Fails (ex, w).
Proof.
  intros Hi Hd HQ. apply xwp_bind, xwp_modify, xwp_bind. cbn.
  eapply xwp_drainScopesTo; [by apply inv_setLoops|]. intros [ex1 w1] [Hex Hfr Ht Hi1]. cbn in Hex, Hfr, Ht. subst ex1.
  eapply xwp_popToDepth; [done|done|]. intros fs Hl Hi2. apply HQ; [done| |done]. cbn. by rewrite Hl, Hfr.
Qed.


(** The loops of an attempt are the innermost ones. *)
Lemma loops_kept sl ls k :
  Forall2 (loopFits (length (frames w0))) sl ls -> k `suffix_of` sl ->
  Forall2 (loopFits (length (frames w0))) k (drop (length ls - length k) ls).
Proof.
  intros Hl [l ->]. apply Forall2_app_inv_l in Hl as (l1 & l2 & Hl1 & Hl2 & ->).
  apply Forall2_length in Hl2 as Hlen. by rewrite length_app, <- Hlen, drop_app_length' by lia.
Qed.

Lemma lessLeft_retry c G ex w ls top top' rest t' :
  fits c G (ex, w) -> polls ex = top :: rest ->
  ls = drop (length (loops ex) - plAttemptLoopDepth top) (loops ex) -> plAttemptLoopDepth top = length ls ->
  plAttemptLoopDepth top' = plAttemptLoopDepth top -> plDeadline top' = plDeadline top -> plOnSuccess top' = plOnSuccess top ->
  (time (drv w) < t')%Z -> (time (drv w) < plDeadline top)%Z -> lessLeft (plAttempt top) (levels order t' ls (top' :: rest)).
Proof.
  intros Hf Hp Hls Hlen Hd Hdl Hs Ht Hb. pose proof (f_levels _ _ _ _ Hf) as HL. unfold levelsOf in HL. cbn [fst snd] in HL.
  rewrite Hp in HL. destruct (levels_attempt order (Now (drv w)).1 top (loops ex) rest) as [pre Hpre]. rewrite Hpre, <- Hls in HL.
  eapply lowers_le; [|constructor; [reflexivity|exact HL]].
  rewrite levels_poll by congruence. unfold pollLevel. rewrite Hdl, Hs. apply lowers_again; unfold time in *; [lia|].
  constructor; [done|]. apply levels_later. lia.
Qed.

Lemma xwp_retryPoll last top rest c G ex w :
  inv (ex, w) -> fits c G (ex, w) -> polls ex = top :: rest -> pollDrains c = true ->
  xwp (fun k => retryPoll (run k) last top rest) goesOn Fails (ex, w).
Proof.
  intros Hi Hf Hp Hd. pose proof Hf as []. cbn in *. rewrite Hp in *. inversion f_polls0 as [|p ? ps ? Hpf Hrest Hsp]; subst.
  unfold pollDrains in Hd. rewrite <- Hsp in *. rewrite !andb_true_iff, !Nat.leb_le, bool_decide_eq_true in Hd.
  destruct Hd as [[Hfr Hsc] Hsuf]. cbn [pollsOk] in f_static0. rewrite !andb_true_iff in f_static0.
  destruct f_static0 as [[Hat Hto] Hst]. destruct Hpf. pose proof (loops_kept _ _ _ f_loops0 Hsuf) as Hkept.
  pose proof Hkept as Hlen%Forall2_length. rewrite <- pf_loops0 in Hkept, Hlen.
  apply xwp_bind, xwp_modify, xwp_bind. eapply xwp_drainToAttempt.
  { eapply inv_setTop; [exact Hp|done|exact Hi]. }
  { cbn. lia. }
  intros w1 ex1 Hi1 Hw1 Ht1. cbn in Hw1, Ht1. apply xwp_bind. eapply xwp_now; [done|].
  intros w2 Hs2 Hi2. cbn [plDeadline retried]. destruct (Z.ltb_spec (time (drv w1)) (plDeadline top)) as [Hlt|Hge]; cbn [negb].
  - assert (Hi3 : inv (setPollStates (anotherAttempt (retried last top) :: rest) ex1, w2))
      by (by eapply inv_setTop; [| |exact Hi2]).
    apply xwp_bind, xwp_modify, xwp_bind. cbn [fst snd]. eapply xwp_keeps; [apply keeps_traceRendered|exact Hi3|].
    intros [] w3 Hs3 Hi4. apply xwp_bind. cbn [plEvery retried]. rewrite (proj2 (Z.ltb_lt _ _) pf_every0).
    eapply xwp_sleep; [done|exact Hi4|]. intros w4 Hs4 Hi5 Ht4. apply xwp_ret.
    eapply (goesOn_normal _ (attemptCtx p ps)); [exact Hi5|cbn; rewrite pf_attempt0; by apply enters_lookup| |].
    + pose proof (st_frames _ _ Hs2). pose proof (st_frames _ _ Hs3). pose proof (st_frames _ _ Hs4).
      split; cbn [attemptCtx sFrames sScopes sLoops sPolls fst snd]; try done.
      * lia.
      * cbn. rewrite length_drop. lia.
      * cbn. constructor; [|done]. by split.
      * cbn [pollsOk]. by rewrite Hat, Hto, Hst.
    + pose proof (st_time _ _ Hs2). pose proof (st_time _ _ Hs3).
      eapply (lessLeft_retry c G ex w _ top); [exact Hf|exact Hp|reflexivity|exact Hlen|done..| |lia].
      cbn [snd]. unfold time in *. lia.
  - apply xwp_bind, xwp_modify, xwp_ret. exists (plOnTimeout top). split; [done|]. cbn. split.
    + by eapply inv_setTop; [| |exact Hi2].
    + exists TimesOut. rewrite pf_timeout0. split; [by apply enters_lookup|]. left. by split.
Qed.

(** Each block of the unit fits its context. *)
Context (Hctx : forall b k, Psi !! b = Some k -> ctxOk Psi b k = true).

Lemma ready_quiet b k s top rest :
  inv s -> Psi !! b = Some k -> ready k s -> polls s.1 = top :: rest -> (b =? plOnSuccess top) && negb (plFailed top) = false.
Proof.
  intros Hi Hb Hr Hp. destruct (plFailed top) eqn:Ef; [by rewrite andb_false_r|]. rewrite andb_true_r. apply Nat.eqb_neq.
  intros ->. pose proof (i_done _ Hi) as Hd. rewrite Hp in Hd. inversion_clear Hd as [|? ? (c & m & Hn) _].
  rewrite Hb in Hn. injection Hn as ->. cbn in Hr. destruct Hr. rewrite Hp in f_polls0.
  inversion f_polls0 as [|p ? ps ? [] _ Hsp]; subst. specialize (Hctx _ _ Hb). cbn in Hctx. rewrite <- Hsp in Hctx.
  apply andb_true_iff in Hctx as [_ Hn%negb_true_iff%Nat.eqb_neq]. congruence.
Qed.

(** The state in which the instructions of a block start. *)
Definition arrived (b : ir.block) (s : state) : Prop :=
  inv s /\ exists k, Psi !! b = Some k /\ ready k s /\ (normal k -> lessLeft b (levelsOf order s)).

Lemma enterBlock_ready b k s : inv s -> Psi !! b = Some k -> ready k s -> enterBlock b s = (Ok tt, s).
Proof.
  intros Hi Hb Hr. destruct s as [ex w]. unfold enterBlock, xbind, ofEx, xget. cbn [fst].
  destruct (polls ex) as [|top rest] eqn:Ep; [done|]. by rewrite (ready_quiet _ _ _ _ _ Hi Hb Hr Ep).
Qed.

Lemma xwp_enterBlock b s : entered b s -> xwp (fun _ => enterBlock b) (fun _ => arrived b) Fails s.
Proof.
  intros [Hi (k & Hb & Hr)]. destruct Hr as [[Hr Hl]|[(c & p & -> & <- & Hn & Hf) Hl]].
  { apply (xwp_result _ (Ok tt) s); [intros _; by eapply enterBlock_ready|]. split; [done|]. by exists k. }
  destruct s as [ex w]. destruct Hf. cbn in *. apply xwp_bind, xwp_get. cbn.
  destruct (polls ex) as [|top rest] eqn:Hpl; [by inversion f_polls0|].
  apply Forall2_cons_1 in f_polls0 as [[] Hrest].
  rewrite pf_success0, pf_failed0, Nat.eqb_refl. cbn [negb andb].
  apply xwp_bind. eapply xwp_keeps; [apply keeps_traceRendered|done|]. intros [] w1 Hs1 Hi1. pose proof Hs1 as [].
  apply xwp_bind, xwp_onWorld, xwp_modify, xwp_modify. cbn. split.
  - destruct Hi1. cbn in *. rewrite Hpl in *. split; cbn in *; try done.
    + by destruct i_ok0.
    + lia.
    + by inversion i_done0.
  - exists (Normal c 0). split; [done|]. rewrite !andb_true_iff in f_static0. split.
    + split; cbn; try done; [lia|tauto].
    + intros _. eapply le_lowers; [|exact Hl]. constructor; [done|]. unfold levelsOf. cbn [fst snd polls loops setPollStates drv setPolls].
      apply Forall2_length in f_loops0. rewrite Hpl, levels_poll by lia.
      by apply levels_later.
Qed.

(** ** Loops *)

Lemma setNames_keeps b names v : forall i, keeps (S n) (fun _ => setNames b names v i).
Proof.
  induction names as [|x names IH]; intros i; [apply kept_ret|]. cbn [setNames].
  apply kept_bind; [|intros; apply IH]. apply kept_if; [apply kept_ret|apply keeps_set].
Qed.

Lemma bindForEachNames_keeps st v : keeps (S n) (fun _ => bindForEachNames st v).
Proof. unfold bindForEachNames. keeps_tac; try apply setNames_keeps. Qed.

Lemma emitForEachTrace_keeps st v : keeps (S n) (fun _ => emitForEachTrace st v).
Proof. unfold emitForEachTrace, traceNote. keeps_tac. Qed.

Lemma finish_keeps st : keeps (S n) (fun _ => finish st).
Proof. unfold finish, finaliseCollect. keeps_tac. Qed.

Lemma xwp_beginIteration st (Q : unit -> state -> Prop) ex w :
  inv (ex, w) ->
  (forall w', inv (ex, w') -> length (frames w') = S (length (frames w)) -> (time (drv w) <= time (drv w'))%Z -> Q tt (ex, w')) ->
  xwp (fun _ => onWorld (beginIteration st)) Q Fails (ex, w).
Proof.
  intros Hi HQ. set (w1 := setFrames (∅ :: frames w) w).
  assert (inv (ex, w1)) as Hi1 by (apply inv_setFrames; [done|cbn; pose proof (i_frames _ Hi); cbn in *; lia]).
  set (elem := IndexValue (lpOrigin st) (Z.of_nat (lpIndex st))).
  assert (xwp (fun _ => onWorld (bindForEachNames st elem ;* emitForEachTrace st elem)) Q Fails (ex, w1)) as Hw; [|exact Hw].
  eapply xwp_keeps; [|exact Hi1|].
  - apply kept_bind; [apply bindForEachNames_keeps|intros; apply emitForEachTrace_keeps].
  - intros [] w2 Hs2 Hi2. apply HQ; [done| |apply (st_time _ _ Hs2)]. by rewrite (st_frames _ _ Hs2).
Qed.

(** The unit at the contexts of a loop. *)
Lemma fits_body c G l ls st ds ex w fr :
  fits c G (ex, w) -> sLoops c = l :: ls -> loopFits (length (frames w0)) l st ->
  Forall2 (loopFits (length (frames w0))) ls ds -> slScopes l <= sScopes c ->
  S (slFrames l + length (frames w0)) <= length (frames fr) ->
  let s' := (setLoops (st :: ds) ex, fr) in fitsAt (levelsOf order s') (bodyCtx l ls (sPolls c)) ∅ s'.
Proof.
  intros [] Hl Hst Hds Hsc Hfr. cbn in *. split; cbn; try done; try lia. by constructor.
Qed.

Lemma fits_exit c G l ls ds ex w fr :
  fits c G (ex, w) -> sLoops c = l :: ls -> Forall2 (loopFits (length (frames w0))) ls ds -> slScopes l <= sScopes c ->
  slFrames l + length (frames w0) <= length (frames fr) ->
  let s' := (setLoops ds ex, fr) in fitsAt (levelsOf order s') (exitCtx l ls (sPolls c)) ∅ s'.
Proof.
  intros [] Hl Hds Hsc Hfr. cbn in *. split; cbn; try done; lia.
Qed.

Lemma loopsBack_inv c collect l ls :
  loopsBack Psi c collect = true -> sLoops c = l :: ls ->
  (negb collect || slCollect l = true) /\ slFrames l <= sFrames c /\ slScopes l <= sScopes c /\
  Psi !! slBody l = Some (Normal (bodyCtx l ls (sPolls c)) 0) /\
  Psi !! slExit l = Some (Normal (exitCtx l ls (sPolls c)) 0).
Proof.
  intros Hb Hl. unfold loopsBack in Hb. rewrite Hl in Hb. rewrite !andb_true_iff, !Nat.leb_le in Hb.
  destruct Hb as [[[[? ?] ?] ?%enters_lookup] ?%enters_lookup]. done.
Qed.

(** The innermost loop [st0] comes first in what is left to do. *)
Lemma levels_innermost c G st0 ds ex w :
  fits c G (ex, w) -> loops ex = st0 :: ds -> loopInPoll c = true ->
  depthBelow (length ds) (polls ex) /\
  Forall2 le (loopLevel order st0 ++ levels order (time (drv w)) ds (polls ex)) L.
Proof.
  intros [] Hd Hin. cbn in *. unfold levelsOf in f_levels0. cbn [fst snd] in f_levels0. rewrite Hd in *.
  assert (depthBelow (length ds) (polls ex)) as Hdb.
  { unfold loopInPoll in Hin. inversion f_polls0 as [|p q ps qs Hpf _ Hsp Hq]; [done|]. rewrite <- ?Hsp in Hin.
    apply Nat.ltb_lt in Hin. apply Forall2_length in f_loops0. cbn in f_loops0 |- *. rewrite (pf_loops _ _ _ Hpf). lia. }
  split; [done|]. by rewrite levels_loop in f_levels0.
Qed.

(** Leaving a loop. *)
Lemma xwp_leaveLoop c G l ls st0 st ds collect ex w fs :
  fits c G (ex, w) -> sLoops c = l :: ls -> loops ex = st0 :: ds -> lpExit st = lpExit st0 -> loopInPoll c = true ->
  loopFits (length (frames w0)) l st -> Forall2 (loopFits (length (frames w0))) ls ds -> loopsBack Psi c collect = true ->
  length fs = Nat.min (length (frames w)) (lpEntryFrameDepth st) -> inv (ex, setFrames fs w) ->
  xwp (fun _ => modifyEx (setLoops ds) ;* onWorld (finish st) ;* xret (Next (lpExit st))) goesOn Fails (ex, setFrames fs w).
Proof.
  intros Hf Hl Hd Hx0 Hin Hst Hds Hb Hlen Hi1. destruct (loopsBack_inv _ _ _ _ Hb Hl) as (Hc & Hfr & Hsc & _ & Hx).
  destruct (levels_innermost _ _ _ _ _ _ Hf Hd Hin) as [_ HL].
  apply xwp_bind, xwp_modify, xwp_bind. cbn [fst snd].
  eapply xwp_keeps; [apply finish_keeps|by apply inv_setLoops|]. intros [] w2 Hs2 Hi2. apply xwp_ret.
  eapply goesOn_normal; [done|rewrite (lf_exit _ _ _ Hst); exact Hx| |].
  - eapply fits_exit; [exact Hf|done|done|done|]. rewrite (st_frames _ _ Hs2). cbn. rewrite Hlen.
    pose proof (lf_frames _ _ _ Hst). pose proof (f_frames _ _ _ _ Hf). cbn in *. lia.
  - rewrite Hx0. eapply lowers_le; [apply lowers_exit|constructor; [reflexivity|exact HL]].
    apply levels_later. apply (st_time _ _ Hs2).
Qed.

Lemma xwp_advanceLoop c G l ls st ds collect ex w :
  inv (ex, w) -> fits c G (ex, w) -> sLoops c = l :: ls -> loops ex = st :: ds -> loopInPoll c = true ->
  loopFits (length (frames w0)) l st ->
  Forall2 (loopFits (length (frames w0))) ls ds -> loopsBack Psi c collect = true ->
  xwp (fun _ => advanceLoop st ds) goesOn Fails (ex, w).
Proof.
  intros Hi Hf Hl Hd Hin Hst Hds Hb. destruct (loopsBack_inv _ _ _ _ Hb Hl) as (Hc & Hfr & Hsc & Hbody & _).
  pose proof (lf_frames _ _ _ Hst) as Hlf. pose proof (f_frames _ _ _ _ Hf) as Hff. cbn in Hff.
  destruct (levels_innermost _ _ _ _ _ _ Hf Hd Hin) as [Hdb HL].
  apply xwp_bind. eapply xwp_popToDepth; [done|lia|]. intros fs Hlen Hi1.
  cbv zeta. cbn [lpList nextIndex lpIndex]. destruct (Nat.leb_spec (length (lpList st)) (S (lpIndex st))) as [Hend|Hmore].
  - change (lpExit (nextIndex st)) with (lpExit st).
    eapply (xwp_leaveLoop c G l ls st (nextIndex st)); try done. destruct Hst. by split.
  - apply xwp_bind, xwp_modify, xwp_bind. cbn [fst snd].
    eapply xwp_beginIteration; [by apply inv_setLoops|]. intros w2 Hi2 Hw2 Ht2. apply xwp_ret.
    eapply goesOn_normal; [done|cbn; rewrite (lf_body _ _ _ Hst); exact Hbody| |].
    + eapply fits_body; [exact Hf|done|destruct Hst; by split|done|done|]. rewrite Hw2. cbn. lia.
    + eapply lowers_le; [|constructor; [reflexivity|exact HL]]. unfold levelsOf. cbn [fst snd loops setLoops polls].
      rewrite levels_loop by done. apply (lowers_again _ _ _ _ _ _ _ []); [cbn; lia|].
      constructor; [done|]. by apply levels_later.
Qed.

(** A loop is entered, or passed by when its list is empty. *)
Lemma xwp_openLoop c G v mk sp e1 e2 b x collect ex w :
  inv (ex, w) -> fits c G (ex, w) -> precedes order here x && pollInLoops c = true ->
  (forall l d, lpBody (mk l d) = b /\ lpExit (mk l d) = x /\ lpCollect (mk l d) = collect /\ lpEntryFrameDepth (mk l d) = d) ->
  Psi !! b = Some (Normal (bodyCtx (MkSloop b x collect (sFrames c) (sScopes c)) (sLoops c) (sPolls c)) 0) ->
  Psi !! x = Some (Normal c 0) ->
  xwp (fun _ => openLoop v mk sp e1 e2) goesOn Fails (ex, w).
Proof.
  intros Hi Hf [Hpr Hin]%andb_true_iff Hmk Hb Hx. unfold openLoop. destruct (IsNil v); [by apply xwp_fail|].
  destruct (Raw v) as [| | | | |l|]; try by apply xwp_fail.
  apply xwp_bind, xwp_onWorld, xwp_get. destruct (Hmk l (length (frames w))) as (Eb & Ex & Ec & Ed).
  set (st := mk l (length (frames w))) in *.
  assert (loopFits (length (frames w0)) (MkSloop b x collect (sFrames c) (sScopes c)) st) as Hst.
  { split; cbn; try done. rewrite Ed. apply Hf. }
  destruct l.
  - apply xwp_bind. eapply xwp_keeps; [apply finish_keeps|done|]. intros [] w1 Hs1 Hi1. apply xwp_ret. rewrite Ex.
    pose proof (fits_stable _ _ _ _ _ _ Hf Hs1) as Hf1.
    eapply goesOn_normal; [done|done|by eapply fits_forget|]. apply lowers_jump; [done|apply Hf1].
  - apply xwp_bind, xwp_modify, xwp_bind. cbn [fst snd].
    eapply xwp_beginIteration; [by apply inv_setLoops|]. intros w1 Hi1 Hw1 Ht1. apply xwp_ret. rewrite Eb.
    destruct Hf. cbn in *. eapply goesOn_normal; [done|done|split; cbn; try done; try lia; by constructor|].
    unfold levelsOf. cbn [fst snd loops setLoops polls]. rewrite levels_loop.
    + unfold loopLevel. rewrite Ex. apply lowers_enter; [done|]. etrans; [by apply levels_later|exact f_levels0].
    + unfold pollInLoops in Hin. inversion f_polls0 as [|p q ps qs Hpf _ Hsp Hq]; [done|]. rewrite <- ?Hsp in Hin.
      apply Nat.leb_le in Hin. cbn. rewrite (pf_loops _ _ _ Hpf). apply Forall2_length in f_loops0. lia.
Qed.

(** ** Instructions that fall through *)

(** Falling through at a context, or entering a block. *)
Definition steps (c : sctx) (G : tenv) (f : flow) (s : state) : Prop :=
  match f with
  | Falls => inv s /\ fits c G s
  | Next b => entered b s
  | Halts => inv s
  end.

Lemma goesOn_steps c G f s : goesOn f s -> steps c G f s.
Proof. by intros (b & -> & Hb). Qed.

Lemma xwp_falls c G (s : state) : inv s -> fits c G s -> xwp (fun _ => xret Falls) (steps c G) Fails s.
Proof. intros Hi Hf. by apply xwp_ret. Qed.

(** An action on the world, then the fall through. *)
Lemma xwp_act {A} (m : nat -> W A) c G ex w : keeps (S n) m -> inv (ex, w) -> fits c G (ex, w) ->
  xwp (fun k => onWorld (m k) ;* xret Falls) (steps c G) Fails (ex, w).
Proof.
  intros Hm Hi Hf. apply xwp_bind. eapply xwp_keeps; [done|done|]. intros a w' Hs Hi'.
  apply xwp_falls; [done|]. by eapply fits_stable.
Qed.

(** One that may be left out, before something else. *)
Lemma xwp_optional {B} (b : bool) (m : nat -> W unit) (k : nat -> M B) (Q : B -> state -> Prop) c G ex w :
  keeps (S n) m -> inv (ex, w) -> fits c G (ex, w) ->
  (forall w', inv (ex, w') -> fits c G (ex, w') -> xwp k Q Fails (ex, w')) ->
  xwp (fun i => (if b then onWorld (m i) else xret tt) ;* k i) Q Fails (ex, w).
Proof.
  intros Hm Hi Hf Hk. apply xwp_bind. destruct b; [|apply xwp_ret; by apply Hk].
  eapply xwp_keeps; [done|done|]. intros [] w' Hs Hi'. apply Hk; [done|by eapply fits_stable].
Qed.

Lemma xwp_pushFrame c G k sp ex w : inv (ex, w) -> fits c G (ex, w) ->
  xwp (fun i => execInstr (run i) (ir.EnterFrame k sp)) (steps (framesTo c (S (sFrames c))) G) Fails (ex, w).
Proof.
  intros Hi Hf. apply xwp_bind, xwp_onWorld, xwp_modify. apply xwp_falls; [|by apply fits_push].
  apply inv_setFrames; [done|]. pose proof (i_frames _ Hi). cbn in *. lia.
Qed.

(** The innermost frame is one of the unit's. *)
Lemma xwp_popFrame (Q : unit -> state -> Prop) ex w :
  inv (ex, w) -> S (length (frames w0)) <= length (frames w) ->
  (forall fs, length (frames w) = S (length fs) -> inv (ex, setFrames fs w) -> Q tt (ex, setFrames fs w)) ->
  xwp (fun _ => onWorld PopFrame) Q Fails (ex, w).
Proof.
  intros Hi Hl HQ. pose proof (i_base _ Hi) as Hb. cbn in Hb. apply xwp_onWorld.
  destruct (frames w) as [|f [|g fs]] eqn:E; cbn in Hl; [lia|lia|].
  apply (xwp_result _ (Ok tt) (setFrames (g :: fs) w)); [intros _; unfold PopFrame; by rewrite E|].
  apply HQ; [done|]. apply inv_setFrames; [done|cbn; lia].
Qed.

Lemma xwp_exitFrame c G sp ex w : inv (ex, w) -> fits c G (ex, w) -> 1 <= sFrames c ->
  xwp (fun i => execInstr (run i) (ir.ExitFrame sp)) (steps (framesTo c (sFrames c - 1)) G) Fails (ex, w).
Proof.
  intros Hi Hf Hc. pose proof (f_frames _ _ _ _ Hf) as Hl. cbn in Hl. apply xwp_bind.
  eapply xwp_popFrame; [done|lia|]. intros fs Hfs Hi'. apply xwp_falls; [done|].
  destruct Hf. split; cbn in *; try done. lia.
Qed.

Lemma xwp_enterDeferScope c G kind ex w : inv (ex, w) -> fits c G (ex, w) ->
  xwp (fun _ => enterDeferScope kind) (steps (scopesTo c (S (sScopes c))) G) Fails (ex, w).
Proof.
  intros Hi Hf. pose proof (i_skip _ Hi) as Hsk. cbn in Hsk. apply xwp_bind, xwp_get. cbn [fst]. rewrite Hsk.
  assert (xwp (fun _ => let* d := onWorld (xget defers) in
     modifyEx (fun ex => setScopes (d :: scopes ex) ex) ;* onWorld (xmodify (setDefers (Some []))) ;* xret Falls)
     (steps (scopesTo c (S (sScopes c))) G) Fails (ex, w)) as Hk; [|by destruct kind].
  apply xwp_bind, xwp_onWorld, xwp_get, xwp_bind, xwp_modify, xwp_bind, xwp_onWorld, xwp_modify. cbn [fst snd].
  apply xwp_falls.
  - destruct Hi. cbn in *. split; cbn; try done. by destruct i_ok0.
  - destruct Hf. cbn in *. split; cbn; try done. lia.
Qed.

(** In a scope of the unit's own there is a list of deferred commands. *)
Lemma scopes_active ex w : inv (ex, w) -> 1 <= length (scopes ex) -> exists s rest, scopes ex = s :: rest /\ is_Some (defers w).
Proof.
  intros Hi Hl. pose proof (i_scopes _ Hi) as Hs. cbn in Hs. destruct (scopes ex) as [|s rest]; [cbn in Hl; lia|].
  exists s, rest. split; [done|]. apply Hs.
Qed.

Lemma xwp_registerDefer c G argv policy traced sp ex w :
  inv (ex, w) -> fits c G (ex, w) -> has G argv TyArgv = true -> 1 <= sScopes c ->
  xwp (fun _ => execRegisterDefer argv policy traced sp) (steps c G) Fails (ex, w).
Proof.
  intros Hi Hf Ha Hc. destruct (scopes_active ex w) as (s & rest & Es & stack & Ed); [done|pose proof (f_scopes _ _ _ _ Hf); cbn in *; lia|].
  apply xwp_bind, xwp_onWorld, xwp_get. rewrite Ed. apply xwp_bind. eapply xwp_argvAt; [done|apply Hf|]. intros args.
  eapply xwp_optional; [apply keeps_traceRendered|done|done|]. intros w1 Hi1 Hf1.
  apply xwp_bind, xwp_onWorld, xwp_get, xwp_bind, xwp_onWorld, xwp_modify. apply xwp_falls.
  - destruct Hi1. cbn in *. rewrite Es in *. destruct i_scopes0 as [[st1 Hst1] ?]. split; cbn; rewrite ?Es; try done.
    + by destruct i_ok0.
    + rewrite Hst1. by split.
  - destruct Hf1. by split.
Qed.

Lemma xwp_orRetry {A} frame (ok : nat -> A -> M flow) (m : nat -> W A) (Q : flow -> state -> Prop) c G ex w :
  keeps (S n) m -> inv (ex, w) -> fits c G (ex, w) -> pollDrains c = true ->
  (forall e, consistent e -> consistent (frame e)) ->
  (forall a w', inv (ex, w') -> fits c G (ex, w') -> xwp (fun k => ok k a) Q Fails (ex, w')) ->
  (forall f s, goesOn f s -> Q f s) ->
  xwp (fun k => orRetry (run k) frame (ok k) (onWorld (m k))) Q Fails (ex, w).
Proof.
  intros Hm Hi Hf Hd Hfr Hok HQ. apply xwp_bind, xwp_try, xwp_onWorld.
  eapply xwp_mono; [apply Hm, Hi| |].
  - intros a w' Hs. apply Hok; [by eapply inv_stable|by eapply fits_stable].
  - intros e w' [Hs He]. pose proof (inv_stable _ _ _ Hi Hs) as Hi'. pose proof (fits_stable _ _ _ _ _ _ Hf Hs) as Hf'.
    apply xwp_bind, xwp_get. cbn [fst].
    assert (xwp (fun _ => xfail (A := flow) (frame e)) Q Fails (ex, w')) as Hgo by (apply xwp_fail; split; [done|by apply Hfr]).
    destruct (asRetry e) as [last|]; [|exact Hgo]. destruct (polls ex) as [|top rest] eqn:Ep; [exact Hgo|].
    eapply xwp_mono; [eapply xwp_retryPoll; [exact Hi'|exact Hf'|exact Ep|exact Hd]|exact HQ|done].
Qed.

(** One defer scope has been run and left. *)
Record drained (s s' : state) : Prop := MkDrained {
  dr_inv : inv s';
  dr_frames : length (frames s'.2) = length (frames s.2);
  dr_scopes : scopes s'.1 = drop 1 (scopes s.1);
  dr_loops : loops s'.1 = loops s.1;
  dr_polls : polls s'.1 = polls s.1;
  dr_pending : pending s'.1 = pending s.1;
  dr_temps : temps s'.1 = temps s.1;
  dr_time : (time (drv s.2) <= time (drv s'.2))%Z
}.

(** The scope is left after its commands have run in [w1]. *)
Lemma xwp_leaveScope (Q : unit -> state -> Prop) ex ex1 w w1 :
  1 <= length (scopes ex) -> inv (ex1, w1) -> stable w w1 ->
  scopes ex1 = scopes ex -> loops ex1 = loops ex -> polls ex1 = polls ex -> pending ex1 = pending ex ->
  temps ex1 = temps ex -> (forall s', drained (ex, w) s' -> Q tt s') ->
  xwp (fun _ => restoreScope) Q Fails (ex1, w1).
Proof.
  intros Hl Hi Hs Hsc Hlo Hpo Hpe Hte HQ. destruct (scopes ex) as [|d rest] eqn:Es; [cbn in Hl; lia|].
  eapply xwp_restoreScope; [exact Hsc|exact Hi|]. intros Hi2. apply HQ. destruct Hs. split; cbn; try done. by rewrite Es.
Qed.

Lemma xwp_runDefers policy sp (Q : flow -> state -> Prop) s :
  inv s -> 1 <= length (scopes s.1) -> (forall s', drained s s' -> Q Falls s') ->
  xwp (fun k => execRunDefers (run k) policy sp) Q Fails s.
Proof.
  destruct s as [ex w]. intros Hi Hl HQ. 
  pose proof (i_skip _ Hi) as Hsk. cbn in Hsk. apply xwp_bind, xwp_get. cbn [fst]. rewrite Hsk.
  destruct policy; apply xwp_bind; (eapply xwp_keeps; [apply surely_keeps, surely_runActiveDefers|done|]);
    intros failed w1 Hs1 Hi1; apply xwp_bind.
  - apply xwp_ret, xwp_bind. eapply (xwp_leaveScope _ ex ex w w1); try done. intros s' Hd. by apply xwp_ret, HQ.
  - apply xwp_modify, xwp_bind. eapply (xwp_leaveScope _ ex _ w w1); try done; [by apply inv_addLocalFailures|].
    intros s' Hd. by apply xwp_ret, HQ.
  - apply xwp_ret, xwp_bind. eapply (xwp_leaveScope _ ex ex w w1); try done. intros [ex2 w2] Hd.
    destruct (0 <? failed); [|by apply xwp_ret, HQ]. apply xwp_bind, xwp_get. cbn [fst].
    pose proof (dr_inv _ _ Hd) as Hi2. destruct (polls ex2) as [|top rest] eqn:Ep.
    + apply xwp_bind, xwp_get, xwp_bind, xwp_onWorld, xwp_get. destruct (_ && _); [by apply xwp_fail|by apply xwp_ret, HQ].
    + apply xwp_bind, xwp_modify, xwp_bind. cbn [fst snd].
      eapply xwp_keeps; [apply keeps_traceRendered|by eapply inv_setTop|]. intros [] w3 Hs3 Hi3. by apply xwp_fail.
Qed.

Lemma fits_drained c G s s' : fits c G s -> drained s s' -> 1 <= length (scopes s.1) ->
  fits (scopesTo c (sScopes c - 1)) G s'.
Proof.
  intros [] [] Hl.
  split; cbn; rewrite ?dr_frames0, ?dr_scopes0, ?dr_loops0, ?dr_polls0, ?dr_pending0, ?dr_temps0, ?length_drop; try done.
  - lia.
  - etrans; [|exact f_levels0]. unfold levelsOf. rewrite dr_loops0, dr_polls0. by apply levels_later.
Qed.

Lemma xwp_runDefersStep c G policy sp s : inv s -> fits c G s -> 1 <= sScopes c ->
  xwp (fun k => execRunDefers (run k) policy sp) (steps (scopesTo c (sScopes c - 1)) G) Fails s.
Proof.
  intros Hi Hf Hc. pose proof (f_scopes _ _ _ _ Hf) as Hl. eapply xwp_runDefers; [done|lia|].
  intros s' Hd. split; [apply Hd|]. eapply fits_drained; [done|done|lia].
Qed.

(** ** Bindings *)

Lemma bindDestructure_keeps names v sp : keeps (S n) (fun _ => bindDestructure names v sp).
Proof. unfold bindDestructure. keeps_tac. apply setNames_keeps. Qed.

Lemma xwp_applyBind c G src argv target guard onFail sp ex w :
  inv (ex, w) -> fits c G (ex, w) -> has G src TyBind = true -> has G argv TyArgv = true ->
  negb guard || guardOk Psi c onFail = true ->
  xwp (fun _ => applyBind src argv target guard onFail sp) (steps c G) Fails (ex, w).
Proof.
  intros Hi Hf Hs Ha Hg. apply xwp_bind. eapply xwp_bindAt; [done|apply Hf|]. intros r.
  destruct (guard && negb (OK (Rc r))) eqn:E.
  - apply andb_true_iff in E as [-> _]. cbn in Hg. unfold guardOk in Hg. destruct onFail as [b|]; [|done].
    destruct (Psi !! b) as [[| f sc | | |]|] eqn:Eb; try done. apply andb_true_iff in Hg as [H1' H2'].
    apply Nat.leb_le in H1', H2'. apply xwp_bind. eapply xwp_tempAt; [exact Ha|apply Hf|]. intros x Hx.
    apply xwp_bind, xwp_modify, xwp_ret. split; [by apply inv_setPending|]. exists (GuardFails f sc). split; [done|]. left.
    split; [|done]. destruct Hf. cbn in *. split; [lia|]. split; [lia|done].
  - destruct (bindable target); [|by apply xwp_bind, xwp_ret, xwp_falls].
    eapply xwp_act; [apply keeps_set|done|done].
Qed.

(** ** Every instruction at a context that fits *)

Lemma traceValue_keeps sp p v : keeps (S n) (fun _ => traceValue sp p v).
Proof. apply keeps_traceRendered. Qed.

Lemma registerDef_act c G d ex w : inv (ex, w) -> fits c G (ex, w) -> goodDefValue (defValueOf d) ->
  xwp (fun _ => onWorld (registerDef d) ;* xret Falls) (steps c G) Fails (ex, w).
Proof.
  intros Hi Hf Hd. eapply xwp_act; [|done|done]. apply kept_bind; [|intros; apply keeps_traceRendered].
  apply keeps_modify. intros w1 _. split; cbn; try done. intros Hg. by apply map_Forall_insert_2.
Qed.

Lemma xwp_dispatchBind c G dst argv callPos policy header sp c' G' ex w :
  inv (ex, w) -> fits c G (ex, w) -> stepOk D Psi nt c G (ir.DispatchBind dst argv callPos policy header sp) = Some (c', G') ->
  xwp (fun k => execInstr (run k) (ir.DispatchBind dst argv callPos policy header sp)) (steps c' G') Fails (ex, w).
Proof.
  intros Hi Hf. cbn -[Nat.ltb pollDrains]. destruct (_ && _) eqn:E; [|done]. intros [= <- <-].
  rewrite !andb_true_iff, bool_decide_eq_true, Nat.ltb_lt in E. destruct E as [[[Ha Hd] ->] Hp].
  apply xwp_bind. eapply xwp_argvAt; [done|apply Hf|]. intros args.
  eapply xwp_optional; [apply keeps_traceRendered|done|done|]. intros w1 Hi1 Hf1.
  destruct ExecBind as [f|] eqn:Eb; [|by apply xwp_fail].
  eapply xwp_orRetry; [|exact Hi1|exact Hf1|exact Hp| | |intros; by apply goesOn_steps].
  - apply dispatchBind_keeps; [done|by rewrite Eb].
  - intros e. apply consistent_frame.
  - intros r w2 Hi2 Hf2. apply xwp_bind, xwp_modify, xwp_bind. cbn [fst snd].
    eapply (xwp_store L c G dst (SBind r) TyBind); [done|done|by apply inv_setBindArgs| |].
    + destruct Hf2. by split.
    + intros s' Hi3 Hf3. by apply xwp_falls.
Qed.

Lemma xwp_dispatchCommand c G argv policy traced sp c' G' ex w :
  inv (ex, w) -> fits c G (ex, w) -> stepOk D Psi nt c G (ir.DispatchCommand argv policy traced sp) = Some (c', G') ->
  xwp (fun k => execInstr (run k) (ir.DispatchCommand argv policy traced sp)) (steps c' G') Fails (ex, w).
Proof.
  intros Hi Hf. cbn -[pollDrains]. destruct (_ && _) eqn:E; [|done]. intros [= <- <-].
  rewrite !andb_true_iff, bool_decide_eq_true in E. destruct E as [[Ha ->] Hp].
  apply xwp_bind. eapply xwp_argvAt; [done|apply Hf|]. intros args.
  eapply xwp_optional; [apply keeps_traceRendered|done|done|]. intros w1 Hi1 Hf1.
  apply xwp_bind, xwp_get. cbn [fst].
  eapply xwp_orRetry; [|exact Hi1|exact Hf1|exact Hp| | |intros; by apply goesOn_steps].
  - by apply dispatchCommand_keeps.
  - intros e He. destruct (inDef ex); [done|by apply consistent_frame].
  - intros [] w2 Hi2 Hf2. by apply xwp_falls.
Qed.

(** A temporary is computed, or read and acted on. *)
Lemma xwp_compute {A} (m : nat -> W A) (f : A -> slot) ty dst c G ex w :
  keeps (S n) m -> (forall a, slotFits ty (f a)) -> dst < nt -> inv (ex, w) -> fits c G (ex, w) ->
  xwp (fun k => let* a := onWorld (m k) in store dst (f a) ;* xret Falls) (steps c (<[dst := ty]> G)) Fails (ex, w).
Proof.
  intros Hm Hty Hd Hi Hf. apply xwp_bind. eapply xwp_keeps; [exact Hm|exact Hi|]. intros a w1 Hs1 Hi1.
  apply xwp_bind. eapply xwp_store; [done|apply Hty|exact Hi1|by eapply fits_stable|].
  intros s' Hi2 Hf2. by apply xwp_falls.
Qed.

Lemma xwp_emitResult c G src traced sp ex w : inv (ex, w) -> fits c G (ex, w) -> has G src TyValue = true ->
  xwp (fun k => execInstr (run k) (ir.EmitResult src traced sp)) (steps c G) Fails (ex, w).
Proof.
  intros Hi Hf Ht. eapply xwp_bind, xwp_valueAt; [exact Ht|apply Hf|intros v].
  eapply xwp_optional; [apply traceValue_keeps|done|done|]. intros w1 Hi1 Hf1.
  destruct PrintResult as [print|] eqn:Ep; [|by apply xwp_falls]. destruct (law_print print Ep v (drv w1)) as [Htm He].
  destruct (print v (drv w1)) as [e d] eqn:Ev. assert (stable w1 (setDrv d w1)) as Hs by (by split).
  apply xwp_bind. apply (xwp_result _ (Ok e) (ex, setDrv d w1)); [intros k; unfold onWorld; by rewrite Ev|].
  destruct e as [e|].
  - apply xwp_fail. split; [by eapply inv_stable|]. by apply He.
  - apply xwp_falls; [by eapply inv_stable|by eapply fits_stable].
Qed.

Lemma exec_step i c G c' G' ex w :
  inv (ex, w) -> fits c G (ex, w) -> stepOk D Psi nt c G i = Some (c', G') ->
  xwp (fun k => execInstr (run k) i) (steps c' G') Fails (ex, w).
Proof.
  intros Hi Hf.
  destruct i; try done; try (by eapply xwp_dispatchBind); try (by eapply xwp_dispatchCommand);
    cbn -[Nat.ltb Nat.leb has Nat.eqb base execInstr];
    try (destruct (Nat.ltb_spec Dst nt) as [Hd|]; [|done]; intros [= <- <-]).
  - intros [= <- <-]. by eapply xwp_pushFrame.
  - destruct (Nat.leb_spec 1 (sFrames c)); [|done]. intros [= <- <-]. by eapply xwp_exitFrame.
  - intros Hs. assert (c' = scopesTo c (S (sScopes c)) /\ G' = G) as [-> ->].
    { destruct (bool_decide _); [|by destruct (_ <=? _); [injection Hs as <- <-|]].
      destruct (negb D); [|done]. destruct (Nat.eqb_spec (sScopes c) 0) as [E|]; [|done]. rewrite E. by injection Hs as <- <-. }
    by apply xwp_enterDeferScope.
  - destruct (has _ _ _) eqn:Ht; [|done]. destruct (Nat.leb_spec 1 (sScopes c)); [|done]. intros [= <- <-].
    by apply xwp_registerDefer.
  - intros Hs. assert (1 <= sScopes c /\ c' = scopesTo c (sScopes c - 1) /\ G' = G) as (Hc & -> & ->).
    { destruct (bool_decide _).
      - destruct (negb D); [|done]. destruct (Nat.eqb_spec (sScopes c) 1) as [E|]; [|done]. rewrite E. by injection Hs as <- <-.
      - destruct (Nat.ltb_spec (base D) (sScopes c)); [|done]. injection Hs as <- <-. split; [lia|done]. }
    by apply xwp_runDefersStep.
  - eapply (xwp_compute (fun k => evalExpr (run k) _) SValue); [by apply evalExpr_keeps|done|done|done|done].
  - eapply (xwp_compute (fun k => evalArgs (run k) _) SArgs); [by apply evalArgs_keeps|done|done|done|done].
  - destruct (has G Src _ && has G Argv _ && _) eqn:E; [|done]. intros [= <- <-]. rewrite !andb_true_iff in E.
    destruct E as [[? ?] ?]. by apply xwp_applyBind.
  - destruct (has _ _ _) eqn:Ht; [|done]. intros [= <- <-]. eapply xwp_bind, xwp_valueAt; [exact Ht|apply Hf|intros v].
    eapply xwp_optional; [apply traceValue_keeps|done|done|]. intros w1 Hi1 Hf1. by apply xwp_act; [apply keeps_set| |].
  - destruct (has _ _ _) eqn:Ht; [|done]. intros [= <- <-]. eapply xwp_bind, xwp_valueAt; [exact Ht|apply Hf|intros v].
    apply xwp_bind. eapply xwp_keeps; [apply bindDestructure_keeps|done|]. intros [] w1 Hs1 Hi1.
    eapply xwp_optional; [apply keeps_traceRendered|done|by eapply fits_stable|]. intros w2 Hi2 Hf2. by apply xwp_falls.
  - apply xwp_bind. eapply (xwp_store _ _ _ _ _ TyValue); [done|done|done|exact Hf|]. intros s' Hi2 Hf2. by apply xwp_falls.
  - intros [= <- <-]. by apply xwp_falls.
  - destruct (has _ _ _) eqn:Ht; [|done]. intros [= <- <-]. by apply xwp_emitResult.
  - intros [= <- <-]. apply xwp_act; [apply keeps_traceRendered|done|done].
  - intros [= <- <-]. cbn [execInstr]. destruct ExecAssert as [f|] eqn:Ea; [|by apply xwp_fail].
    apply xwp_act; [by apply law_assert|done|done].
Qed.

(** ** The last instruction of a block *)

Definition ends (f : flow) (s : state) : Prop :=
  match f with
  | Falls => False
  | Next b => entered b s
  | Halts => inv s
  end.

Lemma goesOn_ends f s : goesOn f s -> ends f s.
Proof. by intros (b & -> & Hb). Qed.

Lemma xwp_goesOn (m : nat -> M flow) s : xwp m goesOn Fails s -> xwp m ends Fails s.
Proof. intros Hm. eapply xwp_mono; [exact Hm|apply goesOn_ends|done]. Qed.

Lemma lessLeft_same c G b s : fits c G s -> precedes order here b = true -> lessLeft b (levelsOf order s).
Proof. intros [] Hp. by apply lowers_jump. Qed.

Lemma entered_normal b c G s :
  inv s -> fits c G s -> enters Psi b (Normal c 0) = true -> goesForward order Psi here c b = true -> entered b s.
Proof.
  intros Hi Hf Hb%enters_lookup Hp. split; [done|]. exists (Normal c 0). split; [done|]. left. split; [by eapply fits_forget|].
  intros _. eapply lessLeft_same; [done|]. unfold goesForward in Hp. rewrite Hb in Hp. by rewrite bool_decide_true in Hp.
Qed.

Lemma entered_epilogue b c G s :
  inv s -> fits c G s -> enters Psi b Epilogue = true -> 1 <= sFrames c -> 1 <= sScopes c -> entered b s.
Proof.
  intros Hi [] Hb%enters_lookup Hfr Hsc. split; [done|]. exists Epilogue. split; [done|]. left. cbn. split; [lia|done].
Qed.

(** The end of the innermost poll. *)
Lemma entered_done b c G p rest s :
  inv s -> fits c G s -> sPolls c = p :: rest -> spDone p = b ->
  Psi !! b = Some (Normal (MkSctx (sFrames c) (sScopes c) (sLoops c) rest) 0) -> goesForward order Psi here c b = true ->
  entered b s.
Proof.
  intros Hi Hf Ep Hd Hb Hg. split; [done|]. eexists. split; [exact Hb|]. right.
  unfold goesForward in Hg. rewrite Hb in Hg. cbn [sPolls] in Hg. rewrite Ep in Hg.
  rewrite bool_decide_false in Hg by (intros E; apply (f_equal length) in E; cbn in E; lia). apply Nat.eqb_eq in Hg. split.
  - eexists _, p. split; [done|]. split; [done|]. split; [done|]. cbn. rewrite <- Ep.
    eapply fits_forget. by destruct c.
  - destruct Hf. destruct s as [ex w]. cbn in *. rewrite Ep in f_polls0. inversion f_polls0 as [|? top ? ps [] _ E1 E2].
    unfold levelsOf in *. cbn [fst snd] in *. rewrite <- E2 in *. apply Forall2_length in f_loops0 as Hlen.
    rewrite levels_poll in * by lia. cbn [pollLevel app drop]. rewrite <- Hd, <- pf_success0.
    eapply lowers_le; [by apply lowers_exit|]. constructor; [reflexivity|]. exact f_levels0.
Qed.

Lemma xwp_jump c G t sp ex w :
  inv (ex, w) -> fits c G (ex, w) -> endOk D Psi c G (ir.Jump t sp) = true -> goesForward order Psi here c t = true ->
  xwp (fun k => execInstr (run k) (ir.Jump t sp)) ends Fails (ex, w).
Proof.
  intros Hi Hf. cbn -[enters Nat.leb Nat.eqb execInstr]. rewrite !orb_true_iff. intros [[Ht|Ht]|Ht] Hg; apply xwp_ret.
  - by eapply entered_normal.
  - destruct (sPolls c) as [|p rest] eqn:Ep; [done|]. apply andb_true_iff in Ht as [Hd%Nat.eqb_eq Ht%enters_lookup].
    by eapply entered_done.
  - rewrite !andb_true_iff, !Nat.leb_le in Ht. destruct Ht as [[[_ Ht] Hfr] Hsc]. by eapply entered_epilogue.
Qed.

Lemma xwp_return c G src t traced sp ex w :
  inv (ex, w) -> fits c G (ex, w) -> endOk D Psi c G (ir.ReturnValue src t traced sp) = true ->
  xwp (fun k => execInstr (run k) (ir.ReturnValue src t traced sp)) ends Fails (ex, w).
Proof.
  intros Hi Hf. cbn -[enters Nat.leb execInstr]. rewrite !andb_true_iff, !Nat.leb_le. intros [[[[Hs _] Ht] Hfr] Hsc].
  eapply xwp_bind, xwp_valueAt; [exact Hs|apply Hf|intros v].
  eapply xwp_optional; [apply traceValue_keeps|done|done|]. intros w1 Hi1 Hf1.
  apply xwp_bind, xwp_modify, xwp_ret. eapply (entered_epilogue _ c G); [by apply inv_setReturn| |done|done|done].
  destruct Hf1. by split.
Qed.

Lemma xwp_branch c G cond t f sp ex w :
  inv (ex, w) -> fits c G (ex, w) -> endOk D Psi c G (ir.Branch cond t f sp) = true ->
  goesForward order Psi here c t && goesForward order Psi here c f = true ->
  xwp (fun k => execInstr (run k) (ir.Branch cond t f sp)) ends Fails (ex, w).
Proof.
  intros Hi Hf. cbn -[enters execInstr]. rewrite !andb_true_iff. intros [[Hc Ht] Hff] [Hgt Hgf].
  eapply xwp_bind, xwp_valueAt; [exact Hc|apply Hf|intros v]. apply xwp_bind, xwp_liftWith; [auto with returns| |by split].
  intros b. apply xwp_ret. destruct b; by eapply entered_normal.
Qed.

Lemma xwp_beginPoll c G timeout every a o d sp ex w :
  inv (ex, w) -> fits c G (ex, w) -> endOk D Psi c G (ir.BeginPoll timeout every a o d sp) = true ->
  (0 <? every)%Z && precedes order here d = true ->
  xwp (fun k => execInstr (run k) (ir.BeginPoll timeout every a o d sp)) ends Fails (ex, w).
Proof.
  intros Hi Hf. cbn -[enters execInstr attemptCtx]. rewrite !andb_true_iff, Z.ltb_lt. intros [[Ha Ho] Hd] [He Hpr].
  apply xwp_bind. eapply xwp_keeps; [apply keeps_now|done|]. intros t w1 Hs1 Hi1.
  pose proof (fits_stable _ _ _ _ _ _ Hf Hs1) as Hf1.
  apply xwp_bind, xwp_onWorld, xwp_get, xwp_bind, xwp_modify, xwp_bind, xwp_onWorld, xwp_modify, xwp_ret. cbn [fst snd].
  assert (Hi2 := Hi1). split.
  - destruct Hi1. cbn in *. split; cbn; try done; [by destruct i_ok0|lia|].
    constructor; [|done]. cbn. exists c, 0. by apply enters_lookup.
  - eexists. split; [by apply enters_lookup|]. left. split.
    + destruct Hf1. cbn in *. split; cbn -[pollsOk]; try done.
      * constructor; [|done]. split; cbn; try done. by apply Forall2_length in f_loops0.
      * cbn -[enters attemptCtx]. rewrite f_static0, Ho, andb_true_r, andb_true_iff. by split.
    + intros _. unfold levelsOf. cbn [fst snd loops setPollStates polls drv setPolls]. rewrite levels_poll by done.
      apply lowers_enter; [done|apply Hf1].
Qed.

Lemma xwp_execRetryPoll c G msg sp ex w :
  inv (ex, w) -> fits c G (ex, w) -> endOk D Psi c G (ir.RetryPoll msg sp) = true ->
  xwp (fun k => execInstr (run k) (ir.RetryPoll msg sp)) ends Fails (ex, w).
Proof.
  intros Hi Hf. cbn -[pollDrains execInstr]. rewrite !andb_true_iff. intros [[Hm _] Hd].
  assert (forall last, xwp (fun k => let* ps := ofEx polls in
    match ps with
    | top :: rest => retryPoll (run k) last top rest
    | [] => let* inDef := ofEx inDef in let* inPoll := onWorld InPoll in
            if inDef && inPoll then xfail (PollRetry last) else xfail (SpanErrorf sp "retry: outside any poll")
    end) ends Fails (ex, w)) as Hgo.
  { intros last. apply xwp_bind, xwp_get. cbn [fst]. destruct (polls ex) as [|top rest] eqn:Ep.
    - apply xwp_bind, xwp_get, xwp_bind, xwp_onWorld, xwp_get. destruct (_ && _); by apply xwp_fail.
    - apply xwp_goesOn. by eapply xwp_retryPoll. }
  cbn [execInstr]. unfold execRetryPoll. apply xwp_bind. destruct msg as [t|].
  - eapply xwp_bind, xwp_valueAt; [exact Hm|apply Hf|intros v]. apply xwp_ret, Hgo.
  - apply xwp_ret, Hgo.
Qed.

(** The loops around a context. *)
Lemma loops_around c G collect ex w :
  fits c G (ex, w) -> loopsBack Psi c collect = true ->
  exists l ls st ds, sLoops c = l :: ls /\ loops ex = st :: ds /\ loopFits (length (frames w0)) l st /\
    Forall2 (loopFits (length (frames w0))) ls ds.
Proof.
  intros [] Hb. unfold loopsBack in Hb. cbn in *. destruct (sLoops c) as [|l ls]; [done|].
  inversion f_loops0 as [|? st ? ds ? ? E1 E2]; subst. by exists l, ls, st, ds.
Qed.

Lemma xwp_exitLoop c G sp ex w :
  inv (ex, w) -> fits c G (ex, w) -> loopsBack Psi c false = true -> loopInPoll c = true ->
  xwp (fun _ => execExitLoop sp) goesOn Fails (ex, w).
Proof.
  intros Hi Hf Hb Hin. destruct (loops_around _ _ _ _ _ Hf Hb) as (l & ls & st & ds & Hl & Hd & Hst & Hds).
  apply xwp_bind, xwp_get. cbn [fst]. rewrite Hd. apply xwp_bind.
  eapply xwp_popToDepth; [done|pose proof (lf_frames _ _ _ Hst); lia|]. intros fs Hlen Hi1.
  by eapply xwp_leaveLoop.
Qed.

Lemma xwp_continue c G sp ex w :
  inv (ex, w) -> fits c G (ex, w) -> loopsBack Psi c false = true -> loopInPoll c = true ->
  xwp (fun _ => execForEachContinue sp) goesOn Fails (ex, w).
Proof.
  intros Hi Hf Hb Hin. destruct (loops_around _ _ _ _ _ Hf Hb) as (l & ls & st & ds & Hl & Hd & Hst & Hds).
  apply xwp_bind, xwp_get. cbn [fst]. rewrite Hd. by eapply xwp_advanceLoop.
Qed.

Lemma xwp_collectProduce c G r fsp sp ex w :
  inv (ex, w) -> fits c G (ex, w) -> has G r TyBind = true -> loopsBack Psi c true = true -> loopInPoll c = true ->
  xwp (fun _ => execCollectProduce r fsp sp) goesOn Fails (ex, w).
Proof.
  intros Hi Hf Hr Hb Hin. destruct (loops_around _ _ _ _ _ Hf Hb) as (l & ls & st & ds & Hl & Hd & Hst & Hds).
  destruct (loopsBack_inv _ _ _ _ Hb Hl) as (Hc & _). cbn in Hc.
  apply xwp_bind, xwp_get. cbn [fst]. rewrite Hd. rewrite (lf_collect _ _ _ Hst), Hc. cbn [negb].
  apply xwp_bind. eapply xwp_bindAt; [exact Hr|apply Hf|]. intros res. cbv zeta.
  assert (loopFits (length (frames w0)) l (produced res st)) as Hst' by (destruct Hst; by split).
  apply xwp_bind, xwp_modify. cbn [fst snd].
  assert (fits c G (setLoops (produced res st :: ds) ex, w)) as Hf'.
  { destruct Hf. split; cbn in *; try done; [rewrite Hl; by constructor|]. unfold levelsOf in *. cbn in *.
    rewrite (levels_ext _ _ _ _ (loops ex)); [done|]. by rewrite Hd. }
  destruct (_ && _).
  - apply xwp_bind, xwp_get, xwp_bind, xwp_get, xwp_fail. split; [by apply inv_setLoops|].
    cbn [fst]. destruct (inDef _); [done|]. by apply consistent_frame.
  - eapply xwp_advanceLoop; [by apply inv_setLoops|exact Hf'|done..].
Qed.

Lemma exec_end i c G ex w :
  inv (ex, w) -> fits c G (ex, w) -> endOk D Psi c G i = true -> endOrdered order Psi here c i = true ->
  xwp (fun k => execInstr (run k) i) ends Fails (ex, w).
Proof.
  intros Hi Hf He Hor. destruct i; try done; try (by apply xwp_ret); try (by apply xwp_fail).
  - by eapply xwp_jump.
  - by eapply xwp_branch.
  - by eapply xwp_return.
  - by eapply xwp_beginPoll.
  - by eapply xwp_execRetryPoll.
  - cbn -[enters bodyCtx] in He. rewrite !andb_true_iff in He. destruct He as [[Ht Hb%enters_lookup] Hx%enters_lookup].
    apply xwp_goesOn, xwp_bind. eapply xwp_valueAt; [exact Ht|apply Hf|intros v].
    by eapply (xwp_openLoop c G _ _ _ _ _ Body Exit false).
  - by eapply xwp_goesOn, xwp_continue.
  - by eapply xwp_goesOn, xwp_exitLoop.
  - cbn -[enters bodyCtx] in He. rewrite !andb_true_iff in He. destruct He as [[Ht Hb%enters_lookup] Hx%enters_lookup].
    apply xwp_goesOn, xwp_bind. eapply xwp_valueAt; [exact Ht|apply Hf|intros v].
    by eapply (xwp_openLoop c G _ _ _ _ _ Body Exit true).
  - cbn -[has loopsBack] in He. apply andb_true_iff in He as [Hr Hb]. by eapply xwp_goesOn, xwp_collectProduce.
Qed.

(** ** Blocks *)

Definition leaves (f : flow) (s : state) : Prop := match f with Next b => entered b s | _ => inv s end.

Lemma block_normal l : forall c G ex w, inv (ex, w) -> fits c G (ex, w) -> instrsOk D Psi nt c G l = true ->
  (forall i, list.last l = Some i -> endOrdered order Psi here c i = true) ->
  xwp (fun k => runBlock (run k) l) leaves Fails (ex, w).
Proof.
  induction l as [|i l IH]; intros c G ex w Hi Hf Hl Hor; [done|]. cbn [runBlock]. apply xwp_bind.
  destruct l as [|j l].
  - eapply xwp_mono; [by eapply exec_end, Hor| |done]. intros [] s Hs; by apply xwp_ret.
  - change (match stepOk D Psi nt c G i with Some (c', G') => instrsOk D Psi nt c' G' (j :: l) | None => false end = true) in Hl.
    destruct (stepOk D Psi nt c G i) as [[c' G']|] eqn:Es; [|done]. destruct (stepOk_around _ _ _ _ _ _ _ _ Es) as [Elo Epo].
    eapply xwp_mono; [by eapply exec_step| |done]. intros [|b|] [ex' w'] Hs; [|by apply xwp_ret..].
    destruct Hs as [Hi' Hf']. eapply IH; [done..|]. intros i' Hi''. rewrite (endOrdered_around _ _ _ c) by done. by apply Hor.
Qed.

End block.

(** The error of a failed guard, or of a poll that has timed out. *)
Lemma xwp_propagateGuard sp (Q : flow -> state -> Prop) s :
  inv s -> is_Some (pending s.1) -> xwp (fun _ => propagateError sp) Q Fails s.
Proof.
  destruct s as [ex w]. intros Hi [p Hp]. apply xwp_bind, xwp_get. cbn in *. rewrite Hp.
  apply xwp_bind, xwp_modify, xwp_fail. split; [by apply inv_setPending|done].
Qed.

Lemma pollFailure_onward sp t e m last f :
  option_map (fun f => f sp t e m last) RenderPollFailure = Some f -> onward f.
Proof. destruct RenderPollFailure as [g|] eqn:E; [|done]. intros [= <-]. by apply law_pollFailure. Qed.

Lemma xwp_propagateTimeout sp (Q : flow -> state -> Prop) s :
  inv s -> ready TimesOut s -> xwp (fun _ => propagateError sp) Q Fails s.
Proof.
  destruct s as [ex w]. intros Hi [Hp Hpo]. apply xwp_bind, xwp_get. cbn in *. rewrite Hp.
  apply xwp_bind, xwp_get. cbn [fst]. destruct (polls ex) as [|top rest] eqn:Ep; [done|]. destruct Hpo as [-> ->].
  cbn [andb].
  apply xwp_bind. eapply xwp_keeps; [apply keeps_driverHook, pollFailure_onward|done|]. intros [] w1 Hs1 Hi1.
  apply xwp_bind, xwp_onWorld, xwp_modify, xwp_bind, xwp_modify, xwp_bind, xwp_get, xwp_fail. cbn [fst snd].
  split; [|by destruct (inDef _)]. destruct Hi1. cbn in *. rewrite Ep in *. split; cbn in *; try done.
  - by destruct i_ok0.
  - lia.
  - by inversion i_done0.
Qed.

(** The clean-up blocks end the unit. *)
Definition finished (f : flow) (s : state) : Prop := f = Falls /\ inv s.

Lemma block_fails l : forall f sc s, inv s -> ready (GuardFails f sc) s -> failOk D f sc l = true ->
  xwp (fun k => runBlock (run k) l) finished Fails s.
Proof.
  induction l as [|i l IH]; intros f sc [ex w] Hi (Hf & Hsc & Hp) Hl; [done|]. cbn in Hf, Hsc, Hp.
  destruct i; try done; cbn [runBlock]; apply xwp_bind.
  - cbn -[Nat.leb] in Hl. apply andb_true_iff in Hl as [Hle%Nat.leb_le Hl]. cbn [execInstr]. apply xwp_bind.
    eapply xwp_popFrame; [done|lia|]. intros fs Hfs Hi1. apply xwp_ret. eapply IH; [done| |exact Hl]. cbn. lia || (repeat split; [lia|lia|done]).
  - cbn -[Nat.ltb Nat.eqb base] in Hl. apply andb_true_iff in Hl as [Hle Hl].
    assert (1 <= sc) as Hsc1.
    { destruct (bool_decide _); [apply andb_true_iff in Hle as [_ Hle%Nat.eqb_eq]; lia|apply Nat.ltb_lt in Hle; lia]. }
    cbn [execInstr]. eapply xwp_runDefers; [done|cbn; lia|]. intros s' Hd. cbn beta.
    eapply IH; [apply Hd| |exact Hl]. destruct Hd. cbn in *. rewrite dr_frames0, dr_scopes0, dr_pending0, length_drop.
    split; [done|]. split; [lia|done].
  - cbn [execInstr]. by apply xwp_propagateGuard.
Qed.

Lemma block_cleansUp k l s :
  inv s -> ready k s -> ~ normal k -> blockOk D Psi nt k l = true -> xwp (fun i => runBlock (run i) l) finished Fails s.
Proof.
  intros Hi Hr Hn Hl. destruct s as [ex w]. destruct k as [c m|f sc| | |]; cbn [blockOk] in Hl.
  - by destruct Hn.
  - by eapply block_fails.
  - do 2 (destruct l as [|i l]; [done|]; destruct i; try done). destruct l; [|done]. cbn [runBlock]. apply xwp_bind, xwp_bind.
    eapply xwp_keeps; [apply keeps_traceRendered|done|]. intros [] w1 Hs1 Hi1. apply xwp_ret.
    apply xwp_bind. by apply xwp_propagateTimeout.
  - do 3 (destruct l as [|i l]; [by repeat case_match|]; destruct i; try (by repeat case_match)).
    destruct Policy; try done. destruct l; [|done]. cbn in Hr. destruct Hr as [Hfr Hsc].
    cbn [runBlock]. apply xwp_bind. eapply xwp_runDefers; [done|done|]. intros [ex1 w1] Hd. apply xwp_bind, xwp_bind.
    eapply xwp_popFrame; [apply Hd|rewrite (dr_frames _ _ Hd : length (frames w1) = _); done|].
    intros fs Hfs Hi2. apply xwp_ret. apply xwp_bind, xwp_ret, xwp_ret. by split.
  - done.
Qed.

(** ** Units *)

Context (mem : list ir.BasicBlock).
Context (Hctx : forall b k, Psi !! b = Some k -> ctxOk Psi b k = true).
Context (Hmem : forall b k, Psi !! b = Some k -> exists blk, mem !! b = Some blk /\
  blockOk D Psi nt k (ir.instrs blk) = true /\ blockOrdered order Psi b k (ir.instrs blk) = true).

(** A list of levels that a context allows. *)
Definition bound : nat := S (list_max (map (fun k => match k with
  | Normal c _ => 2 * (length (sLoops c) + length (sPolls c)) | _ => 0 end) Psi)).

Lemma levels_bound b c m s : Psi !! b = Some (Normal c m) -> fitsAt (levelsOf order s) c (given m) s ->
  length (left_ order b (levelsOf order s)) <= bound.
Proof.
  intros Hb []. cbn [left_ length]. unfold levelsOf, bound. rewrite length_levels.
  apply Forall2_length in f_loops0, f_polls0. rewrite <- f_loops0, <- f_polls0.
  pose proof (proj1 (list_max_le (map (fun k => match k with
    | Normal c _ => 2 * (length (sLoops c) + length (sPolls c)) | _ => 0 end) Psi) _) (le_n _)) as Hm.
  apply le_n_S. eapply (Forall_lookup_1 _ _ b _ Hm). by rewrite list_lookup_fmap, Hb.
Qed.

(** A unit from the instructions of a block on; [j] steps have been taken. *)
Definition runFrom (j : nat) (b : ir.block) (i : nat) : M unit :=
  match mem !! b with
  | None => xpanic
  | Some blk => let* f := runBlock (run i) (ir.instrs blk) in
                match f with Next b' => runUnit (run i) mem (i - j) b' | _ => xret tt end
  end.

Lemma unit_enters j b Q E s :
  xwp (fun i => enterBlock b ;* runFrom (S j) b i) Q E s -> xwp (fun i => runUnit (run i) mem (i - j) b) Q E s.
Proof.
  intros (k & r & s' & Hm & Hr). exists (Nat.max k (S j)), r, s'. split; [|done]. intros i Hi.
  rewrite <- (Hm i) by lia. destruct (i - j) as [|x] eqn:E'; [lia|]. cbn [runUnit]. unfold runFrom.
  by replace (i - S j) with x by lia.
Qed.

Lemma unit_cleansUp j b k s : ~ normal k -> inv s -> Psi !! b = Some k -> ready k s -> xwp (runFrom j b) (fun _ => inv) Fails s.
Proof.
  intros Hn Hi Hb Hr. destruct (Hmem _ _ Hb) as (blk & Hblk & Hok & _). unfold runFrom. rewrite Hblk. apply xwp_bind.
  eapply xwp_mono; [by eapply block_cleansUp| |done]. intros x s1 [-> Hi1]. by apply xwp_ret.
Qed.

Lemma unit_runs l : forall j b c m s, l = left_ order b (levelsOf order s) ->
  inv s -> Psi !! b = Some (Normal c m) -> ready (Normal c m) s -> xwp (runFrom j b) (fun _ => inv) Fails s.
Proof.
  induction (lowersTo_wf bound l) as [l _ IH]. intros j b c m [ex w] -> Hi Hb Hr.
  destruct (Hmem _ _ Hb) as (blk & Hblk & Hok & Hor). unfold runFrom. rewrite Hblk. apply xwp_bind.
  eapply xwp_mono; [eapply (block_normal b (levelsOf order (ex, w))); [exact Hi|exact Hr|exact Hok|]| |done].
  - intros i Hlast. cbn in Hor. by rewrite Hlast in Hor.
  - intros [|b'|] s1 Hs; [by apply xwp_ret| |by apply xwp_ret].
    apply (unit_enters j), xwp_bind. eapply xwp_mono; [by eapply xwp_enterBlock| |done].
    intros [] s2 (Hi2 & k2 & Hb2 & Hr2 & Hl2).
    destruct k2 as [c2 m2| | | |]; [|by eapply unit_cleansUp; [..|exact Hr2]; [intros []|..]..].
    eapply IH; [|reflexivity|exact Hi2|exact Hb2|exact Hr2]. split; [by apply Hl2|]. by eapply levels_bound.
Qed.

(** From the entry of the unit. *)
Lemma unit_run b s : inv s -> forall c m, Psi !! b = Some (Normal c m) -> ready (Normal c m) s ->
  xwp (fun i => runUnit (run i) mem i b) (fun _ => inv) Fails s.
Proof.
  intros Hi c m Hb Hr. assert (xwp (fun i => runUnit (run i) mem (i - 0) b) (fun _ => inv) Fails s) as Hu.
  - apply unit_enters, xwp_bind, (xwp_result _ (Ok tt) s); [intros _; by eapply enterBlock_ready|]. by eapply unit_runs.
  - destruct Hu as (k & r & s' & Hk & Hu). exists k, r, s'. split; [|done]. intros i Hik. specialize (Hk i Hik).
    by rewrite Nat.sub_0_r in Hk.
Qed.

Lemma exitPolls_eq k : forall w, exitPolls k w = (Ok tt, setPolls (activePolls w - k) w).
Proof.
  induction k as [|k IH]; intros w; cbn [exitPolls].
  - rewrite Nat.sub_0_r. by destruct w.
  - unfold xbind, exitPoll, xmodify. rewrite IH. cbn. by rewrite <- Nat.sub_add_distr.
Qed.

(** Whatever the unit has done, the clean-up leads back to its start. *)
Lemma unwind_restores (Q : unit -> state -> Prop) E s :
  inv s -> (forall ex' w', stable w0 w' -> Q tt (ex', w')) -> xwp (fun k => unwindOnExit (run k)) Q E s.
Proof.
  destruct s as [ex w]. intros Hi HQ. apply xwp_bind, xwp_modify, xwp_bind, xwp_get, xwp_bind, xwp_onWorld. cbn [fst snd].
  eapply (xwp_result _ (Ok tt)); [intros _; apply exitPolls_eq|]. apply xwp_bind, xwp_modify, xwp_bind. cbn [fst snd].
  set (s1 := (setPollStates [] (setLoops [] ex), setPolls (activePolls w - length (polls (setLoops [] ex))) w)).
  assert (inv s1) as Hi1.
  { destruct Hi. cbn in *. split; cbn; try done; [by destruct i_ok0|lia]. }
  eapply (xwp_drainScopesTo _ _ _ s1); [exact Hi1|]. intros [ex2 w2] [Hex Hfr Ht Hi2]. cbn in Hex, Hfr, Ht.
  apply xwp_bind, xwp_get. cbn [fst].
  pose proof (i_entry _ Hi2) as He2. cbn in He2. rewrite He2. pose proof (i_frames _ Hi2) as Hf2. cbn in Hf2.
  eapply xwp_popToDepth; [exact Hi2|done|]. intros fs Hlen Hi3. rewrite Nat.min_r in Hlen by done.
  apply HQ. destruct Hi3. cbn in *. subst ex2. cbn in *. rewrite Nat.sub_0_r, drop_all in i_scopes0.
  split; cbn; try done; try lia. intros _. apply (ok_defs _ _ i_ok0).
Qed.

Lemma unit_safe b c m frame s :
  inv s -> Psi !! b = Some (Normal c m) -> ready (Normal c m) s -> (forall e, consistent e -> consistent (frame e)) ->
  xwp (fun k => runAndUnwind (run k) mem k b frame) (fun _ s' => stable w0 s'.2) (fun e s' => stable w0 s'.2 /\ consistent e) s.
Proof.
  intros Hi Hb Hr Hfr. apply xwp_bind, xwp_try. eapply xwp_mono; [by eapply unit_run| |].
  - intros [] s1 Hi1. apply xwp_bind, unwind_restores; [done|]. intros ex' w' Hs. by apply xwp_ret.
  - intros e s1 [Hi1 Hc]. apply xwp_bind, unwind_restores; [done|]. intros ex' w' Hs. apply xwp_fail. auto.
Qed.
End unit_.

(** ** Calls and programs *)

Lemma blocksOk_lookup D Psi nt : forall ks mem b0, blocksOk D Psi nt b0 ks mem = true ->
  forall b k, ks !! b = Some k -> ctxOk Psi (b0 + b) k = true /\
    exists blk, mem !! b = Some blk /\ blockOk D Psi nt k (ir.instrs blk) = true.
Proof.
  induction ks as [|k ks IH]; intros mem b0 Hk b k' Hb; [done|]. destruct mem as [|blk mem]; [done|].
  cbn [blocksOk] in Hk. rewrite !andb_true_iff in Hk. destruct Hk as [[Hc Hbk] Hr]. destruct b as [|b]; cbn in Hb.
  - injection Hb as <-. rewrite Nat.add_0_r. split; [done|]. by exists blk.
  - destruct (IH _ _ Hr _ _ Hb) as [Hc' Hm]. by rewrite Nat.add_succ_r.
Qed.

Lemma ordered_lookup order Psi : forall ks mem b0, ordered order Psi b0 ks mem = true ->
  forall b k blk, ks !! b = Some k -> mem !! b = Some blk -> blockOrdered order Psi (b0 + b) k (ir.instrs blk) = true.
Proof.
  induction ks as [|k ks IH]; intros mem b0 Ho b k' blk Hk Hb; [done|]. destruct mem as [|blk0 mem]; [done|].
  cbn [ordered] in Ho. apply andb_true_iff in Ho as [Ho Hr]. destruct b as [|b]; cbn in Hk, Hb.
  - injection Hk as <-. injection Hb as <-. by rewrite Nat.add_0_r.
  - rewrite Nat.add_succ_r. by apply (IH _ _ Hr).
Qed.

Section program.
Context `{Foreign} `{!DriverTypes} `{!Driver} `{!DriverLaws}.

(** A unit with its parameters in place, from the state in which it is entered. *)
Lemma unitOk_safe n run D Psi nt order w0 mem entry params frame ex :
  runOk n run -> unitOk D Psi nt entry params mem = true -> ordered order Psi 0 Psi mem = true -> okWorld (S n) w0 ->
  (forall e, consistent e -> consistent (frame e)) ->
  length (temps ex) = nt -> tempsFit (given params) (temps ex) ->
  ex = MkExecutor (temps ex) ∅ None [] [] [] absent false 0 (length (frames w0)) D false ->
  xwp (fun k => runAndUnwind (run k) mem k entry frame) (fun _ s => stable w0 s.2) (fun e s => stable w0 s.2 /\ consistent e) (ex, w0).
Proof.
  intros Hrun Hu Ho Hw Hfr Hlen Htemps Hex. unfold unitOk in Hu. rewrite !andb_true_iff in Hu. destruct Hu as [[He _] Hb].
  pose proof (blocksOk_lookup _ _ _ _ _ _ Hb) as Hblocks. cbn in Hblocks.
  pose proof (ok_frames _ _ Hw). rewrite Hex in Hlen, Htemps |- *. cbn in Hlen, Htemps.
  eapply (unit_safe n run Hrun D Psi nt order w0 mem).
  - intros b k Hk. apply (Hblocks b k Hk).
  - intros b k Hk. destruct (Hblocks b k Hk) as [_ (blk & Hblk & Hok)]. exists blk. split; [done|]. split; [done|].
    by apply (ordered_lookup _ _ _ _ _ Ho).
  - split; cbn; try done; try lia; by constructor.
  - by apply enters_lookup.
  - by split; cbn.
  - exact Hfr.
Qed.

(** Binding the arguments of a call fills the first temporaries. *)
Lemma bindArgsFrom_safe n params : forall args i (ex : executor) w,
  length args = length params -> i + length params <= length (temps ex) -> okWorld (S n) w -> tempsFit (given i) (temps ex) ->
  xwp (fun _ => bindArgsFrom params args i)
    (fun _ s => s.2 = w /\ length (temps s.1) = length (temps ex) /\ tempsFit (given (i + length params)) (temps s.1) /\
       s.1 = MkExecutor (temps s.1) (bindArgs ex) (pending ex) (loops ex) (scopes ex) (polls ex) (returnValue ex) (hasReturn ex)
               (localDeferFailures ex) (entryFrameDepth ex) (inDef ex) (skipProgramScope ex))
    (fun e s => s.2 = w /\ consistent e) (ex, w).
Proof.
  induction params as [|p params IH]; intros [|a args] i ex w Hl Hi Hw Ht; try done; cbn [bindArgsFrom].
  - apply xwp_ret. cbn. rewrite Nat.add_0_r. by destruct ex.
  - cbn in Hl, Hi. apply xwp_bind, xwp_lift.
    + auto with returns.
    + intros v _. apply xwp_bind. apply (xwp_result _ (Ok tt) (setTemp i (SValue v) ex, w)).
      { intros _. unfold store. by rewrite (proj2 (Nat.ltb_lt _ _)) by lia. }
      eapply xwp_mono; [apply (IH args (S i)); [lia|cbn; rewrite length_insert; lia|done|]| |done].
      * cbn [given setTemp temps]. apply tempsFit_insert; [lia|done|done].
      * intros [] [ex' w'] (-> & Hlen & Hty & Hex). cbn in *. rewrite length_insert in Hlen.
        split; [done|]. split; [done|]. rewrite <- Nat.add_succ_comm. by split.
    + intros e He. split; [done|]. revert He. unfold bindDefArg. repeat case_match; try done; by intros [= <-].
Qed.

Lemma runLoweredDefCall_keeps n run : runOk n run -> runOk (S n) (fun k => runLoweredDefCall (run k) k).
Proof.
  intros Hrun def entry args (Psi & order & e & He & Hu & Ho) Hentry Hl w Hw. rewrite He in Hentry. injection Hentry as ->.
  apply xwp_bind, xwp_get, xwp_withExecutor, xwp_bind.
  set (ex := newExecutor (length (frames w)) (dvNumTemps def) true false).
  eapply xwp_mono.
  - apply (bindArgsFrom_safe n (dvParams def) args 0 ex w); [done| |done|by intros t ty Ht].
    cbn. rewrite length_replicate. unfold unitOk in Hu. rewrite !andb_true_iff, Nat.leb_le in Hu. tauto.
  - intros [] [ex1 w1] (E & Hlen & Hty & Hex). cbn in E, Hlen, Hty, Hex. subst w1. rewrite length_replicate in Hlen.
    apply xwp_bind. eapply xwp_mono.
    + eapply (unitOk_safe n run true Psi (dvNumTemps def) order w); [done|exact Hu|exact Ho|done|done|done|exact Hty|exact Hex].
    + intros [] [ex2 w2] Hs. by apply xwp_get.
    + done.
  - intros e [ex1 w1] [E Hc]. cbn in E |- *. subst. split; [reflexivity|done].
Qed.

(** [MaxDefCallDepth] bounds the calls that nest. *)
Lemma runCalls_keeps : forall calls, runOk calls (fun steps => runCalls steps calls).
Proof.
  induction calls as [|calls IH].
  - intros def entry args _ _ _ w []. lia.
  - cbn [runCalls]. by apply (runLoweredDefCall_keeps _ (fun steps => runCalls steps calls)).
Qed.

Lemma registerLoweredDefs_keeps n defs : Forall (fun d => goodDefValue (defValueOf d)) defs -> keeps n (fun _ => registerLoweredDefs defs).
Proof.
  induction 1 as [|d defs Hd _ IH]; [apply kept_ret|]. cbn [registerLoweredDefs].
  apply kept_bind; [|intros; exact IH]. apply kept_bind; [|intros; apply keeps_traceRendered].
  apply keeps_modify. intros w1 _. split; cbn; try done. intros Hg. by apply map_Forall_insert_2.
Qed.

Lemma execProgram_keeps n run lp : runOk n run -> wellFormed lp -> keeps (S n) (fun k => execProgram (run k) k lp false).
Proof.
  intros Hrun [[Psi Hb] Hd]. apply andb_true_iff in Hb as [Hb Ho]. apply kept_bind.
  - apply registerLoweredDefs_keeps. eapply List.Forall_impl; [|exact Hd]. intros d [Psi' [Hu Ho']%andb_true_iff]. by exists Psi', (ir.dfBlocks d), (ir.dfEntry d).
  - intros _ w Hw. apply xwp_bind, xwp_get, xwp_withExecutor.
    eapply (unitOk_safe n run false Psi (ir.prNumTemps lp) (ir.prBlocks lp) w); [done|exact Hb|exact Ho|done| | | |].
    + intros []; done.
    + cbn. by rewrite length_replicate.
    + by intros t ty Ht.
    + done.
Qed.

Lemma reportJobLeaks_keeps n js w : okWorld n w ->
  xwp (fun _ => reportJobLeaks js) (fun _ w' => stable w w' /\ jobs w' = jobs w)
    (fun e w' => (stable w w' /\ jobs w' = jobs w) /\ consistent e) w.
Proof.
  revert w. induction js as [|j js IH]; intros w Hw; cbn [reportJobLeaks];
    (destruct HandleJobLeak as [h|] eqn:Eh; [|by apply xwp_ret]); [by apply xwp_ret|].
  apply xwp_bind, xwp_get, xwp_bind. destruct (IsManaged j (drv w)).
  - apply xwp_ret. by apply IH.
  - destruct (law_leak n h Eh j w Hw) as (k & r & w1 & Hk & Hr). specialize (Hk k (le_n _)).
    pose proof (law_leak_jobs h Eh j w) as Hj. rewrite Hk in Hj. cbn in Hj.
    apply (xwp_result _ r w1); [intros _; exact Hk|]. destruct r as [[]|e| |]; try done.
    + eapply xwp_mono; [apply IH; by eapply okWorld_stable| |]; cbn; rewrite Hj.
      * intros [] w2 [Hs Hj2]. split; [by transitivity w1|done].
      * intros e w2 [[Hs Hj2] Hc]. split; [|done]. split; [by transitivity w1|done].
    + by destruct Hr.
Qed.

(** C2: A well-formed program runs to an end, and safely,
    whatever the driver does that respects its laws. There is a number of steps from
    which on execution gives one and the same result, and then the steps have not run
    out: every loop, every poll and every call of a def ends. It does not panic (no
    temporary, argument, frame or block is missing, calls of defs do not overflow the
    stack) and does not end in one of the errors that report inconsistent IR. With or
    without an error, the number of frames, the defer scope, the count of active
    polls, the depth of the calls, the draining flag and the job registry are in the
    end what they were before, and the session's defs are well formed. *)
Theorem Exec_safe lp w :
  wellFormed lp -> 1 <= length (frames w) -> goodDefs w -> defCallDepth w <= MaxDefCallDepth ->
  exists enough r w', (forall steps, enough <= steps -> Exec steps lp w = (r, w')) /\
    stable w w' /\ jobs w' = jobs w /\ match r with Ok _ => True | Err e => consistent e | Panics | NoFuel => False end.
Proof.
  intros Hlp Hf Hd Hc. assert (okWorld (S MaxDefCallDepth) w) as Hw by (split; [done..|lia]).
  cut (xwp (fun steps => Exec steps lp) (fun _ w' => stable w w' /\ jobs w' = jobs w)
         (fun e w' => stable w w' /\ jobs w' = jobs w /\ consistent e) w).
  { intros (k & r & w' & Hk & Hr). exists k, r, w'. split; [done|]. destruct r; tauto. }
  apply xwp_bind, xwp_get, xwp_bind, xwp_modify, xwp_bind, xwp_try.
  assert (forall w1, stable w w1 -> forall r : unit + rerror, match r with inl _ => True | inr e => consistent e end ->
    xwp (fun _ => let* js := xget jobs in xmodify (setJobs (jobs w)) ;* reportJobLeaks (default [] js) ;*
         match r with inl a => xret a | inr e => xfail e end)
      (fun _ w' => stable w w' /\ jobs w' = jobs w) (fun e w' => stable w w' /\ jobs w' = jobs w /\ consistent e) w1) as Hrest.
  { intros w1 Hs r Hr. apply xwp_bind, xwp_get, xwp_bind, xwp_modify, xwp_bind.
    assert (stable w (setJobs (jobs w) w1)) as Hs' by (destruct Hs; by split).
    eapply xwp_mono; [apply (reportJobLeaks_keeps (S MaxDefCallDepth)); by eapply okWorld_stable| |].
    - intros [] w2 [Hs2 Hj]. assert (stable w w2) by (by etransitivity).
      destruct r; [by apply xwp_ret|by apply xwp_fail].
    - intros e w2 [[Hs2 Hj] He]. split; [by etransitivity|done]. }
  assert (stable w (setJobs (Some []) w)) as Hs0 by (by split).
  eapply xwp_mono.
  - apply (execProgram_keeps _ _ lp (runCalls_keeps _) Hlp (setJobs (Some []) w)). by eapply okWorld_stable.
  - intros [] w1 Hs. apply (Hrest w1 (transitivity Hs0 Hs) (inl tt) I).
  - intros e w1 [Hs He]. apply (Hrest w1 (transitivity Hs0 Hs) (inr e) He).
Qed.
End program.
