(* ===== verification/ExecScenarios.v ===== *)
(** * Scripts through the executor

    A driver over a clock and a log, and scripts from their source to what they do:
    the executor's safety at one of them, and what polls do with a retry and with a
    return that the comments do not say. *)

From Stdlib Require Import ZArith Lia Ascii.
From stdpp Require Import base tactics list gmap strings option.
From S2P Require Import Prelude Lexer LexerReturns Literals Ast ExprParser StmtParser.
From S2P Require Import Floats Value Operands Ir Lower IrTyping LowerTyped ShellScenarios World Eval Exec ExecLogic ExecSafe.

#[local] Open Scope shell_scope.

(** ** A driver *)

#[export] Instance noForeign : Foreign :=
  {| foreign := Empty_set; foreignStep := fun x _ => Some x; foreignKind := fun _ => OriginUnknown |}.

(** What has been done, latest first, and the time; the clock gains a millisecond
    each time it is read. *)
Record demo := MkDemo { log : list bytes; clock : Z }.
#[export] Instance demoTypes : DriverTypes := {| dState := demo; tracer := unit; Job := unit |}.

Definition logged (line : bytes) : dState -> dState := fun d => MkDemo (line :: log d) (clock d).

Definition failed : BindResult := MkBindResult FailEnvelope (ValueFromEnvelope FailEnvelope).

(** The command "fail" fails, "nth" is its last argument, all others succeed. *)
Definition demoBind (args : list Arg) (sp : Span) : W BindResult :=
  xmodify (fun w => setDrv (logged (renderArgvTrace args) (drv w)) w) ;*
  xret match args with
       | WordArg name _ :: rest =>
         if bool_decide (name = B "fail") then failed
         else MkBindResult OkEnvelope (match rest !! (length rest - 1) with Some a => argToValue a | None => NullValue end)
       | _ => MkBindResult OkEnvelope NullValue
       end.

#[export] Instance demoDriver : Driver :=
  {| ExecCommand := Some (fun args _ => xmodify (fun w => setDrv (logged (renderArgvTrace args) (drv w)) w) ;* xret absent);
     ExecBind := Some demoBind;
     ExecAssert := Some (fun _ _ _ => xret tt);
     PrintResult := Some (fun v d => (None, logged (rendered v []) d));
     RenderDeferFailure := Some (fun _ args _ => logged (B "defer failed: " ++ renderArgvTrace args));
     RenderDeferOutput := None;
     HandleJobLeak := None;
     IsManaged := fun _ _ => true;
     Trace := fun _ _ text => logged text;
     RenderPollFailure := Some (fun _ _ _ n last => logged (B "poll failed: " ++ last));
     Now := fun d => (clock d, MkDemo (log d) (clock d + 1000000));
     Sleep := fun t d => MkDemo (log d) (clock d + t);
     Error := fun _ => B "failed" |}.

Lemma onward_log line : onward (logged line).
Proof. intros d. unfold time. cbn. lia. Qed.

Lemma keeps_log n (f : world -> bytes) : keeps n (fun _ => xmodify (fun w => setDrv (logged (f w) (drv w)) w)).
Proof. apply keeps_modify. intros w _. apply (stable_drv w (logged (f w))), onward_log. Qed.

#[export] Instance demoLaws : DriverLaws.
Proof.
  split.
  - intros n f [= <-] args sp. apply kept_bind; [apply keeps_log|intros; apply kept_ret].
  - intros n f [= <-] args sp. apply kept_bind; [apply keeps_log|intros; apply kept_ret].
  - intros n f [= <-] r c sp. apply kept_ret.
  - intros f [= <-] v d. split; [apply onward_log|done].
  - done.
  - done.
  - intros f [= <-] p a e. apply onward_log.
  - done.
  - intros f [= <-] sp t e n l. apply onward_log.
  - intros t p text. apply onward_log.
  - intros d. unfold time. cbn. lia.
  - intros t d Ht. unfold time. cbn. lia.
Qed.

(** ** Runs *)

Definition session : world := NewSession None (MkDemo [] 0).

Definition logOf (w : world) : list string := map String.string_of_list_ascii (rev (log (drv w))).

(** The format of the error, if there is one, and the log. *)
Definition run (src : string) : option error * list string :=
  match Exec 1000 (lowered (ofString src)) session with
  | (Ok _, w) => (None, logOf w)
  | (Err e, w) => (Some (errorText e), logOf w)
  | (_, w) => (Some (Errorf "no result"), logOf w)
  end.

Definition script2 : string := "def twice(x: number) {
  defer release $x
  let y = $x * 2
  if $y > 4 { return 4 } else { return $y }
}
foreach (a b) in [[1 2] [3 4]] {
  let r <- twice $b
  print $a $r.value
}
guard all <- foreach x in [1 2 3] {
  if $x == 2 { continue }
  twice $x
}
print $all
poll timeout 10s every 1s {
  defer cleanup
  retry 'no'
}
print never
".

(** Deferred commands run when their def or attempt is left, the loops bind and
    collect, the poll makes its attempts until its deadline. *)
Example script2_run :
  run script2 =
  (Some (Errorf "poll timed out after %s across %d attempt(s): %s"),
   ["release 2"; "print 1 4"; "release 4"; "print 3 4"; "release 1"; "release 3"; "print [2,4]"]%string ++
   repeat "cleanup"%string 11 ++ ["poll failed: no"%string]).
Proof. vm_compute. reflexivity. Qed.

Lemma Exec_safe_witness :
  let lp := lowered (ofString script2) in
  (wellFormed lp /\ 1 <= length (frames session) /\ goodDefs session /\ defCallDepth session <= MaxDefCallDepth) /\
  exists enough r w', (forall steps, enough <= steps -> Exec steps lp session = (r, w')) /\
    stable session w' /\ jobs w' = jobs session /\ match r with Ok _ => True | Err e => consistent e | Panics | NoFuel => False end.
Proof.
  assert (forall prog p, forallb (closedStmt false) (progStmts prog) = true -> Lower prog = Done p -> wellFormed p) as Hl.
  { intros prog p Hc. pose proof (wp_body (progStmts prog) (progSpan prog) Hc) as Hb. unfold LowerLogic.wp in Hb. unfold Lower.
    destruct (lowerBody _ _ _) as [[entry s]| |]; [|done|done]. intros [= <-]. destruct Hb as [Hd Hb]. by split. }
  assert (wellFormed (lowered (ofString script2))) as Hw by (apply (Hl (parsed (ofString script2))); vm_compute; reflexivity).
  assert (1 <= length (frames session)) as Hf by (cbn; lia).
  assert (goodDefs session) as Hd by apply map_Forall_empty.
  assert (defCallDepth session <= MaxDefCallDepth) as Hc by (cbn; lia).
  split; [by split|]. exact (Exec_safe _ _ Hw Hf Hd Hc).
Defined.

(** ** What the comments do not say *)

(** A def that retries, called as a command in an attempt, retries the attempt; called
    through a pipe it ends the poll with an error. *)
Example retry_through_a_pipe :
  (run "def again(x) { retry 'later' }
poll timeout 3s every 1s { again 1 }",
   run "def again(x) { retry 'later' }
poll timeout 3s every 1s { let r = (1 |> again) }") =
  ((Some (Errorf "poll timed out after %s across %d attempt(s): %s"), ["poll failed: later"%string]),
   (Some (Errorf "poll retry: %s"), [])).
Proof. vm_compute. reflexivity. Qed.

(** A failed cleanup of a def makes its result not ok; when the def returns from a
    poll it does not. *)
Example return_from_a_poll :
  (run "def f() { defer fail
 return 1 }
let r <- f
print $r.ok",
   run "def f() { defer fail
 poll timeout 3s every 1s { return 1 } }
let r <- f
print $r.ok") =
  ((None, ["fail"; "defer failed: fail"; "print false"]%string),
   (None, ["fail"; "defer failed: fail"; "print true"]%string)).
Proof. vm_compute. reflexivity. Qed.

(** A continue that leaves a poll leaves the commands that its attempt deferred to the
    end of the program. *)
Example continue_across_a_poll :
  run "foreach x in [1 2 3] { poll timeout 3s every 1s { defer clean $x
 continue } }
print done" = (None, ["print done"; "clean 3"; "clean 2"; "clean 1"]%string).
Proof. vm_compute. reflexivity. Qed.

(** A break that leaves a poll leaves the poll active: a later retry outside every
    poll is taken by it, and ends in an error about the IR. *)
Example break_across_a_poll :
  run "def g() { retry 'no' }
foreach x in [1 2] { poll timeout 3s every 1s { break } }
let r <- g
print done" = (Some (Errorf "exit-loop: outside any loop"), []).
Proof. vm_compute. reflexivity. Qed.
